(* ===== verification/_CoqProject ===== *)
-Q . S2P
Prelude.v
SeekIo.v
IndexIoUtil.v
F32.v
F64.v
F32Arith.v
TopK.v
Adjacency.v
OffsetLru.v
WindowCache.v
ReadOptions.v
ValidationCache.v
DiskannUtil.v
RowIds.v
DiskannHeader.v
Distance.v
KmeansSearch.v
Range.v
RangeQueries.v
Collect.v
SectionWriter.v
IvfFlatFile.v
IvfFlatRoundtrip.v
IvfFlatStream.v
IvfFlatScan.v
IvfFlatSearch.v
IvfFlatNearest.v
IvfFlatBatch.v
IvfFlatRange.v
AdjacencyLayout.v
PageValidation.v
Pq.v
DiskannFile.v
DiskannReader.v
ReaderPages.v
SparseTable.v
CompactAdjacency.v
VamanaGraph.v
VamanaRepair.v
RobustPrune.v
GreedySearch.v
VamanaBuild.v
KmeansTrain.v
KmeansTotal.v
KmeansBlocks.v
KmeansStream.v
PqTrain.v
TrainingPlan.v
PqBuildDistance.v
VamanaSequential.v
VamanaShards.v
VamanaShardedBuild.v
DiskannIndex.v
DiskannSave.v
