(* ===== verification/Prelude.v ===== *)
(** * A verification of the storage core of paimon-vector-index

    The repository is a vector index library in Rust ([src/core]) with bindings.
    An index is built in memory, written once to a file, and later read
    through positional reads by searchers that share a cache.  This development
    models the part of it that decides what the bytes mean and what the shared
    state is: the I/O seam, the codecs, the DiskANN file format from its graph to
    its bytes and back, the caches of the reader, the product quantizer's layout
    and codes, and the containers the searches rely on.

    ** Correspondence

    - [Prelude]: machine integers with their checked, wrapping and saturating
      operations, [io::Result] with panics kept apart ([io_result]), bytes and
      slices, the tactics and hint databases.
    - [SeekIo]: the traits [SeekRead] and [SeekWrite] of [io.rs] as classes with
      their laws, the [Read + Seek] implementation, [PreadCursor], [PosWriter].
    - [IndexIoUtil]: [index_io_util.rs], the varint and delta-coded identifier
      sections, the bounds of streamed and batched reads, the validators.
    - [F32], [TopK]: the order of [f32] bit patterns and the heap of [topk.rs].
    - [SparseTable]: the open-addressing table of [sparse_table.rs].
    - [Adjacency], [AdjacencyLayout]: neighbour-list codec, locators, page
      planning, the page and index sections of [diskann_io.rs].
    - [OffsetLru], [WindowCache]: the shared window cache of the DiskANN reader,
      each critical section a function and their interleavings a step relation.
    - [DiskannUtil], [DiskannHeader]: fields, section ranges, the 256-byte header
      and the layout computation ([diskann_io.rs], [diskann.rs], [distance.rs]).
    - [RowIds]: raw and bit-packed row identifiers and their section.
    - [SectionWriter]: the buffered section output.
    - [Pq]: layouts, codes and the stored codebook of the product quantizer
      ([pq.rs], [diskann_io.rs]).
    - [DiskannFile]: [write_diskann_index] as a whole and the readers of the
      header and the resident sections.
    - [CompactAdjacency]: the sharded adjacency storage of [vamana.rs], with the
      representation [rep] of a list of neighbour lists.
    - [VamanaGraph]: reachability, validation, and the locality permutation of
      [diskann.rs] applied along its cycles.
    - [VamanaRepair]: connectivity repair; [RobustPrune]: pruning and the
      grouping of reverse edges; [GreedySearch]: the search with its visit
      states; [VamanaBuild]: random initialisation, the passes and the build.
    - [PqBuildDistance], [VamanaSequential], [VamanaShards],
      [VamanaShardedBuild]: the PQ-guided distance, the sequential build, the
      overlapping shards and the memory-bounded build over them.
    - [PqTrain]: training over a clustering argument and batch encoding ([pq.rs]).
    - [TrainingPlan], [DiskannIndex]: sample planning and reservoir, then
      construction, training, ingestion, memory estimates and [prepare_build]
      of [diskann.rs]; [DiskannSave]: the proof that these compose with the file.
    - [ReadOptions] ([read_options.rs]), [PageValidation], [ValidationCache],
      [DiskannReader] and the proofs in [ReaderPages]: the reader of
      [diskann_io.rs] as a state machine over a positional source: cache budgets,
      page validation, the lock-free record of verdicts, warm-up, row-ID order and
      preload.
    - [F64], [Range], [Collect]: widening, square root and order of floating-point
      bit patterns; distance bands, their derivation from public predicates and
      the result builder ([range.rs]); the collectors and top-k heaps of the list
      scans ([collect.rs], [ivfflat.rs], [ivfflat_io.rs]) behind the class
      [CollectorLaws].
    - [F32Arith], [Distance]: IEEE single-precision arithmetic on bit patterns,
      and the kernels of [distance.rs] with their lanes and reductions, for every
      architecture; [KmeansSearch]: the centroid searches of [kmeans.rs] over the
      matrix product of [blas.rs]; [KmeansTrain], [KmeansStream]: k-means
      training and its streaming variant; [KmeansTotal], [KmeansBlocks]: that it
      returns, and that the pool does not change it; [RangeQueries]: the preparation of range
      queries ([range.rs], [index.rs]).
    - [IvfFlatFile], [IvfFlatRoundtrip]: the IVF-Flat format of [ivfflat_io.rs],
      writer and reader, and the proof that an index reads back;
      [IvfFlatStream]: streamed lists; [IvfFlatScan]: the scan of rows for any
      collector; [IvfFlatSearch]: the searches; [IvfFlatNearest],
      [IvfFlatBatch], [IvfFlatRange]: what they return.

    ** What the theorems show

    Round trips: every codec reads back what it wrote, up to the whole file
    ([diskann_file_roundtrip]: header, quantizer, row IDs, codes, order and
    locators, through any reader that satisfies the laws of [SeekRead]).
    Soundness on arbitrary bytes: what the header, row-ID, list and identifier
    decoders accept is what a writer could have produced.  Refinement: the linked
    LRU is a list ordered by age, the sparse table is a finite map, the heap is
    the best distinct entries of what was pushed.  Invariants over
    interleavings: byte accounting, capacity and single flight of the window
    cache.  Bounds: section layouts, batch planners and stream chunks never
    exceed their limits nor overflow.  Error values: the inputs that are refused,
    and with which error.

    The graph: every build returns a valid, fully reachable graph on every input
    its checks accept, whatever the distance kernels return and whatever the
    random generator draws within its documented ranges; loops that draw until
    they succeed terminate for every fair source.  Repair and greedy search
    terminate with the promised result, pruning selects what the occlusion rule
    says, and relabelling is an isomorphism.  The composition: an index that
    passes the checks and the memory estimate is built, written and read back
    ([diskann_save_reads_back]).
    The reader: through any sequence of its operations it stays within its
    memory budget ([reader_memory_bounded]) and serves only well-formed pages of
    the file ([reader_pages_valid]); threads that validate pages agree on one
    verdict per page and finish under every schedule.
    IVF-Flat: an index that fits its fields is written and every list reads back
    ([ivfflat_roundtrip]); a search of the written file returns the nearest rows
    of the lists it probes, alone ([ivfflat_search_nearest]) or in a batch
    ([ivfflat_batch_nearest]), and a range search exactly the rows in the band
    ([ivfflat_range_exact]), for every schedule of its workers.  Underneath:
    abandoning a distance early is exact on every architecture
    ([early_abandon_exact], for finite numbers), the selections of centroids are
    sound ([streaming_selection_exact], [batch_selection_sound]), and the
    interval of raw distances derived from public predicates is exact
    ([band_from_endpoints_exact]).
    K-means training returns [k] centroids on every input of the right shape
    ([kmeans_train_total]; the splitting loop ends within [2 * k] rounds, its
    fuel), and its assignments and objective are the same for every thread pool
    ([assignment_pool_independent], for a matrix product that computes rows
    independently).

    ** Conventions and bounds

    A [w]-bit integer is a [Z] with its range stated where it matters; [usize]
    is 64 bits.  A panic (failed [expect], index out of range) is [Panic] or,
    in containers, [None]; the theorems show it is not reached.  Allocation is
    taken to succeed and error texts keep their literal part.  Loops without a
    structural argument take fuel equal to a quantity that decreases at every
    round (the bytes or elements left, the capacity of a table, the height
    of a heap), and each has a lemma that this fuel suffices, so the theorems
    about them are about results, not about partial runs.

    ** Not modelled

    The distances of the graph builds, training of codebooks and clusters, and
    the matrix product are arguments where a theorem needs them; the distance
    kernels of the list scans are modelled bit for bit, with the SIMD path as an
    argument.
    Wall-clock metrics, logging, memory allocation failures and the bindings are
    left out.  The [half] crate's conversions are parameters.
    The workers of a parallel batch search the same snapshot with a scratch
    each; the model runs them in order with one scratch, and
    [reverse_groups_any_order] shows that the order of the groups of reverse edges does
    not matter.  Not modelled: DiskANN search with its prefetching threads and
    the clones of the reader it uses, the other IVF index kinds with their
    quantized rows, the in-memory coarse assignment and ingestion of IVF-Flat,
    and the public API of [index.rs].
*)

From Stdlib Require Export ZArith Lia.
From stdpp Require Export base gmap strings numbers sorting option.
From stdpp Require Export list.

#[global] Open Scope Z_scope.

(** ** Machine integers

    A [w]-bit unsigned integer is a [Z] in [[0, 2^w)], a signed one a [Z] in
    [[-2^(w-1), 2^(w-1))].  [usize] is 64 bits wide throughout. *)

Definition u_ok (w x : Z) : Prop := 0 <= x < 2 ^ w.
Definition s_ok (w x : Z) : Prop := - 2 ^ (w - 1) <= x < 2 ^ (w - 1).

#[global] Instance u_ok_dec w x : Decision (u_ok w x).
Proof. unfold u_ok; apply _. Defined.
#[global] Instance s_ok_dec w x : Decision (s_ok w x).
Proof. unfold s_ok; apply _. Defined.

Definition u8 := u_ok 8.
Definition u16 := u_ok 16.
Definition u32 := u_ok 32.
Definition u64 := u_ok 64.
Definition usize := u_ok 64.
Definition i32 := s_ok 32.
Definition i64 := s_ok 64.

Definition U32_MAX : Z := 2 ^ 32 - 1.
Definition USIZE_MAX : Z := 2 ^ 64 - 1.

(** [as] casts: truncation to [w] bits, and the two's complement reading. *)
Definition wrap (w x : Z) : Z := x mod 2 ^ w.
Definition to_signed (w x : Z) : Z :=
  let y := x mod 2 ^ w in if y <? 2 ^ (w - 1) then y else y - 2 ^ w.

(** [checked_*] and [saturating_*] at [w] unsigned bits. *)
Definition checked_add (w a b : Z) : option Z :=
  if a + b <? 2 ^ w then Some (a + b) else None.
Definition checked_mul (w a b : Z) : option Z :=
  if a * b <? 2 ^ w then Some (a * b) else None.
Definition checked_sub (a b : Z) : option Z :=
  if b <=? a then Some (a - b) else None.
Definition saturating_add (w a b : Z) : Z := Z.min (a + b) (2 ^ w - 1).
Definition saturating_mul (w a b : Z) : Z := Z.min (a * b) (2 ^ w - 1).
Definition saturating_sub (a b : Z) : Z := Z.max (a - b) 0.
Definition div_ceil (a b : Z) : Z := (a + b - 1) / b.
(** [uN::try_from] on a non-negative source. *)
Definition try_from (w a : Z) : option Z := if a <? 2 ^ w then Some a else None.

(** ** Results

    [io::Result] with the panics of the standard library kept apart from the
    errors the code returns.  An error carries its [ErrorKind] and the literal
    text of its message; values interpolated by [format!] are left out. *)

Inductive ErrorKind : Set :=
  InvalidData | InvalidInput | UnexpectedEof | Unsupported | OutOfMemory | OtherKind.
#[global] Instance ErrorKind_eq_dec : EqDecision ErrorKind.
Proof. solve_decision. Defined.

Record io_error : Set := IoError { kind : ErrorKind; message : string }.
#[global] Instance io_error_eq_dec : EqDecision io_error.
Proof. solve_decision. Defined.

Inductive io_result (A : Type) : Type :=
  | Ok (a : A)
  | Err (e : io_error)
  | Panic.
Arguments Ok {_} _.
Arguments Err {_} _.
Arguments Panic {_}.

Definition invalid_data {A} (m : string) : io_result A := Err (IoError InvalidData m).
Definition invalid_input {A} (m : string) : io_result A := Err (IoError InvalidInput m).

#[global] Instance io_result_ret : MRet io_result := λ _ a, Ok a.
#[global] Instance io_result_bind : MBind io_result := λ _ _ f r,
  match r with Ok a => f a | Err e => Err e | Panic => Panic end.
#[global] Instance io_result_fmap : FMap io_result := λ _ _ f r,
  match r with Ok a => Ok (f a) | Err e => Err e | Panic => Panic end.

(** [Option::ok_or_else(..)?], [Option::expect] and [Result::map_err]. *)
Definition ok_or {A} (o : option A) (e : io_error) : io_result A :=
  match o with Some a => Ok a | None => Err e end.
Definition or_data {A} (o : option A) (m : string) : io_result A :=
  ok_or o (IoError InvalidData m).
Definition or_input {A} (o : option A) (m : string) : io_result A :=
  ok_or o (IoError InvalidInput m).
Definition expect {A} (o : option A) : io_result A :=
  match o with Some a => Ok a | None => Panic end.
Definition map_err {A} (f : io_error → io_error) (r : io_result A) : io_result A :=
  match r with Err e => Err (f e) | r => r end.
(** [if cond { return Err(e) }] *)
Definition guard_ok (b : bool) (e : io_error) : io_result unit :=
  if b then Ok () else Err e.
Definition ensure_data (b : bool) (m : string) : io_result unit :=
  guard_ok b (IoError InvalidData m).
Definition ensure_input (b : bool) (m : string) : io_result unit :=
  guard_ok b (IoError InvalidInput m).

Definition is_ok {A} (r : io_result A) : bool :=
  match r with Ok _ => true | _ => false end.

(** Iteration over a list inside a result, in the style of a [for] loop with [?]. *)
Fixpoint try_fold {A B} (f : B → A → io_result B) (b : B) (l : list A) : io_result B :=
  match l with
  | [] => Ok b
  | a :: l => b' ← f b a; try_fold f b' l
  end.
Fixpoint try_map {A B} (f : A → io_result B) (l : list A) : io_result (list B) :=
  match l with
  | [] => Ok []
  | a :: l => b ← f a; bs ← try_map f l; Ok (b :: bs)
  end.

(** ** Bytes

    A byte is a [Z] in [[0, 256)]; [&[u8]] and [Vec<u8>] are [list Z]. *)

Definition bytes_ok (bs : list Z) : Prop := Forall u8 bs.

(** [len()] as a [usize]. *)
Definition zlen {A} (l : list A) : Z := Z.of_nat (length l).

Fixpoint le_bytes (n : nat) (z : Z) : list Z :=
  match n with
  | O => []
  | S n => z mod 256 :: le_bytes n (z / 256)
  end.
Fixpoint le_val (bs : list Z) : Z :=
  match bs with
  | [] => 0
  | b :: bs => b + 256 * le_val bs
  end.
(** [i32::from_le_bytes] and [i64::from_le_bytes]. *)
Definition le_val_i32 (bs : list Z) : Z := to_signed 32 (le_val bs).
Definition le_val_i64 (bs : list Z) : Z := to_signed 64 (le_val bs).

(** [bytes[off..off + n]] when the range is inside the slice. *)
Definition slice {A} (off n : nat) (l : list A) : list A := take n (drop off l).
(** [bytes.get(off..off + n)] *)
Definition get_slice {A} (off n : nat) (l : list A) : option (list A) :=
  if decide (off + n ≤ length l)%nat then Some (slice off n l) else None.
(** [bytes[off..off + k].copy_from_slice(src)] inside the slice. *)
Definition splice {A} (off : nat) (src l : list A) : list A :=
  take off l ++ src ++ drop (off + length src) l.

(** [chunks_exact(n)]; the incomplete tail is dropped, as in Rust. *)
Fixpoint chunks_exact_fuel {A} (fuel n : nat) (l : list A) : list (list A) :=
  match fuel with
  | O => []
  | S fuel =>
      if decide (n ≤ length l)%nat then take n l :: chunks_exact_fuel fuel n (drop n l) else []
  end.
Definition chunks_exact {A} (n : nat) (l : list A) : list (list A) :=
  chunks_exact_fuel (length l) n l.

(** ** Arithmetic of bit operations *)

Lemma land_ones_mod x n : 0 <= n → Z.land x (2 ^ n - 1) = x mod 2 ^ n.
Proof.
  intros. rewrite <- Z.land_ones by done. f_equal.
  rewrite Z.ones_equiv. lia.
Qed.

Lemma lor_shiftl_add a b n : 0 <= n → 0 <= a < 2 ^ n → Z.lor a (Z.shiftl b n) = a + b * 2 ^ n.
Proof.
  intros Hn Ha. rewrite <- Z.shiftl_mul_pow2 by done.
  symmetry. rewrite <- Z.lxor_lor, <- Z.add_nocarry_lxor; [done| |];
    apply Z.bits_inj'; intros i Hi; rewrite Z.land_spec, Z.bits_0;
    (destruct (decide (i < n)); [rewrite (Z.shiftl_spec_low b n i) by lia; by rewrite andb_false_r|]);
    replace (Z.testbit a i) with false; try done;
    rewrite <- (Z.mod_small a (2 ^ n)) by done; by rewrite Z.mod_pow2_bits_high by lia.
Qed.

(** [x & !mask] *)
Lemma ldiff_mask x k : 0 <= k → Z.ldiff x (2 ^ k - 1) = x / 2 ^ k * 2 ^ k.
Proof.
  intros Hk. replace (2 ^ k - 1) with (Z.ones k) by (rewrite Z.ones_equiv; lia).
  rewrite Z.ldiff_ones_r by done. by rewrite Z.shiftl_mul_pow2, Z.shiftr_div_pow2 by done.
Qed.

Lemma land_pow2 x n : 0 <= n → Z.land x (2 ^ n) = Z.b2z (Z.testbit x n) * 2 ^ n.
Proof.
  intros Hn. apply Z.bits_inj'. intros i Hi. rewrite Z.land_spec.
  destruct (decide (i = n)) as [->|Hne].
  - rewrite Z.pow2_bits_true, andb_true_r by lia. destruct (Z.testbit x n); simpl Z.b2z.
    + by rewrite Z.mul_1_l, Z.pow2_bits_true.
    + by rewrite Z.mul_0_l, Z.bits_0.
  - rewrite Z.pow2_bits_false, andb_false_r by lia. destruct (Z.testbit x n); simpl Z.b2z.
    + by rewrite Z.mul_1_l, Z.pow2_bits_false.
    + by rewrite Z.mul_0_l, Z.bits_0.
Qed.

Lemma testbit_div x n : 0 <= n → Z.b2z (Z.testbit x n) = x / 2 ^ n mod 2.
Proof. intros. by rewrite Z.testbit_spec'. Qed.

Lemma testbit_high x n i : 0 <= x < 2 ^ n → n <= i → Z.testbit x i = false.
Proof.
  intros Hx Hi. destruct (decide (0 <= n)).
  - rewrite <- (Z.mod_small x (2 ^ n)) by done. by rewrite Z.mod_pow2_bits_high by lia.
  - rewrite Z.pow_neg_r in Hx by lia. lia.
Qed.

Lemma lor_bound a b n : 0 <= n → 0 <= a < 2 ^ n → 0 <= b < 2 ^ n → 0 <= Z.lor a b < 2 ^ n.
Proof.
  intros Hn Ha Hb. replace (Z.lor a b) with (Z.lor a b mod 2 ^ n); [apply Z.mod_pos_bound; lia|].
  apply Z.bits_inj'. intros i Hi. destruct (decide (i < n)).
  - by rewrite Z.mod_pow2_bits_low by lia.
  - rewrite Z.mod_pow2_bits_high, Z.lor_spec, !(testbit_high _ n) by (done || lia). done.
Qed.

(** A narrow field read through a wider window. *)
Lemma mod_div_mod x s b m : 0 <= s → 0 <= b → s + b <= m → (x mod 2 ^ m) / 2 ^ s mod 2 ^ b = x / 2 ^ s mod 2 ^ b.
Proof.
  intros Hs Hb Hm. apply Z.bits_inj'. intros i Hi. destruct (decide (i < b)).
  - rewrite !Z.mod_pow2_bits_low, !Z.div_pow2_bits, Z.mod_pow2_bits_low by lia. done.
  - rewrite !Z.mod_pow2_bits_high by lia. done.
Qed.

Lemma pow2_pos n : 0 <= n → 0 < 2 ^ n.
Proof. intros. apply Z.pow_pos_nonneg; lia. Qed.

Lemma div_ceil_spec a b : 0 < b → a <= b * div_ceil a b < a + b.
Proof. intros. unfold div_ceil. pose proof (Z.div_mod (a + b - 1) b). pose proof (Z.mod_pos_bound (a + b - 1) b). lia. Qed.

Lemma wrap_small w x : u_ok w x → wrap w x = x.
Proof. apply Z.mod_small. Qed.
Lemma wrap_ok w x : 0 <= w → u_ok w (wrap w x).
Proof. intros. apply Z.mod_pos_bound, pow2_pos; done. Qed.

Lemma to_signed_ok w x : 0 < w → s_ok w (to_signed w x).
Proof.
  intros. unfold to_signed, s_ok.
  assert (2 ^ w = 2 * 2 ^ (w - 1)) by (rewrite <- Z.pow_succ_r by lia; f_equal; lia).
  pose proof (Z.mod_pos_bound x (2 ^ w) (pow2_pos w ltac:(lia))).
  case_match; lia.
Qed.

Lemma to_signed_wrap w x : 0 < w → s_ok w x → to_signed w (wrap w x) = x.
Proof.
  intros Hw Hx. unfold to_signed, wrap, s_ok in *.
  assert (2 ^ w = 2 * 2 ^ (w - 1)) as E by (rewrite <- Z.pow_succ_r by lia; f_equal; lia).
  rewrite Z.mod_mod by lia.
  destruct (decide (0 <= x)).
  - rewrite Z.mod_small by lia. case_match; lia.
  - replace (x mod 2 ^ w) with (x + 2 ^ w); [case_match; lia|].
    symmetry. rewrite <- (Z_mod_plus_full x 1), Z.mul_1_l. apply Z.mod_small. lia.
Qed.

Lemma to_signed_small w x : 0 < w → 0 <= x < 2 ^ (w - 1) → to_signed w x = x.
Proof.
  intros. rewrite <- (to_signed_wrap w x) at 2 by (unfold s_ok; lia).
  unfold to_signed, wrap. by rewrite Zmod_mod.
Qed.

Lemma wrap_to_signed w x : 0 < w → wrap w (to_signed w x) = wrap w x.
Proof.
  intros. unfold to_signed, wrap. case_match; [apply Zmod_mod|].
  rewrite Zminus_mod, Z_mod_same_full, Z.sub_0_r, !Zmod_mod. done.
Qed.

Lemma checked_add_Some w a b c : checked_add w a b = Some c ↔ c = a + b ∧ a + b < 2 ^ w.
Proof. unfold checked_add. case_match; naive_solver lia. Qed.
Lemma checked_mul_Some w a b c : checked_mul w a b = Some c ↔ c = a * b ∧ a * b < 2 ^ w.
Proof. unfold checked_mul. case_match; naive_solver lia. Qed.
Lemma checked_sub_Some a b c : checked_sub a b = Some c ↔ c = a - b ∧ b <= a.
Proof. unfold checked_sub. case_match; naive_solver lia. Qed.
Lemma try_from_Some w a c : try_from w a = Some c ↔ c = a ∧ a < 2 ^ w.
Proof. unfold try_from. case_match; naive_solver lia. Qed.

(** ** Results *)

Lemma bind_Ok {A B} (r : io_result A) (f : A → io_result B) b :
  r ≫= f = Ok b ↔ ∃ a, r = Ok a ∧ f a = Ok b.
Proof. destruct r; naive_solver. Qed.
Lemma fmap_Ok {A B} (r : io_result A) (f : A → B) b :
  f <$> r = Ok b ↔ ∃ a, r = Ok a ∧ b = f a.
Proof. destruct r; naive_solver. Qed.
Lemma ok_or_Ok {A} (o : option A) e a : ok_or o e = Ok a ↔ o = Some a.
Proof. destruct o; naive_solver. Qed.
Lemma expect_Ok {A} (o : option A) a : expect o = Ok a ↔ o = Some a.
Proof. destruct o; naive_solver. Qed.
Lemma guard_ok_Ok b e u : guard_ok b e = Ok u ↔ b = true.
Proof. destruct b, u; naive_solver. Qed.
Lemma map_err_Ok {A} f (r : io_result A) a : map_err f r = Ok a ↔ r = Ok a.
Proof. destruct r; naive_solver. Qed.

Lemma try_fold_app {A B} (f : B → A → io_result B) b l1 l2 :
  try_fold f b (l1 ++ l2) = b' ← try_fold f b l1; try_fold f b' l2.
Proof. revert b. induction l1 as [|a l1 IH]; intros b; [done|]. simpl. destruct (f b a); [apply IH|done|done]. Qed.

Lemma try_map_Ok {A B} (f : A → io_result B) l k :
  try_map f l = Ok k ↔ Forall2 (λ a b, f a = Ok b) l k.
Proof.
  revert k. induction l as [|a l IH]; intros k; simpl.
  - split; [intros [= <-]; constructor|intros H; by inversion H].
  - rewrite bind_Ok. setoid_rewrite bind_Ok. setoid_rewrite IH. split.
    + intros (b & ? & bs & ? & [= <-]). by constructor.
    + inversion 1; subst. naive_solver.
Qed.
Lemma try_map_total {A B} (f : A → io_result B) (Q : A → B → Prop) l :
  (∀ a, a ∈ l → ∃ b, f a = Ok b ∧ Q a b) → ∃ k, try_map f l = Ok k ∧ Forall2 Q l k.
Proof.
  induction l as [|a l IH]; intros Hf; [by exists []|]. destruct (Hf a) as (b & E & Hb); [by left|]. destruct IH as (k & Ek & Hk); [intros; apply Hf; by right|].
  exists (b :: k). cbn. rewrite E, Ek. by split; [|constructor].
Qed.

Lemma try_map_length {A B} (f : A → io_result B) l k : try_map f l = Ok k → length k = length l.
Proof. rewrite try_map_Ok. intros H. symmetry. by eapply Forall2_length. Qed.

(** ** Bytes *)

Lemma le_bytes_length n z : length (le_bytes n z) = n.
Proof. revert z; induction n; intros; simpl; auto. Qed.

Lemma le_bytes_ok n z : bytes_ok (le_bytes n z).
Proof.
  revert z; induction n; intros; simpl; constructor; [|apply IHn].
  apply Z.mod_pos_bound; lia.
Qed.

Lemma le_val_le_bytes n z : le_val (le_bytes n z) = z mod 2 ^ (8 * Z.of_nat n).
Proof.
  revert z. induction n as [|n IH]; intros z; simpl; [by rewrite Z.mod_1_r|].
  rewrite IH. replace (8 * Z.of_nat (S n)) with (8 + 8 * Z.of_nat n) by lia.
  rewrite Z.pow_add_r by lia. change (2 ^ 8) with 256.
  rewrite Z.rem_mul_r; pose proof (pow2_pos (8 * Z.of_nat n)); lia.
Qed.

Lemma le_val_bound bs : bytes_ok bs → 0 <= le_val bs < 2 ^ (8 * zlen bs).
Proof.
  unfold zlen. induction 1 as [|b bs Hb _ IH]; simpl; [lia|].
  replace (8 * Z.of_nat (S (length bs))) with (8 + 8 * Z.of_nat (length bs)) by lia.
  rewrite Z.pow_add_r by lia. unfold u8, u_ok in Hb. change (2 ^ 8) with 256 in *. lia.
Qed.

Lemma le_bytes_le_val bs : bytes_ok bs → le_bytes (length bs) (le_val bs) = bs.
Proof.
  induction 1 as [|b bs Hb _ IH]; simpl; [done|].
  unfold u8, u_ok in Hb. change (2 ^ 8) with 256 in *.
  rewrite Z.mul_comm, Z_mod_plus_full, Z.mod_small by lia.
  rewrite Z.div_add, Z.div_small by lia. by rewrite Z.add_0_l, IH.
Qed.

Lemma le_val_app a b : le_val (a ++ b) = le_val a + 2 ^ (8 * zlen a) * le_val b.
Proof.
  unfold zlen. induction a as [|x a IH]; cbn [app le_val length]; [lia|]. rewrite IH.
  replace (8 * Z.of_nat (S (length a))) with (8 + 8 * Z.of_nat (length a)) by lia.
  rewrite Z.pow_add_r by lia. change (2 ^ 8) with 256. lia.
Qed.

Lemma le_val_replicate n : le_val (replicate n 0) = 0.
Proof. induction n as [|n IH]; [done|]. cbn [replicate le_val]. lia. Qed.

Lemma le_val_u64 z : u64 z → le_val (le_bytes 8 z) = z.
Proof. intros. rewrite le_val_le_bytes. apply Z.mod_small. done. Qed.
Lemma le_val_u32 z : u32 z → le_val (le_bytes 4 z) = z.
Proof. intros. rewrite le_val_le_bytes. apply Z.mod_small. done. Qed.
Lemma le_val_u16 z : u16 z → le_val (le_bytes 2 z) = z.
Proof. intros. rewrite le_val_le_bytes. apply Z.mod_small. done. Qed.
Lemma le_val_i32_bytes z : i32 z → le_val_i32 (le_bytes 4 z) = z.
Proof. intros. unfold le_val_i32. rewrite le_val_le_bytes. by apply (to_signed_wrap 32). Qed.
Lemma le_val_i64_bytes z : i64 z → le_val_i64 (le_bytes 8 z) = z.
Proof. intros. unfold le_val_i64. rewrite le_val_le_bytes. by apply (to_signed_wrap 64). Qed.

Lemma zlen_cons {A} (x : A) l : zlen (x :: l) = 1 + zlen l.
Proof. unfold zlen. cbn [length]. lia. Qed.
Lemma zlen_app {A} (l k : list A) : zlen (l ++ k) = zlen l + zlen k.
Proof. unfold zlen. rewrite length_app. lia. Qed.
Lemma zlen_nonneg {A} (l : list A) : 0 <= zlen l.
Proof. unfold zlen. lia. Qed.

(** ** Slices *)

Lemma slice_app_r {A} n m (l k : list A) : length l = n → slice n m (l ++ k) = take m k.
Proof. intros <-. unfold slice. by rewrite drop_app_length. Qed.

Lemma slice_app_skip {A} off n (l k : list A) :
  (length l ≤ off)%nat → slice off n (l ++ k) = slice (off - length l) n k.
Proof. intros. unfold slice. by rewrite drop_app_ge. Qed.

Lemma slice_app_head {A} n (l k : list A) : length l = n → slice 0 n (l ++ k) = l.
Proof. intros <-. unfold slice. rewrite drop_0. by rewrite take_app_length. Qed.

Lemma length_slice {A} off n (l : list A) :
  (off + n ≤ length l)%nat → length (slice off n l) = n.
Proof. intros. unfold slice. rewrite length_take, length_drop. lia. Qed.

Lemma get_slice_Some {A} off n (l k : list A) :
  get_slice off n l = Some k ↔ (off + n ≤ length l)%nat ∧ k = slice off n l.
Proof. unfold get_slice. case_decide; naive_solver. Qed.

Lemma Forall_slice {A} (P : A → Prop) off n l : Forall P l → Forall P (slice off n l).
Proof. intros. by apply Forall_take, Forall_drop. Qed.

Lemma length_splice {A} off (src l : list A) :
  (off + length src ≤ length l)%nat → length (splice off src l) = length l.
Proof. intros. unfold splice. rewrite !length_app, length_take, length_drop. lia. Qed.

Lemma slice_splice_eq {A} off (src l : list A) :
  (off ≤ length l)%nat → slice off (length src) (splice off src l) = src.
Proof.
  intros. unfold splice. rewrite slice_app_r by (rewrite length_take; lia).
  by rewrite take_app_length.
Qed.

(** A run of bytes as a range of bits. *)
Lemma le_val_slice off n bs :
  bytes_ok bs → (off + n ≤ length bs)%nat →
  le_val (slice off n bs) = le_val bs / 2 ^ (8 * Z.of_nat off) mod 2 ^ (8 * Z.of_nat n).
Proof.
  intros Hb Hl. unfold slice. rewrite <- (take_drop off bs) at 2. rewrite <- (take_drop n (drop off bs)) at 2.
  assert (zlen (take off bs) = Z.of_nat off) as E1 by (unfold zlen; rewrite length_take; lia).
  assert (zlen (take n (drop off bs)) = Z.of_nat n) as E2 by (unfold zlen; rewrite length_take, length_drop; lia).
  pose proof (le_val_bound (take off bs) ltac:(by apply Forall_take)) as B1.
  pose proof (le_val_bound (take n (drop off bs)) ltac:(by apply Forall_take, Forall_drop)) as B2.
  rewrite !le_val_app, E1, E2 in *.
  pose proof (pow2_pos (8 * Z.of_nat off) ltac:(lia)). pose proof (pow2_pos (8 * Z.of_nat n) ltac:(lia)).
  rewrite (Z.mul_comm (2 ^ (8 * Z.of_nat off))), Z.div_add, Z.div_small, Z.add_0_l by lia.
  rewrite (Z.mul_comm (2 ^ (8 * Z.of_nat n))), Z_mod_plus_full, Z.mod_small by lia. done.
Qed.

Lemma le_val_splice off src bs :
  (off + length src ≤ length bs)%nat →
  le_val (splice off src bs) = le_val bs + 2 ^ (8 * Z.of_nat off) * (le_val src - le_val (slice off (length src) bs)).
Proof.
  intros Hl. unfold splice, slice. rewrite <- (take_drop off bs) at 3.
  rewrite <- (take_drop (length src) (drop off bs)) at 1. rewrite drop_drop, !le_val_app.
  assert (zlen (take off bs) = Z.of_nat off) as -> by (unfold zlen; rewrite length_take; lia).
  assert (zlen (take (length src) (drop off bs)) = zlen src) as -> by (unfold zlen; rewrite length_take, length_drop; lia).
  lia.
Qed.

Lemma chunks_exact_fuel_concat {A} n fuel (ls : list (list A)) tail :
  (0 < n)%nat → Forall (λ l, length l = n) ls → (length tail < n)%nat → (length ls ≤ fuel)%nat →
  chunks_exact_fuel fuel n (concat ls ++ tail) = ls.
Proof.
  intros Hn Hls Ht. revert fuel. induction Hls as [|l ls Hl Hls IH]; intros fuel Hf; simpl.
  - destruct fuel; simpl; [done|]. rewrite decide_False by lia. done.
  - destruct fuel as [|fuel]; simpl in *; [lia|].
    rewrite decide_True by (rewrite !length_app; lia).
    rewrite <- app_assoc. rewrite take_app_length', drop_app_length' by done.
    f_equal. apply IH. lia.
Qed.

Lemma chunks_exact_concat {A} n (ls : list (list A)) :
  (0 < n)%nat → Forall (λ l, length l = n) ls → chunks_exact n (concat ls) = ls.
Proof.
  intros Hn Hls. unfold chunks_exact. rewrite <- (app_nil_r (concat ls)) at 2.
  apply chunks_exact_fuel_concat; try done.
  induction Hls; simpl; [lia|]. rewrite length_app. lia.
Qed.

(** A list whose length is a multiple of [n] is the concatenation of its chunks. *)
Lemma concat_split {A} n k (l : list A) :
  length l = (k * n)%nat → ∃ ls, l = concat ls ∧ Forall (λ x, length x = n) ls ∧ length ls = k.
Proof.
  revert l. induction k as [|k IH]; intros l Hl.
  - exists []. destruct l; [|done]. by split_and!.
  - destruct (IH (drop n l)) as (ls & E & Hls & Hk); [rewrite length_drop; lia|].
    exists (take n l :: ls). cbn [concat]. rewrite <- E, take_drop. split_and!; [done| |by cbn; f_equal].
    constructor; [rewrite length_take; lia|done].
Qed.

Lemma fmap_zip_with {A B C D} (f : C → D) (g : A → B → C) l k :
  f <$> zip_with g l k = zip_with (λ x y, f (g x y)) l k.
Proof. revert k. induction l as [|x l IH]; intros [|y k]; [done..|]. simpl. by rewrite IH. Qed.

(** ** Arrays of fixed-width integers *)

Lemma chunks_exact_app {A} n k1 k2 (l1 l2 : list A) :
  (0 < n)%nat → length l1 = (k1 * n)%nat → length l2 = (k2 * n)%nat →
  chunks_exact n (l1 ++ l2) = chunks_exact n l1 ++ chunks_exact n l2.
Proof.
  intros Hn H1 H2. destruct (concat_split n k1 l1 H1) as (ls1 & -> & F1 & _). destruct (concat_split n k2 l2 H2) as (ls2 & -> & F2 & _).
  rewrite <- concat_app, !chunks_exact_concat by (done || by apply Forall_app). done.
Qed.

Lemma length_le_list n (l : list Z) : length (concat (le_bytes n <$> l)) = (length l * n)%nat.
Proof. induction l as [|x l IH]; [done|]. rewrite fmap_cons. cbn [concat length]. rewrite length_app, le_bytes_length. lia. Qed.

Lemma le_list_decode n (l : list Z) :
  (0 < n)%nat → Forall (u_ok (8 * Z.of_nat n)) l → le_val <$> chunks_exact n (concat (le_bytes n <$> l)) = l.
Proof.
  intros Hn Hl. rewrite chunks_exact_concat; [|done|].
  - rewrite <- list_fmap_compose. induction Hl as [|x l Hx _ IH]; [done|]. rewrite fmap_cons, IH. f_equal.
    cbn. rewrite le_val_le_bytes. by apply Z.mod_small.
  - apply Forall_fmap, Forall_true. intros. apply le_bytes_length.
Qed.

Lemma try_fold_ext_in {A B} (f g : B → A → io_result B) b l :
  (∀ b a, a ∈ l → f b a = g b a) → try_fold f b l = try_fold g b l.
Proof.
  revert b. induction l as [|a l IH]; intros b H; [done|]. cbn [try_fold]. rewrite H by set_solver.
  destruct (g b a); [|done..]. cbn [mbind io_result_bind]. apply IH. intros. apply H. set_solver.
Qed.

Lemma try_fold_fmap {A B C} (f : B → C → io_result B) (g : A → C) b l :
  try_fold f b (g <$> l) = try_fold (λ b a, f b (g a)) b l.
Proof. revert b. induction l as [|a l IH]; intros b; [done|]. cbn [fmap list_fmap try_fold]. destruct (f b (g a)); [apply IH|done..]. Qed.

Lemma try_fold_snoc {A B} (f : A → io_result B) (g : A → B) acc l :
  (∀ x, x ∈ l → f x = Ok (g x)) →
  try_fold (λ acc x, y ← f x; Ok (acc ++ [y])) acc l = Ok (acc ++ (g <$> l)).
Proof.
  revert acc. induction l as [|x l IH]; intros acc H; cbn [try_fold fmap list_fmap]; [by rewrite app_nil_r|].
  rewrite (H x) by set_solver. cbn [mbind io_result_bind]. rewrite IH by set_solver. by rewrite <- app_assoc.
Qed.

Lemma try_fold_total {A S} (f : S → A → io_result S) s l :
  (∀ s x, x ∈ l → ∃ s', f s x = Ok s') → ∃ s', try_fold f s l = Ok s'.
Proof.
  revert s. induction l as [|x l IH]; intros s H; [by exists s|]. cbn [try_fold].
  destruct (H s x) as [s' ->]; [set_solver|]. apply IH. set_solver.
Qed.

(** ** Sums *)

Definition zsum {A} (f : A → Z) (l : list A) : Z := foldr (λ a s, f a + s) 0 l.

Lemma zsum_app {A} (f : A → Z) l k : zsum f (l ++ k) = zsum f l + zsum f k.
Proof. induction l as [|a l IH]; simpl; lia. Qed.
Lemma zsum_nonneg {A} (f : A → Z) l : (∀ a, 0 <= f a) → 0 <= zsum f l.
Proof. intros H. induction l as [|a l IH]; simpl; [lia|]. specialize (H a). lia. Qed.
#[global] Instance zsum_permutation {A} (f : A → Z) : Proper ((≡ₚ) ==> (=)) (zsum f).
Proof. intros l k H. induction H; simpl; lia. Qed.

(** ** Visited marks

    [vec![false; n]] marks that are only ever set: the number still clear is the
    measure of the traversals. *)

Definition unmarked (v : list bool) : nat := length (filter (λ b, b = false) v).

Lemma unmarked_insert v i : v !! i = Some false → unmarked v = S (unmarked (<[i := true]> v)).
Proof.
  unfold unmarked. revert i. induction v as [|b v IH]; intros [|i] Hi; simplify_eq/=; [done|].
  rewrite !filter_cons. case_decide; cbn [length]; by rewrite (IH i Hi).
Qed.
Lemma unmarked_le v : (unmarked v ≤ length v)%nat.
Proof. apply length_filter. Qed.
Lemma unmarked_replicate n : unmarked (replicate n false) = n.
Proof. unfold unmarked. induction n as [|n IH]; [done|]. cbn [replicate]. rewrite filter_cons_True by done. cbn [length]. by rewrite IH. Qed.
Lemma unmarked_lt v v' i :
  length v' = length v → (∀ j, v !! j = Some true → v' !! j = Some true) → v !! i = Some false → v' !! i = Some true →
  (unmarked v' < unmarked v)%nat.
Proof.
  unfold unmarked. revert v' i. induction v as [|b v IH]; intros [|b' v'] i Hl Hm Hi Hi'; try done. injection Hl as Hl.
  assert (∀ j, v !! j = Some true → v' !! j = Some true) as Hm' by (intros j; apply (Hm (S j))).
  assert (length (filter (λ b, b = false) v') ≤ length (filter (λ b, b = false) v))%nat as Hle.
  { clear -Hl Hm'. revert v' Hl Hm'. induction v as [|b v IH]; intros [|b' v'] Hl Hm; try done. injection Hl as Hl.
    pose proof (Hm 0%nat) as H0. specialize (IH v' Hl (λ j, Hm (S j))). rewrite !filter_cons. destruct b, b'; repeat case_decide; try done; cbn [length]; first [lia|by specialize (H0 eq_refl)]. }
  rewrite !filter_cons. destruct i as [|i]; cbn in Hi, Hi'.
  - injection Hi as ->. injection Hi' as ->. repeat case_decide; try done. cbn [length]. lia.
  - specialize (IH v' i Hl Hm' Hi Hi'). pose proof (Hm 0%nat) as H0. destruct b, b'; repeat case_decide; try done; cbn [length]; first [lia|by specialize (H0 eq_refl)].
Qed.
Lemma mark_lookup v i j : (i < length v)%nat → <[i := true]> v !! j = Some true ↔ j = i ∨ v !! j = Some true.
Proof.
  intros Hi. destruct (decide (j = i)) as [->|Hd]; [rewrite list_lookup_insert_eq by done; naive_solver|].
  rewrite list_lookup_insert_ne by done. naive_solver.
Qed.

(** ** Automation

    [inv_ok] takes apart every hypothesis that says a computation returned
    [Ok]: binds, guards, checked operations and conversions.  [solve_ok w]
    goes the other way for checked arithmetic. *)

Ltac inv_ok :=
  repeat match goal with
  | H : _ ≫= _ = Ok _ |- _ => apply bind_Ok in H; destruct H as (? & ? & H)
  | H : _ <$> _ = Ok _ |- _ => apply fmap_Ok in H; destruct H as (? & H & ?)
  | H : mbind _ _ = Ok _ |- _ => apply bind_Ok in H; destruct H as (? & ? & H)
  | H : ok_or _ _ = Ok _ |- _ => apply ok_or_Ok in H
  | H : or_data _ _ = Ok _ |- _ => apply ok_or_Ok in H
  | H : or_input _ _ = Ok _ |- _ => apply ok_or_Ok in H
  | H : expect _ = Ok _ |- _ => apply expect_Ok in H
  | H : ensure_data _ _ = Ok _ |- _ => apply guard_ok_Ok in H
  | H : ensure_input _ _ = Ok _ |- _ => apply guard_ok_Ok in H
  | H : map_err _ _ = Ok _ |- _ => apply map_err_Ok in H
  | H : checked_add _ _ _ = Some _ |- _ => apply checked_add_Some in H; destruct H as [-> H]
  | H : checked_mul _ _ _ = Some _ |- _ => apply checked_mul_Some in H; destruct H as [-> H]
  | H : checked_sub _ _ = Some _ |- _ => apply checked_sub_Some in H; destruct H as [-> H]
  | H : try_from _ _ = Some _ |- _ => apply try_from_Some in H; destruct H as [-> H]
  | H : Err _ = Ok _ |- _ => discriminate H
  | H : invalid_data _ = Ok _ |- _ => discriminate H
  | H : invalid_input _ = Ok _ |- _ => discriminate H
  | H : Panic = Ok _ |- _ => discriminate H
  | H : Ok _ = Ok _ |- _ => injection H as H; try subst
  | H : mret _ = Ok _ |- _ => injection H as H; try subst
  | H : Some _ = Some _ |- _ => injection H as H; try subst
  | H : (_, _) = (_, _) |- _ => injection H as H; try subst
  end.

(** One bind at a time, naming what it bound; guards become their condition. *)
Tactic Notation "bind_ok" ident(H) "as" ident(x) ident(Hx) :=
  apply bind_Ok in H; destruct H as (x & Hx & H).
Tactic Notation "guard_ok" ident(H) "as" ident(Hg) :=
  apply bind_Ok in H; destruct H as (? & Hg & H); apply guard_ok_Ok in Hg.

(** Constants of the width computations, for [lia]. *)
Ltac unfold_widths :=
  unfold u8, u16, u32, u64, usize, i32, i64, u_ok, s_ok, U32_MAX, USIZE_MAX in *;
  change (2 ^ 8) with 256 in *; change (2 ^ 16) with 65536 in *;
  change (2 ^ 32) with 4294967296 in *; change (2 ^ 64) with 18446744073709551616 in *;
  change (2 ^ (32 - 1)) with 2147483648 in *; change (2 ^ (64 - 1)) with 9223372036854775808 in *.

(** The other way: step past a guard, a checked operation or a conversion that
    succeeds, the side condition going to the given tactic. *)
Ltac pass_with tac :=
  lazymatch goal with
  | |- context [mbind _ (ensure_data true _)] => idtac
  | |- mbind _ (ensure_data ?b _) = _ => replace b with true by (symmetry; tac)
  | |- mbind _ (ensure_input ?b _) = _ => replace b with true by (symmetry; tac)
  | |- ensure_data ?b _ = _ => replace b with true by (symmetry; tac)
  | |- ensure_input ?b _ = _ => replace b with true by (symmetry; tac)
  | |- mbind _ (_ (try_from ?w ?x) _) = _ => rewrite (proj2 (try_from_Some w x x)) by (split; [reflexivity|tac])
  | |- mbind _ (_ (checked_add ?w ?x ?y) _) = _ => rewrite (proj2 (checked_add_Some w x y _)) by (split; [reflexivity|tac])
  | |- mbind _ (_ (checked_mul ?w ?x ?y) _) = _ => rewrite (proj2 (checked_mul_Some w x y _)) by (split; [reflexivity|tac])
  end;
  repeat match goal with
  | |- context [ensure_data true ?m] => change (ensure_data true m) with (Ok ())
  | |- context [ensure_input true ?m] => change (ensure_input true m) with (Ok ())
  | |- context [or_data (Some ?a) ?m] => change (or_data (Some a) m) with (Ok a)
  | |- context [or_input (Some ?a) ?m] => change (or_input (Some a) m) with (Ok a)
  | |- context [expect (Some ?a)] => change (expect (Some a)) with (Ok a)
  end;
  cbn [mbind io_result_bind].
Tactic Notation "pass" := pass_with ltac:(first [done | lia | unfold_widths; lia]).
Tactic Notation "pass" "by" tactic3(tac) := pass_with tac.

(** A property of all bytes, by evaluation. *)
Lemma byte_forall (P : Z → bool) :
  forallb P (seqZ 0 256) = true → ∀ b, u8 b → P b = true.
Proof.
  intros H b Hb. rewrite forallb_forall in H. apply H.
  apply list_elem_of_In, elem_of_seqZ. unfold_widths. lia.
Qed.

Create HintDb vindex discriminated.
#[export] Hint Resolve le_bytes_ok le_bytes_length zlen_nonneg : vindex.
#[export] Hint Rewrite @length_app @length_take @length_drop @length_insert @length_replicate
  @le_bytes_length @zlen_app : vlen.

#[global] Arguments le_bytes : simpl never.
#[global] Arguments wrap : simpl never.
#[global] Arguments to_signed : simpl never.
