(* ===== verification/SeekIo.v ===== *)
(** Positional readers and writers: the I/O traits of [core/src/io.rs].

    [SeekRead] and [SeekWrite] are the seams through which every index format
    reaches storage, so they are type classes here and the format theorems are
    proved against their laws. *)

From S2P Require Import Prelude.

Record SeekReadCapabilities := Capabilities {
  estimated_random_read_latency_nanos : Z;
  preferred_window_bytes : Z;
  max_ranges_per_pread : Z;
}.
Definition default_capabilities : SeekReadCapabilities := Capabilities 0 0 0.

(** A request is a position and the length of the buffer it fills. *)
Record ReadRequest := Request { req_pos : Z; req_len : nat }.

Class SeekRead (R : Type) := {
  pread : R → list ReadRequest → io_result (list (list Z)) * R;
  read_capabilities : R → SeekReadCapabilities;
}.

(** The bytes one request selects from a byte sequence. *)
Definition range_of (bytes : list Z) (q : ReadRequest) : list Z :=
  slice (Z.to_nat (req_pos q)) (req_len q) bytes.
Definition in_range (bytes : list Z) (q : ReadRequest) : Prop :=
  0 <= req_pos q ∧ req_pos q + Z.of_nat (req_len q) <= zlen bytes.

(** The documented contract: positional access to one immutable byte sequence,
    with capabilities that describe the implementation and do not change. *)
Class SeekReadLaws (R : Type) `{SeekRead R} := {
  contents : R → list Z;
  pread_ok : ∀ r reqs bufs r',
    Forall (λ q, 0 <= req_pos q) reqs →
    pread r reqs = (Ok bufs, r') → Forall (in_range (contents r)) reqs ∧ bufs = range_of (contents r) <$> reqs;
  pread_contents : ∀ r reqs, contents (pread r reqs).2 = contents r;
  pread_capabilities : ∀ r reqs, read_capabilities (pread r reqs).2 = read_capabilities r;
}.

(** ** The blanket implementation for [Read + Seek] sources

    An in-memory source with a stream position, as [std::io::Cursor]. *)
Record Cursor := MkCursor { cur_bytes : list Z; cur_pos : Z }.

(** [Seek::seek(SeekFrom::Start(p))] *)
Definition cursor_seek (c : Cursor) (p : Z) : Cursor := MkCursor (cur_bytes c) p.
(** [Read::read_exact] into a buffer of [n] bytes. *)
Definition cursor_read_exact (c : Cursor) (n : nat) : io_result (list Z) * Cursor :=
  match get_slice (Z.to_nat (cur_pos c)) n (cur_bytes c) with
  | Some buf => (Ok buf, MkCursor (cur_bytes c) (cur_pos c + Z.of_nat n))
  | None => (Err (IoError UnexpectedEof "failed to fill whole buffer"),
             MkCursor (cur_bytes c) (Z.max (cur_pos c) (zlen (cur_bytes c))))
  end.
Fixpoint cursor_ranges (c : Cursor) (ranges : list ReadRequest) : io_result (list (list Z)) * Cursor :=
  match ranges with
  | [] => (Ok [], c)
  | range :: ranges =>
      match cursor_read_exact (cursor_seek c (req_pos range)) (req_len range) with
      | (Ok buf, c) =>
          let '(rest, c) := cursor_ranges c ranges in (cons buf <$> rest, c)
      | (Err e, c) => (Err e, c)
      | (Panic, c) => (Panic, c)
      end
  end.
Definition cursor_pread (c : Cursor) (ranges : list ReadRequest) : io_result (list (list Z)) * Cursor :=
  let old_pos := cur_pos c in
  match cursor_ranges c ranges with
  | (Ok bufs, c) => (Ok bufs, cursor_seek c old_pos)
  | (res, c) => (res, c)
  end.

#[export] Instance Cursor_SeekRead : SeekRead Cursor := {
  pread := cursor_pread;
  read_capabilities := λ _, default_capabilities;
}.

(** ** [PreadCursor]: sequential reads over a positional reader *)
Record PreadCursor (R : Type) := MkPreadCursor { pc_reader : R; pc_pos : Z }.
Arguments MkPreadCursor {_} _ _.
Arguments pc_reader {_} _.
Arguments pc_pos {_} _.

Definition pread_cursor_read_exact `{SeekRead R} (c : PreadCursor R) (n : nat) :
    io_result (list Z) * PreadCursor R :=
  match pread (pc_reader c) [Request (pc_pos c) n] with
  | (Ok bufs, r) =>
      match bufs, checked_add 64 (pc_pos c) (Z.of_nat n) with
      | buf :: _, Some pos => (Ok buf, MkPreadCursor r pos)
      | _, None => (Err (IoError InvalidData "read cursor overflow"), MkPreadCursor r (pc_pos c))
      | [], _ => (Panic, MkPreadCursor r (pc_pos c))
      end
  | (Err e, r) => (Err e, MkPreadCursor r (pc_pos c))
  | (Panic, r) => (Panic, MkPreadCursor r (pc_pos c))
  end.

(** ** Writers *)
Class SeekWrite (W : Type) := {
  write_all : W → list Z → io_result W;
  pos : W → Z;
}.

(** [PosWriter] over an in-memory [Vec<u8>], whose writes never fail. *)
Record PosWriter := MkPosWriter { pw_inner : list Z; pw_pos : Z }.
Definition pos_writer_new (inner : list Z) : PosWriter := MkPosWriter inner 0.
Definition pos_writer_write_all (w : PosWriter) (buf : list Z) : io_result PosWriter :=
  Ok (MkPosWriter (pw_inner w ++ buf) (pw_pos w + zlen buf)).
#[export] Instance PosWriter_SeekWrite : SeekWrite PosWriter := {
  write_all := pos_writer_write_all;
  pos := pw_pos;
}.

(** The contract the format writers rely on: bytes are appended in order and
    [pos] counts them. *)
Class SeekWriteLaws (W : Type) `{SeekWrite W} := {
  written : W → list Z;
  write_all_written : ∀ w buf w', write_all w buf = Ok w' → written w' = written w ++ buf;
  write_all_pos : ∀ w buf w', write_all w buf = Ok w' → pos w' = pos w + zlen buf;
}.

#[export] Instance PosWriter_SeekWriteLaws : SeekWriteLaws PosWriter.
Proof.
  refine {| written := pw_inner |}; intros w buf w' [= <-]; done.
Defined.

(** ** The [Cursor] instance keeps the contract *)

Lemma cursor_read_exact_bytes c n : cur_bytes (cursor_read_exact c n).2 = cur_bytes c.
Proof. unfold cursor_read_exact. by case_match. Qed.

Lemma cursor_ranges_bytes c ranges : cur_bytes (cursor_ranges c ranges).2 = cur_bytes c.
Proof.
  revert c. induction ranges as [|q ranges IH]; intros c; simpl; [done|].
  pose proof (cursor_read_exact_bytes (cursor_seek c (req_pos q)) (req_len q)) as Hb.
  destruct (cursor_read_exact _ _) as [[buf|e|] c'] eqn:E; simpl in *; try done.
  specialize (IH c'). destruct (cursor_ranges c' ranges) as [rest c'']. simpl in *. congruence.
Qed.

Lemma cursor_ranges_ok c ranges bufs c' :
  Forall (λ q, 0 <= req_pos q) ranges →
  cursor_ranges c ranges = (Ok bufs, c') →
  Forall (in_range (cur_bytes c)) ranges ∧ bufs = range_of (cur_bytes c) <$> ranges.
Proof.
  revert c bufs c'. induction ranges as [|q ranges IH]; intros c bufs c' Hp; simpl.
  - intros [= <- <-]. split; [constructor|done].
  - inversion Hp as [|?? Hq Hp']; subst. unfold cursor_read_exact. simpl.
    destruct (get_slice _ _ _) as [buf|] eqn:E; simpl; [|done].
    destruct (cursor_ranges _ ranges) as [rest c''] eqn:Er. intros [= H _]. inv_ok. subst.
    apply get_slice_Some in E as [Hlen ->]. apply IH in Er as [Hr Hb]; [|done]. simpl in *. subst.
    split; [|done]. constructor; [|done]. unfold in_range, zlen. lia.
Qed.

#[export] Instance Cursor_SeekReadLaws : SeekReadLaws Cursor.
Proof.
  refine {| contents := cur_bytes |}.
  - intros c reqs bufs c' Hp. unfold pread, Cursor_SeekRead, cursor_pread.
    destruct (cursor_ranges c reqs) as [[b|e|] c''] eqn:E; [|done..]. intros [= <- <-].
    by apply cursor_ranges_ok in E.
  - intros c reqs. unfold pread, Cursor_SeekRead, cursor_pread.
    pose proof (cursor_ranges_bytes c reqs). by destruct (cursor_ranges c reqs) as [[]].
  - done.
Defined.

(** Reads inside the source succeed, and the stream position is restored. *)
Lemma cursor_ranges_in_range c reqs :
  Forall (in_range (cur_bytes c)) reqs →
  (cursor_ranges c reqs).1 = Ok (range_of (cur_bytes c) <$> reqs).
Proof.
  revert c. induction reqs as [|q reqs IH]; intros c Hq; [done|].
  inversion Hq as [|?? [Hp Hl] Hq']; subst. simpl. unfold cursor_read_exact. simpl.
  assert (get_slice (Z.to_nat (req_pos q)) (req_len q) (cur_bytes c) =
    Some (range_of (cur_bytes c) q)) as ->
    by (apply get_slice_Some; unfold zlen in Hl; split; [lia|done]).
  specialize (IH (MkCursor (cur_bytes c) (req_pos q + Z.of_nat (req_len q))) Hq').
  destruct (cursor_ranges _ reqs) as [rest c'']. simpl in *. by rewrite IH.
Qed.

Lemma cursor_pread_in_range c reqs :
  Forall (in_range (cur_bytes c)) reqs →
  pread c reqs = (Ok (range_of (cur_bytes c) <$> reqs), c).
Proof.
  intros Hq. unfold pread, Cursor_SeekRead, cursor_pread.
  pose proof (cursor_ranges_in_range c reqs Hq) as H1.
  pose proof (cursor_ranges_bytes c reqs) as H2.
  destruct (cursor_ranges c reqs) as [res c'] eqn:E. simpl in *. subst res. f_equal.
  unfold cursor_seek. destruct c, c'. simpl in *. by subst.
Qed.

(** Readers that never fail inside the source. *)
Class InfallibleRead (R : Type) `{SeekReadLaws R} := {
  pread_total : ∀ r reqs, Forall (in_range (contents r)) reqs → ∃ r', pread r reqs = (Ok (range_of (contents r) <$> reqs), r');
}.
#[export] Instance Cursor_InfallibleRead : InfallibleRead Cursor.
Proof. split. intros c reqs Hr. exists c. by apply cursor_pread_in_range. Qed.
