(* ===== verification/IndexIoUtil.v ===== *)
(** Shared index I/O helpers: [core/src/index_io_util.rs].

    Delta-varint row-ID sections, the bounds on streamed and batched list
    reads, the multi-range read planner, and the small validators every
    reader uses. *)

From S2P Require Import Prelude SeekIo.

(** ** Delta-varint row IDs *)

Module Varint.

(** [write_u64_varint]: the [while value >= 0x80] loop.  Ten rounds cover
    64 bits in groups of seven. *)
Fixpoint write_u64_varint_loop (fuel : nat) (buf : list Z) (value : Z) : list Z :=
  match fuel with
  | O => buf
  | S fuel =>
      if 0x80 <=? value then
        write_u64_varint_loop fuel
          (buf ++ [Z.lor (Z.land (wrap 8 value) 0x7f) 0x80]) (Z.shiftr value 7)
      else buf ++ [wrap 8 value]
  end.
Definition write_u64_varint (buf : list Z) (value : Z) : list Z :=
  write_u64_varint_loop 10 buf value.

(** [read_u64_varint]: the [for _ in 1..10] loop after the first byte. *)
Fixpoint read_u64_varint_loop (rounds : nat) (bytes : list Z) (pos : nat)
    (value shift : Z) : io_result (Z * nat) :=
  match rounds with
  | O => invalid_data "delta-varint value exceeds u64 limit"
  | S rounds =>
      byte ← or_data (bytes !! pos) "truncated delta-varint value";
      _ ← ensure_data (negb ((shift =? 63) && negb (Z.land byte 0x7e =? 0)))
            "delta-varint value exceeds u64 limit";
      let value := Z.lor value (wrap 64 (Z.shiftl (Z.land byte 0x7f) shift)) in
      if Z.land byte 0x80 =? 0 then Ok (value, S pos)
      else read_u64_varint_loop rounds bytes (S pos) value (shift + 7)
  end.
Definition read_u64_varint (bytes : list Z) (pos : nat) : io_result (Z * nat) :=
  first ← or_data (bytes !! pos) "truncated delta-varint value";
  if first <? 0x80 then Ok (first, S pos)
  else read_u64_varint_loop 9 bytes (S pos) (Z.land first 0x7f) 7.

Fixpoint encode_delta_loop (buf : list Z) (prev : Z) (ids : list Z) : list Z :=
  match ids with
  | [] => buf
  | id :: ids =>
      let delta := wrap 64 (wrap 64 id - wrap 64 prev) in
      encode_delta_loop (write_u64_varint buf delta) id ids
  end.
Definition encode_delta_varint_ids (ids : list Z) : Z * list Z :=
  match ids with
  | [] => (0, [])
  | base :: _ => (base, encode_delta_loop [] base ids)
  end.

Fixpoint decode_delta_loop (count : nat) (buf : list Z) (pos : nat)
    (current prev_signed : Z) : io_result (list Z * nat) :=
  match count with
  | O => Ok ([], pos)
  | S count =>
      '(delta, pos) ← read_u64_varint buf pos;
      let current := wrap 64 (current + delta) in
      let id := to_signed 64 current in
      _ ← ensure_data (negb (id <? prev_signed))
            "decoded ID sequence is not monotonically non-decreasing";
      '(ids, pos) ← decode_delta_loop count buf pos current id;
      Ok (id :: ids, pos)
  end.
Definition decode_delta_varint_ids (base : Z) (buf : list Z) (count : nat) : io_result (list Z) :=
  '(ids, pos) ← decode_delta_loop count buf 0 (wrap 64 base) base;
  _ ← ensure_data (Nat.eqb pos (length buf)) "trailing bytes in delta-varint ID section";
  Ok ids.

(** The bytes one value contributes, without the accumulator. *)
Fixpoint varint_bytes (fuel : nat) (value : Z) : list Z :=
  match fuel with
  | O => []
  | S fuel =>
      if 128 <=? value then (value mod 128 + 128) :: varint_bytes fuel (value / 128) else [value]
  end.

Lemma varint_bytes_S fuel v :
  varint_bytes (S fuel) v =
    if 128 <=? v then (v mod 128 + 128) :: varint_bytes fuel (v / 128) else [v].
Proof. done. Qed.

Lemma continuation_byte v : Z.lor (Z.land (wrap 8 v) 0x7f) 0x80 = v mod 128 + 128.
Proof.
  pose proof (byte_forall (λ b, Z.lor (Z.land b 127) 128 =? b mod 128 + 128)
    ltac:(vm_compute; reflexivity) (wrap 8 v) (wrap_ok 8 v ltac:(lia))) as H.
  apply Z.eqb_eq in H. rewrite H. f_equal. unfold wrap. change (2 ^ 8) with (128 * 2).
  rewrite Z.rem_mul_r by lia. rewrite Z.mul_comm, Z_mod_plus_full. apply Zmod_mod.
Qed.

Lemma byte_low_bits b : u8 b → Z.land b 0x7f = b mod 128.
Proof. intros. apply (land_ones_mod b 7). lia. Qed.

Lemma byte_high_bit b : u8 b → (Z.land b 0x80 =? 0) = (b <? 128).
Proof.
  intros Hb. apply eqb_prop. revert b Hb.
  apply (byte_forall (λ b, Bool.eqb (Z.land b 128 =? 0) (b <? 128))). by vm_compute.
Qed.

Lemma shiftr7 v : Z.shiftr v 7 = v / 128.
Proof. by rewrite Z.shiftr_div_pow2. Qed.

Lemma write_u64_varint_loop_eq fuel buf v :
  0 <= v → write_u64_varint_loop fuel buf v = buf ++ varint_bytes fuel v.
Proof.
  revert buf v. induction fuel as [|fuel IH]; intros buf v Hv; simpl; [by rewrite app_nil_r|].
  case_match eqn:E; [|rewrite wrap_small by (unfold_widths; lia); done].
  rewrite continuation_byte, shiftr7, IH by (apply Z.div_pos; lia).
  by rewrite <- app_assoc.
Qed.

Lemma varint_bytes_ok fuel v : 0 <= v → bytes_ok (varint_bytes fuel v).
Proof.
  revert v. induction fuel as [|fuel IH]; intros v Hv; simpl; [constructor|].
  case_match; constructor.
  - pose proof (Z.mod_pos_bound v 128). unfold_widths. lia.
  - apply IH, Z.div_pos; lia.
  - unfold_widths; lia.
  - constructor.
Qed.

Lemma mod_add_128 r : 0 <= r < 128 → (r + 128) mod 128 = r.
Proof. intros. symmetry. apply (Z.mod_unique _ _ 1); lia. Qed.

Lemma read_group acc b shift :
  0 <= shift → u8 b → 0 <= acc < 2 ^ shift → (b mod 128) * 2 ^ shift < 2 ^ 64 →
  Z.lor acc (wrap 64 (Z.shiftl (Z.land b 0x7f) shift)) = acc + (b mod 128) * 2 ^ shift.
Proof.
  intros Hs Hb Hacc Hlt. pose proof (Z.mod_pos_bound b 128).
  rewrite byte_low_bits by done. rewrite wrap_small.
  - by apply lor_shiftl_add.
  - rewrite Z.shiftl_mul_pow2 by done. unfold u_ok. pose proof (pow2_pos shift Hs). nia.
Qed.

Lemma read_u64_varint_loop_bytes rounds pre post acc shift v :
  shift = 7 * (10 - Z.of_nat rounds) → (0 < rounds ≤ 9)%nat →
  0 <= acc < 2 ^ shift → 0 <= v → v * 2 ^ shift < 2 ^ 64 →
  read_u64_varint_loop rounds (pre ++ varint_bytes rounds v ++ post) (length pre) acc shift =
    Ok (acc + v * 2 ^ shift, (length pre + length (varint_bytes rounds v))%nat).
Proof.
  revert pre acc shift v. induction rounds as [|rounds IH]; [lia|].
  intros pre acc shift v Hs Hr Hacc Hv Hlt.
  pose proof (pow2_pos shift ltac:(lia)) as HP.
  pose proof (Z.div_mod v 128 ltac:(lia)). pose proof (Z.mod_pos_bound v 128 ltac:(lia)).
  cbn [varint_bytes read_u64_varint_loop]. destruct (128 <=? v) eqn:E.
  - assert (u8 (v mod 128 + 128)) as Hb by (unfold_widths; lia).
    assert ((v mod 128 + 128) mod 128 = v mod 128) as Em.
    { by apply mod_add_128. }
    assert (shift <> 63) by (intros ->; lia).
    rewrite <- app_comm_cons, list_lookup_middle by done. cbn -[Z.land Z.lor Z.shiftl wrap].
    rewrite (proj2 (Z.eqb_neq shift 63)) by done. cbn -[Z.land Z.lor Z.shiftl wrap].
    rewrite byte_high_bit, (proj2 (Z.ltb_ge _ _)) by (done || lia).
    rewrite read_group; [|lia|done..|]; rewrite Em; [|nia].
    replace (pre ++ (v mod 128 + 128) :: varint_bytes rounds (v / 128) ++ post) with
      ((pre ++ [v mod 128 + 128]) ++ varint_bytes rounds (v / 128) ++ post)
      by (rewrite <- app_assoc; done).
    replace (S (length pre)) with (length (pre ++ [v mod 128 + 128])) by (rewrite length_app; simpl; lia).
    assert (2 ^ (shift + 7) = 2 ^ shift * 128) as EP by (rewrite Z.pow_add_r by lia; done).
    destruct rounds as [|rounds]; [exfalso; assert (shift = 63) by lia; done|].
    rewrite IH; rewrite ?EP; try nia; [|lia..].
    f_equal. f_equal; [nia|]. rewrite length_app. simpl. lia.
  - assert (u8 v) as Hb by (unfold_widths; lia).
    simpl app. rewrite list_lookup_middle by done. cbn -[Z.land Z.lor Z.shiftl wrap].
    assert (negb ((shift =? 63) && negb (Z.land v 0x7e =? 0)) = true) as ->.
    { destruct (Z.eqb_spec shift 63) as [->|]; [|done].
      assert (v = 0 ∨ v = 1) as [-> | ->] by lia; done. }
    cbn -[Z.land Z.lor Z.shiftl wrap].
    rewrite byte_high_bit, (proj2 (Z.ltb_lt _ _)) by (done || lia).
    rewrite read_group; [|lia|done..|]; rewrite (Z.mod_small v 128) by lia; [|done].
    f_equal. f_equal. lia.
Qed.

Lemma read_varint_bytes pre post v :
  u64 v →
  read_u64_varint (pre ++ varint_bytes 10 v ++ post) (length pre) =
    Ok (v, (length pre + length (varint_bytes 10 v))%nat).
Proof.
  intros Hv. unfold read_u64_varint. unfold_widths. rewrite (varint_bytes_S 9).
  destruct (128 <=? v) eqn:E; cbn [app]; rewrite list_lookup_middle by done;
    cbn -[Z.land varint_bytes read_u64_varint_loop].
  - pose proof (Z.div_mod v 128 ltac:(lia)). pose proof (Z.mod_pos_bound v 128 ltac:(lia)).
    rewrite (proj2 (Z.ltb_ge _ _)) by lia.
    rewrite byte_low_bits by (unfold_widths; lia).
    rewrite mod_add_128 by done.
    rewrite (cons_middle (v mod 128 + 128)), (app_assoc pre).
    replace (S (length pre)) with (length (pre ++ [v mod 128 + 128])) by (rewrite length_app; simpl; lia).
    rewrite (read_u64_varint_loop_bytes 9); try lia; change (2 ^ 7) with 128; try lia.
    rewrite length_app. cbn -[varint_bytes]. f_equal. f_equal; lia.
  - rewrite (proj2 (Z.ltb_lt _ _)) by lia. f_equal. f_equal. lia.
Qed.

(** What a list of IDs contributes after [prev]. *)
Fixpoint delta_bytes (prev : Z) (ids : list Z) : list Z :=
  match ids with
  | [] => []
  | id :: ids => varint_bytes 10 (wrap 64 (wrap 64 id - wrap 64 prev)) ++ delta_bytes id ids
  end.

Lemma encode_delta_loop_eq buf prev ids :
  encode_delta_loop buf prev ids = buf ++ delta_bytes prev ids.
Proof.
  revert buf prev. induction ids as [|id ids IH]; intros buf prev; simpl; [by rewrite app_nil_r|].
  unfold write_u64_varint. rewrite write_u64_varint_loop_eq, IH, app_assoc; [done|].
  apply wrap_ok. lia.
Qed.

(** Adding the wrapped difference of two signed IDs restores the second one. *)
Lemma delta_step id prev :
  i64 id → wrap 64 (wrap 64 prev + wrap 64 (wrap 64 id - wrap 64 prev)) = wrap 64 id.
Proof.
  intros. unfold wrap. rewrite <- Zplus_mod_idemp_r, Zmod_mod, Zplus_mod_idemp_r.
  replace (prev mod 2 ^ 64 + (id mod 2 ^ 64 - prev mod 2 ^ 64)) with (id mod 2 ^ 64) by lia.
  apply Zmod_mod.
Qed.

Definition not_monotonic : io_error :=
  IoError InvalidData "decoded ID sequence is not monotonically non-decreasing".

Lemma decode_delta_loop_step pre prev id (ids rest : list Z) :
  i64 prev → i64 id →
  decode_delta_loop (S (length ids)) (pre ++ delta_bytes prev (id :: rest)) (length pre)
      (wrap 64 prev) prev =
    if id <? prev then Err not_monotonic
    else '(ids, pos) ← decode_delta_loop (length ids)
           ((pre ++ varint_bytes 10 (wrap 64 (wrap 64 id - wrap 64 prev))) ++ delta_bytes id rest)
           (length (pre ++ varint_bytes 10 (wrap 64 (wrap 64 id - wrap 64 prev)))) (wrap 64 id) id;
         Ok (id :: ids, pos).
Proof.
  intros Hp Hi. cbn -[varint_bytes wrap to_signed].
  rewrite read_varint_bytes by (apply wrap_ok; lia). cbn -[varint_bytes wrap to_signed].
  rewrite delta_step, (to_signed_wrap 64), <- app_assoc, length_app by done.
  by destruct (id <? prev).
Qed.

Lemma decode_delta_loop_bytes pre prev ids :
  i64 prev → Forall i64 ids →
  decode_delta_loop (length ids) (pre ++ delta_bytes prev ids) (length pre) (wrap 64 prev) prev =
    if decide (Sorted Z.le (prev :: ids))
    then Ok (ids, length (pre ++ delta_bytes prev ids)) else Err not_monotonic.
Proof.
  intros Hp Hids. revert pre prev Hp. induction Hids as [|id ids Hid Hids IH]; intros pre prev Hp.
  - rewrite decide_True by repeat constructor. simpl. by rewrite app_nil_r.
  - cbn [length]. rewrite decode_delta_loop_step, IH by done.
    destruct (Z.ltb_spec id prev).
    { rewrite decide_False; [done|]. intros Hs. apply Sorted_inv in Hs as [_ Hs].
      inversion Hs; subst; lia. }
    destruct (decide (Sorted Z.le (id :: ids))) as [Hs|Hs]; simpl.
    + rewrite decide_True by (constructor; [done|by constructor]). by rewrite <- app_assoc.
    + rewrite decide_False; [done|]. intros [? _]%Sorted_inv. done.
Qed.

Lemma read_u64_varint_loop_bounds rounds bytes pos acc shift v pos' :
  bytes_ok bytes → shift = 7 * (10 - Z.of_nat rounds) → (rounds ≤ 9)%nat → 0 <= acc < 2 ^ shift →
  read_u64_varint_loop rounds bytes pos acc shift = Ok (v, pos') →
  u64 v ∧ (pos < pos' ≤ pos + rounds)%nat ∧ (pos' ≤ length bytes)%nat.
Proof.
  intros Hbs. revert pos acc shift.
  induction rounds as [|rounds IH]; intros pos acc shift Hs Hr Hacc H; simpl in H; [done|].
  inv_ok. rename x into b. assert (u8 b) as Hb by (eapply Forall_lookup_1; eauto).
  match goal with H : bytes !! pos = Some b |- _ => apply lookup_lt_Some in H as Hlt end.
  pose proof (Z.mod_pos_bound b 128 ltac:(lia)). pose proof (pow2_pos shift ltac:(lia)).
  assert ((b mod 128) * 2 ^ shift < 2 ^ 64 ∧ (b mod 128) * 2 ^ shift + 2 ^ shift <= 2 ^ 64) as [Hlt1 Hlt2].
  { destruct (decide (shift = 63)) as [->|].
    - rewrite Z.eqb_refl in H1. simpl in H1. rewrite negb_involutive in H1.
      assert (b mod 128 <= 1); [|lia].
      pose proof (byte_forall (λ b, implb (Z.land b 0x7e =? 0) (b mod 128 <=? 1))
        ltac:(by vm_compute) b Hb) as Hi. cbv beta in Hi. rewrite H1 in Hi. simpl in Hi. lia.
    - assert (2 ^ shift <= 2 ^ 56) by (apply Z.pow_le_mono_r; lia).
      change (2 ^ 64) with (256 * 2 ^ 56). nia. }
  rewrite read_group in H by (done || lia).
  destruct (Z.land b 0x80 =? 0).
  - inv_ok. unfold u64, u_ok. split; [|lia]. nia.
  - apply IH in H as (? & ? & ?); [|lia|lia|]; [split; [done|lia]|].
    rewrite Z.pow_add_r by lia. change (2 ^ 7) with 128. nia.
Qed.

Lemma decode_delta_loop_sound count buf pos current prev ids pos' :
  decode_delta_loop count buf pos current prev = Ok (ids, pos') →
  length ids = count ∧ Forall i64 ids ∧ Sorted Z.le (prev :: ids).
Proof.
  revert pos current prev ids pos'. induction count as [|count IH]; simpl; intros pos current prev ids pos' H.
  - inv_ok. split_and!; [done|constructor|repeat constructor].
  - inv_ok. destruct x as [delta p]. inv_ok. destruct x0 as [ids' p']. inv_ok.
    apply IH in H2 as (? & ? & ?). split_and!; [simpl; lia| |].
    + constructor; [|done]. by apply (to_signed_ok 64).
    + constructor; [done|]. constructor. lia.
Qed.
#[global] Arguments varint_bytes : simpl never.
End Varint.

(** ** Properties of the row-ID sections *)

Module VarintProps.
Import Varint.

(** The LEB128 reader inverts the writer for every [u64]: reading at the
    position where [write_u64_varint] appended gives the value back and stops
    exactly behind the appended bytes, whatever follows them. *)
Theorem u64_varint_roundtrip (buf rest : list Z) (v : Z) :
  u64 v →
  read_u64_varint (write_u64_varint buf v ++ rest) (length buf) =
    Ok (v, length (write_u64_varint buf v)).
Proof.
  intros Hv. unfold write_u64_varint. rewrite write_u64_varint_loop_eq by apply Hv.
  rewrite <- app_assoc, read_varint_bytes, length_app by done. done.
Qed.

Lemma u64_varint_roundtrip_witness :
  read_u64_varint (write_u64_varint [7] (2 ^ 64 - 1) ++ [9]) 1 =
    Ok (2 ^ 64 - 1, 11%nat).
Proof. apply (u64_varint_roundtrip [7] [9] (2 ^ 64 - 1)). unfold_widths. lia. Defined.

(** Whatever bytes it is given, a successful [read_u64_varint] yields a
    [u64], consumes between one and ten bytes and stays inside the slice, so
    the shifts never lose bits. *)
Theorem u64_varint_bounds (bytes : list Z) (pos pos' : nat) (v : Z) :
  bytes_ok bytes → read_u64_varint bytes pos = Ok (v, pos') →
  u64 v ∧ (pos < pos' ≤ pos + 10)%nat ∧ (pos' ≤ length bytes)%nat.
Proof.
  intros Hbs H. unfold read_u64_varint in H. inv_ok. rename x into b.
  assert (u8 b) as Hb by (eapply Forall_lookup_1; eauto).
  match goal with H : bytes !! pos = Some b |- _ => apply lookup_lt_Some in H as Hlt end.
  destruct (b <? 128) eqn:E.
  - inv_ok. split; [|lia]. unfold_widths. lia.
  - apply read_u64_varint_loop_bounds in H as (? & ? & ?); try done; [split; [done|lia]|].
    rewrite byte_low_bits by done. apply Z.mod_pos_bound. lia.
Qed.

Lemma u64_varint_bounds_witness :
  u64 300 ∧ (0 < 2 ≤ 0 + 10)%nat ∧ (2 ≤ length [0xac; 0x02])%nat.
Proof.
  apply (u64_varint_bounds [0xac; 0x02] 0 2 300); [|reflexivity].
  repeat constructor; unfold_widths; lia.
Defined.

(** Delta-varint sections decode to exactly the IDs that were encoded when
    those are in non-decreasing order, and are rejected as non-monotonic
    when they are not: an unsorted list can be written but never read back as
    something else. *)
Theorem delta_varint_ids_roundtrip (ids : list Z) :
  Forall i64 ids →
  decode_delta_varint_ids (encode_delta_varint_ids ids).1 (encode_delta_varint_ids ids).2
      (length ids) =
    if decide (Sorted Z.le ids) then Ok ids else Err not_monotonic.
Proof.
  intros Hids. destruct ids as [|base ids]; [by rewrite decide_True by constructor|].
  unfold encode_delta_varint_ids, decode_delta_varint_ids. cbn [fst snd].
  rewrite encode_delta_loop_eq, app_nil_l. inversion Hids; subst.
  pose proof (decode_delta_loop_bytes [] base (base :: ids)) as H.
  rewrite !app_nil_l in H. simpl length in H at 2. rewrite H by done.
  destruct (decide (Sorted Z.le (base :: ids))) as [Hs|Hs].
  - rewrite decide_True by (constructor; [done|constructor; lia]).
    simpl. by rewrite Nat.eqb_refl.
  - rewrite decide_False; [done|]. by intros [? _]%Sorted_inv.
Qed.

Lemma delta_varint_ids_roundtrip_witness :
  decode_delta_varint_ids (-5) (encode_delta_varint_ids [-5; -5; 3; 2 ^ 63 - 1]).2 4 =
    Ok [-5; -5; 3; 2 ^ 63 - 1].
Proof.
  apply (delta_varint_ids_roundtrip [-5; -5; 3; 2 ^ 63 - 1]).
  repeat constructor; unfold_widths; lia.
Defined.

(** On arbitrary bytes, IDs that [decode_delta_varint_ids] accepts are
    exactly [count] many, fit [i64] and are sorted starting at the base. *)
Theorem decode_delta_varint_ids_sound (base : Z) (buf : list Z) (count : nat) (ids : list Z) :
  decode_delta_varint_ids base buf count = Ok ids →
  length ids = count ∧ Forall i64 ids ∧ Sorted Z.le (base :: ids).
Proof.
  unfold decode_delta_varint_ids. intros H. inv_ok. destruct x as [ids' pos]. inv_ok.
  by eapply decode_delta_loop_sound.
Qed.

Lemma decode_delta_varint_ids_sound_witness :
  length [10; 12; 12] = 3%nat ∧ Forall i64 [10; 12; 12] ∧ Sorted Z.le [10; 10; 12; 12].
Proof. apply (decode_delta_varint_ids_sound 10 [0; 2; 0]). reflexivity. Defined.
End VarintProps.

(** ** Validators and conversions *)

Module Validate.

Definition validate_search_inputs (queries_len nq d k nprobe : Z) : io_result unit :=
  _ ← ensure_input (negb (nq =? 0)) "nq must be greater than 0";
  expected_query_len ← or_input (checked_mul 64 nq d) "nq * dimension overflows usize";
  _ ← ensure_input (queries_len =? expected_query_len)
        "queries length {} does not match nq * dimension {}";
  _ ← ensure_input (negb (k =? 0)) "k must be greater than 0";
  ensure_input (negb (nprobe =? 0)) "nprobe must be greater than 0".

Definition validate_reserved_zero (bytes : list Z) : io_result unit :=
  ensure_data (negb (existsb (λ byte, negb (byte =? 0)) bytes)) "{} reserved bytes must be zero".

Definition bytes_to_f32_vec (bytes : list Z) : io_result (list Z) :=
  _ ← ensure_data (length bytes mod 4 =? 0)%nat "f32 byte section is not 4-byte aligned";
  Ok (le_val <$> chunks_exact 4 bytes).

Definition write_f32_slice `{SeekWrite W} (out : W) (data : list Z) : io_result W :=
  write_all out (concat (le_bytes 4 <$> data)).
Definition write_u32_le `{SeekWrite W} (out : W) (v : Z) : io_result W := write_all out (le_bytes 4 v).
Definition write_i32_le `{SeekWrite W} (out : W) (v : Z) : io_result W := write_all out (le_bytes 4 v).
Definition write_i64_le `{SeekWrite W} (out : W) (v : Z) : io_result W := write_all out (le_bytes 8 v).

Definition validate_positive_i32 (val : Z) : io_result Z :=
  _ ← ensure_data (0 <? val) "invalid header field {}: {} (must be positive)"; Ok val.

Definition usize_to_i32 (value : Z) : io_result Z :=
  _ ← ensure_input (value <=? 2 ^ 31 - 1) "{} exceeds i32 length limit: {}"; Ok value.
Definition usize_to_i64 (value : Z) : io_result Z :=
  _ ← ensure_input (value <=? 2 ^ 63 - 1) "{} exceeds i64 length limit: {}"; Ok value.
Definition u64_to_i64 (value : Z) : io_result Z :=
  _ ← ensure_input (value <=? 2 ^ 63 - 1) "{} exceeds i64 offset limit: {}"; Ok value.

Definition MAX_SECTION_ELEMENTS : Z := Z.shiftl 1 30.
Definition checked_section_size (a b : Z) : io_result Z :=
  result ← or_data (checked_mul 64 a b) "section size overflow";
  _ ← ensure_data (result <=? MAX_SECTION_ELEMENTS) "section size {} exceeds maximum {}";
  Ok result.
Definition checked_list_offset (offset : Z) : io_result Z :=
  _ ← ensure_data (0 <=? offset) "negative list offset {} at list {}"; Ok offset.
Definition checked_list_bytes (count bytes_per_entry : Z) : io_result Z :=
  or_data (checked_mul 64 count bytes_per_entry) "list byte size overflow".

Lemma concat_le_bytes_f32 (data : list Z) : Forall u32 data →
  bytes_to_f32_vec (concat (le_bytes 4 <$> data)) = Ok data.
Proof.
  intros Hd. unfold bytes_to_f32_vec.
  assert (Forall (λ l, length l = 4%nat) (le_bytes 4 <$> data)) as Hl.
  { rewrite Forall_fmap. apply Forall_true. intros. apply le_bytes_length. }
  assert (length (concat (le_bytes 4 <$> data)) = (length data * 4)%nat) as ->.
  { clear Hd Hl. induction data as [|v data IH]; [done|].
    cbn [fmap list_fmap concat]. rewrite length_app, le_bytes_length, IH. simpl. lia. }
  rewrite Nat.Div0.mod_mul. simpl. rewrite chunks_exact_concat by (done || lia).
  f_equal. rewrite <- list_fmap_compose. clear Hl. induction Hd as [|v data Hv Hd IH]; [done|].
  rewrite fmap_cons, IH. f_equal. by apply le_val_u32.
Qed.

Lemma reserved_zero_ok bytes u :
  validate_reserved_zero bytes = Ok u ↔ Forall (λ b, b = 0) bytes.
Proof.
  unfold validate_reserved_zero, ensure_data. rewrite guard_ok_Ok.
  induction bytes as [|b bytes IH]; simpl; [split; [constructor|done]|].
  rewrite list.Forall_cons, <- IH. destruct (Z.eqb_spec b 0); simpl; naive_solver.
Qed.
End Validate.

(** ** Bounded batches and streams *)

Module Batch.
Import Varint.

Definition MAX_IVF_BATCH_READ_BYTES : Z := 64 * 1024 * 1024.
Definition IVF_STREAM_ALLOCATION_SLACK : Z := 64.

Definition ivf_payload_is_oversized (payload_len : Z) : bool :=
  MAX_IVF_BATCH_READ_BYTES <? payload_len.

Definition bounded_ivf_stream_chunk_rows
    (remaining_rows row_bytes retained_id_bytes row_alignment : Z) : io_result Z :=
  if remaining_rows =? 0 then Ok 0 else
  _ ← ensure_data (negb ((row_bytes =? 0) || (row_alignment =? 0)))
        "IVF streaming row shape must be greater than zero";
  available ← or_data
    (bytes ← checked_sub MAX_IVF_BATCH_READ_BYTES retained_id_bytes;
     checked_sub bytes IVF_STREAM_ALLOCATION_SLACK)
    "IVF decoded row IDs exceed the bounded streaming allocation";
  let rows := Z.min (available / row_bytes) remaining_rows in
  let rows := if (rows <? remaining_rows) && (1 <? row_alignment)
              then rows - rows mod row_alignment else rows in
  _ ← ensure_data (negb (rows =? 0)) "one IVF streaming block exceeds the bounded allocation";
  Ok rows.

Definition read_delta_varint_ids_at `{SeekRead R} (reader : R) (offset : Z) (count id_bytes_len : nat) :
    io_result (list Z * R) :=
  prefix_len ← or_data (checked_add 64 12 (Z.of_nat id_bytes_len))
                 "{format_name} ID prefix size overflows usize";
  decoded_bytes ← or_data (checked_mul 64 (Z.of_nat count) 8)
                    "{format_name} decoded ID size overflows usize";
  _ ← ensure_data
        (match checked_add 64 prefix_len decoded_bytes with
         | None => false
         | Some peak => peak <=? MAX_IVF_BATCH_READ_BYTES
         end)
        "{format_name} ID section and decoded IDs exceed the bounded streaming allocation";
  let '(res, reader) := pread reader [Request offset (Z.to_nat prefix_len)] in
  bufs ← res;
  prefix ← expect (head bufs);
  let base_id := le_val_i64 (slice 0 8 prefix) in
  let stored_id_bytes_len := le_val_i32 (slice 8 4 prefix) in
  _ ← ensure_data (negb ((stored_id_bytes_len <? 0) || negb (stored_id_bytes_len =? Z.of_nat id_bytes_len)))
        "{format_name} ID length does not match the offset table";
  ids ← decode_delta_varint_ids base_id (drop 12 prefix) count;
  Ok (ids, reader).

(** [for (index, &payload_len) in payload_lengths.iter().enumerate()] *)
Fixpoint payload_batch_loop (payload_lengths : list Z) (index : nat) (bytes ranges max_ranges : Z) :
    io_result nat :=
  match payload_lengths with
  | [] => Ok index
  | payload_len :: rest =>
      let next_ranges := ranges + (if payload_len =? 0 then 0 else 1) in
      next_bytes ← or_data (checked_add 64 bytes payload_len) "IVF batch payload size overflow";
      if (0 <? index)%nat && ((max_ranges <? next_ranges) || (MAX_IVF_BATCH_READ_BYTES <? next_bytes))
      then Ok index
      else payload_batch_loop rest (S index) next_bytes next_ranges max_ranges
  end.
Definition bounded_ivf_payload_batch_end (payload_lengths : list Z) (max_ranges_per_pread : Z) :
    io_result nat :=
  match payload_lengths with
  | [] => Ok 0%nat
  | _ =>
      let max_ranges := if max_ranges_per_pread =? 0 then USIZE_MAX else max_ranges_per_pread in
      payload_batch_loop payload_lengths 0 0 0 max_ranges
  end.

(** The inner [while end < payloads.len() && end - start < max_ranges] loop,
    counting [end - start]. *)
Fixpoint batch_extent (reqs : list ReadRequest) (taken : nat) (bytes max_ranges max_batch_bytes : Z) :
    io_result nat :=
  match reqs with
  | [] => Ok taken
  | q :: reqs =>
      if Z.of_nat taken <? max_ranges then
        next ← or_data (checked_add 64 bytes (Z.of_nat (req_len q))) "IVF batch payload size overflow";
        if (0 <? taken)%nat && (max_batch_bytes <? next) then Ok taken
        else batch_extent reqs (S taken) next max_ranges max_batch_bytes
      else Ok taken
  end.
(** [if end == start { end += 1 }] *)
Definition batch_len (reqs : list ReadRequest) (max_ranges max_batch_bytes : Z) : io_result nat :=
  taken ← batch_extent reqs 0 0 max_ranges max_batch_bytes;
  Ok (if Nat.eqb taken 0 then 1%nat else taken).

(** The outer loop; every round consumes at least one request, so as many
    rounds as there are requests are enough. *)
Fixpoint pread_batched_loop `{SeekRead R} (rounds : nat) (reader : R) (reqs : list ReadRequest)
    (max_ranges max_batch_bytes : Z) : io_result (list (list Z) * R) :=
  match reqs, rounds with
  | [], _ => Ok ([], reader)
  | _, O => Panic
  | _, S rounds =>
      n ← batch_len reqs max_ranges max_batch_bytes;
      let '(res, reader) := pread reader (take n reqs) in
      bufs ← res;
      '(rest, reader) ← pread_batched_loop rounds reader (drop n reqs) max_ranges max_batch_bytes;
      Ok (bufs ++ rest, reader)
  end.
Definition pread_batched_slices_with_limit `{SeekRead R} (reader : R) (offsets : list Z)
    (payload_lens : list nat) (max_batch_bytes : Z) : io_result (list (list Z) * R) :=
  _ ← ensure_input (Nat.eqb (length offsets) (length payload_lens))
        "IVF batch offsets and payloads must have the same length";
  let max_ranges :=
    if max_ranges_per_pread (read_capabilities reader) =? 0 then USIZE_MAX
    else max_ranges_per_pread (read_capabilities reader) in
  pread_batched_loop (length payload_lens) reader (zip_with Request offsets payload_lens)
    max_ranges max_batch_bytes.
Definition pread_batched_slices `{SeekRead R} (reader : R) (offsets : list Z) (payload_lens : list nat) :
    io_result (list (list Z) * R) :=
  pread_batched_slices_with_limit reader offsets payload_lens MAX_IVF_BATCH_READ_BYTES.

(** Bytes requested by a batch. *)
Definition batch_bytes (reqs : list ReadRequest) : Z := zsum (λ q, Z.of_nat (req_len q)) reqs.

(** ** Lemmas about the planners *)

Definition nonempty_ranges (lens : list Z) : Z := zsum (λ n, if n =? 0 then 0 else 1) lens.

(** What a prefix of length [n] of the payload lengths satisfies when the
    planner stops there. *)
Definition batch_prefix_ok (lens : list Z) (max_ranges : Z) (n : nat) : Prop :=
  (1 ≤ n ≤ length lens)%nat ∧
  (n = 1%nat ∨ zsum id (take n lens) <= MAX_IVF_BATCH_READ_BYTES ∧ nonempty_ranges (take n lens) <= max_ranges) ∧
  (n = length lens ∨
   MAX_IVF_BATCH_READ_BYTES < zsum id (take (S n) lens) ∨ max_ranges < nonempty_ranges (take (S n) lens)).

Lemma payload_batch_loop_spec pre rest max_ranges n :
  payload_batch_loop rest (length pre) (zsum id pre) (nonempty_ranges pre) max_ranges = Ok n →
  pre ++ rest ≠ [] →
  ((length pre ≤ 1)%nat ∨ zsum id pre <= MAX_IVF_BATCH_READ_BYTES ∧ nonempty_ranges pre <= max_ranges) →
  batch_prefix_ok (pre ++ rest) max_ranges n.
Proof.
  revert pre. induction rest as [|len rest IH]; intros pre H Hne Hpre; simpl in H.
  - inv_ok. rewrite app_nil_r in *. unfold batch_prefix_ok. rewrite firstn_all.
    destruct pre; [done|]. simpl length in *. split; [lia|]. split; [|by left].
    destruct Hpre as [?|?]; [left; lia|by right].
  - inv_ok. match goal with H : zsum id pre + len < _ |- _ => rename H into Hlt end.
    destruct ((0 <? length pre)%nat && _) eqn:E.
    + inv_ok. apply andb_true_iff in E as [E1%Nat.ltb_lt E2].
      assert (take (S (length pre)) (pre ++ len :: rest) = pre ++ [len]) as Htk.
      { rewrite take_app_ge by lia. replace (S (length pre) - length pre)%nat with 1%nat by lia. done. }
      unfold batch_prefix_ok. rewrite Htk, take_app_length, length_app.
      unfold nonempty_ranges in *. rewrite !zsum_app. simpl in *.
      split; [lia|]. split; [destruct Hpre; [left; lia|by right]|]. right.
      apply orb_true_iff in E2 as [E2|E2]; [right|left]; lia.
    + rewrite cons_middle, app_assoc. apply IH; [|by destruct pre|].
      * rewrite length_app. simpl. rewrite Nat.add_1_r. unfold nonempty_ranges.
        rewrite !zsum_app. simpl. rewrite !Z.add_0_r. apply H.
      * apply andb_false_iff in E as [E%Nat.ltb_ge|E].
        { left. rewrite length_app. simpl. lia. }
        apply orb_false_iff in E as [E1 E2]. right. unfold nonempty_ranges in *.
        rewrite !zsum_app. simpl. change (id len) with len. lia.
Qed.

Lemma batch_extent_spec reqs taken bytes max_ranges max_batch n :
  batch_extent reqs taken bytes max_ranges max_batch = Ok n →
  Z.of_nat taken <= max_ranges →
  (taken ≤ n ≤ taken + length reqs)%nat ∧ Z.of_nat n <= max_ranges ∧
  ((n ≤ 1)%nat ∨ n = taken ∨ bytes + batch_bytes (take (n - taken) reqs) <= max_batch) ∧
  (taken = 0%nat → 0 < max_ranges → reqs ≠ [] → n ≠ 0%nat).
Proof.
  revert taken bytes. induction reqs as [|q reqs IH]; intros taken bytes H Ht; simpl in H.
  - inv_ok. simpl. split_and!; try lia; auto.
  - destruct (Z.ltb_spec (Z.of_nat taken) max_ranges).
    2:{ inv_ok. split_and!; try (simpl; lia); auto. }
    inv_ok. destruct ((0 <? taken)%nat && _) eqn:E.
    { inv_ok. apply andb_true_iff in E as [E%Nat.ltb_lt _]. split_and!; try (simpl; lia); auto. }
    apply IH in H as (Ha & Hb & Hc & _); [|lia]. simpl length.
    split_and!; try lia. destruct (decide (n ≤ 1)%nat) as [|Hn]; [by left|]. right; right.
    assert (take (n - taken) (q :: reqs) = q :: take (n - S taken) reqs) as ->
      by (replace (n - taken)%nat with (S (n - S taken)) by lia; done).
    unfold batch_bytes in *. simpl. destruct Hc as [?|[->|?]]; [lia| |lia].
    rewrite Nat.sub_diag, take_0. simpl.
    apply andb_false_iff in E as [E%Nat.ltb_ge|E]; lia.
Qed.

(** The limits one [pread] call of the planner respects. *)
Definition call_ok (max_ranges max_batch_bytes : Z) (call : list ReadRequest) : Prop :=
  call ≠ [] ∧ Z.of_nat (length call) <= max_ranges ∧
  (length call = 1%nat ∨ batch_bytes call <= max_batch_bytes).

Lemma batch_len_spec reqs max_ranges max_batch n :
  reqs ≠ [] → 0 < max_ranges → batch_len reqs max_ranges max_batch = Ok n →
  (1 ≤ n ≤ length reqs)%nat ∧ call_ok max_ranges max_batch (take n reqs).
Proof.
  unfold batch_len. intros Hne Hm H. inv_ok. rename x into taken.
  match goal with H : batch_extent _ _ _ _ _ = _ |- _ =>
    apply batch_extent_spec in H as (H1 & H2 & H3 & H4); [|lia] end.
  specialize (H4 eq_refl Hm Hne). destruct (Nat.eqb_spec taken 0) as [|_]; [done|].
  simpl in H1. split; [lia|]. unfold call_ok. rewrite length_take. split_and!; try lia.
  - intros Ht. apply (f_equal length) in Ht. rewrite length_take in Ht. simpl in Ht. lia.
  - rewrite Nat.sub_0_r in H3. destruct H3 as [?|[?|?]]; [left; lia|lia|right; lia].
Qed.

Lemma batch_extent_not_panic reqs taken bytes max_ranges max_batch :
  batch_extent reqs taken bytes max_ranges max_batch ≠ Panic.
Proof.
  revert taken bytes. induction reqs as [|q reqs IH]; intros taken bytes; simpl; [done|].
  case_match; [|done]. destruct (checked_add _ _ _); simpl; [|done]. case_match; [done|apply IH].
Qed.

(** A reader that also records the calls it receives. *)
Record Recorder (R : Type) := MkRecorder { rec_inner : R; rec_calls : list (list ReadRequest) }.
Arguments MkRecorder {_} _ _.
Arguments rec_inner {_} _.
Arguments rec_calls {_} _.
#[export] Instance Recorder_SeekRead `{SeekRead R} : SeekRead (Recorder R) := {
  pread := λ r reqs, let '(res, inner) := pread (rec_inner r) reqs in
                     (res, MkRecorder inner (rec_calls r ++ [reqs]));
  read_capabilities := λ r, read_capabilities (rec_inner r);
}.

Lemma pread_batched_loop_calls `{SeekRead R} rounds (r r' : Recorder R) reqs mr mb bufs :
  0 < mr → pread_batched_loop rounds r reqs mr mb = Ok (bufs, r') →
  ∃ calls, rec_calls r' = rec_calls r ++ calls ∧ concat calls = reqs ∧ Forall (call_ok mr mb) calls.
Proof.
  intros Hm. revert r reqs bufs. induction rounds as [|rounds IH]; intros r reqs bufs Hrun.
  - destruct reqs; simpl in Hrun; [|done]. inv_ok. exists []. by rewrite app_nil_r.
  - destruct reqs as [|q reqs]; simpl in Hrun.
    { inv_ok. exists []. by rewrite app_nil_r. }
    inv_ok. rename x into n. destruct (pread (rec_inner r) _) as [res inner]. inv_ok.
    destruct x0 as [rest r'']. inv_ok.
    match goal with Hn : batch_len _ _ _ = Ok n |- _ => apply batch_len_spec in Hn as [Hn1 Hn2]; [|done..] end.
    match goal with Hr : pread_batched_loop _ _ _ _ _ = _ |- _ => apply IH in Hr as (calls & E & Hc & Hall) end.
    simpl in E. exists (take n (q :: reqs) :: calls). rewrite E, <- app_assoc. split; [done|].
    simpl concat. rewrite Hc. split; [apply take_drop|]. by constructor.
Qed.

Lemma pread_batched_loop_ok `{SeekReadLaws R} rounds (r r' : R) reqs mr mb bufs :
  0 < mr → Forall (λ q, 0 <= req_pos q) reqs → pread_batched_loop rounds r reqs mr mb = Ok (bufs, r') →
  Forall (in_range (contents r)) reqs ∧ bufs = range_of (contents r) <$> reqs ∧ contents r' = contents r.
Proof.
  intros Hm. revert r reqs bufs. induction rounds as [|rounds IH]; intros r reqs bufs Hp Hrun.
  - destruct reqs; simpl in Hrun; [|done]. inv_ok. done.
  - destruct reqs as [|q reqs]; simpl in Hrun; [by inv_ok|].
    inv_ok. rename x into n. destruct (pread r _) as [res r1] eqn:Er. inv_ok.
    destruct x0 as [rest r'']. inv_ok.
    match goal with Hn : batch_len _ _ _ = Ok n |- _ => apply batch_len_spec in Hn as [Hn1 _]; [|done..] end.
    pose proof (pread_contents r (take n (q :: reqs))) as Hcont. rewrite Er in Hcont. simpl in Hcont.
    apply pread_ok in Er as [Hin ->]; [|by apply Forall_take].
    match goal with Hr : pread_batched_loop _ _ _ _ _ = _ |- _ =>
      apply IH in Hr as (Hin2 & -> & ->); [|by apply Forall_drop] end.
    rewrite Hcont in *. split_and!; [|by rewrite <- fmap_app, take_drop|done].
    rewrite <- (take_drop n (q :: reqs)). by apply Forall_app.
Qed.

(** Batches of payloads that exist in a source never overflow. *)
Lemma batch_extent_total reqs taken bytes max_ranges max_batch :
  0 <= bytes → max_batch < 2 ^ 63 → (taken = 0%nat → bytes = 0) → bytes < 2 ^ 63 → Forall (λ q, Z.of_nat (req_len q) < 2 ^ 63) reqs →
  ∃ n, batch_extent reqs taken bytes max_ranges max_batch = Ok n.
Proof.
  intros H0 Hb Ht Hlt Hq. revert taken bytes H0 Ht Hlt. induction Hq as [|q reqs Hq _ IH]; intros taken bytes H0 Ht Hlt; cbn [batch_extent]; [by eexists|].
  case_match; [|by eexists]. rewrite (proj2 (checked_add_Some 64 _ _ _)) by (split; [done|lia]). cbn [or_data ok_or mbind io_result_bind].
  destruct ((0 <? taken)%nat && (max_batch <? bytes + Z.of_nat (req_len q))) eqn:E; [by eexists|]. apply IH; [lia|lia|].
  apply andb_false_iff in E as [E%Nat.ltb_ge|E]; lia.
Qed.

Lemma pread_batched_loop_total `{IR : InfallibleRead R} rounds (r : R) reqs mr mb : 0 < mr → mb < 2 ^ 63 → (length reqs ≤ rounds)%nat →
  zlen (contents r) < 2 ^ 63 → Forall (in_range (contents r)) reqs →
  ∃ r', pread_batched_loop rounds r reqs mr mb = Ok (range_of (contents r) <$> reqs, r') ∧ contents r' = contents r ∧
    read_capabilities r' = read_capabilities r.
Proof.
  intros Hm Hmb. revert r reqs. induction rounds as [|rounds IH]; intros r reqs Hl Hc Hr.
  - destruct reqs; [|cbn in Hl; lia]. by exists r.
  - destruct reqs as [|q reqs]; [by exists r|]. cbn [pread_batched_loop]. unfold batch_len.
    assert (Forall (λ q, Z.of_nat (req_len q) < 2 ^ 63) (q :: reqs)) as Hq.
    { eapply Forall_impl; [exact Hr|]. intros x [? ?]. lia. }
    destruct (batch_extent_total (q :: reqs) 0 0 mr mb) as [n En]; [done..|].
    pose proof (batch_len_spec (q :: reqs) mr mb (if Nat.eqb n 0 then 1 else n)%nat ltac:(done) Hm) as Hn.
    unfold batch_len in Hn. rewrite En in *. cbn [mbind io_result_bind] in *. destruct (Hn eq_refl) as [Hn1 _].
    set (k := if Nat.eqb n 0 then 1%nat else n) in *. clearbody k.
    destruct (pread_total r (take k (q :: reqs))) as [r1 E1]; [by apply Forall_take|]. rewrite E1. cbn [mbind io_result_bind].
    pose proof (pread_contents r (take k (q :: reqs))) as C1. pose proof (pread_capabilities r (take k (q :: reqs))) as P1. rewrite E1 in C1, P1. cbn in C1, P1.
    destruct (IH r1 (drop k (q :: reqs))) as (r2 & -> & C2 & P2); [rewrite length_drop; cbn [length] in *; lia|by rewrite C1|rewrite C1; by apply Forall_drop|].
    cbn [mbind io_result_bind]. exists r2. rewrite C2, P2, C1, <- fmap_app, take_drop. done.
Qed.

Lemma pread_batched_slices_total `{IR : InfallibleRead R} (r : R) offsets lens : 0 <= max_ranges_per_pread (read_capabilities r) →
  length offsets = length lens → zlen (contents r) < 2 ^ 63 → Forall (in_range (contents r)) (zip_with Request offsets lens) →
  ∃ r', pread_batched_slices r offsets lens = Ok (zip_with (λ o n, slice (Z.to_nat o) n (contents r)) offsets lens, r') ∧
    contents r' = contents r ∧ read_capabilities r' = read_capabilities r.
Proof.
  intros Hc Hl Hz Hr. unfold pread_batched_slices, pread_batched_slices_with_limit. rewrite Hl, Nat.eqb_refl. cbn [ensure_input guard_ok mbind io_result_bind].
  destruct (pread_batched_loop_total (length lens) r (zip_with Request offsets lens)
    (if max_ranges_per_pread (read_capabilities r) =? 0 then USIZE_MAX else max_ranges_per_pread (read_capabilities r)) MAX_IVF_BATCH_READ_BYTES)
    as (r' & -> & C & P); [case_match; unfold_widths; lia|done|rewrite length_zip_with; lia|done|done|].
  exists r'. by rewrite fmap_zip_with.
Qed.
End Batch.

(** ** Properties of the bounded reads *)

Module BatchProps.
Import Varint Validate Batch.

(** A streamed chunk never exceeds the allocation bound together with the
    retained IDs and the slack, makes progress, honours the block alignment
    for every chunk but the last, and is as large as those limits allow. *)
Theorem stream_chunk_rows_bounds (remaining row_bytes retained alignment rows : Z) :
  0 < remaining → 0 <= row_bytes → 0 <= retained → 0 <= alignment →
  bounded_ivf_stream_chunk_rows remaining row_bytes retained alignment = Ok rows →
  0 < rows <= remaining ∧
  rows * row_bytes + retained + IVF_STREAM_ALLOCATION_SLACK <= MAX_IVF_BATCH_READ_BYTES ∧
  (rows = remaining ∨
   (alignment | rows) ∧
   MAX_IVF_BATCH_READ_BYTES < (rows + alignment) * row_bytes + retained + IVF_STREAM_ALLOCATION_SLACK).
Proof.
  intros Hr Hb Ht Ha. unfold bounded_ivf_stream_chunk_rows.
  destruct (Z.eqb_spec remaining 0); [lia|]. intros H. inv_ok.
  rename x0 into available. apply bind_Some in H1 as (y & ? & ?). inv_ok.
  apply negb_true_iff, orb_false_iff in H0 as [?%Z.eqb_neq ?%Z.eqb_neq].
  apply negb_true_iff, Z.eqb_neq in H2.
  set (avail := MAX_IVF_BATCH_READ_BYTES - retained - IVF_STREAM_ALLOCATION_SLACK) in *.
  pose proof (Z.div_mod avail row_bytes ltac:(lia)).
  pose proof (Z.mod_pos_bound avail row_bytes ltac:(lia)).
  set (q := avail / row_bytes) in *. assert (0 <= q) by (apply Z.div_pos; lia).
  set (r0 := Z.min q remaining) in *.
  destruct ((r0 <? remaining) && (1 <? alignment)) eqn:E.
  - apply andb_true_iff in E as [E1%Z.ltb_lt E2%Z.ltb_lt]. assert (r0 = q) as Eq by lia.
    pose proof (Z.div_mod r0 alignment ltac:(lia)). pose proof (Z.mod_pos_bound r0 alignment ltac:(lia)).
    assert (0 <= r0 / alignment) by (apply Z.div_pos; lia).
    split_and!; [nia|lia|nia|]. right. split; [exists (r0 / alignment); lia|nia].
  - split_and!; [lia..|nia|]. destruct (decide (r0 = remaining)); [by left|right].
    assert (alignment = 1) as -> by (apply andb_false_iff in E as [?|?]; lia).
    split; [apply Z.divide_1_l|nia].
Qed.

Lemma stream_chunk_rows_bounds_witness :
  0 < 57312 <= 100000 ∧
  57312 * 1024 + 8388608 + IVF_STREAM_ALLOCATION_SLACK <= MAX_IVF_BATCH_READ_BYTES ∧
  (57312 = 100000 ∨ (32 | 57312) ∧
   MAX_IVF_BATCH_READ_BYTES < (57312 + 32) * 1024 + 8388608 + IVF_STREAM_ALLOCATION_SLACK).
Proof. apply (stream_chunk_rows_bounds 100000 1024 8388608 32 57312); try lia. reflexivity. Defined.

(** The batch planner returns a non-empty prefix that fits the byte and the
    range limit unless it is a single payload, where empty payloads cost no
    range, and stops only because the next payload would break a limit. *)
Theorem payload_batch_end_spec (lens : list Z) (max_ranges_per_pread : Z) (n : nat) :
  lens ≠ [] → bounded_ivf_payload_batch_end lens max_ranges_per_pread = Ok n →
  batch_prefix_ok lens (if max_ranges_per_pread =? 0 then USIZE_MAX else max_ranges_per_pread) n.
Proof.
  intros Hne H. destruct lens as [|len lens]; [done|].
  apply (payload_batch_loop_spec [] (len :: lens)) in H; [done|done|]. left. simpl. lia.
Qed.

Lemma payload_batch_end_spec_witness :
  batch_prefix_ok [0; 0; 5; 7] 1 3.
Proof. apply (payload_batch_end_spec [0; 0; 5; 7] 1 3); [done|reflexivity]. Defined.

(** Batched reads deliver, for every payload in order, exactly the bytes of
    the source at its offset, for any reader that keeps the [SeekRead]
    contract and however the planner splits the payloads into calls. *)
Theorem pread_batched_slices_exact `{SeekReadLaws R} (r r' : R) (offsets : list Z) (lens : list nat)
    (limit : Z) (bufs : list (list Z)) :
  Forall (λ o, 0 <= o) offsets → 0 <= max_ranges_per_pread (read_capabilities r) →
  pread_batched_slices_with_limit r offsets lens limit = Ok (bufs, r') →
  length bufs = length offsets ∧ bufs = zip_with (λ o n, slice (Z.to_nat o) n (contents r)) offsets lens ∧
  contents r' = contents r.
Proof.
  intros Ho Hc Hrun. unfold pread_batched_slices_with_limit in Hrun. inv_ok.
  match goal with E : Nat.eqb _ _ = true |- _ => apply Nat.eqb_eq in E as Hlen end.
  apply pread_batched_loop_ok in Hrun as (_ & -> & ->).
  - split_and!; [|by rewrite fmap_zip_with|done].
    rewrite length_fmap, length_zip_with. lia.
  - destruct (Z.eqb_spec (max_ranges_per_pread (read_capabilities r)) 0); unfold_widths; lia.
  - clear -Ho Hlen. revert lens Hlen. induction Ho as [|o offsets Ho _ IH]; intros [|n lens] Hl; simpl; constructor; auto.
Qed.

Lemma pread_batched_slices_exact_witness :
  length [[10; 11]; [14]] = length [0; 4] ∧
  [[10; 11]; [14]] =
    zip_with (λ o n, slice (Z.to_nat o) n (contents (MkCursor [10; 11; 12; 13; 14] 3))) [0; 4] [2; 1]%nat ∧
  contents (MkCursor [10; 11; 12; 13; 14] 3) = contents (MkCursor [10; 11; 12; 13; 14] 3).
Proof.
  apply (pread_batched_slices_exact (MkCursor [10; 11; 12; 13; 14] 3) (MkCursor [10; 11; 12; 13; 14] 3)
    [0; 4] [2%nat; 1%nat] 2 [[10; 11]; [14]]); [repeat constructor; lia|simpl; lia|reflexivity].
Defined.

(** The calls a batched read issues cover the requests in order without
    dropping or repeating one, none is empty, none has more ranges than the
    reader accepts, and none exceeds the byte limit unless it is a single
    oversized payload. *)
Theorem pread_batched_calls_bounded `{SeekRead R} (r r' : Recorder R) (offsets : list Z) (lens : list nat)
    (limit : Z) (bufs : list (list Z)) :
  rec_calls r = [] → 0 < max_ranges_per_pread (read_capabilities r) →
  pread_batched_slices_with_limit r offsets lens limit = Ok (bufs, r') →
  concat (rec_calls r') = zip_with Request offsets lens ∧
  Forall (call_ok (max_ranges_per_pread (read_capabilities r)) limit) (rec_calls r').
Proof.
  intros Hr Hc Hrun. unfold pread_batched_slices_with_limit in Hrun. inv_ok.
  rewrite (proj2 (Z.eqb_neq _ 0)) in Hrun by lia.
  apply pread_batched_loop_calls in Hrun as (calls & E & ? & ?); [|done].
  rewrite E, Hr. done.
Qed.

(** A cursor that accepts at most two ranges per call. *)
Record TwoRanges := MkTwoRanges { two_cursor : Cursor }.
#[export] Instance TwoRanges_SeekRead : SeekRead TwoRanges := {
  pread := λ r reqs, let '(res, c) := cursor_pread (two_cursor r) reqs in (res, MkTwoRanges c);
  read_capabilities := λ _, Capabilities 0 0 2;
}.

Lemma pread_batched_calls_bounded_witness :
  concat [[Request 0 2; Request 4 1]; [Request 1 1]] = zip_with Request [0; 4; 1] [2; 1; 1]%nat ∧
  Forall (call_ok 2 3) [[Request 0 2; Request 4 1]; [Request 1 1]].
Proof.
  refine (pread_batched_calls_bounded (MkRecorder (MkTwoRanges (MkCursor [10; 11; 12; 13; 14] 0)) [])
    (MkRecorder (MkTwoRanges (MkCursor [10; 11; 12; 13; 14] 0)) [[Request 0 2; Request 4 1]; [Request 1 1]])
    [0; 4; 1] [2%nat; 1%nat; 1%nat] 3 [[10; 11]; [14]; [11]] _ _ _); [done|simpl; lia|reflexivity].
Defined.
End BatchProps.
