(* ===== verification/F32.v ===== *)
(** IEEE 754 binary32 values by their bit patterns.

    An [f32] is the [u32] that [to_bits] gives.  The standard library's
    comparisons and [total_cmp] are functions of those patterns. *)

From S2P Require Import Prelude.

Definition F32_SIGN : Z := 2 ^ 31.
Definition F32_INF_BITS : Z := 0x7f800000.
Definition f32_infinity : Z := F32_INF_BITS.

(** The magnitude bits, and whether the sign bit is set. *)
Definition f32_mag (b : Z) : Z := b mod F32_SIGN.
Definition f32_neg (b : Z) : bool := F32_SIGN <=? b.

Definition f32_is_nan (b : Z) : bool := F32_INF_BITS <? f32_mag b.
Definition f32_is_finite (b : Z) : bool := f32_mag b <? F32_INF_BITS.

(** [f32::total_cmp] compares these keys: the bits as [i32] with the magnitude
    of negative values flipped. *)
Definition f32_total_key (b : Z) : Z := if f32_neg b then - f32_mag b - 1 else b.
Definition f32_total_cmp (a b : Z) : comparison := f32_total_key a ?= f32_total_key b.
Definition f32_total_lt (a b : Z) : bool := f32_total_key a <? f32_total_key b.
Definition f32_total_ge (a b : Z) : bool := f32_total_key b <=? f32_total_key a.
Definition f32_total_gt (a b : Z) : bool := f32_total_key b <? f32_total_key a.

(** The IEEE order: NaN is unordered and the two zeros are equal. *)
Definition f32_key (b : Z) : Z := if f32_neg b then - f32_mag b else b.
Definition f32_ordered (a b : Z) : bool := negb (f32_is_nan a) && negb (f32_is_nan b).
Definition f32_lt (a b : Z) : bool := f32_ordered a b && (f32_key a <? f32_key b).
Definition f32_ge (a b : Z) : bool := f32_ordered a b && (f32_key b <=? f32_key a).
Definition f32_gt (a b : Z) : bool := f32_lt b a.
Definition f32_eq (a b : Z) : bool := f32_ordered a b && (f32_key a =? f32_key b).

Lemma f32_total_key_inj a b : u32 a → u32 b → f32_total_key a = f32_total_key b → a = b.
Proof.
  unfold f32_total_key, f32_neg, f32_mag, F32_SIGN. unfold_widths. change (2 ^ 31) with 2147483648.
  intros. pose proof (Z.div_mod a 2147483648). pose proof (Z.div_mod b 2147483648).
  pose proof (Z.mod_pos_bound a 2147483648). pose proof (Z.mod_pos_bound b 2147483648).
  repeat case_match; lia.
Qed.

Lemma f32_total_lt_key a b : u32 a → u32 b → f32_total_key a < f32_total_key b → f32_key a <= f32_key b.
Proof.
  unfold f32_total_key, f32_key, f32_neg, f32_mag, F32_SIGN. unfold_widths. change (2 ^ 31) with 2147483648.
  intros. pose proof (Z.mod_pos_bound a 2147483648). pose proof (Z.mod_pos_bound b 2147483648).
  repeat case_match; lia.
Qed.

(** [f32::INFINITY] is above every other number. *)
Lemma f32_ge_infinity d : u32 d → f32_ge d f32_infinity = bool_decide (d = f32_infinity).
Proof.
  unfold f32_ge, f32_ordered, f32_is_nan, f32_key, f32_neg, f32_mag, f32_infinity, F32_INF_BITS, F32_SIGN.
  unfold_widths. change (2 ^ 31) with 2147483648. intros Hd.
  pose proof (Z.div_mod d 2147483648). pose proof (Z.mod_pos_bound d 2147483648).
  assert (0x7f800000 mod 2147483648 = 0x7f800000) as -> by done.
  case_bool_decide; subst; [done|]. repeat case_match; lia.
Qed.

(** A number is below [f32::INFINITY] or equal to it. *)
Lemma f32_le_infinity d : u32 d → f32_is_nan d = false → f32_lt d f32_infinity = true ∨ f32_eq d f32_infinity = true.
Proof.
  unfold f32_lt, f32_eq, f32_ordered, f32_is_nan, f32_key, f32_neg, f32_mag, f32_infinity, F32_INF_BITS, F32_SIGN.
  unfold_widths. change (2 ^ 31) with 2147483648. intros Hd Hn. rewrite Hn.
  pose proof (Z.div_mod d 2147483648). pose proof (Z.mod_pos_bound d 2147483648).
  assert (0x7f800000 mod 2147483648 = 0x7f800000) as -> by done.
  apply Z.ltb_ge in Hn. cbn. repeat case_match; lia.
Qed.
