(* ===== verification/F64.v ===== *)
(** IEEE 754 binary64 values by their bit patterns, the exact widening from
    binary32, and the binary32 square root.

    As in [F32], a value is the integer [to_bits] gives and the comparisons are
    functions of the patterns. *)

From S2P Require Import Prelude F32.

Definition F64_SIGN : Z := 2 ^ 63.
Definition F64_INF_BITS : Z := 0x7ff0000000000000.

Definition f64_mag (b : Z) : Z := b mod F64_SIGN.
Definition f64_neg (b : Z) : bool := F64_SIGN <=? b.
Definition f64_is_nan (b : Z) : bool := F64_INF_BITS <? f64_mag b.
Definition f64_is_finite (b : Z) : bool := f64_mag b <? F64_INF_BITS.
Definition f64_key (b : Z) : Z := if f64_neg b then - f64_mag b else b.
Definition f64_ordered (a b : Z) : bool := negb (f64_is_nan a) && negb (f64_is_nan b).
Definition f64_lt (a b : Z) : bool := f64_ordered a b && (f64_key a <? f64_key b).
Definition f64_le (a b : Z) : bool := f64_ordered a b && (f64_key a <=? f64_key b).
Definition f64_gt (a b : Z) : bool := f64_lt b a.
Definition f64_ge (a b : Z) : bool := f64_le b a.

(** Unary minus flips the sign bit. *)
Definition f32_negate (b : Z) : Z := if f32_neg b then b - F32_SIGN else b + F32_SIGN.
Definition f64_negate (b : Z) : Z := if f64_neg b then b - F64_SIGN else b + F64_SIGN.

(** [f64::from(f32)]: every binary32 number is a binary64 number.  A subnormal
    magnitude is normalised; the exponent bias grows by 896. *)
Definition widen_mag (m : Z) : Z :=
  let exponent := m / 2 ^ 23 in
  let fraction := m mod 2 ^ 23 in
  if exponent =? 255 then F64_INF_BITS + fraction * 2 ^ 29
  else if exponent =? 0 then
    if fraction =? 0 then 0
    else let k := Z.log2 fraction in (k + 874) * 2 ^ 52 + (fraction - 2 ^ k) * 2 ^ (52 - k)
  else (exponent + 896) * 2 ^ 52 + fraction * 2 ^ 29.
Definition f64_from_f32 (b : Z) : Z := (if f32_neg b then F64_SIGN else 0) + widen_mag (f32_mag b).

(** A non-negative number in units of [2^-149], the smallest subnormal, and the
    nearest number to such a multiple.  The square root of a number is never
    half way between two others, so rounding the truncated root half up is
    rounding to nearest. *)
Definition f32_units (b : Z) : Z :=
  if b / 2 ^ 23 =? 0 then b else (b mod 2 ^ 23 + 2 ^ 23) * 2 ^ (b / 2 ^ 23 - 1).
Definition f32_round (n : Z) : Z :=
  if n <? 2 ^ 24 then n
  else let e := Z.log2 n - 23 in e * 2 ^ 23 + (n + 2 ^ (e - 1)) / 2 ^ e.

Definition F32_NAN_BITS : Z := 0x7fc00000.
(** [f32::sqrt] *)
Definition f32_sqrt (b : Z) : Z :=
  if f32_is_nan b || (b =? F32_SIGN) || (b =? F32_INF_BITS) then b
  else if f32_neg b then F32_NAN_BITS
  else f32_round (Z.sqrt (f32_units b * 2 ^ 149)).

(** ** The widening keeps the order *)

Lemma pow_split a b : 0 <= a → 0 <= b → 2 ^ (a + b) = 2 ^ a * 2 ^ b.
Proof. intros. by rewrite Z.pow_add_r. Qed.

(** A significand of [w] bits scaled to fill [[2^52, 2^53)]. *)
Lemma scaled_significand m k : 0 < m → k = Z.log2 m → k <= 52 → 2 ^ 52 <= m * 2 ^ (52 - k) < 2 ^ 53.
Proof.
  intros Hm -> Hk. pose proof (Z.log2_nonneg m). pose proof (Z.log2_spec m Hm) as [L U].
  replace (2 ^ 52) with (2 ^ Z.log2 m * 2 ^ (52 - Z.log2 m)) by (rewrite <- pow_split by lia; f_equal; lia).
  replace (2 ^ 53) with (2 ^ Z.succ (Z.log2 m) * 2 ^ (52 - Z.log2 m)) by (rewrite <- pow_split by lia; f_equal; lia).
  pose proof (pow2_pos (52 - Z.log2 m) ltac:(lia)). nia.
Qed.

(** Below the infinities a magnitude is a biased exponent and a significand. *)
Lemma widen_mag_cases m : 0 <= m < F32_INF_BITS →
  (m = 0 ∧ widen_mag m = 0) ∨
  ∃ e s, widen_mag m = e * 2 ^ 52 + s ∧ 2 ^ 52 <= s < 2 ^ 53 ∧ 0 <= e <= 1149 ∧
    ((m < 2 ^ 23 ∧ e = Z.log2 m + 873 ∧ s = m * 2 ^ (52 - Z.log2 m)) ∨
     (2 ^ 23 <= m ∧ e = m / 2 ^ 23 + 895 ∧ s = (m mod 2 ^ 23 + 2 ^ 23) * 2 ^ 29)).
Proof.
  unfold F32_INF_BITS. intros Hm. unfold widen_mag. pose proof (Z.div_mod m (2 ^ 23) ltac:(lia)) as D.
  pose proof (Z.mod_pos_bound m (2 ^ 23) ltac:(lia)) as B. change (2 ^ 23) with 8388608 in *.
  destruct (Z.eqb_spec (m / 8388608) 255); [lia|]. destruct (Z.eqb_spec (m / 8388608) 0) as [E|E].
  - rewrite E in D. assert (m mod 8388608 = m) as -> by lia. destruct (Z.eqb_spec m 0); [by left|right].
    pose proof (Z.log2_nonneg m). assert (Z.log2 m < 23) by (apply Z.log2_lt_pow2; [lia|change (2 ^ 23) with 8388608; lia]).
    exists (Z.log2 m + 873), (m * 2 ^ (52 - Z.log2 m)).
    split_and!; [|apply scaled_significand; lia..|lia|lia|left; split_and!; try done; lia].
    assert (2 ^ 52 = 2 ^ Z.log2 m * 2 ^ (52 - Z.log2 m)) by (rewrite <- pow_split by lia; f_equal; lia). nia.
  - right. exists (m / 8388608 + 895), ((m mod 8388608 + 8388608) * 2 ^ 29).
    assert (0 <= m / 8388608) by (apply Z.div_pos; lia).
    split_and!; try lia; right; split_and!; try done; lia.
Qed.

(** Numbers with a larger exponent part are larger whatever their significands. *)
Lemma significand_lt e s e' s' :
  2 ^ 52 <= s < 2 ^ 53 → 2 ^ 52 <= s' < 2 ^ 53 → e < e' ∨ (e = e' ∧ s < s') → e * 2 ^ 52 + s < e' * 2 ^ 52 + s'.
Proof. lia. Qed.

Lemma widen_mag_lt m m' : 0 <= m → m < m' → m' < F32_INF_BITS → 0 <= widen_mag m < widen_mag m'.
Proof.
  intros H0 Hlt Hi.
  destruct (widen_mag_cases m ltac:(lia)) as [[-> ->]|(e & s & -> & Hs & He & Hc)];
    (destruct (widen_mag_cases m' ltac:(lia)) as [[-> _]|(e' & s' & -> & Hs' & He' & Hc')]; [lia|]); [lia|].
  split; [lia|]. apply significand_lt; [done..|].
  destruct Hc as [(H1 & -> & ->)|(H1 & -> & ->)], Hc' as [(H1' & -> & ->)|(H1' & -> & ->)]; [| |lia|].
  - assert (Z.log2 m <= Z.log2 m') as Hl by (apply Z.log2_le_mono; lia).
    destruct (decide (Z.log2 m = Z.log2 m')) as [E|]; [right|left; lia]. rewrite E. split; [done|].
    assert (0 < m') by lia. pose proof (Z.log2_nonneg m').
    assert (Z.log2 m' < 23) by (apply Z.log2_lt_pow2; lia). pose proof (pow2_pos (52 - Z.log2 m') ltac:(lia)). nia.
  - left. assert (Z.log2 m < 23).
    { destruct (decide (m = 0)) as [->|]; [done|]. apply Z.log2_lt_pow2; lia. }
    assert (1 <= m' / 2 ^ 23) by (apply Z.div_le_lower_bound; lia). lia.
  - pose proof (Z.div_mod m (2 ^ 23) ltac:(lia)). pose proof (Z.div_mod m' (2 ^ 23) ltac:(lia)).
    pose proof (Z.mod_pos_bound m (2 ^ 23) ltac:(lia)). pose proof (Z.mod_pos_bound m' (2 ^ 23) ltac:(lia)). lia.
Qed.

Lemma widen_mag_finite m : 0 <= m < F32_INF_BITS → 0 <= widen_mag m < F64_INF_BITS.
Proof.
  intros Hm. destruct (widen_mag_cases m Hm) as [[_ ->]|(e & s & -> & Hs & He & Hc)]; [done|].
  split; [lia|]. unfold F64_INF_BITS, F32_INF_BITS in *. destruct Hc as [(H & -> & _)|(H & -> & _)].
  - assert (Z.log2 m < 23) by (destruct (decide (m = 0)) as [->|]; [done|]; apply Z.log2_lt_pow2; lia). lia.
  - assert (m / 2 ^ 23 < 255) by (apply Z.div_lt_upper_bound; lia). lia.
Qed.

(** Signed comparison of finite numbers, the two zeros being equal. *)
Lemma f32_key_mag b : u32 b → f32_key b = (if f32_neg b then -1 else 1) * f32_mag b ∧ 0 <= f32_mag b < F32_SIGN.
Proof.
  unfold f32_key, f32_neg, f32_mag, F32_SIGN. unfold_widths. change (2 ^ 31) with 2147483648. intros.
  pose proof (Z.mod_pos_bound b 2147483648). case_match; [lia|]. rewrite Z.mod_small in * by lia. lia.
Qed.

(** Setting and clearing the sign bit [s]. *)
Lemma mod_set_sign s x : 0 <= x < s → (s + x) mod s = x.
Proof. intros. rewrite <- (Z.mod_small x s) at 2 by done. rewrite <- (Z_mod_plus_full x 1). f_equal. lia. Qed.
Lemma mod_clear_sign s x : s <= x < 2 * s → x mod s = x - s.
Proof. intros. rewrite <- (mod_set_sign s (x - s)) by lia. f_equal. lia. Qed.

Lemma f64_from_key b : u32 b → f32_is_finite b = true →
  f64_key (f64_from_f32 b) = (if f32_neg b then -1 else 1) * widen_mag (f32_mag b) ∧ f64_is_finite (f64_from_f32 b) = true.
Proof.
  intros Hb Hf. destruct (f32_key_mag b Hb) as [_ Hm]. apply Z.ltb_lt in Hf. pose proof (widen_mag_finite (f32_mag b) ltac:(lia)) as Hw.
  unfold f64_from_f32, f64_key, f64_is_finite, f64_neg, f64_mag, F64_SIGN, F64_INF_BITS in *. change (2 ^ 63) with 9223372036854775808.
  destruct (f32_neg b).
  - rewrite mod_set_sign by lia. case_match; lia.
  - rewrite Z.add_0_l, Z.mod_small by lia. case_match; lia.
Qed.

Lemma f64_from_lt a b : u32 a → u32 b → f32_is_finite a = true → f32_is_finite b = true →
  f64_key (f64_from_f32 a) < f64_key (f64_from_f32 b) ↔ f32_key a < f32_key b.
Proof.
  intros Ha Hb Fa Fb. destruct (f64_from_key a Ha Fa) as [-> _], (f64_from_key b Hb Fb) as [-> _].
  destruct (f32_key_mag a Ha) as [-> Ma], (f32_key_mag b Hb) as [-> Mb]. apply Z.ltb_lt in Fa, Fb.
  pose proof (widen_mag_finite (f32_mag a) ltac:(lia)). pose proof (widen_mag_finite (f32_mag b) ltac:(lia)).
  assert (∀ x y, 0 <= x < F32_INF_BITS → 0 <= y < F32_INF_BITS → widen_mag x < widen_mag y ↔ x < y) as Hmono.
  { intros x y Hx Hy. split; [|intros; by apply widen_mag_lt; lia]. intros Hw. destruct (Z.lt_trichotomy x y) as [|[->|]]; [done|lia|].
    pose proof (widen_mag_lt y x). lia. }
  pose proof (Hmono (f32_mag a) (f32_mag b)). pose proof (Hmono (f32_mag b) (f32_mag a)).
  pose proof (Hmono 0 (f32_mag a)). pose proof (Hmono 0 (f32_mag b)). change (widen_mag 0) with 0 in *.
  assert (0 <= 0 < F32_INF_BITS) by done. destruct (f32_neg a), (f32_neg b); lia.
Qed.

Lemma finite_not_nan b : f64_is_finite b = true → f64_is_nan b = false.
Proof. unfold f64_is_finite, f64_is_nan. lia. Qed.
Lemma f64_finite_ge a b : f64_is_finite a = true → f64_is_finite b = true → f64_ge a b = (f64_key b <=? f64_key a).
Proof. intros. unfold f64_ge, f64_le, f64_ordered. by rewrite !finite_not_nan. Qed.
Lemma f64_finite_gt a b : f64_is_finite a = true → f64_is_finite b = true → f64_gt a b = (f64_key b <? f64_key a).
Proof. intros. unfold f64_gt, f64_lt, f64_ordered. by rewrite !finite_not_nan. Qed.
Lemma f32_finite_not_nan b : f32_is_finite b = true → f32_is_nan b = false.
Proof. unfold f32_is_finite, f32_is_nan. lia. Qed.
Lemma f32_finite_ge a b : f32_is_finite a = true → f32_is_finite b = true → f32_ge a b = (f32_key b <=? f32_key a).
Proof. intros. unfold f32_ge, f32_ordered. by rewrite !f32_finite_not_nan. Qed.
Lemma f32_finite_lt a b : f32_is_finite a = true → f32_is_finite b = true → f32_lt a b = (f32_key a <? f32_key b).
Proof. intros. unfold f32_lt, f32_ordered. by rewrite !f32_finite_not_nan. Qed.

(** ** Negation *)

Lemma f64_negate_key b : u64 b → f64_key (f64_negate b) = - f64_key b ∧ f64_is_finite (f64_negate b) = f64_is_finite b ∧ u64 (f64_negate b).
Proof.
  unfold f64_negate, f64_key, f64_is_finite, f64_neg, f64_mag, F64_SIGN. unfold_widths. change (2 ^ 63) with 9223372036854775808. intros Hb.
  destruct (Z.leb_spec 9223372036854775808 b).
  - rewrite (mod_clear_sign _ b), Z.mod_small by lia. repeat case_match; lia.
  - rewrite (Z.mod_small b), (Z.add_comm b), mod_set_sign by lia. repeat case_match; lia.
Qed.

Lemma f32_negate_spec b : u32 b → f32_key (f32_negate b) = - f32_key b ∧ f32_is_finite (f32_negate b) = f32_is_finite b ∧ u32 (f32_negate b).
Proof.
  unfold f32_negate, f32_key, f32_is_finite, f32_neg, f32_mag, F32_SIGN. unfold_widths. change (2 ^ 31) with 2147483648. intros Hb.
  destruct (Z.leb_spec 2147483648 b).
  - rewrite (mod_clear_sign _ b), Z.mod_small by lia. repeat case_match; lia.
  - rewrite (Z.mod_small b), (Z.add_comm b), mod_set_sign by lia. repeat case_match; lia.
Qed.

(** ** The square root *)

Lemma f32_units_lt a b : 0 <= a → a < b → 0 <= f32_units a < f32_units b.
Proof.
  intros Ha Hlt. unfold f32_units.
  pose proof (Z.div_mod a (2 ^ 23) ltac:(lia)). pose proof (Z.mod_pos_bound a (2 ^ 23) ltac:(lia)).
  pose proof (Z.div_mod b (2 ^ 23) ltac:(lia)). pose proof (Z.mod_pos_bound b (2 ^ 23) ltac:(lia)).
  assert (0 <= a / 2 ^ 23) by (apply Z.div_pos; lia). assert (a / 2 ^ 23 <= b / 2 ^ 23) by (apply Z.div_le_mono; lia).
  set (ea := a / 2 ^ 23) in *. set (eb := b / 2 ^ 23) in *. set (fa := a mod 2 ^ 23) in *. set (fb := b mod 2 ^ 23) in *.
  clearbody ea eb fa fb. change (2 ^ 23) with 8388608 in *.
  destruct (Z.eqb_spec ea 0) as [Ea|], (Z.eqb_spec eb 0) as [Eb|]; try lia.
  pose proof (pow2_pos (ea - 1) ltac:(lia)). split; [nia|].
  destruct (decide (ea = eb)) as [<-|]; [nia|].
    assert (2 ^ (eb - 1) = 2 ^ (ea - 1) * (2 * 2 ^ (eb - ea - 1))) as ->.
    { rewrite <- Z.pow_succ_r, <- pow_split by lia. f_equal. lia. }
    pose proof (pow2_pos (eb - ea - 1) ltac:(lia)). set (x := 2 ^ (ea - 1)) in *. set (y := 2 ^ (eb - ea - 1)) in *.
    apply Z.lt_le_trans with (16777216 * x); [nia|]. transitivity (8388608 * (x * (2 * y))); [nia|].
    apply Z.mul_le_mono_nonneg_r; nia.
Qed.

(** A rounded magnitude is an exponent and a significand of 24 bits. *)
Lemma f32_round_cases n : 0 <= n →
  (n < 2 ^ 24 ∧ f32_round n = n) ∨
  (2 ^ 24 <= n ∧ ∃ q, f32_round n = (Z.log2 n - 23) * 2 ^ 23 + q ∧ q = (n + 2 ^ (Z.log2 n - 24)) / 2 ^ (Z.log2 n - 23) ∧
     2 ^ 23 <= q <= 2 ^ 24 ∧ 24 <= Z.log2 n).
Proof.
  intros Hn. unfold f32_round. destruct (Z.ltb_spec n (2 ^ 24)); [by left|right]. split; [done|].
  assert (24 <= Z.log2 n) by (apply Z.log2_le_pow2; lia). replace (Z.log2 n - 23 - 1) with (Z.log2 n - 24) by lia. eexists.
  split_and!; [reflexivity|reflexivity| | |done];
    pose proof (Z.log2_spec n ltac:(lia)) as [L U]; set (l := Z.log2 n) in *;
    assert (2 ^ l = 2 ^ (l - 23) * 2 ^ 23) as E1 by (rewrite <- pow_split by lia; f_equal; lia);
    assert (2 ^ Z.succ l = 2 ^ (l - 23) * 2 ^ 24) as E2 by (rewrite <- pow_split by lia; f_equal; lia);
    assert (2 ^ (l - 23) = 2 * 2 ^ (l - 24)) as E3 by (rewrite <- Z.pow_succ_r by lia; f_equal; lia);
    pose proof (pow2_pos (l - 24) ltac:(lia)).
  - apply Z.div_le_lower_bound; lia.
  - apply Z.lt_succ_r, Z.div_lt_upper_bound; lia.
Qed.

Lemma f32_round_mono n m : 0 <= n → n <= m → f32_round n <= f32_round m.
Proof.
  intros Hn Hm. destruct (f32_round_cases n Hn) as [[H1 ->]|(H1 & q & -> & Eq & Hq & Hl)],
    (f32_round_cases m ltac:(lia)) as [[H2 ->]|(H2 & q' & -> & Eq' & Hq' & Hl')]; try lia.
  assert (Z.log2 n <= Z.log2 m) by (apply Z.log2_le_mono; lia).
  destruct (decide (Z.log2 n = Z.log2 m)) as [E|]; [|lia]. rewrite E in *.
  assert (q <= q'); [|lia]. subst q q'. apply Z.div_le_mono; [apply pow2_pos; lia|lia].
Qed.

(** Non-negative finite magnitudes: the root keeps their order and is one. *)
Lemma f32_sqrt_spec a : 0 <= a < F32_INF_BITS → f32_sqrt a = f32_round (Z.sqrt (f32_units a * 2 ^ 149)).
Proof.
  intros Ha. unfold f32_sqrt, f32_is_nan, f32_neg, f32_mag, F32_INF_BITS, F32_SIGN in *. change (2 ^ 31) with 2147483648.
  rewrite Z.mod_small by lia. rewrite (proj2 (Z.ltb_ge _ _)), !(proj2 (Z.eqb_neq _ _)), (proj2 (Z.leb_gt _ _)) by lia. done.
Qed.

Lemma f32_sqrt_mono a b : 0 <= a → a <= b → b < F32_INF_BITS → f32_sqrt a <= f32_sqrt b.
Proof.
  intros Ha Hab Hb. rewrite !f32_sqrt_spec by lia. apply f32_round_mono; [apply Z.sqrt_nonneg|]. apply Z.sqrt_le_mono.
  destruct (decide (a = b)) as [->|]; [done|]. pose proof (f32_units_lt a b). lia.
Qed.

Lemma f32_sqrt_finite a : 0 <= a < F32_INF_BITS → 0 <= f32_sqrt a < F32_INF_BITS.
Proof.
  intros Ha. split.
  - rewrite f32_sqrt_spec by done. transitivity (f32_round 0); [done|]. apply f32_round_mono; [done|apply Z.sqrt_nonneg].
  - transitivity (f32_sqrt 0x7f7fffff + 1); [|by vm_compute]. pose proof (f32_sqrt_mono a 0x7f7fffff). unfold F32_INF_BITS in *. lia.
Qed.

(** [4.0], [2.0] and the smallest subnormal. *)
Example f32_sqrt_values : f32_sqrt 0x40800000 = 0x40000000 ∧ f32_sqrt 0x40000000 = 0x3fb504f3 ∧ f32_sqrt 1 = 0x1a3504f3.
Proof. by vm_compute. Qed.
Example f64_from_values : f64_from_f32 0x3fc00000 = 0x3ff8000000000000 ∧ f64_from_f32 1 = 0x36a0000000000000 ∧
  f64_from_f32 0xc0000000 = 0xc000000000000000.
Proof. by vm_compute. Qed.
