(* ===== verification/F32Arith.v ===== *)
(** IEEE 754 binary32 arithmetic on bit patterns: sum, difference, product and
    quotient rounded to nearest, ties to even.

    A finite magnitude is a whole number of units of [2^-149], the smallest
    subnormal, so every exact result is a ratio of integers that is rounded
    once.  The bits of a NaN result are not specified by the language; it is
    always the quiet NaN [F32_NAN_BITS] here, and no theorem depends on it. *)

From S2P Require Import Prelude F32 F64.

(** ** Rounding *)

(** The integer nearest to [n / d], the even one of two that are equally near. *)
Definition round_even (n d : Z) : Z :=
  let q := n / d in
  let r := n mod d in
  if 2 * r <? d then q else if d <? 2 * r then q + 1 else if Z.even q then q else q + 1.
(** The magnitude nearest to [num / den] units; beyond the largest it is infinite. *)
Definition round_mag (num den : Z) : Z :=
  let e := Z.max 0 (Z.log2 (num / den) - 23) in
  Z.min F32_INF_BITS (e * 2 ^ 23 + round_even num (den * 2 ^ e)).
Definition with_sign (neg : bool) (mag : Z) : Z := if neg then F32_SIGN + mag else mag.

(** ** Operations *)

Definition f32_is_infinite (b : Z) : bool := f32_mag b =? F32_INF_BITS.
Definition f32_is_zero (b : Z) : bool := f32_mag b =? 0.
(** A finite number in units of [2^-149]. *)
Definition f32_int (b : Z) : Z := if f32_neg b then - f32_units (f32_mag b) else f32_units (f32_mag b).

Definition f32_add (a b : Z) : Z :=
  if f32_is_nan a || f32_is_nan b then F32_NAN_BITS
  else if f32_is_infinite a then if f32_is_infinite b && xorb (f32_neg a) (f32_neg b) then F32_NAN_BITS else a
  else if f32_is_infinite b then b
  else
    let s := f32_int a + f32_int b in
    if s =? 0 then with_sign (f32_neg a && f32_neg b) 0
    else with_sign (s <? 0) (round_mag (Z.abs s) 1).
Definition f32_sub (a b : Z) : Z := f32_add a (f32_negate b).
Definition f32_mul (a b : Z) : Z :=
  let neg := xorb (f32_neg a) (f32_neg b) in
  if f32_is_nan a || f32_is_nan b then F32_NAN_BITS
  else if f32_is_infinite a || f32_is_infinite b then
    if f32_is_zero a || f32_is_zero b then F32_NAN_BITS else with_sign neg F32_INF_BITS
  else with_sign neg (round_mag (f32_units (f32_mag a) * f32_units (f32_mag b)) (2 ^ 149)).
Definition f32_div (a b : Z) : Z :=
  let neg := xorb (f32_neg a) (f32_neg b) in
  if f32_is_nan a || f32_is_nan b then F32_NAN_BITS
  else if f32_is_infinite a then if f32_is_infinite b then F32_NAN_BITS else with_sign neg F32_INF_BITS
  else if f32_is_infinite b then with_sign neg 0
  else if f32_is_zero b then if f32_is_zero a then F32_NAN_BITS else with_sign neg F32_INF_BITS
  else with_sign neg (round_mag (f32_units (f32_mag a) * 2 ^ 149) (f32_units (f32_mag b))).

Definition F32_ONE : Z := 0x3f800000.

(** [0.1 + 0.2], [1 / 3], [0.1 * 3], the overflow of a sum, a tie rounded to even
    at the smallest subnormal, and opposite infinities. *)
Example f32_arith_values :
  f32_add 0x3dcccccd 0x3e4ccccd = 0x3e99999a ∧ f32_div F32_ONE 0x40400000 = 0x3eaaaaab ∧ f32_mul 0x3dcccccd 0x40400000 = 0x3e99999a ∧
  f32_add 0x7f7fffff 0x7f7fffff = F32_INF_BITS ∧ f32_mul 1 0x3f000000 = 0 ∧ f32_mul 3 0x3f000000 = 2 ∧
  f32_sub F32_ONE F32_ONE = 0 ∧ f32_sub 0x3f000000 F32_ONE = 0xbf000000 ∧ f32_sub F32_INF_BITS F32_INF_BITS = F32_NAN_BITS.
Proof. by vm_compute. Qed.

(** ** Rounding is monotone and keeps representable numbers *)

Lemma round_even_bounds n d : 0 < d → (2 * round_even n d - 1) * d <= 2 * n <= (2 * round_even n d + 1) * d.
Proof.
  intros Hd. unfold round_even. pose proof (Z.div_mod n d ltac:(lia)). pose proof (Z.mod_pos_bound n d Hd).
  repeat case_match; lia.
Qed.
(** Half way between [q] and [q + 1] the parity of [q] decides. *)
Lemma round_even_tie n d q : 0 < d → 2 * n = (2 * q + 1) * d → round_even n d = if Z.even q then q else q + 1.
Proof.
  intros Hd E. assert (n / d = q) as Eq by (symmetry; apply (Z.div_unique_pos n d q (n - q * d)); lia).
  unfold round_even. rewrite Eq. pose proof (Z.div_mod n d ltac:(lia)) as D. rewrite Eq in D.
  rewrite (proj2 (Z.ltb_ge (2 * _) _)), (proj2 (Z.ltb_ge d _)) by lia. done.
Qed.

Lemma round_even_mono n d n' d' : 0 < d → 0 < d' → n * d' <= n' * d → round_even n d <= round_even n' d'.
Proof.
  intros Hd Hd' Hle. destruct (Z.le_gt_cases (round_even n d) (round_even n' d')) as [|Hgt]; [done|exfalso].
  pose proof (round_even_bounds n d Hd) as [L _]. pose proof (round_even_bounds n' d' Hd') as [_ U].
  set (a := round_even n d) in *. set (b := round_even n' d') in *.
  assert ((2 * a - 1) * (d * d') <= (2 * b + 1) * (d * d')) as Hc by nia. assert (0 < d * d') by nia.
  assert (2 * a - 1 <= 2 * b + 1) as Hab by (apply (Zmult_le_reg_r _ _ (d * d')); lia). assert (a = b + 1) as Ea by lia.
  rewrite Ea in L. replace (2 * (b + 1) - 1) with (2 * b + 1) in L by lia.
  assert (2 * n = (2 * b + 1) * d) as E1 by nia. assert (2 * n' = (2 * b + 1) * d') as E2 by nia.
  pose proof (round_even_tie n d b Hd E1) as F1. pose proof (round_even_tie n' d' b Hd' E2) as F2.
  fold a in F1. fold b in F2. lia.
Qed.
Lemma round_even_exact q d : 0 < d → round_even (q * d) d = q.
Proof. intros Hd. unfold round_even. rewrite Z.div_mul, Z.mod_mul by lia. by rewrite (proj2 (Z.ltb_lt _ _)) by lia. Qed.

Lemma round_mag_bounds num den : 0 <= num → 0 < den → 0 <= round_mag num den <= F32_INF_BITS.
Proof.
  intros Hn Hd. unfold round_mag. set (e := Z.max 0 _). assert (0 <= e) by lia. pose proof (pow2_pos e ltac:(lia)).
  assert (0 <= round_even num (den * 2 ^ e)) by (rewrite <- (round_even_exact 0 1) by lia; apply round_even_mono; nia). unfold F32_INF_BITS. lia.
Qed.

(** The rounded significand of a ratio has 24 bits, or is the next power. *)
Lemma round_significand num den e : 0 <= num → 0 < den → e = Z.max 0 (Z.log2 (num / den) - 23) →
  round_even num (den * 2 ^ e) <= 2 ^ 24 ∧ (0 < e → 2 ^ 23 <= round_even num (den * 2 ^ e)).
Proof.
  intros Hn Hd He. assert (0 <= e) by lia. pose proof (pow2_pos e ltac:(lia)) as Hp. assert (0 <= num / den) as Hq by (apply Z.div_pos; lia).
  pose proof (Z.div_mod num den ltac:(lia)) as D. pose proof (Z.mod_pos_bound num den Hd) as B. set (q := num / den) in *. split.
  - rewrite <- (round_even_exact (2 ^ 24) 1) by lia. apply round_even_mono; [nia|lia|].
    assert (q < 2 ^ 24 * 2 ^ e) as Hlt.
    { rewrite <- pow_split by lia. destruct (decide (q = 0)) as [->|]; [apply pow2_pos; lia|]. apply Z.log2_lt_pow2; lia. }
    nia.
  - intros Hpos. rewrite <- (round_even_exact (2 ^ 23) 1) by lia. apply round_even_mono; [lia|nia|].
    assert (2 ^ 23 * 2 ^ e <= q) as Hge.
    { rewrite <- pow_split by lia. destruct (decide (q = 0)) as [E|]; [rewrite E in He; cbn in He; lia|]. apply Z.log2_le_pow2; lia. }
    nia.
Qed.

Lemma round_mag_mono num den num' den' : 0 <= num → 0 < den → 0 < den' → num * den' <= num' * den → round_mag num den <= round_mag num' den'.
Proof.
  intros Hn Hd Hd' Hle. assert (0 <= num') as Hn' by nia. unfold round_mag. set (e := Z.max 0 (Z.log2 (num / den) - 23)). set (e' := Z.max 0 (Z.log2 (num' / den') - 23)).
  assert (num / den <= num' / den') as Hq.
  { apply Z.div_le_lower_bound; [done|]. pose proof (Z.mul_div_le num den Hd). nia. }
  pose proof (Z.log2_le_mono _ _ Hq) as Hl. assert (0 <= e) by lia. assert (e <= e') as He by lia.
  destruct (round_significand num den e Hn Hd eq_refl) as [U _]. destruct (round_significand num' den' e' Hn' Hd' eq_refl) as [_ L].
  apply Z.min_le_compat_l. destruct (decide (e = e')) as [E|]; [|specialize (L ltac:(lia)); lia].
  rewrite E. pose proof (pow2_pos e' ltac:(lia)). apply Z.add_le_mono_l, round_even_mono; nia.
Qed.

Lemma f32_units_pos b : 0 <= b → 0 <= f32_units b.
Proof. intros Hb. destruct (decide (b = 0)) as [->|]; [done|]. pose proof (f32_units_lt 0 b). lia. Qed.
Lemma f32_units_mono a b : 0 <= a → a <= b → f32_units a <= f32_units b.
Proof. intros Ha Hab. destruct (decide (a = b)) as [->|]; [done|]. pose proof (f32_units_lt a b Ha). lia. Qed.
Lemma f32_units_zero b : 0 <= b → f32_units b = 0 ↔ b = 0.
Proof. intros Hb. split; [|by intros ->]. intros E. destruct (decide (b = 0)) as [|Hne]; [done|]. pose proof (f32_units_lt 0 b ltac:(lia) ltac:(lia)). lia. Qed.

Lemma round_mag_units b : 0 <= b <= F32_INF_BITS → round_mag (f32_units b) 1 = b.
Proof.
  intros Hb. unfold round_mag. rewrite Z.div_1_r, Z.mul_1_l. unfold f32_units. pose proof (Z.div_mod b (2 ^ 23) ltac:(lia)) as D.
  pose proof (Z.mod_pos_bound b (2 ^ 23) ltac:(lia)) as M. assert (0 <= b / 2 ^ 23) by (apply Z.div_pos; lia). destruct (Z.eqb_spec (b / 2 ^ 23) 0) as [E|E].
  - assert (b < 2 ^ 23) by lia. assert (Z.log2 b < 23) by (destruct (decide (b = 0)) as [->|]; [done|]; apply Z.log2_lt_pow2; lia).
    rewrite Z.max_l by lia. rewrite <- (Z.mul_1_r b) at 1. change (2 ^ 0) with 1. rewrite round_even_exact by lia. unfold F32_INF_BITS in *. lia.
  - set (f := b mod 2 ^ 23) in *. set (x := b / 2 ^ 23) in *. assert (Z.log2 ((f + 2 ^ 23) * 2 ^ (x - 1)) = 23 + (x - 1)) as ->.
    { rewrite Z.log2_mul_pow2 by lia. assert (Z.log2 (f + 2 ^ 23) = 23) by (apply Z.log2_unique; [lia|split; [lia|change (2 ^ Z.succ 23) with (2 ^ 24); lia]]). lia. }
    replace (Z.max 0 (23 + (x - 1) - 23)) with (x - 1) by lia. rewrite round_even_exact by (apply pow2_pos; lia). unfold F32_INF_BITS in *. lia.
Qed.

(** ** Non-negative numbers, infinity included *)

Definition nonneg (b : Z) : Prop := 0 <= b <= F32_INF_BITS.

Lemma nonneg_fields b : nonneg b → f32_neg b = false ∧ f32_mag b = b ∧ f32_is_nan b = false ∧ u32 b ∧ f32_key b = b ∧ f32_total_key b = b.
Proof.
  intros [H0 H1]. unfold f32_key, f32_total_key, f32_is_nan, f32_neg, f32_mag, F32_SIGN, F32_INF_BITS in *. unfold_widths. change (2 ^ 31) with 2147483648.
  rewrite Z.mod_small by lia. rewrite (proj2 (Z.leb_gt _ _)) by lia. split_and!; lia.
Qed.
Lemma nonneg_gt a b : nonneg a → nonneg b → f32_gt a b = (b <? a).
Proof.
  intros Ha Hb. destruct (nonneg_fields a Ha) as (_ & _ & Na & _ & Ka & _), (nonneg_fields b Hb) as (_ & _ & Nb & _ & Kb & _).
  unfold f32_gt, f32_lt, f32_ordered. by rewrite Na, Nb, Ka, Kb.
Qed.
Lemma nonneg_infinite b : nonneg b → f32_is_infinite b = (b =? F32_INF_BITS).
Proof. intros Hb. destruct (nonneg_fields b Hb) as (_ & E & _). unfold f32_is_infinite. by rewrite E. Qed.
Lemma nonneg_zero : nonneg 0.
Proof. done. Qed.

Lemma f32_add_nonneg a b : nonneg a → nonneg b →
  f32_add a b = if (a =? F32_INF_BITS) || (b =? F32_INF_BITS) then F32_INF_BITS else round_mag (f32_units a + f32_units b) 1.
Proof.
  intros Ha Hb. destruct (nonneg_fields a Ha) as (Sa & Ma & Na & _), (nonneg_fields b Hb) as (Sb & Mb & Nb & _).
  unfold f32_add, f32_int. rewrite Na, Nb, !nonneg_infinite, Sa, Sb, Ma, Mb by done. cbn [orb xorb andb].
  destruct (Z.eqb_spec a F32_INF_BITS); [by rewrite andb_false_r|]. cbn [orb]. destruct (Z.eqb_spec b F32_INF_BITS); [done|].
  destruct Ha as [Ha _], Hb as [Hb _]. pose proof (f32_units_pos a Ha). pose proof (f32_units_pos b Hb).
  destruct (Z.eqb_spec (f32_units a + f32_units b) 0) as [->|]; [done|]. rewrite (proj2 (Z.ltb_ge _ _)) by lia. cbn. by rewrite Z.abs_eq by lia.
Qed.
Lemma f32_add_closed a b : nonneg a → nonneg b → nonneg (f32_add a b).
Proof.
  intros Ha Hb. rewrite f32_add_nonneg by done. case_match; [done|]. destruct Ha, Hb.
  apply round_mag_bounds; [|done]. pose proof (f32_units_pos a). pose proof (f32_units_pos b). lia.
Qed.
Lemma f32_add_mono a b a' b' : nonneg a → nonneg b → nonneg a' → nonneg b' → a <= a' → b <= b' → f32_add a b <= f32_add a' b'.
Proof.
  intros Ha Hb Ha' Hb' Hle Hle'. pose proof (f32_add_closed a b Ha Hb) as [_ Hu]. rewrite (f32_add_nonneg a' b') by done.
  destruct (Z.eqb_spec a' F32_INF_BITS); [done|]. destruct (Z.eqb_spec b' F32_INF_BITS); [done|]. cbn [orb].
  rewrite f32_add_nonneg by done. destruct Ha, Hb, Ha', Hb'. rewrite !(proj2 (Z.eqb_neq _ _)) by lia. cbn [orb].
  pose proof (f32_units_mono a a'). pose proof (f32_units_mono b b'). pose proof (f32_units_pos a). pose proof (f32_units_pos b). apply round_mag_mono; lia.
Qed.
(** Adding zero changes nothing, so a sum of non-negative numbers only grows. *)
Lemma f32_add_zero a : nonneg a → f32_add a 0 = a.
Proof.
  intros Ha. rewrite f32_add_nonneg by done. destruct (Z.eqb_spec a F32_INF_BITS) as [->|]; [done|]. change (0 =? F32_INF_BITS) with false. cbn [orb].
  change (f32_units 0) with 0. by rewrite Z.add_0_r, round_mag_units.
Qed.
Lemma f32_add_grows a b : nonneg a → nonneg b → a <= f32_add a b.
Proof. intros Ha Hb. rewrite <- (f32_add_zero a) at 1 by done. apply f32_add_mono; try done. apply Hb. Qed.

(** ** Squares of differences *)

Lemma f32_mag_bounds b : 0 <= f32_mag b < F32_SIGN.
Proof. unfold f32_mag. apply Z.mod_pos_bound. done. Qed.

Lemma with_sign_not_nan neg mag : 0 <= mag <= F32_INF_BITS → f32_is_nan (with_sign neg mag) = false ∧ u32 (with_sign neg mag).
Proof.
  intros Hm. unfold with_sign, f32_is_nan, f32_mag, F32_SIGN, F32_INF_BITS in *. unfold_widths. change (2 ^ 31) with 2147483648.
  destruct neg; [rewrite mod_set_sign by lia|rewrite Z.mod_small by lia]; lia.
Qed.
Lemma nan_bits : f32_is_nan F32_NAN_BITS = true ∧ u32 F32_NAN_BITS.
Proof. by vm_compute. Qed.

Lemma f32_negate_nan b : u32 b → f32_is_nan (f32_negate b) = f32_is_nan b.
Proof.
  intros Hb. unfold f32_negate, f32_is_nan, f32_neg, f32_mag, F32_SIGN. revert Hb. unfold_widths. change (2 ^ 31) with 2147483648. intros Hb.
  destruct (Z.leb_spec 2147483648 b).
  - rewrite (mod_clear_sign _ b), Z.mod_small by lia. done.
  - rewrite (Z.mod_small b), (Z.add_comm b), mod_set_sign by lia. done.
Qed.

(** The difference of finite numbers is a number, possibly infinite. *)
Lemma f32_sub_number a b : u32 b → f32_is_finite a = true → f32_is_finite b = true → f32_is_nan (f32_sub a b) = false ∧ u32 (f32_sub a b).
Proof.
  intros Hb Fa Fb. unfold f32_sub, f32_add. rewrite f32_negate_nan, (f32_finite_not_nan a), (f32_finite_not_nan b) by done. cbn [orb].
  destruct (f32_negate_spec b Hb) as (_ & Fn & _). rewrite Fb in Fn.
  assert (∀ x, f32_is_finite x = true → f32_is_infinite x = false) as Hi by (unfold f32_is_finite, f32_is_infinite; lia). rewrite !Hi by done.
  case_match; [apply with_sign_not_nan; done|]. apply with_sign_not_nan, round_mag_bounds; lia.
Qed.
(** The square of a number is non-negative. *)
Lemma f32_square_nonneg d : f32_is_nan d = false → nonneg (f32_mul d d).
Proof.
  intros Hn. unfold f32_mul. rewrite Hn, xorb_nilpotent. cbn [orb with_sign]. rewrite !orb_diag. pose proof (f32_mag_bounds d).
  destruct (f32_is_infinite d) eqn:Hi.
  - replace (f32_is_zero d) with false; [done|]. unfold f32_is_infinite, f32_is_zero, F32_INF_BITS in *. lia.
  - apply round_mag_bounds; [|done]. pose proof (f32_units_pos (f32_mag d)). nia.
Qed.

(** Scaling by a finite non-negative number: an infinite sum scaled by zero is no
    number, so what is monotone is passing a non-negative threshold. *)
Lemma f32_mul_exceeds scale x y t : u32 scale → f32_is_finite scale = true → 0 <= f32_key scale → nonneg x → nonneg y → x <= y → f32_lt t 0 = false →
  f32_gt (f32_mul scale x) t = true → f32_gt (f32_mul scale y) t = true.
Proof.
  intros Hu Fs Hk Hx Hy Hle Ht Hgt. pose proof (f32_mag_bounds scale) as Hm.
  assert (f32_is_nan t = false) as Nt by (unfold f32_gt, f32_lt, f32_ordered in Hgt; destruct (f32_is_nan t); [done|done]).
  assert (f32_is_infinite scale = false) as Is by (unfold f32_is_finite, f32_is_infinite in *; lia).
  assert (0 <= f32_key t) as Kt by (unfold f32_lt, f32_ordered in Ht; rewrite Nt in Ht; change (f32_is_nan 0) with false in Ht; cbn [negb andb] in Ht; change (f32_key 0) with 0 in Ht; lia).
  destruct (nonneg_fields x Hx) as (Sx & Mx & Nx & _), (nonneg_fields y Hy) as (Sy & My & Ny & _).
  destruct (f32_is_zero scale) eqn:Zs.
  { exfalso. unfold f32_mul in Hgt. rewrite f32_finite_not_nan, Nx, Is, Sx, Mx, nonneg_infinite, xorb_false_r, Zs in Hgt by done. cbn [orb] in Hgt.
    unfold f32_is_zero in Zs. apply Z.eqb_eq in Zs. rewrite Zs in Hgt. change (f32_units 0) with 0 in Hgt. rewrite Z.mul_0_l in Hgt. unfold f32_gt, f32_lt in Hgt.
    destruct (x =? F32_INF_BITS); [unfold f32_ordered in Hgt; by rewrite (proj1 nan_bits), andb_false_r in Hgt|]. apply andb_true_iff in Hgt as [_ Hgt].
    replace (f32_key (with_sign _ _)) with 0 in Hgt; [lia|]. by destruct (f32_neg scale). }
  assert (f32_neg scale = false) as Ss.
  { unfold f32_is_zero, f32_key in *. destruct (f32_neg scale); [|done]. lia. }
  assert (∀ z, nonneg z → nonneg (f32_mul scale z) ∧ (z = F32_INF_BITS → f32_mul scale z = F32_INF_BITS) ∧
    (z ≠ F32_INF_BITS → f32_mul scale z = round_mag (f32_units (f32_mag scale) * f32_units z) (2 ^ 149))) as Hmul.
  { intros z Hz. destruct (nonneg_fields z Hz) as (Sz & Mz & Nz & _). unfold f32_mul. rewrite f32_finite_not_nan, Nz, Is, Ss, Sz, Mz, nonneg_infinite, Zs by done. cbn [orb xorb with_sign].
    destruct (Z.eqb_spec z F32_INF_BITS) as [->|]; [done|]. split; [|done]. apply round_mag_bounds; [|done]. pose proof (f32_units_pos (f32_mag scale)). pose proof (f32_units_pos z). destruct Hz. nia. }
  destruct (Hmul x Hx) as (Cx & Ix & Fx), (Hmul y Hy) as (Cy & Iy & Fy).
  assert (f32_mul scale x <= f32_mul scale y) as Hxy.
  { destruct (decide (y = F32_INF_BITS)) as [E|E]; [rewrite (Iy E); apply Cx|]. destruct Hx, Hy. rewrite Fx, Fy by lia.
    pose proof (f32_units_mono x y). pose proof (f32_units_pos x). pose proof (f32_units_pos (f32_mag scale)). apply round_mag_mono; nia. }
  destruct (nonneg_fields _ Cx) as (_ & _ & N1 & _ & K1 & _), (nonneg_fields _ Cy) as (_ & _ & N2 & _ & K2 & _).
  unfold f32_gt, f32_lt, f32_ordered in *. rewrite N2, Nt, K2. rewrite N1, Nt, K1 in Hgt. cbn in *. lia.
Qed.
