(* ===== verification/TopK.v ===== *)
(** The bounded top-k heap: [core/src/topk.rs]. *)

From S2P Require Import Prelude F32.

(** [positions] is the index of every ID in [data]; [None] below is a panic
    (an index out of range), which the invariant excludes. *)
Record TopKHeap := Heap {
  k : nat;
  max_distance : Z;
  data : list (Z * Z);
  positions : gmap Z nat;
}.

Definition new (k : nat) : TopKHeap := Heap k f32_infinity [] ∅.
Definition with_max_distance (k : nat) (max_distance : Z) : TopKHeap := Heap k max_distance [] ∅.

(** [data.swap(left, right)] and the two [positions] updates. *)
Definition swap_entries (h : TopKHeap) (left right : nat) : option TopKHeap :=
  a ← data h !! left;
  b ← data h !! right;
  let data' := <[left := b]> (<[right := a]> (data h)) in
  a' ← data' !! left;
  let positions' := <[a'.2 := left]> (positions h) in
  b' ← data' !! right;
  Some (Heap (k h) (max_distance h) data' (<[b'.2 := right]> positions')).

(** [index] strictly decreases, so [index] rounds are enough. *)
Fixpoint sift_up_loop (fuel : nat) (h : TopKHeap) (index : nat) : option TopKHeap :=
  match fuel with
  | O => Some h
  | S fuel =>
      if Nat.eqb index 0 then Some h else
      let parent := ((index - 1) / 2)%nat in
      p ← data h !! parent;
      c ← data h !! index;
      if f32_total_ge p.1 c.1 then Some h
      else h' ← swap_entries h parent index; sift_up_loop fuel h' parent
  end.
Definition sift_up (h : TopKHeap) (index : nat) : option TopKHeap := sift_up_loop (S index) h index.

(** The worse of [worst] and [child], when [child] is inside the heap. *)
Definition worse_child (h : TopKHeap) (worst child : nat) : option nat :=
  if (child <? length (data h))%nat then
    c ← data h !! child;
    w ← data h !! worst;
    Some (if f32_total_gt c.1 w.1 then child else worst)
  else Some worst.
Fixpoint sift_down_loop (fuel : nat) (h : TopKHeap) (index : nat) : option TopKHeap :=
  match fuel with
  | O => Some h
  | S fuel =>
      let left := (index * 2 + 1)%nat in
      let right := (left + 1)%nat in
      worst ← worse_child h index left;
      worst ← worse_child h worst right;
      if Nat.eqb worst index then Some h
      else h' ← swap_entries h index worst; sift_down_loop fuel h' worst
  end.
(** [index] strictly increases and stays inside the heap. *)
Definition sift_down (h : TopKHeap) (index : nat) : option TopKHeap :=
  sift_down_loop (length (data h) - index) h index.

Definition push (h : TopKHeap) (dist id : Z) : option TopKHeap :=
  if Nat.eqb (k h) 0 || f32_is_nan dist || f32_ge dist (max_distance h) then Some h else
  match positions h !! id with
  | Some idx =>
      e ← data h !! idx;
      if f32_total_lt dist e.1 then
        sift_down (Heap (k h) (max_distance h) (<[idx := (dist, e.2)]> (data h)) (positions h)) idx
      else Some h
  | None =>
      if (length (data h) <? k h)%nat then
        sift_up (Heap (k h) (max_distance h) (data h ++ [(dist, id)])
                      (<[id := length (data h)]> (positions h)))
                (length (data h))
      else
        root ← data h !! 0%nat;
        if f32_total_lt dist root.1 then
          let positions' := delete root.2 (positions h) in
          sift_down (Heap (k h) (max_distance h) (<[0%nat := (dist, id)]> (data h))
                          (<[id := 0%nat]> positions')) 0
        else Some h
  end.

Definition should_consider (h : TopKHeap) (lower_bound : Z) : option bool :=
  if negb (0 <? k h)%nat then Some false
  else if f32_is_nan lower_bound then Some false
  else if (length (data h) <? k h)%nat then Some (f32_lt lower_bound (max_distance h))
  else root ← data h !! 0%nat; Some (f32_total_lt lower_bound root.1).

Definition is_full (h : TopKHeap) : bool := (0 <? k h)%nat && Nat.eqb (length (data h)) (k h).
Definition worst_distance (h : TopKHeap) : option (option Z) :=
  if is_full h then root ← data h !! 0%nat; Some (Some root.1) else Some None.
Definition distance_limit (h : TopKHeap) : option Z :=
  w ← worst_distance h; Some (default (max_distance h) w).

(** [sort_by] with [total_cmp] on the distance is stable: an entry is placed
    before the later entries it ties with. *)
Fixpoint insert_by_distance (e : Z * Z) (l : list (Z * Z)) : list (Z * Z) :=
  match l with
  | [] => [e]
  | x :: l => if f32_total_key e.1 <=? f32_total_key x.1 then e :: x :: l
              else x :: insert_by_distance e l
  end.
Definition into_sorted (h : TopKHeap) : list (Z * Z) := foldr insert_by_distance [] (data h).

(** [Collector::push] *)
Definition collector_push (h : TopKHeap) (id value : Z) : option TopKHeap :=
  consider ← should_consider h value;
  match consider with true => push h value id | false => Some h end.

(** A sequence of pushes of (distance, ID) pairs. *)
Fixpoint push_all (h : TopKHeap) (l : list (Z * Z)) : option TopKHeap :=
  match l with
  | [] => Some h
  | (dist, id) :: l => h' ← push h dist id; push_all h' l
  end.

Example push_duplicate_and_replace :
  into_sorted <$> push_all (new 2)
    [(0x41200000, 7); (0x40a00000, 8); (0x3f800000, 7); (0x40400000, 9)] =
  Some [(0x3f800000, 7); (0x40400000, 9)].
Proof. reflexivity. Qed.

(** ** Heap order *)

Abbreviation entry := (Z * Z)%type.
Definition key (e : entry) : Z := f32_total_key e.1.
Definition parent (i : nat) : nat := ((i - 1) / 2)%nat.

(** The entry at [j] is not above its parent. *)
Definition ordered_at (d : list entry) (j : nat) : Prop :=
  ∀ c p, d !! j = Some c → d !! parent j = Some p → key c <= key p.
Definition heap_ordered (d : list entry) : Prop := ∀ j, (0 < j)%nat → ordered_at d j.
(** Skipping [i]: its children are below its parent. *)
Definition bridged (d : list entry) (i : nat) : Prop :=
  (0 < i)%nat → ∀ j c p, (0 < j)%nat → parent j = i → d !! j = Some c → d !! parent i = Some p → key c <= key p.
Definition heap_except_up (d : list entry) (i : nat) : Prop :=
  (∀ j, (0 < j)%nat → j ≠ i → ordered_at d j) ∧ bridged d i.
Definition heap_except_down (d : list entry) (i : nat) : Prop :=
  (∀ j, (0 < j)%nat → parent j ≠ i → ordered_at d j) ∧ bridged d i.

Lemma parent_lt i : (0 < i)%nat → (parent i < i)%nat.
Proof. intros. unfold parent. apply Nat.Div0.div_lt_upper_bound. lia. Qed.
Lemma parent_iff i j : (0 < j)%nat → parent j = i ↔ (j = 2 * i + 1 ∨ j = 2 * i + 2)%nat.
Proof.
  intros. unfold parent. pose proof (Nat.div_mod_eq (j - 1) 2).
  pose proof (Nat.mod_upper_bound (j - 1) 2). lia.
Qed.

(** ** Positions *)

Definition positions_ok (d : list entry) (m : gmap Z nat) : Prop :=
  ∀ id i, m !! id = Some i ↔ ∃ x, d !! i = Some (x, id).

Lemma positions_ok_nodup d m : positions_ok d m → NoDup d.*2.
Proof.
  intros H. apply NoDup_alt. intros i j id Hi Hj.
  rewrite list_lookup_fmap in Hi, Hj.
  destruct (d !! i) as [[x ?]|] eqn:Ei, (d !! j) as [[y ?]|] eqn:Ej; simplify_eq/=.
  assert (m !! id = Some i) by (apply H; eauto). assert (m !! id = Some j) by (apply H; eauto).
  congruence.
Qed.

Lemma positions_ok_None d m id : positions_ok d m → m !! id = None ↔ id ∉ d.*2.
Proof.
  intros H. split.
  - intros Hn Hin. apply list_elem_of_fmap in Hin as ([x id'] & -> & Hin).
    apply list_elem_of_lookup in Hin as [i Hi]. assert (m !! id' = Some i) by (apply H; eauto).
    simpl in *. congruence.
  - intros Hn. destruct (m !! id) as [i|] eqn:E; [|done]. apply H in E as [x Hx].
    exfalso. apply Hn. apply list_elem_of_fmap. exists (x, id). split; [done|].
    by eapply list_elem_of_lookup_2.
Qed.

(** ** Swapping *)

Definition swapped (d : list entry) (i j : nat) (a b : entry) : list entry := <[i := b]> (<[j := a]> d).

Lemma swap_entries_Some h i j a b :
  i ≠ j → data h !! i = Some a → data h !! j = Some b →
  swap_entries h i j = Some (Heap (k h) (max_distance h) (swapped (data h) i j a b)
    (<[a.2 := j]> (<[b.2 := i]> (positions h)))).
Proof.
  intros Hne Ha Hb. unfold swap_entries. rewrite Ha. simpl. rewrite Hb. simpl.
  apply lookup_lt_Some in Ha as Hla. apply lookup_lt_Some in Hb as Hlb.
  rewrite list_lookup_insert_eq by (rewrite length_insert; done). simpl.
  rewrite list_lookup_insert_ne, list_lookup_insert_eq by done. done.
Qed.

Lemma swapped_lookup d i j a b n :
  i ≠ j → d !! i = Some a → d !! j = Some b →
  swapped d i j a b !! n = if decide (n = i) then Some b else if decide (n = j) then Some a else d !! n.
Proof.
  intros Hne Ha Hb. unfold swapped.
  apply lookup_lt_Some in Ha as Hla. apply lookup_lt_Some in Hb as Hlb.
  repeat case_decide; subst; rewrite ?list_lookup_insert_eq, ?list_lookup_insert_ne
    by (rewrite ?length_insert; done); try done.
  rewrite list_lookup_insert_eq by done. done.
Qed.

Lemma swapped_perm d i j a b :
  i ≠ j → d !! i = Some a → d !! j = Some b → swapped d i j a b ≡ₚ d.
Proof.
  intros Hne Ha Hb. unfold swapped.
  by apply (Permutation_insert_swap d j i b a).
Qed.

Lemma positions_ok_swap d m i j a b :
  i ≠ j → d !! i = Some a → d !! j = Some b → positions_ok d m →
  positions_ok (swapped d i j a b) (<[a.2 := j]> (<[b.2 := i]> m)).
Proof.
  intros Hne Ha Hb Hok.
  assert (∀ n x id, d !! n = Some (x, id) → m !! id = Some n) as Hm by (intros; apply Hok; eauto).
  assert (m !! a.2 = Some i) as Hma by (apply (Hm i a.1); by destruct a).
  assert (m !! b.2 = Some j) as Hmb by (apply (Hm j b.1); by destruct b).
  assert (a.2 ≠ b.2) as Hab by congruence.
  intros id n. rewrite !lookup_insert, (swapped_lookup d i j a b n) by done.
  destruct a as [xa ia], b as [xb ib]; simpl in *.
  repeat case_decide; subst; (split; [intros Hn|intros [x Hx]]); simplify_eq; eauto;
    try (apply Hm in Hx; by simplify_eq);
    try (apply Hok in Hn as [x Hx]; simplify_eq; by eauto);
    try (apply Hok; by eauto).
Qed.

(** What sifting preserves and establishes. *)
Record sifted (h h' : TopKHeap) : Prop := {
  sifted_k : k h' = k h;
  sifted_max : max_distance h' = max_distance h;
  sifted_perm : data h' ≡ₚ data h;
  sifted_ordered : heap_ordered (data h');
  sifted_positions : positions_ok (data h') (positions h');
}.

Lemma heap_except_up_swap d i p c :
  (0 < i)%nat → d !! parent i = Some p → d !! i = Some c → key p < key c → heap_except_up d i →
  heap_except_up (swapped d (parent i) i p c) (parent i).
Proof.
  intros Hi Hp Hc Hlt [Hord Hbr]. pose proof (parent_lt i Hi) as Hpi.
  pose proof (λ n, swapped_lookup d (parent i) i p c n ltac:(lia) Hp Hc) as Hsw.
  split.
  - intros j Hj Hjp x y. rewrite !Hsw. pose proof (parent_lt j Hj).
    rewrite (decide_False (P := j = parent i)) by done.
    destruct (decide (j = i)) as [->|Hji].
    { rewrite decide_True by done. intros; simplify_eq; lia. }
    intros Hx. destruct (decide (parent j = parent i)) as [E|E].
    { intros [= <-]. assert (key x <= key p) by (apply (Hord j); [done..|by rewrite E]). lia. }
    destruct (decide (parent j = i)) as [E'|E'].
    + intros [= <-]. by apply (Hbr Hi j x p).
    + intros Hy. by apply (Hord j).
  - intros Hpos j x y Hj Hpj. rewrite !Hsw. pose proof (parent_lt _ Hpos). pose proof (parent_lt j Hj).
    rewrite !(decide_False (P := parent (parent i) = _)) by lia.
    rewrite (decide_False (P := j = parent i)) by lia. intros Hx Hy.
    assert (key p <= key y) by (apply (Hord (parent i) Hpos ltac:(lia)); done).
    destruct (decide (j = i)) as [->|Hji]; [by simplify_eq|].
    assert (key x <= key p) by (apply (Hord j Hj ltac:(done)); [done|by rewrite Hpj]). lia.
Qed.

Lemma sift_up_spec fuel h i :
  (i < fuel)%nat → (i < length (data h))%nat → positions_ok (data h) (positions h) →
  heap_except_up (data h) i → ∃ h', sift_up_loop fuel h i = Some h' ∧ sifted h h'.
Proof.
  revert h i. induction fuel as [|fuel IH]; intros h i Hf Hlen Hpos Hex; [lia|]. cbn [sift_up_loop].
  destruct (Nat.eqb_spec i 0) as [->|Hi].
  { exists h. split; [done|]. split; try done. intros j Hj. apply Hex; lia. }
  pose proof (parent_lt i ltac:(lia)) as Hpi. change ((i - 1) / 2)%nat with (parent i).
  destruct (lookup_lt_is_Some_2 (data h) (parent i) ltac:(lia)) as [p Hp].
  destruct (lookup_lt_is_Some_2 (data h) i Hlen) as [c Hc].
  rewrite Hp. simpl. rewrite Hc. simpl. unfold f32_total_ge. fold (key c) (key p).
  destruct (Z.leb_spec (key c) (key p)) as [Hle|Hlt].
  - exists h. split; [done|]. split; try done. intros j Hj.
    destruct (decide (j = i)) as [->|]; [|by apply Hex]. intros ?? ??; simplify_eq; done.
  - rewrite (swap_entries_Some h (parent i) i p c) by (done || lia). simpl.
    set (h1 := Heap _ _ _ _). destruct (IH h1 (parent i)) as (h' & Hrun & Hs).
    + lia.
    + unfold h1, swapped. simpl. rewrite !length_insert. lia.
    + apply positions_ok_swap; (done || lia).
    + apply heap_except_up_swap; (done || lia).
    + exists h'. split; [done|]. destruct Hs as [H1 H2 H3 H4 H5]. split; try done.
      rewrite H3. simpl. apply swapped_perm; (done || lia).
Qed.

Lemma worse_child_spec h worst child e :
  data h !! worst = Some e →
  ∃ w f, worse_child h worst child = Some w ∧ data h !! w = Some f ∧ key e <= key f ∧
    (∀ c, data h !! child = Some c → key c <= key f) ∧ (w = worst ∨ w = child ∧ key e < key f).
Proof.
  intros He. unfold worse_child. destruct (Nat.ltb_spec child (length (data h))) as [Hlt|Hge].
  - destruct (lookup_lt_is_Some_2 (data h) child Hlt) as [c Hc]. rewrite Hc. simpl. rewrite He. simpl.
    unfold f32_total_gt. fold (key c) (key e). destruct (Z.ltb_spec (key e) (key c)).
    + exists child, c. split_and!; try done; [lia| |by right]. intros; simplify_eq; lia.
    + exists worst, e. split_and!; try done; [|by left]. intros; simplify_eq; lia.
  - exists worst, e. split_and!; try done; [|by left].
    intros c Hc. apply lookup_lt_Some in Hc. lia.
Qed.

Lemma heap_except_down_swap d i w a b :
  (0 < w)%nat → parent w = i → d !! i = Some a → d !! w = Some b → key a < key b →
  (∀ j c, (0 < j)%nat → parent j = i → d !! j = Some c → key c <= key b) → heap_except_down d i →
  heap_except_down (swapped d i w a b) w.
Proof.
  intros Hw Hpw Ha Hb Hlt Hsib [Hord Hbr]. pose proof (parent_lt w Hw) as Hiw. rewrite Hpw in Hiw.
  pose proof (λ n, swapped_lookup d i w a b n ltac:(lia) Ha Hb) as Hsw.
  split.
  - intros j Hj Hjw x y. rewrite !Hsw. pose proof (parent_lt j Hj).
    rewrite (decide_False (P := parent j = w)) by done. destruct (decide (j = i)) as [->|Hji].
    { rewrite decide_False by lia. intros [= <-] Hy. by apply (Hbr Hj w b y). }
    destruct (decide (parent j = i)) as [E|E].
    + intros Hx [= <-]. destruct (decide (j = w)); [simplify_eq; lia|]. by eapply Hsib.
    + rewrite decide_False by congruence. intros Hx Hy. by apply (Hord j).
  - intros _ j x y Hj Hpj. rewrite !Hsw, Hpw. pose proof (parent_lt j Hj).
    rewrite (decide_True (P := i = i)) by done.
    rewrite (decide_False (P := j = i)), (decide_False (P := j = w)) by lia.
    intros Hx [= <-]. apply (Hord j); [done|lia|done|by rewrite Hpj].
Qed.

Lemma sift_down_spec fuel h i :
  (length (data h) - i ≤ fuel)%nat → (i < length (data h))%nat → positions_ok (data h) (positions h) →
  heap_except_down (data h) i → ∃ h', sift_down_loop fuel h i = Some h' ∧ sifted h h'.
Proof.
  revert h i. induction fuel as [|fuel IH]; intros h i Hf Hlen Hpos Hex; [lia|]. cbn [sift_down_loop].
  destruct (lookup_lt_is_Some_2 (data h) i Hlen) as [a Ha].
  destruct (worse_child_spec h i (i * 2 + 1) a Ha) as (w1 & f1 & -> & Hw1 & Hk1 & Hl1 & Hc1).
  cbn [mbind option_bind].
  destruct (worse_child_spec h w1 (i * 2 + 1 + 1) f1 Hw1) as (w & b & -> & Hw & Hk & Hr & Hc2).
  cbn [mbind option_bind].
  assert (∀ j c, (0 < j)%nat → parent j = i → data h !! j = Some c → key c <= key b) as Hsib.
  { intros j c Hj Hpj Hc. rewrite parent_iff in Hpj by done. destruct Hpj as [->| ->].
    - etrans; [apply Hl1; rewrite <- Hc; f_equal; lia|done].
    - apply Hr. rewrite <- Hc. f_equal. lia. }
  destruct (Nat.eqb_spec w i) as [->|Hne].
  - exists h. split; [done|]. split; try done. intros j Hj.
    destruct (decide (parent j = i)) as [E|E]; [|by apply Hex].
    intros c p Hc Hp. rewrite E in Hp. simplify_eq. by eapply Hsib.
  - assert (key a < key b ∧ (0 < w)%nat ∧ parent w = i) as (Hlt & Hw0 & Hpw).
    { destruct Hc1 as [->|[-> ?]], Hc2 as [->|[-> ?]]; try done; simplify_eq;
        (split; [lia|split; [lia|apply parent_iff; lia]]). }
    pose proof (parent_lt w Hw0). apply lookup_lt_Some in Hw as Hwl.
    rewrite (swap_entries_Some h i w a b) by (done || lia). cbn [mbind option_bind].
    set (h1 := Heap _ _ _ _). destruct (IH h1 w) as (h' & Hrun & Hs).
    + unfold h1, swapped. simpl. rewrite !length_insert. lia.
    + unfold h1, swapped. simpl. rewrite !length_insert. lia.
    + apply positions_ok_swap; (done || lia).
    + apply heap_except_down_swap; done.
    + exists h'. split; [done|]. destruct Hs as [H1 H2 H3 H4 H5]. split; try done.
      rewrite H3. simpl. apply swapped_perm; (done || lia).
Qed.

(** ** The abstract top-k *)

Definition admitted (maximum dist : Z) : bool := negb (f32_is_nan dist || f32_ge dist maximum).

(** What a stream of pushes is about: the best admitted distance per ID. *)
Definition observe (maximum : Z) (best : gmap Z Z) (dist id : Z) : gmap Z Z :=
  if admitted maximum dist then
    match best !! id with
    | Some d => if f32_total_lt dist d then <[id := dist]> best else best
    | None => <[id := dist]> best
    end
  else best.
Definition observe_all (maximum : Z) (best : gmap Z Z) (l : list (Z * Z)) : gmap Z Z :=
  foldl (λ best e, observe maximum best e.1 e.2) best l.

Record heap_inv (h : TopKHeap) : Prop := {
  inv_len : (length (data h) ≤ k h)%nat;
  inv_ordered : heap_ordered (data h);
  inv_positions : positions_ok (data h) (positions h);
  inv_admitted : Forall (λ e, u32 e.1 ∧ admitted (max_distance h) e.1 = true) (data h);
}.

(** The heap holds the [k] best of [best]: its entries are entries of [best],
    there are as many as fit, and nothing left out is better than what is in. *)
Record selects (kk : nat) (d : list entry) (best : gmap Z Z) : Prop := {
  sel_in : ∀ x id, (x, id) ∈ d → best !! id = Some x;
  sel_len : length d = (kk `min` size best)%nat;
  sel_out : ∀ id x e, best !! id = Some x → id ∉ d.*2 → e ∈ d → key e <= f32_total_key x;
}.

#[global] Instance selects_perm kk : Proper ((≡ₚ) ==> (=) ==> iff) (selects kk).
Proof.
  enough (∀ d d' b, d ≡ₚ d' → selects kk d b → selects kk d' b) as H.
  { intros d d' Hd b ? <-. split; by apply H. }
  intros d d' b Hd [H1 H2 H3]. split.
  - intros x id. rewrite <- Hd. apply H1.
  - by rewrite <- Hd.
  - intros id x e. rewrite <- Hd. apply H3.
Qed.

Lemma root_max d r e : heap_ordered d → d !! 0%nat = Some r → e ∈ d → key e <= key r.
Proof.
  intros Ho Hr He. apply list_elem_of_lookup in He as [i Hi]. revert e Hi.
  induction i as [i IH] using (well_founded_induction lt_wf). intros e Hi.
  destruct (decide (i = 0%nat)) as [->|]; [by simplify_eq|].
  pose proof (parent_lt i ltac:(lia)). apply lookup_lt_Some in Hi as Hl.
  destruct (lookup_lt_is_Some_2 d (parent i) ltac:(lia)) as [p Hp].
  pose proof (Ho i ltac:(lia) e p Hi Hp). pose proof (IH (parent i) ltac:(done) p Hp). lia.
Qed.

Lemma elem_of_insert_list {A} (l : list A) i x y : y ∈ <[i := x]> l → y = x ∨ y ∈ l.
Proof.
  intros Hy. apply list_elem_of_lookup in Hy as [j Hj]. apply list_lookup_insert_Some in Hj.
  destruct Hj as [(_ & -> & _)|(_ & Hj)]; [by left|right]. by eapply list_elem_of_lookup_2.
Qed.

(** A heap that is not full holds every ID seen so far. *)
Lemma selects_not_full kk d best id :
  selects kk d best → NoDup d.*2 → (length d < kk)%nat → id ∉ d.*2 → best !! id = None.
Proof.
  intros [H1 H2 _] Hnd Hlt Hid. apply not_elem_of_dom.
  assert (list_to_set d.*2 = dom best) as <-; [|set_solver].
  apply set_subseteq_size_eq.
  - intros i Hi. apply elem_of_list_to_set, list_elem_of_fmap in Hi as ([x i'] & -> & Hi).
    apply elem_of_dom. eexists. by apply H1.
  - rewrite size_list_to_set by done. rewrite size_dom, length_fmap. lia.
Qed.

(** *** The three ways an admitted push changes the heap *)

Lemma selects_update kk d best idx x dist id :
  selects kk d best → NoDup d.*2 → d !! idx = Some (x, id) → f32_total_key dist < f32_total_key x →
  selects kk (<[idx := (dist, id)]> d) (<[id := dist]> best).
Proof.
  intros [H1 H2 H3] Hnd Hidx Hlt.
  assert (best !! id = Some x) as Hb by (apply H1; by eapply list_elem_of_lookup_2).
  assert ((<[idx := (dist, id)]> d).*2 = d.*2) as E.
  { rewrite list_fmap_insert. apply list_insert_id. by rewrite list_lookup_fmap, Hidx. }
  split.
  - intros y i Hin. apply list_elem_of_lookup in Hin as [j Hj].
    apply list_lookup_insert_Some in Hj as [(_ & ? & _)|(Hne & Hj)]; simplify_eq; [by simplify_map_eq|].
    rewrite lookup_insert_ne; [apply H1; by eapply list_elem_of_lookup_2|].
    intros ->. apply Hne. eapply NoDup_lookup; [done| |];
      rewrite list_lookup_fmap; [by rewrite Hidx|by rewrite Hj].
  - by rewrite length_insert, map_size_insert, Hb.
  - rewrite E. intros i y e Hi Hni He.
    rewrite lookup_insert_ne in Hi by (intros ->; apply Hni, list_elem_of_fmap; exists (x, i);
      split; [done|by eapply list_elem_of_lookup_2]).
    apply elem_of_insert_list in He as [->|He]; [|by eapply H3].
    assert (key (x, id) <= f32_total_key y); [|unfold key in *; simpl in *; lia].
    eapply H3; [done..|]. by eapply list_elem_of_lookup_2.
Qed.

Lemma selects_append kk d best dist id :
  selects kk d best → NoDup d.*2 → (length d < kk)%nat → id ∉ d.*2 →
  selects kk (d ++ [(dist, id)]) (<[id := dist]> best).
Proof.
  intros Hsel Hnd Hlt Hid. pose proof (selects_not_full kk d best id Hsel Hnd Hlt Hid) as Hb.
  destruct Hsel as [H1 H2 H3] eqn:E. split.
  - intros y i [Hin|Hin%list_elem_of_singleton]%elem_of_app; [|by simplify_map_eq].
    rewrite lookup_insert_ne; [by apply H1|]. intros ->. apply Hid, list_elem_of_fmap. by exists (y, i).
  - rewrite length_app, map_size_insert, Hb. simpl. lia.
  - intros i y e Hi Hni _. exfalso. rewrite fmap_app, not_elem_of_app in Hni. destruct Hni as [Hni Hne].
    rewrite lookup_insert_ne in Hi by set_solver.
    by rewrite (selects_not_full kk d best i Hsel Hnd Hlt Hni) in Hi.
Qed.

Lemma selects_replace kk d best r dist id :
  selects kk d best → heap_ordered d → NoDup d.*2 → length d = kk → d !! 0%nat = Some r → id ∉ d.*2 →
  f32_total_key dist < key r → selects kk (<[0%nat := (dist, id)]> d) (<[id := dist]> best).
Proof.
  intros [H1 H2 H3] Ho Hnd Hlen Hr Hid Hlt. assert (r ∈ d) as Hrin by by eapply list_elem_of_lookup_2.
  split.
  - intros y i Hin. apply list_elem_of_lookup in Hin as [j Hj].
    apply list_lookup_insert_Some in Hj as [(_ & ? & _)|(Hne & Hj)]; simplify_eq; [by simplify_map_eq|].
    apply list_elem_of_lookup_2 in Hj. rewrite lookup_insert_ne; [by apply H1|].
    intros ->. apply Hid, list_elem_of_fmap. by exists (y, i).
  - rewrite length_insert, map_size_insert. destruct (best !! id); simpl; lia.
  - intros i y e Hi Hni He. rewrite list_fmap_insert in Hni. simpl in Hni.
    assert (i ≠ id) as Hne.
    { intros ->. apply Hni. apply list_elem_of_lookup. exists 0%nat. apply list_lookup_insert_eq.
      rewrite length_fmap. by eapply lookup_lt_Some. }
    rewrite lookup_insert_ne in Hi by done.
    assert (key e <= key r) as Her.
    { apply elem_of_insert_list in He as [->|He]; [unfold key at 1; simpl; lia|]. by eapply root_max. }
    enough (key r <= f32_total_key y) by lia.
    destruct (decide (i ∈ d.*2)) as [Hin|Hnin]; [|by eapply H3].
    apply list_elem_of_fmap in Hin as ([y' i'] & -> & Hin). simpl in *.
    pose proof (H1 _ _ Hin). simplify_eq. apply list_elem_of_lookup in Hin as [j Hj].
    destruct (decide (j = 0%nat)) as [->|]; [by simplify_eq|]. exfalso. apply Hni.
    apply list_elem_of_lookup. exists j. rewrite list_lookup_insert_ne by done.
    by rewrite list_lookup_fmap, Hj.
Qed.

Lemma selects_reject kk d best r dist id :
  selects kk d best → heap_ordered d → length d = kk → d !! 0%nat = Some r → id ∉ d.*2 →
  key r <= f32_total_key dist → selects kk d (<[id := dist]> best).
Proof.
  intros [H1 H2 H3] Ho Hlen Hr Hid Hle. split.
  - intros y i Hin. rewrite lookup_insert_ne; [by apply H1|].
    intros ->. apply Hid, list_elem_of_fmap. by exists (y, i).
  - rewrite map_size_insert. destruct (best !! id); simpl; lia.
  - intros i y e [[-> ->]|[Hne Hi]]%lookup_insert_Some Hni He; [|by eapply H3].
    pose proof (root_max d r e Ho Hr He). lia.
Qed.

(** ** One push *)

Lemma update_except_down d idx x dist id :
  heap_ordered d → d !! idx = Some (x, id) → f32_total_key dist < f32_total_key x →
  heap_except_down (<[idx := (dist, id)]> d) idx.
Proof.
  intros Ho Hidx Hlt. split.
  - intros j Hj Hp c p Hc Hpp. rewrite list_lookup_insert_ne in Hpp by done.
    apply list_lookup_insert_Some in Hc as [(-> & <- & _)|[Hne Hc]]; [|by apply (Ho j)].
    pose proof (Ho j Hj _ _ Hidx Hpp). unfold key in *. simpl in *. lia.
  - intros Hpos j c p Hj Hpj Hc Hp. pose proof (parent_lt idx Hpos). pose proof (parent_lt j Hj).
    rewrite list_lookup_insert_ne in Hc, Hp by lia.
    pose proof (Ho j Hj c (x, id) Hc ltac:(by rewrite Hpj)). pose proof (Ho idx Hpos _ _ Hidx Hp). lia.
Qed.

Lemma update_positions d m idx x dist id :
  positions_ok d m → d !! idx = Some (x, id) → positions_ok (<[idx := (dist, id)]> d) m.
Proof.
  intros Hok Hidx i n. rewrite (Hok i n). split; intros [y Hy].
  - destruct (decide (n = idx)) as [->|]; [|rewrite list_lookup_insert_ne by done; eauto].
    simplify_eq. exists dist. apply list_lookup_insert_eq. by eapply lookup_lt_Some.
  - apply list_lookup_insert_Some in Hy as [(-> & [= <- <-] & _)|[_ Hy]]; eauto.
Qed.

Lemma append_positions d m dist id :
  positions_ok d m → id ∉ d.*2 → positions_ok (d ++ [(dist, id)]) (<[id := length d]> m).
Proof.
  intros Hok Hid i n. rewrite lookup_insert_Some, (Hok i n). split.
  - intros [[-> <-]|[Hne [y Hy]]].
    + exists dist. by rewrite lookup_app_r, Nat.sub_diag by lia.
    + exists y. by apply lookup_app_l_Some.
  - intros [y [Hy|[Hge Hy]]%lookup_app_Some].
    + right. split; [|eauto]. intros ->. apply Hid, list_elem_of_fmap. exists (y, i).
      split; [done|]. by eapply list_elem_of_lookup_2.
    + apply list_lookup_singleton_Some in Hy as [? ?]. simplify_eq. left. split; [done|lia].
Qed.

Lemma replace_positions d m r dist id :
  positions_ok d m → d !! 0%nat = Some r → id ∉ d.*2 →
  positions_ok (<[0%nat := (dist, id)]> d) (<[id := 0%nat]> (delete r.2 m)).
Proof.
  intros Hok Hr Hid i n. rewrite lookup_insert_Some, lookup_delete_Some, (Hok i n).
  assert (r.2 ≠ id) as Hne by (intros <-; apply Hid, list_elem_of_fmap; exists r; split;
    [done|by eapply list_elem_of_lookup_2]).
  assert (m !! r.2 = Some 0%nat) as Hm by (apply Hok; exists r.1; by destruct r).
  split.
  - intros [[-> <-]|(Hne' & Hir & [y Hy])].
    + exists dist. apply list_lookup_insert_eq. by eapply lookup_lt_Some.
    + exists y. rewrite list_lookup_insert_ne; [done|]. intros <-. by simplify_eq.
  - intros [y [(<- & [= <- <-] & _)|[Hn Hy]]%list_lookup_insert_Some]; [by left|right].
    assert (m !! i = Some n) by (apply Hok; eauto).
    split_and!; [|intros <-; by simplify_eq|eauto].
    intros <-. apply Hid, list_elem_of_fmap. exists (y, id). split; [done|by eapply list_elem_of_lookup_2].
Qed.


(** Sifting a state that satisfies everything but the order restores the invariant. *)
Lemma sifted_inv h h' best :
  sifted h h' → (length (data h) ≤ k h)%nat →
  Forall (λ e, u32 e.1 ∧ admitted (max_distance h) e.1 = true) (data h) → selects (k h) (data h) best →
  heap_inv h' ∧ selects (k h') (data h') best ∧ k h' = k h ∧ max_distance h' = max_distance h.
Proof.
  intros [H1 H2 H3 H4 H5] Hlen Hadm Hsel. rewrite H1, H2. split_and!; try done.
  - split; [by rewrite H3, H1|done..|]. by rewrite H2, H3.
  - by rewrite H3.
Qed.

Abbreviation entry_ok h := (λ e : entry, u32 e.1 ∧ admitted (max_distance h) e.1 = true).

(** The state after a push that keeps [k] and the cap and selects from [best]. *)
Definition pushed (h : TopKHeap) (best : gmap Z Z) (o : option TopKHeap) : Prop :=
  ∃ h', o = Some h' ∧ heap_inv h' ∧ selects (k h') (data h') best ∧
    k h' = k h ∧ max_distance h' = max_distance h.

Lemma push_update_spec h best idx x dist id :
  heap_inv h → selects (k h) (data h) best → entry_ok h (dist, id) → data h !! idx = Some (x, id) →
  f32_total_key dist < f32_total_key x →
  pushed h (<[id := dist]> best)
    (sift_down (Heap (k h) (max_distance h) (<[idx := (dist, id)]> (data h)) (positions h)) idx).
Proof.
  intros [Hlen Ho Hpos Hadm] Hsel He Hx Hlt. set (h1 := Heap _ _ _ _).
  destruct (sift_down_spec (length (data h1) - idx) h1 idx) as (h' & Hrun & Hs); simpl.
  - lia.
  - rewrite length_insert. by eapply lookup_lt_Some.
  - by eapply update_positions.
  - by eapply update_except_down.
  - exists h'. split; [done|]. apply (sifted_inv h1); simpl; [done|by rewrite length_insert| |].
    + by apply Forall_insert.
    + apply (selects_update _ _ _ _ x); first [done|by eapply positions_ok_nodup].
Qed.

Lemma push_append_spec h best dist id :
  heap_inv h → selects (k h) (data h) best → entry_ok h (dist, id) → id ∉ (data h).*2 →
  (length (data h) < k h)%nat →
  pushed h (<[id := dist]> best)
    (sift_up (Heap (k h) (max_distance h) (data h ++ [(dist, id)]) (<[id := length (data h)]> (positions h)))
       (length (data h))).
Proof.
  intros [Hlen Ho Hpos Hadm] Hsel He Hid Hlt. set (h1 := Heap _ _ _ _).
  destruct (sift_up_spec (S (length (data h))) h1 (length (data h))) as (h' & Hrun & Hs); simpl.
  - lia.
  - rewrite length_app. simpl. lia.
  - by apply append_positions.
  - split.
    + intros j Hj Hne c p Hc Hp. apply lookup_lt_Some in Hc as Hl. rewrite length_app in Hl. simpl in Hl.
      pose proof (parent_lt j Hj). rewrite lookup_app_l in Hc, Hp by lia. by apply (Ho j).
    + intros _ j c p Hj Hpj Hc _. apply lookup_lt_Some in Hc. rewrite length_app in Hc. simpl in Hc.
      pose proof (parent_lt j Hj). lia.
  - exists h'. split; [done|]. apply (sifted_inv h1); simpl; [done| | |].
    + rewrite length_app. simpl. lia.
    + apply Forall_app. split; [done|by constructor].
    + apply selects_append; [done|by eapply positions_ok_nodup|done..].
Qed.

Lemma push_replace_spec h best r dist id :
  heap_inv h → selects (k h) (data h) best → entry_ok h (dist, id) → id ∉ (data h).*2 →
  length (data h) = k h → data h !! 0%nat = Some r → f32_total_key dist < key r →
  pushed h (<[id := dist]> best)
    (sift_down (Heap (k h) (max_distance h) (<[0%nat := (dist, id)]> (data h))
       (<[id := 0%nat]> (delete r.2 (positions h)))) 0).
Proof.
  intros [Hlen Ho Hpos Hadm] Hsel He Hid Hfull Hr Hlt. set (h1 := Heap _ _ _ _).
  apply lookup_lt_Some in Hr as Hl.
  destruct (sift_down_spec (length (data h1) - 0) h1 0) as (h' & Hrun & Hs); simpl.
  - lia.
  - by rewrite length_insert.
  - by apply replace_positions.
  - split; [|intros ?; lia]. intros j Hj Hp c p Hc Hpp. rewrite list_lookup_insert_ne in Hpp by done.
    rewrite list_lookup_insert_ne in Hc by lia. by apply (Ho j).
  - exists h'. split; [done|]. apply (sifted_inv h1); simpl; [done|by rewrite length_insert| |].
    + by apply Forall_insert.
    + apply (selects_replace _ _ _ r); first [done|by eapply positions_ok_nodup].
Qed.

Lemma push_spec h best dist id :
  heap_inv h → selects (k h) (data h) best → u32 dist →
  pushed h (observe (max_distance h) best dist id) (push h dist id).
Proof.
  intros Hinv Hsel Hd. pose proof Hinv as [Hlen Ho Hpos Hadm]. unfold push, observe, pushed.
  destruct (Nat.eqb_spec (k h) 0) as [Hk|Hk]; simpl.
  { assert (data h = []) as E by (apply length_zero_iff_nil; lia). exists h. split_and!; try done.
    rewrite E, Hk. split; [by intros ?? ?%elem_of_nil|done|by intros ??? _ _ ?%elem_of_nil]. }
  destruct (admitted (max_distance h) dist) eqn:Ea; pose proof Ea as Eb; unfold admitted in Eb;
    [apply negb_true_iff in Eb|apply negb_false_iff in Eb]; rewrite Eb; [|eauto 10].
  destruct (positions h !! id) as [idx|] eqn:Ep.
  - apply Hpos in Ep as [x Hx]. rewrite Hx. cbn [mbind option_bind fst snd].
    rewrite (sel_in _ _ _ Hsel x id) by (by eapply list_elem_of_lookup_2).
    unfold f32_total_lt. destruct (Z.ltb_spec (f32_total_key dist) (f32_total_key x)); [|eauto 10].
    by eapply push_update_spec.
  - apply (positions_ok_None _ _ _ Hpos) in Ep. pose proof (positions_ok_nodup _ _ Hpos) as Hnd.
    destruct (Nat.ltb_spec (length (data h)) (k h)) as [Hlt|Hge].
    + rewrite (selects_not_full _ _ _ _ Hsel Hnd Hlt Ep). by apply push_append_spec.
    + destruct (lookup_lt_is_Some_2 (data h) 0 ltac:(lia)) as [r Hr]. rewrite Hr. cbn [mbind option_bind].
      assert (∀ d, best !! id = Some d → key r <= f32_total_key d) as Hbest.
      { intros d Hbd. eapply (sel_out _ _ _ Hsel); [done..|]. by eapply list_elem_of_lookup_2. }
      unfold f32_total_lt at 1. fold (key r).
      destruct (Z.ltb_spec (f32_total_key dist) (key r)) as [Hlt|Hle].
      * replace (match best !! id with Some d => _ | None => _ end) with (<[id:=dist]> best).
        { apply push_replace_spec; (done || lia). }
        destruct (best !! id) as [d|]; [|done]. specialize (Hbest d eq_refl). unfold f32_total_lt.
        by rewrite (proj2 (Z.ltb_lt _ _)) by lia.
      * exists h. split_and!; try done.
        assert (selects (k h) (data h) (<[id:=dist]> best)) by (eapply selects_reject; (done || lia)).
        destruct (best !! id) as [d|]; [|done]. by destruct (f32_total_lt dist d).
Qed.

Lemma push_all_spec h best l :
  heap_inv h → selects (k h) (data h) best → Forall (λ e, u32 e.1) l →
  pushed h (observe_all (max_distance h) best l) (push_all h l).
Proof.
  intros Hinv Hsel Hl. revert h best Hinv Hsel. induction Hl as [|[dist id] l Hd _ IH]; intros h best Hinv Hsel.
  - exists h. done.
  - destruct (push_spec h best dist id Hinv Hsel Hd) as (h1 & Hrun & Hinv1 & Hsel1 & Hk & Hm).
    simpl. rewrite Hrun. cbn [mbind option_bind]. destruct (IH h1 _ Hinv1 Hsel1) as (h' & Hr & ? & ? & ? & ?).
    rewrite Hm in *. exists h'. rewrite Hr. split_and!; (done || congruence).
Qed.

Lemma new_selects kk maximum : heap_inv (with_max_distance kk maximum) ∧ selects kk [] ∅.
Proof.
  split.
  - split; simpl; [lia|by intros j Hj c p Hc| |constructor].
    intros id i. rewrite lookup_empty. split; [done|by intros [x ?]].
  - split; [by intros ?? ?%elem_of_nil|rewrite map_size_empty; simpl; lia|by intros ??? _ _ ?%elem_of_nil].
Qed.

Lemma insert_by_distance_perm e l : insert_by_distance e l ≡ₚ e :: l.
Proof.
  induction l as [|x l IH]; simpl; [done|]. case_match; [done|]. rewrite IH. apply Permutation_swap.
Qed.

Lemma insert_by_distance_sorted e l :
  Sorted (λ a b, key a <= key b) l → Sorted (λ a b, key a <= key b) (insert_by_distance e l).
Proof.
  induction 1 as [|x l Hs IH Hx]; simpl; [repeat constructor|]. fold (key e) (key x).
  destruct (Z.leb_spec (key e) (key x)).
  - constructor; [by constructor|by constructor].
  - constructor; [done|]. destruct Hx as [|y l Hy]; simpl; [constructor; lia|].
    case_match; constructor; lia.
Qed.

Lemma into_sorted_spec h : into_sorted h ≡ₚ data h ∧ Sorted (λ a b, key a <= key b) (into_sorted h).
Proof.
  unfold into_sorted. induction (data h) as [|e l [IH1 IH2]]; simpl; [split; [done|constructor]|].
  split; [by rewrite insert_by_distance_perm, IH1|by apply insert_by_distance_sorted].
Qed.

Lemma not_admitted_mono maximum lower dist :
  u32 lower → u32 dist → f32_is_nan lower = false → f32_total_key lower <= f32_total_key dist →
  f32_is_nan maximum = false → f32_lt lower maximum = false → admitted maximum dist = false.
Proof.
  intros Hu Hv Hn Hle Hm Hlt. unfold admitted. destruct (f32_is_nan dist) eqn:Hd; [done|].
  unfold f32_lt, f32_ge, f32_ordered in *. rewrite Hn, Hd, Hm in *. simpl in *.
  apply Z.ltb_ge in Hlt. rewrite (proj2 (Z.leb_le _ _)); [done|].
  destruct (decide (f32_total_key lower = f32_total_key dist)) as [E|].
  - apply f32_total_key_inj in E; [by subst|done..].
  - pose proof (f32_total_lt_key lower dist Hu Hv ltac:(lia)). lia.
Qed.

(** Entries at or above the root change nothing in a full heap. *)
Lemma push_full_noop h r dist id :
  heap_inv h → length (data h) = k h → data h !! 0%nat = Some r → key r <= f32_total_key dist →
  push h dist id = Some h.
Proof.
  intros [Hlen Ho Hpos Hadm] Hfull Hr Hle. unfold push. case_match; [done|].
  destruct (positions h !! id) as [idx|] eqn:Ep.
  - apply Hpos in Ep as [x Hx]. rewrite Hx. cbn [mbind option_bind].
    pose proof (root_max (data h) r (x, id) Ho Hr ltac:(by eapply list_elem_of_lookup_2)) as Hmax.
    unfold f32_total_lt, key in *. simpl in *. by rewrite (proj2 (Z.ltb_ge _ _)) by lia.
  - rewrite (proj2 (Nat.ltb_ge _ _)) by lia. rewrite Hr. cbn [mbind option_bind].
    unfold f32_total_lt. fold (key r). by rewrite (proj2 (Z.ltb_ge _ _)) by lia.
Qed.

(** ** Properties *)

(** C33: pushing any sequence of (distance, ID) pairs never panics and keeps the
    heap invariant: a max-heap under [total_cmp] of at most [k] admitted
    entries whose [positions] map is exact; and the heap then holds the [k]
    best of the per-ID minima of the admitted distances. *)
Theorem topk_push_selects (kk : nat) (maximum : Z) (l : list (Z * Z)) :
  Forall (λ e, u32 e.1) l →
  ∃ h, push_all (with_max_distance kk maximum) l = Some h ∧ heap_inv h ∧
    selects kk (data h) (observe_all maximum ∅ l).
Proof.
  intros Hl. destruct (new_selects kk maximum) as [Hinv Hsel].
  destruct (push_all_spec _ _ l Hinv Hsel Hl) as (h & ? & ? & Hs & Hk & _).
  exists h. rewrite Hk in Hs. done.
Qed.

Lemma topk_push_selects_witness :
  ∃ h, push_all (with_max_distance 2 f32_infinity) [(0x41200000, 7); (0x40a00000, 8); (0x3f800000, 7)] = Some h ∧
    heap_inv h ∧ selects 2 (data h) (observe_all f32_infinity ∅ [(0x41200000, 7); (0x40a00000, 8); (0x3f800000, 7)]).
Proof. apply topk_push_selects. repeat constructor; simpl; unfold_widths; lia. Defined.

(** [into_sorted] returns the selected entries in non-decreasing distance,
    each ID once. *)
Theorem topk_into_sorted (kk : nat) (maximum : Z) (l : list (Z * Z)) (h : TopKHeap) :
  Forall (λ e, u32 e.1) l → push_all (with_max_distance kk maximum) l = Some h →
  Sorted (λ a b, f32_total_key a.1 <= f32_total_key b.1) (into_sorted h) ∧
  NoDup (into_sorted h).*2 ∧ selects kk (into_sorted h) (observe_all maximum ∅ l).
Proof.
  intros Hl Hrun. destruct (new_selects kk maximum) as [Hinv Hsel].
  destruct (push_all_spec _ _ l Hinv Hsel Hl) as (h' & Hr & Hinv' & Hs & Hk & _).
  rewrite Hrun in Hr. simplify_eq. rewrite Hk in Hs. destruct (into_sorted_spec h') as [Hp Hso].
  split_and!; [done| |by rewrite Hp].
  rewrite Hp. by eapply positions_ok_nodup, inv_positions.
Qed.

Lemma topk_into_sorted_witness :
  Sorted (λ a b, f32_total_key a.1 <= f32_total_key b.1) [(0x3f800000, 7)] ∧ NoDup [7] ∧
  selects 1 [(0x3f800000, 7)] (observe_all f32_infinity ∅ [(0x40a00000, 8); (0x3f800000, 7)]).
Proof.
  apply (topk_into_sorted 1 f32_infinity [(0x40a00000, 8); (0x3f800000, 7)]
    (Heap 1 f32_infinity [(0x3f800000, 7)] {[7 := 0%nat]})); [|reflexivity].
  repeat constructor; simpl; unfold_widths; lia.
Defined.

(** Pruning by [should_consider] is sound: when it rejects a lower bound, a
    row whose distance is not below that bound cannot change the heap. *)
Theorem topk_pruning_sound (h : TopKHeap) (lower dist id : Z) :
  heap_inv h → f32_is_nan (max_distance h) = false → u32 lower → u32 dist → f32_is_nan lower = false →
  f32_total_key lower <= f32_total_key dist → should_consider h lower = Some false →
  push h dist id = Some h.
Proof.
  intros Hinv Hm Hu Hv Hn Hle. unfold should_consider. rewrite Hn.
  destruct (Nat.ltb_spec 0 (k h)); simpl; [|intros _; unfold push; by rewrite (proj2 (Nat.eqb_eq _ _)) by lia].
  destruct (Nat.ltb_spec (length (data h)) (k h)) as [Hlt|Hge].
  - intros [= Hlow]. pose proof (not_admitted_mono _ _ _ Hu Hv Hn Hle Hm Hlow) as Ha.
    unfold admitted in Ha. apply negb_false_iff in Ha. unfold push. rewrite <- orb_assoc, Ha. by rewrite orb_true_r.
  - pose proof (inv_len h Hinv). destruct (lookup_lt_is_Some_2 (data h) 0 ltac:(lia)) as [r Hr].
    rewrite Hr. cbn [mbind option_bind]. intros [= Hlow]. unfold f32_total_lt in Hlow. fold (key r) in Hlow.
    eapply push_full_noop; [done|lia|done|lia].
Qed.

Lemma topk_pruning_sound_witness :
  push (Heap 1 f32_infinity [(0x3f800000, 7)] {[7 := 0%nat]}) 0x40a00000 8 =
    Some (Heap 1 f32_infinity [(0x3f800000, 7)] {[7 := 0%nat]}).
Proof.
  apply (topk_pruning_sound _ 0x40000000); try (unfold_widths; lia); try reflexivity; [|vm_compute; discriminate].
  split; simpl; [lia| | |repeat constructor; simpl; unfold_widths; (lia || reflexivity)].
  - intros [|j] Hj c p Hc Hp; [lia|]. simplify_eq/=.
  - intros id i. rewrite lookup_singleton_Some. split.
    + intros [<- <-]. by exists 0x3f800000.
    + intros [x Hx]. destruct i; simplify_eq/=. done.
Defined.
