(* ===== verification/Adjacency.v ===== *)
(** DiskANN adjacency lists and locators: [core/src/diskann_io.rs].

    The adaptive list codec (delta LEB128 or raw [u32]), the packed locator of
    a list inside the paged adjacency section, and the block-compressed
    locator index that stays resident.  Allocation is taken to succeed. *)

From S2P Require Import Prelude IndexIoUtil.
Import Varint.

Definition DISKANN_PAGE_SIZE : Z := 4096.
Definition ADJACENCY_LOCATOR_BLOCK_NODES : nat := 16.
Definition ADJACENCY_LOCATOR_SIZE : Z := 4.
Definition ADJACENCY_LOCATOR_BLOCK_BASE_SIZE : Z := 8.
Definition ADJACENCY_RAW_U32_FLAG : Z := Z.shiftl 1 15.
Definition ADJACENCY_DEGREE_MASK : Z := ADJACENCY_RAW_U32_FLAG - 1.

Inductive AdjacencyListEncoding : Set := DeltaVarint | RawU32.
#[export] Instance AdjacencyListEncoding_eq_dec : EqDecision AdjacencyListEncoding.
Proof. solve_decision. Defined.

(** ** The list codec *)

Fixpoint append_u32_varint_loop (fuel : nat) (encoded : list Z) (value : Z) : list Z :=
  match fuel with
  | O => encoded
  | S fuel =>
      if 0x80 <=? value then
        append_u32_varint_loop fuel
          (encoded ++ [Z.lor (Z.land (wrap 8 value) 0x7f) 0x80]) (Z.shiftr value 7)
      else encoded ++ [wrap 8 value]
  end.
(** Five groups of seven bits cover a [u32]. *)
Definition append_u32_varint (encoded : list Z) (value : Z) : list Z :=
  append_u32_varint_loop 5 encoded value.

(** [for shift in (0..=28).step_by(7)], with the shifts still to come. *)
Fixpoint read_u32_varint_loop (shifts : list Z) (bytes : list Z) (start position : nat) (value : Z) :
    io_result (Z * nat) :=
  match shifts with
  | [] => invalid_data "DiskANN adjacency varint exceeds five bytes"
  | shift :: shifts =>
      byte ← or_data (bytes !! position) "DiskANN adjacency varint is truncated";
      let position := S position in
      _ ← ensure_data (negb ((shift =? 28) && (0x0f <? byte))) "DiskANN adjacency varint exceeds u32";
      let value := Z.lor value (wrap 32 (Z.shiftl (Z.land byte 0x7f) shift)) in
      if Z.land byte 0x80 =? 0 then
        _ ← ensure_data (negb ((1 <? position - start)%nat && (byte =? 0)))
              "DiskANN adjacency varint is not canonical";
        Ok (value, position)
      else read_u32_varint_loop shifts bytes start position value
  end.
Definition read_u32_varint (bytes : list Z) (position : nat) : io_result (Z * nat) :=
  read_u32_varint_loop [0; 7; 14; 21; 28] bytes position position 0.

(** [u32::BITS - value.leading_zeros()] *)
Definition significant_bits (value : Z) : Z := if value =? 0 then 0 else Z.log2 value + 1.
Definition u32_varint_len (value : Z) : Z := div_ceil (Z.max (significant_bits value) 1) 7.

Fixpoint adjacency_delta_varint_len_loop (index : nat) (previous encoded_len : Z) (neighbors : list Z) :
    option Z :=
  match neighbors with
  | [] => Some encoded_len
  | neighbor :: neighbors =>
      if negb (Nat.eqb index 0) && (neighbor <=? previous) then None else
      encoded_len ← checked_add 64 encoded_len (u32_varint_len (neighbor - previous));
      adjacency_delta_varint_len_loop (S index) neighbor encoded_len neighbors
  end.
Definition adjacency_delta_varint_len (neighbors : list Z) : option Z :=
  adjacency_delta_varint_len_loop 0 0 0 neighbors.

Definition plan_adjacency_list (neighbors : list Z) : io_result (AdjacencyListEncoding * Z) :=
  raw_len ← or_input (checked_mul 64 (zlen neighbors) 4) "DiskANN adjacency list size overflows usize";
  delta_len ← or_input (adjacency_delta_varint_len neighbors)
                "DiskANN adjacency neighbors must be strictly increasing";
  if (match neighbors with [] => true | _ => false end) || (delta_len <? raw_len)
  then Ok (DeltaVarint, delta_len) else Ok (RawU32, raw_len).

Fixpoint encode_deltas (encoded : list Z) (previous : Z) (neighbors : list Z) : list Z :=
  match neighbors with
  | [] => encoded
  | neighbor :: neighbors =>
      encode_deltas (append_u32_varint encoded (neighbor - previous)) neighbor neighbors
  end.
Definition encode_adjacency_list (neighbors : list Z) : io_result (AdjacencyListEncoding * list Z) :=
  '(encoding, _) ← plan_adjacency_list neighbors;
  Ok (encoding, match encoding with
                | DeltaVarint => encode_deltas [] 0 neighbors
                | RawU32 => concat (le_bytes 4 <$> neighbors)
                end).

Fixpoint decode_deltas (degree : nat) (bytes : list Z) (position : nat) (previous : Z) :
    io_result (list Z * nat) :=
  match degree with
  | O => Ok ([], position)
  | S degree =>
      '(delta, position) ← read_u32_varint bytes position;
      neighbor ← or_data (checked_add 32 previous delta) "DiskANN adjacency delta overflows u32";
      '(neighbors, position) ← decode_deltas degree bytes position neighbor;
      Ok (neighbor :: neighbors, position)
  end.
(** The neighbours and the number of bytes consumed. *)
Definition decode_adjacency_list (bytes : list Z) (degree : nat) (encoding : AdjacencyListEncoding) :
    io_result (list Z * nat) :=
  match encoding with
  | DeltaVarint => decode_deltas degree bytes 0 0
  | RawU32 =>
      encoded_len ← or_data (checked_mul 64 (Z.of_nat degree) 4)
                      "DiskANN raw adjacency size overflows usize";
      encoded ← or_data (get_slice 0 (Z.to_nat encoded_len) bytes)
                  "DiskANN raw adjacency list is truncated";
      Ok (le_val <$> chunks_exact 4 encoded, Z.to_nat encoded_len)
  end.

(** *** Lemmas about the varints *)

Lemma append_u32_varint_eq encoded v : 0 <= v → append_u32_varint encoded v = encoded ++ varint_bytes 5 v.
Proof.
  intros Hv. unfold append_u32_varint. rewrite <- (write_u64_varint_loop_eq 5 encoded v Hv). done.
Qed.

Fixpoint shifts_from (n : nat) (shift : Z) : list Z :=
  match n with O => [] | S n => shift :: shifts_from n (shift + 7) end.

Lemma read_group32 acc b shift :
  0 <= shift → u8 b → 0 <= acc < 2 ^ shift → (b mod 128) * 2 ^ shift < 2 ^ 32 →
  Z.lor acc (wrap 32 (Z.shiftl (Z.land b 0x7f) shift)) = acc + (b mod 128) * 2 ^ shift.
Proof.
  intros Hs Hb Hacc Hlt. pose proof (Z.mod_pos_bound b 128).
  rewrite byte_low_bits by done. rewrite wrap_small.
  - by apply lor_shiftl_add.
  - rewrite Z.shiftl_mul_pow2 by done. unfold u_ok. pose proof (pow2_pos shift Hs). nia.
Qed.

(** A group after the first may not be a lone zero. *)
Lemma read_u32_varint_loop_bytes n pre post start acc shift v :
  shift = 7 * (5 - Z.of_nat n) → (0 < n ≤ 5)%nat → (start ≤ length pre)%nat →
  (start = length pre ∨ 0 < v) → 0 <= acc < 2 ^ shift → 0 <= v → v * 2 ^ shift < 2 ^ 32 →
  read_u32_varint_loop (shifts_from n shift) (pre ++ varint_bytes n v ++ post) start (length pre) acc =
    Ok (acc + v * 2 ^ shift, (length pre + length (varint_bytes n v))%nat).
Proof.
  revert pre acc shift v. induction n as [|n IH]; [lia|].
  intros pre acc shift v Hs Hr Hst Hnz Hacc Hv Hlt.
  pose proof (pow2_pos shift ltac:(lia)) as HP.
  pose proof (Z.div_mod v 128 ltac:(lia)). pose proof (Z.mod_pos_bound v 128 ltac:(lia)).
  rewrite varint_bytes_S. cbn [shifts_from read_u32_varint_loop].
  destruct (128 <=? v) eqn:E; cbn [app]; rewrite list_lookup_middle by done; cbn [or_data ok_or mbind io_result_bind].
  - assert (u8 (v mod 128 + 128)) as Hb by (unfold_widths; lia).
    assert ((v mod 128 + 128) mod 128 = v mod 128) as Em by by apply mod_add_128.
    assert (shift <> 28) by (intros ->; lia).
    rewrite (proj2 (Z.eqb_neq shift 28)) by done. cbn [andb negb ensure_data guard_ok].
    rewrite byte_high_bit, (proj2 (Z.ltb_ge _ _)) by (done || lia).
    rewrite read_group32; [|lia|done..|]; rewrite Em; [|nia].
    rewrite (cons_middle (v mod 128 + 128)), (app_assoc pre).
    replace (S (length pre)) with (length (pre ++ [v mod 128 + 128])) by (rewrite length_app; simpl; lia).
    assert (2 ^ (shift + 7) = 2 ^ shift * 128) as EP by (rewrite Z.pow_add_r by lia; done).
    destruct n as [|n]; [exfalso; lia|].
    assert (0 < v / 128) by lia.
    rewrite IH; rewrite ?EP, ?length_app; cbn [length]; try nia.
    cbn [mbind io_result_bind]. f_equal. f_equal; first [lia|nia].
  - assert (u8 v) as Hb by (unfold_widths; lia).
    assert (negb ((shift =? 28) && (0x0f <? v)) = true) as ->.
    { destruct (Z.eqb_spec shift 28) as [->|]; [|done]. simpl. apply negb_true_iff, Z.ltb_ge. lia. }
    cbn [ensure_data guard_ok].
    rewrite byte_high_bit, (proj2 (Z.ltb_lt _ _)) by (done || lia).
    rewrite read_group32; [|lia|done..|]; rewrite (Z.mod_small v 128) by lia; [|done].
    assert (negb ((1 <? S (length pre) - start)%nat && (v =? 0)) = true) as ->.
    { destruct Hnz as [->|Hnz]; [|by rewrite (proj2 (Z.eqb_neq v 0)), andb_false_r by lia].
      by rewrite (proj2 (Nat.ltb_ge _ _)) by lia. }
    cbn [ensure_data guard_ok length mbind io_result_bind]. f_equal. f_equal. lia.
Qed.

Lemma read_u32_varint_bytes pre post v :
  u32 v →
  read_u32_varint (pre ++ varint_bytes 5 v ++ post) (length pre) =
    Ok (v, (length pre + length (varint_bytes 5 v))%nat).
Proof.
  intros Hv. unfold read_u32_varint. change [0; 7; 14; 21; 28] with (shifts_from 5 0).
  unfold_widths. rewrite read_u32_varint_loop_bytes; try lia.
  by rewrite Z.mul_1_r.
Qed.

(** *** Lengths *)

Lemma significant_bits_le v n : 0 <= v → 0 <= n → significant_bits v <= n ↔ v < 2 ^ n.
Proof.
  intros Hv Hn. unfold significant_bits. destruct (Z.eqb_spec v 0) as [->|].
  - pose proof (pow2_pos n Hn). lia.
  - rewrite (Z.log2_lt_pow2 v n) by lia. lia.
Qed.

Lemma u32_varint_len_le v n : 0 <= v → 1 <= n → u32_varint_len v <= n ↔ v < 2 ^ (7 * n).
Proof.
  intros Hv Hn. rewrite <- significant_bits_le by lia. unfold u32_varint_len.
  pose proof (div_ceil_spec (Z.max (significant_bits v) 1) 7). lia.
Qed.

Lemma varint_bytes_length_le fuel v n :
  (1 ≤ n ≤ fuel)%nat → 0 <= v → v < 2 ^ (7 * Z.of_nat fuel) →
  (length (varint_bytes fuel v) ≤ n)%nat ↔ v < 2 ^ (7 * Z.of_nat n).
Proof.
  revert v n. induction fuel as [|fuel IH]; intros v n Hn Hv Hf; [lia|].
  rewrite varint_bytes_S. destruct (Z.leb_spec 128 v) as [Hge|Hlt]; cbn [length].
  - assert (∀ m : nat, 2 ^ (7 * Z.of_nat (S m)) = 128 * 2 ^ (7 * Z.of_nat m)) as E.
    { intros m. replace (7 * Z.of_nat (S m)) with (7 + 7 * Z.of_nat m) by lia.
      by rewrite Z.pow_add_r by lia. }
    rewrite E in Hf. pose proof (Z.div_mod v 128 ltac:(lia)). pose proof (Z.mod_pos_bound v 128 ltac:(lia)).
    destruct n as [|[|n]]; [lia| |].
    + change (2 ^ (7 * Z.of_nat 1)) with 128. split; [|lia]. intros Hle. exfalso.
      destruct fuel; [simpl in Hf; lia|]. rewrite varint_bytes_S in Hle. destruct (128 <=? v / 128); simpl in Hle; lia.
    + rewrite E. pose proof (IH (v / 128) (S n) ltac:(lia) ltac:(lia) ltac:(lia)) as IH'. lia.
  - split; [intros _|lia]. apply Z.lt_le_trans with (2 ^ 7); [done|]. apply Z.pow_le_mono_r; lia.
Qed.

Lemma u32_varint_len_eq v : u32 v → u32_varint_len v = zlen (varint_bytes 5 v).
Proof.
  unfold_widths. intros Hv.
  assert (∀ n : nat, (1 ≤ n ≤ 5)%nat → u32_varint_len v <= Z.of_nat n ↔ zlen (varint_bytes 5 v) <= Z.of_nat n) as H.
  { intros n Hn. rewrite u32_varint_len_le by lia. unfold zlen. rewrite <- Nat2Z.inj_le.
    rewrite varint_bytes_length_le; [done|lia|lia|simpl; lia]. }
  assert (1 <= u32_varint_len v).
  { unfold u32_varint_len. pose proof (div_ceil_spec (Z.max (significant_bits v) 1) 7). lia. }
  assert (1 <= zlen (varint_bytes 5 v)).
  { unfold zlen. rewrite varint_bytes_S. destruct (128 <=? v); simpl length; lia. }
  pose proof (H 1%nat ltac:(lia)). pose proof (H 2%nat ltac:(lia)). pose proof (H 3%nat ltac:(lia)).
  pose proof (H 4%nat ltac:(lia)). pose proof (H 5%nat ltac:(lia)).
  assert (u32_varint_len v <= 5) by (apply u32_varint_len_le; simpl; lia). lia.
Qed.

(** *** The whole list *)

(** What the delta encoding of a list contributes after [previous]. *)
Fixpoint delta_list_bytes (previous : Z) (neighbors : list Z) : list Z :=
  match neighbors with
  | [] => []
  | neighbor :: neighbors =>
      varint_bytes 5 (neighbor - previous) ++ delta_list_bytes neighbor neighbors
  end.

(** Neighbour lists as the format wants them: [u32] and strictly increasing. *)
Definition neighbors_ok (neighbors : list Z) : Prop := Forall u32 neighbors ∧ Sorted Z.lt neighbors.

Lemma encode_deltas_eq encoded previous neighbors :
  Sorted Z.le (previous :: neighbors) → encode_deltas encoded previous neighbors = encoded ++ delta_list_bytes previous neighbors.
Proof.
  revert encoded previous. induction neighbors as [|n neighbors IH]; intros encoded previous Hs; simpl.
  - by rewrite app_nil_r.
  - apply Sorted_inv in Hs as [Hs Hd]. inversion Hd; subst.
    rewrite append_u32_varint_eq, IH, app_assoc by (done || lia). done.
Qed.

Lemma decode_deltas_bytes pre post previous neighbors :
  0 <= previous → Forall u32 neighbors → Sorted Z.le (previous :: neighbors) →
  decode_deltas (length neighbors) (pre ++ delta_list_bytes previous neighbors ++ post) (length pre) previous =
    Ok (neighbors, length (pre ++ delta_list_bytes previous neighbors)).
Proof.
  revert pre previous. induction neighbors as [|n neighbors IH]; intros pre previous Hp Hu Hs.
  - simpl. by rewrite app_nil_r.
  - apply Sorted_inv in Hs as [Hs Hd]. inversion Hd; subst. inversion Hu as [|?? Hn Hu']; subst.
    cbn [delta_list_bytes length decode_deltas].
    rewrite <- app_assoc, read_u32_varint_bytes by (unfold_widths; lia). cbn [mbind io_result_bind].
    unfold checked_add. replace (previous + (n - previous)) with n by lia.
    rewrite (proj2 (Z.ltb_lt _ _)) by apply Hn. cbn [or_data ok_or mbind io_result_bind].
    rewrite (app_assoc pre), <- length_app, IH by (done || unfold_widths; lia).
    cbn [mbind io_result_bind]. by rewrite <- app_assoc.
Qed.

Lemma delta_len_loop_eq index previous len neighbors :
  0 <= previous → Forall u32 neighbors →
  (if Nat.eqb index 0 then Sorted Z.lt neighbors ∧ previous = 0 else Sorted Z.lt (previous :: neighbors)) →
  len + 5 * zlen neighbors < 2 ^ 64 →
  adjacency_delta_varint_len_loop index previous len neighbors =
    Some (len + zlen (delta_list_bytes previous neighbors)).
Proof.
  revert index previous len. induction neighbors as [|n neighbors IH]; intros index previous len Hp Hu Hs Hb;
    cbn [adjacency_delta_varint_len_loop delta_list_bytes].
  - f_equal. unfold zlen. simpl. lia.
  - inversion Hu as [|?? Hn Hu']; subst.
    assert (previous <= n ∧ Sorted Z.lt (n :: neighbors) ∧ negb (Nat.eqb index 0) && (n <=? previous) = false) as (Hle & Hs' & ->).
    { destruct (Nat.eqb_spec index 0).
      - destruct Hs as [Hs ->]. split_and!; [unfold_widths; lia|done|done].
      - apply Sorted_inv in Hs as [Hs Hd]. inversion Hd; subst.
        split_and!; [lia|done|]. simpl. apply Z.leb_gt. lia. }
    assert (u32 (n - previous)) as Hd by (unfold_widths; lia).
    rewrite u32_varint_len_eq by done.
    assert (zlen (varint_bytes 5 (n - previous)) <= 5).
    { rewrite <- u32_varint_len_eq by done. assert (2 ^ (7 * 5) = 34359738368) as Epow by done.
      apply u32_varint_len_le; unfold_widths; lia. }
    assert (zlen (n :: neighbors) = 1 + zlen neighbors) as El by (unfold zlen; simpl length; lia).
    unfold checked_add. pose proof (zlen_nonneg neighbors).
    rewrite (proj2 (Z.ltb_lt _ _)) by lia. cbn [mbind option_bind].
    rewrite IH; [|unfold_widths; lia|done|done|lia]. f_equal. rewrite zlen_app. lia.
Qed.

Lemma delta_len_eq neighbors :
  neighbors_ok neighbors → 5 * zlen neighbors < 2 ^ 64 →
  adjacency_delta_varint_len neighbors = Some (zlen (delta_list_bytes 0 neighbors)).
Proof.
  intros [Hu Hs] Hb. unfold adjacency_delta_varint_len. by rewrite delta_len_loop_eq.
Qed.

Lemma delta_len_loop_not_sorted index previous len neighbors out :
  Forall u32 neighbors → adjacency_delta_varint_len_loop index previous len neighbors = Some out →
  if Nat.eqb index 0 then Sorted Z.lt neighbors else Sorted Z.lt (previous :: neighbors).
Proof.
  revert index previous len. induction neighbors as [|n neighbors IH]; intros index previous len Hu H; simpl in H.
  - destruct (Nat.eqb index 0); repeat constructor.
  - inversion Hu as [|?? Hn Hu']; subst.
    destruct (negb (Nat.eqb index 0) && (n <=? previous)) eqn:E; [done|].
    apply bind_Some in H as (len' & _ & H). apply IH in H; [|done]. simpl in H.
    destruct (Nat.eqb index 0); [done|]. constructor; [done|]. constructor. simpl in E. lia.
Qed.

Lemma sorted_lt_le l : Sorted Z.lt l → Sorted Z.le l.
Proof. induction 1 as [|x l Hs IH Hd]; constructor; [done|]. destruct Hd; constructor; lia. Qed.

Lemma neighbors_sorted_from_0 neighbors : neighbors_ok neighbors → Sorted Z.le (0 :: neighbors).
Proof.
  intros [Hu Hs]. constructor; [by apply sorted_lt_le|]. destruct Hu as [|n l Hn]; constructor. apply Hn.
Qed.

Lemma delta_list_bytes_ok previous neighbors : Sorted Z.le (previous :: neighbors) → bytes_ok (delta_list_bytes previous neighbors).
Proof.
  revert previous. induction neighbors as [|n neighbors IH]; intros previous Hs; simpl; [constructor|].
  apply Sorted_inv in Hs as [Hs Hd]. inversion Hd; subst.
  apply Forall_app. split; [apply varint_bytes_ok; lia|by apply IH].
Qed.

Lemma concat_le_bytes_length n (l : list Z) : length (concat (le_bytes n <$> l)) = (length l * n)%nat.
Proof.
  induction l as [|x l IH]; [done|]. cbn [fmap list_fmap concat length]. rewrite length_app, le_bytes_length, IH. lia.
Qed.
Lemma concat_le_bytes_ok n (l : list Z) : bytes_ok (concat (le_bytes n <$> l)).
Proof. induction l as [|x l IH]; [constructor|]. apply Forall_app. split; [apply le_bytes_ok|done]. Qed.

Lemma decode_raw neighbors rest :
  Forall u32 neighbors → 4 * zlen neighbors < 2 ^ 63 →
  decode_adjacency_list (concat (le_bytes 4 <$> neighbors) ++ rest) (length neighbors) RawU32 =
    Ok (neighbors, length (concat (le_bytes 4 <$> neighbors))).
Proof.
  intros Hu Hlen. unfold decode_adjacency_list, checked_mul. fold (zlen neighbors).
  rewrite (proj2 (Z.ltb_lt _ _)) by lia. cbn [or_data ok_or mbind io_result_bind].
  assert (Z.to_nat (zlen neighbors * 4) = length (concat (le_bytes 4 <$> neighbors))) as ->.
  { rewrite concat_le_bytes_length. unfold zlen. lia. }
  unfold get_slice. rewrite decide_True by (rewrite length_app; lia). cbn [or_data ok_or mbind io_result_bind].
  rewrite slice_app_head by done. f_equal. f_equal. rewrite chunks_exact_concat; [|lia|].
  - rewrite <- list_fmap_compose. clear Hlen. induction Hu as [|v l Hv Hu IH]; [done|].
    rewrite fmap_cons, IH. f_equal. by apply le_val_u32.
  - rewrite Forall_fmap. apply Forall_true. intros. apply le_bytes_length.
Qed.

(** *** Canonical varints *)

Lemma read_u32_varint_loop_canonical n bytes start pos acc shift v pos' :
  bytes_ok bytes → shift = 7 * (5 - Z.of_nat n) → (n ≤ 5)%nat → (start ≤ pos)%nat → 0 <= acc < 2 ^ shift →
  read_u32_varint_loop (shifts_from n shift) bytes start pos acc = Ok (v, pos') →
  ∃ q, v = acc + q * 2 ^ shift ∧ 0 <= q ∧ q * 2 ^ shift < 2 ^ 32 ∧ ((start < pos)%nat → 0 < q) ∧
    (pos < pos' ≤ length bytes)%nat ∧ slice pos (pos' - pos) bytes = varint_bytes n q.
Proof.
  intros Hbs. revert pos acc shift. induction n as [|n IH]; intros pos acc shift Hs Hn Hst Hacc H; simpl in H; [done|].
  inv_ok. rename x into b.
  match goal with H : bytes !! pos = Some b |- _ => apply lookup_lt_Some in H as Hlt; rename H into Hb end.
  assert (u8 b) as Hb8 by (eapply Forall_lookup_1; eauto).
  pose proof (Z.mod_pos_bound b 128 ltac:(lia)). pose proof (pow2_pos shift ltac:(lia)) as HP.
  assert (2 ^ 32 = 2 ^ shift * 2 ^ (32 - shift)) as E32 by (rewrite <- Z.pow_add_r by lia; f_equal; lia).
  assert (shift = 28 → b <= 15) as Hlast.
  { intros ->. rewrite Z.eqb_refl in *. simpl in *. lia. }
  assert ((b mod 128) * 2 ^ shift < 2 ^ 32) as Hlt32.
  { destruct (decide (shift = 28)) as [->|].
    { specialize (Hlast eq_refl). rewrite Z.mod_small by (unfold_widths; lia). unfold_widths. lia. }
    assert (2 ^ shift <= 2 ^ 21) by (apply Z.pow_le_mono_r; lia). change (2 ^ 32) with (2048 * 2 ^ 21). nia. }
  rewrite read_group32 in H by (done || lia). rewrite byte_high_bit in H by done.
  destruct (Z.ltb_spec b 128).
  - inv_ok. rewrite (Z.mod_small b 128) in * by (unfold_widths; lia). exists b.
    split_and!; [done|unfold_widths; lia|done| |lia..|].
    + intros Hst'. match goal with E : negb (_ && (b =? 0)) = true |- _ => revert E end.
      rewrite (proj2 (Nat.ltb_lt 1 _)) by lia. simpl. unfold_widths. lia.
    + replace (S pos - pos)%nat with 1%nat by lia. rewrite varint_bytes_S, (proj2 (Z.leb_gt _ _)) by lia.
      unfold slice. by rewrite (drop_S _ b) by done.
  - assert (2 ^ (shift + 7) = 2 ^ shift * 128) as EP by (rewrite Z.pow_add_r by lia; done).
    apply IH in H as (q & -> & Hq0 & Hq & Hq1 & Hpos & Hsl); [|lia|lia|lia|nia].
    assert (0 < q) by (apply Hq1; lia). rewrite EP in *.
    assert (shift <> 28) as Hn28 by (intros E; specialize (Hlast E); lia).
    assert (2 ^ (32 - shift) = 128 * 2 ^ (25 - shift)) as E25.
    { change 128 with (2 ^ 7). rewrite <- Z.pow_add_r by lia. f_equal. lia. }
    assert (b = b mod 128 + 128) as Eb.
    { symmetry. pose proof (Z.div_mod b 128 ltac:(lia)). unfold_widths. lia. }
    exists (b mod 128 + 128 * q). split_and!; [lia|lia| |lia|lia|lia|].
    + assert (q < 2 ^ (25 - shift)) by nia. nia.
    + rewrite varint_bytes_S, (proj2 (Z.leb_le _ _)) by lia.
      replace ((b mod 128 + 128 * q) mod 128) with (b mod 128)
        by (rewrite Z.mul_comm, Z_mod_plus_full; by rewrite Zmod_mod).
      replace ((b mod 128 + 128 * q) / 128) with q
        by (rewrite Z.mul_comm, Z.div_add, Z.div_small by lia; lia).
      rewrite <- Eb, <- Hsl. unfold slice. replace (pos' - pos)%nat with (S (pos' - S pos)) by lia.
      by rewrite (drop_S _ b) by done.
Qed.

Lemma read_u32_varint_canonical bytes pos v pos' :
  bytes_ok bytes → read_u32_varint bytes pos = Ok (v, pos') →
  u32 v ∧ (pos < pos' ≤ length bytes)%nat ∧ slice pos (pos' - pos) bytes = varint_bytes 5 v.
Proof.
  intros Hb H. unfold read_u32_varint in H. change [0; 7; 14; 21; 28] with (shifts_from 5 0) in H.
  apply read_u32_varint_loop_canonical in H as (q & -> & ? & ? & _ & ? & Hsl); [|done|lia|lia|lia|simpl; lia].
  rewrite Z.mul_1_r, Z.add_0_l in *. split_and!; [|lia..|done]. unfold_widths. lia.
Qed.

Lemma slice_join {A} (l : list A) a b c : (a ≤ b ≤ c)%nat → (c ≤ length l)%nat →
  slice a (b - a) l ++ slice b (c - b) l = slice a (c - a) l.
Proof.
  intros Hab Hc. unfold slice. replace (drop b l) with (drop (b - a) (drop a l)).
  - rewrite take_take_drop. f_equal. lia.
  - rewrite drop_drop. f_equal. lia.
Qed.

Lemma decode_deltas_canonical degree bytes pos previous neighbors pos' :
  bytes_ok bytes → 0 <= previous → (pos ≤ length bytes)%nat →
  decode_deltas degree bytes pos previous = Ok (neighbors, pos') →
  length neighbors = degree ∧ (pos ≤ pos' ≤ length bytes)%nat ∧ Forall u32 neighbors ∧
  Sorted Z.le (previous :: neighbors) ∧ slice pos (pos' - pos) bytes = delta_list_bytes previous neighbors.
Proof.
  intros Hb. revert pos previous neighbors pos'.
  induction degree as [|degree IH]; simpl; intros pos previous neighbors pos' Hp Hpl H.
  - inv_ok. rewrite Nat.sub_diag. split_and!; first [done|lia|repeat constructor].
  - inv_ok. destruct x as [delta p1]. inv_ok. destruct x0 as [ns p2]. inv_ok.
    match goal with H : read_u32_varint _ _ = _ |- _ => apply read_u32_varint_canonical in H as (Hd & Hp1 & Hs1); [|done] end.
    match goal with H : decode_deltas _ _ _ _ = _ |- _ =>
      apply IH in H as (? & Hp2 & Hu & Hs & Hs2); [|unfold_widths; lia|lia] end.
    split_and!; [simpl; lia|lia|lia| | |].
    + constructor; [unfold_widths; lia|done].
    + constructor; [done|]. constructor. unfold_widths. lia.
    + cbn [delta_list_bytes]. replace (previous + delta - previous) with delta by lia.
      rewrite <- Hs1, <- Hs2. symmetry. apply slice_join; lia.
Qed.

(** ** Locators *)

Record AdjacencyLocator := Locator {
  page_index : Z;
  byte_offset : Z;
  degree_and_flags : Z;
}.

Definition locator_new (page_index byte_offset degree : Z) (encoding : AdjacencyListEncoding) :
    io_result AdjacencyLocator :=
  degree ← or_input (try_from 16 degree) "DiskANN adjacency degree exceeds u16";
  _ ← ensure_input (degree <=? ADJACENCY_DEGREE_MASK) "DiskANN adjacency degree exceeds locator capacity";
  let encoding_flag := match encoding with DeltaVarint => 0 | RawU32 => ADJACENCY_RAW_U32_FLAG end in
  Ok (Locator page_index byte_offset (Z.lor degree encoding_flag)).

Definition degree (l : AdjacencyLocator) : Z := Z.land (degree_and_flags l) ADJACENCY_DEGREE_MASK.
Definition encoding (l : AdjacencyLocator) : AdjacencyListEncoding :=
  if Z.land (degree_and_flags l) ADJACENCY_RAW_U32_FLAG =? 0 then DeltaVarint else RawU32.

Definition adjacency_locator_absolute_offset (l : AdjacencyLocator) : io_result Z :=
  or_data (offset ← checked_mul 64 (page_index l) DISKANN_PAGE_SIZE; checked_add 64 offset (byte_offset l))
    "DiskANN adjacency locator offset overflows".

Definition adjacency_index_serialized_len (vector_count : Z) : io_result Z :=
  let block_count := div_ceil vector_count (Z.of_nat ADJACENCY_LOCATOR_BLOCK_NODES) in
  block_bytes ← or_input (checked_mul 64 block_count ADJACENCY_LOCATOR_BLOCK_BASE_SIZE)
    "DiskANN adjacency block-offset size overflows usize";
  locator_bytes ← or_input (checked_mul 64 vector_count ADJACENCY_LOCATOR_SIZE)
    "DiskANN adjacency locator size overflows usize";
  or_input (checked_add 64 block_bytes locator_bytes) "DiskANN adjacency index size overflows usize".

(** The resident index: one absolute offset per block of sixteen nodes, and per
    node a [u16] offset relative to its block. *)
Record AdjacencyIndex := Index {
  block_offsets : list Z;
  relative_offsets : list Z;
  index_degree_and_flags : list Z;
}.

Definition index_len (ix : AdjacencyIndex) : nat := length (relative_offsets ix).
Definition locator (ix : AdjacencyIndex) (node : nat) : option AdjacencyLocator :=
  relative_offset ← relative_offsets ix !! node;
  degree_and_flags ← index_degree_and_flags ix !! node;
  block_offset ← block_offsets ix !! (node / ADJACENCY_LOCATOR_BLOCK_NODES)%nat;
  absolute_offset ← checked_add 64 block_offset relative_offset;
  page_index ← try_from 32 (absolute_offset / DISKANN_PAGE_SIZE);
  byte_offset ← try_from 16 (absolute_offset mod DISKANN_PAGE_SIZE);
  Some (Locator page_index byte_offset degree_and_flags).

(** Binary search for the first node whose locator fails the predicate; the
    interval halves, so [len] rounds are more than enough. *)
Fixpoint partition_point_loop (fuel : nat) (ix : AdjacencyIndex) (predicate : AdjacencyLocator → bool)
    (left right : nat) : io_result nat :=
  match fuel with
  | O => Ok left
  | S fuel =>
      if (left <? right)%nat then
        let middle := (left + (right - left) / 2)%nat in
        l ← expect (locator ix middle);
        if predicate l then partition_point_loop fuel ix predicate (S middle) right
        else partition_point_loop fuel ix predicate left middle
      else Ok left
  end.
Definition partition_point (ix : AdjacencyIndex) (predicate : AdjacencyLocator → bool) : io_result nat :=
  partition_point_loop (S (index_len ix)) ix predicate 0 (index_len ix).

Lemma degree_mask : ADJACENCY_DEGREE_MASK = 2 ^ 15 - 1.
Proof. done. Qed.

Lemma locator_new_spec p o d e l :
  0 <= d → locator_new p o d e = Ok l →
  page_index l = p ∧ byte_offset l = o ∧ degree l = d ∧ encoding l = e ∧ u16 (degree_and_flags l) ∧ d < 2 ^ 15.
Proof.
  intros Hd H. unfold locator_new in H. inv_ok. simpl. rewrite degree_mask in *.
  unfold degree, encoding. simpl. rewrite degree_mask.
  assert (0 <= d < 2 ^ 15) as Hd15 by lia.
  assert (Z.lor d (match e with DeltaVarint => 0 | RawU32 => ADJACENCY_RAW_U32_FLAG end) =
    d + (match e with DeltaVarint => 0 | RawU32 => 1 end) * 2 ^ 15) as ->.
  { destruct e; [rewrite Z.lor_0_r; lia|]. apply (lor_shiftl_add d 1 15); lia. }
  split_and!; try done.
  - rewrite land_ones_mod by lia. rewrite Z_mod_plus_full. by apply Z.mod_small.
  - change ADJACENCY_RAW_U32_FLAG with (2 ^ 15). rewrite land_pow2, testbit_div by lia.
    rewrite Z.div_add, Z.div_small by lia. by destruct e.
  - destruct e; unfold_widths; lia.
  - apply Hd15.
Qed.

Lemma partition_point_loop_spec fuel ix predicate left right n :
  (right - left < fuel)%nat → (left ≤ right)%nat →
  (∀ i j li lj, (i ≤ j)%nat → locator ix i = Some li → locator ix j = Some lj →
     predicate lj = true → predicate li = true) →
  (∀ i l, (i < left)%nat → locator ix i = Some l → predicate l = true) →
  (∀ i l, (right ≤ i)%nat → locator ix i = Some l → predicate l = false) →
  partition_point_loop fuel ix predicate left right = Ok n →
  ∀ i l, locator ix i = Some l → predicate l = true ↔ (i < n)%nat.
Proof.
  revert left right. induction fuel as [|fuel IH]; intros left right Hf Hle Hmono Hl Hr H; [lia|].
  cbn [partition_point_loop] in H. destruct (Nat.ltb_spec left right) as [Hlt|Hge].
  - pose proof (Nat.div_mod_eq (right - left) 2). pose proof (Nat.mod_upper_bound (right - left) 2).
    set (m := (left + (right - left) / 2)%nat) in *. inv_ok.
    match goal with E : locator ix m = Some _ |- _ => rename E into Em end.
    destruct (predicate x) eqn:Ep.
    + apply (IH (S m) right); [unfold m; lia|unfold m; lia|done| |done|done].
      intros i l Hi Hil. eapply Hmono; [|done|exact Em|done]. lia.
    + apply (IH left m); [unfold m; lia|unfold m; lia|done|done| |done].
      intros i l Hi Hil. destruct (predicate l) eqn:El; [|done].
      rewrite (Hmono m i x l Hi Em Hil El) in Ep. done.
  - inv_ok. intros i l Hil. split.
    + intros Hp. destruct (decide (i < n)%nat) as [|Hni]; [done|].
      rewrite (Hr i l) in Hp by (done || lia). done.
    + intros Hi. by apply (Hl i).
Qed.

(** ** Properties *)

Lemma encode_adjacency_list_spec neighbors :
  neighbors_ok neighbors → 5 * zlen neighbors < 2 ^ 63 →
  ∃ enc bytes,
    encode_adjacency_list neighbors = Ok (enc, bytes) ∧ plan_adjacency_list neighbors = Ok (enc, zlen bytes) ∧
    zlen bytes <= 4 * zlen neighbors ∧
    match enc with
    | DeltaVarint => bytes = delta_list_bytes 0 neighbors
    | RawU32 => bytes = concat (le_bytes 4 <$> neighbors)
    end.
Proof.
  intros Hok Hlen. pose proof (zlen_nonneg neighbors).
  assert (zlen (concat (le_bytes 4 <$> neighbors)) = zlen neighbors * 4) as Eraw.
  { unfold zlen. rewrite concat_le_bytes_length. lia. }
  unfold encode_adjacency_list, plan_adjacency_list, checked_mul.
  rewrite (proj2 (Z.ltb_lt _ _)), delta_len_eq by (done || lia). cbn [or_input ok_or mbind io_result_bind].
  rewrite encode_deltas_eq by by apply neighbors_sorted_from_0.
  destruct (_ || _) eqn:E; eexists _, _; (split_and!; [reflexivity|by rewrite ?Eraw| |reflexivity]); [|lia].
  apply orb_true_iff in E as [E|E]; [by destruct neighbors|]. rewrite app_nil_l. lia.
Qed.

(** Every strictly increasing list of [u32] neighbours has an adaptive
    encoding; it consists of bytes, is exactly as long as the planner announced,
    never takes more than four bytes per neighbour, and decoding it with the
    degree and the encoding the planner chose, whatever bytes follow, gives back
    the list and consumes exactly the encoding. *)
Theorem adjacency_list_roundtrip (neighbors rest : list Z) :
  neighbors_ok neighbors → 5 * zlen neighbors < 2 ^ 63 →
  ∃ enc bytes,
    encode_adjacency_list neighbors = Ok (enc, bytes) ∧
    plan_adjacency_list neighbors = Ok (enc, zlen bytes) ∧
    bytes_ok bytes ∧ zlen bytes <= 4 * zlen neighbors ∧
    decode_adjacency_list (bytes ++ rest) (length neighbors) enc = Ok (neighbors, length bytes).
Proof.
  intros Hok Hlen. destruct (encode_adjacency_list_spec neighbors Hok Hlen) as (enc & bytes & He & Hp & Hl & Hb).
  pose proof (neighbors_sorted_from_0 _ Hok) as Hs. exists enc, bytes. split; [done|]. split; [done|]. split; [|split; [done|]].
  - destruct enc; subst; [by apply delta_list_bytes_ok|apply concat_le_bytes_ok].
  - destruct enc; subst.
    + apply (decode_deltas_bytes [] rest 0 neighbors); [lia|apply Hok|done].
    + apply decode_raw; [apply Hok|lia].
Qed.

Lemma adjacency_list_roundtrip_witness :
  ∃ enc bytes,
    encode_adjacency_list [3; 200; 4294967295] = Ok (enc, bytes) ∧
    plan_adjacency_list [3; 200; 4294967295] = Ok (enc, zlen bytes) ∧
    bytes_ok bytes ∧ zlen bytes <= 4 * zlen [3; 200; 4294967295] ∧
    decode_adjacency_list (bytes ++ [7]) (length [3; 200; 4294967295]) enc = Ok ([3; 200; 4294967295], length bytes).
Proof.
  apply (adjacency_list_roundtrip [3; 200; 4294967295] [7]); [|done].
  split; [repeat constructor; unfold_widths; lia|repeat constructor; lia].
Defined.

(** A list that is not strictly increasing is refused with
    [InvalidInput] by the planner and by the encoder. *)
Theorem adjacency_list_unsorted_rejected (neighbors : list Z) :
  Forall u32 neighbors → 4 * zlen neighbors < 2 ^ 64 → ¬ Sorted Z.lt neighbors →
  plan_adjacency_list neighbors = invalid_input "DiskANN adjacency neighbors must be strictly increasing" ∧
  encode_adjacency_list neighbors = invalid_input "DiskANN adjacency neighbors must be strictly increasing".
Proof.
  intros Hu Hlen Hns.
  assert (plan_adjacency_list neighbors = invalid_input "DiskANN adjacency neighbors must be strictly increasing") as E.
  { unfold plan_adjacency_list, checked_mul. rewrite (proj2 (Z.ltb_lt _ _)) by lia. cbn [or_input ok_or mbind io_result_bind].
    unfold adjacency_delta_varint_len. destruct (adjacency_delta_varint_len_loop 0 0 0 neighbors) eqn:E; [|done].
    by apply delta_len_loop_not_sorted in E. }
  split; [done|]. unfold encode_adjacency_list. by rewrite E.
Qed.

Lemma adjacency_list_unsorted_rejected_witness :
  plan_adjacency_list [4; 4] = invalid_input "DiskANN adjacency neighbors must be strictly increasing" ∧
  encode_adjacency_list [4; 4] = invalid_input "DiskANN adjacency neighbors must be strictly increasing".
Proof.
  apply (adjacency_list_unsorted_rejected [4; 4]); [repeat constructor; unfold_widths; lia|done|].
  intros Hs. inversion Hs as [|?? _ Hd]; subst. inversion Hd; subst. lia.
Defined.

(** Delta encodings are canonical: whenever the decoder accepts bytes,
    the neighbours are [degree] many [u32] values in increasing order, and the
    bytes it consumed are the one and only delta encoding of them, so no two
    byte strings decode to the same list. *)
Theorem decode_adjacency_list_canonical (bytes neighbors : list Z) (degree consumed : nat) :
  bytes_ok bytes → decode_adjacency_list bytes degree DeltaVarint = Ok (neighbors, consumed) →
  length neighbors = degree ∧ (consumed ≤ length bytes)%nat ∧ Forall u32 neighbors ∧
  Sorted Z.le neighbors ∧ take consumed bytes = encode_deltas [] 0 neighbors.
Proof.
  intros Hb H. apply decode_deltas_canonical in H as (? & ? & ? & Hs & Hsl); [|done|lia|lia].
  split_and!; [done|lia|done|by apply Sorted_inv in Hs as [? _]|].
  rewrite encode_deltas_eq, <- Hsl by done. unfold slice. by rewrite drop_0, Nat.sub_0_r.
Qed.

Lemma decode_adjacency_list_canonical_witness :
  length [3; 200] = 2%nat ∧ (3 ≤ length [3; 197; 1; 9])%nat ∧ Forall u32 [3; 200] ∧
  Sorted Z.le [3; 200] ∧ take 3 [3; 197; 1; 9] = encode_deltas [] 0 [3; 200].
Proof.
  apply (decode_adjacency_list_canonical [3; 197; 1; 9] [3; 200] 2 3); [|vm_compute; reflexivity].
  repeat constructor; unfold_widths; lia.
Defined.
