(* ===== verification/OffsetLru.v ===== *)
(** The recency list of the window caches: [OffsetLru] of [core/src/diskann_io.rs].

    A doubly linked list kept in a hash map.  Every [expect] of the code is a
    [Panic] of the model; the refinement shows that none is reached and that
    the operations are those of a list ordered from oldest to newest. *)

From S2P Require Import Prelude.

Record OffsetLruLink := Link { older : option Z; newer : option Z }.

Record OffsetLru := Lru {
  links : gmap Z OffsetLruLink;
  oldest : option Z;
  newest : option Z;
}.

Definition lru_default : OffsetLru := Lru ∅ None None.

(** [self.links.get_mut(&key).expect(..).newer = value] and its mirror image. *)
Definition set_newer (key : Z) (value : option Z) (links : gmap Z OffsetLruLink) :
    io_result (gmap Z OffsetLruLink) :=
  link ← expect (links !! key); Ok (<[key := Link (older link) value]> links).
Definition set_older (key : Z) (value : option Z) (links : gmap Z OffsetLruLink) :
    io_result (gmap Z OffsetLruLink) :=
  link ← expect (links !! key); Ok (<[key := Link value (newer link)]> links).

Definition detach (offset : Z) (lru : OffsetLru) : io_result OffsetLru :=
  link ← expect (links lru !! offset);
  lru ← match older link with
        | Some o => links' ← set_newer o (newer link) (links lru); Ok (Lru links' (oldest lru) (newest lru))
        | None => Ok (Lru (links lru) (newer link) (newest lru))
        end;
  match newer link with
  | Some n => links' ← set_older n (older link) (links lru); Ok (Lru links' (oldest lru) (newest lru))
  | None => Ok (Lru (links lru) (oldest lru) (older link))
  end.

Definition touch (offset : Z) (lru : OffsetLru) : io_result OffsetLru :=
  if bool_decide (newest lru = Some offset) then Ok lru else
  lru ← match links lru !! offset with
        | Some _ => detach offset lru
        | None => Ok (Lru (<[offset := Link None None]> (links lru)) (oldest lru) (newest lru))
        end;
  let older := newest lru in
  lru ← match older with
        | Some o => links' ← set_newer o (Some offset) (links lru); Ok (Lru links' (oldest lru) (newest lru))
        | None => Ok (Lru (links lru) (Some offset) (newest lru))
        end;
  _ ← expect (links lru !! offset);
  Ok (Lru (<[offset := Link older None]> (links lru)) (oldest lru) (Some offset)).

Definition remove (offset : Z) (lru : OffsetLru) : io_result OffsetLru :=
  match links lru !! offset with
  | Some _ =>
      lru ← detach offset lru;
      Ok (Lru (delete offset (links lru)) (oldest lru) (newest lru))
  | None => Ok lru
  end.

Definition pop_oldest (lru : OffsetLru) : io_result (option Z * OffsetLru) :=
  match oldest lru with
  | None => Ok (None, lru)
  | Some offset => lru ← remove offset lru; Ok (Some offset, lru)
  end.

Definition clear (lru : OffsetLru) : OffsetLru := Lru ∅ None None.

(** ** Abstraction to a list, oldest first *)

Definition orelse {A} (a b : option A) : option A := match a with Some x => Some x | None => b end.

(** The link of [x] in the list [l] that follows [o] and precedes [n]. *)
Fixpoint link_at (o : option Z) (l : list Z) (n : option Z) (x : Z) : option OffsetLruLink :=
  match l with
  | [] => None
  | y :: l => if decide (x = y) then Some (Link o (orelse (head l) n)) else link_at (Some y) l n x
  end.

Definition lru_rep (lru : OffsetLru) (l : list Z) : Prop :=
  NoDup l ∧ oldest lru = head l ∧ newest lru = last l ∧ ∀ x, links lru !! x = link_at None l None x.

(** What the operations do to the list. *)
Definition without (x : Z) (l : list Z) : list Z := filter (λ y, y ≠ x) l.

Lemma link_at_app o l1 l2 n x :
  link_at o (l1 ++ l2) n x =
    orelse (link_at o l1 (orelse (head l2) n) x) (link_at (orelse (last l1) o) l2 n x).
Proof.
  revert o. induction l1 as [|y l1 IH]; intros o; [done|]. cbn [app link_at]. case_decide; subst.
  - simpl. do 2 f_equal. by destruct l1.
  - rewrite IH. f_equal. destruct l1 as [|z l1]; [done|].
    rewrite last_cons_cons. by destruct (last (z :: l1)) eqn:E; [|apply last_None in E].
Qed.

Lemma link_at_None o l n x : link_at o l n x = None ↔ x ∉ l.
Proof.
  revert o. induction l as [|y l IH]; intros o; simpl; [set_solver|].
  case_decide; subst; [set_solver|]. rewrite IH. set_solver.
Qed.

Lemma link_at_Some o l n x k : link_at o l n x = Some k → x ∈ l.
Proof. intros H. apply dec_stable. rewrite <- (link_at_None o l n). by rewrite H. Qed.

Lemma without_not_in x l : x ∉ l → without x l = l.
Proof.
  unfold without. induction l as [|y l IH]; intros Hx; [done|].
  rewrite filter_cons_True by set_solver. f_equal. set_solver.
Qed.

Lemma without_middle x l1 l2 : NoDup (l1 ++ x :: l2) → without x (l1 ++ x :: l2) = l1 ++ l2.
Proof.
  intros (_ & Hd & [? _]%NoDup_cons)%NoDup_app. unfold without.
  rewrite filter_app, filter_cons_False by naive_solver.
  f_equal; apply without_not_in; set_solver.
Qed.

Lemma NoDup_without x l : NoDup l → NoDup (without x l).
Proof. apply NoDup_filter. Qed.

Lemma elem_of_without x y l : y ∈ without x l ↔ y ∈ l ∧ y ≠ x.
Proof. unfold without. rewrite list_elem_of_filter. tauto. Qed.

(** The two ends of a list, for case analysis on a neighbour. *)
Lemma list_snoc_cases {A} (l : list A) : l = [] ∨ ∃ l' z, l = l' ++ [z].
Proof. destruct l as [|z l _] using rev_ind; [by left|right; by exists l, z]. Qed.

Lemma orelse_None {A} (a : option A) : orelse a None = a.
Proof. by destruct a. Qed.

Lemma link_at_middle o l1 x l2 n y :
  NoDup (l1 ++ x :: l2) →
  link_at o (l1 ++ x :: l2) n y =
    if decide (y = x) then Some (Link (orelse (last l1) o) (orelse (head l2) n))
    else orelse (link_at o l1 (Some x) y) (link_at (Some x) l2 n y).
Proof.
  intros (_ & Hd & _)%NoDup_app. rewrite link_at_app. cbn [link_at head orelse].
  case_decide; [subst|done]. by rewrite (proj2 (link_at_None o l1 _ x)) by set_solver.
Qed.

(** Moving the boundary of a segment only touches the element next to it. *)
Lemma link_at_snoc_bound o l z n y :
  NoDup (l ++ [z]) →
  link_at o (l ++ [z]) n y =
    if decide (y = z) then Some (Link (orelse (last l) o) n) else link_at o l (Some z) y.
Proof.
  intros. rewrite link_at_middle by done. cbn [head orelse link_at].
  case_decide; [done|]. by destruct (link_at o l (Some z) y).
Qed.

(** The state after unlinking [x] from between [l1] and [l2]. *)
Definition detached (lru lru' : OffsetLru) (x : Z) (l : list Z) : Prop :=
  oldest lru' = head l ∧ newest lru' = last l ∧
  ∀ y, links lru' !! y = if decide (y = x) then links lru !! x else link_at None l None y.

Lemma lru_rep_middle lru l1 x l2 :
  lru_rep lru (l1 ++ x :: l2) → links lru !! x = Some (Link (last l1) (head l2)).
Proof.
  intros (Hnd & _ & _ & Hlinks). rewrite Hlinks, link_at_middle, decide_True by done. by rewrite !orelse_None.
Qed.

Lemma detach_first lru x l2 :
  lru_rep lru (x :: l2) → ∃ lru', detach x lru = Ok lru' ∧ detached lru lru' x l2.
Proof.
  intros Hrep. pose proof (lru_rep_middle lru [] x l2 Hrep) as Hx. destruct Hrep as (Hnd & Hold & Hnew & Hlinks).
  unfold detach, detached. rewrite Hx. cbn [expect mbind io_result_bind older newer].
  simpl last. cbn [mbind io_result_bind links oldest newest app] in *.
  destruct l2 as [|b l2]; cbn [head].
  + eexists. split_and!; [reflexivity|done|done|]. intros y. cbn [links link_at].
    case_decide; [by subst|]. rewrite Hlinks. cbn [link_at]. by case_decide.
  + unfold set_older. rewrite Hlinks. cbn [link_at].
    apply NoDup_cons in Hnd as [Hxn Hnd]. rewrite decide_False, decide_True by set_solver.
    cbn [expect mbind io_result_bind newer]. eexists. split_and!; [reflexivity|done| |].
    { cbn [newest]. by rewrite Hnew, last_cons_cons. }
    intros y. cbn [links]. destruct (decide (y = b)) as [->|Hyb].
    * rewrite lookup_insert_eq. cbn [link_at]. destruct (decide (b = x)); [set_solver|]. by repeat case_decide.
    * rewrite lookup_insert_ne by done. case_decide; subst; [done|]. rewrite Hlinks.
      cbn [link_at]. by rewrite !decide_False.
Qed.

Lemma detach_inner lru l1' a x l2 :
  lru_rep lru ((l1' ++ [a]) ++ x :: l2) →
  ∃ lru', detach x lru = Ok lru' ∧ detached lru lru' x ((l1' ++ [a]) ++ l2).
Proof.
  intros Hrep. pose proof (lru_rep_middle lru _ x l2 Hrep) as Hx. destruct Hrep as (Hnd & Hold & Hnew & Hlinks).
  unfold detach, detached. rewrite Hx. cbn [expect mbind io_result_bind older newer].
  assert (NoDup (l1' ++ [a]) ∧ x ≠ a ∧ x ∉ l1') as (Hnd1 & Hxa & Hx1).
  { apply NoDup_app in Hnd as (? & Hd & _). set_solver. }
  rewrite last_snoc. cbn [mbind io_result_bind links oldest newest] in *. unfold set_newer.
  assert (∀ y, y ≠ x → y ≠ a → links lru !! y = orelse (link_at None l1' (Some a) y) (link_at (Some x) l2 None y)) as Hother.
  { intros y Hyx Hya. rewrite Hlinks, link_at_middle, decide_False by done.
    by rewrite link_at_snoc_bound, decide_False by done. }
  assert (links lru !! a = Some (Link (last l1') (Some x))) as Ha.
  { rewrite Hlinks, link_at_middle, decide_False by done.
    rewrite link_at_snoc_bound, decide_True by done. by rewrite orelse_None. }
  rewrite Ha. cbn [expect mbind io_result_bind older].
  assert (head ((l1' ++ [a]) ++ l2) = head ((l1' ++ [a]) ++ x :: l2)) as Ehead by by destruct l1'.
  destruct l2 as [|b l2]; cbn [head].
  + eexists. split_and!; [reflexivity|by rewrite Hold| |].
    { cbn [newest]. by rewrite app_nil_r, last_snoc. }
    intros y. cbn [links]. rewrite app_nil_r, link_at_snoc_bound, orelse_None by done.
    destruct (decide (y = a)) as [->|Hya].
    * by rewrite lookup_insert_eq, decide_False by done.
    * rewrite lookup_insert_ne by done. destruct (decide (y = x)) as [->|Hyx]; [by rewrite Hx, last_snoc|].
      rewrite Hother by done. cbn [link_at]. by destruct (link_at None l1' (Some a) y).
  + unfold set_older. cbn [links].
    assert (b ≠ a ∧ b ≠ x ∧ b ∉ l1' ++ [a] ∧ b ∉ l1') as (Hba & Hbx & Hb1 & Hb1').
    { apply NoDup_app in Hnd as (_ & Hd & [? _]%NoDup_cons). set_solver. }
    assert (NoDup ((l1' ++ [a]) ++ b :: l2)) as Hnd'.
    { apply NoDup_app in Hnd as (? & Hd & [? ?]%NoDup_cons). apply NoDup_app. set_solver. }
    rewrite lookup_insert_ne, Hother by done.
    rewrite (proj2 (link_at_None None l1' _ b)) by done. cbn [orelse link_at].
    rewrite decide_True by done. cbn [expect mbind io_result_bind newer]. eexists.
    split_and!; [reflexivity|by rewrite Ehead| |].
    { cbn [newest]. by rewrite Hnew, !last_app_cons, last_cons_cons. }
    intros y. cbn [links]. rewrite link_at_middle, last_snoc, orelse_None by done.
    destruct (decide (y = b)) as [->|Hyb]; [by rewrite lookup_insert_eq, decide_False by done|].
    rewrite lookup_insert_ne by done. destruct (decide (y = a)) as [->|Hya].
    * rewrite lookup_insert_eq, decide_False by done. rewrite link_at_snoc_bound, decide_True by done. by rewrite orelse_None.
    * rewrite lookup_insert_ne by done. destruct (decide (y = x)) as [->|Hyx]; [by rewrite Hx, last_snoc|]. rewrite Hother by done.
      rewrite link_at_snoc_bound, decide_False by done. cbn [link_at]. by rewrite decide_False.
Qed.

Lemma detach_rep lru l1 x l2 :
  lru_rep lru (l1 ++ x :: l2) → ∃ lru', detach x lru = Ok lru' ∧ detached lru lru' x (l1 ++ l2).
Proof.
  destruct (list_snoc_cases l1) as [->|(l1' & a & ->)]; [apply detach_first|apply detach_inner].
Qed.

(** ** The operations on the list *)

Lemma lru_rep_elem lru l x : lru_rep lru l → links lru !! x = None ↔ x ∉ l.
Proof. intros (_ & _ & _ & Hl). rewrite Hl. apply link_at_None. Qed.

Lemma lru_rep_split lru l x k :
  lru_rep lru l → links lru !! x = Some k → ∃ l1 l2, l = l1 ++ x :: l2 ∧ without x l = l1 ++ l2.
Proof.
  intros (Hnd & _ & _ & Hl) Hx. rewrite Hl in Hx. apply link_at_Some, list_elem_of_split in Hx as (l1 & l2 & ->).
  exists l1, l2. split; [done|]. by apply without_middle.
Qed.

Lemma remove_rep lru l x : lru_rep lru l → ∃ lru', remove x lru = Ok lru' ∧ lru_rep lru' (without x l).
Proof.
  intros Hrep. unfold remove. destruct (links lru !! x) as [k|] eqn:Hx.
  - destruct (lru_rep_split _ _ _ _ Hrep Hx) as (l1 & l2 & -> & ->).
    destruct (detach_rep _ _ _ _ Hrep) as (lru' & -> & Hold & Hnew & Hl). cbn [mbind io_result_bind].
    eexists. split; [reflexivity|]. destruct Hrep as (Hnd & _).
    assert (NoDup (l1 ++ l2) ∧ x ∉ l1 ++ l2) as [? ?].
    { apply NoDup_app in Hnd as (? & ? & [? ?]%NoDup_cons). rewrite NoDup_app. set_solver. }
    split_and!; [done..|]. intros y. cbn [links]. destruct (decide (y = x)) as [->|].
    + rewrite lookup_delete_eq. symmetry. by apply link_at_None.
    + by rewrite lookup_delete_ne, Hl, decide_False.
  - exists lru. split; [done|]. rewrite without_not_in; [done|]. by apply (lru_rep_elem lru).
Qed.

Lemma pop_oldest_rep lru l :
  lru_rep lru l → ∃ lru', pop_oldest lru = Ok (head l, lru') ∧ lru_rep lru' (tail l).
Proof.
  intros Hrep. unfold pop_oldest. pose proof Hrep as (Hnd & -> & _). destruct l as [|x l]; cbn [head tail].
  - by exists lru.
  - destruct (remove_rep _ _ x Hrep) as (lru' & -> & Hrep'). exists lru'. split; [done|].
    change (x :: l) with ([] ++ x :: l) in Hrep', Hnd. by rewrite without_middle in Hrep'.
Qed.

(** Appending at the newest end, once [x] has a link and is out of the list. *)
Lemma touch_append lru l x k :
  NoDup l → x ∉ l → oldest lru = head l → newest lru = last l → links lru !! x = Some k →
  (∀ y, y ≠ x → links lru !! y = link_at None l None y) →
  ∃ lru',
    (let older := newest lru in
     lru ← match older with
           | Some o => links' ← set_newer o (Some x) (links lru); Ok (Lru links' (oldest lru) (newest lru))
           | None => Ok (Lru (links lru) (Some x) (newest lru))
           end;
     _ ← expect (links lru !! x);
     Ok (Lru (<[x := Link older None]> (links lru)) (oldest lru) (Some x))) = Ok lru' ∧
    lru_rep lru' (l ++ [x]).
Proof.
  intros Hnd Hx Hold Hnew Hk Hl. cbv zeta. rewrite Hnew.
  assert (NoDup (l ++ [x])) as Hnd' by (apply NoDup_app; split_and!; [done|set_solver|apply NoDup_singleton]).
  destruct (list_snoc_cases l) as [->|(l' & a & ->)].
  - simpl last. cbn [mbind io_result_bind links oldest newest]. rewrite Hk. cbn [expect mbind io_result_bind].
    eexists. split; [reflexivity|]. split_and!; [done..|]. intros y. cbn [links app link_at].
    case_decide; subst; [by rewrite lookup_insert_eq|by rewrite lookup_insert_ne, Hl by done].
  - rewrite last_snoc. unfold set_newer. assert (x ≠ a) by set_solver.
    rewrite Hl, link_at_snoc_bound, decide_True by done. cbn [expect mbind io_result_bind links oldest newest older].
    rewrite lookup_insert_ne, Hk by done. cbn [expect mbind io_result_bind].
    eexists. split; [reflexivity|]. split_and!; [done| |by rewrite last_snoc|].
    { cbn [oldest]. rewrite Hold. by destruct l'. }
    intros y. cbn [links]. rewrite link_at_snoc_bound, last_snoc by done. cbn [orelse].
    destruct (decide (y = x)) as [->|]; [by rewrite lookup_insert_eq|]. rewrite lookup_insert_ne by done.
    rewrite link_at_snoc_bound by done. destruct (decide (y = a)) as [->|]; [by rewrite lookup_insert_eq|].
    rewrite lookup_insert_ne, Hl, link_at_snoc_bound by done. by rewrite decide_False.
Qed.

Lemma touch_rep lru l x : lru_rep lru l → ∃ lru', touch x lru = Ok lru' ∧ lru_rep lru' (without x l ++ [x]).
Proof.
  intros Hrep. unfold touch. case_bool_decide as Hn.
  - exists lru. split; [done|]. pose proof Hrep as (Hnd & _ & Hnew & _). rewrite Hnew in Hn.
    destruct (list_snoc_cases l) as [->|(l' & a & ->)]; [done|]. rewrite last_snoc in Hn. injection Hn as ->.
    by rewrite without_middle, app_nil_r.
  - destruct (links lru !! x) as [k|] eqn:Hx.
    + destruct (lru_rep_split _ _ _ _ Hrep Hx) as (l1 & l2 & -> & ->).
      destruct (detach_rep _ _ _ _ Hrep) as (lru' & -> & Hold & Hnew & Hl). cbn [mbind io_result_bind].
      destruct Hrep as (Hnd & _). apply NoDup_app in Hnd as (? & ? & [? ?]%NoDup_cons).
      apply (touch_append lru' (l1 ++ l2) x k); [rewrite NoDup_app; set_solver|set_solver|done|done| |].
      * by rewrite Hl, decide_True.
      * intros y Hy. by rewrite Hl, decide_False.
    + cbn [mbind io_result_bind]. pose proof (proj1 (lru_rep_elem lru l x Hrep) Hx) as Hxl.
      rewrite without_not_in by done. destruct Hrep as (Hnd & Hold & Hnew & Hl).
      apply (touch_append _ l x (Link None None)); [done..| |]; cbn [links].
      * by rewrite lookup_insert_eq.
      * intros y Hy. by rewrite lookup_insert_ne, Hl.
Qed.

(** ** Sequences of operations *)

Inductive lru_op := Touch (offset : Z) | Remove (offset : Z) | PopOldest | Clear.

(** One operation, with what [pop_oldest] returns. *)
Definition lru_step (lru : OffsetLru) (op : lru_op) : io_result (option Z * OffsetLru) :=
  match op with
  | Touch x => pair None <$> touch x lru
  | Remove x => pair None <$> remove x lru
  | PopOldest => pop_oldest lru
  | Clear => Ok (None, clear lru)
  end.
(** The same on a plain list, oldest first. *)
Definition list_step (l : list Z) (op : lru_op) : option Z * list Z :=
  match op with
  | Touch x => (None, without x l ++ [x])
  | Remove x => (None, without x l)
  | PopOldest => (head l, tail l)
  | Clear => (None, [])
  end.

Fixpoint lru_run (lru : OffsetLru) (ops : list lru_op) : io_result (list (option Z) * OffsetLru) :=
  match ops with
  | [] => Ok ([], lru)
  | op :: ops => '(out, lru) ← lru_step lru op; '(outs, lru) ← lru_run lru ops; Ok (out :: outs, lru)
  end.
Fixpoint list_run (l : list Z) (ops : list lru_op) : list (option Z) * list Z :=
  match ops with
  | [] => ([], l)
  | op :: ops =>
      let '(out, l) := list_step l op in let '(outs, l) := list_run l ops in (out :: outs, l)
  end.

Lemma lru_step_rep lru l op :
  lru_rep lru l → ∃ lru', lru_step lru op = Ok ((list_step l op).1, lru') ∧ lru_rep lru' (list_step l op).2.
Proof.
  intros Hrep. destruct op; cbn [lru_step list_step fst snd].
  - destruct (touch_rep _ _ offset Hrep) as (lru' & -> & ?). by exists lru'.
  - destruct (remove_rep _ _ offset Hrep) as (lru' & -> & ?). by exists lru'.
  - by apply pop_oldest_rep.
  - eexists. split; [reflexivity|]. split_and!; [constructor|done..].
Qed.

Lemma lru_rep_default : lru_rep lru_default [].
Proof. split_and!; [constructor|done..]. Qed.

Lemma lru_run_rep lru l ops :
  lru_rep lru l → ∃ lru', lru_run lru ops = Ok ((list_run l ops).1, lru') ∧ lru_rep lru' (list_run l ops).2.
Proof.
  revert lru l. induction ops as [|op ops IH]; intros lru l Hrep; cbn [lru_run list_run]; [by exists lru|].
  destruct (lru_step_rep _ _ op Hrep) as (lru1 & -> & Hrep1). destruct (list_step l op) as [out l1].
  cbn [mbind io_result_bind fst snd] in *. destruct (IH _ _ Hrep1) as (lru2 & -> & Hrep2).
  destruct (list_run l1 ops). cbn [mbind io_result_bind fst snd] in *. by exists lru2.
Qed.

(** C31: Any sequence of [touch], [remove], [pop_oldest] and [clear] on a fresh
    [OffsetLru] runs without reaching one of its [expect] panics, returns from
    every [pop_oldest] exactly the least recently touched offset still present,
    and leaves the doubly linked list equal to the recency list, oldest first. *)
Theorem offset_lru_refines_list (ops : list lru_op) :
  ∃ lru, lru_run lru_default ops = Ok ((list_run [] ops).1, lru) ∧ lru_rep lru (list_run [] ops).2.
Proof. apply lru_run_rep, lru_rep_default. Qed.
