(* ===== verification/WindowCache.v ===== *)
(** The sharded read-window cache: [SharedWindowCache] of [core/src/diskann_io.rs].

    A shard is a mutex-protected state plus an atomic capacity.  Each function
    below named [.._section] is the critical section of one method; the methods
    pick the shard and run it, and [shard_step] interleaves the sections of any
    number of readers.  Not modelled: the lock metrics (wall-clock time) and the
    poisoning of a mutex, which needs a panic inside a section and
    [window_cache_reachable_inv] excludes those. *)

From S2P Require Import Prelude Adjacency OffsetLru.

(** [Arc<Vec<u8>>]: the bytes and the capacity of the allocation. *)
Record Payload := MkPayload { payload_bytes : list Z; payload_capacity : Z }.

Inductive SharedWindowCacheLookup := Hit (payload : Payload) | Reserved | Loading.

Record SharedWindowCacheState := CacheState {
  entries : gmap Z Payload;
  loading : gset Z;
  recency : OffsetLru;
  retained_bytes : Z;
}.
Record SharedWindowCacheShard := Shard {
  capacity_bytes : Z;
  state : SharedWindowCacheState;
}.
Notation SharedWindowCache := (list SharedWindowCacheShard).

Definition SHARED_WINDOW_CACHE_SHARDS : Z := 16.
Definition MAX_SHARED_READ_WINDOW_BYTES : Z := 64 * 1024.

Definition empty_state : SharedWindowCacheState := CacheState ∅ ∅ lru_default 0.

(** Capacity of shard [i] when [total] is spread over [n] shards. *)
Definition shard_capacity (total n i : Z) : Z := total / n + (if i <? total mod n then 1 else 0).

Definition new_with_max_shards (capacity_bytes max_shards : Z) : SharedWindowCache :=
  let max_shards := Z.max max_shards 1 in
  let shard_count :=
    if max_shards * MAX_SHARED_READ_WINDOW_BYTES <=? capacity_bytes then max_shards else 1 in
  (λ i, Shard (shard_capacity capacity_bytes shard_count (Z.of_nat i)) empty_state)
    <$> seq 0 (Z.to_nat shard_count).
Definition cache_new (capacity_bytes : Z) : SharedWindowCache :=
  new_with_max_shards capacity_bytes SHARED_WINDOW_CACHE_SHARDS.

Definition shard_index (shards : SharedWindowCache) (offset : Z) : nat :=
  let page := offset / DISKANN_PAGE_SIZE in
  let mixed := wrap 64 (page + 0x9e3779b97f4a7c15) in
  let mixed := wrap 64 (Z.lxor mixed (Z.shiftr mixed 30) * 0xbf58476d1ce4e5b9) in
  let mixed := wrap 64 (Z.lxor mixed (Z.shiftr mixed 27) * 0x94d049bb133111eb) in
  Z.to_nat (Z.lxor mixed (Z.shiftr mixed 31) mod zlen shards).

Definition total_capacity (shards : SharedWindowCache) : Z := zsum capacity_bytes shards.

(** ** Critical sections *)

(** [while state.retained_bytes > capacity { pop_oldest .. }]; every round pops
    an offset of the recency list. *)
Fixpoint evict_loop (fuel : nat) (capacity : Z) (st : SharedWindowCacheState) (evictions : Z) :
    io_result (SharedWindowCacheState * Z) :=
  match fuel with
  | O => Ok (st, evictions)
  | S fuel =>
      if capacity <? retained_bytes st then
        '(popped, recency) ← pop_oldest (recency st);
        let st := CacheState (entries st) (loading st) recency (retained_bytes st) in
        match popped with
        | None => Ok (st, evictions)
        | Some oldest =>
            match entries st !! oldest with
            | Some evicted =>
                evict_loop fuel capacity
                  (CacheState (delete oldest (entries st)) (loading st) recency
                     (saturating_sub (retained_bytes st) (payload_capacity evicted)))
                  (saturating_add 64 evictions 1)
            | None => evict_loop fuel capacity st evictions
            end
        end
      else Ok (st, evictions)
  end.
Definition evict (capacity : Z) (st : SharedWindowCacheState) : io_result (SharedWindowCacheState * Z) :=
  evict_loop (S (size (links (recency st)))) capacity st 0.

Definition lookup_or_reserve_section (offset length : Z) (st : SharedWindowCacheState) :
    io_result (SharedWindowCacheLookup * SharedWindowCacheState) :=
  '(hit, st) ←
    match entries st !! offset with
    | Some payload =>
        if zlen (payload_bytes payload) =? length then
          recency ← touch offset (recency st);
          Ok (Some (Hit payload), CacheState (entries st) (loading st) recency (retained_bytes st))
        else
          recency ← remove offset (recency st);
          Ok (None, CacheState (delete offset (entries st)) (loading st) recency
                      (saturating_sub (retained_bytes st) (payload_capacity payload)))
    | None => Ok (None, st)
    end;
  match hit with
  | Some hit => Ok (hit, st)
  | None =>
      if decide (offset ∈ loading st) then Ok (Loading, st)
      else Ok (Reserved, CacheState (entries st) ({[offset]} ∪ loading st) (recency st) (retained_bytes st))
  end.

Definition publish_section (offset : Z) (payload : Payload) (capacity : Z) (st : SharedWindowCacheState) :
    io_result (Z * SharedWindowCacheState) :=
  let loading := loading st ∖ {[offset]} in
  let retained_bytes :=
    match entries st !! offset with
    | Some previous => saturating_sub (retained_bytes st) (payload_capacity previous)
    | None => retained_bytes st
    end in
  let retained_bytes := saturating_add 64 retained_bytes (payload_capacity payload) in
  recency ← touch offset (recency st);
  '(st, evictions) ← evict capacity (CacheState (<[offset := payload]> (entries st)) loading recency retained_bytes);
  Ok (evictions, st).

(** The reservations of the shard among the cancelled [offsets]. *)
Definition remove_loading_section (offsets : list Z) (st : SharedWindowCacheState) : SharedWindowCacheState :=
  CacheState (entries st) (loading st ∖ list_to_set offsets) (recency st) (retained_bytes st).

(** [wait_for] after the condition variable saw the reservation go. *)
Definition wait_for_section (offset length : Z) (st : SharedWindowCacheState) :
    io_result (option Payload * SharedWindowCacheState) :=
  match entries st !! offset with
  | Some payload =>
      if zlen (payload_bytes payload) =? length then
        recency ← touch offset (recency st);
        Ok (Some payload, CacheState (entries st) (loading st) recency (retained_bytes st))
      else Ok (None, st)
  | None => Ok (None, st)
  end.

(** ** Methods *)

Definition with_state {A} (i : nat) (f : SharedWindowCacheShard → io_result (A * SharedWindowCacheState))
    (shards : SharedWindowCache) : io_result (A * SharedWindowCache) :=
  shard ← expect (shards !! i);
  '(a, st) ← f shard;
  Ok (a, <[i := Shard (capacity_bytes shard) st]> shards).

Definition lookup_or_reserve (offset length : Z) (shards : SharedWindowCache) :=
  with_state (shard_index shards offset) (λ s, lookup_or_reserve_section offset length (state s)) shards.
Definition publish (offset : Z) (payload : Payload) (shards : SharedWindowCache) :=
  with_state (shard_index shards offset) (λ s, publish_section offset payload (capacity_bytes s) (state s)) shards.
(** A waiter returns only once its offset is not loading; [None] is "still blocked". *)
Definition wait_for (offset length : Z) (shards : SharedWindowCache) :
    io_result (option (option Payload) * SharedWindowCache) :=
  with_state (shard_index shards offset) (λ s,
    if decide (offset ∈ loading (state s)) then Ok (None, state s)
    else '(payload, st) ← wait_for_section offset length (state s); Ok (Some payload, st)) shards.

Definition remove_loading (offsets : list Z) (i : nat) (shards : SharedWindowCache) : io_result SharedWindowCache :=
  snd <$> with_state i (λ s, Ok ((), remove_loading_section
    (filter (λ offset, shard_index shards offset = i) offsets) (state s))) shards.
Definition cancel_shard (offsets : list Z) (shards : SharedWindowCache) (i : nat) : io_result SharedWindowCache :=
  if bool_decide (Exists (λ offset, shard_index shards offset = i) offsets)
  then remove_loading offsets i shards else Ok shards.
Definition cancel (offsets : list Z) (shards : SharedWindowCache) : io_result SharedWindowCache :=
  try_fold (cancel_shard offsets) shards (seq 0 (length shards)).

Definition set_shard_capacity (capacity : Z) (shard : SharedWindowCacheShard) : io_result SharedWindowCacheShard :=
  '(st, _) ← evict capacity (state shard); Ok (Shard capacity st).
Definition set_total_capacity (total : Z) (shards : SharedWindowCache) : io_result SharedWindowCache :=
  try_map (λ '(i, shard), set_shard_capacity (shard_capacity total (zlen shards) (Z.of_nat i)) shard)
    (imap pair shards).

(** ** The invariant *)

(** Bytes charged to the cache. *)
Definition weight (m : gmap Z Payload) : Z := zsum (λ kp, payload_capacity kp.2) (map_to_list m).

Record state_inv (st : SharedWindowCacheState) (l : list Z) : Prop := {
  inv_recency : lru_rep (recency st) l;
  inv_entries : ∀ x, x ∈ l ↔ is_Some (entries st !! x);
  inv_retained : retained_bytes st = weight (entries st);
  inv_capacity : map_Forall (λ _ p, 0 <= payload_capacity p) (entries st);
  inv_loading : ∀ x, x ∈ loading st → entries st !! x = None;
}.

Lemma weight_insert m k p : m !! k = None → weight (<[k := p]> m) = payload_capacity p + weight m.
Proof. intros. unfold weight. by rewrite map_to_list_insert. Qed.

Lemma weight_delete m k p : m !! k = Some p → weight m = payload_capacity p + weight (delete k m).
Proof.
  intros H. rewrite <- (insert_delete_id m k p H) at 1. apply weight_insert. apply lookup_delete_eq.
Qed.

Lemma weight_empty : weight ∅ = 0.
Proof. unfold weight. by rewrite map_to_list_empty. Qed.

Lemma weight_nonneg m : map_Forall (λ _ p, 0 <= payload_capacity p) m → 0 <= weight m.
Proof.
  induction m as [|k p m Hk IH] using map_ind; intros Hm; [by rewrite weight_empty|].
  rewrite weight_insert by done. apply map_Forall_insert in Hm as [? ?]; [|done]. specialize (IH ltac:(done)). lia.
Qed.

Lemma lru_size lru l : lru_rep lru l → size (links lru) = length l.
Proof.
  intros Hrep. rewrite <- size_dom. destruct Hrep as (Hnd & _ & _ & Hl).
  rewrite <- (size_list_to_set (C:=gset Z) l Hnd). f_equal. apply set_eq. intros x.
  rewrite elem_of_dom, elem_of_list_to_set, Hl. rewrite <- not_eq_None_Some, link_at_None. split; [apply dec_stable|tauto].
Qed.

Lemma empty_state_inv : state_inv empty_state [].
Proof.
  split; cbn; [apply lru_rep_default| | | |]; try done.
  intros x. rewrite lookup_empty, is_Some_alt. set_solver.
Qed.

(** Deleting offsets in order. *)
Definition delete_all (ks : list Z) (m : gmap Z Payload) : gmap Z Payload := foldl (λ m k, delete k m) m ks.

Lemma state_inv_pop st x l lru :
  state_inv st (x :: l) → lru_rep lru l →
  ∃ p, entries st !! x = Some p ∧
    state_inv (CacheState (delete x (entries st)) (loading st) lru
                 (saturating_sub (retained_bytes st) (payload_capacity p))) l.
Proof.
  intros [Hrep Hent Hret Hcap Hload] Hrep'. destruct (proj1 (Hent x) ltac:(set_solver)) as [p Hp].
  exists p. split; [done|]. destruct Hrep as ([Hx Hnd]%NoDup_cons & _). split; cbn.
  - done.
  - intros y. destruct (decide (y = x)) as [->|Hy].
    + rewrite lookup_delete_eq, is_Some_alt. set_solver.
    + rewrite lookup_delete_ne, <- Hent by done. set_solver.
  - pose proof (weight_delete _ _ _ Hp). pose proof (weight_nonneg (delete x (entries st)) ltac:(by apply map_Forall_delete)).
    unfold saturating_sub. lia.
  - by apply map_Forall_delete.
  - intros y Hy. destruct (decide (y = x)) as [->|]; [apply lookup_delete_eq|].
    rewrite lookup_delete_ne by done. by apply Hload.
Qed.

(** Eviction removes the oldest entries, no more than needed, until the rest fits. *)
Record evicted_to (capacity : Z) (st st' : SharedWindowCacheState) (l : list Z) (n : nat) : Prop := {
  ev_count : (n ≤ length l)%nat;
  ev_inv : state_inv st' (drop n l);
  ev_fits : retained_bytes st' <= capacity;
  ev_loading : loading st' = loading st;
  ev_entries : entries st' = delete_all (take n l) (entries st);
  ev_minimal : ∀ m, (m < n)%nat → capacity < weight (delete_all (take m l) (entries st));
}.

Lemma evict_loop_spec fuel capacity st l evictions :
  state_inv st l → 0 <= capacity → 0 <= evictions → (length l < fuel)%nat →
  ∃ n st', evict_loop fuel capacity st (Z.min evictions (2 ^ 64 - 1)) =
             Ok (st', Z.min (evictions + Z.of_nat n) (2 ^ 64 - 1)) ∧ evicted_to capacity st st' l n.
Proof.
  revert st l evictions. induction fuel as [|fuel IH]; intros st l ev Hinv Hcap Hev Hf; [lia|].
  cbn [evict_loop]. destruct (Z.ltb_spec capacity (retained_bytes st)) as [Hlt|Hge].
  - destruct (pop_oldest_rep _ _ (inv_recency _ _ Hinv)) as (lru & -> & Hlru). cbn [mbind io_result_bind].
    destruct l as [|x l]; cbn [head tail] in *.
    + exfalso. destruct Hinv as [_ Hent Hret _ _]. rewrite Hret in Hlt.
      replace (entries st) with (∅ : gmap Z Payload) in Hlt; [rewrite weight_empty in Hlt; lia|].
      symmetry. apply map_empty. intros x. apply eq_None_not_Some. rewrite <- Hent. set_solver.
    + destruct (state_inv_pop _ _ _ _ Hinv Hlru) as (p & Hp & Hinv'). cbn [entries loading recency retained_bytes]. rewrite Hp.
      assert (saturating_add 64 (Z.min ev (2 ^ 64 - 1)) 1 = Z.min (ev + 1) (2 ^ 64 - 1)) as ->.
      { unfold saturating_add. lia. }
      destruct (IH _ l (ev + 1) Hinv' Hcap ltac:(lia) ltac:(simpl in Hf; lia)) as (n & st' & -> & [? ? ? ? He Hm]).
      exists (S n), st'. split; [do 2 f_equal; lia|]. split; cbn [length drop take]; [lia|done..| |].
      * by rewrite He.
      * intros [|m] Hmn; cbn [take].
        { unfold delete_all; cbn [foldl]. by rewrite <- (inv_retained _ _ Hinv). }
        apply Hm. lia.
  - exists 0%nat, st. split; [do 2 f_equal; lia|]. split; try done; lia.
Qed.

Lemma evict_spec capacity st l :
  state_inv st l → 0 <= capacity →
  ∃ n st', evict capacity st = Ok (st', Z.min (Z.of_nat n) (2 ^ 64 - 1)) ∧ evicted_to capacity st st' l n.
Proof.
  intros Hinv Hcap. unfold evict. rewrite (lru_size _ _ (inv_recency _ _ Hinv)).
  apply (evict_loop_spec (S (length l)) capacity st l 0); [done..|lia|lia].
Qed.

Lemma delete_all_lookup ks m k : delete_all ks m !! k = if decide (k ∈ ks) then None else m !! k.
Proof.
  revert m. induction ks as [|y ks IH]; intros m; cbn [delete_all foldl]; [by rewrite decide_False by set_solver|].
  fold (delete_all ks (delete y m)). rewrite IH. destruct (decide (k = y)) as [->|Hk].
  - rewrite lookup_delete_eq. rewrite (decide_True (P := y ∈ y :: ks)) by set_solver. by case_decide.
  - rewrite lookup_delete_ne by done. do 2 case_decide; set_solver.
Qed.

(** ** Specifications of the sections *)

Lemma state_inv_touch st l o :
  state_inv st l → is_Some (entries st !! o) →
  ∃ lru, touch o (recency st) = Ok lru ∧
    state_inv (CacheState (entries st) (loading st) lru (retained_bytes st)) (without o l ++ [o]).
Proof.
  intros [Hrep Hent ? ? ?] Ho. destruct (touch_rep _ _ o Hrep) as (lru & Ht & Hrep'). exists lru.
  split; [done|]. split; cbn; try done. intros x. rewrite elem_of_app, elem_of_without, <- Hent.
  rewrite <- Hent in Ho. destruct (decide (x = o)); set_solver.
Qed.

Lemma state_inv_remove st l o p :
  state_inv st l → entries st !! o = Some p →
  ∃ lru, remove o (recency st) = Ok lru ∧
    state_inv (CacheState (delete o (entries st)) (loading st) lru
                 (saturating_sub (retained_bytes st) (payload_capacity p))) (without o l).
Proof.
  intros [Hrep Hent Hret Hcap Hload] Hp. destruct (remove_rep _ _ o Hrep) as (lru & Hr & Hrep'). exists lru.
  split; [done|]. split; cbn; [done| | |by apply map_Forall_delete|].
  - intros x. rewrite elem_of_without, Hent. destruct (decide (x = o)) as [->|].
    + rewrite lookup_delete_eq, is_Some_alt. naive_solver.
    + rewrite lookup_delete_ne by done. naive_solver.
  - pose proof (weight_delete _ _ _ Hp). pose proof (weight_nonneg (delete o (entries st)) ltac:(by apply map_Forall_delete)).
    unfold saturating_sub. lia.
  - intros x Hx. rewrite lookup_delete_None. right. by apply Hload.
Qed.

(** The state [publish] evicts from. *)
Definition published (o : Z) (p : Payload) (st : SharedWindowCacheState) (lru : OffsetLru) : SharedWindowCacheState :=
  CacheState (<[o := p]> (entries st)) (loading st ∖ {[o]}) lru (weight (delete o (entries st)) + payload_capacity p).

Lemma state_inv_published st l o p :
  state_inv st l → 0 <= payload_capacity p →
  ∃ lru, touch o (recency st) = Ok lru ∧ state_inv (published o p st lru) (without o l ++ [o]).
Proof.
  intros [Hrep Hent Hret Hcap Hload] Hp. destruct (touch_rep _ _ o Hrep) as (lru & Hr & Hrep'). exists lru.
  split; [done|]. split; cbn.
  - done.
  - intros x. rewrite elem_of_app, elem_of_without, Hent. destruct (decide (x = o)) as [->|].
    + rewrite lookup_insert_eq. set_solver.
    + rewrite lookup_insert_ne by done. set_solver.
  - rewrite <- insert_delete_eq, weight_insert by apply lookup_delete_eq. lia.
  - by apply map_Forall_insert_2.
  - intros x Hx. rewrite lookup_insert_ne by set_solver. apply Hload. set_solver.
Qed.

Lemma retained_after_publish st l o p :
  state_inv st l → 0 <= payload_capacity p → weight (delete o (entries st)) + payload_capacity p < 2 ^ 64 →
  saturating_add 64
    (match entries st !! o with
     | Some previous => saturating_sub (retained_bytes st) (payload_capacity previous)
     | None => retained_bytes st
     end) (payload_capacity p) = weight (delete o (entries st)) + payload_capacity p.
Proof.
  intros [_ _ Hret Hcap _] Hp Hlt. unfold saturating_add, saturating_sub.
  pose proof (weight_nonneg (delete o (entries st)) ltac:(by apply map_Forall_delete)).
  destruct (entries st !! o) as [q|] eqn:Hq.
  - pose proof (weight_delete _ _ _ Hq). lia.
  - rewrite Hret. rewrite delete_id in * by done. lia.
Qed.

Lemma publish_section_spec st l o p capacity :
  state_inv st l → 0 <= payload_capacity p → 0 <= capacity →
  weight (delete o (entries st)) + payload_capacity p < 2 ^ 64 →
  ∃ lru n st', publish_section o p capacity st = Ok (Z.min (Z.of_nat n) (2 ^ 64 - 1), st') ∧
    state_inv (published o p st lru) (without o l ++ [o]) ∧
    evicted_to capacity (published o p st lru) st' (without o l ++ [o]) n.
Proof.
  intros Hinv Hp Hcap Hlt. unfold publish_section. rewrite (retained_after_publish st l) by done.
  destruct (state_inv_published st l o p Hinv Hp) as (lru & -> & Hinv'). cbn [mbind io_result_bind].
  destruct (evict_spec capacity _ _ Hinv' Hcap) as (n & st' & He & Hev). fold (published o p st lru). rewrite He.
  by exists lru, n, st'.
Qed.

(** Evicting everything older leaves only the published window. *)
Lemma delete_all_older st l o p lru :
  state_inv (published o p st lru) (without o l ++ [o]) →
  delete_all (without o l) (entries (published o p st lru)) = {[o := p]}.
Proof.
  intros [Hrep Hent _ _ _]. apply map_eq. intros k. rewrite delete_all_lookup. cbn.
  destruct (decide (k = o)) as [->|Hk].
  - rewrite lookup_insert_eq, lookup_singleton_eq. rewrite decide_False; [done|]. rewrite elem_of_without. naive_solver.
  - rewrite lookup_insert_ne, lookup_singleton_ne by done. case_decide as Hin; [done|].
    apply eq_None_not_Some. intros Hs. apply Hin. specialize (Hent k). cbn in Hent.
    rewrite lookup_insert_ne in Hent by done. apply Hent in Hs. set_solver.
Qed.

Lemma publish_keeps st st' l o p lru capacity n :
  state_inv (published o p st lru) (without o l ++ [o]) →
  evicted_to capacity (published o p st lru) st' (without o l ++ [o]) n →
  payload_capacity p <= capacity → entries st' !! o = Some p.
Proof.
  intros Hinv [Hn _ _ _ He Hmin] Hfit. rewrite He, delete_all_lookup. cbn. rewrite lookup_insert_eq.
  rewrite decide_False; [done|]. rewrite length_app in Hn. cbn [length] in Hn.
  destruct (decide (n ≤ length (without o l))%nat) as [Hle|Hgt].
  - rewrite take_app_le by done. intros Hin.
    apply elem_of_take in Hin as (i & Hi & _). apply list_elem_of_lookup_2, elem_of_without in Hi. naive_solver.
  - exfalso. specialize (Hmin (length (without o l)) ltac:(lia)).
    rewrite take_app_length, (delete_all_older st l o p lru Hinv) in Hmin.
    rewrite <- insert_empty, weight_insert, weight_empty in Hmin by apply lookup_empty. lia.
Qed.

(** ** Interleavings of critical sections on one shard *)

Inductive section :=
  | SLookup (offset length : Z)
  | SPublish (offset : Z) (payload : Payload)
  | SCancel (offsets : list Z)
  | SWait (offset length : Z)
  | SStoreCapacity (capacity : Z)
  | SEvict (capacity : Z).

(** When a section may run: a waiter is woken only without a reservation;
    allocations are non-negative and fit the address space together. *)
Definition section_enabled (sec : section) (s : SharedWindowCacheShard) : Prop :=
  match sec with
  | SPublish o p => 0 <= payload_capacity p ∧ weight (delete o (entries (state s))) + payload_capacity p < 2 ^ 64
  | SWait o _ => o ∉ loading (state s)
  | SStoreCapacity c | SEvict c => 0 <= c
  | SLookup _ _ | SCancel _ => True
  end.

Definition section_run (sec : section) (s : SharedWindowCacheShard) : io_result SharedWindowCacheShard :=
  match sec with
  | SLookup o n => '(_, st) ← lookup_or_reserve_section o n (state s); Ok (Shard (capacity_bytes s) st)
  | SPublish o p => '(_, st) ← publish_section o p (capacity_bytes s) (state s); Ok (Shard (capacity_bytes s) st)
  | SCancel os => Ok (Shard (capacity_bytes s) (remove_loading_section os (state s)))
  | SWait o n => '(_, st) ← wait_for_section o n (state s); Ok (Shard (capacity_bytes s) st)
  | SStoreCapacity c => Ok (Shard c (state s))
  | SEvict c => '(st, _) ← evict c (state s); Ok (Shard (capacity_bytes s) st)
  end.

Inductive shard_steps : SharedWindowCacheShard → list section → SharedWindowCacheShard → Prop :=
  | steps_nil s : shard_steps s [] s
  | steps_cons s sec s' secs s'' :
      section_enabled sec s → section_run sec s = Ok s' → shard_steps s' secs s'' →
      shard_steps s (sec :: secs) s''.

Definition shard_inv (s : SharedWindowCacheShard) : Prop := 0 <= capacity_bytes s ∧ ∃ l, state_inv (state s) l.

Lemma lookup_section_spec st l o n :
  state_inv st l →
  ∃ r st' l', lookup_or_reserve_section o n st = Ok (r, st') ∧ state_inv st' l' ∧
    match r with
    | Hit p => entries st !! o = Some p ∧ zlen (payload_bytes p) = n ∧ entries st' = entries st ∧ loading st' = loading st
    | Loading => o ∈ loading st ∧ st' = st
    | Reserved => o ∉ loading st ∧ entries st' = delete o (entries st) ∧ loading st' = {[o]} ∪ loading st
    end.
Proof.
  intros Hinv. unfold lookup_or_reserve_section. destruct (entries st !! o) as [p|] eqn:Hp.
  - destruct (Z.eqb_spec (zlen (payload_bytes p)) n) as [En|En].
    + destruct (state_inv_touch st l o Hinv ltac:(eauto)) as (lru & -> & Hinv').
      eexists (Hit p), _, _. split; [reflexivity|]. by split_and!.
    + destruct (state_inv_remove st l o p Hinv Hp) as (lru & -> & Hinv'). cbn [mbind io_result_bind loading].
      assert (o ∉ loading st) as Hnl by (intros Hl; apply (inv_loading _ _ Hinv) in Hl; congruence).
      rewrite decide_False by done. eexists Reserved, _, _. split; [reflexivity|]. split; [|by split_and!].
      destruct Hinv' as [? ? ? ? Hload]. split; cbn in *; try done.
      intros x [->%elem_of_singleton|Hx]%elem_of_union; [apply lookup_delete_eq|by apply Hload].
  - cbn [mbind io_result_bind]. case_decide as Hl.
    + eexists Loading, _, _. split; [reflexivity|]. by split_and!.
    + eexists Reserved, _, l. split; [reflexivity|]. split; [|by rewrite delete_id].
      destruct Hinv as [? ? ? ? Hload]. split; cbn in *; try done.
      intros x [->%elem_of_singleton|Hx]%elem_of_union; [done|by apply Hload].
Qed.

Lemma wait_section_spec st l o n :
  state_inv st l →
  ∃ st' l', wait_for_section o n st =
      Ok (match entries st !! o with Some p => if zlen (payload_bytes p) =? n then Some p else None | None => None end, st') ∧
    state_inv st' l' ∧ entries st' = entries st ∧ loading st' = loading st.
Proof.
  intros Hinv. unfold wait_for_section. destruct (entries st !! o) as [p|] eqn:Hp; [|by eexists _, _].
  destruct (Z.eqb_spec (zlen (payload_bytes p)) n) as [En|En]; [|by eexists _, _].
  destruct (state_inv_touch st l o Hinv ltac:(eauto)) as (lru & -> & Hinv').
  eexists _, _. split; [reflexivity|]. by split_and!.
Qed.

Lemma section_run_inv sec s :
  shard_inv s → section_enabled sec s → ∃ s', section_run sec s = Ok s' ∧ shard_inv s'.
Proof.
  intros [Hcap [l Hinv]] Hen. destruct sec as [o n|o p|os|o n|c|c]; cbn [section_run section_enabled] in *.
  - destruct (lookup_section_spec (state s) l o n Hinv) as (r & st' & l' & -> & ? & _). eexists. split; [done|]. by split; [|exists l'].
  - destruct Hen as [Hp Hw].
    destruct (publish_section_spec (state s) l o p (capacity_bytes s) Hinv Hp Hcap Hw) as (lru & n & st' & -> & _ & Hev).
    eexists. split; [done|]. split; [done|]. eexists. apply Hev.
  - eexists. split; [done|]. split; [done|]. exists l. destruct Hinv as [? ? ? ? Hload]. split; cbn; try done.
    intros x Hx. apply Hload. set_solver.
  - destruct (wait_section_spec (state s) l o n Hinv) as (st' & l' & -> & ? & _). eexists. split; [done|]. by split; [|exists l'].
  - eexists. split; [done|]. split; [done|]. by exists l.
  - destruct (evict_spec c (state s) l Hinv Hen) as (n & st' & -> & Hev). eexists. split; [done|]. split; [done|]. eexists. apply Hev.
Qed.

Lemma shard_steps_inv s secs s' : shard_steps s secs s' → shard_inv s → shard_inv s'.
Proof.
  induction 1 as [|s sec s' secs s'' Hen Hrun _ IH]; intros Hinv; [done|].
  destruct (section_run_inv sec s Hinv Hen) as (s1 & Hrun' & ?). apply IH. congruence.
Qed.

(** A reservation survives every section that neither publishes nor cancels it. *)
Definition ends_reservation (o : Z) (sec : section) : Prop :=
  match sec with SPublish o' _ => o' = o | SCancel os => o ∈ os | _ => False end.

Lemma section_run_loading o sec s s' :
  shard_inv s → section_enabled sec s → section_run sec s = Ok s' → ¬ ends_reservation o sec →
  o ∈ loading (state s) → o ∈ loading (state s').
Proof.
  intros [Hcap [l Hinv]] Hen Hrun Hne Ho. destruct sec as [o' n|o' p|os|o' n|c|c]; cbn [section_run section_enabled ends_reservation] in *.
  - destruct (lookup_section_spec (state s) l o' n Hinv) as (r & st' & l' & E & _ & Hr). rewrite E in Hrun. inv_ok. cbn.
    destruct r; [destruct Hr as (_ & _ & _ & ->); done|set_solver|destruct Hr as (_ & ->); done].
  - destruct Hen as [Hp Hw].
    destruct (publish_section_spec (state s) l o' p (capacity_bytes s) Hinv Hp Hcap Hw) as (lru & n & st' & E & _ & Hev).
    rewrite E in Hrun. inv_ok. cbn. rewrite (ev_loading _ _ _ _ _ Hev). cbn. set_solver.
  - inv_ok. cbn. set_solver.
  - destruct (wait_section_spec (state s) l o' n Hinv) as (st' & l' & E & _ & _ & Hl). rewrite E in Hrun. inv_ok. cbn. by rewrite Hl.
  - inv_ok. done.
  - destruct (evict_spec c (state s) l Hinv Hen) as (n & st' & E & Hev). rewrite E in Hrun. inv_ok. cbn.
    by rewrite (ev_loading _ _ _ _ _ Hev).
Qed.

Lemma shard_steps_loading o s secs s' :
  shard_steps s secs s' → shard_inv s → Forall (λ sec, ¬ ends_reservation o sec) secs →
  o ∈ loading (state s) → o ∈ loading (state s').
Proof.
  induction 1 as [|s sec s' secs s'' Hen Hrun _ IH]; intros Hinv Hall Ho; [done|].
  apply list.Forall_cons in Hall as [Hne Hall].
  destruct (section_run_inv sec s Hinv Hen) as (s1 & Hrun' & Hinv').
  rewrite Hrun in Hrun'. injection Hrun' as <-. apply IH; [done|done|]. exact (section_run_loading o sec s s' Hinv Hen Hrun Hne Ho).
Qed.

Lemma fresh_shard_inv capacity : 0 <= capacity → shard_inv (Shard capacity empty_state).
Proof. intros. split; [done|]. exists []. apply empty_state_inv. Qed.

(** ** Shards *)

Lemma shard_index_lt shards o : shards ≠ [] → (shard_index shards o < length shards)%nat.
Proof.
  intros Hne. unfold shard_index. assert (0 < zlen shards) by (unfold zlen; destruct shards; simpl; [done|lia]).
  match goal with |- context [?a mod zlen shards] => pose proof (Z.mod_pos_bound a (zlen shards)) end.
  unfold zlen in *. lia.
Qed.

(** Spreading [r] extra units over the first shards. *)
Lemma zsum_spread base r k n :
  0 <= r - Z.of_nat k <= Z.of_nat n →
  zsum (λ i, base + (if Z.of_nat i <? r then 1 else 0)) (seq k n) = base * Z.of_nat n + (r - Z.of_nat k).
Proof.
  revert k. induction n as [|n IH]; intros k Hr; [simpl; lia|]. cbn [seq zsum foldr].
  change (foldr _ 0 (seq (S k) n)) with (zsum (λ i, base + (if Z.of_nat i <? r then 1 else 0)) (seq (S k) n)).
  destruct (Z.ltb_spec (Z.of_nat k) r); [rewrite IH; lia|].
  assert (r = Z.of_nat k) as -> by lia.
  assert (∀ m j, (k < j)%nat → zsum (λ i, base + (if Z.of_nat i <? Z.of_nat k then 1 else 0)) (seq j m) = base * Z.of_nat m) as ->.
  { intros m. induction m as [|m IHm]; intros j Hj; [simpl; lia|]. cbn [seq zsum foldr].
    rewrite (proj2 (Z.ltb_ge _ _)) by lia. specialize (IHm (S j) ltac:(lia)). unfold zsum in IHm. lia. }
  all: lia.
Qed.

Lemma zsum_shard_capacity total n :
  0 <= total → (0 < n)%nat → zsum (λ i, shard_capacity total (Z.of_nat n) (Z.of_nat i)) (seq 0 n) = total.
Proof.
  intros Ht Hn. unfold shard_capacity. pose proof (Z.mod_pos_bound total (Z.of_nat n)).
  rewrite zsum_spread by lia. pose proof (Z.div_mod total (Z.of_nat n)). lia.
Qed.

Lemma zsum_fmap {A B} (f : B → Z) (g : A → B) l : zsum f (g <$> l) = zsum (λ a, f (g a)) l.
Proof. induction l as [|a l IH]; [done|]. cbn. unfold zsum in IH. by rewrite IH. Qed.

Lemma set_shard_capacity_spec capacity s :
  shard_inv s → 0 <= capacity →
  ∃ s', set_shard_capacity capacity s = Ok s' ∧
    capacity_bytes s' = capacity ∧ shard_inv s' ∧ retained_bytes (state s') <= capacity_bytes s'.
Proof.
  intros [_ [l Hs]] Hc. unfold set_shard_capacity.
  destruct (evict_spec _ (state s) l Hs Hc) as (m & st' & -> & Hev). eexists. split; [reflexivity|].
  split_and!; [done|split; [done|]|apply Hev]. eexists. apply Hev.
Qed.

Lemma set_total_loop total n c k :
  Forall shard_inv c → 0 <= total → 0 < n →
  ∃ c', try_map (λ '(i, shard), set_shard_capacity (shard_capacity total n (Z.of_nat i)) shard)
          (imap (λ i s, (k + i, s)%nat) c) = Ok c' ∧
    Forall2 (λ i s, capacity_bytes s = shard_capacity total n (Z.of_nat i) ∧ shard_inv s ∧
      retained_bytes (state s) <= capacity_bytes s) (seq k (length c)) c'.
Proof.
  intros Hinv Ht Hn. revert k. induction Hinv as [|s c Hs _ IH]; intros k.
  { exists []. split; [done|constructor]. }
  rewrite imap_cons. cbn [try_map length seq]. destruct (IH (S k)) as (c' & E & Hf).
  assert (0 <= shard_capacity total n (Z.of_nat (k + 0))) as Hcap.
  { unfold shard_capacity. assert (0 <= total / n) by (apply Z.div_pos; lia). case_match; lia. }
  destruct (set_shard_capacity_spec _ s Hs Hcap) as (s' & -> & Hs'). cbn [mbind io_result_bind].
  rewrite (imap_ext _ (λ i s, (S k + i, s)%nat)) by (intros; cbn; f_equal; lia). rewrite E.
  eexists. split; [reflexivity|]. constructor; [|done]. by rewrite Nat.add_0_r in *.
Qed.

Lemma shard_index_length c c' o : length c = length c' → shard_index c o = shard_index c' o.
Proof. intros E. unfold shard_index, zlen. by rewrite E. Qed.

(** What [cancel] leaves of shard [i]. *)
Definition cancelled (c : SharedWindowCache) (offsets : list Z) (i : nat) (s : SharedWindowCacheShard) :
    SharedWindowCacheShard :=
  Shard (capacity_bytes s) (remove_loading_section (filter (λ o, shard_index c o = i) offsets) (state s)).

Lemma cancelled_none c offsets i s :
  ¬ Exists (λ o, shard_index c o = i) offsets → cancelled c offsets i s = s.
Proof.
  intros Hn. unfold cancelled. assert (filter (λ o, shard_index c o = i) offsets = []) as ->.
  { destruct (filter _ offsets) as [|o os] eqn:E; [done|]. exfalso. apply Hn, Exists_exists. exists o.
    assert (o ∈ filter (λ o, shard_index c o = i) offsets) as Ho by (rewrite E; set_solver).
    apply list_elem_of_filter in Ho. naive_solver. }
  destruct s as [cap [e ld r rb]]. unfold remove_loading_section. cbn. do 2 f_equal. set_solver.
Qed.

Lemma cancel_shard_spec c offsets pre s post :
  length (pre ++ s :: post) = length c →
  cancel_shard offsets (pre ++ s :: post) (length pre) = Ok (pre ++ cancelled c offsets (length pre) s :: post).
Proof.
  intros Hlen. assert (∀ o, shard_index (pre ++ s :: post) o = shard_index c o) as Hidx by (intros; by apply shard_index_length).
  unfold cancel_shard. case_bool_decide as He.
  - unfold remove_loading, with_state. rewrite list_lookup_middle by done. cbn.
    rewrite insert_app_r_alt, Nat.sub_diag by lia. cbn. do 3 f_equal. unfold cancelled. do 2 f_equal.
    apply list_filter_iff. intros o. by rewrite Hidx.
  - rewrite cancelled_none; [done|]. contradict He. eapply Exists_impl; [exact He|]. intros o. cbn. by rewrite Hidx.
Qed.

Lemma cancel_loop c offsets pre post :
  length (pre ++ post) = length c →
  try_fold (cancel_shard offsets) (pre ++ post) (seq (length pre) (length post)) =
  Ok (pre ++ imap (λ i, cancelled c offsets (length pre + i)) post).
Proof.
  revert pre. induction post as [|s post IH]; intros pre Hlen; [by cbn; rewrite app_nil_r|].
  rewrite imap_cons. cbn [seq length try_fold]. rewrite (cancel_shard_spec c) by done. cbn [mbind io_result_bind].
  rewrite cons_middle, app_assoc.
  replace (S (length pre)) with (length (pre ++ [cancelled c offsets (length pre) s])) by (rewrite length_app; cbn; lia).
  rewrite IH by (rewrite !length_app in *; cbn in *; lia).
  rewrite <- app_assoc. cbn [app]. do 3 f_equal; [by rewrite Nat.add_0_r|].
  apply imap_ext. intros i x _. rewrite length_app. cbn. f_equal. lia.
Qed.

Lemma cancel_spec c offsets : cancel offsets c = Ok (imap (cancelled c offsets) c).
Proof. exact (cancel_loop c offsets [] c eq_refl). Qed.

(** ** Properties *)


Definition demo_payload : Payload := MkPayload [1; 2; 3] 3.
Definition demo_shard : SharedWindowCacheShard :=
  match section_run (SPublish 4096 demo_payload) (Shard 5 empty_state) with Ok s => s | _ => Shard 0 empty_state end.


(** [publish] on a consistent shard always returns, leaves at most
    [capacity_bytes] retained (exactly the sum of what is cached), evicts only
    the oldest offsets and not one more than needed, and keeps the window it
    published whenever that window fits the shard at all. *)
Theorem window_cache_publish (st : SharedWindowCacheState) (l : list Z) (o : Z) (p : Payload) (capacity : Z) :
  state_inv st l → 0 <= payload_capacity p → 0 <= capacity →
  weight (delete o (entries st)) + payload_capacity p < 2 ^ 64 →
  ∃ (n : nat) st', publish_section o p capacity st = Ok (Z.min (Z.of_nat n) (2 ^ 64 - 1), st') ∧
    retained_bytes st' <= capacity ∧ retained_bytes st' = weight (entries st') ∧
    entries st' = delete_all (take n (without o l ++ [o])) (<[o := p]> (entries st)) ∧
    (∀ m, (m < n)%nat → capacity < weight (delete_all (take m (without o l ++ [o])) (<[o := p]> (entries st)))) ∧
    o ∉ loading st' ∧
    (payload_capacity p <= capacity → entries st' !! o = Some p).
Proof.
  intros Hinv Hp Hc Hw. destruct (publish_section_spec st l o p capacity Hinv Hp Hc Hw) as (lru & n & st' & E & Hpub & Hev).
  exists n, st'. split; [done|]. pose proof (publish_keeps st st' l o p lru capacity n Hpub Hev) as Hk.
  destruct Hev as [_ Hi Hf Hl He Hm]. split_and!; [done|apply Hi|done|done| |done].
  rewrite Hl. cbn. set_solver.
Qed.

Lemma window_cache_publish_witness :
  ∃ (n : nat) st', publish_section 0 demo_payload 4 empty_state = Ok (Z.min (Z.of_nat n) (2 ^ 64 - 1), st') ∧
    retained_bytes st' <= 4 ∧ retained_bytes st' = weight (entries st') ∧
    entries st' = delete_all (take n (without 0 [] ++ [0])) (<[0 := demo_payload]> (entries empty_state)) ∧
    (∀ m, (m < n)%nat → 4 < weight (delete_all (take m (without 0 [] ++ [0])) (<[0 := demo_payload]> (entries empty_state)))) ∧
    0 ∉ loading st' ∧
    (payload_capacity demo_payload <= 4 → entries st' !! 0 = Some demo_payload).
Proof. apply (window_cache_publish empty_state [] 0 demo_payload 4); [apply empty_state_inv|done|done|done]. Defined.

(** C37: Single flight. Once a lookup has reserved an offset, every later lookup
    of that offset, from any reader and for any length, answers [Loading], and
    every waiter stays blocked, until a [publish] of the offset or a [cancel]
    that names it. *)
Theorem window_cache_single_flight (s s1 s2 : SharedWindowCacheShard) (o n : Z) (st : SharedWindowCacheState)
    (secs : list section) :
  shard_inv s → lookup_or_reserve_section o n (state s) = Ok (Reserved, st) → s1 = Shard (capacity_bytes s) st →
  shard_steps s1 secs s2 → Forall (λ sec, ¬ ends_reservation o sec) secs →
  ∀ n', lookup_or_reserve_section o n' (state s2) = Ok (Loading, state s2) ∧ ¬ section_enabled (SWait o n') s2.
Proof.
  intros [Hc [l Hinv]] Hl -> Hsteps Hall n'.
  destruct (lookup_section_spec (state s) l o n Hinv) as (r & st' & l' & E & Hinv' & Hr). rewrite Hl in E.
  injection E as <- <-. destruct Hr as (_ & _ & Hld).
  assert (shard_inv (Shard (capacity_bytes s) st)) as Hsi by (split; [done|by exists l']).
  assert (o ∈ loading (state s2)) as Ho.
  { apply (shard_steps_loading o _ _ _ Hsteps Hsi Hall). cbn. set_solver. }
  split; [|cbn; tauto]. destruct (shard_steps_inv _ _ _ Hsteps Hsi) as [_ [l2 Hinv2]].
  unfold lookup_or_reserve_section. rewrite (inv_loading _ _ Hinv2 _ Ho). cbn. by rewrite decide_True.
Qed.

Lemma window_cache_single_flight_witness :
  lookup_or_reserve_section 8192 3 (CacheState ∅ {[8192]} lru_default 0) =
          Ok (Loading, CacheState ∅ {[8192]} lru_default 0) ∧
        ¬ section_enabled (SWait 8192 3) (Shard 5 (CacheState ∅ {[8192]} lru_default 0)).
Proof.
  refine (window_cache_single_flight (Shard 5 empty_state) (Shard 5 (CacheState ∅ {[8192]} lru_default 0)) (Shard 5 (CacheState ∅ {[8192]} lru_default 0))
    8192 7 (CacheState ∅ {[8192]} lru_default 0) [SLookup 8192 9] _ _ _ _ _ 3).
  - by apply fresh_shard_inv.
  - vm_compute. reflexivity.
  - done.
  - eapply steps_cons; [done|vm_compute; reflexivity|constructor].
  - repeat constructor. cbn. tauto.
Defined.

Lemma set_total_capacity_spec (c : SharedWindowCache) (total : Z) :
  c ≠ [] → Forall shard_inv c → 0 <= total →
  ∃ c', set_total_capacity total c = Ok c' ∧ length c' = length c ∧ total_capacity c' = total ∧
    Forall (λ s, shard_inv s ∧ retained_bytes (state s) <= capacity_bytes s) c' ∧
    zsum (λ s, retained_bytes (state s)) c' <= total.
Proof.
  intros Hne Hinv Ht. assert (0 < length c)%nat as Hlen by (destruct c; [done|simpl; lia]).
  destruct (set_total_loop total (zlen c) c 0) as (c' & E & Hf); [done|done|unfold zlen; lia|].
  exists c'. split; [exact E|]. pose proof (Forall2_length _ _ _ Hf) as El. rewrite length_seq in El.
  assert (total_capacity c' = total) as Etot.
  { rewrite <- (zsum_shard_capacity total (length c)) by done. unfold total_capacity. fold (zlen c).
    clear -Hf. induction Hf as [|i s ixs c' (Hs & _) _ IH]; [done|]. cbn. unfold zsum in IH. by rewrite IH, Hs. }
  split_and!; [done..| |].
  - clear -Hf. induction Hf as [|i s ixs c' (_ & ?) _ IH]; by constructor.
  - rewrite <- Etot. unfold total_capacity. clear -Hf. induction Hf as [|i s ixs c' (_ & _ & ?) _ IH]; [done|].
    cbn. unfold zsum in IH. lia.
Qed.

(** Changing the total capacity spreads it over the shards without losing
    a byte, shrinks every shard to its share, keeps the bookkeeping exact and
    cannot fail; afterwards all shards together retain at most the total. *)
Theorem window_cache_set_total_capacity (c : SharedWindowCache) (total : Z) :
  c ≠ [] → Forall shard_inv c → 0 <= total →
  ∃ c', set_total_capacity total c = Ok c' ∧ length c' = length c ∧ total_capacity c' = total ∧
    Forall (λ s, shard_inv s ∧ retained_bytes (state s) <= capacity_bytes s) c' ∧
    zsum (λ s, retained_bytes (state s)) c' <= total.
Proof. apply set_total_capacity_spec. Qed.

Lemma window_cache_set_total_capacity_witness :
  ∃ c', set_total_capacity 7 [demo_shard; Shard 5 empty_state] = Ok c' ∧ length c' = length [demo_shard; Shard 5 empty_state] ∧
    total_capacity c' = 7 ∧
    Forall (λ s, shard_inv s ∧ retained_bytes (state s) <= capacity_bytes s) c' ∧
    zsum (λ s, retained_bytes (state s)) c' <= 7.
Proof.
  apply (window_cache_set_total_capacity [demo_shard; Shard 5 empty_state] 7); [done| |done].
  repeat constructor; [by vm_compute| |by vm_compute|exists []; apply empty_state_inv].
  apply (shard_steps_inv (Shard 5 empty_state) [SPublish 4096 demo_payload]); [|by apply fresh_shard_inv].
  eapply steps_cons; [|vm_compute; reflexivity|constructor]. by split; vm_compute.
Defined.

(** C38: [cancel] always returns and releases exactly the named reservations:
    in every shard the cached windows are untouched, and an offset is still
    loading afterwards iff it was before and it is not a cancelled offset of
    that shard; so the waiters of a cancelled offset may run. *)
Theorem window_cache_cancel (c : SharedWindowCache) (offsets : list Z) :
  ∃ c', cancel offsets c = Ok c' ∧ length c' = length c ∧
    ∀ i s, c !! i = Some s → ∃ s', c' !! i = Some s' ∧
      capacity_bytes s' = capacity_bytes s ∧ entries (state s') = entries (state s) ∧
      ∀ o, o ∈ loading (state s') ↔ o ∈ loading (state s) ∧ ¬ (o ∈ offsets ∧ shard_index c o = i).
Proof.
  exists (imap (cancelled c offsets) c). split; [apply cancel_spec|]. split; [apply length_imap|].
  intros i s Hs. exists (cancelled c offsets i s). split; [by rewrite list_lookup_imap, Hs|].
  split_and!; [done..|]. intros o. cbn. rewrite elem_of_difference, elem_of_list_to_set, list_elem_of_filter. naive_solver.
Qed.
