(* ===== verification/ReadOptions.v ===== *)
(** Reader options and read plans: [core/src/read_options.rs], with the choice of
    the read tier from [core/src/diskann_io.rs].  Latencies are nanoseconds. *)

From S2P Require Import Prelude SeekIo.

Inductive DeploymentProfile : Set := Auto | Memory | LocalStorage | RemoteStorage | ObjectStore.
#[export] Instance DeploymentProfile_eq_dec : EqDecision DeploymentProfile.
Proof. solve_decision. Defined.

Record ReadPlan := Plan { window_bytes : Z; graph_beam_width : Z; filtered_graph_beam_width : Z }.
Definition read_plan (p : DeploymentProfile) : ReadPlan :=
  match p with
  | Auto | LocalStorage => Plan (16 * 1024) 4 4
  | Memory => Plan (4 * 1024) 16 4
  | RemoteStorage => Plan (32 * 1024) 16 4
  | ObjectStore => Plan (64 * 1024) 16 4
  end.

Definition clamp (x lo hi : Z) : Z := Z.max lo (Z.min x hi).
Definition with_capabilities (plan : ReadPlan) (capabilities : SeekReadCapabilities) : ReadPlan :=
  let window := if 0 <? preferred_window_bytes capabilities then preferred_window_bytes capabilities else window_bytes plan in
  let window := clamp window (4 * 1024) (1024 * 1024) in
  let window := div_ceil window (4 * 1024) * (4 * 1024) in
  let window := Z.min window (1024 * 1024) in
  let ranges := max_ranges_per_pread capabilities in
  if 0 <? ranges
  then Plan window (Z.max (Z.min (graph_beam_width plan) ranges) 1) (Z.max (Z.min (filtered_graph_beam_width plan) ranges) 1)
  else Plan window (graph_beam_width plan) (filtered_graph_beam_width plan).

Record ResolvedVectorIndexReaderOptions := Resolved {
  read_tier : DeploymentProfile;
  adjacency_preload_bytes : Z;
  adjacency_cache_bytes : Z;
  max_resident_bytes : Z;
  raw_vector_cache_bytes : Z;
}.
Record VectorIndexReaderOptions := Options {
  memory_budget_bytes : Z;
  cache_overrides : option ResolvedVectorIndexReaderOptions;
}.
Definition default_options : VectorIndexReaderOptions := Options (4 * 1024 * 1024 * 1024) None.
Definition options_new (memory_budget_bytes : Z) : VectorIndexReaderOptions := Options memory_budget_bytes None.

Definition preload_cap (tier : DeploymentProfile) : Z :=
  match tier with
  | Auto | Memory | LocalStorage => 16 * 1024 * 1024
  | RemoteStorage => 32 * 1024 * 1024
  | ObjectStore => 64 * 1024 * 1024
  end.
Definition per_cache_cap (tier : DeploymentProfile) : Z :=
  match tier with
  | RemoteStorage | ObjectStore => USIZE_MAX
  | Auto | Memory | LocalStorage => 64 * 1024 * 1024
  end.

Definition resolve_cache_budgets (options : VectorIndexReaderOptions) (tier : DeploymentProfile)
    (resident_steady_bytes adjacency_section_bytes raw_vector_section_bytes : Z) : ResolvedVectorIndexReaderOptions :=
  match cache_overrides options with
  | Some o => Resolved tier (adjacency_preload_bytes o) (adjacency_cache_bytes o) (max_resident_bytes o) (raw_vector_cache_bytes o)
  | None =>
      let available := saturating_sub (memory_budget_bytes options) resident_steady_bytes in
      let preload := Z.min (Z.min (available / 2) (preload_cap tier)) adjacency_section_bytes in
      let after_preload := saturating_sub available preload in
      let cold_adjacency_bytes := saturating_sub adjacency_section_bytes preload in
      let adjacency := Z.min (Z.min (after_preload / 2) (per_cache_cap tier)) cold_adjacency_bytes in
      let raw := Z.min (Z.min (saturating_sub after_preload adjacency) (per_cache_cap tier)) raw_vector_section_bytes in
      let unassigned := saturating_sub (saturating_sub after_preload adjacency) raw in
      let adjacency_extra :=
        Z.min (Z.min unassigned (saturating_sub (per_cache_cap tier) adjacency)) (saturating_sub cold_adjacency_bytes adjacency) in
      let adjacency := saturating_add 64 adjacency adjacency_extra in
      let unassigned := saturating_sub unassigned adjacency_extra in
      let vector_extra := Z.min (Z.min unassigned (saturating_sub (per_cache_cap tier) raw)) (saturating_sub raw_vector_section_bytes raw) in
      let raw := saturating_add 64 raw vector_extra in
      Resolved tier preload adjacency (memory_budget_bytes options) raw
  end.

Definition classify_read_tier (random_read_latency : Z) : DeploymentProfile :=
  if random_read_latency <? 50 * 1000 then Memory
  else if random_read_latency <? 750 * 1000 then LocalStorage
  else if random_read_latency <? 3 * 1000 * 1000 then RemoteStorage
  else ObjectStore.

(** ** The budgets *)

Lemma min3_spec a b c : let x := Z.min (Z.min a b) c in x <= a ∧ x <= b ∧ x <= c ∧ (x = a ∨ x = b ∨ x = c).
Proof. cbn zeta. lia. Qed.
Lemma saturating_sub_exact a b : b <= a → saturating_sub a b = a - b.
Proof. unfold saturating_sub. lia. Qed.
Lemma saturating_add_exact w a b : a + b < 2 ^ w → saturating_add w a b = a + b.
Proof. unfold saturating_add. lia. Qed.

(** Two shares of a budget, each half first and then what the other leaves. *)
Lemma shares_spec budget cap need1 need2 :
  0 <= budget < 2 ^ 64 → 0 <= cap < 2 ^ 64 → 0 <= need1 < 2 ^ 64 → 0 <= need2 < 2 ^ 64 →
  let a := Z.min (Z.min (budget / 2) cap) need1 in
  let r := Z.min (Z.min (saturating_sub budget a) cap) need2 in
  let u := saturating_sub (saturating_sub budget a) r in
  let a_extra := Z.min (Z.min u (saturating_sub cap a)) (saturating_sub need1 a) in
  let a' := saturating_add 64 a a_extra in
  let u' := saturating_sub u a_extra in
  let r_extra := Z.min (Z.min u' (saturating_sub cap r)) (saturating_sub need2 r) in
  let r' := saturating_add 64 r r_extra in
  0 <= a' <= need1 ∧ 0 <= r' <= need2 ∧ a' + r' <= budget ∧ (a' + r' < budget → a' = Z.min cap need1 ∧ r' = Z.min cap need2).
Proof.
  intros Hb Hc H1 H2 a r u a_extra a' u' r_extra r'.
  pose proof (Z.div_mod budget 2 ltac:(lia)) as Hd. pose proof (Z.mod_pos_bound budget 2 ltac:(lia)) as Hm.
  pose proof (min3_spec (budget / 2) cap need1) as Ha. cbn zeta in Ha. fold a in Ha. clearbody a.
  pose proof (min3_spec (saturating_sub budget a) cap need2) as Hr. cbn zeta in Hr. fold r in Hr. rewrite saturating_sub_exact in Hr by lia. clearbody r.
  assert (u = budget - a - r) as Eu by (unfold u; rewrite (saturating_sub_exact budget a), saturating_sub_exact by lia; done). clearbody u.
  pose proof (min3_spec u (saturating_sub cap a) (saturating_sub need1 a)) as Hae. cbn zeta in Hae. fold a_extra in Hae.
  rewrite !saturating_sub_exact in Hae by lia. clearbody a_extra.
  assert (a' = a + a_extra) as Ea' by (unfold a'; apply saturating_add_exact; lia). clearbody a'.
  assert (u' = u - a_extra) as Eu' by (unfold u'; apply saturating_sub_exact; lia). clearbody u'.
  pose proof (min3_spec u' (saturating_sub cap r) (saturating_sub need2 r)) as Hre. cbn zeta in Hre. fold r_extra in Hre.
  rewrite !saturating_sub_exact in Hre by lia. clearbody r_extra.
  assert (r' = r + r_extra) as Er' by (unfold r'; apply saturating_add_exact; lia). clearbody r'. lia.
Qed.

Lemma cache_budgets_spec (budget steady adjacency_len vectors_len : Z) (tier : DeploymentProfile) :
  usize budget → usize steady → usize adjacency_len → usize vectors_len →
  let o := resolve_cache_budgets (options_new budget) tier steady adjacency_len vectors_len in
  let cap := per_cache_cap tier in
  0 <= adjacency_preload_bytes o ∧ 0 <= adjacency_cache_bytes o ∧ 0 <= raw_vector_cache_bytes o ∧
  (steady <= budget → steady + adjacency_preload_bytes o + adjacency_cache_bytes o + raw_vector_cache_bytes o <= max_resident_bytes o) ∧
  (budget < steady → adjacency_preload_bytes o = 0 ∧ adjacency_cache_bytes o = 0 ∧ raw_vector_cache_bytes o = 0) ∧
  adjacency_preload_bytes o <= preload_cap tier ∧
  adjacency_preload_bytes o + adjacency_cache_bytes o <= adjacency_len ∧ raw_vector_cache_bytes o <= vectors_len ∧
  (steady + adjacency_preload_bytes o + adjacency_cache_bytes o + raw_vector_cache_bytes o < budget →
    adjacency_cache_bytes o = Z.min cap (adjacency_len - adjacency_preload_bytes o) ∧ raw_vector_cache_bytes o = Z.min cap vectors_len).
Proof.
  intros Hb Hs Ha Hv. unfold resolve_cache_budgets, options_new. cbn -[preload_cap per_cache_cap]. unfold_widths.
  assert (0 < preload_cap tier < 18446744073709551616) as Hp by (destruct tier; vm_compute; by split).
  assert (0 < per_cache_cap tier < 18446744073709551616) as Hc by (destruct tier; vm_compute; by split).
  set (pc := preload_cap tier) in *. set (cc := per_cache_cap tier) in *. clearbody pc cc.
  set (av := saturating_sub budget steady). assert (0 <= av ∧ av <= budget ∧ (steady <= budget → av = budget - steady) ∧ (budget < steady → av = 0)) as Hav by (unfold av, saturating_sub; lia).
  clearbody av. pose proof (Z.div_mod av 2 ltac:(lia)) as Hd. pose proof (Z.mod_pos_bound av 2 ltac:(lia)) as Hm.
  set (pre := Z.min (Z.min (av / 2) pc) adjacency_len). pose proof (min3_spec (av / 2) pc adjacency_len) as Hpre. cbn zeta in Hpre. fold pre in Hpre. clearbody pre.
  rewrite (saturating_sub_exact av pre), (saturating_sub_exact adjacency_len pre) by lia.
  destruct (shares_spec (av - pre) cc (adjacency_len - pre) vectors_len) as (H1 & H2 & H3 & H4); [unfold_widths; lia..|]. cbn zeta in H1, H2, H3, H4.
  set (a := saturating_add 64 (Z.min _ _) _) in *. set (r := saturating_add 64 (Z.min _ vectors_len) _) in *. clearbody a r. lia.
Qed.

(** The budgets derived for a reader share its memory: the resident data, the
    preload and the two caches never exceed the memory budget when the resident data fits; no
    cache is larger than the part of the file it can hold or than its cap; and
    no byte is left unassigned while a cache could still use it. *)
Theorem cache_budgets_fit (budget steady adjacency_len vectors_len : Z) (tier : DeploymentProfile) :
  usize budget → usize steady → usize adjacency_len → usize vectors_len →
  let o := resolve_cache_budgets (options_new budget) tier steady adjacency_len vectors_len in
  let cap := per_cache_cap tier in
  0 <= adjacency_preload_bytes o ∧ 0 <= adjacency_cache_bytes o ∧ 0 <= raw_vector_cache_bytes o ∧
  (steady <= budget → steady + adjacency_preload_bytes o + adjacency_cache_bytes o + raw_vector_cache_bytes o <= max_resident_bytes o) ∧
  (budget < steady → adjacency_preload_bytes o = 0 ∧ adjacency_cache_bytes o = 0 ∧ raw_vector_cache_bytes o = 0) ∧
  adjacency_preload_bytes o <= preload_cap tier ∧
  adjacency_preload_bytes o + adjacency_cache_bytes o <= adjacency_len ∧ raw_vector_cache_bytes o <= vectors_len ∧
  (steady + adjacency_preload_bytes o + adjacency_cache_bytes o + raw_vector_cache_bytes o < budget →
    adjacency_cache_bytes o = Z.min cap (adjacency_len - adjacency_preload_bytes o) ∧ raw_vector_cache_bytes o = Z.min cap vectors_len).
Proof. apply cache_budgets_spec. Qed.

(** Whatever the input hints at, a window is whole pages, one at least and a
    mebibyte at most, and the beams respect the ranges of one call. *)
Theorem read_plan_bounds (tier : DeploymentProfile) (capabilities : SeekReadCapabilities) :
  let plan := with_capabilities (read_plan tier) capabilities in
  window_bytes plan mod 4096 = 0 ∧ 4096 <= window_bytes plan <= 1024 * 1024 ∧
  1 <= graph_beam_width plan ∧ 1 <= filtered_graph_beam_width plan <= graph_beam_width plan ∧
  (0 < max_ranges_per_pread capabilities → graph_beam_width plan <= max_ranges_per_pread capabilities) ∧
  (4096 <= preferred_window_bytes capabilities <= 1024 * 1024 →
    preferred_window_bytes capabilities <= window_bytes plan < preferred_window_bytes capabilities + 4096).
Proof.
  cbn zeta. unfold with_capabilities, clamp. set (w := if 0 <? preferred_window_bytes capabilities then _ else _).
  assert (4096 <= preferred_window_bytes capabilities → w = preferred_window_bytes capabilities) as Hw by (unfold w; destruct (Z.ltb_spec 0 (preferred_window_bytes capabilities)); lia).
  clearbody w. change (4 * 1024) with 4096. change (1024 * 1024) with 1048576. set (c := Z.max 4096 (Z.min w 1048576)).
  assert (4096 <= c <= 1048576 ∧ (4096 <= w <= 1048576 → c = w)) as [Hc Hcw] by (unfold c; lia). clearbody c.
  pose proof (div_ceil_spec c 4096 ltac:(lia)) as Hd. set (k := div_ceil c 4096) in *. clearbody k.
  assert (1 <= k <= 256) as Hk by lia. rewrite (Z.min_l (k * 4096)) by lia.
  assert (k * 4096 mod 4096 = 0) as Hmod by apply Z_mod_mult.
  destruct (Z.ltb_spec 0 (max_ranges_per_pread capabilities)); destruct tier; cbn [window_bytes graph_beam_width filtered_graph_beam_width read_plan];
    (split; [done|]); lia.
Qed.

Lemma cache_budgets_fit_witness :
  let o := resolve_cache_budgets (options_new 1000000) LocalStorage 200000 300000 400000 in
  200000 + adjacency_preload_bytes o + adjacency_cache_bytes o + raw_vector_cache_bytes o <= max_resident_bytes o.
Proof.
  destruct (cache_budgets_fit 1000000 200000 300000 400000 LocalStorage) as (_ & _ & _ & Hfit & _); [by vm_compute..|].
  apply Hfit. lia.
Defined.
