(* ===== verification/ValidationCache.v ===== *)
(** The shared record of which adjacency pages have been validated:
    [AdjacencyValidationCache] of [core/src/diskann_io.rs].

    Every atomic operation of [get_or_validate] is one step of the calling
    thread, and the steps of any number of threads interleave.  The wait on the
    condition variable is a step that is enabled once the page is no longer being
    validated; the store and the wake-up of [publish] happen under the lock the
    waiter checks the state with, so no wake-up is lost.  Mutex poisoning is
    ignored by the code and the allocation of the states is taken to succeed. *)

From S2P Require Import Prelude.

Definition ADJACENCY_PAGE_UNVALIDATED : Z := 0.
Definition ADJACENCY_PAGE_VALIDATING : Z := 1.
Definition ADJACENCY_PAGE_VALID : Z := 2.
Definition ADJACENCY_PAGE_INVALID : Z := 3.

(** [CachedValidationError] is the kind and the message, which is an [io_error]. *)
Record AdjacencyValidationCache := ValidationCache {
  page_states : list Z;
  page_errors : gmap nat io_error;
}.
Definition validation_cache_new (page_count : nat) : AdjacencyValidationCache :=
  ValidationCache (replicate page_count ADJACENCY_PAGE_UNVALIDATED) ∅.

(** Where a call of [get_or_validate] stands. *)
Inductive call_state :=
  | Load
  | Exchange
  | Validate
  | RecordError (error : io_error)
  | Publish (state : Z) (result : io_result unit)
  | Release
  | Wait
  | ReadError
  | Returned (result : io_result unit).

(** A call: its page, what its [validate] closure does, and where it stands.  A
    closure that panics unwinds through the claim's [drop]. *)
Record call := Call { call_page : nat; call_verdict : io_result unit; call_at : call_state }.

Definition set_page_state (c : AdjacencyValidationCache) (page : nat) (s : Z) : AdjacencyValidationCache :=
  ValidationCache (<[page := s]> (page_states c)) (page_errors c).

(** [self.states.get(page_index).ok_or_else(..)] *)
Definition get_or_validate_start (c : AdjacencyValidationCache) (page : nat) : call_state :=
  if (page <? length (page_states c))%nat then Load
  else Returned (invalid_data "DiskANN adjacency page is out of range").

(** One atomic step; [None] while the call must wait or has returned. *)
Definition get_or_validate_step (c : AdjacencyValidationCache) (t : call) : option (AdjacencyValidationCache * call_state) :=
  let page := call_page t in
  state ← page_states c !! page;
  match call_at t with
  | Load =>
      Some (c, if state =? ADJACENCY_PAGE_UNVALIDATED then Exchange
               else if state =? ADJACENCY_PAGE_VALIDATING then Wait
               else if state =? ADJACENCY_PAGE_VALID then Returned (Ok ())
               else if state =? ADJACENCY_PAGE_INVALID then ReadError
               else Returned (invalid_data "invalid DiskANN adjacency validation state"))
  | Exchange =>
      if state =? ADJACENCY_PAGE_UNVALIDATED then Some (set_page_state c page ADJACENCY_PAGE_VALIDATING, Validate)
      else Some (c, Load)
  | Validate =>
      Some (c, match call_verdict t with
               | Ok _ => Publish ADJACENCY_PAGE_VALID (Ok ())
               | Err error => RecordError error
               | Panic => Release
               end)
  | RecordError error =>
      Some (ValidationCache (page_states c) (<[page := error]> (page_errors c)), Publish ADJACENCY_PAGE_INVALID (Err error))
  | Publish s result => Some (set_page_state c page s, Returned result)
  | Release => Some (set_page_state c page ADJACENCY_PAGE_UNVALIDATED, Returned Panic)
  | Wait => if state =? ADJACENCY_PAGE_VALIDATING then None else Some (c, Load)
  | ReadError =>
      Some (c, Returned (match page_errors c !! page with
                         | Some error => Err error
                         | None => invalid_data "DiskANN adjacency page failed validation"
                         end))
  | Returned _ => None
  end.

Definition move (t : call) (at_ : call_state) : call := Call (call_page t) (call_verdict t) at_.

(** A call alone: its own steps until it returns. *)
Fixpoint get_or_validate_run (fuel : nat) (c : AdjacencyValidationCache) (t : call) : AdjacencyValidationCache * call_state :=
  match fuel with
  | O => (c, call_at t)
  | S fuel =>
      match get_or_validate_step c t with
      | Some (c, s) => get_or_validate_run fuel c (move t s)
      | None => (c, call_at t)
      end
  end.
(** Load, exchange, validate, record and publish. *)
Definition get_or_validate (c : AdjacencyValidationCache) (page : nat) (verdict : io_result unit) :
    io_result unit * AdjacencyValidationCache :=
  match get_or_validate_run 5 c (Call page verdict (get_or_validate_start c page)) with
  | (c, Returned r) => (r, c)
  | (c, _) => (Panic, c)
  end.

(** *** A call on its own *)

Lemma step_length c t c' s : get_or_validate_step c t = Some (c', s) → length (page_states c') = length (page_states c).
Proof.
  unfold get_or_validate_step. intros H. apply bind_Some in H as (st & _ & H).
  destruct (call_at t); repeat case_match; simplify_eq; cbn; by rewrite ?length_insert.
Qed.
Lemma run_length fuel c t : length (page_states (get_or_validate_run fuel c t).1) = length (page_states c).
Proof.
  revert c t. induction fuel as [|fuel IH]; intros c t; cbn [get_or_validate_run]; [done|].
  destruct (get_or_validate_step c t) as [[c' s]|] eqn:E; [|done]. rewrite IH. by eapply step_length.
Qed.
Lemma get_or_validate_length c page v : length (page_states (get_or_validate c page v).2) = length (page_states c).
Proof.
  unfold get_or_validate. pose proof (run_length 5 c (Call page v (get_or_validate_start c page))) as H.
  destruct (get_or_validate_run 5 c _) as [c' []]; exact H.
Qed.

(** What an undisturbed call does, by the state of the page. *)
Definition settled (c : AdjacencyValidationCache) (page : nat) (v : io_result unit) : io_result unit * AdjacencyValidationCache :=
  match v with
  | Ok _ => (Ok (), set_page_state c page ADJACENCY_PAGE_VALID)
  | Err e => (Err e, ValidationCache (<[page := ADJACENCY_PAGE_INVALID]> (page_states c)) (<[page := e]> (page_errors c)))
  | Panic => (Panic, set_page_state c page ADJACENCY_PAGE_UNVALIDATED)
  end.

Lemma run_step n c t c' s : get_or_validate_step c t = Some (c', s) → get_or_validate_run (S n) c t = get_or_validate_run n c' (move t s).
Proof. intros H. cbn [get_or_validate_run]. by rewrite H. Qed.
Lemma run_returned n c page v r : get_or_validate_run n c (Call page v (Returned r)) = (c, Returned r).
Proof.
  destruct n; [done|]. cbn [get_or_validate_run]. unfold get_or_validate_step. cbn. by destruct (page_states c !! page).
Qed.

Ltac step_at Hs := unfold get_or_validate_step, move; cbn [call_page call_at call_verdict page_states]; rewrite Hs; done.

Lemma get_or_validate_fresh c page v :
  page_states c !! page = Some ADJACENCY_PAGE_UNVALIDATED → get_or_validate c page v = settled c page v.
Proof.
  intros Hs. pose proof (lookup_lt_Some _ _ _ Hs) as Hlt. unfold get_or_validate, get_or_validate_start.
  rewrite (proj2 (Nat.ltb_lt _ _)) by done. set (c1 := set_page_state c page ADJACENCY_PAGE_VALIDATING).
  assert (page_states c1 !! page = Some ADJACENCY_PAGE_VALIDATING) as H1 by (unfold c1; cbn; by rewrite list_lookup_insert_eq).
  rewrite (run_step _ _ _ c Exchange) by step_at Hs.
  rewrite (run_step _ _ _ c1 Validate) by step_at Hs.
  destruct v as [[]|e|]; cbn [settled].
  - rewrite (run_step _ _ _ c1 (Publish ADJACENCY_PAGE_VALID (Ok ()))) by step_at H1.
    rewrite (run_step _ _ _ (set_page_state c1 page ADJACENCY_PAGE_VALID) (Returned (Ok ()))) by step_at H1.
    unfold move. cbn [call_page call_verdict]. rewrite run_returned. unfold c1, set_page_state. cbn. by rewrite list_insert_insert, decide_True.
  - rewrite (run_step _ _ _ c1 (RecordError e)) by step_at H1.
    rewrite (run_step _ _ _ (ValidationCache (page_states c1) (<[page := e]> (page_errors c1))) (Publish ADJACENCY_PAGE_INVALID (Err e)))
      by step_at H1.
    rewrite (run_step _ _ _ (set_page_state (ValidationCache (page_states c1) (<[page := e]> (page_errors c1))) page ADJACENCY_PAGE_INVALID) (Returned (Err e)))
      by step_at H1.
    unfold move. cbn [call_page call_verdict]. rewrite run_returned. unfold c1, set_page_state. cbn. by rewrite list_insert_insert, decide_True.
  - rewrite (run_step _ _ _ c1 Release) by step_at H1.
    rewrite (run_step _ _ _ (set_page_state c1 page ADJACENCY_PAGE_UNVALIDATED) (Returned Panic)) by step_at H1.
    unfold move. cbn [call_page call_verdict]. rewrite run_returned. unfold c1, set_page_state. cbn. by rewrite list_insert_insert, decide_True.
Qed.

(** On a page that is settled, or claimed by another call, nothing changes. *)
Lemma get_or_validate_known c page v s :
  page_states c !! page = Some s → s ≠ ADJACENCY_PAGE_UNVALIDATED →
  get_or_validate c page v =
    (if s =? ADJACENCY_PAGE_VALIDATING then Panic
     else if s =? ADJACENCY_PAGE_VALID then Ok ()
     else if s =? ADJACENCY_PAGE_INVALID
       then match page_errors c !! page with Some e => Err e | None => invalid_data "DiskANN adjacency page failed validation" end
     else invalid_data "invalid DiskANN adjacency validation state", c).
Proof.
  intros Es N0. pose proof (lookup_lt_Some _ _ _ Es) as Hlt. unfold get_or_validate, get_or_validate_start. rewrite (proj2 (Nat.ltb_lt _ _)) by done.
  destruct (Z.eqb_spec s ADJACENCY_PAGE_VALIDATING) as [->|N1].
  { rewrite (run_step _ _ _ c Wait) by step_at Es. cbn [get_or_validate_run].
    replace (get_or_validate_step c _) with (@None (AdjacencyValidationCache * call_state)) by (symmetry; step_at Es). done. }
  destruct (Z.eqb_spec s ADJACENCY_PAGE_VALID) as [->|N2].
  { rewrite (run_step _ _ _ c (Returned (Ok ()))) by step_at Es. unfold move. cbn [call_page call_verdict]. by rewrite run_returned. }
  destruct (Z.eqb_spec s ADJACENCY_PAGE_INVALID) as [->|N3].
  - rewrite (run_step _ _ _ c ReadError) by step_at Es. erewrite run_step by step_at Es.
    unfold move. cbn [call_page call_verdict]. by rewrite run_returned.
  - rewrite (run_step _ _ _ c (Returned (invalid_data "invalid DiskANN adjacency validation state"))).
    + unfold move. cbn [call_page call_verdict]. by rewrite run_returned.
    + unfold get_or_validate_step. cbn [call_page call_at]. rewrite Es. cbn [mbind option_bind]. by rewrite !(proj2 (Z.eqb_neq _ _)) by done.
Qed.

Lemma get_or_validate_out_of_range c page v : page_states c !! page = None → get_or_validate c page v = (invalid_data "DiskANN adjacency page is out of range", c).
Proof.
  intros Hn. unfold get_or_validate, get_or_validate_start. by rewrite (proj2 (Nat.ltb_ge _ _)), run_returned by (by apply lookup_ge_None).
Qed.

(** A call that succeeds leaves its page valid, because its closure accepted it
    or an earlier one did; a page is only marked valid by a closure that accepts it. *)
Lemma get_or_validate_ok c page v c' :
  get_or_validate c page v = (Ok (), c') →
  page_states c' !! page = Some ADJACENCY_PAGE_VALID ∧ (v = Ok () ∨ page_states c !! page = Some ADJACENCY_PAGE_VALID).
Proof.
  intros H. destruct (page_states c !! page) as [s|] eqn:Es; [|by rewrite get_or_validate_out_of_range in H].
  pose proof (lookup_lt_Some _ _ _ Es) as Hlt. destruct (decide (s = ADJACENCY_PAGE_UNVALIDATED)) as [->|N0].
  { rewrite get_or_validate_fresh in H by done. destruct v as [[]|e|]; cbn [settled] in H; [|done..]. injection H as <-.
    cbn. rewrite list_lookup_insert_eq by done. auto. }
  rewrite (get_or_validate_known _ _ _ s) in H by done. injection H as H <-.
  destruct (Z.eqb_spec s ADJACENCY_PAGE_VALIDATING); [done|]. destruct (Z.eqb_spec s ADJACENCY_PAGE_VALID) as [E2|]; [rewrite Es, E2; auto|].
  destruct (s =? ADJACENCY_PAGE_INVALID); [destruct (page_errors c !! page); discriminate H|discriminate H].
Qed.

Lemma get_or_validate_marks c page v q :
  page_states (get_or_validate c page v).2 !! q = Some ADJACENCY_PAGE_VALID →
  page_states c !! q = Some ADJACENCY_PAGE_VALID ∨ q = page ∧ v = Ok ().
Proof.
  intros H. destruct (page_states c !! page) as [s|] eqn:Es; [|rewrite get_or_validate_out_of_range in H by done; by left].
  destruct (decide (s = ADJACENCY_PAGE_UNVALIDATED)) as [->|N0]; [|rewrite (get_or_validate_known _ _ _ s) in H by done; by left].
  rewrite get_or_validate_fresh in H by done. destruct (decide (q = page)) as [->|Hq].
  - destruct v as [[]|e|]; cbn in H; [by right|..]; rewrite list_lookup_insert_eq in H by (by eapply lookup_lt_Some); discriminate H.
  - left. destruct v as [[]|e|]; cbn in H; by rewrite list_lookup_insert_ne in H.
Qed.

Lemma get_or_validate_keeps c page v q :
  page_states c !! q = Some ADJACENCY_PAGE_VALID → page_states (get_or_validate c page v).2 !! q = Some ADJACENCY_PAGE_VALID.
Proof.
  intros H. destruct (page_states c !! page) as [s|] eqn:Es; [|by rewrite get_or_validate_out_of_range].
  destruct (decide (s = ADJACENCY_PAGE_UNVALIDATED)) as [->|N0]; [|by rewrite (get_or_validate_known _ _ _ s)].
  rewrite get_or_validate_fresh by done. assert (q ≠ page) as Hq by (intros ->; rewrite Es in H; discriminate H).
  destruct v as [[]|e|]; cbn; by rewrite list_lookup_insert_ne.
Qed.

(** ** Interleaving *)

Definition system : Type := AdjacencyValidationCache * list call.

Inductive system_step : system → system → Prop :=
  | call_step c c' ts i t s :
      ts !! i = Some t → get_or_validate_step c t = Some (c', s) → system_step (c, ts) (c', <[i := move t s]> ts).

(** [n] steps. *)
Inductive system_steps : nat → system → system → Prop :=
  | steps_none x : system_steps 0 x x
  | steps_more n x y z : system_steps n x y → system_step y z → system_steps (S n) x z.

Definition system_new (page_count : nat) (calls : list (nat * io_result unit)) : system :=
  let c := validation_cache_new page_count in
  (c, (λ pv, Call pv.1 pv.2 (get_or_validate_start c pv.1)) <$> calls).

(** ** The invariant *)

(** The call holds the claim on its page. *)
Definition claims (t : call) : bool :=
  match call_at t with Validate | RecordError _ | Publish _ _ | Release => true | _ => false end.

Definition answered (c : AdjacencyValidationCache) (page : nat) (r : io_result unit) : Prop :=
  match r with
  | Ok _ => page_states c !! page = Some ADJACENCY_PAGE_VALID
  | Err e => page_states c !! page = Some ADJACENCY_PAGE_INVALID ∧ page_errors c !! page = Some e
  | Panic => False
  end.

Definition call_ok (c : AdjacencyValidationCache) (t : call) : Prop :=
  (claims t → page_states c !! call_page t = Some ADJACENCY_PAGE_VALIDATING) ∧
  match call_at t with
  | RecordError e => call_verdict t = Err e
  | Publish s r => r = call_verdict t ∧
      (s = ADJACENCY_PAGE_VALID ∧ r = Ok () ∨
       s = ADJACENCY_PAGE_INVALID ∧ ∃ e, r = Err e ∧ page_errors c !! call_page t = Some e)
  | Release => call_verdict t = Panic
  | ReadError => ∃ e, answered c (call_page t) (Err e)
  | Returned r =>
      (page_states c !! call_page t = None ∧ r = invalid_data "DiskANN adjacency page is out of range") ∨
      answered c (call_page t) r ∨ (r = Panic ∧ call_verdict t = Panic)
  | _ => page_states c !! call_page t ≠ None
  end.

(** Every page in progress has one claim, every settled page a verdict behind it. *)
Record system_ok (c : AdjacencyValidationCache) (ts : list call) : Prop := {
  so_calls : Forall (call_ok c) ts;
  so_claims : ∀ i j ti tj, ts !! i = Some ti → ts !! j = Some tj → claims ti → claims tj → call_page ti = call_page tj → i = j;
  so_pages : ∀ page s, page_states c !! page = Some s →
    s = ADJACENCY_PAGE_UNVALIDATED ∨
    (s = ADJACENCY_PAGE_VALIDATING ∧ ∃ i t, ts !! i = Some t ∧ claims t ∧ call_page t = page) ∨
    ∃ i t, ts !! i = Some t ∧ call_page t = page ∧ answered c page (call_verdict t);
}.

(** A page that is not settled says nothing about the calls that do not claim it. *)
Lemma call_ok_idle c c' t s s' :
  call_ok c t → page_states c !! call_page t = Some s → s = ADJACENCY_PAGE_UNVALIDATED ∨ s = ADJACENCY_PAGE_VALIDATING →
  claims t = false → page_states c' !! call_page t = Some s' → call_ok c' t.
Proof.
  intros [_ Hok] Hs Hor Hcl Hs'. unfold call_ok. rewrite Hcl. split; [done|].
  unfold claims in Hcl. destruct (call_at t) as [| | | | | | | |r]; try done; try (by rewrite Hs').
  - destruct Hok as (e & Hok & _). rewrite Hs in Hok. by destruct Hor; simplify_eq.
  - destruct Hok as [[E _]|[Ha|?]]; [by rewrite Hs in E| |by right; right].
    exfalso. destruct r; cbn in Ha; [|destruct Ha as [Ha _]|done]; rewrite Hs in Ha; by destruct Hor; simplify_eq.
Qed.

Lemma call_ok_other c c' t :
  call_ok c t → page_states c' !! call_page t = page_states c !! call_page t →
  page_errors c' !! call_page t = page_errors c !! call_page t → call_ok c' t.
Proof.
  intros [H1 H2] E1 E2. unfold call_ok. rewrite E1. split; [done|].
  destruct (call_at t) as [| | | | | | | |r]; try done.
  - by rewrite E2.
  - cbn. by rewrite E1, E2.
  - destruct r; cbn [answered] in *; by rewrite ?E1, ?E2.
Qed.

(** A step of one call changes at most the entries of its page, and those only
    while the page is not settled. *)
Definition local_change (c c' : AdjacencyValidationCache) (page : nat) : Prop :=
  length (page_states c') = length (page_states c) ∧
  (∀ q, q ≠ page → page_states c' !! q = page_states c !! q ∧ page_errors c' !! q = page_errors c !! q) ∧
  (c' = c ∨ ∃ s, page_states c !! page = Some s ∧ (s = ADJACENCY_PAGE_UNVALIDATED ∨ s = ADJACENCY_PAGE_VALIDATING)).

Lemma local_change_refl c page : local_change c c page.
Proof. split_and!; [done|done|by left]. Qed.

Lemma local_change_state c page s s' :
  page_states c !! page = Some s → s = ADJACENCY_PAGE_UNVALIDATED ∨ s = ADJACENCY_PAGE_VALIDATING →
  local_change c (set_page_state c page s') page ∧ page_states (set_page_state c page s') !! page = Some s'.
Proof.
  intros Hs Hor. cbn. split; [split_and!|by rewrite list_lookup_insert_eq by by eapply lookup_lt_Some].
  - cbn. by rewrite length_insert.
  - intros q Hq. cbn. by rewrite list_lookup_insert_ne by done.
  - right. by exists s.
Qed.

Record step_result (c c' : AdjacencyValidationCache) (t : call) (s : call_state) : Prop := {
  sr_local : local_change c c' (call_page t);
  sr_ok : call_ok c' (move t s);
  sr_claimed : claims t → claims (move t s) ∨ page_states c' !! call_page t = Some ADJACENCY_PAGE_UNVALIDATED ∨
    answered c' (call_page t) (call_verdict t);
  sr_unclaimed : claims t = false → claims (move t s) = false ∧ c' = c ∨
    page_states c !! call_page t = Some ADJACENCY_PAGE_UNVALIDATED ∧ claims (move t s);
}.

Definition page_sound (c : AdjacencyValidationCache) (page : nat) : Prop :=
  ∀ st, page_states c !! page = Some st →
    st = ADJACENCY_PAGE_UNVALIDATED ∨ st = ADJACENCY_PAGE_VALIDATING ∨ ∃ r, answered c page r.

Lemma step_spec c t c' s :
  call_ok c t → page_sound c (call_page t) → get_or_validate_step c t = Some (c', s) →
  step_result c c' t s.
Proof.
  intros [Hcl Hok] Hrange H. unfold get_or_validate_step in H.
  destruct (page_states c !! call_page t) as [st|] eqn:Est; [|done]. cbn [mbind option_bind] in H. specialize (Hrange st Est).
  unfold claims in Hcl. destruct (call_at t) as [| | |e|st' r| | | |] eqn:Eat; try specialize (Hcl I); simplify_eq.
  - split; [apply local_change_refl| |unfold claims; by rewrite Eat|left; split; [|done]; unfold claims; by repeat case_match].
    destruct Hrange as [->|[->|([[]|e|] & Ha)]].
    + split; [done|]. cbn. by rewrite Est.
    + split; [done|]. cbn. by rewrite Est.
    + cbn in Ha. rewrite Est in Ha. injection Ha as ->. split; [done|]. cbn. by right; left.
    + destruct Ha as [Ha He]. rewrite Est in Ha. injection Ha as ->. split; [done|]. cbn. by exists e.
    + done.
  - destruct (Z.eqb_spec st ADJACENCY_PAGE_UNVALIDATED) as [->|]; simplify_eq.
    + destruct (local_change_state c (call_page t) _ ADJACENCY_PAGE_VALIDATING Est ltac:(by left)) as [Hl Hs].
      split; [done| |by unfold claims; rewrite Eat|by right]. split; [done|]. cbn [call_at move call_page]. by rewrite Hs.
    + split; [apply local_change_refl| |by unfold claims; rewrite Eat|by left]. split; [done|]. cbn. by rewrite Est.
  - split; [apply local_change_refl| |intros _; left; unfold claims; by destruct (call_verdict t)|unfold claims; by rewrite Eat].
    split; [intros _; exact Est|]. cbn. destruct (call_verdict t) as [[]| |] eqn:Ev; cbn; try done. split; [done|]. by left.
  - split.
    + split_and!; [done| |right; exists ADJACENCY_PAGE_VALIDATING; split; [done|by right]].
      intros q Hq. cbn. by rewrite lookup_insert_ne.
    + split; [intros _; exact Est|]. cbn. split; [done|]. right. split; [done|]. exists e. by rewrite lookup_insert_eq.
    + by left.
    + unfold claims. by rewrite Eat.
  - destruct (local_change_state c (call_page t) _ st' Est ltac:(right; congruence)) as [Hl Hs]. destruct Hok as [-> Hst].
    assert (answered (set_page_state c (call_page t) st') (call_page t) (call_verdict t)) as Ha.
    { destruct Hst as [[-> ->]|(-> & e & -> & He)]; cbn; [done|]. by split. }
    split; [done| |by right; right|unfold claims; by rewrite Eat]. split; [done|]. by right; left.
  - destruct (local_change_state c (call_page t) _ ADJACENCY_PAGE_UNVALIDATED Est ltac:(right; congruence)) as [Hl Hs].
    split; [done| |by right; left|unfold claims; by rewrite Eat]. split; [done|]. by right; right.
  - destruct (Z.eqb_spec st ADJACENCY_PAGE_VALIDATING); simplify_eq.
    split; [apply local_change_refl| |by unfold claims; rewrite Eat|by left]. split; [done|]. cbn. by rewrite Est.
  - split; [apply local_change_refl| |by unfold claims; rewrite Eat|by left]. split; [done|]. cbn.
    destruct Hok as (e & Hs & He). rewrite He. by right; left.
Qed.

Lemma answered_local c c' page q r : local_change c c' page → q ≠ page → answered c q r → answered c' q r.
Proof. intros (_ & H & _) Hq. destruct (H q Hq) as [E1 E2]. destruct r; cbn; by rewrite ?E1, ?E2. Qed.

Section Step.
Context (c c' : AdjacencyValidationCache) (ts : list call) (i : nat) (t : call) (s : call_state).
Context (Hok : system_ok c ts) (Hi : ts !! i = Some t) (Hstep : get_or_validate_step c t = Some (c', s)).

Lemma call_of_system : call_ok c t.
Proof. exact (Forall_lookup_1 _ _ _ _ (so_calls _ _ Hok) Hi). Qed.

Lemma system_step_result : step_result c c' t s.
Proof.
  apply step_spec; [apply call_of_system| |done]. intros st Hst.
  destruct (so_pages _ _ Hok _ _ Hst) as [?|[[? _]|(j & tj & _ & _ & Ha)]]; eauto.
Qed.

Lemma claimant_alone j tj : ts !! j = Some tj → j ≠ i → call_page tj = call_page t → c' ≠ c ∨ claims (move t s) → claims tj = false.
Proof.
  intros Hj Hne Hp Hc. destruct (claims tj) eqn:Ecl; [exfalso|done].
  destruct (claims t) eqn:Et; [apply Hne, (so_claims _ _ Hok _ _ _ _ Hj Hi); by rewrite ?Ecl, ?Et|].
  pose proof (Forall_lookup_1 _ _ _ _ (so_calls _ _ Hok) Hj) as [Hs _]. rewrite Ecl, Hp in Hs. specialize (Hs I).
  destruct (sr_unclaimed _ _ _ _ system_step_result Et) as [[E ->]|[E _]]; [destruct Hc as [?|Hc]; [done|by rewrite E in Hc]|].
  by rewrite Hs in E.
Qed.

Lemma other_call_ok j tj : ts !! j = Some tj → j ≠ i → call_ok c' tj.
Proof.
  intros Hj Hne. pose proof (Forall_lookup_1 _ _ _ _ (so_calls _ _ Hok) Hj) as Hcj. cbn in Hcj.
  destruct (sr_local _ _ _ _ system_step_result) as (Hlen & Hother & Hcase).
  destruct (decide (call_page tj = call_page t)) as [Hp|Hp]; [|destruct (Hother _ Hp); by apply (call_ok_other c)].
  destruct Hcase as [->|(st & Hst & Hor)]; [done|].
  assert (c' = c ∨ claims tj = false) as [->|Hcl]; [|done|].
  { destruct (claims tj) eqn:E; [left|by right]. destruct (claims t) eqn:Et.
    - exfalso. apply Hne, (so_claims _ _ Hok _ _ _ _ Hj Hi); by rewrite ?E, ?Et.
    - destruct (sr_unclaimed _ _ _ _ system_step_result Et) as [[_ ?]|[E0 Hm]]; [done|].
      rewrite (claimant_alone j tj Hj Hne Hp) in E; [done|by right]. }
  destruct (lookup_lt_is_Some_2 (page_states c') (call_page tj)) as [st' Hst'];
    [rewrite Hlen, Hp; by eapply lookup_lt_Some|].
  rewrite <- Hp in Hst. by apply (call_ok_idle c c' tj st st').
Qed.

Lemma claims_after j k tj tk :
  <[i := move t s]> ts !! j = Some tj → <[i := move t s]> ts !! k = Some tk → claims tj → claims tk →
  call_page tj = call_page tk → j = k.
Proof.
  intros Hj Hk Cj Ck Hp. rewrite list_lookup_insert_Some in Hj, Hk.
  destruct Hj as [(<- & <- & _)|[Hij Hj]], Hk as [(<- & <- & _)|[Hik Hk]]; [done| | |by eapply (so_claims _ _ Hok)].
  - exfalso. cbn in Hp. by rewrite (claimant_alone k tk Hk) in Ck; [|done..|right].
  - exfalso. cbn in Hp. by rewrite (claimant_alone j tj Hj) in Cj; [|done..|right].
Qed.

Lemma pages_after page st :
  page_states c' !! page = Some st →
  st = ADJACENCY_PAGE_UNVALIDATED ∨
  (st = ADJACENCY_PAGE_VALIDATING ∧ ∃ j tj, <[i := move t s]> ts !! j = Some tj ∧ claims tj ∧ call_page tj = page) ∨
  ∃ j tj, <[i := move t s]> ts !! j = Some tj ∧ call_page tj = page ∧ answered c' page (call_verdict tj).
Proof.
  intros Hst. pose proof system_step_result as Hr. destruct (sr_local _ _ _ _ Hr) as (Hlen & Hother & _).
  assert (<[i := move t s]> ts !! i = Some (move t s)) as Hnew by (rewrite list_lookup_insert_eq; [done|by eapply lookup_lt_Some]).
  assert (∀ j tj, j ≠ i → ts !! j = Some tj → <[i := move t s]> ts !! j = Some tj) as Hold by (intros; by rewrite list_lookup_insert_ne).
  destruct (decide (page = call_page t)) as [->|Hp].
  - assert (claims (move t s) → st = ADJACENCY_PAGE_VALIDATING) as Hcl1.
    { intros Hm. pose proof (proj1 (sr_ok _ _ _ _ Hr) Hm) as E. cbn in E. rewrite Hst in E. by injection E. }
    destruct (claims t) eqn:Et.
    + destruct (sr_claimed _ _ _ _ Hr ltac:(by rewrite Et)) as [Hm|[E|Ha]]; [right; left; split; [auto|by exists i, (move t s)]|rewrite Hst in E; injection E; auto|].
      right; right. by exists i, (move t s).
    + destruct (sr_unclaimed _ _ _ _ Hr Et) as [[Hm ->]|[_ Hm]]; [|right; left; split; [auto|by exists i, (move t s)]].
      destruct (so_pages _ _ Hok _ _ Hst) as [?|[(-> & j & tj & Hj & Hcj & Hpj)|(j & tj & Hj & Hpj & Ha)]]; [by left|right; left|right; right].
      * split; [done|]. exists j, tj. split_and!; [|done|done]. apply Hold; [|done]. intros ->. rewrite Hi in Hj. simplify_eq. by rewrite Et in Hcj.
      * destruct (decide (j = i)) as [->|Hne]; [|exists j, tj; auto]. rewrite Hi in Hj. simplify_eq. by exists i, (move tj s).
  - destruct (Hother _ Hp) as [E _]. rewrite E in Hst.
    assert (∀ j tj, ts !! j = Some tj → call_page tj = page → j ≠ i) as Hne by (intros j tj Hj <- ->; apply Hp; congruence).
    destruct (so_pages _ _ Hok _ _ Hst) as [?|[(-> & j & tj & Hj & Hcj & Hpj)|(j & tj & Hj & Hpj & Ha)]]; [by left|right; left|right; right].
    + split; [done|]. exists j, tj. by eauto.
    + exists j, tj. split_and!; [by eauto|done|]. by eapply answered_local; [apply Hr| |].
Qed.

Lemma system_ok_after : system_ok c' (<[i := move t s]> ts).
Proof.
  split; [|exact claims_after|exact pages_after]. apply Forall_lookup_2. intros j tj Hj. rewrite list_lookup_insert_Some in Hj.
  destruct Hj as [(_ & <- & _)|[Hne Hj]]; [apply system_step_result|by eapply other_call_ok].
Qed.
End Step.

Lemma system_new_ok page_count calls : system_ok (system_new page_count calls).1 (system_new page_count calls).2.
Proof.
  unfold system_new. cbn [fst snd]. set (c := validation_cache_new page_count).
  assert (∀ page, get_or_validate_start c page = Load ∧ page_states c !! page = Some ADJACENCY_PAGE_UNVALIDATED ∨
    get_or_validate_start c page = Returned (invalid_data "DiskANN adjacency page is out of range") ∧ page_states c !! page = None) as Hstart.
  { intros page. unfold get_or_validate_start, c, validation_cache_new. cbn [page_states]. rewrite length_replicate.
    destruct (Nat.ltb_spec page page_count); [left|right]; (split; [done|]).
    - by rewrite lookup_replicate_2.
    - by rewrite lookup_ge_None_2 by (rewrite length_replicate; lia). }
  clearbody c. assert (∀ i t, ((λ pv, Call pv.1 pv.2 (get_or_validate_start c pv.1)) <$> calls) !! i = Some t →
    ∃ page v, t = Call page v (get_or_validate_start c page)) as Hcalls.
  { intros i t Ht. rewrite list_lookup_fmap in Ht. destruct (calls !! i) as [[page v]|]; [|done]. injection Ht as <-. eauto. }
  split.
  - apply Forall_lookup_2. intros i t Ht. destruct (Hcalls _ _ Ht) as (page & v & ->). unfold call_ok, claims. cbn.
    destruct (Hstart page) as [[-> Hs]|[-> Hs]]; cbn; (split; [done|]); [by rewrite Hs|by left].
  - intros i j ti tj Hti _ Hc. destruct (Hcalls _ _ Hti) as (page & v & ->). unfold claims in Hc. cbn in Hc.
    by destruct (Hstart page) as [[E _]|[E _]]; rewrite E in Hc.
  - intros page st Hst. left. destruct (Hstart page) as [[_ Hs]|[_ Hs]]; rewrite Hst in Hs; [by injection Hs|done].
Qed.

(** ** Termination *)

(** The changes of the page's state a call may still make, and the steps it can
    take before the next one. *)
Definition changes_left (t : call) : Z :=
  if claims t then 1 else match call_at t with Load | Exchange | Wait => 2 | _ => 0 end.
Definition steps_left (c : AdjacencyValidationCache) (t : call) : Z :=
  let is_ s := bool_decide (page_states c !! call_page t = Some s) in
  match call_at t with
  | Load | RecordError _ => 2
  | Exchange => if is_ ADJACENCY_PAGE_UNVALIDATED then 1 else 3
  | Wait => if is_ ADJACENCY_PAGE_VALIDATING then 1 else 3
  | Validate => 3
  | Publish _ _ | Release | ReadError => 1
  | Returned _ => 0
  end.
Definition work_left (c : AdjacencyValidationCache) (ts : list call) : Z :=
  zsum changes_left ts * (3 * zlen ts + 1) + zsum (steps_left c) ts.

Lemma zsum_insert {A} (f : A → Z) l i x y : l !! i = Some x → zsum f (<[i := y]> l) = zsum f l - f x + f y.
Proof.
  unfold zsum. revert i. induction l as [|a l IH]; intros [|i] Hi; [done|done|injection Hi as ->; cbn; lia|].
  change (<[S i := y]> (a :: l)) with (a :: <[i := y]> l). cbn [foldr]. rewrite (IH i Hi). lia.
Qed.
Lemma zsum_bounds {A} (f : A → Z) l b : (∀ a, 0 <= f a <= b) → 0 <= zsum f l <= b * zlen l.
Proof. intros H. unfold zsum. induction l as [|a l IH]; [unfold zlen; cbn; lia|]. rewrite zlen_cons. cbn [foldr]. specialize (H a). lia. Qed.
Lemma zsum_ext {A} (f g : A → Z) l : (∀ a, f a = g a) → zsum f l = zsum g l.
Proof. intros H. unfold zsum. induction l as [|a l IH]; [done|]. cbn [foldr]. by rewrite H, IH. Qed.

Lemma changes_left_bounds t : 0 <= changes_left t <= 2.
Proof. unfold changes_left. repeat case_match; lia. Qed.
Lemma steps_left_bounds c t : 0 <= steps_left c t <= 3.
Proof. unfold steps_left. repeat case_match; lia. Qed.

Ltac made_progress := cbn; first [left; lia | right; split_and!; [done|lia|lia]].

Lemma step_progress c t c' s :
  get_or_validate_step c t = Some (c', s) →
  changes_left (move t s) + 1 <= changes_left t ∨
  page_states c' = page_states c ∧ changes_left (move t s) <= changes_left t ∧ steps_left c (move t s) + 1 <= steps_left c t.
Proof.
  unfold get_or_validate_step. destruct (page_states c !! call_page t) as [st|] eqn:Est; [|done]. cbn [mbind option_bind].
  unfold changes_left, steps_left, claims, move. cbn [call_at call_page]. rewrite !Est.
  destruct (call_at t); intros H; simplify_eq; try made_progress.
  - repeat match goal with |- context [if st =? ?k then _ else _] =>
      destruct (Z.eqb_spec st k) as [->|]; [rewrite ?bool_decide_true by done; made_progress|] end. made_progress.
  - destruct (Z.eqb_spec st ADJACENCY_PAGE_UNVALIDATED) as [->|Hne]; simplify_eq; [made_progress|].
    rewrite bool_decide_false by congruence. made_progress.
  - destruct (call_verdict t); made_progress.
  - destruct (Z.eqb_spec st ADJACENCY_PAGE_VALIDATING) as [->|Hne]; simplify_eq.
    rewrite bool_decide_false by congruence. made_progress.
Qed.

Lemma system_step_work c ts c' ts' : system_step (c, ts) (c', ts') → work_left c' ts' + 1 <= work_left c ts ∧ length ts' = length ts.
Proof.
  intros H. inversion H as [? ? ? i t s Hi Hstep]; subst. split; [|by rewrite length_insert].
  unfold work_left. rewrite (zsum_insert changes_left _ _ _ _ Hi).
  assert (zlen (<[i := move t s]> ts) = zlen ts) as -> by (unfold zlen; by rewrite length_insert).
  pose proof (zsum_bounds (steps_left c') (<[i := move t s]> ts) 3 (steps_left_bounds c')) as B1.
  assert (zlen (<[i := move t s]> ts) = zlen ts) as El by (unfold zlen; by rewrite length_insert). rewrite El in B1.
  pose proof (zsum_bounds (steps_left c) ts 3 (steps_left_bounds c)) as B2. pose proof (zlen_nonneg ts).
  destruct (step_progress _ _ _ _ Hstep) as [Hc|(Es & Hc & Hs)]; [nia|].
  rewrite (zsum_ext (steps_left c') (steps_left c)) by (intros a; unfold steps_left; by rewrite Es).
  rewrite (zsum_insert (steps_left c) _ _ _ _ Hi). nia.
Qed.

(** What every reachable system satisfies, [n] steps after the start. *)
Record reached (page_count : nat) (calls : list (nat * io_result unit)) (n : nat) (c : AdjacencyValidationCache) (ts : list call) : Prop := {
  re_ok : system_ok c ts;
  re_length : length (page_states c) = page_count;
  re_calls : (λ t, (call_page t, call_verdict t)) <$> ts = calls;
  re_work : Z.of_nat n + work_left c ts <= 2 * zlen calls * (3 * zlen calls + 1) + 3 * zlen calls;
}.

Lemma steps_reached page_count calls n c ts :
  system_steps n (system_new page_count calls) (c, ts) → reached page_count calls n c ts.
Proof.
  remember (system_new page_count calls) as x eqn:Ex. remember (c, ts) as y eqn:Ey. intros H. revert c ts Ey.
  induction H as [x|n x y z Hxy IH Hyz]; intros c ts ->.
  - pose proof (system_new_ok page_count calls) as Hok. rewrite <- Ex in Hok. cbn in Hok. split; [done|by injection Ex as -> _; cbn; rewrite length_replicate| |].
    + injection Ex as -> ->. rewrite <- list_fmap_compose. rewrite <- (list_fmap_id calls) at 2. apply list_fmap_ext. by intros ? [].
    + assert (zlen ts = zlen calls) as El by (injection Ex as _ ->; unfold zlen; by rewrite length_fmap). unfold work_left.
      pose proof (zsum_bounds changes_left ts 2 changes_left_bounds) as B1. pose proof (zsum_bounds (steps_left c) ts 3 (steps_left_bounds c)) as B2.
      rewrite El in *. pose proof (zlen_nonneg calls). nia.
  - destruct y as [c1 ts1]. destruct (IH Ex c1 ts1 eq_refl) as [Hok Hlen Hcalls Hwork].
    destruct (system_step_work _ _ _ _ Hyz) as [Hw Hl]. inversion Hyz as [? ? ? i t s Hi Hstep]; subst.
    split; [by eapply system_ok_after|by rewrite <- (proj1 (sr_local _ _ _ _ (system_step_result _ _ _ _ _ _ Hok Hi Hstep)))| |lia].
    rewrite list_fmap_insert. cbn. apply list_insert_id. by rewrite list_lookup_fmap, Hi.
Qed.

Lemma answered_unique c page r1 r2 : answered c page r1 → answered c page r2 → r1 = r2.
Proof. destruct r1 as [[]| |], r2 as [[]| |]; cbn; try done; naive_solver congruence. Qed.

Lemma unfinished_can_step c ts i t :
  system_ok c ts → ts !! i = Some t → (∀ r, call_at t ≠ Returned r) → ∃ y, system_step (c, ts) y.
Proof.
  intros Hok Hi Hnr.
  assert (∀ j tj st, ts !! j = Some tj → page_states c !! call_page tj = Some st → (∀ r, call_at tj ≠ Returned r) →
    call_at tj ≠ Wait ∨ st ≠ ADJACENCY_PAGE_VALIDATING → ∃ y, system_step (c, ts) y) as Hgo.
  { intros j tj st Hj Hst Hn Hw. destruct (get_or_validate_step c tj) as [[c' s]|] eqn:E; [eexists; by econstructor|exfalso].
    unfold get_or_validate_step in E. rewrite Hst in E. cbn [mbind option_bind] in E. destruct (call_at tj) eqn:Eat; try done.
    - by destruct (st =? _).
    - destruct (Z.eqb_spec st ADJACENCY_PAGE_VALIDATING); [|done]. by destruct Hw.
    - by eapply Hn. }
  pose proof (Forall_lookup_1 _ _ _ _ (so_calls _ _ Hok) Hi) as [Hcl Hat].
  assert (∃ st, page_states c !! call_page t = Some st) as [st Hst].
  { destruct (page_states c !! call_page t) as [st|] eqn:E; [by exists st|exfalso]. unfold claims in Hcl.
    destruct (call_at t); try done; try (by specialize (Hcl I)); [|by eapply Hnr]. destruct Hat as (? & Hat & _). by rewrite E in Hat. }
  destruct (so_pages _ _ Hok _ _ Hst) as [->|[(-> & j & tj & Hj & Hc & Hp)|(j & tj & _ & _ & Ha)]].
  - apply (Hgo i t _ Hi Hst Hnr). by right.
  - apply (Hgo j tj ADJACENCY_PAGE_VALIDATING Hj); [by rewrite Hp| |left]; unfold claims in Hc; by destruct (call_at tj).
  - apply (Hgo i t _ Hi Hst Hnr). right. intros ->. destruct (call_verdict tj); cbn in Ha; [|destruct Ha as [Ha _]|done]; by rewrite Hst in Ha.
Qed.

Definition finished (t : call) : bool := match call_at t with Returned _ => true | _ => false end.
Lemma finished_returned t : finished t = true → ∃ r, call_at t = Returned r.
Proof. unfold finished. destruct (call_at t); try done. eauto. Qed.

(** ** Properties *)

(** C8: However the calls that validate pages interleave, at most one of them is
    validating any page, and all calls on a page get the same answer: the verdict
    of one of them, an error with its kind and message included.  A call panics
    only when its own closure does, which leaves the page for another call, and
    only a page out of range is answered without a verdict. *)
Theorem validation_cache_agrees (page_count n : nat) (calls : list (nat * io_result unit)) (c : AdjacencyValidationCache)
    (ts : list call) :
  system_steps n (system_new page_count calls) (c, ts) →
  (∀ i j ti tj, ts !! i = Some ti → ts !! j = Some tj → claims ti → claims tj → call_page ti = call_page tj → i = j) ∧
  (∀ i t r, ts !! i = Some t → call_at t = Returned r →
     ((page_count ≤ call_page t)%nat ∧ r = invalid_data "DiskANN adjacency page is out of range") ∨
     (r = Panic ∧ calls !! i = Some (call_page t, Panic)) ∨ r ≠ Panic ∧ ∃ j, calls !! j = Some (call_page t, r)) ∧
  (∀ i j ti tj ri rj, ts !! i = Some ti → ts !! j = Some tj → call_page ti = call_page tj →
     call_at ti = Returned ri → call_at tj = Returned rj → ri ≠ Panic → rj ≠ Panic → ri = rj).
Proof.
  intros H. apply steps_reached in H as [Hok Hlen Hcalls _].
  assert (∀ i t, ts !! i = Some t → calls !! i = Some (call_page t, call_verdict t)) as Hof
    by (intros i t Hi; by rewrite <- Hcalls, list_lookup_fmap, Hi).
  assert (∀ i t r, ts !! i = Some t → call_at t = Returned r →
     (page_states c !! call_page t = None ∧ r = invalid_data "DiskANN adjacency page is out of range") ∨
     answered c (call_page t) r ∨ (r = Panic ∧ call_verdict t = Panic)) as Hret.
  { intros i t r Hi Hr. pose proof (Forall_lookup_1 _ _ _ _ (so_calls _ _ Hok) Hi) as [_ Hat]. by rewrite Hr in Hat. }
  split_and!; [apply Hok| |].
  - intros i t r Hi Hr. destruct (Hret i t r Hi Hr) as [[Hs ->]|[Ha|[-> Hv]]]; [left|right; right|right; left].
    + split; [|done]. apply lookup_ge_None in Hs. lia.
    + split; [by intros ->|]. assert (∃ st, page_states c !! call_page t = Some st) as [st Hst] by (destruct r; cbn in Ha; naive_solver).
      destruct (so_pages _ _ Hok _ _ Hst) as [->|[[-> _]|(j & tj & Hj & Hp & Hv)]];
        [destruct r; cbn in Ha; by naive_solver congruence..|].
      exists j. rewrite (answered_unique _ _ _ _ Ha Hv), <- Hp. by apply Hof.
    + split; [done|]. rewrite (Hof i t Hi). by rewrite Hv.
  - intros i j ti tj ri rj Hi Hj Hp Hri Hrj Hni Hnj.
    destruct (Hret _ _ _ Hi Hri) as [[Ei ->]|[Hai|[? _]]], (Hret _ _ _ Hj Hrj) as [[Ej ->]|[Haj|[? _]]]; try done.
    + exfalso. rewrite Hp in Ei. destruct rj; cbn in Haj; naive_solver congruence.
    + exfalso. rewrite Hp in Hai. destruct ri; cbn in Hai; naive_solver congruence.
    + rewrite Hp in Hai. by eapply answered_unique.
Qed.

(** C9: The calls that validate pages never deadlock and always finish: under any
    schedule some call can move while one has not returned, and the number of
    steps is bounded by the number of calls alone. *)
Theorem validation_cache_terminates (page_count n : nat) (calls : list (nat * io_result unit)) (c : AdjacencyValidationCache)
    (ts : list call) :
  system_steps n (system_new page_count calls) (c, ts) →
  Z.of_nat n <= 6 * zlen calls * zlen calls + 5 * zlen calls ∧
  ((∀ i t, ts !! i = Some t → ∃ r, call_at t = Returned r) ∨ ∃ y, system_step (c, ts) y).
Proof.
  intros H. apply steps_reached in H as [Hok _ _ Hw]. split.
  - pose proof (zsum_bounds changes_left ts 2 changes_left_bounds). pose proof (zsum_bounds (steps_left c) ts 3 (steps_left_bounds c)).
    unfold work_left in Hw. pose proof (zlen_nonneg ts). nia.
  - destruct (forallb finished ts) eqn:E.
    + left. intros i t Hi. rewrite forallb_forall in E. apply finished_returned, E, list_elem_of_In. by eapply list_elem_of_lookup_2.
    + right. apply not_true_iff_false in E. rewrite forallb_forall in E.
      destruct (decide (Exists (λ t, ¬ finished t) ts)) as [He|Hne].
      * apply Exists_exists in He as (t & Ht & Hat). apply list_elem_of_lookup_1 in Ht as [i Hi].
        apply (unfinished_can_step c ts i t Hok Hi). intros r Er. apply Hat. unfold finished. by rewrite Er.
      * exfalso. apply E. intros t Ht. apply Is_true_true. destruct (decide (finished t)) as [|Hn]; [done|].
        exfalso. apply Hne, Exists_exists. exists t. split; [by apply list_elem_of_In|done].
Qed.

(** Three calls on two pages; the second page is invalid, the first call on it panics. *)
Definition demo_calls : list (nat * io_result unit) :=
  [(0%nat, Ok ()); (1%nat, Panic); (1%nat, invalid_data "bad"); (1%nat, invalid_data "bad"); (7%nat, Ok ())].
(** Run a schedule of call numbers. *)
Fixpoint run_schedule (schedule : list nat) (x : system) : system :=
  match schedule with
  | [] => x
  | i :: schedule =>
      match x.2 !! i with
      | Some t => match get_or_validate_step x.1 t with
                  | Some (c, s) => run_schedule schedule (c, <[i := move t s]> x.2)
                  | None => run_schedule schedule x
                  end
      | None => run_schedule schedule x
      end
  end.
Lemma run_schedule_steps schedule n x y : system_steps n x y → ∃ m, system_steps m x (run_schedule schedule y).
Proof.
  revert n y. induction schedule as [|i schedule IH]; intros n y H; cbn; [by exists n|].
  destruct (y.2 !! i) as [t|] eqn:Hi; [|by eapply IH]. destruct (get_or_validate_step y.1 t) as [[c s]|] eqn:E; [|by eapply IH].
  eapply (IH (S n)), steps_more; [exact H|]. destruct y as [c0 ts]. by eapply call_step.
Qed.
Definition demo_schedule : list nat := concat (replicate 12 [1; 2; 0; 3; 4])%nat.
Definition demo_end : system := run_schedule demo_schedule (system_new 2 demo_calls).

Lemma validation_cache_agrees_witness :
  (call_at <$> demo_end.2) = [Returned (Ok ()); Returned Panic; Returned (invalid_data "bad"); Returned (invalid_data "bad");
    Returned (invalid_data "DiskANN adjacency page is out of range")] ∧
  ∀ i j ti tj ri rj, demo_end.2 !! i = Some ti → demo_end.2 !! j = Some tj → call_page ti = call_page tj →
     call_at ti = Returned ri → call_at tj = Returned rj → ri ≠ Panic → rj ≠ Panic → ri = rj.
Proof.
  split; [vm_compute; reflexivity|].
  destruct (run_schedule_steps demo_schedule 0 _ _ (steps_none (system_new 2 demo_calls))) as [m Hm].
  exact (proj2 (proj2 (validation_cache_agrees 2 m demo_calls demo_end.1 demo_end.2 Hm))).
Defined.

Lemma validation_cache_terminates_witness :
  ∃ m, Z.of_nat m <= 6 * zlen demo_calls * zlen demo_calls + 5 * zlen demo_calls ∧
    system_steps m (system_new 2 demo_calls) demo_end.
Proof.
  destruct (run_schedule_steps demo_schedule 0 _ _ (steps_none (system_new 2 demo_calls))) as [m Hm].
  exists m. split; [|exact Hm]. exact (proj1 (validation_cache_terminates 2 m demo_calls demo_end.1 demo_end.2 Hm)).
Defined.
