(* ===== verification/DiskannUtil.v ===== *)
(** Byte fields, section ranges and size arithmetic shared by the DiskANN
    reader and writer: the helpers at the end of [core/src/diskann_io.rs]. *)

From S2P Require Import Prelude SeekIo Adjacency.

(** ** Fixed fields

    The code slices with literal offsets inside arrays of fixed size, so an
    out-of-range field (a panic in Rust) does not occur; callers establish the
    length first. *)

Definition put_u32 (bytes : list Z) (offset : nat) (value : Z) : list Z := splice offset (le_bytes 4 value) bytes.
Definition put_u64 (bytes : list Z) (offset : nat) (value : Z) : list Z := splice offset (le_bytes 8 value) bytes.
Definition get_u32 (bytes : list Z) (offset : nat) : Z := le_val (slice offset 4 bytes).
Definition get_u64 (bytes : list Z) (offset : nat) : Z := le_val (slice offset 8 bytes).

(** [bytes[from..to].iter().any(|&byte| byte != 0)] *)
Definition any_nonzero (bytes : list Z) : bool := existsb (λ b, negb (b =? 0)) bytes.

(** ** Sections *)

Record SectionRange := Section_ { offset : Z; sec_length : Z }.
#[export] Instance SectionRange_eq_dec : EqDecision SectionRange.
Proof. solve_decision. Defined.

Definition section_end (s : SectionRange) : io_result Z :=
  or_input (checked_add 64 (offset s) (sec_length s)) "DiskANN section end overflows u64".

(** [value & !mask] at 64 bits. *)
Definition align_up (value alignment : Z) : io_result Z :=
  let mask := alignment - 1 in
  value ← or_input (checked_add 64 value mask) "DiskANN section alignment overflows u64";
  Ok (Z.ldiff value mask).

Definition checked_mul_u64 (left right : Z) (name : string) : io_result Z :=
  or_input (checked_mul 64 left right) "DiskANN length overflows u64".

Definition map_read_error (error : io_error) : io_error :=
  if decide (kind error = UnexpectedEof) then IoError InvalidData "DiskANN section is truncated" else error.

(** ** The locality order of the nodes *)

Record LocalityPermutation := Locality { new_to_old : list Z; old_to_new : list Z }.

(** ** PQ sizes *)

Definition PQ_CODEBOOK_HEADER_SIZE : Z := 32.

Definition diskann_pq_ksub (pq_bits : Z) : io_result Z :=
  if pq_bits =? 4 then Ok 16 else if pq_bits =? 8 then Ok 256 else invalid_input "DiskANN pq.bits must be 4 or 8".
Definition diskann_pq_code_size (pq_m pq_bits : Z) : io_result Z :=
  if pq_bits =? 4 then Ok (div_ceil pq_m 2) else if pq_bits =? 8 then Ok pq_m
  else invalid_input "DiskANN pq.bits must be 4 or 8".
Definition pq_codebook_serialized_len (dimension pq_m ksub : Z) : io_result Z :=
  offsets ← or_input (count ← checked_add 64 pq_m 1; checked_mul 64 count 4)
              "DiskANN PQ chunk-offset size overflows usize";
  centroids ← or_input (count ← checked_mul 64 dimension ksub; checked_mul 64 count 4)
                "DiskANN PQ centroid size overflows usize";
  or_input (bytes ← checked_add 64 PQ_CODEBOOK_HEADER_SIZE offsets; checked_add 64 bytes centroids)
    "DiskANN PQ codebook size overflows usize".

(** ** A record of little-endian fields as a byte string *)

Notation f4 v := (4%nat, v%Z) (only parsing).
Notation f8 v := (8%nat, v%Z) (only parsing).

Definition fields_bytes (fs : list (nat * Z)) : list Z := concat ((λ '(n, v), le_bytes n v) <$> fs).
Definition fields_width (fs : list (nat * Z)) : nat := sum_list (fst <$> fs).

Lemma fields_bytes_app fs gs : fields_bytes (fs ++ gs) = fields_bytes fs ++ fields_bytes gs.
Proof. unfold fields_bytes. by rewrite fmap_app, concat_app. Qed.

Lemma length_fields_bytes fs : length (fields_bytes fs) = fields_width fs.
Proof.
  unfold fields_bytes, fields_width. induction fs as [|[n v] fs IH]; [done|].
  cbn. by rewrite length_app, le_bytes_length, IH.
Qed.

Lemma fields_bytes_ok fs : bytes_ok (fields_bytes fs).
Proof.
  induction fs as [|[n v] fs IH]; [constructor|]. apply Forall_app. split; [apply le_bytes_ok|done].
Qed.

(** Writing the next field of a zeroed buffer that is filled from the left. *)
Lemma splice_field fs off n v k :
  fields_width fs = off → (n ≤ k)%nat →
  splice off (le_bytes n v) (fields_bytes fs ++ replicate k 0) =
    fields_bytes (fs ++ [(n, v)]) ++ replicate (k - n) 0.
Proof.
  intros <- Hk. rewrite <- length_fields_bytes. unfold splice. rewrite take_app_length, le_bytes_length.
  rewrite <- drop_drop, drop_app_length, drop_replicate.
  rewrite fields_bytes_app. unfold fields_bytes at 3. cbn. by rewrite app_nil_r, <- app_assoc.
Qed.

(** Reading a field back. *)
Lemma slice_field fs i n v rest :
  fs !! i = Some (n, v) →
  slice (fields_width (take i fs)) n (fields_bytes fs ++ rest) = le_bytes n v.
Proof.
  intros Hi. rewrite <- (take_drop_middle fs i (n, v) Hi) at 2.
  rewrite fields_bytes_app, <- length_fields_bytes, <- app_assoc, slice_app_r by done.
  unfold fields_bytes. cbn. rewrite <- app_assoc. by rewrite take_app_length' by (symmetry; apply le_bytes_length).
Qed.

(** The fields of given widths at the front of a byte string. *)
Fixpoint read_fields (widths : list nat) (bytes : list Z) : list Z :=
  match widths with
  | [] => []
  | w :: widths => le_val (take w bytes) :: read_fields widths (drop w bytes)
  end.

Lemma fields_bytes_read widths bytes :
  bytes_ok bytes → (sum_list widths ≤ length bytes)%nat →
  fields_bytes (zip widths (read_fields widths bytes)) = take (sum_list widths) bytes.
Proof.
  revert bytes. induction widths as [|w widths IH]; intros bytes Hb Hl; cbn [sum_list read_fields zip zip_with] in *; [done|].
  unfold fields_bytes. cbn. change (concat (_ <$> zip_with _ _ _)) with (fields_bytes (zip widths (read_fields widths (drop w bytes)))).
  cbn in Hl. rewrite IH; [|by apply Forall_drop|rewrite length_drop; lia].
  rewrite <- (take_take_drop bytes w). f_equal.
  rewrite <- (le_bytes_le_val (take w bytes)) at 2 by by apply Forall_take. f_equal. rewrite length_take. lia.
Qed.

Lemma read_fields_lookup widths bytes i w :
  widths !! i = Some w → read_fields widths bytes !! i = Some (le_val (slice (sum_list (take i widths)) w bytes)).
Proof.
  revert bytes i. induction widths as [|w' widths IH]; intros bytes [|i] Hi; cbn in *; simplify_eq.
  - unfold slice. by rewrite drop_0.
  - rewrite (IH _ _ Hi). unfold slice. by rewrite drop_drop.
Qed.

Lemma any_nonzero_false bytes : any_nonzero bytes = false ↔ bytes = replicate (length bytes) 0.
Proof.
  unfold any_nonzero. induction bytes as [|b bytes IH]; [done|]. cbn [existsb length replicate].
  destruct (Z.eqb_spec b 0) as [->|]; cbn [negb orb].
  - rewrite IH. split; [by intros <-|congruence].
  - split; congruence.
Qed.

(** [align_up] gives the least multiple of a power of two above the value. *)
Lemma align_up_spec value k aligned :
  0 <= value → 0 <= k → align_up value (2 ^ k) = Ok aligned →
  value <= aligned < value + 2 ^ k ∧ aligned mod 2 ^ k = 0 ∧ aligned < 2 ^ 64.
Proof.
  intros Hv Hk H. unfold align_up in H. inv_ok. pose proof (pow2_pos k Hk).
  rewrite ldiff_mask by done. pose proof (Z.div_mod (value + (2 ^ k - 1)) (2 ^ k)). pose proof (Z.mod_pos_bound (value + (2 ^ k - 1)) (2 ^ k)).
  split_and!; [lia..| |lia]. by rewrite Z_mod_mult.
Qed.

Lemma get_u32_field fs i v off rest :
  fs !! i = Some (f4 v) → fields_width (take i fs) = off → u32 v → get_u32 (fields_bytes fs ++ rest) off = v.
Proof. intros Hi <- Hv. unfold get_u32. rewrite (slice_field _ _ _ _ _ Hi). by apply le_val_u32. Qed.
Lemma get_u64_field fs i v off rest :
  fs !! i = Some (f8 v) → fields_width (take i fs) = off → u64 v → get_u64 (fields_bytes fs ++ rest) off = v.
Proof. intros Hi <- Hv. unfold get_u64. rewrite (slice_field _ _ _ _ _ Hi). by apply le_val_u64. Qed.

Lemma any_nonzero_replicate n : any_nonzero (replicate n 0) = false.
Proof. apply any_nonzero_false. by rewrite length_replicate. Qed.
