(* ===== verification/RowIds.v ===== *)
(** Row identifiers of a DiskANN index: [RowIdStorage] of [core/src/diskann_io.rs].

    Identifiers are stored raw, or as frame-of-reference deltas packed at a
    fixed bit width.  Allocation is taken to succeed.  The packed payload is
    read through its value as one little-endian number, which is what makes
    packing and unpacking inverse. *)

From S2P Require Import Prelude Adjacency DiskannUtil.

Definition ROW_ID_SECTION_HEADER_SIZE : Z := 32.
Definition ROW_ID_ENCODING_RAW_I64 : Z := 0.
Definition ROW_ID_ENCODING_FOR_BITPACK : Z := 1.

Inductive RowIdStorage :=
  | Raw (row_ids : list Z)
  | ForBitPacked (base bit_width : Z) (count : nat) (payload : list Z).

Definition packed_row_id_payload_len (count bit_width : Z) : io_result Z :=
  or_input (bits ← checked_mul 64 count bit_width; bits ← checked_add 64 bits 7; Some (bits / 8))
    "DiskANN packed row-ID length overflows usize".
Definition raw_row_id_section_len (count : Z) : io_result Z :=
  or_input (payload ← checked_mul 64 count 8; checked_add 64 payload ROW_ID_SECTION_HEADER_SIZE)
    "DiskANN raw row-ID section length overflows usize".

(** [payload.get_mut(range)] with [*byte |= (encoded >> (index * 8)) as u8]. *)
Definition or_bytes (destination : list Z) (encoded : Z) : list Z :=
  imap (λ index byte, Z.lor byte (wrap 8 (Z.shiftr encoded (Z.of_nat index * 8)))) destination.

Definition pack_row_id_delta (payload : list Z) (node : nat) (bit_width delta : Z) : io_result (list Z) :=
  if bit_width =? 0 then Ok payload else
  bit_offset ← or_input (checked_mul 64 (Z.of_nat node) bit_width)
                 "DiskANN packed row-ID offset overflows usize";
  let byte_offset := Z.to_nat (bit_offset / 8) in
  let shift := bit_offset mod 8 in
  let byte_count := Z.to_nat (div_ceil (shift + bit_width) 8) in
  let encoded := wrap 128 (Z.shiftl delta shift) in
  destination ← or_input (get_slice byte_offset byte_count payload)
                  "DiskANN packed row-ID payload is truncated";
  Ok (splice byte_offset (or_bytes destination encoded) payload).

Definition unpack_row_id_delta_at_bit_offset (payload : list Z) (bit_offset bit_width : Z) : option Z :=
  if bit_width =? 0 then Some 0 else
  let byte_offset := Z.to_nat (bit_offset / 8) in
  let shift := bit_offset mod 8 in
  let byte_count := Z.to_nat (div_ceil (shift + bit_width) 8) in
  source ← get_slice byte_offset byte_count payload;
  let encoded := foldl (λ value '(index, byte), Z.lor value (wrap 128 (Z.shiftl byte (Z.of_nat index * 8))))
                   0 (imap pair source) in
  let mask := Z.shiftl 1 bit_width - 1 in
  Some (wrap 64 (Z.land (Z.shiftr encoded shift) mask)).
Definition unpack_row_id_delta (payload : list Z) (node : nat) (bit_width : Z) : option Z :=
  bit_offset ← checked_mul 64 (Z.of_nat node) bit_width;
  unpack_row_id_delta_at_bit_offset payload bit_offset bit_width.

(** [u64::try_from] and [i64::try_from] on an [i128]. *)
Definition u64_try_from (x : Z) : option Z := if bool_decide (u64 x) then Some x else None.

Definition add_base (base delta : Z) : option Z :=
  if bool_decide (i64 (base + delta)) then Some (base + delta) else None.

(** One round of the packing loop. *)
Definition pack_node (row_id_at : nat → Z) (base bit_width : Z) (payload : list Z) (node : nat) : io_result (list Z) :=
  delta ← expect (u64_try_from (row_id_at node - base));
  pack_row_id_delta payload node bit_width delta.
Definition encode_from_fn (count : nat) (row_id_at : nat → Z) : io_result RowIdStorage :=
  _ ← ensure_input (negb (Nat.eqb count 0)) "DiskANN row IDs must not be empty";
  let '(base, maximum) :=
    foldl (λ '(base, maximum) node, (Z.min base (row_id_at node), Z.max maximum (row_id_at node)))
      (row_id_at 0%nat, row_id_at 0%nat) (seq 1 (count - 1)) in
  span ← expect (u64_try_from (maximum - base));
  let bit_width := significant_bits span in
  if bit_width =? 64 then Ok (Raw (row_id_at <$> seq 0 count)) else
  payload_len ← packed_row_id_payload_len (Z.of_nat count) bit_width;
  payload ← try_fold (pack_node row_id_at base bit_width)
              (replicate (Z.to_nat payload_len) 0) (seq 0 count);
  Ok (ForBitPacked base bit_width count payload).

Definition row_id_len (s : RowIdStorage) : nat :=
  match s with Raw ids => length ids | ForBitPacked _ _ count _ => count end.

Definition get (s : RowIdStorage) (node : nat) : option Z :=
  match s with
  | Raw ids => ids !! node
  | ForBitPacked base bit_width count payload =>
      if (count <=? node)%nat then None else
      delta ← unpack_row_id_delta payload node bit_width;
      add_base base delta
  end.

(** The visitor threads its state; an error of the visitor ends the walk. *)
Fixpoint for_each_packed {B} (visitor : B → nat → Z → io_result B) (base bit_width : Z) (payload : list Z)
    (b : B) (bit_offset : Z) (nodes : list nat) : io_result B :=
  match nodes with
  | [] => Ok b
  | node :: nodes =>
      delta ← or_data (unpack_row_id_delta_at_bit_offset payload bit_offset bit_width)
                "DiskANN packed row-ID payload is truncated";
      row_id ← or_data (add_base base delta) "DiskANN packed row ID overflows i64";
      b ← visitor b node row_id;
      bit_offset ← or_data (checked_add 64 bit_offset bit_width) "DiskANN packed row-ID offset overflows";
      for_each_packed visitor base bit_width payload b bit_offset nodes
  end.
Definition try_for_each {B} (s : RowIdStorage) (visitor : B → nat → Z → io_result B) (b : B) : io_result B :=
  match s with
  | Raw ids => try_fold (λ b '(node, id), visitor b node id) b (imap pair ids)
  | ForBitPacked base bit_width count payload =>
      for_each_packed visitor base bit_width payload b 0 (seq 0 count)
  end.

Definition payload_len (s : RowIdStorage) : io_result Z :=
  match s with
  | Raw ids => or_input (checked_mul 64 (zlen ids) 8) "DiskANN raw row-ID length overflows usize"
  | ForBitPacked _ _ _ payload => Ok (zlen payload)
  end.
Definition serialized_len (s : RowIdStorage) : io_result Z :=
  n ← payload_len s;
  or_input (checked_add 64 ROW_ID_SECTION_HEADER_SIZE n) "DiskANN row-ID section length overflows usize".

Definition section_header (s : RowIdStorage) : list Z :=
  let bytes := replicate (Z.to_nat ROW_ID_SECTION_HEADER_SIZE) 0 in
  match s with
  | Raw ids =>
      let bytes := put_u32 bytes 0 ROW_ID_ENCODING_RAW_I64 in
      let bytes := put_u32 bytes 4 64 in
      put_u64 bytes 8 (zlen ids)
  | ForBitPacked base bit_width count _ =>
      let bytes := put_u32 bytes 0 ROW_ID_ENCODING_FOR_BITPACK in
      let bytes := put_u32 bytes 4 bit_width in
      let bytes := put_u64 bytes 8 (Z.of_nat count) in
      put_u64 bytes 16 (wrap 64 base)
  end.

(** The byte chunks [write_row_id_section] hands to the section writer. *)
Definition row_id_section_chunks (s : RowIdStorage) : list (list Z) :=
  section_header s ::
  match s with Raw ids => (λ id, le_bytes 8 (wrap 64 id)) <$> ids | ForBitPacked _ _ _ payload => [payload] end.

Record RowIdSectionHeader := SectionHeader {
  rh_encoding : Z; rh_bit_width : Z; rh_count : nat; rh_base : Z
}.

Definition decode_row_id_section_header (bytes : list Z) (section_len : Z) (expected_count : nat) :
    io_result RowIdSectionHeader :=
  _ ← ensure_data (ROW_ID_SECTION_HEADER_SIZE <=? zlen bytes) "DiskANN row-ID section header is truncated";
  _ ← ensure_data (negb (any_nonzero (slice 24 8 bytes))) "DiskANN row-ID section reserved bytes must be zero";
  count ← or_data (try_from 64 (get_u64 bytes 8)) "DiskANN row-ID count exceeds usize";
  _ ← ensure_data (count =? Z.of_nat expected_count) "DiskANN row-ID count does not match header";
  let encoding := get_u32 bytes 0 in
  let width := get_u32 bytes 4 in
  let base := to_signed 64 (get_u64 bytes 16) in
  '(bit_width, payload_len) ←
    if encoding =? ROW_ID_ENCODING_RAW_I64 then
      _ ← ensure_data (negb (negb (width =? 64) || negb (base =? 0))) "invalid DiskANN raw row-ID metadata";
      n ← or_data (checked_mul 64 count 8) "DiskANN raw row-ID length overflows usize";
      Ok (64, n)
    else if encoding =? ROW_ID_ENCODING_FOR_BITPACK then
      bit_width ← or_data (try_from 8 width) "invalid DiskANN FOR row-ID bit width";
      _ ← ensure_data (negb (64 <=? bit_width)) "invalid DiskANN FOR row-ID bit width";
      n ← map_err (λ _, IoError InvalidData "DiskANN packed row-ID length overflows usize")
            (packed_row_id_payload_len count bit_width);
      Ok (bit_width, n)
    else invalid_data "unsupported DiskANN row-ID encoding";
  _ ← ensure_data (bool_decide (checked_add 64 ROW_ID_SECTION_HEADER_SIZE payload_len = Some section_len))
        "invalid DiskANN row-ID payload length";
  Ok (SectionHeader encoding bit_width (Z.to_nat count) base).

Definition validate_row_id_storage (s : RowIdStorage) : io_result unit :=
  _ ← match s with
      | ForBitPacked _ bit_width count payload =>
          used_bits ← or_data (checked_mul 64 (Z.of_nat count) bit_width)
                        "DiskANN packed row-ID length overflows usize";
          let tail_bits := used_bits mod 8 in
          ensure_data (negb (negb (tail_bits =? 0) &&
              match last payload with
              | Some byte => negb (Z.ldiff byte (Z.shiftl 1 tail_bits - 1) =? 0)
              | None => false
              end)) "DiskANN packed row-ID tail bits must be zero"
      | Raw _ => Ok ()
      end;
  try_for_each s (λ b _ _, Ok b) ().

Definition decode_row_id_section_owned (bytes : list Z) (expected_count : nat) : io_result RowIdStorage :=
  header ← decode_row_id_section_header bytes (zlen bytes) expected_count;
  let payload := drop (Z.to_nat ROW_ID_SECTION_HEADER_SIZE) bytes in
  storage ←
    if rh_encoding header =? ROW_ID_ENCODING_RAW_I64 then Ok (Raw (le_val_i64 <$> chunks_exact 8 payload))
    else if rh_encoding header =? ROW_ID_ENCODING_FOR_BITPACK then
      Ok (ForBitPacked (rh_base header) (rh_bit_width header) (rh_count header) payload)
    else Panic;
  _ ← validate_row_id_storage storage;
  Ok storage.

(** [validate_row_id_order]: strictly increasing (row ID, node) keys. *)
Definition key_leb (a b : Z * Z) : bool := (a.1 <? b.1) || ((a.1 =? b.1) && (a.2 <=? b.2)).
Fixpoint row_id_order_loop (s : RowIdStorage) (previous : option (Z * Z)) (order : list Z) : io_result unit :=
  match order with
  | [] => Ok ()
  | node :: order =>
      row_id ← or_data (get s (Z.to_nat node)) "DiskANN row-ID order node is out of range";
      let key := (row_id, node) in
      _ ← ensure_data (match previous with Some p => negb (key_leb key p) | None => true end)
            "DiskANN row-ID order must be globally strictly increasing";
      row_id_order_loop s (Some key) order
  end.
Definition validate_row_id_order (s : RowIdStorage) (order : list Z) : io_result unit :=
  _ ← ensure_data (length order =? row_id_len s)%nat "DiskANN row-ID order has an invalid node count";
  row_id_order_loop s None order.

(** ** Bit packing *)

Lemma lor_byte b x e : u8 b → Z.lor (b + 256 * x) e = Z.lor b (e mod 256) + 256 * Z.lor x (e / 256).
Proof.
  intros Hb. assert (∀ a y, 0 <= a < 2 ^ 8 → a + 256 * y = Z.lor a (Z.shiftl y 8)) as E.
  { intros a y Ha. rewrite lor_shiftl_add by (done || lia). lia. }
  assert (0 <= Z.lor b (e mod 256) < 2 ^ 8) as Hlor.
  { apply lor_bound; [lia|done|]. apply Z.mod_pos_bound. lia. }
  rewrite (Z.div_mod e 256) at 1 by lia. rewrite (Z.add_comm (256 * _)).
  rewrite (E b), (E (e mod 256)), (E (Z.lor _ _)) by (done || apply Z.mod_pos_bound; lia).
  rewrite Z.shiftl_lor, <- !Z.lor_assoc. f_equal. rewrite !Z.lor_assoc. f_equal. apply Z.lor_comm.
Qed.

Lemma or_bytes_cons b d e : 0 <= e → or_bytes (b :: d) e = Z.lor b (e mod 256) :: or_bytes d (e / 256).
Proof.
  intros He. unfold or_bytes. rewrite imap_cons. rewrite Z.mul_0_l, Z.shiftr_0_r. f_equal.
  apply imap_ext. intros i x _. cbn [compose]. f_equal. f_equal.
  rewrite !Z.shiftr_div_pow2 by lia. replace (Z.of_nat (S i) * 8) with (8 + Z.of_nat i * 8) by lia.
  rewrite Z.pow_add_r by lia. by rewrite Z.div_div by (try apply Z.pow_nonzero; lia).
Qed.

Lemma or_bytes_spec d e :
  bytes_ok d → 0 <= e → e < 2 ^ (8 * zlen d) →
  le_val (or_bytes d e) = Z.lor (le_val d) e ∧ bytes_ok (or_bytes d e) ∧ length (or_bytes d e) = length d.
Proof.
  intros Hd. revert e. induction Hd as [|b d Hb Hd IH]; intros e He Hlt.
  { change (2 ^ (8 * zlen [])) with 1 in Hlt. replace e with 0 by lia. split_and!; [done|constructor|done]. }
  rewrite or_bytes_cons by done. unfold zlen in *. cbn [length] in Hlt.
  replace (8 * Z.of_nat (S (length d))) with (8 + 8 * Z.of_nat (length d)) in Hlt by lia.
  rewrite Z.pow_add_r in Hlt by lia. change (2 ^ 8) with 256 in Hlt.
  destruct (IH (e / 256)) as (IH1 & IH2 & IH3); [apply Z.div_pos; lia|apply Z.div_lt_upper_bound; lia|].
  cbn [le_val length]. rewrite IH1, IH3, lor_byte by done. split_and!; [done| |done]. constructor; [|done].
  apply lor_bound; [lia|done|]. apply Z.mod_pos_bound. lia.
Qed.

Lemma fold_bytes source k acc :
  bytes_ok source → 0 <= acc < 2 ^ (8 * Z.of_nat k) → (k + length source ≤ 16)%nat →
  foldl (λ value '(index, byte), Z.lor value (wrap 128 (Z.shiftl byte (Z.of_nat index * 8)))) acc
    (imap (λ i byte, (k + i, byte)%nat) source) = acc + 2 ^ (8 * Z.of_nat k) * le_val source.
Proof.
  intros Hs. revert k acc. induction Hs as [|b source Hb Hs IH]; intros k acc Ha Hk; [cbn; lia|].
  rewrite imap_cons. cbn [foldl length le_val] in *. rewrite Nat.add_0_r.
  rewrite (imap_ext _ (λ i byte, (S k + i, byte)%nat)) by (intros; cbn; f_equal; lia).
  assert (2 ^ (8 * Z.of_nat (S k)) = 256 * 2 ^ (8 * Z.of_nat k)) as E.
  { replace (8 * Z.of_nat (S k)) with (8 + 8 * Z.of_nat k) by lia. by rewrite Z.pow_add_r by lia. }
  pose proof (pow2_pos (8 * Z.of_nat k) ltac:(lia)).
  replace (Z.of_nat k * 8) with (8 * Z.of_nat k) by lia.
  rewrite wrap_small; [rewrite lor_shiftl_add by (done || lia)|].
  - rewrite IH; [rewrite E; nia|rewrite E; unfold_widths; nia|lia].
  - rewrite Z.shiftl_mul_pow2 by lia. unfold u_ok. split; [unfold_widths; nia|].
    apply Z.lt_le_trans with (2 ^ 8 * 2 ^ (8 * Z.of_nat k)); [unfold_widths; nia|].
    rewrite <- Z.pow_add_r by lia. apply Z.pow_le_mono_r; lia.
Qed.

(** The bits an access touches, in whole bytes. *)
Lemma access_bytes bit_offset bit_width :
  0 <= bit_offset → 0 < bit_width →
  let off := Z.to_nat (bit_offset / 8) in
  let n := Z.to_nat (div_ceil (bit_offset mod 8 + bit_width) 8) in
  bit_offset = 8 * Z.of_nat off + bit_offset mod 8 ∧ bit_offset mod 8 + bit_width <= 8 * Z.of_nat n ∧
  8 * Z.of_nat n < bit_offset mod 8 + bit_width + 8 ∧ 0 <= bit_offset mod 8 < 8.
Proof.
  intros Ho Hw off n. pose proof (Z.div_mod bit_offset 8). pose proof (Z.mod_pos_bound bit_offset 8).
  pose proof (div_ceil_spec (bit_offset mod 8 + bit_width) 8). unfold off, n.
  assert (0 <= bit_offset / 8) by (apply Z.div_pos; lia).
  rewrite !Z2Nat.id by lia. lia.
Qed.

Lemma unpack_spec payload bit_offset bit_width :
  bytes_ok payload → 0 <= bit_offset → 0 <= bit_width <= 64 → bit_offset + bit_width <= 8 * zlen payload →
  unpack_row_id_delta_at_bit_offset payload bit_offset bit_width =
    Some (le_val payload / 2 ^ bit_offset mod 2 ^ bit_width).
Proof.
  intros Hb Ho Hw Hlen. unfold unpack_row_id_delta_at_bit_offset.
  destruct (Z.eqb_spec bit_width 0) as [->|Hnz]; [by rewrite Z.mod_1_r|].
  destruct (access_bytes bit_offset bit_width) as (Eo & Hn & Hn' & Hs); [lia|lia|].
  set (off := Z.to_nat (bit_offset / 8)) in *. set (n := Z.to_nat (div_ceil _ 8)) in *.
  set (s := bit_offset mod 8) in *. unfold zlen in Hlen.
  unfold get_slice. rewrite decide_True by lia. cbn [mbind option_bind].
  change (imap pair (slice off n payload)) with (imap (λ i byte, (0 + i, byte)%nat) (slice off n payload)).
  rewrite (fold_bytes (slice off n payload) 0 0); [|by apply Forall_slice|done|rewrite length_slice by lia; lia].
  rewrite Z.mul_1_l, Z.add_0_l, le_val_slice by (done || lia).
  rewrite Z.shiftl_1_l, land_ones_mod, Z.shiftr_div_pow2, mod_div_mod by lia.
  rewrite Z.div_div, <- Z.pow_add_r by (try apply Z.pow_nonzero; lia). rewrite <- Eo.
  f_equal. apply wrap_small. unfold u_ok.
  pose proof (Z.mod_pos_bound (le_val payload / 2 ^ bit_offset) (2 ^ bit_width) (pow2_pos bit_width ltac:(lia))).
  assert (2 ^ bit_width <= 2 ^ 64) by (apply Z.pow_le_mono_r; lia). lia.
Qed.

Lemma pack_spec payload node bit_width delta :
  bytes_ok payload → 0 < bit_width <= 64 → 0 <= delta < 2 ^ bit_width →
  8 * zlen payload < 2 ^ 64 → (Z.of_nat node + 1) * bit_width <= 8 * zlen payload →
  le_val payload < 2 ^ (Z.of_nat node * bit_width) →
  ∃ payload', pack_row_id_delta payload node bit_width delta = Ok payload' ∧
    bytes_ok payload' ∧ length payload' = length payload ∧
    le_val payload' = le_val payload + delta * 2 ^ (Z.of_nat node * bit_width).
Proof.
  intros Hb Hw Hd Hmax Hlen Hlow. unfold pack_row_id_delta.
  rewrite (proj2 (Z.eqb_neq bit_width 0)) by lia. unfold checked_mul.
  set (bit_offset := Z.of_nat node * bit_width) in *. assert (0 <= bit_offset) by nia.
  rewrite (proj2 (Z.ltb_lt bit_offset _)) by nia. cbn [or_input ok_or mbind io_result_bind].
  destruct (access_bytes bit_offset bit_width) as (Eo & Hn & Hn' & Hs); [lia|lia|].
  set (off := Z.to_nat (bit_offset / 8)) in *. set (n := Z.to_nat (div_ceil _ 8)) in *.
  set (s := bit_offset mod 8) in *. clearbody off n s. unfold zlen in *.
  unfold get_slice. rewrite decide_True by lia. cbn [or_input ok_or mbind io_result_bind].
  assert (0 <= delta * 2 ^ s < 2 ^ (8 * Z.of_nat n)) as He.
  { pose proof (pow2_pos s ltac:(lia)). split; [nia|].
    apply Z.lt_le_trans with (2 ^ (bit_width + s)); [rewrite Z.pow_add_r by lia; nia|].
    apply Z.pow_le_mono_r; lia. }
  rewrite wrap_small, Z.shiftl_mul_pow2; [|lia|].
  2: { rewrite Z.shiftl_mul_pow2 by lia. unfold u_ok.
       assert (2 ^ (8 * Z.of_nat n) <= 2 ^ 128) by (apply Z.pow_le_mono_r; lia). lia. }
  destruct (or_bytes_spec (slice off n payload) (delta * 2 ^ s)) as (Ev & Hok & El);
    [by apply Forall_slice|lia|unfold zlen; rewrite length_slice by lia; lia|].
  rewrite length_slice in El by lia. eexists. split; [reflexivity|]. split_and!.
  - unfold splice. apply Forall_app. split; [by apply Forall_take|]. apply Forall_app. split; [done|by apply Forall_drop].
  - apply length_splice. lia.
  - rewrite le_val_splice, El, Ev by lia. set (d := le_val (slice off n payload)).
    assert (0 <= d < 2 ^ s) as Hdlow.
    { unfold d. rewrite le_val_slice by (done || lia). pose proof (le_val_bound payload Hb).
      assert (0 <= le_val payload / 2 ^ (8 * Z.of_nat off)) by (apply Z.div_pos; [lia|apply pow2_pos; lia]).
      assert (le_val payload / 2 ^ (8 * Z.of_nat off) < 2 ^ s).
      { apply Z.div_lt_upper_bound; [apply pow2_pos; lia|]. rewrite <- Z.pow_add_r by lia. by rewrite <- Eo. }
      rewrite Z.mod_small; [done|]. assert (2 ^ s <= 2 ^ (8 * Z.of_nat n)) by (apply Z.pow_le_mono_r; lia). lia. }
    rewrite <- Z.shiftl_mul_pow2 by lia. rewrite lor_shiftl_add by (done || lia).
    rewrite Eo, Z.pow_add_r by lia. lia.
Qed.

(** ** The packed list *)

(** The value of a list of [w]-bit digits, first digit lowest. *)
Fixpoint digits_val (w : Z) (ds : list Z) : Z :=
  match ds with [] => 0 | d :: ds => d + 2 ^ w * digits_val w ds end.

Lemma digits_val_snoc w ds d : 0 <= w → digits_val w (ds ++ [d]) = digits_val w ds + d * 2 ^ (zlen ds * w).
Proof.
  intros Hw. unfold zlen. induction ds as [|x ds IH]; cbn [app digits_val length].
  { rewrite Z.mul_0_l, Z.pow_0_r. lia. }
  rewrite IH.
  replace (Z.of_nat (S (length ds)) * w) with (w + Z.of_nat (length ds) * w) by lia. rewrite Z.pow_add_r by lia. lia.
Qed.

Lemma digits_val_bound w ds : 0 <= w → Forall (λ d, 0 <= d < 2 ^ w) ds → 0 <= digits_val w ds < 2 ^ (zlen ds * w).
Proof.
  intros Hw. unfold zlen. induction 1 as [|d ds Hd _ IH]; cbn [digits_val length].
  { rewrite Z.mul_0_l, Z.pow_0_r. lia. }
  replace (Z.of_nat (S (length ds)) * w) with (w + Z.of_nat (length ds) * w) by lia. rewrite Z.pow_add_r by lia. nia.
Qed.

Lemma digits_val_lookup w ds i d :
  0 <= w → Forall (λ d, 0 <= d < 2 ^ w) ds → ds !! i = Some d →
  digits_val w ds / 2 ^ (Z.of_nat i * w) mod 2 ^ w = d.
Proof.
  intros Hw Hds. pose proof (pow2_pos w Hw). revert i. induction Hds as [|x ds Hx Hds IH]; intros [|i] Hi; cbn in Hi; simplify_eq.
  - cbn [digits_val]. rewrite Z.mul_0_l, Z.div_1_r. rewrite (Z.mul_comm (2 ^ w)), Z_mod_plus_full. by apply Z.mod_small.
  - cbn [digits_val]. replace (Z.of_nat (S i) * w) with (w + Z.of_nat i * w) by lia.
    pose proof (pow2_pos (Z.of_nat i * w) ltac:(lia)).
    rewrite Z.pow_add_r, <- Z.div_div by lia.
    rewrite (Z.mul_comm (2 ^ w)), Z.div_add, (Z.div_small x), Z.add_0_l by lia. by apply IH.
Qed.

Lemma u64_try_from_ok x : u64 x → u64_try_from x = Some x.
Proof. intros. unfold u64_try_from. by rewrite bool_decide_true. Qed.
Lemma add_base_ok base d : i64 (base + d) → add_base base d = Some (base + d).
Proof. intros. unfold add_base. by rewrite bool_decide_true. Qed.

Lemma pack_loop f base w payload done todo :
  bytes_ok payload → 0 <= w <= 63 → 8 * zlen payload < 2 ^ 64 →
  (Z.of_nat (done + todo)) * w <= 8 * zlen payload →
  (∀ node, (node < done + todo)%nat → 0 <= f node - base < 2 ^ w) →
  le_val payload = digits_val w ((λ node, f node - base) <$> seq 0 done) →
  ∃ payload',
    try_fold (pack_node f base w) payload (seq done todo) = Ok payload' ∧
    bytes_ok payload' ∧ length payload' = length payload ∧
    le_val payload' = digits_val w ((λ node, f node - base) <$> seq 0 (done + todo)).
Proof.
  intros Hb Hw Hmax. revert payload done Hb Hmax.
  induction todo as [|todo IH]; intros payload done Hb Hmax Hlen Hf Hval; cbn [seq try_fold].
  { exists payload. by rewrite Nat.add_0_r. }
  assert (0 <= f done - base < 2 ^ w) as Hd by (apply Hf; lia).
  assert (zlen ((λ node, f node - base) <$> seq 0 done) = Z.of_nat done) as El by (unfold zlen; by rewrite length_fmap, length_seq).
  assert (∃ p1, pack_node f base w payload done = Ok p1 ∧ bytes_ok p1 ∧ length p1 = length payload ∧
    le_val p1 = le_val payload + (f done - base) * 2 ^ (Z.of_nat done * w)) as (p1 & -> & Hb1 & Hl1 & Hv1).
  { unfold pack_node. rewrite u64_try_from_ok.
    2: { assert (2 ^ w <= 2 ^ 64) by (apply Z.pow_le_mono_r; lia). unfold u64, u_ok. lia. }
    cbn [expect mbind io_result_bind]. destruct (decide (w = 0)) as [->|].
    - exists payload. split_and!; [done..|]. assert (f done - base = 0) as -> by (change (2 ^ 0) with 1 in Hd; lia). lia.
    - apply pack_spec; [done|lia|done|done|nia|]. rewrite Hval, <- El. apply digits_val_bound; [lia|].
      apply Forall_fmap, Forall_forall. intros i Hi%elem_of_seq. cbn. apply Hf. lia. }
  cbn [mbind io_result_bind]. destruct (IH p1 (S done)) as (p2 & E & Hb2 & Hl2 & Hv2).
  - done.
  - unfold zlen in *. by rewrite Hl1.
  - unfold zlen in *. rewrite Hl1. by replace (S done + todo)%nat with (done + S todo)%nat by lia.
  - intros node Hn. apply Hf. lia.
  - rewrite seq_S, fmap_app. cbn [fmap list_fmap]. rewrite digits_val_snoc, El by lia. by rewrite Hv1, Hval.
  - exists p2. replace (done + S todo)%nat with (S done + todo)%nat by lia. split_and!; [done..|congruence|done].
Qed.

(** ** Encoded storage *)

Lemma min_max_fold (f : nat → Z) nodes a b m M :
  a <= b →
  foldl (λ '(base, maximum) node, (Z.min base (f node), Z.max maximum (f node))) (a, b) nodes = (m, M) →
  m <= a ∧ b <= M ∧ (∀ i, i ∈ nodes → m <= f i <= M) ∧
  (m = a ∨ ∃ i, i ∈ nodes ∧ m = f i) ∧ (M = b ∨ ∃ i, i ∈ nodes ∧ M = f i).
Proof.
  revert a b. induction nodes as [|n nodes IH]; intros a b Hab H; cbn in H.
  { injection H as <- <-. split_and!; [lia..|set_solver|by left|by left]. }
  apply IH in H as (Hm & HM & Hall & Hm' & HM'); [|lia]. split_and!; [lia..| | |].
  - intros i [->|Hi]%elem_of_cons; [lia|by apply Hall].
  - destruct Hm' as [->|(i & ? & ->)]; [|right; exists i; set_solver].
    destruct (Z.min_spec a (f n)) as [[_ ->]|[_ ->]]; [by left|right; exists n; set_solver].
  - destruct HM' as [->|(i & ? & ->)]; [|right; exists i; set_solver].
    destruct (Z.max_spec b (f n)) as [[_ ->]|[_ ->]]; [right; exists n; set_solver|by left].
Qed.

(** What the storage of the identifiers [f 0 .. f (count - 1)] looks like. *)
Definition stores (s : RowIdStorage) (count : nat) (f : nat → Z) : Prop :=
  match s with
  | Raw ids => ids = f <$> seq 0 count
  | ForBitPacked base w c payload =>
      c = count ∧ 0 <= w <= 63 ∧ i64 base ∧ (∀ node, (node < count)%nat → 0 <= f node - base < 2 ^ w) ∧
      bytes_ok payload ∧ zlen payload = (Z.of_nat count * w + 7) / 8 ∧
      le_val payload = digits_val w ((λ node, f node - base) <$> seq 0 count)
  end.

(** Everything the file can address: counts are [u32]. *)
Definition count_ok (count : nat) : Prop := (0 < count)%nat ∧ Z.of_nat count < 2 ^ 32.

Lemma significant_bits_range v : 0 <= v < 2 ^ 64 → 0 <= significant_bits v <= 64 ∧ v < 2 ^ significant_bits v.
Proof.
  intros Hv. assert (0 <= significant_bits v) as H0.
  { unfold significant_bits. case_match; [lia|]. pose proof (Z.log2_nonneg v). lia. }
  split; [split; [done|]|]; apply significant_bits_le; lia.
Qed.

Lemma encode_from_fn_spec count f :
  count_ok count → (∀ node, (node < count)%nat → i64 (f node)) →
  ∃ s, encode_from_fn count f = Ok s ∧ stores s count f.
Proof.
  intros [Hc Hc32] Hf. unfold encode_from_fn.
  rewrite (proj2 (Nat.eqb_neq count 0)) by lia. cbn [negb ensure_input guard_ok mbind io_result_bind].
  destruct (foldl _ _ _) as [m M] eqn:E. apply min_max_fold in E as (Hm & HM & Hall & Hm' & HM'); [|lia].
  assert (∀ node, (node < count)%nat → m <= f node <= M) as Hall'.
  { intros [|node] Hn; [lia|]. apply Hall, elem_of_seq. lia. }
  assert (i64 m) as Hmi by (destruct Hm' as [->|(i & Hi%elem_of_seq & ->)]; apply Hf; lia).
  assert (i64 M) as HMi by (destruct HM' as [->|(i & Hi%elem_of_seq & ->)]; apply Hf; lia).
  assert (u64 (M - m)) as Hspan by (unfold_widths; lia).
  rewrite u64_try_from_ok by done. cbn [expect mbind io_result_bind].
  destruct (significant_bits_range (M - m) Hspan) as [Hw Hlt]. set (w := significant_bits (M - m)) in *. clearbody w.
  destruct (Z.eqb_spec w 64) as [->|Hw64]; [by eexists|].
  unfold packed_row_id_payload_len, checked_mul, checked_add.
  rewrite (proj2 (Z.ltb_lt (Z.of_nat count * w) _)) by (unfold_widths; nia). cbn [mbind option_bind].
  rewrite (proj2 (Z.ltb_lt _ _)) by (unfold_widths; nia). cbn [option_bind or_input ok_or mbind io_result_bind].
  set (len := (Z.of_nat count * w + 7) / 8). assert (8 * len <= Z.of_nat count * w + 7 < 8 * len + 8).
  { unfold len. pose proof (Z.div_mod (Z.of_nat count * w + 7) 8). pose proof (Z.mod_pos_bound (Z.of_nat count * w + 7) 8). lia. }
  assert (zlen (replicate (Z.to_nat len) 0) = len) as El by (unfold zlen; rewrite length_replicate; nia).
  destruct (pack_loop f m w (replicate (Z.to_nat len) 0) 0 count) as (payload & -> & Hb & Hl & Hv).
  - apply Forall_replicate. by unfold_widths.
  - lia.
  - rewrite El. unfold_widths. nia.
  - rewrite El. cbn [Nat.add]. lia.
  - intros node Hn. specialize (Hall' node Hn). lia.
  - by rewrite le_val_replicate.
  - eexists. split; [reflexivity|]. cbn. split_and!; try done; try lia.
    + intros node Hn. specialize (Hall' node Hn). lia.
    + unfold zlen in *. rewrite Hl. done.
Qed.

Lemma stores_unpack base w count payload f node :
  stores (ForBitPacked base w count payload) count f → Z.of_nat count < 2 ^ 32 → (node < count)%nat →
  (∀ node, (node < count)%nat → i64 (f node)) →
  unpack_row_id_delta_at_bit_offset payload (Z.of_nat node * w) w = Some (f node - base) ∧
  add_base base (f node - base) = Some (f node).
Proof.
  intros (_ & Hw & _ & Hd & Hb & Hl & Hv) Hc Hn Hf. split.
  - rewrite unpack_spec; [|done|nia|lia|].
    + rewrite Hv. f_equal. apply digits_val_lookup; [lia| |].
      * apply Forall_fmap, Forall_forall. intros i Hi%elem_of_seq. apply Hd. lia.
      * rewrite list_lookup_fmap, lookup_seq_lt by done. done.
    + pose proof (Z.div_mod (Z.of_nat count * w + 7) 8). pose proof (Z.mod_pos_bound (Z.of_nat count * w + 7) 8). nia.
  - rewrite add_base_ok; replace (base + (f node - base)) with (f node) by lia; [done|]. by apply Hf.
Qed.

Lemma get_spec s count f node :
  stores s count f → Z.of_nat count < 2 ^ 32 → (∀ node, (node < count)%nat → i64 (f node)) →
  get s node = if decide (node < count)%nat then Some (f node) else None.
Proof.
  intros Hs Hc Hf. destruct s as [ids|base w c payload]; cbn [get].
  - cbn in Hs. rewrite Hs, list_lookup_fmap. case_decide.
    + by rewrite lookup_seq_lt.
    + by rewrite lookup_seq_ge by lia.
  - pose proof Hs as (-> & Hw & _). case_decide as Hn.
    + rewrite (proj2 (Nat.leb_gt _ _)) by done. unfold unpack_row_id_delta, checked_mul.
      rewrite (proj2 (Z.ltb_lt _ _)) by (unfold_widths; nia). cbn [mbind option_bind].
      destruct (stores_unpack _ _ _ _ _ _ Hs Hc Hn Hf) as [-> E]. exact E.
    + by rewrite (proj2 (Nat.leb_le _ _)) by lia.
Qed.

Lemma stores_len s count f : stores s count f → row_id_len s = count.
Proof. destruct s; cbn; [intros ->; by rewrite length_fmap, length_seq|tauto]. Qed.

Lemma for_each_packed_spec {B} (visitor : B → nat → Z → io_result B) base w count payload f b k todo :
  stores (ForBitPacked base w count payload) count f → Z.of_nat count < 2 ^ 32 → (k + todo ≤ count)%nat →
  (∀ node, (node < count)%nat → i64 (f node)) →
  for_each_packed visitor base w payload b (Z.of_nat k * w) (seq k todo) =
    try_fold (λ b node, visitor b node (f node)) b (seq k todo).
Proof.
  intros Hs Hc Hk Hf. revert b k Hk. induction todo as [|todo IH]; intros b k Hk; [done|].
  cbn [seq for_each_packed try_fold]. destruct (stores_unpack _ _ _ _ _ k Hs Hc ltac:(lia) Hf) as [-> Ha].
  cbn [or_data ok_or mbind io_result_bind]. rewrite Ha. cbn [or_data ok_or mbind io_result_bind].
  destruct (visitor b k (f k)) as [b'| |]; [|done..]. destruct Hs as (_ & Hw & _).
  cbn [mbind io_result_bind]. unfold checked_add. rewrite (proj2 (Z.ltb_lt _ _)) by (unfold_widths; nia).
  cbn [or_data ok_or mbind io_result_bind]. replace (Z.of_nat k * w + w) with (Z.of_nat (S k) * w) by lia. apply IH. lia.
Qed.

Lemma try_fold_imap {A B} (v : B → nat → A → io_result B) (f : nat → A) b k n :
  try_fold (λ b '(node, id), v b node id) b (imap (λ i x, (k + i, x)%nat) (f <$> seq k n)) =
    try_fold (λ b node, v b node (f node)) b (seq k n).
Proof.
  revert b k. induction n as [|n IH]; intros b k; [done|]. cbn [seq fmap list_fmap]. rewrite imap_cons. cbn [try_fold].
  rewrite Nat.add_0_r. destruct (v b k (f k)); [|done..]. cbn [mbind io_result_bind].
  rewrite <- IH. f_equal. apply imap_ext. intros. cbn. f_equal. lia.
Qed.

Lemma try_for_each_spec {B} s (visitor : B → nat → Z → io_result B) b count f :
  stores s count f → Z.of_nat count < 2 ^ 32 → (∀ node, (node < count)%nat → i64 (f node)) →
  try_for_each s visitor b = try_fold (λ b node, visitor b node (f node)) b (seq 0 count).
Proof.
  intros Hs Hc Hf. destruct s as [ids|base w c payload]; cbn [try_for_each].
  - cbn in Hs. subst ids. apply (try_fold_imap visitor f b 0 count).
  - pose proof Hs as (-> & _). by apply (for_each_packed_spec visitor base w count payload f b 0 count).
Qed.

(** ** The section *)

Definition header_fields (s : RowIdStorage) : list (nat * Z) :=
  match s with
  | Raw ids => [f4 0; f4 64; f8 (zlen ids); f8 0]
  | ForBitPacked base w count _ => [f4 1; f4 w; f8 (Z.of_nat count); f8 (wrap 64 base)]
  end.

Lemma section_header_eq s : section_header s = fields_bytes (header_fields s) ++ replicate 8 0.
Proof.
  unfold section_header, put_u32, put_u64, ROW_ID_ENCODING_RAW_I64, ROW_ID_ENCODING_FOR_BITPACK.
  change (Z.to_nat ROW_ID_SECTION_HEADER_SIZE) with 32%nat.
  change (replicate 32 0) with (fields_bytes [] ++ replicate 32 0).
  destruct s; rewrite !splice_field by (done || lia); [|done].
  cbn [app header_fields Nat.sub]. change [f4 0; f4 64; f8 (zlen row_ids); f8 0] with ([f4 0; f4 64; f8 (zlen row_ids)] ++ [f8 0]).
  by rewrite fields_bytes_app, <- app_assoc.
Qed.

Definition row_id_payload (s : RowIdStorage) : list Z :=
  match s with Raw ids => concat ((λ id, le_bytes 8 (wrap 64 id)) <$> ids) | ForBitPacked _ _ _ payload => payload end.

Lemma section_bytes_eq s :
  concat (row_id_section_chunks s) = fields_bytes (header_fields s) ++ replicate 8 0 ++ row_id_payload s.
Proof.
  unfold row_id_section_chunks. cbn [concat]. rewrite section_header_eq, <- app_assoc. f_equal. f_equal.
  destruct s; cbn; [done|by rewrite app_nil_r].
Qed.

Lemma length_raw_payload ids : zlen (concat ((λ id, le_bytes 8 (wrap 64 id)) <$> ids)) = 8 * zlen ids.
Proof.
  unfold zlen. induction ids as [|id ids IH]; [done|]. rewrite fmap_cons. cbn [concat length].
  rewrite length_app, le_bytes_length. lia.
Qed.

Lemma le_val_i64_wrap id : i64 id → le_val_i64 (le_bytes 8 (wrap 64 id)) = id.
Proof.
  intros Hi. unfold le_val_i64. rewrite le_val_le_bytes. change (8 * Z.of_nat 8) with 64.
  fold (wrap 64 (wrap 64 id)). rewrite wrap_small by by apply wrap_ok. by apply to_signed_wrap.
Qed.

Lemma decode_raw_payload ids :
  Forall i64 ids → le_val_i64 <$> chunks_exact 8 (concat ((λ id, le_bytes 8 (wrap 64 id)) <$> ids)) = ids.
Proof.
  intros Hi. rewrite chunks_exact_concat; [|lia|].
  - rewrite <- list_fmap_compose. induction Hi as [|id ids Hid _ IH]; [done|]. rewrite fmap_cons, IH. f_equal. by apply le_val_i64_wrap.
  - apply Forall_fmap, Forall_true. intros. apply le_bytes_length.
Qed.

(** The bits above the last identifier are clear. *)
Lemma tail_bits_clear payload used :
  bytes_ok payload → 0 <= used → zlen payload = (used + 7) / 8 → le_val payload < 2 ^ used →
  negb (used mod 8 =? 0) &&
    match last payload with
    | Some byte => negb (Z.ldiff byte (Z.shiftl 1 (used mod 8) - 1) =? 0)
    | None => false
    end = false.
Proof.
  intros Hb Hu Hl Hv. destruct (Z.eqb_spec (used mod 8) 0) as [|Hne]; [done|]. cbn [negb andb].
  destruct payload as [|byte init _] using rev_ind; [done|]. rewrite last_snoc.
  apply negb_false_iff, Z.eqb_eq. pose proof (Z.div_mod used 8 ltac:(lia)). pose proof (Z.mod_pos_bound used 8 ltac:(lia)).
  rewrite Z.shiftl_1_l, ldiff_mask by lia. rewrite le_val_app in Hv. unfold zlen in *. rewrite length_app in Hl. cbn in Hl.
  apply Forall_app in Hb as [Hb1 Hb2]. apply list.Forall_cons in Hb2 as [Hb2 _]. unfold u8, u_ok in Hb2.
  pose proof (le_val_bound init Hb1) as Hbi. unfold zlen in Hbi. cbn [le_val] in Hv.
  assert (Z.of_nat (length init) = used / 8) as Einit.
  { pose proof (Z.div_mod (used + 7) 8). pose proof (Z.mod_pos_bound (used + 7) 8). lia. }
  rewrite Einit in *. rewrite (Z.div_mod used 8) in Hv at 2 by lia. rewrite Z.pow_add_r in Hv by lia.
  pose proof (pow2_pos (8 * (used / 8)) ltac:(lia)).
  rewrite Z.div_small; [lia|]. nia.
Qed.

Lemma validate_stored s count f :
  stores s count f → Z.of_nat count < 2 ^ 32 → (∀ node, (node < count)%nat → i64 (f node)) →
  validate_row_id_storage s = Ok ().
Proof.
  intros Hs Hc Hf. unfold validate_row_id_storage.
  assert (try_for_each s (λ (b : unit) (_ : nat) (_ : Z), Ok b) () = Ok ()) as Et.
  { rewrite (try_for_each_spec s _ () count f) by done. generalize (seq 0 count). intros l. by induction l. }
  destruct s as [ids|base w c payload]; [by rewrite Et|]. rewrite Et. destruct Hs as (-> & Hw & _ & Hd & Hb & Hl & Hv).
  unfold checked_mul. rewrite (proj2 (Z.ltb_lt _ _)) by (unfold_widths; nia). cbn [or_data ok_or mbind io_result_bind].
  rewrite tail_bits_clear; [done|done|nia|done|]. rewrite Hv.
  assert (Z.of_nat count = zlen ((λ node, f node - base) <$> seq 0 count)) as -> by (unfold zlen; by rewrite length_fmap, length_seq).
  apply digits_val_bound; [lia|]. apply Forall_fmap, Forall_forall. intros i Hi%elem_of_seq. apply Hd. lia.
Qed.

(** Decoding a header of given fields, whatever payload follows. *)
Lemma decode_header_of_fields e w c b rest count :
  u32 e → u32 w → u64 c → u64 b →
  decode_row_id_section_header (fields_bytes [f4 e; f4 w; f8 c; f8 b] ++ replicate 8 0 ++ rest)
    (32 + zlen rest) count =
  (_ ← ensure_data (c =? Z.of_nat count) "DiskANN row-ID count does not match header";
   '(bit_width, payload_len) ←
    if e =? ROW_ID_ENCODING_RAW_I64 then
      _ ← ensure_data (negb (negb (w =? 64) || negb (to_signed 64 b =? 0))) "invalid DiskANN raw row-ID metadata";
      n ← or_data (checked_mul 64 c 8) "DiskANN raw row-ID length overflows usize";
      Ok (64, n)
    else if e =? ROW_ID_ENCODING_FOR_BITPACK then
      bit_width ← or_data (try_from 8 w) "invalid DiskANN FOR row-ID bit width";
      _ ← ensure_data (negb (64 <=? bit_width)) "invalid DiskANN FOR row-ID bit width";
      n ← map_err (λ _, IoError InvalidData "DiskANN packed row-ID length overflows usize")
            (packed_row_id_payload_len c bit_width);
      Ok (bit_width, n)
    else invalid_data "unsupported DiskANN row-ID encoding";
   _ ← ensure_data (bool_decide (checked_add 64 ROW_ID_SECTION_HEADER_SIZE payload_len = Some (32 + zlen rest)))
        "invalid DiskANN row-ID payload length";
   Ok (SectionHeader e bit_width (Z.to_nat c) (to_signed 64 b))).
Proof.
  intros He Hw Hc Hb. unfold decode_row_id_section_header.
  set (fs := [f4 e; f4 w; f8 c; f8 b]).
  rewrite (get_u32_field fs 0 e 0), (get_u32_field fs 1 w 4), (get_u64_field fs 2 c 8), (get_u64_field fs 3 b 16) by done.
  assert (zlen (fields_bytes fs ++ replicate 8 0 ++ rest) = 32 + zlen rest) as ->.
  { unfold zlen. rewrite !length_app, length_fields_bytes. cbn. lia. }
  pose proof (zlen_nonneg rest). rewrite (proj2 (Z.leb_le _ _)) by (unfold ROW_ID_SECTION_HEADER_SIZE; lia).
  assert (slice 24 8 (fields_bytes fs ++ replicate 8 0 ++ rest) = replicate 8 0) as ->.
  { rewrite slice_app_r by (rewrite length_fields_bytes; done). by rewrite take_app_length' by (by rewrite length_replicate). }
  rewrite any_nonzero_replicate, (proj2 (try_from_Some 64 c c)) by (split; [done|apply Hc]).
  reflexivity.
Qed.

Lemma decode_section s count f :
  stores s count f → count_ok count → (∀ node, (node < count)%nat → i64 (f node)) →
  decode_row_id_section_owned (concat (row_id_section_chunks s)) count = Ok s.
Proof.
  intros Hs [Hc Hc32] Hf. unfold decode_row_id_section_owned. rewrite section_bytes_eq.
  assert (zlen (fields_bytes (header_fields s) ++ replicate 8 0 ++ row_id_payload s) = 32 + zlen (row_id_payload s)) as ->.
  { unfold zlen. rewrite !length_app, length_fields_bytes. destruct s; cbn; lia. }
  assert (drop (Z.to_nat ROW_ID_SECTION_HEADER_SIZE) (fields_bytes (header_fields s) ++ replicate 8 0 ++ row_id_payload s) = row_id_payload s) as ->.
  { rewrite app_assoc. apply drop_app_length'. rewrite length_app, length_fields_bytes. by destruct s. }
  pose proof (validate_stored s count f Hs Hc32 Hf) as Hval.
  destruct s as [ids|base w c payload]; cbn [header_fields].
  - cbn in Hs. assert (length ids = count) as El by (rewrite Hs; by rewrite length_fmap, length_seq).
    rewrite decode_header_of_fields by (unfold zlen; rewrite ?El; unfold_widths; lia).
    assert (zlen ids = Z.of_nat count) as -> by (unfold zlen; by rewrite El).
    rewrite (Z.eqb_refl (Z.of_nat count)).
    change (0 =? ROW_ID_ENCODING_RAW_I64) with true. change (negb (negb (64 =? 64) || negb (to_signed 64 0 =? 0))) with true.
    cbn [ensure_data guard_ok mbind io_result_bind row_id_payload]. rewrite length_raw_payload.
    rewrite (proj2 (checked_mul_Some 64 (Z.of_nat count) 8 _)) by (split; [reflexivity|unfold_widths; lia]).
    cbn [or_data ok_or mbind io_result_bind]. rewrite bool_decide_true.
    2: { apply checked_add_Some. unfold ROW_ID_SECTION_HEADER_SIZE, zlen. rewrite El. unfold_widths. lia. }
    cbn [ensure_data guard_ok mbind io_result_bind rh_encoding].
    change (0 =? ROW_ID_ENCODING_RAW_I64) with true. cbn [mbind io_result_bind].
    rewrite decode_raw_payload; [by rewrite Hval|]. rewrite Hs. apply Forall_fmap, Forall_forall.
    intros i Hi%elem_of_seq. apply Hf. lia.
  - pose proof Hs as (-> & Hw & Hbase & _ & _ & Hl & _).
    rewrite decode_header_of_fields; [|by unfold_widths|unfold_widths; lia|unfold_widths; lia|by apply wrap_ok].
    rewrite (Z.eqb_refl (Z.of_nat count)), to_signed_wrap by done.
    change (1 =? ROW_ID_ENCODING_RAW_I64) with false. change (1 =? ROW_ID_ENCODING_FOR_BITPACK) with true.
    rewrite (proj2 (try_from_Some 8 w w)) by (unfold_widths; lia).
    cbn [ensure_data guard_ok mbind io_result_bind row_id_payload or_data ok_or].
    rewrite (proj2 (Z.leb_gt 64 w)) by lia. cbn [negb guard_ok].
    unfold packed_row_id_payload_len.
    rewrite (proj2 (checked_mul_Some 64 (Z.of_nat count) w _)) by (split; [reflexivity|unfold_widths; nia]).
    cbn [mbind option_bind].
    rewrite (proj2 (checked_add_Some 64 (Z.of_nat count * w) 7 _)) by (split; [reflexivity|unfold_widths; nia]).
    cbn [option_bind or_input ok_or map_err mbind io_result_bind]. rewrite <- Hl.
    cbn [ensure_data guard_ok mbind io_result_bind]. rewrite bool_decide_true.
    2: { apply checked_add_Some. unfold ROW_ID_SECTION_HEADER_SIZE. split; [done|].
         pose proof (Z.div_mod (Z.of_nat count * w + 7) 8). pose proof (Z.mod_pos_bound (Z.of_nat count * w + 7) 8).
         unfold_widths. nia. }
    cbn [ensure_data guard_ok mbind io_result_bind rh_encoding rh_base rh_bit_width rh_count].
    change (1 =? ROW_ID_ENCODING_RAW_I64) with false. change (1 =? ROW_ID_ENCODING_FOR_BITPACK) with true.
    cbn [mbind io_result_bind]. by rewrite Nat2Z.id, Hval.
Qed.

(** ** Properties *)

Lemma length_section s : zlen (concat (row_id_section_chunks s)) = 32 + zlen (row_id_payload s).
Proof. rewrite section_bytes_eq. unfold zlen. rewrite !length_app, length_fields_bytes. destruct s; cbn; lia. Qed.

Lemma serialized_len_stored s count f :
  stores s count f → Z.of_nat count < 2 ^ 32 →
  serialized_len s = Ok (zlen (concat (row_id_section_chunks s))) ∧
  zlen (concat (row_id_section_chunks s)) <= 32 + 8 * Z.of_nat count.
Proof.
  intros Hs Hc. rewrite length_section. unfold serialized_len, payload_len, ROW_ID_SECTION_HEADER_SIZE.
  destruct s as [ids|base w c payload]; cbn [row_id_payload].
  - cbn in Hs. assert (zlen ids = Z.of_nat count) as El by (rewrite Hs; unfold zlen; by rewrite length_fmap, length_seq).
    rewrite length_raw_payload, El. split; [|lia].
    rewrite (proj2 (checked_mul_Some 64 _ 8 _)) by (split; [reflexivity|unfold_widths; lia]). cbn [or_input ok_or mbind io_result_bind].
    rewrite (proj2 (checked_add_Some 64 32 _ _)) by (split; [reflexivity|unfold_widths; lia]). cbn [or_input ok_or]. f_equal. lia.
  - destruct Hs as (-> & Hw & _ & _ & _ & Hl & _). pose proof (Z.div_mod (Z.of_nat count * w + 7) 8).
    pose proof (Z.mod_pos_bound (Z.of_nat count * w + 7) 8). split; [|nia]. cbn [mbind io_result_bind].
    by rewrite (proj2 (checked_add_Some 64 32 _ _)) by (split; [reflexivity|unfold_widths; nia]).
Qed.

(** C34: Any non-empty list of up to [u32::MAX] [i64] identifiers has a storage;
    every node reads back its identifier and nothing else, the visitor sees them
    in order, the section it is written as decodes to the same storage, and that
    section has the announced length, never above the raw one. *)
Theorem row_ids_roundtrip (count : nat) (row_id_at : nat → Z) :
  count_ok count → (∀ node, (node < count)%nat → i64 (row_id_at node)) →
  ∃ s, encode_from_fn count row_id_at = Ok s ∧ row_id_len s = count ∧
    (∀ node, get s node = if decide (node < count)%nat then Some (row_id_at node) else None) ∧
    (∀ (visitor : list (nat * Z) → nat → Z → io_result (list (nat * Z))) b,
       try_for_each s visitor b = try_fold (λ b node, visitor b node (row_id_at node)) b (seq 0 count)) ∧
    decode_row_id_section_owned (concat (row_id_section_chunks s)) count = Ok s ∧
    serialized_len s = Ok (zlen (concat (row_id_section_chunks s))) ∧
    zlen (concat (row_id_section_chunks s)) <= 32 + 8 * Z.of_nat count.
Proof.
  intros Hc Hf. destruct (encode_from_fn_spec count row_id_at Hc Hf) as (s & E & Hs). pose proof Hc as [_ Hc32].
  exists s. split; [done|]. split.
  { by eapply stores_len. }
  split; [intros; by apply get_spec|]. split; [intros; by apply try_for_each_spec|].
  split; [by eapply decode_section|]. by eapply serialized_len_stored.
Qed.

Lemma row_ids_roundtrip_witness :
  ∃ s, encode_from_fn 3 (λ n, 10 - 4 * Z.of_nat n) = Ok s ∧ row_id_len s = 3%nat ∧
    (∀ node, get s node = if decide (node < 3)%nat then Some ((λ n, 10 - 4 * Z.of_nat n) node) else None) ∧
    (∀ (visitor : list (nat * Z) → nat → Z → io_result (list (nat * Z))) b,
       try_for_each s visitor b = try_fold (λ b node, visitor b node ((λ n, 10 - 4 * Z.of_nat n) node)) b (seq 0 3)) ∧
    decode_row_id_section_owned (concat (row_id_section_chunks s)) 3 = Ok s ∧
    serialized_len s = Ok (zlen (concat (row_id_section_chunks s))) ∧
    zlen (concat (row_id_section_chunks s)) <= 32 + 8 * Z.of_nat 3.
Proof.
  refine (row_ids_roundtrip 3 (λ n, 10 - 4 * Z.of_nat n) _ _).
  - split; [lia|]. by unfold_widths.
  - intros node Hn. unfold_widths. lia.
Defined.

(** *** Decoding is sound *)

Lemma for_each_packed_all base w payload off k n :
  for_each_packed (λ (b : unit) _ _, Ok b) base w payload () off (seq k n) = Ok () →
  ∀ j, (j < n)%nat → ∃ d id,
    unpack_row_id_delta_at_bit_offset payload (off + Z.of_nat j * w) w = Some d ∧ add_base base d = Some id.
Proof.
  revert off k. induction n as [|n IH]; intros off k H j Hj; [lia|]. cbn [seq for_each_packed] in H. inv_ok.
  destruct j as [|j].
  - exists x, x0. by replace (off + Z.of_nat 0 * w) with off by lia.
  - destruct (IH _ _ H j ltac:(lia)) as (d & id & E & ?). exists d, id.
    by replace (off + Z.of_nat (S j) * w) with (off + w + Z.of_nat j * w) by lia.
Qed.

Lemma add_base_Some base d id : add_base base d = Some id ↔ id = base + d ∧ i64 id.
Proof. unfold add_base. case_bool_decide; naive_solver. Qed.

Lemma header_bytes bytes :
  bytes_ok bytes → 32 <= zlen bytes → slice 24 8 bytes = replicate 8 0 →
  bytes = fields_bytes [f4 (get_u32 bytes 0); f4 (get_u32 bytes 4); f8 (get_u64 bytes 8); f8 (get_u64 bytes 16)] ++
          replicate 8 0 ++ drop 32 bytes.
Proof.
  intros Hb Hl Hz. unfold zlen in Hl. rewrite <- (take_drop 24 bytes) at 1.
  pose proof (fields_bytes_read [4; 4; 8; 8]%nat bytes Hb ltac:(cbn; lia)) as E.
  change (sum_list [4; 4; 8; 8]%nat) with 24%nat in E. rewrite <- E. cbn [read_fields zip zip_with].
  rewrite !drop_drop. f_equal. rewrite <- Hz. unfold slice. rewrite <- (take_drop 8 (drop 24 bytes)) at 1. by rewrite drop_drop.
Qed.

Lemma decode_header_inv bytes len count h :
  bytes_ok bytes → decode_row_id_section_header bytes len count = Ok h →
  32 <= zlen bytes ∧ slice 24 8 bytes = replicate 8 0 ∧ rh_count h = count ∧
  get_u64 bytes 8 = Z.of_nat count ∧ get_u32 bytes 0 = rh_encoding h ∧ get_u32 bytes 4 = rh_bit_width h ∧
  get_u64 bytes 16 = wrap 64 (rh_base h) ∧
  ((rh_encoding h = 0 ∧ rh_bit_width h = 64 ∧ rh_base h = 0 ∧ len = 32 + 8 * Z.of_nat count) ∨
   (rh_encoding h = 1 ∧ 0 <= rh_bit_width h < 64 ∧ Z.of_nat count * rh_bit_width h + 7 < 2 ^ 64 ∧
    len = 32 + (Z.of_nat count * rh_bit_width h + 7) / 8)).
Proof.
  intros Hb H. unfold decode_row_id_section_header, ROW_ID_SECTION_HEADER_SIZE, ROW_ID_ENCODING_RAW_I64, ROW_ID_ENCODING_FOR_BITPACK in H.
  apply bind_Ok in H as (_ & Hlen%guard_ok_Ok & H). apply Z.leb_le in Hlen.
  apply bind_Ok in H as (_ & Hz%guard_ok_Ok & H). apply negb_true_iff, any_nonzero_false in Hz.
  rewrite length_slice in Hz by (unfold zlen in Hlen; lia).
  apply bind_Ok in H as (c & Hc & H). apply ok_or_Ok, try_from_Some in Hc as [-> Hc].
  apply bind_Ok in H as (_ & Hcount%guard_ok_Ok & H). apply Z.eqb_eq in Hcount. rewrite Hcount in *.
  assert (∀ n off, 0 <= le_val (slice off n bytes) < 2 ^ (8 * Z.of_nat n)) as Hbnd.
  { intros n off. pose proof (le_val_bound (slice off n bytes) ltac:(by apply Forall_slice)) as [? Hlt]. split; [done|].
    eapply Z.lt_le_trans; [exact Hlt|]. apply Z.pow_le_mono_r; [lia|]. unfold zlen, slice. rewrite length_take. lia. }
  assert (get_u64 bytes 16 = wrap 64 (to_signed 64 (get_u64 bytes 16))) as Hbase.
  { rewrite wrap_to_signed by lia. symmetry. apply wrap_small, (Hbnd 8%nat). }
  assert (0 <= get_u32 bytes 4) as Hw0 by apply (Hbnd 4%nat).
  apply bind_Ok in H as ([w n] & Hsel & H). apply bind_Ok in H as (_ & Hsec%guard_ok_Ok & H).
  apply bool_decide_eq_true, checked_add_Some in Hsec as [-> _]. injection H as <-.
  cbn [rh_encoding rh_bit_width rh_count rh_base]. rewrite Nat2Z.id.
  destruct (Z.eqb_spec (get_u32 bytes 0) 0) as [E0|].
  - apply bind_Ok in Hsel as (_ & Hm%guard_ok_Ok & Hsel). inv_ok.
    apply negb_true_iff, orb_false_iff in Hm as [Hw%negb_false_iff%Z.eqb_eq Hb0%negb_false_iff%Z.eqb_eq].
    split_and!; try done. left. split_and!; try done. lia.
  - destruct (Z.eqb_spec (get_u32 bytes 0) 1) as [E1|]; [|done].
    unfold packed_row_id_payload_len in Hsel. inv_ok.
    match goal with H : _ ≫= _ = Some _ |- _ => apply bind_Some in H as (? & ? & H); apply bind_Some in H as (? & ? & H) end.
    inv_ok. split_and!; try done. right. split_and!; try done; lia.
Qed.

(** Whatever bytes the section decoder accepts, the storage it returns has
    the expected node count, every node in range has an identifier (so no later
    lookup or walk can fail), and writing that storage gives back exactly the
    accepted bytes: the section has one encoding per storage. *)
Theorem row_ids_decode_sound (bytes : list Z) (count : nat) (s : RowIdStorage) :
  bytes_ok bytes → decode_row_id_section_owned bytes count = Ok s →
  row_id_len s = count ∧ (∀ node, (node < count)%nat → ∃ id, get s node = Some id ∧ i64 id) ∧
  concat (row_id_section_chunks s) = bytes.
Proof.
  intros Hb H. unfold decode_row_id_section_owned in H. apply bind_Ok in H as (h & Hh & H).
  apply decode_header_inv in Hh as (Hlen & Hz & Hcnt & Hc & He & Hw & Hbase & Hcase); [|done].
  change (Z.to_nat ROW_ID_SECTION_HEADER_SIZE) with 32%nat in H.
  pose proof (header_bytes bytes Hb Hlen Hz) as Hbytes. rewrite He, Hw, Hc, Hbase in Hbytes.
  apply bind_Ok in H as (s' & Hs & H). apply bind_Ok in H as ([] & Hv & H). injection H as <-.
  rewrite section_bytes_eq. unfold zlen in Hlen. destruct Hcase as [(E & Ew & Eb & El)|(E & Ew & Hmax & El)]; rewrite E in *.
  - cbn in Hs. injection Hs as <-.
    destruct (concat_split 8 count (drop 32 bytes)) as (ls & Els & Hls & Hk); [unfold zlen in El; rewrite length_drop; lia|].
    assert (∀ c, c ∈ ls → bytes_ok c ∧ length c = 8%nat) as Hin.
    { intros c Hci. split; [|exact (proj1 (Forall_forall _ _) Hls c Hci)].
      pose proof (Forall_drop _ 32 _ Hb) as Hd. rewrite Els in Hd. apply Forall_concat in Hd.
      exact (proj1 (Forall_forall _ _) Hd c Hci). }
    rewrite Els, chunks_exact_concat by (done || lia). cbn [row_id_len get]. split_and!.
    + by rewrite length_fmap.
    + intros node Hn. rewrite <- Hk in Hn. apply lookup_lt_is_Some in Hn as [c Hci]. rewrite list_lookup_fmap, Hci.
      eexists. split; [reflexivity|]. by apply to_signed_ok.
    + rewrite Hbytes at 1. cbn [header_fields row_id_payload]. rewrite Ew, Eb, Els.
      assert (zlen (le_val_i64 <$> ls) = Z.of_nat count) as -> by (unfold zlen; by rewrite length_fmap, Hk).
      f_equal. f_equal. rewrite <- list_fmap_compose. clear -Hin. induction ls as [|c ls IH]; [done|].
      rewrite fmap_cons. cbn [concat]. rewrite IH by set_solver. f_equal. destruct (Hin c ltac:(set_solver)) as [Hbc Hlc].
      cbn. unfold le_val_i64. rewrite wrap_to_signed, wrap_small by (try lia; pose proof (le_val_bound c Hbc) as B; unfold zlen in B; rewrite Hlc in B; exact B).
      rewrite <- Hlc. by apply le_bytes_le_val.
  - cbn in Hs. injection Hs as <-. cbn [row_id_len]. split_and!; [done| |].
    + intros node Hn. unfold validate_row_id_storage in Hv. apply bind_Ok in Hv as (? & _ & Hv). cbn [try_for_each] in Hv.
      rewrite Hcnt in *. destruct (for_each_packed_all _ _ _ _ _ _ Hv node Hn) as (d & id & Hu & Ha).
      exists id. cbn [get]. rewrite (proj2 (Nat.leb_gt _ _)) by done. unfold unpack_row_id_delta.
      rewrite (proj2 (checked_mul_Some 64 _ _ _)) by (split; [reflexivity|unfold_widths; nia]). cbn [mbind option_bind].
      rewrite Z.add_0_l in Hu. rewrite Hu. cbn [mbind option_bind]. split; [done|]. by apply add_base_Some in Ha as [_ ?].
    + rewrite Hbytes at 2. cbn [header_fields row_id_payload]. by rewrite Hcnt.
Qed.

Lemma row_ids_decode_sound_witness :
  row_id_len (ForBitPacked 5 3 2 [32]) = 2%nat ∧
  (∀ node, (node < 2)%nat → ∃ id, get (ForBitPacked 5 3 2 [32]) node = Some id ∧ i64 id) ∧
  concat (row_id_section_chunks (ForBitPacked 5 3 2 [32])) =
    [1; 0; 0; 0; 3; 0; 0; 0] ++ [2; 0; 0; 0; 0; 0; 0; 0] ++ [5; 0; 0; 0; 0; 0; 0; 0] ++ replicate 8 0 ++ [32].
Proof.
  refine (row_ids_decode_sound _ 2 (ForBitPacked 5 3 2 [32]) _ _); [|vm_compute; reflexivity].
  repeat constructor; unfold_widths; lia.
Defined.

(** *** The row-ID order section *)

Definition key_lt (a b : Z * Z) : Prop := a.1 < b.1 ∨ (a.1 = b.1 ∧ a.2 < b.2).

Lemma key_leb_false a b : key_leb a b = false ↔ key_lt b a.
Proof. unfold key_leb, key_lt. rewrite orb_false_iff, andb_false_iff. lia. Qed.

Lemma row_id_order_loop_spec s prev order :
  row_id_order_loop s prev order = Ok () →
  ∃ keys, Forall2 (λ node key, get s (Z.to_nat node) = Some key.1 ∧ key.2 = node) order keys ∧
    StronglySorted key_lt keys ∧ match prev with Some p => Forall (key_lt p) keys | None => True end.
Proof.
  revert prev. induction order as [|node order IH]; intros prev H; cbn [row_id_order_loop] in H.
  { exists []. destruct prev; split_and!; constructor. }
  apply bind_Ok in H as (id & Hid%ok_or_Ok & H). apply bind_Ok in H as (_ & Hlt%guard_ok_Ok & H).
  apply IH in H as (keys & Hk & Hs & Hf). exists ((id, node) :: keys). split_and!.
  - by constructor.
  - by constructor.
  - destruct prev as [p|]; [|done]. apply negb_true_iff, key_leb_false in Hlt. constructor; [done|].
    eapply Forall_impl; [exact Hf|]. unfold key_lt in *. cbn in *. lia.
Qed.

Lemma row_id_order_NoDup s order keys :
  Forall2 (λ node key, get s (Z.to_nat node) = Some key.1 ∧ key.2 = node) order keys →
  StronglySorted key_lt keys → NoDup order.
Proof.
  induction 1 as [|node [id k] order keys [Hid Ekey] Hk IH]; intros Hs; [constructor|]. cbn [fst snd] in *. subst k.
  inversion Hs as [|?? Hs' Hf]; subst. constructor; [|by apply IH].
  intros [i Hi]%list_elem_of_lookup_1. destruct (Forall2_lookup_l _ _ _ _ _ Hk Hi) as ([id' k'] & Hi' & Hid' & Ek).
  cbn [fst snd] in *. subst k'. pose proof (Forall_lookup_1 _ _ _ _ Hf Hi') as Hlt.
  unfold key_lt in Hlt. cbn in Hlt. assert (id' = id) by congruence. lia.
Qed.

Lemma get_lt s node id : get s node = Some id → (node < row_id_len s)%nat.
Proof.
  destruct s as [ids|base w c payload]; cbn [get row_id_len].
  - apply lookup_lt_Some.
  - case_match eqn:E; [done|]. intros _. by apply Nat.leb_gt in E.
Qed.

(** An order section the validator accepts is a permutation of all the
    nodes, listed by strictly increasing (row ID, node): so a binary search over
    it finds every identifier. *)
Theorem row_id_order_valid (s : RowIdStorage) (order : list Z) :
  Forall u32 order → validate_row_id_order s order = Ok () →
  Z.to_nat <$> order ≡ₚ seq 0 (row_id_len s) ∧
  ∃ keys, StronglySorted key_lt keys ∧
    Forall2 (λ node key, get s (Z.to_nat node) = Some key.1 ∧ key.2 = node) order keys.
Proof.
  intros Hu H. unfold validate_row_id_order in H. apply bind_Ok in H as (_ & Hl%guard_ok_Ok & H). apply Nat.eqb_eq in Hl.
  apply row_id_order_loop_spec in H as (keys & Hk & Hs & _). split; [|by exists keys].
  apply submseteq_length_Permutation; [|by rewrite length_fmap, length_seq, Hl].
  apply NoDup_submseteq.
  - apply NoDup_fmap_2_strong; [|by eapply row_id_order_NoDup].
    intros x y Hx Hy E. pose proof (proj1 (Forall_forall _ _) Hu x Hx). pose proof (proj1 (Forall_forall _ _) Hu y Hy). unfold_widths. lia.
  - intros n (node & -> & Hn)%list_elem_of_fmap. apply list_elem_of_lookup_1 in Hn as [i Hi].
    destruct (Forall2_lookup_l _ _ _ _ _ Hk Hi) as (key & _ & Hg & _). apply get_lt in Hg. apply elem_of_seq. lia.
Qed.

Lemma row_id_order_valid_witness :
  Z.to_nat <$> [1; 0; 2] ≡ₚ seq 0 (row_id_len (Raw [7; -3; 7])) ∧
  ∃ keys, StronglySorted key_lt keys ∧
    Forall2 (λ node key, get (Raw [7; -3; 7]) (Z.to_nat node) = Some key.1 ∧ key.2 = node) [1; 0; 2] keys.
Proof.
  refine (row_id_order_valid (Raw [7; -3; 7]) [1; 0; 2] _ _); [|vm_compute; reflexivity].
  repeat constructor; unfold_widths; lia.
Defined.
