(* ===== verification/DiskannHeader.v ===== *)
(** The DiskANN file header and section layout: [DiskAnnHeader] of
    [core/src/diskann_io.rs], with the build parameters and the format checks
    of [core/src/diskann.rs] and the metric codes of [core/src/distance.rs]. *)

From S2P Require Import Prelude F32 Adjacency DiskannUtil RowIds.

(** ** Enumerations and their codes *)

Inductive MetricType : Set := L2 | InnerProduct | Cosine.
#[export] Instance MetricType_eq_dec : EqDecision MetricType.
Proof. solve_decision. Defined.
Definition metric_code (m : MetricType) : Z := match m with L2 => 0 | InnerProduct => 1 | Cosine => 2 end.
Definition metric_from_code (code : Z) : option MetricType :=
  if code =? 0 then Some L2 else if code =? 1 then Some InnerProduct else if code =? 2 then Some Cosine else None.

Inductive DiskAnnStorageLayout : Set := Compact | Interleaved.
#[export] Instance DiskAnnStorageLayout_eq_dec : EqDecision DiskAnnStorageLayout.
Proof. solve_decision. Defined.

Inductive DiskAnnRawVectorEncoding : Set := EncF32 | EncF16.
#[export] Instance DiskAnnRawVectorEncoding_eq_dec : EqDecision DiskAnnRawVectorEncoding.
Proof. solve_decision. Defined.
Definition encoding_code (e : DiskAnnRawVectorEncoding) : Z := match e with EncF32 => 1 | EncF16 => 2 end.
Definition element_size (e : DiskAnnRawVectorEncoding) : Z := match e with EncF32 => 4 | EncF16 => 2 end.
Definition encoding_from_code (code : Z) : option DiskAnnRawVectorEncoding :=
  if code =? 1 then Some EncF32 else if code =? 2 then Some EncF16 else None.

Inductive DiskAnnBuildDistance : Set := FullPrecision | ProductQuantized.

Record DiskAnnBuildParams := BuildParams {
  bp_max_degree : Z;
  bp_build_search_list_size : Z;
  bp_alpha : Z;                       (* bits of the f32 *)
  bp_seed : Z;
  bp_memory_budget_bytes : Z;
  bp_storage_layout : DiskAnnStorageLayout;
  bp_raw_vector_encoding : DiskAnnRawVectorEncoding;
  bp_build_distance : DiskAnnBuildDistance;
}.
(** [Default]: alpha 1.2, eight gigabytes. *)
Definition default_build_params : DiskAnnBuildParams :=
  BuildParams 64 100 0x3f99999a 42 (8 * 1024 * 1024 * 1024) Compact EncF16 ProductQuantized.

Definition F32_ONE : Z := 0x3f800000.

Definition validate_diskann_format_configuration (dimension pq_m pq_bits : Z) (build : DiskAnnBuildParams) :
    io_result unit :=
  _ ← ensure_input (negb (dimension =? 0)) "DiskANN dimension must be greater than 0";
  _ ← ensure_input (negb (pq_m =? 0)) "DiskANN pq.m must be greater than 0";
  _ ← ensure_input (negb (dimension <? pq_m)) "DiskANN pq.m must not exceed dimension";
  _ ← ensure_input ((pq_bits =? 4) || (pq_bits =? 8)) "DiskANN pq.bits must be 4 or 8";
  _ ← ensure_input (negb (bp_max_degree build =? 0)) "DiskANN maximum degree must be greater than 0";
  _ ← ensure_input (negb (1023 <? bp_max_degree build)) "DiskANN adjacency list size exceeds the v1 1023-neighbor page limit";
  _ ← ensure_input (negb (bp_build_search_list_size build <? bp_max_degree build))
        "DiskANN build search-list size must be at least maximum degree";
  _ ← ensure_input (bool_decide (is_Some (try_from 32 (bp_build_search_list_size build))))
        "DiskANN build search-list size exceeds u32";
  _ ← ensure_input (negb (negb (f32_is_finite (bp_alpha build)) || f32_lt (bp_alpha build) F32_ONE))
        "DiskANN alpha must be at least 1 and finite";
  let interleaved_record_bytes :=
    vector_bytes ← checked_mul 64 dimension (element_size (bp_raw_vector_encoding build));
    adjacency_bytes ← checked_mul 64 (bp_max_degree build) 4;
    checked_add 64 vector_bytes adjacency_bytes in
  ensure_input (negb (bool_decide (bp_storage_layout build = Interleaved) &&
      match interleaved_record_bytes with None => true | Some record_bytes => 4096 <? record_bytes end))
    "DiskANN interleaved raw vector and maximum adjacency list must fit in one page".

(** ** The header *)

Definition DISKANN_MAGIC : Z := 0x4E4E4144.
Definition DISKANN_VERSION : Z := 1.
Definition DISKANN_HEADER_SIZE : Z := 256.
Definition FLAG_BFS_LAYOUT : Z := Z.shiftl 1 0.
Definition FLAG_SEPARATE_ADJACENCY_AND_VECTORS : Z := Z.shiftl 1 1.
Definition FLAG_ADAPTIVE_ADJACENCY : Z := Z.shiftl 1 2.
Definition FLAG_PQ_CODES : Z := Z.shiftl 1 3.
Definition FLAG_ROW_ID_ORDER : Z := Z.shiftl 1 4.
Definition FLAG_INTERLEAVED_ADJACENCY_AND_VECTORS : Z := Z.shiftl 1 5.
Definition DISKANN_REQUIRED_FLAGS : Z :=
  Z.lor (Z.lor (Z.lor FLAG_BFS_LAYOUT FLAG_ADAPTIVE_ADJACENCY) FLAG_PQ_CODES) FLAG_ROW_ID_ORDER.
Definition DISKANN_SUPPORTED_FLAGS : Z :=
  Z.lor (Z.lor DISKANN_REQUIRED_FLAGS FLAG_SEPARATE_ADJACENCY_AND_VECTORS) FLAG_INTERLEAVED_ADJACENCY_AND_VECTORS.
Definition SECTION_COUNT : Z := 7.
Definition ADJACENCY_LOCATOR_ENCODING : Z := 3.

Record DiskAnnSections := Sections {
  codebook : SectionRange;
  row_ids : SectionRange;
  pq_codes : SectionRange;
  row_id_order : SectionRange;
  adjacency_index : SectionRange;
  adjacency : SectionRange;
  vectors : SectionRange;
}.
#[export] Instance DiskAnnSections_eq_dec : EqDecision DiskAnnSections.
Proof. solve_decision. Defined.
Definition as_array (s : DiskAnnSections) : list SectionRange :=
  [codebook s; row_ids s; pq_codes s; row_id_order s; adjacency_index s; adjacency s; vectors s].
(** Indexing an array of seven; a shorter one cannot occur. *)
Definition from_array (a : list SectionRange) : option DiskAnnSections :=
  match a with
  | [s0; s1; s2; s3; s4; s5; s6] => Some (Sections s0 s1 s2 s3 s4 s5 s6)
  | _ => None
  end.

Record DiskAnnHeader := Header {
  flags : Z;
  dimension : Z;
  metric : Z;
  vector_count : Z;
  entry_node : Z;
  max_degree : Z;
  build_search_list_size : Z;
  alpha : Z;
  seed : Z;
  pq_m : Z;
  pq_bits : Z;
  page_size : Z;
  adjacency_locator_size : Z;
  adjacency_locator_encoding : Z;
  raw_vector_encoding : Z;
  vector_record_size : Z;
  file_len : Z;
  sections : DiskAnnSections;
}.

Definition storage_layout (h : DiskAnnHeader) : DiskAnnStorageLayout :=
  if negb (Z.land (flags h) FLAG_INTERLEAVED_ADJACENCY_AND_VECTORS =? 0) then Interleaved else Compact.
Definition is_interleaved (h : DiskAnnHeader) : bool := bool_decide (storage_layout h = Interleaved).

Definition for_layout_with_adjacency_pages_and_pq_bits (dimension vector_count entry_node pq_m pq_bits : Z)
    (metric : MetricType) (build : DiskAnnBuildParams) (row_ids_len adjacency_pages : Z) : io_result DiskAnnHeader :=
  _ ← validate_diskann_format_configuration dimension pq_m pq_bits build;
  _ ← ensure_input (negb ((vector_count =? 0) || bool_decide (try_from 32 vector_count = None)))
        "DiskANN vector count must be between 1 and u32::MAX";
  _ ← ensure_input (negb (vector_count <=? entry_node)) "DiskANN entry node is out of range";
  _ ← ensure_input (negb ((adjacency_pages =? 0) || bool_decide (try_from 32 adjacency_pages = None)))
        "DiskANN adjacency page count must be between 1 and u32::MAX";
  maximum_row_ids_len ← raw_row_id_section_len vector_count;
  _ ← ensure_input ((ROW_ID_SECTION_HEADER_SIZE <=? row_ids_len) && (row_ids_len <=? maximum_row_ids_len))
        "invalid DiskANN row-ID section length";
  dimension_u32 ← or_input (try_from 32 dimension) "DiskANN dimension exceeds u32";
  pq_m_u32 ← or_input (try_from 32 pq_m) "DiskANN pq.m exceeds u32";
  pq_bits_u32 ← or_input (try_from 32 pq_bits) "DiskANN pq.bits exceeds u32";
  pq_ksub ← diskann_pq_ksub pq_bits_u32;
  pq_code_size ← diskann_pq_code_size pq_m pq_bits_u32;
  max_degree ← or_input (try_from 32 (bp_max_degree build)) "DiskANN maximum degree exceeds u32";
  _ ← ensure_input (negb ((max_degree =? 0) || (1023 <? max_degree)))
        "DiskANN maximum degree must be between 1 and 1023";
  build_search_list_size ← or_input (try_from 32 (bp_build_search_list_size build))
        "DiskANN build search-list size exceeds u32";
  let raw_vector_encoding := encoding_code (bp_raw_vector_encoding build) in
  vector_record_size ← or_input (checked_mul 32 dimension_u32 (element_size (bp_raw_vector_encoding build)))
        "DiskANN vector record size overflows u32";
  _ ← match bp_storage_layout build with
      | Interleaved =>
          maximum_adjacency_bytes ← or_input (checked_mul 32 max_degree 4)
              "DiskANN adjacency record size overflows u32";
          ensure_input (negb (match checked_add 32 vector_record_size maximum_adjacency_bytes with
                              | None => true | Some record_size => DISKANN_PAGE_SIZE <? record_size end))
            "DiskANN interleaved raw vector and maximum adjacency list do not fit in one page"
      | Compact => Ok ()
      end;
  codebook_len ← pq_codebook_serialized_len dimension pq_m pq_ksub;
  pq_codes_len ← checked_mul_u64 vector_count pq_code_size "PQ codes";
  row_id_order_len ← checked_mul_u64 vector_count 4 "row-ID order";
  adjacency_index_len ← adjacency_index_serialized_len vector_count;
  adjacency_len ← checked_mul_u64 adjacency_pages DISKANN_PAGE_SIZE "adjacency pages";
  vectors_len ← match bp_storage_layout build with
                | Compact => checked_mul_u64 vector_count vector_record_size "raw vector records"
                | Interleaved => Ok 0
                end;
  let codebook := Section_ DISKANN_PAGE_SIZE codebook_len in
  row_ids_start ← section_end codebook;
  let row_ids := Section_ row_ids_start row_ids_len in
  pq_codes_start ← section_end row_ids;
  let pq_codes := Section_ pq_codes_start pq_codes_len in
  row_id_order_start ← section_end pq_codes;
  let row_id_order := Section_ row_id_order_start row_id_order_len in
  adjacency_index_start ← section_end row_id_order;
  let adjacency_index := Section_ adjacency_index_start adjacency_index_len in
  adjacency_index_end ← section_end adjacency_index;
  adjacency_start ← align_up adjacency_index_end DISKANN_PAGE_SIZE;
  let adjacency := Section_ adjacency_start adjacency_len in
  vectors_start ← section_end adjacency;
  let vectors := Section_ vectors_start vectors_len in
  file_len ← section_end vectors;
  Ok (Header
    (Z.lor DISKANN_REQUIRED_FLAGS
       (match bp_storage_layout build with
        | Compact => FLAG_SEPARATE_ADJACENCY_AND_VECTORS
        | Interleaved => FLAG_INTERLEAVED_ADJACENCY_AND_VECTORS
        end))
    dimension_u32 (metric_code metric) vector_count entry_node max_degree build_search_list_size
    (bp_alpha build) (bp_seed build) pq_m_u32 pq_bits_u32 DISKANN_PAGE_SIZE ADJACENCY_LOCATOR_SIZE
    ADJACENCY_LOCATOR_ENCODING raw_vector_encoding vector_record_size file_len
    (Sections codebook row_ids pq_codes row_id_order adjacency_index adjacency vectors)).

(** The two public entry points. *)
Definition for_layout_with_pq_bits (dimension vector_count entry_node pq_m pq_bits : Z) (build : DiskAnnBuildParams) :
    io_result DiskAnnHeader :=
  row_ids_len ← raw_row_id_section_len vector_count;
  for_layout_with_adjacency_pages_and_pq_bits dimension vector_count entry_node pq_m pq_bits L2 build row_ids_len 1.
Definition for_layout (dimension vector_count entry_node pq_m : Z) (build : DiskAnnBuildParams) :
    io_result DiskAnnHeader :=
  for_layout_with_pq_bits dimension vector_count entry_node pq_m 8 build.

(** ** Encoding *)

Definition put_sections (bytes : list Z) (ss : list SectionRange) : list Z :=
  foldl (λ bytes '(index, s),
    let off := (96 + index * 16)%nat in put_u64 (put_u64 bytes off (offset s)) (off + 8) (sec_length s))
    bytes (imap pair ss).

Definition encode (h : DiskAnnHeader) : list Z :=
  let bytes := replicate (Z.to_nat DISKANN_HEADER_SIZE) 0 in
  let bytes := put_u32 bytes 0 DISKANN_MAGIC in
  let bytes := put_u32 bytes 4 DISKANN_VERSION in
  let bytes := put_u32 bytes 8 DISKANN_HEADER_SIZE in
  let bytes := put_u32 bytes 12 (flags h) in
  let bytes := put_u32 bytes 16 (dimension h) in
  let bytes := put_u32 bytes 20 (metric h) in
  let bytes := put_u64 bytes 24 (vector_count h) in
  let bytes := put_u32 bytes 32 (entry_node h) in
  let bytes := put_u32 bytes 36 (max_degree h) in
  let bytes := put_u32 bytes 40 (build_search_list_size h) in
  let bytes := put_u32 bytes 44 (alpha h) in
  let bytes := put_u64 bytes 48 (seed h) in
  let bytes := put_u32 bytes 56 (pq_m h) in
  let bytes := put_u32 bytes 60 (pq_bits h) in
  let bytes := put_u32 bytes 64 (page_size h) in
  let bytes := put_u32 bytes 68 (adjacency_locator_size h) in
  let bytes := put_u32 bytes 72 (adjacency_locator_encoding h) in
  let bytes := put_u32 bytes 76 (raw_vector_encoding h) in
  let bytes := put_u32 bytes 80 (vector_record_size h) in
  let bytes := put_u32 bytes 84 SECTION_COUNT in
  let bytes := put_u64 bytes 88 (file_len h) in
  put_sections bytes (as_array (sections h)).

(** ** Decoding *)

Definition validate_layout (h : DiskAnnHeader) : io_result unit :=
  _ ← ensure_data (negb (dimension h =? 0)) "invalid DiskANN dimension";
  _ ← ensure_data (negb ((vector_count h =? 0) || (U32_MAX <? vector_count h))) "invalid DiskANN vector count";
  _ ← ensure_data (negb (vector_count h <=? entry_node h)) "invalid DiskANN entry node";
  _ ← ensure_data (negb ((pq_m h =? 0) || (dimension h <? pq_m h))) "invalid DiskANN PQ shape";
  _ ← ensure_data (negb ((max_degree h =? 0) || (1023 <? max_degree h) || (build_search_list_size h <? max_degree h)))
        "invalid DiskANN build parameters";
  _ ← ensure_data (negb (f32_lt (alpha h) F32_ONE)) "invalid DiskANN alpha";
  vector_count' ← or_data (try_from 64 (vector_count h)) "DiskANN vector count exceeds usize";
  let adjacency_length := sec_length (adjacency (sections h)) in
  adjacency_pages ← or_data (try_from 64 (adjacency_length / DISKANN_PAGE_SIZE))
        "DiskANN adjacency page count exceeds usize";
  _ ← ensure_data (negb ((adjacency_pages =? 0) || negb (adjacency_length mod DISKANN_PAGE_SIZE =? 0)))
        "invalid DiskANN adjacency section length";
  metric_type ← expect (metric_from_code (metric h));
  raw_encoding ← expect (encoding_from_code (raw_vector_encoding h));
  row_ids_len ← or_data (try_from 64 (sec_length (row_ids (sections h)))) "DiskANN row-ID section exceeds usize";
  expected ← map_err (λ _, IoError InvalidData "invalid DiskANN layout")
    (for_layout_with_adjacency_pages_and_pq_bits (dimension h) vector_count' (entry_node h) (pq_m h) (pq_bits h)
       metric_type
       (BuildParams (max_degree h) (build_search_list_size h) (alpha h) (seed h) 1 (storage_layout h) raw_encoding
          (bp_build_distance default_build_params))
       row_ids_len adjacency_pages);
  ensure_data (negb (
      negb (adjacency_locator_size h =? adjacency_locator_size expected)
      || negb (adjacency_locator_encoding h =? adjacency_locator_encoding expected)
      || negb (raw_vector_encoding h =? raw_vector_encoding expected)
      || negb (vector_record_size h =? vector_record_size expected)
      || negb (bool_decide (sections h = sections expected))
      || negb (file_len h =? file_len expected))) "invalid DiskANN section layout".

Definition decode_sections (bytes : list Z) : list SectionRange :=
  (λ index, let off := (96 + index * 16)%nat in Section_ (get_u64 bytes off) (get_u64 bytes (off + 8))) <$> seq 0 7.

Definition decode (bytes : list Z) : io_result DiskAnnHeader :=
  _ ← ensure_data (DISKANN_HEADER_SIZE <=? zlen bytes) "DiskANN header is truncated";
  _ ← ensure_data (get_u32 bytes 0 =? DISKANN_MAGIC) "invalid DiskANN magic";
  _ ← ensure_data (get_u32 bytes 4 =? DISKANN_VERSION) "unsupported DiskANN version";
  _ ← ensure_data (get_u32 bytes 8 =? DISKANN_HEADER_SIZE) "invalid DiskANN header size";
  let flags := get_u32 bytes 12 in
  _ ← ensure_data (negb (
        negb (Z.land flags DISKANN_REQUIRED_FLAGS =? DISKANN_REQUIRED_FLAGS)
        || negb (Z.ldiff flags DISKANN_SUPPORTED_FLAGS =? 0)
        || Bool.eqb (negb (Z.land flags FLAG_SEPARATE_ADJACENCY_AND_VECTORS =? 0))
                    (negb (Z.land flags FLAG_INTERLEAVED_ADJACENCY_AND_VECTORS =? 0))))
        "invalid DiskANN required flags";
  _ ← ensure_data (get_u32 bytes 84 =? SECTION_COUNT) "invalid DiskANN section count";
  _ ← ensure_data (negb (any_nonzero (slice 208 48 bytes))) "DiskANN reserved header bytes must be zero";
  sections ← expect (from_array (decode_sections bytes));
  let header := Header flags (get_u32 bytes 16) (get_u32 bytes 20) (get_u64 bytes 24) (get_u32 bytes 32)
    (get_u32 bytes 36) (get_u32 bytes 40) (get_u32 bytes 44) (get_u64 bytes 48) (get_u32 bytes 56)
    (get_u32 bytes 60) (get_u32 bytes 64) (get_u32 bytes 68) (get_u32 bytes 72) (get_u32 bytes 76)
    (get_u32 bytes 80) (get_u64 bytes 88) sections in
  _ ← ensure_data (negb (
        bool_decide (metric_from_code (metric header) = None)
        || negb ((pq_bits header =? 4) || (pq_bits header =? 8))
        || negb (page_size header =? DISKANN_PAGE_SIZE)
        || bool_decide (encoding_from_code (raw_vector_encoding header) = None)))
        "unsupported DiskANN v1 layout";
  _ ← ensure_data (f32_is_finite (alpha header)) "DiskANN alpha must be finite";
  _ ← validate_layout header;
  Ok header.

(** ** What a layout is *)

(** Arguments inside their Rust types. *)
Record layout_args_ok (dimension vector_count entry_node pq_m pq_bits : Z) (build : DiskAnnBuildParams)
    (row_ids_len adjacency_pages : Z) : Prop := {
  la_dimension : usize dimension; la_count : usize vector_count; la_entry : u32 entry_node;
  la_pq_m : usize pq_m; la_pq_bits : usize pq_bits;
  la_degree : usize (bp_max_degree build); la_search : usize (bp_build_search_list_size build);
  la_alpha : u32 (bp_alpha build); la_seed : u64 (bp_seed build);
  la_row_ids : usize row_ids_len; la_pages : usize adjacency_pages;
}.

(** The fields a layout copies from its arguments, and the constants. *)
Record header_matches (h : DiskAnnHeader) (dim count entry m bits : Z) (mt : MetricType) (build : DiskAnnBuildParams)
    (row_ids_len pages : Z) : Prop := {
  hm_flags : flags h = Z.lor DISKANN_REQUIRED_FLAGS
    (match bp_storage_layout build with
     | Compact => FLAG_SEPARATE_ADJACENCY_AND_VECTORS | Interleaved => FLAG_INTERLEAVED_ADJACENCY_AND_VECTORS end);
  hm_dimension : dimension h = dim; hm_metric : metric h = metric_code mt;
  hm_count : vector_count h = count; hm_entry : entry_node h = entry;
  hm_degree : max_degree h = bp_max_degree build;
  hm_search : build_search_list_size h = bp_build_search_list_size build;
  hm_alpha : alpha h = bp_alpha build; hm_seed : seed h = bp_seed build;
  hm_pq_m : pq_m h = m; hm_pq_bits : pq_bits h = bits;
  hm_page_size : page_size h = DISKANN_PAGE_SIZE;
  hm_locator_size : adjacency_locator_size h = ADJACENCY_LOCATOR_SIZE;
  hm_locator_encoding : adjacency_locator_encoding h = ADJACENCY_LOCATOR_ENCODING;
  hm_encoding : raw_vector_encoding h = encoding_code (bp_raw_vector_encoding build);
  hm_row_ids : sec_length (row_ids (sections h)) = row_ids_len;
  hm_adjacency : sec_length (adjacency (sections h)) = pages * DISKANN_PAGE_SIZE;
}.

(** The sections are laid end to end after the header page; only the adjacency
    pages are aligned, and the file ends with the last section. *)
Record sections_tile (s : DiskAnnSections) (file_len : Z) : Prop := {
  st_codebook : offset (codebook s) = DISKANN_PAGE_SIZE;
  st_row_ids : offset (row_ids s) = offset (codebook s) + sec_length (codebook s);
  st_pq_codes : offset (pq_codes s) = offset (row_ids s) + sec_length (row_ids s);
  st_order : offset (row_id_order s) = offset (pq_codes s) + sec_length (pq_codes s);
  st_index : offset (adjacency_index s) = offset (row_id_order s) + sec_length (row_id_order s);
  st_adjacency : offset (adjacency_index s) + sec_length (adjacency_index s) <= offset (adjacency s)
                 < offset (adjacency_index s) + sec_length (adjacency_index s) + DISKANN_PAGE_SIZE;
  st_aligned : offset (adjacency s) mod DISKANN_PAGE_SIZE = 0;
  st_vectors : offset (vectors s) = offset (adjacency s) + sec_length (adjacency s);
  st_file : file_len = offset (vectors s) + sec_length (vectors s);
  st_u64 : file_len < 2 ^ 64;
  st_nonneg : Forall (λ x, 0 <= sec_length x) (as_array s);
}.

(** The length of every section, from the configuration. *)
Record section_lengths (h : DiskAnnHeader) (layout : DiskAnnStorageLayout) : Prop := {
  sl_codebook : sec_length (codebook (sections h)) =
    32 + (pq_m h + 1) * 4 + dimension h * (if pq_bits h =? 4 then 16 else 256) * 4;
  sl_codes : sec_length (pq_codes (sections h)) =
    vector_count h * (if pq_bits h =? 4 then div_ceil (pq_m h) 2 else pq_m h);
  sl_order : sec_length (row_id_order (sections h)) = vector_count h * 4;
  sl_index : sec_length (adjacency_index (sections h)) = div_ceil (vector_count h) 16 * 8 + vector_count h * 4;
  sl_vectors : sec_length (vectors (sections h)) =
    match layout with Compact => vector_count h * vector_record_size h | Interleaved => 0 end;
}.

Lemma diskann_pq_ksub_Ok bits k : diskann_pq_ksub bits = Ok k → (bits = 4 ∧ k = 16) ∨ (bits = 8 ∧ k = 256).
Proof. unfold diskann_pq_ksub. repeat case_match; intros; inv_ok; lia. Qed.

Lemma diskann_pq_code_size_Ok m bits k :
  diskann_pq_code_size m bits = Ok k → k = if bits =? 4 then div_ceil m 2 else m.
Proof. unfold diskann_pq_code_size. repeat case_match; intros; by inv_ok. Qed.

Lemma pq_codebook_serialized_len_Ok d m k n : pq_codebook_serialized_len d m k = Ok n → n = 32 + (m + 1) * 4 + d * k * 4.
Proof.
  unfold pq_codebook_serialized_len, PQ_CODEBOOK_HEADER_SIZE. intros H. inv_ok.
  repeat match goal with H : _ ≫= _ = Some _ |- _ => apply bind_Some in H as (? & ? & H) end. inv_ok. lia.
Qed.

Lemma adjacency_index_serialized_len_Ok n k : adjacency_index_serialized_len n = Ok k → k = div_ceil n 16 * 8 + n * 4.
Proof. unfold adjacency_index_serialized_len. intros H. by inv_ok. Qed.

Lemma format_configuration_Ok dim m bits build :
  validate_diskann_format_configuration dim m bits build = Ok () →
  dim ≠ 0 ∧ m ≠ 0 ∧ m <= dim ∧ (bits = 4 ∨ bits = 8) ∧ bp_max_degree build ≠ 0 ∧ bp_max_degree build <= 1023 ∧
  bp_max_degree build <= bp_build_search_list_size build < 2 ^ 32 ∧
  f32_is_finite (bp_alpha build) = true ∧ f32_lt (bp_alpha build) F32_ONE = false.
Proof.
  unfold validate_diskann_format_configuration. intros H.
  guard_ok H as H1. guard_ok H as H2. guard_ok H as H3. guard_ok H as H4. guard_ok H as H5. guard_ok H as H6.
  guard_ok H as H7. guard_ok H as H8. guard_ok H as H9.
  apply bool_decide_eq_true in H8 as [? [_ H8]%try_from_Some].
  apply negb_true_iff, orb_false_iff in H9 as [H9%negb_false_iff H10].
  split_and!; try done; lia.
Qed.

(** The chain of section ends. *)
Lemma section_end_Ok o n e : section_end (Section_ o n) = Ok e → e = o + n ∧ e < 2 ^ 64.
Proof. unfold section_end. cbn. intros H. by inv_ok. Qed.

Lemma try_from_guard x : negb ((x =? 0) || bool_decide (try_from 32 x = None)) = true → x ≠ 0 ∧ x < 2 ^ 32.
Proof.
  rewrite negb_true_iff, orb_false_iff, bool_decide_eq_false. unfold try_from. case_match; naive_solver lia.
Qed.

Lemma raw_row_id_section_len_Ok n k : raw_row_id_section_len n = Ok k → k = n * 8 + 32 ∧ k < 2 ^ 64.
Proof.
  unfold raw_row_id_section_len, ROW_ID_SECTION_HEADER_SIZE. intros H. inv_ok. apply bind_Some in H as (? & ? & H). by inv_ok.
Qed.

Lemma div_ceil_nonneg a b : 0 <= a → 0 < b → 0 <= div_ceil a b.
Proof. intros. apply Z.div_pos; lia. Qed.

Lemma for_layout_inv dim count entry m bits mt build r p h :
  layout_args_ok dim count entry m bits build r p →
  for_layout_with_adjacency_pages_and_pq_bits dim count entry m bits mt build r p = Ok h →
  header_matches h dim count entry m bits mt build r p ∧ sections_tile (sections h) (file_len h) ∧
  section_lengths h (bp_storage_layout build) ∧
  0 < dim < 2 ^ 32 ∧ 0 < count < 2 ^ 32 ∧ entry < count ∧ 0 < m <= dim ∧ (bits = 4 ∨ bits = 8) ∧
  0 < bp_max_degree build <= 1023 ∧ bp_max_degree build <= bp_build_search_list_size build < 2 ^ 32 ∧
  f32_is_finite (bp_alpha build) = true ∧ f32_lt (bp_alpha build) F32_ONE = false ∧ 0 < p < 2 ^ 32 ∧
  32 <= r <= count * 8 + 32 ∧
  vector_record_size h = dim * element_size (bp_raw_vector_encoding build) ∧ vector_record_size h < 2 ^ 32.
Proof.
  intros [Adim Acount Aentry Am Abits Adeg Asearch Aalpha Aseed Ar Ap] H.
  unfold for_layout_with_adjacency_pages_and_pq_bits in H.
  bind_ok H as u Hcfg. destruct u. apply format_configuration_Ok in Hcfg as (? & ? & ? & ? & ? & ? & ? & ? & ?).
  guard_ok H as Hcount. apply try_from_guard in Hcount. guard_ok H as Hentry. guard_ok H as Hp. apply try_from_guard in Hp.
  bind_ok H as maxr Hmaxr. apply raw_row_id_section_len_Ok in Hmaxr as [-> _]. guard_ok H as Hr.
  apply andb_true_iff in Hr as [Hr1 Hr2]. unfold ROW_ID_SECTION_HEADER_SIZE in Hr1.
  bind_ok H as dim' Hdim. apply ok_or_Ok, try_from_Some in Hdim as [-> Hdim].
  bind_ok H as m' Hm. apply ok_or_Ok, try_from_Some in Hm as [-> Hm].
  bind_ok H as bits' Hbits. apply ok_or_Ok, try_from_Some in Hbits as [-> Hbits].
  bind_ok H as ksub Hk. apply diskann_pq_ksub_Ok in Hk. bind_ok H as csize Hcs. apply diskann_pq_code_size_Ok in Hcs.
  bind_ok H as deg Hdeg. apply ok_or_Ok, try_from_Some in Hdeg as [-> Hdeg]. guard_ok H as Hdeg'.
  bind_ok H as bs Hbs. apply ok_or_Ok, try_from_Some in Hbs as [-> Hbs].
  bind_ok H as rec Hrec. apply ok_or_Ok, checked_mul_Some in Hrec as [-> Hrec].
  bind_ok H as u Hil. clear Hil u.
  bind_ok H as cbl Hcbl. apply pq_codebook_serialized_len_Ok in Hcbl.
  bind_ok H as pqc Hpqc. apply ok_or_Ok, checked_mul_Some in Hpqc as [Hpqc _].
  bind_ok H as rol Hrol. apply ok_or_Ok, checked_mul_Some in Hrol as [Hrol _].
  bind_ok H as ail Hail. apply adjacency_index_serialized_len_Ok in Hail.
  bind_ok H as adl Hadl. apply ok_or_Ok, checked_mul_Some in Hadl as [Hadl _].
  bind_ok H as vl Hvl.
  assert (vl = match bp_storage_layout build with Compact => count * (dim * element_size (bp_raw_vector_encoding build)) | Interleaved => 0 end) as Hvl'.
  { destruct (bp_storage_layout build); [by apply ok_or_Ok, checked_mul_Some in Hvl as [? _]|by inv_ok]. }
  bind_ok H as e1 He1. apply section_end_Ok in He1. bind_ok H as e2 He2. apply section_end_Ok in He2.
  bind_ok H as e3 He3. apply section_end_Ok in He3. bind_ok H as e4 He4. apply section_end_Ok in He4.
  bind_ok H as e5 He5. apply section_end_Ok in He5. bind_ok H as e6 He6. bind_ok H as e7 He7. apply section_end_Ok in He7.
  bind_ok H as e8 He8. apply section_end_Ok in He8. injection H as <-.
  assert (0 <= vl) as Hvl0.
  { subst vl. unfold_widths. destruct (bp_storage_layout build), (bp_raw_vector_encoding build); cbn; nia. }
  assert (0 <= csize) as Hcs0.
  { subst csize. unfold_widths. pose proof (div_ceil_nonneg m 2 ltac:(lia) ltac:(lia)). destruct (bits =? 4); lia. }
  unfold_widths. unfold DISKANN_PAGE_SIZE in *. pose proof (div_ceil_nonneg count 16 ltac:(lia) ltac:(lia)) as Hdc.
  assert (0 <= ksub) as Hk0 by lia.
  assert (0 <= cbl ∧ 0 <= pqc ∧ 0 <= rol ∧ 0 <= ail ∧ 0 <= adl) as (? & ? & ? & ? & ?) by (split_and!; nia).
  apply (align_up_spec e5 12) in He6 as (He6 & Hal & _); [|lia|lia]. change (2 ^ 12) with 4096 in *.
  split; [by split|]. split.
  { split; cbn [sections codebook row_ids pq_codes row_id_order adjacency_index adjacency vectors offset sec_length file_len as_array];
      unfold DISKANN_PAGE_SIZE; first [lia|done|unfold as_array; repeat constructor; cbn; lia]. }
  split.
  { subst. split; cbn [sections codebook pq_codes row_id_order adjacency_index vectors sec_length pq_bits pq_m dimension vector_count vector_record_size]; try done.
    destruct Hk as [[-> ->]|[-> ->]]; done. }
  cbn [vector_record_size]. split_and!; try done; lia.
Qed.

(** ** The header as a list of fields *)

Definition header_field_list (h : DiskAnnHeader) : list (nat * Z) :=
  [f4 DISKANN_MAGIC; f4 DISKANN_VERSION; f4 DISKANN_HEADER_SIZE; f4 (flags h); f4 (dimension h); f4 (metric h);
   f8 (vector_count h); f4 (entry_node h); f4 (max_degree h); f4 (build_search_list_size h); f4 (alpha h);
   f8 (seed h); f4 (pq_m h); f4 (pq_bits h); f4 (page_size h); f4 (adjacency_locator_size h);
   f4 (adjacency_locator_encoding h); f4 (raw_vector_encoding h); f4 (vector_record_size h); f4 SECTION_COUNT;
   f8 (file_len h);
   f8 (offset (codebook (sections h))); f8 (sec_length (codebook (sections h)));
   f8 (offset (row_ids (sections h))); f8 (sec_length (row_ids (sections h)));
   f8 (offset (pq_codes (sections h))); f8 (sec_length (pq_codes (sections h)));
   f8 (offset (row_id_order (sections h))); f8 (sec_length (row_id_order (sections h)));
   f8 (offset (adjacency_index (sections h))); f8 (sec_length (adjacency_index (sections h)));
   f8 (offset (adjacency (sections h))); f8 (sec_length (adjacency (sections h)));
   f8 (offset (vectors (sections h))); f8 (sec_length (vectors (sections h)))].

Lemma encode_eq h : encode h = fields_bytes (header_field_list h) ++ replicate 48 0.
Proof.
  unfold encode, put_sections, as_array, put_u32, put_u64. change (Z.to_nat DISKANN_HEADER_SIZE) with 256%nat.
  change (replicate 256 0) with (fields_bytes [] ++ replicate 256 0). rewrite !splice_field by (done || lia).
  cbn [imap foldl Nat.add Nat.mul]. rewrite !splice_field by (done || lia). reflexivity.
Qed.

Lemma length_encode h : length (encode h) = 256%nat.
Proof. rewrite encode_eq, length_app, length_fields_bytes. reflexivity. Qed.
Lemma zlen_encode h : zlen (encode h) = 256.
Proof. exact (f_equal Z.of_nat (length_encode h)). Qed.

(** Headers whose fields fit their widths. *)
Record header_ok (h : DiskAnnHeader) : Prop := {
  ho_u32 : Forall u32 [flags h; dimension h; metric h; entry_node h; max_degree h; build_search_list_size h; alpha h;
             pq_m h; pq_bits h; page_size h; adjacency_locator_size h; adjacency_locator_encoding h;
             raw_vector_encoding h; vector_record_size h];
  ho_u64 : Forall u64 [vector_count h; seed h; file_len h];
  ho_sections : Forall (λ s, u64 (offset s) ∧ u64 (sec_length s)) (as_array (sections h));
}.

Lemma layout_header_ok dim count entry m bits mt build r p h :
  layout_args_ok dim count entry m bits build r p →
  for_layout_with_adjacency_pages_and_pq_bits dim count entry m bits mt build r p = Ok h → header_ok h.
Proof.
  intros Hargs H. apply for_layout_inv in H as (Hm & Ht & _ & ? & ? & ? & ? & ? & ? & ? & _ & _ & ? & ? & ? & ?); [|done].
  destruct Hargs, Hm, Ht as [T1 T2 T3 T4 T5 T6 T7 T8 T9 T10 T11].
  unfold as_array in T11. rewrite !list.Forall_cons in T11.
  assert (0 <= metric_code mt < 3) by (destruct mt; cbn; lia).
  assert (0 <= encoding_code (bp_raw_vector_encoding build) < 3) by (destruct (bp_raw_vector_encoding build); cbn; lia).
  assert (0 <= element_size (bp_raw_vector_encoding build) <= 4) by (destruct (bp_raw_vector_encoding build); cbn; lia).
  unfold DISKANN_PAGE_SIZE, ADJACENCY_LOCATOR_SIZE, ADJACENCY_LOCATOR_ENCODING in *.
  split.
  - repeat (apply Forall_cons; split); try apply Forall_nil; try done;
      try match goal with E : ?x = _ |- u32 ?x => rewrite E end; try done; unfold_widths; try lia.
    destruct (bp_storage_layout build); by vm_compute.
  - repeat (apply Forall_cons; split); try apply Forall_nil;
      try match goal with E : ?x = _ |- u64 ?x => rewrite E end; try done; unfold_widths; lia.
  - unfold as_array. repeat (apply Forall_cons; split); try apply Forall_nil; split; unfold_widths; lia.
Qed.

Lemma for_layout_build_irrelevant dim count entry m bits mt build r p memory distance :
  for_layout_with_adjacency_pages_and_pq_bits dim count entry m bits mt
    (BuildParams (bp_max_degree build) (bp_build_search_list_size build) (bp_alpha build) (bp_seed build) memory
       (bp_storage_layout build) (bp_raw_vector_encoding build) distance) r p =
  for_layout_with_adjacency_pages_and_pq_bits dim count entry m bits mt build r p.
Proof. reflexivity. Qed.

Lemma metric_from_code_code m : metric_from_code (metric_code m) = Some m.
Proof. by destruct m. Qed.
Lemma encoding_from_code_code e : encoding_from_code (encoding_code e) = Some e.
Proof. by destruct e. Qed.
Lemma metric_from_code_Some c m : metric_from_code c = Some m → c = metric_code m.
Proof. unfold metric_from_code. repeat case_match; naive_solver lia. Qed.
Lemma encoding_from_code_Some c e : encoding_from_code c = Some e → c = encoding_code e.
Proof. unfold encoding_from_code. repeat case_match; naive_solver lia. Qed.

Definition layout_flag (l : DiskAnnStorageLayout) : Z :=
  match l with Compact => FLAG_SEPARATE_ADJACENCY_AND_VECTORS | Interleaved => FLAG_INTERLEAVED_ADJACENCY_AND_VECTORS end.

Lemma storage_layout_flags h l : flags h = Z.lor DISKANN_REQUIRED_FLAGS (layout_flag l) → storage_layout h = l.
Proof. unfold storage_layout. intros ->. by destruct l. Qed.

Lemma validate_layout_ok dim count entry m bits mt build r p h :
  layout_args_ok dim count entry m bits build r p →
  for_layout_with_adjacency_pages_and_pq_bits dim count entry m bits mt build r p = Ok h → validate_layout h = Ok ().
Proof.
  intros Hargs H. pose proof H as Hinv.
  apply for_layout_inv in Hinv as (Hm & Ht & _ & ? & ? & ? & ? & ? & ? & ? & ? & Ha & ? & ? & ? & ?); [|done].
  destruct Hargs, Hm. unfold validate_layout.
  rewrite hm_dimension0, hm_count0, hm_entry0, hm_pq_m0, hm_degree0, hm_search0, hm_alpha0, hm_row_ids0, hm_adjacency0,
    hm_metric0, hm_encoding0, hm_pq_bits0, hm_seed0, Ha, (storage_layout_flags h _ hm_flags0).
  assert (p * DISKANN_PAGE_SIZE / DISKANN_PAGE_SIZE = p) as -> by (by apply Z.div_mul).
  assert (p * DISKANN_PAGE_SIZE mod DISKANN_PAGE_SIZE = 0) as -> by (by apply Z.mod_mul).
  do 6 pass. pass. pass. pass. rewrite metric_from_code_code, encoding_from_code_code. cbn [expect mbind io_result_bind].
  pass. rewrite (for_layout_build_irrelevant dim count entry m bits mt build r p), H.
  cbn [map_err mbind io_result_bind]. rewrite hm_locator_size0, hm_locator_encoding0, hm_encoding0.
  rewrite !Z.eqb_refl, bool_decide_true by done. reflexivity.
Qed.

(** Every field of an encoded header reads back. *)
Lemma get_encoded_u32 h rest i v off :
  header_field_list h !! i = Some (f4 v) → fields_width (take i (header_field_list h)) = off → u32 v →
  get_u32 (encode h ++ rest) off = v.
Proof. intros. rewrite encode_eq, <- app_assoc. by eapply get_u32_field. Qed.
Lemma get_encoded_u64 h rest i v off :
  header_field_list h !! i = Some (f8 v) → fields_width (take i (header_field_list h)) = off → u64 v →
  get_u64 (encode h ++ rest) off = v.
Proof. intros. rewrite encode_eq, <- app_assoc. by eapply get_u64_field. Qed.

Lemma decode_sections_encoded h rest :
  header_ok h → from_array (decode_sections (encode h ++ rest)) = Some (sections h).
Proof.
  intros [_ _ Hs]. unfold as_array in Hs. rewrite !list.Forall_cons in Hs.
  destruct Hs as ([] & [] & [] & [] & [] & [] & [] & _). unfold decode_sections. cbn [seq fmap list_fmap Nat.add Nat.mul].
  rewrite (get_encoded_u64 h rest 21 _ 96 eq_refl), (get_encoded_u64 h rest 22 _ 104 eq_refl),
    (get_encoded_u64 h rest 23 _ 112 eq_refl), (get_encoded_u64 h rest 24 _ 120 eq_refl),
    (get_encoded_u64 h rest 25 _ 128 eq_refl), (get_encoded_u64 h rest 26 _ 136 eq_refl),
    (get_encoded_u64 h rest 27 _ 144 eq_refl), (get_encoded_u64 h rest 28 _ 152 eq_refl),
    (get_encoded_u64 h rest 29 _ 160 eq_refl), (get_encoded_u64 h rest 30 _ 168 eq_refl),
    (get_encoded_u64 h rest 31 _ 176 eq_refl), (get_encoded_u64 h rest 32 _ 184 eq_refl),
    (get_encoded_u64 h rest 33 _ 192 eq_refl), (get_encoded_u64 h rest 34 _ 200 eq_refl) by done.
  destruct h as [? ? ? ? ? ? ? ? ? ? ? ? ? ? ? ? ? [[] [] [] [] [] [] []]]. reflexivity.
Qed.

Lemma decode_encoded h rest :
  header_ok h →
  decode (encode h ++ rest) =
  (_ ← ensure_data (negb (
        negb (Z.land (flags h) DISKANN_REQUIRED_FLAGS =? DISKANN_REQUIRED_FLAGS)
        || negb (Z.ldiff (flags h) DISKANN_SUPPORTED_FLAGS =? 0)
        || Bool.eqb (negb (Z.land (flags h) FLAG_SEPARATE_ADJACENCY_AND_VECTORS =? 0))
                    (negb (Z.land (flags h) FLAG_INTERLEAVED_ADJACENCY_AND_VECTORS =? 0))))
        "invalid DiskANN required flags";
   _ ← ensure_data (negb (
        bool_decide (metric_from_code (metric h) = None)
        || negb ((pq_bits h =? 4) || (pq_bits h =? 8))
        || negb (page_size h =? DISKANN_PAGE_SIZE)
        || bool_decide (encoding_from_code (raw_vector_encoding h) = None)))
        "unsupported DiskANN v1 layout";
   _ ← ensure_data (f32_is_finite (alpha h)) "DiskANN alpha must be finite";
   _ ← validate_layout h;
   Ok h).
Proof.
  intros Hok. pose proof (decode_sections_encoded h rest Hok) as Hsec. destruct Hok as [H32 H64 _].
  repeat (apply list.Forall_cons in H32 as [? H32]).
  repeat (apply list.Forall_cons in H64 as [? H64]). unfold decode. rewrite Hsec.
  rewrite (get_encoded_u32 h rest 0 _ 0 eq_refl), (get_encoded_u32 h rest 1 _ 4 eq_refl), (get_encoded_u32 h rest 2 _ 8 eq_refl),
    (get_encoded_u32 h rest 3 _ 12 eq_refl), (get_encoded_u32 h rest 4 _ 16 eq_refl), (get_encoded_u32 h rest 5 _ 20 eq_refl),
    (get_encoded_u64 h rest 6 _ 24 eq_refl), (get_encoded_u32 h rest 7 _ 32 eq_refl), (get_encoded_u32 h rest 8 _ 36 eq_refl),
    (get_encoded_u32 h rest 9 _ 40 eq_refl), (get_encoded_u32 h rest 10 _ 44 eq_refl), (get_encoded_u64 h rest 11 _ 48 eq_refl),
    (get_encoded_u32 h rest 12 _ 56 eq_refl), (get_encoded_u32 h rest 13 _ 60 eq_refl), (get_encoded_u32 h rest 14 _ 64 eq_refl),
    (get_encoded_u32 h rest 15 _ 68 eq_refl), (get_encoded_u32 h rest 16 _ 72 eq_refl), (get_encoded_u32 h rest 17 _ 76 eq_refl),
    (get_encoded_u32 h rest 18 _ 80 eq_refl), (get_encoded_u32 h rest 19 _ 84 eq_refl), (get_encoded_u64 h rest 20 _ 88 eq_refl)
    by (done || by vm_compute).
  assert (DISKANN_HEADER_SIZE <=? zlen (encode h ++ rest) = true) as ->.
  { apply Z.leb_le. rewrite zlen_app. pose proof (zlen_nonneg rest). unfold zlen at 1. rewrite length_encode. unfold DISKANN_HEADER_SIZE. lia. }
  assert (slice 208 48 (encode h ++ rest) = replicate 48 0) as ->.
  { rewrite encode_eq, <- app_assoc, slice_app_r by (by rewrite length_fields_bytes).
    by rewrite take_app_length' by (by rewrite length_replicate). }
  rewrite any_nonzero_replicate, !Z.eqb_refl. destruct h. reflexivity.
Qed.

(** ** Properties *)

(** A layout places its seven sections one after the other behind the
    header page, without overlap or gap except the alignment of the adjacency
    pages, with the lengths the configuration calls for, and the file ends
    exactly with the last section, inside [u64]. *)
Theorem layout_sections_tile (dim count entry m bits : Z) (mt : MetricType) (build : DiskAnnBuildParams) (r p : Z)
    (h : DiskAnnHeader) :
  layout_args_ok dim count entry m bits build r p →
  for_layout_with_adjacency_pages_and_pq_bits dim count entry m bits mt build r p = Ok h →
  header_matches h dim count entry m bits mt build r p ∧ sections_tile (sections h) (file_len h) ∧
  section_lengths h (bp_storage_layout build).
Proof. intros Hargs H. apply for_layout_inv in H; [|done]. tauto. Qed.

Definition demo_header : DiskAnnHeader :=
  Eval vm_compute in
  match for_layout_with_adjacency_pages_and_pq_bits 8 10 3 4 8 L2 default_build_params 40 1 with
  | Ok h => h
  | _ => Header 0 0 0 0 0 0 0 0 0 0 0 0 0 0 0 0 0
           (let s := Section_ 0 0 in Sections s s s s s s s)
  end.
Lemma demo_args_ok : layout_args_ok 8 10 3 4 8 default_build_params 40 1.
Proof. split; vm_compute; split; congruence. Qed.

Lemma layout_sections_tile_witness :
  header_matches demo_header 8 10 3 4 8 L2 default_build_params 40 1 ∧
  sections_tile (sections demo_header) (file_len demo_header) ∧ section_lengths demo_header Compact.
Proof.
  exact (layout_sections_tile 8 10 3 4 8 L2 default_build_params 40 1 demo_header demo_args_ok eq_refl).
Defined.

Lemma decode_layout dim count entry m bits mt build r p h rest :
  layout_args_ok dim count entry m bits build r p →
  for_layout_with_adjacency_pages_and_pq_bits dim count entry m bits mt build r p = Ok h →
  decode (encode h ++ rest) = Ok h.
Proof.
  intros Hargs H.
  rewrite decode_encoded by (by eapply layout_header_ok). pose proof (validate_layout_ok _ _ _ _ _ _ _ _ _ _ Hargs H) as ->.
  apply for_layout_inv in H as (Hm & _ & _ & _ & _ & _ & _ & Hb & _ & _ & Hfin & _); [|done]. destruct Hm.
  rewrite hm_alpha0, Hfin, hm_metric0, hm_encoding0, hm_pq_bits0, hm_page_size0, hm_flags0.
  rewrite metric_from_code_code, encoding_from_code_code. destruct Hb as [-> | ->]; by destruct (bp_storage_layout build).
Qed.

(** The header a layout produces is 256 bytes and decodes, whatever
    follows it in the file, to itself. *)
Theorem header_roundtrip (dim count entry m bits : Z) (mt : MetricType) (build : DiskAnnBuildParams) (r p : Z)
    (h : DiskAnnHeader) (rest : list Z) :
  layout_args_ok dim count entry m bits build r p →
  for_layout_with_adjacency_pages_and_pq_bits dim count entry m bits mt build r p = Ok h →
  length (encode h) = 256%nat ∧ bytes_ok (encode h) ∧ decode (encode h ++ rest) = Ok h.
Proof.
  intros Hargs H. split; [apply length_encode|]. split.
  { rewrite encode_eq. apply Forall_app. split; [apply fields_bytes_ok|]. apply Forall_replicate. by unfold_widths. }
  by eapply decode_layout.
Qed.


Lemma header_roundtrip_witness :
  length (encode demo_header) = 256%nat ∧ bytes_ok (encode demo_header) ∧ decode (encode demo_header ++ [1; 2]) = Ok demo_header.
Proof.
  exact (header_roundtrip 8 10 3 4 8 L2 default_build_params 40 1 demo_header [1; 2] demo_args_ok eq_refl).
Defined.

(** *** Only layouts decode *)

Lemma flags_valid f :
  0 <= f →
  negb (negb (Z.land f DISKANN_REQUIRED_FLAGS =? DISKANN_REQUIRED_FLAGS)
        || negb (Z.ldiff f DISKANN_SUPPORTED_FLAGS =? 0)
        || Bool.eqb (negb (Z.land f FLAG_SEPARATE_ADJACENCY_AND_VECTORS =? 0))
                    (negb (Z.land f FLAG_INTERLEAVED_ADJACENCY_AND_VECTORS =? 0))) = true →
  f = Z.lor DISKANN_REQUIRED_FLAGS
    (layout_flag (if negb (Z.land f FLAG_INTERLEAVED_ADJACENCY_AND_VECTORS =? 0) then Interleaved else Compact)).
Proof.
  intros Hf H. assert (u8 f) as H8.
  { apply negb_true_iff, orb_false_iff in H as [[_ H]%orb_false_iff _]. apply negb_false_iff, Z.eqb_eq in H.
    change DISKANN_SUPPORTED_FLAGS with (2 ^ 6 - 1) in H. rewrite ldiff_mask in H by lia.
    pose proof (Z.div_mod f (2 ^ 6)). pose proof (Z.mod_pos_bound f (2 ^ 6)). unfold_widths. lia. }
  pose proof (byte_forall (λ f, implb
    (negb (negb (Z.land f DISKANN_REQUIRED_FLAGS =? DISKANN_REQUIRED_FLAGS)
        || negb (Z.ldiff f DISKANN_SUPPORTED_FLAGS =? 0)
        || Bool.eqb (negb (Z.land f FLAG_SEPARATE_ADJACENCY_AND_VECTORS =? 0))
                    (negb (Z.land f FLAG_INTERLEAVED_ADJACENCY_AND_VECTORS =? 0))))
    (f =? Z.lor DISKANN_REQUIRED_FLAGS
    (layout_flag (if negb (Z.land f FLAG_INTERLEAVED_ADJACENCY_AND_VECTORS =? 0) then Interleaved else Compact))))
    ltac:(vm_compute; reflexivity) f H8) as E.
  cbv beta in E. rewrite H in E. by apply Z.eqb_eq in E.
Qed.

Lemma get_u32_bound bytes off : bytes_ok bytes → u32 (get_u32 bytes off).
Proof.
  intros Hb. unfold get_u32. pose proof (le_val_bound (slice off 4 bytes) ltac:(by apply Forall_slice)) as [? Hlt].
  split; [done|]. eapply Z.lt_le_trans; [exact Hlt|]. apply Z.pow_le_mono_r; [lia|]. unfold zlen, slice. rewrite length_take. lia.
Qed.
Lemma get_u64_bound bytes off : bytes_ok bytes → u64 (get_u64 bytes off).
Proof.
  intros Hb. unfold get_u64. pose proof (le_val_bound (slice off 8 bytes) ltac:(by apply Forall_slice)) as [? Hlt].
  split; [done|]. eapply Z.lt_le_trans; [exact Hlt|]. apply Z.pow_le_mono_r; [lia|]. unfold zlen, slice. rewrite length_take. lia.
Qed.

Lemma header_ext e h :
  flags e = flags h → dimension e = dimension h → metric e = metric h → vector_count e = vector_count h →
  entry_node e = entry_node h → max_degree e = max_degree h → build_search_list_size e = build_search_list_size h →
  alpha e = alpha h → seed e = seed h → pq_m e = pq_m h → pq_bits e = pq_bits h → page_size e = page_size h →
  adjacency_locator_size e = adjacency_locator_size h → adjacency_locator_encoding e = adjacency_locator_encoding h →
  raw_vector_encoding e = raw_vector_encoding h → vector_record_size e = vector_record_size h →
  file_len e = file_len h → sections e = sections h → e = h.
Proof. destruct e, h. cbn. intros. by subst. Qed.

Lemma validate_layout_inv h :
  validate_layout h = Ok () → header_ok h → page_size h = DISKANN_PAGE_SIZE →
  flags h = Z.lor DISKANN_REQUIRED_FLAGS (layout_flag (storage_layout h)) →
  ∃ mt enc, let build := BuildParams (max_degree h) (build_search_list_size h) (alpha h) (seed h) 1 (storage_layout h)
              enc ProductQuantized in
    let pages := sec_length (adjacency (sections h)) / DISKANN_PAGE_SIZE in
    let r := sec_length (row_ids (sections h)) in
    layout_args_ok (dimension h) (vector_count h) (entry_node h) (pq_m h) (pq_bits h) build r pages ∧
    for_layout_with_adjacency_pages_and_pq_bits (dimension h) (vector_count h) (entry_node h) (pq_m h) (pq_bits h)
      mt build r pages = Ok h.
Proof.
  intros H [H32 H64 Hs] Hpage Hflags. unfold validate_layout in H.
  guard_ok H as H1. guard_ok H as H2. guard_ok H as H3. guard_ok H as H4. guard_ok H as H5. guard_ok H as H6.
  bind_ok H as n Hn. apply ok_or_Ok, try_from_Some in Hn as [-> Hn].
  bind_ok H as pages Hp. apply ok_or_Ok, try_from_Some in Hp as [-> Hp]. guard_ok H as H7.
  bind_ok H as mt Hmt. apply expect_Ok, metric_from_code_Some in Hmt.
  bind_ok H as enc Henc. apply expect_Ok, encoding_from_code_Some in Henc.
  bind_ok H as r Hr. apply ok_or_Ok, try_from_Some in Hr as [-> Hr].
  bind_ok H as e He. apply map_err_Ok in He.
  change (bp_build_distance default_build_params) with ProductQuantized in He. apply guard_ok_Ok, negb_true_iff in H. rewrite !orb_false_iff, !negb_false_iff in H.
  destruct H as (((((E1%Z.eqb_eq & E2%Z.eqb_eq) & E3%Z.eqb_eq) & E4%Z.eqb_eq) & E5%bool_decide_eq_true) & E6%Z.eqb_eq).
  exists mt, enc. cbv zeta.
  assert (layout_args_ok (dimension h) (vector_count h) (entry_node h) (pq_m h) (pq_bits h)
    (BuildParams (max_degree h) (build_search_list_size h) (alpha h) (seed h) 1 (storage_layout h) enc ProductQuantized)
    (sec_length (row_ids (sections h))) (sec_length (adjacency (sections h)) / DISKANN_PAGE_SIZE)) as Hargs.
  { repeat (apply list.Forall_cons in H32 as [? H32]). repeat (apply list.Forall_cons in H64 as [? H64]).
    unfold as_array in Hs. repeat (apply list.Forall_cons in Hs as [[] Hs]).
    assert (0 <= sec_length (adjacency (sections h)) / DISKANN_PAGE_SIZE) by (apply Z.div_pos; unfold_widths; unfold DISKANN_PAGE_SIZE; lia).
    split; cbn; unfold_widths; lia. }
  split; [done|]. rewrite He. f_equal.
  apply for_layout_inv in He as ([] & _ & _ & _ & _ & _ & _ & _ & _ & _ & _ & _ & _ & _ & Hrec & _); [|done].
  assert (flags e = flags h) as Ef by (rewrite Hflags; done). clear Hflags hm_flags0.
  cbn [bp_max_degree bp_build_search_list_size bp_alpha bp_seed bp_raw_vector_encoding] in *. apply header_ext; congruence.
Qed.

Lemma decode_planned (bytes : list Z) (h : DiskAnnHeader) :
  bytes_ok bytes → decode bytes = Ok h →
  take 256 bytes = encode h ∧
  ∃ mt enc, let build := BuildParams (max_degree h) (build_search_list_size h) (alpha h) (seed h) 1 (storage_layout h)
              enc ProductQuantized in
    let pages := sec_length (adjacency (sections h)) / DISKANN_PAGE_SIZE in
    let r := sec_length (row_ids (sections h)) in
    layout_args_ok (dimension h) (vector_count h) (entry_node h) (pq_m h) (pq_bits h) build r pages ∧
    for_layout_with_adjacency_pages_and_pq_bits (dimension h) (vector_count h) (entry_node h) (pq_m h) (pq_bits h)
      mt build r pages = Ok h.
Proof.
  intros Hb H. unfold decode in H.
  guard_ok H as Hlen. guard_ok H as Hmagic. guard_ok H as Hver. guard_ok H as Hsize. guard_ok H as Hflags.
  guard_ok H as Hcount. guard_ok H as Hres. bind_ok H as ss Hss. apply expect_Ok in Hss. cbn in Hss. injection Hss as <-.
  guard_ok H as Hsup. guard_ok H as Hfin. bind_ok H as u Hval. destruct u. injection H as <-.
  apply Z.leb_le in Hlen. apply Z.eqb_eq in Hmagic, Hver, Hsize, Hcount. unfold DISKANN_HEADER_SIZE, zlen in Hlen.
  apply negb_true_iff, any_nonzero_false in Hres. rewrite length_slice in Hres by lia.
  split.
  - rewrite encode_eq. rewrite <- Hres. unfold slice.
    pose proof (fields_bytes_read (fst <$> header_field_list demo_header) bytes Hb) as E.
    change (sum_list (fst <$> header_field_list demo_header)) with 208%nat in E. specialize (E ltac:(lia)).
    change 256%nat with (208 + 48)%nat. rewrite <- (take_take_drop bytes 208 48). f_equal. rewrite <- E.
    cbn [fst fmap list_fmap header_field_list read_fields zip zip_with]. rewrite !drop_drop.
    unfold header_field_list. cbn. rewrite <- Hmagic, <- Hver, <- Hsize, <- Hcount. reflexivity.
  - apply validate_layout_inv; [done| | |].
    + split; cbn; repeat (apply Forall_cons; split); try apply Forall_nil; try split; by (apply get_u32_bound || apply get_u64_bound).
    + cbn. apply negb_true_iff in Hsup. rewrite !orb_false_iff, !negb_false_iff in Hsup. cbn in Hsup. by destruct Hsup as [[_ Hp%Z.eqb_eq] _].
    + apply flags_valid; [|done]. by apply get_u32_bound.
Qed.

(** The layout facts of any header that was decoded. *)
Lemma decoded_facts bytes h :
  bytes_ok bytes → decode bytes = Ok h →
  sections_tile (sections h) (file_len h) ∧ section_lengths h (storage_layout h) ∧ 0 < dimension h < 2 ^ 32 ∧ 0 < vector_count h < 2 ^ 32 ∧
  0 < pq_m h <= dimension h ∧ (pq_bits h = 4 ∨ pq_bits h = 8) ∧ 0 <= vector_record_size h ∧
  (∃ pages, 0 < pages < 2 ^ 32 ∧ sec_length (adjacency (sections h)) = pages * DISKANN_PAGE_SIZE) ∧ 32 <= sec_length (row_ids (sections h)).
Proof.
  intros Hb Hd. destruct (decode_planned bytes h Hb Hd) as [_ (mt & enc & Hargs & Hfor)]. cbv zeta in Hargs, Hfor.
  destruct (for_layout_inv _ _ _ _ _ _ _ _ _ _ Hargs Hfor) as (Hm & Ht & Hs & Hdim & Hcnt & _ & Hpm & Hbits & _ & _ & _ & _ & Hp & Hr & Hrec & _).
  cbn [bp_storage_layout bp_raw_vector_encoding] in Hs, Hrec. split_and!; try done; try lia.
  - rewrite Hrec. destruct enc; cbn; lia.
  - exists (sec_length (adjacency (sections h)) / DISKANN_PAGE_SIZE). split; [lia|]. by rewrite <- (hm_adjacency _ _ _ _ _ _ _ _ _ _ Hm) at 1.
Qed.


