(* ===== verification/Distance.v ===== *)
(** Distances between vectors: [core/src/distance.rs].

    A vector is the list of its [f32] bit patterns.  The kernels are modelled for
    every architecture the source selects between: the portable loop, the eight
    lanes of AVX2 and the two registers of four lanes of NEON, each with its own
    order of additions ([Arch] is the target and what the processor reports). *)

From S2P Require Import Prelude F32 F64 F32Arith DiskannHeader.

(** ** Kernels *)

Inductive Arch := Portable | X86_64 (avx2 : bool) | Aarch64.

(** The squared difference, and the product, of two components. *)
Definition l2_term (p : Z * Z) : Z := let d := f32_sub p.1 p.2 in f32_mul d d.
Definition dot_term (p : Z * Z) : Z := f32_mul p.1 p.2.

(** [for .. { sum += term }] *)
Definition accumulate (term : Z * Z → Z) (sum : Z) (pairs : list (Z * Z)) : Z := foldl (λ sum p, f32_add sum (term p)) sum pairs.

(** Lanes: one addition in every lane per block.  On NEON the first four lanes
    are one register and the last four the other; [vmlaq_f32] rounds the product
    before it adds. *)
Definition zero_lanes (width : nat) : list Z := replicate width 0.
Definition lanes_step (term : Z * Z → Z) (lanes : list Z) (block : list (Z * Z)) : list Z := zip_with f32_add lanes (term <$> block).
Definition lanes_sum (term : Z * Z → Z) (width : nat) (pairs : list (Z * Z)) : list Z :=
  foldl (lanes_step term) (zero_lanes width) (chunks_exact width pairs).
(** What the block loop leaves. *)
Definition remainder {A} (width : nat) (l : list A) : list A := drop (length l / width * width) l.

Definition lane (lanes : list Z) (i : nat) : Z := nth i lanes 0.
(** [_mm_add_ps(lo, hi)], then the upper two lanes, then the second. *)
Definition horizontal_sum_avx2 (lanes : list Z) : Z :=
  let sum128 i := f32_add (lane lanes i) (lane lanes (4 + i)) in
  let sum64 i := f32_add (sum128 i) (sum128 (2 + i)%nat) in
  f32_add (sum64 0%nat) (sum64 1%nat).
(** [vaddvq_f32] adds neighbouring lanes. *)
Definition vaddvq_f32 (lanes : list Z) : Z := f32_add (f32_add (lane lanes 0) (lane lanes 1)) (f32_add (lane lanes 2) (lane lanes 3)).
Definition horizontal_sum_neon (lanes : list Z) : Z := vaddvq_f32 (zip_with f32_add (take 4 lanes) (drop 4 lanes)).

Definition simd_sum (reduce : list Z → Z) (term : Z * Z → Z) (pairs : list (Z * Z)) : Z :=
  accumulate term (reduce (lanes_sum term 8 pairs)) (remainder 8 pairs).

(** The choice every kernel makes: AVX2 where the processor has it and the
    vector fills a register. *)
Definition dispatch {A} (arch : Arch) (n : nat) (scalar avx2 neon : A) : A :=
  match arch with
  | Aarch64 => neon
  | X86_64 true => if (8 <=? n)%nat then avx2 else scalar
  | _ => scalar
  end.

(** ** Squared L2 *)

Definition fvec_l2sqr_scalar (a b : list Z) : Z := accumulate l2_term 0 (zip a b).
Definition fvec_l2sqr_avx2 (a b : list Z) : Z := simd_sum horizontal_sum_avx2 l2_term (zip a b).
Definition fvec_l2sqr_neon (a b : list Z) : Z := simd_sum horizontal_sum_neon l2_term (zip a b).
Definition fvec_l2sqr_simd (arch : Arch) (a b : list Z) : Z :=
  dispatch arch (length a) (fvec_l2sqr_scalar a b) (fvec_l2sqr_avx2 a b) (fvec_l2sqr_neon a b).
Definition same_length (a b : list Z) : io_result unit := if (length a =? length b)%nat then Ok () else Panic.
Definition fvec_l2sqr (arch : Arch) (a b : list Z) : io_result Z :=
  _ ← same_length a b; Ok (fvec_l2sqr_simd arch a b).

(** *** Four candidates at once: the loops of [fvec_l2sqr], side by side *)

Definition four : Type := Z * Z * Z * Z.
Definition four_map {A B} (f : A → B) (x : A * A * A * A) : B * B * B * B := let '(a, b, c, d) := x in (f a, f b, f c, f d).
Definition four_zip {A B C} (f : A → B → C) (x : A * A * A * A) (y : B * B * B * B) : C * C * C * C :=
  let '(a, b, c, d) := x in let '(a', b', c', d') := y in (f a a', f b b', f c c', f d d').
Definition columns (a b0 b1 b2 b3 : list Z) : list (Z * four) := zip a (zip (zip (zip b0 b1) b2) b3).
Definition four_step (sums : four) (e : Z * four) : four := four_zip (λ sum b, f32_add sum (l2_term (e.1, b))) sums e.2.
(** The column of one candidate. *)
Definition col0 (e : Z * four) : Z * Z := (e.1, e.2.1.1.1).
Definition col1 (e : Z * four) : Z * Z := (e.1, e.2.1.1.2).
Definition col2 (e : Z * four) : Z * Z := (e.1, e.2.1.2).
Definition col3 (e : Z * four) : Z * Z := (e.1, e.2.2).
Definition four_block (block : list (Z * four)) : list (Z * Z) * list (Z * Z) * list (Z * Z) * list (Z * Z) :=
  (col0 <$> block, col1 <$> block, col2 <$> block, col3 <$> block).
Definition fvec_l2sqr_four_scalar (cols : list (Z * four)) : four := foldl four_step (0, 0, 0, 0) cols.
Definition fvec_l2sqr_four_lanes (reduce : list Z → Z) (cols : list (Z * four)) : four :=
  let zero := zero_lanes 8 in
  let sums := foldl (λ sums block, four_zip (lanes_step l2_term) sums (four_block block)) (zero, zero, zero, zero) (chunks_exact 8 cols) in
  foldl four_step (four_map reduce sums) (remainder 8 cols).
Definition fvec_l2sqr_four_avx2 : list (Z * four) → four := fvec_l2sqr_four_lanes horizontal_sum_avx2.
Definition fvec_l2sqr_four_neon : list (Z * four) → four := fvec_l2sqr_four_lanes horizontal_sum_neon.
Definition fvec_l2sqr_four_simd (arch : Arch) (n : nat) (cols : list (Z * four)) : four :=
  dispatch arch n (fvec_l2sqr_four_scalar cols) (fvec_l2sqr_four_avx2 cols) (fvec_l2sqr_four_neon cols).
Definition fvec_l2sqr_four (arch : Arch) (a b0 b1 b2 b3 : list Z) : io_result four :=
  _ ← same_length a b0; _ ← same_length a b1; _ ← same_length a b2; _ ← same_length a b3;
  Ok (fvec_l2sqr_four_simd arch (length a) (columns a b0 b1 b2 b3)).

(** *** Early abandonment *)

Definition L2_PROBE_STRIDE : nat := 128.

(** [while i + L2_PROBE_STRIDE < a.len()], a block and a probe; then the rest.
    Every turn consumes a block, so that [length pairs] rounds are enough. *)
Fixpoint unless_exceeds_scalar (fuel : nat) (threshold sum : Z) (pairs : list (Z * Z)) : option Z :=
  if (L2_PROBE_STRIDE <? length pairs)%nat then
    match fuel with
    | O => None
    | S fuel =>
        let sum := accumulate l2_term sum (take L2_PROBE_STRIDE pairs) in
        if f32_gt sum threshold then None else unless_exceeds_scalar fuel threshold sum (drop L2_PROBE_STRIDE pairs)
    end
  else
    let sum := accumulate l2_term sum pairs in
    if f32_gt sum threshold then None else Some sum.
Definition fvec_l2sqr_unless_exceeds_scalar (a b : list Z) (threshold : Z) : option Z :=
  unless_exceeds_scalar (length a) threshold 0 (zip a b).

(** The block loop of the SIMD kernels; [i] counts components. *)
Fixpoint probe_blocks (reduce : list Z → Z) (threshold : Z) (i : nat) (lanes : list Z) (blocks : list (list (Z * Z))) : option (list Z) :=
  match blocks with
  | [] => Some lanes
  | block :: blocks =>
      let lanes := lanes_step l2_term lanes block in
      let i := (i + 8)%nat in
      if (i mod L2_PROBE_STRIDE =? 0)%nat && f32_gt (reduce lanes) threshold then None
      else probe_blocks reduce threshold i lanes blocks
  end.
Fixpoint probe_tail (threshold result : Z) (pairs : list (Z * Z)) : option Z :=
  match pairs with
  | [] => Some result
  | p :: pairs =>
      let result := f32_add result (l2_term p) in
      if f32_gt result threshold then None else probe_tail threshold result pairs
  end.
Definition fvec_l2sqr_unless_exceeds_lanes (reduce : list Z → Z) (a b : list Z) (threshold : Z) : option Z :=
  lanes ← probe_blocks reduce threshold 0 (zero_lanes 8) (chunks_exact 8 (zip a b));
  let result := reduce lanes in
  if f32_gt result threshold then None else probe_tail threshold result (remainder 8 (zip a b)).
Definition fvec_l2sqr_unless_exceeds_avx2 : list Z → list Z → Z → option Z := fvec_l2sqr_unless_exceeds_lanes horizontal_sum_avx2.
Definition fvec_l2sqr_unless_exceeds_neon : list Z → list Z → Z → option Z := fvec_l2sqr_unless_exceeds_lanes horizontal_sum_neon.
Definition fvec_l2sqr_unless_exceeds_simd (arch : Arch) (a b : list Z) (threshold : Z) : option Z :=
  dispatch arch (length a) (fvec_l2sqr_unless_exceeds_scalar a b threshold)
    (fvec_l2sqr_unless_exceeds_avx2 a b threshold) (fvec_l2sqr_unless_exceeds_neon a b threshold).
Definition fvec_l2sqr_unless_exceeds (arch : Arch) (a b : list Z) (threshold : Z) : io_result (option Z) :=
  _ ← same_length a b;
  Ok (if f32_lt threshold 0 then None
      else if negb (f32_is_finite threshold) then Some (fvec_l2sqr_simd arch a b)
      else fvec_l2sqr_unless_exceeds_simd arch a b threshold).

(** *** A scaled distance against a threshold *)

Fixpoint scaled_tail (scale threshold total : Z) (pairs : list (Z * Z)) : bool :=
  match pairs with
  | [] => false
  | p :: pairs =>
      let total := f32_add total (l2_term p) in
      if f32_gt (f32_mul scale total) threshold then true else scaled_tail scale threshold total pairs
  end.
(** The sum of a block of 128: four accumulators, added in pairs. *)
Definition quad_sum (reduce : list Z → Z) (width : nat) (block : list (Z * Z)) : Z :=
  let lanes := lanes_sum l2_term (4 * width) block in
  let acc i := slice (i * width) width lanes in
  reduce (zip_with f32_add (zip_with f32_add (acc 0%nat) (acc 1%nat)) (zip_with f32_add (acc 2%nat) (acc 3%nat))).
(** [None]: the threshold is exceeded. *)
Fixpoint scaled_blocks (block_sum : list (Z * Z) → Z) (scale threshold total : Z) (blocks : list (list (Z * Z))) : option Z :=
  match blocks with
  | [] => Some total
  | block :: blocks =>
      let total := f32_add total (block_sum block) in
      if f32_gt (f32_mul scale total) threshold then None else scaled_blocks block_sum scale threshold total blocks
  end.
Definition scaled_exceeds_lanes (reduce block_sum : list (Z * Z) → Z) (pairs : list (Z * Z)) (scale threshold : Z) : bool :=
  match scaled_blocks block_sum scale threshold 0 (chunks_exact 128 pairs) with
  | None => true
  | Some total =>
      let rest := remainder 128 pairs in
      let total := f32_add total (reduce rest) in
      if f32_gt (f32_mul scale total) threshold then true else scaled_tail scale threshold total (remainder 8 rest)
  end.
Definition fvec_l2sqr_scaled_exceeds_scalar (a b : list Z) (scale threshold : Z) : bool := scaled_tail scale threshold 0 (zip a b).
Definition fvec_l2sqr_scaled_exceeds_avx2 (a b : list Z) (scale threshold : Z) : bool :=
  scaled_exceeds_lanes (λ p, horizontal_sum_avx2 (lanes_sum l2_term 8 p)) (quad_sum horizontal_sum_avx2 8) (zip a b) scale threshold.
Definition fvec_l2sqr_scaled_exceeds_neon (a b : list Z) (scale threshold : Z) : bool :=
  scaled_exceeds_lanes (λ p, horizontal_sum_neon (lanes_sum l2_term 8 p)) (quad_sum vaddvq_f32 4) (zip a b) scale threshold.
Definition fvec_l2sqr_scaled_exceeds_simd (arch : Arch) (a b : list Z) (scale threshold : Z) : bool :=
  dispatch arch (length a) (fvec_l2sqr_scaled_exceeds_scalar a b scale threshold)
    (fvec_l2sqr_scaled_exceeds_avx2 a b scale threshold) (fvec_l2sqr_scaled_exceeds_neon a b scale threshold).
Definition fvec_l2sqr_scaled_exceeds (arch : Arch) (a b : list Z) (scale threshold : Z) : io_result bool :=
  _ ← same_length a b;
  _ ← (if f32_is_finite scale && f32_ge scale 0 then Ok () else Panic);
  Ok (if f32_lt threshold 0 then true else fvec_l2sqr_scaled_exceeds_simd arch a b scale threshold).

(** ** Inner products and norms *)

(** The lengths are a debug assertion; the loops index both vectors. *)
Definition fvec_inner_product_scalar (a b : list Z) : Z := accumulate dot_term 0 (zip a b).
Definition fvec_inner_product_avx2 (a b : list Z) : Z := simd_sum horizontal_sum_avx2 dot_term (zip a b).
Definition fvec_inner_product_neon (a b : list Z) : Z := simd_sum horizontal_sum_neon dot_term (zip a b).
Definition fvec_inner_product (arch : Arch) (a b : list Z) : io_result Z :=
  _ ← same_length a b;
  Ok (dispatch arch (length a) (fvec_inner_product_scalar a b) (fvec_inner_product_avx2 a b) (fvec_inner_product_neon a b)).
Definition fvec_norm_l2sqr_scalar (a : list Z) : Z := accumulate dot_term 0 (zip a a).
Definition fvec_norm_l2sqr_avx2 (a : list Z) : Z := simd_sum horizontal_sum_avx2 dot_term (zip a a).
Definition fvec_norm_l2sqr_neon (a : list Z) : Z := simd_sum horizontal_sum_neon dot_term (zip a a).
Definition fvec_norm_l2sqr (arch : Arch) (a : list Z) : Z :=
  dispatch arch (length a) (fvec_norm_l2sqr_scalar a) (fvec_norm_l2sqr_avx2 a) (fvec_norm_l2sqr_neon a).
(** The vector after the call, and the norm it returns. *)
Definition fvec_normalize (arch : Arch) (v : list Z) : list Z * Z :=
  let norm := f32_sqrt (fvec_norm_l2sqr arch v) in
  if f32_gt norm 0 then
    let inv := f32_div F32_ONE norm in
    ((λ x, f32_mul x inv) <$> v, norm)
  else (v, norm).

(** ** Ranking distances *)

Definition fvec_cosine_distance_with_norms (arch : Arch) (a b : list Z) (a_norm b_norm : Z) : io_result Z :=
  let denom := f32_mul a_norm b_norm in
  if f32_gt denom 0 then dot ← fvec_inner_product arch a b; Ok (f32_sub F32_ONE (f32_div dot denom)) else Ok F32_ONE.
Definition fvec_distance (arch : Arch) (query vector : list Z) (metric : MetricType) : io_result Z :=
  match metric with
  | L2 => fvec_l2sqr arch query vector
  | InnerProduct => f32_negate <$> fvec_inner_product arch query vector
  | Cosine =>
      let nq := f32_sqrt (fvec_norm_l2sqr arch query) in
      let nv := f32_sqrt (fvec_norm_l2sqr arch vector) in
      fvec_cosine_distance_with_norms arch query vector nq nv
  end.

Record QueryDistance := MkQueryDistance { qd_query : list Z; qd_metric : MetricType; qd_query_norm : Z }.
Definition query_distance_new (arch : Arch) (query : list Z) (metric : MetricType) : QueryDistance :=
  MkQueryDistance query metric (if bool_decide (metric = Cosine) then f32_sqrt (fvec_norm_l2sqr arch query) else 0).
Definition distance_to (arch : Arch) (q : QueryDistance) (vector : list Z) (vector_norm : option Z) : io_result Z :=
  match qd_metric q with
  | L2 => fvec_l2sqr arch (qd_query q) vector
  | InnerProduct => f32_negate <$> fvec_inner_product arch (qd_query q) vector
  | Cosine =>
      let vector_norm := match vector_norm with Some norm => norm | None => f32_sqrt (fvec_norm_l2sqr arch vector) end in
      fvec_cosine_distance_with_norms arch (qd_query q) vector (qd_query_norm q) vector_norm
  end.

(** [chunks_mut(d)] over [n] rows; above a thousand rows they are normalised in
    parallel, each on its own. *)
Definition preprocess_vectors (arch : Arch) (data : list Z) (n d : nat) (metric : MetricType) : io_result (list Z) :=
  processed ← expect (get_slice 0 (n * d) data);
  Ok (if bool_decide (metric = Cosine) && negb (d =? 0)%nat then concat ((λ v, (fvec_normalize arch v).1) <$> chunks_exact d processed) else processed).

(** ** Sums of non-negative terms only grow *)

Definition finite_vector (v : list Z) : Prop := Forall (λ x, u32 x ∧ f32_is_finite x = true) v.
Definition terms_nonneg (term : Z * Z → Z) (pairs : list (Z * Z)) : Prop := Forall (λ p, nonneg (term p)) pairs.

Lemma l2_terms_nonneg a b : finite_vector a → finite_vector b → terms_nonneg l2_term (zip a b).
Proof.
  intros Ha Hb. apply Forall_forall. intros [x y] Hin. apply list_elem_of_lookup in Hin as [i Hi]. apply lookup_zip_with_Some in Hi as (x' & y' & [= -> ->] & Hx & Hy).
  destruct (Forall_lookup_1 _ _ _ _ Ha Hx) as [_ Fx], (Forall_lookup_1 _ _ _ _ Hb Hy) as [Uy Fy]. apply f32_square_nonneg. by apply f32_sub_number.
Qed.

(** Passing a threshold is kept by a larger number. *)
Lemma gt_mono t x y : nonneg x → nonneg y → x <= y → f32_gt x t = true → f32_gt y t = true.
Proof.
  intros Hx Hy Hle. destruct (nonneg_fields x Hx) as (_ & _ & Nx & _ & Kx & _), (nonneg_fields y Hy) as (_ & _ & Ny & _ & Ky & _).
  unfold f32_gt, f32_lt, f32_ordered. rewrite Nx, Ny, Kx, Ky. destruct (f32_is_nan t); [done|]. cbn. lia.
Qed.

Section Growing.
Context (term : Z * Z → Z).

Lemma accumulate_spec pairs sum : nonneg sum → terms_nonneg term pairs → nonneg (accumulate term sum pairs) ∧ sum <= accumulate term sum pairs.
Proof.
  intros Hs Hp. revert sum Hs. induction Hp as [|p pairs Ht _ IH]; intros sum Hs; [by cbn|].
  destruct (IH (f32_add sum (term p))) as [Hn Hle]; [by apply f32_add_closed|]. split; [exact Hn|]. transitivity (f32_add sum (term p)); [by apply f32_add_grows|exact Hle].
Qed.

Lemma lanes_step_spec lanes block : (length lanes ≤ length block)%nat → Forall nonneg lanes → terms_nonneg term block →
  length (lanes_step term lanes block) = length lanes ∧ Forall nonneg (lanes_step term lanes block) ∧ Forall2 Z.le lanes (lanes_step term lanes block).
Proof.
  unfold lanes_step. intros Hl Hn Hb. revert block Hl Hb. induction Hn as [|x lanes Hx _ IH]; intros [|p block] Hl Hb; cbn in *; [by auto using Forall_nil, Forall2_nil..|lia|].
  inversion Hb as [|?? Hp Hb']; subst. destruct (IH block ltac:(lia) Hb') as (E & F & G).
  split_and!; [lia|constructor; [by apply f32_add_closed|done]|constructor; [by apply f32_add_grows|done]].
Qed.

Lemma lanes_fold_spec width blocks lanes : length lanes = width → Forall nonneg lanes → Forall (λ b, length b = width ∧ terms_nonneg term b) blocks →
  length (foldl (lanes_step term) lanes blocks) = width ∧ Forall nonneg (foldl (lanes_step term) lanes blocks) ∧
  Forall2 Z.le lanes (foldl (lanes_step term) lanes blocks).
Proof.
  intros Hl Hn Hb. revert lanes Hl Hn. induction Hb as [|b blocks [Eb Hb] _ IH]; intros lanes Hl Hn; cbn [foldl].
  { split_and!; [done|done|]. apply Forall_Forall2_diag, Forall_true. lia. }
  destruct (lanes_step_spec lanes b) as (E & F & G); [lia|done|done|]. destruct (IH (lanes_step term lanes b)) as (E' & F' & G'); [lia|done|].
  split_and!; [done|done|]. by etrans.
Qed.
End Growing.

Lemma zero_lanes_spec width : length (zero_lanes width) = width ∧ Forall nonneg (zero_lanes width).
Proof. split; [apply length_replicate|]. by apply Forall_replicate. Qed.

(** The blocks and the remainder of a list. *)
Lemma chunks_exact_fuel_spec {A} fuel n (l : list A) : (0 < n)%nat → (length l ≤ fuel)%nat →
  concat (chunks_exact_fuel fuel n l) = take (length l / n * n) l ∧ Forall (λ b, length b = n) (chunks_exact_fuel fuel n l).
Proof.
  intros Hn. revert l. induction fuel as [|fuel IH]; intros l Hl; cbn [chunks_exact_fuel].
  { destruct l; [|cbn in Hl; lia]. cbn. rewrite Nat.Div0.div_0_l. by split. }
  destruct (decide (n ≤ length l)%nat) as [Hle|Hgt].
  - destruct (IH (drop n l)) as [E F]; [rewrite length_drop; lia|]. rewrite length_drop in E. split; [|constructor; [by rewrite length_take_le|done]].
    cbn [concat]. rewrite E. assert (length l / n = S ((length l - n) / n))%nat as ->.
    { replace (length l) with (1 * n + (length l - n))%nat at 1 by lia. rewrite Nat.div_add_l by lia. lia. }
    by rewrite take_take_drop.
  - rewrite Nat.div_small by lia. by split.
Qed.
Lemma chunks_exact_spec {A} n (l : list A) : (0 < n)%nat →
  concat (chunks_exact n l) ++ remainder n l = l ∧ Forall (λ b, length b = n) (chunks_exact n l).
Proof. intros Hn. destruct (chunks_exact_fuel_spec (length l) n l Hn ltac:(lia)) as [E F]. unfold chunks_exact, remainder. rewrite E. split; [apply take_drop|done]. Qed.

Lemma blocks_nonneg term n pairs : (0 < n)%nat → terms_nonneg term pairs →
  Forall (λ b, length b = n ∧ terms_nonneg term b) (chunks_exact n pairs) ∧ terms_nonneg term (remainder n pairs).
Proof.
  intros Hn Hp. destruct (chunks_exact_spec n pairs Hn) as [E F]. rewrite <- E in Hp. apply Forall_app in Hp as [Hc Hr]. split; [|exact Hr].
  apply Forall_concat in Hc. apply Forall_forall. intros b Hb. rewrite Forall_forall in Hc, F. split; [by apply F|by apply Hc].
Qed.

(** Reductions of non-negative lanes. *)
Class Reduction (width : nat) (reduce : list Z → Z) := {
  reduce_nonneg : ∀ l, length l = width → Forall nonneg l → nonneg (reduce l);
  reduce_mono : ∀ l l', length l = width → Forall nonneg l → Forall nonneg l' → Forall2 Z.le l l' → reduce l <= reduce l';
}.

Lemma lane_nonneg l i : Forall nonneg l → nonneg (lane l i).
Proof. intros Hl. unfold lane. destruct (nth_in_or_default i l 0) as [Hin| ->]; [|done]. rewrite Forall_forall in Hl. apply Hl. by apply list_elem_of_In. Qed.
Lemma lane_mono l l' i : Forall2 Z.le l l' → lane l i <= lane l' i.
Proof. intros F. unfold lane. revert i. induction F as [|x y l l' Hxy _ IH]; intros [|i]; cbn; [lia..|done|apply IH]. Qed.

#[export] Instance avx2_reduction : Reduction 8 horizontal_sum_avx2.
Proof.
  split.
  - intros l _ Hn. unfold horizontal_sum_avx2. repeat apply f32_add_closed; by apply lane_nonneg.
  - intros l l' _ Hn Hn' F. unfold horizontal_sum_avx2. repeat first [apply f32_add_mono|apply f32_add_closed|apply lane_mono|apply lane_nonneg]; done.
Qed.
#[export] Instance vaddvq_reduction : Reduction 4 vaddvq_f32.
Proof.
  split.
  - intros l _ Hn. unfold vaddvq_f32. repeat apply f32_add_closed; by apply lane_nonneg.
  - intros l l' _ Hn Hn' F. unfold vaddvq_f32. repeat first [apply f32_add_mono|apply f32_add_closed|apply lane_mono|apply lane_nonneg]; done.
Qed.

Lemma add_lanes_nonneg l k : Forall nonneg l → Forall nonneg k → Forall nonneg (zip_with f32_add l k).
Proof. intros Hl. revert k. induction Hl; intros k Hk; [constructor|]. destruct Hk; constructor; [by apply f32_add_closed|auto]. Qed.
Lemma add_lanes_mono l l' k k' : Forall nonneg l → Forall nonneg k → Forall nonneg l' → Forall nonneg k' → Forall2 Z.le l l' → Forall2 Z.le k k' →
  Forall2 Z.le (zip_with f32_add l k) (zip_with f32_add l' k').
Proof.
  intros Hl Hk Hl' Hk' F. revert k k' Hk Hk' Hl Hl'. induction F as [|x y l l' Hxy _ IH]; intros k k' Hk Hk' Hl Hl' G; [constructor|].
  destruct G as [|x' y' k k' Hxy' G]; [constructor|]. inversion Hl; inversion Hk; inversion Hl'; inversion Hk'; subst. cbn.
  constructor; [by apply f32_add_mono|by apply IH].
Qed.
#[export] Instance neon_reduction : Reduction 8 horizontal_sum_neon.
Proof.
  split; unfold horizontal_sum_neon.
  - intros l Hl Hn. apply reduce_nonneg; [rewrite length_zip_with, length_take, length_drop; lia|]. by apply add_lanes_nonneg; [apply Forall_take|apply Forall_drop].
  - intros l l' Hl Hn Hn' F. apply reduce_mono; [rewrite length_zip_with, length_take, length_drop; lia|by apply add_lanes_nonneg; [apply Forall_take|apply Forall_drop]..|].
    apply add_lanes_mono; [by apply Forall_take|by apply Forall_drop|by apply Forall_take|by apply Forall_drop|by apply Forall2_take|by apply Forall2_drop].
Qed.

(** ** Early abandonment returns exactly the distance, unless it exceeds *)

Lemma probe_tail_spec t pairs result : nonneg result → terms_nonneg l2_term pairs → f32_gt result t = false →
  probe_tail t result pairs = if f32_gt (accumulate l2_term result pairs) t then None else Some (accumulate l2_term result pairs).
Proof.
  intros Hr Hp. revert result Hr. induction Hp as [|p pairs Ht Hp IH]; intros result Hr Hgt; cbn [probe_tail]; [cbn; by rewrite Hgt|].
  assert (nonneg (f32_add result (l2_term p))) as Hr' by by apply f32_add_closed.
  destruct (accumulate_spec l2_term pairs _ Hr' Hp) as [Hn Hle]. change (accumulate l2_term result (p :: pairs)) with (accumulate l2_term (f32_add result (l2_term p)) pairs).
  destruct (f32_gt (f32_add result (l2_term p)) t) eqn:E; [|by apply IH]. by rewrite (gt_mono t _ _ Hr' Hn Hle E).
Qed.

Lemma probe_blocks_spec `{Reduction 8 reduce} t blocks i lanes : length lanes = 8%nat → Forall nonneg lanes →
  Forall (λ b, length b = 8%nat ∧ terms_nonneg l2_term b) blocks →
  probe_blocks reduce t i lanes blocks = Some (foldl (lanes_step l2_term) lanes blocks) ∨
  probe_blocks reduce t i lanes blocks = None ∧ f32_gt (reduce (foldl (lanes_step l2_term) lanes blocks)) t = true.
Proof.
  intros Hl Hn Hb. revert i lanes Hl Hn. induction Hb as [|b blocks [Eb Hb] Hbs IH]; intros i lanes Hl Hn; cbn [probe_blocks foldl]; [by left|].
  destruct (lanes_step_spec l2_term lanes b) as (E & F & G); [lia|done|done|]. rewrite Hl in E.
  destruct ((i + 8) mod L2_PROBE_STRIDE =? 0)%nat; cbn [andb]; [|by apply IH]. destruct (f32_gt (reduce (lanes_step l2_term lanes b)) t) eqn:Hgt; [|by apply IH].
  right. split; [done|]. destruct (lanes_fold_spec l2_term 8 blocks _ E F Hbs) as (E' & F' & G').
  apply (gt_mono t (reduce (lanes_step l2_term lanes b))); [by apply reduce_nonneg|by apply reduce_nonneg|by apply reduce_mono|exact Hgt].
Qed.

Lemma unless_exceeds_lanes_exact `{Reduction 8 reduce} a b t : terms_nonneg l2_term (zip a b) →
  fvec_l2sqr_unless_exceeds_lanes reduce a b t =
    let d := simd_sum reduce l2_term (zip a b) in if f32_gt d t then None else Some d.
Proof.
  intros Hp. cbv zeta. destruct (blocks_nonneg l2_term 8 (zip a b) ltac:(lia) Hp) as [Hb Hr]. destruct (zero_lanes_spec 8) as [Z1 Z2].
  destruct (lanes_fold_spec l2_term 8 _ _ Z1 Z2 Hb) as (E & F & _). unfold fvec_l2sqr_unless_exceeds_lanes, simd_sum, lanes_sum.
  set (lanes := foldl _ _ _) in *. assert (nonneg (reduce lanes)) as Hn by by apply reduce_nonneg.
  destruct (accumulate_spec l2_term (remainder 8 (zip a b)) _ Hn Hr) as [Hn' Hle].
  destruct (probe_blocks_spec (reduce := reduce) t (chunks_exact 8 (zip a b)) 0 (zero_lanes 8) Z1 Z2 Hb) as [->|[-> Hgt]]; fold lanes; cbn [mbind option_bind].
  - fold lanes. destruct (f32_gt (reduce lanes) t) eqn:Hgt; [by rewrite (gt_mono t _ _ Hn Hn' Hle Hgt)|by apply probe_tail_spec].
  - fold lanes in Hgt. by rewrite (gt_mono t _ _ Hn Hn' Hle Hgt).
Qed.

Lemma unless_exceeds_scalar_spec fuel t sum pairs : (length pairs ≤ fuel)%nat → nonneg sum → terms_nonneg l2_term pairs →
  unless_exceeds_scalar fuel t sum pairs = let d := accumulate l2_term sum pairs in if f32_gt d t then None else Some d.
Proof.
  revert sum pairs. induction fuel as [|fuel IH]; intros sum pairs Hl Hs Hp; cbn [unless_exceeds_scalar].
  { destruct pairs; [done|cbn in Hl; lia]. }
  destruct (Nat.ltb_spec L2_PROBE_STRIDE (length pairs)) as [Hlt|]; [|done]. rewrite <- (take_drop L2_PROBE_STRIDE pairs) in Hp. apply Forall_app in Hp as [Hp1 Hp2].
  destruct (accumulate_spec l2_term _ sum Hs Hp1) as [Hn1 _]. destruct (accumulate_spec l2_term _ _ Hn1 Hp2) as [Hn2 Hle].
  assert (accumulate l2_term sum pairs = accumulate l2_term (accumulate l2_term sum (take L2_PROBE_STRIDE pairs)) (drop L2_PROBE_STRIDE pairs)) as ->.
  { unfold accumulate. by rewrite <- foldl_app, take_drop. }
  destruct (f32_gt (accumulate l2_term sum (take L2_PROBE_STRIDE pairs)) t) eqn:Hgt; [by rewrite (gt_mono t _ _ Hn1 Hn2 Hle Hgt)|].
  apply IH; [|done|done]. rewrite length_drop. unfold L2_PROBE_STRIDE in *. lia.
Qed.

Lemma simd_sum_nonneg term `{Reduction 8 reduce} pairs : terms_nonneg term pairs → nonneg (simd_sum reduce term pairs).
Proof.
  intros Hp. destruct (blocks_nonneg term 8 pairs ltac:(lia) Hp) as [Hb Hr]. destruct (zero_lanes_spec 8) as [Z1 Z2].
  destruct (lanes_fold_spec term 8 _ _ Z1 Z2 Hb) as (E & F & _). by apply accumulate_spec; [apply reduce_nonneg|].
Qed.
Lemma l2sqr_nonneg arch a b : finite_vector a → finite_vector b → nonneg (fvec_l2sqr_simd arch a b).
Proof.
  intros Ha Hb. pose proof (l2_terms_nonneg a b Ha Hb) as Hp. unfold fvec_l2sqr_simd, dispatch.
  repeat case_match; first [by apply (simd_sum_nonneg l2_term)|by apply accumulate_spec].
Qed.

(** Thresholds that need no probing: nothing is below zero, and nothing exceeds
    an infinity or a NaN. *)
Lemma gt_negative x t : nonneg x → f32_lt t 0 = true → f32_gt x t = true.
Proof.
  intros Hx Hneg. destruct (nonneg_fields x Hx) as (_ & _ & Nx & _ & Kx & _). unfold f32_lt, f32_ordered in Hneg. apply andb_true_iff in Hneg as [Ho Hk].
  change (f32_key 0) with 0 in Hk. apply andb_true_iff in Ho as [Nt _]. unfold f32_gt, f32_lt, f32_ordered. rewrite Nt, Nx, Kx. destruct Hx. cbn [andb negb]. lia.
Qed.
Lemma gt_not_finite x t : nonneg x → u32 t → f32_lt t 0 = false → f32_is_finite t = false → f32_gt x t = false.
Proof.
  intros Hx Ht Hneg Hf. destruct (nonneg_fields x Hx) as (_ & _ & Nx & _ & Kx & _). unfold f32_gt, f32_lt, f32_ordered in *.
  rewrite Nx, Kx.
  destruct (f32_is_nan t) eqn:Nt; [reflexivity|]. 
  destruct (f32_key_mag t Ht) as [E _]. rewrite E in *. 
  assert (f32_is_nan 0 = false) as E0 by reflexivity. rewrite E0 in Hneg.
  assert (f32_key 0 = 0) as E1 by reflexivity. rewrite E1 in Hneg. cbn [andb negb] in *.
  destruct Hx as [_ Hx]. clear E0 E1 Kx Nx E.
  assert (f32_mag t = F32_INF_BITS) as Em. { clear Hneg Hx. unfold f32_is_nan, f32_is_finite in *. generalize dependent (f32_mag t). intros. lia. }
  rewrite Em in *. clear Em Nt Hf Ht. destruct (f32_neg t); [exfalso; revert Hneg; by vm_compute|].
  generalize dependent F32_INF_BITS. intros. lia.
Qed.

Lemma unless_exceeds_exact arch a b t : finite_vector a → finite_vector b → length a = length b → u32 t →
  fvec_l2sqr_unless_exceeds arch a b t = Ok (if f32_gt (fvec_l2sqr_simd arch a b) t then None else Some (fvec_l2sqr_simd arch a b)).
Proof.
  intros Ha Hb Hl Ht. pose proof (l2_terms_nonneg a b Ha Hb) as Hp. pose proof (l2sqr_nonneg arch a b Ha Hb) as Hn.
  unfold fvec_l2sqr_unless_exceeds, same_length. rewrite Hl, Nat.eqb_refl. cbn [mbind io_result_bind]. f_equal.
  destruct (f32_lt t 0) eqn:Hneg; [by rewrite (gt_negative _ t Hn Hneg)|]. destruct (f32_is_finite t) eqn:Hf; cbn [negb]; [|by rewrite (gt_not_finite _ t Hn Ht Hneg Hf)].
  unfold fvec_l2sqr_unless_exceeds_simd, fvec_l2sqr_unless_exceeds_avx2, fvec_l2sqr_unless_exceeds_neon, fvec_l2sqr_simd, dispatch.
  destruct arch as [|[]|]; [|destruct (8 <=? length a)%nat| |];
    first [by apply unless_exceeds_lanes_exact|by apply unless_exceeds_scalar_spec; [rewrite length_zip; lia|..]].
Qed.

(** ** Four candidates at once *)

Lemma four_scalar_spec cols s0 s1 s2 s3 :
  foldl four_step (s0, s1, s2, s3) cols =
    let '(c0, c1, c2, c3) := four_block cols in
    (accumulate l2_term s0 c0, accumulate l2_term s1 c1, accumulate l2_term s2 c2, accumulate l2_term s3 c3).
Proof. revert s0 s1 s2 s3. induction cols as [|[v [[[b0 b1] b2] b3]] cols IH]; intros; [done|]. cbn [foldl four_step four_zip fst snd]. rewrite IH. done. Qed.

Lemma four_lanes_spec blocks l0 l1 l2 l3 :
  foldl (λ sums block, four_zip (lanes_step l2_term) sums (four_block block)) (l0, l1, l2, l3) blocks =
    (foldl (lanes_step l2_term) l0 (fmap (M:=list) col0 <$> blocks), foldl (lanes_step l2_term) l1 (fmap (M:=list) col1 <$> blocks),
     foldl (lanes_step l2_term) l2 (fmap (M:=list) col2 <$> blocks), foldl (lanes_step l2_term) l3 (fmap (M:=list) col3 <$> blocks)).
Proof. revert l0 l1 l2 l3. induction blocks as [|b blocks IH]; intros; [done|]. cbn [foldl four_block four_zip]. by rewrite IH. Qed.

Lemma chunks_exact_fmap {A B} (f : A → B) n (l : list A) : chunks_exact n (fmap (M:=list) f l) = fmap (M:=list) (fmap (M:=list) f) (chunks_exact n l).
Proof.
  unfold chunks_exact. rewrite length_fmap. generalize (length l) as fuel. intros fuel. revert l. induction fuel as [|fuel IH]; intros l; [done|].
  cbn [chunks_exact_fuel]. rewrite length_fmap. destruct (decide (n ≤ length l)%nat); [|done]. rewrite <- fmap_drop, IH, fmap_cons, fmap_take. done.
Qed.
Lemma remainder_fmap {A B} (f : A → B) n (l : list A) : remainder n (f <$> l) = f <$> remainder n l.
Proof. unfold remainder. by rewrite length_fmap, fmap_drop. Qed.

Lemma columns_spec a b0 b1 b2 b3 : length b0 = length a → length b1 = length a → length b2 = length a → length b3 = length a →
  four_block (columns a b0 b1 b2 b3) = (zip a b0, zip a b1, zip a b2, zip a b3).
Proof.
  revert b0 b1 b2 b3. induction a as [|x a IH]; intros [|y0 b0] [|y1 b1] [|y2 b2] [|y3 b3] H0 H1 H2 H3; cbn in *; try done; try lia.
  specialize (IH b0 b1 b2 b3 ltac:(lia) ltac:(lia) ltac:(lia) ltac:(lia)). unfold four_block, columns in *. cbn. by injection IH as -> -> -> ->.
Qed.

Lemma l2sqr_four_spec arch a b0 b1 b2 b3 : length b0 = length a → length b1 = length a → length b2 = length a → length b3 = length a →
  fvec_l2sqr_four arch a b0 b1 b2 b3 = Ok (fvec_l2sqr_simd arch a b0, fvec_l2sqr_simd arch a b1, fvec_l2sqr_simd arch a b2, fvec_l2sqr_simd arch a b3).
Proof.
  intros H0 H1 H2 H3. unfold fvec_l2sqr_four, same_length. rewrite H0, H1, H2, H3, Nat.eqb_refl. cbn [mbind io_result_bind]. f_equal.
  pose proof (columns_spec a b0 b1 b2 b3 H0 H1 H2 H3) as E. set (cols := columns a b0 b1 b2 b3) in *.
  assert (∀ reduce, fvec_l2sqr_four_lanes reduce cols =
    (simd_sum reduce l2_term (zip a b0), simd_sum reduce l2_term (zip a b1), simd_sum reduce l2_term (zip a b2), simd_sum reduce l2_term (zip a b3))) as Hl.
  { intros reduce. unfold fvec_l2sqr_four_lanes. rewrite four_lanes_spec. cbn [four_map]. rewrite four_scalar_spec. unfold four_block in E.
    injection E as <- <- <- <-. unfold simd_sum, lanes_sum. rewrite !chunks_exact_fmap, !remainder_fmap. done. }
  assert (fvec_l2sqr_four_scalar cols = (fvec_l2sqr_scalar a b0, fvec_l2sqr_scalar a b1, fvec_l2sqr_scalar a b2, fvec_l2sqr_scalar a b3)) as Hs.
  { unfold fvec_l2sqr_four_scalar. by rewrite four_scalar_spec, E. }
  unfold fvec_l2sqr_four_simd, fvec_l2sqr_four_avx2, fvec_l2sqr_four_neon, fvec_l2sqr_simd, dispatch. destruct arch as [|[]|]; [|destruct (8 <=? length a)%nat| |]; first [exact Hs|apply Hl].
Qed.

(** ** A scaled distance against a threshold: the early returns change nothing *)

(** The sum the kernels compute when they never return early. *)
Definition scaled_total_lanes (reduce block_sum : list (Z * Z) → Z) (pairs : list (Z * Z)) : Z :=
  let total := foldl (λ total block, f32_add total (block_sum block)) 0 (chunks_exact 128 pairs) in
  accumulate l2_term (f32_add total (reduce (remainder 128 pairs))) (remainder 8 (remainder 128 pairs)).
Definition scaled_total (arch : Arch) (a b : list Z) : Z :=
  dispatch arch (length a) (fvec_l2sqr_scalar a b)
    (scaled_total_lanes (λ p, horizontal_sum_avx2 (lanes_sum l2_term 8 p)) (quad_sum horizontal_sum_avx2 8) (zip a b))
    (scaled_total_lanes (λ p, horizontal_sum_neon (lanes_sum l2_term 8 p)) (quad_sum vaddvq_f32 4) (zip a b)).

Section Scaled.
Context (scale t : Z) (Hu : u32 scale) (Hf : f32_is_finite scale = true) (Hk : 0 <= f32_key scale) (Ht : f32_lt t 0 = false).
#[local] Notation exceeds x := (f32_gt (f32_mul scale x) t).

Lemma scaled_zero : exceeds 0 = false.
Proof.
  destruct (f32_gt (f32_mul scale 0) t) eqn:E; [|done]. exfalso.
  assert (f32_mul scale 0 = with_sign (f32_neg scale) 0) as Em.
  { unfold f32_mul. rewrite f32_finite_not_nan by done. assert (f32_is_infinite scale = false) as -> by (unfold f32_is_finite, f32_is_infinite in *; lia).
    change (f32_is_nan 0) with false. change (f32_is_infinite 0) with false. change (f32_neg 0) with false. change (f32_units (f32_mag 0)) with 0.
    rewrite xorb_false_r, Z.mul_0_r. done. }
  rewrite Em in E. unfold f32_gt, f32_lt, f32_ordered in *. destruct (f32_is_nan t) eqn:Nt; [done|]. cbn [negb andb] in *.
  change (f32_is_nan 0) with false in Ht. change (f32_key 0) with 0 in Ht. cbn [negb andb] in Ht. apply andb_true_iff in E as [_ E].
  replace (f32_key (with_sign (f32_neg scale) 0)) with 0 in E by (by destruct (f32_neg scale)). lia.
Qed.

Lemma scaled_tail_spec pairs total : nonneg total → terms_nonneg l2_term pairs → exceeds total = false →
  scaled_tail scale t total pairs = exceeds (accumulate l2_term total pairs).
Proof.
  intros Hr Hp. revert total Hr. induction Hp as [|p pairs Htm Hp IH]; intros total Hr Hgt; cbn [scaled_tail]; [cbn; by rewrite Hgt|].
  assert (nonneg (f32_add total (l2_term p))) as Hr' by by apply f32_add_closed. destruct (accumulate_spec l2_term pairs _ Hr' Hp) as [Hn Hle].
  change (accumulate l2_term total (p :: pairs)) with (accumulate l2_term (f32_add total (l2_term p)) pairs).
  destruct (exceeds (f32_add total (l2_term p))) eqn:E; [|by apply IH]. symmetry. by apply (f32_mul_exceeds scale (f32_add total (l2_term p))).
Qed.

Lemma scaled_blocks_spec block_sum blocks total : nonneg total → Forall (λ b, nonneg (block_sum b)) blocks →
  nonneg (foldl (λ total block, f32_add total (block_sum block)) total blocks) ∧
  total <= foldl (λ total block, f32_add total (block_sum block)) total blocks ∧
  (scaled_blocks block_sum scale t total blocks = Some (foldl (λ total block, f32_add total (block_sum block)) total blocks) ∨
   scaled_blocks block_sum scale t total blocks = None ∧ exceeds (foldl (λ total block, f32_add total (block_sum block)) total blocks) = true).
Proof.
  intros Hr Hb. revert total Hr. induction Hb as [|b blocks Hb _ IH]; intros total Hr; cbn [scaled_blocks foldl]; [split_and!; [done|lia|by left]|].
  assert (nonneg (f32_add total (block_sum b))) as Hr' by by apply f32_add_closed. destruct (IH _ Hr') as (Hn & Hle & Hc).
  split_and!; [done|transitivity (f32_add total (block_sum b)); [by apply f32_add_grows|done]|].
  destruct (exceeds (f32_add total (block_sum b))) eqn:E; [|done]. right. split; [done|]. by apply (f32_mul_exceeds scale (f32_add total (block_sum b))).
Qed.

Lemma scaled_lanes_spec reduce block_sum pairs : terms_nonneg l2_term pairs →
  (∀ p, terms_nonneg l2_term p → nonneg (reduce p)) → (∀ b, length b = 128%nat → terms_nonneg l2_term b → nonneg (block_sum b)) →
  scaled_exceeds_lanes reduce block_sum pairs scale t = exceeds (scaled_total_lanes reduce block_sum pairs).
Proof.
  intros Hp Hred Hbs. destruct (blocks_nonneg l2_term 128 pairs ltac:(lia) Hp) as [Hb Hr]. destruct (blocks_nonneg l2_term 8 _ ltac:(lia) Hr) as [_ Hr8].
  destruct (scaled_blocks_spec block_sum (chunks_exact 128 pairs) 0) as (Hn & _ & Hc); [done|eapply Forall_impl; [exact Hb|]; intros b [? ?]; by apply Hbs|].
  unfold scaled_exceeds_lanes, scaled_total_lanes. set (total := foldl _ 0 _) in *. pose proof (Hred _ Hr) as Hrn.
  assert (nonneg (f32_add total (reduce (remainder 128 pairs)))) as Hn' by by apply f32_add_closed. destruct (accumulate_spec l2_term _ _ Hn' Hr8) as [Hn'' Hle].
  pose proof (f32_add_grows total _ Hn Hrn) as Hg. destruct Hc as [->|[-> Hgt]].
  - destruct (exceeds (f32_add total (reduce (remainder 128 pairs)))) eqn:E; [|by apply scaled_tail_spec]. symmetry. by apply (f32_mul_exceeds scale (f32_add total (reduce (remainder 128 pairs)))).
  - symmetry. apply (f32_mul_exceeds scale total); try done. lia.
Qed.
End Scaled.

Lemma quad_sum_nonneg width `{Reduction width reduce} block : (0 < width)%nat → terms_nonneg l2_term block → nonneg (quad_sum reduce width block).
Proof.
  intros Hw Hb. destruct (blocks_nonneg l2_term (4 * width) block ltac:(lia) Hb) as [Hbs _]. destruct (zero_lanes_spec (4 * width)) as [Z1 Z2].
  destruct (lanes_fold_spec l2_term (4 * width) _ _ Z1 Z2 Hbs) as (E & F & _). unfold quad_sum, lanes_sum. set (lanes := foldl _ _ _) in *.
  apply reduce_nonneg; [rewrite !length_zip_with; unfold slice; rewrite !length_take, !length_drop; lia|].
  repeat apply add_lanes_nonneg; by apply Forall_slice.
Qed.
Lemma lanes_reduce_nonneg `{Reduction 8 reduce} pairs : terms_nonneg l2_term pairs → nonneg (reduce (lanes_sum l2_term 8 pairs)).
Proof.
  intros Hp. destruct (blocks_nonneg l2_term 8 pairs ltac:(lia) Hp) as [Hb _]. destruct (zero_lanes_spec 8) as [Z1 Z2].
  destruct (lanes_fold_spec l2_term 8 _ _ Z1 Z2 Hb) as (E & F & _). by apply reduce_nonneg.
Qed.

(** ** The optimised kernels against the plain one *)

(** C14: Abandoning early is exact.  On every architecture, for finite vectors of one
    length and any threshold, infinite and NaN included, the early-abandoning
    kernel returns the very bits the plain kernel computes when they do not
    exceed the threshold, and abandons exactly when they do: no probe of a
    partial sum gives up on a row the finished distance would have admitted. *)
Theorem early_abandon_exact (arch : Arch) (a b : list Z) (threshold : Z) :
  finite_vector a → finite_vector b → length a = length b → u32 threshold →
  ∃ d, fvec_l2sqr arch a b = Ok d ∧ 0 <= d <= f32_infinity ∧
    fvec_l2sqr_unless_exceeds arch a b threshold = Ok (if f32_gt d threshold then None else Some d).
Proof.
  intros Ha Hb Hl Ht. exists (fvec_l2sqr_simd arch a b). split_and!; [unfold fvec_l2sqr, same_length; by rewrite Hl, Nat.eqb_refl|apply l2sqr_nonneg; done..|].
  by apply unless_exceeds_exact.
Qed.

Definition demo_query : list Z := replicate 9 F32_ONE.
Definition demo_row : list Z := 0x40400000 :: replicate 8 F32_ONE.
Lemma demo_finite : finite_vector demo_query ∧ finite_vector demo_row.
Proof. split; repeat constructor; vm_compute; done. Qed.

Lemma early_abandon_exact_witness :
  ∃ d, fvec_l2sqr (X86_64 true) demo_query demo_row = Ok d ∧ 0 <= d <= f32_infinity ∧
    fvec_l2sqr_unless_exceeds (X86_64 true) demo_query demo_row 0x40400000 = Ok (if f32_gt d 0x40400000 then None else Some d).
Proof. apply early_abandon_exact; [apply demo_finite|apply demo_finite|reflexivity|by split]. Defined.

(** The distance is four; a cut at three abandons, one at four does not. *)
Example early_abandon_values :
  fvec_l2sqr_unless_exceeds (X86_64 true) demo_query demo_row 0x40400000 = Ok None ∧
  fvec_l2sqr_unless_exceeds Aarch64 demo_query demo_row 0x40800000 = Ok (Some 0x40800000) ∧
  fvec_l2sqr Portable demo_query demo_row = Ok 0x40800000.
Proof. by vm_compute. Qed.

(** The batched and the thresholded kernels agree with plain sums.  Four
    distances computed side by side are the four distances computed one at a
    time, bit for bit.  The scaled comparison answers whether the scaled sum it
    accumulates exceeds the threshold: none of its early returns changes the
    answer, and it panics only on vectors of different lengths or a scale that is
    not a finite non-negative number. *)
Theorem batched_kernels_exact (arch : Arch) (a b0 b1 b2 b3 : list Z) (scale threshold : Z) :
  length b0 = length a → length b1 = length a → length b2 = length a → length b3 = length a →
  finite_vector a → finite_vector b0 → u32 scale → f32_is_finite scale = true → f32_ge scale 0 = true → f32_lt threshold 0 = false →
  (d0 ← fvec_l2sqr arch a b0; d1 ← fvec_l2sqr arch a b1; d2 ← fvec_l2sqr arch a b2; d3 ← fvec_l2sqr arch a b3; Ok (d0, d1, d2, d3))
    = fvec_l2sqr_four arch a b0 b1 b2 b3 ∧
  fvec_l2sqr_scaled_exceeds arch a b0 scale threshold = Ok (f32_gt (f32_mul scale (scaled_total arch a b0)) threshold).
Proof.
  intros H0 H1 H2 H3 Fa Fb Hu Hf Hge Hneg. rewrite l2sqr_four_spec by done. split.
  { unfold fvec_l2sqr, same_length. by rewrite H0, H1, H2, H3, Nat.eqb_refl. }
  pose proof (l2_terms_nonneg a b0 Fa Fb) as Hp. unfold fvec_l2sqr_scaled_exceeds, same_length. rewrite H0, Nat.eqb_refl, Hf, Hge, Hneg. cbn [mbind io_result_bind andb]. f_equal.
  assert (0 <= f32_key scale) as Hk.
  { unfold f32_ge in Hge. apply andb_true_iff in Hge as [_ Hge]. change (f32_key 0) with 0 in Hge. lia. }
  unfold fvec_l2sqr_scaled_exceeds_simd, scaled_total, dispatch. destruct arch as [|[]|]; [|destruct (8 <=? length a)%nat| |].
  1, 3, 4: apply scaled_tail_spec; [done..|by apply scaled_zero].
  - apply scaled_lanes_spec; [done..| |].
    + intros p Hq. exact (lanes_reduce_nonneg (reduce := horizontal_sum_avx2) p Hq).
    + intros block _ Hq. apply (quad_sum_nonneg 8 (reduce := horizontal_sum_avx2)); [lia|exact Hq].
  - apply scaled_lanes_spec; [done..| |].
    + intros p Hq. exact (lanes_reduce_nonneg (reduce := horizontal_sum_neon) p Hq).
    + intros block _ Hq. apply (quad_sum_nonneg 4 (reduce := vaddvq_f32)); [lia|exact Hq].
Qed.

Lemma batched_kernels_exact_witness :
  (d0 ← fvec_l2sqr Aarch64 demo_query demo_row; d1 ← fvec_l2sqr Aarch64 demo_query demo_query; d2 ← fvec_l2sqr Aarch64 demo_query demo_row;
   d3 ← fvec_l2sqr Aarch64 demo_query demo_query; Ok (d0, d1, d2, d3)) = fvec_l2sqr_four Aarch64 demo_query demo_row demo_query demo_row demo_query ∧
  fvec_l2sqr_scaled_exceeds Aarch64 demo_query demo_row F32_ONE 0x40400000 =
    Ok (f32_gt (f32_mul F32_ONE (scaled_total Aarch64 demo_query demo_row)) 0x40400000).
Proof. apply batched_kernels_exact; try reflexivity; [apply demo_finite|apply demo_finite|by split]. Defined.
