(* ===== verification/KmeansSearch.v ===== *)
(** Choosing centroids: the search half of [core/src/kmeans.rs] with
    [core/src/blas.rs].

    A candidate is a pair of a distance and a centroid; the source keeps the two
    vectors of indices and distances, which are its projections.  The matrix
    product of the [matrixmultiply] crate is the argument [sgemm]. *)

From S2P Require Import Prelude F32 F64 F32Arith DiskannHeader Distance.

(** ** Order *)

Notation scored := (Z * nat)%type.
(** [compare_distance_then_index]: [total_cmp], then the index. *)
Definition compare_le (a b : scored) : Prop :=
  f32_total_key a.1 < f32_total_key b.1 ∨ (f32_total_key a.1 = f32_total_key b.1 ∧ (a.2 ≤ b.2)%nat).
(** The same against a cutoff, whose index starts at [usize::MAX]. *)
Definition reaches_cutoff (cutoff : Z * Z) (x : scored) : bool :=
  (f32_total_key cutoff.1 <? f32_total_key x.1) || ((f32_total_key cutoff.1 =? f32_total_key x.1) && (cutoff.2 <=? Z.of_nat x.2)).
#[export] Instance compare_le_dec : RelDecision compare_le.
Proof. intros [a i] [b j]. unfold compare_le; cbn. apply _. Defined.

(** [select_nth_unstable_by] followed by the sort of the prefix: the prefix is the
    least [nprobe] candidates in order.  What follows it is in no specified
    order, and no caller depends on it; it is sorted here. *)
Definition select_topk_prefix (dists : list scored) : list scored := merge_sort compare_le dists.

(** [f32::max] returns the other operand for a NaN. *)
Definition f32_max (a b : Z) : Z := if f32_is_nan a then b else if f32_is_nan b then a else if f32_lt b a then a else b.
Definition f32_le (a b : Z) : bool := f32_ge b a.
(** [usize as f32] *)
Definition f32_from_usize (n : nat) : Z := round_mag (Z.of_nat n * 2 ^ 149) 1.
Definition F32_EPSILON : Z := 0x34000000.
Definition F32_TWO : Z := 0x40000000.
Definition F32_FOUR : Z := 0x40800000.

Section Kmeans.
Context (arch : Arch) (sgemm : nat → nat → nat → Z → list Z → list Z → Z → list Z → list Z).

Definition sgemm_a_bt (m n k : nat) (alpha : Z) (a b : list Z) (beta : Z) (c : list Z) : io_result (list Z) :=
  _ ← (if (Z.of_nat k <? 2 ^ 63) && (Z.of_nat n <? 2 ^ 63) then Ok () else Panic);
  a_len ← expect (checked_mul 64 (Z.of_nat m) (Z.of_nat k));
  b_len ← expect (checked_mul 64 (Z.of_nat n) (Z.of_nat k));
  c_len ← expect (checked_mul 64 (Z.of_nat m) (Z.of_nat n));
  _ ← (if (a_len <=? zlen a) && (b_len <=? zlen b) && (c_len <=? zlen c) then Ok () else Panic);
  Ok (sgemm m n k alpha a b beta c).

Definition centroid_at (centroids : list Z) (d c : nat) : io_result (list Z) := expect (get_slice (c * d) d centroids).

(** ** One query *)

(** Four centroids from [c] on, with their distances. *)
Definition four_distances (point centroids : list Z) (d c : nat) : io_result (list scored) :=
  b0 ← centroid_at centroids d c; b1 ← centroid_at centroids d (c + 1); b2 ← centroid_at centroids d (c + 2); b3 ← centroid_at centroids d (c + 3);
  '(d0, d1, d2, d3) ← fvec_l2sqr_four arch point b0 b1 b2 b3;
  Ok [(d0, c); (d1, c + 1)%nat; (d2, c + 2)%nat; (d3, c + 3)%nat].
Definition one_distance (point centroids : list Z) (d c : nat) : io_result scored :=
  b ← centroid_at centroids d c; dist ← fvec_l2sqr arch point b; Ok (dist, c).
(** The distances of all centroids, four at a time and then one at a time. *)
Definition centroid_distances (point centroids : list Z) (k d : nat) : io_result (list scored) :=
  let four_end := (k / 4 * 4)%nat in
  fours ← try_map (four_distances point centroids d) ((λ i, i * 4)%nat <$> seq 0 (k / 4));
  rest ← try_map (one_distance point centroids d) (seq four_end (k - four_end));
  Ok (concat fours ++ rest).

Definition nearer (best : scored) (x : scored) : scored := if f32_lt x.1 best.1 then x else best.
Definition find_nearest (point centroids : list Z) (k d : nat) : io_result nat :=
  dists ← centroid_distances point centroids k d;
  Ok (foldl nearer (0x7f7fffff, 0%nat) dists).2.

Definition find_topk (point centroids : list Z) (k d nprobe : nat) : io_result (list scored) :=
  let nprobe := (nprobe `min` k)%nat in
  if (nprobe =? 0)%nat then Ok []
  else dists ← centroid_distances point centroids k d; Ok (take nprobe (select_topk_prefix dists)).

(** [find_topk_checked]: candidates are kept below twice the width, and cut to the
    width with a new cutoff whenever they reach it.  The error is the first
    centroid at a distance that is not finite. *)
Definition checked_step (point centroids : list Z) (dimension nprobe capacity : nat) (st : list scored * (Z * Z)) (centroid : nat) :
    io_result (list scored * (Z * Z) + nat) :=
  let '(candidates, cutoff) := st in
  '(distance, _) ← one_distance point centroids dimension centroid;
  if negb (f32_is_finite distance) then Ok (inr centroid)
  else
    let candidate : scored := (distance, centroid) in
    if reaches_cutoff cutoff candidate then Ok (inl (candidates, cutoff))
    else
      let candidates := candidates ++ [candidate] in
      if (length candidates =? capacity)%nat && (nprobe <? capacity)%nat then
        let candidates := select_topk_prefix candidates in
        '(cut, index) ← expect (candidates !! (nprobe - 1)%nat);
        Ok (inl (take nprobe candidates, (cut, Z.of_nat index)))
      else Ok (inl (candidates, cutoff)).
Fixpoint checked_loop (point centroids : list Z) (dimension nprobe capacity : nat) (st : list scored * (Z * Z)) (todo : list nat) :
    io_result (list scored + nat) :=
  match todo with
  | [] => Ok (inl st.1)
  | centroid :: todo =>
      r ← checked_step point centroids dimension nprobe capacity st centroid;
      match r with
      | inl st => checked_loop point centroids dimension nprobe capacity st todo
      | inr bad => Ok (inr bad)
      end
  end.
Definition find_topk_checked (point centroids : list Z) (centroid_count dimension nprobe : nat) : io_result (list scored + nat) :=
  let nprobe := (nprobe `min` centroid_count)%nat in
  if (nprobe =? 0)%nat then Ok (inl [])
  else
    let capacity := ((nprobe * 2) `min` centroid_count)%nat in
    r ← checked_loop point centroids dimension nprobe capacity ([], (f32_infinity, USIZE_MAX)) (seq 0 centroid_count);
    Ok (match r with
        | inl candidates => inl (merge_sort compare_le (if (nprobe <? length candidates)%nat then take nprobe (select_topk_prefix candidates) else candidates))
        | inr bad => inr bad
        end).

(** ** Many queries: approximate distances by a matrix product, refined where
    their error could change the selection *)

Definition MAX_MATRIX_ELEMS : Z := 4 * 1024 * 1024.

(** The loop over the candidates: certainly inside, or too near the boundary. *)
Definition refine_step (query centroids : list Z) (d : nat) (lower upper : Z) (acc : list scored * list nat) (x : scored) :
    io_result (list scored * list nat) :=
  let '(selected, ambiguous) := acc in
  if f32_lt x.1 lower then s ← one_distance query centroids d x.2; Ok (selected ++ [s], ambiguous)
  else if f32_le x.1 upper then Ok (selected, ambiguous ++ [x.2])
  else Ok (selected, ambiguous).
Definition refine_topk_boundary (query centroids : list Z) (k d nprobe : nat) (approximate : list scored) (error_bound : Z) : io_result (list scored) :=
  let approximate := select_topk_prefix approximate in
  '(boundary, _) ← expect (approximate !! (nprobe - 1)%nat);
  let lower := f32_sub boundary (f32_mul F32_TWO error_bound) in
  let upper := f32_add boundary (f32_mul F32_TWO error_bound) in
  '(selected, ambiguous) ← try_fold (refine_step query centroids d lower upper) ([], []) approximate;
  if (length ambiguous =? k)%nat then find_topk query centroids k d nprobe
  else
    _ ← (if (length selected <=? nprobe)%nat then Ok () else Panic);
    let needed := (nprobe - length selected)%nat in
    ambiguous ← try_map (one_distance query centroids d) ambiguous;
    Ok (merge_sort compare_le (selected ++ take needed (merge_sort compare_le ambiguous))).

Definition approximate_distance (query_norm centroid_norm inner_product : Z) : Z :=
  f32_sub (f32_add query_norm centroid_norm) (f32_mul F32_TWO inner_product).
Definition error_bound_of (d : nat) (max_scale : Z) : Z :=
  let rounding := f32_mul (f32_from_usize d) F32_EPSILON in
  let error_factor := if f32_lt rounding F32_ONE then f32_div (f32_mul F32_FOUR rounding) (f32_sub F32_ONE rounding) else f32_infinity in
  if f32_eq max_scale 0 then 0 else f32_mul max_scale error_factor.

(** One query of a tile. *)
Definition tile_query (centroids centroid_norms : list Z) (k d nprobe : nat) (max_centroid_norm : Z) (tile_queries : list Z)
    (query : nat) (query_norm : Z) (inner_products : list Z) : io_result (list scored) :=
  query ← expect (get_slice (query * d) d tile_queries);
  if negb (f32_is_finite query_norm) then find_topk query centroids k d nprobe
  else
    let max_scale := f32_add (f32_add query_norm max_centroid_norm) (f32_mul F32_TWO (f32_sqrt (f32_mul query_norm max_centroid_norm))) in
    let distances := zip_with (approximate_distance query_norm) centroid_norms inner_products in
    if forallb f32_is_finite distances then
      let approximate := imap (λ centroid distance, (f32_max distance 0, centroid)) distances in
      refine_topk_boundary query centroids k d nprobe approximate (error_bound_of d max_scale)
    else find_topk query centroids k d nprobe.
Definition tile (queries : list Z) (nq : nat) (centroids centroid_norms : list Z) (k d nprobe : nat) (tile_rows max_centroid_norm : Z)
    (query_start : nat) : io_result (list (list scored)) :=
  let tile_n := Z.to_nat (Z.min tile_rows (Z.of_nat nq - Z.of_nat query_start)) in
  tile_queries ← expect (get_slice (query_start * d) (tile_n * d) queries);
  query_norms ← try_map (λ query, v ← expect (get_slice (query * d) d tile_queries); Ok (fvec_norm_l2sqr arch v)) (seq 0 tile_n);
  inner_products ← sgemm_a_bt tile_n k d F32_ONE tile_queries centroids 0 (replicate (tile_n * k) 0);
  try_map (λ '(query, (query_norm, row)), tile_query centroids centroid_norms k d nprobe max_centroid_norm tile_queries query query_norm row)
    (imap pair (zip query_norms (chunks_exact k inner_products))).

Definition find_topk_batch_with_centroid_norms (queries : list Z) (nq : nat) (centroids centroid_norms : list Z) (k d nprobe : nat) :
    io_result (list (list scored)) :=
  let nprobe := (nprobe `min` k)%nat in
  if (nprobe =? 0)%nat then Ok (replicate nq [])
  else if (nq =? 1)%nat || (nprobe =? k)%nat || (MAX_MATRIX_ELEMS <? Z.of_nat k) ||
          existsb (λ norm, negb (f32_is_finite norm) || f32_lt norm 0) centroid_norms then
    try_map (λ query, q ← expect (get_slice (query * d) d queries); find_topk q centroids k d nprobe) (seq 0 nq)
  else
    let max_centroid_norm := foldl f32_max 0 centroid_norms in
    let tile_rows := Z.max (MAX_MATRIX_ELEMS / Z.of_nat k) 1 in
    tiles ← try_map (tile queries nq centroids centroid_norms k d nprobe tile_rows max_centroid_norm)
              ((λ i, Z.to_nat (Z.of_nat i * tile_rows)) <$> seq 0 (Z.to_nat (div_ceil (Z.of_nat nq) tile_rows)));
    Ok (concat tiles).
Definition find_topk_batch (queries : list Z) (nq : nat) (centroids : list Z) (k d nprobe : nat) : io_result (list (list scored)) :=
  centroid_norms ← try_map (λ centroid, c ← centroid_at centroids d centroid; Ok (fvec_norm_l2sqr arch c)) (seq 0 k);
  find_topk_batch_with_centroid_norms queries nq centroids centroid_norms k d nprobe.
End Kmeans.

(** ** Results are bit patterns *)

Lemma f32_add_u32 a b : u32 a → u32 b → u32 (f32_add a b).
Proof.
  intros Ha Hb. unfold f32_add. repeat case_match; try done; try apply nan_bits.
  - by apply with_sign_not_nan.
  - apply with_sign_not_nan, round_mag_bounds; lia.
Qed.
Lemma f32_mul_u32 a b : u32 (f32_mul a b).
Proof.
  unfold f32_mul. repeat case_match; try apply nan_bits; [by apply with_sign_not_nan|].
  pose proof (f32_units_pos (f32_mag a)). pose proof (f32_units_pos (f32_mag b)). pose proof (f32_mag_bounds a). pose proof (f32_mag_bounds b).
  apply with_sign_not_nan, round_mag_bounds; [nia|done].
Qed.
(** Sums of terms that are bit patterns. *)
Section Patterns.
Context (term : Z * Z → Z) (Hterm : ∀ p, u32 (term p)).

Lemma accumulate_u32 pairs sum : u32 sum → u32 (accumulate term sum pairs).
Proof. revert sum. induction pairs as [|p pairs IH]; intros sum Hs; [done|]. apply IH, f32_add_u32; [done|apply Hterm]. Qed.
Lemma add_lanes_u32 l k : Forall u32 l → Forall u32 k → Forall u32 (zip_with f32_add l k).
Proof. intros Hl. revert k. induction Hl; intros k Hk; [constructor|]. destruct Hk; constructor; [by apply f32_add_u32|auto]. Qed.
Lemma lanes_u32 blocks lanes : Forall u32 lanes → Forall u32 (foldl (lanes_step term) lanes blocks).
Proof.
  revert lanes. induction blocks as [|b blocks IH]; intros lanes Hl; [done|]. apply IH. unfold lanes_step. apply add_lanes_u32; [done|].
  apply Forall_fmap, Forall_true. intros p. apply Hterm.
Qed.
Lemma lane_u32 l i : Forall u32 l → u32 (lane l i).
Proof. intros Hl. unfold lane. destruct (nth_in_or_default i l 0) as [Hin| ->]; [|done]. rewrite Forall_forall in Hl. apply Hl. by apply list_elem_of_In. Qed.
Lemma dispatch_u32 arch n pairs :
  u32 (dispatch arch n (accumulate term 0 pairs) (simd_sum horizontal_sum_avx2 term pairs) (simd_sum horizontal_sum_neon term pairs)).
Proof.
  assert (∀ reduce, (∀ l, Forall u32 l → u32 (reduce l)) → u32 (simd_sum reduce term pairs)) as Hs.
  { intros reduce Hr. apply accumulate_u32, Hr, lanes_u32. by apply Forall_replicate. }
  unfold dispatch. destruct arch as [|[]|]; [|destruct (8 <=? n)%nat| |].
  1, 3, 4: by apply accumulate_u32.
  - apply Hs. intros l Hl. unfold horizontal_sum_avx2. repeat apply f32_add_u32; by apply lane_u32.
  - apply Hs. intros l Hl. unfold horizontal_sum_neon, vaddvq_f32.
    assert (Forall u32 (zip_with f32_add (take 4 l) (drop 4 l))) as Hz by (by apply add_lanes_u32; [apply Forall_take|apply Forall_drop]).
    repeat apply f32_add_u32; by apply lane_u32.
Qed.
End Patterns.
Lemma l2sqr_u32 arch a b : u32 (fvec_l2sqr_simd arch a b).
Proof. apply (dispatch_u32 l2_term). intros p. apply f32_mul_u32. Qed.
Lemma inner_product_u32 arch a b d : fvec_inner_product arch a b = Ok d → u32 d.
Proof. unfold fvec_inner_product. intros E. inv_ok. apply (dispatch_u32 dot_term). intros p. apply f32_mul_u32. Qed.
Lemma f32_div_u32 a b : u32 (f32_div a b).
Proof.
  unfold f32_div. pose proof (f32_mag_bounds a). pose proof (f32_mag_bounds b). repeat case_match; try apply nan_bits; try by apply with_sign_not_nan.
  pose proof (f32_units_pos (f32_mag a)). pose proof (f32_units_pos (f32_mag b)). pose proof (f32_units_zero (f32_mag b)).
  unfold f32_is_zero in *. apply with_sign_not_nan, round_mag_bounds; lia.
Qed.
(** Every distance is a bit pattern. *)
Lemma fvec_distance_u32 arch query vector metric d : fvec_distance arch query vector metric = Ok d → u32 d.
Proof.
  destruct metric; cbn [fvec_distance].
  - unfold fvec_l2sqr. intros E. inv_ok. apply l2sqr_u32.
  - destruct (fvec_inner_product arch query vector) as [x| |] eqn:E; [|done..]. intros [= <-]. apply inner_product_u32 in E. apply (f32_negate_spec x E).
  - unfold fvec_cosine_distance_with_norms. case_match; [|by intros [= <-]]. intros E. inv_ok. unfold f32_sub. apply f32_add_u32; [done|].
    apply f32_negate_spec, f32_div_u32.
Qed.

(** ** Sums of squares: non-negative, or no number *)

Definition semi (x : Z) : Prop := nonneg x ∨ x = F32_NAN_BITS.

Lemma f32_add_nan_l b : f32_add F32_NAN_BITS b = F32_NAN_BITS.
Proof. unfold f32_add. by rewrite (proj1 nan_bits). Qed.
Lemma f32_add_nan_r a : f32_add a F32_NAN_BITS = F32_NAN_BITS.
Proof. unfold f32_add. by rewrite (proj1 nan_bits), orb_true_r. Qed.
Lemma f32_mul_nan_r a : f32_mul a F32_NAN_BITS = F32_NAN_BITS.
Proof. unfold f32_mul. by rewrite (proj1 nan_bits), orb_true_r. Qed.
Lemma f32_mul_nan_l a : f32_mul F32_NAN_BITS a = F32_NAN_BITS.
Proof. unfold f32_mul. by rewrite (proj1 nan_bits). Qed.

Lemma semi_add a b : semi a → semi b → semi (f32_add a b).
Proof. intros [Ha| ->] [Hb| ->]; rewrite ?f32_add_nan_l, ?f32_add_nan_r; [left; by apply f32_add_closed|by right..]. Qed.
Lemma semi_mul a b : semi a → semi b → semi (f32_mul a b).
Proof.
  intros [Ha| ->] [Hb| ->]; rewrite ?f32_mul_nan_l, ?f32_mul_nan_r; [|by right..]. destruct (nonneg_fields a Ha) as (Sa & Ma & Na & _), (nonneg_fields b Hb) as (Sb & Mb & Nb & _).
  unfold f32_mul. rewrite Sa, Sb, Na, Nb, Ma, Mb. cbn [orb xorb with_sign]. repeat case_match; [by right|by left|left].
  destruct Ha, Hb. pose proof (f32_units_pos a). pose proof (f32_units_pos b). apply round_mag_bounds; [nia|done].
Qed.
Lemma semi_square d : semi (f32_mul d d).
Proof. destruct (f32_is_nan d) eqn:Hn; [right; unfold f32_mul; by rewrite Hn|left; by apply f32_square_nonneg]. Qed.
Lemma semi_sqrt a : nonneg a → nonneg (f32_sqrt a).
Proof.
  intros [H0 H1]. destruct (decide (a = F32_INF_BITS)) as [->|Hne]; [by vm_compute|]. pose proof (f32_sqrt_finite a ltac:(lia)). unfold nonneg. lia.
Qed.
Lemma semi_div a b : semi a → nonneg b → semi (f32_div a b).
Proof.
  intros Ha Hb. destruct (nonneg_fields b Hb) as (Sb & Mb & Nb & _). unfold f32_div. rewrite Nb. destruct Ha as [Ha| ->]; [|rewrite (proj1 nan_bits); by right].
  destruct (nonneg_fields a Ha) as (Sa & Ma & Na & _). rewrite Sa, Sb, Na, Ma, Mb. cbn [orb xorb with_sign]. unfold f32_is_zero. rewrite Ma, Mb.
  destruct (f32_is_infinite a); [case_match; [by right|by left]|]. destruct (f32_is_infinite b); [by left|].
  destruct (Z.eqb_spec b 0) as [|Hb0]; [case_match; [by right|by left]|left]. destruct Ha, Hb. pose proof (f32_units_pos a). pose proof (f32_units_pos b).
  pose proof (f32_units_zero b). apply round_mag_bounds; lia.
Qed.

Lemma semi_lane l i : Forall semi l → semi (lane l i).
Proof. intros Hl. unfold lane. destruct (nth_in_or_default i l 0) as [Hin| ->]; [|by left]. rewrite Forall_forall in Hl. apply Hl. by apply list_elem_of_In. Qed.
Lemma semi_add_lanes l k : Forall semi l → Forall semi k → Forall semi (zip_with f32_add l k).
Proof. intros Hl. revert k. induction Hl; intros k Hk; [constructor|]. destruct Hk; constructor; [by apply semi_add|auto]. Qed.
Lemma semi_accumulate pairs sum : semi sum → Forall (λ p, semi (dot_term p)) pairs → semi (accumulate dot_term sum pairs).
Proof. intros Hs Hp. revert sum Hs. induction Hp; intros sum Hs; [done|]. apply IHHp. by apply semi_add. Qed.
Lemma semi_lanes blocks lanes : Forall semi lanes → Forall (Forall (λ p, semi (dot_term p))) blocks → Forall semi (foldl (lanes_step dot_term) lanes blocks).
Proof.
  intros Hl Hb. revert lanes Hl. induction Hb as [|b blocks Hb _ IH]; intros lanes Hl; [done|]. apply IH. unfold lanes_step. apply semi_add_lanes; [done|].
  by apply Forall_fmap.
Qed.
Lemma norm_semi arch v : semi (fvec_norm_l2sqr arch v).
Proof.
  assert (Forall (λ p, semi (dot_term p)) (zip v v)) as Hp.
  { induction v as [|x v IH]; [constructor|]. constructor; [apply semi_square|exact IH]. }
  assert (semi 0) as H0 by by left. destruct (chunks_exact_spec 8 (zip v v) ltac:(lia)) as [E _]. rewrite <- E in Hp. apply Forall_app in Hp as [Hb Hr]. apply Forall_concat in Hb.
  assert (∀ reduce, (∀ l, Forall semi l → semi (reduce l)) → semi (simd_sum reduce dot_term (zip v v))) as Hs.
  { intros reduce Hred. apply semi_accumulate; [|done]. apply Hred, semi_lanes; [by apply Forall_replicate|done]. }
  unfold fvec_norm_l2sqr, fvec_norm_l2sqr_scalar, fvec_norm_l2sqr_avx2, fvec_norm_l2sqr_neon, dispatch. destruct arch as [|[]|]; [|destruct (8 <=? length v)%nat| |].
  1, 3, 4: apply semi_accumulate; [done|]; rewrite <- E; apply Forall_app; split; [by apply Forall_concat|done].
  - apply Hs. intros l Hl. unfold horizontal_sum_avx2. repeat apply semi_add; by apply semi_lane.
  - apply Hs. intros l Hl. unfold horizontal_sum_neon, vaddvq_f32.
    assert (Forall semi (zip_with f32_add (take 4 l) (drop 4 l))) as Hz by (by apply semi_add_lanes; [apply Forall_take|apply Forall_drop]).
    repeat apply semi_add; by apply semi_lane.
Qed.
Lemma semi_finite x : semi x → f32_is_finite x = true → nonneg x.
Proof. intros [H| ->]; [done|]. by vm_compute. Qed.

(** Subtracting a non-negative number does not pass above. *)
Lemma sub_not_above b x y : nonneg b → f32_is_finite b = true → nonneg x → b <= x → semi y → f32_lt x (f32_sub b y) = false.
Proof.
  intros Hb Fb Hx Hle Hy. destruct (nonneg_fields x Hx) as (_ & _ & Nx & _ & Kx & _), (nonneg_fields b Hb) as (Sb & Mb & Nb & _ & Kb & _).
  assert (∀ z, f32_key z <= b → f32_lt x z = false) as Hk by (intros z Hz; unfold f32_lt; rewrite Kx; destruct (f32_ordered x z); cbn; lia).
  unfold f32_sub. destruct Hy as [Hy| ->].
  2: { assert (f32_is_nan (f32_negate F32_NAN_BITS) = true) as E by by vm_compute. unfold f32_add. rewrite Nb, E. cbn [orb]. unfold f32_lt, f32_ordered. by rewrite (proj1 nan_bits), andb_false_r. }
  destruct (nonneg_fields y Hy) as (Sy & My & Ny & Uy & _). destruct (f32_negate_spec y Uy) as (Ky & _ & Un). unfold f32_add. rewrite f32_negate_nan, Nb, Ny by done.
  assert (f32_is_infinite b = false) as -> by (unfold f32_is_finite, f32_is_infinite in *; lia). cbn [orb].
  assert (f32_negate y = F32_SIGN + y) as En by (unfold f32_negate; rewrite Sy; lia).
  assert (f32_neg (F32_SIGN + y) = true) as Sn by (unfold f32_neg; destruct Hy; lia).
  assert (f32_mag (F32_SIGN + y) = y) as Mn by (unfold f32_mag; apply mod_set_sign; unfold nonneg, F32_INF_BITS, F32_SIGN in *; lia).
  rewrite En in *. destruct (f32_is_infinite (F32_SIGN + y)); [apply Hk; destruct (nonneg_fields y Hy) as (_ & _ & _ & _ & E & _); destruct Hb, Hy; lia|].
  unfold f32_int. rewrite Sb, Sn, Mb, Mn. cbn [andb]. destruct Hb as [Hb0 Hb1], Hy as [Hy0 Hy1]. pose proof (f32_units_pos b Hb0). pose proof (f32_units_pos y Hy0).
  destruct (Z.eqb_spec (f32_units b + - f32_units y) 0); [apply Hk; by cbn|]. destruct (Z.ltb_spec (f32_units b + - f32_units y) 0) as [Hneg|Hpos].
  - apply Hk. pose proof (round_mag_bounds (Z.abs (f32_units b + - f32_units y)) 1 ltac:(lia) ltac:(lia)) as Hr. set (m := round_mag _ _) in *. clearbody m.
    unfold f32_key, f32_neg, with_sign. rewrite (proj2 (Z.leb_le F32_SIGN _)) by lia. unfold f32_mag. rewrite mod_set_sign by (unfold F32_INF_BITS, F32_SIGN in *; lia). lia.
  - apply Hk. cbn [with_sign]. assert (round_mag (Z.abs (f32_units b + - f32_units y)) 1 <= b) as Hm by (rewrite <- (round_mag_units b) at 2 by done; apply round_mag_mono; lia).
    pose proof (round_mag_bounds (Z.abs (f32_units b + - f32_units y)) 1 ltac:(lia) ltac:(lia)) as Hr. destruct (nonneg_fields _ Hr) as (_ & _ & _ & _ & -> & _). exact Hm.
Qed.

Lemma error_bound_semi d max_scale : semi max_scale → semi (error_bound_of d max_scale).
Proof.
  intros Hm. unfold error_bound_of. case_match; [by left|]. apply semi_mul; [done|]. set (r := f32_mul _ _).
  assert (semi r) as Hr by (apply semi_mul; [left; apply round_mag_bounds; lia|left; by vm_compute]). clearbody r.
  destruct (f32_lt r F32_ONE) eqn:Hlt; [|by left]. apply semi_div; [apply semi_mul; [left; by vm_compute|done]|].
  assert (nonneg r) as Hn by (destruct Hr as [|Er]; [done|]; rewrite Er in Hlt; by vm_compute in Hlt).
  assert (nonneg F32_ONE) as H1 by by vm_compute. destruct (nonneg_fields r Hn) as (Sr & Mr & Nr & Ur & Kr & _).
  assert (r < F32_ONE) as Hl by (unfold f32_lt in Hlt; rewrite Kr in Hlt; apply andb_true_iff in Hlt as [_ Hlt]; change (f32_key F32_ONE) with F32_ONE in Hlt; lia).
  destruct Hn as [Hn0 _]. pose proof (f32_units_lt r F32_ONE Hn0 Hl) as Hu. unfold f32_sub, f32_add. rewrite f32_negate_nan, Nr by done.
  change (f32_is_nan F32_ONE) with false. change (f32_is_infinite F32_ONE) with false. cbn [orb]. destruct (f32_negate_spec r Ur) as (_ & Fn & _).
  assert (f32_is_infinite (f32_negate r) = false) as ->.
  { assert (f32_is_finite r = true) as Fr by (unfold f32_is_finite; rewrite Mr; unfold F32_ONE, F32_INF_BITS in *; lia). rewrite Fr in Fn. unfold f32_is_finite, f32_is_infinite in *. lia. }
  assert (f32_int (f32_negate r) = - f32_units r) as ->.
  { unfold f32_int, f32_negate. rewrite Sr. assert (f32_neg (r + F32_SIGN) = true) as -> by (unfold f32_neg; lia).
    unfold f32_mag. rewrite Z.add_comm, mod_set_sign by (unfold F32_ONE, F32_SIGN in *; lia). done. }
  change (f32_int F32_ONE) with (f32_units F32_ONE). rewrite (proj2 (Z.eqb_neq _ _)), (proj2 (Z.ltb_ge _ _)) by lia. cbn [with_sign]. apply round_mag_bounds; lia.
Qed.

(** ** The least candidates *)

#[export] Instance compare_le_total : Total compare_le.
Proof.
  intros [a i] [b j]. unfold compare_le; cbn. destruct (Z.lt_trichotomy (f32_total_key a) (f32_total_key b)) as [|[|]]; [by left; left| |by right; left].
  destruct (decide (i ≤ j)%nat); [left|right]; right; lia.
Qed.
#[export] Instance compare_le_trans : Transitive compare_le.
Proof. intros [a i] [b j] [c k]. unfold compare_le; cbn. lia. Qed.
Lemma compare_le_antisym a b : u32 a.1 → u32 b.1 → compare_le a b → compare_le b a → a = b.
Proof.
  destruct a as [a i], b as [b j]. unfold compare_le; cbn. intros Ha Hb H1 H2. assert (f32_total_key a = f32_total_key b) as E by lia.
  apply f32_total_key_inj in E; [|done|done]. subst. f_equal. lia.
Qed.

Lemma strongly_sorted l : StronglySorted compare_le (merge_sort compare_le l).
Proof. apply Sorted_StronglySorted; [apply _|]. apply (Sorted_merge_sort _). Qed.

Definition patterns (l : list scored) : Prop := Forall (λ x, u32 x.1) l.
#[export] Instance patterns_perm : Proper ((≡ₚ) ==> iff) patterns.
Proof. intros l k E. unfold patterns. by rewrite E. Qed.

Definition top (n : nat) (l : list scored) : list scored := take n (merge_sort compare_le l).

Lemma sorted_perm_eq l k : patterns l → StronglySorted compare_le l → StronglySorted compare_le k → l ≡ₚ k → l = k.
Proof.
  intros Hp Hl Hk E. apply (StronglySorted_unique_strong compare_le); try done. intros x y Hx Hy. rewrite <- E in Hy.
  unfold patterns in Hp. rewrite Forall_forall in Hp. apply compare_le_antisym; by apply Hp.
Qed.
Lemma merge_sort_perm_eq l k : patterns l → l ≡ₚ k → merge_sort compare_le l = merge_sort compare_le k.
Proof. intros Hp E. apply sorted_perm_eq; [by rewrite merge_sort_Permutation|apply strongly_sorted..|by rewrite !merge_sort_Permutation]. Qed.

(** [t] in order, nothing that was left out is before one of its elements. *)
Definition is_top (n : nat) (l t : list scored) : Prop :=
  StronglySorted compare_le t ∧ ∃ rest, l ≡ₚ t ++ rest ∧ (∀ x y, x ∈ t → y ∈ rest → compare_le x y) ∧ (length t = n ∨ (length t < n)%nat ∧ rest = []).

Lemma is_top_eq n l t : patterns l → is_top n l t → t = top n l.
Proof.
  intros Hp (Hs & rest & Ep & Hle & Hlen). assert (merge_sort compare_le l = t ++ merge_sort compare_le rest) as E.
  { apply sorted_perm_eq; [by rewrite merge_sort_Permutation|apply strongly_sorted| |by rewrite !merge_sort_Permutation, Ep].
    apply StronglySorted_app. split_and!; [intros x y Hx Hy; apply Hle; [done|by rewrite merge_sort_Permutation in Hy]|done|apply strongly_sorted]. }
  unfold top. rewrite E. destruct Hlen as [<-|[Hlt ->]]; [by rewrite take_app_length|]. rewrite app_nil_r, take_ge; [done|lia].
Qed.
Lemma top_is_top n l : is_top n l (top n l).
Proof.
  pose proof (strongly_sorted l) as Hs. unfold top. rewrite <- (take_drop n (merge_sort compare_le l)) in Hs.
  apply StronglySorted_app in Hs as (Hle & Hs & _). split; [done|]. exists (drop n (merge_sort compare_le l)).
  split_and!; [by rewrite take_drop, merge_sort_Permutation|done|]. rewrite length_take.
  destruct (decide (n ≤ length (merge_sort compare_le l))%nat); [left; lia|right; split; [lia|apply drop_ge; lia]].
Qed.
Lemma top_perm n l k : patterns l → l ≡ₚ k → top n l = top n k.
Proof. intros Hp E. unfold top. by rewrite (merge_sort_perm_eq l k). Qed.
Lemma top_length n l : length (top n l) = (n `min` length l)%nat.
Proof. unfold top. rewrite length_take, merge_sort_Permutation. done. Qed.
Lemma top_submseteq n l : top n l ⊆+ l.
Proof. unfold top. rewrite <- (merge_sort_Permutation compare_le l) at 2. apply submseteq_take. Qed.
Lemma top_patterns n l : patterns l → patterns (top n l).
Proof. intros Hp. unfold top. apply Forall_take. by rewrite merge_sort_Permutation. Qed.
Lemma top_all n l : (length l ≤ n)%nat → top n l = merge_sort compare_le l.
Proof. intros Hl. unfold top. apply take_ge. by rewrite merge_sort_Permutation. Qed.

(** Only the least of what came before matter for what comes next. *)
Lemma top_app n l k : patterns l → patterns k → top n (top n l ++ k) = top n (l ++ k).
Proof.
  intros Hl Hk. apply is_top_eq; [by apply Forall_app|]. destruct (top_is_top n l) as (Hs & rest & Ep & Hle & Hlen).
  destruct (top_is_top n (top n l ++ k)) as (Hs' & rest' & Ep' & Hle' & Hlen'). pose proof (top_length n (top n l ++ k)) as L.
  set (t := top n l) in *. set (T := top n (t ++ k)) in *. clearbody T. clearbody t. rewrite length_app in L. split; [done|]. exists (rest' ++ rest).
  split_and!; [rewrite app_assoc, <- Ep', <- app_assoc, (Permutation_app_comm k), app_assoc; by f_equiv| |].
  - intros x y Hx Hy. apply elem_of_app in Hy as [Hy|Hy]; [by apply Hle'|]. destruct Hlen as [Hlen|[_ ->]]; [|by apply elem_of_nil in Hy].
    destruct (decide (Exists (λ z, z ∈ t) rest')) as [He|He].
    + apply Exists_exists in He as (z & Hz & Hzt). transitivity z; [by apply Hle'|by apply Hle].
    + assert (t ⊆+ T) as Hsub.
      { assert (t ⊆+ T ++ rest') as Hsm by (rewrite <- Ep'; by apply submseteq_inserts_r).
        apply submseteq_app_r in Hsm as (k1 & k2 & Ek & H1 & H2). destruct k2 as [|z k2]; [by rewrite Ek, app_nil_r|]. exfalso. apply He, Exists_exists.
        exists z. split; [eapply elem_of_submseteq; [|exact H2]; by left|]. rewrite Ek. apply elem_of_app. right. by left. }
      pose proof (submseteq_length_Permutation _ _ Hsub ltac:(lia)) as Hperm. apply Hle; [by rewrite Hperm|done].
  - destruct Hlen as [Hlen|[Hlt ->]]; [|destruct Hlen' as [?|[? ->]]; [by left|right; by split]]. left. lia.
Qed.
(** A candidate after [n] others changes nothing. *)
Lemma top_skip n l x : patterns l → u32 x.1 → length (top n l) = n → (∀ y, y ∈ top n l → compare_le y x) → top n (l ++ [x]) = top n l.
Proof.
  intros Hl Hx Hlen Hle. symmetry. apply is_top_eq; [by apply Forall_app; split; [|constructor]|]. destruct (top_is_top n l) as (Hs & rest & Ep & Hr & _).
  split; [done|]. exists (rest ++ [x]). split_and!; [rewrite app_assoc; by f_equiv| |by left].
  intros y z Hy Hz. apply elem_of_app in Hz as [Hz|Hz%list_elem_of_singleton]; [by apply Hr|subst; by apply Hle].
Qed.

(** [n] candidates up to [x] bound the [n] least. *)
Lemma top_bound n l t x : t ⊆+ l → length t = n → (∀ z, z ∈ t → compare_le z x) → length (top n l) = n ∧ ∀ y, y ∈ top n l → compare_le y x.
Proof.
  intros Hsub Hlen Hle. pose proof (submseteq_length _ _ Hsub) as Hl. split; [rewrite top_length; lia|]. intros y Hy.
  destruct (top_is_top n l) as (_ & rest & Ep & Hr & _). pose proof (top_length n l) as L. set (T := top n l) in *. clearbody T.
  rewrite Ep in Hsub. apply submseteq_app_r in Hsub as (k1 & k2 & Ek & H1 & H2). destruct k2 as [|z k2].
  - rewrite app_nil_r in Ek. rewrite <- Ek in H1. pose proof (submseteq_length_Permutation _ _ H1 ltac:(lia)) as Hperm. apply Hle. by rewrite Hperm.
  - transitivity z; [|apply Hle; rewrite Ek; set_solver]. apply Hr; [done|]. eapply elem_of_submseteq; [|exact H2]. by left.
Qed.
Lemma top_sorted n l : patterns l → merge_sort compare_le (top n l) = top n l.
Proof.
  intros Hp. apply sorted_perm_eq; [rewrite merge_sort_Permutation; by apply top_patterns|apply strongly_sorted|apply top_is_top|by rewrite merge_sort_Permutation].
Qed.
(** The last of the least candidates is the largest of them. *)
Lemma top_last n l x : top n l !! (n - 1)%nat = Some x → ∀ z, z ∈ top n l → compare_le z x.
Proof.
  intros Hx z Hz. destruct (top_is_top n l) as (Hs & _). pose proof (top_length n l) as L. apply list_elem_of_lookup in Hz as [i Hi].
  pose proof (lookup_lt_Some _ _ _ Hi). pose proof (lookup_lt_Some _ _ _ Hx). destruct (decide (i = n - 1)%nat) as [->|]; [rewrite Hx in Hi; injection Hi as ->; by destruct (total compare_le z z)|].
  rewrite <- (take_drop_middle _ _ _ Hx) in Hs. apply StronglySorted_app in Hs as (Hle & _ & _). apply Hle; [|by left].
  apply (list_elem_of_lookup_2 _ i). rewrite lookup_take_lt by lia. done.
Qed.

(** ** The distances of all centroids *)

Section Spec.
Context (arch : Arch) (sgemm : nat → nat → nat → Z → list Z → list Z → Z → list Z → list Z).
Context (centroids : list Z) (k d : nat) (Hc : length centroids = (k * d)%nat).

Definition dist_of (point : list Z) (c : nat) : Z := fvec_l2sqr_simd arch point (slice (c * d) d centroids).
Definition scored_of (point : list Z) (c : nat) : scored := (dist_of point c, c).
(** The [n] nearest centroids by distance, then index. *)
Definition nearest (n : nat) (point : list Z) : list scored := top n (scored_of point <$> seq 0 k).

Lemma scored_patterns point l : patterns (scored_of point <$> l).
Proof. apply Forall_fmap, Forall_true. intros c. apply l2sqr_u32. Qed.

Lemma centroid_at_ok c : (c < k)%nat → centroid_at centroids d c = Ok (slice (c * d) d centroids) ∧ length (slice (c * d) d centroids) = d.
Proof.
  intros Hlt. assert (c * d + d ≤ length centroids)%nat by nia. unfold centroid_at. rewrite (proj2 (get_slice_Some _ _ _ _)) by done.
  split; [done|]. unfold slice. rewrite length_take, length_drop. lia.
Qed.

Lemma one_distance_ok point c : length point = d → (c < k)%nat → one_distance arch point centroids d c = Ok (scored_of point c).
Proof.
  intros Hp Hlt. destruct (centroid_at_ok c Hlt) as [E L]. unfold one_distance. rewrite E. cbn [mbind io_result_bind].
  unfold fvec_l2sqr, same_length. by rewrite Hp, L, Nat.eqb_refl.
Qed.
Lemma four_distances_ok point c : length point = d → (c + 3 < k)%nat → four_distances arch point centroids d c = Ok (scored_of point <$> seq c 4).
Proof.
  intros Hp Hlt. unfold four_distances. destruct (centroid_at_ok c ltac:(lia)) as [-> L0], (centroid_at_ok (c + 1) ltac:(lia)) as [-> L1],
    (centroid_at_ok (c + 2) ltac:(lia)) as [-> L2], (centroid_at_ok (c + 3) ltac:(lia)) as [-> L3]. cbn [mbind io_result_bind].
  rewrite l2sqr_four_spec by lia. cbn [mbind io_result_bind].
  replace (c + 1)%nat with (S c) by lia. replace (c + 2)%nat with (S (S c)) by lia. replace (c + 3)%nat with (S (S (S c))) by lia. reflexivity.
Qed.

Lemma fours_concat point n : concat ((λ c, scored_of point <$> seq c 4) <$> ((λ i, i * 4)%nat <$> seq 0 n)) = scored_of point <$> seq 0 (n * 4).
Proof.
  induction n as [|n IH]; [done|]. rewrite seq_S, !fmap_app, concat_app, IH. cbn [fmap list_fmap concat]. rewrite app_nil_r, <- fmap_app. f_equal.
  replace (S n * 4)%nat with (n * 4 + 4)%nat by lia. by rewrite seq_app.
Qed.
Lemma centroid_distances_ok point : length point = d → centroid_distances arch point centroids k d = Ok (scored_of point <$> seq 0 k).
Proof.
  intros Hp. unfold centroid_distances. pose proof (Nat.div_mod k 4 ltac:(lia)) as D. pose proof (Nat.mod_upper_bound k 4 ltac:(lia)) as B.
  rewrite (proj2 (try_map_Ok _ _ ((λ c, scored_of point <$> seq c 4) <$> ((λ i, i * 4)%nat <$> seq 0 (k / 4))))).
  2: { apply Forall2_fmap_r, Forall_Forall2_diag, Forall_fmap, Forall_seq. intros i Hi. apply four_distances_ok; [done|]. cbn. lia. }
  rewrite (proj2 (try_map_Ok _ _ (scored_of point <$> seq (k / 4 * 4) (k - k / 4 * 4)))).
  2: { apply Forall2_fmap_r, Forall_Forall2_diag, Forall_seq. intros i Hi. apply one_distance_ok; [done|lia]. }
  cbn [mbind io_result_bind]. rewrite fours_concat, <- fmap_app. do 2 f_equal. rewrite <- seq_app. f_equal. lia.
Qed.

Lemma find_topk_ok point nprobe : length point = d → find_topk arch point centroids k d nprobe = Ok (nearest nprobe point).
Proof.
  intros Hp. unfold find_topk, nearest. rewrite centroid_distances_ok by done. destruct (Nat.eqb_spec (nprobe `min` k) 0) as [E|E].
  - destruct nprobe; [done|]. destruct k; [done|lia].
  - cbn [mbind io_result_bind]. f_equal. unfold top, select_topk_prefix. set (l := merge_sort _ _).
    assert (length l = k) as Hl by (unfold l; by rewrite merge_sort_Permutation, length_fmap, length_seq).
    destruct (decide (nprobe ≤ k)%nat); [by rewrite Nat.min_l|]. rewrite Nat.min_r, !take_ge by lia. done.
Qed.

(** ** The streaming selection *)

Definition bad_centroid (point : list Z) (l : list nat) : option nat := head (filter (λ c, f32_is_finite (dist_of point c) = false) l).

Section Checked.
Context (point : list Z) (Hp : length point = d) (n capacity : nat) (Hcap : (n ≤ capacity)%nat) (Hn : (0 < n)%nat).
#[local] Notation seen m := (scored_of point <$> seq 0 m).

(** A cutoff that skips only what cannot be among the [n] least. *)
Definition cutoff_ok (m : nat) (cutoff : Z * Z) : Prop :=
  cutoff = (f32_infinity, USIZE_MAX) ∨
  ∃ x t, cutoff = (x.1, Z.of_nat x.2) ∧ t ⊆+ seen m ∧ length t = n ∧ ∀ z, z ∈ t → compare_le z x.
Definition checked_inv (m : nat) (st : list scored * (Z * Z)) : Prop :=
  st.1 ⊆+ seen m ∧ top n st.1 = top n (seen m) ∧ cutoff_ok m st.2.

Lemma seen_snoc m : seen (S m) = seen m ++ [scored_of point m].
Proof. by rewrite seq_S, fmap_app. Qed.
Lemma candidates_patterns m l : l ⊆+ seen m → patterns l.
Proof. intros Hs. apply Forall_forall. intros x Hx. pose proof (scored_patterns point (seq 0 m)) as F. unfold patterns in F. rewrite Forall_forall in F. apply F. by eapply elem_of_submseteq. Qed.

Lemma reaches_infinity x : u32 x.1 → f32_is_finite x.1 = true → reaches_cutoff (f32_infinity, USIZE_MAX) x = false.
Proof.
  intros Hu Hf. unfold reaches_cutoff. cbn [fst snd]. destruct (f32_key_mag x.1 Hu) as [_ B]. unfold f32_is_finite in Hf. change (f32_total_key f32_infinity) with F32_INF_BITS.
  assert (f32_total_key x.1 < F32_INF_BITS) as Hlt; [|lia]. unfold f32_total_key. destruct (f32_neg x.1) eqn:E; [unfold F32_INF_BITS in *; lia|].
  unfold f32_neg in E. unfold f32_mag in *. destruct Hu. rewrite Z.mod_small in * by lia. lia.
Qed.
Lemma reaches_compare x y : reaches_cutoff (x.1, Z.of_nat x.2) y = true ↔ compare_le x y.
Proof. unfold reaches_cutoff, compare_le. cbn [fst snd]. lia. Qed.

Lemma cutoff_grows m cutoff : cutoff_ok m cutoff → cutoff_ok (S m) cutoff.
Proof.
  intros [->|(x & t & E & Hs & Hl & Hz)]; [by left|right]. exists x, t. split_and!; try done. rewrite seen_snoc. by apply submseteq_inserts_r.
Qed.

Lemma checked_step_ok m st : checked_inv m st → (m < k)%nat →
  if f32_is_finite (dist_of point m) then ∃ st', checked_step arch point centroids d n capacity st m = Ok (inl st') ∧ checked_inv (S m) st'
  else checked_step arch point centroids d n capacity st m = Ok (inr m).
Proof.
  intros (Hsub & Htop & Hcut) Hm. destruct st as [cands cutoff]. cbn [fst snd] in *. unfold checked_step. rewrite one_distance_ok by done. cbn [mbind io_result_bind scored_of].
  pose proof (l2sqr_u32 arch point (slice (m * d) d centroids)) as Hu. fold (dist_of point m) in Hu. cbv zeta. fold (scored_of point m).
  destruct (f32_is_finite (dist_of point m)) eqn:Hf; cbn [negb]; [|done].
  pose proof (candidates_patterns _ _ Hsub) as Pc. pose proof (scored_patterns point (seq 0 m)) as Ps.
  destruct (reaches_cutoff cutoff (scored_of point m)) eqn:Hr.
  { destruct Hcut as [->|(x & t & -> & Hs & Hl & Hz)]; [by rewrite reaches_infinity in Hr|]. apply reaches_compare in Hr.
    eexists. split; [done|]. unfold checked_inv; cbn [fst snd]. rewrite seen_snoc. split_and!.
    - by apply submseteq_inserts_r.
    - destruct (top_bound n (seen m) t (scored_of point m)) as [L B]; [done|done|intros z Hzt; transitivity x; [by apply Hz|done]|].
      rewrite Htop. symmetry. by apply top_skip.
    - apply cutoff_grows. right. by exists x, t. }
  assert (cands ++ [scored_of point m] ⊆+ seen (S m)) as Hsub' by (rewrite seen_snoc; by apply submseteq_app).
  pose proof (candidates_patterns _ _ Hsub') as Pc'.
  assert (top n (cands ++ [scored_of point m]) = top n (seen (S m))) as Htop'.
  { rewrite seen_snoc, <- (top_app n cands), <- (top_app n (seen m)) by (done || by constructor). by rewrite Htop. }
  match goal with |- context [if ?b then _ else _] => destruct b eqn:E end.
  - apply andb_true_iff in E as [E1%Nat.eqb_eq E2%Nat.ltb_lt]. set (cs := cands ++ [scored_of point m]) in *.
    pose proof (top_length n cs) as L. rewrite E1, Nat.min_l in L by lia. destruct (lookup_lt_is_Some_2 (top n cs) (n - 1)) as [x Hx]; [lia|].
    assert (select_topk_prefix cs !! (n - 1)%nat = Some x) as -> by (rewrite <- Hx; unfold top, select_topk_prefix; by rewrite lookup_take_lt by lia).
    destruct x as [cut index]. cbn [expect mbind io_result_bind]. eexists. split; [done|]. fold (top n cs). unfold checked_inv; cbn [fst snd].
    assert (top n cs ⊆+ seen (S m)) as Hst by (etrans; [apply top_submseteq|done]). split_and!; [done| |].
    + rewrite <- Htop'. change (take n (select_topk_prefix cs)) with (top n cs). rewrite (top_all n (top n cs)) by lia. by apply top_sorted.
    + right. exists (cut, index), (top n cs). split_and!; [done|done|done|]. by apply top_last.
  - eexists. split; [done|]. unfold checked_inv; cbn [fst snd]. split_and!; [done|done|by apply cutoff_grows].
Qed.

Lemma checked_loop_ok r m st : checked_inv m st → (m + r = k)%nat →
  match bad_centroid point (seq m r) with
  | Some bad => checked_loop arch point centroids d n capacity st (seq m r) = Ok (inr bad)
  | None => ∃ cands, checked_loop arch point centroids d n capacity st (seq m r) = Ok (inl cands) ∧ patterns cands ∧ top n cands = nearest n point
  end.
Proof.
  unfold bad_centroid. revert m st. induction r as [|r IH]; intros m st Hi Hm; cbn [seq checked_loop].
  - replace m with k in Hi by lia. destruct Hi as (Hs & Ht & _). cbn. exists st.1. split_and!; [done|by eapply candidates_patterns|done].
  - pose proof (checked_step_ok m st Hi ltac:(lia)) as Hs. rewrite filter_cons. destruct (f32_is_finite (dist_of point m)) eqn:Hf.
    + rewrite decide_False by done. destruct Hs as (st' & -> & Hi'). cbn [mbind io_result_bind]. apply IH; [done|lia].
    + rewrite decide_True by done. rewrite Hs. done.
Qed.
End Checked.

Lemma find_topk_checked_ok point nprobe : length point = d → find_topk_checked arch point centroids k d nprobe =
  Ok (if (nprobe `min` k =? 0)%nat then inl [] else match bad_centroid point (seq 0 k) with Some bad => inr bad | None => inl (nearest nprobe point) end).
Proof.
  intros Hp. unfold find_topk_checked. destruct (Nat.eqb_spec (nprobe `min` k) 0) as [E|E]; [done|]. set (n := (nprobe `min` k)%nat) in *.
  set (capacity := ((n * 2) `min` k)%nat). pose proof (checked_loop_ok point Hp n capacity ltac:(lia) ltac:(lia) k 0 ([], (f32_infinity, USIZE_MAX))) as Hloop.
  destruct (bad_centroid point (seq 0 k)) as [bad|].
  - rewrite Hloop; [done| |lia]. split_and!; [done|done|by left].
  - destruct Hloop as (cands & -> & Hpat & Ht); [split_and!; [done|done|by left]|lia|]. cbn [mbind io_result_bind]. do 2 f_equal.
    assert (nearest nprobe point = nearest n point) as ->.
    { unfold nearest, top, n. destruct (decide (nprobe ≤ k)%nat); [by rewrite Nat.min_l|].
      rewrite Nat.min_r, !take_ge by (rewrite ?merge_sort_Permutation, ?length_fmap, ?length_seq; lia). done. }
    rewrite <- Ht. destruct (Nat.ltb_spec n (length cands)); [by apply top_sorted|]. by rewrite top_all by lia.
Qed.

(** ** The batch *)

(** A selection of at most [n] centroids, each once, with their exact distances
    and in order. *)
Definition selection (n : nat) (point : list Z) (l : list scored) : Prop :=
  StronglySorted compare_le l ∧ NoDup (snd <$> l) ∧ Forall (λ x, (x.2 < k)%nat ∧ x = scored_of point x.2) l ∧ (length l ≤ n)%nat.

Lemma sub_selection point (l : list scored) (idx : list nat) : Forall (λ i, (i < k)%nat) idx → NoDup idx → l ≡ₚ scored_of point <$> idx →
  NoDup (snd <$> merge_sort compare_le l) ∧ Forall (λ x, (x.2 < k)%nat ∧ x = scored_of point x.2) (merge_sort compare_le l).
Proof.
  intros Hi Hnd E. assert (snd <$> l ≡ₚ idx) as Es by (rewrite E, <- list_fmap_compose; by rewrite list_fmap_id).
  split; [by rewrite merge_sort_Permutation, Es|]. rewrite merge_sort_Permutation, E. apply Forall_fmap. eapply Forall_impl; [exact Hi|]. done.
Qed.
Lemma nearest_selection n point : selection n point (nearest n point).
Proof.
  destruct (top_is_top n (scored_of point <$> seq 0 k)) as (Hs & _). unfold selection, nearest. split_and!; [done| | |rewrite top_length; lia].
  - destruct (sub_selection point (scored_of point <$> seq 0 k) (seq 0 k)) as [Hnd _]; [apply Forall_seq; lia|apply NoDup_seq|done|].
    unfold top. rewrite <- (take_drop n (merge_sort _ _)), fmap_app in Hnd. by apply NoDup_app in Hnd as [? _].
  - destruct (sub_selection point (scored_of point <$> seq 0 k) (seq 0 k)) as [_ Hf]; [apply Forall_seq; lia|apply NoDup_seq|done|]. by apply Forall_take.
Qed.

Definition inside (lower : Z) (x : scored) : Prop := f32_lt x.1 lower = true.
Definition unclear (lower upper : Z) (x : scored) : Prop := f32_lt x.1 lower = false ∧ f32_le x.1 upper = true.
#[local] Instance inside_dec lower x : Decision (inside lower x).
Proof. unfold inside. apply _. Defined.
#[local] Instance unclear_dec lower upper x : Decision (unclear lower upper x).
Proof. unfold unclear. apply _. Defined.

Lemma refine_fold_ok query lower upper l acc : length query = d → Forall (λ x, (x.2 < k)%nat) l →
  try_fold (refine_step arch query centroids d lower upper) acc l =
    Ok (acc.1 ++ (scored_of query <$> (snd <$> filter (inside lower) l)), acc.2 ++ (snd <$> filter (unclear lower upper) l)).
Proof.
  intros Hq Hl. revert acc. induction Hl as [|x l Hx _ IH]; intros [sel amb]; [cbn; by rewrite !app_nil_r|]. cbn [try_fold refine_step].
  rewrite !filter_cons. destruct (f32_lt x.1 lower) eqn:E1.
  - rewrite (decide_True (P := inside lower x)) by exact E1. rewrite (decide_False (P := unclear lower upper x)) by (intros [E _]; by rewrite E1 in E).
    rewrite one_distance_ok by done. cbn [mbind io_result_bind]. rewrite IH. cbn. by rewrite <- app_assoc.
  - rewrite (decide_False (P := inside lower x)) by (unfold inside; by rewrite E1). destruct (f32_le x.1 upper) eqn:E2.
    + rewrite (decide_True (P := unclear lower upper x)) by done. cbn [mbind io_result_bind]. rewrite IH. cbn. by rewrite <- app_assoc.
    + rewrite (decide_False (P := unclear lower upper x)) by (intros [_ E]; by rewrite E2 in E). cbn [mbind io_result_bind]. by rewrite IH.
Qed.

(** Fewer than [nprobe] candidates are certainly inside. *)
Lemma inside_fewer l lower n b : StronglySorted compare_le l → Forall (λ x, nonneg x.1) l → l !! n = Some b →
  (∀ x, nonneg x → b.1 <= x → f32_lt x lower = false) → (length (filter (inside lower) l) ≤ n)%nat.
Proof.
  intros Hs Hn Hb Hlow. rewrite <- (take_drop_middle _ _ _ Hb) in Hs, Hn |- *. pose proof (lookup_lt_Some _ _ _ Hb) as Hlt.
  apply StronglySorted_app in Hs as (_ & _ & Hs). apply Forall_app in Hn as [_ Hn]. rewrite filter_app, length_app.
  assert (filter (inside lower) (b :: drop (S n) l) = []) as ->.
  { destruct (filter (inside lower) (b :: drop (S n) l)) as [|y ys] eqn:E; [done|exfalso].
    assert (y ∈ filter (inside lower) (b :: drop (S n) l)) as Hy by (rewrite E; by left). apply list_elem_of_filter in Hy as [Hy Hin].
    rewrite Forall_forall in Hn. pose proof (Hn _ Hin) as Hny. unfold inside in Hy. rewrite Hlow in Hy; [done|done|].
    apply elem_of_cons in Hin as [->|Hin]; [done|]. inversion Hs as [|?? Hs' Hall]; subst. rewrite Forall_forall in Hall. specialize (Hall _ Hin).
    destruct (nonneg_fields y.1 Hny) as (_ & _ & _ & _ & _ & Ky). destruct (nonneg_fields b.1) as (_ & _ & _ & _ & _ & Kb); [apply Hn; by left|].
    unfold compare_le in Hall. rewrite Ky, Kb in Hall. lia. }
  cbn. rewrite Nat.add_0_r. transitivity (length (take n l)); [apply length_filter|rewrite length_take; lia].
Qed.

Lemma parts_submseteq lower upper l : (snd <$> filter (inside lower) l) ++ (snd <$> filter (unclear lower upper) l) ⊆+ snd <$> l.
Proof.
  induction l as [|x l IH]; [done|]. rewrite !filter_cons. destruct (decide (inside lower x)) as [H1|H1], (decide (unclear lower upper x)) as [H2|H2]; cbn.
  - destruct H2 as [H2 _]. unfold inside in H1. by rewrite H1 in H2.
  - by constructor.
  - rewrite <- Permutation_middle. by constructor.
  - by constructor.
Qed.

Lemma refine_selects query n approximate error_bound : length query = d → (0 < n ≤ k)%nat → semi error_bound →
  snd <$> approximate = seq 0 k → Forall (λ x, nonneg x.1 ∧ f32_is_finite x.1 = true) approximate →
  ∃ l, refine_topk_boundary arch query centroids k d n approximate error_bound = Ok l ∧ selection n query l.
Proof.
  intros Hq Hn He Hidx Hap. unfold refine_topk_boundary. set (A := select_topk_prefix approximate).
  assert (A ≡ₚ approximate) as HA by apply merge_sort_Permutation. assert (StronglySorted compare_le A) as Hs by apply strongly_sorted.
  assert (snd <$> A ≡ₚ seq 0 k) as HAi by by rewrite HA, Hidx. rewrite <- HA in Hap. clearbody A.
  assert (length A = k) as HAl by (apply Permutation_length in HAi; by rewrite length_fmap, length_seq in HAi).
  destruct (lookup_lt_is_Some_2 A (n - 1)) as [[boundary j] Hb]; [lia|]. rewrite Hb. cbn [expect mbind io_result_bind].
  set (y := f32_mul F32_TWO error_bound). assert (semi y) as Hy by (apply semi_mul; [left; by vm_compute|done]). clearbody y.
  set (lower := f32_sub boundary y). set (upper := f32_add boundary y).
  assert (Forall (λ x, (x.2 < k)%nat) A) as HAk.
  { apply Forall_forall. intros x Hx. assert (x.2 ∈ snd <$> A) as Hin by by apply list_elem_of_fmap_2. rewrite HAi in Hin. apply elem_of_seq in Hin. lia. }
  rewrite refine_fold_ok by done. cbn [fst snd app]. set (sel := snd <$> filter (inside lower) A). set (amb := snd <$> filter (unclear lower upper) A).
  assert (length sel ≤ n)%nat as Hsel.
  { unfold sel. rewrite length_fmap. etrans; [apply (inside_fewer A lower (n - 1) (boundary, j)); [done|by eapply Forall_impl; [exact Hap|]; intros ? []|done|]|lia].
    intros x Hx Hle. destruct (Forall_lookup_1 _ _ _ _ Hap Hb) as [Hnb Hfb]. by apply sub_not_above. }
  cbn [mbind io_result_bind]. destruct (length amb =? k)%nat; [exists (nearest n query); split; [by apply find_topk_ok|apply nearest_selection]|].
  rewrite length_fmap, (proj2 (Nat.leb_le _ _)) by done. cbn [mbind io_result_bind].
  assert (sel ++ amb ⊆+ seq 0 k) as Hsub.
  { rewrite <- HAi. apply parts_submseteq. }
  assert (NoDup (sel ++ amb) ∧ Forall (λ i, (i < k)%nat) (sel ++ amb)) as [Hnd Hlt].
  { split; [destruct (submseteq_Permutation _ _ Hsub) as [rest E]; pose proof (NoDup_seq 0 k) as Hs0; rewrite E in Hs0; by apply NoDup_app in Hs0 as [? _]|]. apply Forall_forall. intros i Hi. apply (elem_of_submseteq _ _ i Hi), elem_of_seq in Hsub. lia. }
  rewrite (proj2 (try_map_Ok _ _ (scored_of query <$> amb))).
  2: { apply Forall2_fmap_r, Forall_Forall2_diag. apply Forall_app in Hlt as [_ Hlt]. eapply Forall_impl; [exact Hlt|]. intros i Hi. by apply one_distance_ok. }
  cbn [mbind io_result_bind]. set (needed := (n - length sel)%nat). fold (top needed (scored_of query <$> amb)).
  destruct (top_is_top needed (scored_of query <$> amb)) as (_ & rest & Ep & _). pose proof (top_length needed (scored_of query <$> amb)) as Lt. set (t := top needed _) in *. clearbody t.
  assert (snd <$> t ++ rest ≡ₚ amb) as Eamb by (rewrite <- Ep, <- list_fmap_compose; by rewrite list_fmap_id). rewrite fmap_app in Eamb.
  assert (t = scored_of query <$> (snd <$> t)) as Et.
  { assert (Forall (λ x, x = scored_of query x.2) (t ++ rest)) as F by (rewrite <- Ep; apply Forall_fmap, Forall_true; done). apply Forall_app in F as [F _].
    clear -F. induction F as [|x t E _ IH]; [done|]. cbn. by rewrite <- E, <- IH. }
  destruct (sub_selection query ((scored_of query <$> sel) ++ t) (sel ++ (snd <$> t))) as [S1 S2].
  - apply Forall_app in Hlt as [? Hlt]. apply Forall_app. split; [done|]. rewrite <- Eamb in Hlt. by apply Forall_app in Hlt as [? _].
  - rewrite <- Eamb, app_assoc in Hnd. by apply NoDup_app in Hnd as [? _].
  - rewrite fmap_app. by rewrite <- Et.
  - eexists. split; [done|]. split_and!; [apply strongly_sorted|done|done|]. rewrite merge_sort_Permutation, length_app, length_fmap, Lt. lia.
Qed.

(** *** Tiles of queries *)

Lemma key_zero : f32_key 0 = 0.
Proof. done. Qed.
Lemma positive_pattern x : u32 x → f32_is_finite x = true → 0 < f32_key x → nonneg x.
Proof.
  intros Hu Hf Hk. destruct (f32_key_mag x Hu) as [E B]. unfold f32_is_finite in Hf. apply Z.ltb_lt in Hf. unfold f32_key in *. destruct (f32_neg x); [lia|].
  unfold nonneg. lia.
Qed.
Lemma clamped_ok x : u32 x → f32_is_finite x = true → nonneg (f32_max x 0) ∧ f32_is_finite (f32_max x 0) = true.
Proof.
  intros Hu Hf. unfold f32_max. rewrite f32_finite_not_nan by done. assert (f32_is_nan 0 = false) as -> by done. destruct (f32_lt 0 x) eqn:E; [|by vm_compute].
  split; [|done]. apply positive_pattern; [done|done|]. unfold f32_lt in E. apply andb_true_iff in E as [_ E]. rewrite key_zero in E. by apply Z.ltb_lt in E.
Qed.
Lemma imap_index {A} (f : nat → A → scored) (l : list A) : (∀ i a, (f i a).2 = i) → snd <$> imap f l = seq 0 (length l).
Proof.
  intros Hf. apply list_eq. intros i. rewrite list_lookup_fmap, list_lookup_imap. destruct (l !! i) eqn:E; cbn.
  - rewrite Hf. apply lookup_lt_Some in E. by rewrite lookup_seq_lt.
  - apply lookup_ge_None in E. by rewrite lookup_seq_ge.
Qed.

Context (norms : list Z) (Hnl : length norms = k) (Hnorms : Forall nonneg norms).

Lemma max_norm_nonneg : nonneg (foldl f32_max 0 norms).
Proof.
  assert (∀ l z, Forall nonneg l → nonneg z → nonneg (foldl f32_max z l)) as Hf; [|by apply Hf].
  intros l z Hl. revert z. induction Hl as [|x l Hx _ IH]; intros z Hz; cbn [foldl]; [exact Hz|]. apply IH. unfold f32_max.
  destruct (f32_is_nan z); [exact Hx|]. destruct (f32_is_nan x); [exact Hz|]. destruct (f32_lt x z); [exact Hz|exact Hx].
Qed.

Lemma tile_query_ok tile_queries query query_norm products n tile_n : length tile_queries = (tile_n * d)%nat → (query < tile_n)%nat →
  semi query_norm → length products = k → Forall u32 products → (0 < n ≤ k)%nat →
  ∃ l, tile_query arch centroids norms k d n (foldl f32_max 0 norms) tile_queries query query_norm products = Ok l ∧
    selection n (slice (query * d) d tile_queries) l.
Proof.
  intros Hl Hlt Hqn Hpl Hpu Hn. pose proof max_norm_nonneg as Hmax. set (m := foldl f32_max 0 norms) in *. unfold tile_query.
  assert (query * d + d ≤ length tile_queries)%nat by nia. rewrite (proj2 (get_slice_Some _ _ _ _)) by done. cbn [expect mbind io_result_bind].
  set (q := slice (query * d) d tile_queries). assert (length q = d) as Hq by (unfold q, slice; rewrite length_take, length_drop; lia).
  assert (∃ l, find_topk arch q centroids k d n = Ok l ∧ selection n q l) as Hdirect by (exists (nearest n q); split; [by apply find_topk_ok|apply nearest_selection]).
  destruct (f32_is_finite query_norm) eqn:Hf; cbn [negb]; [|exact Hdirect]. pose proof (semi_finite _ Hqn Hf) as Hqn'.
  destruct (forallb f32_is_finite _) eqn:Hall; [|exact Hdirect].
  apply refine_selects; [done|done| | |].
  - apply error_bound_semi. apply semi_add; [apply semi_add; by left|]. apply semi_mul; [left; by vm_compute|].
    destruct (semi_mul query_norm m) as [Hs| ->]; [by left|by left|left; by apply semi_sqrt|right; by vm_compute].
  - rewrite imap_index by done. f_equal. rewrite length_zip_with. lia.
  - apply Forall_forall. intros x Hx. apply list_elem_of_lookup in Hx as [i Hi]. rewrite list_lookup_imap in Hi.
    destruct (zip_with (approximate_distance query_norm) norms products !! i) as [dist|] eqn:E; [|done]. injection Hi as <-. cbn [fst].
    apply clamped_ok.
    + apply lookup_zip_with_Some in E as (a & b & -> & Ha & Hb). unfold approximate_distance, f32_sub.
      pose proof (f32_mul_u32 F32_TWO b) as Hu. destruct (f32_negate_spec _ Hu) as (_ & _ & Hu').
      destruct (nonneg_fields _ Hqn') as (_ & _ & _ & U1 & _). destruct (nonneg_fields a) as (_ & _ & _ & U2 & _); [by eapply Forall_lookup_1 in Ha|].
      apply f32_add_u32; [by apply f32_add_u32|done].
    + rewrite forallb_forall in Hall. apply Hall. apply list_elem_of_In. by eapply list_elem_of_lookup_2.
Qed.

(** The matrix product fills the output it is given with [f32] numbers. *)
Context (Hsgemm : ∀ m n k alpha a b beta c, length (sgemm m n k alpha a b beta c) = length c ∧ Forall u32 (sgemm m n k alpha a b beta c)).
Context (queries : list Z) (nq : nat) (Hqueries : length queries = (nq * d)%nat).
Context (Hkd : Z.of_nat k * Z.of_nat d < 2 ^ 63) (Hqd : Z.of_nat nq * Z.of_nat d < 2 ^ 63).

Definition query_at (qi : nat) : list Z := slice (qi * d) d queries.

Lemma tile_ok n tile_rows start : (0 < n ≤ k)%nat → (2 ≤ k)%nat → Z.of_nat k <= MAX_MATRIX_ELEMS → tile_rows = Z.max (MAX_MATRIX_ELEMS / Z.of_nat k) 1 → (start < nq)%nat →
  ∃ ls, tile arch sgemm queries nq centroids norms k d n tile_rows (foldl f32_max 0 norms) start = Ok ls ∧
    Forall2 (λ qi l, selection n (query_at qi) l) (seq start (Z.to_nat tile_rows `min` (nq - start))) ls.
Proof.
  intros Hn Hk2 Hkm Htr Hst. assert (1 <= tile_rows) as Htr1 by lia. assert (tile_rows * Z.of_nat k <= MAX_MATRIX_ELEMS) as Htk.
  { pose proof (Z.mul_div_le MAX_MATRIX_ELEMS (Z.of_nat k) ltac:(lia)). assert (1 <= MAX_MATRIX_ELEMS / Z.of_nat k) by (apply Z.div_le_lower_bound; lia). nia. }
  unfold tile. replace (Z.to_nat (Z.min tile_rows (Z.of_nat nq - Z.of_nat start))) with (Z.to_nat tile_rows `min` (nq - start))%nat by lia.
  set (tn := (Z.to_nat tile_rows `min` (nq - start))%nat). assert (0 < tn ≤ nq - start)%nat as Htn by lia. assert (Z.of_nat tn <= tile_rows) as Htn' by lia. clearbody tn.
  assert (start * d + tn * d ≤ length queries)%nat by nia. rewrite (proj2 (get_slice_Some _ _ _ _)) by done. cbn [expect mbind io_result_bind].
  set (tq := slice (start * d) (tn * d) queries). assert (length tq = (tn * d)%nat) as Htq by (unfold tq, slice; rewrite length_take, length_drop; lia).
  assert (∀ i, (i < tn)%nat → slice (i * d) d tq = query_at (start + i)) as Hsl.
  { intros i Hi. unfold tq, query_at, slice.  apply list_eq. intros j. destruct (decide (j < d)%nat).
    - rewrite !lookup_take_lt, !lookup_drop, lookup_take_lt, lookup_drop by nia. f_equal. lia.
    - rewrite !lookup_take_ge by lia. done. }
  rewrite (proj2 (try_map_Ok _ _ ((λ i, fvec_norm_l2sqr arch (query_at (start + i))) <$> seq 0 tn))).
  2: { apply Forall2_fmap_r, Forall_Forall2_diag, Forall_seq. intros i Hi. assert (i * d + d ≤ length tq)%nat by nia. rewrite (proj2 (get_slice_Some _ _ _ _)) by done.
       cbn. by rewrite Hsl by lia. }
  cbn [mbind io_result_bind]. unfold sgemm_a_bt. assert (Z.of_nat d <= Z.of_nat k * Z.of_nat d) by nia. assert (Z.of_nat k < 2 ^ 63) by (unfold MAX_MATRIX_ELEMS in Hkm; lia).
  assert (Z.of_nat tn * Z.of_nat d <= Z.of_nat nq * Z.of_nat d) by nia. assert (Z.of_nat tn * Z.of_nat k <= MAX_MATRIX_ELEMS) by nia.
  rewrite !(proj2 (Z.ltb_lt _ _)) by lia. cbn [andb mbind io_result_bind].
  rewrite (proj2 (checked_mul_Some 64 (Z.of_nat tn) (Z.of_nat d) _)) by (split; [done|lia]). rewrite (proj2 (checked_mul_Some 64 (Z.of_nat k) (Z.of_nat d) _)) by (split; [done|lia]).
  rewrite (proj2 (checked_mul_Some 64 (Z.of_nat tn) (Z.of_nat k) _)) by (split; [done|unfold MAX_MATRIX_ELEMS in *; lia]). cbn [expect mbind io_result_bind].
  unfold zlen. rewrite Htq, Hc, length_replicate, !(proj2 (Z.leb_le _ _)) by lia. cbn [andb mbind io_result_bind].
  destruct (Hsgemm tn k d F32_ONE tq centroids 0 (replicate (tn * k) 0)) as [Lp Up]. rewrite length_replicate in Lp. set (products := sgemm _ _ _ _ _ _ _ _) in *. clearbody products.
  destruct (concat_split k tn products Lp) as (rows & -> & Hrows & Lrows). rewrite chunks_exact_concat by (done || lia).
  destruct (try_map_total (λ '(query, (query_norm, row)), tile_query arch centroids norms k d n (foldl f32_max 0 norms) tq query query_norm row)
    (λ e l, selection n (query_at (start + e.1)) l) (imap pair (zip ((λ i, fvec_norm_l2sqr arch (query_at (start + i))) <$> seq 0 tn) rows))) as (ls & -> & F).
  { intros [i [qn row]] Hin. apply list_elem_of_lookup in Hin as [j Hj]. rewrite list_lookup_imap in Hj. destruct (zip _ rows !! j) as [[qn' row']|] eqn:E; [|done]. injection Hj as -> -> ->.
    apply lookup_zip_with_Some in E as (a & b & [= -> ->] & Ha & Hb). rewrite list_lookup_fmap in Ha. pose proof (lookup_lt_Some _ _ _ Hb).
    destruct (seq 0 tn !! i) as [i'|] eqn:Ei; [|done]. apply lookup_seq in Ei as [Ei Hi]. cbn in Ha, Ei. injection Ha as <-. subst i'.
    cbn [fst]. rewrite <- Hsl by lia. apply (tile_query_ok tq i _ b n tn); [done|lia|apply norm_semi|exact (Forall_lookup_1 _ _ _ _ Hrows Hb)| |done].
    apply Forall_concat in Up. exact (Forall_lookup_1 _ _ _ _ Up Hb). }
  exists ls. split; [done|]. clear -F Lrows. assert (length (zip ((λ i, fvec_norm_l2sqr arch (query_at (start + i))) <$> seq 0 tn) rows) = tn) as L by (rewrite length_zip, length_fmap, length_seq; lia).
  apply Forall2_same_length_lookup_2.
  - apply Forall2_length in F. rewrite length_imap in F. rewrite length_seq. lia.
  - intros i qi l Hi Hl. apply lookup_seq in Hi as [-> Hi]. destruct (lookup_lt_is_Some_2 (zip ((λ i, fvec_norm_l2sqr arch (query_at (start + i))) <$> seq 0 tn) rows) i) as [e He]; [lia|].
    apply (Forall2_lookup_lr _ _ _ i (i, e) l) in F; [done| |done]. by rewrite list_lookup_imap, He.
Qed.
End Spec.

(** *** All tiles *)

Lemma query_at_ok d queries nq qi : length queries = (nq * d)%nat → (qi < nq)%nat →
  expect (get_slice (qi * d) d queries) = Ok (query_at d queries qi) ∧ length (query_at d queries qi) = d.
Proof.
  intros Hl Hlt. assert (qi * d + d ≤ length queries)%nat by nia. rewrite (proj2 (get_slice_Some _ _ _ _)) by done. split; [done|].
  unfold query_at, slice. rewrite length_take, length_drop. lia.
Qed.

Lemma tiles_cover t nq n : (0 < t)%nat → concat ((λ i, seq (i * t) (t `min` (nq - i * t))) <$> seq 0 n) = seq 0 ((n * t) `min` nq).
Proof.
  intros Ht. induction n as [|n IH]; [done|]. rewrite seq_S, fmap_app, concat_app, IH. cbn [fmap list_fmap concat]. rewrite app_nil_r, Nat.add_0_l.
  destruct (decide (n * t ≤ nq)%nat).
  - rewrite (Nat.min_l (n * t) nq) by lia. rewrite <- (Nat.add_0_l (n * t)) at 2. rewrite <- seq_app. f_equal. lia.
  - replace (nq - n * t)%nat with 0%nat by lia. rewrite Nat.min_0_r, app_nil_r. f_equal. lia.
Qed.
Lemma Forall2_concat_tiles {A B} (P : A → B → Prop) ls ks : Forall2 (Forall2 P) ls ks → Forall2 P (concat ls) (concat ks).
Proof. induction 1; [constructor|]. cbn. by apply Forall2_app. Qed.

Section Batch.
Context (arch : Arch) (sgemm : nat → nat → nat → Z → list Z → list Z → Z → list Z → list Z).
Context (Hsgemm : ∀ m n k alpha a b beta c, length (sgemm m n k alpha a b beta c) = length c ∧ Forall u32 (sgemm m n k alpha a b beta c)).
Context (centroids : list Z) (k d : nat) (Hc : length centroids = (k * d)%nat) (Hkd : Z.of_nat k * Z.of_nat d < 2 ^ 63).
Context (queries : list Z) (nq : nat) (Hqueries : length queries = (nq * d)%nat) (Hqd : Z.of_nat nq * Z.of_nat d < 2 ^ 63).

(** What a query probes: at most [nprobe] centroids, the nearest ones when they
    are computed directly. *)
Definition probes (nprobe qi : nat) (l : list scored) : Prop :=
  selection arch centroids k d nprobe (query_at d queries qi) l ∧ ((nq = 1 ∨ k ≤ nprobe)%nat → l = nearest arch centroids k d nprobe (query_at d queries qi)).

Lemma nearest_clip nprobe point : nearest arch centroids k d (nprobe `min` k) point = nearest arch centroids k d nprobe point.
Proof.
  unfold nearest, top. destruct (decide (nprobe ≤ k)%nat); [by rewrite Nat.min_l|].
  rewrite Nat.min_r, !take_ge by (rewrite ?merge_sort_Permutation, ?length_fmap, ?length_seq; lia). done.
Qed.
Lemma selection_clip nprobe point l : selection arch centroids k d (nprobe `min` k) point l → selection arch centroids k d nprobe point l.
Proof. intros (H1 & H2 & H3 & H4). split_and!; [done|done|done|lia]. Qed.

Lemma batch_norms_ok norms nprobe : length norms = k → Forall semi norms →
  ∃ ls, find_topk_batch_with_centroid_norms arch sgemm queries nq centroids norms k d nprobe = Ok ls ∧ Forall2 (probes nprobe) (seq 0 nq) ls.
Proof.
  intros Hnl Hsemi. unfold find_topk_batch_with_centroid_norms. set (n := (nprobe `min` k)%nat). destruct (Nat.eqb_spec n 0) as [E0|E0].
  { exists (replicate nq []). split; [done|]. assert (∀ p, nearest arch centroids k d nprobe p = []) as En.
    { intros p. rewrite <- nearest_clip. fold n. rewrite E0. done. }
    apply Forall2_same_length_lookup_2; [by rewrite length_seq, length_replicate|]. intros i qi l _ Hl. apply lookup_replicate in Hl as [-> _].
    split; [|by rewrite En]. rewrite <- (En (query_at d queries qi)). by apply nearest_selection. }
  assert (∀ qi, (qi < nq)%nat → probes nprobe qi (nearest arch centroids k d n (query_at d queries qi))) as Hdirect.
  { intros qi Hq. unfold n. rewrite nearest_clip. split; [by apply nearest_selection|done]. }
  destruct ((nq =? 1)%nat || (n =? k)%nat || (MAX_MATRIX_ELEMS <? Z.of_nat k) || existsb _ norms) eqn:Eg.
  { apply try_map_total. intros qi Hq. apply elem_of_seq in Hq. destruct (query_at_ok d queries nq qi Hqueries ltac:(lia)) as [E L]. rewrite E. cbn [mbind io_result_bind].
    rewrite (find_topk_ok arch centroids k d Hc) by done. eexists. split; [done|]. apply Hdirect. lia. }
  apply orb_false_iff in Eg as [[[E1%Nat.eqb_neq E2%Nat.eqb_neq]%orb_false_iff E3%Z.ltb_ge]%orb_false_iff E4].
  assert (Forall nonneg norms) as Hnn.
  { apply Forall_forall. intros x Hx. rewrite Forall_forall in Hsemi. apply semi_finite; [by apply Hsemi|]. destruct (f32_is_finite x) eqn:Hf; [done|exfalso].
    assert (existsb (λ norm, negb (f32_is_finite norm) || f32_lt norm 0) norms = true) as Et; [|by rewrite E4 in Et]. apply existsb_exists. exists x.
    split; [by apply list_elem_of_In|by rewrite Hf]. }
  set (t := Z.max (MAX_MATRIX_ELEMS / Z.of_nat k) 1). assert (1 <= t) as Ht by lia. set (nt := Z.to_nat (div_ceil (Z.of_nat nq) t)).
  assert (nq ≤ nt * Z.to_nat t)%nat as Hcover.
  { unfold nt, div_ceil. pose proof (Z.div_mod (Z.of_nat nq + t - 1) t ltac:(lia)) as D. pose proof (Z.mod_pos_bound (Z.of_nat nq + t - 1) t ltac:(lia)).
    assert (0 <= (Z.of_nat nq + t - 1) / t) by (apply Z.div_pos; lia). nia. }
  assert (∀ i, (i < nt)%nat → (i * Z.to_nat t < nq)%nat) as Hstart.
  { intros i Hi. unfold nt, div_ceil in Hi. assert (Z.of_nat i + 1 <= (Z.of_nat nq + t - 1) / t) as Hle by lia. pose proof (Z.mul_div_le (Z.of_nat nq + t - 1) t ltac:(lia)). nia. }
  destruct (try_map_total (tile arch sgemm queries nq centroids norms k d n t (foldl f32_max 0 norms))
    (λ start ls, Forall2 (probes nprobe) (seq start (Z.to_nat t `min` (nq - start))) ls) ((λ i, Z.to_nat (Z.of_nat i * t)) <$> seq 0 nt)) as (tiles & -> & F).
  { intros start Hin. apply list_elem_of_fmap in Hin as (i & -> & Hi). apply elem_of_seq in Hi. replace (Z.to_nat (Z.of_nat i * t)) with (i * Z.to_nat t)%nat by lia.
    destruct (tile_ok arch sgemm centroids k d Hc norms Hnl Hnn Hsgemm queries nq Hqueries Hkd Hqd n t (i * Z.to_nat t)) as (ls & E & F); [lia|lia|lia|done|apply Hstart; lia|].
    exists ls. split; [done|]. eapply Forall2_impl; [exact F|]. intros qi l Hs. split; [by apply selection_clip|lia]. }
  cbn [mbind io_result_bind]. exists (concat tiles). split; [done|].
  replace (seq 0 nq) with (concat ((λ i, seq (i * Z.to_nat t) (Z.to_nat t `min` (nq - i * Z.to_nat t))) <$> seq 0 nt)).
  2: { rewrite tiles_cover by lia. f_equal. lia. }
  apply Forall2_concat_tiles, Forall2_fmap_l. apply (proj1 (Forall2_fmap_l _ _ _ _)) in F. eapply Forall2_impl; [exact F|]. cbn. intros i ls Hls.
  by replace (i * Z.to_nat t)%nat with (Z.to_nat (Z.of_nat i * t)) by lia.
Qed.

Lemma find_topk_batch_ok nprobe :
  ∃ ls, find_topk_batch arch sgemm queries nq centroids k d nprobe = Ok ls ∧ Forall2 (probes nprobe) (seq 0 nq) ls.
Proof.
  unfold find_topk_batch. rewrite (proj2 (try_map_Ok _ _ ((λ c, fvec_norm_l2sqr arch (slice (c * d) d centroids)) <$> seq 0 k))).
  2: { apply Forall2_fmap_r, Forall_Forall2_diag, Forall_seq. intros c Hlt. destruct (centroid_at_ok centroids k d Hc c ltac:(lia)) as [-> _]. done. }
  cbn [mbind io_result_bind]. apply batch_norms_ok; [by rewrite length_fmap, length_seq|]. apply Forall_fmap, Forall_true. intros c. apply norm_semi.
Qed.
End Batch.

(** ** The selections of the source *)

(** C15: Selecting in a stream is selecting from all.  [find_topk] returns the nearest
    centroids by distance and then index, although it computes distances four at
    a time.  [find_topk_checked], which never holds more than twice as many
    candidates as asked for and drops whatever passes its cutoff, returns the
    same selection when every distance is finite, and otherwise reports the first
    centroid whose distance is not. *)
Theorem streaming_selection_exact (arch : Arch) (point centroids : list Z) (k d nprobe : nat) :
  length point = d → length centroids = (k * d)%nat → (0 < nprobe)%nat → (0 < k)%nat →
  let scored_all := (λ c, (fvec_l2sqr_simd arch point (slice (c * d) d centroids), c)) <$> seq 0 k in
  ∃ l, find_topk arch point centroids k d nprobe = Ok l ∧ l = take nprobe (merge_sort compare_le scored_all) ∧
    find_topk_checked arch point centroids k d nprobe =
      Ok (match head (filter (λ x, f32_is_finite x.1 = false) scored_all) with Some bad => inr bad.2 | None => inl l end).
Proof.
  intros Hp Hc Hn Hk scored_all. exists (nearest arch centroids k d nprobe point). split_and!; [by apply find_topk_ok|done|].
  rewrite (find_topk_checked_ok arch centroids k d Hc) by done. rewrite (proj2 (Nat.eqb_neq _ _)) by lia. f_equal. unfold bad_centroid, scored_all.
  clear. induction (seq 0 k) as [|c l IH]; [done|]. rewrite fmap_cons, !filter_cons. cbn [fst]. fold (dist_of arch centroids d point c).
  destruct (f32_is_finite (dist_of arch centroids d point c)); [rewrite !decide_False by done; exact IH|by rewrite !decide_True].
Qed.

(** Six centroids on a line, the point at the origin. *)
Definition demo_centroids : list Z := [0x40a00000; 0x3f800000; 0x40400000; 0x40800000; 0x3f800000; 0x40000000].
Lemma streaming_selection_exact_witness :
  ∃ l, find_topk Aarch64 [0] demo_centroids 6 1 2 = Ok l ∧
    l = take 2 (merge_sort compare_le ((λ c, (fvec_l2sqr_simd Aarch64 [0] (slice (c * 1) 1 demo_centroids), c)) <$> seq 0 6)) ∧
    find_topk_checked Aarch64 [0] demo_centroids 6 1 2 =
      Ok (match head (filter (λ x : Z * nat, f32_is_finite x.1 = false) ((λ c, (fvec_l2sqr_simd Aarch64 [0] (slice (c * 1) 1 demo_centroids), c)) <$> seq 0 6)) with
          | Some bad => inr bad.2 | None => inl l end).
Proof. exact (streaming_selection_exact Aarch64 [0] demo_centroids 6 1 2 eq_refl eq_refl ltac:(lia) ltac:(lia)). Defined.
Example streaming_selection_value : find_topk_checked Aarch64 [0] demo_centroids 6 1 2 = Ok (inl [(0x3f800000, 1%nat); (0x3f800000, 4%nat)]).
Proof. vm_compute. reflexivity. Qed.


(** The product of a column and a row, for one dimension. *)
Definition demo_sgemm (m n k : nat) (alpha : Z) (a b : list Z) (beta : Z) (c : list Z) : list Z :=
  take (length c) (concat ((λ x, f32_mul x <$> b) <$> a) ++ replicate (length c) 0).
Example batch_selection_value :
  find_topk_batch Aarch64 demo_sgemm [0; 0x40400000] 2 demo_centroids 6 1 2 =
    Ok [[(0x3f800000, 1%nat); (0x3f800000, 4%nat)]; [(0, 2%nat); (0x3f800000, 3%nat)]].
Proof. vm_compute. reflexivity. Qed.
