(* ===== verification/Range.v ===== *)
(** Distance range search: [core/src/range.rs].

    Half-open bands of raw distances, the cuts that public endpoint predicates
    reduce to, and the CSR result with its per-query statistics. *)

From S2P Require Import Prelude F32 F64 DiskannHeader.

(** ** Bands *)

Inductive Bound := Unbounded | Finite (value : Z).
Record DistanceBand := Band { band_lower : Bound; band_upper : Bound; band_metric : MetricType }.

Definition F32_MAX : Z := 0x7f7fffff.

(** One turn of the [for] over the two cuts. *)
Definition check_cut (metric : MetricType) (bound : Bound) : io_result unit :=
  match bound with
  | Unbounded => Ok ()
  | Finite value =>
      _ ← ensure_input (f32_is_finite value) "{side} cut is not finite: {value}";
      ensure_input (negb (bool_decide (metric = L2) && f32_lt value 0)) "{side} cut must be non-negative for squared-L2: {value}"
  end.
Definition from_raw (lower upper : Bound) (metric : MetricType) : io_result DistanceBand :=
  _ ← check_cut metric lower;
  _ ← check_cut metric upper;
  _ ← match lower, upper with
      | Finite low, Finite high => ensure_input (negb (f32_gt low high)) "inverted band: [{low}, {high})"
      | _, _ => Ok ()
      end;
  Ok (Band lower upper metric).

Definition band_is_empty (b : DistanceBand) : bool :=
  match band_lower b, band_upper b with Finite low, Finite high => f32_ge low high | _, _ => false end.

Definition admit_raw (b : DistanceBand) (value : Z) : bool :=
  if negb (f32_is_finite value) then false
  else
    let above_lower := match band_lower b with Unbounded => true | Finite low => f32_ge value low end in
    let below_upper := match band_upper b with Unbounded => true | Finite high => f32_lt value high end in
    above_lower && below_upper.

(** ** Cuts of public endpoints *)

Inductive CutOperator := Ge | Gt | Le | Lt.
#[export] Instance CutOperator_eq_dec : EqDecision CutOperator.
Proof. solve_decision. Defined.
Record DistanceEndpoint := Endpoint { ep_value : Z; ep_op : CutOperator }.

(** [MetricType::public_distance] *)
Definition public_distance (metric : MetricType) (distance : Z) : Z :=
  f64_from_f32 (match metric with L2 => f32_sqrt distance | Cosine => distance | InnerProduct => f32_negate distance end).
Definition l2_public_value (stored_bits : Z) : Z := public_distance L2 stored_bits.

Definition ordered_value (key : Z) : Z :=
  if negb (Z.land key 0x80000000 =? 0) then Z.lxor key 0x80000000 else 2 ^ 32 - 1 - key.

(** [while low < high { .. }]; the interval has fewer than [2^32] values and
    every turn halves it. *)
Fixpoint cut_search (admits : Z → bool) (fuel : nat) (low high : Z) : Z :=
  match fuel with
  | O => low
  | S fuel =>
      if low <? high then
        let middle := low + (high - low) / 2 in
        if admits middle then cut_search admits fuel low middle else cut_search admits fuel (middle + 1) high
      else low
  end.
Definition CUT_ROUNDS : nat := 33.

Definition first_linear_cut (endpoint : DistanceEndpoint) : option Z :=
  let admits key :=
    let value := f64_from_f32 (ordered_value key) in
    match ep_op endpoint with Ge | Lt => f64_ge value (ep_value endpoint) | Gt | Le => f64_gt value (ep_value endpoint) end in
  let low := 0x00800000 in
  let high := 0xff7fffff in
  if negb (admits high) then None else Some (ordered_value (cut_search admits CUT_ROUNDS low high)).

Definition first_ge (endpoint : Z) : option Z :=
  if f64_lt (l2_public_value F32_MAX) endpoint then None
  else Some (cut_search (λ mid, f64_ge (l2_public_value mid) endpoint) CUT_ROUNDS 0 F32_MAX).
Definition first_gt (endpoint : Z) : option Z :=
  if f64_le (l2_public_value F32_MAX) endpoint then None
  else Some (cut_search (λ mid, f64_gt (l2_public_value mid) endpoint) CUT_ROUNDS 0 F32_MAX).

Definition reverse_op (op : CutOperator) : CutOperator := match op with Ge => Le | Gt => Lt | Le => Ge | Lt => Gt end.
Definition reverse_endpoint (e : DistanceEndpoint) : DistanceEndpoint := Endpoint (f64_negate (ep_value e)) (reverse_op (ep_op e)).

(** The cut finder of each side; a mismatched operator is refused. *)
Definition lower_finder (lower : option DistanceEndpoint) : io_result (option (Z * (Z → option Z))) :=
  match lower with
  | None => Ok None
  | Some ep =>
      match ep_op ep with
      | Ge => Ok (Some (ep_value ep, first_ge))
      | Gt => Ok (Some (ep_value ep, first_gt))
      | Le | Lt => invalid_input "lower endpoint accepts Ge or Gt, got {:?}"
      end
  end.
Definition upper_finder (upper : option DistanceEndpoint) : io_result (option (Z * (Z → option Z))) :=
  match upper with
  | None => Ok None
  | Some ep =>
      match ep_op ep with
      | Lt => Ok (Some (ep_value ep, first_ge))
      | Le => Ok (Some (ep_value ep, first_gt))
      | Ge | Gt => invalid_input "upper endpoint accepts Le or Lt, got {:?}"
      end
  end.

Definition resolve (side : option (Z * (Z → option Z))) : io_result Bound :=
  match side with
  | None => Ok Unbounded
  | Some (value, find) =>
      bits ← ok_or (find value) (IoError Unsupported "endpoint {value} has no representable cut; do not push this predicate down");
      Ok (Finite bits)
  end.

(** The part of [from_endpoints] for the metrics that are linear in the raw
    distance: the band between two raw endpoints, then the endpoints of the
    metric. *)
Definition cuts_band (lower upper : option DistanceEndpoint) (metric : MetricType) : io_result DistanceBand :=
  let lower_cut := first_linear_cut <$> lower in
  let upper_cut := upper ≫= first_linear_cut in
  if (match lower_cut with Some None => true | _ => false end)
     || (match upper_cut with Some cut => f32_eq cut (f32_negate F32_MAX) | None => false end)
     || (match lower_cut, upper_cut with Some (Some low), Some high => f32_gt low high | _, _ => false end)
  then from_raw (Finite 0) (Finite 0) metric
  else from_raw (match lower_cut with Some (Some low) => Finite low | _ => Unbounded end)
         (match upper_cut with Some high => Finite high | None => Unbounded end) metric.
Definition linear_band (lower upper : option DistanceEndpoint) (metric : MetricType) : io_result DistanceBand :=
  _ ← ensure_input (negb (match lower, upper with
                          | Some low, Some high => f64_gt (ep_value low) (ep_value high)
                          | _, _ => false
                          end)) "inverted public band";
  if bool_decide (metric = InnerProduct) then cuts_band (reverse_endpoint <$> upper) (reverse_endpoint <$> lower) metric
  else cuts_band lower upper metric.

Definition check_endpoint (e : option DistanceEndpoint) : io_result unit :=
  match e with Some ep => ensure_input (f64_is_finite (ep_value ep)) "endpoint is not finite: {}" | None => Ok () end.
Definition from_endpoints (lower upper : option DistanceEndpoint) (metric : MetricType) : io_result DistanceBand :=
  _ ← check_endpoint lower;
  _ ← check_endpoint upper;
  lower_find ← lower_finder lower;
  upper_find ← upper_finder upper;
  if negb (bool_decide (metric = L2)) then linear_band lower upper metric
  else
    lower_bound ← resolve lower_find;
    upper_bound ← resolve upper_find;
    from_raw lower_bound upper_bound metric.

(** ** Results *)

Record RangeSearchStats := Stats { lists_probed : Z; rows_scanned : Z; rows_committed : Z; early_abandoned : Z }.
Definition stats_default : RangeSearchStats := Stats 0 0 0 0.
Record RangeSearchResult := RangeResult {
  lims : list nat; labels : list Z; raw_distances : list Z; result_stats : list RangeSearchStats; list_reads : Z;
}.
Record RangeResultBuilder := Builder { b_rows : list (list (Z * Z)); b_stats : list RangeSearchStats; b_list_reads : Z }.

Definition builder_new (nq : nat) : RangeResultBuilder := Builder (replicate nq []) (replicate nq stats_default) 0.

(** [self.stats[query]] panics out of range; no such call exists in the readers. *)
Definition update_stats (b : RangeResultBuilder) (query : nat) (f : RangeSearchStats → RangeSearchStats) : io_result RangeResultBuilder :=
  st ← expect (b_stats b !! query);
  Ok (Builder (b_rows b) (<[query := f st]> (b_stats b)) (b_list_reads b)).
Definition take_rows (b : RangeResultBuilder) (query : nat) (rows : list (Z * Z)) : io_result RangeResultBuilder :=
  b ← update_stats b query (λ st, Stats (lists_probed st) (rows_scanned st) (rows_committed st + zlen rows) (early_abandoned st));
  old ← expect (b_rows b !! query);
  Ok (Builder (<[query := match old with [] => rows | _ => old ++ rows end]> (b_rows b)) (b_stats b) (b_list_reads b)).
Definition record_list_read (b : RangeResultBuilder) : RangeResultBuilder := Builder (b_rows b) (b_stats b) (b_list_reads b + 1).
Definition record_scanned (b : RangeResultBuilder) (query : nat) (rows : Z) : io_result RangeResultBuilder :=
  update_stats b query (λ st, Stats (lists_probed st) (rows_scanned st + rows) (rows_committed st) (early_abandoned st)).
Definition record_early_abandoned (b : RangeResultBuilder) (query : nat) (rows : Z) : io_result RangeResultBuilder :=
  update_stats b query (λ st, Stats (lists_probed st) (rows_scanned st) (rows_committed st) (early_abandoned st + rows)).
Definition record_lists_probed (b : RangeResultBuilder) (query : nat) (lists : Z) : io_result RangeResultBuilder :=
  update_stats b query (λ st, Stats (lists_probed st + lists) (rows_scanned st) (rows_committed st) (early_abandoned st)).

(** [build]: the rows of all queries one after the other, with the limits. *)
Definition build_step (acc : list nat * list Z * list Z) (query_rows : list (Z * Z)) : list nat * list Z * list Z :=
  let '(lims, labels, raw_distances) := acc in
  let labels := labels ++ (fst <$> query_rows) in
  (lims ++ [length labels], labels, raw_distances ++ (snd <$> query_rows)).
Definition builder_build (b : RangeResultBuilder) : RangeSearchResult :=
  let '(lims, labels, raw_distances) := foldl build_step ([0%nat], [], []) (b_rows b) in
  RangeResult lims labels raw_distances (b_stats b) (b_list_reads b).

(** [query(i)]: the labels and distances of one query. *)
Definition query_count (r : RangeSearchResult) : nat := length (lims r) - 1.
Definition query_rows (r : RangeSearchResult) (i : nat) : io_result (list Z * list Z * RangeSearchStats) :=
  start ← expect (lims r !! i);
  stop ← expect (lims r !! S i);
  _ ← (if (start <=? stop)%nat then Ok () else Panic);
  ls ← expect (get_slice start (stop - start) (labels r));
  ds ← expect (get_slice start (stop - start) (raw_distances r));
  st ← expect (result_stats r !! i);
  Ok (ls, ds, st).

Record VectorRangeSearchParams := RangeParams { rp_band : DistanceBand; rp_nprobe : Z }.
Definition validate_shape (p : VectorRangeSearchParams) : io_result unit :=
  ensure_input (negb (rp_nprobe p =? 0)) "range search nprobe must be greater than 0".
Definition validate_params (p : VectorRangeSearchParams) (nlist : Z) : io_result Z :=
  _ ← validate_shape p; Ok (Z.min (rp_nprobe p) nlist).

(** ** The cuts are exact *)

Lemma cut_search_spec admits fuel low high :
  low <= high → high - low < 2 ^ Z.of_nat fuel → admits high = true →
  (∀ x y, low <= x → x <= y → y <= high → admits x = true → admits y = true) →
  low <= cut_search admits fuel low high <= high ∧
  ∀ x, low <= x <= high → admits x = (cut_search admits fuel low high <=? x).
Proof.
  revert low high. induction fuel as [|fuel IH]; intros low high Hl Hf Hh Hm; cbn [cut_search].
  - change (2 ^ Z.of_nat 0) with 1 in Hf. assert (low = high) as <- by lia. split; [lia|]. intros x Hx.
    assert (x = low) as -> by lia. rewrite Hh. lia.
  - rewrite Nat2Z.inj_succ, Z.pow_succ_r in Hf by lia. destruct (Z.ltb_spec low high).
    + pose proof (Z.div_mod (high - low) 2 ltac:(lia)). pose proof (Z.mod_pos_bound (high - low) 2 ltac:(lia)).
      set (middle := low + (high - low) / 2) in *. destruct (admits middle) eqn:Em.
      * destruct (IH low middle) as [B S]; [lia|lia|done|intros; eapply Hm; [| | |done]; lia|]. split; [lia|]. intros x Hx.
        destruct (decide (x <= middle)); [apply S; lia|]. rewrite (Hm middle x); [|lia|lia|lia|done]. lia.
      * destruct (IH (middle + 1) high) as [B S]; [lia|lia|done|intros; eapply Hm; [| | |done]; lia|]. split; [lia|]. intros x Hx.
        destruct (decide (middle < x)); [apply S; lia|]. destruct (admits x) eqn:Ex; [|lia].
        rewrite (Hm x middle) in Em; [done|lia|lia|lia|done].
    + assert (low = high) as <- by lia. split; [lia|]. intros x Hx. assert (x = low) as -> by lia. rewrite Hh. lia.
Qed.

(** Keys of finite numbers in their order, the two zeros next to each other. *)
Lemma ordered_value_spec key : 0x00800000 <= key <= 0xff7fffff →
  u32 (ordered_value key) ∧ f32_is_finite (ordered_value key) = true ∧
  f32_key (ordered_value key) = if key <? 2 ^ 31 then key - 2 ^ 31 + 1 else key - 2 ^ 31.
Proof.
  intros Hk. assert (ordered_value key = if key <? 2 ^ 31 then 2 ^ 32 - 1 - key else key - 2 ^ 31) as ->.
  { unfold ordered_value. change 0x80000000 with (2 ^ 31). rewrite land_pow2 by lia. rewrite testbit_div by lia.
    change (2 ^ 31) with 2147483648 in *. change (2 ^ 32) with 4294967296.
    destruct (Z.ltb_spec key 2147483648); [by rewrite (Z.div_small key) by lia|].
    assert (key / 2147483648 = 1) as -> by (symmetry; apply (Z.div_unique _ _ _ (key - 2147483648)); lia).
    change (negb (1 mod 2 * 2147483648 =? 0)) with true. cbv iota.
    replace key with ((key - 2147483648) + 1 * 2 ^ 31) at 1 by (change (2 ^ 31) with 2147483648; lia).
    rewrite <- lor_shiftl_add by (change (2 ^ 31) with 2147483648; lia). change (Z.shiftl 1 31) with 2147483648.
    rewrite <- (Z.lxor_lor (key - 2147483648)), Z.lxor_assoc, Z.lxor_nilpotent, Z.lxor_0_r; [done|].
    change 2147483648 with (2 ^ 31) at 2. rewrite land_pow2 by lia. rewrite testbit_div by lia.
    by rewrite Z.div_small by (change (2 ^ 31) with 2147483648; lia). }
  unfold f32_is_finite, f32_key, f32_neg, f32_mag, F32_SIGN, F32_INF_BITS. unfold_widths. change (2 ^ 31) with 2147483648.
  destruct (Z.ltb_spec key 2147483648).
  - rewrite mod_clear_sign by lia. case_match; lia.
  - rewrite Z.mod_small by lia. case_match; lia.
Qed.

Lemma ordered_value_onto r : u32 r → f32_is_finite r = true → ∃ key, 0x00800000 <= key <= 0xff7fffff ∧ f32_key (ordered_value key) = f32_key r.
Proof.
  intros Hr Hf. destruct (f32_key_mag r Hr) as [E Hm]. apply Z.ltb_lt in Hf. unfold F32_INF_BITS, F32_SIGN in *.
  change (2 ^ 31) with 2147483648 in *. destruct (f32_neg r) eqn:En.
  - exists (2147483647 - f32_mag r). split; [lia|]. destruct (ordered_value_spec (2147483647 - f32_mag r)) as (_ & _ & ->); [lia|].
    rewrite E. change (2 ^ 31) with 2147483648. case_match; lia.
  - exists (2147483648 + f32_mag r). split; [lia|]. destruct (ordered_value_spec (2147483648 + f32_mag r)) as (_ & _ & ->); [lia|].
    rewrite E. change (2 ^ 31) with 2147483648. case_match; lia.
Qed.

(** The comparison a cut stands for: the first value an endpoint reaches is where
    a lower side starts and an upper side ends. *)
Definition reaches (ep : DistanceEndpoint) (v : Z) : bool :=
  match ep_op ep with Ge | Lt => f64_ge v (ep_value ep) | Gt | Le => f64_gt v (ep_value ep) end.

Lemma reaches_mono ep v w :
  f64_is_finite (ep_value ep) = true → f64_is_finite v = true → f64_is_finite w = true → f64_key v <= f64_key w →
  reaches ep v = true → reaches ep w = true.
Proof.
  intros He Hv Hw Hle. unfold reaches. destruct (ep_op ep); rewrite ?f64_finite_ge, ?f64_finite_gt by done; lia.
Qed.

Lemma from_f32_mono a b : u32 a → u32 b → f32_is_finite a = true → f32_is_finite b = true → f32_key a <= f32_key b →
  f64_key (f64_from_f32 a) <= f64_key (f64_from_f32 b).
Proof. intros Ha Hb Fa Fb Hle. pose proof (f64_from_lt b a Hb Ha Fb Fa). lia. Qed.

Lemma reaches_f32_mono ep a b : f64_is_finite (ep_value ep) = true →
  u32 a → u32 b → f32_is_finite a = true → f32_is_finite b = true → f32_key a <= f32_key b →
  reaches ep (f64_from_f32 a) = true → reaches ep (f64_from_f32 b) = true.
Proof. intros He Ha Hb Fa Fb Hle. apply reaches_mono; [done|by apply f64_from_key..|by apply from_f32_mono]. Qed.

Definition finite_f32 (r : Z) : Prop := u32 r ∧ f32_is_finite r = true.

(** What the two linear searches find, for every finite raw distance. *)
Lemma linear_cut_spec ep : f64_is_finite (ep_value ep) = true →
  match first_linear_cut ep with
  | None => ∀ r, finite_f32 r → reaches ep (f64_from_f32 r) = false
  | Some c => finite_f32 c ∧ ∀ r, finite_f32 r → reaches ep (f64_from_f32 r) = f32_ge r c
  end.
Proof.
  intros He. unfold first_linear_cut.
  change (λ key, match ep_op ep with Ge | Lt => f64_ge (f64_from_f32 (ordered_value key)) (ep_value ep) | _ => f64_gt (f64_from_f32 (ordered_value key)) (ep_value ep) end)
    with (λ key, reaches ep (f64_from_f32 (ordered_value key))).
  set (admits := λ key, reaches ep (f64_from_f32 (ordered_value key))).
  assert (∀ x y, 0x00800000 <= x → x <= y → y <= 0xff7fffff → admits x = true → admits y = true) as Hm.
  { intros x y Hx Hxy Hy. destruct (ordered_value_spec x) as (Ux & Fx & Kx); [lia|]. destruct (ordered_value_spec y) as (Uy & Fy & Ky); [lia|].
    apply reaches_f32_mono; try done. rewrite Kx, Ky. repeat case_match; lia. }
  assert (∀ r, finite_f32 r → ∃ key, 0x00800000 <= key <= 0xff7fffff ∧ f32_key (ordered_value key) = f32_key r ∧
            reaches ep (f64_from_f32 r) = admits key) as Hkey.
  { intros r [Ur Fr]. destruct (ordered_value_onto r Ur Fr) as (key & Hk & E). exists key. split_and!; [lia..|done|].
    destruct (ordered_value_spec key Hk) as (Uk & Fk & _). apply eq_true_iff_eq. split; apply reaches_f32_mono; (done || lia). }
  change (match ep_op ep with Ge | Lt => _ | _ => _ end) with (admits 0xff7fffff). destruct (admits 0xff7fffff) eqn:Eh; cbn [negb].
  - destruct (cut_search_spec admits CUT_ROUNDS 0x00800000 0xff7fffff) as [Bc Sc]; [done|done|done|done|].
    set (k := cut_search _ _ _ _) in *. destruct (ordered_value_spec k Bc) as (Uc & Fc & Kc). split; [done|].
    intros r Hr. destruct (Hkey r Hr) as (key & Hk & Ek & ->). destruct Hr as [Ur Fr]. rewrite f32_finite_ge, <- Ek by done.
    destruct (ordered_value_spec key Hk) as (Uk & Fk & Kk). apply eq_true_iff_eq. rewrite Z.leb_le. split.
    + rewrite Sc by done. intros Hle%Z.leb_le. rewrite Kc, Kk. repeat case_match; lia.
    + intros Hle. apply (reaches_f32_mono ep (ordered_value k)); try done. change (admits k = true). rewrite Sc by done. lia.
  - intros r Hr. destruct (Hkey r Hr) as (key & Hk & _ & ->). destruct (admits key) eqn:Ek; [|done].
    rewrite (Hm key 0xff7fffff) in Eh; [done|lia|lia|lia|done].
Qed.

Lemma l2_public_spec r : 0 <= r <= F32_MAX → f64_is_finite (l2_public_value r) = true.
Proof.
  intros Hr. pose proof (f32_sqrt_finite r) as Hs. unfold F32_MAX, F32_INF_BITS in *. apply f64_from_key; [unfold_widths; lia|].
  unfold f32_is_finite, f32_mag, F32_SIGN, F32_INF_BITS. rewrite Z.mod_small by lia. lia.
Qed.
Lemma l2_public_mono a b : 0 <= a → a <= b → b <= F32_MAX → f64_key (l2_public_value a) <= f64_key (l2_public_value b).
Proof.
  intros Ha Hab Hb. pose proof (f32_sqrt_mono a b). pose proof (f32_sqrt_finite a). pose proof (f32_sqrt_finite b). unfold F32_MAX, F32_INF_BITS in *.
  apply from_f32_mono; unfold f32_is_finite, f32_key, f32_neg, f32_mag, F32_SIGN, F32_INF_BITS; unfold_widths; change (2 ^ 31) with 2147483648;
    rewrite ?Z.mod_small by lia; repeat case_match; lia.
Qed.

(** Raw squared-L2 distances are not negative. *)
Lemma nonneg_f32 r : finite_f32 r → f32_neg r = false → 0 <= r <= F32_MAX ∧ f32_key r = r.
Proof.
  intros [Ur Fr] Hn. destruct (f32_key_mag r Ur) as [E Hm]. apply Z.ltb_lt in Fr. rewrite Hn, Z.mul_1_l in E.
  assert (f32_key r = r) as Er by (unfold f32_key; by rewrite Hn). rewrite Er in *. unfold F32_MAX, F32_INF_BITS in *. split; [|done].
  rewrite E. clear - Fr Hm. lia.
Qed.
Lemma f32_nonneg r : 0 <= r <= F32_MAX → finite_f32 r ∧ f32_neg r = false.
Proof.
  unfold finite_f32, f32_is_finite, f32_neg, f32_mag, F32_SIGN, F32_INF_BITS, F32_MAX. unfold_widths. change (2 ^ 31) with 2147483648. intros.
  rewrite Z.mod_small by lia. lia.
Qed.

#[local] Opaque l2_public_value cut_search.

(** What the two square-root searches find. *)
Definition l2_find (ep : DistanceEndpoint) : option Z :=
  match ep_op ep with Ge | Lt => first_ge (ep_value ep) | Gt | Le => first_gt (ep_value ep) end.

Lemma l2_find_cases ep : f64_is_finite (ep_value ep) = true →
  match l2_find ep with
  | Some c => reaches ep (l2_public_value F32_MAX) = true ∧ c = cut_search (λ mid, reaches ep (l2_public_value mid)) CUT_ROUNDS 0 F32_MAX
  | None => reaches ep (l2_public_value F32_MAX) = false
  end.
Proof.
  intros He. unfold l2_find, reaches, first_ge, first_gt. pose proof (l2_public_spec F32_MAX ltac:(done)) as Hv.
  set (v := l2_public_value F32_MAX) in *. clearbody v. pose proof (finite_not_nan _ He) as N. pose proof (finite_not_nan _ Hv) as N'.
  unfold f64_ge, f64_gt, f64_lt, f64_le, f64_ordered. clear He Hv.
  destruct (ep_op ep); rewrite N, N'; cbn [negb andb];
    match goal with |- context [cut_search ?f ?n ?a ?b] => generalize (cut_search f n a b) end; intros k;
    match goal with |- context [if ?b then _ else _] => destruct b eqn:E end; first [lia|split; [lia|done]].
Qed.

Lemma l2_cut_spec ep c : f64_is_finite (ep_value ep) = true → l2_find ep = Some c →
  0 <= c <= F32_MAX ∧ ∀ r, finite_f32 r → f32_neg r = false → reaches ep (l2_public_value r) = f32_ge r c.
Proof.
  intros He Hc. pose proof (l2_find_cases ep He) as Hcases. rewrite Hc in Hcases. destruct Hcases as [Hh ->].
  destruct (cut_search_spec (λ mid, reaches ep (l2_public_value mid)) CUT_ROUNDS 0 F32_MAX) as [Bc Sc]; [done|done|exact Hh| |].
  { intros x y Hx Hxy Hy. apply reaches_mono; [done|apply l2_public_spec; lia..|by apply l2_public_mono]. }
  set (k := cut_search _ _ _ _) in *. clearbody k.
  split; [done|]. intros r Hr Hn. destruct (nonneg_f32 r Hr Hn) as [Br Kr]. destruct (f32_nonneg _ Bc) as [Hc1 Hc2].
  destruct (nonneg_f32 _ Hc1 Hc2) as [_ Kc]. rewrite f32_finite_ge, Kr, Kc by (apply Hr || apply Hc1). exact (Sc r Br).
Qed.

(** ** Predicates *)

Definition endpoint_holds (ep : DistanceEndpoint) (v : Z) : bool :=
  match ep_op ep with
  | Ge => f64_ge v (ep_value ep)
  | Gt => f64_gt v (ep_value ep)
  | Le => f64_le v (ep_value ep)
  | Lt => f64_lt v (ep_value ep)
  end.
Definition predicate_holds (o : option DistanceEndpoint) (v : Z) : bool :=
  match o with None => true | Some ep => endpoint_holds ep v end.

Definition lower_side (ep : DistanceEndpoint) : Prop := ep_op ep = Ge ∨ ep_op ep = Gt.
Definition upper_side (ep : DistanceEndpoint) : Prop := ep_op ep = Le ∨ ep_op ep = Lt.
Definition side_ok (side : DistanceEndpoint → Prop) (o : option DistanceEndpoint) : Prop :=
  ∀ ep, o = Some ep → side ep ∧ f64_is_finite (ep_value ep) = true.

Lemma holds_lower ep v : lower_side ep → endpoint_holds ep v = reaches ep v.
Proof. unfold endpoint_holds, reaches. by intros [-> | ->]. Qed.
Lemma holds_upper ep v : upper_side ep → f64_is_finite (ep_value ep) = true → f64_is_finite v = true →
  endpoint_holds ep v = negb (reaches ep v).
Proof.
  unfold endpoint_holds, reaches. intros Hs He Hv. pose proof (f64_finite_ge (ep_value ep) v He Hv) as G.
  pose proof (f64_finite_gt (ep_value ep) v He Hv) as G'. unfold f64_gt, f64_ge in G, G'.
  destruct Hs as [-> | ->]; rewrite ?G, ?G', ?f64_finite_ge, ?f64_finite_gt by done; lia.
Qed.

Definition in_bounds (lower upper : Bound) (r : Z) : bool :=
  (match lower with Unbounded => true | Finite low => f32_ge r low end) &&
  (match upper with Unbounded => true | Finite high => f32_lt r high end).
Lemma from_raw_inv lower upper metric b : from_raw lower upper metric = Ok b → b = Band lower upper metric.
Proof. unfold from_raw. intros H. inv_ok. done. Qed.
Lemma admit_finite b r : f32_is_finite r = true → admit_raw b r = in_bounds (band_lower b) (band_upper b) r.
Proof. intros Hr. unfold admit_raw. by rewrite Hr. Qed.

Lemma f32_ge_lt a b : finite_f32 a → finite_f32 b → f32_lt a b = negb (f32_ge a b).
Proof. intros [_ Ha] [_ Hb]. rewrite f32_finite_lt, f32_finite_ge by done. lia. Qed.

(** ** Bands of the linear metrics *)

Definition bound_ok (bound : Bound) : Prop := match bound with Unbounded => True | Finite c => finite_f32 c end.

Lemma from_raw_linear lower upper metric : metric ≠ L2 → bound_ok lower → bound_ok upper →
  (∀ low high, lower = Finite low → upper = Finite high → f32_gt low high = false) →
  from_raw lower upper metric = Ok (Band lower upper metric).
Proof.
  intros Hm Hl Hu Hi. unfold from_raw, check_cut. rewrite (bool_decide_eq_false_2 _ Hm). cbn [andb negb].
  destruct lower as [|low], upper as [|high]; cbn in Hl, Hu; repeat (rewrite (proj2 Hl) || rewrite (proj2 Hu)); cbn; try done.
  by rewrite (Hi low high).
Qed.

Lemma cuts_band_spec lower upper metric : metric ≠ L2 → side_ok lower_side lower → side_ok upper_side upper →
  ∃ b, cuts_band lower upper metric = Ok b ∧ band_metric b = metric ∧ ∀ r, finite_f32 r →
    admit_raw b r = predicate_holds lower (f64_from_f32 r) && predicate_holds upper (f64_from_f32 r).
Proof.
  intros Hm Hlo Hup. unfold cuts_band.
  assert (∀ r, finite_f32 r → match first_linear_cut <$> lower with
    | None => predicate_holds lower (f64_from_f32 r) = true
    | Some None => predicate_holds lower (f64_from_f32 r) = false
    | Some (Some c) => finite_f32 c ∧ predicate_holds lower (f64_from_f32 r) = f32_ge r c
    end) as HL.
  { intros r Hr. destruct lower as [ep|]; [|done]. destruct (Hlo ep eq_refl) as [Hs Hf]. cbn. rewrite holds_lower by done.
    pose proof (linear_cut_spec ep Hf). destruct (first_linear_cut ep); [split; [apply H|by apply H]|by apply H]. }
  assert (∀ r, finite_f32 r → match upper ≫= first_linear_cut with
    | None => predicate_holds upper (f64_from_f32 r) = true
    | Some c => finite_f32 c ∧ predicate_holds upper (f64_from_f32 r) = f32_lt r c
    end) as HU.
  { intros r Hr. destruct upper as [ep|]; [|done]. destruct (Hup ep eq_refl) as [Hs Hf]. cbn.
    rewrite holds_upper by (done || by apply f64_from_key; apply Hr).
    pose proof (linear_cut_spec ep Hf). destruct (first_linear_cut ep) as [c|]; [|by rewrite H]. destruct H as [Hc H].
    split; [done|]. by rewrite f32_ge_lt, H. }
  set (lc := first_linear_cut <$> lower) in *. set (uc := upper ≫= first_linear_cut) in *. clearbody lc uc.
  assert (finite_f32 0) as H0 by (split; [by split|done]).
  destruct (_ || _) eqn:E.
  - rewrite from_raw_linear by (done || intros ?? [= <-] [= <-]; done). eexists. split_and!; [done..|].
    intros r Hr. rewrite admit_finite by apply Hr. cbn [band_lower band_upper]. unfold in_bounds. specialize (HL r Hr). specialize (HU r Hr).
    transitivity false; [rewrite f32_ge_lt by done; by destruct (f32_ge r 0)|]. symmetry. apply andb_false_iff.
    apply orb_true_iff in E as [E|E]; [apply orb_true_iff in E as [E|E]|].
    + left. by destruct lc as [[]|].
    + right. destruct uc as [c|]; [|done]. destruct HU as [Hc ->]. rewrite f32_finite_lt by (apply Hr || apply Hc).
      apply andb_true_iff in E as [_ E%Z.eqb_eq]. rewrite E. destruct (f32_key_mag r (proj1 Hr)) as [-> Hmag].
      pose proof (proj2 Hr) as Hfin. apply Z.ltb_lt in Hfin. unfold F32_INF_BITS in Hfin.
      change (f32_key (f32_negate F32_MAX)) with (-0x7f7fffff). destruct (f32_neg r); lia.
    + destruct lc as [[low|]|]; [|done..]. destruct uc as [high|]; [|done]. destruct HL as [Hl ->], HU as [Hu ->].
      unfold f32_gt in E. rewrite f32_finite_lt in * by (apply Hr || apply Hl || apply Hu).
      rewrite f32_finite_ge by (apply Hr || apply Hl). lia.
  - apply orb_false_iff in E as [E E3]. apply orb_false_iff in E as [E1 E2].
    rewrite from_raw_linear; [|done|destruct lc as [[low|]|]; try done; by apply (HL 0)|destruct uc as [high|]; [by apply (HU 0)|done]|].
    + eexists. split_and!; [done..|]. intros r Hr. rewrite admit_finite by apply Hr. cbn [band_lower band_upper]. specialize (HL r Hr). specialize (HU r Hr).
      unfold in_bounds. f_equal; [destruct lc as [[low|]|]; [symmetry; apply HL|done|done]|destruct uc as [high|]; [symmetry; apply HU|done]].
    + intros low high. destruct lc as [[]|], uc; intros [= <-] [= <-]; done.
Qed.

(** Inner product: the endpoints of the negated distance, with the sides swapped. *)
Lemma public_negate r : finite_f32 r → f64_key (f64_from_f32 (f32_negate r)) = - f64_key (f64_from_f32 r).
Proof.
  intros [Hr Hf]. destruct (f32_negate_spec r Hr) as (K & F & U). rewrite <- F in Hf.
  destruct (f64_from_key _ U Hf) as [-> _]. rewrite F in Hf. destruct (f64_from_key _ Hr Hf) as [-> _].
  destruct (f32_key_mag r Hr) as [E B]. destruct (f32_key_mag _ U) as [E' B']. rewrite K, E in E'.
  assert (f32_mag (f32_negate r) = f32_mag r ∧ f32_neg (f32_negate r) = negb (f32_neg r)) as [-> ->]; [|destruct (f32_neg r); cbn; lia].
  clear - Hr. unfold f32_negate, f32_mag, f32_neg, F32_SIGN. unfold_widths. change (2 ^ 31) with 2147483648.
  destruct (Z.leb_spec 2147483648 r).
  - rewrite (mod_clear_sign _ r), Z.mod_small by lia. split; [done|]. cbn. apply Z.leb_gt. lia.
  - rewrite (Z.mod_small r), (Z.add_comm r), mod_set_sign by lia. split; [done|]. cbn. apply Z.leb_le. lia.
Qed.

Lemma reverse_holds ep r : u64 (ep_value ep) → f64_is_finite (ep_value ep) = true → finite_f32 r →
  endpoint_holds (reverse_endpoint ep) (f64_from_f32 r) = endpoint_holds ep (f64_from_f32 (f32_negate r)).
Proof.
  intros Hu He Hr. destruct (f64_negate_key _ Hu) as (K & F & _). pose proof (public_negate r Hr) as P.
  destruct (f64_from_key r (proj1 Hr) (proj2 Hr)) as [_ Fr]. destruct (f32_negate_spec r (proj1 Hr)) as (_ & Fn & Un). rewrite (proj2 Hr) in Fn.
  destruct (f64_from_key _ Un Fn) as [_ Fr']. rewrite <- F in He. pose proof He as He'. rewrite F in He'.
  unfold endpoint_holds, f64_ge, f64_gt, f64_le, f64_lt, f64_ordered. rewrite (finite_not_nan _ Fr), (finite_not_nan _ Fr'), (finite_not_nan _ He').
  unfold reverse_endpoint; cbn [ep_op ep_value]. rewrite (finite_not_nan _ He), K, P. destruct (ep_op ep); cbn [reverse_op negb andb]; lia.
Qed.

Lemma reverse_side_ok (p q : DistanceEndpoint → Prop) o :
  (∀ ep, p ep → q (reverse_endpoint ep)) → (∀ ep, o = Some ep → u64 (ep_value ep)) → side_ok p o → side_ok q (reverse_endpoint <$> o).
Proof.
  intros Hpq Hu Hs ep' E. destruct o as [ep|]; [|done]. injection E as <-. destruct (Hs ep eq_refl) as [Hp Hf].
  split; [by apply Hpq|]. cbn. by rewrite (proj1 (proj2 (f64_negate_key _ (Hu ep eq_refl)))).
Qed.

Lemma reverse_predicate o r : (∀ ep, o = Some ep → u64 (ep_value ep)) → (∀ ep, o = Some ep → f64_is_finite (ep_value ep) = true) → finite_f32 r →
  predicate_holds (reverse_endpoint <$> o) (f64_from_f32 r) = predicate_holds o (f64_from_f32 (f32_negate r)).
Proof. intros Hu Hf Hr. destruct o as [ep|]; [|done]. cbn. apply reverse_holds; auto. Qed.

(** ** Bands of squared L2 *)

Definition l2_bound (o : option DistanceEndpoint) : io_result Bound :=
  resolve ((λ ep, (ep_value ep, match ep_op ep with Ge | Lt => first_ge | Gt | Le => first_gt end)) <$> o).

Lemma finders_ok lower upper lf uf : check_endpoint lower = Ok () → check_endpoint upper = Ok () →
  lower_finder lower = Ok lf → upper_finder upper = Ok uf →
  side_ok lower_side lower ∧ side_ok upper_side upper ∧ resolve lf = l2_bound lower ∧ resolve uf = l2_bound upper.
Proof.
  unfold lower_finder, upper_finder, check_endpoint, l2_bound, lower_side, upper_side, side_ok. intros Hl Hu El Eu.
  destruct lower as [[lv lo]|], upper as [[uv uo]|]; cbn in *; inv_ok; try destruct lo; try destruct uo; inv_ok; simplify_eq;
    split_and!; try done; intros ep [= <-]; cbn; auto.
Qed.

Lemma l2_bound_spec o bound : (∀ ep, o = Some ep → f64_is_finite (ep_value ep) = true) → l2_bound o = Ok bound →
  (o = None ∧ bound = Unbounded) ∨ ∃ ep c, o = Some ep ∧ bound = Finite c ∧ 0 <= c <= F32_MAX ∧
    ∀ r, finite_f32 r → f32_neg r = false → reaches ep (public_distance L2 r) = f32_ge r c.
Proof.
  intros Hf. unfold l2_bound, resolve. destruct o as [ep|]; cbn; [|intros [= <-]; by left]. intros H. inv_ok. right. exists ep, x.
  destruct (l2_cut_spec ep x) as [B S]; [by apply Hf| |done].
  unfold l2_find. destruct (ep_op ep); done.
Qed.

Lemma l2_bound_error o e : (∀ ep, o = Some ep → f64_is_finite (ep_value ep) = true) → l2_bound o = Err e →
  kind e = Unsupported ∧ ∃ ep, o = Some ep ∧ ∀ r, finite_f32 r → f32_neg r = false → reaches ep (public_distance L2 r) = false.
Proof.
  intros Hf. unfold l2_bound, resolve. destruct o as [ep|]; cbn; [|done]. intros H. specialize (Hf ep eq_refl).
  assert (kind e = Unsupported ∧ l2_find ep = None) as [Hk Hn].
  { unfold l2_find. destruct (ep_op ep); (destruct (first_ge _) || destruct (first_gt _)); cbn in H; simplify_eq; done. }
  split; [done|]. exists ep. split; [done|]. intros r Hr Hneg. destruct (nonneg_f32 r Hr Hneg) as [B _].
  destruct (reaches ep (public_distance L2 r)) eqn:E; [|done]. exfalso.
  assert (reaches ep (l2_public_value F32_MAX) = true) as Hm.
  { apply (reaches_mono ep (public_distance L2 r)); [done|by apply l2_public_spec|by apply l2_public_spec|apply l2_public_mono; lia|done]. }
  pose proof (l2_find_cases ep Hf) as Hcases. rewrite Hn, Hm in Hcases. done.
Qed.

(** The predicates of both sides on the public distance. *)
Definition band_predicate (lower upper : option DistanceEndpoint) (metric : MetricType) (r : Z) : bool :=
  predicate_holds lower (public_distance metric r) && predicate_holds upper (public_distance metric r).
(** The raw distances a metric can produce: finite, and not negative for squared L2. *)
Definition raw_distance (metric : MetricType) (r : Z) : Prop := finite_f32 r ∧ (metric = L2 → f32_neg r = false).

Lemma side_finite side o : side_ok side o → ∀ ep, o = Some ep → f64_is_finite (ep_value ep) = true.
Proof. intros Hs ep E. by apply Hs. Qed.

Lemma linear_band_spec lower upper metric : metric ≠ L2 → side_ok lower_side lower → side_ok upper_side upper →
  (∀ ep, lower = Some ep → u64 (ep_value ep)) → (∀ ep, upper = Some ep → u64 (ep_value ep)) →
  match linear_band lower upper metric with
  | Ok b => band_metric b = metric ∧ ∀ r, finite_f32 r → admit_raw b r = band_predicate lower upper metric r
  | Err e => kind e = InvalidInput ∧ ∀ r, finite_f32 r → band_predicate lower upper metric r = false
  | Panic => False
  end.
Proof.
  intros Hm Hlo Hup Hul Huu. unfold linear_band. destruct (match lower, upper with Some low, Some high => _ | _, _ => _ end) eqn:Ei; cbn [negb].
  { change (ensure_input false _) with (@invalid_input unit "inverted public band"). split; [done|]. intros r Hr.
    destruct lower as [lo|]; [|done]. destruct upper as [up|]; [|done]. destruct (Hlo lo eq_refl) as [Sl Fl], (Hup up eq_refl) as [Su Fu].
    rewrite f64_finite_gt in Ei by done. unfold band_predicate; cbn [predicate_holds].
    assert (f64_is_finite (public_distance metric r) = true) as Fv.
    { destruct Hr as [Ur Fr]. unfold public_distance. destruct metric; [done| |by apply f64_from_key].
      destruct (f32_negate_spec r Ur) as (_ & F & U). apply f64_from_key; [done|]. by rewrite F. }
    rewrite holds_lower, holds_upper by done. unfold reaches.
    destruct Sl as [-> | ->], Su as [-> | ->]; rewrite ?f64_finite_ge, ?f64_finite_gt by done; lia. }
  change (ensure_input true "inverted public band") with (Ok ()). cbn [mbind io_result_bind]. case_bool_decide as Eip.
  - destruct (cuts_band_spec (reverse_endpoint <$> upper) (reverse_endpoint <$> lower) metric) as (b & -> & Hb & Ha); [done|..].
    + eapply reverse_side_ok; [|done|exact Hup]. intros ep [E|E]; unfold lower_side; cbn; rewrite E; auto.
    + eapply reverse_side_ok; [|done|exact Hlo]. intros ep [E|E]; unfold upper_side; cbn; rewrite E; auto.
    + split; [done|]. intros r Hr. rewrite Ha by done. subst metric. unfold band_predicate, public_distance.
      rewrite !reverse_predicate by (done || by eapply side_finite). apply andb_comm.
  - destruct (cuts_band_spec lower upper metric) as (b & -> & Hb & Ha); [done..|]. split; [done|]. intros r Hr. rewrite Ha by done.
    unfold band_predicate, public_distance. by destruct metric.
Qed.

Lemma l2_band_spec lower upper lo hi : side_ok lower_side lower → side_ok upper_side upper → l2_bound lower = Ok lo → l2_bound upper = Ok hi →
  match from_raw lo hi L2 with
  | Ok b => band_metric b = L2 ∧ ∀ r, raw_distance L2 r → admit_raw b r = band_predicate lower upper L2 r
  | Err e => kind e = InvalidInput ∧ ∀ r, raw_distance L2 r → band_predicate lower upper L2 r = false
  | Panic => False
  end.
Proof.
  intros Hlo Hup El Eu.
  assert (∀ r, raw_distance L2 r → band_predicate lower upper L2 r = in_bounds lo hi r) as Hin.
  { intros r [Hr Hn]. specialize (Hn eq_refl). unfold band_predicate, in_bounds.
    assert (f64_is_finite (public_distance L2 r) = true) as Fv by (apply l2_public_spec; by apply nonneg_f32).
    f_equal.
    - destruct (l2_bound_spec lower lo (side_finite _ _ Hlo) El) as [[-> ->]|(ep & c & -> & -> & Bc & S)]; [done|].
      cbn [predicate_holds]. rewrite holds_lower by by apply (Hlo ep). by apply S.
    - destruct (l2_bound_spec upper hi (side_finite _ _ Hup) Eu) as [[-> ->]|(ep & c & -> & -> & Bc & S)]; [done|].
      cbn [predicate_holds]. rewrite holds_upper, S by (done || by apply (Hup ep)). symmetry. apply f32_ge_lt; [done|]. by apply f32_nonneg. }
  assert (∀ o bound, l2_bound o = Ok bound → (∀ ep, o = Some ep → f64_is_finite (ep_value ep) = true) →
    check_cut L2 bound = Ok () ∧ ∀ c, bound = Finite c → 0 <= c <= F32_MAX) as Hcut.
  { intros o bound E Hf. destruct (l2_bound_spec o bound Hf E) as [[-> ->]|(ep & c & -> & -> & Bc & S)]; [done|].
    split; [|by intros ? [= <-]]. destruct (f32_nonneg c Bc) as [Fc Nc]. destruct (nonneg_f32 c Fc Nc) as [_ Kc].
    unfold check_cut. rewrite (proj2 Fc), f32_finite_lt by (done || apply Fc). rewrite Kc. change (f32_key 0) with 0.
    replace (c <? 0) with false by lia. done. }
  destruct (Hcut lower lo El (side_finite _ _ Hlo)) as [C1 B1], (Hcut upper hi Eu (side_finite _ _ Hup)) as [C2 B2].
  unfold from_raw. rewrite C1, C2. cbn [mbind io_result_bind].
  assert (∀ b, b = Band lo hi L2 → band_metric b = L2 ∧ ∀ r, raw_distance L2 r → admit_raw b r = band_predicate lower upper L2 r) as Hok.
  { intros b ->. split; [done|]. intros r Hr. rewrite (Hin r Hr), admit_finite by apply Hr. done. }
  destruct lo as [|low], hi as [|high]; try (by apply Hok).
  destruct (f32_nonneg low (B1 low eq_refl)) as [Fl Nl], (f32_nonneg high (B2 high eq_refl)) as [Fh Nh].
  unfold f32_gt. rewrite f32_finite_lt by (apply Fl || apply Fh). destruct (Z.ltb_spec (f32_key high) (f32_key low)); [|exact (Hok _ eq_refl)].
  split; [done|]. intros r Hr. rewrite Hin by done. unfold in_bounds. destruct Hr as [[Ur Fr] _].
  rewrite f32_finite_ge, f32_finite_lt by (done || apply Fl || apply Fh). lia.
Qed.

Lemma check_endpoint_cases side o : check_endpoint o = Ok () ∨ ∃ e, check_endpoint o = Err e ∧ ¬ side_ok side o.
Proof.
  destruct o as [ep|]; [|by left]. cbn. destruct (f64_is_finite (ep_value ep)) eqn:F; [by left|right].
  eexists. split; [done|]. intros Hs. destruct (Hs ep eq_refl). congruence.
Qed.
Lemma lower_finder_cases o : (∃ f, lower_finder o = Ok f) ∨ ∃ e, lower_finder o = Err e ∧ ¬ side_ok lower_side o.
Proof.
  destruct o as [[v []]|]; cbn; eauto; right; eexists; (split; [done|]); intros Hs; by destruct (Hs _ eq_refl) as [[S|S] _].
Qed.
Lemma upper_finder_cases o : (∃ f, upper_finder o = Ok f) ∨ ∃ e, upper_finder o = Err e ∧ ¬ side_ok upper_side o.
Proof.
  destruct o as [[v []]|]; cbn; eauto; right; eexists; (split; [done|]); intros Hs; by destruct (Hs _ eq_refl) as [[S|S] _].
Qed.
Lemma l2_bound_no_panic o : l2_bound o ≠ Panic.
Proof.
  unfold l2_bound, resolve. destruct o as [ep|]; [|done]. cbn.
  destruct (ep_op ep); (destruct (first_ge _) || destruct (first_gt _)); done.
Qed.

(** The squared-L2 case as a whole. *)
Lemma l2_resolved_spec lower upper : side_ok lower_side lower → side_ok upper_side upper →
  match (lo ← l2_bound lower; hi ← l2_bound upper; from_raw lo hi L2) with
  | Ok b => band_metric b = L2 ∧ ∀ r, raw_distance L2 r → admit_raw b r = band_predicate lower upper L2 r
  | Err e => (kind e = InvalidInput ∧ ∀ r, raw_distance L2 r → band_predicate lower upper L2 r = false) ∨
      (kind e = Unsupported ∧ ∃ ep, (lower = Some ep ∨ upper = Some ep) ∧ ∀ r, raw_distance L2 r → reaches ep (public_distance L2 r) = false)
  | Panic => False
  end.
Proof.
  intros Hlo Hup. destruct (l2_bound lower) as [lo|e|] eqn:E1; cbn [mbind io_result_bind]; [| |by apply l2_bound_no_panic in E1].
  - destruct (l2_bound upper) as [hi|e|] eqn:E2; cbn [mbind io_result_bind]; [| |by apply l2_bound_no_panic in E2].
    + pose proof (l2_band_spec lower upper lo hi Hlo Hup E1 E2). destruct (from_raw lo hi L2); auto.
    + destruct (l2_bound_error upper e (side_finite _ _ Hup) E2) as (Hk & ep & -> & Hn). right. split; [done|].
      exists ep. split; [by right|]. intros r [Hr Hneg]. by apply Hn, Hneg.
  - destruct (l2_bound_error lower e (side_finite _ _ Hlo) E1) as (Hk & ep & -> & Hn). right. split; [done|].
    exists ep. split; [by left|]. intros r [Hr Hneg]. by apply Hn, Hneg.
Qed.

(** C13: A band derived from public endpoints admits exactly the raw distances whose
    public value (square root for L2, sign reversed for inner product) satisfies
    the two predicates, without rounding an endpoint.  A band is refused only
    when an endpoint is not finite or on the wrong side, when no distance can
    satisfy both predicates, or, for L2, when an endpoint lies beyond every
    representable distance, which is reported as unsupported. *)
Theorem band_from_endpoints_exact (lower upper : option DistanceEndpoint) (metric : MetricType) :
  (∀ ep, lower = Some ep → u64 (ep_value ep)) → (∀ ep, upper = Some ep → u64 (ep_value ep)) →
  match from_endpoints lower upper metric with
  | Ok band => band_metric band = metric ∧ ∀ r, raw_distance metric r → admit_raw band r = band_predicate lower upper metric r
  | Err e =>
      ¬ (side_ok lower_side lower ∧ side_ok upper_side upper) ∨
      (kind e = InvalidInput ∧ ∀ r, raw_distance metric r → band_predicate lower upper metric r = false) ∨
      (kind e = Unsupported ∧ metric = L2 ∧
       ∃ ep, (lower = Some ep ∨ upper = Some ep) ∧ ∀ r, raw_distance L2 r → reaches ep (public_distance L2 r) = false)
  | Panic => False
  end.
Proof.
  intros Hul Huu. unfold from_endpoints.
  destruct (check_endpoint_cases lower_side lower) as [C1|(e & C1 & Hn)]; rewrite C1; [|left; tauto].
  destruct (check_endpoint_cases upper_side upper) as [C2|(e & C2 & Hn)]; rewrite C2; [|left; tauto]. cbn [mbind io_result_bind].
  destruct (lower_finder_cases lower) as [[lf El]|(e & El & Hn)]; rewrite El; [|left; tauto].
  destruct (upper_finder_cases upper) as [[uf Eu]|(e & Eu & Hn)]; rewrite Eu; [|left; tauto]. cbn [mbind io_result_bind].
  destruct (finders_ok lower upper lf uf C1 C2 El Eu) as (Hlo & Hup & -> & ->). case_bool_decide as Hm; cbn [negb].
  - subst metric. pose proof (l2_resolved_spec lower upper Hlo Hup) as H. destruct (l2_bound lower ≫= _); [done| |done].
    destruct H as [H|(Hk & H)]; auto.
  - pose proof (linear_band_spec lower upper metric Hm Hlo Hup Hul Huu) as H. destruct (linear_band lower upper metric); [|right; left|done];
      (destruct H as [? H]; split; [done|]; intros r [Hr _]; by apply H).
Qed.

(** [2.5 <= distance < 7], as squared L2 and as an inner product.  The number just
    below [6.25] has the rounded root [2.5], so the L2 band starts there. *)
Definition demo_lower : DistanceEndpoint := Endpoint 0x4004000000000000 Ge.
Definition demo_upper : DistanceEndpoint := Endpoint 0x401c000000000000 Lt.

Lemma band_from_endpoints_exact_witness :
  (∀ r, raw_distance L2 r →
    admit_raw (Band (Finite 0x40c7ffff) (Finite 0x42440000) L2) r = band_predicate (Some demo_lower) (Some demo_upper) L2 r) ∧
  (∀ r, raw_distance InnerProduct r →
    admit_raw (Band (Finite 0xc0dfffff) (Finite 0xc01fffff) InnerProduct) r = band_predicate (Some demo_lower) (Some demo_upper) InnerProduct r).
Proof.
  assert (∀ e, Some demo_lower = Some e → u64 (ep_value e)) as H1 by (intros ? [= <-]; by split).
  assert (∀ e, Some demo_upper = Some e → u64 (ep_value e)) as H2 by (intros ? [= <-]; by split).
  split.
  - pose proof (band_from_endpoints_exact (Some demo_lower) (Some demo_upper) L2 H1 H2) as H.
    assert (from_endpoints (Some demo_lower) (Some demo_upper) L2 = Ok (Band (Finite 0x40c7ffff) (Finite 0x42440000) L2)) as E by (vm_compute; reflexivity).
    rewrite E in H. apply H.
  - pose proof (band_from_endpoints_exact (Some demo_lower) (Some demo_upper) InnerProduct H1 H2) as H.
    assert (from_endpoints (Some demo_lower) (Some demo_upper) InnerProduct = Ok (Band (Finite 0xc0dfffff) (Finite 0xc01fffff) InnerProduct)) as E by (vm_compute; reflexivity).
    rewrite E in H. apply H.
Defined.

(** ** The CSR result *)

Lemma build_fold rows lims0 labels0 dists0 :
  foldl build_step (lims0, labels0, dists0) rows =
    (lims0 ++ ((λ i, length labels0 + length (concat (take (S i) rows)))%nat <$> seq 0 (length rows)),
     labels0 ++ (fst <$> concat rows), dists0 ++ (snd <$> concat rows)).
Proof.
  revert lims0 labels0 dists0. induction rows as [|r rows IH]; intros; cbn [foldl concat length seq fmap list_fmap]; [by rewrite !app_nil_r|].
  cbn [build_step]. rewrite IH. rewrite !fmap_app, <- !app_assoc. f_equal; f_equal. f_equal.
  cbn [app]. f_equal; [|rewrite <- fmap_S_seq, <- list_fmap_compose; apply list_fmap_ext; intros i x _]; cbn [take concat compose];
    rewrite ?length_app, ?length_fmap, ?app_nil_r; rewrite ?firstn_O; cbn [length concat]; lia.
Qed.

Lemma concat_take_lookup {A} (rows : list (list A)) i r : rows !! i = Some r → concat rows = concat (take i rows) ++ r ++ concat (drop (S i) rows).
Proof. intros Hi. by rewrite <- (take_drop_middle rows i r Hi) at 1; rewrite concat_app. Qed.

(** Every query reads back its own rows and statistics. *)
Lemma csr_query b i rows st : b_rows b !! i = Some rows → b_stats b !! i = Some st →
  query_rows (builder_build b) i = Ok (fst <$> rows, snd <$> rows, st).
Proof.
  intros Hr Hs. unfold builder_build. rewrite build_fold. unfold query_rows; cbn [lims labels raw_distances result_stats length app].
  pose proof (lookup_lt_Some _ _ _ Hr) as Hi.
  set (f := λ j, (0 + length (concat (take (S j) (b_rows b))))%nat).
  assert ((0%nat :: (f <$> seq 0 (length (b_rows b)))) !! i = Some (length (concat (take i (b_rows b))))) as ->.
  { destruct i as [|i]; [done|]. rewrite lookup_cons, list_lookup_fmap, lookup_seq_lt by lia. done. }
  assert ((0%nat :: (f <$> seq 0 (length (b_rows b)))) !! S i = Some (length (concat (take i (b_rows b))) + length rows)%nat) as ->.
  { rewrite lookup_cons, list_lookup_fmap, lookup_seq_lt by lia. cbn [fmap option_fmap option_map]. f_equal. unfold f. rewrite !Nat.add_0_l. rewrite (take_S_r _ _ rows) by done.
    rewrite concat_app, length_app. cbn. rewrite app_nil_r. lia. }
  cbn [expect mbind io_result_bind]. rewrite (proj2 (Nat.leb_le _ _)) by lia. replace (_ + length rows - _)%nat with (length rows) by lia.
  rewrite (concat_take_lookup _ _ _ Hr). set (pre := concat (take i (b_rows b))). set (post := concat (drop (S i) (b_rows b))).
  assert (∀ g : Z * Z → Z, get_slice (length pre) (length rows) (g <$> (pre ++ rows ++ post)) = Some (g <$> rows)) as Hg.
  { intros g. apply get_slice_Some. rewrite length_fmap, !length_app. split; [lia|]. rewrite !fmap_app.
    rewrite slice_app_r by (by rewrite length_fmap). by rewrite <- (length_fmap g rows), take_app_length. }
  rewrite !Hg. cbn [expect mbind io_result_bind]. by rewrite Hs.
Qed.
