(* ===== verification/RangeQueries.v ===== *)
(** Preparing the queries of a range search: [core/src/range.rs], with the query
    checks of [core/src/index.rs] and the row filters of [core/src/ivfpq.rs]. *)

From S2P Require Import Prelude F32 F64 F32Arith DiskannHeader Distance KmeansSearch Range.

(** A filter answers whether a row identifier is admitted. *)
Definition RowIdFilter : Type := Z → bool.
Definition filtered_out (filter : option RowIdFilter) (id : Z) : bool := match filter with Some contains => negb (contains id) | None => false end.

(** ** Checks *)

Definition validate_finite_values (values : list Z) (len : nat) : io_result unit :=
  values ← expect (get_slice 0 len values);
  ensure_input (forallb f32_is_finite values) "{value_name} contains non-finite value at offset {offset}: {value}".
Definition validate_queries (queries : list Z) (query_count dimension : nat) : io_result unit :=
  _ ← ensure_input (0 <? query_count)%nat "{name} must be greater than 0";
  expected_len ← or_input (checked_mul 64 (Z.of_nat query_count) (Z.of_nat dimension)) "nq * dimension overflows usize";
  _ ← ensure_input (zlen queries =? expected_len) "queries length {} does not match nq * dimension {}";
  validate_finite_values queries (Z.to_nat expected_len).

Section Queries.
Context (arch : Arch) (sgemm : nat → nat → nat → Z → list Z → list Z → Z → list Z → list Z).

Definition checked_cosine_norm (vector : list Z) : io_result Z :=
  let norm_squared := fvec_norm_l2sqr arch vector in
  _ ← ensure_data (negb (negb (forallb f32_is_finite vector) || negb (f32_is_finite norm_squared))) "non-finite cosine vector or norm";
  Ok (f32_sqrt norm_squared).

(** One query of [chunks_exact_mut(dimension)]. *)
Definition prepare_range_query (query : list Z) : io_result (list Z) :=
  let '(query, norm) := fvec_normalize arch query in
  _ ← ensure_data (negb (negb (f32_is_finite norm) || negb (forallb f32_is_finite query))) "non-finite normalized query";
  Ok query.
Definition prepare_range_queries (queries : list Z) (dimension : nat) (metric : MetricType) : io_result (list Z) :=
  if bool_decide (metric = Cosine) then
    normalized ← try_map prepare_range_query (chunks_exact dimension queries);
    Ok (concat normalized ++ remainder dimension queries)
  else Ok queries.

(** Parallel above a number of components, one query at a time in either case. *)
Definition probe_query (centroids : list Z) (dimension nlist nprobe : nat) (query : list Z) : io_result (list nat) :=
  r ← find_topk_checked arch query centroids nlist dimension nprobe;
  match (r : list (Z * nat) + nat) with
  | inl lists => Ok (snd <$> lists)
  | inr _ => Err (IoError InvalidData "non-finite query-centroid distance for list {list}")
  end.
Definition range_probe_lists (queries centroids : list Z) (dimension nlist nprobe : nat) (metric : MetricType) : io_result (list (list nat)) :=
  if bool_decide (metric = L2) then
    lists ← find_topk_batch arch sgemm queries (length queries / dimension) centroids nlist dimension nprobe;
    Ok (map (map snd) lists)
  else
    _ ← ensure_data (forallb f32_is_finite centroids) "non-finite IVF centroid";
    try_map (probe_query centroids dimension nlist nprobe) (chunks_exact dimension queries).
End Queries.

(** ** Queries that pass *)

(** A prepared batch has the shape of the queries; only cosine changes them. *)
Lemma fvec_normalize_length arch v : length (fvec_normalize arch v).1 = length v.
Proof. unfold fvec_normalize. case_match; cbn; [apply length_fmap|done]. Qed.
Lemma prepare_range_queries_length arch queries d metric prepared : (0 < d)%nat →
  prepare_range_queries arch queries d metric = Ok prepared → length prepared = length queries.
Proof.
  intros Hd. unfold prepare_range_queries. case_bool_decide; [|by intros [= <-]]. intros E. inv_ok. destruct (chunks_exact_spec d queries Hd) as [Ec Fc].
  rewrite <- Ec at 2. rewrite !length_app. f_equal. rename select (try_map _ _ = Ok _) into Hm. apply try_map_Ok in Hm. clear Ec.
  induction Hm as [|c r cs rs Hc _ IH]; [done|]. inversion Fc; subst. cbn. rewrite !length_app, IH by done. f_equal.
  unfold prepare_range_query in Hc. destruct (fvec_normalize arch c) as [q norm] eqn:En. inv_ok. pose proof (fvec_normalize_length arch c) as L. by rewrite En in L.
Qed.

(** The probed lists are in range, and each is probed once. *)
Lemma range_probe_lists_ok arch sgemm queries nq centroids d nlist nprobe metric lists :
  (∀ m n k alpha a b beta c, length (sgemm m n k alpha a b beta c) = length c ∧ Forall u32 (sgemm m n k alpha a b beta c)) →
  (0 < d)%nat → length centroids = (nlist * d)%nat → length queries = (nq * d)%nat → Z.of_nat nlist * Z.of_nat d < 2 ^ 63 → Z.of_nat nq * Z.of_nat d < 2 ^ 63 →
  range_probe_lists arch sgemm queries centroids d nlist nprobe metric = Ok lists →
  length lists = nq ∧ Forall (λ l, Forall (λ i, (i < nlist)%nat) l ∧ NoDup l ∧ (length l ≤ nprobe)%nat) lists.
Proof.
  intros Hsg Hd Hc Hq Hkd Hqd. unfold range_probe_lists.
  assert (∀ p l, selection arch centroids nlist d nprobe p l → Forall (λ i, (i < nlist)%nat) (snd <$> l) ∧ NoDup (snd <$> l) ∧ (length (snd <$> l) ≤ nprobe)%nat) as Hsel.
  { intros p l (_ & Hnd & Hf & Hl). split_and!; [|done|by rewrite length_fmap]. apply Forall_fmap. eapply Forall_impl; [exact Hf|]. by intros x [? _]. }
  case_bool_decide.
  - rewrite Hq, Nat.div_mul by lia. destruct (find_topk_batch_ok arch sgemm Hsg centroids nlist d Hc Hkd queries nq Hq Hqd nprobe) as (ls & -> & F). cbn [mbind io_result_bind].
    intros [= <-]. rewrite length_fmap. pose proof (Forall2_length _ _ _ F) as L. rewrite length_seq in L. split; [done|]. apply Forall_fmap, Forall_forall. intros l Hl.
    apply list_elem_of_lookup in Hl as [j Hj]. destruct (Forall2_lookup_r _ _ _ _ _ F Hj) as (qi & _ & Hs & _). by eapply Hsel.
  - intros E. inv_ok. rename select (try_map _ _ = Ok _) into Hm. apply try_map_Ok in Hm. destruct (concat_split d nq queries Hq) as (qs & -> & Hqs & Lqs).
    rewrite chunks_exact_concat in Hm by done. split; [by rewrite <- (Forall2_length _ _ _ Hm)|]. apply Forall_forall. intros l Hl.
    apply list_elem_of_lookup in Hl as [j Hj]. destruct (Forall2_lookup_r _ _ _ _ _ Hm Hj) as (q & Hq' & Ep). unfold probe_query in Ep.
    rewrite (find_topk_checked_ok arch centroids nlist d Hc) in Ep by exact (Forall_lookup_1 _ _ _ _ Hqs Hq'). cbn [mbind io_result_bind] in Ep.
    destruct (nprobe `min` nlist =? 0)%nat; [injection Ep as <-; split_and!; [constructor|constructor|cbn; lia]|].
    destruct (bad_centroid _ _ _ _ _); [done|]. injection Ep as <-. eapply Hsel. by apply nearest_selection.
Qed.
