(* ===== verification/Collect.v ===== *)
(** Collection policies of list scans: [core/src/collect.rs], with the two top-k
    heaps of [core/src/ivfflat.rs] and [core/src/ivfflat_io.rs].

    A scan hands every row to a collector, or reports that it abandoned the row
    against the collector's cutoff.  [CollectorLaws] is what a scan may rely on
    and what a collector promises: after any such sequence of deliveries the
    collector holds what its policy keeps of all rows offered. *)

From S2P Require Import Prelude F32 F64 TopK DiskannHeader Range.

(** ** The interface *)

Class Collector (C : Type) := {
  VALIDATE_COSINE_INPUTS : bool;
  note_abandoned : C → C;
  cutoff : C → Z;
  collect : C → Z → Z → io_result C;
}.
Arguments VALIDATE_COSINE_INPUTS C {_}.

(** A policy, a band or a number of rows, and what a collector holds after it was
    offered rows.  Rows are (distance, id) pairs, as in the heaps. *)
Class CollectorLaws (C P : Type) `{Collector C} := {
  collected : P → list (Z * Z) → C → Prop;
  collect_collected : ∀ p c rows id d c', u32 d → collected p rows c → collect c id d = Ok c' → collected p (rows ++ [(d, id)]) c';
  abandoned_collected : ∀ p c rows id d, u32 d → collected p rows c → f32_gt d (cutoff c) = true →
    collected p (rows ++ [(d, id)]) (note_abandoned c);
}.

(** ** Rows inside a band *)

Definition early_abandon_threshold (band : DistanceBand) : Z :=
  if negb (bool_decide (band_metric band = L2)) then f32_infinity
  else match band_upper band with Finite upper => upper | Unbounded => f32_infinity end.

Record RangeCollector := MkRangeCollector {
  rc_band : DistanceBand; rc_cutoff : Z; rc_rows : list (Z * Z); rc_scanned : Z; rc_abandoned : Z;
}.
Definition range_collector_new (band : DistanceBand) : RangeCollector :=
  MkRangeCollector band (early_abandon_threshold band) [] 0 0.
Definition range_collector_merge (self other : RangeCollector) : RangeCollector :=
  MkRangeCollector (rc_band self) (rc_cutoff self) (rc_rows self ++ rc_rows other) (rc_scanned self + rc_scanned other)
    (rc_abandoned self + rc_abandoned other).
Definition range_note_abandoned (c : RangeCollector) : RangeCollector :=
  MkRangeCollector (rc_band c) (rc_cutoff c) (rc_rows c) (rc_scanned c + 1) (rc_abandoned c + 1).
Definition range_push (c : RangeCollector) (id value : Z) : io_result RangeCollector :=
  let scanned := rc_scanned c + 1 in
  _ ← ensure_data (f32_is_finite value) "non-finite distance {value} computed for row {id}";
  Ok (MkRangeCollector (rc_band c) (rc_cutoff c)
        (if admit_raw (rc_band c) value then rc_rows c ++ [(id, value)] else rc_rows c) scanned (rc_abandoned c)).

#[export] Instance RangeCollector_Collector : Collector RangeCollector := {
  VALIDATE_COSINE_INPUTS := true;
  note_abandoned := range_note_abandoned;
  cutoff := rc_cutoff;
  collect := range_push;
}.

(** ** Top-k heaps of raw distances *)

(** [iter().enumerate().max_by(total_cmp)] returns the last of equal maxima. *)
Definition max_step (acc : option (nat * Z)) (x : nat * Z) : option (nat * Z) :=
  match acc with
  | None => Some x
  | Some w => if f32_total_gt w.2 x.2 then Some w else Some x
  end.
Definition worst_position (data : list (Z * Z)) : option nat := fst <$> foldl max_step None (imap (λ i e, (i, e.1)) data).

(** [FlatTopKHeap] of the in-memory index. *)
Record FlatTopKHeap := FlatHeap { ft_k : nat; ft_data : list (Z * Z) }.
Definition flat_heap_new (k : nat) : FlatTopKHeap := FlatHeap k [].
Definition flat_heap_push (h : FlatTopKHeap) (dist id : Z) : io_result FlatTopKHeap :=
  if (ft_k h =? 0)%nat || f32_is_nan dist then Ok h
  else if (length (ft_data h) <? ft_k h)%nat then Ok (FlatHeap (ft_k h) (ft_data h ++ [(dist, id)]))
  else match worst_position (ft_data h) with
       | Some worst_idx =>
           w ← expect (ft_data h !! worst_idx);
           if f32_total_lt dist w.1 then Ok (FlatHeap (ft_k h) (<[worst_idx := (dist, id)]> (ft_data h))) else Ok h
       | None => Ok h
       end.
Definition flat_heap_into_sorted (h : FlatTopKHeap) : list (Z * Z) := foldr insert_by_distance [] (ft_data h).

(** [ReaderTopKHeap]: the position of the worst entry is kept while full. *)
Record ReaderTopKHeap := ReaderHeap { rh_k : nat; rh_data : list (Z * Z); rh_worst : option nat }.
Definition reader_heap_new (k : nat) : ReaderTopKHeap := ReaderHeap k [] None.
(** [self.data[index]] panics when the position is stale. *)
Definition reader_worst_distance (h : ReaderTopKHeap) : option Z := index ← rh_worst h; fst <$> rh_data h !! index.
Definition refresh_worst (h : ReaderTopKHeap) : ReaderTopKHeap := ReaderHeap (rh_k h) (rh_data h) (worst_position (rh_data h)).
Definition reader_heap_push (h : ReaderTopKHeap) (dist id : Z) : io_result ReaderTopKHeap :=
  if (rh_k h =? 0)%nat || f32_is_nan dist then Ok h
  else if (length (rh_data h) <? rh_k h)%nat then
    let h := ReaderHeap (rh_k h) (rh_data h ++ [(dist, id)]) (rh_worst h) in
    Ok (if (length (rh_data h) =? rh_k h)%nat then refresh_worst h else h)
  else
    worst_index ← expect (rh_worst h);
    w ← expect (rh_data h !! worst_index);
    if f32_total_lt dist w.1 then Ok (refresh_worst (ReaderHeap (rh_k h) (<[worst_index := (dist, id)]> (rh_data h)) (rh_worst h)))
    else Ok h.
Definition reader_heap_into_sorted (h : ReaderTopKHeap) : list (Z * Z) := foldr insert_by_distance [] (rh_data h).
Definition reader_cutoff (h : ReaderTopKHeap) : Z := default f32_infinity (reader_worst_distance h).

#[export] Instance ReaderTopKHeap_Collector : Collector ReaderTopKHeap := {
  VALIDATE_COSINE_INPUTS := false;
  note_abandoned := λ h, h;
  cutoff := reader_cutoff;
  collect := λ h id value, reader_heap_push h value id;
}.

(** ** The collectors keep their promise *)

Lemma f32_gt_infinity d : u32 d → f32_gt d f32_infinity = false.
Proof.
  intros Hd. unfold f32_gt, f32_lt, f32_ordered. destruct (f32_is_nan d) eqn:Hn; [by rewrite andb_false_r|].
  destruct (f32_le_infinity d Hd Hn) as [H|H]; unfold f32_lt, f32_eq in H; apply andb_true_iff in H as [_ H]; lia.
Qed.

(** What a band keeps, in the order of the scan, and how many rows it saw. *)
Definition band_rows (band : DistanceBand) (rows : list (Z * Z)) : list (Z * Z) :=
  (λ e, (e.2, e.1)) <$> filter (λ e, admit_raw band e.1 = true) rows.
Definition range_collected (band : DistanceBand) (rows : list (Z * Z)) (c : RangeCollector) : Prop :=
  rc_band c = band ∧ rc_cutoff c = early_abandon_threshold band ∧ rc_rows c = band_rows band rows ∧ rc_scanned c = zlen rows ∧
  0 <= rc_abandoned c <= rc_scanned c - zlen (rc_rows c).

Lemma band_rows_snoc band rows d id :
  band_rows band (rows ++ [(d, id)]) = if admit_raw band d then band_rows band rows ++ [(id, d)] else band_rows band rows.
Proof.
  unfold band_rows. rewrite filter_app, filter_cons, filter_nil. cbn [fst]. rewrite fmap_app. destruct (admit_raw band d); [done|].
  rewrite decide_False by done. by rewrite app_nil_r.
Qed.

Lemma range_collected_new band : range_collected band [] (range_collector_new band).
Proof. unfold range_collected. by cbn. Qed.
Lemma range_collected_merge band r1 r2 c1 c2 :
  range_collected band r1 c1 → range_collected band r2 c2 → range_collected band (r1 ++ r2) (range_collector_merge c1 c2).
Proof.
  intros (B1 & C1 & R1 & S1 & A1) (_ & _ & R2 & S2 & A2). unfold range_collected, range_collector_merge; cbn.
  split_and!; [done|done|by unfold band_rows in *; rewrite R1, R2, filter_app, fmap_app|rewrite zlen_app; lia|lia|rewrite zlen_app; lia].
Qed.

#[export] Instance RangeCollector_laws : CollectorLaws RangeCollector DistanceBand.
Proof.
  refine {| collected := range_collected |}.
  - intros band c rows id d c' Hd Hc E. cbn in E. unfold range_push in E. inv_ok. destruct Hc as (B & C & R & S & A). unfold range_collected; cbn.
    rewrite band_rows_snoc, zlen_app, B, R in *. change (zlen [(d, id)]) with 1. rewrite S in *.
    split_and!; try done; destruct (admit_raw band d); rewrite ?zlen_app; change (zlen [(id, d)]) with 1; lia.
  - intros band c rows id d Hd (B & C & R & S & A) Hgt. cbn in Hgt. unfold range_collected; cbn. rewrite band_rows_snoc, zlen_app, R in *.
    change (zlen [(d, id)]) with 1. replace (admit_raw band d) with false; [rewrite S in *; split_and!; try done; lia|].
    rewrite C in Hgt. symmetry. unfold admit_raw, early_abandon_threshold in *. case_bool_decide; cbn in Hgt; [|by rewrite f32_gt_infinity in Hgt].
    destruct (band_upper band) as [|high]; [by rewrite f32_gt_infinity in Hgt|].
    replace (f32_lt d high) with false; [destruct (negb (f32_is_finite d)); [done|apply andb_false_r]|].
    unfold f32_gt, f32_lt in *. apply andb_true_iff in Hgt as [_ Hgt]. destruct (f32_ordered d high); [|done]. cbn. lia.
Defined.

(** The entry with the largest key, the last one among equals. *)
Definition dkey (e : Z * Z) : Z := f32_total_key e.1.

Lemma max_fold_spec data start acc w :
  foldl max_step acc (imap (λ i e, ((start + i)%nat, e.1)) data) = Some w →
  ((acc = Some w ∨ ∃ i e, data !! i = Some e ∧ w = ((start + i)%nat, e.1)) ∧
   (∀ a, acc = Some a → f32_total_key a.2 <= f32_total_key w.2) ∧ ∀ e, e ∈ data → dkey e <= f32_total_key w.2).
Proof.
  revert start acc. induction data as [|x data IH]; intros start acc; cbn [imap foldl].
  - intros ->. split_and!; [by left|by intros a [= ->]|by intros e He%not_elem_of_nil].
  - intros H. rewrite (imap_ext _ (λ i e, ((S start + i)%nat, e.1))) in H by (intros; cbn; do 2 f_equal; lia). apply IH in H as (Hw & Ha & Hd).
    cbn in Hw. rewrite Nat.add_0_r in *. split_and!.
    + destruct Hw as [E|(i & e & Hi & ->)]; [|right; exists (S i), e; split; [done|f_equal; lia]].
      unfold max_step in E. destruct acc as [a|]; [case_match; [by left|]|]; simplify_eq; right; exists 0%nat, x; (split; [done|f_equal; lia]).
    + intros a ->. unfold max_step in Ha. unfold f32_total_gt in Ha. cbn [snd] in Ha. destruct (Z.ltb_spec (f32_total_key x.1) (f32_total_key a.2));
        specialize (Ha _ eq_refl); cbn [snd] in *; lia.
    + intros e [->|He]%elem_of_cons; [|by apply Hd]. unfold dkey. destruct acc as [a|]; cbn [max_step] in Ha.
      * unfold f32_total_gt in Ha. cbn [snd] in Ha. destruct (Z.ltb_spec (f32_total_key x.1) (f32_total_key a.2)); specialize (Ha _ eq_refl); cbn [snd] in *; lia.
      * specialize (Ha _ eq_refl). done.
Qed.

Lemma worst_position_spec data i : worst_position data = Some i → ∃ w, data !! i = Some w ∧ ∀ e, e ∈ data → dkey e <= dkey w.
Proof.
  unfold worst_position. intros H. apply fmap_Some in H as ([j d] & H & ->). apply (max_fold_spec data 0) in H as (Hw & _ & Hd).
  destruct Hw as [|(k & e & Hk & [= -> ->])]; [done|]. exists e. split; [done|]. exact Hd.
Qed.
Lemma worst_position_Some data : data ≠ [] → ∃ i, worst_position data = Some i.
Proof.
  intros Hne. unfold worst_position. destruct data as [|x data]; [done|]. cbn [imap foldl max_step].
  generalize (0%nat, x.1). generalize (imap ((λ (i : nat) (e : Z * Z), (i, e.1)) ∘ S) data). intros l. induction l as [|y l IH]; intros w; cbn [foldl]; [by eexists|].
  cbn [max_step]. case_match; apply IH.
Qed.

(** ** The best rows

    [kept] are [k] rows, or all, and no row left out is nearer than one kept. *)
Definition best_k (k : nat) (rows kept : list (Z * Z)) : Prop :=
  ∃ rest, rows ≡ₚ kept ++ rest ∧ (∀ x y, x ∈ kept → y ∈ rest → dkey x <= dkey y) ∧ (length kept ≤ k)%nat ∧
    (length kept = k ∨ rest = []).
(** Rows with a distance; the heaps ignore a NaN. *)
Definition comparable (rows : list (Z * Z)) : list (Z * Z) := filter (λ e, f32_is_nan e.1 = false) rows.

#[export] Instance comparable_perm : Proper ((≡ₚ) ==> (≡ₚ)) comparable.
Proof. intros l l' H. unfold comparable. by rewrite H. Qed.
#[export] Instance best_k_perm k : Proper ((≡ₚ) ==> (≡ₚ) ==> iff) (best_k k).
Proof.
  intros rows rows' Hr kept kept' Hk. unfold best_k. setoid_rewrite Hr. by setoid_rewrite Hk.
Qed.

Lemma best_k_nil k : best_k k [] [].
Proof. exists []. split_and!; [done|by intros x y Hx%not_elem_of_nil|cbn; lia|by right]. Qed.
Lemma best_k_zero rows : best_k 0 rows [].
Proof. exists rows. split_and!; [done|by intros x y Hx%not_elem_of_nil|done|by left]. Qed.

Lemma best_k_add k rows kept x : best_k k rows kept → (length kept < k)%nat → best_k k (rows ++ [x]) (kept ++ [x]).
Proof.
  intros (rest & Hp & _ & _ & Hr) Hl. destruct Hr as [Hr|Hr]; [lia|]. subst rest. exists []. rewrite Hp, !app_nil_r, length_app. cbn.
  split_and!; [done|by intros ?? _ Hy%not_elem_of_nil|lia|by right].
Qed.

Lemma best_k_skip k rows kept x : best_k k rows kept → length kept = k → (∀ y, y ∈ kept → dkey y <= dkey x) → best_k k (rows ++ [x]) kept.
Proof.
  intros (rest & Hp & Hle & _ & _) Hl Hx. exists (rest ++ [x]). rewrite Hp, app_assoc. split_and!; [done| |lia|by left].
  intros y z Hy Hz. apply elem_of_app in Hz as [Hz|Hz%list_elem_of_singleton]; [by apply Hle|subst; by apply Hx].
Qed.

Lemma best_k_replace k rows kept i w x : best_k k rows kept → length kept = k → kept !! i = Some w → (∀ y, y ∈ kept → dkey y <= dkey w) →
  dkey x <= dkey w → best_k k (rows ++ [x]) (<[i := x]> kept).
Proof.
  intros (rest & Hp & Hle & _ & _) Hl Hi Hw Hx. exists (w :: rest). rewrite length_insert. pose proof (lookup_lt_Some _ _ _ Hi) as Hlt.
  assert (kept ++ [x] ≡ₚ <[i := x]> kept ++ [w]) as E.
  { rewrite (insert_take_drop kept i x Hlt). rewrite <- (take_drop_middle kept i w Hi) at 1. rewrite <- !app_assoc. cbn. f_equiv.
    rewrite <- !Permutation_middle, !app_nil_r. apply Permutation_swap. }
  split_and!; [|intros y z Hy Hz|lia|by left].
  - rewrite Hp, <- app_assoc, (Permutation_app_comm rest), app_assoc, E, <- app_assoc. done.
  - assert (dkey y <= dkey w) as Hyw.
    { apply list_elem_of_lookup in Hy as [j Hj]. apply list_lookup_insert_Some in Hj as [(_ & -> & _)|[_ Hj]]; [done|]. by apply Hw, (list_elem_of_lookup_2 _ j). }
    apply elem_of_cons in Hz as [->|Hz]; [done|]. etrans; [exact Hyw|]. apply Hle; [by eapply list_elem_of_lookup_2|done].
Qed.

Lemma comparable_snoc rows d id : comparable (rows ++ [(d, id)]) = if f32_is_nan d then comparable rows else comparable rows ++ [(d, id)].
Proof.
  unfold comparable. rewrite filter_app, filter_cons, filter_nil. cbn [fst]. destruct (f32_is_nan d); [rewrite decide_False by done; apply app_nil_r|done].
Qed.

Definition flat_collected (k : nat) (rows : list (Z * Z)) (h : FlatTopKHeap) : Prop := ft_k h = k ∧ best_k k (comparable rows) (ft_data h).

(** The in-memory heap never panics. *)
Lemma flat_heap_push_spec k rows h d id : flat_collected k rows h →
  ∃ h', flat_heap_push h d id = Ok h' ∧ flat_collected k (rows ++ [(d, id)]) h'.
Proof.
  intros [Hk Hb]. unfold flat_heap_push, flat_collected. rewrite Hk, comparable_snoc. destruct (Nat.eqb_spec k 0) as [->|Hk0]; cbn [orb].
  { exists h. split_and!; [done|done|]. destruct Hb as (rest & _ & _ & Hl & _). destruct (ft_data h); [|cbn in Hl; lia]. apply best_k_zero. }
  destruct (f32_is_nan d) eqn:Hn; [by exists h|]. destruct (Nat.ltb_spec (length (ft_data h)) k) as [Hl|Hl].
  { eexists. split_and!; [done|done|]. by apply best_k_add. }
  assert (length (ft_data h) = k) as Hfull by (destruct Hb as (rest & _ & _ & ? & _); lia).
  destruct (worst_position_Some (ft_data h)) as [i Hi]; [by intros E; rewrite E in Hfull|].
  destruct (worst_position_spec _ _ Hi) as (w & Hw & Hmax). rewrite Hi, Hw. cbn. unfold f32_total_lt. destruct (Z.ltb_spec (f32_total_key d) (f32_total_key w.1)).
  - eexists. split_and!; [done|done|]. eapply best_k_replace; [done|done|done|done|]. unfold dkey; cbn [fst]; lia.
  - exists h. split_and!; [done|done|]. apply best_k_skip; [done..|]. intros y Hy. specialize (Hmax y Hy). unfold dkey in *; cbn [fst]; lia.
Qed.

(** The reader heap: full exactly when it names its worst entry. *)
Definition reader_collected (k : nat) (rows : list (Z * Z)) (h : ReaderTopKHeap) : Prop :=
  rh_k h = k ∧ best_k k (comparable rows) (rh_data h) ∧
  rh_worst h = (if (length (rh_data h) =? k)%nat then worst_position (rh_data h) else None).

Lemma reader_collected_new k : reader_collected k [] (reader_heap_new k).
Proof. split_and!; [done|apply best_k_nil|]. cbn. by destruct k. Qed.

Lemma reader_full k rows h : reader_collected k rows h → k ≠ 0%nat → (k ≤ length (rh_data h))%nat →
  length (rh_data h) = k ∧ ∃ i w, rh_worst h = Some i ∧ rh_data h !! i = Some w ∧ ∀ e, e ∈ rh_data h → dkey e <= dkey w.
Proof.
  intros (_ & (rest & _ & _ & Hl & _) & Hw) Hk0 Hle. assert (length (rh_data h) = k) as Hf by lia. split; [done|].
  rewrite Hf, Nat.eqb_refl in Hw. destruct (worst_position_Some (rh_data h)) as [i Hi]; [by intros E; rewrite E in Hf|].
  destruct (worst_position_spec _ _ Hi) as (w & Hiw & Hmax). exists i, w. by rewrite Hw, Hi.
Qed.

Lemma reader_heap_push_spec k rows h d id : reader_collected k rows h →
  ∃ h', reader_heap_push h d id = Ok h' ∧ reader_collected k (rows ++ [(d, id)]) h'.
Proof.
  intros Hc. pose proof Hc as (Hk & Hb & Hw). unfold reader_heap_push, reader_collected. rewrite Hk, comparable_snoc.
  destruct (Nat.eqb_spec k 0) as [->|Hk0]; cbn [orb].
  { exists h. split_and!; [done|done| |done]. destruct Hb as (rest & _ & _ & Hl & _). destruct (rh_data h); [|cbn in Hl; lia]. apply best_k_zero. }
  destruct (f32_is_nan d) eqn:Hn; [by exists h|]. destruct (Nat.ltb_spec (length (rh_data h)) k) as [Hl|Hl].
  { cbn [rh_k rh_data rh_worst]. rewrite (proj2 (Nat.eqb_neq _ _)) in Hw by lia. rewrite Hw.
    destruct (length (rh_data h ++ [(d, id)]) =? k)%nat eqn:E; eexists; (split_and!; [done|done|by apply best_k_add|cbn; by rewrite E]). }
  destruct (reader_full k rows h Hc Hk0 Hl) as (Hfull & i & w & -> & Hi & Hmax). rewrite Hfull, Nat.eqb_refl in Hw.
  cbn. rewrite Hi. cbn. unfold f32_total_lt. destruct (Z.ltb_spec (f32_total_key d) (f32_total_key w.1)).
  - eexists. split_and!; [done|done| |cbn; by rewrite length_insert, Hfull, Nat.eqb_refl]. cbn.
    eapply best_k_replace; [done|done|done|done|]. unfold dkey; cbn [fst]; lia.
  - exists h. split_and!; [done|done| |by rewrite Hfull, Nat.eqb_refl]. apply best_k_skip; [done..|]. intros y Hy. specialize (Hmax y Hy). unfold dkey in *; cbn [fst]; lia.
Qed.

(** Above the worst entry in the IEEE order is above it in the total order. *)
Lemma f32_gt_total a b : u32 a → u32 b → f32_gt a b = true → f32_total_key b <= f32_total_key a.
Proof.
  intros Ha Hb Hgt. unfold f32_gt, f32_lt in Hgt. apply andb_true_iff in Hgt as [_ Hgt]. destruct (Z.le_gt_cases (f32_total_key b) (f32_total_key a)); [done|].
  pose proof (f32_total_lt_key a b Ha Hb ltac:(lia)). lia.
Qed.

#[export] Instance ReaderTopKHeap_laws : CollectorLaws ReaderTopKHeap nat.
Proof.
  refine {| collected := λ k rows h, Forall (λ e, u32 e.1) rows ∧ reader_collected k rows h |}.
  - intros k h rows id d h' Hd [Hu Hc] E. split; [by apply Forall_app; split; [|by constructor]|].
    destruct (reader_heap_push_spec k rows h d id Hc) as (h1 & E1 & H1). cbn in E. rewrite E1 in E. by injection E as <-.
  - intros k h rows id d Hd [Hu Hc] Hgt. split; [by apply Forall_app; split; [|by constructor]|].
    pose proof Hc as (Hk & Hb & Hw). cbn in *. unfold reader_collected. rewrite comparable_snoc. split_and!; [done| |done].
    destruct (f32_is_nan d) eqn:Hn; [done|]. unfold reader_cutoff, reader_worst_distance in Hgt.
    destruct (Nat.eqb_spec (length (rh_data h)) k) as [Hf|Hf]; [|rewrite Hw in Hgt; cbn in Hgt; by rewrite f32_gt_infinity in Hgt].
    destruct (decide (k = 0%nat)) as [->|Hk0]; [rewrite Hw in Hgt; destruct (rh_data h); [|done]; cbn in Hgt; by rewrite f32_gt_infinity in Hgt|].
    destruct (reader_full k rows h Hc Hk0 ltac:(lia)) as (_ & i & w & Ei & Hi & Hmax). rewrite Ei in Hgt. cbn in Hgt. rewrite Hi in Hgt. cbn in Hgt.
    assert (u32 w.1) as Huw.
    { destruct Hb as (rest & Hp & _). assert (w ∈ comparable rows) as Hin by (rewrite Hp; apply elem_of_app; left; by eapply list_elem_of_lookup_2).
      apply list_elem_of_filter in Hin as [_ Hin]. rewrite Forall_forall in Hu. by apply Hu. }
    pose proof (f32_gt_total d w.1 Hd Huw Hgt). apply best_k_skip; [done|done|]. intros y Hy. specialize (Hmax y Hy). unfold dkey in *. cbn [fst]. lia.
Defined.

(** The sorted result of a heap. *)
Definition nearest_first (l : list (Z * Z)) : Prop := Sorted (λ a b, dkey a <= dkey b) l.

Lemma sorted_by_distance l : foldr insert_by_distance [] l ≡ₚ l ∧ nearest_first (foldr insert_by_distance [] l).
Proof. exact (into_sorted_spec (Heap 0 0 l ∅)). Qed.

(** Merging the best of two sets of rows: the best rows of a part stand for it. *)
Lemma best_k_trans k rows kept kept' other : best_k k rows kept → best_k k (other ++ kept) kept' → best_k k (other ++ rows) kept'.
Proof.
  intros (rest & Hp & Hle & Hl & Hr) (rest' & Hp' & Hle' & Hl' & Hr').
  exists (rest' ++ rest). split_and!; [by rewrite Hp, app_assoc, Hp', app_assoc| |done|].
  - intros x y Hx Hy. apply elem_of_app in Hy as [Hy|Hy]; [by apply Hle'|].
    destruct Hr as [Hr|Hr]; [|subst rest; by apply elem_of_nil in Hy].
    destruct (decide (Exists (λ z, z ∈ kept) rest')) as [He|He].
    + apply Exists_exists in He as (z & Hz & Hzk). etrans; [by apply Hle'|by apply Hle].
    + assert (kept ⊆+ kept') as Hsub.
      { assert (kept ⊆+ kept' ++ rest') as Hs by (rewrite <- Hp'; apply submseteq_inserts_l; done).
        apply submseteq_app_r in Hs as (k1 & k2 & Ek & H1 & H2). destruct k2 as [|z k2]; [by rewrite Ek, app_nil_r|]. exfalso. apply He, Exists_exists.
        exists z. split; [eapply elem_of_submseteq; [|exact H2]; by left|]. rewrite Ek. apply elem_of_app. right. by left. }
      pose proof (submseteq_length_Permutation _ _ Hsub ltac:(lia)) as Hperm. apply Hle; [by rewrite Hperm|done].
  - destruct Hr as [Hr| ->]; [|destruct Hr' as [?| ->]; [by left|by right]]. left.
    apply Permutation_length in Hp'. rewrite !length_app in Hp'. destruct Hr' as [?| ->]; [done|]. cbn in Hp'. lia.
Qed.
