(* ===== verification/SectionWriter.v ===== *)
(** Buffered section output: [ChunkedSectionWriter], [pad_to] and
    [write_row_id_section] of [core/src/diskann_io.rs].

    The writers are proved against the [SeekWriteLaws] contract.  A writer that
    never fails ([InfallibleWrite]) turns "if it returns, the bytes are right"
    into "it returns and the bytes are right". *)

From S2P Require Import Prelude SeekIo Adjacency DiskannUtil RowIds.

Definition DISKANN_WRITE_BUFFER_SIZE : Z := 1024 * 1024.

Record ChunkedSectionWriter (W : Type) := Chunked { cw_out : W; cw_buffer : list Z }.
Arguments Chunked {_} _ _.
Arguments cw_out {_} _.
Arguments cw_buffer {_} _.

Section Writer.
Context `{SeekWrite W}.

Definition chunked_new (out : W) : ChunkedSectionWriter W := Chunked out [].

Definition flush (w : ChunkedSectionWriter W) : io_result (ChunkedSectionWriter W) :=
  match cw_buffer w with
  | [] => Ok w
  | buffer => out ← write_all (cw_out w) buffer; Ok (Chunked out [])
  end.

(** Every round copies at least one byte, so the bytes themselves are the fuel. *)
Fixpoint write_bytes_loop (fuel : nat) (w : ChunkedSectionWriter W) (bytes : list Z) :
    io_result (ChunkedSectionWriter W) :=
  match fuel with
  | O => Ok w
  | S fuel =>
      match bytes with
      | [] => Ok w
      | _ =>
          w ← (if zlen (cw_buffer w) =? DISKANN_WRITE_BUFFER_SIZE then flush w else Ok w);
          let available := DISKANN_WRITE_BUFFER_SIZE - zlen (cw_buffer w) in
          let chunk := Z.to_nat (Z.min available (zlen bytes)) in
          write_bytes_loop fuel (Chunked (cw_out w) (cw_buffer w ++ take chunk bytes)) (drop chunk bytes)
      end
  end.
Definition write_bytes (w : ChunkedSectionWriter W) (bytes : list Z) : io_result (ChunkedSectionWriter W) :=
  write_bytes_loop (S (length bytes)) w bytes.

Definition finish (w : ChunkedSectionWriter W) : io_result W := cw_out <$> flush w.

(** [for chunk in chunks { writer.write_bytes(chunk)? }] *)
Definition write_chunks (w : ChunkedSectionWriter W) (chunks : list (list Z)) : io_result (ChunkedSectionWriter W) :=
  try_fold write_bytes w chunks.

Definition write_row_id_section (s : RowIdStorage) (w : ChunkedSectionWriter W) : io_result (ChunkedSectionWriter W) :=
  w ← write_bytes w (section_header s);
  match s with
  | Raw ids => write_chunks w ((λ id, le_bytes 8 (wrap 64 id)) <$> ids)
  | ForBitPacked _ _ _ payload => write_bytes w payload
  end.

(** [pad_to]: zeroes in chunks of up to 4096. *)
Fixpoint pad_loop (fuel : nat) (out : W) (remaining : Z) : io_result W :=
  match fuel with
  | O => Ok out
  | S fuel =>
      if remaining =? 0 then Ok out else
      let chunk := Z.min remaining 4096 in
      out ← write_all out (replicate (Z.to_nat chunk) 0);
      pad_loop fuel out (remaining - chunk)
  end.
Definition pad_to (out : W) (target : Z) : io_result W :=
  padding ← or_input (checked_sub target (pos out)) "DiskANN writer passed a section offset";
  remaining ← or_input (try_from 64 padding) "DiskANN padding exceeds usize";
  pad_loop (S (Z.to_nat remaining)) out remaining.

End Writer.

(** A writer whose writes always succeed, as an in-memory buffer's do. *)
Class InfallibleWrite (W : Type) `{SeekWrite W} := {
  write_all_ok : ∀ w buf, ∃ w', write_all w buf = Ok w';
}.
#[export] Instance PosWriter_InfallibleWrite : InfallibleWrite PosWriter.
Proof. split. intros w buf. by eexists. Defined.

(** ** What reaches the output *)

Section Laws.
Context `{LW : SeekWriteLaws W, IW : !InfallibleWrite W}.
Implicit Types (w : ChunkedSectionWriter W) (out : W).

(** The bytes written so far, counting the buffered ones. *)
Definition view (w : ChunkedSectionWriter W) : list Z := written (cw_out w) ++ cw_buffer w.
Definition cw_pos (w : ChunkedSectionWriter W) : Z := pos (cw_out w) + zlen (cw_buffer w).
Definition cw_ok (w : ChunkedSectionWriter W) : Prop := zlen (cw_buffer w) <= DISKANN_WRITE_BUFFER_SIZE.

(** [w'] is [w] with [bytes] appended. *)
Definition appends (w w' : ChunkedSectionWriter W) (bytes : list Z) : Prop :=
  view w' = view w ++ bytes ∧ cw_pos w' = cw_pos w + zlen bytes ∧ cw_ok w'.

Lemma appends_nil w : cw_ok w → appends w w [].
Proof. intros. unfold appends. rewrite app_nil_r. split_and!; [done| |done]. unfold zlen; cbn; lia. Qed.

Lemma appends_trans w1 w2 w3 a b : appends w1 w2 a → appends w2 w3 b → appends w1 w3 (a ++ b).
Proof.
  intros (E1 & P1 & _) (E2 & P2 & O). unfold appends. rewrite E2, E1, app_assoc, zlen_app. split_and!; [done|lia|done].
Qed.

Lemma flush_spec w : cw_ok w → ∃ w', flush w = Ok w' ∧ appends w w' [] ∧ cw_buffer w' = [].
Proof.
  intros Hok. unfold flush. destruct (cw_buffer w) as [|b buf] eqn:E.
  - exists w. split_and!; [done|by apply appends_nil|done].
  - destruct (write_all_ok (cw_out w) (b :: buf)) as [out Hout]. rewrite Hout. eexists. split_and!; [done| |done].
    unfold appends, view, cw_pos, cw_ok. cbn. rewrite (write_all_written _ _ _ Hout), (write_all_pos _ _ _ Hout), E, !app_nil_r.
    unfold DISKANN_WRITE_BUFFER_SIZE, zlen. split_and!; [done|cbn; lia|cbn; lia].
Qed.

Lemma write_bytes_loop_spec fuel w bytes :
  cw_ok w → (length bytes < fuel)%nat → ∃ w', write_bytes_loop fuel w bytes = Ok w' ∧ appends w w' bytes.
Proof.
  revert w bytes. induction fuel as [|fuel IH]; intros w bytes Hok Hf; [lia|]. cbn [write_bytes_loop].
  destruct bytes as [|b bytes]; [exists w; split; [done|by apply appends_nil]|].
  assert (∃ w1, (if zlen (cw_buffer w) =? DISKANN_WRITE_BUFFER_SIZE then flush w else Ok w) = Ok w1 ∧ appends w w1 [] ∧
    zlen (cw_buffer w1) < DISKANN_WRITE_BUFFER_SIZE) as (w1 & -> & Ha1 & Hlt).
  { destruct (Z.eqb_spec (zlen (cw_buffer w)) DISKANN_WRITE_BUFFER_SIZE).
    - destruct (flush_spec w Hok) as (w1 & ? & ? & E). exists w1. by rewrite E.
    - exists w. split_and!; [done|by apply appends_nil|]. unfold cw_ok in Hok. lia. }
  cbn [mbind io_result_bind]. set (chunk := Z.to_nat _).
  assert (0 < chunk ≤ length (b :: bytes))%nat as Hc by (unfold chunk, zlen in *; cbn [length]; lia).
  assert (appends w1 (Chunked (cw_out w1) (cw_buffer w1 ++ take chunk (b :: bytes))) (take chunk (b :: bytes))) as Ha2.
  { unfold appends, view, cw_pos, cw_ok. cbn [cw_out cw_buffer]. rewrite app_assoc, !zlen_app. split_and!; [done|lia|].
    unfold zlen at 2. rewrite length_take. unfold chunk, zlen in *. cbn [length]. lia. }
  destruct (IH (Chunked (cw_out w1) (cw_buffer w1 ++ take chunk (b :: bytes))) (drop chunk (b :: bytes))) as (w2 & E & Ha3);
    [apply Ha2|rewrite length_drop; lia|].
  exists w2. split; [exact E|]. rewrite <- (take_drop chunk (b :: bytes)). rewrite <- (app_nil_l (take _ _ ++ _)).
  eapply appends_trans; [exact Ha1|]. by eapply appends_trans.
Qed.

Lemma write_bytes_spec w bytes : cw_ok w → ∃ w', write_bytes w bytes = Ok w' ∧ appends w w' bytes.
Proof. intros. apply write_bytes_loop_spec; [done|lia]. Qed.

Lemma write_chunks_spec w chunks : cw_ok w → ∃ w', write_chunks w chunks = Ok w' ∧ appends w w' (concat chunks).
Proof.
  unfold write_chunks. revert w. induction chunks as [|c chunks IH]; intros w Hok; cbn [try_fold concat].
  { exists w. split; [done|by apply appends_nil]. }
  destruct (write_bytes_spec w c Hok) as (w1 & -> & H1). cbn [mbind io_result_bind].
  destruct (IH w1) as (w2 & -> & H2); [apply H1|]. exists w2. split; [done|]. by eapply appends_trans.
Qed.

Lemma write_row_id_section_spec s w :
  cw_ok w → ∃ w', write_row_id_section s w = Ok w' ∧ appends w w' (concat (row_id_section_chunks s)).
Proof.
  intros Hok. unfold write_row_id_section, row_id_section_chunks. cbn [concat].
  destruct (write_bytes_spec w (section_header s) Hok) as (w1 & -> & H1). cbn [mbind io_result_bind].
  destruct s as [ids|base bw c payload].
  - destruct (write_chunks_spec w1 ((λ id, le_bytes 8 (wrap 64 id)) <$> ids)) as (w2 & -> & H2); [apply H1|].
    exists w2. split; [done|]. by eapply appends_trans.
  - destruct (write_bytes_spec w1 payload) as (w2 & -> & H2); [apply H1|]. exists w2. split; [done|].
    cbn [concat]. rewrite app_nil_r. by eapply appends_trans.
Qed.

Lemma finish_spec w :
  cw_ok w → ∃ out, finish w = Ok out ∧ written out = view w ∧ pos out = cw_pos w.
Proof.
  intros Hok. destruct (flush_spec w Hok) as (w' & E & (Ev & Ep & _) & Eb). unfold finish. rewrite E.
  eexists. split; [reflexivity|]. unfold view, cw_pos in Ev, Ep. rewrite Eb in *. unfold zlen in Ep. cbn in Ep.
  rewrite !app_nil_r in Ev. split; [done|]. unfold cw_pos, zlen. lia.
Qed.

Lemma pad_loop_spec fuel out remaining :
  0 <= remaining → (Z.to_nat remaining < fuel)%nat →
  ∃ out', pad_loop fuel out remaining = Ok out' ∧ written out' = written out ++ replicate (Z.to_nat remaining) 0 ∧
    pos out' = pos out + remaining.
Proof.
  revert out remaining. induction fuel as [|fuel IH]; intros out remaining Hr Hf; [lia|]. cbn [pad_loop].
  destruct (Z.eqb_spec remaining 0) as [->|]; [exists out; cbn; rewrite app_nil_r; split_and!; [done|done|lia]|].
  destruct (write_all_ok out (replicate (Z.to_nat (Z.min remaining 4096)) 0)) as [o1 E1]. rewrite E1. cbn [mbind io_result_bind].
  destruct (IH o1 (remaining - Z.min remaining 4096)) as (o2 & E2 & W2 & P2); [lia|lia|].
  exists o2. split; [done|]. rewrite W2, P2, (write_all_written _ _ _ E1), (write_all_pos _ _ _ E1), <- app_assoc, <- replicate_add.
  unfold zlen. rewrite length_replicate. split; [do 2 f_equal; lia|lia].
Qed.

Lemma pad_to_spec out target :
  0 <= pos out <= target → target < 2 ^ 64 →
  ∃ out', pad_to out target = Ok out' ∧
    written out' = written out ++ replicate (Z.to_nat (target - pos out)) 0 ∧ pos out' = target.
Proof.
  intros Hp Ht. unfold pad_to. rewrite (proj2 (checked_sub_Some target (pos out) _)) by (split; [reflexivity|lia]).
  cbn [or_input ok_or mbind io_result_bind].
  rewrite (proj2 (try_from_Some 64 (target - pos out) _)) by (split; [reflexivity|lia]). cbn [or_input ok_or mbind io_result_bind].
  destruct (pad_loop_spec (S (Z.to_nat (target - pos out))) out (target - pos out)) as (out' & -> & Hw & Hpos); [lia|lia|].
  exists out'. split_and!; [done|done|lia].
Qed.

End Laws.

(** A section writer hands the output exactly the concatenation of what it
    was given, in order and whatever the chunk sizes, with the position advanced
    by its length; padding adds zeroes up to the target and nothing more. *)
Theorem section_writer_exact `{LW : SeekWriteLaws W, IW : !InfallibleWrite W} (out : W) (chunks : list (list Z))
    (target : Z) :
  0 <= pos out → pos out + zlen (concat chunks) <= target < 2 ^ 64 →
  ∃ w out1 out2, write_chunks (chunked_new out) chunks = Ok w ∧ finish w = Ok out1 ∧ pad_to out1 target = Ok out2 ∧
    written out1 = written out ++ concat chunks ∧ pos out1 = pos out + zlen (concat chunks) ∧
    written out2 = written out1 ++ replicate (Z.to_nat (target - pos out1)) 0 ∧ pos out2 = target.
Proof.
  intros Hp Ht. assert (cw_ok (chunked_new out)) as Hok by (unfold cw_ok, zlen, DISKANN_WRITE_BUFFER_SIZE; cbn; lia).
  destruct (write_chunks_spec _ chunks Hok) as (w & Ew & (Ev & Epos & Hok')).
  destruct (finish_spec w Hok') as (out1 & Ef & Hw & Hp1).
  unfold view, cw_pos in Ev, Epos. cbn [chunked_new cw_out cw_buffer] in Ev, Epos. rewrite app_nil_r in Ev.
  fold (view w) in Ev. fold (cw_pos w) in Epos. change (zlen []) with 0 in Epos.
  destruct (pad_to_spec out1 target) as (out2 & Ep & Hw2 & Hp2); [pose proof (zlen_nonneg (concat chunks)); lia|lia|].
  exists w, out1, out2. split_and!; try done; try congruence. lia.
Qed.

Lemma section_writer_exact_witness :
  ∃ w out1 out2, write_chunks (chunked_new (pos_writer_new [])) [[1; 2]; []; [3]] = Ok w ∧ finish w = Ok out1 ∧
    pad_to out1 6 = Ok out2 ∧
    written out1 = written (pos_writer_new []) ++ concat [[1; 2]; []; [3]] ∧
    pos out1 = pos (pos_writer_new []) + zlen (concat [[1; 2]; []; [3]]) ∧
    written out2 = written out1 ++ replicate (Z.to_nat (6 - pos out1)) 0 ∧ pos out2 = 6.
Proof. refine (section_writer_exact (pos_writer_new []) [[1; 2]; []; [3]] 6 _ _); [done|by vm_compute]. Defined.
