(* ===== verification/IvfFlatFile.v ===== *)
(** The IVF-Flat file: [core/src/ivfflat_io.rs], writer and list reader.

    A 64-byte header, the centroids, an offset table with one entry per list,
    and the lists, each with its delta-coded identifiers in increasing order and
    its raw vectors in the same order.  Operations return the reader with their
    result; an error ends the call, and [loaded] is set only when everything was
    read. *)

From S2P Require Import Prelude SeekIo IndexIoUtil F32 DiskannUtil DiskannHeader SectionWriter.
Import Varint Validate Batch.

Definition IVFFLAT_MAGIC : Z := 0x4956464C.
Definition IVFFLAT_VERSION : Z := 1.
Definition IVFFLAT_HEADER_SIZE : Z := 64.
Definition FLAG_DELTA_IDS : Z := Z.shiftl 1 0.
Definition REQUIRED_FLAGS : Z := FLAG_DELTA_IDS.
Definition SUPPORTED_FLAGS : Z := REQUIRED_FLAGS.
Definition IVFFLAT_WRITE_BUFFER_SIZE : Z := 64 * 1024 * 1024.

(** The part of [IVFFlatIndex] the writer reads. *)
Record FlatIndex := Flat {
  fx_d : Z; fx_nlist : Z; fx_metric : MetricType; fx_centroids : list Z; fx_ids : list (list Z); fx_vectors : list (list Z);
}.

(** ** Identifiers *)

Fixpoint encode_varint_loop (fuel : nat) (val : Z) (buf : list Z) : list Z :=
  match fuel with
  | O => buf
  | S fuel =>
      if 0x80 <=? val then encode_varint_loop fuel (Z.shiftr val 7) (buf ++ [Z.lor (wrap 8 val) 0x80])
      else buf ++ [wrap 8 val]
  end.
Definition encode_varint (val : Z) (buf : list Z) : list Z := encode_varint_loop 10 val buf.

(** The shift grows by seven and stops beyond 63: ten rounds. *)
Fixpoint decode_varint_loop (fuel : nat) (buf : list Z) (pos : nat) (val shift : Z) : io_result (Z * nat) :=
  match fuel with
  | O => Panic
  | S fuel =>
      _ ← ensure_data (pos <? length buf)%nat "truncated varint";
      b ← expect (buf !! pos);
      let pos := S pos in
      let payload := Z.land b 0x7f in
      _ ← ensure_data (negb ((shift =? 63) && (1 <? payload))) "varint exceeds u64 range";
      let val := Z.lor val (wrap 64 (Z.shiftl payload shift)) in
      if Z.land b 0x80 =? 0 then Ok (val, pos)
      else
        let shift := shift + 7 in
        _ ← ensure_data (negb (63 <? shift)) "varint exceeds 64 bits";
        decode_varint_loop fuel buf pos val shift
  end.
Definition decode_varint (buf : list Z) (pos : nat) : io_result (Z * nat) := decode_varint_loop 10 buf pos 0 0.

Fixpoint flat_encode_loop (ids : list Z) (prev : Z) (buf : list Z) : list Z :=
  match ids with
  | [] => buf
  | id :: ids => flat_encode_loop ids id (encode_varint (wrap 64 (wrap 64 id - wrap 64 prev)) buf)
  end.
Definition flat_encode_ids (ids : list Z) : Z * list Z :=
  match ids with [] => (0, []) | base :: _ => (base, flat_encode_loop ids base []) end.

Fixpoint flat_decode_loop (count : nat) (buf : list Z) (pos : nat) (current prev_signed : Z) : io_result (list Z) :=
  match count with
  | O => Ok []
  | S count =>
      '(delta, pos) ← decode_varint buf pos;
      let current := wrap 64 (current + delta) in
      let id := to_signed 64 current in
      _ ← ensure_data (negb (id <? prev_signed)) "decoded ID sequence is not monotonically non-decreasing";
      ids ← flat_decode_loop count buf pos current id;
      Ok (id :: ids)
  end.
Definition flat_decode_ids (base : Z) (buf : list Z) (count : nat) : io_result (list Z) :=
  flat_decode_loop count buf 0 (wrap 64 base) base.

(** [order.sort_by_key(|&idx| ids[idx])] is stable: the positions of a list by
    identifier, equal ones in their old order. *)
Definition id_le (a b : Z * nat) : Prop := a.1 < b.1 ∨ (a.1 = b.1 ∧ (a.2 ≤ b.2)%nat).
#[export] Instance id_le_dec : RelDecision id_le := λ a b, or_dec _ _.
Definition sorted_positions (ids : list Z) : list nat := snd <$> merge_sort id_le (imap (λ i id, (id, i)) ids).

(** ** Writing *)

Definition flat_checked_section_size (a b : Z) : io_result Z :=
  result ← or_data (checked_mul 64 a b) "section size overflow in IVF-FLAT header";
  _ ← ensure_data (result <=? MAX_SECTION_ELEMENTS) "section size {} exceeds maximum {}";
  Ok result.
Definition flat_checked_list_bytes (count bytes_per_entry : Z) : io_result Z :=
  or_data (checked_mul 64 count bytes_per_entry) "IVF-FLAT list byte size overflow".

Definition check_list_shape (d : Z) (list_of : list Z * list Z) : io_result unit :=
  expected_vector_len ← or_input (checked_mul 64 (zlen list_of.1) d) "IVF-FLAT vector length overflow";
  ensure_input (zlen list_of.2 =? expected_vector_len) "list {} vector length {} does not match ids*d {}".
Definition validate_index_shape (index : FlatIndex) : io_result unit :=
  _ ← ensure_input (negb (fx_d index =? 0)) "dimension must be greater than 0";
  _ ← ensure_input (negb (fx_nlist index =? 0)) "nlist must be greater than 0";
  _ ← ensure_input ((zlen (fx_ids index) =? fx_nlist index) && (zlen (fx_vectors index) =? fx_nlist index))
        "IVF-FLAT list storage does not match nlist";
  centroid_len ← flat_checked_section_size (fx_nlist index) (fx_d index);
  _ ← ensure_input (zlen (fx_centroids index) =? centroid_len) "centroid length {} does not match nlist*d {}";
  try_fold (λ _ list_of, check_list_shape (fx_d index) list_of) () (zip (fx_ids index) (fx_vectors index)).

Section Writer.
Context `{SeekWrite W}.

(** The inner [while offset < bytes.len()]; the buffer is never full on entry, so
    every round takes a byte. *)
Fixpoint buffer_bytes (fuel : nat) (out : W) (buffer bytes : list Z) (buffer_limit : Z) : io_result (W * list Z) :=
  match fuel with
  | O => Ok (out, buffer)
  | S fuel =>
      match bytes with
      | [] => Ok (out, buffer)
      | _ =>
          let len := Z.to_nat (Z.min (buffer_limit - zlen buffer) (zlen bytes)) in
          let buffer := buffer ++ take len bytes in
          if zlen buffer =? buffer_limit then
            out ← write_all out buffer; buffer_bytes fuel out [] (drop len bytes) buffer_limit
          else buffer_bytes fuel out buffer (drop len bytes) buffer_limit
      end
  end.
Definition write_f32_iter (out : W) (data : list Z) (buffer_limit : Z) : io_result W :=
  let buffer_limit := Z.max buffer_limit 1 in
  '(out, buffer) ← try_fold (λ '(out, buffer) value, buffer_bytes 4 out buffer (le_bytes 4 value) buffer_limit) (out, []) data;
  match buffer with [] => Ok out | _ => write_all out buffer end.

(** [order] and the encoded identifiers of one list; an empty list has neither. *)
Definition sort_list (ids : list Z) : io_result (list nat * list Z) :=
  match ids with
  | [] => Ok ([], [])
  | _ =>
      let order := sorted_positions ids in
      sorted_ids ← try_map (λ idx, expect (ids !! idx)) order;
      Ok (order, (flat_encode_ids sorted_ids).2)
  end.

(** One entry of the offset table; the state is [current_offset]. *)
Definition plan_list (bytes_per_vector : Z) (current_offset : Z) (sorted : list nat * list Z) : io_result (Z * Z * Z * Z) :=
  list_offset ← u64_to_i64 current_offset;
  list_count ← usize_to_i32 (zlen sorted.1);
  if 0 <? zlen sorted.1 then
    id_bytes_len ← usize_to_i32 (zlen sorted.2);
    vector_bytes ← flat_checked_list_bytes (zlen sorted.1) bytes_per_vector;
    list_bytes ← or_input (len ← checked_add 64 12 (zlen sorted.2); checked_add 64 len vector_bytes) "IVF-FLAT list size overflow";
    next_offset ← or_input (checked_add 64 current_offset list_bytes) "IVF-FLAT offset overflow";
    Ok (list_offset, list_count, id_bytes_len, next_offset)
  else Ok (list_offset, list_count, 0, current_offset).
Fixpoint plan_lists (bytes_per_vector current_offset : Z) (sorted : list (list nat * list Z)) : io_result (list (Z * Z * Z)) :=
  match sorted with
  | [] => Ok []
  | s :: sorted =>
      '(list_offset, list_count, id_bytes_len, next_offset) ← plan_list bytes_per_vector current_offset s;
      rest ← plan_lists bytes_per_vector next_offset sorted;
      Ok ((list_offset, list_count, id_bytes_len) :: rest)
  end.

Definition write_table_entry (out : W) (entry : Z * Z * Z) : io_result W :=
  let '(list_offset, list_count, id_bytes_len) := entry in
  out ← write_i64_le out list_offset;
  out ← write_i32_le out list_count;
  write_i32_le out id_bytes_len.

(** The bytes of one list; the vectors follow [order]. *)
Definition write_list (d : Z) (buffer_limit : Z) (out : W) (item : list Z * list Z * (list nat * list Z)) : io_result W :=
  let '(ids, vectors, (order, id_bytes)) := item in
  match order with
  | [] => Ok out
  | first :: _ =>
      first_id ← expect (ids !! first);
      out ← write_i64_le out first_id;
      out ← write_i32_le out (to_signed 32 (zlen id_bytes));
      out ← write_all out id_bytes;
      rows ← try_map (λ idx, expect (get_slice (idx * Z.to_nat d) (Z.to_nat d) vectors)) order;
      write_f32_iter out (concat rows) buffer_limit
  end.

Definition count_vectors (sum : Z) (ids : list Z) : io_result Z :=
  count ← usize_to_i64 (zlen ids);
  or_input (checked_add 63 sum count) "total vector count exceeds i64 length limit".

Definition write_ivfflat_index_with_buffer_limit (index : FlatIndex) (out : W) (buffer_limit : Z) : io_result W :=
  let d := fx_d index in
  let nlist := fx_nlist index in
  _ ← validate_index_shape index;
  bytes_per_vector ← or_input (checked_mul 64 d 4) "IVF-FLAT bytes per vector overflow";
  d_i32 ← usize_to_i32 d;
  nlist_i32 ← usize_to_i32 nlist;
  total_vectors ← try_fold count_vectors 0 (fx_ids index);
  sorted_lists ← try_map sort_list (fx_ids index);
  out ← write_u32_le out IVFFLAT_MAGIC;
  out ← write_u32_le out IVFFLAT_VERSION;
  out ← write_i32_le out d_i32;
  out ← write_i32_le out nlist_i32;
  out ← write_u32_le out (metric_code (fx_metric index));
  out ← write_i64_le out total_vectors;
  out ← write_u32_le out FLAG_DELTA_IDS;
  out ← write_all out (replicate 32 0);
  out ← write_f32_iter out (fx_centroids index) buffer_limit;
  offset_table_size ← or_input (checked_mul 64 nlist 16) "IVF-FLAT offset table size overflow";
  data_start ← or_input (checked_add 64 (pos out) offset_table_size) "IVF-FLAT data start offset overflow";
  table ← plan_lists bytes_per_vector data_start sorted_lists;
  out ← try_fold write_table_entry out table;
  try_fold (write_list d buffer_limit) out (zip (zip (fx_ids index) (fx_vectors index)) sorted_lists).
Definition write_ivfflat_index (index : FlatIndex) (out : W) : io_result W :=
  write_ivfflat_index_with_buffer_limit index out IVFFLAT_WRITE_BUFFER_SIZE.
End Writer.

(** ** Aligned list payloads

    One list as read from the file, with at most three bytes in front so that the
    vectors start at a multiple of four.  [pl_storage] are the bytes of the
    [Vec<f32>] allocation, itself aligned; on a little-endian host its words are
    the values.  [decoded_vectors] serves big-endian hosts only. *)
Record AlignedFlatPayload := Payload {
  pl_storage : list Z; pl_read_start : Z; pl_payload_len : Z; pl_vector_start : Z; pl_vector_len : Z;
}.
Definition payload_new (payload_len vector_start vector_len : Z) : io_result AlignedFlatPayload :=
  vector_end ← or_data (checked_add 64 vector_start vector_len) "IVF-FLAT vector suffix overflow";
  _ ← ensure_data ((vector_end =? payload_len) && (vector_len mod 4 =? 0)) "IVF-FLAT vector suffix has an invalid shape";
  let alignment := 4 in
  let read_start := (alignment - vector_start mod alignment) mod alignment in
  storage_bytes ← or_data (checked_add 64 read_start payload_len) "IVF-FLAT aligned payload overflow";
  let storage_len := div_ceil storage_bytes 4 in
  Ok (Payload (replicate (Z.to_nat (storage_len * 4)) 0) read_start payload_len vector_start vector_len).
Definition payload_empty : AlignedFlatPayload := Payload [] 0 0 0 0.
(** [pread] fills the slice [read_buf_mut] returns. *)
Definition read_into (p : AlignedFlatPayload) (bytes : list Z) : AlignedFlatPayload :=
  Payload (splice (Z.to_nat (pl_read_start p)) bytes (pl_storage p)) (pl_read_start p) (pl_payload_len p) (pl_vector_start p) (pl_vector_len p).
Definition read_bytes (p : AlignedFlatPayload) : io_result (list Z) :=
  expect (get_slice (Z.to_nat (pl_read_start p)) (Z.to_nat (pl_payload_len p)) (pl_storage p)).
(** [&self.read_bytes()[self.vector_start..]] as [f32] values; the [debug_assert]
    is the alignment the unsafe view needs. *)
Definition payload_vectors (p : AlignedFlatPayload) : io_result (list Z) :=
  bytes ← read_bytes p;
  vector_bytes ← expect (get_slice (Z.to_nat (pl_vector_start p)) (length bytes - Z.to_nat (pl_vector_start p)) bytes);
  _ ← (if (pl_read_start p + pl_vector_start p) mod 4 =? 0 then Ok () else Panic);
  Ok (le_val <$> chunks_exact 4 (take (Z.to_nat (pl_vector_len p / 4) * 4) vector_bytes)).

(** ** Reading *)

Record IVFFlatIndexReader (R : Type) := FlatReader {
  fr_reader : R; fr_d : Z; fr_nlist : Z; fr_metric : MetricType; fr_total_vectors : Z; fr_centroids : list Z;
  fr_offsets : list Z; fr_counts : list Z; fr_id_bytes_lens : list Z; fr_delta_ids : bool; fr_loaded : bool;
}.
Arguments FlatReader {_} _ _ _ _ _ _ _ _ _ _ _.
Arguments fr_reader {_} _.
Arguments fr_d {_} _.
Arguments fr_nlist {_} _.
Arguments fr_metric {_} _.
Arguments fr_total_vectors {_} _.
Arguments fr_centroids {_} _.
Arguments fr_offsets {_} _.
Arguments fr_counts {_} _.
Arguments fr_id_bytes_lens {_} _.
Arguments fr_delta_ids {_} _.
Arguments fr_loaded {_} _.

Record FlatListData := ListData { ld_list_id : nat; ld_ids : list Z; ld_payload : AlignedFlatPayload }.
Record FlatListRead := ListRead {
  lr_input_index : nat; lr_list_id : nat; lr_count : nat; lr_id_bytes_len : nat; lr_offset : Z;
}.

Section Reader.
Context `{SeekRead R}.
Implicit Types r : IVFFlatIndexReader R.

Definition open_with_header (reader : R) (header : list Z) : io_result (IVFFlatIndexReader R) :=
  _ ← ensure_data (le_val (slice 0 4 header) =? IVFFLAT_MAGIC) "Invalid IVFFLAT magic: 0x{:08X}";
  _ ← ensure_data (le_val (slice 4 4 header) =? IVFFLAT_VERSION) "Unsupported IVFFLAT version: {}";
  d ← validate_positive_i32 (le_val_i32 (slice 8 4 header));
  nlist ← validate_positive_i32 (le_val_i32 (slice 12 4 header));
  metric ← or_data (metric_from_code (le_val (slice 16 4 header))) "Unknown metric type: {}";
  let total_vectors := le_val_i64 (slice 20 8 header) in
  let flags := le_val (slice 28 4 header) in
  _ ← validate_reserved_zero (slice 32 32 header);
  let unknown_flags := Z.ldiff flags SUPPORTED_FLAGS in
  _ ← ensure_data (unknown_flags =? 0) "Unsupported IVFFLAT flags: 0x{:08X}";
  _ ← ensure_data (Z.land flags REQUIRED_FLAGS =? REQUIRED_FLAGS) "IVFFLAT v1 requires delta IDs";
  Ok (FlatReader reader d nlist metric total_vectors [] [] [] [] true false).
Definition flat_open (reader : R) : io_result (IVFFlatIndexReader R) :=
  let '(res, reader) := pread reader [Request 0 (Z.to_nat IVFFLAT_HEADER_SIZE)] in
  bufs ← res;
  header ← expect (head bufs);
  open_with_header reader header.

(** One entry of the offset table; the state is the running total. *)
Definition load_entry (metadata : list Z) (centroid_bytes : Z) (list_id : nat) (actual_total : Z) : io_result (Z * Z * Z * Z) :=
  let base := (Z.to_nat centroid_bytes + list_id * 16)%nat in
  let list_offset := le_val_i64 (slice base 8 metadata) in
  let count := le_val_i32 (slice (base + 8) 4 metadata) in
  _ ← ensure_data (negb (count <? 0)) "negative list count {} at list {}";
  actual_total ← or_data (checked_add 63 actual_total count) "IVF-FLAT vector count overflow";
  let id_bytes_len := le_val_i32 (slice (base + 12) 4 metadata) in
  _ ← ensure_data (negb (id_bytes_len <? 0)) "negative id_bytes_len {} at list {}";
  _ ← ensure_data (negb ((0 <? count) && (id_bytes_len =? 0))) "missing delta ID bytes for non-empty IVF-FLAT list {list_id}";
  Ok (list_offset, count, id_bytes_len, actual_total).
Fixpoint load_table (metadata : list Z) (centroid_bytes : Z) (list_ids : list nat) (actual_total : Z) : io_result (list (Z * Z * Z) * Z) :=
  match list_ids with
  | [] => Ok ([], actual_total)
  | list_id :: list_ids =>
      '(list_offset, count, id_bytes_len, actual_total) ← load_entry metadata centroid_bytes list_id actual_total;
      '(rest, actual_total) ← load_table metadata centroid_bytes list_ids actual_total;
      Ok ((list_offset, count, id_bytes_len) :: rest, actual_total)
  end.

Definition ensure_loaded r : io_result (IVFFlatIndexReader R) :=
  if fr_loaded r then Ok r
  else
    centroid_count ← flat_checked_section_size (fr_nlist r) (fr_d r);
    centroid_bytes ← or_data (checked_mul 64 centroid_count 4) "IVF-FLAT centroid bytes overflow";
    table_bytes ← or_data (checked_mul 64 (fr_nlist r) 16) "IVF-FLAT offset table overflow";
    metadata_len ← or_data (checked_add 64 centroid_bytes table_bytes) "IVF-FLAT metadata size overflow";
    let '(res, reader) := pread (fr_reader r) [Request IVFFLAT_HEADER_SIZE (Z.to_nat metadata_len)] in
    bufs ← res;
    metadata ← expect (head bufs);
    centroids ← bytes_to_f32_vec (take (Z.to_nat centroid_bytes) metadata);
    '(table, actual_total) ← load_table metadata centroid_bytes (seq 0 (Z.to_nat (fr_nlist r))) 0;
    _ ← ensure_data (actual_total =? fr_total_vectors r) "IVF-FLAT header vector count {} does not match list total {actual_total}";
    Ok (FlatReader reader (fr_d r) (fr_nlist r) (fr_metric r) (fr_total_vectors r) centroids
          ((λ e, e.1.1) <$> table) ((λ e, e.1.2) <$> table) ((λ e, e.2) <$> table) (fr_delta_ids r) true).

(** The first loop of [read_inverted_lists]: one requested list.  [None] is a list
    without rows, which needs no read. *)
Definition plan_list_read r (input_index list_id : nat) : io_result (option (FlatListRead * AlignedFlatPayload)) :=
  _ ← ensure_input (negb (fr_nlist r <=? Z.of_nat list_id)) "list_id {} out of range (nlist={})";
  count ← expect (fr_counts r !! list_id);
  if count =? 0 then Ok None
  else
    list_offset ← expect (fr_offsets r !! list_id);
    offset ← checked_list_offset list_offset;
    vector_bytes ← flat_checked_list_bytes count (fr_d r * 4);
    id_bytes_len ← expect (fr_id_bytes_lens r !! list_id);
    payload_len ← or_data (len ← checked_add 64 12 id_bytes_len; checked_add 64 len vector_bytes) "IVF-FLAT list payload overflow";
    payload ← payload_new payload_len (12 + id_bytes_len) vector_bytes;
    Ok (Some (ListRead input_index list_id (Z.to_nat count) (Z.to_nat id_bytes_len) offset, payload)).

(** The second loop: decode one payload. *)
Definition decode_list (meta : FlatListRead) (payload : AlignedFlatPayload) : io_result FlatListData :=
  bytes ← read_bytes payload;
  let base_id := le_val_i64 (slice 0 8 bytes) in
  let encoded_len := le_val_i32 (slice 8 4 bytes) in
  _ ← ensure_data (negb ((encoded_len <? 0) || negb (encoded_len =? Z.of_nat (lr_id_bytes_len meta)))) "IVF-FLAT id_bytes_len mismatch";
  id_bytes ← expect (get_slice 12 (lr_id_bytes_len meta) bytes);
  ids ← flat_decode_ids base_id id_bytes (lr_count meta);
  Ok (ListData (lr_list_id meta) ids payload).

Definition with_source r (x : R) : IVFFlatIndexReader R :=
  FlatReader x (fr_d r) (fr_nlist r) (fr_metric r) (fr_total_vectors r) (fr_centroids r) (fr_offsets r) (fr_counts r) (fr_id_bytes_lens r)
    (fr_delta_ids r) (fr_loaded r).

(** [results] after both loops: the lists without rows, then every decoded list at
    its input position. *)
Definition place_lists (results : list (option FlatListData)) (decoded : list (nat * FlatListData)) : list (option FlatListData) :=
  foldl (λ results '(i, x), <[i := Some x]> results) results decoded.

Definition read_inverted_lists r (list_ids : list nat) : io_result (list FlatListData * IVFFlatIndexReader R) :=
  r ← ensure_loaded r;
  _ ← ensure_data (fr_delta_ids r) "IVF-FLAT reader only supports delta IDs";
  planned ← try_map (λ '(input_index, list_id), plan_list_read r input_index list_id) (imap pair list_ids);
  let results := zip_with (λ p list_id, match p with None => Some (ListData list_id [] payload_empty) | Some _ => None end) planned list_ids in
  let reads := omap id planned in
  '(results, r) ←
    match reads with
    | [] => Ok (results, r)
    | _ =>
        '(buffers, reader) ← pread_batched_slices (fr_reader r) ((λ x, lr_offset x.1) <$> reads) ((λ x, Z.to_nat (pl_payload_len x.2)) <$> reads);
        decoded ← try_map (λ '((meta, payload), bytes),
                     x ← decode_list meta (read_into payload bytes); Ok (lr_input_index meta, x)) (zip reads buffers);
        Ok (place_lists results decoded, with_source r reader)
    end;
  lists ← try_map (λ result, or_data result "missing batched IVF-FLAT list read result") results;
  Ok (lists, r).

Definition read_inverted_list r (list_id : nat) : io_result (list Z * list Z * IVFFlatIndexReader R) :=
  '(lists, r) ← read_inverted_lists r [list_id];
  l ← expect (last lists);
  vectors ← payload_vectors (ld_payload l);
  Ok (ld_ids l, vectors, r).

Definition list_payload_len r (list_id : nat) : io_result Z :=
  _ ← ensure_input (negb (fr_nlist r <=? Z.of_nat list_id)) "list_id {} out of range (nlist={})";
  count ← expect (fr_counts r !! list_id);
  if count =? 0 then Ok 0
  else
    id_bytes_len ← expect (fr_id_bytes_lens r !! list_id);
    or_data (len ← checked_add 64 12 id_bytes_len; row_bytes ← checked_mul 64 (fr_d r) 4;
             vector_bytes ← checked_mul 64 count row_bytes; checked_add 64 len vector_bytes) "IVF-FLAT list payload overflow".
Definition batch_read_end r (list_ids : list nat) : io_result nat :=
  payload_lengths ← try_map (list_payload_len r) list_ids;
  bounded_ivf_payload_batch_end payload_lengths (max_ranges_per_pread (read_capabilities (fr_reader r))).

(** [while row_start < count]; every chunk has a row, so [count] rounds are enough. *)
Section Stream.
Context {S : Type} (consume : S → list Z → list Z → io_result S).
Fixpoint stream_chunks (fuel : nat) (reader : R) (ids : list Z) (vector_offset row_bytes retained_id_bytes : Z) (count row_start : Z) (s : S) :
    io_result (S * R) :=
  if row_start <? count then
    match fuel with
    | O => Panic
    | Datatypes.S fuel =>
        chunk_rows ← bounded_ivf_stream_chunk_rows (count - row_start) row_bytes retained_id_bytes 1;
        vector_bytes ← or_data (checked_mul 64 chunk_rows row_bytes) "IVF-FLAT chunk size overflow";
        payload ← payload_new vector_bytes 0 vector_bytes;
        relative ← or_data (checked_mul 64 row_start row_bytes) "IVF-FLAT chunk offset overflow";
        chunk_offset ← or_data (checked_add 64 vector_offset relative) "IVF-FLAT chunk offset overflow";
        let '(res, reader) := pread reader [Request chunk_offset (Z.to_nat (pl_payload_len payload))] in
        bufs ← res;
        bytes ← expect (head bufs);
        let row_end := row_start + chunk_rows in
        chunk_ids ← expect (get_slice (Z.to_nat row_start) (Z.to_nat chunk_rows) ids);
        vectors ← payload_vectors (read_into payload bytes);
        s ← consume s chunk_ids vectors;
        stream_chunks fuel reader ids vector_offset row_bytes retained_id_bytes count row_end s
    end
  else Ok (s, reader).

Definition for_each_streamed_list_chunk r (list_id : nat) (s : S) : io_result (S * IVFFlatIndexReader R) :=
  r ← ensure_loaded r;
  count ← expect (fr_counts r !! list_id);
  raw_offset ← expect (fr_offsets r !! list_id);
  list_offset ← checked_list_offset raw_offset;
  id_bytes_len ← expect (fr_id_bytes_lens r !! list_id);
  '(ids, reader) ← read_delta_varint_ids_at (fr_reader r) list_offset (Z.to_nat count) (Z.to_nat id_bytes_len);
  row_bytes ← or_data (checked_mul 64 (fr_d r) 4) "IVF-FLAT row size overflow";
  vector_offset ← or_data (checked_add 64 list_offset (12 + id_bytes_len)) "IVF-FLAT vector offset overflow";
  retained_id_bytes ← or_data (checked_mul 64 (zlen ids) 8) "IVF-FLAT decoded ID size overflow";
  '(s, reader) ← stream_chunks (Z.to_nat count) reader ids vector_offset row_bytes retained_id_bytes count 0 s;
  Ok (s, with_source r reader).
End Stream.
End Reader.

(** ** Identifiers survive *)

Lemma lor_high_bit v : Z.lor (wrap 8 v) 0x80 = Z.lor (Z.land (wrap 8 v) 0x7f) 0x80.
Proof.
  apply Z.eqb_eq, (byte_forall (λ b, Z.lor b 0x80 =? Z.lor (Z.land b 0x7f) 0x80)); [by vm_compute|]. apply wrap_ok. lia.
Qed.
Lemma encode_varint_eq val buf : encode_varint val buf = write_u64_varint buf val.
Proof.
  unfold encode_varint, write_u64_varint. generalize 10%nat. intros fuel. revert val buf.
  induction fuel as [|fuel IH]; intros val buf; [done|]. cbn [encode_varint_loop write_u64_varint_loop]. by rewrite IH, lor_high_bit.
Qed.
(** The private encoder of this file writes the same bytes as the shared one. *)
Lemma flat_encode_eq ids : flat_encode_ids ids = encode_delta_varint_ids ids.
Proof.
  assert (∀ l prev buf, flat_encode_loop l prev buf = encode_delta_loop buf prev l) as E.
  { induction l as [|id l IH]; intros prev buf; [done|]. cbn [flat_encode_loop encode_delta_loop]. by rewrite IH, encode_varint_eq. }
  destruct ids as [|base ids]; [done|]. unfold flat_encode_ids, encode_delta_varint_ids. by rewrite E.
Qed.

Lemma last_group_guard b : u8 b → (1 <? Z.land b 0x7f) = negb (Z.land b 0x7e =? 0).
Proof.
  intros Hb. apply eqb_prop, (byte_forall (λ b, eqb (1 <? Z.land b 0x7f) (negb (Z.land b 0x7e =? 0)))); [by vm_compute|done].
Qed.

(** Whatever the shared decoder accepts, the private one decodes alike. *)
Lemma decode_varint_loop_of rounds buf pos val shift x : bytes_ok buf → shift = 7 * (10 - Z.of_nat rounds) →
  read_u64_varint_loop rounds buf pos val shift = Ok x → decode_varint_loop rounds buf pos val shift = Ok x.
Proof.
  intros Hb. revert pos val shift. induction rounds as [|rounds IH]; intros pos val shift Hs H; [done|]. cbn [read_u64_varint_loop decode_varint_loop] in *.
  bind_ok H as b Eb. apply ok_or_Ok in Eb. pose proof (lookup_lt_Some _ _ _ Eb) as Hlt. guard_ok H as Hg.
  pass by (by apply Nat.ltb_lt). rewrite Eb. cbn [expect mbind io_result_bind].
  assert (u8 b) as Hu by (by eapply Forall_lookup_1). pass by (by rewrite last_group_guard).
  destruct (Z.land b 0x80 =? 0); [done|]. destruct rounds as [|rounds]; [done|]. pass by (apply negb_true_iff, Z.ltb_ge; lia).
  apply IH; [lia|done].
Qed.
Lemma decode_varint_of buf pos x : bytes_ok buf → read_u64_varint buf pos = Ok x → decode_varint buf pos = Ok x.
Proof.
  intros Hb H. unfold read_u64_varint in H. bind_ok H as b Eb. apply ok_or_Ok in Eb. pose proof (lookup_lt_Some _ _ _ Eb) as Hlt.
  assert (u8 b) as Hu by (by eapply Forall_lookup_1). unfold decode_varint. change 10%nat with (S 9).
  assert (∀ val, read_u64_varint_loop 9 buf (S pos) val 7 = Ok x → decode_varint_loop 9 buf (S pos) val 7 = Ok x) as Hloop
    by (intros val; by apply decode_varint_loop_of).
  revert H Hloop. generalize 9%nat. intros rounds H Hloop. cbn [decode_varint_loop].
  pass by (by apply Nat.ltb_lt). rewrite Eb. cbn [expect mbind io_result_bind]. change (0 =? 63) with false. cbn [andb negb]. change (0 + 7) with 7.
  change (ensure_data true "varint exceeds u64 range") with (Ok ()). cbn [mbind io_result_bind]. rewrite Z.lor_0_l, Z.shiftl_0_r.
  rewrite byte_high_bit, byte_low_bits in * by done. assert (wrap 64 (b mod 128) = b mod 128) as ->.
  { apply wrap_small. pose proof (Z.mod_pos_bound b 128). unfold_widths. lia. }
  change 0x80 with 128 in H. destruct (Z.ltb_spec b 128); [by rewrite Z.mod_small by (unfold_widths; lia)|].
  change (63 <? 7) with false. change (ensure_data (negb false) "varint exceeds 64 bits") with (Ok ()). cbn [mbind io_result_bind].
  by apply Hloop.
Qed.

Lemma flat_decode_of count buf pos current prev ids pos' : bytes_ok buf →
  decode_delta_loop count buf pos current prev = Ok (ids, pos') → flat_decode_loop count buf pos current prev = Ok ids.
Proof.
  intros Hb. revert pos current prev ids. induction count as [|count IH]; intros pos current prev ids H; cbn [decode_delta_loop flat_decode_loop] in *.
  { by injection H as <- _. }
  bind_ok H as x Ex. destruct x as [delta p]. rewrite (decode_varint_of _ _ _ Hb Ex). cbn [mbind io_result_bind]. guard_ok H as Hg.
  pass by done. bind_ok H as y Ey. destruct y as [rest p']. inv_ok. by rewrite (IH _ _ _ _ Ey).
Qed.

Lemma delta_bytes_ok prev ids : bytes_ok (delta_bytes prev ids).
Proof.
  revert prev. induction ids as [|id ids IH]; intros prev; cbn [delta_bytes]; [constructor|]. apply Forall_app. split; [|apply IH].
  apply varint_bytes_ok. unfold wrap. apply Z.mod_pos_bound. done.
Qed.

(** The identifiers of one list, encoded in increasing order, decode to themselves. *)
Lemma flat_ids_roundtrip ids : Forall i64 ids → Sorted Z.le ids →
  flat_decode_ids (flat_encode_ids ids).1 (flat_encode_ids ids).2 (length ids) = Ok ids ∧
  decode_delta_varint_ids (flat_encode_ids ids).1 (flat_encode_ids ids).2 (length ids) = Ok ids ∧ bytes_ok (flat_encode_ids ids).2.
Proof.
  intros Hi Hs. destruct ids as [|base ids]; [by split_and!; [..|constructor]|]. rewrite flat_encode_eq. unfold encode_delta_varint_ids. cbn [fst snd].
  rewrite encode_delta_loop_eq, app_nil_l. pose proof (Forall_inv Hi) as Hbase.
  pose proof (decode_delta_loop_bytes [] base (base :: ids) Hbase Hi) as H. rewrite app_nil_l, decide_True in H by (constructor; [done|by constructor]).
  split_and!; [|unfold decode_delta_varint_ids|apply delta_bytes_ok].
  - eapply flat_decode_of; [apply delta_bytes_ok|exact H].
  - change 0%nat with (@length Z []). rewrite H. cbn [mbind io_result_bind]. by rewrite Nat.eqb_refl.
Qed.
