(* ===== verification/IvfFlatRoundtrip.v ===== *)
(** An IVF-Flat index reads back: the writer of [core/src/ivfflat_io.rs] followed
    by its reader, through any positional source. *)

From S2P Require Import Prelude SeekIo IndexIoUtil F32 DiskannUtil DiskannHeader SectionWriter IvfFlatFile.
Import Varint Validate Batch.

(** ** The order of a list *)

#[local] Instance id_le_total : Total id_le.
Proof. intros [a i] [b j]. unfold id_le; cbn. destruct (Z.lt_trichotomy a b) as [|[->|]]; [by left; left| |by right; left]. destruct (decide (i ≤ j)%nat); [left|right]; right; lia. Qed.
#[local] Instance id_le_trans : Transitive id_le.
Proof. intros [a i] [b j] [c k]. unfold id_le; cbn. lia. Qed.

Definition keyed (ids : list Z) : list (Z * nat) := imap (λ i id, (id, i)) ids.
Definition sorted_ids (ids : list Z) : list Z := fst <$> merge_sort id_le (keyed ids).
Definition rows_of (d : nat) (vectors : list Z) (positions : list nat) : list (list Z) := (λ i, slice (i * d) d vectors) <$> positions.

Lemma keyed_elem ids e : e ∈ merge_sort id_le (keyed ids) → ids !! e.2 = Some e.1.
Proof.
  rewrite merge_sort_Permutation. intros He. apply list_elem_of_lookup in He as [i Hi]. unfold keyed in Hi. rewrite list_lookup_imap in Hi.
  destruct (ids !! i) as [id|] eqn:E; [|done]. injection Hi as <-. exact E.
Qed.
Lemma fst_keyed ids : fst <$> keyed ids = ids.
Proof. apply list_eq. intros i. unfold keyed. rewrite list_lookup_fmap, list_lookup_imap. by destruct (ids !! i). Qed.
Lemma snd_keyed ids : snd <$> keyed ids = seq 0 (length ids).
Proof.
  apply list_eq. intros i. unfold keyed. rewrite list_lookup_fmap, list_lookup_imap. destruct (ids !! i) eqn:E; cbn.
  - apply lookup_lt_Some in E. by rewrite lookup_seq_lt.
  - apply lookup_ge_None in E. by rewrite lookup_seq_ge.
Qed.

Lemma sorted_ids_perm ids : sorted_ids ids ≡ₚ ids.
Proof. unfold sorted_ids. rewrite merge_sort_Permutation. by rewrite fst_keyed. Qed.
Lemma sorted_ids_length ids : length (sorted_ids ids) = length ids.
Proof. by rewrite sorted_ids_perm. Qed.
Lemma positions_perm ids : sorted_positions ids ≡ₚ seq 0 (length ids).
Proof. unfold sorted_positions. fold (keyed ids). rewrite merge_sort_Permutation. by rewrite snd_keyed. Qed.
Lemma positions_length ids : length (sorted_positions ids) = length ids.
Proof. by rewrite positions_perm, length_seq. Qed.

Lemma sorted_ids_sorted ids : Sorted Z.le (sorted_ids ids).
Proof.
  unfold sorted_ids. assert (Sorted id_le (merge_sort id_le (keyed ids))) as Hs by apply (Sorted_merge_sort _).
  induction Hs as [|e l Hs IH Hh]; cbn; [constructor|]. constructor; [exact IH|]. destruct Hh as [|e' l He]; cbn; constructor. unfold id_le in He. lia.
Qed.
Lemma positions_ids ids : try_map (λ i, expect (ids !! i)) (sorted_positions ids) = Ok (sorted_ids ids).
Proof.
  apply try_map_Ok. unfold sorted_positions, sorted_ids. fold (keyed ids).
  assert (Forall (λ e : Z * nat, ids !! e.2 = Some e.1) (merge_sort id_le (keyed ids))) as Hf by (apply Forall_forall; intros e; apply keyed_elem).
  induction Hf as [|e l He _ IH]; constructor; [by rewrite He|exact IH].
Qed.
(** Identifiers and positions correspond. *)
Lemma positions_lookup ids j i : sorted_positions ids !! j = Some i → ids !! i = sorted_ids ids !! j.
Proof.
  unfold sorted_positions, sorted_ids. fold (keyed ids). rewrite !list_lookup_fmap. destruct (merge_sort id_le (keyed ids) !! j) as [e|] eqn:E; [|done].
  cbn. intros [= <-]. apply keyed_elem. by eapply list_elem_of_lookup_2.
Qed.

(** ** What reaches the output *)

Section Output.
Context `{LW : SeekWriteLaws W, IW : !InfallibleWrite W}.
Implicit Types out : W.

Definition wrote (out out' : W) (bytes : list Z) : Prop := written out' = written out ++ bytes ∧ pos out' = pos out + zlen bytes.

Lemma wrote_nil out : wrote out out [].
Proof. split; [by rewrite app_nil_r|cbn; unfold zlen; cbn; lia]. Qed.
Lemma wrote_app out1 out2 out3 a b : wrote out1 out2 a → wrote out2 out3 b → wrote out1 out3 (a ++ b).
Proof. intros [E1 P1] [E2 P2]. split; [by rewrite E2, E1, app_assoc|rewrite zlen_app; lia]. Qed.
Lemma write_all_wrote out bytes : ∃ out', write_all out bytes = Ok out' ∧ wrote out out' bytes.
Proof. destruct (write_all_ok out bytes) as [out' E]. exists out'. split_and!; [done|]. split; [by apply write_all_written|by apply write_all_pos]. Qed.

Lemma fold_wrote {A} (f : W → A → io_result W) (g : A → list Z) (l : list A) out :
  (∀ out x, x ∈ l → ∃ out', f out x = Ok out' ∧ wrote out out' (g x)) →
  ∃ out', try_fold f out l = Ok out' ∧ wrote out out' (concat (g <$> l)).
Proof.
  revert out. induction l as [|x l IH]; intros out Hx; cbn; [exists out; split; [done|apply wrote_nil]|].
  destruct (Hx out x) as (out1 & -> & W1); [by left|]. destruct (IH out1) as (out2 & E & W2); [intros; apply Hx; by right|].
  exists out2. split; [exact E|]. by eapply wrote_app.
Qed.

(** The bytes so far, counting the buffered ones. *)
Definition buffered (st st' : W * list Z) (bytes : list Z) (limit : Z) : Prop :=
  written st'.1 ++ st'.2 = written st.1 ++ st.2 ++ bytes ∧ pos st'.1 + zlen st'.2 = pos st.1 + zlen st.2 + zlen bytes ∧ zlen st'.2 < limit.

Lemma buffer_bytes_spec fuel out buffer bytes limit : (length bytes ≤ fuel)%nat → zlen buffer < limit →
  ∃ st, buffer_bytes fuel out buffer bytes limit = Ok st ∧ buffered (out, buffer) st bytes limit.
Proof.
  revert out buffer bytes. induction fuel as [|fuel IH]; intros out buffer bytes Hf Hb; cbn [buffer_bytes].
  { destruct bytes; [|cbn in Hf; lia]. eexists. split; [done|]. unfold buffered; cbn. rewrite !app_nil_r. unfold zlen; cbn [length]. split_and!; [done|lia|exact Hb]. }
  destruct bytes as [|b bytes]; [eexists; split; [done|]; unfold buffered; cbn; rewrite !app_nil_r; unfold zlen; cbn [length]; split_and!; [done|lia|exact Hb]|].
  set (len := Z.to_nat _). assert (0 < len ≤ length (b :: bytes))%nat as Hl by (unfold len, zlen in *; cbn [length]; lia).
  assert (length (drop len (b :: bytes)) ≤ fuel)%nat as Hd by (rewrite length_drop; cbn [length] in *; lia).
  assert (zlen (buffer ++ take len (b :: bytes)) <= limit) as Hle.
  { rewrite zlen_app. unfold zlen at 2. rewrite length_take. unfold len, zlen in *. cbn [length]. lia. }
  pose proof (take_drop len (b :: bytes)) as Etd. pose proof (f_equal zlen Etd) as Ztd. rewrite zlen_app in Ztd.
  destruct (Z.eqb_spec (zlen (buffer ++ take len (b :: bytes))) limit) as [E|E].
  - destruct (write_all_wrote out (buffer ++ take len (b :: bytes))) as (out1 & -> & E1 & P1). cbn [mbind io_result_bind].
    destruct (IH out1 [] (drop len (b :: bytes)) Hd) as (st & Est & E2 & P2 & L2); [change (zlen (@nil Z)) with 0; pose proof (zlen_nonneg buffer); lia|].
    exists st. split; [exact Est|]. unfold buffered in *; cbn [fst snd] in *. rewrite E2, E1, app_nil_l, <- !app_assoc, Etd.
    rewrite zlen_app in P1. change (zlen (@nil Z)) with 0 in P2. split_and!; [done|lia|done].
  - destruct (IH out (buffer ++ take len (b :: bytes)) (drop len (b :: bytes)) Hd) as (st & Est & E2 & P2 & L2); [lia|].
    exists st. split; [exact Est|]. unfold buffered in *; cbn [fst snd] in *. rewrite E2, <- !app_assoc, Etd. rewrite zlen_app in P2. split_and!; [done|lia|done].
Qed.

Definition f32_bytes (data : list Z) : list Z := concat (le_bytes 4 <$> data).

Lemma write_f32_iter_spec out data limit : ∃ out', write_f32_iter out data limit = Ok out' ∧ wrote out out' (f32_bytes data).
Proof.
  unfold write_f32_iter. set (lim := Z.max limit 1). assert (0 < lim) as Hlim by lia. clearbody lim.
  assert (∀ l st, zlen st.2 < lim → ∃ st', try_fold (λ '(out, buffer) value, buffer_bytes 4 out buffer (le_bytes 4 value) lim) st l = Ok st' ∧
    buffered st st' (f32_bytes l) lim) as Hfold.
  { induction l as [|v l IH]; intros [o b] Hb; cbn [try_fold].
    - eexists. split; [done|]. unfold buffered, f32_bytes; cbn. rewrite app_nil_r. unfold zlen; cbn [length]. split_and!; [done|lia|exact Hb].
    - destruct (buffer_bytes_spec 4 o b (le_bytes 4 v) lim) as (st1 & -> & E1 & P1 & L1); [by rewrite le_bytes_length|done|]. cbn [mbind io_result_bind].
      destruct (IH st1 L1) as (st2 & -> & E2 & P2 & L2). exists st2. split; [done|]. unfold buffered, f32_bytes in *. cbn [fst snd fmap list_fmap concat] in *.
      rewrite E2, app_assoc, E1, !zlen_app, <- !app_assoc. split_and!; [done|lia|done]. }
  destruct (Hfold data (out, [])) as ([o b] & -> & E & P & L); [done|]. cbn [mbind io_result_bind fst snd app] in *. change (zlen (@nil Z)) with 0 in P.
  destruct b as [|x b]; [exists o; split; [done|]; split; [by rewrite <- E, app_nil_r|change (zlen (@nil Z)) with 0 in P; lia]|].
  destruct (write_all_wrote o (x :: b)) as (o' & -> & E' & P'). exists o'. split; [done|]. split; [by rewrite E', E|lia].
Qed.
End Output.

(** ** The file as one byte sequence *)

Definition id_bytes (ids : list Z) : list Z := (flat_encode_ids (sorted_ids ids)).2.
Definition base_id (ids : list Z) : Z := (flat_encode_ids (sorted_ids ids)).1.
Definition sorted_vectors (d : nat) (ids vectors : list Z) : list Z := concat (rows_of d vectors (sorted_positions ids)).
Definition list_image (d : nat) (item : list Z * list Z) : list Z :=
  match item.1 with
  | [] => []
  | _ => le_bytes 8 (base_id item.1) ++ le_bytes 4 (zlen (id_bytes item.1)) ++ id_bytes item.1 ++ f32_bytes (sorted_vectors d item.1 item.2)
  end.
Fixpoint table_of (d : nat) (start : Z) (items : list (list Z * list Z)) : list (Z * Z * Z) :=
  match items with
  | [] => []
  | item :: items => (start, zlen item.1, zlen (id_bytes item.1)) :: table_of d (start + zlen (list_image d item)) items
  end.
Definition entry_bytes (e : Z * Z * Z) : list Z := le_bytes 8 e.1.1 ++ le_bytes 4 e.1.2 ++ le_bytes 4 e.2.
Definition total_of (index : FlatIndex) : Z := zsum zlen (fx_ids index).
Definition header_image (index : FlatIndex) : list Z :=
  le_bytes 4 IVFFLAT_MAGIC ++ le_bytes 4 IVFFLAT_VERSION ++ le_bytes 4 (fx_d index) ++ le_bytes 4 (fx_nlist index) ++
  le_bytes 4 (metric_code (fx_metric index)) ++ le_bytes 8 (total_of index) ++ le_bytes 4 FLAG_DELTA_IDS ++ replicate 32 0.
Definition items_of (index : FlatIndex) : list (list Z * list Z) := zip (fx_ids index) (fx_vectors index).
Definition dim (index : FlatIndex) : nat := Z.to_nat (fx_d index).
Definition data_start (index : FlatIndex) : Z := 64 + fx_nlist index * fx_d index * 4 + fx_nlist index * 16.
Definition flat_image (index : FlatIndex) : list Z :=
  header_image index ++ f32_bytes (fx_centroids index) ++ concat (entry_bytes <$> table_of (dim index) (data_start index) (items_of index)) ++
  concat (list_image (dim index) <$> items_of index).

(** What the format can hold: the shapes agree and the sizes fit its fields. *)
Definition item_ok (d : Z) (item : list Z * list Z) : Prop :=
  zlen item.2 = zlen item.1 * d ∧ zlen item.1 < 2 ^ 31 ∧ zlen (id_bytes item.1) < 2 ^ 31 ∧ Forall i64 item.1 ∧ Forall u32 item.2.
Record flat_writable (index : FlatIndex) : Prop := {
  fw_d : 0 < fx_d index < 2 ^ 31;
  fw_nlist : 0 < fx_nlist index < 2 ^ 31;
  fw_ids : zlen (fx_ids index) = fx_nlist index;
  fw_vectors : zlen (fx_vectors index) = fx_nlist index;
  fw_section : fx_nlist index * fx_d index <= 2 ^ 30;
  fw_centroids : zlen (fx_centroids index) = fx_nlist index * fx_d index;
  fw_values : Forall u32 (fx_centroids index);
  fw_items : Forall (item_ok (fx_d index)) (items_of index);
  fw_size : zlen (flat_image index) < 2 ^ 63;
}.

Lemma f32_bytes_length data : length (f32_bytes data) = (length data * 4)%nat.
Proof. apply length_le_list. Qed.
Lemma zlen_f32_bytes data : zlen (f32_bytes data) = zlen data * 4.
Proof. unfold zlen. rewrite f32_bytes_length. lia. Qed.

Lemma rows_of_ok d n vectors positions : length vectors = (n * d)%nat → Forall (λ i, (i < n)%nat) positions →
  try_map (λ i, expect (get_slice (i * d) d vectors)) positions = Ok (rows_of d vectors positions) ∧
  Forall (λ row, length row = d) (rows_of d vectors positions).
Proof.
  intros Hl Hp. unfold rows_of. rewrite try_map_Ok. induction Hp as [|i l Hi _ [IH1 IH2]]; [by split; constructor|].
  assert (i * d + d ≤ length vectors)%nat as Hle by nia. split; constructor; try done.
  - unfold get_slice. by rewrite decide_True.
  - by apply length_slice.
Qed.

Lemma length_concat_rows {A} d (rows : list (list A)) : Forall (λ row, length row = d) rows → length (concat rows) = (length rows * d)%nat.
Proof. induction 1 as [|row rows Hr _ IH]; [done|]. cbn [concat length]. rewrite length_app. lia. Qed.

Lemma positions_in_range ids : Forall (λ i, (i < length ids)%nat) (sorted_positions ids).
Proof. rewrite positions_perm. apply Forall_seq. lia. Qed.

Lemma item_rows d item : 0 < d → item_ok d item →
  try_map (λ i, expect (get_slice (i * Z.to_nat d) (Z.to_nat d) item.2)) (sorted_positions item.1) =
    Ok (rows_of (Z.to_nat d) item.2 (sorted_positions item.1)) ∧
  zlen (sorted_vectors (Z.to_nat d) item.1 item.2) = zlen item.1 * d ∧
  Forall u32 (sorted_vectors (Z.to_nat d) item.1 item.2).
Proof.
  intros Hd (Hl & _ & _ & _ & Hu). destruct (rows_of_ok (Z.to_nat d) (length item.1) item.2 (sorted_positions item.1)) as [E F];
    [unfold zlen in Hl; nia|apply positions_in_range|]. split_and!; [exact E| |].
  - unfold sorted_vectors, zlen. rewrite (length_concat_rows _ _ F). unfold rows_of. rewrite length_fmap, positions_length. lia.
  - unfold sorted_vectors, rows_of. apply Forall_concat, Forall_fmap, Forall_true. intros i. by apply Forall_slice.
Qed.

Lemma list_image_length d item : 0 < d → item_ok d item →
  zlen (list_image (Z.to_nat d) item) = if zlen item.1 =? 0 then 0 else 12 + zlen (id_bytes item.1) + zlen item.1 * (d * 4).
Proof.
  intros Hd Hi. destruct (item_rows d item Hd Hi) as (_ & Hv & _). unfold list_image. destruct (item.1) as [|x l] eqn:E; [done|].
  rewrite !zlen_app, zlen_f32_bytes, Hv. rewrite zlen_cons. pose proof (zlen_nonneg l). rewrite (proj2 (Z.eqb_neq _ _)) by lia.
  unfold zlen at 1 2. rewrite !le_bytes_length. lia.
Qed.

(** A list with rows has at least one byte of identifiers for each. *)
Lemma delta_bytes_length prev ids : (length ids ≤ length (delta_bytes prev ids))%nat.
Proof.
  revert prev. induction ids as [|id ids IH]; intros prev; cbn [delta_bytes length]; [lia|]. rewrite length_app. specialize (IH id).
  assert (1 ≤ length (varint_bytes 10 (wrap 64 (wrap 64 id - wrap 64 prev))))%nat; [|lia].
  rewrite varint_bytes_S. case_match; cbn [length]; lia.
Qed.
Lemma id_bytes_length ids : zlen ids <= zlen (id_bytes ids).
Proof.
  unfold id_bytes. rewrite flat_encode_eq. unfold encode_delta_varint_ids. pose proof (sorted_ids_length ids) as Hl.
  destruct (sorted_ids ids) as [|base l]; [destruct ids; [done|discriminate]|]. cbn [snd]. rewrite encode_delta_loop_eq, app_nil_l.
  pose proof (delta_bytes_length base (base :: l)). unfold zlen. lia.
Qed.

Definition sorted_of (ids : list Z) : list nat * list Z := (sorted_positions ids, id_bytes ids).
Lemma sort_list_ok ids : sort_list ids = Ok (sorted_of ids).
Proof. unfold sort_list. destruct ids as [|x ids]; [done|]. rewrite positions_ids. done. Qed.
Lemma sort_lists_ok lists : try_map sort_list lists = Ok (sorted_of <$> lists).
Proof. apply try_map_Ok. induction lists as [|ids lists IH]; constructor; [apply sort_list_ok|exact IH]. Qed.

Definition images_size (d : nat) (items : list (list Z * list Z)) : Z := zsum (λ item, zlen (list_image d item)) items.
Lemma zlen_concat {A} (ls : list (list A)) : zlen (concat ls) = zsum zlen ls.
Proof. induction ls as [|l ls IH]; [done|]. cbn [concat zsum foldr]. rewrite zlen_app. unfold zsum in IH. lia. Qed.
Lemma images_size_nonneg d items : 0 <= images_size d items.
Proof. apply zsum_nonneg. intros. apply zlen_nonneg. Qed.

Lemma plan_lists_ok d start items : 0 < d < 2 ^ 31 → Forall (item_ok d) items → 0 <= start →
  start + images_size (Z.to_nat d) items < 2 ^ 63 →
  plan_lists (d * 4) start ((λ item, sorted_of item.1) <$> items) = Ok (table_of (Z.to_nat d) start items).
Proof.
  intros Hd Hi. revert start. induction Hi as [|item items Hok _ IH]; intros start Hs Hsz; [done|].
  unfold images_size in Hsz. cbn [zsum foldr] in Hsz. fold (zsum (λ item, zlen (list_image (Z.to_nat d) item)) items) in Hsz.
  fold (images_size (Z.to_nat d) items) in Hsz. pose proof (images_size_nonneg (Z.to_nat d) items). pose proof (zlen_nonneg (list_image (Z.to_nat d) item)) as Hn.
  pose proof (list_image_length d item ltac:(lia) Hok) as Hlen. pose proof Hok as (_ & Hc & Hb & _).
  cbn [fmap list_fmap plan_lists table_of]. unfold plan_list, u64_to_i64, usize_to_i32. cbn [sorted_of fst snd].
  assert (zlen (sorted_positions item.1) = zlen item.1) as -> by (unfold zlen; by rewrite positions_length).
  pose proof (zlen_nonneg item.1) as Hz. pose proof (zlen_nonneg (id_bytes item.1)).
  rewrite (proj2 (Z.leb_le start (2 ^ 63 - 1))), (proj2 (Z.leb_le (zlen item.1) (2 ^ 31 - 1))) by lia. cbn [ensure_input guard_ok mbind io_result_bind].
  destruct (Z.eqb_spec (zlen item.1) 0) as [E0|E0].
  - rewrite E0 in *. cbn [Z.ltb Z.compare mbind io_result_bind]. rewrite Hlen, Z.add_0_r. change (0 <? 0) with false. cbn [mbind io_result_bind].
    rewrite IH by lia. cbn [mbind io_result_bind]. do 4 f_equal. destruct item.1; [done|]. rewrite zlen_cons in E0. pose proof (zlen_nonneg l). lia.
  - rewrite (proj2 (Z.ltb_lt 0 (zlen item.1))), (proj2 (Z.leb_le (zlen (id_bytes item.1)) (2 ^ 31 - 1))) by lia.
    cbn [ensure_input guard_ok mbind io_result_bind]. unfold flat_checked_list_bytes.
    assert (zlen item.1 * (d * 4) < 2 ^ 64) by lia.
    rewrite (proj2 (checked_mul_Some 64 (zlen item.1) (d * 4) _)) by done. cbn [or_data ok_or mbind io_result_bind].
    rewrite (proj2 (checked_add_Some 64 12 _ _)) by (split; [done|lia]). cbn [option_bind mbind].
    rewrite (proj2 (checked_add_Some 64 (12 + _) _ _)) by (split; [done|lia]). cbn [or_input ok_or mbind io_result_bind].
    rewrite (proj2 (checked_add_Some 64 start _ _)) by (split; [done|lia]). cbn [or_input ok_or mbind io_result_bind].
    rewrite IH by lia. done.
Qed.

Section Written.
Context `{LW : SeekWriteLaws W, IW : !InfallibleWrite W}.
Implicit Types out : W.

Ltac step_write :=
  match goal with
  | |- context [mbind _ (write_all ?out ?bytes)] =>
      let o := fresh "o" in let E := fresh "E" in let Wr := fresh "Wr" in
      destruct (write_all_wrote out bytes) as (o & E & Wr); rewrite E; cbn [mbind io_result_bind]
  end.

Lemma write_entry_spec out e : ∃ out', write_table_entry out e = Ok out' ∧ wrote out out' (entry_bytes e).
Proof.
  destruct e as [[a b] c]. unfold write_table_entry, write_i64_le, write_i32_le, entry_bytes. cbn [fst snd]. step_write. step_write.
  destruct (write_all_wrote o0 (le_bytes 4 c)) as (o1 & E1 & Wr1). exists o1. split; [exact E1|]. eapply wrote_app; [done|]. by eapply wrote_app.
Qed.

Lemma write_list_spec d limit out item : 0 < d → item_ok d item →
  ∃ out', write_list d limit out (item, sorted_of item.1) = Ok out' ∧ wrote out out' (list_image (Z.to_nat d) item).
Proof.
  intros Hd Hi. destruct (item_rows d item Hd Hi) as (Er & _ & _). destruct item as [ids vectors]. unfold write_list, sorted_of. cbn [fst snd] in *.
  destruct Hi as (_ & _ & Hb & _). cbn [fst] in Hb. pose proof (zlen_nonneg (id_bytes ids)).
  pose proof (positions_length ids) as Hpl. pose proof (positions_lookup ids 0) as Hfirst. unfold list_image. cbn [fst snd].
  destruct ids as [|x l] eqn:Eids; [exists out; split; [done|apply wrote_nil]|]. rewrite <- Eids in *.
  destruct (sorted_positions ids) as [|first order] eqn:Eo; [by rewrite Eids in Hpl|]. specialize (Hfirst first eq_refl). rewrite Hfirst.
  assert (sorted_ids ids !! 0%nat = Some (base_id ids)) as ->.
  { unfold base_id, flat_encode_ids. pose proof (sorted_ids_length ids) as Hl. destruct (sorted_ids ids); [by rewrite Eids in Hl|done]. }
  cbn [expect mbind io_result_bind]. unfold write_i64_le, write_i32_le. rewrite to_signed_small by (unfold_widths; lia). step_write. step_write. step_write.
  rewrite Er. cbn [mbind io_result_bind]. destruct (write_f32_iter_spec o1 (concat (rows_of (Z.to_nat d) vectors (first :: order))) limit) as (o2 & E2 & Wr2).
  exists o2. split; [exact E2|]. unfold sorted_vectors. rewrite Eo. eapply wrote_app; [done|]. eapply wrote_app; [done|]. by eapply wrote_app.
Qed.

Lemma count_ok lists sum : 0 <= sum → sum + zsum zlen lists < 2 ^ 63 → try_fold count_vectors sum lists = Ok (sum + zsum zlen lists).
Proof.
  revert sum. induction lists as [|l lists IH]; intros sum Hs Hlt; cbn [try_fold zsum foldr] in *; [by rewrite Z.add_0_r|].
  fold (zsum (@zlen Z) lists) in *. pose proof (zlen_nonneg l). pose proof (zsum_nonneg (@zlen Z) lists ltac:(intros; apply zlen_nonneg)).
  assert (count_vectors sum l = Ok (sum + zlen l)) as ->.
  { unfold count_vectors, usize_to_i64. rewrite (proj2 (Z.leb_le _ _)) by lia. cbn [ensure_input guard_ok mbind io_result_bind].
    by rewrite (proj2 (checked_add_Some 63 sum (zlen l) _)) by (split; [done|lia]). }
  cbn [mbind io_result_bind]. rewrite IH by lia. f_equal. lia.
Qed.

Section Index.
Context (index : FlatIndex) (Hw : flat_writable index).

Lemma items_fst : fst <$> items_of index = fx_ids index.
Proof. apply fst_zip. pose proof (fw_ids _ Hw). pose proof (fw_vectors _ Hw). unfold zlen in *. lia. Qed.
Lemma items_length : zlen (items_of index) = fx_nlist index.
Proof. pose proof (fw_ids _ Hw) as E. rewrite <- items_fst in E. unfold zlen in *. by rewrite length_fmap in E. Qed.
Lemma table_length d start items : length (table_of d start items) = length items.
Proof. revert start. induction items as [|item items IH]; intros start; [done|]. cbn. by rewrite IH. Qed.
Lemma table_bytes_length (l : list (Z * Z * Z)) : zlen (concat (entry_bytes <$> l)) = zlen l * 16.
Proof.
  rewrite zlen_concat. induction l as [|e l IH]; [done|]. cbn [fmap list_fmap zsum foldr]. fold (zsum (@zlen Z) (entry_bytes <$> l)). rewrite zlen_cons, IH.
  unfold entry_bytes, zlen. rewrite !length_app, !le_bytes_length. lia.
Qed.
Lemma header_length : length (header_image index) = 64%nat.
Proof. unfold header_image. by rewrite !length_app, !le_bytes_length. Qed.

Lemma image_size : zlen (flat_image index) = data_start index + images_size (dim index) (items_of index).
Proof.
  unfold flat_image. rewrite !zlen_app, table_bytes_length, zlen_f32_bytes, zlen_concat. unfold zlen at 1. rewrite header_length.
  rewrite (fw_centroids _ Hw). unfold zlen at 1. rewrite table_length. fold (zlen (items_of index)). rewrite items_length. unfold data_start.
  assert (zsum zlen (list_image (dim index) <$> items_of index) = images_size (dim index) (items_of index)) as ->; [|lia].
  unfold images_size. generalize (items_of index). induction l as [|x l IH]; [done|]. cbn. unfold zsum in IH. by rewrite IH.
Qed.

Lemma total_bound : 0 <= total_of index ∧ total_of index * 4 <= images_size (dim index) (items_of index).
Proof.
  unfold total_of. rewrite <- items_fst. unfold images_size, dim. pose proof (fw_items _ Hw) as Hi. pose proof (fw_d _ Hw) as Hd.
  unfold zsum. induction Hi as [|item items Hok _ IH]; [done|]. cbn [fmap list_fmap foldr] in *. rewrite (list_image_length _ _ (proj1 Hd) Hok).
  pose proof (zlen_nonneg item.1). pose proof (zlen_nonneg (id_bytes item.1)). assert (zlen item.1 * 4 <= zlen item.1 * (fx_d index * 4)) by nia.
  destruct (Z.eqb_spec (zlen item.1) 0); lia.
Qed.

Lemma validate_shape_ok : validate_index_shape index = Ok ().
Proof.
  destruct Hw as [Hd Hn Hids Hvs Hsec Hcen _ Hitems _]. unfold validate_index_shape.
  pass by (apply negb_true_iff, Z.eqb_neq; lia). pass by (apply negb_true_iff, Z.eqb_neq; lia). pass by (rewrite Hids, Hvs, Z.eqb_refl; done).
  unfold flat_checked_section_size. rewrite (proj2 (checked_mul_Some 64 _ _ _)) by (split; [done|lia]). cbn [or_data ok_or mbind io_result_bind].
  rewrite (proj2 (Z.leb_le _ _)) by (change MAX_SECTION_ELEMENTS with (2 ^ 30); lia). cbn [ensure_data guard_ok mbind io_result_bind].
  pass by (rewrite Hcen; apply Z.eqb_refl). fold (items_of index). clear -Hitems Hd. induction Hitems as [|item items Hok _ IH]; [done|]. cbn [try_fold].
  assert (check_list_shape (fx_d index) item = Ok ()) as ->; [|exact IH].
  unfold check_list_shape. destruct Hok as (Hl & Hc & _). pose proof (zlen_nonneg item.1).
  rewrite (proj2 (checked_mul_Some 64 _ _ _)) by (split; [done|nia]). cbn [or_input ok_or mbind io_result_bind]. by rewrite Hl, Z.eqb_refl.
Qed.

(** The writer produces the image. *)
Lemma write_image out limit : written out = [] → pos out = 0 →
  ∃ out', write_ivfflat_index_with_buffer_limit index out limit = Ok out' ∧ written out' = flat_image index.
Proof.
  intros Hout Hpos. pose proof (fw_d _ Hw) as Hd. pose proof (fw_nlist _ Hw) as Hn. pose proof (fw_size _ Hw) as Hsz. rewrite image_size in Hsz.
  pose proof total_bound as [Ht0 Ht]. pose proof (images_size_nonneg (dim index) (items_of index)).
  assert (0 <= fx_nlist index * fx_d index) by nia.
  unfold write_ivfflat_index_with_buffer_limit. cbv zeta. rewrite validate_shape_ok. cbn [mbind io_result_bind].
  rewrite (proj2 (checked_mul_Some 64 (fx_d index) 4 _)) by (split; [done|lia]). cbn [or_input ok_or mbind io_result_bind]. unfold usize_to_i32.
  rewrite !(proj2 (Z.leb_le _ _)) by lia. cbn [ensure_input guard_ok mbind io_result_bind].
  rewrite count_ok by (fold (total_of index); unfold data_start in *; lia). cbn [mbind io_result_bind]. rewrite sort_lists_ok. cbn [mbind io_result_bind].
  unfold write_u32_le, write_i32_le, write_i64_le. do 8 step_write.
  destruct (write_f32_iter_spec o6 (fx_centroids index) limit) as (oc & -> & Wc). cbn [mbind io_result_bind].
  assert (wrote out oc (header_image index ++ f32_bytes (fx_centroids index))) as Wh.
  { unfold header_image. rewrite <- !app_assoc. rewrite Z.add_0_l in *. repeat (eapply wrote_app; [eassumption|]). done. }
  clear dependent o. destruct Wh as [Eh Ph]. rewrite Hout, Hpos, zlen_app, zlen_f32_bytes, (fw_centroids _ Hw) in *. unfold zlen at 1 in Ph. rewrite header_length in Ph.
  rewrite (proj2 (checked_mul_Some 64 (fx_nlist index) 16 _)) by (split; [done|lia]). cbn [or_input ok_or mbind io_result_bind].
  rewrite (proj2 (checked_add_Some 64 (pos oc) _ _)) by (split; [done|unfold data_start in *; lia]). cbn [or_input ok_or mbind io_result_bind].
  assert (pos oc + fx_nlist index * 16 = data_start index) as -> by (unfold data_start; lia).
  assert (sorted_of <$> fx_ids index = (λ item, sorted_of item.1) <$> items_of index) as -> by (rewrite <- items_fst, <- list_fmap_compose; done).
  rewrite plan_lists_ok; [|done|apply Hw|unfold data_start; lia|exact Hsz]. cbn [mbind io_result_bind].
  destruct (fold_wrote write_table_entry entry_bytes (table_of (Z.to_nat (fx_d index)) (data_start index) (items_of index)) oc) as (ot & -> & Wt); [intros; apply write_entry_spec|].
  cbn [mbind io_result_bind]. fold (items_of index).
  assert (zip (items_of index) ((λ item, sorted_of item.1) <$> items_of index) = (λ item, (item, sorted_of item.1)) <$> items_of index) as ->.
  { rewrite zip_with_fmap_r. generalize (items_of index). induction l as [|x l IH]; [done|]. cbn. by rewrite IH. }
  rewrite try_fold_fmap.
  destruct (fold_wrote (λ out item, write_list (fx_d index) limit out (item, sorted_of item.1)) (list_image (dim index)) (items_of index) ot) as (ol & -> & Wl).
  { intros o x Hx. apply write_list_spec; [lia|]. pose proof (fw_items _ Hw) as Hall. rewrite Forall_forall in Hall. by apply Hall. }
  exists ol. split; [done|]. destruct Wt as [Et _], Wl as [El _]. rewrite El, Et, Eh. unfold flat_image, dim. by rewrite <- !app_assoc.
Qed.
End Index.
End Written.

(** ** Reading the image *)

(** Fields of a record of fixed-width integers. *)
Ltac read_field :=
  repeat (rewrite slice_app_skip by (rewrite ?le_bytes_length; lia); rewrite le_bytes_length; cbn [Nat.sub]);
  rewrite slice_app_head by (rewrite le_bytes_length; lia).

Lemma slice_concat {A} n (ls : list (list A)) k x : Forall (λ l, length l = n) ls → ls !! k = Some x → slice (k * n) n (concat ls) = x.
Proof.
  intros Hls. revert k. induction Hls as [|l ls Hl Hls IH]; intros [|k] Hk; try done; cbn [concat].
  - injection Hk as ->. cbn [Nat.mul]. by apply slice_app_head.
  - rewrite slice_app_skip by lia. replace (S k * n - length l)%nat with (k * n)%nat by lia. by apply IH.
Qed.
Lemma slice_slice {A} a b c n (l : list A) : (c + n ≤ b)%nat → slice c n (slice a b l) = slice (a + c) n l.
Proof. intros. unfold slice. rewrite skipn_firstn_comm, take_take, drop_drop. by rewrite Nat.min_l by lia. Qed.
Lemma slice_app_l {A} off n (l k : list A) : (off + n ≤ length l)%nat → slice off n (l ++ k) = slice off n l.
Proof. intros. unfold slice. rewrite drop_app_le, take_app_le; [done|rewrite length_drop; lia|lia]. Qed.

(** A payload holds what was read into it, its vectors start at a multiple of
    four, and they are the little-endian values of the suffix. *)
Lemma payload_new_ok vs vl : 0 <= vs → 0 <= vl → vl mod 4 = 0 → vs + vl + 3 < 2 ^ 64 →
  ∃ p, payload_new (vs + vl) vs vl = Ok p ∧ pl_payload_len p = vs + vl ∧ pl_vector_start p = vs ∧ pl_vector_len p = vl ∧
    0 <= pl_read_start p ∧ (pl_read_start p + vs) mod 4 = 0 ∧ pl_read_start p + (vs + vl) <= zlen (pl_storage p).
Proof.
  intros Hs Hl Hm Hb. unfold payload_new. rewrite (proj2 (checked_add_Some 64 vs vl _)) by (split; [done|lia]). cbn [or_data ok_or mbind io_result_bind].
  rewrite Z.eqb_refl, Hm. cbn [Z.eqb andb ensure_data guard_ok mbind io_result_bind].
  set (rs := (4 - vs mod 4) mod 4). pose proof (Z.mod_pos_bound (4 - vs mod 4) 4 ltac:(lia)) as Hr. fold rs in Hr.
  rewrite (proj2 (checked_add_Some 64 rs (vs + vl) _)) by (split; [done|lia]). cbn [or_data ok_or mbind io_result_bind].
  eexists. split; [done|]. cbn. split_and!; [done..|lia| |].
  - unfold rs. rewrite Zplus_mod_idemp_l. replace (4 - vs mod 4 + vs) with ((vs / 4 + 1) * 4) by (pose proof (Z.div_mod vs 4); lia). apply Z.mod_mul. done.
  - unfold zlen. rewrite length_replicate. pose proof (div_ceil_spec (rs + (vs + vl)) 4 ltac:(lia)). lia.
Qed.

Lemma payload_holds p bytes : 0 <= pl_read_start p → pl_read_start p + zlen bytes <= zlen (pl_storage p) → pl_payload_len p = zlen bytes →
  0 <= pl_vector_start p → 0 <= pl_vector_len p → pl_vector_len p mod 4 = 0 → pl_vector_start p + pl_vector_len p = zlen bytes →
  (pl_read_start p + pl_vector_start p) mod 4 = 0 →
  read_bytes (read_into p bytes) = Ok bytes ∧
  payload_vectors (read_into p bytes) = Ok (le_val <$> chunks_exact 4 (drop (Z.to_nat (pl_vector_start p)) bytes)).
Proof.
  intros Hr Hst Hpl Hs Hl Hm Hsum Ha. destruct p as [storage rs pl vs vl]. cbn in *.
  assert (read_bytes (read_into (Payload storage rs pl vs vl) bytes) = Ok bytes) as E.
  { unfold read_bytes, read_into; cbn. unfold zlen in *. rewrite Hpl, Nat2Z.id. unfold get_slice.
    rewrite decide_True by (rewrite length_splice; lia). cbn. by rewrite slice_splice_eq by lia. }
  split; [done|]. unfold payload_vectors. rewrite E. cbn [mbind io_result_bind read_into pl_vector_start pl_vector_len pl_read_start].
  unfold get_slice. unfold zlen in *. rewrite decide_True by lia. cbn [expect mbind io_result_bind]. rewrite Ha. cbn [Z.eqb mbind io_result_bind]. do 3 f_equal.
  unfold slice. rewrite take_take. apply take_ge. rewrite length_drop. pose proof (Z.div_mod vl 4). lia.
Qed.

Lemma f32_values data : Forall u32 data → le_val <$> chunks_exact 4 (f32_bytes data) = data.
Proof. intros Hd. apply le_list_decode; [lia|exact Hd]. Qed.

(** Placing the decoded lists: what is placed satisfies its position's property,
    and every position that is named is filled. *)
Lemma place_lists_spec (P : nat → FlatListData → Prop) results decoded :
  (∀ j x, results !! j = Some (Some x) → P j x) → Forall (λ e, P e.1 e.2) decoded →
  length (place_lists results decoded) = length results ∧
  (∀ j x, place_lists results decoded !! j = Some (Some x) → P j x) ∧
  (∀ j, (j < length results)%nat → (∃ x, results !! j = Some (Some x)) ∨ j ∈ fst <$> decoded → ∃ x, place_lists results decoded !! j = Some (Some x)).
Proof.
  intros Hr Hd. revert results Hr. induction Hd as [|[k y] decoded Hy _ IH]; intros results Hr.
  { split_and!; [done|done|]. intros j Hj [?|Hin]; [done|]. by apply not_elem_of_nil in Hin. }
  cbn [place_lists foldl]. fold (place_lists (<[k := Some y]> results) decoded).
  destruct (IH (<[k := Some y]> results)) as (L & P1 & P2).
  { intros j x Hj. apply list_lookup_insert_Some in Hj as [(-> & [= ->] & _)|[_ Hj]]; [done|by apply Hr]. }
  rewrite length_insert in *. split_and!; [done|done|]. intros j Hj Hc. apply P2; [done|]. destruct (decide (j = k)) as [->|Hne].
  - left. exists y. by apply list_lookup_insert_eq.
  - destruct Hc as [[x Hx]|Hc]; [left; exists x; by rewrite list_lookup_insert_ne|right]. cbn in Hc. set_solver.
Qed.

Section ReadBack.
Context `{IR : InfallibleRead R} (index : FlatIndex) (Hw : flat_writable index).
Implicit Types r : IVFFlatIndexReader R.

Definition is_image (x : R) : Prop :=
  contents x = flat_image index ∧ 0 <= max_ranges_per_pread (read_capabilities x).

Lemma read_one (x : R) off n : is_image x → 0 <= off → off + Z.of_nat n <= zlen (flat_image index) →
  ∃ x', pread x [Request off n] = (Ok [slice (Z.to_nat off) n (flat_image index)], x') ∧ is_image x'.
Proof.
  intros [Hc Hm] Hoff Hle. destruct (pread_total x [Request off n]) as [x' E].
  { constructor; [|constructor]. unfold in_range. rewrite Hc. cbn. lia. }
  exists x'. rewrite E. cbn. unfold range_of; cbn. rewrite Hc. split; [done|].
  pose proof (pread_contents x [Request off n]) as C. pose proof (pread_capabilities x [Request off n]) as P. rewrite E in C, P. cbn in C, P.
  split; [by rewrite C|by rewrite P].
Qed.

Lemma image_at_least : data_start index <= zlen (flat_image index) < 2 ^ 63.
Proof. rewrite (image_size _ Hw). pose proof (images_size_nonneg (dim index) (items_of index)). pose proof (fw_size _ Hw) as Hs. rewrite (image_size _ Hw) in Hs. lia. Qed.

Lemma metric_code_from m : metric_from_code (metric_code m) = Some m.
Proof. by destruct m. Qed.

Definition opened (x : R) : IVFFlatIndexReader R :=
  FlatReader x (fx_d index) (fx_nlist index) (fx_metric index) (total_of index) [] [] [] [] true false.

(** The fields of the header. *)
Lemma header_fields :
  slice 0 4 (header_image index) = le_bytes 4 IVFFLAT_MAGIC ∧ slice 4 4 (header_image index) = le_bytes 4 IVFFLAT_VERSION ∧
  slice 8 4 (header_image index) = le_bytes 4 (fx_d index) ∧ slice 12 4 (header_image index) = le_bytes 4 (fx_nlist index) ∧
  slice 16 4 (header_image index) = le_bytes 4 (metric_code (fx_metric index)) ∧
  slice 20 8 (header_image index) = le_bytes 8 (total_of index) ∧ slice 28 4 (header_image index) = le_bytes 4 FLAG_DELTA_IDS ∧
  slice 32 32 (header_image index) = replicate 32 0.
Proof.
  unfold header_image. split_and!; [by read_field..|]. rewrite !slice_app_skip by (rewrite ?le_bytes_length; lia). by rewrite !le_bytes_length.
Qed.

Lemma open_image (x : R) : is_image x → ∃ x', flat_open x = Ok (opened x') ∧ is_image x'.
Proof.
  intros Hx. pose proof image_at_least as Hlen. pose proof (fw_d _ Hw) as Hd. pose proof (fw_nlist _ Hw) as Hn.
  assert (64 <= data_start index) by (unfold data_start; nia). pose proof (total_bound index Hw) as [Ht0 Ht].
  destruct (read_one x 0 64) as (x' & E & Hx'); [done|done|lia|]. exists x'. split; [|done]. unfold flat_open.
  change (Z.to_nat IVFFLAT_HEADER_SIZE) with 64%nat. rewrite E. cbn [mbind io_result_bind expect head].
  assert (slice (Z.to_nat 0) 64 (flat_image index) = header_image index) as -> by (unfold flat_image; apply slice_app_head, header_length).
  unfold open_with_header. destruct header_fields as (-> & -> & -> & -> & -> & -> & -> & ->). rewrite (image_size _ Hw) in Hlen.
  rewrite !le_val_i32_bytes, le_val_i64_bytes, !le_val_u32 by (first [by split|destruct (fx_metric index); by split|unfold_widths; lia]).
  rewrite !Z.eqb_refl, metric_code_from. unfold validate_positive_i32. rewrite !(proj2 (Z.ltb_lt _ _)) by lia. done.
Qed.
(** The offset table. *)
Definition entry_ok (e : Z * Z * Z) : Prop :=
  0 <= e.1.1 < 2 ^ 63 ∧ 0 <= e.1.2 < 2 ^ 31 ∧ 0 <= e.2 < 2 ^ 31 ∧ (0 < e.1.2 → 0 < e.2).

Lemma load_entry_ok metadata cb k e total : slice (Z.to_nat cb + k * 16) 16 metadata = entry_bytes e → entry_ok e → 0 <= total →
  total + e.1.2 < 2 ^ 63 → load_entry metadata cb k total = Ok (e, total + e.1.2).
Proof.
  intros Hs (Ho & Hc & Hi & Hne) Ht Hlt. destruct e as [[o c] l]. cbn [fst snd] in *.
  assert (∀ a n, (a + n ≤ 16)%nat → slice (Z.to_nat cb + k * 16 + a) n metadata = slice a n (entry_bytes (o, c, l))) as Hf by (intros; by rewrite <- Hs, slice_slice).
  unfold load_entry. pose proof (Hf 0%nat 8%nat ltac:(lia)) as F0. rewrite Nat.add_0_r in F0. rewrite F0, !Hf by lia. unfold entry_bytes; cbn [fst snd].
  assert (le_bytes 4 l = le_bytes 4 l ++ []) as -> by (by rewrite app_nil_r). read_field. read_field. read_field.
  rewrite le_val_i64_bytes, !le_val_i32_bytes by (unfold_widths; lia).
  pass by (apply negb_true_iff, Z.ltb_ge; lia). rewrite (proj2 (checked_add_Some 63 total c _)) by done. cbn [or_data ok_or mbind io_result_bind].
  pass by (apply negb_true_iff, Z.ltb_ge; lia). pass by (destruct (Z.ltb_spec 0 c); [|done]; cbn; apply negb_true_iff, Z.eqb_neq; lia). done.
Qed.

Lemma load_table_ok metadata cb l k total :
  (∀ j e, l !! j = Some e → slice (Z.to_nat cb + (k + j) * 16) 16 metadata = entry_bytes e) → Forall entry_ok l → 0 <= total →
  total + zsum (λ e, e.1.2) l < 2 ^ 63 → load_table metadata cb (seq k (length l)) total = Ok (l, total + zsum (λ e, e.1.2) l).
Proof.
  intros Hs Hok. revert k total Hs. induction Hok as [|e l He Hok IH]; intros k total Hs Ht Hlt; cbn [length seq load_table zsum foldr]; [by rewrite Z.add_0_r|].
  assert (0 <= zsum (λ e, e.1.2) l).
  { clear -Hok. induction Hok as [|e l He _ IH]; [done|]. destruct He as (_ & ? & _). cbn. unfold zsum in IH. lia. }
  cbn [zsum foldr] in Hlt. fold (zsum (λ e : Z * Z * Z, e.1.2) l) in Hlt. pose proof He as (_ & Hc & _).
  rewrite (load_entry_ok metadata cb k e total); [|by specialize (Hs 0%nat e eq_refl); rewrite Nat.add_0_r in Hs|done|done|lia].
  destruct e as [[o c] b]. cbn [fst snd mbind io_result_bind] in *. rewrite IH; [| |lia|lia].
  - cbn [mbind io_result_bind]. do 2 f_equal. unfold zsum. lia.
  - intros j e Hj. rewrite <- (Hs (S j) e Hj). f_equal. lia.
Qed.

Definition table : list (Z * Z * Z) := table_of (dim index) (data_start index) (items_of index).

Lemma table_entry_ok d start items : 0 < d < 2 ^ 31 → Forall (item_ok d) items → 0 <= start → start + images_size (Z.to_nat d) items < 2 ^ 63 →
  Forall entry_ok (table_of (Z.to_nat d) start items) ∧ zsum (λ e, e.1.2) (table_of (Z.to_nat d) start items) = zsum zlen (fst <$> items).
Proof.
  intros Hd Hi. revert start. induction Hi as [|item items Hok _ IH]; intros start Hs Hsz; [by split; constructor|].
  unfold images_size in Hsz. cbn [zsum foldr] in Hsz. fold (images_size (Z.to_nat d) items) in Hsz. pose proof (images_size_nonneg (Z.to_nat d) items) as Hn0.
  unfold images_size in Hn0. pose proof (zlen_nonneg (list_image (Z.to_nat d) item)). pose proof Hok as (_ & Hc & Hb & _).
  pose proof (zlen_nonneg item.1). pose proof (id_bytes_length item.1).
  destruct (IH (start + zlen (list_image (Z.to_nat d) item))) as [F E]; [lia|unfold images_size, zsum in *; lia|].
  cbn [table_of fmap list_fmap]. split; [constructor; [|exact F]|unfold zsum in *; cbn [foldr fst snd]; by rewrite E].
  unfold entry_ok; cbn [fst snd]. unfold zsum in *. split_and!; lia.
Qed.

Lemma table_facts : Forall entry_ok table ∧ zsum (λ e, e.1.2) table = total_of index ∧ length table = Z.to_nat (fx_nlist index).
Proof.
  pose proof (fw_size _ Hw) as Hs. rewrite (image_size _ Hw) in Hs. pose proof (fw_d _ Hw). pose proof (fw_nlist _ Hw).
  destruct (table_entry_ok (fx_d index) (data_start index) (items_of index)) as [F E]; [done|apply Hw|unfold data_start; nia|exact Hs|].
  unfold table, dim. rewrite (items_fst _ Hw) in E. split_and!; [done|done|]. rewrite table_length. pose proof (items_length _ Hw) as L. unfold zlen in L. lia.
Qed.

Definition loaded (x : R) : IVFFlatIndexReader R :=
  FlatReader x (fx_d index) (fx_nlist index) (fx_metric index) (total_of index) (fx_centroids index)
    ((λ e, e.1.1) <$> table) ((λ e, e.1.2) <$> table) ((λ e, e.2) <$> table) true true.

(** The first load, then none. *)
Lemma ensure_loaded_image (x : R) : is_image x → ∃ x', ensure_loaded (opened x) = Ok (loaded x') ∧ is_image x'.
Proof.
  intros Hx. pose proof image_at_least as Hlen. pose proof (fw_d _ Hw) as Hd. pose proof (fw_nlist _ Hw) as Hn. pose proof (fw_section _ Hw) as Hsec.
  destruct table_facts as (Hok & Hsum & Htl). pose proof (total_bound index Hw) as [Ht0 Ht]. rewrite (image_size _ Hw) in Hlen.
  unfold ensure_loaded, opened. cbn [fr_loaded fr_nlist fr_d fr_reader fr_total_vectors fr_metric fr_delta_ids].
  unfold flat_checked_section_size. rewrite (proj2 (checked_mul_Some 64 (fx_nlist index) (fx_d index) _)) by (split; [done|lia]). cbn [or_data ok_or mbind io_result_bind].
  rewrite (proj2 (Z.leb_le _ _)) by (change MAX_SECTION_ELEMENTS with (2 ^ 30); lia). cbn [ensure_data guard_ok mbind io_result_bind].
  set (cb := fx_nlist index * fx_d index * 4). assert (0 <= cb) by (unfold cb; nia).
  rewrite (proj2 (checked_mul_Some 64 (fx_nlist index * fx_d index) 4 _)) by (split; [done|lia]). fold cb. cbn [or_data ok_or mbind io_result_bind].
  rewrite (proj2 (checked_mul_Some 64 (fx_nlist index) 16 _)) by (split; [done|lia]). cbn [or_data ok_or mbind io_result_bind].
  rewrite (proj2 (checked_add_Some 64 cb (fx_nlist index * 16) _)) by (split; [done|unfold cb; lia]). cbn [or_data ok_or mbind io_result_bind].
  assert (data_start index = 64 + (cb + fx_nlist index * 16)) as Eds by (unfold data_start, cb; lia). pose proof (images_size_nonneg (dim index) (items_of index)).
  destruct (read_one x 64 (Z.to_nat (cb + fx_nlist index * 16))) as (x' & E & Hx'); [done|done|rewrite (image_size _ Hw); lia|].
  change IVFFLAT_HEADER_SIZE with 64. rewrite E. cbn [mbind io_result_bind expect head].
  set (metadata := f32_bytes (fx_centroids index) ++ concat (entry_bytes <$> table)).
  assert (Z.to_nat cb = length (f32_bytes (fx_centroids index))) as Ecb.
  { rewrite f32_bytes_length. pose proof (fw_centroids _ Hw) as Hc. unfold zlen in Hc. unfold cb. lia. }
  assert (length (concat (entry_bytes <$> table)) = Z.to_nat (fx_nlist index * 16)) as Etl by (pose proof (table_bytes_length table) as L; unfold zlen in L; lia).
  assert (slice (Z.to_nat 64) (Z.to_nat (cb + fx_nlist index * 16)) (flat_image index) = metadata) as ->.
  { unfold flat_image, metadata. fold table. rewrite slice_app_skip by (rewrite header_length; lia). rewrite header_length.
    replace (Z.to_nat 64 - 64)%nat with 0%nat by lia. rewrite app_assoc. apply slice_app_head. rewrite length_app, Etl, <- Ecb. lia. }
  assert (take (Z.to_nat cb) metadata = f32_bytes (fx_centroids index)) as -> by (unfold metadata; by rewrite Ecb, take_app_length).
  unfold f32_bytes at 1. rewrite (concat_le_bytes_f32 _ (fw_values _ Hw)). cbn [mbind io_result_bind].
  rewrite <- Htl. rewrite load_table_ok; [|intros j e Hj|done|done|rewrite Hsum; lia].
  - cbn [mbind io_result_bind]. rewrite Hsum, Z.add_0_l, Z.eqb_refl. cbn [ensure_data guard_ok mbind io_result_bind]. exists x'. done.
  - rewrite Nat.add_0_l, Ecb. unfold metadata. rewrite slice_app_skip by lia. replace (_ + j * 16 - _)%nat with (j * 16)%nat by lia.
    apply slice_concat; [|by rewrite list_lookup_fmap, Hj]. apply Forall_fmap, Forall_true. intros [[a b] c]. unfold entry_bytes. cbn. by rewrite !length_app, !le_bytes_length.
Qed.
(** One list of the file. *)
Section List_.
Context (i : nat) (item : list Z * list Z) (Hi : items_of index !! i = Some item).

Definition list_offset : Z := data_start index + images_size (dim index) (take i (items_of index)).

Lemma table_lookup d start items k it : items !! k = Some it →
  table_of d start items !! k = Some (start + images_size d (take k items), zlen it.1, zlen (id_bytes it.1)).
Proof.
  revert start k. induction items as [|x items IH]; intros start [|k] Hk; try done; cbn [table_of].
  - injection Hk as ->. cbn. by rewrite Z.add_0_r.
  - cbn. rewrite IH by done. unfold images_size. cbn. do 3 f_equal. unfold zsum. lia.
Qed.

Lemma item_fits : item_ok (fx_d index) item.
Proof. pose proof (fw_items _ Hw) as F. by eapply Forall_lookup_1. Qed.

Lemma list_bytes_at : 0 <= list_offset ∧ list_offset + zlen (list_image (dim index) item) <= zlen (flat_image index) ∧
  slice (Z.to_nat list_offset) (length (list_image (dim index) item)) (flat_image index) = list_image (dim index) item.
Proof.
  pose proof (images_size_nonneg (dim index) (take i (items_of index))) as Hn. pose proof (fw_d _ Hw) as Hd. pose proof (fw_nlist _ Hw) as Hnl.
  assert (0 <= data_start index) by (unfold data_start; nia).
  assert (flat_image index = (header_image index ++ f32_bytes (fx_centroids index) ++ concat (entry_bytes <$> table)) ++
    concat (list_image (dim index) <$> items_of index)) as E by (unfold flat_image; by rewrite <- !app_assoc).
  assert (zlen (header_image index ++ f32_bytes (fx_centroids index) ++ concat (entry_bytes <$> table)) = data_start index) as Hpre.
  { rewrite !zlen_app, table_bytes_length, zlen_f32_bytes, (fw_centroids _ Hw). unfold zlen at 1 2. rewrite header_length. unfold table. rewrite table_length.
    pose proof (items_length _ Hw) as L. unfold zlen in L. rewrite L. unfold data_start. lia. }
  assert (∀ l, zlen (concat (list_image (dim index) <$> l)) = images_size (dim index) l) as Hsz.
  { intros l. rewrite zlen_concat. unfold images_size, zsum. induction l as [|y l IH]; [done|]. cbn. by rewrite IH. }
  pose proof (take_drop_middle _ _ _ Hi) as Esplit. assert (concat (list_image (dim index) <$> items_of index) =
    concat (list_image (dim index) <$> take i (items_of index)) ++ list_image (dim index) item ++ concat (list_image (dim index) <$> drop (S i) (items_of index))) as Ec.
  { rewrite <- Esplit at 1. rewrite fmap_app, fmap_cons, concat_app. done. }
  unfold list_offset. split_and!; [lia| |].
  - rewrite E, zlen_app, Hpre, Ec, !zlen_app, Hsz. pose proof (zlen_nonneg (concat (list_image (dim index) <$> drop (S i) (items_of index)))). lia.
  - rewrite E, Ec. rewrite app_assoc. rewrite slice_app_skip by (rewrite length_app; pose proof (Hsz (take i (items_of index))); unfold zlen in *; lia).
    replace (_ - _)%nat with 0%nat by (rewrite length_app; pose proof (Hsz (take i (items_of index))); unfold zlen in *; lia). by apply slice_app_head.
Qed.

(** What planning the read of the list gives, and decoding its bytes. *)
Definition planned (input : nat) (m : FlatListRead * AlignedFlatPayload) : Prop :=
  m.1 = ListRead input i (length item.1) (length (id_bytes item.1)) list_offset ∧ item.1 ≠ [] ∧
  pl_payload_len m.2 = zlen (list_image (dim index) item) ∧
  read_bytes (read_into m.2 (list_image (dim index) item)) = Ok (list_image (dim index) item) ∧
  payload_vectors (read_into m.2 (list_image (dim index) item)) = Ok (sorted_vectors (dim index) item.1 item.2).

Lemma image_nonempty : item.1 ≠ [] → list_image (dim index) item =
  le_bytes 8 (base_id item.1) ++ le_bytes 4 (zlen (id_bytes item.1)) ++ id_bytes item.1 ++ f32_bytes (sorted_vectors (dim index) item.1 item.2).
Proof. intros Hne. unfold list_image. by destruct item.1. Qed.

Lemma plan_list_ok (x : R) input : (Z.of_nat i < fx_nlist index) →
  ∃ p, plan_list_read (loaded x) input i = Ok p ∧ match p with None => item.1 = [] | Some m => planned input m end.
Proof.
  intros Hlt. pose proof item_fits as Hok. pose proof Hok as (Hl & Hc & Hb & _). pose proof (fw_d _ Hw) as Hd. destruct list_bytes_at as (Ho & Hin & _).
  pose proof image_at_least as Hlen. unfold plan_list_read. cbn [fr_nlist fr_counts fr_offsets fr_id_bytes_lens fr_d loaded].
  rewrite (proj2 (Z.leb_gt _ _)) by lia. cbn [negb ensure_input guard_ok mbind io_result_bind].
  rewrite !list_lookup_fmap. unfold table. rewrite (table_lookup _ _ _ _ _ Hi). cbn [fmap option_fmap option_map expect mbind io_result_bind fst snd].
  fold list_offset. pose proof (list_image_length (fx_d index) item ltac:(lia) Hok) as Hil. fold (dim index) in Hil.
  destruct (Z.eqb_spec (zlen item.1) 0) as [E0|E0]; [exists None; split; [done|]; destruct item.1; [done|rewrite zlen_cons in E0; pose proof (zlen_nonneg l); lia]|].
  assert (item.1 ≠ []) as Hne by (intros E; by rewrite E in E0). unfold checked_list_offset. rewrite (proj2 (Z.leb_le _ _)) by lia. cbn [ensure_data guard_ok mbind io_result_bind].
  pose proof (zlen_nonneg item.1). pose proof (zlen_nonneg (id_bytes item.1)). unfold flat_checked_list_bytes.
  rewrite (proj2 (checked_mul_Some 64 (zlen item.1) (fx_d index * 4) _)) by (split; [done|lia]). cbn [or_data ok_or mbind io_result_bind].
  rewrite (proj2 (checked_add_Some 64 12 _ _)) by (split; [done|lia]). cbn [option_bind mbind].
  rewrite (proj2 (checked_add_Some 64 (12 + _) _ _)) by (split; [done|lia]). cbn [or_data ok_or mbind io_result_bind].
  rewrite Hil. assert ((zlen item.1 * (fx_d index * 4)) mod 4 = 0) as Hm by (rewrite Z.mul_assoc; apply Z.mod_mul; done).
  destruct (payload_new_ok (12 + zlen (id_bytes item.1)) (zlen item.1 * (fx_d index * 4))) as (p & -> & Ep & Es & El & Hr & Ha & Hst); [lia|nia|done|lia|].
  cbn [mbind io_result_bind]. eexists. split; [done|]. unfold planned; cbn [fst snd].
  destruct (payload_holds p (list_image (dim index) item)) as [R1 R2]; [lia..|rewrite El; done|lia|rewrite Es; done|].
  split_and!; [unfold zlen; by rewrite !Nat2Z.id|done|lia|done|].
  rewrite R2, Es, (image_nonempty Hne). do 2 f_equal.
  replace (Z.to_nat (12 + zlen (id_bytes item.1))) with (12 + length (id_bytes item.1))%nat by (unfold zlen; lia).
  rewrite app_assoc, app_assoc. rewrite drop_app_length' by (rewrite !length_app, !le_bytes_length; lia). apply f32_values. destruct (item_rows (fx_d index) item) as (_ & _ & ?); [lia|done|done].
Qed.

Definition list_holds (l : FlatListData) : Prop :=
  ld_list_id l = i ∧ ld_ids l = sorted_ids item.1 ∧ payload_vectors (ld_payload l) = Ok (sorted_vectors (dim index) item.1 item.2).

Lemma decode_list_ok input m : planned input m →
  ∃ l, decode_list m.1 (read_into m.2 (list_image (dim index) item)) = Ok l ∧ list_holds l.
Proof.
  intros (Em & Hne & Hp & Hrb & Hv). pose proof item_fits as (_ & _ & Hb & H64 & _). rewrite Em. unfold decode_list. rewrite Hrb. cbn [mbind io_result_bind lr_id_bytes_len lr_count lr_list_id].
  destruct (flat_ids_roundtrip (sorted_ids item.1)) as (Hdec & _ & _); [by rewrite sorted_ids_perm|apply sorted_ids_sorted|]. rewrite sorted_ids_length in Hdec.
  fold (base_id item.1) (id_bytes item.1) in Hdec. pose proof (zlen_nonneg (id_bytes item.1)).
  assert (i64 (base_id item.1)) as Hbase.
  { unfold base_id, flat_encode_ids. pose proof (sorted_ids_length item.1) as Hl. assert (Forall i64 (sorted_ids item.1)) as Hs by by rewrite sorted_ids_perm.
    destruct (sorted_ids item.1); [by destruct item.1|]. by inversion Hs. }
  assert (slice 0 8 (list_image (dim index) item) = le_bytes 8 (base_id item.1)) as -> by (rewrite (image_nonempty Hne); by read_field).
  assert (slice 8 4 (list_image (dim index) item) = le_bytes 4 (zlen (id_bytes item.1))) as -> by (rewrite (image_nonempty Hne); by read_field).
  rewrite le_val_i64_bytes, le_val_i32_bytes by (done || unfold_widths; lia). rewrite (proj2 (Z.ltb_ge _ _)) by lia. fold (zlen (id_bytes item.1)). rewrite Z.eqb_refl.
  cbn [negb orb ensure_data guard_ok mbind io_result_bind].
  assert (get_slice 12 (length (id_bytes item.1)) (list_image (dim index) item) = Some (id_bytes item.1)) as ->.
  { apply get_slice_Some. rewrite (image_nonempty Hne). split; [rewrite !length_app, !le_bytes_length; lia|].
    rewrite !slice_app_skip by (rewrite ?le_bytes_length; lia). rewrite !le_bytes_length. by rewrite slice_app_head. }
  cbn [expect mbind io_result_bind]. rewrite Hdec. cbn [mbind io_result_bind]. eexists. split; [done|]. done.
Qed.

Lemma empty_list_holds : item.1 = [] → list_holds (ListData i [] payload_empty).
Proof. intros E. unfold list_holds, sorted_vectors. rewrite E. done. Qed.
End List_.

(** A batch of lists. *)
Definition list_read (id : nat) (l : FlatListData) : Prop := ∃ item, items_of index !! id = Some item ∧ list_holds id item l.
Definition planned_at (req : nat * nat) (p : option (FlatListRead * AlignedFlatPayload)) : Prop :=
  ∃ item, items_of index !! req.2 = Some item ∧ match p with None => item.1 = [] | Some m => planned req.2 item req.1 m end.

Lemma plan_lists_read (x : R) ids : Forall (λ id, Z.of_nat id < fx_nlist index) ids →
  ∃ k, try_map (λ '(input_index, list_id), plan_list_read (loaded x) input_index list_id) (imap pair ids) = Ok k ∧ Forall2 planned_at (imap pair ids) k.
Proof.
  intros Hids. apply try_map_total. intros [input id] Hin. apply list_elem_of_lookup in Hin as [j Hj]. rewrite list_lookup_imap in Hj.
  destruct (ids !! j) as [id'|] eqn:E; [|done]. cbn in Hj. injection Hj as -> ->. rewrite Forall_lookup in Hids. specialize (Hids _ _ E).
  destruct (lookup_lt_is_Some_2 (items_of index) id) as [item Hi]; [pose proof (items_length _ Hw) as L; unfold zlen in L; lia|].
  destruct (plan_list_ok id item Hi x input Hids) as (p & Ep & Hp). exists p. split; [done|]. by exists item.
Qed.

Definition read_good (ids : list nat) (m : FlatListRead * AlignedFlatPayload) : Prop :=
  ∃ id item, ids !! lr_input_index m.1 = Some id ∧ items_of index !! id = Some item ∧ planned id item (lr_input_index m.1) m.

Lemma reads_good ids k : Forall2 planned_at (imap pair ids) k → Forall (read_good ids) (omap id k).
Proof.
  intros F. apply Forall_forall. intros m Hm. apply list_elem_of_omap in Hm as (p & Hp & Em). cbn in Em. subst p. apply list_elem_of_lookup in Hp as [j Hj].
  destruct (Forall2_lookup_r _ _ _ _ _ F Hj) as ([input id] & Hq & item & Hi & Hpl). rewrite list_lookup_imap in Hq.
  destruct (ids !! j) as [id'|] eqn:E; [|done]. cbn in Hq. injection Hq as -> ->. cbn in *. exists id, item.
  pose proof Hpl as (E1 & _). rewrite E1. cbn. by split_and!.
Qed.

Lemma good_bytes ids m : read_good ids m → ∃ id item, ids !! lr_input_index m.1 = Some id ∧ items_of index !! id = Some item ∧
  planned id item (lr_input_index m.1) m ∧ in_range (flat_image index) (Request (lr_offset m.1) (Z.to_nat (pl_payload_len m.2))) ∧
  slice (Z.to_nat (lr_offset m.1)) (Z.to_nat (pl_payload_len m.2)) (flat_image index) = list_image (dim index) item.
Proof.
  intros (id & item & H1 & Hi & Hpl). exists id, item. destruct (list_bytes_at id item Hi) as (Ho & Hin & Hb). pose proof Hpl as (E & _ & El & _).
  assert (Z.to_nat (pl_payload_len m.2) = length (list_image (dim index) item)) as -> by (rewrite El; unfold zlen; lia).
  split_and!; try done; rewrite E; cbn; [unfold in_range; cbn; unfold zlen in *; lia|done].
Qed.

Lemma decode_reads ids reads : Forall (read_good ids) reads →
  ∃ decoded, try_map (λ '((meta, payload), bytes), x ← decode_list meta (read_into payload bytes); Ok (lr_input_index meta, x))
      (zip reads (zip_with (λ o n, slice (Z.to_nat o) n (flat_image index)) ((λ m, lr_offset m.1) <$> reads) ((λ m, Z.to_nat (pl_payload_len m.2)) <$> reads))) = Ok decoded ∧
    Forall (λ e, ∃ id, ids !! e.1 = Some id ∧ list_read id e.2) decoded ∧ fst <$> decoded = (λ m, lr_input_index m.1) <$> reads.
Proof.
  intros F. rewrite zip_with_fmap_l, zip_with_fmap_r. induction F as [|m reads Hm _ IH]; [by exists []|]. destruct IH as (decoded & E & Hd & Hf). cbn [zip zip_with try_map].
  destruct (good_bytes ids m Hm) as (id & item & Hid & Hi & Hpl & _ & ->). destruct (decode_list_ok id item Hi _ m Hpl) as (l & El & Hl).
  destruct m as [meta payload]. cbn [fst snd] in *. rewrite El. cbn [mbind io_result_bind]. rewrite E. cbn [mbind io_result_bind].
  eexists. split_and!; [done|constructor; [|done]|cbn; by rewrite Hf]. exists id. split; [done|]. by exists item.
Qed.

Lemma try_map_some {A} msg (l : list (option A)) (Q : nat → A → Prop) : (∀ j o, l !! j = Some o → ∃ a, o = Some a ∧ Q j a) →
  ∃ k, try_map (λ o, or_data o msg) l = Ok k ∧ length k = length l ∧ ∀ j a, k !! j = Some a → Q j a.
Proof.
  revert Q. induction l as [|o l IH]; intros Q Hl; [by exists []|]. destruct (Hl 0%nat o eq_refl) as (a & -> & Ha).
  destruct (IH (λ j, Q (S j))) as (k & E & Hk & HQ); [intros j o Hj; by apply (Hl (S j) o)|]. exists (a :: k). cbn. rewrite E. cbn. split_and!; [done|lia|].
  intros [|j] b Hb; cbn in Hb; [by injection Hb as <-|by apply HQ].
Qed.

Lemma read_lists_image (x : R) ids : is_image x → Forall (λ id, Z.of_nat id < fx_nlist index) ids →
  ∃ lists x', read_inverted_lists (loaded x) ids = Ok (lists, loaded x') ∧ is_image x' ∧ Forall2 list_read ids lists.
Proof.
  intros Hx Hids. unfold read_inverted_lists. assert (ensure_loaded (loaded x) = Ok (loaded x)) as -> by done. cbn [mbind io_result_bind fr_delta_ids loaded ensure_data guard_ok].
  fold (loaded x). destruct (plan_lists_read x ids Hids) as (k & -> & F). cbn [mbind io_result_bind].
  set (results := zip_with _ k ids). pose proof (reads_good ids k F) as Hgood.
  assert (∃ decoded x', is_image x' ∧ Forall (λ e, ∃ id, ids !! e.1 = Some id ∧ list_read id e.2) decoded ∧
    fst <$> decoded = (λ m, lr_input_index m.1) <$> omap Datatypes.id k ∧
    match omap Datatypes.id k with
    | [] => Ok (results, loaded x)
    | _ => '(buffers, reader) ← pread_batched_slices (fr_reader (loaded x)) ((λ x, lr_offset x.1) <$> omap Datatypes.id k) ((λ x, Z.to_nat (pl_payload_len x.2)) <$> omap Datatypes.id k);
           decoded ← try_map (λ '((meta, payload), bytes), x ← decode_list meta (read_into payload bytes); Ok (lr_input_index meta, x)) (zip (omap Datatypes.id k) buffers);
           Ok (place_lists results decoded, with_source (loaded x) reader)
    end = Ok (place_lists results decoded, loaded x')) as (decoded & x' & Hx' & Hd & Hf & E).
  { destruct (omap Datatypes.id k) as [|m0 reads0] eqn:Ek; [by exists [], x|]. rewrite <- Ek in *. clear Ek. destruct Hx as [Hc Hm].
    destruct (pread_batched_slices_total x ((λ x, lr_offset x.1) <$> omap Datatypes.id k) ((λ x, Z.to_nat (pl_payload_len x.2)) <$> omap Datatypes.id k))
      as (x' & E & C & P); [done|by rewrite !length_fmap|rewrite Hc; apply image_at_least| |].
    { rewrite Hc, zip_with_fmap_l, zip_with_fmap_r. clear -Hgood Hw IR. induction Hgood as [|m l Hm _ IH]; [constructor|]. cbn. constructor; [|exact IH].
      destruct (good_bytes ids m Hm) as (? & ? & _ & _ & _ & ? & _). done. }
    cbn [fr_reader loaded]. rewrite E, Hc. cbn [mbind io_result_bind]. destruct (decode_reads ids _ Hgood) as (decoded & -> & Hd & Hf).
    exists decoded, x'. split_and!; [split; [by rewrite C|by rewrite P]|done|done|done]. }
  rewrite E. cbn [mbind io_result_bind]. pose proof (Forall2_length _ _ _ F) as Lk. rewrite length_imap in Lk.
  assert (length results = length ids) as Lr by (unfold results; rewrite length_zip_with; lia).
  assert (∀ j p id, k !! j = Some p → ids !! j = Some id → planned_at (j, id) p) as Hat.
  { intros j p i0 Hp Hi. eapply (Forall2_lookup_lr _ _ _ j); [exact F| |exact Hp]. by rewrite list_lookup_imap, Hi. }
  destruct (place_lists_spec (λ j l, ∃ id, ids !! j = Some id ∧ list_read id l) results decoded) as (L & P1 & P2); [|exact Hd|].
  { intros j l Hj. unfold results in Hj. apply lookup_zip_with_Some in Hj as (p & i0 & Ep & Hp & Hi). destruct p; [done|]. injection Ep as ->.
    destruct (Hat _ _ _ Hp Hi) as (item & Hit & Hem). exists i0. split; [done|]. exists item. split; [done|]. by apply empty_list_holds. }
  destruct (try_map_some "missing batched IVF-FLAT list read result" (place_lists results decoded) (λ j l, ∃ id, ids !! j = Some id ∧ list_read id l)) as (lists & -> & Ll & HQ).
  { intros j o Hj. destruct (P2 j) as (l & Hl); [apply lookup_lt_Some in Hj; lia| |rewrite Hl in Hj; injection Hj as <-; exists l; split; [done|by apply P1]].
    apply lookup_lt_Some in Hj. rewrite L, Lr in Hj. destruct (lookup_lt_is_Some_2 ids j Hj) as [i0 Hi]. destruct (lookup_lt_is_Some_2 k j) as [p Hp]; [lia|].
    destruct p as [m|].
    - right. rewrite Hf. apply list_elem_of_fmap. exists m. split; [|apply list_elem_of_omap; exists (Some m); split; [by eapply list_elem_of_lookup_2|done]].
      destruct (Hat _ _ _ Hp Hi) as (item & _ & Em & _). by rewrite Em.
    - left. eexists. unfold results. rewrite lookup_zip_with, Hp, Hi. done. }
  cbn [mbind io_result_bind]. exists lists, x'. split_and!; [done|done|]. apply Forall2_same_length_lookup_2; [lia|].
  intros j i0 l Hi Hl. destruct (HQ _ _ Hl) as (i1 & Hi1 & Hr). rewrite Hi in Hi1. by injection Hi1 as <-.
Qed.
End ReadBack.

Lemma read_list_image `{IR : InfallibleRead R} (index : FlatIndex) (Hw : flat_writable index) (x : R) i ids vectors : is_image index x →
  fx_ids index !! i = Some ids → fx_vectors index !! i = Some vectors →
  ∃ x', read_inverted_list (loaded index x) i = Ok (sorted_ids ids, sorted_vectors (dim index) ids vectors, loaded index x') ∧ is_image index x'.
Proof.
  intros Hx Hids Hvec. destruct (read_lists_image index Hw x [i] Hx) as (lists & x' & E & Hx' & F).
  { constructor; [|constructor]. apply lookup_lt_Some in Hids. pose proof (fw_ids _ Hw) as L. unfold zlen in L. lia. }
  exists x'. split; [|done]. unfold read_inverted_list. rewrite E. cbn [mbind io_result_bind].
  inversion F as [|? l ? ls (item & Hit & _ & Ei & Ep) F' E1 E2]; subst. inversion F'; subst. cbn [last expect mbind io_result_bind].
  unfold items_of in Hit. apply lookup_zip_with_Some in Hit as (a & b & -> & Ha & Hb). rewrite Hids in Ha. rewrite Hvec in Hb. injection Ha as <-. injection Hb as <-.
  cbn [fst snd] in *. by rewrite Ep, Ei.
Qed.

(** C12: An IVF-Flat index reads back.  Any index whose shapes agree and whose
    sizes fit the fields of the format is written without an error, and any
    reader of the written bytes, however few ranges it takes per call, opens and
    loads the same dimension, metric, centroids and row total, and reads from
    every inverted list its rows in ascending order of identifier: the
    identifiers and the vectors of the list under one and the same permutation
    of its positions. *)
Theorem ivfflat_roundtrip `{LW : SeekWriteLaws W, IW : !InfallibleWrite W, LR : SeekReadLaws R, IR : !InfallibleRead R} (index : FlatIndex) (out : W) :
  flat_writable index → written out = [] → pos out = 0 →
  ∃ out', write_ivfflat_index index out = Ok out' ∧
    ∀ x : R, contents x = written out' → 0 <= max_ranges_per_pread (read_capabilities x) →
      ∃ r r', flat_open x = Ok r ∧ ensure_loaded r = Ok r' ∧
        fr_d r' = fx_d index ∧ fr_nlist r' = fx_nlist index ∧ fr_metric r' = fx_metric index ∧ fr_centroids r' = fx_centroids index ∧
        fr_total_vectors r' = zsum zlen (fx_ids index) ∧
        ∀ i ids vectors, fx_ids index !! i = Some ids → fx_vectors index !! i = Some vectors →
          ∃ order ids' r'', read_inverted_list r' i = Ok (ids', concat ((λ p, slice (p * Z.to_nat (fx_d index)) (Z.to_nat (fx_d index)) vectors) <$> order), r'') ∧
            order ≡ₚ seq 0 (length ids) ∧ length ids' = length order ∧ Sorted Z.le ids' ∧ ∀ j p, order !! j = Some p → ids' !! j = ids !! p.
Proof.
  intros Hw Ho Hp. destruct (write_image index Hw out IVFFLAT_WRITE_BUFFER_SIZE Ho Hp) as (out' & E & Ew). exists out'. split; [exact E|]. intros x Hx Hm.
  destruct (open_image index Hw x) as (x1 & E1 & H1); [split; [by rewrite Hx|done]|]. destruct (ensure_loaded_image index Hw x1 H1) as (x2 & E2 & H2).
  exists (opened index x1), (loaded index x2). split_and!; try done. intros i ids vectors Hids Hvec.
  destruct (read_list_image index Hw x2 i ids vectors H2 Hids Hvec) as (x3 & E3 & _). exists (sorted_positions ids), (sorted_ids ids), (loaded index x3).
  split_and!; [exact E3|apply positions_perm|by rewrite sorted_ids_length, positions_length|apply sorted_ids_sorted|].
  intros j p Hj. symmetry. by apply positions_lookup.
Qed.

(** ** A concrete index: two lists of one-dimensional vectors, one list empty *)

Definition demo_flat : FlatIndex := Flat 1 3 L2 [0; 1; 2] [[9; 4; 4]; []; [-3]] [[100; 200; 300]; []; [400]].

Lemma demo_flat_writable : flat_writable demo_flat.
Proof.
  split.
  1, 2: unfold demo_flat; cbn; lia.
  1-4: vm_compute; done.
  - unfold u32. repeat constructor; cbn; lia.
  - apply (bool_decide_unpack (Forall (item_ok 1) (items_of demo_flat))). vm_compute. exact I.
  - vm_compute. done.
Qed.

Lemma ivfflat_roundtrip_witness :
  ∃ out', write_ivfflat_index demo_flat (pos_writer_new []) = Ok out' ∧
    ∀ x : Cursor, contents x = written out' → 0 <= max_ranges_per_pread (read_capabilities x) →
      ∃ r r', flat_open x = Ok r ∧ ensure_loaded r = Ok r' ∧
        fr_d r' = 1 ∧ fr_nlist r' = 3 ∧ fr_metric r' = L2 ∧ fr_centroids r' = [0; 1; 2] ∧ fr_total_vectors r' = 4 ∧
        ∀ i ids vectors, fx_ids demo_flat !! i = Some ids → fx_vectors demo_flat !! i = Some vectors →
          ∃ order ids' r'', read_inverted_list r' i = Ok (ids', concat ((λ p, slice (p * 1) 1 vectors) <$> order), r'') ∧
            order ≡ₚ seq 0 (length ids) ∧ length ids' = length order ∧ Sorted Z.le ids' ∧ ∀ j p, order !! j = Some p → ids' !! j = ids !! p.
Proof. exact (ivfflat_roundtrip demo_flat (pos_writer_new []) demo_flat_writable eq_refl eq_refl). Defined.

(** The middle list's neighbours, read back from the demo file. *)
Example demo_flat_reads :
  match write_ivfflat_index demo_flat (pos_writer_new []) with
  | Ok out' => match flat_open (MkCursor (written out') 0) with
               | Ok r => match read_inverted_list r 0 with Ok (ids, vectors, _) => Some (ids, vectors) | _ => None end
               | _ => None
               end
  | _ => None
  end = Some ([4; 4; 9], [200; 300; 100]).
Proof. vm_compute. reflexivity. Qed.
