(* ===== verification/IvfFlatStream.v ===== *)
(** Streaming an oversized list of a written IVF-Flat file: the chunks of
    [for_each_streamed_list_chunk] are consecutive runs of rows that cover the
    list, and the planner of a batch always takes a list. *)

From S2P Require Import Prelude SeekIo IndexIoUtil F32 DiskannUtil DiskannHeader SectionWriter IvfFlatFile IvfFlatRoundtrip.
Import Varint Validate Batch.

(** Identifiers of a list fit the bound beside one row; the reader refuses the
    list otherwise. *)
Definition streamable (d : Z) (item : list Z * list Z) : Prop :=
  12 + zlen (id_bytes item.1) + zlen item.1 * 8 <= MAX_IVF_BATCH_READ_BYTES ∧
  d * 4 + zlen item.1 * 8 + IVF_STREAM_ALLOCATION_SLACK <= MAX_IVF_BATCH_READ_BYTES.

Lemma chunk_rows_total remaining row_bytes retained : 0 < remaining → 0 < row_bytes → 0 <= retained →
  row_bytes + retained + IVF_STREAM_ALLOCATION_SLACK <= MAX_IVF_BATCH_READ_BYTES →
  ∃ rows, bounded_ivf_stream_chunk_rows remaining row_bytes retained 1 = Ok rows ∧ 0 < rows <= remaining ∧ rows * row_bytes <= MAX_IVF_BATCH_READ_BYTES.
Proof.
  intros Hr Hb Ht Hfit. unfold bounded_ivf_stream_chunk_rows. rewrite (proj2 (Z.eqb_neq _ _)) by lia. rewrite (proj2 (Z.eqb_neq row_bytes 0)) by lia.
  cbn [Z.eqb orb negb ensure_data guard_ok mbind io_result_bind]. unfold IVF_STREAM_ALLOCATION_SLACK in *. rewrite (proj2 (checked_sub_Some _ _ _)) by (split; [done|lia]). cbn [mbind option_bind].
  rewrite (proj2 (checked_sub_Some _ _ _)) by (split; [done|lia]). cbn [or_data ok_or mbind io_result_bind].
  set (avail := MAX_IVF_BATCH_READ_BYTES - retained - 64). assert (row_bytes <= avail) as Ha by (unfold avail; lia).
  assert (1 <= avail / row_bytes) as H1 by (apply Z.div_le_lower_bound; lia). pose proof (Z.mul_div_le avail row_bytes Hb) as H2.
  change (1 <? 1) with false. rewrite andb_false_r. rewrite (proj2 (Z.eqb_neq (Z.min _ _) 0)) by lia. cbn [negb ensure_data guard_ok mbind io_result_bind].
  eexists. split; [done|]. split; [lia|]. assert (avail <= MAX_IVF_BATCH_READ_BYTES) by (unfold avail; lia). nia.
Qed.

Lemma f32_bytes_app a b : f32_bytes (a ++ b) = f32_bytes a ++ f32_bytes b.
Proof. unfold f32_bytes. by rewrite fmap_app, concat_app. Qed.
Lemma f32_bytes_slice a n l : (a + n ≤ length l)%nat → slice (a * 4) (n * 4) (f32_bytes l) = f32_bytes (slice a n l).
Proof.
  intros Hl. unfold slice. rewrite <- (take_drop a l) at 1. rewrite f32_bytes_app, drop_app_length' by (rewrite f32_bytes_length, length_take; lia).
  rewrite <- (take_drop n (drop a l)) at 1. rewrite f32_bytes_app. apply take_app_length'. rewrite f32_bytes_length, length_take, length_drop. lia.
Qed.

(** The planner of a batch is total, and takes at least one list. *)
Lemma payload_batch_loop_total lens index bytes ranges max_ranges : Forall (λ n, 0 <= n < 2 ^ 63) lens → 0 <= bytes < 2 ^ 63 → (index = 0%nat → bytes = 0) →
  ∃ n, payload_batch_loop lens index bytes ranges max_ranges = Ok n ∧ (index ≤ n)%nat.
Proof.
  intros Hl. revert index bytes ranges. induction Hl as [|len lens Hlen Hl IH]; intros index bytes ranges Hb H0; cbn [payload_batch_loop]; [by eexists|].
  rewrite (proj2 (checked_add_Some 64 bytes len _)) by (split; [done|lia]). cbn [or_data ok_or mbind io_result_bind].
  destruct ((0 <? index)%nat && _) eqn:E; [by eexists|]. destruct (IH (S index) (bytes + len) (ranges + (if len =? 0 then 0 else 1))) as (n & En & Hn); [|done|exists n; split; [done|lia]].
  apply andb_false_iff in E as [E%Nat.ltb_ge|E]; [rewrite H0 by lia; lia|]. apply orb_false_iff in E as [_ E%Z.ltb_ge]. unfold MAX_IVF_BATCH_READ_BYTES in E. lia.
Qed.
Lemma batch_end_total lens ranges : lens ≠ [] → Forall (λ n, 0 <= n < 2 ^ 63) lens → ∃ n, bounded_ivf_payload_batch_end lens ranges = Ok n.
Proof.
  intros Hne Hl. unfold bounded_ivf_payload_batch_end. destruct lens as [|len lens]; [done|].
  destruct (payload_batch_loop_total (len :: lens) 0 0 0 (if ranges =? 0 then USIZE_MAX else ranges) Hl) as (n & -> & _); [lia|done|by eexists].
Qed.

Section Streaming.
Context `{IR : InfallibleRead R} (index : FlatIndex) (Hw : flat_writable index).

(** The planned length of a list is the length of its bytes. *)
Lemma payload_len_image (x : R) i item : items_of index !! i = Some item → list_payload_len (loaded index x) i = Ok (zlen (list_image (dim index) item)).
Proof.
  intros Hi. pose proof (item_fits index Hw i item Hi) as Hok. pose proof Hok as (Hl & Hc & Hb & _). pose proof (fw_d _ Hw) as Hd. pose proof (items_length _ Hw) as Hn.
  apply lookup_lt_Some in Hi as Hlt. unfold zlen in Hn. destruct (list_bytes_at index Hw i item Hi) as (Ho & Hin & _). pose proof (image_at_least index Hw) as Hlen.
  unfold list_payload_len. cbn [fr_nlist fr_counts fr_id_bytes_lens fr_d loaded]. rewrite (proj2 (Z.leb_gt _ _)) by lia. cbn [negb ensure_input guard_ok mbind io_result_bind].
  rewrite !list_lookup_fmap. unfold table. rewrite (table_lookup _ _ _ _ _ Hi). cbn [fmap option_fmap option_map expect mbind io_result_bind fst snd].
  pose proof (list_image_length (fx_d index) item ltac:(lia) Hok) as Hil. fold (dim index) in Hil. rewrite Hil in *. destruct (Z.eqb_spec (zlen item.1) 0) as [E0|E0]; [done|].
  pose proof (zlen_nonneg item.1). pose proof (zlen_nonneg (id_bytes item.1)).
  rewrite (proj2 (checked_add_Some 64 12 _ _)) by (split; [done|lia]). cbn [option_bind mbind].
  rewrite (proj2 (checked_mul_Some 64 (fx_d index) 4 _)) by (split; [done|lia]). cbn [option_bind mbind].
  rewrite (proj2 (checked_mul_Some 64 (zlen item.1) _ _)) by (split; [done|lia]). cbn [option_bind mbind].
  rewrite (proj2 (checked_add_Some 64 (12 + _) _ _)) by (split; [done|lia]). cbn [or_data ok_or]. by rewrite Hil.
Qed.

Lemma batch_read_end_image (x : R) ids : ids ≠ [] → Forall (λ id, Z.of_nat id < fx_nlist index) ids → ∃ n, batch_read_end (loaded index x) ids = Ok n.
Proof.
  intros Hne Hids. unfold batch_read_end.
  destruct (try_map_total (list_payload_len (loaded index x)) (λ _ n, 0 <= n < 2 ^ 63) ids) as (lens & -> & F).
  { intros id Hid. rewrite Forall_forall in Hids. specialize (Hids _ Hid). destruct (lookup_lt_is_Some_2 (items_of index) id) as [item Hi]; [pose proof (items_length _ Hw) as L; unfold zlen in L; lia|].
    eexists. split; [by apply payload_len_image|]. destruct (list_bytes_at index Hw id item Hi) as (Ho & Hin & _). pose proof (image_at_least index Hw).
    pose proof (zlen_nonneg (list_image (dim index) item)). lia. }
  cbn [mbind io_result_bind]. apply batch_end_total.
  - intros ->. apply Forall2_length in F. destruct ids; [done|cbn in F; lia].
  - apply Forall_forall. intros n Hn. apply list_elem_of_lookup in Hn as [j Hj]. destruct (Forall2_lookup_r _ _ _ _ _ F Hj) as (? & _ & ?). done.
Qed.

Section Chunks.
Context {S : Type} (consume : S → list Z → list Z → io_result S) (Inv : nat → S → Prop).
Context (i : nat) (item : list Z * list Z) (Hi : items_of index !! i = Some item) (Hne : item.1 ≠ []) (Hst : streamable (fx_d index) item).
Let ids := sorted_ids item.1.
Let vectors := sorted_vectors (dim index) item.1 item.2.
Context (Hconsume : ∀ a n s, (0 < n)%nat → (a + n ≤ length ids)%nat → Inv a s →
  ∃ s', consume s (slice a n ids) (slice (a * dim index) (n * dim index) vectors) = Ok s' ∧ Inv (a + n) s').

Lemma vectors_length : length vectors = (length ids * dim index)%nat ∧ Forall u32 vectors.
Proof.
  pose proof (fw_d _ Hw) as Hd. destruct (item_rows (fx_d index) item ltac:(lia) (item_fits index Hw i item Hi)) as (_ & Hv & Hu). split; [|exact Hu].
  unfold vectors, ids, dim. rewrite sorted_ids_length. unfold zlen in Hv. lia.
Qed.

(** The identifiers are read on their own. *)
Lemma read_ids_image (x : R) : is_image index x →
  ∃ x', read_delta_varint_ids_at x (list_offset index i) (Z.to_nat (zlen item.1)) (Z.to_nat (zlen (id_bytes item.1))) = Ok (ids, x') ∧ is_image index x'.
Proof.
  intros Hx. pose proof (item_fits index Hw i item Hi) as (Hl & Hc & Hb & H64 & _). destruct (list_bytes_at index Hw i item Hi) as (Ho & Hin & Hs). destruct Hst as [Hst1 _].
  pose proof (zlen_nonneg item.1). pose proof (zlen_nonneg (id_bytes item.1)). unfold MAX_IVF_BATCH_READ_BYTES in Hst1. unfold read_delta_varint_ids_at. rewrite !Z2Nat.id by lia.
  rewrite (proj2 (checked_add_Some 64 12 _ _)) by (split; [done|lia]). cbn [or_data ok_or mbind io_result_bind].
  rewrite (proj2 (checked_mul_Some 64 _ 8 _)) by (split; [done|lia]). cbn [or_data ok_or mbind io_result_bind].
  rewrite (proj2 (checked_add_Some 64 (12 + _) _ _)) by (split; [done|lia]). rewrite (proj2 (Z.leb_le _ _)) by (unfold MAX_IVF_BATCH_READ_BYTES; lia). cbn [ensure_data guard_ok mbind io_result_bind].
  set (n := Z.to_nat (12 + zlen (id_bytes item.1))). set (prefix := le_bytes 8 (base_id item.1) ++ le_bytes 4 (zlen (id_bytes item.1)) ++ id_bytes item.1).
  assert (length prefix = n) as Lp by (unfold prefix, n, zlen; rewrite !length_app, !le_bytes_length; lia).
  assert (list_image (dim index) item = prefix ++ f32_bytes vectors) as Eimg by (rewrite (image_nonempty index item Hne); unfold prefix; by rewrite <- !app_assoc).
  assert (slice (Z.to_nat (list_offset index i)) n (flat_image index) = prefix) as Ebytes.
  { rewrite <- (Nat.add_0_r (Z.to_nat (list_offset index i))). rewrite <- (slice_slice _ (length (list_image (dim index) item))) by (rewrite Eimg, length_app; lia).
    rewrite Hs, Eimg. by apply slice_app_head. }
  destruct (read_one index x (list_offset index i) n) as (x' & -> & Hx'); [done|done|rewrite Eimg, zlen_app in Hin; pose proof (zlen_nonneg (f32_bytes vectors)); unfold zlen in *; lia|].
  rewrite Ebytes. cbn [mbind io_result_bind head expect].
  assert (Forall i64 (sorted_ids item.1)) as Hs64 by by rewrite sorted_ids_perm.
  assert (i64 (base_id item.1)) as Hbase.
  { unfold base_id, flat_encode_ids. pose proof (sorted_ids_length item.1) as Hsl. destruct (sorted_ids item.1); [by destruct item.1|]. by inversion Hs64. }
  assert (slice 0 8 prefix = le_bytes 8 (base_id item.1)) as -> by (unfold prefix; by read_field).
  assert (slice 8 4 prefix = le_bytes 4 (zlen (id_bytes item.1))) as -> by (unfold prefix; by read_field).
  rewrite le_val_i64_bytes, le_val_i32_bytes by (done || unfold_widths; lia). rewrite (proj2 (Z.ltb_ge _ _)) by lia. rewrite Z.eqb_refl.
  cbn [negb orb ensure_data guard_ok mbind io_result_bind].
  assert (drop 12 prefix = id_bytes item.1) as -> by (unfold prefix; by rewrite app_assoc, drop_app_length' by (rewrite length_app, !le_bytes_length; lia)).
  replace (Z.to_nat (zlen item.1)) with (length (sorted_ids item.1)) by (rewrite sorted_ids_length; unfold zlen; lia).
  destruct (flat_ids_roundtrip (sorted_ids item.1)) as (_ & Hdec & _); [done|apply sorted_ids_sorted|]. unfold base_id, id_bytes. rewrite Hdec. by exists x'.
Qed.

(** The bytes of a run of rows. *)
Lemma rows_bytes a n : (a + n ≤ length ids)%nat →
  let off := list_offset index i + (12 + zlen (id_bytes item.1)) + Z.of_nat a * (fx_d index * 4) in
  off + Z.of_nat (n * dim index * 4) <= zlen (flat_image index) ∧
  slice (Z.to_nat off) (n * dim index * 4) (flat_image index) = f32_bytes (slice (a * dim index) (n * dim index) vectors).
Proof.
  intros Han off. destruct (list_bytes_at index Hw i item Hi) as (Ho & Hin & Hs). destruct vectors_length as [Lv _]. pose proof (fw_d _ Hw) as Hd.
  set (image := list_image (dim index) item) in *. set (p := (12 + length (id_bytes item.1))%nat).
  assert (drop p image = f32_bytes vectors) as Edrop.
  { unfold image, p. rewrite (image_nonempty index item Hne). rewrite app_assoc, app_assoc. rewrite drop_app_length' by (rewrite !length_app, !le_bytes_length; lia). done. }
  assert (length image = p + length vectors * 4)%nat as Limg.
  { pose proof (f_equal length Edrop) as L. rewrite length_drop, f32_bytes_length in L. unfold image, p in *. rewrite (image_nonempty index item Hne) in *.
    rewrite !length_app, !le_bytes_length in *. rewrite !f32_bytes_length in *. lia. }
  assert (Z.to_nat off = Z.to_nat (list_offset index i) + (p + a * dim index * 4))%nat as Eoff by (unfold off, p, zlen, dim; nia).
  assert (p + a * dim index * 4 + n * dim index * 4 ≤ length image)%nat as Hfit by (rewrite Limg, Lv; nia).
  split; [unfold off, zlen, dim, p in *; nia|]. rewrite Eoff. rewrite <- (slice_slice _ (length image)) by lia. rewrite Hs.
  unfold slice at 1. rewrite <- drop_drop, Edrop. fold (slice (a * dim index * 4) (n * dim index * 4) (f32_bytes vectors)).
  apply f32_bytes_slice. rewrite Lv. nia.
Qed.

Lemma stream_chunks_image (x : R) fuel a s : (length ids - a ≤ fuel)%nat → (a ≤ length ids)%nat → is_image index x → Inv a s →
  ∃ s' x', stream_chunks consume fuel x ids (list_offset index i + (12 + zlen (id_bytes item.1))) (fx_d index * 4) (zlen ids * 8) (zlen item.1) (Z.of_nat a) s =
      Ok (s', x') ∧ is_image index x' ∧ Inv (length ids) s'.
Proof.
  pose proof (fw_d _ Hw) as Hd. pose proof (image_at_least index Hw) as Hlen. destruct (list_bytes_at index Hw i item Hi) as (Ho & _ & _). destruct vectors_length as [_ Hu].
  destruct Hst as [_ Hst2]. assert (length ids = length item.1) as Lid by apply sorted_ids_length. assert (zlen ids = zlen item.1) as Zid by (unfold zlen; by rewrite Lid).
  unfold MAX_IVF_BATCH_READ_BYTES, IVF_STREAM_ALLOCATION_SLACK in Hst2. pose proof (zlen_nonneg (id_bytes item.1)) as Hidb. pose proof (zlen_nonneg item.1) as Hc0.
  revert x a s. induction fuel as [|fuel IH]; intros x a s Hf Ha Hx HI; cbn [stream_chunks].
  { rewrite (proj2 (Z.ltb_ge _ _)) by (unfold zlen; lia). exists s, x. split_and!; [done|done|]. by replace (length ids) with a by lia. }
  destruct (Z.ltb_spec (Z.of_nat a) (zlen item.1)) as [Hlt|Hge]; [|exists s, x; split_and!; [done|done|]; replace (length ids) with a by (unfold zlen in *; lia); done].
  destruct (chunk_rows_total (zlen item.1 - Z.of_nat a) (fx_d index * 4) (zlen ids * 8)) as (rows & -> & Hrows & Hrb); [lia|lia|lia|unfold IVF_STREAM_ALLOCATION_SLACK, MAX_IVF_BATCH_READ_BYTES; lia|].
  unfold MAX_IVF_BATCH_READ_BYTES in Hrb. cbn [mbind io_result_bind]. destruct (rows_bytes a (Z.to_nat rows)) as [Hfit Hbytes]; [unfold zlen in *; lia|].
  assert (Z.of_nat (Z.to_nat rows * dim index * 4) = rows * (fx_d index * 4)) as En by (unfold dim; nia).
  rewrite (proj2 (checked_mul_Some 64 rows _ (rows * (fx_d index * 4)))) by (split; [done|lia]). cbn [or_data ok_or mbind io_result_bind].
  destruct (payload_new_ok 0 (rows * (fx_d index * 4))) as (p & Ep & El & Es & Ev & Hr & Hal & Hstore); [done|lia|rewrite Z.mul_assoc; by apply Z.mod_mul|lia|].
  rewrite Z.add_0_l in Ep, El, Hstore. rewrite Ep. cbn [mbind io_result_bind]. set (off := list_offset index i + _ + _ * _) in *. cbv zeta in Hfit, Hbytes. fold off in Hfit, Hbytes.
  assert (0 <= Z.of_nat a * (fx_d index * 4)) by lia. assert (0 <= off) by (unfold off; lia).
  rewrite (proj2 (checked_mul_Some 64 (Z.of_nat a) _ _)) by (split; [done|unfold off in *; lia]). cbn [or_data ok_or mbind io_result_bind].
  rewrite (proj2 (checked_add_Some 64 (_ + (12 + _)) _ off)) by (split; [done|lia]). cbn [or_data ok_or mbind io_result_bind].
  rewrite El. replace (Z.to_nat (rows * (fx_d index * 4))) with (Z.to_nat rows * dim index * 4)%nat by lia.
  destruct (read_one index x off (Z.to_nat rows * dim index * 4)) as (x' & -> & Hx'); [done|done|done|]. cbn [mbind io_result_bind head expect].
  rewrite Nat2Z.id. rewrite (proj2 (get_slice_Some _ _ _ _)) by (split; [unfold zlen in *; lia|done]). cbn [expect mbind io_result_bind]. rewrite Hbytes.
  set (chunk := slice (a * dim index) (Z.to_nat rows * dim index) vectors). assert (zlen (f32_bytes chunk) = rows * (fx_d index * 4)) as Lc.
  { unfold chunk. rewrite <- Hbytes. unfold zlen. rewrite length_slice by (unfold zlen in *; lia). lia. }
  destruct (payload_holds p (f32_bytes chunk)) as [_ ->]; [lia|lia|lia|lia|rewrite Ev; lia|rewrite Ev, Z.mul_assoc; by apply Z.mod_mul|lia|by rewrite Es, Z.add_0_r in *|].
  rewrite Es. cbn [mbind io_result_bind]. change (drop (Z.to_nat 0) (f32_bytes chunk)) with (f32_bytes chunk). rewrite f32_values by (by apply Forall_slice).
  destruct (Hconsume a (Z.to_nat rows) s) as (s' & Econ & HI'); [lia|unfold zlen in *; lia|done|]. fold chunk in Econ. rewrite Econ. cbn [mbind io_result_bind].
  replace (Z.of_nat a + rows) with (Z.of_nat (a + Z.to_nat rows)) by lia. apply IH; [lia|unfold zlen in *; lia|done|done].
Qed.
(** The whole list is streamed, row after row. *)
Lemma stream_list_image (x : R) s : is_image index x → Inv 0 s →
  ∃ s' x', for_each_streamed_list_chunk consume (loaded index x) i s = Ok (s', loaded index x') ∧ is_image index x' ∧ Inv (length item.1) s'.
Proof.
  intros Hx HI. pose proof (item_fits index Hw i item Hi) as Hok. pose proof Hok as (Hl & Hc & Hb & H64 & _). pose proof (fw_d _ Hw) as Hd.
  destruct (list_bytes_at index Hw i item Hi) as (Ho & Hin & Hs). pose proof (image_at_least index Hw) as Hlen. pose proof (zlen_nonneg item.1). pose proof (zlen_nonneg (id_bytes item.1)).
  unfold for_each_streamed_list_chunk. assert (ensure_loaded (loaded index x) = Ok (loaded index x)) as -> by done. cbn [mbind io_result_bind fr_counts fr_offsets fr_id_bytes_lens fr_d fr_reader loaded].
  rewrite !list_lookup_fmap. unfold table. rewrite (table_lookup _ _ _ _ _ Hi). cbn [fmap option_fmap option_map expect mbind io_result_bind fst snd].
  fold (list_offset index i). unfold checked_list_offset. rewrite (proj2 (Z.leb_le _ _)) by lia. cbn [ensure_data guard_ok mbind io_result_bind].
  destruct (rows_bytes 0 0 ltac:(lia)) as [Hend _]. destruct (read_ids_image x Hx) as (x1 & -> & Hx1). cbn [mbind io_result_bind].
  rewrite (proj2 (checked_mul_Some 64 (fx_d index) 4 _)) by (split; [done|lia]). cbn [or_data ok_or mbind io_result_bind].
  rewrite (proj2 (checked_add_Some 64 (list_offset index i) _ _)) by (split; [done|lia]). cbn [or_data ok_or mbind io_result_bind].
  assert (zlen ids = zlen item.1) as Zid by (unfold zlen, ids; by rewrite sorted_ids_length).
  rewrite (proj2 (checked_mul_Some 64 (zlen ids) 8 _)) by (split; [done|lia]). cbn [or_data ok_or mbind io_result_bind].
  destruct (stream_chunks_image x1 (Z.to_nat (zlen item.1)) 0 s) as (s' & x2 & E & Hx2 & HI2); [unfold zlen in *; lia|lia|done|done|].
  change (Z.of_nat 0) with 0 in E. rewrite E. cbn [mbind io_result_bind]. exists s', x2. split_and!; [done|done|]. unfold ids in HI2. by rewrite sorted_ids_length in HI2.
Qed.
End Chunks.
End Streaming.
