(* ===== verification/IvfFlatScan.v ===== *)
(** Scanning the rows of an IVF-Flat list: [scan_flat_rows] of
    [core/src/ivfflat_io.rs], for any collector.

    The specification is the list of (distance, id) pairs of the rows that pass
    the filter, with the plain ranking distance [fvec_distance]: whatever the scan
    abandons early, the collector ends as if it had been offered all of them. *)

From S2P Require Import Prelude F32 F64 F32Arith TopK DiskannHeader Distance KmeansSearch Range RangeQueries Collect IvfFlatFile.

Section Scan.
Context (arch : Arch) `{Collector C}.

(** One turn of the loop over the identifiers. *)
Definition scan_row (query : list Z) (distance_context : QueryDistance) (vectors : list Z) (d : nat) (metric : MetricType)
    (filter : option RowIdFilter) (collector : C) (row : nat * Z) : io_result C :=
  let '(local_idx, id) := row in
  if filtered_out filter id then Ok collector
  else
    vector ← expect (get_slice (local_idx * d) d vectors);
    vector_norm ← (if VALIDATE_COSINE_INPUTS C && bool_decide (metric = Cosine) then Some <$> checked_cosine_norm arch vector else Ok None);
    if bool_decide (metric = L2) then
      r ← fvec_l2sqr_unless_exceeds arch query vector (cutoff collector);
      match (r : option Z) with
      | Some distance => collect collector id distance
      | None => Ok (note_abandoned collector)
      end
    else distance ← distance_to arch distance_context vector vector_norm; collect collector id distance.
Definition scan_flat_rows (query ids vectors : list Z) (d : nat) (metric : MetricType) (filter : option RowIdFilter) (collector : C) : io_result C :=
  let distance_context := query_distance_new arch query metric in
  try_fold (scan_row query distance_context vectors d metric filter) collector (imap pair ids).
Definition scan_flat_list (query : list Z) (l : FlatListData) (d : nat) (metric : MetricType) (filter : option RowIdFilter) (collector : C) : io_result C :=
  vectors ← payload_vectors (ld_payload l);
  scan_flat_rows query (ld_ids l) vectors d metric filter collector.
End Scan.

(** ** What a scan offers *)

Section Offered.
Context (arch : Arch) (query : list Z) (d : nat) (metric : MetricType) (filter : option RowIdFilter).

Definition row_distance (vector : list Z) : Z := match fvec_distance arch query vector metric with Ok dist => dist | _ => 0 end.
(** The rows of a list as pairs of an identifier and a vector. *)
Definition rows_at (ids vectors : list Z) : list (Z * list Z) := imap (λ i id, (id, slice (i * d) d vectors)) ids.
Definition admitted (rows : list (Z * list Z)) : list (Z * list Z) := base.filter (λ r, filtered_out filter r.1 = false) rows.
Definition offered_rows (rows : list (Z * list Z)) : list (Z * Z) := (λ r, (row_distance r.2, r.1)) <$> admitted rows.
Definition offered (ids vectors : list Z) : list (Z * Z) := offered_rows (rows_at ids vectors).

(** The kernels of L2 need finite numbers. *)
Definition scannable (vector : list Z) : Prop := length vector = d ∧ (metric = L2 → finite_vector vector).

Lemma offered_rows_app a b : offered_rows (a ++ b) = offered_rows a ++ offered_rows b.
Proof. unfold offered_rows, admitted. by rewrite filter_app, fmap_app. Qed.

Lemma rows_at_app ids ids' vectors vectors' : length vectors = (length ids * d)%nat →
  rows_at (ids ++ ids') (vectors ++ vectors') = rows_at ids vectors ++ rows_at ids' vectors'.
Proof.
  intros Hl. unfold rows_at. rewrite imap_app. f_equal.
  - apply imap_ext. intros i id Hi. f_equal. apply lookup_lt_Some in Hi. unfold slice. rewrite drop_app_le by nia. rewrite take_app_le; [done|]. rewrite length_drop. nia.
  - apply imap_ext. intros i id Hi. f_equal. unfold slice. rewrite drop_app_ge by nia. f_equal. f_equal. nia.
Qed.

(** The context of a scan computes the plain distance, with or without the norm
    of the row. *)
Lemma distance_to_plain vector norm : norm = None ∨ norm = Some (f32_sqrt (fvec_norm_l2sqr arch vector)) →
  distance_to arch (query_distance_new arch query metric) vector norm = fvec_distance arch query vector metric.
Proof. intros Hn. destruct metric; [done|done|]. by destruct Hn as [-> | ->]. Qed.

Lemma fvec_distance_total vector : length query = d → length vector = d → ∃ dist, fvec_distance arch query vector metric = Ok dist ∧ row_distance vector = dist ∧ u32 dist.
Proof.
  intros Hq Hv. assert (∃ dist, fvec_distance arch query vector metric = Ok dist) as [dist E].
  { destruct metric; cbn [fvec_distance]; unfold fvec_l2sqr, fvec_cosine_distance_with_norms, fvec_inner_product, same_length; rewrite Hq, Hv, Nat.eqb_refl; cbn [mbind io_result_bind].
    - by eexists.
    - cbn. by eexists.
    - case_match; by eexists. }
  exists dist. unfold row_distance. rewrite E. split_and!; [done|done|]. by apply fvec_distance_u32 in E.
Qed.
End Offered.

(** ** The scan *)

Section ScanSpec.
Context (arch : Arch) (query : list Z) (d : nat) (metric : MetricType) (filter : option RowIdFilter).
Context `{CollectorLaws C P} (p : P).
Context (Hq : scannable d metric query).
(** A cutoff is a number the collector holds. *)
Context (Hcut : ∀ rows c, collected p rows c → u32 (cutoff c)).

Lemma scan_row_spec vectors rows c i id c' : collected p rows c → (i * d + d ≤ length vectors)%nat → scannable d metric (slice (i * d) d vectors) →
  scan_row arch query (query_distance_new arch query metric) vectors d metric filter c (i, id) = Ok c' →
  collected p (rows ++ offered_rows arch query metric filter [(id, slice (i * d) d vectors)]) c'.
Proof.
  intros Hc Hi [Hl Hf]. destruct Hq as [Lq Fq]. unfold scan_row, offered_rows, admitted. rewrite filter_cons, filter_nil. cbn [fst].
  destruct (filtered_out filter id); [rewrite decide_False by done; intros [= <-]; cbn; by rewrite app_nil_r|]. rewrite decide_True by done. cbn [fmap list_fmap fst snd].
  rewrite (proj2 (get_slice_Some _ _ _ _)) by done. cbn [expect mbind io_result_bind]. set (v := slice (i * d) d vectors) in *.
  destruct (fvec_distance_total arch query d metric v Lq Hl) as (dist & Ed & Er & Hu). rewrite Er. destruct (bool_decide_reflect (metric = L2)) as [HL2|HL2].
  - assert (bool_decide (metric = Cosine) = false) as -> by (apply bool_decide_eq_false_2; by rewrite HL2). rewrite andb_false_r. cbn [mbind io_result_bind].
    rewrite (unless_exceeds_exact arch query v (cutoff c)); [|by apply Fq|by apply Hf|congruence|by eapply Hcut]. cbn [mbind io_result_bind].
    assert (fvec_l2sqr_simd arch query v = dist) as ->.
    { rewrite HL2 in Ed. cbn [fvec_distance] in Ed. unfold fvec_l2sqr, same_length in Ed. rewrite Lq, Hl, Nat.eqb_refl in Ed. cbn [mbind io_result_bind] in Ed. by injection Ed. }
    destruct (f32_gt dist (cutoff c)) eqn:Hgt; [intros [= <-]; by apply abandoned_collected|]. intros Ec. by eapply collect_collected.
  - destruct (VALIDATE_COSINE_INPUTS C && bool_decide (metric = Cosine)).
    + unfold checked_cosine_norm. destruct (ensure_data _ _); [|done..]. cbn [mbind io_result_bind fmap io_result_fmap].
      rewrite distance_to_plain, Ed by (by right). cbn [mbind io_result_bind]. intros Ec. by eapply collect_collected.
    + cbn [mbind io_result_bind]. rewrite distance_to_plain, Ed by (by left). cbn [mbind io_result_bind]. intros Ec. by eapply collect_collected.
Qed.

(** A scan that returns has offered every admitted row. *)
Lemma scan_flat_rows_spec ids vectors rows c c' : collected p rows c → length vectors = (length ids * d)%nat →
  (∀ i, (i < length ids)%nat → scannable d metric (slice (i * d) d vectors)) →
  scan_flat_rows arch query ids vectors d metric filter c = Ok c' → collected p (rows ++ offered arch query d metric filter ids vectors) c'.
Proof.
  intros Hc Hl Hs. unfold scan_flat_rows, offered, rows_at.
  assert (∀ l start c rows, collected p rows c → (∀ i id, l !! i = Some id → ((start + i) * d + d ≤ length vectors)%nat ∧ scannable d metric (slice ((start + i) * d) d vectors)) →
    try_fold (scan_row arch query (query_distance_new arch query metric) vectors d metric filter) c (imap (λ i id, ((start + i)%nat, id)) l) = Ok c' →
    collected p (rows ++ offered_rows arch query metric filter (imap (λ i id, (id, slice ((start + i) * d) d vectors)) l)) c') as Hgen.
  { clear c rows Hc. induction l as [|id l IH]; intros start c rows Hc Hall E; [injection E as <-; cbn; by rewrite app_nil_r|].
    cbn [imap try_fold] in E. rewrite Nat.add_0_r in E. destruct (scan_row _ _ _ _ _ _ _ _ (start, id)) as [c1| |] eqn:E1; [|done..]. cbn [mbind io_result_bind] in E.
    destruct (Hall 0%nat id eq_refl) as [Hi Hsc]. rewrite Nat.add_0_r in Hi, Hsc. pose proof (scan_row_spec vectors rows c start id c1 Hc Hi Hsc E1) as Hc1.
    rewrite (imap_ext _ (λ i id, ((S start + i)%nat, id))) in E by (intros; cbn; f_equal; lia). apply (IH (S start) c1 _ Hc1) in E.
    - cbn [imap]. rewrite Nat.add_0_r. rewrite (imap_ext _ (λ i id, (id, slice ((S start + i) * d) d vectors))) by (intros; cbn; do 2 f_equal; lia).
      match goal with |- collected p (rows ++ offered_rows _ _ _ _ (?x :: ?l)) _ => change (x :: l) with ([x] ++ l) end.
      rewrite offered_rows_app, app_assoc. exact E.
    - intros i id' Hid. specialize (Hall (S i) id' Hid). by replace (S start + i)%nat with (start + S i)%nat by lia. }
  intros E. apply (Hgen ids 0%nat c rows Hc); [|exact E]. intros i id Hi. apply lookup_lt_Some in Hi. split; [nia|by apply Hs].
Qed.

(** A scan returns when the collector takes the distance of every admitted row. *)
Definition accepts (vector : list Z) : Prop :=
  (VALIDATE_COSINE_INPUTS C = true → metric = Cosine → ∃ norm, checked_cosine_norm arch vector = Ok norm) ∧
  ∀ rows c id, collected p rows c → ∃ c', collect c id (row_distance arch query metric vector) = Ok c'.

Lemma scan_row_total vectors rows c i id : collected p rows c → (i * d + d ≤ length vectors)%nat → scannable d metric (slice (i * d) d vectors) →
  (filtered_out filter id = false → accepts (slice (i * d) d vectors)) →
  ∃ c', scan_row arch query (query_distance_new arch query metric) vectors d metric filter c (i, id) = Ok c'.
Proof.
  intros Hc Hi [Hl Hf] Hacc. destruct Hq as [Lq Fq]. unfold scan_row. destruct (filtered_out filter id); [by eexists|]. destruct (Hacc eq_refl) as [Hval Hpush].
  rewrite (proj2 (get_slice_Some _ _ _ _)) by done. cbn [expect mbind io_result_bind]. set (v := slice (i * d) d vectors) in *.
  destruct (fvec_distance_total arch query d metric v Lq Hl) as (dist & Ed & Er & Hu). rewrite Er in Hpush. destruct (bool_decide_reflect (metric = L2)) as [HL2|HL2].
  - assert (bool_decide (metric = Cosine) = false) as -> by (apply bool_decide_eq_false_2; by rewrite HL2). rewrite andb_false_r. cbn [mbind io_result_bind].
    rewrite (unless_exceeds_exact arch query v (cutoff c)); [|by apply Fq|by apply Hf|congruence|by eapply Hcut]. cbn [mbind io_result_bind].
    assert (fvec_l2sqr_simd arch query v = dist) as ->.
    { rewrite HL2 in Ed. cbn [fvec_distance] in Ed. unfold fvec_l2sqr, same_length in Ed. rewrite Lq, Hl, Nat.eqb_refl in Ed. cbn [mbind io_result_bind] in Ed. by injection Ed. }
    destruct (f32_gt dist (cutoff c)); [by eexists|]. by eapply Hpush.
  - destruct (VALIDATE_COSINE_INPUTS C && bool_decide (metric = Cosine)) eqn:Ev.
    + apply andb_true_iff in Ev as [Ev Em%bool_decide_eq_true_1]. destruct (Hval Ev Em) as [norm En]. rewrite En. cbn [fmap io_result_fmap mbind io_result_bind].
      unfold checked_cosine_norm in En. inv_ok. rewrite <- En. rewrite distance_to_plain, Ed by (by right). cbn [mbind io_result_bind]. by eapply Hpush.
    + cbn [mbind io_result_bind]. rewrite distance_to_plain, Ed by (by left). cbn [mbind io_result_bind]. by eapply Hpush.
Qed.

Lemma scan_flat_rows_total ids vectors rows c : collected p rows c → length vectors = (length ids * d)%nat →
  (∀ i id, ids !! i = Some id → scannable d metric (slice (i * d) d vectors) ∧ (filtered_out filter id = false → accepts (slice (i * d) d vectors))) →
  ∃ c', scan_flat_rows arch query ids vectors d metric filter c = Ok c' ∧ collected p (rows ++ offered arch query d metric filter ids vectors) c'.
Proof.
  intros Hc Hl Hs. assert (∃ c', scan_flat_rows arch query ids vectors d metric filter c = Ok c') as [c' E].
  { unfold scan_flat_rows.
    assert (∀ l c rows, collected p rows c → (∀ i id, (i, id) ∈ l → ids !! i = Some id) →
      ∃ c', try_fold (scan_row arch query (query_distance_new arch query metric) vectors d metric filter) c l = Ok c') as Hgen.
    { clear c rows Hc. induction l as [|[i id] l IH]; intros c rows Hc Hin; [by eexists|]. cbn [try_fold]. assert (ids !! i = Some id) as Hi by (apply Hin; by left).
      destruct (Hs i id Hi) as [Hsc Hacc]. pose proof (lookup_lt_Some _ _ _ Hi) as Hlt. assert (i * d + d ≤ length vectors)%nat as Hb by nia.
      destruct (scan_row_total vectors rows c i id Hc Hb Hsc Hacc) as [c1 E1]. rewrite E1. cbn [mbind io_result_bind].
      eapply IH; [by eapply scan_row_spec|]. intros. apply Hin. by right. }
    apply (Hgen _ c rows Hc). intros i id Hin. apply list_elem_of_lookup in Hin as [j Hj]. rewrite list_lookup_imap in Hj. destruct (ids !! j) eqn:Ej; [|done]. cbn in Hj. by injection Hj as -> ->. }
  exists c'. split; [done|]. eapply scan_flat_rows_spec; [done|done| |done]. intros i Hi. apply lookup_lt_is_Some_2 in Hi as [id Hid]. by destruct (Hs i id Hid).
Qed.
End ScanSpec.
