(* ===== verification/IvfFlatSearch.v ===== *)
(** Searching an IVF-Flat file: the top-k searches, one query and batched, and the
    range search of [core/src/ivfflat_io.rs]. *)

From S2P Require Import Prelude SeekIo IndexIoUtil F32 F64 F32Arith TopK DiskannUtil DiskannHeader Distance KmeansSearch Range RangeQueries Collect SectionWriter IvfFlatFile IvfFlatScan.
Import Varint Validate Batch.

(** [saturating_mul] of [usize]. *)
Definition saturating_mul (a b : Z) : Z := Z.min USIZE_MAX (a * b).
Definition PARALLEL_FLAT_SCAN_MIN_COMPONENTS : Z := 1024 * 1024.

Definition merge_flat_results (heap : ReaderTopKHeap) (results : list (Z * Z)) : io_result ReaderTopKHeap :=
  try_fold (λ heap '(distance, id), reader_heap_push heap distance id) heap results.
(** [Vec::resize] *)
Definition resize {A} (k : nat) (pad : A) (l : list A) : list A := take k l ++ replicate (k - length l) pad.
Definition padded_flat_results (heap : ReaderTopKHeap) (k : nat) : list Z * list Z :=
  let sorted := reader_heap_into_sorted heap in
  (resize k (-1) (snd <$> sorted), resize k F32_MAX (fst <$> sorted)).

(** *** Fan-out of a batch: the lists in the order they were first asked for, and
    the queries of each list *)
Definition fan_out_step (acc : list (list nat) * list nat) (ask : nat * nat) : io_result (list (list nat) * list nat) :=
  let '(list_to_queries, unique_lists) := acc in
  let '(qi, list_id) := ask in
  asking ← expect (list_to_queries !! list_id);
  let unique_lists := match asking with [] => unique_lists ++ [list_id] | _ => unique_lists end in
  Ok (<[list_id := asking ++ [qi]]> list_to_queries, unique_lists).
Definition fan_out (nlist : nat) (probe_lists : list (list nat)) : io_result (list (list nat) * list nat) :=
  try_fold fan_out_step (replicate nlist [], []) (concat (imap (λ qi lists, pair qi <$> lists) probe_lists)).

(** The rows of a query and the two counts of its scans. *)
Record QueryMerge := MkQueryMerge { qm_rows : list (Z * Z); qm_scanned : Z; qm_early_abandoned : Z }.

Section Search.
Context (arch : Arch) (sgemm : nat → nat → nat → Z → list Z → list Z → Z → list Z → list Z).
Context (schedule : list (FlatListData * nat) → list (FlatListData * nat)).
Context `{SeekRead R}.
Implicit Types r : IVFFlatIndexReader R.

Definition reader_dim r : nat := Z.to_nat (fr_d r).

(** ** One query *)

(** The lists of one batch, in parallel with a heap each when there is enough
    work, or one after the other into the heap. *)
Definition scan_lists r (q : list Z) (k : nat) (filter : option RowIdFilter) (lists : list FlatListData) (heap : ReaderTopKHeap) : io_result ReaderTopKHeap :=
  let scan_components := saturating_mul (zsum (λ l, zlen (ld_ids l)) lists) (fr_d r) in
  if (1 <? length lists)%nat && (PARALLEL_FLAT_SCAN_MIN_COMPONENTS <=? scan_components) then
    per_list_results ← try_map (λ l,
      local_heap ← scan_flat_list arch q l (reader_dim r) (fr_metric r) filter (reader_heap_new k);
      Ok (reader_heap_into_sorted local_heap)) lists;
    try_fold merge_flat_results heap per_list_results
  else try_fold (λ heap l, scan_flat_list arch q l (reader_dim r) (fr_metric r) filter heap) heap lists.

(** [while batch_start < probe_indices.len()]; every round takes a list, so that
    their number is enough fuel. *)
Fixpoint search_loop (fuel : nat) r (q : list Z) (k : nat) (filter : option RowIdFilter) (probe_indices : list nat) (heap : ReaderTopKHeap) :
    io_result (ReaderTopKHeap * IVFFlatIndexReader R) :=
  match probe_indices with
  | [] => Ok (heap, r)
  | first_list :: rest =>
      match fuel with
      | O => Panic
      | S fuel =>
          payload_len ← list_payload_len r first_list;
          if ivf_payload_is_oversized payload_len then
            '(heap, r) ← for_each_streamed_list_chunk (λ heap ids vectors,
               scan_flat_rows arch q ids vectors (reader_dim r) (fr_metric r) filter heap) r first_list heap;
            search_loop fuel r q k filter rest heap
          else
            count ← batch_read_end r probe_indices;
            let count := (count `max` 1)%nat in
            '(lists, r) ← read_inverted_lists r (take count probe_indices);
            heap ← scan_lists r q k filter lists heap;
            search_loop fuel r q k filter (drop count probe_indices) heap
      end
  end.

Definition search_with_filter r (query : list Z) (k nprobe : nat) (filter : option RowIdFilter) :
    io_result (list Z * list Z * IVFFlatIndexReader R) :=
  r ← ensure_loaded r;
  _ ← ensure_input (zlen query =? fr_d r) "query length {} does not match index dimension {}";
  _ ← ensure_input (negb (k =? 0)%nat) "k must be greater than 0";
  _ ← ensure_input (negb (nprobe =? 0)%nat) "nprobe must be greater than 0";
  let q := if bool_decide (fr_metric r = Cosine) then (fvec_normalize arch query).1 else query in
  probes ← find_topk arch q (fr_centroids r) (Z.to_nat (fr_nlist r)) (reader_dim r) nprobe;
  let probe_indices := map snd probes in
  '(heap, r) ← search_loop (length probe_indices) r q k filter probe_indices (reader_heap_new k);
  let '(labels, distances) := padded_flat_results heap k in
  Ok (labels, distances, r).
Definition flat_search r (query : list Z) (k nprobe : nat) : io_result (list Z * list Z * IVFFlatIndexReader R) :=
  search_with_filter r query k nprobe None.

(** ** A batch of queries *)

Definition validate_batch_seed (seed_ids seed_distances : list Z) (nq k : nat) : io_result unit :=
  expected ← or_input (checked_mul 64 (Z.of_nat nq) (Z.of_nat k)) "nq * k overflows usize";
  ensure_input ((zlen seed_ids =? 0) && (zlen seed_distances =? 0) || (zlen seed_ids =? expected) && (zlen seed_distances =? expected))
    "seed result lengths must both equal nq * k".
(** [distance != f32::MAX] *)
Definition seed_flat_heap (seed_ids seed_distances : list Z) (k query_index : nat) (heap : ReaderTopKHeap) : io_result ReaderTopKHeap :=
  let start := (query_index * k)%nat in
  let ids := default [] (get_slice start k seed_ids) in
  let distances := default [] (get_slice start k seed_distances) in
  try_fold (λ heap '(id, distance), if f32_eq distance F32_MAX then Ok heap else reader_heap_push heap distance id) heap (zip ids distances).
Definition seed_flat_heaps (heaps : list ReaderTopKHeap) (seed_ids seed_distances : list Z) (k : nat) : io_result (list ReaderTopKHeap) :=
  try_map (λ '(query_index, heap), seed_flat_heap seed_ids seed_distances k query_index heap) (imap pair heaps).

(** [&processed[qi * d..(qi + 1) * d]] *)
Definition query_slice (processed : list Z) (d qi : nat) : io_result (list Z) := expect (get_slice (qi * d) d processed).
(** A scan of the heap of one query. *)
Definition update_heap (heaps : list ReaderTopKHeap) (qi : nat) (f : ReaderTopKHeap → io_result ReaderTopKHeap) : io_result (list ReaderTopKHeap) :=
  heap ← expect (heaps !! qi); heap ← f heap; Ok (<[qi := heap]> heaps).
Definition scan_for_queries (processed : list Z) (d : nat) (metric : MetricType) (filter : option RowIdFilter) (query_indices : list nat)
    (heaps : list ReaderTopKHeap) (ids vectors : list Z) : io_result (list ReaderTopKHeap) :=
  try_fold (λ heaps qi, query ← query_slice processed d qi; update_heap heaps qi (scan_flat_rows arch query ids vectors d metric filter)) heaps query_indices.

(** The loaded lists with the queries that asked for them, and the work they are. *)
Definition asked_lists (list_to_queries : list (list nat)) (loaded_lists : list FlatListData) : io_result (list (FlatListData * list nat)) :=
  try_map (λ l, asking ← expect (list_to_queries !! ld_list_id l); Ok (l, asking)) loaded_lists.
Definition scan_tasks (asked : list (FlatListData * list nat)) : list (FlatListData * nat) := concat (map (λ a, map (pair a.1) a.2) asked).
Definition scan_in_parallel (asked : list (FlatListData * list nat)) (d : nat) : bool :=
  let scan_components := saturating_mul (zsum (λ a, saturating_mul (zlen (ld_ids a.1)) (zlen a.2)) asked) (Z.of_nat d) in
  (1 <? length asked)%nat && (PARALLEL_FLAT_SCAN_MIN_COMPONENTS <=? scan_components).
Definition batch_scan_lists (metric : MetricType) (d : nat) (processed : list Z) (k : nat) (filter : option RowIdFilter) (list_to_queries : list (list nat))
    (loaded_lists : list FlatListData) (heaps : list ReaderTopKHeap) : io_result (list ReaderTopKHeap) :=
  asked ← asked_lists list_to_queries loaded_lists;
  let tasks := scan_tasks asked in
  if scan_in_parallel asked d then
    per_list_results ← try_map (λ '(l, qi),
      query ← query_slice processed d qi;
      local_heap ← scan_flat_list arch query l d metric filter (reader_heap_new k);
      Ok (qi, reader_heap_into_sorted local_heap)) tasks;
    try_fold (λ heaps '(qi, results), update_heap heaps qi (λ heap, merge_flat_results heap results)) heaps per_list_results
  else
    try_fold (λ heaps '(l, qi), query ← query_slice processed d qi; update_heap heaps qi (scan_flat_list arch query l d metric filter)) heaps tasks.

Fixpoint batch_search_loop (fuel : nat) r (processed : list Z) (k : nat) (filter : option RowIdFilter) (list_to_queries : list (list nat))
    (unique_lists : list nat) (heaps : list ReaderTopKHeap) : io_result (list ReaderTopKHeap * IVFFlatIndexReader R) :=
  match unique_lists with
  | [] => Ok (heaps, r)
  | first_list :: rest =>
      match fuel with
      | O => Panic
      | S fuel =>
          payload_len ← list_payload_len r first_list;
          if ivf_payload_is_oversized payload_len then
            query_indices ← expect (list_to_queries !! first_list);
            '(heaps, r) ← for_each_streamed_list_chunk (scan_for_queries processed (reader_dim r) (fr_metric r) filter query_indices) r first_list heaps;
            batch_search_loop fuel r processed k filter list_to_queries rest heaps
          else
            count ← batch_read_end r unique_lists;
            let count := (count `max` 1)%nat in
            '(loaded_lists, r) ← read_inverted_lists r (take count unique_lists);
            heaps ← batch_scan_lists (fr_metric r) (reader_dim r) processed k filter list_to_queries loaded_lists heaps;
            batch_search_loop fuel r processed k filter list_to_queries (drop count unique_lists) heaps
      end
  end.

Definition search_batch_ivfflat_reader_filter_range r (queries : list Z) (nq k probe_start probe_end : nat) (seed_ids seed_distances : list Z)
    (filter : option RowIdFilter) : io_result (list Z * list Z * IVFFlatIndexReader R) :=
  r ← ensure_loaded r;
  let d := reader_dim r in
  _ ← ensure_input (negb (nq =? 0)%nat) "nq must be greater than 0";
  expected_query_len ← or_input (checked_mul 64 (Z.of_nat nq) (fr_d r)) "nq * dimension overflows usize";
  _ ← ensure_input (zlen queries =? expected_query_len) "queries length {} does not match nq * dimension {}";
  _ ← ensure_input (negb (k =? 0)%nat) "k must be greater than 0";
  _ ← ensure_input (probe_start <? probe_end)%nat "probe range must be non-empty";
  _ ← validate_batch_seed seed_ids seed_distances nq k;
  let processed := if bool_decide (fr_metric r = Cosine) then concat ((λ v, (fvec_normalize arch v).1) <$> chunks_exact d queries) else queries in
  all_probes ← find_topk_batch arch sgemm processed nq (fr_centroids r) (Z.to_nat (fr_nlist r)) d probe_end;
  '(list_to_queries, unique_lists) ← fan_out (Z.to_nat (fr_nlist r)) (map (λ probes, drop probe_start (map snd probes)) all_probes);
  heaps ← seed_flat_heaps (replicate nq (reader_heap_new k)) seed_ids seed_distances k;
  '(heaps, r) ← batch_search_loop (length unique_lists) r processed k filter list_to_queries unique_lists heaps;
  let results := (λ heap, padded_flat_results heap k) <$> heaps in
  Ok (concat (fst <$> results), concat (snd <$> results), r).
Definition search_batch_ivfflat_reader_filter r (queries : list Z) (nq k nprobe : nat) (filter : option RowIdFilter) :=
  search_batch_ivfflat_reader_filter_range r queries nq k 0 nprobe [] [] filter.
Definition search_batch_ivfflat_reader r (queries : list Z) (nq k nprobe : nat) :=
  search_batch_ivfflat_reader_filter r queries nq k nprobe None.

(** ** Range search *)

Definition record_list_read_for r (builder : RangeResultBuilder) (list_id : nat) : io_result RangeResultBuilder :=
  count ← expect (fr_counts r !! list_id); Ok (if 0 <? count then record_list_read builder else builder).

(** The bucket of a query; [merge_collector] takes its lock once per list and
    query. *)
Definition query_merge_default : QueryMerge := MkQueryMerge [] 0 0.
Definition merge_collector (merges : list QueryMerge) (qi : nat) (collector : RangeCollector) : io_result (list QueryMerge) :=
  output ← expect (merges !! qi);
  Ok (<[qi := MkQueryMerge (qm_rows output ++ rc_rows collector) (qm_scanned output + rc_scanned collector)
                (qm_early_abandoned output + rc_abandoned collector)]> merges).
Definition range_scan_rows (queries : list Z) (d : nat) (metric : MetricType) (band : DistanceBand) (filter : option RowIdFilter) (query_indices : list nat)
    (merges : list QueryMerge) (ids vectors : list Z) : io_result (list QueryMerge) :=
  try_fold (λ merges qi,
    q ← query_slice queries d qi;
    collector ← scan_flat_rows arch q ids vectors d metric filter (range_collector_new band);
    merge_collector merges qi collector) merges query_indices.
Definition scan_one (queries : list Z) (d : nat) (metric : MetricType) (band : DistanceBand) (filter : option RowIdFilter)
    (merges : list QueryMerge) (task : FlatListData * nat) : io_result (list QueryMerge) :=
  let '(l, qi) := task in
  q ← query_slice queries d qi;
  collector ← scan_flat_list arch q l d metric filter (range_collector_new band);
  merge_collector merges qi collector.

(** The workers of the parallel arm run the tasks, one per list and query, in an
    order the scheduler chooses; a bucket is locked while one of them merges. *)
Definition range_scan_lists (queries : list Z) (d : nat) (metric : MetricType) (band : DistanceBand) (filter : option RowIdFilter)
    (list_to_queries : list (list nat)) (loaded_lists : list FlatListData) (merges : list QueryMerge) : io_result (list QueryMerge) :=
  asked ← asked_lists list_to_queries loaded_lists;
  let tasks := scan_tasks asked in
  try_fold (scan_one queries d metric band filter) merges (if scan_in_parallel asked d then schedule tasks else tasks).

Fixpoint range_loop (fuel : nat) r (queries : list Z) (band : DistanceBand) (filter : option RowIdFilter) (list_to_queries : list (list nat))
    (unique_lists : list nat) (builder : RangeResultBuilder) (merges : list QueryMerge) :
    io_result (RangeResultBuilder * list QueryMerge * IVFFlatIndexReader R) :=
  match unique_lists with
  | [] => Ok (builder, merges, r)
  | first_list :: rest =>
      match fuel with
      | O => Panic
      | S fuel =>
          payload_len ← list_payload_len r first_list;
          if ivf_payload_is_oversized payload_len then
            query_indices ← expect (list_to_queries !! first_list);
            builder ← record_list_read_for r builder first_list;
            '(merges, r) ← for_each_streamed_list_chunk (range_scan_rows queries (reader_dim r) (fr_metric r) band filter query_indices) r first_list merges;
            range_loop fuel r queries band filter list_to_queries rest builder merges
          else
            count ← batch_read_end r unique_lists;
            let count := (count `max` 1)%nat in
            '(loaded_lists, r) ← read_inverted_lists r (take count unique_lists);
            builder ← try_fold (record_list_read_for r) builder (ld_list_id <$> loaded_lists);
            merges ← range_scan_lists queries (reader_dim r) (fr_metric r) band filter list_to_queries loaded_lists merges;
            range_loop fuel r queries band filter list_to_queries (drop count unique_lists) builder merges
      end
  end.

Definition hand_over (builder : RangeResultBuilder) (out : nat * QueryMerge) : io_result RangeResultBuilder :=
  let '(qi, output) := out in
  builder ← record_scanned builder qi (qm_scanned output);
  builder ← record_early_abandoned builder qi (qm_early_abandoned output);
  take_rows builder qi (qm_rows output).

Definition range_search_batch_with_filter r (queries : list Z) (nq : nat) (params : VectorRangeSearchParams) (filter : option RowIdFilter) :
    io_result (RangeSearchResult * IVFFlatIndexReader R) :=
  _ ← validate_queries queries nq (reader_dim r);
  _ ← ensure_input (bool_decide (band_metric (rp_band params) = fr_metric r)) "band metric {:?} does not match index metric {:?}";
  nprobe ← validate_params params (fr_nlist r);
  let builder := builder_new nq in
  if band_is_empty (rp_band params) then Ok (builder_build builder, r)
  else
    r ← ensure_loaded r;
    queries ← prepare_range_queries arch queries (reader_dim r) (fr_metric r);
    probe_lists ← range_probe_lists arch sgemm queries (fr_centroids r) (reader_dim r) (Z.to_nat (fr_nlist r)) (Z.to_nat nprobe) (fr_metric r);
    builder ← try_fold (λ builder '(qi, lists), record_lists_probed builder qi (zlen lists)) builder (imap pair probe_lists);
    '(list_to_queries, unique_lists) ← fan_out (Z.to_nat (fr_nlist r)) probe_lists;
    '(builder, merges, r) ← range_loop (length unique_lists) r queries (rp_band params) filter list_to_queries unique_lists builder
                              (replicate nq query_merge_default);
    builder ← try_fold hand_over builder (imap pair merges);
    Ok (builder_build builder, r).
Definition range_search_with_filter r (query : list Z) (params : VectorRangeSearchParams) (filter : option RowIdFilter) :=
  range_search_batch_with_filter r query 1 params filter.
End Search.
