(* ===== verification/IvfFlatNearest.v ===== *)
(** Top-k search of a written IVF-Flat file returns the nearest rows of the lists
    it probes: the search of [core/src/ivfflat_io.rs] over the bytes its writer
    produced, whether a list is read whole or streamed, and scanned alone or
    beside others. *)

From S2P Require Import Prelude SeekIo IndexIoUtil F32 F64 F32Arith TopK DiskannUtil DiskannHeader Distance KmeansSearch Range RangeQueries Collect SectionWriter IvfFlatFile IvfFlatRoundtrip IvfFlatStream IvfFlatScan IvfFlatSearch.
Import Varint Validate Batch.

(** ** Stored rows are the rows of the list *)

Lemma sorted_rows_perm d ids vectors : length vectors = (length ids * d)%nat →
  rows_at d (sorted_ids ids) (sorted_vectors d ids vectors) ≡ₚ rows_at d ids vectors.
Proof.
  intros Hl. assert (∀ positions, Forall (λ i, (i < length ids)%nat) positions → Forall (λ row, length row = d) (rows_of d vectors positions)) as Hrows.
  { intros ps Hp. by destruct (rows_of_ok d (length ids) vectors ps Hl Hp). }
  pose (row i := (default 0 (ids !! i), slice (i * d) d vectors)). transitivity (row <$> sorted_positions ids).
  - apply reflexive_eq, list_eq. intros j. unfold rows_at. rewrite list_lookup_imap, list_lookup_fmap. pose proof (positions_lookup ids j) as Hpos.
    destruct (sorted_positions ids !! j) as [i|] eqn:Ei; cbn.
    + rewrite <- (Hpos i eq_refl). pose proof (Forall_lookup_1 _ _ _ _ (positions_in_range ids) Ei) as Hi. cbn in Hi. destruct (lookup_lt_is_Some_2 ids i Hi) as [id Hid].
      unfold row. rewrite Hid. cbn. do 2 f_equal. unfold sorted_vectors. apply slice_concat; [by apply Hrows, positions_in_range|]. unfold rows_of. by rewrite list_lookup_fmap, Ei.
    + apply lookup_ge_None in Ei. rewrite positions_length in Ei. by rewrite (lookup_ge_None_2 (sorted_ids ids)) by (rewrite sorted_ids_length; lia).
  - rewrite positions_perm. apply reflexive_eq, list_eq. intros j. unfold rows_at. rewrite list_lookup_imap, list_lookup_fmap. destruct (ids !! j) as [id|] eqn:E; cbn.
    + pose proof (lookup_lt_Some _ _ _ E). rewrite lookup_seq_lt by lia. cbn. unfold row. by rewrite E.
    + apply lookup_ge_None in E. by rewrite lookup_seq_ge by lia.
Qed.

#[export] Instance offered_rows_perm arch q metric filter : Proper ((≡ₚ) ==> (≡ₚ)) (offered_rows arch q metric filter).
Proof. intros l l' H. unfold offered_rows, admitted. by rewrite H. Qed.

(** ** The heap of a search *)

Definition heap_ok (k : nat) (rows : list (Z * Z)) (h : ReaderTopKHeap) : Prop := collected (C := ReaderTopKHeap) k rows h.

Lemma heap_ok_new k : heap_ok k [] (reader_heap_new k).
Proof. split; [constructor|apply reader_collected_new]. Qed.
#[export] Instance heap_ok_perm k : Proper ((≡ₚ) ==> (=) ==> iff) (heap_ok k).
Proof. intros rows rows' Hr h ? <-. unfold heap_ok, collected; cbn. unfold reader_collected. by rewrite Hr. Qed.

Lemma heap_cutoff_u32 k rows h : heap_ok k rows h → u32 (cutoff h).
Proof.
  intros [Hu (_ & (rest & Hp & _) & _)]. cbn. unfold reader_cutoff, reader_worst_distance. destruct (rh_worst h) as [i|]; [|done]. cbn.
  destruct (rh_data h !! i) as [e|] eqn:E; [|done]. cbn. assert (e ∈ comparable rows) as Hin by (rewrite Hp; apply elem_of_app; left; by eapply list_elem_of_lookup_2).
  apply list_elem_of_filter in Hin as [_ Hin]. rewrite Forall_forall in Hu. by apply Hu.
Qed.
Lemma heap_push_ok k rows h dist id : heap_ok k rows h → u32 dist → ∃ h', reader_heap_push h dist id = Ok h' ∧ heap_ok k (rows ++ [(dist, id)]) h'.
Proof. intros [Hu Hc] Hd. destruct (reader_heap_push_spec k rows h dist id Hc) as (h' & E & H'). exists h'. split_and!; [done|split; [apply Forall_app; split; [done|by constructor]|done]]. Qed.

(** Pushing rows one by one. *)
Lemma merge_rows_ok k results rows h : heap_ok k rows h → Forall (λ e, u32 e.1) results →
  ∃ h', merge_flat_results h results = Ok h' ∧ heap_ok k (rows ++ results) h'.
Proof.
  intros Hh Hr. revert rows h Hh. induction Hr as [|[dist id] l Hd _ IH]; intros rows h Hh; [exists h; by rewrite app_nil_r|].
  destruct (heap_push_ok k rows h dist id Hh Hd) as (h1 & E1 & H1). destruct (IH _ _ H1) as (h2 & E2 & H2). exists h2.
  unfold merge_flat_results in *. cbn [try_fold]. rewrite E1. cbn [mbind io_result_bind]. rewrite <- app_assoc in H2. done.
Qed.

Lemma comparable_app a b : comparable (a ++ b) = comparable a ++ comparable b.
Proof. apply filter_app. Qed.
Lemma comparable_all l : Forall (λ e, f32_is_nan e.1 = false) l → comparable l = l.
Proof. induction 1 as [|e l He _ IH]; [done|]. unfold comparable in *. rewrite filter_cons, decide_True by done. by rewrite IH. Qed.

(** Merging the sorted heap of a part is as good as pushing all rows of the part. *)
Lemma merge_heap_ok k rows h part local : heap_ok k rows h → heap_ok k part local →
  ∃ h', merge_flat_results h (reader_heap_into_sorted local) = Ok h' ∧ heap_ok k (rows ++ part) h'.
Proof.
  intros Hh [Hpu (_ & Hpb & _)]. destruct (sorted_by_distance (rh_data local)) as [Hsp _]. fold (reader_heap_into_sorted local) in Hsp.
  pose proof Hpb as (rest & Hperm & _).
  assert (Forall (λ e, u32 e.1 ∧ f32_is_nan e.1 = false) (rh_data local)) as Hdata.
  { apply Forall_forall. intros e He. assert (e ∈ comparable part) as Hin by (rewrite Hperm; apply elem_of_app; by left). apply list_elem_of_filter in Hin as [Hn Hin].
    split; [|done]. rewrite Forall_forall in Hpu. by apply Hpu. }
  destruct (merge_rows_ok k (reader_heap_into_sorted local) rows h Hh) as (h' & E & [Hu' (Hk & Hb & Hworst)]).
  { rewrite Hsp. eapply Forall_impl; [exact Hdata|]. by intros e [? _]. }
  exists h'. split; [done|]. destruct Hh as [Hu _]. split; [by apply Forall_app|]. split_and!; [done| |done].
  rewrite comparable_app in *. eapply best_k_trans; [exact Hpb|]. rewrite Hsp, (comparable_all (rh_data local)) in Hb; [done|].
  eapply Forall_impl; [exact Hdata|]. by intros e [_ ?].
Qed.

(** ** The search loop *)

(** The rows of list [i] of an index. *)
Definition list_rows (index : FlatIndex) (i : nat) : list (Z * list Z) :=
  match items_of index !! i with Some item => rows_at (dim index) item.1 item.2 | None => [] end.
(** Finite numbers where the kernels of L2 need them. *)
Definition finite_index (index : FlatIndex) : Prop := fx_metric index = L2 → Forall finite_vector (fx_vectors index).
(** Lists the reader may have to stream can be. *)
Definition lists_streamable (index : FlatIndex) : Prop :=
  Forall (λ item, ivf_payload_is_oversized (zlen (list_image (dim index) item)) = true → streamable (fx_d index) item) (items_of index).

Section Loop.
Context (arch : Arch) `{IR : InfallibleRead R} (index : FlatIndex) (Hw : flat_writable index) (Hfin : finite_index index) (Hstr : lists_streamable index).
Context (q : list Z) (Hq : scannable (dim index) (fx_metric index) q) (k : nat) (filter : option RowIdFilter).
#[local] Notation offered_list i := (offered_rows arch q (fx_metric index) filter (list_rows index i)).

Lemma stored_rows i item : items_of index !! i = Some item →
  length (sorted_vectors (dim index) item.1 item.2) = (length (sorted_ids item.1) * dim index)%nat ∧
  offered arch q (dim index) (fx_metric index) filter (sorted_ids item.1) (sorted_vectors (dim index) item.1 item.2) ≡ₚ offered_list i ∧
  ∀ a n, (a + n ≤ length (sorted_vectors (dim index) item.1 item.2))%nat → fx_metric index = L2 → finite_vector (slice a n (sorted_vectors (dim index) item.1 item.2)).
Proof.
  intros Hi. pose proof (item_fits index Hw i item Hi) as Hok. pose proof Hok as (Hl & _). pose proof (fw_d _ Hw) as Hd.
  destruct (item_rows (fx_d index) item ltac:(lia) Hok) as (_ & Hv & _). fold (dim index) in Hv. assert (length item.2 = (length item.1 * dim index)%nat) as Hlen by (unfold zlen, dim in *; lia).
  split_and!; [rewrite sorted_ids_length; unfold zlen, dim in *; lia|unfold offered, list_rows; rewrite Hi; by rewrite sorted_rows_perm|].
  intros a n _ HL2. apply Forall_slice. unfold sorted_vectors, rows_of. apply Forall_concat, Forall_fmap, Forall_true. intros j. apply Forall_slice.
  specialize (Hfin HL2). unfold items_of in Hi. apply lookup_zip_with_Some in Hi as (ids & vs & -> & _ & Hvs). exact (Forall_lookup_1 _ _ _ _ Hfin Hvs).
Qed.

(** A run of rows of a list. *)
Lemma scan_run i item rows h a n : items_of index !! i = Some item → (a + n ≤ length (sorted_ids item.1))%nat → heap_ok k rows h →
  let ids := slice a n (sorted_ids item.1) in let vectors := slice (a * dim index) (n * dim index) (sorted_vectors (dim index) item.1 item.2) in
  ∃ h', scan_flat_rows arch q ids vectors (dim index) (fx_metric index) filter h = Ok h' ∧
    heap_ok k (rows ++ offered arch q (dim index) (fx_metric index) filter ids vectors) h'.
Proof.
  intros Hi Han Hh ids vectors. destruct (stored_rows i item Hi) as (Lv & _ & Hf).
  assert (length ids = n) as Li by (unfold ids; apply length_slice; lia). assert (length vectors = (n * dim index)%nat) as Lvs by (unfold vectors; apply length_slice; nia).
  apply (scan_flat_rows_total arch q (dim index) (fx_metric index) filter k Hq (λ rows c, heap_cutoff_u32 k rows c)); [done|by rewrite Li|].
  intros j id Hj. apply lookup_lt_Some in Hj. rewrite Li in Hj. split; [split|intros _; split; [done|]].
  - apply length_slice. rewrite Lvs. nia.
  - intros HL2. unfold vectors. rewrite slice_slice by nia. apply Hf; [nia|done].
  - intros rows' c id' Hc. destruct (heap_push_ok k rows' c (row_distance arch q (fx_metric index) (slice (j * dim index) (dim index) vectors)) id' Hc) as (c' & E & _); [|by exists c'].
    destruct (fvec_distance_total arch q (dim index) (fx_metric index) (slice (j * dim index) (dim index) vectors)) as (dist & _ & -> & Hu); [apply Hq|apply length_slice; nia|done].
Qed.

(** A list read whole. *)
Lemma scan_list_ok i l rows h : list_read index i l → heap_ok k rows h →
  ∃ h', scan_flat_list arch q l (dim index) (fx_metric index) filter h = Ok h' ∧ heap_ok k (rows ++ offered_list i) h'.
Proof.
  intros (item & Hi & _ & Ei & Ev) Hh. unfold scan_flat_list. rewrite Ev, Ei. cbn [mbind io_result_bind]. destruct (stored_rows i item Hi) as (Lv & Ho & _).
  destruct (scan_run i item rows h 0 (length (sorted_ids item.1)) Hi ltac:(lia) Hh) as (h' & E & H'). unfold slice in E, H'. rewrite !drop_0, firstn_all, <- Lv, firstn_all in E, H'.
  exists h'. split; [done|]. by rewrite <- Ho.
Qed.

(** Lists scanned side by side, each into a heap of its own. *)
Lemma scan_apart_ok ids lists : Forall2 (list_read index) ids lists →
  ∃ results, try_map (λ l, local_heap ← scan_flat_list arch q l (dim index) (fx_metric index) filter (reader_heap_new k); Ok (reader_heap_into_sorted local_heap)) lists = Ok results ∧
    Forall2 (λ i res, ∃ local, res = reader_heap_into_sorted local ∧ heap_ok k (offered_list i) local) ids results.
Proof.
  induction 1 as [|i l ids lists Hl _ (results & E & F)]; [by exists []|]. destruct (scan_list_ok i l [] _ Hl (heap_ok_new k)) as (local & El & Hlocal).
  cbn [try_map]. rewrite El. cbn [mbind io_result_bind]. rewrite E. cbn [mbind io_result_bind]. eexists. split; [done|]. constructor; [by exists local|done].
Qed.
Lemma merge_apart_ok ids results rows h : Forall2 (λ i res, ∃ local, res = reader_heap_into_sorted local ∧ heap_ok k (offered_list i) local) ids results → heap_ok k rows h →
  ∃ h', try_fold merge_flat_results h results = Ok h' ∧ heap_ok k (rows ++ concat ((λ i, offered_list i) <$> ids)) h'.
Proof.
  intros F. revert rows h. induction F as [|i res ids results (local & -> & Hl) _ IH]; intros rows h Hh; [exists h; by rewrite app_nil_r|].
  destruct (merge_heap_ok k rows h _ local Hh Hl) as (h1 & E1 & H1). destruct (IH _ _ H1) as (h2 & E2 & H2). exists h2. cbn [try_fold]. rewrite E1. cbn [mbind io_result_bind].
  split; [done|]. cbn. by rewrite app_assoc.
Qed.
Lemma scan_lists_ok (x : R) ids lists rows h : Forall2 (list_read index) ids lists → heap_ok k rows h →
  ∃ h', scan_lists arch (loaded index x) q k filter lists h = Ok h' ∧ heap_ok k (rows ++ concat ((λ i, offered_list i) <$> ids)) h'.
Proof.
  intros F Hh. unfold scan_lists. cbn [fr_d fr_metric loaded]. change (reader_dim (loaded index x)) with (dim index). case_match.
  - destruct (scan_apart_ok ids lists F) as (results & -> & Hres). cbn [mbind io_result_bind]. by apply merge_apart_ok.
  - clear -F Hh Hw Hfin Hq. revert rows h Hh. induction F as [|i l ids lists Hl _ IH]; intros rows h Hh; [exists h; by rewrite app_nil_r|].
    destruct (scan_list_ok i l rows h Hl Hh) as (h1 & E1 & H1). destruct (IH _ _ H1) as (h2 & E2 & H2). exists h2. cbn [try_fold]. rewrite E1. cbn [mbind io_result_bind].
    split; [done|]. cbn. by rewrite app_assoc.
Qed.

(** A list that is streamed. *)
Lemma stream_scan_ok (x : R) i item rows h : items_of index !! i = Some item → ivf_payload_is_oversized (zlen (list_image (dim index) item)) = true →
  is_image index x → heap_ok k rows h →
  ∃ h' x', for_each_streamed_list_chunk (λ heap ids vectors, scan_flat_rows arch q ids vectors (dim index) (fx_metric index) filter heap) (loaded index x) i h =
      Ok (h', loaded index x') ∧ is_image index x' ∧ heap_ok k (rows ++ offered_list i) h'.
Proof.
  intros Hi Hover Hx Hh. assert (item.1 ≠ []) as Hne by (intros E; unfold list_image in Hover; by rewrite E in Hover). destruct (stored_rows i item Hi) as (Lv & Ho & _).
  set (ids := sorted_ids item.1) in *. set (vectors := sorted_vectors (dim index) item.1 item.2) in *.
  destruct (stream_list_image index Hw (λ heap ids vectors, scan_flat_rows arch q ids vectors (dim index) (fx_metric index) filter heap)
    (λ a h, heap_ok k (rows ++ offered arch q (dim index) (fx_metric index) filter (take a ids) (take (a * dim index) vectors)) h) i item Hi Hne
    (Forall_lookup_1 _ _ _ _ Hstr Hi Hover)) with (x := x) (s := h) as (h' & x' & E & Hx' & H').
  - intros a n s Hn Han Hs. fold ids vectors in Han |- *. destruct (scan_run i item _ s a n Hi Han Hs) as (s' & Es & Hs'). fold ids vectors in Es, Hs'. exists s'. split; [exact Es|].
    rewrite <- app_assoc in Hs'. unfold offered in *. rewrite <- offered_rows_app, <- rows_at_app in Hs' by (rewrite !length_take; nia).
    unfold slice in Hs'. rewrite !take_take_drop in Hs'. by rewrite Nat.mul_add_distr_r.
  - done.
  - cbn. unfold offered. cbn. by rewrite app_nil_r.
  - exists h', x'. split_and!; [done|done|]. assert (length ids = length item.1) as Lid by apply sorted_ids_length. rewrite <- Lid, <- Lv, !firstn_all in H'. by rewrite <- Ho.
Qed.

Lemma search_loop_ok (x : R) fuel probes rows h : (length probes ≤ fuel)%nat → Forall (λ i, Z.of_nat i < fx_nlist index) probes → is_image index x → heap_ok k rows h →
  ∃ h' x', search_loop arch fuel (loaded index x) q k filter probes h = Ok (h', loaded index x') ∧ is_image index x' ∧
    heap_ok k (rows ++ concat ((λ i, offered_list i) <$> probes)) h'.
Proof.
  revert x probes rows h. induction fuel as [|fuel IH]; intros x probes rows h Hf Hp Hx Hh.
  { destruct probes; [|cbn in Hf; lia]. exists h, x. cbn. by rewrite app_nil_r. }
  destruct probes as [|i rest]; [exists h, x; cbn; by rewrite app_nil_r|]. cbn [search_loop].
  assert (∃ item, items_of index !! i = Some item) as [item Hi].
  { apply Forall_inv in Hp. apply lookup_lt_is_Some_2. pose proof (items_length _ Hw) as L. unfold zlen in L. lia. }
  rewrite (payload_len_image index Hw x i item Hi). cbn [mbind io_result_bind]. destruct (ivf_payload_is_oversized _) eqn:Hover.
  - change (reader_dim (loaded index x)) with (dim index). change (fr_metric (loaded index x)) with (fx_metric index).
    destruct (stream_scan_ok x i item rows h Hi Hover Hx Hh) as (h1 & x1 & -> & Hx1 & H1). cbn [mbind io_result_bind].
    destruct (IH x1 rest _ h1 ltac:(cbn in Hf; lia) (Forall_inv_tail Hp) Hx1 H1) as (h2 & x2 & E & Hx2 & H2). exists h2, x2. rewrite <- app_assoc in H2. done.
  - destruct (batch_read_end_image index Hw x (i :: rest) ltac:(done) Hp) as (n & ->). cbn [mbind io_result_bind].
    set (count := (n `max` 1)%nat). assert (1 ≤ count)%nat as Hc by lia. clearbody count. set (probes := i :: rest) in *.
    destruct (read_lists_image index Hw x (take count probes) Hx ltac:(by apply Forall_take)) as (lists & x1 & -> & Hx1 & F). cbn [mbind io_result_bind].
    destruct (scan_lists_ok x1 _ _ rows h F Hh) as (h1 & -> & H1). cbn [mbind io_result_bind].
    destruct (IH x1 (drop count probes) (rows ++ concat ((λ i, offered_list i) <$> take count probes)) h1) as (h2 & x2 & E & Hx2 & H2); [rewrite length_drop; unfold probes in *; cbn [length] in *; lia|by apply Forall_drop|done|done|].
    exists h2, x2. split_and!; [done|done|]. rewrite <- app_assoc, <- concat_app, <- fmap_app, take_drop in H2. done.
Qed.
End Loop.

(** ** The search *)

Lemma resize_short {A} k (pad : A) l : (length l ≤ k)%nat → resize k pad l = l ++ replicate (k - length l) pad.
Proof. intros Hl. unfold resize. by rewrite take_ge. Qed.

(** The rows of the lists a query probes, with their distances. *)
Definition probed_rows (arch : Arch) (index : FlatIndex) (q : list Z) (filter : option RowIdFilter) (probes : list nat) : list (Z * Z) :=
  offered_rows arch q (fx_metric index) filter (concat (list_rows index <$> probes)).
Definition search_point (arch : Arch) (index : FlatIndex) (query : list Z) : list Z :=
  if bool_decide (fx_metric index = Cosine) then (fvec_normalize arch query).1 else query.

Lemma offered_concat arch q metric filter (ls : list (list (Z * list Z))) :
  offered_rows arch q metric filter (concat ls) = concat ((λ l, offered_rows arch q metric filter l) <$> ls).
Proof. induction ls as [|l ls IH]; [done|]. cbn [concat fmap list_fmap]. by rewrite offered_rows_app, IH. Qed.

Lemma centroids_length index : flat_writable index → length (fx_centroids index) = (Z.to_nat (fx_nlist index) * dim index)%nat.
Proof. intros Hw. pose proof (fw_centroids _ Hw) as Hc. pose proof (fw_d _ Hw). pose proof (fw_nlist _ Hw). unfold zlen, dim in *. nia. Qed.

Section Search.
Context (arch : Arch) `{IR : InfallibleRead R} (index : FlatIndex) (Hw : flat_writable index) (Hfin : finite_index index) (Hstr : lists_streamable index).
Context (query : list Z) (Hlen : zlen query = fx_d index) (Hquery : fx_metric index = L2 → finite_vector query).
#[local] Notation q := (search_point arch index query).
#[local] Notation nearest_lists n := (nearest arch (fx_centroids index) (Z.to_nat (fx_nlist index)) (dim index) n q).

Lemma search_point_scannable : scannable (dim index) (fx_metric index) q.
Proof.
  split.
  - unfold search_point. case_bool_decide; [rewrite fvec_normalize_length|]; unfold zlen, dim in *; lia.
  - intros HL2. unfold search_point. rewrite bool_decide_eq_false_2 by (by rewrite HL2). by apply Hquery.
Qed.

Lemma nearest_lists_range n : Forall (λ i, Z.of_nat i < fx_nlist index) (snd <$> nearest_lists n).
Proof.
  destruct (nearest_selection arch (fx_centroids index) (Z.to_nat (fx_nlist index)) (dim index) (centroids_length index Hw) n q) as (_ & _ & Hf & _).
  apply Forall_fmap. eapply Forall_impl; [exact Hf|]. intros e [He _]. cbn. lia.
Qed.

Lemma search_image (x : R) k nprobe filter : is_image index x → k ≠ 0%nat → nprobe ≠ 0%nat →
  ∃ best x', search_with_filter arch (loaded index x) query k nprobe filter =
      Ok ((snd <$> best) ++ replicate (k - length best) (-1), (fst <$> best) ++ replicate (k - length best) F32_MAX, loaded index x') ∧ is_image index x' ∧
    best_k k (comparable (probed_rows arch index q filter (snd <$> nearest_lists nprobe))) best ∧ nearest_first best.
Proof.
  intros Hx Hk Hn. unfold search_with_filter. assert (ensure_loaded (loaded index x) = Ok (loaded index x)) as -> by done. cbn [mbind io_result_bind fr_d fr_metric fr_centroids fr_nlist loaded].
  rewrite Hlen, Z.eqb_refl. rewrite (proj2 (Nat.eqb_neq k 0)) by done. rewrite (proj2 (Nat.eqb_neq nprobe 0)) by done. cbn [negb ensure_input guard_ok mbind io_result_bind].
  change (if bool_decide (fx_metric index = Cosine) then (fvec_normalize arch query).1 else query) with q. fold (loaded index x). change (reader_dim (loaded index x)) with (dim index).
  pose proof search_point_scannable as Hq. rewrite (find_topk_ok arch _ _ _ (centroids_length index Hw)) by apply Hq. cbn [mbind io_result_bind].
  change (map snd (nearest_lists nprobe)) with (snd <$> nearest_lists nprobe). set (probes := snd <$> nearest_lists nprobe).
  destruct (search_loop_ok arch index Hw Hfin Hstr q Hq k filter x (length probes) probes [] (reader_heap_new k)) as (h & x' & -> & Hx' & _ & (_ & Hb & _));
    [done|apply nearest_lists_range|done|apply heap_ok_new|]. cbn [mbind io_result_bind app].
  destruct (sorted_by_distance (rh_data h)) as [Hsp Hsorted]. fold (reader_heap_into_sorted h) in Hsp, Hsorted. exists (reader_heap_into_sorted h), x'.
  pose proof Hb as (rest & _ & _ & Hl & _). rewrite <- Hsp in Hl. unfold padded_flat_results. rewrite !resize_short by (by rewrite length_fmap). rewrite !length_fmap.
  split_and!; [done|done| |done]. rewrite Hsp. unfold probed_rows. rewrite offered_concat, <- list_fmap_compose. exact Hb.
Qed.
End Search.

Lemma search_loaded_first (arch : Arch) `{SeekRead R} (r r' : IVFFlatIndexReader R) query k nprobe filter : ensure_loaded r = Ok r' → ensure_loaded r' = Ok r' →
  search_with_filter arch r query k nprobe filter = search_with_filter arch r' query k nprobe filter.
Proof. intros E E'. unfold search_with_filter. by rewrite E, E'. Qed.


Lemma demo_flat_streamable : lists_streamable demo_flat.
Proof. repeat constructor; vm_compute; done. Qed.
Lemma demo_flat_finite : finite_index demo_flat.
Proof. intros _. unfold finite_vector, u32. repeat (constructor || split); by vm_compute. Qed.

