(* ===== verification/IvfFlatBatch.v ===== *)
(** Batched search of a written IVF-Flat file.

    A batch turns the lists each query probes into a table from lists to queries,
    reads every list once, and hands it to the queries that asked.  The state is a
    bucket per query: a heap for top-k, a [QueryMerge] for a range.  What a bucket
    holds is stated for any kind of bucket; the fan-out is a permutation of what
    was asked, so that each query ends with the rows of its own lists. *)

From S2P Require Import Prelude SeekIo IndexIoUtil F32 F64 F32Arith TopK DiskannUtil DiskannHeader Distance KmeansSearch Range RangeQueries Collect SectionWriter IvfFlatFile IvfFlatRoundtrip IvfFlatStream IvfFlatScan IvfFlatSearch IvfFlatNearest.
Import Varint Validate Batch.

(** ** Fan-out *)

Notation ask := (nat * nat)%type.
(** (list, query) pairs of the table, list by list. *)
Definition table_tasks (list_to_queries : list (list nat)) (lists : list nat) : list ask :=
  concat ((λ i, pair i <$> default [] (list_to_queries !! i)) <$> lists).
Definition asked_pairs (asks : list ask) : list ask := (λ a, (a.2, a.1)) <$> asks.
Definition asks_of (probe_lists : list (list nat)) : list ask := concat (imap (λ qi lists, pair qi <$> lists) probe_lists).

Lemma table_tasks_app t a b : table_tasks t (a ++ b) = table_tasks t a ++ table_tasks t b.
Proof. unfold table_tasks. by rewrite fmap_app, concat_app. Qed.
Lemma table_tasks_insert t lists i qs : i ∉ lists → table_tasks (<[i := qs]> t) lists = table_tasks t lists.
Proof.
  intros Hi. unfold table_tasks. f_equal. apply list_fmap_ext. intros j x Hx. cbn. rewrite list_lookup_insert_ne; [done|].
  intros ->. apply Hi. by eapply list_elem_of_lookup_2.
Qed.

Record fanned (nlist : nat) (asks : list ask) (st : list (list nat) * list nat) : Prop := {
  fan_length : length st.1 = nlist;
  fan_nodup : NoDup st.2;
  fan_unique : ∀ i qs, st.1 !! i = Some qs → (i ∈ st.2 ↔ qs ≠ []);
  fan_range : Forall (λ i, (i < nlist)%nat) st.2;
  fan_tasks : table_tasks st.1 st.2 ≡ₚ asked_pairs asks;
}.

Lemma fan_out_step_ok nlist asks st qi i : fanned nlist asks st → (i < nlist)%nat → ∃ st', fan_out_step st (qi, i) = Ok st' ∧ fanned nlist (asks ++ [(qi, i)]) st'.
Proof.
  intros [Hl Hnd Hu Hr Ht] Hi. destruct st as [t lists]. cbn in *. unfold fan_out_step. destruct (lookup_lt_is_Some_2 t i) as [qs Hqs]; [lia|]. rewrite Hqs. cbn [expect mbind io_result_bind].
  eexists. split; [done|]. assert (table_tasks (<[i := qs ++ [qi]]> t) [i] = pair i <$> qs ++ [qi]) as Eone.
  { unfold table_tasks. cbn. rewrite list_lookup_insert_eq by lia. cbn. by rewrite app_nil_r. }
  destruct (decide (i ∈ lists)) as [Hin|Hin].
  - assert (qs ≠ []) as Hne by (by apply (Hu i)). assert ((match qs with [] => lists ++ [i] | _ => lists end) = lists) as -> by (by destruct qs).
    split; cbn [fst snd]; [by rewrite length_insert|done| |done|].
    + intros j qs' Hj. apply list_lookup_insert_Some in Hj as [(-> & <- & _)|[_ Hj]]; [|by apply Hu]. split; [intros _; by destruct qs|done].
    + apply elem_of_Permutation in Hin as [rest Hp]. assert (i ∉ rest) as Hni by (rewrite Hp in Hnd; by apply NoDup_cons in Hnd as [? _]).
      unfold asked_pairs in *. rewrite fmap_app, <- Ht. cbn. unfold table_tasks in *. rewrite Hp. cbn. rewrite list_lookup_insert_eq by lia. cbn. rewrite Hqs. cbn. rewrite fmap_app. cbn.
      fold (table_tasks (<[i := qs ++ [qi]]> t) rest). fold (table_tasks t rest). rewrite table_tasks_insert by done. rewrite <- app_assoc. solve_Permutation.
  - assert (qs = []) as ->. { destruct qs as [|q' qs]; [done|]. exfalso. apply Hin, (Hu i _ Hqs). done. }
    split; cbn [fst snd]; [by rewrite length_insert| | |by apply Forall_app; split; [|constructor]|].
    + apply NoDup_app. split_and!; [done| |apply NoDup_singleton]. intros x Hx Hx'%list_elem_of_singleton. by subst.
    + intros j qs' Hj. rewrite elem_of_app, list_elem_of_singleton. apply list_lookup_insert_Some in Hj as [(-> & <- & _)|[Hne Hj]]; [split; [done|by right]|].
      rewrite <- (Hu j qs' Hj). split; [intros [?|?]; [done|by subst]|by left].
    + rewrite table_tasks_app, Eone, table_tasks_insert by done. unfold asked_pairs in *. rewrite Ht, (fmap_app (λ a : ask, (a.2, a.1)) asks [(qi, i)]). reflexivity.
Qed.

Lemma fan_out_ok nlist probe_lists : Forall (Forall (λ i, (i < nlist)%nat)) probe_lists →
  ∃ st, fan_out nlist probe_lists = Ok st ∧ fanned nlist (asks_of probe_lists) st.
Proof.
  intros Hp. unfold fan_out. fold (asks_of probe_lists). assert (Forall (λ a : ask, (a.2 < nlist)%nat) (asks_of probe_lists)) as Ha.
  { unfold asks_of. apply Forall_concat, Forall_forall. intros l Hl. apply list_elem_of_lookup in Hl as [j Hj]. rewrite list_lookup_imap in Hj.
    destruct (probe_lists !! j) as [lists|] eqn:E; [|done]. cbn in Hj. injection Hj as <-. apply Forall_fmap. by eapply Forall_lookup_1 in Hp. }
  assert (∀ todo done st, fanned nlist done st → Forall (λ a : ask, (a.2 < nlist)%nat) todo → ∃ st', try_fold fan_out_step st todo = Ok st' ∧ fanned nlist (done ++ todo) st') as Hgen.
  { induction todo as [|[qi i] todo IH]; intros asks0 st Hst Hf; [exists st; by rewrite app_nil_r|]. destruct (fan_out_step_ok nlist asks0 st qi i Hst (Forall_inv Hf)) as (st1 & E1 & H1).
    destruct (IH _ _ H1 (Forall_inv_tail Hf)) as (st2 & E2 & H2). exists st2. cbn [try_fold]. rewrite E1. cbn [mbind io_result_bind]. by rewrite <- app_assoc in H2. }
  apply (Hgen (asks_of probe_lists) []); [|done]. split; cbn; [apply length_replicate|constructor| |constructor|done].
  intros i qs Hi. apply lookup_replicate in Hi as [-> _]. split; [by intros ?%not_elem_of_nil|done].
Qed.

(** What a query asked for. *)
Lemma asks_of_query probe_lists qi lists : probe_lists !! qi = Some lists →
  fst <$> filter (λ t : ask, t.2 = qi) (asked_pairs (asks_of probe_lists)) = lists.
Proof.
  intros Hq. unfold asks_of.
  assert (∀ ls start, fst <$> filter (λ t : ask, t.2 = qi) (asked_pairs (concat (imap (λ j lists, pair (start + j)%nat <$> lists) ls))) = if decide (start ≤ qi)%nat then default [] (ls !! (qi - start)%nat) else []) as Hgen.
  { induction ls as [|l ls IH]; intros start; [by case_decide|]. cbn [imap concat]. rewrite Nat.add_0_r. unfold asked_pairs in *. rewrite fmap_app, filter_app, fmap_app.
    rewrite (imap_ext _ (λ j lists, pair (S start + j)%nat <$> lists)) by (intros; cbn; do 2 f_equal; lia). rewrite IH.
    assert (fst <$> filter (λ t : ask, t.2 = qi) ((λ a : ask, (a.2, a.1)) <$> (pair start <$> l)) = if decide (start = qi) then l else []) as ->.
    { clear. induction l as [|x l IH]; [by case_decide|]. rewrite !fmap_cons, filter_cons. cbn [fst snd]. case_decide; [by rewrite fmap_cons, IH|done]. }
    repeat case_decide; try lia.
    - subst. replace (qi - qi)%nat with 0%nat by lia. cbn. by rewrite app_nil_r.
    - replace (qi - start)%nat with (S (qi - S start)) by lia. done.
    - done. }
  specialize (Hgen probe_lists 0%nat). cbn [Nat.add] in Hgen. rewrite Hgen. by rewrite decide_True, Nat.sub_0_r, Hq by lia.
Qed.

(** ** Buckets *)

Notation news := (list (nat * list (Z * Z))).
(** The rows a sequence of deliveries has for query [qi]. *)
Definition gathered (qi : nat) (ns : news) : list (Z * Z) := concat (snd <$> filter (λ n, n.1 = qi) ns).

Lemma gathered_app qi a b : gathered qi (a ++ b) = gathered qi a ++ gathered qi b.
Proof. unfold gathered. by rewrite filter_app, fmap_app, concat_app. Qed.
Lemma gathered_cons qi n ns : gathered qi (n :: ns) = (if decide (n.1 = qi) then n.2 else []) ++ gathered qi ns.
Proof. unfold gathered. rewrite filter_cons. by case_decide. Qed.
#[export] Instance gathered_perm qi : Proper ((≡ₚ) ==> (≡ₚ)) (gathered qi).
Proof. intros a b H. unfold gathered. by rewrite H. Qed.
Lemma gathered_split qi (f g h : nat → list (Z * Z)) L : (∀ j, j ∈ L → h j = f j ++ g j) →
  gathered qi ((λ j, (j, f j)) <$> L) ++ gathered qi ((λ j, (j, g j)) <$> L) ≡ₚ gathered qi ((λ j, (j, h j)) <$> L).
Proof.
  induction L as [|j L IH]; intros Hh; [done|]. rewrite !fmap_cons, !gathered_cons. cbn [fst snd]. rewrite <- IH by (intros; apply Hh; by right).
  case_decide; [|done]. rewrite (Hh j) by (by left). solve_Permutation.
Qed.

Section Buckets.
Context {B : Type} (ok : nat → list (Z * Z) → B → Prop) (Hperm : ∀ qi rows rows' b, rows ≡ₚ rows' → ok qi rows b → ok qi rows' b) (nq : nat).

Definition buckets_ok (rows : nat → list (Z * Z)) (bs : list B) : Prop := length bs = nq ∧ ∀ qi b, bs !! qi = Some b → ok qi (rows qi) b.
(** [f] at [t] delivers to one bucket. *)
Definition delivers {T} (f : list B → T → io_result (list B)) (t : T) (n : nat * list (Z * Z)) : Prop :=
  (n.1 < nq)%nat ∧ ∀ bs b rows, bs !! n.1 = Some b → ok n.1 rows b → ∃ b', f bs t = Ok (<[n.1 := b']> bs) ∧ ok n.1 (rows ++ n.2) b'.

Lemma buckets_perm rows rows' bs : (∀ qi, rows qi ≡ₚ rows' qi) → buckets_ok rows bs → buckets_ok rows' bs.
Proof. intros Hr [Hl Hb]. split; [done|]. intros qi b Hq. eapply Hperm; [apply Hr|by apply Hb]. Qed.

Lemma run_tasks {T} (f : list B → T → io_result (list B)) tasks ns rows bs : Forall2 (delivers f) tasks ns → buckets_ok rows bs →
  ∃ bs', try_fold f bs tasks = Ok bs' ∧ buckets_ok (λ qi, rows qi ++ gathered qi ns) bs'.
Proof.
  intros F. revert rows bs. induction F as [|t n tasks ns [Hn Hf] _ IH]; intros rows bs Hbs.
  { exists bs. split; [done|]. eapply buckets_perm; [|exact Hbs]. intros qi. unfold gathered. cbn. by rewrite app_nil_r. }
  pose proof Hbs as [Hl Hb]. destruct (lookup_lt_is_Some_2 bs n.1) as [b Hbq]; [lia|]. destruct (Hf bs b (rows n.1) Hbq (Hb _ _ Hbq)) as (b' & E & Hb').
  cbn [try_fold]. rewrite E. cbn [mbind io_result_bind]. destruct (IH (λ qi, rows qi ++ if decide (n.1 = qi) then n.2 else []) (<[n.1 := b']> bs)) as (bs' & E' & H').
  - split; [by rewrite length_insert|]. intros qi b0 Hq. apply list_lookup_insert_Some in Hq as [(<- & <- & _)|[Hne Hq]]; [by rewrite decide_True|].
    rewrite decide_False, app_nil_r by done. by apply Hb.
  - exists bs'. split; [done|]. eapply buckets_perm; [|exact H']. intros qi. by rewrite gathered_cons, app_assoc.
Qed.

(** ** Lists of a written index *)

Section Lists.
Context (arch : Arch) `{IR : InfallibleRead R} (index : FlatIndex) (Hw : flat_writable index) (Hstr : lists_streamable index).
Context (queries : list Z) (filter : option RowIdFilter).
#[local] Notation q_of qi := (slice (qi * dim index) (dim index) queries).
#[local] Notation offered_by qi ids vectors := (offered arch (q_of qi) (dim index) (fx_metric index) filter ids vectors).
Definition offered_for (qi i : nat) : list (Z * Z) := offered_rows arch (q_of qi) (fx_metric index) filter (list_rows index i).
Definition deliveries (tasks : list ask) : news := (λ t, (t.2, offered_for t.2 t.1)) <$> tasks.

(** A scan of a run of rows for one query. *)
Context (scan : list Z → list Z → list B → nat → io_result (list B)).
Context (Hscan : ∀ i item a n qi, items_of index !! i = Some item → (qi < nq)%nat → (a + n ≤ length (sorted_ids item.1))%nat →
  let ids := slice a n (sorted_ids item.1) in let vectors := slice (a * dim index) (n * dim index) (sorted_vectors (dim index) item.1 item.2) in
  delivers (scan ids vectors) qi (qi, offered_by qi ids vectors)).

Lemma stream_buckets (x : R) i item asking rows bs : items_of index !! i = Some item → ivf_payload_is_oversized (zlen (list_image (dim index) item)) = true →
  Forall (λ qi, (qi < nq)%nat) asking → is_image index x → buckets_ok rows bs →
  ∃ bs' x', for_each_streamed_list_chunk (λ bs ids vectors, try_fold (scan ids vectors) bs asking) (loaded index x) i bs = Ok (bs', loaded index x') ∧ is_image index x' ∧
    buckets_ok (λ qi, rows qi ++ gathered qi (deliveries (pair i <$> asking))) bs'.
Proof.
  intros Hi Hover Hask Hx Hbs. assert (item.1 ≠ []) as Hne by (intros E; unfold list_image in Hover; by rewrite E in Hover).
  pose proof (item_fits index Hw i item Hi) as (Hil & _). pose proof (fw_d _ Hw) as Hd.
  destruct (vectors_length index Hw i item Hi) as [Lv _]. set (ids := sorted_ids item.1) in *. set (vectors := sorted_vectors (dim index) item.1 item.2) in *.
  set (upto a := λ qi, rows qi ++ gathered qi ((λ j, (j, offered_by j (take a ids) (take (a * dim index) vectors))) <$> asking)).
  destruct (stream_list_image index Hw (λ bs ids vectors, try_fold (scan ids vectors) bs asking) (λ a bs, buckets_ok (upto a) bs) i item Hi Hne
    (Forall_lookup_1 _ _ _ _ Hstr Hi Hover)) with (x := x) (s := bs) as (bs' & x' & E & Hx' & H').
  - intros a n s Hn Han Hs. fold ids vectors in Han |- *. set (cids := slice a n ids). set (cvec := slice _ _ vectors).
    destruct (run_tasks (scan cids cvec) asking ((λ j, (j, offered_by j cids cvec)) <$> asking) (upto a) s) as (s' & Es & Hs'); [|done|].
    { apply Forall2_fmap_r, Forall_Forall2_diag. eapply Forall_impl; [exact Hask|]. intros qi Hqi. by apply (Hscan i item). }
    exists s'. split; [exact Es|]. eapply buckets_perm; [|exact Hs']. intros qi. unfold upto. rewrite <- app_assoc. f_equiv. apply gathered_split. intros j _.
    unfold offered. rewrite <- offered_rows_app, <- rows_at_app by (rewrite !length_take; nia). unfold cids, cvec, slice. rewrite !take_take_drop. by rewrite Nat.mul_add_distr_r.
  - done.
  - eapply buckets_perm; [|exact Hbs]. intros qi. unfold upto. assert (∀ L, gathered qi ((λ j, (j, offered_by j (take 0 ids) (take (0 * dim index) vectors))) <$> L) = []) as ->; [|by rewrite app_nil_r].
    induction L as [|j L IH]; [done|]. rewrite fmap_cons, gathered_cons, IH. by case_decide.
  - exists bs', x'. split_and!; [done|done|]. eapply buckets_perm; [|exact H']. intros qi. unfold upto, deliveries. f_equiv.
    assert (length ids = length item.1) as Lid by apply sorted_ids_length. rewrite <- Lid, <- Lv, !firstn_all. rewrite <- list_fmap_compose. clear -Hi Hil Hd.
    induction asking as [|j L IH]; [done|]. rewrite !fmap_cons, !gathered_cons. cbn [fst snd compose]. rewrite IH. f_equiv. case_decide; [|done].
    unfold offered_for, list_rows, offered, ids, vectors. rewrite Hi. rewrite sorted_rows_perm; [done|]. unfold zlen, dim in *. lia.
Qed.
End Lists.
End Buckets.

(** Tasks on lists that were read whole stand for tasks of the table. *)
Definition task_ask (t : FlatListData * nat) : ask := (ld_list_id t.1, t.2).

Lemma asked_lists_ok (index : FlatIndex) (list_to_queries : list (list nat)) ids lists : Forall (λ i, (i < length list_to_queries)%nat) ids → Forall2 (list_read index) ids lists →
  ∃ asked, asked_lists list_to_queries lists = Ok asked ∧ task_ask <$> scan_tasks asked = table_tasks list_to_queries ids ∧
    Forall (λ t, list_read index (ld_list_id t.1) t.1) (scan_tasks asked).
Proof.
  intros Hids F. induction F as [|i l ids lists Hl _ IH]; [by exists []|]. destruct (IH (Forall_inv_tail Hids)) as (asked & E & Et & Ht).
  destruct (lookup_lt_is_Some_2 list_to_queries i (Forall_inv Hids)) as [qs Hqs]. pose proof Hl as (item & _ & Eid & _).
  exists ((l, qs) :: asked). unfold asked_lists in *. cbn [try_map]. rewrite Eid, Hqs. cbn [expect mbind io_result_bind]. rewrite E. cbn [mbind io_result_bind].
  split_and!; [done| |].
  - unfold scan_tasks, table_tasks in *. cbn [map concat fst snd]. rewrite fmap_app, Et, fmap_cons. cbn [concat]. rewrite Hqs. f_equal. cbn [default]. change (map (pair l) qs) with (pair l <$> qs).
    rewrite <- list_fmap_compose. apply list_fmap_ext. intros _ qi _. unfold task_ask. cbn. by rewrite Eid.
  - unfold scan_tasks in *. cbn [map concat]. apply Forall_app. split; [|done]. change (map (pair (l, qs).1) (l, qs).2) with (pair l <$> qs). apply Forall_fmap, Forall_true. intros qi. cbn. by rewrite Eid.
Qed.

(** The queries of a table are queries of the batch. *)
Lemma table_queries nlist probe_lists st nq : fanned nlist (asks_of probe_lists) st → length probe_lists = nq →
  Forall (λ t : ask, (t.2 < nq)%nat) (table_tasks st.1 st.2).
Proof.
  intros Hf Hl. rewrite (fan_tasks _ _ _ Hf). unfold asked_pairs, asks_of. apply Forall_fmap, Forall_concat, Forall_forall. intros l Hin. apply list_elem_of_lookup in Hin as [j Hj].
  rewrite list_lookup_imap in Hj. destruct (probe_lists !! j) eqn:E; [|done]. cbn in Hj. injection Hj as <-. apply Forall_fmap, Forall_true. intros i. cbn. apply lookup_lt_Some in E. lia.
Qed.

(** ** Top-k *)

Section TopK.
Context (arch : Arch) `{IR : InfallibleRead R} (index : FlatIndex) (Hw : flat_writable index) (Hfin : finite_index index) (Hstr : lists_streamable index).
Context (processed : list Z) (nq k : nat) (filter : option RowIdFilter) (Hlen : length processed = (nq * dim index)%nat).
Context (Hfinite : fx_metric index = L2 → finite_vector processed).
#[local] Notation q_of qi := (slice (qi * dim index) (dim index) processed).
#[local] Notation d := (dim index).
#[local] Notation metric := (fx_metric index).
#[local] Notation heaps_ok := (buckets_ok (λ _, heap_ok k) nq).
#[local] Notation offers := (deliveries arch index processed filter).

Lemma q_scannable qi : (qi < nq)%nat → scannable d metric (q_of qi).
Proof. intros Hq. split; [apply length_slice; nia|]. intros HL2. by apply Forall_slice, Hfinite. Qed.
Lemma query_slice_ok qi : (qi < nq)%nat → query_slice processed d qi = Ok (q_of qi).
Proof. intros Hq. unfold query_slice. rewrite (proj2 (get_slice_Some _ _ _ _)) by (split; [nia|done]). done. Qed.
Lemma heaps_perm : ∀ (qi : nat) rows rows' h, rows ≡ₚ rows' → heap_ok k rows h → heap_ok k rows' h.
Proof. intros _ rows rows' h ->. done. Qed.

Lemma batch_scan_lists_ok l2q ids lists rows heaps : Forall (λ i, (i < length l2q)%nat) ids → Forall (λ t : ask, (t.2 < nq)%nat) (table_tasks l2q ids) →
  Forall2 (list_read index) ids lists → heaps_ok rows heaps →
  ∃ heaps', batch_scan_lists arch metric d processed k filter l2q lists heaps = Ok heaps' ∧ heaps_ok (λ qi, rows qi ++ gathered qi (offers (table_tasks l2q ids))) heaps'.
Proof.
  intros Hids Hqs F Hh. unfold batch_scan_lists. destruct (asked_lists_ok index l2q ids lists Hids F) as (asked & -> & Et & Hread). cbn [mbind io_result_bind].
  rewrite <- Et in *. apply (proj1 (Forall_fmap _ _ _)) in Hqs. assert (Forall (λ t : FlatListData * nat, (t.2 < nq)%nat ∧ list_read index (ld_list_id t.1) t.1) (scan_tasks asked)) as Ht by (by apply Forall_and).
  clear Et Hqs Hread F Hids. unfold deliveries. rewrite <- list_fmap_compose. destruct (scan_in_parallel asked d); cbn [negb].
  - destruct (try_map_total (λ '(l, qi), query ← query_slice processed d qi; local_heap ← scan_flat_list arch query l d metric filter (reader_heap_new k); Ok (qi, reader_heap_into_sorted local_heap))
      (λ t r, r.1 = t.2 ∧ (t.2 < nq)%nat ∧ ∃ local, r.2 = reader_heap_into_sorted local ∧ heap_ok k (offered_for arch index processed filter t.2 (ld_list_id t.1)) local) (scan_tasks asked)) as (results & -> & Hres).
    { intros [l qi] Hin. rewrite Forall_forall in Ht. destruct (Ht _ Hin) as [Hq Hr]. cbn in Hq, Hr. rewrite query_slice_ok by done. cbn [mbind io_result_bind].
      destruct (scan_list_ok arch index Hw Hfin (q_of qi) (q_scannable qi Hq) k filter _ l [] _ Hr (heap_ok_new k)) as (local & E & Hl). rewrite E. cbn [mbind io_result_bind].
      eexists. split; [done|]. split_and!; [done|done|]. by exists local. }
    cbn [mbind io_result_bind]. eapply (run_tasks (λ _, heap_ok k) heaps_perm nq); [|exact Hh]. clear Ht. induction Hres as [|t [qi res] ts rs (Eq & Hq & local & Er & Hl) _ IH]; [constructor|].
    rewrite fmap_cons. constructor; [|exact IH]. cbn in *. subst. split; [done|]. intros bs b rows0 Hb Hok. cbn in *. destruct (merge_heap_ok k rows0 b _ local Hok Hl) as (h' & E & H').
    exists h'. unfold update_heap. rewrite Hb. cbn. by rewrite E.
  - eapply (run_tasks (λ _, heap_ok k) heaps_perm nq); [|exact Hh]. apply Forall2_fmap_r, Forall_Forall2_diag. eapply Forall_impl; [exact Ht|]. intros [l qi] [Hq Hr]. cbn in Hq, Hr.
    split; [done|]. intros bs b rows0 Hb Hok. cbn in *. rewrite query_slice_ok by done. cbn [mbind io_result_bind].
    destruct (scan_list_ok arch index Hw Hfin (q_of qi) (q_scannable qi Hq) k filter _ l rows0 b Hr Hok) as (h' & E & H'). exists h'. unfold update_heap. rewrite Hb. cbn. by rewrite E.
Qed.

Lemma table_tasks_cons l2q i rest qs : l2q !! i = Some qs → table_tasks l2q (i :: rest) = (pair i <$> qs) ++ table_tasks l2q rest.
Proof. intros H1. unfold table_tasks. cbn. by rewrite H1. Qed.
Lemma offers_app a b : offers (a ++ b) = offers a ++ offers b.
Proof. apply fmap_app. Qed.

Lemma batch_loop_ok (x : R) fuel l2q lists rows heaps : (length lists ≤ fuel)%nat → length l2q = Z.to_nat (fx_nlist index) → Forall (λ i, (i < length l2q)%nat) lists →
  Forall (λ t : ask, (t.2 < nq)%nat) (table_tasks l2q lists) → is_image index x → heaps_ok rows heaps →
  ∃ heaps' x', batch_search_loop arch fuel (loaded index x) processed k filter l2q lists heaps = Ok (heaps', loaded index x') ∧ is_image index x' ∧
    heaps_ok (λ qi, rows qi ++ gathered qi (offers (table_tasks l2q lists))) heaps'.
Proof.
  intros Hf Hl2q. revert x lists rows heaps Hf. induction fuel as [|fuel IH]; intros x lists rows heaps Hf Hl Hq Hx Hh.
  1: destruct lists; [|cbn in Hf; lia].
  2: destruct lists as [|i rest].
  1, 2: exists heaps, x; split_and!; [done|done|]; eapply (buckets_perm _ heaps_perm); [|exact Hh]; intros qi; cbn; by rewrite app_nil_r.
  cbn [batch_search_loop]. assert (∀ j, (j < length l2q)%nat → Z.of_nat j < fx_nlist index) as Hrange by (pose proof (fw_nlist _ Hw); lia).
  destruct (lookup_lt_is_Some_2 l2q i (Forall_inv Hl)) as [qs Hqs]. assert (∃ item, items_of index !! i = Some item) as [item Hi].
  { apply lookup_lt_is_Some_2. pose proof (items_length _ Hw) as L. pose proof (Hrange _ (Forall_inv Hl)). unfold zlen in L. lia. }
  rewrite (payload_len_image index Hw x i item Hi). cbn [mbind io_result_bind]. destruct (ivf_payload_is_oversized _) eqn:Hover.
  - rewrite Hqs. cbn [expect mbind io_result_bind]. change (reader_dim (loaded index x)) with d. change (fr_metric (loaded index x)) with metric.
    rewrite (table_tasks_cons _ _ _ _ Hqs) in *. apply Forall_app in Hq as [Hq1 Hq2]. apply (proj1 (Forall_fmap _ _ _)) in Hq1.
    destruct (stream_buckets (λ _, heap_ok k) heaps_perm nq arch index Hw Hstr processed filter
      (λ ids vectors heaps qi, query ← query_slice processed d qi; update_heap heaps qi (scan_flat_rows arch query ids vectors d metric filter))) with (x := x) (i := i) (item := item)
      (asking := qs) (rows := rows) (bs := heaps) as (h1 & x1 & E & Hx1 & H1); try done.
    { intros j it a n qi Hit Hqi Han ids vectors. split; [done|]. intros bs b rows0 Hb Hok. cbn in *. rewrite query_slice_ok by done. cbn [mbind io_result_bind].
      destruct (scan_run arch index Hw Hfin (q_of qi) (q_scannable qi Hqi) k filter j it rows0 b a n Hit Han Hok) as (h' & Eh & H'). exists h'. unfold update_heap. rewrite Hb. cbn [expect mbind io_result_bind]. subst ids vectors. by rewrite Eh. }
    unfold scan_for_queries. rewrite E. cbn [mbind io_result_bind].
    destruct (IH x1 rest _ h1 ltac:(cbn in Hf; lia) (Forall_inv_tail Hl) Hq2 Hx1 H1) as (h2 & x2 & E2 & Hx2 & H2). exists h2, x2. split_and!; [done|done|].
    eapply (buckets_perm _ heaps_perm); [|exact H2]. intros qi. by rewrite offers_app, gathered_app, app_assoc.
  - assert (Forall (λ j, Z.of_nat j < fx_nlist index) (i :: rest)) as Hp by (eapply Forall_impl; [exact Hl|]; intros j; apply Hrange).
    destruct (batch_read_end_image index Hw x (i :: rest) ltac:(done) Hp) as (n & ->). cbn [mbind io_result_bind].
    set (count := (n `max` 1)%nat). assert (1 ≤ count)%nat as Hc by lia. clearbody count. set (lists := i :: rest) in *.
    destruct (read_lists_image index Hw x (take count lists) Hx ltac:(by apply Forall_take)) as (loaded_lists & x1 & -> & Hx1 & F). cbn [mbind io_result_bind].
    change (reader_dim (loaded index x1)) with d. change (fr_metric (loaded index x1)) with metric.
    rewrite <- (take_drop count lists), table_tasks_app in Hq. apply Forall_app in Hq as [Hq1 Hq2].
    destruct (batch_scan_lists_ok l2q (take count lists) loaded_lists rows heaps ltac:(by apply Forall_take) Hq1 F Hh) as (h1 & -> & H1). cbn [mbind io_result_bind].
    destruct (IH x1 (drop count lists) _ h1 ltac:(rewrite length_drop; unfold lists in *; cbn [length] in *; lia) ltac:(by apply Forall_drop) Hq2 Hx1 H1) as (h2 & x2 & E2 & Hx2 & H2).
    exists h2, x2. split_and!; [done|done|]. eapply (buckets_perm _ heaps_perm); [|exact H2]. intros qi. cbv beta. rewrite <- app_assoc, <- gathered_app, <- offers_app, <- table_tasks_app, take_drop. done.
Qed.

(** Seeds from an earlier search. *)
Definition seed_rows (seed_ids seed_distances : list Z) (qi : nat) : list (Z * Z) :=
  base.filter (λ e, f32_eq e.1 F32_MAX = false) (zip (default [] (get_slice (qi * k) k seed_distances)) (default [] (get_slice (qi * k) k seed_ids))).

Lemma seed_heap_ok seed_ids seed_distances qi : Forall u32 seed_distances →
  ∃ h, seed_flat_heap seed_ids seed_distances k qi (reader_heap_new k) = Ok h ∧ heap_ok k (seed_rows seed_ids seed_distances qi) h.
Proof.
  intros Hu. unfold seed_flat_heap, seed_rows. set (ids := default [] (get_slice _ _ seed_ids)). clearbody ids.
  assert (Forall u32 (default [] (get_slice (qi * k) k seed_distances))) as Hd by (unfold get_slice; case_decide; [by apply Forall_slice|constructor]).
  revert Hd. generalize (default [] (get_slice (qi * k) k seed_distances)). intros dists. rewrite <- (app_nil_l (base.filter _ _)). generalize (heap_ok_new k).
  generalize (reader_heap_new k). generalize (@nil (Z * Z)). revert ids. induction dists as [|dist dists IH]; intros [|id ids] rows h Hh Hd; cbn [zip zip_with try_fold].
  1-3: exists h; by rewrite app_nil_r.
  rewrite filter_cons. cbn [fst]. destruct (f32_eq dist F32_MAX); cbn [mbind io_result_bind].
  - rewrite decide_False by done. apply IH; [done|by apply Forall_inv_tail in Hd].
  - rewrite decide_True by done. destruct (heap_push_ok k rows h dist id Hh (Forall_inv Hd)) as (h1 & E1 & H1). rewrite E1. cbn [mbind io_result_bind].
    rewrite cons_middle, app_assoc. apply IH; [done|by apply Forall_inv_tail in Hd].
Qed.
Lemma seed_heaps_ok seed_ids seed_distances : Forall u32 seed_distances →
  ∃ heaps, seed_flat_heaps (replicate nq (reader_heap_new k)) seed_ids seed_distances k = Ok heaps ∧ heaps_ok (seed_rows seed_ids seed_distances) heaps.
Proof.
  intros Hu. unfold seed_flat_heaps. destruct (try_map_total (λ '(query_index, heap), seed_flat_heap seed_ids seed_distances k query_index heap)
    (λ a h, heap_ok k (seed_rows seed_ids seed_distances a.1) h) (imap pair (replicate nq (reader_heap_new k)))) as (heaps & E & F).
  { intros [qi h] Hin. apply list_elem_of_lookup in Hin as [j Hj]. rewrite list_lookup_imap in Hj. destruct (replicate nq _ !! j) eqn:Ej; [|done]. cbn in Hj. injection Hj as -> ->.
    apply lookup_replicate in Ej as [-> _]. by apply seed_heap_ok. }
  exists heaps. split; [done|]. pose proof (Forall2_length _ _ _ F) as L. rewrite length_imap, length_replicate in L. split; [done|]. intros qi h Hq.
  destruct (Forall2_lookup_r _ _ _ _ _ F Hq) as ([j h0] & Hj & Hok). rewrite list_lookup_imap in Hj. destruct (replicate nq _ !! qi); [|done]. cbn in Hj. by injection Hj as <- <-.
Qed.

(** The rows a query is offered are those of the lists it asked for. *)
Lemma offers_of_query nlist probe_lists st qi lists : fanned nlist (asks_of probe_lists) st → probe_lists !! qi = Some lists →
  gathered qi (offers (table_tasks st.1 st.2)) ≡ₚ probed_rows arch index (q_of qi) filter lists.
Proof.
  intros Hf Hq. unfold deliveries. rewrite (fan_tasks _ _ _ Hf). rewrite <- (asks_of_query probe_lists qi lists Hq). generalize (asked_pairs (asks_of probe_lists)). intros tasks.
  unfold probed_rows. induction tasks as [|t tasks IH]; [done|]. rewrite fmap_cons, gathered_cons, filter_cons, IH. cbn [fst]. destruct (decide (t.2 = qi)) as [<-|]; [|done].
  rewrite !fmap_cons. cbn [concat]. rewrite offered_rows_app. done.
Qed.
End TopK.

Definition padded {A} (k : nat) (pad : A) (l : list A) : list A := l ++ replicate (k - length l) pad.
(** The queries as they are compared. *)
Definition batch_points (arch : Arch) (index : FlatIndex) (queries : list Z) : list Z :=
  if bool_decide (fx_metric index = Cosine) then concat ((λ v, (fvec_normalize arch v).1) <$> chunks_exact (dim index) queries) else queries.

Lemma batch_points_length arch index queries nq : (0 < dim index)%nat → length queries = (nq * dim index)%nat → length (batch_points arch index queries) = (nq * dim index)%nat.
Proof.
  intros Hd Hl. unfold batch_points. case_bool_decide; [|done]. destruct (concat_split (dim index) nq queries Hl) as (qs & -> & Hqs & Lqs). rewrite chunks_exact_concat by done.
  rewrite (length_concat_rows (dim index)); [by rewrite length_fmap, Lqs|]. apply Forall_fmap. eapply Forall_impl; [exact Hqs|]. intros v Hv. cbn. by rewrite fvec_normalize_length.
Qed.

Section BatchSearch.
Context (arch : Arch) (sgemm : nat → nat → nat → Z → list Z → list Z → Z → list Z → list Z).
Context (Hsgemm : ∀ m n k alpha a b beta c, length (sgemm m n k alpha a b beta c) = length c ∧ Forall u32 (sgemm m n k alpha a b beta c)).
Context `{IR : InfallibleRead R} (index : FlatIndex) (Hw : flat_writable index) (Hfin : finite_index index) (Hstr : lists_streamable index).
Context (queries : list Z) (nq : nat) (Hlen : length queries = (nq * dim index)%nat) (Hnq : nq ≠ 0%nat) (Hsize : Z.of_nat nq * fx_d index < 2 ^ 63).
#[local] Notation points := (batch_points arch index queries).
#[local] Notation q_of qi := (slice (qi * dim index) (dim index) points).

(** What each query of a batch gets. *)
Definition batch_answers (k probe_start probe_end : nat) (seed_ids seed_distances : list Z) (filter : option RowIdFilter) (answers : list (list (Z * Z))) : Prop :=
  ∃ ls, Forall2 (probes arch (fx_centroids index) (Z.to_nat (fx_nlist index)) (dim index) points nq probe_end) (seq 0 nq) ls ∧ length answers = nq ∧
    ∀ qi best l, answers !! qi = Some best → ls !! qi = Some l → nearest_first best ∧
      best_k k (comparable (seed_rows k seed_ids seed_distances qi ++ probed_rows arch index (q_of qi) filter (drop probe_start (snd <$> l)))) best.

Lemma batch_image (x : R) k probe_start probe_end seed_ids seed_distances filter : (fx_metric index = L2 → finite_vector queries) → is_image index x →
  k ≠ 0%nat → (probe_start < probe_end)%nat → Z.of_nat nq * Z.of_nat k < 2 ^ 64 →
  (seed_ids = [] ∧ seed_distances = [] ∨ length seed_ids = (nq * k)%nat ∧ length seed_distances = (nq * k)%nat) → Forall u32 seed_distances →
  ∃ answers x', search_batch_ivfflat_reader_filter_range arch sgemm (loaded index x) queries nq k probe_start probe_end seed_ids seed_distances filter =
      Ok (concat ((λ best, padded k (-1) (snd <$> best)) <$> answers), concat ((λ best, padded k F32_MAX (fst <$> best)) <$> answers), loaded index x') ∧
    batch_answers k probe_start probe_end seed_ids seed_distances filter answers.
Proof.
  intros Hfq Hx Hk Hpr Hnk Hseed Hsu. pose proof (fw_d _ Hw) as Hd. pose proof (fw_nlist _ Hw) as Hnl. assert (0 < dim index)%nat as Hd0 by (unfold dim; lia).
  pose proof (batch_points_length arch index queries nq Hd0 Hlen) as Lp.
  unfold search_batch_ivfflat_reader_filter_range. assert (ensure_loaded (loaded index x) = Ok (loaded index x)) as -> by done. cbn [mbind io_result_bind fr_d fr_metric fr_centroids fr_nlist loaded].
  fold (loaded index x). change (reader_dim (loaded index x)) with (dim index). rewrite (proj2 (Nat.eqb_neq nq 0)) by done. cbn [negb ensure_input guard_ok mbind io_result_bind].
  rewrite (proj2 (checked_mul_Some 64 (Z.of_nat nq) (fx_d index) (Z.of_nat nq * fx_d index))) by (split; [done|lia]). cbn [or_input ok_or mbind io_result_bind].
  rewrite (proj2 (Z.eqb_eq (zlen queries) _)) by (unfold zlen, dim in *; nia). cbn [ensure_input guard_ok mbind io_result_bind].
  rewrite (proj2 (Nat.eqb_neq k 0)) by done. rewrite (proj2 (Nat.ltb_lt probe_start probe_end)) by done. cbn [negb ensure_input guard_ok mbind io_result_bind].
  assert (validate_batch_seed seed_ids seed_distances nq k = Ok ()) as ->.
  { unfold validate_batch_seed. rewrite (proj2 (checked_mul_Some 64 (Z.of_nat nq) (Z.of_nat k) (Z.of_nat nq * Z.of_nat k))) by (split; [done|lia]). cbn [or_input ok_or mbind io_result_bind].
    destruct Hseed as [[-> ->]|[Hi Hdd]]; [done|]. unfold zlen. rewrite Hi, Hdd, Nat2Z.inj_mul, Z.eqb_refl. by rewrite orb_true_r. }
  cbn [mbind io_result_bind]. fold (batch_points arch index queries).
  assert (Z.of_nat (Z.to_nat (fx_nlist index)) * Z.of_nat (dim index) < 2 ^ 63) as Hkd by (pose proof (fw_section _ Hw); unfold dim; lia).
  assert (Z.of_nat nq * Z.of_nat (dim index) < 2 ^ 63) as Hqd by (unfold dim; lia).
  destruct (find_topk_batch_ok arch sgemm Hsgemm (fx_centroids index) (Z.to_nat (fx_nlist index)) (dim index) (centroids_length index Hw) Hkd points nq Lp Hqd probe_end) as (ls & -> & Fls).
  cbn [mbind io_result_bind]. set (probe_lists := map (λ probes, drop probe_start (map snd probes)) ls). pose proof (Forall2_length _ _ _ Fls) as Lls. rewrite length_seq in Lls.
  destruct (fan_out_ok (Z.to_nat (fx_nlist index)) probe_lists) as ([l2q unique] & -> & Hfan).
  { apply Forall_forall. intros lists Hin. apply list_elem_of_fmap in Hin as (l & -> & Hin). apply Forall_drop. apply list_elem_of_lookup in Hin as [j Hj].
    destruct (Forall2_lookup_r _ _ _ _ _ Fls Hj) as (qi & _ & (_ & _ & Hf & _) & _). change (map snd l) with (snd <$> l). apply Forall_fmap. eapply Forall_impl; [exact Hf|]. by intros e [? _]. }
  cbn [mbind io_result_bind]. destruct (seed_heaps_ok nq k seed_ids seed_distances Hsu) as (heaps & -> & Hheaps). cbn [mbind io_result_bind].
  assert (fx_metric index = L2 → finite_vector points) as Hfp by (intros HL2; unfold batch_points; rewrite bool_decide_eq_false_2 by (by rewrite HL2); by apply Hfq).
  destruct (batch_loop_ok arch index Hw Hfin Hstr points nq k filter Lp Hfp x (length unique) l2q unique (seed_rows k seed_ids seed_distances) heaps) as (heaps' & x' & -> & _ & Hok);
    [done|apply (fan_length _ _ _ Hfan)|pose proof (fan_range _ _ _ Hfan) as Hr; pose proof (fan_length _ _ _ Hfan) as Lr; cbn in *; by rewrite Lr| |done|done|].
  { apply (table_queries _ _ _ nq Hfan). unfold probe_lists. by rewrite length_map. }
  cbn [mbind io_result_bind]. exists (reader_heap_into_sorted <$> heaps'), x'. destruct Hok as [Lh Hh].
  assert (∀ qi h, heaps' !! qi = Some h → padded_flat_results h k = (padded k (-1) (snd <$> reader_heap_into_sorted h), padded k F32_MAX (fst <$> reader_heap_into_sorted h))) as Hpad.
  { intros qi h Hq. destruct (Hh qi h Hq) as [_ (_ & (rest & _ & _ & Hl & _) & _)]. destruct (sorted_by_distance (rh_data h)) as [Hsp _]. fold (reader_heap_into_sorted h) in Hsp. rewrite <- Hsp in Hl.
    unfold padded_flat_results, padded. by rewrite !resize_short by (by rewrite length_fmap). }
  split.
  - do 3 f_equal; rewrite <- !list_fmap_compose; f_equal; apply list_fmap_ext; intros qi h Hq; cbn [compose]; by rewrite (Hpad qi h Hq).
  - exists ls. split_and!; [done|by rewrite length_fmap|]. intros qi best l Hbest Hl. rewrite list_lookup_fmap in Hbest. destruct (heaps' !! qi) as [h|] eqn:Hq; [|done]. injection Hbest as <-.
    destruct (Hh qi h Hq) as [_ (_ & Hb & _)]. destruct (sorted_by_distance (rh_data h)) as [Hsp Hs]. fold (reader_heap_into_sorted h) in Hsp, Hs. split; [done|]. rewrite Hsp.
    rewrite (offers_of_query arch index points filter _ probe_lists (l2q, unique) qi (drop probe_start (snd <$> l)) Hfan) in Hb; [done|]. unfold probe_lists. by rewrite list_lookup_fmap, Hl.
Qed.
End BatchSearch.

Lemma batch_loaded_first arch sgemm `{SeekRead R} (r r' : IVFFlatIndexReader R) queries nq k ps pe sid sd filter : ensure_loaded r = Ok r' → ensure_loaded r' = Ok r' →
  search_batch_ivfflat_reader_filter_range arch sgemm r queries nq k ps pe sid sd filter = search_batch_ivfflat_reader_filter_range arch sgemm r' queries nq k ps pe sid sd filter.
Proof. intros E E'. unfold search_batch_ivfflat_reader_filter_range. by rewrite E, E'. Qed.


Lemma demo_sgemm_ok : ∀ m n k alpha a b beta c, length (demo_sgemm m n k alpha a b beta c) = length c ∧ Forall u32 (demo_sgemm m n k alpha a b beta c).
Proof.
  intros. split.
  - unfold demo_sgemm. rewrite length_take, length_app, length_replicate. lia.
  - apply Forall_take, Forall_app. split; [|by apply Forall_replicate]. apply Forall_concat, Forall_fmap, Forall_true. intros x. apply Forall_fmap, Forall_true. apply f32_mul_u32.
Qed.

