(* ===== verification/IvfFlatRange.v ===== *)
(** Range search of a written IVF-Flat file returns every row of the probed lists
    whose distance is in the band, whatever order the workers of a batch take.
    The buckets and the fan-out are those of the batched top-k search. *)

From S2P Require Import Prelude SeekIo IndexIoUtil F32 F64 F32Arith TopK DiskannUtil DiskannHeader Distance KmeansSearch Range RangeQueries Collect SectionWriter IvfFlatFile IvfFlatRoundtrip IvfFlatStream IvfFlatScan IvfFlatSearch IvfFlatNearest IvfFlatBatch.
Import Varint Validate Batch.

Definition band_bits (band : DistanceBand) : Prop := match band_upper band with Finite upper => u32 upper | Unbounded => True end.
Lemma threshold_u32 band : band_bits band → u32 (early_abandon_threshold band).
Proof. unfold band_bits, early_abandon_threshold. intros Hb. case_bool_decide; cbn [negb]; [destruct (band_upper band); [by vm_compute|done]|by vm_compute]. Qed.

(** What a bucket holds after it was offered rows. *)
Definition merge_ok (band : DistanceBand) (rows : list (Z * Z)) (m : QueryMerge) : Prop :=
  qm_rows m ≡ₚ band_rows band rows ∧ qm_scanned m = zlen rows ∧ 0 <= qm_early_abandoned m <= qm_scanned m - zlen (qm_rows m).

#[export] Instance band_rows_perm band : Proper ((≡ₚ) ==> (≡ₚ)) (band_rows band).
Proof. intros a b H. unfold band_rows. by rewrite H. Qed.
Lemma band_rows_app band a b : band_rows band (a ++ b) = band_rows band a ++ band_rows band b.
Proof. unfold band_rows. by rewrite filter_app, fmap_app. Qed.
Lemma merges_perm band : ∀ (qi : nat) rows rows' m, rows ≡ₚ rows' → merge_ok band rows m → merge_ok band rows' m.
Proof. intros _ rows rows' m Hp (H1 & H2 & H3). split_and!; [by rewrite H1, Hp| |lia..]. rewrite H2. unfold zlen. by rewrite Hp. Qed.

Lemma merge_collector_ok band merges qi m rows rows' c : merges !! qi = Some m → merge_ok band rows m → range_collected band rows' c →
  ∃ m', merge_collector merges qi c = Ok (<[qi := m']> merges) ∧ merge_ok band (rows ++ rows') m'.
Proof.
  intros Hm (H1 & H2 & H3) (_ & _ & R & S & A). unfold merge_collector. rewrite Hm. cbn [expect mbind io_result_bind]. eexists. split; [done|].
  unfold merge_ok; cbn. split_and!; [by rewrite band_rows_app, H1, R|rewrite zlen_app; lia|lia|rewrite zlen_app; lia].
Qed.

(** A list with rows is read from the file. *)
Definition list_cost (index : FlatIndex) (i : nat) : Z := match items_of index !! i with Some item => if 0 <? zlen item.1 then 1 else 0 | None => 0 end.

Section Range.
Context (arch : Arch) `{IR : InfallibleRead R} (index : FlatIndex) (Hw : flat_writable index) (Hfin : finite_index index) (Hstr : lists_streamable index).
Context (points : list Z) (nq : nat) (band : DistanceBand) (Hband : band_bits band) (filter : option RowIdFilter) (Hlen : length points = (nq * dim index)%nat).
Context (Hfinite : fx_metric index = L2 → finite_vector points).
Context (schedule : list (FlatListData * nat) → list (FlatListData * nat)) (Hsched : ∀ tasks, schedule tasks ≡ₚ tasks).
#[local] Notation d := (dim index).
#[local] Notation metric := (fx_metric index).
#[local] Notation q_of qi := (slice (qi * dim index) (dim index) points).
#[local] Notation merges_ok := (buckets_ok (λ _, merge_ok band) nq).
#[local] Notation offers := (deliveries arch index points filter).

(** Every distance a scan may compute is a number, and cosine rows have a norm;
    the reader reports the first that does not. *)
Context (Hready : ∀ qi i r, (qi < nq)%nat → r ∈ list_rows index i →
  f32_is_finite (row_distance arch (q_of qi) metric r.2) = true ∧ (metric = Cosine → ∃ norm, checked_cosine_norm arch r.2 = Ok norm)).

Lemma range_accepts qi i r : (qi < nq)%nat → r ∈ list_rows index i → accepts arch (q_of qi) metric (C := RangeCollector) band r.2.
Proof.
  intros Hq Hr. destruct (Hready qi i r Hq Hr) as [Hf Hc]. split; [by intros _|]. intros rows c id _. cbn. unfold range_push. rewrite Hf. cbn. by eexists.
Qed.

Lemma range_scan_run i item qi a n : items_of index !! i = Some item → (qi < nq)%nat → (a + n ≤ length (sorted_ids item.1))%nat →
  let ids := slice a n (sorted_ids item.1) in let vectors := slice (a * d) (n * d) (sorted_vectors d item.1 item.2) in
  ∃ c, scan_flat_rows arch (q_of qi) ids vectors d metric filter (range_collector_new band) = Ok c ∧
    range_collected band (offered arch (q_of qi) d metric filter ids vectors) c.
Proof.
  intros Hi Hq Han ids vectors. pose proof (q_scannable index points nq Hlen Hfinite qi Hq) as Hsq. destruct (stored_rows arch index Hw Hfin (q_of qi) filter i item Hi) as (Lv & _ & Hf).
  pose proof (item_fits index Hw i item Hi) as (Hil & _). pose proof (fw_d _ Hw) as Hd.
  assert (length ids = n) as Li by (unfold ids; apply length_slice; lia). assert (length vectors = (n * d)%nat) as Lvs by (unfold vectors; apply length_slice; nia).
  destruct (scan_flat_rows_total arch (q_of qi) d metric filter (C := RangeCollector) band Hsq) with (ids := ids) (vectors := vectors) (rows := @nil (Z * Z)) (c := range_collector_new band) as (c & E & Hc);
    [intros rows c (_ & Ecut & _); cbn; rewrite Ecut; by apply threshold_u32|apply range_collected_new|by rewrite Li| |by exists c].
  intros j id Hj. pose proof (lookup_lt_Some _ _ _ Hj) as Hlt. rewrite Li in Hlt. assert (slice (j * d) d vectors = slice ((a + j) * d) d (sorted_vectors d item.1 item.2)) as Es.
  { unfold vectors. rewrite slice_slice by nia. f_equal. lia. }
  split; [split|intros _].
  - apply length_slice. rewrite Lvs. nia.
  - intros HL2. rewrite Es. apply Hf; [nia|done].
  - rewrite Es. apply (range_accepts qi i (id, slice ((a + j) * d) d (sorted_vectors d item.1 item.2)) Hq). unfold list_rows. rewrite Hi.
    rewrite <- (sorted_rows_perm d item.1 item.2) by (unfold zlen, dim in *; lia). apply list_elem_of_lookup. exists (a + j)%nat. unfold rows_at. rewrite list_lookup_imap.
    unfold ids, slice in Hj. rewrite lookup_take_Some, lookup_drop in Hj. destruct Hj as [-> _]. done.
Qed.

Lemma range_list_ok i l qi : list_read index i l → (qi < nq)%nat →
  ∃ c rows, scan_flat_list arch (q_of qi) l d metric filter (range_collector_new band) = Ok c ∧ range_collected band rows c ∧ rows ≡ₚ offered_for arch index points filter qi i.
Proof.
  intros (item & Hi & _ & Ei & Ev) Hq. unfold scan_flat_list. rewrite Ev, Ei. cbn [mbind io_result_bind]. destruct (stored_rows arch index Hw Hfin (q_of qi) filter i item Hi) as (Lv & Ho & _).
  destruct (range_scan_run i item qi 0 (length (sorted_ids item.1)) Hi Hq ltac:(lia)) as (c & E & Hc).
  assert (∀ n l, n = length l → slice 0 n l = l :> list Z) as Hall by (intros n l0 ->; unfold slice; by rewrite drop_0, firstn_all).
  rewrite !Hall in E, Hc by done. eexists _, _. by split_and!.
Qed.

Lemma scan_one_delivers l qi i : list_read index i l → (qi < nq)%nat →
  delivers (λ _, merge_ok band) nq (scan_one arch points d metric band filter) (l, qi) (qi, offered_for arch index points filter qi i).
Proof.
  intros Hl Hq. split; [done|]. intros bs m rows Hm Hok. cbn in Hm, Hok |- *. rewrite (query_slice_ok index points nq Hlen qi Hq). cbn [mbind io_result_bind].
  destruct (range_list_ok i l qi Hl Hq) as (c & rows' & -> & Hc & Hp). cbn [mbind io_result_bind]. destruct (merge_collector_ok band bs qi m rows rows' c Hm Hok Hc) as (m' & E & H').
  exists m'. split; [done|]. eapply (merges_perm band qi); [|exact H']. by rewrite Hp.
Qed.

Lemma range_scan_lists_ok l2q ids lists rows merges : Forall (λ i, (i < length l2q)%nat) ids → Forall (λ t : ask, (t.2 < nq)%nat) (table_tasks l2q ids) →
  Forall2 (list_read index) ids lists → merges_ok rows merges →
  ∃ merges', range_scan_lists arch schedule points d metric band filter l2q lists merges = Ok merges' ∧ merges_ok (λ qi, rows qi ++ gathered qi (offers (table_tasks l2q ids))) merges'.
Proof.
  intros Hids Hqs F Hm. unfold range_scan_lists. destruct (asked_lists_ok index l2q ids lists Hids F) as (asked & -> & Et & Hread). cbn [mbind io_result_bind].
  rewrite <- Et in *. apply (proj1 (Forall_fmap _ _ _)) in Hqs. assert (Forall (λ t : FlatListData * nat, (t.2 < nq)%nat ∧ list_read index (ld_list_id t.1) t.1) (scan_tasks asked)) as Ht by (by apply Forall_and).
  set (tasks := if scan_in_parallel asked d then schedule (scan_tasks asked) else scan_tasks asked). assert (tasks ≡ₚ scan_tasks asked) as Hperm by (unfold tasks; case_match; done).
  destruct (run_tasks (λ _, merge_ok band) (merges_perm band) nq (scan_one arch points d metric band filter) tasks (offers (task_ask <$> tasks)) rows merges) as (merges' & E & H'); [|done|].
  - unfold deliveries. rewrite <- list_fmap_compose. apply Forall2_fmap_r, Forall_Forall2_diag. rewrite Hperm. eapply Forall_impl; [exact Ht|]. intros [l qi] [Hq Hr]. cbn in Hq, Hr. by apply scan_one_delivers.
  - exists merges'. split; [done|]. eapply (buckets_perm _ (merges_perm band)); [|exact H']. intros qi. cbv beta. unfold deliveries. by rewrite Hperm.
Qed.

(** A list that has rows costs a read. *)
Lemma record_read_ok (x : R) b i item : items_of index !! i = Some item →
  record_list_read_for (loaded index x) b i = Ok (Builder (b_rows b) (b_stats b) (b_list_reads b + list_cost index i)).
Proof.
  intros Hi. unfold record_list_read_for. cbn [fr_counts loaded]. rewrite list_lookup_fmap. unfold table. rewrite (table_lookup _ _ _ _ _ Hi).
  cbn [fmap option_fmap option_map expect mbind io_result_bind fst snd]. unfold list_cost. rewrite Hi. destruct b. case_match; [done|]. cbn. by rewrite Z.add_0_r.
Qed.
Lemma record_reads_ok (x : R) b ids lists : Forall2 (list_read index) ids lists →
  try_fold (record_list_read_for (loaded index x)) b (ld_list_id <$> lists) = Ok (Builder (b_rows b) (b_stats b) (b_list_reads b + zsum (list_cost index) ids)).
Proof.
  intros F. revert b. induction F as [|i l ids lists (item & Hi & Eid & _) _ IH]; intros b; [destruct b; cbn; by rewrite Z.add_0_r|].
  rewrite fmap_cons. cbn [try_fold]. rewrite Eid, (record_read_ok x b i item Hi). cbn [mbind io_result_bind]. rewrite IH. cbn. by rewrite Z.add_assoc.
Qed.

Lemma range_loop_ok (x : R) fuel l2q lists rows merges b : (length lists ≤ fuel)%nat → length l2q = Z.to_nat (fx_nlist index) → Forall (λ i, (i < length l2q)%nat) lists →
  Forall (λ t : ask, (t.2 < nq)%nat) (table_tasks l2q lists) → is_image index x → merges_ok rows merges →
  ∃ merges' x', range_loop arch schedule fuel (loaded index x) points band filter l2q lists b merges =
      Ok (Builder (b_rows b) (b_stats b) (b_list_reads b + zsum (list_cost index) lists), merges', loaded index x') ∧ is_image index x' ∧
    merges_ok (λ qi, rows qi ++ gathered qi (offers (table_tasks l2q lists))) merges'.
Proof.
  intros Hf Hl2q. revert x lists rows merges b Hf. induction fuel as [|fuel IH]; intros x lists rows merges b Hf Hl Hq Hx Hm.
  1: destruct lists; [|cbn in Hf; lia].
  2: destruct lists as [|i rest].
  1, 2: exists merges, x; split_and!; [destruct b; cbn; by rewrite Z.add_0_r|done|]; eapply (buckets_perm _ (merges_perm band)); [|exact Hm]; intros qi; cbn; by rewrite app_nil_r.
  cbn [range_loop]. assert (∀ j, (j < length l2q)%nat → Z.of_nat j < fx_nlist index) as Hrange by (pose proof (fw_nlist _ Hw); lia).
  destruct (lookup_lt_is_Some_2 l2q i (Forall_inv Hl)) as [qs Hqs]. assert (∃ item, items_of index !! i = Some item) as [item Hi].
  { apply lookup_lt_is_Some_2. pose proof (items_length _ Hw) as L. pose proof (Hrange _ (Forall_inv Hl)). unfold zlen in L. lia. }
  rewrite (payload_len_image index Hw x i item Hi). cbn [mbind io_result_bind]. destruct (ivf_payload_is_oversized _) eqn:Hover.
  - rewrite Hqs. cbn [expect mbind io_result_bind]. rewrite (record_read_ok x b i item Hi). cbn [mbind io_result_bind].
    change (reader_dim (loaded index x)) with d. change (fr_metric (loaded index x)) with metric.
    rewrite (table_tasks_cons l2q i rest qs Hqs) in *. apply Forall_app in Hq as [Hq1 Hq2]. apply (proj1 (Forall_fmap _ _ _)) in Hq1.
    destruct (stream_buckets (λ _, merge_ok band) (merges_perm band) nq arch index Hw Hstr points filter
      (λ ids vectors merges qi, q ← query_slice points d qi; collector ← scan_flat_rows arch q ids vectors d metric filter (range_collector_new band); merge_collector merges qi collector))
      with (x := x) (i := i) (item := item) (asking := qs) (rows := rows) (bs := merges) as (m1 & x1 & E & Hx1 & H1); try done.
    { intros j it a n qi Hit Hqi Han ids vectors. split; [done|]. intros bs m rows0 Hb Hok. cbn in Hb, Hok |- *. rewrite (query_slice_ok index points nq Hlen qi Hqi). cbn [mbind io_result_bind].
      destruct (range_scan_run j it qi a n Hit Hqi Han) as (c & Ec & Hc). subst ids vectors. rewrite Ec. cbn [mbind io_result_bind]. exact (merge_collector_ok band bs qi m rows0 _ c Hb Hok Hc). }
    unfold range_scan_rows. rewrite E. cbn [mbind io_result_bind].
    destruct (IH x1 rest _ m1 (Builder (b_rows b) (b_stats b) (b_list_reads b + list_cost index i)) ltac:(cbn in Hf; lia) (Forall_inv_tail Hl) Hq2 Hx1 H1) as (m2 & x2 & E2 & Hx2 & H2).
    exists m2, x2. rewrite E2. split_and!; [cbn; by rewrite Z.add_assoc|done|].
    eapply (buckets_perm _ (merges_perm band)); [|exact H2]. intros qi. cbv beta. by rewrite offers_app, gathered_app, app_assoc.
  - assert (Forall (λ j, Z.of_nat j < fx_nlist index) (i :: rest)) as Hp by (eapply Forall_impl; [exact Hl|]; intros j; apply Hrange).
    destruct (batch_read_end_image index Hw x (i :: rest) ltac:(done) Hp) as (n & ->). cbn [mbind io_result_bind].
    set (count := (n `max` 1)%nat). assert (1 ≤ count)%nat as Hc by lia. clearbody count. set (lists := i :: rest) in *.
    destruct (read_lists_image index Hw x (take count lists) Hx ltac:(by apply Forall_take)) as (loaded_lists & x1 & -> & Hx1 & F). cbn [mbind io_result_bind].
    rewrite (record_reads_ok x1 b _ _ F). cbn [mbind io_result_bind]. change (reader_dim (loaded index x1)) with d. change (fr_metric (loaded index x1)) with metric.
    rewrite <- (take_drop count lists), table_tasks_app in Hq. apply Forall_app in Hq as [Hq1 Hq2].
    destruct (range_scan_lists_ok l2q (take count lists) loaded_lists rows merges ltac:(by apply Forall_take) Hq1 F Hm) as (m1 & -> & H1). cbn [mbind io_result_bind].
    destruct (IH x1 (drop count lists) _ m1 (Builder (b_rows b) (b_stats b) (b_list_reads b + zsum (list_cost index) (take count lists)))
      ltac:(rewrite length_drop; unfold lists in *; cbn [length] in *; lia) ltac:(by apply Forall_drop) Hq2 Hx1 H1) as (m2 & x2 & E2 & Hx2 & H2).
    exists m2, x2. rewrite E2. split_and!; [cbn [b_rows b_stats b_list_reads]; by rewrite <- Z.add_assoc, <- zsum_app, take_drop|done|].
    eapply (buckets_perm _ (merges_perm band)); [|exact H2]. intros qi. cbv beta. rewrite <- app_assoc, <- gathered_app, <- offers_app, <- table_tasks_app, take_drop. done.
Qed.
End Range.

(** ** The result *)

(** One step per query, each on its own rows and statistics. *)
Lemma fold_builder {A} (f : RangeResultBuilder → nat * A → io_result RangeResultBuilder) (g : A → list (Z * Z) → list (Z * Z)) (h : A → RangeSearchStats → RangeSearchStats) (l : list A) b :
  (∀ b qi a rows st, b_rows b !! qi = Some rows → b_stats b !! qi = Some st →
     f b (qi, a) = Ok (Builder (<[qi := g a rows]> (b_rows b)) (<[qi := h a st]> (b_stats b)) (b_list_reads b))) →
  length (b_rows b) = length l → length (b_stats b) = length l →
  ∃ b', try_fold f b (imap pair l) = Ok b' ∧ b_list_reads b' = b_list_reads b ∧ length (b_rows b') = length l ∧ length (b_stats b') = length l ∧
    ∀ qi a rows st, l !! qi = Some a → b_rows b !! qi = Some rows → b_stats b !! qi = Some st → b_rows b' !! qi = Some (g a rows) ∧ b_stats b' !! qi = Some (h a st).
Proof.
  intros Hf Hr Hs.
  assert (∀ l start b, (start + length l = length (b_rows b))%nat → length (b_stats b) = length (b_rows b) →
    ∃ b', try_fold f b (imap (λ i a, ((start + i)%nat, a)) l) = Ok b' ∧ b_list_reads b' = b_list_reads b ∧ length (b_rows b') = length (b_rows b) ∧ length (b_stats b') = length (b_rows b) ∧
      (∀ qi, (qi < start)%nat → b_rows b' !! qi = b_rows b !! qi ∧ b_stats b' !! qi = b_stats b !! qi) ∧
      ∀ qi a rows st, l !! qi = Some a → b_rows b !! (start + qi)%nat = Some rows → b_stats b !! (start + qi)%nat = Some st →
        b_rows b' !! (start + qi)%nat = Some (g a rows) ∧ b_stats b' !! (start + qi)%nat = Some (h a st)) as Hgen.
  { clear l b Hr Hs. induction l as [|a l IH]; intros start b Hr Hs; [exists b; by split_and!|]. cbn [imap try_fold]. rewrite Nat.add_0_r. cbn [length] in Hr.
    destruct (lookup_lt_is_Some_2 (b_rows b) start) as [rows Hrow]; [lia|]. destruct (lookup_lt_is_Some_2 (b_stats b) start) as [st Hst]; [lia|].
    rewrite (Hf b start a rows st Hrow Hst). cbn [mbind io_result_bind]. set (b1 := Builder _ _ _).
    destruct (IH (S start) b1) as (b' & E & H1 & H2 & H3 & H4 & H5); [unfold b1; cbn; rewrite length_insert; lia|unfold b1; cbn; rewrite !length_insert; lia|].
    exists b'. rewrite (imap_ext _ (λ i a, ((S start + i)%nat, a))) by (intros; cbn; f_equal; lia). unfold b1 in *. cbn in *. rewrite length_insert in *. split_and!; try done.
    - intros qi Hq. destruct (H4 qi) as [E1 E2]; [lia|]. rewrite E1, E2, !list_lookup_insert_ne by lia. done.
    - intros [|qi] a0 rows0 st0 Ha Hr0 Hs0.
      + rewrite Nat.add_0_r in *. injection Ha as <-. destruct (H4 start) as [E1 E2]; [lia|]. rewrite E1, E2, !list_lookup_insert_eq by lia. by simplify_eq.
      + replace (start + S qi)%nat with (S (start + qi)) in * by lia. apply (H5 qi a0 rows0 st0 Ha); rewrite list_lookup_insert_ne by lia; done. }
  destruct (Hgen l 0%nat b) as (b' & E & H1 & H2 & H3 & _ & H5); [lia|lia|]. exists b'. split_and!; [exact E|done|lia|lia|exact H5].
Qed.

(** The lists that are read are the lists that were asked for. *)
Lemma fan_members nlist probe_lists st i : fanned nlist (asks_of probe_lists) st → i ∈ st.2 ↔ ∃ lists, lists ∈ probe_lists ∧ i ∈ lists.
Proof.
  intros Hf. transitivity (i ∈ fst <$> table_tasks st.1 st.2).
  - unfold table_tasks. rewrite list_elem_of_fmap. split.
    + intros Hi. pose proof (Forall_forall (λ i, (i < nlist)%nat) st.2) as [Hr _]. specialize (Hr (fan_range _ _ _ Hf) _ Hi).
      destruct (lookup_lt_is_Some_2 st.1 i) as [qs Hqs]; [rewrite (fan_length _ _ _ Hf); done|]. pose proof (proj1 (fan_unique _ _ _ Hf i qs Hqs) Hi) as Hne.
      destruct qs as [|qi qs]; [done|]. exists (i, qi). split; [done|]. apply list_elem_of_In, in_concat. exists (pair i <$> qi :: qs). split; [|by left].
      apply list_elem_of_In, list_elem_of_fmap. exists i. by rewrite Hqs.
    + intros ([i' qi] & Ei & Hin). cbn in Ei. subst i'. apply list_elem_of_In, in_concat in Hin as (l & Hl & Hin). apply list_elem_of_In, list_elem_of_fmap in Hl as (j & -> & Hj).
      apply list_elem_of_In, list_elem_of_fmap in Hin as (? & [= <- <-] & _). done.
  - rewrite (fan_tasks _ _ _ Hf). unfold asked_pairs, asks_of. rewrite <- list_fmap_compose, list_elem_of_fmap. split.
    + intros (a & -> & Ha). apply list_elem_of_In, in_concat in Ha as (l & Hl & Ha). apply list_elem_of_In, list_elem_of_lookup in Hl as [j Hj]. rewrite list_lookup_imap in Hj.
      destruct (probe_lists !! j) as [lists|] eqn:E; [|done]. cbn in Hj. injection Hj as <-. apply list_elem_of_In, list_elem_of_fmap in Ha as (i & -> & Hi). exists lists.
      split; [by eapply list_elem_of_lookup_2|done].
    + intros (lists & Hl & Hi). apply list_elem_of_lookup in Hl as [j Hj]. exists (j, i). split; [done|]. apply list_elem_of_In, in_concat. exists (pair j <$> lists).
      split; [|apply list_elem_of_In, list_elem_of_fmap; by exists i]. apply list_elem_of_In, list_elem_of_lookup. exists j. by rewrite list_lookup_imap, Hj.
Qed.

Lemma validate_queries_ok queries nq d : nq ≠ 0%nat → length queries = (nq * d)%nat → Z.of_nat nq * Z.of_nat d < 2 ^ 63 → finite_vector queries → validate_queries queries nq d = Ok ().
Proof.
  intros Hnq Hl Hs Hf. unfold validate_queries, validate_finite_values. rewrite (proj2 (Nat.ltb_lt 0 nq)) by lia. cbn [ensure_input guard_ok mbind io_result_bind].
  rewrite (proj2 (checked_mul_Some 64 (Z.of_nat nq) (Z.of_nat d) (Z.of_nat nq * Z.of_nat d))) by (split; [done|lia]). cbn [or_input ok_or mbind io_result_bind].
  rewrite (proj2 (Z.eqb_eq (zlen queries) _)) by (unfold zlen; lia). cbn [ensure_input guard_ok mbind io_result_bind].
  rewrite (proj2 (get_slice_Some _ _ _ queries)) by (split; [lia|]; unfold slice; rewrite drop_0; symmetry; apply take_ge; lia). cbn [expect mbind io_result_bind].
  replace (forallb f32_is_finite queries) with true; [done|]. symmetry. apply forallb_forall. intros v Hv. apply list_elem_of_In in Hv. unfold finite_vector in Hf. rewrite Forall_forall in Hf. by destruct (Hf _ Hv).
Qed.

Section RangeSearch.
Context (arch : Arch) (sgemm : nat → nat → nat → Z → list Z → list Z → Z → list Z → list Z) (schedule : list (FlatListData * nat) → list (FlatListData * nat)).
Context (Hsgemm : ∀ m n k alpha a b beta c, length (sgemm m n k alpha a b beta c) = length c ∧ Forall u32 (sgemm m n k alpha a b beta c)) (Hsched : ∀ tasks, schedule tasks ≡ₚ tasks).
Context `{IR : InfallibleRead R} (index : FlatIndex) (Hw : flat_writable index) (Hfin : finite_index index) (Hstr : lists_streamable index).
Context (queries : list Z) (nq : nat) (Hnq : nq ≠ 0%nat) (Hlen : length queries = (nq * dim index)%nat) (Hsize : Z.of_nat nq * fx_d index < 2 ^ 63) (Hquery : finite_vector queries).
Context (params : VectorRangeSearchParams) (filter : option RowIdFilter).
Context (Hmetric : band_metric (rp_band params) = fx_metric index) (Hbits : band_bits (rp_band params)) (Hne : band_is_empty (rp_band params) = false) (Hnp : 0 < rp_nprobe params).
Context (points : list Z) (lists : list (list nat)).
Context (Hprep : prepare_range_queries arch queries (dim index) (fx_metric index) = Ok points).
Context (Hlists : range_probe_lists arch sgemm points (fx_centroids index) (dim index) (Z.to_nat (fx_nlist index)) (Z.to_nat (Z.min (rp_nprobe params) (fx_nlist index))) (fx_metric index) = Ok lists).
#[local] Notation q_of qi := (slice (qi * dim index) (dim index) points).
Context (Hready : ∀ qi i r, (qi < nq)%nat → r ∈ list_rows index i →
  f32_is_finite (row_distance arch (q_of qi) (fx_metric index) r.2) = true ∧ (fx_metric index = Cosine → ∃ norm, checked_cosine_norm arch r.2 = Ok norm)).

(** The answer to one query, with its statistics. *)
Definition range_answer (result : RangeSearchResult) (qi : nat) (probes : list nat) : Prop :=
  let offered := probed_rows arch index (q_of qi) filter probes in
  ∃ rows st, query_rows result qi = Ok (fst <$> rows, snd <$> rows, st) ∧ rows ≡ₚ band_rows (rp_band params) offered ∧
    lists_probed st = zlen probes ∧ rows_scanned st = zlen offered ∧ rows_committed st = zlen rows ∧ 0 <= early_abandoned st <= rows_scanned st - rows_committed st.

Lemma range_image (x : R) : is_image index x →
  ∃ result x', range_search_batch_with_filter arch sgemm schedule (opened index x) queries nq params filter = Ok (result, loaded index x') ∧
    length lists = nq ∧ (∀ qi probes, lists !! qi = Some probes → range_answer result qi probes) ∧
    ∃ unique, NoDup unique ∧ (∀ i, i ∈ unique ↔ ∃ probes, probes ∈ lists ∧ i ∈ probes) ∧ list_reads result = zsum (list_cost index) unique.
Proof.
  intros Hx. pose proof (fw_d _ Hw) as Hd. pose proof (fw_nlist _ Hw) as Hnl. assert (0 < dim index)%nat as Hd0 by (unfold dim; lia).
  pose proof (prepare_range_queries_length arch queries _ _ points Hd0 Hprep) as Lp. rewrite Hlen in Lp.
  assert (Z.of_nat nq * Z.of_nat (dim index) < 2 ^ 63) as Hqd by (unfold dim; lia).
  assert (Z.of_nat (Z.to_nat (fx_nlist index)) * Z.of_nat (dim index) < 2 ^ 63) as Hkd by (pose proof (fw_section _ Hw); unfold dim; lia).
  destruct (range_probe_lists_ok arch sgemm points nq _ _ _ _ _ lists Hsgemm Hd0 (centroids_length index Hw) Lp Hkd Hqd Hlists) as [Ll Fl].
  assert (fx_metric index = L2 → finite_vector points) as Hfp by (intros HL2; unfold prepare_range_queries in Hprep; rewrite bool_decide_eq_false_2 in Hprep by (by rewrite HL2); by injection Hprep as <-).
  unfold range_search_batch_with_filter. change (reader_dim (opened index x)) with (dim index). rewrite validate_queries_ok by done. cbn [mbind io_result_bind fr_metric fr_nlist opened].
  rewrite bool_decide_eq_true_2 by done. cbn [ensure_input guard_ok mbind io_result_bind]. unfold validate_params, validate_shape. rewrite (proj2 (Z.eqb_neq (rp_nprobe params) 0)) by lia. cbn [negb ensure_input guard_ok mbind io_result_bind].
  rewrite Hne. fold (opened index x). destruct (ensure_loaded_image index Hw x Hx) as (x1 & -> & Hx1). cbn [mbind io_result_bind].
  change (reader_dim (loaded index x1)) with (dim index). cbn [fr_metric fr_nlist fr_centroids loaded]. rewrite Hprep. cbn [mbind io_result_bind]. rewrite Hlists. cbn [mbind io_result_bind].
  destruct (fold_builder (λ builder '(qi, lists), record_lists_probed builder qi (zlen lists)) (λ _ rows, rows) (λ l st, Stats (lists_probed st + zlen l) (rows_scanned st) (rows_committed st) (early_abandoned st)) lists (builder_new nq)) as (b1 & E1 & R1 & Lr1 & Ls1 & H1);
    [|cbn; rewrite length_replicate; lia|cbn; rewrite length_replicate; lia|].
  { intros b qi l rows st Hr Hs. unfold record_lists_probed, update_stats. rewrite Hs. cbn [expect mbind io_result_bind]. by rewrite (list_insert_id (b_rows b)) by done. }
  rewrite E1. cbn [mbind io_result_bind].
  destruct (fan_out_ok (Z.to_nat (fx_nlist index)) lists) as ([l2q unique] & -> & Hfan); [eapply Forall_impl; [exact Fl|]; by intros l (? & _)|]. cbn [mbind io_result_bind].
  assert (buckets_ok (λ _, merge_ok (rp_band params)) nq (λ _, []) (replicate nq query_merge_default)) as Hm0.
  { split; [apply length_replicate|]. intros qi m Hq. apply lookup_replicate in Hq as [-> _]. by unfold merge_ok. }
  fold (loaded index x1). destruct (range_loop_ok arch index Hw Hfin Hstr points nq (rp_band params) Hbits filter Lp Hfp schedule Hsched Hready x1 (length unique) l2q unique (λ _, []) (replicate nq query_merge_default) b1)
    as (merges & x2 & -> & _ & Lm & Hm); [done|apply (fan_length _ _ _ Hfan)|pose proof (fan_range _ _ _ Hfan) as Hr; pose proof (fan_length _ _ _ Hfan) as Lr; cbn in *; by rewrite Lr|by apply (table_queries _ _ _ nq Hfan)|done|done|].
  cbn [mbind io_result_bind]. set (b2 := Builder _ _ _).
  destruct (fold_builder hand_over (λ m old, match old with [] => qm_rows m | _ => old ++ qm_rows m end)
    (λ m st, Stats (lists_probed st) (rows_scanned st + qm_scanned m) (rows_committed st + zlen (qm_rows m)) (early_abandoned st + qm_early_abandoned m)) merges b2) as (b3 & E3 & R3 & _ & _ & H3);
    [|unfold b2; cbn; lia|unfold b2; cbn; lia|].
  { intros b qi m rows st Hr Hs. unfold hand_over, record_scanned, record_early_abandoned, take_rows, update_stats. rewrite Hs. cbn [expect mbind io_result_bind b_stats b_rows].
    pose proof (lookup_lt_Some _ _ _ Hs). rewrite list_lookup_insert_eq by lia. cbn [expect mbind io_result_bind b_stats b_rows]. rewrite list_insert_insert_eq, list_lookup_insert_eq by lia.
    cbn [expect mbind io_result_bind b_stats b_rows b_list_reads]. rewrite Hr. cbn [expect mbind io_result_bind]. by rewrite list_insert_insert_eq. }
  rewrite E3. cbn [mbind io_result_bind]. exists (builder_build b3), x2. split_and!; [done|done| |].
  - intros qi probes Hq. pose proof (lookup_lt_Some _ _ _ Hq) as Hlt. destruct (lookup_lt_is_Some_2 merges qi) as [m Hmq]; [lia|].
    destruct (H1 qi probes [] stats_default Hq) as [Hr1 Hs1]; [apply lookup_replicate; split; [done|lia]..|]. destruct (H3 qi m _ _ Hmq Hr1 Hs1) as [Hr3 Hs3].
    destruct (Hm qi m Hmq) as (Hrows & Hscan & Hab). cbn in Hrows, Hscan. unfold range_answer. eexists (qm_rows m), _. split; [by apply csr_query|].
    pose proof (offers_of_query arch index points filter _ lists (l2q, unique) qi probes Hfan Hq) as Hoff. cbn [fst snd] in Hoff. rewrite Hoff in Hrows. split; [done|]. cbn.
    assert (zlen (gathered qi (deliveries arch index points filter (table_tasks l2q unique))) = zlen (probed_rows arch index (q_of qi) filter probes)) as <- by (unfold zlen; by rewrite Hoff).
    split_and!; lia.
  - exists unique. split_and!; [apply (fan_nodup _ _ _ Hfan)|intros i; apply (fan_members _ lists (l2q, unique) i Hfan)|].
    assert (list_reads (builder_build b3) = b_list_reads b3) as -> by (unfold builder_build; by rewrite build_fold). rewrite R3. unfold b2. cbn. rewrite R1. done.
Qed.
End RangeSearch.


Definition demo_range_params : VectorRangeSearchParams := RangeParams (Band (Finite 0) (Finite F32_ONE) L2) 2.
Lemma demo_rows_ready qi i r : (qi < 1)%nat → r ∈ list_rows demo_flat i →
  f32_is_finite (row_distance Aarch64 (slice (qi * 1) 1 [0]) L2 r.2) = true ∧ (L2 = Cosine → ∃ norm, checked_cosine_norm Aarch64 r.2 = Ok norm).
Proof.
  intros Hq Hr. split; [|done]. destruct qi as [|qi]; [|lia]. destruct i as [|[|[|i]]]; cbn in Hr.
  - apply elem_of_cons in Hr as [->|Hr]; [by vm_compute|]. apply elem_of_cons in Hr as [->|Hr]; [by vm_compute|]. apply list_elem_of_singleton in Hr as ->. by vm_compute.
  - by apply not_elem_of_nil in Hr.
  - apply list_elem_of_singleton in Hr as ->. by vm_compute.
  - by apply not_elem_of_nil in Hr.
Qed.

