(* ===== verification/AdjacencyLayout.v ===== *)
(** Placing adjacency lists on pages and indexing them: [plan_adjacency_layout],
    [write_adjacency_pages], [write_adjacency_index], [decode_adjacency_index]
    and [validate_adjacency_index] of [core/src/diskann_io.rs].

    The graph is the list of neighbour lists its [CompactAdjacency] iterates
    over.  The conversion to binary16 is the [half] crate's and a parameter. *)

From S2P Require Import Prelude SeekIo IndexIoUtil Adjacency DiskannUtil DiskannHeader SectionWriter.

Record AdjacencyLayout := Layout { locators : list AdjacencyLocator; page_count : Z }.

(** ** Planning *)

Fixpoint plan_loop (adjacency : list (list Z)) (interleaved_vector_bytes page_index byte_offset : Z) :
    io_result (list AdjacencyLocator * Z) :=
  match adjacency with
  | [] => Ok ([], page_index)
  | neighbors :: adjacency =>
      '(encoding, list_bytes) ← plan_adjacency_list neighbors;
      record_bytes ← or_input (checked_add 64 interleaved_vector_bytes list_bytes)
                       "DiskANN interleaved record size overflows usize";
      _ ← ensure_input (negb (DISKANN_PAGE_SIZE <? record_bytes))
            "DiskANN vector and adjacency list do not fit in a logical page";
      '(page_index, byte_offset) ←
        (if DISKANN_PAGE_SIZE <? byte_offset + record_bytes then
           page_index ← or_input (checked_add 32 page_index 1) "DiskANN adjacency page count exceeds u32";
           Ok (page_index, 0)
         else Ok (page_index, byte_offset));
      start ← or_input (try_from 16 (byte_offset + interleaved_vector_bytes))
                "DiskANN adjacency byte offset exceeds u16";
      locator ← locator_new page_index start (zlen neighbors) encoding;
      '(locators, last_page) ← plan_loop adjacency interleaved_vector_bytes page_index (byte_offset + record_bytes);
      Ok (locator :: locators, last_page)
  end.
Definition plan_adjacency_layout (adjacency : list (list Z)) (interleaved_vector_bytes : Z) : io_result AdjacencyLayout :=
  '(locators, last_page) ← plan_loop adjacency interleaved_vector_bytes 0 0;
  Ok (Layout locators (last_page + 1)).

(** ** The pages *)

Definition encode_raw_vector (f16_from_f32 : Z → Z) (f16_is_finite : Z → bool) (vector : list Z)
    (encoding : DiskAnnRawVectorEncoding) : io_result (list Z) :=
  _ ← or_input (checked_mul 64 (zlen vector) (element_size encoding))
        "DiskANN raw-vector encoding size overflows usize";
  match encoding with
  | EncF32 => Ok (concat (le_bytes 4 <$> vector))
  | EncF16 =>
      try_fold (λ encoded value,
        let value := f16_from_f32 value in
        _ ← ensure_input (f16_is_finite value) "DiskANN vector value is outside the finite f16 range";
        Ok (encoded ++ le_bytes 2 value)) [] vector
  end.

Section Pages.
Context `{SeekWrite W}.

(** [while locator.page_index > current_page] *)
Fixpoint advance_pages (fuel : nat) (writer : ChunkedSectionWriter W) (page : list Z) (current_page target : Z) :
    io_result (ChunkedSectionWriter W * list Z * Z) :=
  match fuel with
  | O => Ok (writer, page, current_page)
  | S fuel =>
      if current_page <? target then
        writer ← write_bytes writer page;
        advance_pages fuel writer (replicate (length page) 0) (current_page + 1) target
      else Ok (writer, page, current_page)
  end.

(** The body for one node; [vector] is its encoded vector when interleaved. *)
Definition write_record (page : list Z) (locator : AdjacencyLocator) (vector : io_result (option (list Z)))
    (neighbors : list Z) : io_result (list Z) :=
  '(enc, encoded) ← encode_adjacency_list neighbors;
  _ ← ensure_input (bool_decide (enc = encoding locator)) "DiskANN adjacency encoding changed after layout planning";
  let start := byte_offset locator in
  encoded_vector ← vector;
  page ← match encoded_vector with
         | Some v =>
             vector_start ← or_input (checked_sub start (zlen v)) "DiskANN interleaved vector offset underflows";
             (* [page[vector_start..start]] panics past the page *)
             if zlen page <? start then Panic else Ok (splice (Z.to_nat vector_start) v page)
         | None => Ok page
         end;
  stop ← or_input (checked_add 64 start (zlen encoded)) "DiskANN adjacency page range overflows";
  _ ← ensure_input (stop <=? zlen page) "DiskANN adjacency list crosses a logical page";
  Ok (splice (Z.to_nat start) encoded page).

(** The node loop, with the vectors [prepared.vector(index, node)] encoded on
    demand by [vector_of], then the last page. *)
Fixpoint write_pages_loop (vector_of : nat → io_result (option (list Z))) (writer : ChunkedSectionWriter W)
    (page : list Z) (current_page : Z) (node : nat) (locators : list AdjacencyLocator) (adjacency : list (list Z)) :
    io_result (ChunkedSectionWriter W) :=
  match locators with
  | [] => write_bytes writer page
  | locator :: locators =>
      '(writer, page, current_page) ←
        advance_pages (Z.to_nat (page_index locator - current_page)) writer page current_page (page_index locator);
      neighbors ← expect (head adjacency);
      page ← write_record page locator (vector_of node) neighbors;
      write_pages_loop vector_of writer page current_page (S node) locators (tail adjacency)
  end.
Definition write_adjacency_pages (vector_of : nat → io_result (option (list Z))) (adjacency : list (list Z))
    (layout : AdjacencyLayout) (writer : ChunkedSectionWriter W) : io_result (ChunkedSectionWriter W) :=
  write_pages_loop vector_of writer (replicate (Z.to_nat DISKANN_PAGE_SIZE) 0) 0 0 (locators layout) adjacency.

(** ** The index section *)

(** [(0..len).step_by(16)] *)
Definition block_starts (len : nat) : list nat :=
  (λ b, (b * ADJACENCY_LOCATOR_BLOCK_NODES)%nat) <$> seq 0 (Z.to_nat (div_ceil (Z.of_nat len) 16)).

Definition block_offset_of (locators : list AdjacencyLocator) (block_start : nat) : io_result Z :=
  l ← expect (locators !! block_start); adjacency_locator_absolute_offset l.

Definition write_block_offset (locators : list AdjacencyLocator) (writer : ChunkedSectionWriter W) (block_start : nat) :
    io_result (ChunkedSectionWriter W) :=
  block_offset ← block_offset_of locators block_start;
  write_bytes writer (le_bytes 8 block_offset).

Definition relative_offset_of (locators : list AdjacencyLocator) (node : nat) (locator : AdjacencyLocator) : io_result Z :=
  let block_start := (node / ADJACENCY_LOCATOR_BLOCK_NODES * ADJACENCY_LOCATOR_BLOCK_NODES)%nat in
  block_offset ← block_offset_of locators block_start;
  absolute ← adjacency_locator_absolute_offset locator;
  or_input (offset ← checked_sub absolute block_offset; try_from 16 offset)
    "DiskANN adjacency locator exceeds its block offset range".
Definition write_relative_offset (locators : list AdjacencyLocator) (writer : ChunkedSectionWriter W)
    (node_locator : nat * AdjacencyLocator) : io_result (ChunkedSectionWriter W) :=
  relative_offset ← relative_offset_of locators node_locator.1 node_locator.2;
  write_bytes writer (le_bytes 2 relative_offset).

Definition write_adjacency_index (layout : AdjacencyLayout) (writer : ChunkedSectionWriter W) :
    io_result (ChunkedSectionWriter W) :=
  let locators := locators layout in
  writer ← try_fold (write_block_offset locators) writer (block_starts (length locators));
  writer ← try_fold (write_relative_offset locators) writer (imap pair locators);
  try_fold (λ writer locator, write_bytes writer (le_bytes 2 (degree_and_flags locator))) writer locators.

End Pages.

(** ** Reading the index *)

Definition section_len_usize (s : SectionRange) : io_result Z :=
  or_data (try_from 64 (sec_length s)) "DiskANN section exceeds usize".

(** The state the validation loop carries from node to node. *)
Record Previous := Prev { prev_page : Z; prev_offset : Z; prev_degree : Z; prev_encoding : AdjacencyListEncoding }.

Definition validate_node (ix : AdjacencyIndex) (page_count record_prefix max_degree : Z) (prev : Previous) (node : nat) :
    io_result Previous :=
  relative ← expect (relative_offsets ix !! node);
  _ ← ensure_data (negb ((node mod ADJACENCY_LOCATOR_BLOCK_NODES =? 0)%nat && negb (relative =? 0)))
        "DiskANN adjacency locator block must start at relative offset zero";
  l ← or_data (locator ix node) "DiskANN adjacency locator offset is invalid";
  _ ← ensure_data (negb (page_count <=? page_index l)) "DiskANN adjacency locator page is out of range";
  _ ← ensure_data (negb ((node =? 0)%nat && negb (page_index l =? 0))) "DiskANN adjacency locator must start on page zero";
  _ ← ensure_data (negb ((page_index l <? prev_page prev) ||
        (prev_page prev + (if (node =? 0)%nat then 0 else 1) <? page_index l)))
        "DiskANN adjacency locator pages are not monotonic";
  _ ← ensure_data (negb (max_degree <? degree l)) "DiskANN adjacency degree exceeds maximum";
  let offset := byte_offset l in
  _ ← ensure_data (negb ((offset <? record_prefix) || (DISKANN_PAGE_SIZE <? offset)))
        "DiskANN adjacency locator offset exceeds its page";
  _ ← match encoding l with
      | RawU32 =>
          stop ← or_data (checked_add 64 offset (degree l * 4)) "DiskANN adjacency locator range overflows";
          ensure_data (negb (DISKANN_PAGE_SIZE <? stop)) "DiskANN adjacency locator crosses a page"
      | DeltaVarint => Ok ()
      end;
  _ ← ensure_data (negb ((node =? 0)%nat && negb (offset =? record_prefix)))
        "DiskANN adjacency index has an invalid first record offset";
  _ ← (if page_index l =? prev_page prev then
         if negb (node =? 0)%nat then
           match prev_encoding prev with
           | DeltaVarint =>
               let minimum_offset := prev_offset prev + (if prev_degree prev =? 0 then 0 else 1) + record_prefix in
               ensure_data (negb (offset <? minimum_offset)) "DiskANN adjacency locator ranges overlap"
           | RawU32 =>
               expected ← or_data (o ← checked_add 64 (prev_offset prev) (prev_degree prev * 4);
                                   checked_add 64 o record_prefix) "DiskANN adjacency locator range overflows";
               ensure_data (offset =? expected) "DiskANN adjacency locator ranges must be contiguous"
           end
         else Ok ()
       else ensure_data (offset =? record_prefix) "DiskANN adjacency page has an invalid first record offset");
  Ok (Prev (page_index l) offset (degree l) (encoding l)).

Definition validate_adjacency_index (h : DiskAnnHeader) (ix : AdjacencyIndex) : io_result unit :=
  _ ← ensure_data (negb (negb (Z.of_nat (index_len ix) =? vector_count h)
        || negb (length (index_degree_and_flags ix) =? index_len ix)%nat
        || negb (zlen (block_offsets ix) =? div_ceil (Z.of_nat (index_len ix)) 16)))
        "DiskANN adjacency index has an invalid locator count";
  page_count ← or_data (try_from 32 (sec_length (adjacency (sections h)) / DISKANN_PAGE_SIZE))
                 "DiskANN adjacency page count exceeds u32";
  let record_prefix := if is_interleaved h then vector_record_size h else 0 in
  prev ← try_fold (validate_node ix page_count record_prefix (max_degree h)) (Prev 0 0 0 DeltaVarint)
           (seq 0 (index_len ix));
  ensure_data (bool_decide (checked_add 32 (prev_page prev) 1 = Some page_count))
    "DiskANN adjacency pages are not fully indexed".

Definition decode_adjacency_index (bytes : list Z) (h : DiskAnnHeader) : io_result AdjacencyIndex :=
  section_len ← section_len_usize (adjacency_index (sections h));
  let locator_count := vector_count h in
  expected_len ← adjacency_index_serialized_len locator_count;
  _ ← ensure_data (section_len =? expected_len) "DiskANN adjacency index has an invalid byte length";
  let block_count := div_ceil locator_count 16 in
  block_bytes ← or_data (checked_mul 64 block_count 8) "DiskANN adjacency block-offset size overflows usize";
  relative_bytes ← or_data (checked_mul 64 locator_count 2) "DiskANN adjacency relative-offset size overflows usize";
  _ ← ensure_data (zlen bytes =? section_len) "DiskANN adjacency index payload is truncated";
  metadata_offset ← or_data (checked_add 64 block_bytes relative_bytes) "DiskANN adjacency metadata position overflows";
  let ix := Index
    (le_val <$> chunks_exact 8 (take (Z.to_nat block_bytes) bytes))
    (le_val <$> chunks_exact 2 (slice (Z.to_nat block_bytes) (Z.to_nat relative_bytes) bytes))
    (le_val <$> chunks_exact 2 (drop (Z.to_nat metadata_offset) bytes)) in
  _ ← validate_adjacency_index h ix;
  Ok ix.

(** ** What the planner decides *)

(** Where a record of [n] bytes goes when [off] bytes of the page are used. *)
Definition next_place (page off n : Z) : Z * Z :=
  if DISKANN_PAGE_SIZE <? off + n then (page + 1, 0) else (page, off).

Inductive planned (ivb : Z) : Z → Z → list (list Z) → list AdjacencyLocator → Z → Prop :=
  | planned_nil page off : planned ivb page off [] [] page
  | planned_cons page off page' off' ns adj l locs last enc n :
      plan_adjacency_list ns = Ok (enc, n) → ivb + n <= DISKANN_PAGE_SIZE →
      next_place page off (ivb + n) = (page', off') → page' < 2 ^ 32 →
      page_index l = page' → byte_offset l = off' + ivb → degree l = zlen ns → encoding l = enc →
      u16 (degree_and_flags l) →
      planned ivb page' (off' + (ivb + n)) adj locs last →
      planned ivb page off (ns :: adj) (l :: locs) last.

Lemma plan_loop_planned adj ivb page off locs last :
  page < 2 ^ 32 → plan_loop adj ivb page off = Ok (locs, last) → planned ivb page off adj locs last.
Proof.
  revert page off locs last. induction adj as [|ns adj IH]; intros page off locs last Hp H; cbn [plan_loop] in H.
  { inv_ok. constructor. }
  bind_ok H as p Hplan. destruct p as [enc n].
  bind_ok H as rec Hrec. apply ok_or_Ok, checked_add_Some in Hrec as [-> _]. guard_ok H as Hfit.
  bind_ok H as place Hplace. destruct place as [page' off'].
  assert (next_place page off (ivb + n) = (page', off') ∧ page' < 2 ^ 32) as [Hnext Hp'].
  { unfold next_place. destruct (DISKANN_PAGE_SIZE <? off + (ivb + n)); inv_ok; [|done]. by split. }
  bind_ok H as start Hstart. apply ok_or_Ok, try_from_Some in Hstart as [-> _].
  bind_ok H as l Hl. apply locator_new_spec in Hl as (? & ? & ? & ? & ? & _); [|apply zlen_nonneg].
  bind_ok H as r Hr. destruct r as [locs' last']. apply IH in Hr; [|done]. inv_ok.
  eapply planned_cons; try done. lia.
Qed.

Lemma planned_length ivb page off adj locs last : planned ivb page off adj locs last → length locs = length adj.
Proof. induction 1; cbn; lia. Qed.

Lemma next_place_spec page off n page' off' :
  next_place page off n = (page', off') → 0 <= n <= DISKANN_PAGE_SIZE → 0 <= off →
  (page' = page ∧ off' = off ∧ off + n <= DISKANN_PAGE_SIZE) ∨ (page' = page + 1 ∧ off' = 0 ∧ DISKANN_PAGE_SIZE < off + n).
Proof. unfold next_place. case_match; intros; simplify_eq; lia. Qed.

(** Sizes the codec guarantees for the lists it plans. *)
Definition lists_ok (adj : list (list Z)) : Prop := Forall (λ ns, neighbors_ok ns ∧ zlen ns < 2 ^ 32) adj.

Lemma planned_list ns enc n :
  neighbors_ok ns → zlen ns < 2 ^ 32 → plan_adjacency_list ns = Ok (enc, n) →
  ∃ bytes, encode_adjacency_list ns = Ok (enc, bytes) ∧ n = zlen bytes ∧ bytes_ok bytes ∧
    (∀ rest, decode_adjacency_list (bytes ++ rest) (length ns) enc = Ok (ns, length bytes)) ∧
    match enc with RawU32 => n = 4 * zlen ns | DeltaVarint => ns ≠ [] → 1 <= n end.
Proof.
  intros Hok Hlen Hplan. destruct (encode_adjacency_list_spec ns Hok ltac:(lia)) as (e & bytes & He & Hp & Hl & Hb).
  rewrite Hplan in Hp. injection Hp as <- ->. pose proof (neighbors_sorted_from_0 ns Hok) as Hs. exists bytes. split_and!; try done.
  - destruct enc; rewrite Hb; [by apply delta_list_bytes_ok|apply concat_le_bytes_ok].
  - intros rest. destruct enc; rewrite Hb.
    + apply (decode_deltas_bytes [] rest 0 ns); [lia|apply Hok|done].
    + apply decode_raw; [apply Hok|lia].
  - destruct enc; rewrite Hb; [|unfold zlen; rewrite concat_le_bytes_length; lia].
    intros Hne. destruct ns as [|x ns]; [done|]. cbn [delta_list_bytes]. rewrite Varint.varint_bytes_S, zlen_app.
    pose proof (zlen_nonneg (delta_list_bytes x ns)). destruct (128 <=? x - 0); unfold zlen at 1; cbn [length]; lia.
Qed.

(** ** The pages hold every list *)

Section PagesLaws.
Context `{LW : SeekWriteLaws W, IW : !InfallibleWrite W}.

(** A page filled from the left. *)
Definition filled (pp : list Z) : list Z := pp ++ replicate (4096 - length pp) 0.

Lemma length_filled pp : (length pp ≤ 4096)%nat → length (filled pp) = 4096%nat.
Proof. intros. unfold filled. rewrite length_app, length_replicate. lia. Qed.

Lemma splice_filled pp bytes :
  (length pp + length bytes ≤ 4096)%nat → splice (length pp) bytes (filled pp) = filled (pp ++ bytes).
Proof.
  intros. unfold splice, filled. rewrite take_app_length, <- drop_drop, drop_app_length, drop_replicate, length_app, <- app_assoc.
  do 3 f_equal. lia.
Qed.

(** What the vector of a record is, and its length. *)
Definition vector_bytes (ivb : Z) (v : io_result (option (list Z))) (bytes : list Z) : Prop :=
  zlen bytes = ivb ∧ ((v = Ok None ∧ bytes = []) ∨ v = Ok (Some bytes)).

Lemma write_record_spec pp l v vb ivb ns enc n :
  neighbors_ok ns → zlen ns < 2 ^ 32 → plan_adjacency_list ns = Ok (enc, n) → encoding l = enc →
  vector_bytes ivb v vb → byte_offset l = zlen pp + ivb → zlen pp + (ivb + n) <= DISKANN_PAGE_SIZE →
  ∃ bytes, encode_adjacency_list ns = Ok (enc, bytes) ∧ zlen bytes = n ∧
    write_record (filled pp) l v ns = Ok (filled (pp ++ vb ++ bytes)).
Proof.
  intros Hok Hlen Hplan Henc [Hvl Hv] Hoff Hfit. unfold DISKANN_PAGE_SIZE in Hfit.
  destruct (planned_list ns enc n Hok Hlen Hplan) as (bytes & He & Hn & _). exists bytes. split_and!; [done|done|].
  unfold write_record. rewrite He. cbn [mbind io_result_bind]. rewrite bool_decide_true by done. cbn [ensure_input guard_ok mbind io_result_bind].
  pose proof (zlen_nonneg pp). pose proof (zlen_nonneg bytes). pose proof (zlen_nonneg vb).
  assert (zlen (filled (pp ++ vb)) = 4096) as Hlf by (unfold zlen in *; rewrite length_filled; rewrite ?length_app; lia).
  assert (zlen (filled pp) = 4096) as Hlp by (unfold zlen in *; rewrite length_filled; lia).
  assert ((v ≫= λ ev, match ev with
         | Some v => vector_start ← or_input (checked_sub (byte_offset l) (zlen v)) "DiskANN interleaved vector offset underflows";
             if zlen (filled pp) <? byte_offset l then Panic else Ok (splice (Z.to_nat vector_start) v (filled pp))
         | None => Ok (filled pp) end) = Ok (filled (pp ++ vb))) as Hvec.
  { destruct Hv as [[-> ->]| ->]; cbn [mbind io_result_bind]; [by rewrite app_nil_r|].
    rewrite (proj2 (checked_sub_Some _ _ _)) by (split; [reflexivity|lia]). cbn [or_input ok_or mbind io_result_bind].
    rewrite Hlp, (proj2 (Z.ltb_ge _ _)) by lia. f_equal.
    replace (Z.to_nat (byte_offset l - zlen vb)) with (length pp) by (unfold zlen in *; lia).
    apply splice_filled. unfold zlen in *. lia. }
  destruct v as [ev| |]; [|exfalso; destruct Hv as [[Ev _]|Ev]; discriminate Ev..]. cbn [mbind io_result_bind] in *. rewrite Hvec. cbn [mbind io_result_bind].
  rewrite (proj2 (checked_add_Some 64 _ _ _)) by (split; [reflexivity|unfold_widths; lia]). cbn [or_input ok_or mbind io_result_bind].
  rewrite Hlf, (proj2 (Z.leb_le _ _)) by lia. cbn [ensure_input guard_ok mbind io_result_bind]. f_equal.
  rewrite app_assoc. replace (Z.to_nat (byte_offset l)) with (length (pp ++ vb)) by (rewrite length_app; unfold zlen in *; lia).
  apply splice_filled. rewrite length_app. unfold zlen in *. lia.
Qed.

Lemma advance_pages_spec (w : ChunkedSectionWriter W) pp page page' off' n :
  cw_ok w → (length pp ≤ 4096)%nat → next_place page (zlen pp) n = (page', off') →
  ∃ w' flushed pp', advance_pages (Z.to_nat (page' - page)) w (filled pp) page page' = Ok (w', filled pp', page') ∧
    appends w w' flushed ∧ zlen pp' = off' ∧ cw_ok w' ∧
    ((page' = page ∧ flushed = [] ∧ pp' = pp) ∨ (page' = page + 1 ∧ flushed = filled pp ∧ pp' = [])).
Proof.
  intros Hok Hpp Hnext. unfold next_place in Hnext. case_match; simplify_eq.
  - replace (Z.to_nat (page + 1 - page)) with 1%nat by lia. cbn [advance_pages].
    rewrite (proj2 (Z.ltb_lt _ _)) by lia. destruct (write_bytes_spec w (filled pp) Hok) as (w' & -> & Ha). cbn [mbind io_result_bind].
    exists w', (filled pp), []. rewrite length_filled by done. split_and!; [done|done|done|apply Ha|by right].
  - rewrite Z.sub_diag. cbn [Z.to_nat advance_pages]. exists w, [], pp. split_and!; [done|by apply appends_nil|done|done|by left].
Qed.

(** The bytes of the pages, spelled out: records from the left, zeros behind. *)
Definition list_bytes (ns : list Z) : list Z := match encode_adjacency_list ns with Ok (_, bytes) => bytes | _ => [] end.
Fixpoint pages_image (page : Z) (pp : list Z) (locs : list AdjacencyLocator) (adj vectors : list (list Z)) : list Z :=
  match locs, adj, vectors with
  | l :: locs, ns :: adj, vb :: vectors =>
      let record := vb ++ list_bytes ns in
      if page_index l =? page then pages_image page (pp ++ record) locs adj vectors
      else filled pp ++ pages_image (page_index l) record locs adj vectors
  | _, _, _ => filled pp
  end.

(** Every record of the remaining nodes is somewhere in the bytes still to come,
    at the absolute position its locator gives. *)
Definition records_in (total : list Z) (page ivb : Z) (adj : list (list Z)) (locs : list AdjacencyLocator)
    (vectors : list (list Z)) : Prop :=
  ∀ i ns l vb, adj !! i = Some ns → locs !! i = Some l → vectors !! i = Some vb →
    ∃ pre bytes post, total = pre ++ vb ++ bytes ++ post ∧ encode_adjacency_list ns = Ok (encoding l, bytes) ∧
      zlen pre + ivb + page * DISKANN_PAGE_SIZE = page_index l * DISKANN_PAGE_SIZE + byte_offset l.

Lemma write_pages_spec vector_of ivb page pp adj locs last vectors w node :
  planned ivb page (zlen pp) adj locs last → lists_ok adj → cw_ok w → (length pp ≤ 4096)%nat → 0 <= ivb →
  length vectors = length adj →
  (∀ i vb, vectors !! i = Some vb → vector_bytes ivb (vector_of (node + i)%nat) vb) →
  ∃ w' total, write_pages_loop vector_of w (filled pp) page node locs adj = Ok w' ∧ appends w w' total ∧
    zlen total = (last - page + 1) * DISKANN_PAGE_SIZE ∧ take (length pp) total = pp ∧
    records_in total page ivb adj locs vectors ∧ total = pages_image page pp locs adj vectors.
Proof.
  intros Hplan. remember (zlen pp) as off eqn:Eoff. revert pp vectors w node Eoff.
  induction Hplan as [page off|page off page' off' ns adj l locs last enc n Hp Hfit Hnext Hp32 Epage Eoffset Edeg Eenc Hu16 Hplan IH];
    intros pp vectors w node -> Hlists Hok Hpp Hivb Hlv Hvec.
  { cbn [write_pages_loop]. destruct (write_bytes_spec w (filled pp) Hok) as (w' & E & Ha).
    exists w', (filled pp). split_and!; [done|done| | | |done].
    - unfold zlen. rewrite length_filled by done. unfold DISKANN_PAGE_SIZE. lia.
    - unfold filled. by rewrite take_app_length.
    - intros i ? ? ? Hi. by rewrite lookup_nil in Hi. }
  apply list.Forall_cons in Hlists as [[Hns Hnl] Hlists]. destruct vectors as [|vb vectors]; [done|].
  destruct (planned_list ns enc n Hns Hnl Hp) as (? & _ & Hn & _). pose proof (zlen_nonneg x) as Hx. subst n.
  cbn [write_pages_loop]. rewrite Epage.
  destruct (advance_pages_spec w pp page page' off' (ivb + zlen x) Hok Hpp Hnext) as (w1 & flushed & pp' & -> & Ha1 & Hpp' & Hok1 & Hcase).
  cbn [mbind io_result_bind head expect tail].
  pose proof (next_place_spec _ _ _ _ _ Hnext ltac:(lia) ltac:(apply zlen_nonneg)) as Hplace.
  assert (zlen pp' + (ivb + zlen x) <= DISKANN_PAGE_SIZE) as Hroom by lia.
  pose proof (Hvec 0%nat vb eq_refl) as Hv0. rewrite Nat.add_0_r in Hv0.
  destruct (write_record_spec pp' l (vector_of node) vb ivb ns enc (zlen x)) as (bytes & He & Hbl & ->); try done; [lia|].
  cbn [mbind io_result_bind].
  assert (zlen (pp' ++ vb ++ bytes) = off' + (ivb + zlen x)) as Hnewlen by (rewrite !zlen_app; destruct Hv0 as [-> _]; lia).
  destruct (IH (pp' ++ vb ++ bytes) vectors w1 (S node)) as (w2 & rest & E2 & Ha2 & Hl2 & Ht2 & Hr2 & Him);
    [done|done|done|unfold zlen, DISKANN_PAGE_SIZE in *; lia|done|by injection Hlv| |].
  { intros i v Hi. rewrite Nat.add_succ_comm. by apply Hvec. }
  exists w2, (flushed ++ rest). split_and!; [done|by eapply appends_trans| | | |].
  - rewrite zlen_app, Hl2. destruct Hcase as [(-> & -> & _)|(-> & -> & _)]; [unfold zlen; cbn; lia|].
    unfold zlen at 1. rewrite length_filled by done. unfold DISKANN_PAGE_SIZE. lia.
  - destruct Hcase as [(_ & -> & ->)|(_ & -> & _)].
    + cbn [app]. rewrite <- (take_drop (length (pp ++ vb ++ bytes)) rest), Ht2, <- !app_assoc. by rewrite take_app_length.
    + unfold filled. rewrite <- app_assoc. by rewrite take_app_length.
  - assert (flushed = [] ∧ page' = page ∨ zlen flushed = DISKANN_PAGE_SIZE ∧ page' = page + 1) as Hflush.
    { destruct Hcase as [(? & ? & _)|(? & -> & _)]; [by left|right]. split; [|done].
      unfold zlen. by rewrite length_filled. }
    assert (zlen flushed + page * DISKANN_PAGE_SIZE = page' * DISKANN_PAGE_SIZE) as Hshift.
    { destruct Hflush as [[-> ->]|[-> ->]]; [unfold zlen; cbn; lia|lia]. }
    clear Him. intros [|i] ns' l' vb' Hi Hl Hvb; cbn in Hi, Hl, Hvb; simplify_eq.
    + exists (flushed ++ pp'), bytes, (drop (length (pp' ++ vb' ++ bytes)) rest). split_and!; [|done|rewrite zlen_app; lia].
      rewrite <- (take_drop (length (pp' ++ vb' ++ bytes)) rest) at 1. rewrite Ht2, <- !app_assoc. done.
    + destruct (Hr2 i ns' l' vb' Hi Hl Hvb) as (pre & bytes' & post & -> & Henc & Hpos).
      exists (flushed ++ pre), bytes', post. split_and!; [by rewrite <- app_assoc|done|rewrite zlen_app; lia].
  - cbn [pages_image]. unfold list_bytes. rewrite He, Epage, Him. destruct Hcase as [(-> & -> & ->)|(-> & -> & ->)].
    + by rewrite Z.eqb_refl.
    + by rewrite (proj2 (Z.eqb_neq _ _)) by lia.
Qed.

End PagesLaws.

(** ** The index round trip *)

(** Planned locators that the index can represent: none sits exactly at the end
    of its page, which only an empty list can. *)
Definition inside_pages (locs : list AdjacencyLocator) : Prop := Forall (λ l, byte_offset l < DISKANN_PAGE_SIZE) locs.

Definition absolute (l : AdjacencyLocator) : Z := page_index l * DISKANN_PAGE_SIZE + byte_offset l.

Lemma planned_bounds ivb page off adj locs last :
  planned ivb page off adj locs last → lists_ok adj → 0 <= ivb → 0 <= off → 0 <= page →
  page <= last ∧ Forall (λ l, page <= page_index l <= last ∧ page_index l < 2 ^ 32 ∧ ivb <= byte_offset l <= DISKANN_PAGE_SIZE ∧
    (encoding l = RawU32 → byte_offset l + degree l * 4 <= DISKANN_PAGE_SIZE) ∧ u16 (degree_and_flags l)) locs.
Proof.
  induction 1 as [page off|page off page' off' ns adj l locs last enc n Hp Hfit Hnext Hp32 Epage Eoffset Edeg Eenc Hu16 Hplan IH];
    intros Hlists Hivb Hoff Hpage; [split; [lia|constructor]|].
  apply list.Forall_cons in Hlists as [[Hns Hnl] Hlists].
  destruct (planned_list ns enc n Hns Hnl Hp) as (bytes & _ & -> & _ & _ & Hsize). pose proof (zlen_nonneg bytes).
  pose proof (next_place_spec _ _ _ _ _ Hnext ltac:(lia) Hoff) as Hplace.
  destruct (IH Hlists Hivb ltac:(lia) ltac:(lia)) as [Hle Hall]. split; [lia|]. constructor.
  - split_and!; try lia; [|apply Hu16..]. rewrite Eenc. intros ->. lia.
  - eapply Forall_impl; [exact Hall|]. cbn. intros x (? & ? & ? & ? & ?). split_and!; try done; lia.
Qed.

(** Consecutive records: the next one is never before this one, at most one
    page on, and on the same page it starts behind this list. *)
Lemma planned_next ivb page off adj locs last i l1 l2 ns1 :
  planned ivb page off adj locs last → lists_ok adj → 0 <= ivb → 0 <= off → 0 <= page →
  locs !! i = Some l1 → locs !! S i = Some l2 → adj !! i = Some ns1 →
  ∃ n, (match encoding l1 with RawU32 => n = 4 * degree l1 | DeltaVarint => degree l1 ≠ 0 → 1 <= n end) ∧ 0 <= n ∧
    ((page_index l2 = page_index l1 ∧ byte_offset l2 = byte_offset l1 + n + ivb) ∨
     (page_index l2 = page_index l1 + 1 ∧ byte_offset l2 = ivb)).
Proof.
  intros Hplan. revert i.
  induction Hplan as [page off|page off page' off' ns adj l locs last enc n Hp Hfit Hnext Hp32 Epage Eoffset Edeg Eenc Hu16 Hplan IH];
    intros i Hlists Hivb Hoff Hpage H1 H2 H3; [done|].
  apply list.Forall_cons in Hlists as [[Hns Hnl] Hlists].
  destruct (planned_list ns enc n Hns Hnl Hp) as (bytes & _ & Hn & _ & _ & Hsize). pose proof (zlen_nonneg bytes).
  pose proof (next_place_spec _ _ _ _ _ Hnext ltac:(lia) Hoff) as Hplace.
  destruct i as [|i]; [|by apply (IH i); try done; lia].
  cbn in H1, H3. injection H1 as <-. injection H3 as <-. cbn in H2.
  exists n. rewrite Eenc, Edeg. split; [|split; [lia|]].
  { destruct enc; [|done]. intros Hd. apply Hsize. intros ->. done. }
  inversion Hplan as [|? ? page2 off2 ns2 ? ? ? ? enc2 n2 Hp2 Hfit2 Hnext2 _ Epage2 Eoffset2 _ _ _ _]; subst; [done|].
  injection H2 as ->. apply list.Forall_cons in Hlists as [[Hns2 Hnl2] _].
  destruct (planned_list _ _ _ Hns2 Hnl2 Hp2) as (bytes2 & _ & -> & _). pose proof (zlen_nonneg bytes2).
  pose proof (next_place_spec _ _ _ _ _ Hnext2 ltac:(lia) ltac:(lia)) as Hplace2. lia.
Qed.

Lemma planned_last ivb page off adj locs last :
  planned ivb page off adj locs last →
  match locs with [] => last = page | _ => ∃ l, locs !! (length locs - 1)%nat = Some l ∧ page_index l = last end.
Proof.
  induction 1 as [|page off page' off' ns adj l locs last enc n Hp Hfit Hnext Hp32 Epage Eoffset Edeg Eenc Hu16 Hpl IH]; [done|].
  destruct locs as [|l' locs]; [exists l; split; [done|by rewrite Epage, IH]|].
  destruct IH as (l2 & Hl2 & E2). exists l2. split; [|done]. cbn [length] in *. by rewrite Nat.sub_succ, Nat.sub_0_r in *.
Qed.

Section PlannedIndex.
Context (ivb : Z) (adj : list (list Z)) (locs : list AdjacencyLocator) (last : Z).
Context (Hplan : planned ivb 0 0 adj locs last) (Hlists : lists_ok adj) (Hivb : 0 <= ivb) (Hin : inside_pages locs).

Lemma loc_bounds i l :
  locs !! i = Some l →
  0 <= page_index l <= last ∧ page_index l < 2 ^ 32 ∧ ivb <= byte_offset l < DISKANN_PAGE_SIZE ∧
  (encoding l = RawU32 → byte_offset l + degree l * 4 <= DISKANN_PAGE_SIZE) ∧ u16 (degree_and_flags l).
Proof.
  intros Hi. destruct (planned_bounds _ _ _ _ _ _ Hplan Hlists Hivb ltac:(lia) ltac:(lia)) as [_ Hall].
  destruct (Forall_lookup_1 _ _ _ _ Hall Hi) as (? & ? & ? & ? & ?). pose proof (Forall_lookup_1 _ _ _ _ Hin Hi) as Hlt. cbn in Hlt.
  split_and!; try done; lia.
Qed.

Lemma loc_next i l1 l2 :
  locs !! i = Some l1 → locs !! S i = Some l2 →
  ∃ n, (match encoding l1 with RawU32 => n = 4 * degree l1 | DeltaVarint => degree l1 ≠ 0 → 1 <= n end) ∧ 0 <= n ∧
    ((page_index l2 = page_index l1 ∧ byte_offset l2 = byte_offset l1 + n + ivb) ∨
     (page_index l2 = page_index l1 + 1 ∧ byte_offset l2 = ivb)).
Proof.
  intros H1 H2. destruct (lookup_lt_is_Some_2 adj i) as [ns Hns].
  { rewrite <- (planned_length _ _ _ _ _ _ Hplan). by apply lookup_lt_Some in H1. }
  by eapply (planned_next ivb 0 0 adj locs last).
Qed.

Lemma absolute_mono i k l1 l2 :
  locs !! i = Some l1 → locs !! (i + k)%nat = Some l2 →
  absolute l1 <= absolute l2 ∧ page_index l2 <= page_index l1 + Z.of_nat k.
Proof.
  intros H1. revert l2. induction k as [|k IH]; intros l2 H2; [rewrite Nat.add_0_r in H2; simplify_eq; lia|].
  rewrite Nat.add_succ_r in H2. destruct (lookup_lt_is_Some_2 locs (i + k)) as [l Hl]; [apply lookup_lt_Some in H2; lia|].
  destruct (IH l Hl) as [Ha Hp]. destruct (loc_next _ _ _ Hl H2) as (n & _ & Hn & Hcase).
  destruct (loc_bounds _ _ Hl) as (_ & _ & Hb & _). unfold absolute in *. lia.
Qed.

Lemma loc_absolute_offset i l : locs !! i = Some l → adjacency_locator_absolute_offset l = Ok (absolute l).
Proof.
  intros Hi. destruct (loc_bounds _ _ Hi) as (? & ? & ? & _). unfold adjacency_locator_absolute_offset, absolute, DISKANN_PAGE_SIZE in *.
  rewrite (proj2 (checked_mul_Some 64 _ _ _)) by (split; [reflexivity|unfold_widths; lia]). cbn [mbind option_bind].
  by rewrite (proj2 (checked_add_Some 64 _ _ _)) by (split; [reflexivity|unfold_widths; lia]).
Qed.

Definition block_start (i : nat) : nat := (i / ADJACENCY_LOCATOR_BLOCK_NODES * ADJACENCY_LOCATOR_BLOCK_NODES)%nat.
Definition abs_at (i : nat) : Z := match locs !! i with Some l => absolute l | None => 0 end.
Definition index_of : AdjacencyIndex :=
  Index (abs_at <$> block_starts (length locs)) (imap (λ i l, absolute l - abs_at (block_start i)) locs)
    (degree_and_flags <$> locs).

Lemma block_start_le i : (block_start i ≤ i < block_start i + 16)%nat.
Proof. unfold block_start, ADJACENCY_LOCATOR_BLOCK_NODES. pose proof (Nat.div_mod_eq i 16). pose proof (Nat.mod_upper_bound i 16). lia. Qed.

Lemma relative_bounds i l : locs !! i = Some l → 0 <= absolute l - abs_at (block_start i) < 2 ^ 16.
Proof.
  intros Hi. pose proof (block_start_le i) as Hb. destruct (lookup_lt_is_Some_2 locs (block_start i)) as [b Hlb].
  { apply lookup_lt_Some in Hi. lia. }
  unfold abs_at. rewrite Hlb. replace i with (block_start i + (i - block_start i))%nat in Hi by lia.
  destruct (absolute_mono _ _ _ _ Hlb Hi) as [Ha Hp]. replace (block_start i + (i - block_start i))%nat with i in Hi by lia.
  destruct (loc_bounds _ _ Hi) as (_ & _ & ? & _). destruct (loc_bounds _ _ Hlb) as (_ & _ & ? & _).
  unfold absolute, DISKANN_PAGE_SIZE in *. change (2 ^ 16) with 65536. lia.
Qed.

Lemma abs_at_u64 i : u64 (abs_at i).
Proof.
  unfold abs_at. destruct (locs !! i) as [l|] eqn:Hl; [|by unfold_widths]. destruct (loc_bounds _ _ Hl) as (? & ? & ? & _).
  unfold absolute, DISKANN_PAGE_SIZE in *. unfold_widths. lia.
Qed.

Lemma block_starts_lookup i : (i < length locs)%nat → block_starts (length locs) !! (i / 16)%nat = Some (block_start i).
Proof.
  intros Hi. unfold block_starts. rewrite list_lookup_fmap, lookup_seq_lt; [done|].
  unfold div_ceil. assert (Z.of_nat (i / 16) < (Z.of_nat (length locs) + 16 - 1) / 16); [|lia].
  rewrite Nat2Z.inj_div. change (Z.of_nat 16) with 16.
  pose proof (Z.div_mod (Z.of_nat i) 16). pose proof (Z.mod_pos_bound (Z.of_nat i) 16).
  pose proof (Z.div_mod (Z.of_nat (length locs) + 16 - 1) 16). pose proof (Z.mod_pos_bound (Z.of_nat (length locs) + 16 - 1) 16). lia.
Qed.

(** The resident index answers exactly the planned locators. *)
Lemma locator_index_of i : locator index_of i = locs !! i.
Proof.
  unfold locator. destruct (locs !! i) as [l|] eqn:Hi.
  2: { unfold index_of. cbn [relative_offsets]. by rewrite list_lookup_imap, Hi. }
  assert (relative_offsets index_of !! i = Some (absolute l - abs_at (block_start i))) as ->.
  { unfold index_of. cbn [relative_offsets]. by rewrite list_lookup_imap, Hi. }
  assert (index_degree_and_flags index_of !! i = Some (degree_and_flags l)) as ->.
  { unfold index_of. cbn [index_degree_and_flags]. by rewrite list_lookup_fmap, Hi. }
  change ADJACENCY_LOCATOR_BLOCK_NODES with 16%nat.
  assert (block_offsets index_of !! (i / 16)%nat = Some (abs_at (block_start i))) as ->.
  { unfold index_of. cbn [block_offsets]. by rewrite list_lookup_fmap, block_starts_lookup by (by apply lookup_lt_Some in Hi). }
  cbn [mbind option_bind].
  pose proof (loc_bounds _ _ Hi) as (Hp & Hp32 & Hb & _).
  rewrite (proj2 (checked_add_Some 64 _ _ (absolute l))) by (unfold absolute, DISKANN_PAGE_SIZE in *; unfold_widths; lia).
  cbn [mbind option_bind]. unfold absolute, DISKANN_PAGE_SIZE in *.
  rewrite Z.div_add_l, (Z.div_small (byte_offset l)), Z.add_0_r by lia.
  rewrite (Z.add_comm (page_index l * 4096)), Z_mod_plus_full, Z.mod_small by lia.
  rewrite (proj2 (try_from_Some 32 _ _)) by (split; [reflexivity|lia]). cbn [mbind option_bind].
  rewrite (proj2 (try_from_Some 16 _ _)) by (split; [reflexivity|unfold_widths; lia]). cbn [mbind option_bind]. by destruct l.
Qed.

Context (max_degree : Z) (Hdegree : Forall (λ l, degree l <= max_degree) locs).

Definition prev_of (l : AdjacencyLocator) : Previous := Prev (page_index l) (byte_offset l) (degree l) (encoding l).
Definition prev_at (k : nat) : Previous :=
  match k with
  | O => Prev 0 0 0 DeltaVarint
  | S j => match locs !! j with Some l => prev_of l | None => Prev 0 0 0 DeltaVarint end
  end.

Lemma first_locator l : locs !! 0%nat = Some l → page_index l = 0 ∧ byte_offset l = ivb.
Proof.
  intros Hl. destruct adj as [|ns adj'], locs as [|l' locs']; try done; inversion Hplan; subst.
  apply list.Forall_cons in Hlists as [[Hns Hnl] _]. injection Hl as ->.
  destruct (planned_list _ _ _ Hns Hnl ltac:(eassumption)) as (bytes & _ & -> & _). pose proof (zlen_nonneg bytes).
  match goal with E : next_place 0 0 _ = _ |- _ => pose proof (next_place_spec _ _ _ _ _ E ltac:(lia) ltac:(lia)) end. lia.
Qed.

Lemma degree_nonneg l : 0 <= degree_and_flags l → 0 <= degree l.
Proof. intros. unfold degree. apply Z.land_nonneg. by left. Qed.

Lemma validate_node_ok k :
  (k < length locs)%nat → validate_node index_of (last + 1) ivb max_degree (prev_at k) k = Ok (prev_at (S k)).
Proof.
  intros Hk. destruct (lookup_lt_is_Some_2 locs k Hk) as [l Hl]. unfold validate_node.
  assert (relative_offsets index_of !! k = Some (absolute l - abs_at (block_start k))) as ->.
  { unfold index_of. cbn [relative_offsets]. by rewrite list_lookup_imap, Hl. }
  rewrite locator_index_of, Hl. cbn [expect or_data ok_or mbind io_result_bind].
  pose proof (loc_bounds _ _ Hl) as (Hp & Hp32 & Hb & Hraw & Hu16). pose proof (Forall_lookup_1 _ _ _ _ Hdegree Hl) as Hd. cbn in Hd.
  pose proof (degree_nonneg l ltac:(apply Hu16)) as Hd0. unfold DISKANN_PAGE_SIZE in *.
  assert (negb ((k mod ADJACENCY_LOCATOR_BLOCK_NODES =? 0)%nat && negb (absolute l - abs_at (block_start k) =? 0)) = true) as Hrel.
  { destruct (Nat.eqb_spec (k mod ADJACENCY_LOCATOR_BLOCK_NODES) 0) as [E|]; [|done]. unfold ADJACENCY_LOCATOR_BLOCK_NODES in *.
    assert (block_start k = k) as -> by (unfold block_start, ADJACENCY_LOCATOR_BLOCK_NODES; pose proof (Nat.div_mod_eq k 16); lia).
    unfold abs_at. by rewrite Hl, Z.sub_diag. }
  pass by (exact Hrel). pass.
  assert (prev_at (S k) = Prev (page_index l) (byte_offset l) (degree l) (encoding l)) as -> by (cbn [prev_at]; by rewrite Hl).
  assert (match encoding l with
      | RawU32 =>
          stop ← or_data (checked_add 64 (byte_offset l) (degree l * 4)) "DiskANN adjacency locator range overflows";
          ensure_data (negb (4096 <? stop)) "DiskANN adjacency locator crosses a page"
      | DeltaVarint => Ok ()
      end = Ok ()) as Hrange.
  { destruct (encoding l); [done|]. specialize (Hraw eq_refl). pass. by pass. }
  destruct k as [|j].
  - destruct (first_locator l Hl) as [Ep Eo]. cbn [prev_at prev_page]. rewrite Ep, Eo, !Z.eqb_refl in *.
    do 4 pass. rewrite Hrange. cbn [mbind io_result_bind]. done.
  - destruct (lookup_lt_is_Some_2 locs j ltac:(lia)) as [l' Hl']. cbn [prev_at]. rewrite Hl'. cbn [prev_of prev_page prev_offset prev_degree prev_encoding].
    destruct (loc_next _ _ _ Hl' Hl) as (n & Hn & Hn0 & Hcase). pose proof (loc_bounds _ _ Hl') as (Hp' & _ & Hb' & Hraw' & Hu16').
    pose proof (degree_nonneg l' ltac:(apply Hu16')) as Hd0'. cbn [Nat.eqb].
    do 4 pass. rewrite Hrange. cbn [mbind io_result_bind]. pass.
    destruct (Z.eqb_spec (page_index l) (page_index l')); [|by pass]. destruct Hcase as [[_ Ho]|[? _]]; [|lia].
    destruct (encoding l') eqn:Ee; cbn [negb].
    + destruct (Z.eqb_spec (degree l') 0); by pass.
    + rewrite (proj2 (checked_add_Some 64 (byte_offset l') _ _)) by (split; [reflexivity|unfold_widths; lia]). cbn [mbind option_bind].
      rewrite (proj2 (checked_add_Some 64 _ ivb _)) by (split; [reflexivity|unfold_widths; lia]).
      cbn [or_data ok_or mbind io_result_bind]. by pass.
Qed.

Lemma validate_nodes_ok k n :
  (k + n ≤ length locs)%nat →
  try_fold (validate_node index_of (last + 1) ivb max_degree) (prev_at k) (seq k n) = Ok (prev_at (k + n)).
Proof.
  revert k. induction n as [|n IH]; intros k Hk; cbn [seq try_fold]; [by rewrite Nat.add_0_r|].
  rewrite validate_node_ok by lia. cbn [mbind io_result_bind]. rewrite IH by lia. do 2 f_equal. lia.
Qed.

Lemma last_page_spec : prev_page (prev_at (length locs)) = last.
Proof.
  clear Hdegree Hin max_degree. pose proof (planned_last _ _ _ _ _ _ Hplan) as H. unfold prev_at. destruct locs as [|l ls] eqn:El; [by cbn|].
  destruct H as (l2 & Hl2 & E2). cbn [length prev_at] in *. rewrite Nat.sub_succ, Nat.sub_0_r in Hl2. by rewrite Hl2.
Qed.

End PlannedIndex.

Definition index_bytes (ix : AdjacencyIndex) : list Z :=
  concat (le_bytes 8 <$> block_offsets ix) ++ concat (le_bytes 2 <$> relative_offsets ix) ++
  concat (le_bytes 2 <$> index_degree_and_flags ix).

Lemma block_starts_in (locs : list AdjacencyLocator) b : b ∈ block_starts (length locs) → (b < length locs)%nat ∧ block_start b = b.
Proof.
  unfold block_starts. intros (k & -> & Hk%elem_of_seq)%list_elem_of_fmap. unfold block_start, ADJACENCY_LOCATOR_BLOCK_NODES.
  rewrite Nat.div_mul by lia. split; [|done]. unfold div_ceil in Hk.
  pose proof (Z.div_mod (Z.of_nat (length locs) + 16 - 1) 16). pose proof (Z.mod_pos_bound (Z.of_nat (length locs) + 16 - 1) 16). lia.
Qed.

Lemma write_adjacency_index_spec `{LW : SeekWriteLaws W, IW : !InfallibleWrite W} ivb adj locs last pc (w : ChunkedSectionWriter W) :
  planned ivb 0 0 adj locs last → lists_ok adj → 0 <= ivb → inside_pages locs → cw_ok w →
  ∃ w', write_adjacency_index (Layout locs pc) w = Ok w' ∧ appends w w' (index_bytes (index_of locs)).
Proof.
  intros Hplan Hl Hivb Hin Hok. unfold write_adjacency_index. cbn [locators].
  assert (∀ w : ChunkedSectionWriter W, try_fold (write_block_offset locs) w (block_starts (length locs)) =
    write_chunks w (le_bytes 8 <$> block_offsets (index_of locs))) as E1.
  { intros w0. unfold write_chunks, index_of. cbn [block_offsets]. rewrite !try_fold_fmap. apply try_fold_ext_in.
    intros w1 b [Hb _]%block_starts_in. unfold write_block_offset, block_offset_of, abs_at.
    destruct (lookup_lt_is_Some_2 locs b Hb) as [l Hlb]. rewrite Hlb. cbn [expect mbind io_result_bind].
    by rewrite (loc_absolute_offset ivb adj locs last Hplan Hl Hivb Hin b l Hlb). }
  assert (∀ w : ChunkedSectionWriter W, try_fold (write_relative_offset locs) w (imap pair locs) =
    write_chunks w (le_bytes 2 <$> relative_offsets (index_of locs))) as E2.
  { intros w0. unfold write_chunks, index_of. cbn [relative_offsets].
    replace (imap (λ i l, absolute l - abs_at locs (block_start i)) locs) with
      ((λ p, absolute p.2 - abs_at locs (block_start p.1)) <$> imap pair locs) by (by rewrite <- imap_fmap || by rewrite fmap_imap).
    rewrite !try_fold_fmap. apply try_fold_ext_in. intros w1 [i l] Hi. apply list_elem_of_lookup_1 in Hi as [j Hj].
    rewrite list_lookup_imap in Hj. destruct (locs !! j) as [l'|] eqn:Hlj; [|done]. cbn in Hj. injection Hj as -> ->.
    unfold write_relative_offset, relative_offset_of, block_offset_of. cbn [fst snd]. fold (block_start i).
    pose proof (relative_bounds ivb adj locs last Hplan Hl Hivb Hin i l Hlj) as Hrel. unfold abs_at in *.
    destruct (lookup_lt_is_Some_2 locs (block_start i)) as [b Hb]; [apply lookup_lt_Some in Hlj; pose proof (block_start_le i); lia|].
    rewrite Hb in *. cbn [expect mbind io_result_bind]. rewrite (loc_absolute_offset ivb adj locs last Hplan Hl Hivb Hin _ _ Hb).
    cbn [mbind io_result_bind]. rewrite (loc_absolute_offset ivb adj locs last Hplan Hl Hivb Hin _ _ Hlj). cbn [mbind io_result_bind]. rewrite (proj2 (checked_sub_Some _ _ _)) by (split; [reflexivity|lia]). cbn [mbind option_bind].
    by rewrite (proj2 (try_from_Some 16 _ _)) by (split; [reflexivity|lia]). }
  rewrite E1. destruct (write_chunks_spec w (le_bytes 8 <$> block_offsets (index_of locs)) Hok) as (w1 & -> & A1). cbn [mbind io_result_bind].
  rewrite E2. destruct (write_chunks_spec w1 (le_bytes 2 <$> relative_offsets (index_of locs))) as (w2 & -> & A2); [apply A1|].
  cbn [mbind io_result_bind].
  assert (∀ w : ChunkedSectionWriter W, try_fold (λ w l, write_bytes w (le_bytes 2 (degree_and_flags l))) w locs =
    write_chunks w (le_bytes 2 <$> index_degree_and_flags (index_of locs))) as E3.
  { intros w0. unfold write_chunks, index_of. cbn [index_degree_and_flags]. by rewrite !try_fold_fmap. }
  rewrite E3. destruct (write_chunks_spec w2 (le_bytes 2 <$> index_degree_and_flags (index_of locs))) as (w3 & -> & A3); [apply A2|].
  exists w3. split; [done|]. unfold index_bytes. eapply appends_trans; [exact A1|]. by eapply appends_trans.
Qed.

(** What the header must say about a planned adjacency section. *)
Record indexed_by (h : DiskAnnHeader) (ivb : Z) (adj : list (list Z)) (last : Z) : Prop := {
  ib_count : vector_count h = zlen adj;
  ib_u32 : vector_count h < 2 ^ 32;
  ib_index : sec_length (adjacency_index (sections h)) = div_ceil (zlen adj) 16 * 8 + zlen adj * 4;
  ib_pages : sec_length (adjacency (sections h)) = (last + 1) * DISKANN_PAGE_SIZE;
  ib_last : last + 1 < 2 ^ 32;
  ib_prefix : (if is_interleaved h then vector_record_size h else 0) = ivb;
  ib_degree : Forall (λ ns, zlen ns <= max_degree h) adj;
}.

Lemma planned_degrees ivb page off adj locs last m :
  planned ivb page off adj locs last → Forall (λ ns, zlen ns <= m) adj → Forall (λ l, degree l <= m) locs.
Proof. induction 1; intros Hf; [constructor|]. apply list.Forall_cons in Hf as [? ?]. constructor; [lia|auto]. Qed.

Lemma zlen_block_starts n : zlen (block_starts n) = div_ceil (Z.of_nat n) 16.
Proof. unfold zlen, block_starts. rewrite length_fmap, length_seq. pose proof (div_ceil_nonneg (Z.of_nat n) 16 ltac:(lia) ltac:(lia)). lia. Qed.

Lemma validate_planned h ivb adj locs last :
  planned ivb 0 0 adj locs last → lists_ok adj → 0 <= ivb → inside_pages locs → indexed_by h ivb adj last →
  validate_adjacency_index h (index_of locs) = Ok ().
Proof.
  intros Hplan Hl Hivb Hin [Hc H32 Hi Hp Hlast Hpre Hdeg]. unfold validate_adjacency_index.
  pose proof (planned_length _ _ _ _ _ _ Hplan) as El.
  assert (index_len (index_of locs) = length locs) as -> by (unfold index_len, index_of; cbn; by rewrite length_imap).
  pass by (unfold index_of; cbn [index_degree_and_flags block_offsets]; unfold zlen; rewrite !length_fmap; fold (zlen (block_starts (length locs)));
    rewrite zlen_block_starts, Hc; unfold zlen; rewrite El, Nat.eqb_refl, !Z.eqb_refl; done).
  rewrite Hp, Z.div_mul by done. pass. rewrite Hpre. change (Prev 0 0 0 DeltaVarint) with (prev_at locs 0).
  rewrite (validate_nodes_ok ivb adj locs last Hplan Hl Hivb Hin (max_degree h) ltac:(by eapply planned_degrees) 0 (length locs)) by lia.
  cbn [mbind io_result_bind Nat.add]. rewrite (last_page_spec ivb adj locs last Hplan).
  pass by (apply bool_decide_eq_true, checked_add_Some; lia). done.
Qed.

(** The three arrays of the section, cut back out of its bytes. *)
Lemma index_bytes_split ix nb n :
  Forall u64 (block_offsets ix) → Forall u16 (relative_offsets ix) → Forall u16 (index_degree_and_flags ix) →
  length (block_offsets ix) = nb → length (relative_offsets ix) = n →
  Index (le_val <$> chunks_exact 8 (take (nb * 8) (index_bytes ix)))
        (le_val <$> chunks_exact 2 (slice (nb * 8) (n * 2) (index_bytes ix)))
        (le_val <$> chunks_exact 2 (drop (nb * 8 + n * 2) (index_bytes ix))) = ix.
Proof.
  intros H1 H2 H3 <- <-. unfold index_bytes, slice. rewrite <- !length_le_list, <- drop_drop, take_app_length, !drop_app_length.
  rewrite take_app_length, !le_list_decode by (done || lia). by destruct ix.
Qed.

Lemma index_of_ok ivb adj locs last :
  planned ivb 0 0 adj locs last → lists_ok adj → 0 <= ivb → inside_pages locs →
  Forall u64 (block_offsets (index_of locs)) ∧ Forall u16 (relative_offsets (index_of locs)) ∧
  Forall u16 (index_degree_and_flags (index_of locs)).
Proof.
  intros Hplan Hl Hivb Hin. unfold index_of. cbn [block_offsets relative_offsets index_degree_and_flags]. split_and!.
  - apply Forall_fmap, Forall_true. intros i. by apply (abs_at_u64 ivb adj locs last).
  - apply Forall_lookup_2. intros i x Hx. rewrite list_lookup_imap in Hx. destruct (locs !! i) as [l|] eqn:Hli; [|done].
    injection Hx as <-. by apply (relative_bounds ivb adj locs last).
  - apply Forall_fmap, Forall_lookup_2. intros i l Hli. by apply (loc_bounds ivb adj locs last Hplan Hl Hivb Hin i).
Qed.

Lemma adjacency_index_serialized_len_total n :
  0 <= n < 2 ^ 32 → adjacency_index_serialized_len n = Ok (div_ceil n 16 * 8 + n * 4).
Proof.
  intros Hn. pose proof (div_ceil_spec n 16). unfold adjacency_index_serialized_len.
  change (Z.of_nat ADJACENCY_LOCATOR_BLOCK_NODES) with 16. unfold ADJACENCY_LOCATOR_BLOCK_BASE_SIZE, ADJACENCY_LOCATOR_SIZE.
  pass by (unfold_widths; lia). pass by (unfold_widths; lia).
  rewrite (proj2 (checked_add_Some 64 _ _ _)) by (split; [reflexivity|unfold_widths; lia]). done.
Qed.

Lemma decode_planned_index h ivb adj locs last :
  planned ivb 0 0 adj locs last → lists_ok adj → 0 <= ivb → inside_pages locs → indexed_by h ivb adj last →
  decode_adjacency_index (index_bytes (index_of locs)) h = Ok (index_of locs).
Proof.
  intros Hplan Hl Hivb Hin Hib. pose proof (validate_planned _ _ _ _ _ Hplan Hl Hivb Hin Hib) as Hval.
  destruct Hib as [Hc H32 Hi Hp Hlast Hpre Hdeg]. pose proof (planned_length _ _ _ _ _ _ Hplan) as El.
  assert (zlen adj = zlen locs) as Ezl by (unfold zlen; by rewrite El). rewrite Ezl in *. clear Ezl.
  pose proof (div_ceil_spec (zlen locs) 16). pose proof (zlen_nonneg locs).
  assert (length (block_offsets (index_of locs)) = Z.to_nat (div_ceil (zlen locs) 16)) as E1.
  { unfold index_of. cbn [block_offsets]. rewrite length_fmap. pose proof (zlen_block_starts (length locs)) as E. fold (zlen locs) in E. unfold zlen in E at 1. lia. }
  assert (length (relative_offsets (index_of locs)) = length locs) as E2 by (unfold index_of; cbn; by rewrite length_imap).
  assert (length (index_degree_and_flags (index_of locs)) = length locs) as E3 by (unfold index_of; cbn; by rewrite length_fmap).
  unfold decode_adjacency_index, section_len_usize. rewrite Hi, Hc. pass.
  rewrite adjacency_index_serialized_len_total by lia. cbn [mbind io_result_bind].
  pass by (apply Z.eqb_refl). pass by (unfold_widths; lia). pass by (unfold_widths; lia).
  assert (zlen (index_bytes (index_of locs)) = div_ceil (zlen locs) 16 * 8 + zlen locs * 4) as ->.
  { unfold index_bytes. rewrite !zlen_app. unfold zlen at 1 2 3. rewrite !length_le_list, E1, E2, E3. unfold zlen in *. lia. }
  pass by (apply Z.eqb_refl). pass by (unfold_widths; lia).
  destruct (index_of_ok _ _ _ _ Hplan Hl Hivb Hin) as (F1 & F2 & F3).
  pose proof (index_bytes_split (index_of locs) _ _ F1 F2 F3 E1 E2) as Esplit.
  replace (Z.to_nat (div_ceil (zlen locs) 16 * 8)) with (Z.to_nat (div_ceil (zlen locs) 16) * 8)%nat by lia.
  replace (Z.to_nat (zlen locs * 2)) with (length locs * 2)%nat by (unfold zlen; lia).
  replace (Z.to_nat (div_ceil (zlen locs) 16 * 8 + zlen locs * 2)) with (Z.to_nat (div_ceil (zlen locs) 16) * 8 + length locs * 2)%nat
    by (unfold zlen in *; lia).
  rewrite Esplit, Hval. done.
Qed.

(** ** Properties *)

Lemma planned_lookup ivb page off adj locs last i ns l :
  planned ivb page off adj locs last → lists_ok adj → 0 <= ivb → 0 <= off → 0 <= page →
  adj !! i = Some ns → locs !! i = Some l →
  ∃ n, plan_adjacency_list ns = Ok (encoding l, n) ∧ degree l = zlen ns ∧ ivb <= byte_offset l ∧
    byte_offset l + n <= DISKANN_PAGE_SIZE.
Proof.
  intros Hplan. revert i.
  induction Hplan as [page off|page off page' off' ns' adj l' locs last enc n Hp Hfit Hnext Hp32 Epage Eoffset Edeg Eenc Hu16 Hplan IH];
    intros i Hlists Hivb Hoff Hpage Hi Hl; [done|].
  apply list.Forall_cons in Hlists as [[Hns Hnl] Hlists].
  destruct (planned_list ns' enc n Hns Hnl Hp) as (bytes & _ & -> & _). pose proof (zlen_nonneg bytes).
  pose proof (next_place_spec _ _ _ _ _ Hnext ltac:(lia) Hoff) as Hplace.
  destruct i as [|i]; [|by apply (IH i); try done; lia].
  cbn in Hi, Hl. injection Hi as <-. injection Hl as <-. exists (zlen bytes). subst enc. split_and!; try done; lia.
Qed.

Lemma planned_nonempty_inside ivb page off adj locs last :
  planned ivb page off adj locs last → lists_ok adj → 0 <= ivb → 0 <= off → 0 <= page → Forall (λ ns, ns ≠ []) adj →
  inside_pages locs.
Proof.
  intros Hplan Hl Hivb Hoff Hpage Hne. apply Forall_lookup_2. intros i l Hli.
  destruct (lookup_lt_is_Some_2 adj i) as [ns Hns];
    [rewrite <- (planned_length _ _ _ _ _ _ Hplan); by eapply lookup_lt_Some|].
  destruct (planned_lookup _ _ _ _ _ _ i ns l Hplan Hl Hivb Hoff Hpage Hns Hli) as (n & Hp & _ & _ & Hfit).
  destruct (Forall_lookup_1 _ _ _ _ Hl Hns) as [Hok Hlen]. pose proof (Forall_lookup_1 _ _ _ _ Hne Hns) as Hne'. cbn in Hne'.
  destruct (planned_list ns _ n Hok Hlen Hp) as (bytes & _ & _ & _ & _ & Hsize).
  destruct ns as [|x ns]; [done|]. destruct (encoding l); [specialize (Hsize Hne'); lia|].
  unfold zlen in Hsize. cbn [length] in Hsize. lia.
Qed.

Lemma slice_of_middle (pre mid post : list Z) start n k :
  length pre = (start + k)%nat → (k + length mid ≤ n)%nat →
  drop k (slice start n (pre ++ mid ++ post)) = mid ++ take (n - k - length mid) post.
Proof.
  intros Hpre Hfit. unfold slice. rewrite skipn_firstn_comm, drop_drop, <- Hpre, drop_app_length, take_app.
  rewrite take_ge by lia. done.
Qed.

(** The page a reader fetches for a node. *)
Definition page_of (total : list Z) (l : AdjacencyLocator) : list Z :=
  slice (Z.to_nat (page_index l * DISKANN_PAGE_SIZE)) (Z.to_nat DISKANN_PAGE_SIZE) total.

(** The pages hold the records and zeros, and every node is readable from its
    page: the list at the locator, the vector in front of it. *)
Definition pages_hold (total : list Z) (layout : AdjacencyLayout) (adj : list (list Z)) (ivb : Z) (vectors : list (list Z)) : Prop :=
  total = pages_image 0 [] (locators layout) adj vectors ∧
  ∀ i ns vb, adj !! i = Some ns → vectors !! i = Some vb →
    ∃ l used, locators layout !! i = Some l ∧ Z.to_nat (degree l) = length ns ∧
      decode_adjacency_list (drop (Z.to_nat (byte_offset l)) (page_of total l)) (length ns) (encoding l) = Ok (ns, used) ∧
      slice (Z.to_nat (byte_offset l - ivb)) (Z.to_nat ivb) (page_of total l) = vb.

Lemma plan_adjacency_layout_planned adj ivb layout :
  plan_adjacency_layout adj ivb = Ok layout → planned ivb 0 0 adj (locators layout) (page_count layout - 1).
Proof.
  unfold plan_adjacency_layout. intros Hpa. bind_ok Hpa as pl Hpl. destruct pl as [locs last]. injection Hpa as <-.
  apply plan_loop_planned in Hpl; [|lia]. cbn. by rewrite Z.add_simpl_r.
Qed.

Section Properties.
Context `{LW : SeekWriteLaws W, IW : !InfallibleWrite W}.

Lemma write_adjacency_pages_spec (adj : list (list Z)) (ivb : Z) (layout : AdjacencyLayout)
    (vector_of : nat → io_result (option (list Z))) (vectors : list (list Z)) (w : ChunkedSectionWriter W) :
  plan_adjacency_layout adj ivb = Ok layout → lists_ok adj → 0 <= ivb → cw_ok w →
  length vectors = length adj → (∀ i vb, vectors !! i = Some vb → vector_bytes ivb (vector_of i) vb) →
  ∃ w' total, write_adjacency_pages vector_of adj layout w = Ok w' ∧ appends w w' total ∧
    zlen total = page_count layout * DISKANN_PAGE_SIZE ∧ pages_hold total layout adj ivb vectors.
Proof.
  intros Hpa Hl Hivb Hok Hlv Hvec. unfold plan_adjacency_layout in Hpa. bind_ok Hpa as pl Hpl. destruct pl as [locs last]. injection Hpa as <-.
  apply plan_loop_planned in Hpl; [|lia]. cbn [locators page_count].
  destruct (write_pages_spec vector_of ivb 0 [] adj locs last vectors w 0 Hpl Hl Hok) as (w' & total & E & Ha & Hlen & _ & Hrec & Him);
    [cbn; lia|done|done|done|].
  exists w', total. split; [exact E|]. split; [done|]. split; [rewrite Hlen; f_equal; lia|]. split; [exact Him|]. clear Him. intros i ns vb Hi Hv.
  destruct (lookup_lt_is_Some_2 locs i) as [l Hli]; [rewrite (planned_length _ _ _ _ _ _ Hpl); by eapply lookup_lt_Some|].
  destruct (planned_lookup _ _ _ _ _ _ i ns l Hpl Hl Hivb ltac:(cbn; lia) ltac:(lia) Hi Hli) as (n & Hp & Hd & Hb & Hfit).
  destruct (Hrec i ns l vb Hi Hli Hv) as (pre & bytes & post & -> & Henc & Hpos).
  destruct (Forall_lookup_1 _ _ _ _ Hl Hi) as [Hns Hnl].
  destruct (planned_list ns _ n Hns Hnl Hp) as (bytes' & Henc' & -> & _ & Hdec & _). rewrite Henc in Henc'. injection Henc' as <-.
  destruct (planned_bounds _ _ _ _ _ _ Hpl Hl Hivb ltac:(cbn; lia) ltac:(lia)) as [_ Hall].
  destruct (Forall_lookup_1 _ _ _ _ Hall Hli) as ([Hp0 _] & _). destruct (Hvec i vb Hv) as [Hvl _].
  unfold DISKANN_PAGE_SIZE, zlen in *. exists l, (length bytes). split_and!; [done|lia| |].
  - unfold page_of, DISKANN_PAGE_SIZE. rewrite app_assoc, slice_of_middle; [|rewrite length_app; lia|lia]. apply Hdec.
  - unfold page_of, DISKANN_PAGE_SIZE, slice at 1. rewrite slice_of_middle; [|lia|lia].
    rewrite take_app_le, take_ge by lia. done.
Qed.

(** Every page the planner counted is written, and every node is readable
    from the one page its locator names: the adjacency codec decodes, at the
    locator's byte offset, the node's own neighbours, and the bytes in front of
    it are the node's encoded vector when records are interleaved. *)
Theorem adjacency_pages_readable (adj : list (list Z)) (ivb : Z) (layout : AdjacencyLayout)
    (vector_of : nat → io_result (option (list Z))) (vectors : list (list Z)) (w : ChunkedSectionWriter W) :
  plan_adjacency_layout adj ivb = Ok layout → lists_ok adj → 0 <= ivb → cw_ok w →
  length vectors = length adj → (∀ i vb, vectors !! i = Some vb → vector_bytes ivb (vector_of i) vb) →
  ∃ w' total, write_adjacency_pages vector_of adj layout w = Ok w' ∧ appends w w' total ∧
    zlen total = page_count layout * DISKANN_PAGE_SIZE ∧
    pages_hold total layout adj ivb vectors.
Proof. apply write_adjacency_pages_spec. Qed.

(** The adjacency index the writer stores is accepted by the reader and
    gives back every planned locator, provided no record starts at the very end
    of its page. *)
Theorem adjacency_index_roundtrip (h : DiskAnnHeader) (adj : list (list Z)) (ivb : Z) (layout : AdjacencyLayout)
    (w : ChunkedSectionWriter W) :
  plan_adjacency_layout adj ivb = Ok layout → lists_ok adj → 0 <= ivb → cw_ok w → inside_pages (locators layout) →
  indexed_by h ivb adj (page_count layout - 1) →
  ∃ w' bytes ix, write_adjacency_index layout w = Ok w' ∧ appends w w' bytes ∧
    decode_adjacency_index bytes h = Ok ix ∧ index_len ix = length adj ∧ ∀ i, locator ix i = locators layout !! i.
Proof.
  intros Hpa Hl Hivb Hok Hin Hib. unfold plan_adjacency_layout in Hpa. bind_ok Hpa as pl Hpl. destruct pl as [locs last]. injection Hpa as <-.
  apply plan_loop_planned in Hpl; [|lia]. cbn [locators page_count] in *. rewrite Z.add_simpl_r in Hib.
  destruct (write_adjacency_index_spec ivb adj locs last (last + 1) w Hpl Hl Hivb Hin Hok) as (w' & E & Ha).
  exists w', (index_bytes (index_of locs)), (index_of locs). split_and!; [done|done| | |].
  - by eapply decode_planned_index.
  - unfold index_len, index_of. cbn. rewrite length_imap. by apply (planned_length _ _ _ _ _ _ Hpl).
  - intros i. by apply (locator_index_of ivb adj locs last).
Qed.

End Properties.

(** A complete graph of three nodes, with eight-byte interleaved vectors. *)
Definition demo_graph : list (list Z) := [[1; 2]; [0; 2]; [0; 1]].
Definition demo_vectors : list (list Z) := replicate 8 <$> [1; 2; 3].
Definition demo_vector_of (i : nat) : io_result (option (list Z)) := Ok (demo_vectors !! i).
Definition demo_layout : AdjacencyLayout :=
  match plan_adjacency_layout demo_graph 8 with Ok l => l | _ => Layout [] 0 end.
Definition interleaved_params : DiskAnnBuildParams :=
  let p := default_build_params in
  BuildParams (bp_max_degree p) (bp_build_search_list_size p) (bp_alpha p) (bp_seed p) (bp_memory_budget_bytes p)
    Interleaved EncF32 (bp_build_distance p).
Definition demo_graph_header : DiskAnnHeader :=
  match for_layout_with_adjacency_pages_and_pq_bits 2 3 0 1 8 L2 interleaved_params 40 1 with Ok h => h | _ => demo_header end.

Lemma demo_graph_ok : lists_ok demo_graph.
Proof. repeat constructor; vm_compute; (done || by repeat constructor). Qed.

Lemma adjacency_pages_readable_witness :
  ∃ w' total, write_adjacency_pages demo_vector_of demo_graph demo_layout (chunked_new (pos_writer_new [])) = Ok w' ∧
    appends (chunked_new (pos_writer_new [])) w' total ∧
    zlen total = page_count demo_layout * DISKANN_PAGE_SIZE ∧
    pages_hold total demo_layout demo_graph 8 demo_vectors.
Proof.
  refine (adjacency_pages_readable demo_graph 8 demo_layout demo_vector_of demo_vectors (chunked_new (pos_writer_new []))
    _ demo_graph_ok _ _ _ _); [reflexivity|lia|by vm_compute|reflexivity|].
  intros i vb Hi. unfold demo_vector_of. rewrite Hi. split; [|by right].
  by do 3 (destruct i as [|i]; [injection Hi as <-; reflexivity|]).
Defined.

Lemma adjacency_index_roundtrip_witness :
  ∃ w' bytes ix, write_adjacency_index demo_layout (chunked_new (pos_writer_new [])) = Ok w' ∧
    appends (chunked_new (pos_writer_new [])) w' bytes ∧
    decode_adjacency_index bytes demo_graph_header = Ok ix ∧ index_len ix = length demo_graph ∧
    ∀ i, locator ix i = locators demo_layout !! i.
Proof.
  refine (adjacency_index_roundtrip demo_graph_header demo_graph 8 demo_layout (chunked_new (pos_writer_new []))
    _ demo_graph_ok _ _ _ _); [reflexivity|lia|by vm_compute|by repeat constructor|].
  split; vm_compute; (reflexivity || by repeat constructor).
Defined.

(** ** A record at the end of a page *)

(** Two nodes of 512 binary32 components without neighbours fill a page exactly. *)
Definition page_end_graph : list (list Z) := [[]; []].
Definition page_end_layout : AdjacencyLayout :=
  match plan_adjacency_layout page_end_graph 2048 with Ok l => l | _ => Layout [] 0 end.
Definition page_end_header : io_result DiskAnnHeader :=
  for_layout_with_adjacency_pages_and_pq_bits 512 2 0 1 8 L2 interleaved_params 32 1.
Definition page_end_index : io_result (list Z) :=
  w ← write_adjacency_index page_end_layout (chunked_new (pos_writer_new []));
  out ← finish w;
  Ok (written out).

