(* ===== verification/PageValidation.v ===== *)
(** Validation of an adjacency page when it is first read:
    [validate_adjacency_page_payload] and [validate_raw_vector_bytes] of
    [core/src/diskann_io.rs].

    Finiteness of a binary16 value is the [half] crate's and a parameter. *)

From S2P Require Import Prelude SeekIo IndexIoUtil F32 Adjacency DiskannUtil DiskannHeader SectionWriter AdjacencyLayout.

Section Validation.
Context (f16_is_finite : Z → bool).

Definition validate_raw_vector_bytes (vector : list Z) (encoding : DiskAnnRawVectorEncoding) : io_result unit :=
  let has_non_finite :=
    match encoding with
    | EncF32 => existsb (λ value, negb (f32_is_finite (le_val value))) (chunks_exact 4 vector)
    | EncF16 => existsb (λ value, negb (f16_is_finite (le_val value))) (chunks_exact 2 vector)
    end in
  ensure_data (negb (negb (zlen vector mod element_size encoding =? 0) || has_non_finite))
    "DiskANN interleaved raw vector contains a non-finite or malformed component".

Definition check_neighbor (vector_count : Z) (source : nat) (previous : option Z) (neighbor : Z) : io_result (option Z) :=
  _ ← ensure_data (negb (vector_count <=? neighbor)) "DiskANN adjacency neighbor is out of range";
  _ ← ensure_data (negb (neighbor =? Z.of_nat source)) "DiskANN adjacency contains a self edge";
  _ ← ensure_data (negb (match previous with Some previous => neighbor <=? previous | None => false end))
        "DiskANN adjacency neighbors must be strictly increasing";
  Ok (Some neighbor).

(** The body for one node; the state is [used_end]. *)
Definition validate_page_record (h : DiskAnnHeader) (ix : AdjacencyIndex) (page : list Z) (first : nat) (used_end : Z) (node : nat) :
    io_result Z :=
  let record_prefix := if is_interleaved h then vector_record_size h else 0 in
  let source := (first + node)%nat in
  l ← or_data (locator ix source) "DiskANN adjacency index is truncated";
  let start := byte_offset l in
  record_start ← or_data (checked_sub start record_prefix) "DiskANN interleaved vector offset underflows";
  _ ← ensure_data (record_start =? used_end) "DiskANN adjacency page records must be contiguous";
  _ ← (if is_interleaved h then
         vector ← or_data (get_slice (Z.to_nat record_start) (Z.to_nat (start - record_start)) page)
                    "DiskANN interleaved raw vector is truncated";
         encoding ← expect (encoding_from_code (raw_vector_encoding h));
         validate_raw_vector_bytes vector encoding
       else Ok ());
  bytes ← or_data (get_slice (Z.to_nat start) (length page - Z.to_nat start) page) "DiskANN adjacency list is truncated";
  '(neighbors, consumed) ← decode_adjacency_list bytes (Z.to_nat (degree l)) (encoding l);
  list_end ← or_data (checked_add 64 start (Z.of_nat consumed)) "DiskANN adjacency locator range overflows";
  _ ← match locator ix (source + 1) with
      | Some next =>
          if page_index next =? page_index l then
            ensure_data (bool_decide (checked_add 64 list_end record_prefix = Some (byte_offset next)))
              "DiskANN adjacency locator ranges must be contiguous"
          else Ok ()
      | None => Ok ()
      end;
  _ ← try_fold (check_neighbor (vector_count h) source) None neighbors;
  raw_len ← or_data (checked_mul 64 (zlen neighbors) 4) "DiskANN adjacency list size overflows usize";
  delta_len ← expect (adjacency_delta_varint_len neighbors);
  let minimal_encoding :=
    if (match neighbors with [] => true | _ => false end) || (delta_len <? raw_len) then DeltaVarint else RawU32 in
  _ ← ensure_data (bool_decide (encoding l = minimal_encoding)) "DiskANN adjacency list does not use its minimal encoding";
  Ok list_end.

Definition validate_adjacency_page_payload (h : DiskAnnHeader) (ix : AdjacencyIndex) (page_idx : Z) (page : list Z) :
    io_result unit :=
  _ ← ensure_data (zlen page =? DISKANN_PAGE_SIZE) "DiskANN adjacency page is truncated";
  first ← partition_point ix (λ l, page_index l <? page_idx);
  stop ← partition_point ix (λ l, page_index l <=? page_idx);
  _ ← ensure_data (negb (first =? stop)%nat) "DiskANN adjacency page has no indexed nodes";
  used_end ← try_fold (validate_page_record h ix page first) 0 (seq 0 (stop - first));
  if zlen page <? used_end then Panic
  else ensure_data (forallb (λ byte, byte =? 0) (drop (Z.to_nat used_end) page)) "DiskANN adjacency page tail must be zero".

(** ** What a valid page is *)

(** The record of one node at [start]: vector, then list. *)
Record page_record (h : DiskAnnHeader) (source : nat) (l : AdjacencyLocator) (start : Z) (vb bytes : list Z) (ns : list Z) : Prop := {
  pr_offset : byte_offset l = start + zlen vb;
  pr_prefix : zlen vb = if is_interleaved h then vector_record_size h else 0;
  pr_vector : is_interleaved h = true → ∃ e, encoding_from_code (raw_vector_encoding h) = Some e ∧ validate_raw_vector_bytes vb e = Ok ();
  pr_degree : degree l = zlen ns;
  pr_list : encode_adjacency_list ns = Ok (encoding l, bytes);
  pr_sorted : neighbors_ok ns;
  pr_range : Forall (λ n, n < vector_count h) ns;
  pr_no_self : Z.of_nat source ∉ ns;
}.

(** The records of [count] consecutive nodes, from [start] on. *)
Inductive page_records (h : DiskAnnHeader) (ix : AdjacencyIndex) : nat → Z → nat → list Z → Prop :=
  | records_nil source start : page_records h ix source start 0 []
  | records_cons source start count l vb bytes ns content :
      locator ix source = Some l → page_record h source l start vb bytes ns →
      page_records h ix (S source) (start + zlen (vb ++ bytes)) count content →
      page_records h ix source start (S count) (vb ++ bytes ++ content).

End Validation.

(** ** Validated indexes *)

(** Pages never go back from node to node. *)
Lemma validate_nodes_monotone ix pc prefix md prev first count prev' :
  try_fold (validate_node ix pc prefix md) prev (seq first count) = Ok prev' →
  (∀ i, (i < count)%nat → ∃ l, locator ix (first + i) = Some l ∧ prev_page prev <= page_index l < pc) ∧
  ∀ i j li lj, (first ≤ i)%nat → (i ≤ j)%nat → (j < first + count)%nat → locator ix i = Some li → locator ix j = Some lj →
    page_index li <= page_index lj.
Proof.
  revert prev first. induction count as [|count IH]; intros prev first H; [split; intros; lia|].
  cbn [seq try_fold] in H. bind_ok H as p Hp. destruct (IH _ _ H) as [IH1 IH2].
  assert (∃ l, locator ix first = Some l ∧ prev_page p = page_index l ∧ prev_page prev <= page_index l < pc) as (l & Hl & Ep & Hle).
  { clear -Hp. unfold validate_node in Hp. bind_ok Hp as rel Hrel. guard_ok Hp as G1. bind_ok Hp as l Hl. apply ok_or_Ok in Hl.
    guard_ok Hp as G2. guard_ok Hp as G3. guard_ok Hp as G4. guard_ok Hp as G5. guard_ok Hp as G6. bind_ok Hp as u1 Hu1. guard_ok Hp as G7.
    bind_ok Hp as u2 Hu2. injection Hp as <-. exists l. cbn. split_and!; [done|done|lia..]. }
  assert (∀ i, (i < S count)%nat → ∃ l', locator ix (first + i) = Some l' ∧ prev_page prev <= page_index l' < pc ∧ page_index l <= page_index l') as Hall.
  { intros [|i] Hi; [exists l; rewrite Nat.add_0_r; split_and!; done || lia|].
    destruct (IH1 i) as (l' & Hl' & Hp'); [lia|]. exists l'. rewrite <- Nat.add_succ_comm. split_and!; done || lia. }
  split; [intros i Hi; destruct (Hall i Hi) as (l' & ? & ? & _); by exists l'|].
  intros i j li lj Hi Hij Hj Hli Hlj. destruct (decide (i = first)) as [->|].
  - destruct (Hall (j - first)%nat) as (l' & Hl' & _ & Hle'); [lia|]. replace (first + (j - first))%nat with j in Hl' by lia. by simplify_eq.
  - apply (IH2 i j); done || lia.
Qed.

Lemma validated_index h ix :
  validate_adjacency_index h ix = Ok () →
  (∀ i, is_Some (locator ix i) ↔ (i < index_len ix)%nat) ∧
  (∀ i j li lj, (i ≤ j)%nat → locator ix i = Some li → locator ix j = Some lj → page_index li <= page_index lj).
Proof.
  intros H. unfold validate_adjacency_index in H. guard_ok H as G. bind_ok H as pc Hpc. bind_ok H as prev Hprev. clear H.
  apply validate_nodes_monotone in Hprev as [Hsome Hmono]. cbn [prev_page] in Hsome.
  assert (∀ i, is_Some (locator ix i) ↔ (i < index_len ix)%nat) as Hiff.
  { intros i. split; [|intros Hi; destruct (Hsome i Hi) as (l & ? & _); by exists l].
    intros [l Hl]. unfold locator in Hl. destruct (relative_offsets ix !! i) eqn:E; [|done]. by eapply lookup_lt_Some. }
  split; [done|]. intros i j li lj Hij Hi Hj. apply (Hmono i j); try done; [lia|]. cbn. apply Hiff. by exists lj.
Qed.

(** ** The nodes of a page *)

Lemma partition_loop_total fuel ix pred left right :
  (∀ i, is_Some (locator ix i) ↔ (i < index_len ix)%nat) → (left ≤ right ≤ index_len ix)%nat →
  ∃ n, partition_point_loop fuel ix pred left right = Ok n ∧ (n ≤ index_len ix)%nat.
Proof.
  intros Hsome. revert left right. induction fuel as [|fuel IH]; intros left right Hr; cbn [partition_point_loop]; [exists left; split; [done|lia]|].
  destruct (Nat.ltb_spec left right); [|exists left; split; [done|lia]].
  pose proof (Nat.div_mod_eq (right - left) 2). pose proof (Nat.mod_upper_bound (right - left) 2).
  set (m := (left + (right - left) / 2)%nat). destruct (proj2 (Hsome m)) as [l Hl]; [unfold m; lia|]. rewrite Hl. cbn [expect mbind io_result_bind].
  destruct (pred l); apply IH; unfold m; lia.
Qed.

Lemma page_range h ix p :
  validate_adjacency_index h ix = Ok () →
  ∃ first stop, partition_point ix (λ l, page_index l <? p) = Ok first ∧ partition_point ix (λ l, page_index l <=? p) = Ok stop ∧
    (first ≤ stop ≤ index_len ix)%nat ∧ ∀ i l, locator ix i = Some l → page_index l = p ↔ (first ≤ i < stop)%nat.
Proof.
  intros Hv. destruct (validated_index h ix Hv) as [Hsome Hmono]. unfold partition_point.
  destruct (partition_loop_total (S (index_len ix)) ix (λ l, page_index l <? p) 0 (index_len ix) Hsome) as (first & E1 & L1); [lia|].
  destruct (partition_loop_total (S (index_len ix)) ix (λ l, page_index l <=? p) 0 (index_len ix) Hsome) as (stop & E2 & L2); [lia|].
  exists first, stop. split; [done|]. split; [done|].
  assert (∀ j lj, (index_len ix ≤ j)%nat → locator ix j = Some lj → False) as Hout.
  { intros j lj Hj Hlj. assert (j < index_len ix)%nat by (apply Hsome; by exists lj). lia. }
  assert (∀ i l, locator ix i = Some l → (page_index l <? p) = true ↔ (i < first)%nat) as H1.
  { refine (partition_point_loop_spec _ ix _ 0 (index_len ix) first _ _ _ _ _ E1); [lia|lia| |intros; lia|intros; exfalso; eauto].
    intros a b la lb Hab Ha Hb Hp. pose proof (Hmono a b la lb Hab Ha Hb). lia. }
  assert (∀ i l, locator ix i = Some l → (page_index l <=? p) = true ↔ (i < stop)%nat) as H2.
  { refine (partition_point_loop_spec _ ix _ 0 (index_len ix) stop _ _ _ _ _ E2); [lia|lia| |intros; lia|intros; exfalso; eauto].
    intros a b la lb Hab Ha Hb Hp. pose proof (Hmono a b la lb Hab Ha Hb). lia. }
  split; [|intros i l Hl; specialize (H1 i l Hl); specialize (H2 i l Hl); lia]. split; [|done].
  destruct (decide (first ≤ stop)%nat) as [|Hlt]; [done|]. destruct (proj2 (Hsome stop)) as [l Hl]; [lia|].
  specialize (H1 stop l Hl). specialize (H2 stop l Hl). lia.
Qed.

(** ** One list *)

Definition minimal_encoding_of (neighbors : list Z) (delta_len : Z) : AdjacencyListEncoding :=
  if (match neighbors with [] => true | _ => false end) || (delta_len <? zlen neighbors * 4) then DeltaVarint else RawU32.

Lemma decode_list_sound bytes d enc ns consumed :
  bytes_ok bytes → zlen bytes < 2 ^ 32 → Z.of_nat d < 2 ^ 32 → decode_adjacency_list bytes d enc = Ok (ns, consumed) →
  length ns = d ∧ (consumed ≤ length bytes)%nat ∧ Forall u32 ns ∧
  take consumed bytes = match enc with DeltaVarint => delta_list_bytes 0 ns | RawU32 => concat (le_bytes 4 <$> ns) end.
Proof.
  intros Hb Hlen Hd H. destruct enc; cbn [decode_adjacency_list] in H.
  - apply decode_deltas_canonical in H as (? & ? & ? & _ & Hs); [|done|lia|lia]. split_and!; [done|lia|done|].
    rewrite <- Hs. unfold slice. by rewrite drop_0, Nat.sub_0_r.
  - bind_ok H as n Hn. apply ok_or_Ok, checked_mul_Some in Hn as [-> _]. bind_ok H as enc Henc. apply ok_or_Ok, get_slice_Some in Henc as [Hle ->].
    injection H as <- <-. assert (length (slice 0 (Z.to_nat (Z.of_nat d * 4)) bytes) = (d * 4)%nat) as El by (rewrite length_slice; lia).
    assert (bytes_ok (slice 0 (Z.to_nat (Z.of_nat d * 4)) bytes)) as Hbs by by apply Forall_slice.
    assert (take (Z.to_nat (Z.of_nat d * 4)) bytes = slice 0 (Z.to_nat (Z.of_nat d * 4)) bytes) as -> by (unfold slice; by rewrite drop_0).
    destruct (concat_split 4 d _ El) as (ls & E & Hls & Hld). rewrite E in *. rewrite chunks_exact_concat by (done || lia).
    assert (Forall (λ l, bytes_ok l ∧ length l = 4%nat) ls) as Hok.
    { clear -Hls Hbs. induction Hls as [|l ls Hl Hls IH]; [constructor|]. cbn in Hbs. apply Forall_app in Hbs as [? ?]. constructor; [done|auto]. }
    split_and!; [by rewrite length_fmap|lia| |].
    + apply Forall_fmap. eapply Forall_impl; [exact Hok|]. intros l [Hl H4]. cbn. pose proof (le_val_bound l Hl) as B.
      unfold zlen in B. rewrite H4 in B. exact B.
    + rewrite <- list_fmap_compose. f_equal. clear -Hok. induction Hok as [|l ls [Hl H4] _ IH]; [done|]. rewrite fmap_cons, <- IH. f_equal.
      cbn. rewrite <- H4. symmetry. by apply le_bytes_le_val.
Qed.

Lemma check_neighbors_spec count source prev ns out :
  try_fold (check_neighbor count source) prev ns = Ok out →
  Forall (λ n, n < count) ns ∧ Z.of_nat source ∉ ns ∧ Sorted Z.lt (match prev with Some p => p :: ns | None => ns end).
Proof.
  revert prev. induction ns as [|n ns IH]; intros prev H; [split_and!; [constructor|set_solver|destruct prev; repeat constructor]|].
  cbn [try_fold] in H. unfold check_neighbor at 1 in H. bind_ok H as p Hp. guard_ok Hp as G1. guard_ok Hp as G2. guard_ok Hp as G3.
  injection Hp as <-. destruct (IH _ H) as (F & Hni & Hs). split_and!.
  - constructor; [lia|done].
  - apply not_elem_of_cons. split; [lia|done].
  - destruct prev as [p|]; [|done]. constructor; [done|]. constructor. lia.
Qed.

Lemma check_neighbors_ok count source prev ns :
  Forall (λ n, n < count) ns → Z.of_nat source ∉ ns → Sorted Z.lt (match prev with Some p => p :: ns | None => ns end) →
  ∃ out, try_fold (check_neighbor count source) prev ns = Ok out.
Proof.
  revert prev. induction ns as [|n ns IH]; intros prev Hf Hni Hs; [by eexists|]. apply list.Forall_cons in Hf as [Hn Hf].
  apply not_elem_of_cons in Hni as [Hne Hni]. cbn [try_fold].
  assert (match prev with Some previous => n <=? previous | None => false end = false ∧ Sorted Z.lt (n :: ns)) as [Ep Hs'].
  { destruct prev as [p|]; [|done]. apply Sorted_inv in Hs as [Hs Hd]. inversion Hd; subst. split; [lia|done]. }
  assert (check_neighbor count source prev n = Ok (Some n)) as ->; [|by apply IH].
  unfold check_neighbor. pass. pass. rewrite Ep. done.
Qed.

Lemma encode_minimal ns :
  neighbors_ok ns → zlen ns < 2 ^ 32 →
  let enc := minimal_encoding_of ns (zlen (delta_list_bytes 0 ns)) in
  encode_adjacency_list ns =
    Ok (enc, match enc with DeltaVarint => delta_list_bytes 0 ns | RawU32 => concat (le_bytes 4 <$> ns) end).
Proof.
  intros Hok Hlen. cbn zeta. pose proof (zlen_nonneg ns). unfold encode_adjacency_list, plan_adjacency_list.
  rewrite (proj2 (checked_mul_Some 64 _ _ _)) by (split; [reflexivity|unfold_widths; lia]). cbn [or_input ok_or mbind io_result_bind].
  rewrite delta_len_eq by (done || lia). cbn [or_input ok_or mbind io_result_bind]. rewrite encode_deltas_eq by by apply neighbors_sorted_from_0.
  unfold minimal_encoding_of. by destruct (_ || _).
Qed.

Section Records.
Context (f16_is_finite : Z → bool) (h : DiskAnnHeader) (ix : AdjacencyIndex) (page : list Z) (first : nat).
Context (Hlen : zlen page = DISKANN_PAGE_SIZE).
Let prefix := if is_interleaved h then vector_record_size h else 0.

Lemma record_accepted used node l vb bytes ns pre post :
  page = pre ++ vb ++ bytes ++ post → zlen pre = used → locator ix (first + node) = Some l →
  page_record f16_is_finite h (first + node) l used vb bytes ns →
  match locator ix (first + node + 1) with
  | Some next => page_index next = page_index l → byte_offset next = used + zlen (vb ++ bytes) + prefix
  | None => True
  end →
  validate_page_record f16_is_finite h ix page first used node = Ok (used + zlen (vb ++ bytes)).
Proof.
  intros Epage Hpre Hl [Ho Hp Hv Hd He Hs Hr Hn] Hnext. unfold validate_page_record. fold prefix in Hp |- *.
  assert (zlen pre + zlen vb + zlen bytes + zlen post = 4096) as Hsum by (rewrite Epage, !zlen_app in Hlen; unfold DISKANN_PAGE_SIZE in Hlen; lia).
  pose proof (zlen_nonneg pre). pose proof (zlen_nonneg vb). pose proof (zlen_nonneg bytes). pose proof (zlen_nonneg post). pose proof (zlen_nonneg ns).
  assert (zlen ns < 2 ^ 32) as Hns.
  { rewrite <- Hd. unfold degree. rewrite degree_mask, land_ones_mod by lia. pose proof (Z.mod_pos_bound (degree_and_flags l) (2 ^ 15) ltac:(lia)). lia. }
  pose proof (encode_minimal ns Hs Hns) as Hmin. cbn zeta in Hmin. rewrite He in Hmin.
  destruct (encode_adjacency_list_spec ns Hs ltac:(lia)) as (e' & b' & He' & Hplan & _ & _). rewrite He in He'. injection He' as <- <-.
  destruct (planned_list ns (encoding l) (zlen bytes) Hs Hns Hplan) as (b' & He' & _ & _ & Hdec & _). rewrite He in He'. injection He' as <-.
  rewrite Hl. cbn [or_data ok_or mbind io_result_bind].
  rewrite (proj2 (checked_sub_Some _ _ _)) by (split; [reflexivity|lia]). cbn [or_data ok_or mbind io_result_bind]. pass.
  assert ((if is_interleaved h then
      vector ← or_data (get_slice (Z.to_nat (byte_offset l - prefix)) (Z.to_nat (byte_offset l - (byte_offset l - prefix))) page)
        "DiskANN interleaved raw vector is truncated";
      encoding ← expect (encoding_from_code (raw_vector_encoding h)); validate_raw_vector_bytes f16_is_finite vector encoding
    else Ok ()) = Ok ()) as ->.
  { destruct (is_interleaved h) eqn:Ei; [|done]. destruct (Hv eq_refl) as (e & Ee & Hve). unfold get_slice.
    rewrite decide_True by (unfold zlen, DISKANN_PAGE_SIZE in *; lia). cbn [or_data ok_or mbind io_result_bind]. rewrite Ee. cbn [expect mbind io_result_bind].
    replace (slice _ _ page) with vb; [done|]. rewrite Epage.
    replace (Z.to_nat (byte_offset l - prefix)) with (length pre) by (unfold zlen in *; lia). rewrite slice_app_r by done.
    replace (Z.to_nat (byte_offset l - (byte_offset l - prefix))) with (length vb) by (unfold zlen in *; lia). by rewrite take_app_length. }
  cbn [mbind io_result_bind]. unfold get_slice. rewrite decide_True by (unfold zlen, DISKANN_PAGE_SIZE in *; lia). cbn [or_data ok_or mbind io_result_bind].
  assert (slice (Z.to_nat (byte_offset l)) (length page - Z.to_nat (byte_offset l)) page = bytes ++ post) as ->.
  { rewrite Epage, app_assoc. rewrite slice_app_r by (rewrite length_app; unfold zlen in *; lia). apply take_ge.
    rewrite !length_app. unfold zlen in *. lia. }
  replace (Z.to_nat (degree l)) with (length ns) by (unfold zlen in *; lia). rewrite Hdec. cbn [mbind io_result_bind].
  pass by (unfold_widths; unfold zlen in *; lia). fold (zlen bytes).
  assert (match locator ix (first + node + 1) with
    | Some next => if page_index next =? page_index l then
        ensure_data (bool_decide (checked_add 64 (byte_offset l + zlen bytes) prefix = Some (byte_offset next)))
          "DiskANN adjacency locator ranges must be contiguous" else Ok ()
    | None => Ok () end = Ok ()) as ->.
  { destruct (locator ix (first + node + 1)) as [next|]; [|done]. destruct (Z.eqb_spec (page_index next) (page_index l)) as [E|]; [|done].
    specialize (Hnext E). rewrite bool_decide_true; [done|]. apply checked_add_Some. rewrite zlen_app in Hnext. unfold_widths. lia. }
  cbn [mbind io_result_bind]. destruct (check_neighbors_ok (vector_count h) (first + node) None ns Hr Hn (proj2 Hs)) as [out ->]. cbn [mbind io_result_bind].
  pass. rewrite delta_len_eq by (done || lia). cbn [expect mbind io_result_bind].
  fold (minimal_encoding_of ns (zlen (delta_list_bytes 0 ns))). rewrite bool_decide_true by congruence. cbn [ensure_data guard_ok mbind io_result_bind].
  f_equal. rewrite zlen_app. lia.
Qed.

Lemma locator_offset source l : locator ix source = Some l → 0 <= byte_offset l < DISKANN_PAGE_SIZE.
Proof.
  unfold locator. intros H. repeat (apply bind_Some in H as (? & ? & H)). injection H as <-. cbn.
  match goal with E : try_from 16 _ = Some _ |- _ => apply try_from_Some in E as [-> _] end. by apply Z.mod_pos_bound.
Qed.

Lemma record_sound used node stop :
  0 <= used → 0 <= vector_record_size h → bytes_ok page → validate_page_record f16_is_finite h ix page first used node = Ok stop →
  ∃ l vb bytes ns, locator ix (first + node) = Some l ∧ page_record f16_is_finite h (first + node) l used vb bytes ns ∧
    stop = used + zlen (vb ++ bytes) ∧ slice (Z.to_nat used) (length (vb ++ bytes)) page = vb ++ bytes ∧ stop <= DISKANN_PAGE_SIZE.
Proof.
  intros Hu Hrec Hb H. unfold validate_page_record in H. fold prefix in H.
  assert (0 <= prefix) as Hp0 by (unfold prefix; destruct (is_interleaved h); lia).
  bind_ok H as l Hl. apply ok_or_Ok in Hl. pose proof (locator_offset _ _ Hl) as Hlo. unfold DISKANN_PAGE_SIZE in Hlo, Hlen.
  bind_ok H as rs Hrs. apply ok_or_Ok, checked_sub_Some in Hrs as [-> Hsub]. guard_ok H as Hcont.
  bind_ok H as u1 Hvec. destruct u1. bind_ok H as bs Hbs. apply ok_or_Ok, get_slice_Some in Hbs as [Hle ->].
  set (vb := slice (Z.to_nat used) (Z.to_nat prefix) page) in *. set (bs := slice (Z.to_nat (byte_offset l)) _ page) in *.
  assert (zlen vb = prefix) as Evb by (unfold zlen, vb in *; rewrite length_slice; lia).
  assert (length bs = (length page - Z.to_nat (byte_offset l))%nat) as Ebs by (unfold bs; rewrite length_slice; lia).
  bind_ok H as nc Hdec. destruct nc as [ns consumed].
  assert (0 <= degree l < 2 ^ 15) as Hdeg by (unfold degree; rewrite degree_mask, land_ones_mod by lia; apply Z.mod_pos_bound; lia).
  apply decode_list_sound in Hdec as (Hn & Hcons & Hu32 & Htake); [|by apply Forall_slice|unfold zlen in *; lia|lia].
  bind_ok H as le Hle'. apply ok_or_Ok, checked_add_Some in Hle' as [-> _]. bind_ok H as u2 Hnext. bind_ok H as out Hchk.
  apply check_neighbors_spec in Hchk as (Hr & Hns & Hs). assert (neighbors_ok ns) as Hok by by split.
  bind_ok H as rl Hrl. apply ok_or_Ok, checked_mul_Some in Hrl as [-> _]. bind_ok H as dl Hdl. apply expect_Ok in Hdl.
  assert (zlen ns < 2 ^ 32) as Hzn by (unfold zlen; lia). rewrite delta_len_eq in Hdl by (done || lia). injection Hdl as <-.
  guard_ok H as Hmin. apply bool_decide_eq_true in Hmin. fold (minimal_encoding_of ns (zlen (delta_list_bytes 0 ns))) in Hmin. injection H as <-.
  assert (slice (Z.to_nat used) (length vb + consumed) page = vb ++ take consumed bs) as Hsl.
  { unfold vb, bs, slice. rewrite take_take, Nat.min_l by lia. rewrite <- (take_take_drop (drop (Z.to_nat used) page)), drop_drop.
    rewrite length_take, length_drop. do 3 f_equal; unfold zlen in *; lia. }
  exists l, vb, (take consumed bs), ns. assert (length (take consumed bs) = consumed) as Etk by (rewrite length_take; lia).
  assert (zlen (vb ++ take consumed bs) = zlen vb + Z.of_nat consumed) as Ezl by (rewrite zlen_app; unfold zlen; lia).
  split_and!; [done| |lia|by rewrite length_app, Etk|unfold DISKANN_PAGE_SIZE, zlen in *; lia].
  split; [lia|by rewrite Evb| |unfold zlen; lia| |done|done|done].
  - intros Hi. rewrite Hi in Hvec. bind_ok Hvec as v Hv. apply ok_or_Ok, get_slice_Some in Hv as [_ ->].
    bind_ok Hvec as e He. apply expect_Ok in He. exists e. split; [done|].
    replace (byte_offset l - (byte_offset l - prefix)) with prefix in Hvec by lia. replace (byte_offset l - prefix) with used in Hvec by lia. exact Hvec.
  - pose proof (encode_minimal ns Hok Hzn) as Em. cbn zeta in Em. by rewrite Em, <- Hmin, Htake.
Qed.
End Records.

(** ** A whole page *)

Section Page.
Context (f16_is_finite : Z → bool) (h : DiskAnnHeader) (ix : AdjacencyIndex).

Lemma records_locators source start count content i :
  page_records f16_is_finite h ix source start count content → (i < count)%nat → is_Some (locator ix (source + i)).
Proof.
  intros H. revert i. induction H as [|source start count l vb bytes ns content Hl Hr Hrest IH]; intros i Hi; [lia|].
  destruct i as [|i]; [rewrite Nat.add_0_r; by exists l|]. rewrite <- Nat.add_succ_comm. apply IH. lia.
Qed.

Lemma records_accepted page p first stop node count used content pre post :
  zlen page = DISKANN_PAGE_SIZE → page = pre ++ content ++ post → zlen pre = used →
  (∀ i l, locator ix i = Some l → page_index l = p ↔ (first ≤ i < stop)%nat) → (first + node + count = stop)%nat →
  page_records f16_is_finite h ix (first + node) used count content →
  try_fold (validate_page_record f16_is_finite h ix page first) used (seq node count) = Ok (used + zlen content).
Proof.
  intros Hlen Epage Hpre Hrange Hcount H. remember (first + node)%nat as source eqn:Es. revert node pre Es Epage Hpre Hcount.
  induction H as [source used|source used count l vb bytes ns content Hl Hr Hrest IH]; intros node pre -> Epage Hpre Hcount.
  { cbn. unfold zlen. cbn. f_equal. lia. }
  cbn [seq try_fold]. rewrite (record_accepted f16_is_finite h ix page first Hlen used node l vb bytes ns pre (content ++ post));
    [|by rewrite Epage, <- !app_assoc|done|done|done|].
  - cbn [mbind io_result_bind]. rewrite (IH (S node) (pre ++ vb ++ bytes)); [f_equal; rewrite !zlen_app; lia|lia|by rewrite Epage, <- !app_assoc|rewrite zlen_app; lia|lia].
  - destruct (locator ix (first + node + 1)) as [next|] eqn:Hnext; [|done]. intros Epg.
    assert (page_index l = p) as Hp by (apply (Hrange _ _ Hl); lia). assert (first + node + 1 < stop)%nat as Hin by (apply (Hrange _ _ Hnext); congruence).
    inversion Hrest as [|? ? count' l' vb' bytes' ns' content' Hl' Hr' Hrest']; subst; [lia|].
    replace (first + node + 1)%nat with (S (first + node)) in Hnext by lia. rewrite Hl' in Hnext. injection Hnext as ->.
    rewrite (pr_offset _ _ _ _ _ _ _ _ Hr'), (pr_prefix _ _ _ _ _ _ _ _ Hr'). done.
Qed.

Lemma records_sound page first node count used stop :
  zlen page = DISKANN_PAGE_SIZE → bytes_ok page → 0 <= vector_record_size h → 0 <= used <= DISKANN_PAGE_SIZE →
  try_fold (validate_page_record f16_is_finite h ix page first) used (seq node count) = Ok stop →
  ∃ content, page_records f16_is_finite h ix (first + node) used count content ∧ stop = used + zlen content ∧
    slice (Z.to_nat used) (length content) page = content ∧ stop <= DISKANN_PAGE_SIZE.
Proof.
  intros Hlen Hb Hrec. revert node used. induction count as [|count IH]; intros node used Hu H; cbn [seq try_fold] in H.
  { injection H as <-. exists []. split_and!; [constructor|unfold zlen; cbn; lia|done|lia]. }
  bind_ok H as e He. destruct (record_sound _ _ _ _ _ Hlen _ _ _ (proj1 Hu) Hrec Hb He) as (l & vb & bytes & ns & Hl & Hr & -> & Hsl & Hle).
  pose proof (zlen_nonneg (vb ++ bytes)). destruct (IH (S node) (used + zlen (vb ++ bytes))) as (content & Hrs & -> & Hsl' & Hle'); [lia|done|].
  exists ((vb ++ bytes) ++ content). split_and!.
  - rewrite <- app_assoc. econstructor; [done|done|]. by rewrite Nat.add_succ_r in Hrs.
  - rewrite !zlen_app. lia.
  - rewrite length_app. unfold slice in *. rewrite <- take_take_drop, drop_drop. f_equal; [exact Hsl|]. rewrite <- Hsl' at 2.
    do 2 f_equal. unfold zlen. lia.
  - done.
Qed.

Lemma zero_tail l : forallb (λ byte, byte =? 0) l = true ↔ l = replicate (length l) 0.
Proof.
  induction l as [|x l IH]; [done|]. cbn. rewrite andb_true_iff, IH, Z.eqb_eq. split; [intros [-> <-]; done|intros H; by injection H as -> ?].
Qed.

End Page.

(** The page is the records of its nodes and zeros. *)
Definition valid_page (f16_is_finite : Z → bool) (h : DiskAnnHeader) (ix : AdjacencyIndex) (p : Z) (page : list Z) : Prop :=
  ∃ first count content, (0 < count)%nat ∧
    (∀ i l, locator ix i = Some l → page_index l = p ↔ (first ≤ i < first + count)%nat) ∧
    page_records f16_is_finite h ix first 0 count content ∧ (length content ≤ 4096)%nat ∧ page = filled content.

Lemma page_valid_sound (f16_is_finite : Z → bool) (h : DiskAnnHeader) (ix : AdjacencyIndex) (p : Z) (page : list Z) :
  validate_adjacency_index h ix = Ok () → 0 <= vector_record_size h → bytes_ok page →
  validate_adjacency_page_payload f16_is_finite h ix p page = Ok () → valid_page f16_is_finite h ix p page.
Proof.
  intros Hv Hrec Hb. destruct (page_range h ix p Hv) as (first & stop & E1 & E2 & Hle & Hrange).
  unfold validate_adjacency_page_payload. rewrite E1, E2. cbn [mbind io_result_bind].
  intros H. guard_ok H as Hlen. apply Z.eqb_eq in Hlen. guard_ok H as Hne. apply negb_true_iff, Nat.eqb_neq in Hne. bind_ok H as used Hused.
  destruct (records_sound _ _ _ page first 0 (stop - first) 0 used Hlen Hb Hrec ltac:(unfold DISKANN_PAGE_SIZE; lia) Hused) as (content & Hrs & -> & Hsl & Hfit).
  rewrite Nat.add_0_r in Hrs. rewrite (proj2 (Z.ltb_ge _ _)) in H by (rewrite Hlen; done). apply guard_ok_Ok in H. apply zero_tail in H.
  exists first, (stop - first)%nat, content. unfold zlen, DISKANN_PAGE_SIZE in *.
  split_and!; [lia| |done|lia|].
  + intros i l Hl. rewrite (Hrange i l Hl). lia.
  + unfold filled. replace (Z.to_nat (0 + Z.of_nat (length content))) with (length content) in H by lia.
    unfold slice in Hsl. cbn in Hsl. rewrite drop_0 in Hsl. rewrite <- (take_drop (length content) page) at 1. rewrite Hsl, H. f_equal. f_equal.
    rewrite length_drop. lia.
Qed.

Lemma page_accepted (f16_is_finite : Z → bool) (h : DiskAnnHeader) (ix : AdjacencyIndex) (p : Z) (page : list Z) :
  validate_adjacency_index h ix = Ok () → valid_page f16_is_finite h ix p page →
  validate_adjacency_page_payload f16_is_finite h ix p page = Ok ().
Proof.
  intros Hv. destruct (page_range h ix p Hv) as (first & stop & E1 & E2 & Hle & Hrange). destruct (validated_index h ix Hv) as [Hsome _].
  unfold validate_adjacency_page_payload. rewrite E1, E2. cbn [mbind io_result_bind].
  intros (first' & count & content & Hc & Hrange' & Hrs & Hfit & ->).
  assert (zlen (filled content) = DISKANN_PAGE_SIZE) as Hlen by (unfold zlen; by rewrite length_filled).
  destruct (records_locators _ _ _ _ _ _ _ 0 Hrs Hc) as [l0 Hl0]. rewrite Nat.add_0_r in Hl0.
  destruct (records_locators _ _ _ _ _ _ _ (count - 1) Hrs ltac:(lia)) as [l1 Hl1].
  pose proof (proj1 (Hrange _ _ Hl0) (proj2 (Hrange' _ _ Hl0) ltac:(lia))) as R0.
  pose proof (proj1 (Hrange _ _ Hl1) (proj2 (Hrange' _ _ Hl1) ltac:(lia))) as R1.
  assert (first = first') as ->.
  { destruct (proj2 (Hsome first)) as [l Hl]; [lia|]. pose proof (proj1 (Hrange' _ _ Hl) (proj2 (Hrange _ _ Hl) ltac:(lia))). lia. }
  assert (stop = first' + count)%nat as ->.
  { destruct (decide (first' + count < stop)%nat) as [Hlt|]; [|lia]. destruct (proj2 (Hsome (first' + count)%nat)) as [l Hl]; [lia|].
    pose proof (proj1 (Hrange' _ _ Hl) (proj2 (Hrange _ _ Hl) ltac:(lia))). lia. }
  rewrite Hlen, Z.eqb_refl. cbn [ensure_data guard_ok mbind io_result_bind]. rewrite (proj2 (Nat.eqb_neq _ _)) by lia. cbn [negb ensure_data guard_ok mbind io_result_bind].
  replace (first' + count - first')%nat with count by lia.
  rewrite (records_accepted f16_is_finite h ix (filled content) p first' (first' + count) 0 count 0 content [] (replicate (4096 - length content) 0));
    [|done|done|done|done|lia|by rewrite Nat.add_0_r].
  cbn [mbind io_result_bind]. rewrite (proj2 (Z.ltb_ge _ _)) by (unfold zlen, DISKANN_PAGE_SIZE; lia).
  apply guard_ok_Ok. apply zero_tail. unfold filled. rewrite Z.add_0_l. unfold zlen. rewrite Nat2Z.id, drop_app_length, length_replicate. done.
Qed.

(** ** The pages of the writer *)

Section Written.
Context (f16_is_finite : Z → bool) (h : DiskAnnHeader) (ix : AdjacencyIndex) (ivb : Z).
Context (Hprefix : (if is_interleaved h then vector_record_size h else 0) = ivb) (Hivb : 0 <= ivb).

(** What the writer is given for a node: an encoded vector the reader takes for
    finite, and neighbours inside the graph. *)
Definition record_input (source : nat) (ns vb : list Z) : Prop :=
  zlen vb = ivb ∧
  (is_interleaved h = true → ∃ e, encoding_from_code (raw_vector_encoding h) = Some e ∧ validate_raw_vector_bytes f16_is_finite vb e = Ok ()) ∧
  Forall (λ n, n < vector_count h) ns ∧ Z.of_nat source ∉ ns.

Lemma records_snoc source start count content l vb bytes ns :
  page_records f16_is_finite h ix source start count content → locator ix (source + count) = Some l →
  page_record f16_is_finite h (source + count) l (start + zlen content) vb bytes ns →
  page_records f16_is_finite h ix source start (S count) (content ++ vb ++ bytes).
Proof.
  intros H. induction H as [source start|source start count l' vb' bytes' ns' content Hl' Hr' Hrest IH]; intros Hl Hr.
  - rewrite Nat.add_0_r in Hl, Hr. unfold zlen at 1 in Hr. cbn in Hr. rewrite Z.add_0_r in Hr. rewrite app_nil_l, <- (app_nil_r bytes). econstructor; [done|done|constructor].
  - rewrite <- !app_assoc. econstructor; [done|done|]. apply IH.
    + by rewrite Nat.add_succ_comm.
    + rewrite Nat.add_succ_comm. rewrite !zlen_app in Hr. rewrite zlen_app. by replace (start + (zlen vb' + zlen bytes') + zlen content)
        with (start + (zlen vb' + (zlen bytes' + zlen content))) by lia.
Qed.

Definition on_page (first count : nat) (p : Z) : Prop :=
  (∀ i l, (first ≤ i < first + count)%nat → locator ix i = Some l → page_index l = p) ∧
  (∀ l, (0 < first)%nat → locator ix (first - 1) = Some l → page_index l ≠ p).

Definition whole_page (bytes : list Z) (p : Z) : Prop :=
  ∃ first count content, bytes = filled content ∧ (0 < count)%nat ∧ page_records f16_is_finite h ix first 0 count content ∧
    (length content ≤ 4096)%nat ∧ on_page first count p ∧ (∀ l, locator ix (first + count) = Some l → page_index l ≠ p).

Lemma image_pages page off adj locs last :
  planned ivb page off adj locs last → lists_ok adj →
  ∀ vectors first count pp, off = zlen pp → (length pp ≤ 4096)%nat → length vectors = length adj →
  (∀ i, locator ix (first + count + i) = locs !! i) →
  (∀ i ns vb, adj !! i = Some ns → vectors !! i = Some vb → record_input (first + count + i) ns vb) →
  page_records f16_is_finite h ix first 0 count pp → (0 < count)%nat ∨ (pp = [] ∧ count = 0%nat ∧ adj ≠ []) → on_page first count page →
  ∀ p, page <= p <= last → whole_page (slice (Z.to_nat ((p - page) * 4096)) 4096 (pages_image page pp locs adj vectors)) p.
Proof.
  induction 1 as [page off|page off page' off' ns adj l locs last enc n Hp Hfit Hnext Hp32 Epage Eoffset Edeg Eenc Hu16 Hplan IH];
    intros Hlists vectors first count pp -> Hpp Hlv Hloc Hin Hrs Hne Hon p Hpr.
  { destruct Hne as [Hne|(_ & _ & ?)]; [|done]. replace p with page by lia. rewrite Z.sub_diag. cbn [Z.to_nat Z.mul pages_image].
    exists first, count, pp. split_and!; try done.
    - unfold slice. rewrite drop_0, take_ge; [done|]. by rewrite length_filled.
    - intros l Hl. specialize (Hloc 0%nat). rewrite Nat.add_0_r in Hloc. by rewrite Hloc in Hl. }
  apply list.Forall_cons in Hlists as [[Hns Hnl] Hlists]. destruct vectors as [|vb vectors]; [done|].
  destruct (planned_list ns enc n Hns Hnl Hp) as (bytes & Henc & -> & _). pose proof (zlen_nonneg bytes). pose proof (zlen_nonneg pp).
  pose proof (next_place_spec _ _ _ _ _ Hnext ltac:(lia) ltac:(lia)) as Hplace.
  pose proof (Hloc 0%nat) as Hl. rewrite Nat.add_0_r in Hl. cbn in Hl. destruct (Hin 0%nat ns vb eq_refl eq_refl) as (Hvb & Hvec & Hrange & Hself). rewrite Nat.add_0_r in Hself.
  assert (list_bytes ns = bytes) as Elb by (unfold list_bytes; by rewrite Henc).
  assert (page_record f16_is_finite h (first + count) l off' vb bytes ns) as Hrec by (split; [lia|lia|done|done|by rewrite Eenc|done|done|done]).
  cbn [pages_image]. rewrite Epage, Elb. destruct Hplace as [(-> & -> & Hroom)|(-> & -> & Hover)].
  - rewrite Z.eqb_refl. apply (IH Hlists vectors first (S count)); [rewrite !zlen_app; lia| |by injection Hlv| | | |left; lia| |done].
    + unfold zlen, DISKANN_PAGE_SIZE in *. rewrite !length_app. lia.
    + intros i. change (locs !! i) with ((l :: locs) !! S i). rewrite <- (Hloc (S i)). f_equal. lia.
    + intros i ns' vb' Hi Hv. replace (first + S count + i)%nat with (first + count + S i)%nat by lia. by apply Hin.
    + by apply (records_snoc _ _ _ _ l _ _ ns).
    + destruct Hon as [Hon1 Hon2]. split; [|done]. intros i l' Hi Hl'. destruct (decide (i = first + count)%nat) as [->|]; [congruence|]. apply (Hon1 i l'); [lia|done].
  - rewrite (proj2 (Z.eqb_neq _ _)) by lia. destruct Hne as [Hcount|(-> & _ & _)]; [|unfold zlen at 1 in Hover; cbn in Hover; lia].
    assert (length (filled pp) = 4096%nat) as Hlf by by apply length_filled.
    destruct (decide (p = page)) as [->|Hpne].
    + rewrite Z.sub_diag. cbn [Z.to_nat Z.mul]. exists first, count, pp. split_and!; try done.
      * apply slice_app_head. exact Hlf.
      * intros l' Hl'. rewrite Hl in Hl'. injection Hl' as <-. lia.
    + replace (Z.to_nat ((p - page) * 4096)) with (length (filled pp) + Z.to_nat ((p - (page + 1)) * 4096))%nat by lia.
      assert (∀ k (a b : list Z), slice (length a + k) 4096 (a ++ b) = slice k 4096 b) as ->.
      { intros k a b. unfold slice. by rewrite <- drop_drop, drop_app_length. }
      apply (IH Hlists vectors (first + count)%nat 1%nat); [rewrite !zlen_app; lia| |by injection Hlv| | | |left; lia| |lia].
      * unfold zlen, DISKANN_PAGE_SIZE in *. rewrite !length_app. lia.
      * intros i. change (locs !! i) with ((l :: locs) !! S i). rewrite <- (Hloc (S i)). f_equal. lia.
      * intros i ns' vb' Hi Hv. replace (first + count + 1 + i)%nat with (first + count + S i)%nat by lia. by apply Hin.
      * rewrite <- (app_nil_r (vb ++ bytes)), <- app_assoc. econstructor; [done|done|constructor].
      * split; [intros i l' Hi Hl'; replace i with (first + count)%nat in Hl' by lia; congruence|].
        intros l' _ Hl'. rewrite (proj1 Hon (first + count - 1)%nat l'); [lia|lia|done].
Qed.

Lemma whole_page_valid bytes p :
  validate_adjacency_index h ix = Ok () → whole_page bytes p → valid_page f16_is_finite h ix p bytes.
Proof.
  intros Hv (first & count & content & -> & Hc & Hrs & Hlen & [Hin Hbefore] & Hafter). destruct (validated_index h ix Hv) as [Hsome Hmono].
  exists first, count, content. split_and!; [done| |done|done|done]. intros i l Hl. split; [|intros Hi; by apply (Hin i)]. intros Hp.
  destruct (records_locators _ _ _ _ _ _ _ 0 Hrs Hc) as [l0 Hl0]. rewrite Nat.add_0_r in Hl0.
  assert (page_index l0 = p) as E0 by (apply (Hin first); [lia|done]).
  destruct (decide (i < first)%nat) as [Hlt|]; [exfalso|destruct (decide (first + count ≤ i)%nat) as [Hge|]; [exfalso|lia]].
  - destruct (proj2 (Hsome (first - 1)%nat)) as [l1 Hl1]; [assert (first < index_len ix)%nat by (apply Hsome; by exists l0); lia|].
    pose proof (Hmono i (first - 1)%nat l l1 ltac:(lia) Hl Hl1). pose proof (Hmono (first - 1)%nat first l1 l0 ltac:(lia) Hl1 Hl0).
    apply (Hbefore l1); [lia|done|lia].
  - assert (i < index_len ix)%nat by (apply Hsome; by exists l). destruct (proj2 (Hsome (first + count)%nat)) as [l1 Hl1]; [lia|].
    pose proof (Hmono (first + count)%nat i l1 l ltac:(lia) Hl1 Hl). pose proof (Hmono first (first + count)%nat l0 l1 ltac:(lia) Hl0 Hl1).
    apply (Hafter l1); [done|lia].
Qed.

End Written.

Lemma written_pages_valid (f16_is_finite : Z → bool) (h : DiskAnnHeader) (adj : list (list Z)) (ivb : Z) (layout : AdjacencyLayout)
    (vectors : list (list Z)) :
  plan_adjacency_layout adj ivb = Ok layout → lists_ok adj → adj ≠ [] → 0 <= ivb → inside_pages (locators layout) →
  indexed_by h ivb adj (page_count layout - 1) → length vectors = length adj →
  (∀ i ns vb, adj !! i = Some ns → vectors !! i = Some vb → record_input f16_is_finite h ivb i ns vb) →
  ∀ p, 0 <= p < page_count layout →
    validate_adjacency_page_payload f16_is_finite h (index_of (locators layout)) p
      (slice (Z.to_nat (p * 4096)) 4096 (pages_image 0 [] (locators layout) adj vectors)) = Ok ().
Proof.
  intros Hpa Hl Hne Hivb Hin Hib Hlv Hrec p Hp. pose proof (plan_adjacency_layout_planned _ _ _ Hpa) as Hplan.
  pose proof (validate_planned _ _ _ _ _ Hplan Hl Hivb Hin Hib) as Hv. apply page_accepted; [done|].
  apply (whole_page_valid f16_is_finite h _); [done|].
  rewrite <- (Z.sub_0_r p) at 1. apply (image_pages f16_is_finite h (index_of (locators layout)) ivb (ib_prefix _ _ _ _ Hib) Hivb 0 0 adj _ (page_count layout - 1)
    Hplan Hl vectors 0 0 []); [done|cbn; lia|done| |done| | | |lia].
  - intros i. by apply (locator_index_of ivb adj (locators layout) _ Hplan).
  - constructor.
  - by right.
  - split; [intros; lia|intros; lia].
Qed.

(** C10: A page is accepted exactly when it is what a writer would produce for its
    nodes: the index has nodes on it, the records of those nodes lie back to back
    from the page's start, each with its finite vector when interleaved and with
    the minimal encoding of a strictly increasing list of existing neighbours,
    none of them the node itself, and everything behind them is zero. *)
Theorem page_validation_exact (f16_is_finite : Z → bool) (h : DiskAnnHeader) (ix : AdjacencyIndex) (p : Z) (page : list Z) :
  validate_adjacency_index h ix = Ok () → 0 <= vector_record_size h → bytes_ok page →
  validate_adjacency_page_payload f16_is_finite h ix p page = Ok () ↔ valid_page f16_is_finite h ix p page.
Proof. intros Hv Hrec Hb. split; [by apply page_valid_sound|by apply page_accepted]. Qed.

Lemma byte_list_ok l : forallb (λ b, (0 <=? b) && (b <? 256)) l = true → bytes_ok l.
Proof.
  rewrite forallb_forall. intros H. apply Forall_forall. intros b Hb. apply list_elem_of_In, H in Hb. unfold_widths. lia.
Qed.

Definition demo_index_of : AdjacencyIndex := index_of (locators demo_layout).
Definition demo_page : list Z := slice 0 4096 (pages_image 0 [] (locators demo_layout) demo_graph demo_vectors).

Lemma page_validation_exact_witness : valid_page (λ _, true) demo_graph_header demo_index_of 0 demo_page.
Proof.
  refine (proj1 (page_validation_exact (λ _, true) demo_graph_header demo_index_of 0 demo_page _ _ _) _); [vm_compute; reflexivity|by vm_compute| |vm_compute; reflexivity].
  apply byte_list_ok. vm_compute. reflexivity.
Defined.


