(* ===== verification/Pq.v ===== *)
(** The product quantizer's layout and codes ([core/src/pq.rs]) and its stored
    codebook ([write_pq_codebook], [decode_pq_codebook] of
    [core/src/diskann_io.rs]).

    A component value is an [f32] by its bits.  The floating-point kernels (the
    norm of a centroid, the distances of a vector's chunk to the centroids of a
    subquantizer) are arguments, so the theorems hold for every kernel; the
    lazily built transposed codebook is a cache of no consequence here and is
    left out. *)

From S2P Require Import Prelude SeekIo F32 Adjacency DiskannUtil RowIds DiskannHeader SectionWriter.

Record ProductQuantizer := Quantizer {
  q_d : Z;
  q_m : Z;
  q_nbits : Z;
  q_dsub : Z;
  q_ksub : Z;
  q_chunk_offsets : list Z;
  q_centroids : list Z;
  q_centroids_are_finite : bool;
  q_centroid_norms_cache : list Z;
}.

(** [slice.windows(2)] as pairs. *)
Fixpoint windows2 (l : list Z) : list (Z * Z) :=
  match l with
  | a :: (b :: _) as tl => (a, b) :: windows2 tl
  | _ => []
  end.

(** [iter.max()] *)
Definition max_of (l : list Z) : option Z :=
  match l with [] => None | x :: l => Some (foldl Z.max x l) end.

(** ** Layout *)

Definition with_validated_chunk_offsets (d nbits : Z) (chunk_offsets : list Z) : io_result ProductQuantizer :=
  if (nbits =? 4) || (nbits =? 8) then
    let m := zlen chunk_offsets - 1 in
    dsub ← expect (max_of ((λ '(lo, hi), hi - lo) <$> windows2 chunk_offsets));
    let ksub := Z.shiftl 1 nbits in
    Ok (Quantizer d m nbits dsub ksub chunk_offsets [] true [])
  else Panic.

Definition with_nbits (d m nbits : Z) : io_result ProductQuantizer :=
  if (m =? 0) || negb (d mod m =? 0) then Panic
  else
    let dsub := d / m in
    with_validated_chunk_offsets d nbits ((λ chunk, Z.of_nat chunk * dsub) <$> seq 0 (S (Z.to_nat m))).
Definition pq_new (d m : Z) : io_result ProductQuantizer := with_nbits d m 8.

Fixpoint balanced_offsets (chunks : list nat) (base remainder offset : Z) : list Z :=
  match chunks with
  | [] => []
  | chunk :: chunks =>
      let offset := offset + (base + (if Z.of_nat chunk <? remainder then 1 else 0)) in
      offset :: balanced_offsets chunks base remainder offset
  end.
Definition with_nbits_balanced (d m nbits : Z) : io_result ProductQuantizer :=
  if negb (0 <? d) then Panic
  else if negb ((0 <? m) && (m <=? d)) then Panic
  else with_validated_chunk_offsets d nbits (0 :: balanced_offsets (seq 0 (Z.to_nat m)) (d / m) (d mod m) 0).

(** [Result<Self, &str>]: a message or the quantizer, which cannot panic any more. *)
Definition try_with_chunk_offsets (d nbits : Z) (chunk_offsets : list Z) : io_result (string + ProductQuantizer) :=
  if (d =? 0) || negb ((nbits =? 4) || (nbits =? 8)) || (zlen chunk_offsets <? 2) then Ok (inl "invalid PQ shape"%string)
  else if negb (bool_decide (head chunk_offsets = Some 0)) || negb (bool_decide (last chunk_offsets = Some d))
  then Ok (inl "invalid PQ chunk bounds"%string)
  else if existsb (λ '(lo, hi), hi <=? lo) (windows2 chunk_offsets)
  then Ok (inl "PQ chunk offsets must be strictly increasing"%string)
  else q ← with_validated_chunk_offsets d nbits chunk_offsets; Ok (inr q).

Definition chunk_range (q : ProductQuantizer) (sub : nat) : io_result (Z * Z) :=
  start ← expect (q_chunk_offsets q !! sub);
  stop ← expect (q_chunk_offsets q !! S sub);
  Ok (start, stop).
Definition centroid_chunk_base (q : ProductQuantizer) (start : Z) : Z := start * q_ksub q.

Definition has_valid_layout (q : ProductQuantizer) : io_result bool :=
  r ← try_with_chunk_offsets (q_d q) (q_nbits q) (q_chunk_offsets q);
  Ok match r with
     | inl _ => false
     | inr layout =>
         (q_m layout =? q_m q) && (q_dsub layout =? q_dsub q) && (q_ksub layout =? q_ksub q) &&
         (zlen (q_centroids q) =? q_d q * q_ksub q)
     end.

Definition code_size (q : ProductQuantizer) : Z := if q_nbits q =? 4 then div_ceil (q_m q) 2 else q_m q.

(** ** The codebook and its derived values *)

Section Centroids.
Context (fvec_norm_l2sqr : list Z → Z).

(** One norm per subquantizer and centroid. *)
Definition centroid_norms_of_sub (q : ProductQuantizer) (centroids : list Z) (sub : nat) : io_result (list Z) :=
  '(start, stop) ← chunk_range q sub;
  try_fold (λ norms j,
    let c_off := centroid_chunk_base q start + Z.of_nat j * (stop - start) in
    c ← expect (get_slice (Z.to_nat c_off) (Z.to_nat (stop - start)) centroids);
    Ok (norms ++ [fvec_norm_l2sqr c])) [] (seq 0 (Z.to_nat (q_ksub q))).
Definition try_compute_centroid_norms (q : ProductQuantizer) (centroids : list Z) : io_result (list Z) :=
  try_fold (λ norms sub, row ← centroid_norms_of_sub q centroids sub; Ok (norms ++ row)) [] (seq 0 (Z.to_nat (q_m q))).

Definition try_set_centroids (q : ProductQuantizer) (centroids : list Z) : io_result ProductQuantizer :=
  if negb (zlen centroids =? q_d q * q_ksub q) then Panic
  else
    norms ← try_compute_centroid_norms q centroids;
    Ok (Quantizer (q_d q) (q_m q) (q_nbits q) (q_dsub q) (q_ksub q) (q_chunk_offsets q) centroids
          (forallb f32_is_finite centroids) norms).

End Centroids.

(** ** Codes *)

Definition F32_MAX : Z := 0x7f7fffff.

Definition argmin_step (best : nat * Z) (j_dist : nat * Z) : nat * Z :=
  if f32_lt j_dist.2 best.2 then j_dist else best.
Definition argmin_code (distances : list Z) : Z :=
  wrap 8 (Z.of_nat (foldl argmin_step (0%nat, F32_MAX) (imap pair distances)).1).

(** [codes[i] = v] *)
Definition store (codes : list Z) (i : nat) (v : Z) : io_result (list Z) :=
  if bool_decide (i < length codes)%nat then Ok (<[i := v]> codes) else Panic.

Section Codes.
(** The distances of the encoded vector's chunk [sub] to that subquantizer's
    centroids, as [compute_sub_l2_distances] leaves them. *)
Context (compute_sub_l2_distances : nat → list Z).

Definition encode_8bit (q : ProductQuantizer) (codes : list Z) : io_result (list Z) :=
  try_fold (λ codes sub, store codes sub (argmin_code (compute_sub_l2_distances sub))) codes (seq 0 (Z.to_nat (q_m q))).
Definition encode_4bit (q : ProductQuantizer) (codes : list Z) : io_result (list Z) :=
  try_fold (λ codes pair,
    let sub_lo := (pair * 2)%nat in
    let sub_hi := (pair * 2 + 1)%nat in
    let best_lo := argmin_code (compute_sub_l2_distances sub_lo) in
    let best_hi := if Z.of_nat sub_hi <? q_m q then argmin_code (compute_sub_l2_distances sub_hi) else 0 in
    store codes pair (Z.lor best_lo (wrap 8 (Z.shiftl best_hi 4)))) codes (seq 0 (Z.to_nat (div_ceil (q_m q) 2))).
Definition pq_encode (q : ProductQuantizer) (codes : list Z) : io_result (list Z) :=
  if q_nbits q =? 4 then encode_4bit q codes else encode_8bit q codes.

End Codes.

Definition code_at (q : ProductQuantizer) (codes : list Z) (sub : nat) : io_result Z :=
  if q_nbits q =? 4 then
    byte ← expect (codes !! (sub / 2)%nat);
    Ok (if (sub mod 2 =? 0)%nat then Z.land byte 0x0f else Z.shiftr byte 4)
  else expect (codes !! sub).
Definition pq_decode (q : ProductQuantizer) (codes x : list Z) : io_result (list Z) :=
  try_fold (λ x sub,
    code ← code_at q codes sub;
    '(start, stop) ← chunk_range q sub;
    let chunk_dim := stop - start in
    let c_off := centroid_chunk_base q start + code * chunk_dim in
    c ← expect (get_slice (Z.to_nat c_off) (Z.to_nat chunk_dim) (q_centroids q));
    if zlen x <? stop then Panic else Ok (splice (Z.to_nat start) c x)) x (seq 0 (Z.to_nat (q_m q))).

(** ** The stored codebook *)

Definition PQ_CODEBOOK_MAGIC : Z := 0x31515044.
Definition PQ_CODEBOOK_VERSION : Z := 1.

Definition write_pq_codebook `{SeekWrite W} (pq : ProductQuantizer) (writer : ChunkedSectionWriter W) :
    io_result (ChunkedSectionWriter W) :=
  valid ← has_valid_layout pq;
  _ ← ensure_input valid "DiskANN PQ codebook layout is invalid";
  let header := replicate (Z.to_nat PQ_CODEBOOK_HEADER_SIZE) 0 in
  let header := put_u32 header 0 PQ_CODEBOOK_MAGIC in
  let header := put_u32 header 4 PQ_CODEBOOK_VERSION in
  d ← or_input (try_from 32 (q_d pq)) "DiskANN PQ dimension exceeds u32";
  let header := put_u32 header 8 d in
  m ← or_input (try_from 32 (q_m pq)) "DiskANN PQ m exceeds u32";
  let header := put_u32 header 12 m in
  nbits ← or_input (try_from 32 (q_nbits pq)) "DiskANN PQ bits exceeds u32";
  let header := put_u32 header 16 nbits in
  ksub ← or_input (try_from 32 (q_ksub pq)) "DiskANN PQ ksub exceeds u32";
  let header := put_u32 header 20 ksub in
  count ← or_input (try_from 32 (zlen (q_chunk_offsets pq))) "DiskANN PQ chunk-offset count exceeds u32";
  let header := put_u32 header 24 count in
  writer ← write_bytes writer header;
  writer ← try_fold (λ writer offset,
    offset ← or_input (try_from 32 offset) "DiskANN PQ chunk offset exceeds u32";
    write_bytes writer (le_bytes 4 offset)) writer (q_chunk_offsets pq);
  try_fold (λ writer value, write_bytes writer (le_bytes 4 value)) writer (q_centroids pq).

(** The condition on the metadata is one disjunction; its sixth test can itself
    fail, so it is cut there.  The sum [pq_m + 1] in it is [u32] arithmetic. *)
Definition decode_pq_codebook (fvec_norm_l2sqr : list Z → Z) (bytes : list Z) (h : DiskAnnHeader) :
    io_result ProductQuantizer :=
  _ ← ensure_data (negb (zlen bytes <? PQ_CODEBOOK_HEADER_SIZE)) "DiskANN PQ codebook header is truncated";
  _ ← ensure_data (negb (
        negb (get_u32 bytes 0 =? PQ_CODEBOOK_MAGIC) || negb (get_u32 bytes 4 =? PQ_CODEBOOK_VERSION)
        || negb (get_u32 bytes 8 =? dimension h) || negb (get_u32 bytes 12 =? pq_m h)
        || negb (get_u32 bytes 16 =? pq_bits h))) "invalid DiskANN PQ codebook metadata";
  ksub ← diskann_pq_ksub (pq_bits h);
  _ ← ensure_data (negb (negb (get_u32 bytes 20 =? ksub) || negb (get_u32 bytes 24 =? wrap 32 (pq_m h + 1))
        || negb (get_u32 bytes 28 =? 0))) "invalid DiskANN PQ codebook metadata";
  let offset_count := pq_m h + 1 in
  offsets_bytes ← or_data (checked_mul 64 offset_count 4) "DiskANN PQ chunk-offset size overflows usize";
  centroids_offset ← or_data (checked_add 64 PQ_CODEBOOK_HEADER_SIZE offsets_bytes)
                       "DiskANN PQ codebook offset overflows usize";
  expected_len ← pq_codebook_serialized_len (dimension h) (pq_m h) ksub;
  _ ← ensure_data (zlen bytes =? expected_len) "invalid DiskANN PQ codebook length";
  let chunk_offsets := le_val <$> chunks_exact 4
        (slice (Z.to_nat PQ_CODEBOOK_HEADER_SIZE) (Z.to_nat (centroids_offset - PQ_CODEBOOK_HEADER_SIZE)) bytes) in
  r ← try_with_chunk_offsets (dimension h) (pq_bits h) chunk_offsets;
  pq ← match r with inl m => invalid_data m | inr pq => Ok pq end;
  centroids ← try_fold (λ centroids value,
      _ ← ensure_data (f32_is_finite value) "DiskANN PQ centroids must be finite";
      Ok (centroids ++ [value])) [] (le_val <$> chunks_exact 4 (drop (Z.to_nat centroids_offset) bytes));
  pq ← try_set_centroids fvec_norm_l2sqr pq centroids;
  valid ← has_valid_layout pq;
  _ ← ensure_data valid "invalid DiskANN PQ codebook layout";
  Ok pq.

Definition validate_pq_code_padding (h : DiskAnnHeader) (codes : list Z) : io_result unit :=
  if negb (pq_bits h =? 4) || (pq_m h mod 2 =? 0) then Ok ()
  else
    code_size ← diskann_pq_code_size (pq_m h) (pq_bits h);
    ensure_data (negb (existsb (λ code, match last code with Some byte => negb (Z.land byte 0xf0 =? 0) | None => false end)
                         (chunks_exact (Z.to_nat code_size) codes)))
      "DiskANN odd 4-bit PQ codes must zero the unused high nibble".

(** ** Layout lemmas *)

(** What a valid chunk plan is. *)
Definition offsets_ok (d : Z) (offsets : list Z) : Prop :=
  (2 ≤ length offsets)%nat ∧ offsets !! 0%nat = Some 0 ∧ last offsets = Some d ∧
  ∀ i a b, offsets !! i = Some a → offsets !! S i = Some b → a < b.

Lemma windows2_lookup l i a b : l !! i = Some a → l !! S i = Some b → windows2 l !! i = Some (a, b).
Proof.
  revert i. induction l as [|x l IH]; intros i Ha Hb; [done|]. destruct l as [|y l]; [by destruct i|].
  destruct i as [|i]; cbn in Ha, Hb; [by simplify_eq|]. exact (IH i Ha Hb).
Qed.
Lemma windows2_lookup_inv l i a b : windows2 l !! i = Some (a, b) → l !! i = Some a ∧ l !! S i = Some b.
Proof.
  revert i. induction l as [|x l IH]; intros i H; [done|]. destruct l as [|y l]; [done|].
  destruct i as [|i]; [injection H as -> ->; done|]. exact (IH i H).
Qed.
Lemma length_windows2 l : length (windows2 l) = (length l - 1)%nat.
Proof. induction l as [|x l IH]; [done|]. destruct l as [|y l]; [done|]. cbn [length windows2] in *. lia. Qed.

Lemma increasing_windows l :
  existsb (λ '(lo, hi), hi <=? lo) (windows2 l) = false ↔ ∀ i a b, l !! i = Some a → l !! S i = Some b → a < b.
Proof.
  split.
  - intros H i a b Ha Hb. pose proof (windows2_lookup l i a b Ha Hb) as Hw.
    apply not_true_iff_false in H. apply Z.nle_gt. intros Hle. apply H, existsb_exists.
    exists (a, b). split; [|by apply Z.leb_le]. apply list_elem_of_In. by eapply list_elem_of_lookup_2.
  - intros H. apply not_true_iff_false. intros ([a b] & Hin & Hle%Z.leb_le)%existsb_exists.
    apply list_elem_of_In, list_elem_of_lookup_1 in Hin as [i Hi]. apply windows2_lookup_inv in Hi as [Ha Hb].
    specialize (H i a b Ha Hb). lia.
Qed.

Lemma foldl_max_le x l : Forall (λ y, y <= foldl Z.max x l) (x :: l).
Proof.
  revert x. induction l as [|y l IH]; intros x; cbn; [constructor; [lia|done]|].
  specialize (IH (Z.max x y)). apply list.Forall_cons in IH as [Hm IH]. repeat constructor; [lia..|done].
Qed.
Lemma foldl_max_in x l : foldl Z.max x l ∈ x :: l.
Proof.
  revert x. induction l as [|y l IH]; intros x; cbn; [set_solver|].
  destruct (Z.max_spec x y) as [[_ E]|[_ E]]; rewrite E; specialize (IH (Z.max x y)); rewrite E in IH; set_solver.
Qed.

(** The quantizer of a valid plan, without a codebook. *)
Definition plan_quantizer (d nbits : Z) (offsets : list Z) (dsub : Z) : ProductQuantizer :=
  Quantizer d (zlen offsets - 1) nbits dsub (2 ^ nbits) offsets [] true [].

Definition widths (offsets : list Z) : list Z := (λ '(lo, hi), hi - lo) <$> windows2 offsets.

Lemma with_validated_ok d nbits offsets :
  nbits = 4 ∨ nbits = 8 → (2 ≤ length offsets)%nat →
  ∃ dsub, max_of (widths offsets) = Some dsub ∧
    with_validated_chunk_offsets d nbits offsets = Ok (plan_quantizer d nbits offsets dsub).
Proof.
  intros Hn Hl. unfold with_validated_chunk_offsets. fold (widths offsets).
  destruct (widths offsets) as [|x l] eqn:E.
  { apply (f_equal length) in E. unfold widths in E. rewrite length_fmap, length_windows2 in E. cbn in E. lia. }
  eexists. split; [reflexivity|]. cbn [max_of expect mbind io_result_bind].
  destruct Hn as [-> | ->]; reflexivity.
Qed.

Lemma try_with_chunk_offsets_ok d nbits offsets :
  0 < d → nbits = 4 ∨ nbits = 8 → offsets_ok d offsets →
  ∃ dsub, max_of (widths offsets) = Some dsub ∧
    try_with_chunk_offsets d nbits offsets = Ok (inr (plan_quantizer d nbits offsets dsub)).
Proof.
  intros Hd Hn (Hl & H0 & Hlast & Hinc). destruct (with_validated_ok d nbits offsets Hn Hl) as (dsub & Hm & E).
  exists dsub. split; [done|]. unfold try_with_chunk_offsets.
  rewrite (proj2 (Z.eqb_neq d 0)), (proj2 (Z.ltb_ge (zlen offsets) 2)) by (unfold zlen; lia).
  assert (((nbits =? 4) || (nbits =? 8)) = true) as -> by (destruct Hn as [-> | ->]; done). cbn [negb orb].
  assert (head offsets = Some 0) as Hh by (destruct offsets; [done|exact H0]).
  rewrite !bool_decide_true by done. cbn [negb orb]. rewrite (proj2 (increasing_windows offsets)) by done. by rewrite E.
Qed.

Lemma try_with_chunk_offsets_inr d nbits offsets q :
  try_with_chunk_offsets d nbits offsets = Ok (inr q) →
  d ≠ 0 ∧ (nbits = 4 ∨ nbits = 8) ∧ offsets_ok d offsets ∧
  ∃ dsub, max_of (widths offsets) = Some dsub ∧ q = plan_quantizer d nbits offsets dsub.
Proof.
  unfold try_with_chunk_offsets. intros H.
  destruct (_ || _ || _) eqn:E1; [done|]. apply orb_false_iff in E1 as [E1 Hl%Z.ltb_ge]. apply orb_false_iff in E1 as [Hd%Z.eqb_neq Hn].
  destruct (_ || _) eqn:E2 in H; [done|]. apply orb_false_iff in E2 as [Hh%negb_false_iff%bool_decide_eq_true Hlast%negb_false_iff%bool_decide_eq_true].
  destruct (existsb _ _) eqn:E3; [done|]. apply negb_false_iff, orb_true_iff in Hn.
  assert (nbits = 4 ∨ nbits = 8) as Hn' by (destruct Hn as [?%Z.eqb_eq|?%Z.eqb_eq]; auto).
  assert (2 ≤ length offsets)%nat as Hl' by (unfold zlen in Hl; lia).
  destruct (with_validated_ok d nbits offsets Hn' Hl') as (dsub & Hm & E). rewrite E in H. injection H as <-.
  split_and!; [done|done| |by exists dsub]. split_and!; [done| |done|by apply increasing_windows].
  destruct offsets; [done|exact Hh].
Qed.

(** A quantizer with a codebook: the fields agree with the chunk plan. *)
Record pq_ok (q : ProductQuantizer) : Prop := {
  ok_d : 0 < q_d q;
  ok_nbits : q_nbits q = 4 ∨ q_nbits q = 8;
  ok_offsets : offsets_ok (q_d q) (q_chunk_offsets q);
  ok_m : q_m q = zlen (q_chunk_offsets q) - 1;
  ok_dsub : max_of (widths (q_chunk_offsets q)) = Some (q_dsub q);
  ok_ksub : q_ksub q = 2 ^ q_nbits q;
  ok_centroids : zlen (q_centroids q) = q_d q * q_ksub q;
}.

Lemma has_valid_layout_true q : 0 <= q_d q → has_valid_layout q = Ok true ↔ pq_ok q.
Proof.
  intros Hd. unfold has_valid_layout. split.
  - intros H. bind_ok H as r Hr. destruct r as [m|layout]; [done|]. injection H as H.
    apply try_with_chunk_offsets_inr in Hr as (Hd0 & Hn & Ho & dsub & Hm & ->).
    rewrite !andb_true_iff, !Z.eqb_eq in H. cbn in H. destruct H as [[[Em Ed] Ek] Ec].
    split; try done; [lia|by rewrite Hm, Ed].
  - intros [H1 H2 H3 H4 H5 H6 H7]. destruct (try_with_chunk_offsets_ok _ _ _ H1 H2 H3) as (dsub & Hm & ->).
    cbn [mbind io_result_bind plan_quantizer q_m q_dsub q_ksub]. rewrite H5 in Hm. injection Hm as <-.
    by rewrite H4, H6, H7, H6, !Z.eqb_refl.
Qed.

Lemma offsets_le d offsets i j a b :
  offsets_ok d offsets → offsets !! i = Some a → offsets !! j = Some b → (i ≤ j)%nat → a <= b.
Proof.
  intros (_ & _ & _ & Hinc) Ha Hb Hle. revert b Hb. induction Hle as [|j Hle IH]; intros b Hb; [simplify_eq; lia|].
  destruct (lookup_lt_is_Some_2 offsets j) as [c Hc]; [apply lookup_lt_Some in Hb; lia|].
  specialize (IH c Hc). specialize (Hinc j c b Hc Hb). lia.
Qed.

Lemma offsets_bounds d offsets i a : offsets_ok d offsets → offsets !! i = Some a → 0 <= a <= d.
Proof.
  intros Ho Ha. pose proof Ho as (Hl & H0 & Hlast & _). rewrite last_lookup in Hlast. split.
  - eapply (offsets_le d offsets 0 i); [done..|lia].
  - eapply (offsets_le d offsets i (pred (length offsets))); [done..|]. apply lookup_lt_Some in Ha. lia.
Qed.

Lemma chunk_bounds q sub :
  pq_ok q → (sub < Z.to_nat (q_m q))%nat →
  ∃ start stop, chunk_range q sub = Ok (start, stop) ∧ q_chunk_offsets q !! sub = Some start ∧
    q_chunk_offsets q !! S sub = Some stop ∧ 0 <= start < stop ∧ stop <= q_d q.
Proof.
  intros Hok Hs. pose proof (ok_m q Hok) as Hm. pose proof (ok_offsets q Hok) as Ho. unfold zlen in Hm.
  destruct (lookup_lt_is_Some_2 (q_chunk_offsets q) sub) as [a Ha]; [lia|].
  destruct (lookup_lt_is_Some_2 (q_chunk_offsets q) (S sub)) as [b Hb]; [lia|].
  exists a, b. unfold chunk_range. rewrite Ha, Hb. pose proof (offsets_bounds _ _ _ _ Ho Ha). pose proof (offsets_bounds _ _ _ _ Ho Hb).
  destruct Ho as (_ & _ & _ & Hinc). specialize (Hinc sub a b Ha Hb). split_and!; try done; lia.
Qed.

(** Centroid [j] of subquantizer [sub]. *)
Definition centroid (q : ProductQuantizer) (sub : nat) (j : Z) : list Z :=
  let start := default 0 (q_chunk_offsets q !! sub) in
  let stop := default 0 (q_chunk_offsets q !! S sub) in
  slice (Z.to_nat (start * q_ksub q + j * (stop - start))) (Z.to_nat (stop - start)) (q_centroids q).

Lemma centroid_slice q sub j start stop (centroids : list Z) :
  zlen centroids = q_d q * q_ksub q → chunk_range q sub = Ok (start, stop) →
  0 <= start < stop → stop <= q_d q → 0 <= j < q_ksub q →
  get_slice (Z.to_nat (centroid_chunk_base q start + j * (stop - start))) (Z.to_nat (stop - start)) centroids =
    Some (slice (Z.to_nat (start * q_ksub q + j * (stop - start))) (Z.to_nat (stop - start)) centroids).
Proof.
  intros Hc Hr Hs Hstop Hj. apply get_slice_Some. split; [|done]. unfold centroid_chunk_base, zlen in *.
  assert ((j + 1) * (stop - start) <= q_ksub q * (stop - start)) by (apply Z.mul_le_mono_nonneg_r; lia).
  assert (stop * q_ksub q <= q_d q * q_ksub q) by (apply Z.mul_le_mono_nonneg_r; lia).
  assert (0 <= start * q_ksub q) by (apply Z.mul_nonneg_nonneg; lia).
  assert (0 <= j * (stop - start)) by (apply Z.mul_nonneg_nonneg; lia). lia.
Qed.

Lemma ksub_pos q : pq_ok q → 16 <= q_ksub q <= 256.
Proof. intros Hok. rewrite (ok_ksub q Hok). destruct (ok_nbits q Hok) as [-> | ->]; lia. Qed.

(** ** Set centroids *)

Lemma try_compute_centroid_norms_ok norm q :
  pq_ok q → ∃ norms, try_compute_centroid_norms norm q (q_centroids q) = Ok norms.
Proof.
  intros Hok. unfold try_compute_centroid_norms. apply try_fold_total. intros norms sub Hsub%elem_of_seq.
  destruct (chunk_bounds q sub Hok ltac:(lia)) as (start & stop & Hr & _ & _ & Hs & Hd).
  unfold centroid_norms_of_sub. rewrite Hr. cbn [mbind io_result_bind].
  destruct (try_fold_total (λ norms0 j,
    c ← expect (get_slice (Z.to_nat (centroid_chunk_base q start + Z.of_nat j * (stop - start))) (Z.to_nat (stop - start)) (q_centroids q));
    Ok (norms0 ++ [norm c])) [] (seq 0 (Z.to_nat (q_ksub q)))) as [row ->]; [|by eexists].
  intros row j Hj%elem_of_seq. rewrite (centroid_slice q sub) by (apply Hok || done || lia). by eexists.
Qed.

(** Setting the same centroids again changes nothing: the caches are a function
    of the plan and the centroids. *)
Lemma try_set_centroids_ok norm q :
  pq_ok q → ∃ q', try_set_centroids norm q (q_centroids q) = Ok q' ∧ pq_ok q' ∧
    try_set_centroids norm q' (q_centroids q') = Ok q'.
Proof.
  intros Hok. destruct (try_compute_centroid_norms_ok norm q Hok) as [norms Hn].
  unfold try_set_centroids. rewrite (ok_centroids q Hok), Z.eqb_refl, Hn. cbn [negb mbind io_result_bind].
  eexists. split; [reflexivity|]. split; [by destruct Hok|]. cbn.
  rewrite (ok_centroids q Hok), Z.eqb_refl. cbn [negb]. change (try_compute_centroid_norms norm _ _) with
    (try_compute_centroid_norms norm q (q_centroids q)). by rewrite Hn.
Qed.

(** ** Argmin *)

Lemma f32_lt_trans_ge a b c : f32_lt b a = true → f32_lt c a = false → f32_lt c b = false.
Proof.
  unfold f32_lt, f32_ordered. rewrite !andb_true_iff, !andb_false_iff, !negb_true_iff, !negb_false_iff, !Z.ltb_lt, !Z.ltb_ge.
  intros [[? ?] ?] [[?|?]|?]; [tauto|congruence|right; lia].
Qed.

(** The first index whose value is least, among those below [f32::MAX]. *)
Definition argmin_spec (distances : list Z) (best : nat * Z) : Prop :=
  (best = (0%nat, F32_MAX) ∧ ∀ i d, distances !! i = Some d → f32_lt d F32_MAX = false) ∨
  (distances !! best.1 = Some best.2 ∧ f32_lt best.2 F32_MAX = true ∧
   ∀ i d, distances !! i = Some d → f32_lt d best.2 = false ∧ ((i < best.1)%nat → f32_ge best.2 d = false)).

Lemma f32_lt_ge_false a b c : f32_lt b a = true → f32_lt c a = false → f32_ge b c = false.
Proof.
  unfold f32_lt, f32_ge, f32_ordered. rewrite !andb_true_iff, !andb_false_iff, !negb_true_iff, !negb_false_iff, !Z.ltb_lt, !Z.ltb_ge, !Z.leb_gt.
  intros [[? ?] ?] [[?|?]|?]; [tauto|congruence|right; lia].
Qed.
Lemma f32_lt_trans a b c : f32_lt a b = true → f32_lt b c = true → f32_lt a c = true.
Proof. unfold f32_lt, f32_ordered. rewrite !andb_true_iff, !negb_true_iff, !Z.ltb_lt. intros [[? ?] ?] [[? ?] ?]. split_and!; try done. lia. Qed.
Lemma f32_lt_irrefl a : f32_lt a a = false.
Proof. unfold f32_lt. by rewrite Z.ltb_irrefl, andb_false_r. Qed.

Lemma imap_pair_snoc {A} (l : list A) x : imap pair (l ++ [x]) = imap pair l ++ [(length l, x)].
Proof. rewrite imap_app. cbn. by rewrite Nat.add_0_r. Qed.

Lemma argmin_fold_spec distances : argmin_spec distances (foldl argmin_step (0%nat, F32_MAX) (imap pair distances)).
Proof.
  induction distances as [|d l IH] using rev_ind; [by left|]. rewrite imap_pair_snoc, foldl_app. cbn [foldl].
  set (best := foldl _ _ _) in *. unfold argmin_step at 1. cbn [snd]. destruct (f32_lt d best.2) eqn:E.
  - right. cbn [fst snd]. split; [by rewrite list_lookup_middle|]. destruct IH as [[Eb Hall]|(Hb & Hmax & Hall)].
    + rewrite Eb in E. cbn in E. split; [done|]. intros i x Hx. apply lookup_app_Some in Hx as [Hx|[Hi Hx]].
      * split; [by eapply f32_lt_trans_ge, Hall|]. intros _. by eapply f32_lt_ge_false, Hall.
      * apply list_lookup_singleton_Some in Hx as [? ->]. split; [apply f32_lt_irrefl|lia].
    + split.
      * by eapply f32_lt_trans.
      * intros i x Hx. apply lookup_app_Some in Hx as [Hx|[Hi Hx]].
        -- destruct (Hall i x Hx) as [H1 H2]. split; [by eapply f32_lt_trans_ge|]. intros _. by eapply f32_lt_ge_false.
        -- apply list_lookup_singleton_Some in Hx as [? ->]. split; [apply f32_lt_irrefl|lia].
  - destruct IH as [[Eb Hall]|(Hb & Hmax & Hall)]; [left|right]; (split; [first [done|by apply lookup_app_l_Some]|]).
    + intros i x Hx. apply lookup_app_Some in Hx as [Hx|[Hi Hx]]; [by eapply Hall|].
      apply list_lookup_singleton_Some in Hx as [? ->]. by rewrite Eb in E.
    + split; [done|]. intros i x Hx. apply lookup_app_Some in Hx as [Hx|[Hi Hx]]; [by apply Hall|].
      apply list_lookup_singleton_Some in Hx as [? ->]. split; [done|]. apply lookup_lt_Some in Hb. lia.
Qed.

Lemma argmin_code_bound distances :
  (0 < length distances ≤ 256)%nat →
  0 <= argmin_code distances < zlen distances ∧ argmin_spec distances
    (Z.to_nat (argmin_code distances), (foldl argmin_step (0%nat, F32_MAX) (imap pair distances)).2).
Proof.
  intros Hl. pose proof (argmin_fold_spec distances) as H. unfold argmin_code. destruct (foldl _ _ _) as [j d]. cbn [fst snd].
  assert (j < length distances)%nat as Hj.
  { destruct H as [[[= -> _] _]|(Hd & _)]; [lia|by apply lookup_lt_Some in Hd]. }
  rewrite wrap_small by (unfold u_ok; lia). split; [unfold zlen; lia|]. by rewrite Nat2Z.id.
Qed.

(** ** Codes *)

Lemma store_loop (f : nat → Z) codes n :
  (n ≤ length codes)%nat →
  try_fold (λ codes i, store codes i (f i)) codes (seq 0 n) = Ok ((f <$> seq 0 n) ++ drop n codes).
Proof.
  induction n as [|n IH]; intros Hn; [by rewrite drop_0|]. rewrite seq_S, try_fold_app, IH by lia. cbn [mbind io_result_bind try_fold Nat.add].
  unfold store. rewrite bool_decide_true by (rewrite length_app, length_fmap, length_seq, length_drop; lia). cbn [mbind io_result_bind].
  f_equal. rewrite fmap_app, <- app_assoc. rewrite insert_app_r_alt by (rewrite length_fmap, length_seq; lia).
  f_equal. rewrite length_fmap, length_seq, Nat.sub_diag. destruct (lookup_lt_is_Some_2 codes n) as [c Hc]; [lia|].
  by rewrite (drop_S codes c n Hc).
Qed.

Lemma nibbles lo hi :
  0 <= lo < 16 → 0 <= hi < 16 →
  Z.lor lo (wrap 8 (Z.shiftl hi 4)) = lo + 16 * hi ∧ Z.land (lo + 16 * hi) 0x0f = lo ∧ Z.shiftr (lo + 16 * hi) 4 = hi.
Proof.
  intros Hlo Hhi. rewrite wrap_small by (unfold u_ok; rewrite Z.shiftl_mul_pow2 by lia; lia).
  split_and!.
  - rewrite lor_shiftl_add by lia. lia.
  - change 0x0f with (Z.ones 4). rewrite Z.land_ones by lia. change (2 ^ 4) with 16. rewrite (Z.mul_comm 16), Z_mod_plus_full. by apply Z.mod_small.
  - rewrite Z.shiftr_div_pow2 by lia. change (2 ^ 4) with 16. rewrite (Z.mul_comm 16), Z_div_plus_full, Z.div_small by lia. lia.
Qed.

Section Encode.
Context (q : ProductQuantizer) (Hok : pq_ok q).
Context (distances : nat → list Z) (Hdist : ∀ sub, (sub < Z.to_nat (q_m q))%nat → zlen (distances sub) = q_ksub q).

Definition best (sub : nat) : Z := argmin_code (distances sub).

Lemma best_bound sub : (sub < Z.to_nat (q_m q))%nat → 0 <= best sub < q_ksub q.
Proof.
  clear - Hok Hdist. intros Hs. pose proof (ksub_pos q Hok). specialize (Hdist sub Hs).
  unfold best. destruct (argmin_code_bound (distances sub)) as [Hb _]; unfold zlen in *; lia.
Qed.

Lemma m_pos : 0 < q_m q.
Proof. clear - Hok. rewrite (ok_m q Hok). destruct (ok_offsets q Hok) as (Hl & _). unfold zlen. lia. Qed.

(** The bytes [pq_encode] stores. *)
Definition code_bytes : list Z :=
  if q_nbits q =? 4 then
    (λ pair, best (pair * 2) + 16 * (if Z.of_nat (pair * 2 + 1) <? q_m q then best (pair * 2 + 1) else 0)) <$>
      seq 0 (Z.to_nat (div_ceil (q_m q) 2))
  else best <$> seq 0 (Z.to_nat (q_m q)).

Lemma length_code_bytes : zlen code_bytes = code_size q.
Proof.
  clear - Hok. pose proof m_pos. pose proof (div_ceil_spec (q_m q) 2). unfold code_bytes, code_size, zlen.
  destruct (_ =? 4); rewrite length_fmap, length_seq; lia.
Qed.

Lemma pair_bound pair : (pair < Z.to_nat (div_ceil (q_m q) 2))%nat → (pair * 2 < Z.to_nat (q_m q))%nat.
Proof. clear - Hok. pose proof m_pos. pose proof (div_ceil_spec (q_m q) 2). lia. Qed.

Lemma hi_bound pair : q_ksub q = 16 → 0 <= (if Z.of_nat (pair * 2 + 1) <? q_m q then best (pair * 2 + 1) else 0) < 16.
Proof.
  clear - Hok Hdist. intros Hk. case_match; [|lia]. rewrite <- Hk. apply best_bound. apply Z.ltb_lt in H. lia.
Qed.

Lemma pq_encode_bytes codes : zlen codes = code_size q → pq_encode distances q codes = Ok code_bytes.
Proof.
  clear - Hok Hdist. intros Hl. pose proof length_code_bytes as Hlen. unfold pq_encode, code_bytes in *.
  unfold zlen in Hl, Hlen. rewrite <- Hlen in Hl. destruct (q_nbits q =? 4) eqn:E; rewrite length_fmap, length_seq in Hl.
  - apply Z.eqb_eq in E. assert (q_ksub q = 16) as Hk by (by rewrite (ok_ksub q Hok), E). unfold encode_4bit.
    rewrite <- (app_nil_r (_ <$> seq 0 _)), <- (drop_all codes). replace (length codes) with (Z.to_nat (div_ceil (q_m q) 2)) by lia.
    rewrite <- store_loop by lia. apply try_fold_ext_in. intros c pair Hp%elem_of_seq. f_equal.
    apply nibbles; [|by apply hi_bound]. rewrite <- Hk. apply best_bound, pair_bound. lia.
  - unfold encode_8bit. fold best. rewrite store_loop by lia.
    replace (Z.to_nat (q_m q)) with (length codes) at 2 by lia. by rewrite drop_all, app_nil_r.
Qed.

Lemma code_at_best sub : (sub < Z.to_nat (q_m q))%nat → code_at q code_bytes sub = Ok (best sub).
Proof.
  clear - Hok Hdist. intros Hs. unfold code_at, code_bytes. destruct (q_nbits q =? 4) eqn:E.
  2:{ by rewrite list_lookup_fmap, lookup_seq_lt by lia. }
  apply Z.eqb_eq in E. assert (q_ksub q = 16) as Hk by (by rewrite (ok_ksub q Hok), E).
  pose proof (Nat.div_mod_eq sub 2) as Hdm. pose proof (Nat.mod_upper_bound sub 2 ltac:(lia)). pose proof (div_ceil_spec (q_m q) 2).
  rewrite list_lookup_fmap, lookup_seq_lt by lia. cbn [fmap option_fmap expect mbind io_result_bind].
  rewrite Nat.add_0_l. set (pair := (sub / 2)%nat) in *.
  assert (0 <= best (pair * 2) < 16) as Hlo by (rewrite <- Hk; apply best_bound; lia).
  destruct (nibbles (best (pair * 2)) _ Hlo (hi_bound pair Hk)) as (_ & E1 & E2). cbn [option_map expect mbind io_result_bind]. rewrite E1, E2.
  destruct (Nat.eqb_spec (sub mod 2) 0) as [Em|Em]; f_equal; [f_equal; lia|].
  replace (Z.of_nat (pair * 2 + 1) <? q_m q) with true by (symmetry; apply Z.ltb_lt; lia). f_equal. lia.
Qed.

End Encode.

(** ** Decoding *)

Lemma splice_prefix (pre c x : list Z) : splice (length pre) c (pre ++ x) = pre ++ c ++ drop (length c) x.
Proof. unfold splice. by rewrite take_app_length, <- drop_drop, drop_app_length. Qed.

Lemma pq_decode_chunks q codes x (code : nat → Z) :
  pq_ok q → (∀ sub, (sub < Z.to_nat (q_m q))%nat → code_at q codes sub = Ok (code sub) ∧ 0 <= code sub < q_ksub q) →
  q_d q <= zlen x →
  pq_decode q codes x =
    Ok (concat ((λ sub, centroid q sub (code sub)) <$> seq 0 (Z.to_nat (q_m q))) ++ drop (Z.to_nat (q_d q)) x).
Proof.
  intros Hok Hcode Hx.
  assert (∀ n, (n ≤ Z.to_nat (q_m q))%nat → ∃ start, q_chunk_offsets q !! n = Some start ∧
    zlen (concat ((λ sub, centroid q sub (code sub)) <$> seq 0 n)) = start ∧
    try_fold (λ x sub,
      code ← code_at q codes sub; '(start, stop) ← chunk_range q sub;
      c ← expect (get_slice (Z.to_nat (centroid_chunk_base q start + code * (stop - start))) (Z.to_nat (stop - start)) (q_centroids q));
      if zlen x <? stop then Panic else Ok (splice (Z.to_nat start) c x)) x (seq 0 n) =
    Ok (concat ((λ sub, centroid q sub (code sub)) <$> seq 0 n) ++ drop (Z.to_nat start) x)) as Hloop.
  { induction n as [|n IH]; intros Hn.
    - destruct (ok_offsets q Hok) as (_ & H0 & _). exists 0. split_and!; [done|done|]. by rewrite drop_0.
    - destruct IH as (start & Hstart & Hlen & E); [lia|].
      destruct (chunk_bounds q n Hok ltac:(lia)) as (start' & stop & Hr & Ha & Hb & Hs & Hd). rewrite Hstart in Ha. injection Ha as <-.
      destruct (Hcode n ltac:(lia)) as [Hc Hcb].
      assert (centroid_slice_eq : get_slice (Z.to_nat (centroid_chunk_base q start + code n * (stop - start))) (Z.to_nat (stop - start)) (q_centroids q)
        = Some (centroid q n (code n))).
      { rewrite (centroid_slice q n) by (apply Hok || done || lia). unfold centroid. by rewrite Hstart, Hb. }
      assert (zlen (centroid q n (code n)) = stop - start) as Hcl.
      { pose proof centroid_slice_eq as E'. apply get_slice_Some in E' as [Hin ->]. unfold zlen, slice. rewrite length_take, length_drop. lia. }
      exists stop. rewrite seq_S, fmap_app, concat_app, try_fold_app, E. cbn [Nat.add fmap list_fmap concat mbind io_result_bind try_fold].
      rewrite Hc, Hr. cbn [mbind io_result_bind]. rewrite centroid_slice_eq. cbn [expect mbind io_result_bind].
      rewrite !app_nil_r, !zlen_app, Hlen, Hcl. split_and!; [done|lia|].
      set (pre := concat _) in *. assert (zlen (drop (Z.to_nat start) x) = zlen x - start) as Hdl by (unfold zlen in *; rewrite length_drop; lia).
      rewrite Hdl, (proj2 (Z.ltb_ge _ _)) by lia. cbn [mbind io_result_bind]. f_equal.
      replace (Z.to_nat start) with (length pre) by (unfold zlen in Hlen; lia). rewrite splice_prefix, <- app_assoc, drop_drop.
      do 3 f_equal. unfold zlen in *. lia. }
  destruct (Hloop (Z.to_nat (q_m q)) ltac:(lia)) as (start & Hstart & _ & E). unfold pq_decode. rewrite E. do 3 f_equal.
  destruct (ok_offsets q Hok) as (Hl & _ & Hlast & _). rewrite last_lookup in Hlast. pose proof (ok_m q Hok) as Hm. unfold zlen in Hm.
  replace (Z.to_nat (q_m q)) with (pred (length (q_chunk_offsets q))) in Hstart by lia. congruence.
Qed.

(** ** Properties of the codes *)

(** C36: Encoding a vector and decoding it replaces every chunk by the first of
    its subquantizer's nearest centroids, for both code widths: the code buffer
    is filled exactly, and decoding writes those centroids over the first [d]
    components and nothing behind them. *)
Theorem pq_decode_encode (q : ProductQuantizer) (distances : nat → list Z) (codes x : list Z) :
  pq_ok q → (∀ sub, (sub < Z.to_nat (q_m q))%nat → zlen (distances sub) = q_ksub q) →
  zlen codes = code_size q → q_d q <= zlen x →
  ∃ bytes, pq_encode distances q codes = Ok bytes ∧ zlen bytes = code_size q ∧
    pq_decode q bytes x =
      Ok (concat ((λ sub, centroid q sub (argmin_code (distances sub))) <$> seq 0 (Z.to_nat (q_m q))) ++
          drop (Z.to_nat (q_d q)) x) ∧
    ∀ sub, (sub < Z.to_nat (q_m q))%nat →
      ∃ least, argmin_spec (distances sub) (Z.to_nat (argmin_code (distances sub)), least).
Proof.
  intros Hok Hd Hc Hx. exists (code_bytes q distances). split_and!.
  - by apply pq_encode_bytes.
  - by apply length_code_bytes.
  - apply (pq_decode_chunks q _ x (best distances)); [done| |done].
    intros sub Hs. split; [by apply code_at_best|by apply best_bound].
  - intros sub Hs. specialize (Hd sub Hs). pose proof (ksub_pos q Hok). eexists. apply argmin_code_bound. unfold zlen in Hd. lia.
Qed.

Lemma code_bytes_padding q distances b :
  pq_ok q → (∀ sub, (sub < Z.to_nat (q_m q))%nat → zlen (distances sub) = q_ksub q) →
  q_nbits q = 4 → q_m q mod 2 ≠ 0 → last (code_bytes q distances) = Some b → Z.land b 0xf0 = 0.
Proof.
  intros Hok Hd Hn Hm Hlast. unfold code_bytes in Hlast. rewrite Hn in Hlast. cbn [Z.eqb Pos.eqb] in Hlast.
  pose proof (m_pos q Hok). pose proof (div_ceil_spec (q_m q) 2). pose proof (Z.div_mod (q_m q) 2). pose proof (Z.mod_pos_bound (q_m q) 2).
  rewrite last_lookup, length_fmap, length_seq, list_lookup_fmap, lookup_seq_lt in Hlast by lia. cbn in Hlast. injection Hlast as <-.
  set (pair := pred _) in *. rewrite (proj2 (Z.ltb_ge _ _)) by lia. rewrite Z.add_0_r.
  pose proof (best_bound q Hok distances Hd (pair * 2) ltac:(lia)) as Hb. rewrite (ok_ksub q Hok), Hn in Hb.
  change 0xf0 with (Z.shiftl (Z.ones 4) 4). apply Z.bits_inj'. intros i Hi. rewrite Z.land_spec, Z.bits_0, Z.shiftl_spec by lia.
  destruct (decide (4 <= i)); [|by rewrite (Z.testbit_neg_r _ (i - 4)), andb_false_r by lia].
  rewrite (Z.bits_above_log2 (best distances (pair * 2))); [done|lia|].
  destruct (decide (best distances (pair * 2) = 0)) as [->|]; [cbn; lia|]. assert (Z.log2 (best distances (pair * 2)) < 4); [apply Z.log2_lt_pow2; lia|lia].
Qed.

(** The codes of any number of vectors that the quantizer wrote pass the
    reader's check of the unused nibble, the only bits of a code no distance
    determines. *)
Theorem pq_codes_padding_accepted (h : DiskAnnHeader) (q : ProductQuantizer) (vectors : list (nat → list Z))
    (buffers codes : list (list Z)) :
  pq_ok q → pq_bits h = q_nbits q → pq_m h = q_m q →
  Forall (λ distances, ∀ sub, (sub < Z.to_nat (q_m q))%nat → zlen (distances sub) = q_ksub q) vectors →
  Forall3 (λ distances buffer code, zlen buffer = code_size q ∧ pq_encode distances q buffer = Ok code) vectors buffers codes →
  validate_pq_code_padding h (concat codes) = Ok ().
Proof.
  intros Hok Hbits Hm Hd Hall. unfold validate_pq_code_padding. rewrite Hbits, Hm. destruct (_ || _) eqn:E; [done|].
  apply orb_false_iff in E as [Hn%negb_false_iff%Z.eqb_eq Hodd%Z.eqb_neq]. rewrite Hn.
  assert (Forall (λ code, zlen code = code_size q ∧ ∀ b, last code = Some b → Z.land b 0xf0 = 0) codes) as Hcodes.
  { clear - Hok Hd Hall Hn Hodd. induction Hall as [|dist buffer code vectors buffers codes [Hl He] Hall IH]; [constructor|].
    apply list.Forall_cons in Hd as [Hd0 Hd]. constructor; [|by apply IH]. rewrite (pq_encode_bytes q Hok dist Hd0) in He by done.
    injection He as <-. split; [by apply length_code_bytes|]. intros b. by apply code_bytes_padding. }
  change (diskann_pq_code_size (q_m q) 4) with (@Ok Z (div_ceil (q_m q) 2)). cbn [mbind io_result_bind].
  pose proof (m_pos q Hok). pose proof (div_ceil_spec (q_m q) 2).
  rewrite chunks_exact_concat; [|lia|].
  - replace (existsb _ _) with false; [done|]. symmetry. apply not_true_iff_false. intros (code & Hin & Hb)%existsb_exists.
    apply list_elem_of_In in Hin. destruct (proj1 (Forall_forall _ _) Hcodes code Hin) as [_ Hlast].
    destruct (last code) as [b|]; [|done]. by rewrite (Hlast b eq_refl) in Hb.
  - eapply Forall_impl; [exact Hcodes|]. cbn. intros code [Hl _]. unfold code_size in Hl. rewrite Hn in Hl. cbn in Hl. unfold zlen in Hl. lia.
Qed.

(** ** The balanced plan *)

Lemma balanced_offsets_lookup base remainder k n i :
  0 <= remainder → (i < n)%nat →
  balanced_offsets (seq k n) base remainder (Z.of_nat k * base + Z.min (Z.of_nat k) remainder) !! i =
    Some (Z.of_nat (k + i + 1) * base + Z.min (Z.of_nat (k + i + 1)) remainder).
Proof.
  intros Hr. revert k i. induction n as [|n IH]; intros k i Hi; [lia|]. cbn [seq balanced_offsets].
  replace (Z.of_nat k * base + Z.min (Z.of_nat k) remainder + (base + (if Z.of_nat k <? remainder then 1 else 0)))
    with (Z.of_nat (S k) * base + Z.min (Z.of_nat (S k)) remainder).
  2:{ destruct (Z.ltb_spec (Z.of_nat k) remainder); lia. }
  destruct i as [|i]; cbn [lookup list_lookup].
  - do 2 f_equal; [f_equal; lia|f_equal; lia].
  - rewrite IH by lia. do 3 f_equal; lia.
Qed.

Lemma length_balanced_offsets l base remainder offset : length (balanced_offsets l base remainder offset) = length l.
Proof. revert offset. induction l as [|x l IH]; intros offset; cbn; [done|]. by rewrite IH. Qed.

(** For every [1 <= m <= d] the balanced quantizer exists, is accepted as a
    persisted chunk plan unchanged, and has [m] chunks that cover the [d]
    components in order with widths differing by at most one. *)
Theorem pq_balanced_layout (d m nbits : Z) :
  1 <= m <= d → nbits = 4 ∨ nbits = 8 →
  ∃ q, with_nbits_balanced d m nbits = Ok q ∧ try_with_chunk_offsets d nbits (q_chunk_offsets q) = Ok (inr q) ∧
    q_m q = m ∧ q_ksub q = 2 ^ nbits ∧ offsets_ok d (q_chunk_offsets q) ∧
    ∀ sub, (sub < Z.to_nat m)%nat → ∃ start, 
      chunk_range q sub = Ok (start, start + d / m + (if Z.of_nat sub <? d mod m then 1 else 0)).
Proof.
  intros Hm Hn. pose proof (Z.div_mod d m ltac:(lia)) as Hdm. pose proof (Z.mod_pos_bound d m ltac:(lia)) as Hr.
  assert (1 <= d / m) as Hb by (apply Z.div_le_lower_bound; lia).
  set (offsets := 0 :: balanced_offsets (seq 0 (Z.to_nat m)) (d / m) (d mod m) 0).
  assert (∀ i, (i ≤ Z.to_nat m)%nat → offsets !! i = Some (Z.of_nat i * (d / m) + Z.min (Z.of_nat i) (d mod m))) as Hlook.
  { intros [|i] Hi; [cbn; do 2 f_equal; lia|]. unfold offsets. change ((0 :: ?l) !! S i) with (l !! i).
    pose proof (balanced_offsets_lookup (d / m) (d mod m) 0 (Z.to_nat m) i ltac:(lia) ltac:(lia)) as E.
    change (Z.of_nat 0 * (d / m) + Z.min (Z.of_nat 0) (d mod m)) with (0 + Z.min 0 (d mod m)) in E.
    rewrite Z.min_l in E by lia. change (0 + 0) with 0 in E. rewrite E. do 3 f_equal; lia. }
  assert (length offsets = S (Z.to_nat m)) as Hlen by (unfold offsets; cbn; by rewrite length_balanced_offsets, length_seq).
  assert (offsets_ok d offsets) as Ho.
  { split_and!; [lia|done| |].
    - rewrite last_lookup, Hlen. cbn [pred]. rewrite Hlook by lia. f_equal. rewrite Z2Nat.id, Z.min_r by lia. lia.
    - intros i a b Ha Hb'. pose proof (lookup_lt_Some _ _ _ Hb'). rewrite Hlook in Ha, Hb' by lia. simplify_eq. nia. }
  destruct (try_with_chunk_offsets_ok d nbits offsets ltac:(lia) Hn Ho) as (dsub & Hmax & Etry).
  destruct (with_validated_ok d nbits offsets Hn ltac:(lia)) as (dsub' & Hmax' & E). rewrite Hmax in Hmax'. injection Hmax' as <-.
  exists (plan_quantizer d nbits offsets dsub). unfold with_nbits_balanced.
  rewrite (proj2 (Z.ltb_lt 0 d)), (proj2 (Z.ltb_lt 0 m)), (proj2 (Z.leb_le m d)) by lia. cbn [negb andb]. fold offsets.
  split_and!; [done|done|cbn; unfold zlen; lia|done|done|].
  intros sub Hs. unfold chunk_range. cbn [plan_quantizer q_chunk_offsets]. rewrite !Hlook by lia. cbn [expect mbind io_result_bind].
  eexists. do 2 f_equal. destruct (Z.ltb_spec (Z.of_nat sub) (d mod m)); nia.
Qed.

(** ** The stored codebook *)

Definition codebook_fields (q : ProductQuantizer) : list (nat * Z) :=
  [f4 PQ_CODEBOOK_MAGIC; f4 PQ_CODEBOOK_VERSION; f4 (q_d q); f4 (q_m q); f4 (q_nbits q); f4 (q_ksub q);
   f4 (zlen (q_chunk_offsets q)); f4 0].
Definition codebook_bytes (q : ProductQuantizer) : list Z :=
  fields_bytes (codebook_fields q) ++ concat (le_bytes 4 <$> q_chunk_offsets q) ++ concat (le_bytes 4 <$> q_centroids q).

(** What the writer and the reader need of the widths. *)
Definition pq_u32 (q : ProductQuantizer) : Prop := q_d q < 2 ^ 32 ∧ q_m q + 1 < 2 ^ 32 ∧ Forall u32 (q_centroids q).

Lemma write_pq_codebook_chunks `{SeekWrite W} q (w : ChunkedSectionWriter W) :
  pq_ok q → pq_u32 q →
  write_pq_codebook q w =
    write_chunks w (fields_bytes (codebook_fields q) :: (le_bytes 4 <$> q_chunk_offsets q) ++ (le_bytes 4 <$> q_centroids q)).
Proof.
  intros Hok (Hd & Hm & Hc). unfold write_pq_codebook. pose proof (ok_d q Hok). pose proof (m_pos q Hok). pose proof (ksub_pos q Hok).
  rewrite (proj2 (has_valid_layout_true q ltac:(lia)) Hok). cbn [mbind io_result_bind].
  assert (zlen (q_chunk_offsets q) = q_m q + 1) as Hl by (rewrite (ok_m q Hok); lia).
  assert (0 <= q_nbits q < 16) by (destruct (ok_nbits q Hok); lia).
  pass. pass. pass. pass. pass. pass. unfold write_chunks. cbn [try_fold].
  match goal with |- mbind _ (write_bytes _ ?b) = _ => assert (b = fields_bytes (codebook_fields q)) as -> end.
  { unfold put_u32. change (Z.to_nat PQ_CODEBOOK_HEADER_SIZE) with 32%nat.
    change (replicate 32 0) with (fields_bytes [] ++ replicate 32 0). by rewrite !splice_field by (done || lia). }
  destruct (write_bytes w _) as [w1| |]; cbn [mbind io_result_bind]; [|done..]. rewrite try_fold_app, !try_fold_fmap.
  rewrite (try_fold_ext_in _ (λ w offset, write_bytes w (le_bytes 4 offset)) _ (q_chunk_offsets q)).
  { destruct (try_fold _ w1 _) as [w2| |]; cbn [mbind io_result_bind]; [|done..]. by rewrite try_fold_fmap. }
  intros w2 o [i Hi]%list_elem_of_lookup_1. pose proof (offsets_bounds _ _ _ _ (ok_offsets q Hok) Hi). by pass.
Qed.

Lemma write_pq_codebook_spec `{LW : SeekWriteLaws W, IW : !InfallibleWrite W} q (w : ChunkedSectionWriter W) :
  pq_ok q → pq_u32 q → cw_ok w → ∃ w', write_pq_codebook q w = Ok w' ∧ appends w w' (codebook_bytes q).
Proof.
  intros Hok Hu Hw. rewrite write_pq_codebook_chunks by done. unfold codebook_bytes. rewrite <- concat_app.
  by apply (write_chunks_spec w (fields_bytes (codebook_fields q) :: _)).
Qed.

Lemma try_fold_check {A} (ok : A → bool) m (l acc : list A) :
  forallb ok l = true → try_fold (λ acc x, _ ← ensure_data (ok x) m; Ok (acc ++ [x])) acc l = Ok (acc ++ l).
Proof.
  revert acc. induction l as [|x l IH]; intros acc Hl; cbn [try_fold]; [by rewrite app_nil_r|].
  cbn in Hl. apply andb_true_iff in Hl as [Hx Hl]. rewrite Hx. cbn [ensure_data guard_ok mbind io_result_bind].
  rewrite IH by done. by rewrite <- app_assoc.
Qed.

(** Setting centroids looks at nothing but the plan. *)
Lemma try_set_centroids_plan norm q centroids :
  pq_ok q → try_set_centroids norm (plan_quantizer (q_d q) (q_nbits q) (q_chunk_offsets q) (q_dsub q)) centroids =
    try_set_centroids norm q centroids.
Proof. intros [? ? ? Hm ? Hk ?]. destruct q as [d m nbits dsub ksub offs cs fin norms]. cbn in *. by subst m ksub. Qed.

(** The metadata fields as the reader finds them. *)
Lemma codebook_field q rest i v off :
  pq_ok q → pq_u32 q → codebook_fields q !! i = Some (f4 v) → fields_width (take i (codebook_fields q)) = off →
  get_u32 (fields_bytes (codebook_fields q) ++ rest) off = v.
Proof.
  intros Hok (Hd & Hm & Hc) Hi Hw. pose proof (ok_d q Hok). pose proof (m_pos q Hok). pose proof (ksub_pos q Hok).
  assert (zlen (q_chunk_offsets q) = q_m q + 1) as Hl by (rewrite (ok_m q Hok); lia).
  assert (0 <= q_nbits q < 16) by (destruct (ok_nbits q Hok); lia).
  assert (Forall (λ f, u32 f.2) (codebook_fields q)) as Hu.
  { unfold codebook_fields, PQ_CODEBOOK_MAGIC, PQ_CODEBOOK_VERSION. repeat (apply Forall_cons_2; [cbn [snd]; unfold_widths; lia|]). constructor. }
  eapply get_u32_field; [done|done|]. exact (Forall_lookup_1 _ _ _ _ Hu Hi).
Qed.

Lemma pq_codebook_serialized_len_total d m ksub :
  0 <= d < 2 ^ 32 → 0 <= m < 2 ^ 32 → 0 <= ksub <= 256 →
  pq_codebook_serialized_len d m ksub = Ok (32 + (m + 1) * 4 + d * ksub * 4).
Proof.
  intros Hd Hm Hk. unfold pq_codebook_serialized_len, PQ_CODEBOOK_HEADER_SIZE.
  assert (0 <= d * ksub <= 2 ^ 32 * 256) by nia.
  rewrite (proj2 (checked_add_Some 64 m 1 _)) by (split; [reflexivity|unfold_widths; lia]). cbn [mbind option_bind]. pass.
  rewrite (proj2 (checked_mul_Some 64 d ksub _)) by (split; [reflexivity|unfold_widths; lia]). cbn [mbind option_bind]. pass.
  rewrite (proj2 (checked_add_Some 64 32 _ _)) by (split; [reflexivity|unfold_widths; lia]). cbn [mbind option_bind].
  rewrite (proj2 (checked_add_Some 64 _ (d * ksub * 4) _)) by (split; [reflexivity|unfold_widths; lia]). done.
Qed.

Lemma codebook_bytes_split q :
  pq_ok q → pq_u32 q →
  zlen (codebook_bytes q) = 32 + (q_m q + 1) * 4 + q_d q * q_ksub q * 4 ∧
  le_val <$> chunks_exact 4 (slice 32 (Z.to_nat ((q_m q + 1) * 4)) (codebook_bytes q)) = q_chunk_offsets q ∧
  le_val <$> chunks_exact 4 (drop (Z.to_nat (32 + (q_m q + 1) * 4)) (codebook_bytes q)) = q_centroids q.
Proof.
  intros Hok (Hd & Hm & Hc). unfold codebook_bytes, slice. set (hd := fields_bytes _).
  assert (length hd = 32%nat) as Hh by (unfold hd; by rewrite length_fields_bytes).
  assert (zlen (q_chunk_offsets q) = q_m q + 1) as Hl by (rewrite (ok_m q Hok); lia). pose proof (ok_centroids q Hok) as Hcl. unfold zlen in Hl, Hcl.
  assert (Forall u32 (q_chunk_offsets q)) as Hu.
  { apply Forall_lookup_2. intros i o Hi. pose proof (offsets_bounds _ _ _ _ (ok_offsets q Hok) Hi). unfold_widths. lia. }
  set (offs := concat (le_bytes 4 <$> q_chunk_offsets q)). assert (length offs = (length (q_chunk_offsets q) * 4)%nat) as Hol by apply length_le_list.
  split_and!.
  - rewrite !zlen_app. unfold zlen. rewrite Hh, Hol, length_le_list. lia.
  - rewrite <- Hh, drop_app_length. replace (Z.to_nat _) with (length offs) by lia. rewrite take_app_length.
    apply le_list_decode; [lia|done].
  - rewrite app_assoc. replace (Z.to_nat _) with (length (hd ++ offs)) by (rewrite length_app; lia). rewrite drop_app_length.
    apply le_list_decode; [lia|done].
Qed.

Lemma codebook_len q :
  pq_ok q → pq_u32 q → pq_codebook_serialized_len (q_d q) (q_m q) (q_ksub q) = Ok (zlen (codebook_bytes q)).
Proof.
  intros Hok Hu. pose proof (m_pos q Hok). pose proof (ok_d q Hok). pose proof (ksub_pos q Hok). pose proof Hu as (Hd & Hm & _).
  destruct (codebook_bytes_split q Hok Hu) as (-> & _). apply pq_codebook_serialized_len_total; lia.
Qed.

Lemma decode_codebook norm h q :
  pq_ok q → pq_u32 q → Forall f32_is_finite (q_centroids q) → try_set_centroids norm q (q_centroids q) = Ok q →
  dimension h = q_d q → pq_m h = q_m q → pq_bits h = q_nbits q → decode_pq_codebook norm (codebook_bytes q) h = Ok q.
Proof.
  intros Hok Hu Hf Hset Ed Em Eb. pose proof (m_pos q Hok) as Hmp. pose proof (ok_d q Hok). pose proof (ksub_pos q Hok).
  pose proof Hu as (Hd & Hm & _). destruct (codebook_bytes_split q Hok Hu) as (Hlen & Eo & Ec). pose proof (codebook_len q Hok Hu) as Eser.
  unfold decode_pq_codebook. rewrite Ed, Em, Eb.
  pass by (rewrite Hlen; unfold PQ_CODEBOOK_HEADER_SIZE; apply negb_true_iff, Z.ltb_ge; nia).
  pose proof (λ i v off, codebook_field q (concat (le_bytes 4 <$> q_chunk_offsets q) ++ concat (le_bytes 4 <$> q_centroids q)) i v off Hok Hu) as Hg.
  fold (codebook_bytes q) in Hg.
  rewrite (Hg 0%nat _ 0%nat eq_refl eq_refl), (Hg 1%nat _ 4%nat eq_refl eq_refl), (Hg 2%nat _ 8%nat eq_refl eq_refl), (Hg 3%nat _ 12%nat eq_refl eq_refl),
    (Hg 4%nat _ 16%nat eq_refl eq_refl), (Hg 5%nat _ 20%nat eq_refl eq_refl), (Hg 6%nat _ 24%nat eq_refl eq_refl), (Hg 7%nat _ 28%nat eq_refl eq_refl).
  pass by (by rewrite !Z.eqb_refl).
  assert (diskann_pq_ksub (q_nbits q) = Ok (q_ksub q)) as -> by (rewrite (ok_ksub q Hok); by destruct (ok_nbits q Hok) as [-> | ->]).
  cbn [mbind io_result_bind].
  pass by (rewrite wrap_small, (ok_m q Hok), Z.sub_add, !Z.eqb_refl by (unfold u_ok; lia); done).
  pass. unfold PQ_CODEBOOK_HEADER_SIZE. pass. rewrite Eser. cbn [mbind io_result_bind]. pass by (apply Z.eqb_refl).
  replace (32 + (q_m q + 1) * 4 - 32) with ((q_m q + 1) * 4) by lia. change (Z.to_nat 32) with 32%nat. rewrite Eo, Ec.
  destruct (try_with_chunk_offsets_ok (q_d q) (q_nbits q) (q_chunk_offsets q)) as (dsub & Hmax & ->); [done|apply Hok..|].
  rewrite (ok_dsub q Hok) in Hmax. injection Hmax as <-. cbn [mbind io_result_bind].
  rewrite try_fold_check by (apply forallb_forall; intros x Hx%list_elem_of_In; rewrite Forall_forall in Hf; apply Is_true_true, Hf, Hx).
  cbn [app mbind io_result_bind]. rewrite try_set_centroids_plan, Hset by done. cbn [mbind io_result_bind].
  rewrite (proj2 (has_valid_layout_true q ltac:(lia)) Hok). cbn [mbind io_result_bind]. by pass.
Qed.

(** The codebook section written for a valid quantizer is read back, under
    the header that describes it, as the very quantizer that was written, its
    chunk plan, centroids and derived caches included. *)
Theorem pq_codebook_roundtrip `{LW : SeekWriteLaws W, IW : !InfallibleWrite W} (norm : list Z → Z) (h : DiskAnnHeader)
    (q : ProductQuantizer) (w : ChunkedSectionWriter W) :
  pq_ok q → pq_u32 q → Forall f32_is_finite (q_centroids q) → try_set_centroids norm q (q_centroids q) = Ok q →
  dimension h = q_d q → pq_m h = q_m q → pq_bits h = q_nbits q → cw_ok w →
  ∃ w' bytes, write_pq_codebook q w = Ok w' ∧ appends w w' bytes ∧
    pq_codebook_serialized_len (q_d q) (q_m q) (q_ksub q) = Ok (zlen bytes) ∧ decode_pq_codebook norm bytes h = Ok q.
Proof.
  intros Hok Hu Hf Hset Ed Em Eb Hw. destruct (write_pq_codebook_spec q w Hok Hu Hw) as (w' & E & Ha).
  exists w', (codebook_bytes q). split_and!; [done|done|by apply codebook_len|by apply decode_codebook].
Qed.

(** ** Concrete quantizer: four components in three chunks, four-bit codes *)

Definition demo_norm (c : list Z) : Z := default 0 (head c).
Definition demo_pq : ProductQuantizer :=
  match (q ← with_nbits_balanced 4 3 4; try_set_centroids demo_norm q (seqZ 0 64)) with
  | Ok q => q
  | _ => Quantizer 0 0 0 0 0 [] [] true []
  end.
Definition demo_distances (sub : nat) : list Z := reverse (seqZ (Z.of_nat sub) 16).

Lemma demo_pq_ok : pq_ok demo_pq.
Proof. apply has_valid_layout_true; vm_compute; done. Qed.

Lemma demo_pq_u32 : pq_u32 demo_pq.
Proof.
  split_and!; [by vm_compute..|]. replace (q_centroids demo_pq) with (seqZ 0 64) by (vm_compute; reflexivity).
  apply Forall_forall. intros x Hx%elem_of_seqZ. unfold_widths. lia.
Qed.

Lemma pq_decode_encode_witness :
  ∃ bytes, pq_encode demo_distances demo_pq [0; 0] = Ok bytes ∧ zlen bytes = code_size demo_pq ∧
    pq_decode demo_pq bytes [7; 7; 7; 7; 7] =
      Ok (concat ((λ sub, centroid demo_pq sub (argmin_code (demo_distances sub))) <$> seq 0 (Z.to_nat (q_m demo_pq))) ++
          drop (Z.to_nat (q_d demo_pq)) [7; 7; 7; 7; 7]) ∧
    ∀ sub, (sub < Z.to_nat (q_m demo_pq))%nat →
      ∃ least, argmin_spec (demo_distances sub) (Z.to_nat (argmin_code (demo_distances sub)), least).
Proof.
  refine (pq_decode_encode demo_pq demo_distances [0; 0] [7; 7; 7; 7; 7] demo_pq_ok _ _ _); [|vm_compute; reflexivity|by vm_compute].
  intros sub _. unfold demo_distances, zlen. rewrite length_reverse, length_seqZ. vm_compute. reflexivity.
Defined.

Definition demo_pq_header : DiskAnnHeader :=
  match for_layout_with_adjacency_pages_and_pq_bits 4 10 3 3 4 L2 default_build_params 40 1 with Ok h => h | _ => demo_header end.

Lemma pq_codes_padding_accepted_witness :
  validate_pq_code_padding demo_pq_header (concat [[255; 15]; [255; 15]]) = Ok ().
Proof.
  refine (pq_codes_padding_accepted demo_pq_header demo_pq [demo_distances; demo_distances] [[0; 0]; [9; 9]] _ demo_pq_ok
    _ _ _ _); [vm_compute; reflexivity..| |].
  - repeat constructor; intros sub _; unfold demo_distances, zlen; rewrite length_reverse, length_seqZ; vm_compute; reflexivity.
  - repeat constructor; vm_compute; reflexivity.
Defined.

Lemma pq_balanced_layout_witness :
  ∃ q, with_nbits_balanced 7 3 8 = Ok q ∧ try_with_chunk_offsets 7 8 (q_chunk_offsets q) = Ok (inr q) ∧
    q_m q = 3 ∧ q_ksub q = 2 ^ 8 ∧ offsets_ok 7 (q_chunk_offsets q) ∧
    ∀ sub, (sub < Z.to_nat 3)%nat → ∃ start,
      chunk_range q sub = Ok (start, start + 7 / 3 + (if Z.of_nat sub <? 7 mod 3 then 1 else 0)).
Proof. refine (pq_balanced_layout 7 3 8 _ _); [lia|by right]. Defined.

Lemma pq_codebook_roundtrip_witness :
  ∃ w' bytes, write_pq_codebook demo_pq (chunked_new (pos_writer_new [])) = Ok w' ∧
    appends (chunked_new (pos_writer_new [])) w' bytes ∧
    pq_codebook_serialized_len (q_d demo_pq) (q_m demo_pq) (q_ksub demo_pq) = Ok (zlen bytes) ∧
    decode_pq_codebook demo_norm bytes demo_pq_header = Ok demo_pq.
Proof.
  refine (pq_codebook_roundtrip demo_norm demo_pq_header demo_pq (chunked_new (pos_writer_new [])) demo_pq_ok demo_pq_u32 _ _
    _ _ _ _); [|vm_compute; reflexivity..|by vm_compute].
  - apply forallb_True. vm_compute. exact I.
Defined.
