(* ===== verification/DiskannFile.v ===== *)
(** The DiskANN file as a whole: [write_diskann_index_with_stats] and the
    readers of the resident sections of [core/src/diskann_io.rs], with the index
    data they serialise from [core/src/diskann.rs].

    The graph the writer serialises is the result of [prepare_build]; it is an
    argument here, as the record the code hands over.  The statistics the writer
    returns are timings and are left out. *)

From stdpp Require Import sorting.
From S2P Require Import Prelude SeekIo IndexIoUtil F32 Adjacency DiskannUtil RowIds DiskannHeader SectionWriter.
From S2P Require Import AdjacencyLayout Pq.

(** The graph as the writer reads it: the entry and [adjacency.iter()]. *)
Record GraphLists := ListsOf { graph_entry_node : Z; graph_adjacency : list (list Z) }.
Record DiskAnnIndex := DiskAnn {
  ix_d : Z;
  ix_metric : MetricType;
  ix_pq : ProductQuantizer;
  ix_build_params : DiskAnnBuildParams;
  ix_ids : list Z;
  ix_vectors : list Z;
}.
Record PreparedDiskAnn := Prepared {
  graph : GraphLists;
  permutation : LocalityPermutation;
  prepared_pq_codes : list Z;
}.

(** Rows of the original order, by the node's new position. *)
Definition prepared_row_id (p : PreparedDiskAnn) (index : DiskAnnIndex) (new_id : nat) : io_result Z :=
  old_id ← expect (new_to_old (permutation p) !! new_id);
  expect (ix_ids index !! Z.to_nat old_id).
Definition prepared_vector (p : PreparedDiskAnn) (index : DiskAnnIndex) (new_id : nat) : io_result (list Z) :=
  old_id ← expect (new_to_old (permutation p) !! new_id);
  expect (get_slice (Z.to_nat (old_id * ix_d index)) (Z.to_nat (ix_d index)) (ix_vectors index)).
Definition prepared_pq_code (p : PreparedDiskAnn) (index : DiskAnnIndex) (new_id : nat) : io_result (list Z) :=
  old_id ← expect (new_to_old (permutation p) !! new_id);
  let size := code_size (ix_pq index) in
  expect (get_slice (Z.to_nat (old_id * size)) (Z.to_nat size) (prepared_pq_codes p)).

(** ** The row-ID order

    [sort_unstable_by] on a key without ties, the row ID and then the node. *)
Definition key_le (a b : Z * Z) : Prop := key_leb a b = true.
#[export] Instance key_le_dec : RelDecision key_le := λ a b, decide (key_leb a b = true).
Definition row_id_keys (row_ids : list Z) : list (Z * Z) := imap (λ node id, (id, Z.of_nat node)) row_ids.
Definition sort_row_id_order (row_ids : list Z) : list Z := snd <$> merge_sort key_le (row_id_keys row_ids).

Section Writer.
Context `{SeekWrite W} (f16_from_f32 : Z → Z) (f16_is_finite : Z → bool).

(** The encoded vector in front of a record of interleaved pages. *)
Definition interleaved_vector (index : DiskAnnIndex) (prepared : PreparedDiskAnn) (node : nat) : io_result (option (list Z)) :=
  match bp_storage_layout (ix_build_params index) with
  | Interleaved =>
      v ← prepared_vector prepared index node;
      encoded ← encode_raw_vector f16_from_f32 f16_is_finite v (bp_raw_vector_encoding (ix_build_params index));
      Ok (Some encoded)
  | Compact => Ok None
  end.

Definition write_vector_records (index : DiskAnnIndex) (prepared : PreparedDiskAnn) (h : DiskAnnHeader) (out : W) : io_result W :=
  encoding ← expect (encoding_from_code (raw_vector_encoding h));
  writer ← try_fold (λ writer new_id,
      v ← prepared_vector prepared index new_id;
      encoded ← encode_raw_vector f16_from_f32 f16_is_finite v encoding;
      write_bytes writer encoded) (chunked_new out) (seq 0 (length (ix_ids index)));
  finish writer.

(** The row IDs in the new order are looked up several times; they are listed once here. *)
Definition prepared_row_ids (prepared : PreparedDiskAnn) (index : DiskAnnIndex) : io_result (list Z) :=
  try_fold (λ ids new_id, id ← prepared_row_id prepared index new_id; Ok (ids ++ [id])) [] (seq 0 (length (ix_ids index))).

Definition write_diskann_index (index : DiskAnnIndex) (prepared : PreparedDiskAnn) (out : W) : io_result W :=
  _ ← ensure_input (pos out =? 0) "DiskANN output must start at offset zero";
  let build := ix_build_params index in
  interleaved_vector_bytes ←
    match bp_storage_layout build with
    | Compact => Ok 0
    | Interleaved => or_input (checked_mul 64 (ix_d index) (element_size (bp_raw_vector_encoding build)))
                       "DiskANN raw vector size overflows usize"
    end;
  adjacency_layout ← plan_adjacency_layout (graph_adjacency (graph prepared)) interleaved_vector_bytes;
  new_ids ← prepared_row_ids prepared index;
  row_ids ← encode_from_fn (length (ix_ids index)) (λ new_id, default 0 (new_ids !! new_id));
  row_ids_len ← serialized_len row_ids;
  h ← for_layout_with_adjacency_pages_and_pq_bits (ix_d index) (zlen (ix_ids index)) (graph_entry_node (graph prepared))
        (q_m (ix_pq index)) (q_nbits (ix_pq index)) (ix_metric index) build row_ids_len (page_count adjacency_layout);
  out ← write_all out (encode h);
  out ← pad_to out (offset (codebook (sections h)));
  writer ← write_pq_codebook (ix_pq index) (chunked_new out);
  writer ← write_row_id_section row_ids writer;
  writer ← try_fold (λ writer new_id, code ← prepared_pq_code prepared index new_id; write_bytes writer code)
             writer (seq 0 (length (ix_ids index)));
  writer ← try_fold (λ writer node, write_bytes writer (le_bytes 4 node)) writer (sort_row_id_order new_ids);
  writer ← write_adjacency_index adjacency_layout writer;
  out ← finish writer;
  out ← pad_to out (offset (adjacency (sections h)));
  writer ← write_adjacency_pages (interleaved_vector index prepared) (graph_adjacency (graph prepared)) adjacency_layout
             (chunked_new out);
  out ← finish writer;
  out ← (if negb (is_interleaved h) then write_vector_records index prepared h out else Ok out);
  _ ← ensure_input (pos out =? file_len h) "DiskANN writer ended before the expected length";
  Ok out.

End Writer.

(** ** Reading the resident sections *)

Definition DISKANN_RESIDENT_DECODE_BUFFER_SIZE : Z := 1024 * 1024.

Section Reader.
Context `{SeekRead R}.

(** One read of the header at open. *)
Definition read_header (reader : R) : io_result DiskAnnHeader * R :=
  match pread reader [Request 0 (Z.to_nat DISKANN_HEADER_SIZE)] with
  | (Ok (bytes :: _), reader) => (decode bytes, reader)
  | (Ok [], reader) => (Panic, reader)
  | (Err e, reader) => (Err (map_read_error e), reader)
  | (Panic, reader) => (Panic, reader)
  end.

(** [while loaded < section_len]; every round reads at least one byte. *)
Fixpoint read_u32_loop (fuel : nat) (reader : R) (s : SectionRange) (section_len scratch_len loaded : Z) (values : list Z) :
    io_result (list Z) * R :=
  match fuel with
  | O => (Ok values, reader)
  | S fuel =>
      if loaded <? section_len then
        let chunk_len := Z.min (section_len - loaded) scratch_len in
        match pread reader [Request (offset s + loaded) (Z.to_nat chunk_len)] with
        | (Ok (chunk :: _), reader) =>
            read_u32_loop fuel reader s section_len scratch_len (loaded + chunk_len) (values ++ (le_val <$> chunks_exact 4 chunk))
        | (Ok [], reader) => (Panic, reader)
        | (Err e, reader) => (Err (map_read_error e), reader)
        | (Panic, reader) => (Panic, reader)
        end
      else (Ok values, reader)
  end.
Definition read_u32_section (reader : R) (s : SectionRange) : io_result (list Z) * R :=
  match section_len_usize s with
  | Ok section_len =>
      if negb (section_len mod 4 =? 0) then (invalid_data "DiskANN section is not u32-aligned", reader)
      else
        let scratch_len := Z.max (Z.min section_len DISKANN_RESIDENT_DECODE_BUFFER_SIZE) 4 in
        read_u32_loop (S (Z.to_nat section_len)) reader s section_len scratch_len 0 []
  | Err e => (Err e, reader)
  | Panic => (Panic, reader)
  end.

(** [while start < payloads.len()]: calls of at most [max_ranges] requests. *)
Fixpoint pread_sections (fuel : nat) (reader : R) (max_ranges : nat) (requests : list ReadRequest) :
    io_result (list (list Z)) * R :=
  match fuel with
  | O => (Ok [], reader)
  | S fuel =>
      match requests with
      | [] => (Ok [], reader)
      | _ =>
          match pread reader (take max_ranges requests) with
          | (Ok payloads, reader) =>
              let '(rest, reader) := pread_sections fuel reader max_ranges (drop max_ranges requests) in
              (app payloads <$> rest, reader)
          | (Err e, reader) => (Err (map_read_error e), reader)
          | (Panic, reader) => (Panic, reader)
          end
      end
  end.

Definition resident_ranges (h : DiskAnnHeader) : list SectionRange :=
  [codebook (sections h); row_ids (sections h); pq_codes (sections h); adjacency_index (sections h);
   Section_ (file_len h - 1) 1].

Definition section_requests (ranges : list SectionRange) : io_result (list ReadRequest) :=
  try_fold (λ requests s, len ← section_len_usize s; Ok (requests ++ [Request (offset s) (Z.to_nat len)])) [] ranges.

Definition decode_resident (fvec_norm_l2sqr : list Z → Z) (h : DiskAnnHeader) (payloads : list (list Z)) :
    io_result (ProductQuantizer * RowIdStorage * list Z * AdjacencyIndex) :=
  match payloads with
  | [codebook_bytes; row_id_bytes; codes; index_bytes; _file_tail] =>
      pq ← decode_pq_codebook fvec_norm_l2sqr codebook_bytes h;
      row_ids ← decode_row_id_section_owned row_id_bytes (Z.to_nat (vector_count h));
      index ← decode_adjacency_index index_bytes h;
      Ok (pq, row_ids, codes, index)
  | _ => Panic
  end.

(** [max_ranges_per_pread] of zero means no limit; [usize::MAX] is above the five requests. *)
Definition read_resident_sections (fvec_norm_l2sqr : list Z → Z) (reader : R) (h : DiskAnnHeader) :
    io_result (ProductQuantizer * RowIdStorage * list Z * AdjacencyIndex) * R :=
  match section_requests (resident_ranges h) with
  | Ok requests =>
      let max_ranges :=
        let n := max_ranges_per_pread (read_capabilities reader) in
        if n =? 0 then length requests else Z.to_nat n in
      match pread_sections (S (length requests)) reader max_ranges requests with
      | (Ok payloads, reader) => (decode_resident fvec_norm_l2sqr h payloads, reader)
      | (Err e, reader) => (Err e, reader)
      | (Panic, reader) => (Panic, reader)
      end
  | Err e => (Err e, reader)
  | Panic => (Panic, reader)
  end.

End Reader.

(** ** The row-ID order the writer stores is the one the reader accepts *)

#[export] Instance key_le_total : Total key_le.
Proof. intros [a1 a2] [b1 b2]. unfold key_le, key_leb. cbn. rewrite !orb_true_iff, !andb_true_iff. lia. Qed.
#[export] Instance key_le_trans : Transitive key_le.
Proof. intros [a1 a2] [b1 b2] [c1 c2]. unfold key_le, key_leb. cbn. rewrite !orb_true_iff, !andb_true_iff. lia. Qed.

Lemma row_id_keys_lookup ids i key : row_id_keys ids !! i = Some key ↔ ∃ id, ids !! i = Some id ∧ key = (id, Z.of_nat i).
Proof.
  unfold row_id_keys. rewrite list_lookup_imap. destruct (ids !! i); cbn; naive_solver.
Qed.

Lemma row_id_keys_NoDup ids : NoDup (row_id_keys ids).
Proof.
  apply NoDup_alt. intros i j k Hi Hj. apply row_id_keys_lookup in Hi as (? & _ & ->), Hj as (? & _ & [= _ E]). lia.
Qed.

Lemma strictly_sorted keys : NoDup keys → StronglySorted key_le keys → StronglySorted key_lt keys.
Proof.
  intros Hnd. induction 1 as [|k keys Hs IH Hf]; [constructor|]. apply NoDup_cons in Hnd as [Hni Hnd]. constructor; [by apply IH|].
  apply Forall_forall. intros k' Hk'. rewrite Forall_forall in Hf. specialize (Hf k' Hk').
  assert (k ≠ k') as Hne by (by intros ->). destruct k as [a b], k' as [a' b']. unfold key_le, key_leb, key_lt in *. cbn in *.
  apply orb_true_iff in Hf as [Hf|Hf]; [lia|]. apply andb_true_iff in Hf as [E1 E2].
  assert (b ≠ b') by (intros ->; apply Hne; f_equal; lia). lia.
Qed.

Lemma row_id_order_loop_ok s prev keys :
  Forall (λ key, get s (Z.to_nat key.2) = Some key.1) keys → StronglySorted key_lt keys →
  match prev with Some p => Forall (key_lt p) keys | None => True end →
  row_id_order_loop s prev (snd <$> keys) = Ok ().
Proof.
  revert prev. induction keys as [|[id node] keys IH]; intros prev Hg Hs Hp; [done|]. cbn [fmap list_fmap snd row_id_order_loop].
  apply list.Forall_cons in Hg as [Hg0 Hg]. cbn in Hg0. rewrite Hg0. cbn [or_data ok_or mbind io_result_bind].
  inversion Hs as [|? ? Hs' Hf]; subst.
  pass by (destruct prev as [p|]; [|done]; apply list.Forall_cons in Hp as [Hp _]; apply negb_true_iff, key_leb_false, Hp).
  by apply IH.
Qed.

Lemma row_id_order_accepted s ids :
  (∀ node, get s node = ids !! node) → row_id_len s = length ids →
  Forall (λ node, 0 <= node < zlen ids) (sort_row_id_order ids) ∧ length (sort_row_id_order ids) = length ids ∧
  validate_row_id_order s (sort_row_id_order ids) = Ok ().
Proof.
  intros Hget Hlen. set (keys := merge_sort key_le (row_id_keys ids)).
  assert (keys ≡ₚ row_id_keys ids) as Hperm by apply merge_sort_Permutation.
  assert (length keys = length ids) as Hl by (rewrite Hperm; unfold row_id_keys; by rewrite length_imap).
  assert (Forall (λ key : Z * Z, ids !! Z.to_nat key.2 = Some key.1 ∧ 0 <= key.2 < zlen ids) keys) as Hkeys.
  { apply Forall_forall. intros key Hk. rewrite Hperm in Hk. apply list_elem_of_lookup_1 in Hk as [i Hi].
    apply row_id_keys_lookup in Hi as (id & Hi & ->). cbn. rewrite Nat2Z.id. split; [done|]. apply lookup_lt_Some in Hi. unfold zlen. lia. }
  unfold sort_row_id_order. fold keys. split_and!.
  - apply Forall_fmap. eapply Forall_impl; [exact Hkeys|]. by intros key [_ ?].
  - by rewrite length_fmap.
  - unfold validate_row_id_order. pass by (rewrite length_fmap, Hl, Hlen; apply Nat.eqb_refl).
    apply row_id_order_loop_ok; [|apply strictly_sorted|done].
    + eapply Forall_impl; [exact Hkeys|]. intros key [Hk _]. by rewrite Hget.
    + rewrite Hperm. apply row_id_keys_NoDup.
    + apply (StronglySorted_merge_sort _).
Qed.

(** ** What the writer is given *)

Definition vector_prefix (index : DiskAnnIndex) : Z :=
  match bp_storage_layout (ix_build_params index) with
  | Compact => 0
  | Interleaved => ix_d index * element_size (bp_raw_vector_encoding (ix_build_params index))
  end.

Section FileLaws.
Context (f16_from_f32 : Z → Z) (f16_is_finite : Z → bool).

(** A consistent index with the plan, the row-ID storage and the header its
    parameters lead to. *)
Record writable (index : DiskAnnIndex) (prepared : PreparedDiskAnn) (layout : AdjacencyLayout) (new_ids : list Z)
    (rids : RowIdStorage) (h : DiskAnnHeader) : Prop := {
  wr_count : count_ok (length (ix_ids index));
  wr_ids : Forall i64 (ix_ids index);
  wr_permutation : ∀ i, (i < length (ix_ids index))%nat →
    ∃ old, new_to_old (permutation prepared) !! i = Some old ∧ 0 <= old < zlen (ix_ids index);
  wr_d : 0 <= ix_d index;
  wr_vectors : zlen (ix_vectors index) = zlen (ix_ids index) * ix_d index;
  wr_encodable : ∀ i v, prepared_vector prepared index i = Ok v →
    ∃ bytes, encode_raw_vector f16_from_f32 f16_is_finite v (bp_raw_vector_encoding (ix_build_params index)) = Ok bytes;
  wr_codes : zlen (prepared_pq_codes prepared) = zlen (ix_ids index) * code_size (ix_pq index);
  wr_pq : pq_ok (ix_pq index);
  wr_pq_u32 : pq_u32 (ix_pq index);
  wr_pq_d : q_d (ix_pq index) = ix_d index;
  wr_adjacency : length (graph_adjacency (graph prepared)) = length (ix_ids index);
  wr_lists : lists_ok (graph_adjacency (graph prepared));
  wr_degrees : Forall (λ ns, zlen ns <= bp_max_degree (ix_build_params index)) (graph_adjacency (graph prepared));
  wr_plan : plan_adjacency_layout (graph_adjacency (graph prepared)) (vector_prefix index) = Ok layout;
  wr_inside : inside_pages (locators layout);
  wr_new_ids : prepared_row_ids prepared index = Ok new_ids;
  wr_rids : encode_from_fn (length (ix_ids index)) (λ i, default 0 (new_ids !! i)) = Ok rids;
  wr_args : layout_args_ok (ix_d index) (zlen (ix_ids index)) (graph_entry_node (graph prepared)) (q_m (ix_pq index))
    (q_nbits (ix_pq index)) (ix_build_params index) (zlen (concat (row_id_section_chunks rids))) (page_count layout);
  wr_header : for_layout_with_adjacency_pages_and_pq_bits (ix_d index) (zlen (ix_ids index)) (graph_entry_node (graph prepared))
    (q_m (ix_pq index)) (q_nbits (ix_pq index)) (ix_metric index) (ix_build_params index)
    (zlen (concat (row_id_section_chunks rids))) (page_count layout) = Ok h;
}.

(** ** Listing what the loops read *)

Lemma collect_seq {A} (f : nat → io_result A) (P : A → Prop) n :
  (∀ i, (i < n)%nat → ∃ x, f i = Ok x ∧ P x) →
  ∃ xs, length xs = n ∧ ∀ i x, xs !! i = Some x → f i = Ok x ∧ P x.
Proof.
  induction n as [|n IH]; intros H; [by exists []|]. destruct IH as (xs & Hl & Hxs); [intros; apply H; lia|].
  destruct (H n ltac:(lia)) as (x & Hx & HP). exists (xs ++ [x]). split; [rewrite length_app; cbn; lia|].
  intros i y [Hi|[Hi Hy]]%lookup_app_Some; [by apply Hxs|]. apply list_lookup_singleton_Some in Hy as [Hi' ->].
  replace i with n by lia. done.
Qed.

Lemma prepared_row_ids_listed index prepared :
  Forall i64 (ix_ids index) →
  (∀ i, (i < length (ix_ids index))%nat → ∃ old, new_to_old (permutation prepared) !! i = Some old ∧ 0 <= old < zlen (ix_ids index)) →
  ∃ ids, prepared_row_ids prepared index = Ok ids ∧ length ids = length (ix_ids index) ∧ Forall i64 ids ∧
    ∀ i id, ids !! i = Some id → prepared_row_id prepared index i = Ok id.
Proof.
  intros Hi64 Hperm. destruct (collect_seq (prepared_row_id prepared index) i64 (length (ix_ids index))) as (ids & Hl & Hids).
  { intros i Hi. destruct (Hperm i Hi) as (old & Ho & Hb).
    destruct (lookup_lt_is_Some_2 (ix_ids index) (Z.to_nat old)) as [id Hid]; [unfold zlen in Hb; lia|].
    exists id. unfold prepared_row_id. rewrite Ho. cbn [expect mbind io_result_bind]. rewrite Hid. split; [done|].
    exact (Forall_lookup_1 _ _ _ _ Hi64 Hid). }
  exists ids. split_and!; [|done|apply Forall_lookup_2; intros i x Hx; by apply (Hids i)|intros i x Hx; by apply Hids].
  unfold prepared_row_ids. rewrite <- Hl. rewrite (try_fold_snoc (prepared_row_id prepared index) (λ i, default 0 (ids !! i))).
  - f_equal. apply list_eq. intros i. cbn [app]. rewrite list_lookup_fmap.
    destruct (decide (i < length ids)%nat) as [Hi|Hi].
    + rewrite lookup_seq_lt by done. cbn. destruct (lookup_lt_is_Some_2 ids i Hi) as [x Hx]. by rewrite Hx.
    + rewrite lookup_ge_None_2 by (rewrite length_seq; lia). cbn. by rewrite lookup_ge_None_2 by lia.
  - intros i Hi%elem_of_seq. destruct (lookup_lt_is_Some_2 ids i) as [x Hx]; [lia|]. rewrite Hx. by apply Hids.
Qed.

Lemma write_collected `{SeekWrite W} {A} (f : nat → io_result A) (g : A → list Z) (w : ChunkedSectionWriter W) xs :
  (∀ i x, xs !! i = Some x → f i = Ok x) →
  try_fold (λ w i, x ← f i; write_bytes w (g x)) w (seq 0 (length xs)) = write_chunks w (g <$> xs).
Proof.
  intros Hf. unfold write_chunks. rewrite try_fold_fmap. revert w. induction xs as [|x xs IH] using rev_ind; intros w; [done|].
  rewrite length_app, seq_app, !try_fold_app. rewrite IH.
  - destruct (try_fold _ w xs) as [w1| |]; cbn [mbind io_result_bind]; [|done..]. cbn [length seq try_fold Nat.add].
    by rewrite (Hf (length xs) x) by (by rewrite list_lookup_middle).
  - intros i y Hy. apply Hf. by apply lookup_app_l_Some.
Qed.

Lemma encode_raw_vector_length v enc bytes :
  encode_raw_vector f16_from_f32 f16_is_finite v enc = Ok bytes → zlen bytes = zlen v * element_size enc.
Proof.
  unfold encode_raw_vector. intros H. bind_ok H as n Hn. clear Hn. destruct enc.
  - injection H as <-. unfold zlen. rewrite length_le_list. cbn. lia.
  - assert (∀ acc out, try_fold (λ encoded value, let value := f16_from_f32 value in
      _ ← ensure_input (f16_is_finite value) "DiskANN vector value is outside the finite f16 range";
      Ok (encoded ++ le_bytes 2 value)) acc v = Ok out → zlen out = zlen acc + 2 * zlen v) as Hloop.
    { clear. induction v as [|x v IH]; intros acc out H; cbn [try_fold] in H; [injection H as <-; unfold zlen; cbn; lia|].
      bind_ok H as acc' Hacc. guard_ok Hacc as Hf. injection Hacc as <-. apply IH in H. rewrite H, zlen_app.
      unfold zlen. rewrite le_bytes_length. cbn [length]. lia. }
    apply Hloop in H. rewrite H. unfold zlen. cbn. lia.
Qed.

Section Writable.
Context (index : DiskAnnIndex) (prepared : PreparedDiskAnn) (layout : AdjacencyLayout) (new_ids : list Z)
  (rids : RowIdStorage) (h : DiskAnnHeader) (Hw : writable index prepared layout new_ids rids h).

Lemma row_slice (d : Z) (rows : list Z) i old :
  new_to_old (permutation prepared) !! i = Some old → 0 <= old < zlen (ix_ids index) → 0 <= d →
  zlen rows = zlen (ix_ids index) * d →
  ∃ row, (old ← expect (new_to_old (permutation prepared) !! i);
          expect (get_slice (Z.to_nat (old * d)) (Z.to_nat d) rows)) = Ok row ∧ zlen row = d.
Proof.
  clear Hw. intros Hi Hold Hd Hl. rewrite Hi. cbn [expect mbind io_result_bind].
  assert ((old + 1) * d <= zlen (ix_ids index) * d) by (apply Z.mul_le_mono_nonneg_r; lia).
  assert (0 <= old * d) by (apply Z.mul_nonneg_nonneg; lia).
  exists (slice (Z.to_nat (old * d)) (Z.to_nat d) rows). split.
  - assert (get_slice (Z.to_nat (old * d)) (Z.to_nat d) rows = Some (slice (Z.to_nat (old * d)) (Z.to_nat d) rows)) as ->; [|done].
    apply get_slice_Some. unfold zlen in *. split; [lia|done].
  - unfold zlen, slice in *. rewrite length_take, length_drop. lia.
Qed.

Lemma vector_prefix_nonneg : 0 <= vector_prefix index.
Proof.
  pose proof (wr_d _ _ _ _ _ _ Hw). unfold vector_prefix.
  destruct (bp_storage_layout (ix_build_params index)), (bp_raw_vector_encoding (ix_build_params index)); cbn; lia.
Qed.

Lemma code_size_nonneg : 0 <= code_size (ix_pq index).
Proof.
  pose proof (m_pos _ (wr_pq _ _ _ _ _ _ Hw)). unfold code_size. pose proof (div_ceil_spec (q_m (ix_pq index)) 2). case_match; lia.
Qed.

Lemma codes_listed : ∃ codes, length codes = length (ix_ids index) ∧
  ∀ i c, codes !! i = Some c → prepared_pq_code prepared index i = Ok c ∧ zlen c = code_size (ix_pq index).
Proof.
  apply collect_seq. intros i Hi. destruct (wr_permutation _ _ _ _ _ _ Hw i Hi) as (old & Ho & Hb).
  apply (row_slice _ _ i old); [done..|apply code_size_nonneg|apply Hw].
Qed.

(** Encoded vectors, in the new order. *)
Lemma vectors_listed : ∃ vecs, length vecs = length (ix_ids index) ∧
  ∀ i b, vecs !! i = Some b →
    (v ← prepared_vector prepared index i;
     encode_raw_vector f16_from_f32 f16_is_finite v (bp_raw_vector_encoding (ix_build_params index))) = Ok b ∧
    zlen b = ix_d index * element_size (bp_raw_vector_encoding (ix_build_params index)).
Proof.
  apply collect_seq. intros i Hi. destruct (wr_permutation _ _ _ _ _ _ Hw i Hi) as (old & Ho & Hb).
  destruct (row_slice (ix_d index) (ix_vectors index) i old) as (v & Hv & Hl); [done..|apply Hw|apply Hw|].
  change (prepared_vector prepared index i = Ok v) in Hv. destruct (wr_encodable _ _ _ _ _ _ Hw i v Hv) as [b Hb'].
  exists b. rewrite Hv. cbn [mbind io_result_bind]. split; [done|]. rewrite (encode_raw_vector_length _ _ _ Hb'). by rewrite Hl.
Qed.

Lemma new_ids_spec : length new_ids = length (ix_ids index) ∧ Forall i64 new_ids ∧
  ∀ i id, new_ids !! i = Some id → prepared_row_id prepared index i = Ok id.
Proof.
  destruct (prepared_row_ids_listed index prepared) as (ids & E & Hids); [apply Hw|apply Hw|].
  rewrite (wr_new_ids _ _ _ _ _ _ Hw) in E. by injection E as <-.
Qed.

Lemma rids_stored : stores rids (length (ix_ids index)) (λ i, default 0 (new_ids !! i)).
Proof.
  destruct new_ids_spec as (Hl & Hi & _). destruct (encode_from_fn_spec (length (ix_ids index)) (λ i, default 0 (new_ids !! i))) as (s & E & Hs).
  - apply Hw.
  - intros i Hi'. destruct (lookup_lt_is_Some_2 new_ids i) as [x Hx]; [lia|]. rewrite Hx. exact (Forall_lookup_1 _ _ _ _ Hi Hx).
  - rewrite (wr_rids _ _ _ _ _ _ Hw) in E. by injection E as <-.
Qed.


(** ** The file *)

Definition section_bytes (file : list Z) (s : SectionRange) : list Z :=
  slice (Z.to_nat (offset s)) (Z.to_nat (sec_length s)) file.

Lemma section_bytes_mid (pre mid post : list Z) s :
  offset s = zlen pre → sec_length s = zlen mid → section_bytes (pre ++ mid ++ post) s = mid.
Proof.
  clear. intros Ho Hl. unfold section_bytes, slice. rewrite Ho, Hl. unfold zlen. rewrite !Nat2Z.id.
  by rewrite drop_app_length, take_app_length.
Qed.

(** The contents of every section. *)
Record file_holds (file : list Z) (codes vecs : list (list Z)) : Prop := {
  fh_len : zlen file = file_len h;
  fh_header : take 256 file = encode h;
  fh_codebook : section_bytes file (codebook (sections h)) = codebook_bytes (ix_pq index);
  fh_row_ids : section_bytes file (row_ids (sections h)) = concat (row_id_section_chunks rids);
  fh_codes : section_bytes file (pq_codes (sections h)) = concat codes;
  fh_order : section_bytes file (row_id_order (sections h)) = concat (le_bytes 4 <$> sort_row_id_order new_ids);
  fh_index : section_bytes file (adjacency_index (sections h)) = index_bytes (index_of (locators layout));
  fh_pages : pages_hold (section_bytes file (adjacency (sections h))) layout (graph_adjacency (graph prepared))
    (vector_prefix index) (match bp_storage_layout (ix_build_params index) with Compact => replicate (length vecs) [] | Interleaved => vecs end);
  fh_vectors : section_bytes file (vectors (sections h)) =
    match bp_storage_layout (ix_build_params index) with Compact => concat vecs | Interleaved => [] end;
}.

Lemma header_facts :
  header_matches h (ix_d index) (zlen (ix_ids index)) (graph_entry_node (graph prepared)) (q_m (ix_pq index))
    (q_nbits (ix_pq index)) (ix_metric index) (ix_build_params index) (zlen (concat (row_id_section_chunks rids))) (page_count layout) ∧
  sections_tile (sections h) (file_len h) ∧ section_lengths h (bp_storage_layout (ix_build_params index)) ∧
  vector_record_size h = ix_d index * element_size (bp_raw_vector_encoding (ix_build_params index)) ∧
  0 < page_count layout < 2 ^ 32 ∧ 0 < zlen (ix_ids index) < 2 ^ 32 ∧
  is_interleaved h = bool_decide (bp_storage_layout (ix_build_params index) = Interleaved).
Proof.
  destruct (for_layout_inv _ _ _ _ _ _ _ _ _ _ (wr_args _ _ _ _ _ _ Hw) (wr_header _ _ _ _ _ _ Hw))
    as (Hm & Ht & Hs & _ & Hc & _ & _ & _ & _ & _ & _ & _ & Hp & _ & Hv & _).
  split_and!; try done; try lia. unfold is_interleaved. by rewrite (storage_layout_flags h _ (hm_flags _ _ _ _ _ _ _ _ _ _ Hm)).
Qed.

(** Lengths of what is written, against the header's section lengths. *)
Lemma content_lengths (codes vecs : list (list Z)) :
  length codes = length (ix_ids index) → (∀ i c, codes !! i = Some c → zlen c = code_size (ix_pq index)) →
  length vecs = length (ix_ids index) →
  (∀ i b, vecs !! i = Some b → zlen b = ix_d index * element_size (bp_raw_vector_encoding (ix_build_params index))) →
  zlen (codebook_bytes (ix_pq index)) = sec_length (codebook (sections h)) ∧
  zlen (concat codes) = sec_length (pq_codes (sections h)) ∧
  zlen (concat (le_bytes 4 <$> sort_row_id_order new_ids)) = sec_length (row_id_order (sections h)) ∧
  zlen (index_bytes (index_of (locators layout))) = sec_length (adjacency_index (sections h)) ∧
  zlen (concat vecs) = zlen (ix_ids index) * vector_record_size h.
Proof.
  intros Hcl Hc Hvl Hv. destruct header_facts as (Hm & _ & Hs & Hrec & _).
  assert (∀ (ls : list (list Z)) n, length ls = length (ix_ids index) → (∀ i c, ls !! i = Some c → zlen c = n) →
    zlen (concat ls) = zlen (ix_ids index) * n) as Hconcat.
  { clear. intros ls n Hln. assert (zlen (ix_ids index) = zlen ls) as -> by (unfold zlen; by rewrite Hln). clear Hln.
    induction ls as [|l ls IH]; intros Hn; [done|]. cbn [concat]. rewrite zlen_app, (Hn 0%nat l eq_refl), IH.
    - unfold zlen. cbn [length]. lia.
    - intros i c Hi. by apply (Hn (S i)). }
  pose proof (wr_pq _ _ _ _ _ _ Hw) as Hpq. destruct Hs as [S1 S2 S3 S4 S5].
  rewrite (hm_pq_m _ _ _ _ _ _ _ _ _ _ Hm), (hm_pq_bits _ _ _ _ _ _ _ _ _ _ Hm), ?(hm_dimension _ _ _ _ _ _ _ _ _ _ Hm), ?(hm_count _ _ _ _ _ _ _ _ _ _ Hm) in *.
  destruct new_ids_spec as (Hnl & _ & _). split_and!.
  - rewrite S1. destruct (codebook_bytes_split _ Hpq (wr_pq_u32 _ _ _ _ _ _ Hw)) as (-> & _). rewrite (wr_pq_d _ _ _ _ _ _ Hw).
    do 3 f_equal. rewrite (ok_ksub _ Hpq). by destruct (ok_nbits _ Hpq) as [-> | ->].
  - rewrite S2. by apply Hconcat.
  - rewrite S3. unfold zlen. rewrite length_le_list. unfold sort_row_id_order, row_id_keys.
    rewrite length_fmap, merge_sort_Permutation, length_imap, Hnl. lia.
  - rewrite S4. pose proof (planned_length _ _ _ _ _ _ (plan_adjacency_layout_planned _ _ _ (wr_plan _ _ _ _ _ _ Hw))) as Hll.
    rewrite (wr_adjacency _ _ _ _ _ _ Hw) in Hll. unfold index_bytes, index_of. cbn [block_offsets relative_offsets index_degree_and_flags].
    rewrite !zlen_app. unfold zlen at 1 2 3. rewrite !length_le_list, !length_fmap, length_imap.
    pose proof (zlen_block_starts (length (locators layout))) as Hb. unfold zlen in *. rewrite Hll in *. lia.
  - rewrite Hrec. by apply Hconcat.
Qed.

(** One step of a run: the next computation of a sequence succeeds. *)
Ltac step E := apply bind_Ok; eexists; split; [exact E|]; cbv beta.
Ltac step_guard E := apply bind_Ok; exists (); split; [apply guard_ok_Ok; exact E|]; cbv beta.

Section Run.
Context `{LW : SeekWriteLaws W, IW : !InfallibleWrite W}.

Lemma chunked_new_ok (out : W) : cw_ok (chunked_new out).
Proof. clear. unfold cw_ok, zlen, DISKANN_WRITE_BUFFER_SIZE. cbn. lia. Qed.

Lemma finish_appended (out : W) (w : ChunkedSectionWriter W) bytes :
  appends (chunked_new out) w bytes →
  ∃ out', finish w = Ok out' ∧ written out' = written out ++ bytes ∧ pos out' = pos out + zlen bytes.
Proof.
  clear -LW IW. intros (Hv & Hp & Hok). destruct (finish_spec w Hok) as (out' & E & Hw' & Hp'). exists out'.
  unfold view, cw_pos in Hv, Hp. cbn [chunked_new cw_out cw_buffer] in Hv, Hp. rewrite app_nil_r in Hv. change (zlen []) with 0 in Hp.
  fold (view w) in Hv. fold (cw_pos w) in Hp. split_and!; [done|congruence|lia].
Qed.

(** The resident block: codebook, row IDs, codes, order and adjacency index. *)
Definition resident_block (codes : list (list Z)) : list Z :=
  codebook_bytes (ix_pq index) ++ concat (row_id_section_chunks rids) ++ concat codes ++
  concat (le_bytes 4 <$> sort_row_id_order new_ids) ++ index_bytes (index_of (locators layout)).

Lemma resident_block_written codes (out : W) :
  length codes = length (ix_ids index) → (∀ i c, codes !! i = Some c → prepared_pq_code prepared index i = Ok c) →
  ∃ w, (writer ← write_pq_codebook (ix_pq index) (chunked_new out);
        writer ← write_row_id_section rids writer;
        writer ← try_fold (λ writer new_id, code ← prepared_pq_code prepared index new_id; write_bytes writer code)
                   writer (seq 0 (length (ix_ids index)));
        writer ← try_fold (λ writer node, write_bytes writer (le_bytes 4 node)) writer (sort_row_id_order new_ids);
        write_adjacency_index layout writer) = Ok w ∧ appends (chunked_new out) w (resident_block codes).
Proof.
  intros Hcl Hc. destruct (write_pq_codebook_spec (ix_pq index) (chunked_new out)) as (w1 & E1 & A1); [apply Hw..|apply chunked_new_ok|].
  destruct (write_row_id_section_spec rids w1) as (w2 & E2 & A2); [apply A1|].
  destruct (write_chunks_spec w2 codes) as (w3 & E3 & A3); [apply A2|].
  destruct (write_chunks_spec w3 (le_bytes 4 <$> sort_row_id_order new_ids)) as (w4 & E4 & A4); [apply A3|].
  pose proof (plan_adjacency_layout_planned _ _ _ (wr_plan _ _ _ _ _ _ Hw)) as Hpl.
  destruct (write_adjacency_index_spec (vector_prefix index) _ (locators layout) _ (page_count layout) w4 Hpl) as (w5 & E5 & A5);
    [apply Hw|apply vector_prefix_nonneg|apply Hw|apply A4|].
  exists w5. rewrite E1. cbn [mbind io_result_bind]. rewrite E2. cbn [mbind io_result_bind].
  pose proof (write_collected (prepared_pq_code prepared index) id w2 codes Hc) as Ec. unfold id in Ec. rewrite Hcl, list_fmap_id in Ec.
  rewrite Ec, E3. cbn [mbind io_result_bind]. unfold write_chunks in E4. rewrite try_fold_fmap in E4. rewrite E4. cbn [mbind io_result_bind].
  assert (Layout (locators layout) (page_count layout) = layout) as El by (by destruct layout). rewrite El in E5. split; [done|].
  unfold resident_block. repeat (eapply appends_trans; [eassumption|]). done.
Qed.

Lemma pages_written (vecs : list (list Z)) (out : W) :
  length vecs = length (ix_ids index) →
  (∀ i b, vecs !! i = Some b →
    (v ← prepared_vector prepared index i;
     encode_raw_vector f16_from_f32 f16_is_finite v (bp_raw_vector_encoding (ix_build_params index))) = Ok b ∧
    zlen b = ix_d index * element_size (bp_raw_vector_encoding (ix_build_params index))) →
  ∃ w total, write_adjacency_pages (interleaved_vector f16_from_f32 f16_is_finite index prepared)
      (graph_adjacency (graph prepared)) layout (chunked_new out) = Ok w ∧
    appends (chunked_new out) w total ∧ zlen total = page_count layout * DISKANN_PAGE_SIZE ∧
    pages_hold total layout (graph_adjacency (graph prepared)) (vector_prefix index)
      (match bp_storage_layout (ix_build_params index) with Compact => replicate (length vecs) [] | Interleaved => vecs end).
Proof.
  intros Hvl Hv. apply write_adjacency_pages_spec; [apply Hw..| |apply chunked_new_ok| |].
  - apply vector_prefix_nonneg.
  - rewrite (wr_adjacency _ _ _ _ _ _ Hw). case_match; [by rewrite length_replicate|done].
  - intros i vb Hi. unfold vector_prefix, interleaved_vector, vector_bytes.
    destruct (bp_storage_layout (ix_build_params index)).
    + apply lookup_replicate in Hi as [-> _]. split; [done|by left].
    + destruct (Hv i vb Hi) as [E El]. split; [done|]. right.
      destruct (prepared_vector prepared index i) as [v| |]; [|done..]. cbn [mbind io_result_bind] in *. by rewrite E.
Qed.

Lemma vectors_written (vecs : list (list Z)) (out : W) :
  length vecs = length (ix_ids index) →
  (∀ i b, vecs !! i = Some b →
    (v ← prepared_vector prepared index i;
     encode_raw_vector f16_from_f32 f16_is_finite v (bp_raw_vector_encoding (ix_build_params index))) = Ok b ∧
    zlen b = ix_d index * element_size (bp_raw_vector_encoding (ix_build_params index))) →
  ∃ out', write_vector_records f16_from_f32 f16_is_finite index prepared h out = Ok out' ∧
    written out' = written out ++ concat vecs ∧ pos out' = pos out + zlen (concat vecs).
Proof.
  intros Hvl Hv. destruct header_facts as (Hm & _). unfold write_vector_records.
  rewrite (hm_encoding _ _ _ _ _ _ _ _ _ _ Hm), encoding_from_code_code. cbn [expect mbind io_result_bind].
  destruct (write_chunks_spec (chunked_new out) vecs (chunked_new_ok out)) as (w & E & A).
  assert (Ec : try_fold (λ writer new_id, x ← (v ← prepared_vector prepared index new_id;
      encode_raw_vector f16_from_f32 f16_is_finite v (bp_raw_vector_encoding (ix_build_params index))); write_bytes writer x)
      (chunked_new out) (seq 0 (length (ix_ids index))) = Ok w).
  { rewrite <- Hvl. rewrite <- E. rewrite <- (list_fmap_id vecs) at 2. apply (write_collected _ id). intros i x Hx. by apply Hv. }
  rewrite (try_fold_ext_in _ (λ writer new_id, x ← (v ← prepared_vector prepared index new_id;
      encode_raw_vector f16_from_f32 f16_is_finite v (bp_raw_vector_encoding (ix_build_params index))); write_bytes writer x)).
  - rewrite Ec. cbn [mbind io_result_bind]. by apply finish_appended.
  - intros w0 i _. by destruct (prepared_vector prepared index i).
Qed.

(** The bytes of the file, with the padding in front of the two aligned blocks. *)
Definition file_bytes (codes : list (list Z)) (pages tail : list Z) : list Z :=
  encode h ++ replicate (Z.to_nat (offset (codebook (sections h)) - 256)) 0 ++ resident_block codes ++
  replicate (Z.to_nat (offset (adjacency (sections h)) - (offset (adjacency_index (sections h)) + sec_length (adjacency_index (sections h))))) 0 ++
  pages ++ tail.

Definition vector_tail (vecs : list (list Z)) : list Z :=
  match bp_storage_layout (ix_build_params index) with Compact => concat vecs | Interleaved => [] end.

Lemma file_bytes_hold codes vecs pages :
  length codes = length (ix_ids index) → (∀ i c, codes !! i = Some c → zlen c = code_size (ix_pq index)) →
  length vecs = length (ix_ids index) →
  (∀ i b, vecs !! i = Some b → zlen b = ix_d index * element_size (bp_raw_vector_encoding (ix_build_params index))) →
  zlen pages = page_count layout * DISKANN_PAGE_SIZE →
  pages_hold pages layout (graph_adjacency (graph prepared)) (vector_prefix index)
    (match bp_storage_layout (ix_build_params index) with Compact => replicate (length vecs) [] | Interleaved => vecs end) →
  file_holds (file_bytes codes pages (vector_tail vecs)) codes vecs ∧
  zlen (resident_block codes) =
    offset (adjacency_index (sections h)) + sec_length (adjacency_index (sections h)) - offset (codebook (sections h)) ∧
  zlen (vector_tail vecs) = sec_length (vectors (sections h)).
Proof.
  intros Hcl Hc Hvl Hv Hpl Hp. destruct header_facts as (Hm & Ht & Hs & Hrec & _).
  destruct (content_lengths codes vecs Hcl Hc Hvl Hv) as (L1 & L2 & L3 & L4 & L5).
  pose proof (hm_row_ids _ _ _ _ _ _ _ _ _ _ Hm) as L6. pose proof (hm_adjacency _ _ _ _ _ _ _ _ _ _ Hm) as L7.
  pose proof (length_encode h) as L0. destruct Ht as [T1 T2 T3 T4 T5 T6 _ T8 T9 _ _].
  assert (zlen (resident_block codes) =
    offset (adjacency_index (sections h)) + sec_length (adjacency_index (sections h)) - offset (codebook (sections h))) as LR.
  { unfold resident_block. rewrite !zlen_app. lia. }
  assert (zlen (vector_tail vecs) = sec_length (vectors (sections h))) as LV.
  { unfold vector_tail. rewrite (sl_vectors _ _ Hs), (hm_count _ _ _ _ _ _ _ _ _ _ Hm). by case_match. }
  split; [|split; assumption]. unfold file_bytes in *. set (enc := encode h) in *. pose proof (zlen_encode h : zlen enc = 256) as L0'.
  set (p1 := replicate _ 0) at 1. assert (zlen p1 = offset (codebook (sections h)) - 256) as LP1
    by (unfold p1, zlen; rewrite length_replicate, T1; unfold DISKANN_PAGE_SIZE; lia).
  set (p2 := replicate _ 0) at 1. match goal with p2 := replicate (Z.to_nat ?n) 0 |- _ =>
    assert (zlen p2 = n) as LP2 by (unfold p2, zlen; rewrite length_replicate; lia) end.
  assert (∀ pre s mid post, enc ++ p1 ++ resident_block codes ++ p2 ++ pages ++ vector_tail vecs = pre ++ mid ++ post →
    offset s = zlen pre → sec_length s = zlen mid →
    section_bytes (enc ++ p1 ++ resident_block codes ++ p2 ++ pages ++ vector_tail vecs) s = mid) as Hsec.
  { intros pre s mid post -> Ho Hl. by apply section_bytes_mid. }
  split.
  - rewrite !zlen_app. lia.
  - rewrite <- L0. by rewrite take_app_length.
  - apply (Hsec (enc ++ p1) _ _
      (concat (row_id_section_chunks rids) ++ concat codes ++ concat (le_bytes 4 <$> sort_row_id_order new_ids) ++ index_bytes (index_of (locators layout)) ++ p2 ++ pages ++ vector_tail vecs));
      [unfold resident_block; by rewrite <- !app_assoc|rewrite !zlen_app; lia|done].
  - apply (Hsec (enc ++ p1 ++ codebook_bytes (ix_pq index)) _ _
      (concat codes ++ concat (le_bytes 4 <$> sort_row_id_order new_ids) ++ index_bytes (index_of (locators layout)) ++ p2 ++ pages ++ vector_tail vecs));
      [unfold resident_block; by rewrite <- !app_assoc|rewrite !zlen_app; lia|done].
  - apply (Hsec (enc ++ p1 ++ codebook_bytes (ix_pq index) ++ concat (row_id_section_chunks rids)) _ _
      (concat (le_bytes 4 <$> sort_row_id_order new_ids) ++ index_bytes (index_of (locators layout)) ++ p2 ++ pages ++ vector_tail vecs));
      [unfold resident_block; by rewrite <- !app_assoc|rewrite !zlen_app; lia|done].
  - apply (Hsec (enc ++ p1 ++ codebook_bytes (ix_pq index) ++ concat (row_id_section_chunks rids) ++ concat codes) _ _
      (index_bytes (index_of (locators layout)) ++ p2 ++ pages ++ vector_tail vecs));
      [unfold resident_block; by rewrite <- !app_assoc|rewrite !zlen_app; lia|done].
  - apply (Hsec (enc ++ p1 ++ codebook_bytes (ix_pq index) ++ concat (row_id_section_chunks rids) ++ concat codes ++ concat (le_bytes 4 <$> sort_row_id_order new_ids)) _ _
      (p2 ++ pages ++ vector_tail vecs));
      [unfold resident_block; by rewrite <- !app_assoc|rewrite !zlen_app; lia|done].
  - rewrite (Hsec (enc ++ p1 ++ resident_block codes ++ p2) _ pages (vector_tail vecs)); [done|by rewrite <- !app_assoc|rewrite !zlen_app; lia|lia].
  - rewrite (Hsec (enc ++ p1 ++ resident_block codes ++ p2 ++ pages) _ (vector_tail vecs) []); [done|by rewrite app_nil_r, <- !app_assoc|rewrite !zlen_app; lia|lia].
Qed.

Lemma interleaved_bytes_ok :
  match bp_storage_layout (ix_build_params index) with
  | Compact => Ok 0
  | Interleaved => or_input (checked_mul 64 (ix_d index) (element_size (bp_raw_vector_encoding (ix_build_params index))))
                     "DiskANN raw vector size overflows usize"
  end = Ok (vector_prefix index).
Proof.
  unfold vector_prefix. destruct (bp_storage_layout (ix_build_params index)); [done|].
  destruct (for_layout_inv _ _ _ _ _ _ _ _ _ _ (wr_args _ _ _ _ _ _ Hw) (wr_header _ _ _ _ _ _ Hw)) as (_ & _ & _ & Hd & _).
  rewrite (proj2 (checked_mul_Some 64 (ix_d index) (element_size (bp_raw_vector_encoding (ix_build_params index))) _))
    by (split; [reflexivity|destruct (bp_raw_vector_encoding (ix_build_params index)); cbn; unfold_widths; lia]).
  done.
Qed.

Lemma write_diskann_index_run (out : W) :
  pos out = 0 →
  ∃ out' file codes vecs, write_diskann_index f16_from_f32 f16_is_finite index prepared out = Ok out' ∧
    written out' = written out ++ file ∧ file_holds file codes vecs ∧
    length codes = length (ix_ids index) ∧ (∀ i c, codes !! i = Some c → prepared_pq_code prepared index i = Ok c) ∧
    length vecs = length (ix_ids index) ∧
    ∀ i b, vecs !! i = Some b → (v ← prepared_vector prepared index i;
      encode_raw_vector f16_from_f32 f16_is_finite v (bp_raw_vector_encoding (ix_build_params index))) = Ok b.
Proof.
  intros Hpos. destruct codes_listed as (codes & Hcl & Hc).
  destruct vectors_listed as (vecs & Hvl & Hv).
  destruct header_facts as (Hm & Ht & Hs & Hrec & Hpg & Hcnt & Hil).
  destruct (write_all_ok out (encode h)) as [o1 E1]. pose proof (write_all_written _ _ _ E1) as W1. pose proof (write_all_pos _ _ _ E1) as P1.
  rewrite zlen_encode, Hpos in P1.
  pose proof (st_codebook _ _ Ht) as T1. unfold DISKANN_PAGE_SIZE in T1. pose proof (st_nonneg _ _ Ht) as Hnn.
  unfold as_array in Hnn. rewrite !list.Forall_cons in Hnn. destruct Hnn as (N1 & N2 & N3 & N4 & N5 & N6 & N7 & _).
  pose proof Ht as [_ T2 T3 T4 T5 T6 _ T8 T9 T10 _].
  destruct (pad_to_spec o1 (offset (codebook (sections h)))) as (o2 & E2 & W2 & P2); [lia|lia|].
  destruct (resident_block_written codes o2 Hcl (λ i c Hi, proj1 (Hc i c Hi))) as (w3 & E3 & A3).
  destruct (finish_appended o2 w3 _ A3) as (o3 & F3 & W3 & P3).
  destruct (pages_written vecs o3 Hvl Hv) as (w0 & total0 & _ & _ & Htl0 & Hp0).
  destruct (file_bytes_hold codes vecs total0 Hcl (λ i c Hi, proj2 (Hc i c Hi)) Hvl (λ i b Hi, proj2 (Hv i b Hi)) Htl0 Hp0) as (_ & LR & LV).
  destruct (pad_to_spec o3 (offset (adjacency (sections h)))) as (o4 & E4 & W4 & P4); [lia|lia|].
  destruct (pages_written vecs o4 Hvl Hv) as (w5 & total & E5 & A5 & Htl & Hp).
  destruct (finish_appended o4 w5 _ A5) as (o5 & F5 & W5 & P5).
  destruct (file_bytes_hold codes vecs total Hcl (λ i c Hi, proj2 (Hc i c Hi)) Hvl (λ i b Hi, proj2 (Hv i b Hi)) Htl Hp) as (Hfile & _ & _).
  assert (∃ o6, (if negb (is_interleaved h) then write_vector_records f16_from_f32 f16_is_finite index prepared h o5 else Ok o5) = Ok o6 ∧
    written o6 = written o5 ++ vector_tail vecs ∧ pos o6 = pos o5 + zlen (vector_tail vecs)) as (o6 & E6 & W6 & P6).
  { rewrite Hil. unfold vector_tail. destruct (bp_storage_layout (ix_build_params index)).
    - rewrite bool_decide_false by discriminate. cbn [negb]. destruct (vectors_written vecs o5 Hvl Hv) as (o6 & E6 & W6 & P6).
      exists o6. split_and!; assumption.
    - rewrite bool_decide_true by reflexivity. cbn [negb]. exists o5. rewrite app_nil_r. change (zlen []) with 0.
      split_and!; [reflexivity|reflexivity|lia]. }
  exists o6, (file_bytes codes total (vector_tail vecs)), codes, vecs. split_and!; [|..].
  - unfold write_diskann_index. step_guard (proj2 (Z.eqb_eq _ _) Hpos).
    step interleaved_bytes_ok. step (wr_plan _ _ _ _ _ _ Hw). step (wr_new_ids _ _ _ _ _ _ Hw). step (wr_rids _ _ _ _ _ _ Hw).
    step (proj1 (serialized_len_stored rids _ _ rids_stored (proj2 (wr_count _ _ _ _ _ _ Hw)))).
    step (wr_header _ _ _ _ _ _ Hw). step E1. step E2. bind_ok E3 as wa Ha. step Ha. bind_ok E3 as wb Hb. step Hb.
    bind_ok E3 as wc Hcc. step Hcc. bind_ok E3 as wd Hd. step Hd. step E3. step F3. step E4. step E5. step F5. step E6.
    pose proof (hm_adjacency _ _ _ _ _ _ _ _ _ _ Hm) as Hadj.
    assert (pos o6 = file_len h) as Hend by lia. step_guard (proj2 (Z.eqb_eq _ _) Hend). done.
  - rewrite W6, W5, W4, W3, W2, W1. unfold file_bytes. rewrite P1, <- !app_assoc. do 6 f_equal. f_equal. f_equal. lia.
  - done.
  - done.
  - intros i c Hi. by apply Hc.
  - done.
  - intros i b Hi. by apply Hv.
Qed.

End Run.

End Writable.
End FileLaws.

(** ** Reading it back *)

Section ReadLaws.
Context `{LR : SeekReadLaws R, IR : !InfallibleRead R}.

Lemma range_of_section (bytes : list Z) s :
  range_of bytes (Request (offset s) (Z.to_nat (sec_length s))) = section_bytes bytes s.
Proof. done. Qed.

Lemma pread_sections_spec fuel (r : R) max_ranges reqs :
  (0 < max_ranges)%nat → (length reqs < fuel)%nat → Forall (in_range (contents r)) reqs →
  ∃ r', pread_sections fuel r max_ranges reqs = (Ok (range_of (contents r) <$> reqs), r') ∧ contents r' = contents r.
Proof.
  intros Hm. revert r reqs. induction fuel as [|fuel IH]; intros r reqs Hf Hr; [lia|]. cbn [pread_sections].
  destruct reqs as [|q reqs]; [by exists r|]. set (l := q :: reqs) in *.
  destruct (pread_total r (take max_ranges l)) as [r1 E1]; [by apply Forall_take|]. rewrite E1.
  pose proof (pread_contents r (take max_ranges l)) as C1. rewrite E1 in C1. cbn in C1.
  destruct (IH r1 (drop max_ranges l)) as (r2 & E2 & C2); [unfold l in *; rewrite length_drop; cbn [length] in *; lia|rewrite C1; by apply Forall_drop|].
  rewrite E2. exists r2. rewrite C1. cbn [fmap io_result_fmap]. split; [|congruence]. by rewrite <- fmap_app, take_drop.
Qed.

Lemma slice_plus (bytes : list Z) off n m : slice off n bytes ++ slice (off + n) m bytes = slice off (n + m) bytes.
Proof. unfold slice. by rewrite <- drop_drop, take_take_drop. Qed.

Lemma read_u32_loop_spec fuel (r : R) s len scratch loaded k :
  0 <= offset s → offset s + len <= zlen (contents r) → len mod 4 = 0 → scratch mod 4 = 0 → 4 <= scratch →
  loaded = 4 * Z.of_nat k → loaded <= len → (Z.to_nat (len - loaded) < fuel)%nat →
  ∃ r', read_u32_loop fuel r s len scratch loaded
      (le_val <$> chunks_exact 4 (slice (Z.to_nat (offset s)) (Z.to_nat loaded) (contents r))) =
    (Ok (le_val <$> chunks_exact 4 (slice (Z.to_nat (offset s)) (Z.to_nat len) (contents r))), r') ∧ contents r' = contents r.
Proof.
  intros Ho Hb Hl Hs Hs4. revert r loaded k Hb. induction fuel as [|fuel IH]; intros r loaded k Hb Hk Hle Hf; [lia|]. cbn [read_u32_loop].
  destruct (Z.ltb_spec loaded len) as [Hlt|Hge]; [|replace loaded with len by lia; by exists r].
  set (chunk := Z.min (len - loaded) scratch). pose proof (Z.div_mod len 4). pose proof (Z.div_mod scratch 4).
  assert (∃ j, chunk = 4 * Z.of_nat j ∧ (0 < j)%nat) as (j & Hj & Hj0).
  { exists (Z.to_nat (Z.min (len / 4 - Z.of_nat k) (scratch / 4))). lia. }
  destruct (pread_total r [Request (offset s + loaded) (Z.to_nat chunk)]) as [r1 E1].
  { constructor; [|constructor]. unfold in_range. cbn. lia. }
  pose proof (pread_contents r [Request (offset s + loaded) (Z.to_nat chunk)]) as C1. rewrite E1 in C1. cbn [snd] in C1.
  rewrite E1. cbn [fmap list_fmap]. unfold range_of. cbn [req_pos req_len].
  destruct (IH r1 (loaded + chunk) (k + j)%nat) as (r2 & E2 & C2); [by rewrite C1|lia..|].
  exists r2. rewrite C1 in *. rewrite <- E2. split; [|done]. f_equal.
  replace (Z.to_nat (offset s + loaded)) with (Z.to_nat (offset s) + Z.to_nat loaded)%nat by lia.
  replace (Z.to_nat (loaded + chunk)) with (Z.to_nat loaded + Z.to_nat chunk)%nat by lia.
  assert (∀ off n, (off + n ≤ length (contents r))%nat → length (slice off n (contents r)) = n) as Hsl.
  { intros off n Hn. unfold slice. rewrite length_take, length_drop. lia. }
  unfold zlen in Hb. rewrite <- slice_plus, (chunks_exact_app 4 k j), fmap_app; [done|lia|rewrite Hsl; lia|rewrite Hsl; lia].
Qed.

Lemma read_u32_section_spec (r : R) s :
  0 <= offset s → 0 <= sec_length s → sec_length s mod 4 = 0 → offset s + sec_length s <= zlen (contents r) → sec_length s < 2 ^ 64 →
  ∃ r', read_u32_section r s = (Ok (le_val <$> chunks_exact 4 (section_bytes (contents r) s)), r') ∧ contents r' = contents r.
Proof.
  intros Ho Hl Hm Hb H64. unfold read_u32_section, section_len_usize. rewrite (proj2 (try_from_Some 64 _ _)) by (split; [reflexivity|lia]).
  cbn [or_data ok_or]. rewrite Hm, Z.eqb_refl. cbn [negb]. set (scratch := Z.max _ _).
  assert (scratch mod 4 = 0) as Hs.
  { unfold scratch. destruct (Z.max_spec (Z.min (sec_length s) DISKANN_RESIDENT_DECODE_BUFFER_SIZE) 4) as [[_ ->]|[_ ->]]; [done|].
    destruct (Z.min_spec (sec_length s) DISKANN_RESIDENT_DECODE_BUFFER_SIZE) as [[_ ->]|[_ ->]]; done. }
  destruct (read_u32_loop_spec (S (Z.to_nat (sec_length s))) r s (sec_length s) scratch 0 0) as (r' & E & C); try lia.
  exists r'. split; [|done]. exact E.
Qed.

End ReadLaws.

Lemma section_len_usize_ok s : 0 <= sec_length s < 2 ^ 64 → section_len_usize s = Ok (sec_length s).
Proof. intros Hs. unfold section_len_usize. by rewrite (proj2 (try_from_Some 64 _ _)) by (split; [reflexivity|lia]). Qed.

(** All sections lie inside a file of the length the header gives. *)
Lemma tiled_in_range h (bytes : list Z) :
  sections_tile (sections h) (file_len h) → zlen bytes = file_len h →
  Forall (λ s, 0 <= offset s ∧ 0 <= sec_length s < 2 ^ 64 ∧ offset s + sec_length s <= zlen bytes)
    (resident_ranges h ++ [row_id_order (sections h); adjacency (sections h); vectors (sections h)]).
Proof.
  intros [T1 T2 T3 T4 T5 T6 _ T8 T9 T10 T11] ->. unfold as_array in T11. rewrite !list.Forall_cons in T11.
  destruct T11 as (? & ? & ? & ? & ? & ? & ? & _). unfold DISKANN_PAGE_SIZE in *. unfold resident_ranges. cbn [app].
  repeat (apply Forall_cons_2; [cbn [offset sec_length]; lia|]). constructor.
Qed.

Lemma read_resident_sections_spec `{LR : SeekReadLaws R, IR : !InfallibleRead R} norm (r : R) h :
  sections_tile (sections h) (file_len h) → zlen (contents r) = file_len h → 0 <= max_ranges_per_pread (read_capabilities r) →
  ∃ r', read_resident_sections norm r h = (decode_resident norm h (section_bytes (contents r) <$> resident_ranges h), r') ∧
    contents r' = contents r.
Proof.
  intros Ht Hl Hc. pose proof (tiled_in_range h (contents r) Ht Hl) as Hin. apply Forall_app in Hin as [Hin _].
  assert (section_requests (resident_ranges h) = Ok ((λ s, Request (offset s) (Z.to_nat (sec_length s))) <$> resident_ranges h)) as E.
  { unfold section_requests. rewrite (try_fold_ext_in _ (λ requests s, y ← Ok (Request (offset s) (Z.to_nat (sec_length s))); Ok (requests ++ [y]))).
    - by rewrite (try_fold_snoc _ (λ s, Request (offset s) (Z.to_nat (sec_length s)))).
    - intros acc s Hs. rewrite section_len_usize_ok; [done|]. rewrite Forall_forall in Hin. apply Hin, Hs. }
  unfold read_resident_sections. rewrite E. set (reqs := _ <$> resident_ranges h). set (max_ranges := if _ =? 0 then _ else _).
  assert (0 < max_ranges)%nat as Hm.
  { unfold max_ranges. destruct (Z.eqb_spec (max_ranges_per_pread (read_capabilities r)) 0); [unfold reqs; cbn; lia|lia]. }
  destruct (pread_sections_spec (S (length reqs)) r max_ranges reqs Hm ltac:(lia)) as (r' & E' & C').
  { unfold reqs. apply Forall_fmap. eapply Forall_impl; [exact Hin|]. cbn. intros s (? & ? & ?). unfold in_range. cbn. lia. }
  rewrite E'. exists r'. split; [|done]. unfold reqs. by rewrite <- list_fmap_compose.
Qed.

Lemma read_header_spec `{LR : SeekReadLaws R, IR : !InfallibleRead R} (r : R) :
  256 <= zlen (contents r) → ∃ r', read_header r = (decode (take 256 (contents r)), r') ∧ contents r' = contents r.
Proof.
  intros Hl. unfold read_header. change (Z.to_nat DISKANN_HEADER_SIZE) with 256%nat.
  destruct (pread_total r [Request 0 256]) as [r' E]; [constructor; [|constructor]; unfold in_range; cbn [req_pos req_len]; lia|].
  rewrite E. exists r'. cbn [fmap list_fmap]. split; [done|]. pose proof (pread_contents r [Request 0 256]) as C. by rewrite E in C.
Qed.

(** ** The file round trip *)

Section RoundTrip.
Context (f16_from_f32 : Z → Z) (f16_is_finite : Z → bool) (norm : list Z → Z).
Context (index : DiskAnnIndex) (prepared : PreparedDiskAnn) (layout : AdjacencyLayout) (new_ids : list Z)
  (rids : RowIdStorage) (h : DiskAnnHeader) (Hw : writable f16_from_f32 f16_is_finite index prepared layout new_ids rids h).

Lemma indexed_by_header : indexed_by h (vector_prefix index) (graph_adjacency (graph prepared)) (page_count layout - 1).
Proof.
  pose proof (header_facts _ _ _ _ _ _ _ _ Hw) as (Hm & Ht & Hs & Hrec & Hp & Hc & Hil).
  assert (zlen (graph_adjacency (graph prepared)) = zlen (ix_ids index)) as El by (unfold zlen; by rewrite (wr_adjacency _ _ _ _ _ _ _ _ Hw)).
  split.
  - rewrite El. apply Hm.
  - rewrite (hm_count _ _ _ _ _ _ _ _ _ _ Hm). lia.
  - rewrite El, (sl_index _ _ Hs), (hm_count _ _ _ _ _ _ _ _ _ _ Hm). done.
  - rewrite (hm_adjacency _ _ _ _ _ _ _ _ _ _ Hm). f_equal. lia.
  - lia.
  - rewrite Hil. unfold vector_prefix. destruct (bp_storage_layout (ix_build_params index)); [done|]. by rewrite Hrec.
  - rewrite (hm_degree _ _ _ _ _ _ _ _ _ _ Hm). apply Hw.
Qed.

Lemma new_ids_i64 i : (i < length (ix_ids index))%nat → i64 (default 0 (new_ids !! i)).
Proof.
  intros Hi. destruct (new_ids_spec _ _ _ _ _ _ _ _ Hw) as (Hl & Hu & _). destruct (lookup_lt_is_Some_2 new_ids i) as [x Hx]; [lia|].
  rewrite Hx. exact (Forall_lookup_1 _ _ _ _ Hu Hx).
Qed.

Lemma rids_get i : get rids i = new_ids !! i.
Proof.
  destruct (new_ids_spec _ _ _ _ _ _ _ _ Hw) as (Hl & _ & _). 
  rewrite (get_spec rids _ _ _ (rids_stored _ _ _ _ _ _ _ _ Hw) (proj2 (wr_count _ _ _ _ _ _ _ _ Hw)) new_ids_i64).
  destruct (decide (i < length (ix_ids index))%nat) as [Hi|Hi].
  - destruct (lookup_lt_is_Some_2 new_ids i) as [x Hx]; [lia|]. by rewrite Hx.
  - by rewrite lookup_ge_None_2 by lia.
Qed.

(** What a reader gets from the file. *)
Record reads_back `{SeekRead R} (r : R) (codes : list (list Z)) (ix : AdjacencyIndex) : Prop := {
  rb_header : (read_header r).1 = Ok h;
  rb_resident : (read_resident_sections norm r h).1 = Ok (ix_pq index, rids, concat codes, ix);
  rb_locators : ∀ i, locator ix i = locators layout !! i;
  rb_row_ids : ∀ i, get rids i = new_ids !! i;
  rb_order : ∃ order, (read_u32_section r (row_id_order (sections h))).1 = Ok order ∧ validate_row_id_order rids order = Ok ();
}.

Lemma file_reads_back `{LR : SeekReadLaws R, IR : !InfallibleRead R} (r : R) file codes vecs :
  file_holds index prepared layout new_ids rids h file codes vecs → contents r = file →
  0 <= max_ranges_per_pread (read_capabilities r) →
  Forall f32_is_finite (q_centroids (ix_pq index)) → try_set_centroids norm (ix_pq index) (q_centroids (ix_pq index)) = Ok (ix_pq index) →
  reads_back r codes (index_of (locators layout)).
Proof.
  intros [F1 F2 F3 F4 F5 F6 F7 _ _] Hr Hcap Hfin Hset.
  pose proof (header_facts _ _ _ _ _ _ _ _ Hw) as (Hm & Ht & Hs & _ & _ & Hc & _).
  pose proof (plan_adjacency_layout_planned _ _ _ (wr_plan _ _ _ _ _ _ _ _ Hw)) as Hpl.
  pose proof (vector_prefix_nonneg _ _ _ _ _ _ _ _ Hw) as Hvp. pose proof (rids_stored _ _ _ _ _ _ _ _ Hw) as Hst.
  destruct (new_ids_spec _ _ _ _ _ _ _ _ Hw) as (Hnl & _ & _).
  pose proof (tiled_in_range h file Ht F1) as Hin. apply Forall_app in Hin as [Hin Hin']. apply list.Forall_cons in Hin' as [(O1 & O2 & O3) _].
  pose proof (st_codebook _ _ Ht) as T1. apply list.Forall_cons in Hin as [(_ & B2 & B3) _]. unfold DISKANN_PAGE_SIZE in T1.
  destruct (row_id_order_accepted rids new_ids) as (Hrange & Hlen & Hval).
  { apply rids_get. }
  { rewrite Hnl. by eapply stores_len. }
  split.
  - destruct (read_header_spec r) as (r' & -> & _); [rewrite Hr; lia|]. cbn [fst]. rewrite Hr, F2, <- (app_nil_r (encode h)).
    exact (decode_layout _ _ _ _ _ _ _ _ _ _ [] (wr_args _ _ _ _ _ _ _ _ Hw) (wr_header _ _ _ _ _ _ _ _ Hw)).
  - destruct (read_resident_sections_spec norm r h Ht) as (r' & -> & _); [by rewrite Hr|done|]. rewrite Hr. cbn [fst].
    unfold resident_ranges. cbn [fmap list_fmap decode_resident]. rewrite F3, F4, F5, F7.
    rewrite (decode_codebook norm h (ix_pq index)); [|apply Hw..|done|done|rewrite (hm_dimension _ _ _ _ _ _ _ _ _ _ Hm); symmetry; apply Hw|apply Hm|apply Hm].
    cbn [mbind io_result_bind]. rewrite (hm_count _ _ _ _ _ _ _ _ _ _ Hm). unfold zlen at 1. rewrite Nat2Z.id.
    rewrite (decode_section rids _ _ Hst (wr_count _ _ _ _ _ _ _ _ Hw) new_ids_i64). cbn [mbind io_result_bind].
    rewrite (decode_planned_index h _ _ (locators layout) _ Hpl); [done|apply Hw|done|apply Hw|apply indexed_by_header].
  - intros i. apply (locator_index_of _ _ _ _ Hpl); [apply Hw|done|apply Hw].
  - apply rids_get.
  - exists (sort_row_id_order new_ids). split; [|done].
    destruct (read_u32_section_spec r (row_id_order (sections h))) as (r' & -> & _); [done|lia| |by rewrite Hr|lia|].
    { rewrite (sl_order _ _ Hs). apply Z.mod_mul. lia. }
    cbn [fst]. rewrite Hr, F6, le_list_decode; [done|lia|]. eapply Forall_impl; [exact Hrange|]. cbn. intros x Hx.
    unfold u_ok, zlen in *. rewrite Hnl in Hx. lia.
Qed.

End RoundTrip.

(** From a consistent index the writer produces a file of exactly the
    announced length in which every section lies at the offset and with the
    length the header records: the encoded header, the codebook, the row IDs, the
    codes in the new order, the row-ID order, the adjacency index, pages from
    which every node's neighbours decode, and the raw vectors. *)
Theorem diskann_writer_layout `{LW : SeekWriteLaws W, IW : !InfallibleWrite W} (f16_from_f32 : Z → Z) (f16_is_finite : Z → bool)
    (index : DiskAnnIndex) (prepared : PreparedDiskAnn) (layout : AdjacencyLayout) (new_ids : list Z) (rids : RowIdStorage)
    (h : DiskAnnHeader) (out : W) :
  writable f16_from_f32 f16_is_finite index prepared layout new_ids rids h → pos out = 0 →
  ∃ out' file codes vecs, write_diskann_index f16_from_f32 f16_is_finite index prepared out = Ok out' ∧
    written out' = written out ++ file ∧ file_holds index prepared layout new_ids rids h file codes vecs ∧
    length codes = length (ix_ids index) ∧ (∀ i c, codes !! i = Some c → prepared_pq_code prepared index i = Ok c) ∧
    length vecs = length (ix_ids index) ∧
    ∀ i b, vecs !! i = Some b → (v ← prepared_vector prepared index i;
      encode_raw_vector f16_from_f32 f16_is_finite v (bp_raw_vector_encoding (ix_build_params index))) = Ok b.
Proof. intros Hw Hp. exact (write_diskann_index_run _ _ _ _ _ _ _ _ Hw out Hp). Qed.

Lemma written_reads_back `{LW : SeekWriteLaws W, IW : !InfallibleWrite W, LR : SeekReadLaws R, IR : !InfallibleRead R}
    (f16_from_f32 : Z → Z) (f16_is_finite : Z → bool) (norm : list Z → Z)
    (index : DiskAnnIndex) (prepared : PreparedDiskAnn) (layout : AdjacencyLayout) (new_ids : list Z) (rids : RowIdStorage)
    (h : DiskAnnHeader) (out : W) :
  writable f16_from_f32 f16_is_finite index prepared layout new_ids rids h → pos out = 0 → written out = [] →
  Forall f32_is_finite (q_centroids (ix_pq index)) →
  try_set_centroids norm (ix_pq index) (q_centroids (ix_pq index)) = Ok (ix_pq index) →
  ∃ out' codes, write_diskann_index f16_from_f32 f16_is_finite index prepared out = Ok out' ∧
    (∀ i c, codes !! i = Some c → prepared_pq_code prepared index i = Ok c) ∧ length codes = length (ix_ids index) ∧
    ∀ r : R, contents r = written out' → 0 <= max_ranges_per_pread (read_capabilities r) →
      ∃ ix, reads_back norm index layout new_ids rids h r codes ix.
Proof.
  intros Hw Hp Hempty Hf Hs. destruct (write_diskann_index_run _ _ _ _ _ _ _ _ Hw out Hp) as (out' & file & codes & vecs & E & Hwr & Hh & Hcl & Hc & _).
  exists out', codes. split_and!; [done|done|done|]. intros r Hr Hcap. exists (index_of (locators layout)).
  rewrite Hempty in Hwr. cbn [app] in Hwr. apply (file_reads_back f16_from_f32 f16_is_finite norm index prepared layout new_ids rids h Hw r file codes vecs); try done.
  by rewrite Hr.
Qed.

(** C1: What the writer wrote, a reader reads back: through any reader of the
    file, however few ranges it takes per call, the header decodes to the one
    written, the resident sections to the same quantizer, row IDs and codes and
    to an index that gives every planned locator, and the row-ID order section
    to an order that passes validation against those row IDs. *)
Theorem diskann_file_roundtrip `{LW : SeekWriteLaws W, IW : !InfallibleWrite W, LR : SeekReadLaws R, IR : !InfallibleRead R}
    (f16_from_f32 : Z → Z) (f16_is_finite : Z → bool) (norm : list Z → Z)
    (index : DiskAnnIndex) (prepared : PreparedDiskAnn) (layout : AdjacencyLayout) (new_ids : list Z) (rids : RowIdStorage)
    (h : DiskAnnHeader) (out : W) :
  writable f16_from_f32 f16_is_finite index prepared layout new_ids rids h → pos out = 0 → written out = [] →
  Forall f32_is_finite (q_centroids (ix_pq index)) →
  try_set_centroids norm (ix_pq index) (q_centroids (ix_pq index)) = Ok (ix_pq index) →
  ∃ out' codes, write_diskann_index f16_from_f32 f16_is_finite index prepared out = Ok out' ∧
    (∀ i c, codes !! i = Some c → prepared_pq_code prepared index i = Ok c) ∧ length codes = length (ix_ids index) ∧
    ∀ r : R, contents r = written out' → 0 <= max_ranges_per_pread (read_capabilities r) →
      ∃ ix, reads_back norm index layout new_ids rids h r codes ix.
Proof. exact (written_reads_back f16_from_f32 f16_is_finite norm index prepared layout new_ids rids h out). Qed.

(** ** A concrete index: three vectors on interleaved pages *)

Definition demo_index : DiskAnnIndex := DiskAnn 4 L2 demo_pq interleaved_params [30; 10; 20] (seqZ 0 12).
Definition demo_prepared : PreparedDiskAnn :=
  Prepared (ListsOf 0 demo_graph) (Locality [2; 0; 1] [1; 2; 0]) [1; 2; 3; 4; 5; 6].
Definition demo_f16 (x : Z) : Z := x / 65536.
Definition demo_new_ids : list Z := [20; 30; 10].
Definition demo_rids : RowIdStorage :=
  match encode_from_fn 3 (λ i, default 0 (demo_new_ids !! i)) with Ok s => s | _ => Raw [] end.
Definition demo_file_layout : AdjacencyLayout :=
  match plan_adjacency_layout demo_graph 16 with Ok l => l | _ => Layout [] 0 end.
Definition demo_file_header : DiskAnnHeader :=
  match for_layout_with_adjacency_pages_and_pq_bits 4 3 0 3 4 L2 interleaved_params (zlen (concat (row_id_section_chunks demo_rids))) 1 with
  | Ok h => h | _ => demo_header end.

Lemma demo_writable : writable demo_f16 (λ _, true) demo_index demo_prepared demo_file_layout demo_new_ids demo_rids demo_file_header.
Proof.
  split.
  - split; cbn; lia.
  - repeat (apply Forall_cons_2; [by vm_compute|]). constructor.
  - intros i Hi. cbn in Hi. do 3 (destruct i as [|i]; [eexists; split; [reflexivity|by vm_compute]|]). lia.
  - by vm_compute.
  - vm_compute. reflexivity.
  - intros i v Hv. do 3 (destruct i as [|i]; [vm_compute in Hv; injection Hv as <-; eexists; vm_compute; reflexivity|]). discriminate Hv.
  - vm_compute. reflexivity.
  - exact demo_pq_ok.
  - exact demo_pq_u32.
  - vm_compute. reflexivity.
  - reflexivity.
  - exact demo_graph_ok.
  - repeat (apply Forall_cons_2; [by vm_compute|]). constructor.
  - vm_compute. reflexivity.
  - vm_compute. repeat constructor.
  - vm_compute. reflexivity.
  - vm_compute. reflexivity.
  - split; by vm_compute.
  - vm_compute. reflexivity.
Qed.

Lemma diskann_writer_layout_witness :
  ∃ out' file codes vecs, write_diskann_index demo_f16 (λ _, true) demo_index demo_prepared (pos_writer_new []) = Ok out' ∧
    written out' = written (pos_writer_new []) ++ file ∧
    file_holds demo_index demo_prepared demo_file_layout demo_new_ids demo_rids demo_file_header file codes vecs ∧
    length codes = length (ix_ids demo_index) ∧
    (∀ i c, codes !! i = Some c → prepared_pq_code demo_prepared demo_index i = Ok c) ∧
    length vecs = length (ix_ids demo_index) ∧
    ∀ i b, vecs !! i = Some b → (v ← prepared_vector demo_prepared demo_index i;
      encode_raw_vector demo_f16 (λ _, true) v (bp_raw_vector_encoding (ix_build_params demo_index))) = Ok b.
Proof. exact (diskann_writer_layout _ _ _ _ _ _ _ _ (pos_writer_new []) demo_writable eq_refl). Defined.

Lemma diskann_file_roundtrip_witness :
  ∃ out' codes, write_diskann_index demo_f16 (λ _, true) demo_index demo_prepared (pos_writer_new []) = Ok out' ∧
    (∀ i c, codes !! i = Some c → prepared_pq_code demo_prepared demo_index i = Ok c) ∧ length codes = length (ix_ids demo_index) ∧
    ∀ r : Cursor, contents r = written out' → 0 <= max_ranges_per_pread (read_capabilities r) →
      ∃ ix, reads_back demo_norm demo_index demo_file_layout demo_new_ids demo_rids demo_file_header r codes ix.
Proof.
  refine (diskann_file_roundtrip _ _ demo_norm _ _ _ _ _ _ (pos_writer_new []) demo_writable eq_refl eq_refl _ _).
  - apply forallb_True. vm_compute. exact I.
  - vm_compute. reflexivity.
Defined.
