(* ===== verification/DiskannReader.v ===== *)
(** The DiskANN reader as a state machine: [DiskAnnIndexReader] of
    [core/src/diskann_io.rs].

    One reader and what it holds: the header, the resident data once loaded, the
    hot prefix of the adjacency section, the row-ID order, and the shared caches.
    The clock that times the header read is an argument.  The scratch space of a
    search and its statistics are left out, as are clones of a reader, which
    share the resident data and the order. *)

From S2P Require Import Prelude SeekIo IndexIoUtil F32 Adjacency OffsetLru WindowCache ReadOptions ValidationCache.
From S2P Require Import DiskannUtil RowIds DiskannHeader SectionWriter AdjacencyLayout PageValidation Pq DiskannFile.

Definition DISKANN_ADJACENCY_PRELOAD_ALIGNMENT : Z := 64 * 1024.

(** ** Memory estimates *)

Definition checked_resident_sum (parts : list Z) : io_result Z :=
  try_fold (λ total bytes, or_data (checked_add 64 total bytes) "DiskANN resident size overflows usize") 0 parts.

Definition decoded_pq_codebook_bytes (h : DiskAnnHeader) : io_result Z :=
  offsets ← or_data (count ← checked_add 64 (pq_m h) 1; checked_mul 64 count 8) "DiskANN decoded PQ offset size overflows usize";
  ksub ← diskann_pq_ksub (pq_bits h);
  centroids ← or_data (count ← checked_mul 64 (dimension h) ksub; checked_mul 64 count 4)
                "DiskANN decoded PQ centroid size overflows usize";
  or_data (checked_add 64 offsets centroids) "DiskANN decoded PQ codebook size overflows usize".

Definition adjacency_page_count (h : DiskAnnHeader) : io_result Z :=
  adjacency_bytes ← section_len_usize (adjacency (sections h));
  _ ← ensure_data (adjacency_bytes mod DISKANN_PAGE_SIZE =? 0) "DiskANN adjacency section is not page-aligned";
  Ok (adjacency_bytes / DISKANN_PAGE_SIZE).
Definition adjacency_validation_bytes (h : DiskAnnHeader) : io_result Z :=
  pages ← adjacency_page_count h;
  or_data (checked_mul 64 pages 1) "DiskANN adjacency validation size overflows usize".

Definition resident_row_id_bytes (h : DiskAnnHeader) : io_result Z :=
  len ← section_len_usize (row_ids (sections h));
  or_data (checked_sub len ROW_ID_SECTION_HEADER_SIZE) "DiskANN row-ID section header is truncated".

Definition pq_norms_bytes (h : DiskAnnHeader) : io_result Z :=
  ksub ← diskann_pq_ksub (pq_bits h);
  or_data (count ← checked_mul 64 (pq_m h) ksub; checked_mul 64 count 4) "DiskANN PQ norms size overflows usize".

Definition resident_steady_bytes (h : DiskAnnHeader) : io_result Z :=
  pq_norms ← pq_norms_bytes h;
  decoded_codebook ← decoded_pq_codebook_bytes h;
  decoded_row_ids ← resident_row_id_bytes h;
  codes ← section_len_usize (pq_codes (sections h));
  index ← section_len_usize (adjacency_index (sections h));
  validation ← adjacency_validation_bytes h;
  checked_resident_sum [decoded_codebook; decoded_row_ids; codes; index; validation; pq_norms].

Definition resident_peak_bytes (h : DiskAnnHeader) : io_result Z :=
  serialized_codebook ← section_len_usize (codebook (sections h));
  decoded_codebook ← decoded_pq_codebook_bytes h;
  serialized_row_ids ← section_len_usize (row_ids (sections h));
  decoded_row_ids ← resident_row_id_bytes h;
  codes ← section_len_usize (pq_codes (sections h));
  serialized_adjacency_index ← section_len_usize (adjacency_index (sections h));
  adjacency_validation ← adjacency_validation_bytes h;
  pq_norms ← pq_norms_bytes h;
  serialized_payloads ← checked_resident_sum [serialized_codebook; serialized_row_ids; codes; serialized_adjacency_index; 1];
  codebook_decode ← or_data (checked_add 64 serialized_payloads decoded_codebook) "DiskANN resident peak size overflows usize";
  row_id_decode ← checked_resident_sum
    [serialized_row_ids; codes; serialized_adjacency_index; decoded_codebook; decoded_row_ids; 1];
  adjacency_decode ← checked_resident_sum
    [codes; serialized_adjacency_index; decoded_codebook; decoded_row_ids; serialized_adjacency_index; 1];
  steady ← checked_resident_sum
    [decoded_codebook; decoded_row_ids; codes; pq_norms; serialized_adjacency_index; adjacency_validation];
  Ok (Z.max (Z.max (Z.max codebook_decode row_id_decode) adjacency_decode) steady).

Definition row_id_order_peak_bytes (h : DiskAnnHeader) (hot_adjacency : Z) : io_result Z :=
  order ← section_len_usize (row_id_order (sections h));
  let scratch := Z.min order DISKANN_RESIDENT_DECODE_BUFFER_SIZE in
  steady ← resident_steady_bytes h;
  try_fold (λ total bytes, or_data (checked_add 64 total bytes) "DiskANN row-ID lookup peak size overflows usize") 0
    [steady; hot_adjacency; order; scratch].

(** ** The reader *)

Record DiskAnnResidentData := Resident {
  res_pq : ProductQuantizer;
  res_row_ids : RowIdStorage;
  res_pq_codes : list Z;
  res_adjacency_index : AdjacencyIndex;
  res_validation : AdjacencyValidationCache;
  res_adjacency_cache : SharedWindowCache;
  res_raw_vector_cache : SharedWindowCache;
}.
Inductive RowIdOrderState := NotLoaded | Loaded (order : list Z) | UnavailableByBudget.

Record DiskAnnIndexReader (R : Type) := Reader {
  rd_reader : R;
  rd_header : DiskAnnHeader;
  rd_resident : option DiskAnnResidentData;
  rd_options : ResolvedVectorIndexReaderOptions;
  rd_capabilities : SeekReadCapabilities;
  rd_read_tier : DeploymentProfile;
  rd_latency : Z;
  rd_hot_adjacency : list Z;
  rd_row_id_order : RowIdOrderState;
}.
Arguments Reader {R}.
Arguments rd_reader {R}.
Arguments rd_header {R}.
Arguments rd_resident {R}.
Arguments rd_options {R}.
Arguments rd_capabilities {R}.
Arguments rd_read_tier {R}.
Arguments rd_latency {R}.
Arguments rd_hot_adjacency {R}.
Arguments rd_row_id_order {R}.

Section ReaderOps.
Context `{SeekRead R} (fvec_norm_l2sqr : list Z → Z) (f16_is_finite : Z → bool).
Implicit Type r : DiskAnnIndexReader R.

Definition with_reader r (x : R) : DiskAnnIndexReader R :=
  Reader x (rd_header r) (rd_resident r) (rd_options r) (rd_capabilities r) (rd_read_tier r) (rd_latency r) (rd_hot_adjacency r) (rd_row_id_order r).
Definition with_resident r (x : option DiskAnnResidentData) : DiskAnnIndexReader R :=
  Reader (rd_reader r) (rd_header r) x (rd_options r) (rd_capabilities r) (rd_read_tier r) (rd_latency r) (rd_hot_adjacency r) (rd_row_id_order r).
Definition with_options r (x : ResolvedVectorIndexReaderOptions) : DiskAnnIndexReader R :=
  Reader (rd_reader r) (rd_header r) (rd_resident r) x (rd_capabilities r) (rd_read_tier r) (rd_latency r) (rd_hot_adjacency r) (rd_row_id_order r).
Definition with_hot r (x : list Z) : DiskAnnIndexReader R :=
  Reader (rd_reader r) (rd_header r) (rd_resident r) (rd_options r) (rd_capabilities r) (rd_read_tier r) (rd_latency r) x (rd_row_id_order r).
Definition with_order r (x : RowIdOrderState) : DiskAnnIndexReader R :=
  Reader (rd_reader r) (rd_header r) (rd_resident r) (rd_options r) (rd_capabilities r) (rd_read_tier r) (rd_latency r) (rd_hot_adjacency r) x.
Definition with_caches (d : DiskAnnResidentData) (adjacency_cache raw_vector_cache : SharedWindowCache) : DiskAnnResidentData :=
  Resident (res_pq d) (res_row_ids d) (res_pq_codes d) (res_adjacency_index d) (res_validation d) adjacency_cache raw_vector_cache.
Definition with_validation (d : DiskAnnResidentData) (v : AdjacencyValidationCache) : DiskAnnResidentData :=
  Resident (res_pq d) (res_row_ids d) (res_pq_codes d) (res_adjacency_index d) v (res_adjacency_cache d) (res_raw_vector_cache d).

(** A step that may fail, with the reader it leaves. *)
Definition step_result_of (A : Type) : Type := io_result A * DiskAnnIndexReader R.
Definition then_ {A B} (x : step_result_of A) (f : A → DiskAnnIndexReader R → step_result_of B) : step_result_of B :=
  match x with
  | (Ok a, r) => f a r
  | (Err e, r) => (Err e, r)
  | (Panic, r) => (Panic, r)
  end.
Definition lift_ {A} (x : io_result A) r : step_result_of A := (x, r).

(** [Instant] is the argument [measured]: what the header read took. *)
Definition open_with_options (measured : Z) (reader : R) (options : VectorIndexReaderOptions) : io_result (DiskAnnIndexReader R) :=
  let capabilities := read_capabilities reader in
  let '(header, reader) := read_header reader in
  h ← header;
  let latency :=
    if 0 <? estimated_random_read_latency_nanos capabilities then estimated_random_read_latency_nanos capabilities
    else Z.max measured 1 in
  let tier := classify_read_tier latency in
  steady ← resident_steady_bytes h;
  let options := resolve_cache_budgets options tier steady
    (default USIZE_MAX (try_from 64 (sec_length (adjacency (sections h)))))
    (default USIZE_MAX (try_from 64 (sec_length (vectors (sections h))))) in
  Ok (Reader reader h None options capabilities tier latency [] NotLoaded).
Definition open (measured : Z) (reader : R) : io_result (DiskAnnIndexReader R) :=
  open_with_options measured reader default_options.

Definition get_resident r : io_result DiskAnnResidentData :=
  or_data (rd_resident r) "DiskANN resident sections are not loaded".

Definition ensure_resident r : step_result_of unit :=
  match rd_resident r with
  | Some _ => (Ok (), r)
  | None =>
      then_ (lift_ (resident_peak_bytes (rd_header r)) r) (λ peak_bytes r,
      if max_resident_bytes (rd_options r) <? peak_bytes
      then (invalid_data "DiskANN resident warmup exceeds the reader budget", r)
      else
        let '(data, reader) := read_resident_sections fvec_norm_l2sqr (rd_reader r) (rd_header r) in
        let r := with_reader r reader in
        then_ (lift_ data r) (λ '(pq, row_ids, codes, index) r,
        then_ (lift_ (validate_pq_code_padding (rd_header r) codes) r) (λ _ r,
        then_ (lift_ (adjacency_page_count (rd_header r)) r) (λ pages r,
        (Ok (), with_resident r (Some (Resident pq row_ids codes index (validation_cache_new (Z.to_nat pages))
                  (cache_new (adjacency_cache_bytes (rd_options r))) (cache_new (raw_vector_cache_bytes (rd_options r)))))))))
      )
  end.

(** The accessors *)
Definition reader_row_id r (node : nat) : io_result Z :=
  d ← get_resident r; or_data (RowIds.get (res_row_ids d) node) "DiskANN row-ID node is out of range".
Definition adjacency_locator r (node : nat) : io_result AdjacencyLocator :=
  d ← get_resident r; or_data (locator (res_adjacency_index d) node) "DiskANN adjacency index is truncated".

Definition resize_shared_cache_budgets r (total_bytes : Z) : step_result_of unit :=
  let desired_adjacency := adjacency_cache_bytes (rd_options r) in
  let desired_raw := raw_vector_cache_bytes (rd_options r) in
  let desired_total := saturating_add 64 desired_adjacency desired_raw in
  let total_bytes := Z.min total_bytes desired_total in
  let adjacency_bytes :=
    if desired_total =? 0 then 0
    else default total_bytes (try_from 64 (total_bytes * desired_adjacency / desired_total)) in
  let raw_bytes := saturating_sub total_bytes adjacency_bytes in
  then_ (lift_ (get_resident r) r) (λ d r,
  then_ (lift_ (set_total_capacity adjacency_bytes (res_adjacency_cache d)) r) (λ adjacency_cache r,
  let r := with_resident r (Some (with_caches d adjacency_cache (res_raw_vector_cache d))) in
  then_ (lift_ (set_total_capacity raw_bytes (res_raw_vector_cache d)) r) (λ raw_cache r,
  (Ok (), with_resident r (Some (with_caches d adjacency_cache raw_cache)))))).

Definition loaded_row_id_order_bytes r : io_result Z :=
  match rd_row_id_order r with
  | Loaded order => or_data (checked_mul 64 (zlen order) 4) "DiskANN row-ID order size overflows usize"
  | NotLoaded | UnavailableByBudget => Ok 0
  end.

Definition ensure_row_id_order r : step_result_of (option (list Z)) :=
  then_ (ensure_resident r) (λ _ r,
  match rd_row_id_order r with
  | Loaded order => (Ok (Some order), r)
  | UnavailableByBudget => (Ok None, r)
  | NotLoaded =>
      then_ (lift_ (row_id_order_peak_bytes (rd_header r) (zlen (rd_hot_adjacency r))) r) (λ peak_bytes r,
      if max_resident_bytes (rd_options r) <? peak_bytes then (Ok None, with_order r UnavailableByBudget)
      else
        then_ (resize_shared_cache_budgets r (max_resident_bytes (rd_options r) - peak_bytes)) (λ _ r,
        let '(order, reader) := read_u32_section (rd_reader r) (row_id_order (sections (rd_header r))) in
        let r := with_reader r reader in
        then_ (lift_ order r) (λ order r,
        then_ (lift_ (get_resident r) r) (λ d r,
        then_ (lift_ (validate_row_id_order (res_row_ids d) order) r) (λ _ r,
        let r := with_order r (Loaded order) in
        then_ (lift_ (steady ← resident_steady_bytes (rd_header r);
                      or_data (bytes ← checked_add 64 steady (zlen (rd_hot_adjacency r));
                               order_bytes ← checked_mul 64 (zlen order) 4;
                               checked_add 64 bytes order_bytes) "DiskANN filtered resident size overflows usize") r)
          (λ steady_with_order r,
        then_ (resize_shared_cache_budgets r (saturating_sub (max_resident_bytes (rd_options r)) steady_with_order))
          (λ _ r, (Ok (Some order), r))))))))
  end).

(** The pages of the preloaded bytes, each validated once.  The code does this
    in parallel: which error is reported when several pages are bad depends on
    the schedule; here it is the first. *)
Definition validate_hot_pages (h : DiskAnnHeader) (ix : AdjacencyIndex) (v : AdjacencyValidationCache) (payload : list Z) :
    io_result unit * AdjacencyValidationCache :=
  foldl (λ acc '(page_idx, page),
      match acc with
      | (Ok _, v) => get_or_validate v page_idx (validate_adjacency_page_payload f16_is_finite h ix (Z.of_nat page_idx) page)
      | failed => failed
      end) (Ok (), v) (imap pair (chunks_exact (Z.to_nat DISKANN_PAGE_SIZE) payload)).

(** How much of the adjacency section to keep, given what is free. *)
Definition preload_request (preload_bytes adjacency_length : Z) : Z :=
  let requested_len := Z.min preload_bytes adjacency_length in
  Z.min (saturating_mul 64 (div_ceil requested_len DISKANN_ADJACENCY_PRELOAD_ALIGNMENT) DISKANN_ADJACENCY_PRELOAD_ALIGNMENT)
    adjacency_length.
Definition preload_len_of (requested_len available_bytes adjacency_length : Z) : Z :=
  let preload_len := Z.min requested_len available_bytes in
  if preload_len <? adjacency_length
  then preload_len / DISKANN_ADJACENCY_PRELOAD_ALIGNMENT * DISKANN_ADJACENCY_PRELOAD_ALIGNMENT
  else preload_len.

Definition optimize_for_search r : step_result_of unit :=
  then_ (ensure_resident r) (λ _ r,
  if (adjacency_preload_bytes (rd_options r) =? 0) || negb (match rd_hot_adjacency r with [] => true | _ => false end)
  then (Ok (), r)
  else
    let section := adjacency (sections (rd_header r)) in
    let adjacency_length := wrap 64 (sec_length section) in
    let requested_len := preload_request (adjacency_preload_bytes (rd_options r)) adjacency_length in
    then_ (lift_ (loaded_row_id_order_bytes r) r) (λ row_id_order_bytes r,
    then_ (lift_ (resident_steady_bytes (rd_header r)) r) (λ steady r,
    let available_bytes := saturating_sub (saturating_sub (max_resident_bytes (rd_options r)) steady) row_id_order_bytes in
    let preload_len := preload_len_of requested_len available_bytes adjacency_length in
    if preload_len =? 0 then
      then_ (resize_shared_cache_budgets r available_bytes) (λ _ r, (Ok (), r))
    else
      then_ (resize_shared_cache_budgets r (saturating_sub available_bytes preload_len)) (λ _ r,
      match pread (rd_reader r) [Request (offset section) (Z.to_nat preload_len)] with
      | (Ok (payload :: _), reader) =>
          let r := with_reader r reader in
          then_ (lift_ (expect (rd_resident r)) r) (λ d r,
          let '(verdict, v) := validate_hot_pages (rd_header r) (res_adjacency_index d) (res_validation d) payload in
          let r := with_resident r (Some (with_validation d v)) in
          then_ (lift_ verdict r) (λ _ r, (Ok (), with_hot r payload)))
      | (Ok [], reader) => (Panic, with_reader r reader)
      | (Err e, reader) => (Err (map_read_error e), with_reader r reader)
      | (Panic, reader) => (Panic, with_reader r reader)
      end)))).

Definition reader_read_plan r : ReadPlan :=
  with_capabilities (read_plan (read_tier (rd_options r))) (rd_capabilities r).

Definition limit_raw_vector_cache_bytes r (limit : Z) : DiskAnnIndexReader R :=
  let o := rd_options r in
  with_options r (Resolved (read_tier o) (adjacency_preload_bytes o) (adjacency_cache_bytes o) (max_resident_bytes o)
    (Z.min (raw_vector_cache_bytes o) limit)).

Definition hot_adjacency_window r (off : Z) (length : nat) : option (list Z) :=
  relative ← checked_sub off (offset (adjacency (sections (rd_header r))));
  relative ← try_from 64 relative;
  stop ← checked_add 64 relative (Z.of_nat length);
  get_slice (Z.to_nat relative) length (rd_hot_adjacency r).

Definition adjacency_fully_preloaded r : bool := zlen (rd_hot_adjacency r) =? sec_length (adjacency (sections (rd_header r))).

(** [ranges.chunks_mut(max_ranges)] when the input takes fewer ranges per call. *)
Definition pread_ranges r (ranges : list ReadRequest) : step_result_of (list (list Z)) :=
  let max_ranges := max_ranges_per_pread (rd_capabilities r) in
  if (max_ranges =? 0) || (zlen ranges <=? max_ranges) then
    match pread (rd_reader r) ranges with
    | (Err e, reader) => (Err (map_read_error e), with_reader r reader)
    | (result, reader) => (result, with_reader r reader)
    end
  else
    let '(result, reader) := pread_sections (S (length ranges)) (rd_reader r) (Z.to_nat max_ranges) ranges in
    (result, with_reader r reader).

Definition validate_adjacency_page r (page_idx : nat) (page : list Z) : step_result_of unit :=
  then_ (lift_ (get_resident r) r) (λ d r,
  let '(verdict, v) := get_or_validate (res_validation d) page_idx
    (validate_adjacency_page_payload f16_is_finite (rd_header r) (res_adjacency_index d) (Z.of_nat page_idx) page) in
  (verdict, with_resident r (Some (with_validation d v)))).

End ReaderOps.

(** ** What the estimates add up to *)

Definition ksub_of (h : DiskAnnHeader) : Z := if pq_bits h =? 4 then 16 else 256.
Definition steady_of (h : DiskAnnHeader) : Z :=
  (pq_m h + 1) * 8 + dimension h * ksub_of h * 4 + (sec_length (row_ids (sections h)) - 32) + sec_length (pq_codes (sections h)) +
  sec_length (adjacency_index (sections h)) + sec_length (adjacency (sections h)) / DISKANN_PAGE_SIZE + pq_m h * ksub_of h * 4.

Lemma checked_sum_Ok msg acc parts s :
  try_fold (λ total bytes, or_data (checked_add 64 total bytes) msg) acc parts = Ok s → s = acc + zsum (λ x, x) parts ∧ (parts ≠ [] → s < 2 ^ 64).
Proof.
  revert acc. induction parts as [|x parts IH]; intros acc H; cbn [try_fold] in H; [injection H as <-; split; [cbn; lia|done]|].
  bind_ok H as t Ht. apply ok_or_Ok, checked_add_Some in Ht as [-> Hlt]. apply IH in H as [-> Hb]. split; [cbn; unfold zsum; lia|].
  intros _. destruct parts; [cbn; lia|by apply Hb].
Qed.

Lemma ksub_Ok h k : diskann_pq_ksub (pq_bits h) = Ok k → k = ksub_of h.
Proof. intros [[E ->]|[E ->]]%diskann_pq_ksub_Ok; unfold ksub_of; by rewrite E. Qed.
Lemma codebook_bytes_Ok h n : decoded_pq_codebook_bytes h = Ok n → n = (pq_m h + 1) * 8 + dimension h * ksub_of h * 4.
Proof.
  unfold decoded_pq_codebook_bytes. intros H. bind_ok H as a Ha. apply ok_or_Ok, bind_Some in Ha as (? & E1 & Ha).
  apply checked_add_Some in E1 as [-> _]. apply checked_mul_Some in Ha as [-> _]. bind_ok H as k Hk. apply ksub_Ok in Hk as ->.
  bind_ok H as c Hc. apply ok_or_Ok, bind_Some in Hc as (? & E2 & Hc). apply checked_mul_Some in E2 as [-> _], Hc as [-> _].
  by apply ok_or_Ok, checked_add_Some in H as [-> _].
Qed.
Lemma section_len_Ok s n : section_len_usize s = Ok n → n = sec_length s.
Proof. intros H. by apply ok_or_Ok, try_from_Some in H as [-> _]. Qed.
Lemma row_id_bytes_Ok h n : resident_row_id_bytes h = Ok n → n = sec_length (row_ids (sections h)) - 32.
Proof.
  unfold resident_row_id_bytes. intros H. bind_ok H as l Hl. apply section_len_Ok in Hl as ->. by apply ok_or_Ok, checked_sub_Some in H as [-> _].
Qed.
Lemma page_count_Ok h n : adjacency_page_count h = Ok n → n = sec_length (adjacency (sections h)) / DISKANN_PAGE_SIZE.
Proof. unfold adjacency_page_count. intros H. bind_ok H as l Hl. apply section_len_Ok in Hl as ->. guard_ok H as G. by injection H as <-. Qed.
Lemma validation_bytes_Ok h n : adjacency_validation_bytes h = Ok n → n = sec_length (adjacency (sections h)) / DISKANN_PAGE_SIZE.
Proof.
  unfold adjacency_validation_bytes. intros H. bind_ok H as l Hl. apply page_count_Ok in Hl as ->. apply ok_or_Ok, checked_mul_Some in H as [-> _]. lia.
Qed.
Lemma norms_bytes_Ok h n : pq_norms_bytes h = Ok n → n = pq_m h * ksub_of h * 4.
Proof.
  unfold pq_norms_bytes. intros H. bind_ok H as k Hk. apply ksub_Ok in Hk as ->.
  apply ok_or_Ok, bind_Some in H as (? & E & H). by apply checked_mul_Some in E as [-> _], H as [-> _].
Qed.

Lemma steady_Ok h s : resident_steady_bytes h = Ok s → s = steady_of h ∧ s < 2 ^ 64.
Proof.
  unfold resident_steady_bytes. intros H. bind_ok H as a Ha. apply norms_bytes_Ok in Ha as ->. bind_ok H as b Hb. apply codebook_bytes_Ok in Hb as ->.
  bind_ok H as c Hc. apply row_id_bytes_Ok in Hc as ->. bind_ok H as d Hd. apply section_len_Ok in Hd as ->. bind_ok H as e He. apply section_len_Ok in He as ->.
  bind_ok H as f Hf. apply validation_bytes_Ok in Hf as ->. apply checked_sum_Ok in H as [-> Hb]. cbn in *. unfold steady_of. split; [lia|]. by apply Hb.
Qed.
Lemma peak_Ok h p : resident_peak_bytes h = Ok p → steady_of h <= p.
Proof.
  unfold resident_peak_bytes. intros H. bind_ok H as a Ha. bind_ok H as b Hb. apply codebook_bytes_Ok in Hb as ->.
  bind_ok H as c Hc. bind_ok H as d Hd. apply row_id_bytes_Ok in Hd as ->. bind_ok H as e He. apply section_len_Ok in He as ->.
  bind_ok H as f Hf. apply section_len_Ok in Hf as ->. bind_ok H as g Hg. apply validation_bytes_Ok in Hg as ->. bind_ok H as i Hi. apply norms_bytes_Ok in Hi as ->.
  bind_ok H as j Hj. bind_ok H as k Hk. bind_ok H as l Hl. bind_ok H as m Hm. bind_ok H as s Hs. apply checked_sum_Ok in Hs as [-> _].
  injection H as <-. cbn. unfold steady_of. lia.
Qed.
Lemma order_peak_Ok h hot p : row_id_order_peak_bytes h hot = Ok p → 0 <= sec_length (row_id_order (sections h)) →
  steady_of h + hot + sec_length (row_id_order (sections h)) <= p.
Proof.
  unfold row_id_order_peak_bytes. intros H Hn. bind_ok H as o Ho. apply section_len_Ok in Ho as ->. bind_ok H as s Hs. apply steady_Ok in Hs as [-> _].
  apply checked_sum_Ok in H as [-> _]. unfold DISKANN_RESIDENT_DECODE_BUFFER_SIZE. cbn. lia.
Qed.

(** ** The memory the resident data really takes *)

Definition row_id_storage_bytes (s : RowIdStorage) : Z :=
  match s with Raw ids => zlen ids * 8 | ForBitPacked _ _ _ payload => zlen payload end.
Definition index_memory (ix : AdjacencyIndex) : Z :=
  zlen (block_offsets ix) * 8 + zlen (relative_offsets ix) * 2 + zlen (index_degree_and_flags ix) * 2.
Definition resident_memory (d : DiskAnnResidentData) : Z :=
  zlen (q_chunk_offsets (res_pq d)) * 8 + zlen (q_centroids (res_pq d)) * 4 + zlen (q_centroid_norms_cache (res_pq d)) * 4 +
  row_id_storage_bytes (res_row_ids d) + zlen (res_pq_codes d) + index_memory (res_adjacency_index d) + zlen (page_states (res_validation d)).

Lemma zlen_chunks n k (l : list Z) : (0 < n)%nat → length l = (k * n)%nat → length (chunks_exact n l) = k.
Proof. intros Hn Hl. destruct (concat_split n k l Hl) as (ls & -> & Hls & <-). by rewrite chunks_exact_concat. Qed.

Lemma norms_row_length norm q cs sub row : centroid_norms_of_sub norm q cs sub = Ok row → length row = Z.to_nat (q_ksub q).
Proof.
  unfold centroid_norms_of_sub. intros H. bind_ok H as p Hp. destruct p as [start stop].
  rewrite <- (length_seq (Z.to_nat (q_ksub q)) 0).
  assert (∀ l acc out, try_fold (λ norms j, c ← expect (get_slice (Z.to_nat (centroid_chunk_base q start + Z.of_nat j * (stop - start))) (Z.to_nat (stop - start)) cs);
    Ok (norms ++ [norm c])) acc l = Ok out → length out = (length acc + length l)%nat) as G.
  { induction l as [|j l IH]; intros acc out E; cbn [try_fold] in E; [injection E as <-; cbn; lia|].
    bind_ok E as x Hx. bind_ok Hx as c Hc. injection Hx as <-. apply IH in E. rewrite E, length_app. cbn. lia. }
  by apply G in H.
Qed.
Lemma norms_length norm q cs norms : try_compute_centroid_norms norm q cs = Ok norms → length norms = (Z.to_nat (q_m q) * Z.to_nat (q_ksub q))%nat.
Proof.
  unfold try_compute_centroid_norms. intros H.
  assert (∀ l acc out, try_fold (λ norms sub, row ← centroid_norms_of_sub norm q cs sub; Ok (norms ++ row)) acc l = Ok out →
    length out = (length acc + length l * Z.to_nat (q_ksub q))%nat) as G.
  { induction l as [|j l IH]; intros acc out E; cbn [try_fold] in E; [injection E as <-; cbn; lia|].
    bind_ok E as x Hx. bind_ok Hx as c Hc. injection Hx as <-. apply norms_row_length in Hc. apply IH in E. rewrite E, length_app, Hc. cbn. lia. }
  apply G in H. by rewrite length_seq in H.
Qed.

Lemma validated_offsets_shape d nbits offsets q :
  with_validated_chunk_offsets d nbits offsets = Ok q →
  q_d q = d ∧ q_m q = zlen offsets - 1 ∧ q_ksub q = Z.shiftl 1 nbits ∧ q_chunk_offsets q = offsets.
Proof. intros Hq. unfold with_validated_chunk_offsets in Hq. case_match; [|done]. bind_ok Hq as x Hx. by injection Hq as <-. Qed.

Lemma try_offsets_shape d nbits offsets q :
  try_with_chunk_offsets d nbits offsets = Ok (inr q) →
  q_d q = d ∧ q_m q = zlen offsets - 1 ∧ q_ksub q = Z.shiftl 1 nbits ∧ q_chunk_offsets q = offsets.
Proof.
  intros Hq. unfold try_with_chunk_offsets in Hq. repeat (case_match; [done|]). bind_ok Hq as x Hx. injection Hq as <-. by apply validated_offsets_shape in Hx.
Qed.

Lemma codebook_memory norm bytes h q :
  0 < dimension h < 2 ^ 32 → 0 < pq_m h <= dimension h → decode_pq_codebook norm bytes h = Ok q →
  zlen (q_chunk_offsets q) * 8 + zlen (q_centroids q) * 4 + zlen (q_centroid_norms_cache q) * 4 =
  (pq_m h + 1) * 8 + dimension h * ksub_of h * 4 + pq_m h * ksub_of h * 4.
Proof.
  intros Hdim Hm H. unfold decode_pq_codebook in H. guard_ok H as G1. guard_ok H as G2. bind_ok H as k Hk. pose proof (ksub_Ok h k Hk) as ->.
  apply diskann_pq_ksub_Ok in Hk. guard_ok H as G3. bind_ok H as ob Hob. apply ok_or_Ok, checked_mul_Some in Hob as [-> _].
  bind_ok H as co Hco. apply ok_or_Ok, checked_add_Some in Hco as [-> _]. bind_ok H as el Hel. apply pq_codebook_serialized_len_Ok in Hel as ->.
  guard_ok H as Hlen. apply Z.eqb_eq in Hlen. unfold PQ_CODEBOOK_HEADER_SIZE in *.
  set (offsets := le_val <$> chunks_exact 4 (slice _ _ bytes)) in H.
  assert (zlen offsets = pq_m h + 1) as Hoff.
  { assert (0 <= ksub_of h) by (unfold ksub_of; case_match; lia). unfold offsets, zlen. rewrite length_fmap, (zlen_chunks 4 (Z.to_nat (pq_m h + 1))); [lia|lia|].
    rewrite length_slice; unfold zlen in Hlen; [lia|nia]. }
  bind_ok H as r Hr. bind_ok H as pq Hpq. destruct r as [m|pq']; [discriminate Hpq|]. injection Hpq as ->. apply try_offsets_shape in Hr as (E1 & E2 & E3 & E4).
  bind_ok H as cs Hcs. bind_ok H as pq2 Hset. bind_ok H as v Hv. guard_ok H as Gv. injection H as <-. clear Hcs Hv Gv.
  unfold try_set_centroids in Hset. destruct (negb (zlen cs =? _)) eqn:Ec; [done|]. apply negb_false_iff, Z.eqb_eq in Ec. bind_ok Hset as norms Hn.
  injection Hset as <-. cbn [q_chunk_offsets q_centroids q_centroid_norms_cache]. apply norms_length in Hn.
  assert (q_ksub pq = ksub_of h) as Ek by (rewrite E3; unfold ksub_of; destruct Hk as [[-> _]|[-> _]]; reflexivity).
  assert (0 <= ksub_of h) by (unfold ksub_of; case_match; lia).
  rewrite E4, Hoff, Ec, E1, Ek. unfold zlen. rewrite Hn, Ek, E2, Hoff. rewrite Nat2Z.inj_mul, !Z2Nat.id by lia. lia.
Qed.

Lemma row_ids_memory bytes n s :
  decode_row_id_section_owned bytes n = Ok s → row_id_storage_bytes s = zlen bytes - 32 ∧ row_id_len s = n.
Proof.
  unfold decode_row_id_section_owned. intros H. bind_ok H as rh Hh. bind_ok H as st Hst. bind_ok H as u Hu. injection H as <-. clear Hu.
  unfold decode_row_id_section_header in Hh. guard_ok Hh as G1. guard_ok Hh as G2. bind_ok Hh as c Hc. apply ok_or_Ok, try_from_Some in Hc as [-> _].
  guard_ok Hh as G3. bind_ok Hh as bp Hbp. destruct bp as [bw plen]. guard_ok Hh as Hlen. injection Hh as <-. cbn [rh_encoding rh_base rh_bit_width rh_count] in Hst.
  apply Z.leb_le in G1. apply bool_decide_eq_true, checked_add_Some in Hlen as [Hlen _]. unfold ROW_ID_SECTION_HEADER_SIZE in *. apply Z.eqb_eq in G3.
  assert (zlen (drop (Z.to_nat 32) bytes) = zlen bytes - 32) as Ed by (unfold zlen in *; rewrite length_drop; lia).
  destruct (get_u32 bytes 0 =? ROW_ID_ENCODING_RAW_I64).
  - injection Hst as <-. guard_ok Hbp as G4. bind_ok Hbp as k Hk. apply ok_or_Ok, checked_mul_Some in Hk as [-> _]. injection Hbp as <- <-.
    cbn [row_id_storage_bytes row_id_len]. unfold zlen at 1. rewrite length_fmap, (zlen_chunks 8 n); [lia|lia|]. unfold zlen in *. lia.
  - destruct (get_u32 bytes 0 =? ROW_ID_ENCODING_FOR_BITPACK); [|done]. injection Hst as <-. split; [exact Ed|]. cbn. lia.
Qed.

Lemma index_memory_exact bytes h ix : 0 <= vector_count h → decode_adjacency_index bytes h = Ok ix → index_memory ix = sec_length (adjacency_index (sections h)).
Proof.
  intros Hc H. unfold decode_adjacency_index in H. bind_ok H as sl Hsl. apply section_len_Ok in Hsl as ->. bind_ok H as el Hel.
  apply adjacency_index_serialized_len_Ok in Hel as ->. guard_ok H as G1. bind_ok H as bb Hbb. apply ok_or_Ok, checked_mul_Some in Hbb as [-> _].
  bind_ok H as rb Hrb. apply ok_or_Ok, checked_mul_Some in Hrb as [-> _]. guard_ok H as G2. bind_ok H as mo Hmo. apply ok_or_Ok, checked_add_Some in Hmo as [-> _].
  bind_ok H as u Hu. injection H as <-. unfold index_memory. cbn [block_offsets relative_offsets index_degree_and_flags].
  apply Z.eqb_eq in G1, G2. rewrite G1 in G2 |- *. pose proof (div_ceil_nonneg (vector_count h) 16 Hc ltac:(lia)).
  unfold zlen at 1 2 3. rewrite !length_fmap. unfold zlen in G2.
  rewrite (zlen_chunks 8 (Z.to_nat (div_ceil (vector_count h) 16))), !(zlen_chunks 2 (Z.to_nat (vector_count h)));
    rewrite ?length_slice, ?length_take, ?length_drop; lia.
Qed.

Lemma pread_sections_ok `{LR : SeekReadLaws R} fuel (r : R) k reqs bufs r' :
  (0 < k)%nat → (length reqs ≤ fuel)%nat → Forall (λ q, 0 <= req_pos q) reqs → pread_sections fuel r k reqs = (Ok bufs, r') →
  bufs = range_of (contents r) <$> reqs ∧ Forall (in_range (contents r)) reqs.
Proof.
  intros Hk. revert r reqs bufs r'. induction fuel as [|fuel IH]; intros r reqs bufs r' Hf Hpos E; cbn [pread_sections] in E.
  { destruct reqs; [|cbn in Hf; lia]. injection E as <- _. by split. }
  destruct reqs as [|q reqs]; [injection E as <- _; by split|]. set (all := q :: reqs) in *.
  destruct (pread r (take k all)) as [[bs|e|] r1] eqn:Ep; [|done..].
  destruct (pread_sections fuel r1 k (drop k all)) as [rest r2] eqn:Er. destruct rest as [bs'|e|]; [|done..]. cbn in E. injection E as <- _.
  destruct (pread_ok r (take k all) bs r1) as [Hin ->]; [by apply Forall_take|done|].
  pose proof (pread_contents r (take k all)) as C. rewrite Ep in C. cbn in C.
  destruct (IH r1 (drop k all) bs' r2) as [-> Hin']; [rewrite length_drop; unfold all in *; cbn in *; lia|by apply Forall_drop|done|].
  rewrite C in *. rewrite <- fmap_app, take_drop. split; [done|]. rewrite <- (take_drop k all). by apply Forall_app.
Qed.

(** Reading changes neither the contents nor the capabilities of a source. *)
Definition same_source `{SeekReadLaws R} (r r' : R) : Prop := contents r' = contents r ∧ read_capabilities r' = read_capabilities r.

Lemma same_source_trans `{LR : SeekReadLaws R} (a b c : R) : same_source a b → same_source b c → same_source a c.
Proof. intros [E1 E2] [E3 E4]. split; congruence. Qed.
Lemma pread_same `{LR : SeekReadLaws R} (r : R) reqs : same_source r (pread r reqs).2.
Proof. split; [apply pread_contents|apply pread_capabilities]. Qed.
Lemma pread_sections_same `{LR : SeekReadLaws R} fuel (r : R) k reqs : same_source r (pread_sections fuel r k reqs).2.
Proof.
  revert r reqs. induction fuel as [|fuel IH]; intros r reqs; cbn [pread_sections]; [done|]. destruct reqs as [|q reqs]; [done|].
  pose proof (pread_same r (take k (q :: reqs))) as C. destruct (pread r (take k (q :: reqs))) as [[bs|e|] r1]; cbn in *; [|done..].
  pose proof (IH r1 (drop k (q :: reqs))) as C'. destruct (pread_sections fuel r1 k (drop k (q :: reqs))) as [rest r2]. cbn in *. by eapply same_source_trans.
Qed.
Lemma read_resident_same `{LR : SeekReadLaws R} norm (r : R) h : same_source r (read_resident_sections norm r h).2.
Proof.
  unfold read_resident_sections. destruct (section_requests _) as [reqs|e|]; [|done..].
  match goal with |- context [pread_sections ?f ?x ?k ?q] => pose proof (pread_sections_same f x k q) as C; destruct (pread_sections f x k q) as [[?|?|] ?] end; done.
Qed.
Lemma read_u32_loop_same `{LR : SeekReadLaws R} fuel (r : R) s n k loaded values : same_source r (read_u32_loop fuel r s n k loaded values).2.
Proof.
  revert r loaded values. induction fuel as [|fuel IH]; intros r loaded values; cbn [read_u32_loop]; [done|]. case_match; [|done].
  match goal with |- context [pread ?x ?q] => pose proof (pread_same x q) as C; destruct (pread x q) as [[[|? ?]|?|] ?] end; cbn in *; try done.
  eapply same_source_trans; [exact C|apply IH].
Qed.
Lemma read_u32_same `{LR : SeekReadLaws R} (r : R) s : same_source r (read_u32_section r s).2.
Proof. unfold read_u32_section. destruct (section_len_usize s); [|done..]. case_match; [done|]. apply read_u32_loop_same. Qed.

Lemma section_requests_Ok ranges reqs :
  section_requests ranges = Ok reqs → reqs = (λ s, Request (offset s) (Z.to_nat (sec_length s))) <$> ranges.
Proof.
  unfold section_requests. assert (∀ l acc out, try_fold (λ requests s, len ← section_len_usize s; Ok (requests ++ [Request (offset s) (Z.to_nat len)])) acc l = Ok out →
    out = acc ++ ((λ s, Request (offset s) (Z.to_nat (sec_length s))) <$> l)) as G.
  { induction l as [|s l IH]; intros acc out E; cbn [try_fold] in E; [injection E as <-; by rewrite app_nil_r|].
    bind_ok E as x Hx. bind_ok Hx as n Hn. apply section_len_Ok in Hn as ->. injection Hx as <-. rewrite (IH _ _ E), <- app_assoc. done. }
  intros H. by apply G in H.
Qed.

Lemma resident_ranges_nonneg h : sections_tile (sections h) (file_len h) → Forall (λ s, 0 <= offset s ∧ 0 <= sec_length s) (resident_ranges h).
Proof.
  intros [T1 T2 T3 T4 T5 T6 T7 T8 T9 T10 T11]. unfold as_array in T11. repeat (apply list.Forall_cons in T11 as [? T11]).
  unfold DISKANN_PAGE_SIZE in *. unfold resident_ranges. repeat (apply Forall_cons; split; [cbn [offset sec_length]; lia|]). constructor.
Qed.

Lemma resident_memory_exact `{LR : SeekReadLaws R} norm (r : R) bytes h pq ids codes ix r' a b :
  bytes_ok bytes → decode bytes = Ok h → 0 <= max_ranges_per_pread (read_capabilities r) →
  read_resident_sections norm r h = (Ok (pq, ids, codes, ix), r') →
  row_id_len ids = Z.to_nat (vector_count h) ∧
  resident_memory (Resident pq ids codes ix (validation_cache_new (Z.to_nat (sec_length (adjacency (sections h)) / DISKANN_PAGE_SIZE))) a b) = steady_of h.
Proof.
  intros Hb Hd Hcap Hread. destruct (decoded_facts bytes h Hb Hd) as (Ht & Hs & Hdim & Hcnt & Hm & _ & _ & (pages & Hpages & Hadj) & Hrow).
  pose proof (resident_ranges_nonneg h Ht) as Hnn. unfold read_resident_sections in Hread.
  destruct (section_requests (resident_ranges h)) as [reqs|e|] eqn:Er; [|done..]. apply section_requests_Ok in Er as ->.
  set (reqs := _ <$> resident_ranges h) in Hread. set (k := if _ =? 0 then _ else _) in Hread.
  destruct (pread_sections (S (length reqs)) r k reqs) as [[payloads|e|] r1] eqn:Ep; [|done..]. injection Hread as Hread _.
  assert (0 < k)%nat as Hk.
  { unfold k. destruct (Z.eqb_spec (max_ranges_per_pread (read_capabilities r)) 0); [unfold reqs, resident_ranges; cbn; lia|lia]. }
  destruct (pread_sections_ok (S (length reqs)) r k reqs payloads r1 Hk ltac:(lia)) as [-> Hin];
    [unfold reqs; apply Forall_fmap; eapply Forall_impl; [exact Hnn|]; by intros s [? _]|done|].
  unfold reqs, resident_ranges in Hread, Hin, Hnn. cbn [fmap list_fmap] in Hread, Hin. cbn [decode_resident] in Hread.
  bind_ok Hread as q Hq. bind_ok Hread as s Hsids. bind_ok Hread as i Hi. injection Hread as -> -> <- ->.
  repeat (apply list.Forall_cons in Hin as [[_ ?] Hin]). repeat (apply list.Forall_cons in Hnn as [[? ?] Hnn]). cbn [req_pos req_len] in *.
  assert (∀ o n : Z, 0 <= o → 0 <= n → o + Z.of_nat (Z.to_nat n) <= zlen (contents r) → zlen (range_of (contents r) (Request o (Z.to_nat n))) = n) as Hl.
  { intros o n Ho Hn Hle. unfold range_of, zlen in *. cbn [req_pos req_len]. rewrite length_slice; lia. }
  apply codebook_memory in Hq; [|lia|lia]. apply row_ids_memory in Hsids as [Hsids Hcount]. rewrite Hl in Hsids by done. split; [exact Hcount|]. apply index_memory_exact in Hi; [|lia].
  unfold resident_memory, steady_of. cbn [res_pq res_row_ids res_pq_codes res_adjacency_index res_validation page_states validation_cache_new].
  rewrite Hl by done. rewrite Hsids, Hi.
  assert (∀ n (x : Z), zlen (replicate n x) = Z.of_nat n) as -> by (intros; unfold zlen; by rewrite length_replicate).
  rewrite Hadj, Z.div_mul by (unfold DISKANN_PAGE_SIZE; lia). lia.
Qed.

(** ** The memory invariant *)

Definition cache_ok (c : SharedWindowCache) : Prop := c ≠ [] ∧ Forall shard_inv c.

Lemma cache_new_spec capacity : 0 <= capacity → cache_ok (cache_new capacity) ∧ total_capacity (cache_new capacity) = capacity.
Proof.
  intros Hc. unfold cache_new, new_with_max_shards. set (n := if _ <=? _ then _ else _).
  assert (0 < n) as Hn by (unfold n, SHARED_WINDOW_CACHE_SHARDS; case_match; lia).
  clearbody n. destruct (Z_of_nat_complete n ltac:(lia)) as [k ->]. rewrite Nat2Z.id. assert (0 < k)%nat as Hk by lia.
  split; [split|].
  - by destruct k as [|k]; [lia|].
  - apply Forall_fmap, Forall_true. intros i. cbn. apply fresh_shard_inv. unfold shard_capacity.
    assert (0 <= capacity / Z.of_nat k) by (apply Z.div_pos; lia). case_match; lia.
  - unfold total_capacity. rewrite zsum_fmap. cbn. by apply zsum_shard_capacity.
Qed.

Definition order_bytes (s : RowIdOrderState) : Z := match s with Loaded order => zlen order * 4 | _ => 0 end.

(** Everything a reader holds, the caches at their capacity. *)
Definition reader_memory {R} (r : DiskAnnIndexReader R) : Z :=
  match rd_resident r with
  | None => zlen (rd_hot_adjacency r) + order_bytes (rd_row_id_order r)
  | Some d => resident_memory d + zlen (rd_hot_adjacency r) + order_bytes (rd_row_id_order r) +
      total_capacity (res_adjacency_cache d) + total_capacity (res_raw_vector_cache d)
  end.

Section Memory.
Context `{LR : SeekReadLaws R} (norm : list Z → Z) (f16_is_finite : Z → bool).
Implicit Type r : DiskAnnIndexReader R.

(** The budgets leave room for the data and the caches. *)
Definition budgets_ok (o : ResolvedVectorIndexReaderOptions) (h : DiskAnnHeader) (budget : Z) : Prop :=
  max_resident_bytes o = budget ∧ 0 <= budget < 2 ^ 64 ∧ 0 <= adjacency_cache_bytes o ∧ 0 <= raw_vector_cache_bytes o ∧
  0 <= adjacency_preload_bytes o ∧
  adjacency_cache_bytes o + raw_vector_cache_bytes o < 2 ^ 64 ∧
  (steady_of h <= budget → steady_of h + adjacency_cache_bytes o + raw_vector_cache_bytes o <= budget).

Record reader_inv (file : list Z) (budget : Z) r : Prop := {
  ri_contents : contents (rd_reader r) = file;
  ri_ranges : 0 <= max_ranges_per_pread (read_capabilities (rd_reader r));
  ri_header : ∃ bytes, bytes_ok bytes ∧ decode bytes = Ok (rd_header r);
  ri_steady : resident_steady_bytes (rd_header r) = Ok (steady_of (rd_header r));
  ri_budgets : budgets_ok (rd_options r) (rd_header r) budget;
  ri_caches : ∀ d, rd_resident r = Some d → cache_ok (res_adjacency_cache d) ∧ cache_ok (res_raw_vector_cache d) ∧
    resident_memory d = steady_of (rd_header r) ∧ row_id_len (res_row_ids d) = Z.to_nat (vector_count (rd_header r));
  ri_memory : reader_memory r <= budget;
  ri_empty : rd_resident r = None → rd_hot_adjacency r = [] ∧ rd_row_id_order r = NotLoaded;
}.

Lemma then_keeps {A B} (Q : DiskAnnIndexReader R → Prop) (x : step_result_of (R:=R) A) (f : A → DiskAnnIndexReader R → step_result_of (R:=R) B) :
  Q x.2 → (∀ a r, x = (Ok a, r) → Q (f a r).2) → Q (then_ x f).2.
Proof. destruct x as [[a|e|] r]; cbn; auto. Qed.

Lemma resize_spec r d total :
  rd_resident r = Some d → cache_ok (res_adjacency_cache d) → cache_ok (res_raw_vector_cache d) →
  0 <= adjacency_cache_bytes (rd_options r) → 0 <= raw_vector_cache_bytes (rd_options r) →
  adjacency_cache_bytes (rd_options r) + raw_vector_cache_bytes (rd_options r) < 2 ^ 64 → 0 <= total →
  ∃ a b, resize_shared_cache_budgets r total = (Ok (), with_resident r (Some (with_caches d a b))) ∧ cache_ok a ∧ cache_ok b ∧
    total_capacity a + total_capacity b = Z.min total (adjacency_cache_bytes (rd_options r) + raw_vector_cache_bytes (rd_options r)).
Proof.
  intros Hd [Ha1 Ha2] [Hr1 Hr2] Hda Hdr Hsum Ht. unfold resize_shared_cache_budgets.
  assert (saturating_add 64 (adjacency_cache_bytes (rd_options r)) (raw_vector_cache_bytes (rd_options r)) =
    adjacency_cache_bytes (rd_options r) + raw_vector_cache_bytes (rd_options r)) as -> by (unfold saturating_add; lia).
  set (da := adjacency_cache_bytes (rd_options r)) in *. set (dr := raw_vector_cache_bytes (rd_options r)) in *.
  set (tb := Z.min total (da + dr)). assert (0 <= tb <= da + dr) as Htb by (unfold tb; lia).
  set (ab := if da + dr =? 0 then 0 else _).
  assert (0 <= ab <= tb) as Hab.
  { unfold ab. destruct (Z.eqb_spec (da + dr) 0); [lia|].
    assert (0 <= tb * da / (da + dr) <= tb) as Hq.
    { split; [apply Z.div_pos; nia|]. apply Z.div_le_upper_bound; [lia|]. nia. }
    rewrite (proj2 (try_from_Some 64 _ _)) by (split; [reflexivity|lia]). cbn [default from_option Datatypes.id]. exact Hq. }
  clearbody ab. unfold get_resident, lift_. rewrite Hd. cbn [or_data ok_or then_].
  destruct (set_total_capacity_spec (res_adjacency_cache d) ab Ha1 Ha2 ltac:(lia)) as (a & -> & La & Ca & Fa & _). cbn [then_].
  assert (saturating_sub tb ab = tb - ab) as -> by (unfold saturating_sub; lia).
  destruct (set_total_capacity_spec (res_raw_vector_cache d) (tb - ab) Hr1 Hr2 ltac:(lia)) as (b & -> & Lb & Cb & Fb & _). cbn [then_].
  exists a, b. split; [done|].
  assert (∀ c c' : SharedWindowCache, length c' = length c → c ≠ [] →
    Forall (λ s, shard_inv s ∧ retained_bytes (state s) <= capacity_bytes s) c' → cache_ok c') as Hok.
  { intros c c' Hl Hne Hf. split; [intros ->; by destruct c|]. eapply Forall_impl; [exact Hf|]. by intros ? [? _]. }
  split; [by eapply Hok|]. split; [by eapply Hok|]. lia.
Qed.

Section Ops.
Context (file : list Z) (budget : Z).
Let inv := reader_inv file budget.

Lemma inv_with_reader r x : inv r → same_source (rd_reader r) x → inv (with_reader r x).
Proof. intros [? ? ? ? ? ? ? ?] [Hc Hr]. split; cbn; try done; by rewrite ?Hc, ?Hr. Qed.

Lemma capacity_nonneg c : cache_ok c → 0 <= total_capacity c.
Proof.
  intros [_ Hf]. unfold total_capacity, zsum. induction Hf as [|s c [Hs _] _ IH]; cbn [foldr]; lia.
Qed.

(** Changing the resident data: new caches, or a new record of validated pages. *)
Lemma inv_resident r d d' :
  inv r → rd_resident r = Some d → cache_ok (res_adjacency_cache d') → cache_ok (res_raw_vector_cache d') →
  resident_memory d' = resident_memory d → res_row_ids d' = res_row_ids d →
  resident_memory d + zlen (rd_hot_adjacency r) + order_bytes (rd_row_id_order r) +
    total_capacity (res_adjacency_cache d') + total_capacity (res_raw_vector_cache d') <= budget →
  inv (with_resident r (Some d')).
Proof.
  intros [? ? ? ? ? Hc Hm He] Hd Ha Hb Hmem Hids Hle. split; cbn; try done.
  - intros d0 E. injection E as <-. destruct (Hc d Hd) as (_ & _ & ? & ?). split_and!; [apply Ha..|apply Hb| |]; congruence.
  - unfold reader_memory. cbn. lia.
Qed.

Lemma ensure_resident_inv r :
  inv r → inv (ensure_resident norm r).2 ∧
    rd_hot_adjacency (ensure_resident norm r).2 = rd_hot_adjacency r ∧ rd_row_id_order (ensure_resident norm r).2 = rd_row_id_order r ∧
    rd_header (ensure_resident norm r).2 = rd_header r ∧ rd_options (ensure_resident norm r).2 = rd_options r ∧
    (∀ u r', ensure_resident norm r = (Ok u, r') → ∃ d, rd_resident r' = Some d).
Proof.
  intros Hi. unfold ensure_resident. destruct (rd_resident r) as [d|] eqn:Ed.
  { cbn. split_and!; try done. intros u r' [= <- <-]. by exists d. }
  destruct (resident_peak_bytes (rd_header r)) as [peak|e|] eqn:Ep; cbn [lift_ then_]; [|by split_and!..].
  destruct (Z.ltb_spec (max_resident_bytes (rd_options r)) peak) as [Hlt|Hle]; [by split_and!|].
  destruct (read_resident_sections norm (rd_reader r) (rd_header r)) as [data x] eqn:Er.
  pose proof (read_resident_same norm (rd_reader r) (rd_header r)) as Hsame. rewrite Er in Hsame. cbn in Hsame.
  pose proof (inv_with_reader r x Hi Hsame) as Hi'.
  destruct data as [[[[pq ids] codes] ix]|e|]; cbn [lift_ then_]; [|by split_and!..]. cbn [with_reader rd_header].
  destruct (validate_pq_code_padding (rd_header r) codes); cbn [then_]; [|by split_and!..].
  destruct (adjacency_page_count (rd_header r)) as [pages|e|] eqn:Epg; cbn [then_ fst snd]; [|by split_and!..].
  apply page_count_Ok in Epg as ->. destruct (ri_header _ _ _ Hi) as (bytes & Hb & Hdec).
  destruct (ri_budgets _ _ _ Hi) as (Bm & Bb & Ba & Br & _ & _ & Bsum). destruct (ri_empty _ _ _ Hi Ed) as [Ehot Eord].
  destruct (resident_memory_exact norm (rd_reader r) bytes (rd_header r) pq ids codes ix x
    (cache_new (adjacency_cache_bytes (rd_options r))) (cache_new (raw_vector_cache_bytes (rd_options r))) Hb Hdec (ri_ranges _ _ _ Hi) Er) as [Hcount Hmem].
  destruct (cache_new_spec _ Ba) as [Oka Ca]. destruct (cache_new_spec _ Br) as [Okb Cb].
  apply peak_Ok in Ep. split_and!; try done; [|by intros u r' [= <- <-]; eexists].
  split; [apply Hi'|apply Hi'|apply Hi'|apply Hi'|apply Hi'| | |done].
  - intros d [= <-]. split; [done|]. split; [done|]. by split.
  - unfold reader_memory. cbn [rd_resident with_resident with_reader rd_hot_adjacency rd_row_id_order rd_options rd_header res_adjacency_cache res_raw_vector_cache].
    rewrite Hmem, Ehot, Eord, Ca, Cb. unfold zlen. cbn. lia.
Qed.

(** Resizing the caches to what is left of the budget. *)
Lemma inv_resized r d total :
  inv r → rd_resident r = Some d → 0 <= total → steady_of (rd_header r) + zlen (rd_hot_adjacency r) + order_bytes (rd_row_id_order r) + total <= budget →
  ∃ d', resize_shared_cache_budgets r total = (Ok (), with_resident r (Some d')) ∧ inv (with_resident r (Some d')) ∧
    res_row_ids d' = res_row_ids d ∧ res_adjacency_index d' = res_adjacency_index d ∧ res_validation d' = res_validation d ∧
    total_capacity (res_adjacency_cache d') + total_capacity (res_raw_vector_cache d') <= total.
Proof.
  intros Hi Hd Ht Hle. destruct (ri_caches _ _ _ Hi d Hd) as (Ha & Hb & Hm & _). destruct (ri_budgets _ _ _ Hi) as (_ & _ & Ba & Br & _ & Bs & _).
  destruct (resize_spec r d total Hd Ha Hb Ba Br Bs Ht) as (a & b & E & Ha' & Hb' & Hcap).
  exists (with_caches d a b). split; [exact E|]. split; [|split_and!; [done..|]; cbn [with_caches res_adjacency_cache res_raw_vector_cache]; lia].
  apply (inv_resident r d); [done|done|exact Ha'|exact Hb'|done|done|]. cbn [with_caches res_adjacency_cache res_raw_vector_cache]. lia.
Qed.

Lemma inv_with_order r order d :
  inv r → rd_resident r = Some d → zlen order * 4 + steady_of (rd_header r) + zlen (rd_hot_adjacency r) +
    total_capacity (res_adjacency_cache d) + total_capacity (res_raw_vector_cache d) <= budget → inv (with_order r (Loaded order)).
Proof.
  intros [? ? ? ? ? Hc Hm He] Hd Hle. destruct (Hc d Hd) as (_ & _ & Hmem & _). split; cbn [with_order rd_reader rd_header rd_options rd_resident]; try done.
  - unfold reader_memory. cbn [with_order rd_resident rd_hot_adjacency rd_row_id_order order_bytes]. rewrite Hd. lia.
  - congruence.
Qed.

Lemma ensure_row_id_order_inv r : inv r → inv (ensure_row_id_order norm r).2.
Proof.
  intros Hi. unfold ensure_row_id_order. destruct (ensure_resident_inv r Hi) as (Hi0 & _ & _ & _ & _ & Hres). apply then_keeps; [done|].
  intros u r0 E0. rewrite E0 in Hi0. cbn in Hi0. destruct (Hres _ _ E0) as [d Hd]. clear E0 Hres Hi r. rename r0 into r, Hi0 into Hi.
  destruct (rd_row_id_order r) as [|order|] eqn:Eord; [|done|done].
  destruct (row_id_order_peak_bytes (rd_header r) (zlen (rd_hot_adjacency r))) as [peak|e|] eqn:Ep; cbn [lift_ then_]; [|done..].
  destruct (ri_header _ _ _ Hi) as (bytes & Hb & Hdec). destruct (decoded_facts bytes _ Hb Hdec) as (Ht & Hs & _ & Hcnt & _).
  assert (0 <= sec_length (row_id_order (sections (rd_header r)))) as Hro by (rewrite (sl_order _ _ Hs); lia).
  destruct (ri_budgets _ _ _ Hi) as (Bm & _). pose proof (order_peak_Ok _ _ _ Ep Hro) as Hpk.
  destruct (Z.ltb_spec (max_resident_bytes (rd_options r)) peak) as [Hlt|Hle].
  { destruct Hi as [? ? ? ? ? ? Hm He]. split; cbn [snd with_order rd_reader rd_header rd_options rd_resident]; try done; [|congruence].
    unfold reader_memory in *. cbn [with_order rd_resident rd_hot_adjacency rd_row_id_order order_bytes] in *. by rewrite Eord in Hm. }
  destruct (inv_resized r d (max_resident_bytes (rd_options r) - peak) Hi Hd) as (d1 & -> & Hi1 & Eids & _ & _ & Hcap);
    [lia|rewrite Eord; cbn [order_bytes]; lia|]. cbn [then_].
  set (r1 := with_resident r (Some d1)) in *. destruct (read_u32_section (rd_reader r1) (row_id_order (sections (rd_header r1)))) as [ord x] eqn:Er.
  pose proof (read_u32_same (rd_reader r1) (row_id_order (sections (rd_header r1)))) as Hsame. rewrite Er in Hsame. cbn in Hsame.
  pose proof (inv_with_reader r1 x Hi1 Hsame) as Hi2. set (r2 := with_reader r1 x) in *.
  destruct ord as [order|e|]; cbn [lift_ then_]; [|done..]. change (get_resident r2) with (Ok (A:=DiskAnnResidentData) d1). cbn [then_].
  destruct (validate_row_id_order (res_row_ids d1) order) as [u1|e|] eqn:Ev; cbn [then_]; [|done..].
  assert (zlen order * 4 = sec_length (row_id_order (sections (rd_header r)))) as Elen.
  { unfold validate_row_id_order in Ev. guard_ok Ev as G. apply Nat.eqb_eq in G. rewrite Eids in G.
    destruct (ri_caches _ _ _ Hi d Hd) as (_ & _ & _ & Hcount). rewrite (sl_order _ _ Hs). unfold zlen. lia. }
  assert (inv (with_order r2 (Loaded order))) as Hi3.
  { apply (inv_with_order r2 order d1 Hi2); [done|]. cbn [r2 r1 with_reader with_resident rd_header rd_hot_adjacency]. lia. }
  set (r3 := with_order r2 (Loaded order)) in *.
  match goal with |- context [match ?x with Ok _ => _ | Err _ => _ | Panic => _ end] => destruct x as [sw|e|] eqn:Esw end; [|done..].
  bind_ok Esw as st Hst. apply steady_Ok in Hst as [-> _]. apply ok_or_Ok, bind_Some in Esw as (b1 & E1 & Esw). apply checked_add_Some in E1 as [-> _].
  apply bind_Some in Esw as (b2 & E2 & Esw). apply checked_mul_Some in E2 as [-> _]. apply checked_add_Some in Esw as [-> _].
  cbn [r3 r2 r1 with_order with_reader with_resident rd_header rd_hot_adjacency rd_options].
  unfold saturating_sub. destruct (inv_resized r3 d1 (Z.max (max_resident_bytes (rd_options r) - (steady_of (rd_header r) + zlen (rd_hot_adjacency r) + zlen order * 4)) 0) Hi3)
    as (d2 & -> & Hi4 & _); [done|lia| |exact Hi4].
  cbn [r3 r2 r1 with_order with_reader with_resident rd_header rd_hot_adjacency rd_row_id_order order_bytes]. lia.
Qed.

(** Recording validated pages takes no new memory. *)
Lemma hot_pages_length h ix v payload :
  length (page_states (validate_hot_pages f16_is_finite h ix v payload).2) = length (page_states v).
Proof.
  unfold validate_hot_pages. generalize (imap pair (chunks_exact (Z.to_nat DISKANN_PAGE_SIZE) payload)) as l. intros l.
  assert (∀ acc : io_result unit * AdjacencyValidationCache, length (page_states (foldl (λ acc '(page_idx, page),
      match acc with
      | (Ok _, v) => get_or_validate v page_idx (validate_adjacency_page_payload f16_is_finite h ix (Z.of_nat page_idx) page)
      | failed => failed
      end) acc l).2) = length (page_states acc.2)) as G; [|apply G].
  induction l as [|[i page] l IH]; intros acc; [done|]. cbn [foldl]. rewrite IH. destruct acc as [[u|e|] v']; [|done..]. apply get_or_validate_length.
Qed.

Lemma inv_validation r d v :
  inv r → rd_resident r = Some d → length (page_states v) = length (page_states (res_validation d)) → inv (with_resident r (Some (with_validation d v))).
Proof.
  intros Hi Hd Hl. destruct (ri_caches _ _ _ Hi d Hd) as (Ha & Hb & _). pose proof (ri_memory _ _ _ Hi) as Hm. unfold reader_memory in Hm. rewrite Hd in Hm.
  apply (inv_resident r d); try done. unfold resident_memory, with_validation. cbn [res_pq res_row_ids res_pq_codes res_adjacency_index res_validation].
  unfold zlen. by rewrite Hl.
Qed.

Lemma preload_len_bounds requested available len :
  0 <= requested <= len → 0 <= available → 0 <= preload_len_of requested available len <= Z.min requested available.
Proof.
  intros Hr Ha. unfold preload_len_of, DISKANN_ADJACENCY_PRELOAD_ALIGNMENT. set (p := Z.min requested available).
  pose proof (Z.div_mod p (64 * 1024) ltac:(lia)). pose proof (Z.mod_pos_bound p (64 * 1024) ltac:(lia)).
  assert (0 <= p / (64 * 1024)) by (apply Z.div_pos; unfold p; lia). destruct (p <? len); unfold p in *; lia.
Qed.
Lemma preload_request_bounds preload len : 0 <= preload → 0 <= len → 0 <= preload_request preload len <= len.
Proof.
  intros Hp Hl. unfold preload_request. assert (0 <= div_ceil (Z.min preload len) DISKANN_ADJACENCY_PRELOAD_ALIGNMENT) as Hd
    by (apply div_ceil_nonneg; [lia|done]).
  unfold saturating_mul. change (2 ^ 64) with 18446744073709551616. unfold DISKANN_ADJACENCY_PRELOAD_ALIGNMENT in *. lia.
Qed.

Lemma inv_with_hot r d payload :
  inv r → rd_resident r = Some d → zlen payload + steady_of (rd_header r) + order_bytes (rd_row_id_order r) +
    total_capacity (res_adjacency_cache d) + total_capacity (res_raw_vector_cache d) <= budget → inv (with_hot r payload).
Proof.
  intros [? ? ? ? ? Hc Hm He] Hd Hle. destruct (Hc d Hd) as (_ & _ & Hmem & _). split; cbn [with_hot rd_reader rd_header rd_options rd_resident]; try done.
  - unfold reader_memory. cbn [with_hot rd_resident rd_hot_adjacency rd_row_id_order]. rewrite Hd. lia.
  - congruence.
Qed.

Lemma optimize_for_search_inv r : inv r → inv (optimize_for_search norm f16_is_finite r).2.
Proof.
  intros Hi. unfold optimize_for_search. destruct (ensure_resident_inv r Hi) as (Hi0 & _ & _ & _ & _ & Hres). apply then_keeps; [done|].
  intros u r0 E0. rewrite E0 in Hi0. cbn in Hi0. destruct (Hres _ _ E0) as [d Hd]. clear E0 Hres Hi r. rename r0 into r, Hi0 into Hi.
  destruct (_ || _) eqn:Ego; [done|]. apply orb_false_iff in Ego as [_ Ehot]. destruct (rd_hot_adjacency r) eqn:Eh; [|done]. clear Ehot.
  destruct (loaded_row_id_order_bytes r) as [ob|e|] eqn:Eob; cbn [lift_ then_]; [|done..].
  assert (ob = order_bytes (rd_row_id_order r)) as ->.
  { unfold loaded_row_id_order_bytes in Eob. destruct (rd_row_id_order r); [by injection Eob| |by injection Eob]. by apply ok_or_Ok, checked_mul_Some in Eob as [-> _]. }
  destruct (resident_steady_bytes (rd_header r)) as [st|e|] eqn:Est; cbn [then_]; [|done..]. apply steady_Ok in Est as [-> _].
  destruct (ri_budgets _ _ _ Hi) as (Bm & Bb & _ & _ & Bp & _). destruct (ri_header _ _ _ Hi) as (bytes & Hb & Hdec).
  destruct (decoded_facts bytes _ Hb Hdec) as (Ht & _). pose proof (st_nonneg _ _ Ht) as Hnn. unfold as_array in Hnn. rewrite !list.Forall_cons in Hnn.
  destruct Hnn as (? & ? & ? & ? & ? & ? & ? & _). pose proof (ri_memory _ _ _ Hi) as Hm. unfold reader_memory in Hm. rewrite Hd, Eh in Hm. destruct (ri_caches _ _ _ Hi d Hd) as (Ha & Hc & Hmem & _).
  pose proof (capacity_nonneg _ Ha). pose proof (capacity_nonneg _ Hc). unfold zlen in Hm at 1. cbn [length] in Hm.
  assert (0 <= order_bytes (rd_row_id_order r)) as Hob by (destruct (rd_row_id_order r); cbn; [lia|unfold zlen; lia|lia]).
  set (len := wrap 64 (sec_length (adjacency (sections (rd_header r))))). assert (0 <= len) as Hlen by (apply (wrap_ok 64); lia).
  pose proof (preload_request_bounds (adjacency_preload_bytes (rd_options r)) len Bp Hlen) as Hreq.
  set (available := saturating_sub (saturating_sub _ _) _).
  assert (0 <= available ∧ steady_of (rd_header r) + order_bytes (rd_row_id_order r) + available <= budget) as [Hav Hfit].
  { unfold available, saturating_sub. rewrite Bm. assert (0 <= steady_of (rd_header r)); [|lia].
    rewrite <- Hmem. unfold resident_memory, index_memory, row_id_storage_bytes, zlen. destruct (res_row_ids d); lia. }
  pose proof (preload_len_bounds _ available len Hreq Hav) as Hpl. set (pl := preload_len_of _ _ _) in *. clearbody pl available.
  destruct (Z.eqb_spec pl 0) as [->|Hpl0].
  - destruct (inv_resized r d available Hi Hd Hav) as (d1 & -> & Hi1 & _); [rewrite Eh; unfold zlen; cbn; lia|]. exact Hi1.
  - assert (saturating_sub available pl = available - pl) as -> by (unfold saturating_sub; lia).
    destruct (inv_resized r d (available - pl) Hi Hd) as (d1 & -> & Hi1 & _ & Eix & Ev & Hcap); [lia|rewrite Eh; unfold zlen; cbn [length]; lia|]. cbn [then_].
    set (r1 := with_resident r (Some d1)) in *. set (q := Request _ _).
    pose proof (pread_same (rd_reader r1) [q]) as Hsame. destruct (pread (rd_reader r1) [q]) as [res x] eqn:Epr. cbn in Hsame.
    pose proof (inv_with_reader r1 x Hi1 Hsame) as Hi2. destruct res as [[|payload rest]|e|]; [done| |done|done].
    assert (zlen payload = pl) as Elen.
    { destruct (pread_ok (rd_reader r1) [q] (payload :: rest) x) as [Hin E]; [|done|].
      - repeat constructor. cbn. pose proof (st_codebook _ _ Ht). pose proof (st_row_ids _ _ Ht). pose proof (st_pq_codes _ _ Ht). pose proof (st_order _ _ Ht).
        pose proof (st_index _ _ Ht). pose proof (st_adjacency _ _ Ht). unfold DISKANN_PAGE_SIZE in *. lia.
      - injection E as -> _. apply list.Forall_cons in Hin as [[Hq0 Hq] _]. unfold q, range_of, zlen in *. cbn [req_pos req_len] in *. change (rd_reader r1) with (rd_reader r) in Hq. rewrite length_slice; lia. }
    set (r2 := with_reader r1 x) in *. change (rd_resident r2) with (Some d1). cbn [expect lift_ then_].
    pose proof (hot_pages_length (rd_header r2) (res_adjacency_index d1) (res_validation d1) payload) as Hvl.
    destruct (validate_hot_pages f16_is_finite (rd_header r2) (res_adjacency_index d1) (res_validation d1) payload) as [verdict v]. cbn in Hvl.
    pose proof (inv_validation r2 d1 v Hi2 eq_refl Hvl) as Hi3. destruct verdict as [uu|e|]; cbn [lift_ then_]; [|done..].
    apply (inv_with_hot _ (with_validation d1 v) payload Hi3); [done|].
    cbn [r2 r1 with_resident with_reader with_validation rd_header rd_row_id_order res_adjacency_cache res_raw_vector_cache]. lia.
Qed.

Lemma validate_adjacency_page_inv r page_idx page : inv r → inv (validate_adjacency_page f16_is_finite r page_idx page).2.
Proof.
  intros Hi. unfold validate_adjacency_page, get_resident. destruct (rd_resident r) as [d|] eqn:Hd; [|done]. cbn [or_data ok_or lift_ then_].
  set (v := validate_adjacency_page_payload _ _ _ _ _). pose proof (get_or_validate_length (res_validation d) page_idx v) as Hl.
  destruct (get_or_validate (res_validation d) page_idx v) as [verdict c]. cbn in *. by apply inv_validation.
Qed.

Lemma pread_ranges_inv r ranges : inv r → inv (pread_ranges r ranges).2.
Proof.
  intros Hi. unfold pread_ranges. case_match.
  - pose proof (pread_same (rd_reader r) ranges) as Hs. destruct (pread (rd_reader r) ranges) as [[?|?|] x]; by apply inv_with_reader.
  - match goal with |- context [pread_sections ?a ?b ?c ?d] => pose proof (pread_sections_same a b c d) as Hs; destruct (pread_sections a b c d) as [? x] end.
    by apply inv_with_reader.
Qed.

Lemma limit_inv r limit : 0 <= limit → inv r → inv (limit_raw_vector_cache_bytes r limit).
Proof.
  intros Hl [? ? ? ? (B1 & B2 & B3 & B4 & B5 & B6 & B7) ? ? ?]. split; try done. unfold budgets_ok. cbn. split_and!; (done || lia).
Qed.

(** What searches do to the caches: any critical sections that leave the capacities. *)
Definition cache_activity (c c' : SharedWindowCache) : Prop :=
  Forall2 (λ s s', ∃ secs, shard_steps s secs s' ∧ capacity_bytes s' = capacity_bytes s) c c'.

Lemma cache_activity_ok c c' : cache_ok c → cache_activity c c' → cache_ok c' ∧ total_capacity c' = total_capacity c.
Proof.
  intros [Hne Hf] Hact. split; [split|].
  - intros ->. by inversion Hact; subst.
  - clear Hne. revert Hf. induction Hact as [|s s' c c' (secs & Hs & _) _ IH]; intros Hf; [constructor|].
    apply list.Forall_cons in Hf as [H1 H2]. constructor; [by eapply shard_steps_inv|by apply IH].
  - clear Hne Hf. unfold total_capacity, zsum. induction Hact as [|s s' c c' (_ & _ & E) _ IH]; [done|]. cbn [foldr]. lia.
Qed.

(** Any operation of the reader, whether it succeeds or fails; [offered] says
    which bytes searches hand to the page validation. *)
Inductive reader_step (offered : DiskAnnIndexReader R → nat → list Z → Prop) r : DiskAnnIndexReader R → Prop :=
  | rs_resident : reader_step offered r (ensure_resident norm r).2
  | rs_row_id_order : reader_step offered r (ensure_row_id_order norm r).2
  | rs_optimize : reader_step offered r (optimize_for_search norm f16_is_finite r).2
  | rs_validate page_idx page : offered r page_idx page → reader_step offered r (validate_adjacency_page f16_is_finite r page_idx page).2
  | rs_pread ranges : reader_step offered r (pread_ranges r ranges).2
  | rs_limit limit : 0 <= limit → reader_step offered r (limit_raw_vector_cache_bytes r limit)
  | rs_caches d a b : rd_resident r = Some d → cache_activity (res_adjacency_cache d) a → cache_activity (res_raw_vector_cache d) b →
      reader_step offered r (with_resident r (Some (with_caches d a b))).

Lemma reader_step_inv offered r r' : reader_step offered r r' → inv r → inv r'.
Proof.
  intros [| | |pi pg _|ranges|limit Hl|d a b Hd Ha Hb] Hi.
  - by apply ensure_resident_inv.
  - by apply ensure_row_id_order_inv.
  - by apply optimize_for_search_inv.
  - by apply validate_adjacency_page_inv.
  - by apply pread_ranges_inv.
  - by apply limit_inv.
  - destruct (ri_caches _ _ _ Hi d Hd) as (Oka & Okb & Hm & _). destruct (cache_activity_ok _ _ Oka Ha) as [Oka' Ea], (cache_activity_ok _ _ Okb Hb) as [Okb' Eb].
    pose proof (ri_memory _ _ _ Hi) as Hmem. unfold reader_memory in Hmem. rewrite Hd in Hmem.
    apply (inv_resident r d); try done. cbn [with_caches res_adjacency_cache res_raw_vector_cache]. lia.
Qed.

End Ops.

Lemma read_header_Ok (x x' : R) h : bytes_ok (contents x) → read_header x = (Ok h, x') → ∃ bytes, bytes_ok bytes ∧ decode bytes = Ok h.
Proof.
  unfold read_header. intros Hb E. destruct (pread x [Request 0 (Z.to_nat DISKANN_HEADER_SIZE)]) as [[[|bytes rest]|e|] y] eqn:Ep; try done.
  injection E as E _. exists bytes. split; [|done].
  destruct (λ F, pread_ok x _ _ _ F Ep) as [_ Eb]; [by repeat constructor|]. injection Eb as -> _. by apply Forall_slice.
Qed.
Lemma read_header_same (x : R) : same_source x (read_header x).2.
Proof. unfold read_header. pose proof (pread_same x [Request 0 (Z.to_nat DISKANN_HEADER_SIZE)]) as S. by destruct (pread x _) as [[[|? ?]|?|] ?]. Qed.

Lemma steady_nonneg bytes h : bytes_ok bytes → decode bytes = Ok h → 0 <= steady_of h.
Proof.
  intros Hb Hd. destruct (decoded_facts bytes h Hb Hd) as (Ht & _ & Hdim & _ & Hm & _ & _ & (pages & Hp & Ha) & Hr).
  pose proof (st_nonneg _ _ Ht) as Hnn. unfold as_array in Hnn. rewrite !list.Forall_cons in Hnn. destruct Hnn as (? & ? & ? & ? & ? & ? & ? & _).
  unfold steady_of, ksub_of. rewrite Ha, Z.div_mul by done. case_match; lia.
Qed.

Lemma usize_or_max n : 0 <= n → usize (default USIZE_MAX (try_from 64 n)).
Proof. intros Hn. unfold try_from. case_match; cbn [default from_option Datatypes.id]; unfold_widths; lia. Qed.

Lemma open_inv measured (x : R) budget r :
  bytes_ok (contents x) → usize budget → 0 <= max_ranges_per_pread (read_capabilities x) →
  open_with_options measured x (options_new budget) = Ok r → reader_inv (contents x) budget r.
Proof.
  intros Hb Hbud Hcap Ho. unfold open_with_options in Ho. pose proof (read_header_same x) as Hs.
  destruct (read_header x) as [hd y] eqn:Eh. cbn in Hs. bind_ok Ho as h Hh. subst hd. bind_ok Ho as st Hst0. injection Ho as <-.
  destruct (read_header_Ok x y h Hb Eh) as (bytes & Hbs & Hdec). pose proof (steady_Ok _ _ Hst0) as [-> Hst]. pose proof (steady_nonneg bytes h Hbs Hdec) as Hnonneg.
  destruct (decoded_facts bytes h Hbs Hdec) as (Ht & _). pose proof (st_nonneg _ _ Ht) as Hnn. unfold as_array in Hnn. rewrite !list.Forall_cons in Hnn.
  destruct Hnn as (? & ? & ? & ? & ? & ? & ? & _). destruct Hs as [Hs1 Hs2].
  match goal with |- context [resolve_cache_budgets _ ?t _ ?a ?v] => destruct (cache_budgets_spec budget (steady_of h) a v t Hbud) as (P1 & P2 & P3 & P4 & P5 & _);
    [unfold_widths; lia|by apply usize_or_max|by apply usize_or_max|] end.
  set (o := resolve_cache_budgets _ _ _ _ _) in *.
  assert (max_resident_bytes o = budget) as Emax by done.
  split; cbn [rd_reader rd_header rd_options rd_resident rd_hot_adjacency rd_row_id_order]; try done.
  - by rewrite Hs2.
  - by exists bytes.
  - unfold budgets_ok. rewrite Emax in *. clearbody o. unfold_widths. destruct (Z.le_gt_cases (steady_of h) budget); [specialize (P4 ltac:(lia))|specialize (P5 ltac:(lia))]; split_and!; lia.
  - unfold reader_memory. cbn. unfold zlen. cbn. unfold_widths. lia.
Qed.

(** C6: A reader never holds more than its memory budget: after it is opened with
    a budget, whatever sequence of operations runs on it - loading the resident
    sections, the row-ID order and the hot adjacency pages, reading, validating
    pages, and any activity of searches on the shared caches, with each operation
    succeeding or failing - the resident data, the hot pages, the order and the
    capacities of both caches together stay within it; and the resident data
    takes exactly the bytes the estimate announced. *)
Theorem reader_memory_bounded (offered : DiskAnnIndexReader R → nat → list Z → Prop) (measured budget : Z) (x : R) (r0 r : DiskAnnIndexReader R) :
  bytes_ok (contents x) → usize budget → 0 <= max_ranges_per_pread (read_capabilities x) →
  open_with_options measured x (options_new budget) = Ok r0 → rtc (reader_step offered) r0 r →
  reader_memory r <= budget ∧ ∀ d, rd_resident r = Some d → resident_steady_bytes (rd_header r) = Ok (resident_memory d).
Proof.
  intros Hb Hbud Hcap Ho Hsteps. pose proof (open_inv _ _ _ _ Hb Hbud Hcap Ho) as Hinv.
  assert (reader_inv (contents x) budget r) as Hr; [|split; [apply Hr|]].
  - revert Hinv. refine (rtc_ind_r (λ r, reader_inv (contents x) budget r0 → reader_inv (contents x) budget r) r0 _ _ r Hsteps); [done|].
    intros a b _ Hab IH Hi. by eapply reader_step_inv; [|apply IH].
  - intros d Hd. destruct (ri_caches _ _ _ Hr d Hd) as (_ & _ & -> & _). apply Hr.
Qed.

End Memory.

(** A reader over the file of the demonstration index. *)
Definition demo_file : list Z :=
  match write_diskann_index demo_f16 (λ _, true) demo_index demo_prepared (pos_writer_new []) with Ok w => written w | _ => [] end.
Definition demo_reader : DiskAnnIndexReader Cursor :=
  match open_with_options 1 (MkCursor demo_file 0) (options_new 100000) with
  | Ok r => r
  | _ => Reader (MkCursor [] 0) demo_header None (resolve_cache_budgets default_options Auto 0 0 0) default_capabilities Auto 0 [] NotLoaded
  end.
Definition demo_optimized : DiskAnnIndexReader Cursor := (optimize_for_search demo_norm (λ _, true) demo_reader).2.

Lemma reader_memory_bounded_witness :
  reader_memory demo_optimized <= 100000 ∧ adjacency_fully_preloaded demo_optimized = true ∧
  ∀ d, rd_resident demo_optimized = Some d → resident_steady_bytes (rd_header demo_optimized) = Ok (resident_memory d).
Proof.
  assert (reader_memory demo_optimized <= 100000 ∧
    ∀ d, rd_resident demo_optimized = Some d → resident_steady_bytes (rd_header demo_optimized) = Ok (resident_memory d)) as [H1 H2].
  { refine (reader_memory_bounded demo_norm (λ _, true) (λ _ _ _, True) 1 100000 (MkCursor demo_file 0) demo_reader demo_optimized _ _ _ _ _).
    - apply byte_list_ok. vm_compute. reflexivity.
    - by vm_compute.
    - by vm_compute.
    - vm_compute. reflexivity.
    - apply rtc_once. apply rs_optimize. }
  split; [exact H1|]. split; [vm_compute; reflexivity|exact H2].
Defined.
