(* ===== verification/ReaderPages.v ===== *)
(** What a DiskANN reader trusts: the pages it marks valid and the hot pages it
    keeps are checked pages of its file, and a file that was written properly is
    opened, loaded and preloaded without an error. *)

From S2P Require Import Prelude SeekIo IndexIoUtil F32 Adjacency OffsetLru WindowCache ReadOptions ValidationCache.
From S2P Require Import DiskannUtil RowIds DiskannHeader SectionWriter AdjacencyLayout PageValidation Pq DiskannFile DiskannReader.

(** Page [p] of the adjacency section of a file. *)
Definition file_page (file : list Z) (h : DiskAnnHeader) (p : nat) : list Z :=
  slice (Z.to_nat (offset (adjacency (sections h))) + p * 4096) 4096 file.

Lemma open_starts_empty `{SeekRead R} measured (x : R) options r :
  open_with_options measured x options = Ok r → rd_resident r = None ∧ rd_hot_adjacency r = [].
Proof.
  unfold open_with_options. destruct (read_header x) as [hd y]. intros Ho. bind_ok Ho as h Hh. bind_ok Ho as st Hst. by injection Ho as <-.
Qed.

Section Pages.
Context `{LR : SeekReadLaws R} (norm : list Z → Z) (f16_is_finite : Z → bool).
Implicit Type r : DiskAnnIndexReader R.

Record pages_inv (file : list Z) r : Prop := {
  pi_index : ∀ d, rd_resident r = Some d → validate_adjacency_index (rd_header r) (res_adjacency_index d) = Ok ();
  pi_valid : ∀ d p, rd_resident r = Some d → page_states (res_validation d) !! p = Some ADJACENCY_PAGE_VALID →
    validate_adjacency_page_payload f16_is_finite (rd_header r) (res_adjacency_index d) (Z.of_nat p) (file_page file (rd_header r) p) = Ok ();
  pi_hot : rd_hot_adjacency r = slice (Z.to_nat (offset (adjacency (sections (rd_header r))))) (length (rd_hot_adjacency r)) file;
  pi_aligned : ∃ k, length (rd_hot_adjacency r) = (k * 4096)%nat;
  pi_hot_valid : ∀ d p, rd_resident r = Some d → (p * 4096 < length (rd_hot_adjacency r))%nat →
    page_states (res_validation d) !! p = Some ADJACENCY_PAGE_VALID;
}.

(** Nothing the pages depend on has changed. *)
Definition same_pages r r' : Prop :=
  rd_header r' = rd_header r ∧ rd_hot_adjacency r' = rd_hot_adjacency r ∧
  match rd_resident r, rd_resident r' with
  | None, None => True
  | Some d, Some d' => res_adjacency_index d' = res_adjacency_index d ∧ res_validation d' = res_validation d
  | _, _ => False
  end.

#[local] Instance same_pages_preorder : PreOrder same_pages.
Proof.
  split.
  - intros r. split; [done|]. split; [done|]. by destruct (rd_resident r).
  - intros a b c (H1 & H2 & H3) (H4 & H5 & H6). split; [congruence|]. split; [congruence|].
    destruct (rd_resident a), (rd_resident b), (rd_resident c); try done. destruct H3, H6. split; congruence.
Qed.

Lemma pages_inv_same file r r' : pages_inv file r → same_pages r r' → pages_inv file r'.
Proof.
  intros [P1 P2 P3 P4 P5] (Eh & Ehot & Hd). split; rewrite ?Eh, ?Ehot; try done.
  - intros d' E. rewrite E in Hd. destruct (rd_resident r) as [d|] eqn:E0; [|done]. destruct Hd as [-> _]. by apply P1.
  - intros d' p E Hp. rewrite E in Hd. destruct (rd_resident r) as [d|] eqn:E0; [|done]. destruct Hd as [-> Ev]. rewrite Ev in Hp. by apply P2.
  - intros d' p E Hp. rewrite E in Hd. destruct (rd_resident r) as [d|] eqn:E0; [|done]. destruct Hd as [_ ->]. by apply (P5 d).
Qed.

Lemma with_order_same r o : same_pages r (with_order r o).
Proof. split; [done|]. split; [done|]. cbn. by destruct (rd_resident r). Qed.
Lemma with_reader_same r x : same_pages r (with_reader r x).
Proof. split; [done|]. split; [done|]. cbn. by destruct (rd_resident r). Qed.

Lemma resize_same r total : same_pages r (resize_shared_cache_budgets r total).2.
Proof.
  unfold resize_shared_cache_budgets, get_resident. destruct (rd_resident r) as [d|] eqn:Ed; [|done]. cbn [or_data ok_or lift_ then_].
  destruct (set_total_capacity _ (res_adjacency_cache d)); cbn [then_]; [|done..].
  destruct (set_total_capacity _ (res_raw_vector_cache d)); cbn [then_]; (split; [done|]; split; [done|]; cbn; by rewrite Ed).
Qed.

Lemma order_tail_same r (order : list Z) :
  same_pages r (then_ (lift_ (steady ← resident_steady_bytes (rd_header r);
      or_data (bytes ← checked_add 64 steady (zlen (rd_hot_adjacency r)); order_bytes ← checked_mul 64 (zlen order) 4; checked_add 64 bytes order_bytes)
        "DiskANN filtered resident size overflows usize") r)
    (λ steady_with_order r, then_ (resize_shared_cache_budgets r (saturating_sub (max_resident_bytes (rd_options r)) steady_with_order))
      (λ _ r, (Ok (Some order), r)))).2.
Proof.
  apply then_keeps; [done|]. intros sw r1 E. injection E as _ <-.
  pose proof (resize_same r (saturating_sub (max_resident_bytes (rd_options r)) sw)) as Hs. by destruct (resize_shared_cache_budgets r _) as [[?|?|] ?].
Qed.

(** Loading the order once the resident data is there. *)
Lemma row_id_order_same r r0 u : ensure_resident norm r = (Ok u, r0) → same_pages r0 (ensure_row_id_order norm r).2.
Proof.
  intros E. unfold ensure_row_id_order. rewrite E. cbn [then_]. destruct (rd_row_id_order r0); [|cbn [snd]; reflexivity..].
  apply then_keeps; [done|]. intros peak r1 E1. injection E1 as _ <-. case_match; [apply with_order_same|].
  pose proof (resize_same r0 (max_resident_bytes (rd_options r0) - peak)) as Hs1. apply then_keeps; [done|]. intros u1 r1 E1. rewrite E1 in Hs1. cbn [snd] in Hs1.
  destruct (read_u32_section (rd_reader r1) _) as [ord x]. assert (same_pages r0 (with_reader r1 x)) as Hs2 by (etrans; [exact Hs1|apply with_reader_same]).
  apply then_keeps; [done|]. intros order r2 E2. injection E2 as _ <-. apply then_keeps; [done|]. intros d r3 E3. injection E3 as _ <-.
  apply then_keeps; [done|]. intros u2 r4 E4. injection E4 as _ <-. etrans; [|apply order_tail_same].
  etrans; [exact Hs2|apply with_order_same].
Qed.

Lemma decode_index_validated bytes h ix : decode_adjacency_index bytes h = Ok ix → validate_adjacency_index h ix = Ok ().
Proof.
  intros Hd. unfold decode_adjacency_index in Hd. bind_ok Hd as a Ha. bind_ok Hd as b Hb. guard_ok Hd as G1. bind_ok Hd as c Hc. bind_ok Hd as e He.
  guard_ok Hd as G2. bind_ok Hd as f Hf. bind_ok Hd as u Hu. injection Hd as <-. by destruct u.
Qed.

Lemma ensure_resident_pages file budget r :
  reader_inv file budget r → pages_inv file r → pages_inv file (ensure_resident norm r).2.
Proof.
  intros Hi Hp. unfold ensure_resident. destruct (rd_resident r) as [d|] eqn:Ed; [done|]. destruct (ri_empty _ _ _ Hi Ed) as [Ehot _].
  assert (∀ x, pages_inv file (with_reader r x)) as Hx.
  { intros x. apply (pages_inv_same file r); [done|apply with_reader_same]. }
  apply then_keeps; [done|]. intros peak r1 E1. injection E1 as _ <-. case_match; [done|].
  destruct (read_resident_sections norm (rd_reader r) (rd_header r)) as [data x] eqn:Er. apply then_keeps; [apply Hx|].
  intros [[[pq ids] codes] ix] r1 E1. injection E1 as -> <-. apply then_keeps; [apply Hx|]. intros u r2 E2. injection E2 as _ <-.
  apply then_keeps; [apply Hx|]. intros pages r3 E3. injection E3 as _ <-. cbn [snd].
  assert (validate_adjacency_index (rd_header r) ix = Ok ()) as Hix.
  { unfold read_resident_sections in Er. destruct (section_requests _) as [reqs|e|]; [|done..].
    match type of Er with context [pread_sections ?a ?b ?c ?q] => destruct (pread_sections a b c q) as [[payloads|e|] y] end; [|done..].
    injection Er as Er _. unfold decode_resident in Er. repeat (destruct payloads as [|? payloads]; [done|]). destruct payloads; [|done].
    bind_ok Er as q Hq. bind_ok Er as s Hs. bind_ok Er as i Hix. injection Er as _ _ _ <-. by eapply decode_index_validated. }
  split; cbn [with_resident with_reader rd_resident rd_header rd_hot_adjacency]; rewrite ?Ehot; try done.
  - intros d [= <-]. exact Hix.
  - intros d p [= <-] Hv. cbn in Hv. apply lookup_replicate in Hv as [Hv _]. discriminate Hv.
  - by exists 0%nat.
  - intros d p _ Hlt. cbn in Hlt. lia.
Qed.
(** *** Validating the hot pages *)

Definition hot_step (h : DiskAnnHeader) (ix : AdjacencyIndex) (acc : io_result unit * AdjacencyValidationCache) (pp : nat * list Z) :
    io_result unit * AdjacencyValidationCache :=
  match acc with
  | (Ok _, v) => get_or_validate v pp.1 (validate_adjacency_page_payload f16_is_finite h ix (Z.of_nat pp.1) pp.2)
  | failed => failed
  end.
Lemma hot_pages_fold h ix v payload :
  validate_hot_pages f16_is_finite h ix v payload = foldl (hot_step h ix) (Ok (), v) (imap pair (chunks_exact 4096 payload)).
Proof.
  unfold validate_hot_pages. change (Z.to_nat DISKANN_PAGE_SIZE) with 4096%nat. generalize (imap pair (chunks_exact 4096 payload)) as l. generalize (Ok (A:=unit) (), v) as acc.
  intros acc l. revert acc. induction l as [|[i page] l IH]; intros acc; [done|]. cbn [foldl]. rewrite IH. f_equal.
Qed.

Lemma hot_fold_spec h ix l acc :
  let res := foldl (hot_step h ix) acc l in
  (∀ q, page_states res.2 !! q = Some ADJACENCY_PAGE_VALID → page_states acc.2 !! q = Some ADJACENCY_PAGE_VALID ∨
     ∃ page, (q, page) ∈ l ∧ validate_adjacency_page_payload f16_is_finite h ix (Z.of_nat q) page = Ok ()) ∧
  (∀ q, page_states acc.2 !! q = Some ADJACENCY_PAGE_VALID → page_states res.2 !! q = Some ADJACENCY_PAGE_VALID) ∧
  (∀ u, res.1 = Ok u → ∀ q page, (q, page) ∈ l → page_states res.2 !! q = Some ADJACENCY_PAGE_VALID) ∧ (∀ u, res.1 = Ok u → ∃ u', acc.1 = Ok u').
Proof.
  revert acc. induction l as [|[i page] l IH]; intros acc; cbn [foldl].
  { cbn zeta. split_and!; [by left|done|intros; set_solver|intros u E; by exists u]. }
  cbn zeta. specialize (IH (hot_step h ix acc (i, page))). cbn zeta in IH. destruct IH as (IH1 & IH2 & IH3 & IH4).
  destruct acc as [[u|e|] v]; cbn [hot_step fst snd] in *.
  - split_and!.
    + intros q Hq. destruct (IH1 q Hq) as [Hm|(pg & Hin & Hv)]; [|right; exists pg; split; [set_solver|done]].
      apply get_or_validate_marks in Hm as [?|[-> Hv]]; [by left|right; exists page; split; [set_solver|done]].
    + intros q Hq. apply IH2. by apply get_or_validate_keeps.
    + intros u0 E q pg Hin. apply elem_of_cons in Hin as [[= -> ->]|Hin]; [|by eapply IH3]. apply IH2.
      destruct (IH4 _ E) as [[] E']. destruct (get_or_validate v i _) as [res c'] eqn:Eg. cbn in E'. subst res. by apply get_or_validate_ok in Eg as [? _].
    + intros. by exists u.
  - split_and!; [|done|intros u0 E; destruct (IH4 _ E) as [? E']; discriminate E'..].
    intros q Hq. destruct (IH1 q Hq) as [?|(pg & Hin & Hv)]; [by left|right; exists pg; split; [set_solver|done]].
  - split_and!; [|done|intros u0 E; destruct (IH4 _ E) as [? E']; discriminate E'..].
    intros q Hq. destruct (IH1 q Hq) as [?|(pg & Hin & Hv)]; [by left|right; exists pg; split; [set_solver|done]].
Qed.

(** Page [i] of a prefix of the section is page [i] of the file. *)
Lemma prefix_page file h k i page :
  (Z.to_nat (offset (adjacency (sections h))) + k * 4096 ≤ length file)%nat →
  chunks_exact 4096 (slice (Z.to_nat (offset (adjacency (sections h)))) (k * 4096) file) !! i = Some page →
  (i < k)%nat ∧ page = file_page file h i.
Proof.
  intros Hfit Hi. set (o := Z.to_nat (offset (adjacency (sections h)))) in *. set (hot := slice o (k * 4096) file) in *.
  assert (length hot = (k * 4096)%nat) as Hl by (unfold hot; rewrite length_slice; lia).
  destruct (concat_split 4096 k hot Hl) as (ls & E & Hls & Hk). rewrite E, chunks_exact_concat in Hi by (done || lia).
  pose proof (lookup_lt_Some _ _ _ Hi) as Hlt. split; [lia|]. unfold file_page. fold o.
  assert (page = slice (i * 4096) 4096 (concat ls)) as ->.
  { clear -Hi Hls. revert i Hi. induction Hls as [|l ls Hl Hls IH]; intros i Hi; [done|]. destruct i as [|i]; cbn [concat].
    - injection Hi as <-. unfold slice. cbn [Nat.mul]. by rewrite drop_0, take_app_length'.
    - rewrite (IH i Hi). unfold slice. rewrite drop_app_ge by (rewrite Hl; lia). do 2 f_equal. lia. }
  rewrite <- E. unfold hot, slice. rewrite skipn_firstn_comm, take_take, drop_drop, Nat.min_l by lia. done.
Qed.

Lemma preload_aligned requested available pages :
  0 <= requested <= pages * DISKANN_PAGE_SIZE → 0 <= available → 0 <= pages →
  ∃ k, preload_len_of requested available (pages * DISKANN_PAGE_SIZE) = k * 4096 ∧ 0 <= k.
Proof.
  intros Hr Ha Hp. unfold preload_len_of, DISKANN_ADJACENCY_PRELOAD_ALIGNMENT, DISKANN_PAGE_SIZE in *. set (p := Z.min requested available).
  assert (0 <= p / (64 * 1024)) by (apply Z.div_pos; unfold p; lia). destruct (Z.ltb_spec p (pages * 4096)).
  - exists (p / (64 * 1024) * 16). lia.
  - exists pages. unfold p in *. lia.
Qed.

Lemma adjacency_offset_nonneg h : sections_tile (sections h) (file_len h) → 0 <= offset (adjacency (sections h)).
Proof.
  intros [T1 T2 T3 T4 T5 T6 T7 T8 T9 T10 T11]. unfold as_array in T11. rewrite !list.Forall_cons in T11.
  destruct T11 as (? & ? & ? & ? & ? & ? & ? & _). unfold DISKANN_PAGE_SIZE in *. lia.
Qed.

Lemma optimize_pages file budget r :
  reader_inv file budget r → pages_inv file r → pages_inv file (optimize_for_search norm f16_is_finite r).2.
Proof.
  intros Hi Hp. pose proof (ensure_resident_pages file budget r Hi Hp) as Hp0. destruct (ensure_resident_inv norm file budget r Hi) as (Hi0 & _).
  unfold optimize_for_search. apply then_keeps; [done|]. intros u r0 E0. rewrite E0 in Hp0, Hi0. cbn [snd] in Hp0, Hi0. clear E0 Hi Hp r. rename r0 into r.
  destruct (_ || _) eqn:Ego; [done|]. apply orb_false_iff in Ego as [_ Ehot]. destruct (rd_hot_adjacency r) eqn:Eh; [|done]. clear Ehot.
  apply then_keeps; [done|]. intros ob r1 E1. injection E1 as _ <-. apply then_keeps; [done|]. intros st r1 E1. injection E1 as _ <-.
  destruct (ri_header _ _ _ Hi0) as (bytes & Hb & Hdec). destruct (decoded_facts bytes _ Hb Hdec) as (Ht & _ & _ & _ & _ & _ & _ & (pages & Hpages & Hadj) & _).
  assert (wrap 64 (sec_length (adjacency (sections (rd_header r)))) = pages * DISKANN_PAGE_SIZE) as Elen.
  { rewrite Hadj. apply wrap_small. unfold u_ok, DISKANN_PAGE_SIZE. lia. }
  rewrite Elen. destruct (ri_budgets _ _ _ Hi0) as (_ & _ & _ & _ & Bp & _).
  pose proof (preload_request_bounds (adjacency_preload_bytes (rd_options r)) (pages * DISKANN_PAGE_SIZE) Bp ltac:(unfold DISKANN_PAGE_SIZE; lia)) as Hreq.
  set (available := saturating_sub (saturating_sub _ _) _). assert (0 <= available) as Hav by (unfold available, saturating_sub; lia).
  destruct (preload_aligned _ available pages Hreq Hav ltac:(lia)) as (k & Epl & Hk). set (pl := preload_len_of _ _ _) in *. clearbody pl available.
  case_match; [pose proof (resize_same r available) as Hs; apply then_keeps; [by eapply pages_inv_same|]; intros u1 r1 E1; rewrite E1 in Hs; by eapply pages_inv_same|].
  pose proof (resize_same r (saturating_sub available pl)) as Hs. apply then_keeps; [by eapply pages_inv_same|]. intros u1 r1 E1. rewrite E1 in Hs. cbn [snd] in Hs.
  assert (pages_inv file r1) as Hp1 by by eapply pages_inv_same.
  assert (rd_reader r1 = rd_reader r) as Erd.
  { revert E1. unfold resize_shared_cache_budgets, get_resident. destruct (rd_resident r) as [d|]; [|done]. cbn [or_data ok_or lift_ then_].
    destruct (set_total_capacity _ (res_adjacency_cache d)); cbn [then_]; [|done..]. destruct (set_total_capacity _ (res_raw_vector_cache d)); cbn [then_]; [|done..].
    by intros [= _ <-]. }
  set (q := Request _ _). destruct (pread (rd_reader r1) [q]) as [res x] eqn:Epr.
  assert (pages_inv file (with_reader r1 x)) as Hp2 by (eapply pages_inv_same; [exact Hp1|apply with_reader_same]).
  destruct res as [[|payload rest]|e|]; [done| |done|done].
  destruct (λ F, pread_ok (rd_reader r1) _ _ _ F Epr) as [Hin Epay]; [repeat constructor; by apply adjacency_offset_nonneg|].
  injection Epay as Epay _. apply list.Forall_cons in Hin as [[Hq0 Hq] _]. rewrite Erd, (ri_contents _ _ _ Hi0) in Epay, Hq. unfold q, range_of, zlen in Epay, Hq, Hq0.
  cbn [req_pos req_len] in Epay, Hq, Hq0. destruct Hs as (Eh1 & Ehot1 & _). rewrite Epl in Epay, Hq.
  replace (Z.to_nat (k * 4096)) with (Z.to_nat k * 4096)%nat in Epay, Hq by lia.
  cbn [with_reader rd_resident]. destruct (rd_resident r1) as [d|] eqn:Ed1; cbn [expect lift_ then_]; [|done]. cbn [rd_header].
  pose proof (hot_fold_spec (rd_header r1) (res_adjacency_index d) (imap pair (chunks_exact 4096 payload)) (Ok (), res_validation d)) as Hf. cbn zeta in Hf.
  rewrite <- hot_pages_fold in Hf. destruct Hf as (F1 & F2 & F3 & _).
  destruct (validate_hot_pages f16_is_finite (rd_header r1) (res_adjacency_index d) (res_validation d) payload) as [verdict v] eqn:Ehp. cbn [fst snd] in F1, F2, F3.
  assert (∀ i page, (i, page) ∈ imap pair (chunks_exact 4096 payload) ↔ chunks_exact 4096 payload !! i = Some page) as Him.
  { intros i page. split.
    - intros [j Hj]%list_elem_of_lookup_1. rewrite list_lookup_imap in Hj. destruct (chunks_exact 4096 payload !! j) eqn:Ej; [|done]. by injection Hj as <- <-.
    - intros Ej. apply list_elem_of_lookup_2 with i. by rewrite list_lookup_imap, Ej. }
  assert (∀ i page, chunks_exact 4096 payload !! i = Some page → (i < Z.to_nat k)%nat ∧ page = file_page file (rd_header r) i) as Hpage.
  { intros i page Hpg. rewrite Epay in Hpg. by apply (prefix_page file (rd_header r) (Z.to_nat k)); [lia|]. }
  assert (length payload = (Z.to_nat k * 4096)%nat) as Hlp by (rewrite Epay, length_slice; lia).
  assert (pages_inv file (with_resident (with_reader r1 x) (Some (with_validation d v)))) as Hp3.
  { destruct Hp1 as [P1 P2 P3 P4 P5]. split; cbn [with_resident with_reader with_validation rd_resident rd_header rd_hot_adjacency]; try done.
    - intros d' [= <-]. cbn. by apply P1.
    - intros d' p [= <-] Hv. cbn [res_validation res_adjacency_index] in *. destruct (F1 p Hv) as [Hold|(page & Hpg & Hok)]; [exact (P2 d p Ed1 Hold)|].
      apply Him in Hpg. apply Hpage in Hpg as [_ ->]. rewrite Eh1 in Hok |- *. exact Hok.
    - intros d' p [= <-] Hlt. cbn [res_validation]. apply F2. by apply (P5 d). }
  change (rd_header (with_reader r1 x)) with (rd_header r1). rewrite Ehp. destruct verdict as [u2|e|]; cbn [snd]; [|exact Hp3..].
  destruct Hp3 as [P1 P2 P3 P4 P5]. split; cbn [with_hot with_resident with_reader with_validation rd_resident rd_header rd_hot_adjacency] in *.
  - exact P1.
  - exact P2.
  - rewrite Hlp, Eh1. exact Epay.
  - by exists (Z.to_nat k).
  - intros d' p [= <-] Hlt. cbn [res_validation]. destruct (lookup_lt_is_Some_2 (chunks_exact 4096 payload) p) as [page Hpg].
    { rewrite (zlen_chunks 4096 (Z.to_nat k)); lia. }
    eapply F3; [reflexivity|]. by apply Him.
Qed.

(** Searches validate the bytes they read: the pages of the file. *)
Definition own_page r (page_idx : nat) (page : list Z) : Prop := page = file_page (contents (rd_reader r)) (rd_header r) page_idx.

Lemma validate_page_pages file budget r page_idx page :
  reader_inv file budget r → pages_inv file r → own_page r page_idx page →
  pages_inv file (validate_adjacency_page f16_is_finite r page_idx page).2.
Proof.
  intros Hi Hp Hown. unfold validate_adjacency_page, get_resident. destruct (rd_resident r) as [d|] eqn:Ed; [|done]. cbn [or_data ok_or lift_ then_].
  unfold own_page in Hown. rewrite (ri_contents _ _ _ Hi) in Hown. subst page.
  set (verdict := validate_adjacency_page_payload _ _ _ _ _). destruct (get_or_validate (res_validation d) page_idx verdict) as [res v] eqn:Eg.
  pose proof (get_or_validate_marks (res_validation d) page_idx verdict) as Hm. pose proof (get_or_validate_keeps (res_validation d) page_idx verdict) as Hk.
  rewrite Eg in Hm, Hk. cbn [snd] in *. destruct Hp as [P1 P2 P3 P4 P5].
  split; cbn [with_resident with_validation rd_resident rd_header rd_hot_adjacency]; try done.
  - intros d' [= <-]. exact (P1 d Ed).
  - intros d' p [= <-] Hv. cbn [res_validation res_adjacency_index] in *. destruct (Hm p Hv) as [Hold|[-> Hok]]; [exact (P2 d p Ed Hold)|exact Hok].
  - intros d' p [= <-] Hlt. apply Hk. by apply (P5 d).
Qed.

Lemma reader_step_pages file budget r r' :
  reader_step norm f16_is_finite own_page r r' → reader_inv file budget r → pages_inv file r → pages_inv file r'.
Proof.
  intros [| | |pi pg Hown|ranges|limit Hl|d a b Hd Ha Hb] Hi Hp.
  - by eapply ensure_resident_pages.
  - pose proof (ensure_resident_pages _ _ _ Hi Hp) as Hp0. destruct (ensure_resident norm r) as [[u|e|] r0] eqn:E; [|unfold ensure_row_id_order; by rewrite E..].
    eapply pages_inv_same; [exact Hp0|]. by eapply row_id_order_same.
  - by eapply optimize_pages.
  - by eapply validate_page_pages.
  - eapply pages_inv_same; [exact Hp|]. unfold pread_ranges. case_match.
    + destruct (pread (rd_reader r) ranges) as [[?|?|] x]; apply with_reader_same.
    + destruct (pread_sections _ _ _ _) as [? x]. apply with_reader_same.
  - eapply pages_inv_same; [exact Hp|]. split; [done|]. split; [done|]. cbn. by destruct (rd_resident r).
  - eapply pages_inv_same; [exact Hp|]. split; [done|]. split; [done|]. cbn. by rewrite Hd.
Qed.

(** C7: A reader only trusts checked pages of its file.  After it is opened,
    whatever operations run on it, every page marked valid is, in the file,
    exactly the records of its nodes followed by zeros; the hot pages are a
    prefix of the adjacency section in which every page is valid; and a window
    served from them is the file's own bytes at that offset. *)
Theorem reader_pages_valid (measured budget : Z) (x : R) (r0 r : DiskAnnIndexReader R) (d : DiskAnnResidentData) :
  bytes_ok (contents x) → usize budget → 0 <= max_ranges_per_pread (read_capabilities x) →
  open_with_options measured x (options_new budget) = Ok r0 → rtc (reader_step norm f16_is_finite own_page) r0 r → rd_resident r = Some d →
  (∀ p, page_states (res_validation d) !! p = Some ADJACENCY_PAGE_VALID ∨ (p * 4096 < length (rd_hot_adjacency r))%nat →
     valid_page f16_is_finite (rd_header r) (res_adjacency_index d) (Z.of_nat p) (file_page (contents x) (rd_header r) p)) ∧
  (∀ off n w, hot_adjacency_window r off n = Some w → w = slice (Z.to_nat off) n (contents x)).
Proof.
  intros Hb Hbud Hcap Ho Hsteps Hd. pose proof (open_inv _ _ _ _ Hb Hbud Hcap Ho) as Hinv.
  assert (pages_inv (contents x) r0) as Hp0.
  { destruct (open_starts_empty _ _ _ _ Ho) as [E1 E2]. split; rewrite ?E1, ?E2; try done. by exists 0%nat. }
  assert (reader_inv (contents x) budget r ∧ pages_inv (contents x) r) as [Hr [P1 P2 P3 P4 P5]].
  { refine (rtc_ind_r (λ r, reader_inv (contents x) budget r ∧ pages_inv (contents x) r) r0 _ _ r Hsteps); [done|].
    intros a b _ Hab [Ha Hpa]. split; [by eapply reader_step_inv|by eapply reader_step_pages]. }
  destruct (ri_header _ _ _ Hr) as (bytes & Hbs & Hdec). destruct (decoded_facts bytes _ Hbs Hdec) as (Ht & _ & _ & _ & _ & _ & Hrec & _). split.
  - intros p Hp. assert (page_states (res_validation d) !! p = Some ADJACENCY_PAGE_VALID) as Hv by (destruct Hp; [done|by apply P5]).
    apply page_valid_sound; [by apply P1|done|by apply Forall_slice|by apply P2].
  - intros off n w Hw. unfold hot_adjacency_window in Hw. apply bind_Some in Hw as (rel & E1 & Hw). apply checked_sub_Some in E1 as [-> Hle].
    apply bind_Some in Hw as (rel & E2 & Hw). apply try_from_Some in E2 as [-> _]. apply bind_Some in Hw as (stop & _ & Hw).
    apply get_slice_Some in Hw as [Hfit ->]. rewrite P3. unfold slice. rewrite skipn_firstn_comm, take_take, drop_drop, Nat.min_l by lia.
    do 2 f_equal. pose proof (adjacency_offset_nonneg _ Ht). lia.
Qed.

End Pages.

Definition demo_resident : DiskAnnResidentData :=
  match rd_resident demo_optimized with
  | Some d => d
  | None => Resident demo_pq demo_rids [] (Index [] [] []) (validation_cache_new 0) [] []
  end.

Lemma reader_pages_valid_witness :
  valid_page (λ _, true) (rd_header demo_optimized) (res_adjacency_index demo_resident) (Z.of_nat 0)
    (file_page (contents (MkCursor demo_file 0)) (rd_header demo_optimized) 0).
Proof.
  assert (bytes_ok (contents (MkCursor demo_file 0))) as H1 by (apply byte_list_ok; vm_compute; reflexivity).
  assert (usize 100000) as H2 by by vm_compute.
  assert (0 <= max_ranges_per_pread (read_capabilities (MkCursor demo_file 0))) as H3 by by vm_compute.
  assert (open_with_options 1 (MkCursor demo_file 0) (options_new 100000) = Ok demo_reader) as H4 by (vm_compute; reflexivity).
  assert (rtc (reader_step demo_norm (λ _, true) own_page) demo_reader demo_optimized) as H5 by (apply rtc_once, rs_optimize).
  assert (rd_resident demo_optimized = Some demo_resident) as H6 by (vm_compute; reflexivity).
  assert (page_states (res_validation demo_resident) !! 0%nat = Some ADJACENCY_PAGE_VALID) as H7 by (vm_compute; reflexivity).
  pose proof (reader_pages_valid demo_norm (λ _, true) 1 100000 (MkCursor demo_file 0) demo_reader demo_optimized demo_resident H1 H2 H3 H4 H5 H6) as [Hp _].
  exact (Hp 0%nat (or_introl H7)).
Defined.
