(* ===== verification/SparseTable.v ===== *)
(** The open-addressing table of [core/src/sparse_table.rs]: [u32] keys, linear
    probing over a power-of-two capacity, growth at seven tenths, and a list of
    touched slots that makes clearing proportional to the entries.

    A lookup that finds no slot in a full table, a reserved key and a capacity
    that overflows are panics in Rust and [None] or [Panic] here. *)

From S2P Require Import Prelude.

Definition EMPTY_KEY : Z := U32_MAX.
Definition MIN_CAPACITY : Z := 8.

(** [checked_next_power_of_two] at 64 bits. *)
Definition checked_next_power_of_two (x : Z) : option Z :=
  let p := 2 ^ Z.log2_up x in if p <? 2 ^ 64 then Some p else None.

Definition capacity_for (expected_entries : Z) : option Z :=
  doubled ← checked_mul 64 expected_entries 2;
  checked_next_power_of_two (Z.max doubled MIN_CAPACITY).

Definition estimated_memory_bytes (expected_entries value_size : Z) : option Z :=
  capacity ← capacity_for expected_entries;
  entry ← checked_add 64 4 value_size;
  table ← checked_mul 64 capacity entry;
  touched ← checked_mul 64 expected_entries 4;
  checked_add 64 table touched.

(** The two multiply-xorshift rounds at 32 bits. *)
Definition mix_u32 (value : Z) : Z :=
  let value := Z.lxor value (Z.shiftr value 16) in
  let value := wrap 32 (value * 0x7FEB352D) in
  let value := Z.lxor value (Z.shiftr value 15) in
  let value := wrap 32 (value * 0x846CA68B) in
  Z.lxor value (Z.shiftr value 16).

Record SparseTable (V : Type) := Table { keys : list Z; values : list V; touched_slots : list Z }.
Arguments Table {_} _ _ _.
Arguments keys {_} _.
Arguments values {_} _.
Arguments touched_slots {_} _.

Section SparseTable.
Context {V : Type} (default_value : V).
Implicit Types t : SparseTable V.

Definition with_capacity (expected_entries : Z) : io_result (SparseTable V) :=
  capacity ← expect (capacity_for expected_entries);
  Ok (Table (replicate (Z.to_nat capacity) EMPTY_KEY) (replicate (Z.to_nat capacity) default_value) []).

Fixpoint find_slot_loop (rounds : nat) (ks : list Z) (key mask slot : Z) : option Z :=
  match rounds with
  | O => None
  | S rounds =>
      match ks !! Z.to_nat slot with
      | Some stored =>
          if (stored =? EMPTY_KEY) || (stored =? key) then Some slot
          else find_slot_loop rounds ks key mask (Z.land (slot + 1) mask)
      | None => None
      end
  end.
Definition find_slot (ks : list Z) (key : Z) : option Z :=
  let mask := zlen ks - 1 in
  find_slot_loop (length ks) ks key mask (Z.land (mix_u32 key) mask).

(** [get]; the reserved key is refused by an assertion. *)
Definition table_get t (key : Z) : io_result (option V) :=
  if key =? EMPTY_KEY then Panic
  else match find_slot (keys t) key with
       | None => Ok None
       | Some slot =>
           stored ← expect (keys t !! Z.to_nat slot);
           if stored =? key then v ← expect (values t !! Z.to_nat slot); Ok (Some v) else Ok None
       end.

(** [get_mut] with the update its caller makes. *)
Definition table_get_mut t (key : Z) (f : V → V) : io_result (option V * SparseTable V) :=
  if key =? EMPTY_KEY then Panic
  else match find_slot (keys t) key with
       | None => Ok (None, t)
       | Some slot =>
           stored ← expect (keys t !! Z.to_nat slot);
           if stored =? key then
             v ← expect (values t !! Z.to_nat slot);
             Ok (Some v, Table (keys t) (<[Z.to_nat slot := f v]> (values t)) (touched_slots t))
           else Ok (None, t)
       end.

(** Storing a new key at its slot. *)
Definition store_new t (slot key : Z) (value : V) : SparseTable V :=
  Table (<[Z.to_nat slot := key]> (keys t)) (<[Z.to_nat slot := value]> (values t)) (touched_slots t ++ [wrap 32 slot]).

Definition grow_step (old : SparseTable V) t (old_slot : Z) : io_result (SparseTable V) :=
  key ← expect (keys old !! Z.to_nat old_slot);
  slot ← expect (find_slot (keys t) key);
  value ← expect (values old !! Z.to_nat old_slot);
  Ok (store_new t slot key value).
Definition grow t : io_result (SparseTable V) :=
  capacity ← expect (checked_mul 64 (zlen (keys t)) 2);
  try_fold (grow_step t)
    (Table (replicate (Z.to_nat capacity) EMPTY_KEY) (replicate (Z.to_nat capacity) default_value) []) (touched_slots t).

Definition entry_capacity t : Z := zlen (keys t) * 7 / 10.

Definition table_insert t (key : Z) (value : V) : io_result (option V * SparseTable V) :=
  if key =? EMPTY_KEY then Panic
  else
    slot ← expect (find_slot (keys t) key);
    stored ← expect (keys t !! Z.to_nat slot);
    if stored =? key then
      old ← expect (values t !! Z.to_nat slot);
      Ok (Some old, Table (keys t) (<[Z.to_nat slot := value]> (values t)) (touched_slots t))
    else
      t ← (if entry_capacity t <? zlen (touched_slots t) + 1 then grow t else Ok t);
      slot ← expect (find_slot (keys t) key);
      Ok (None, store_new t slot key value).

Definition clear_slot (ks : list Z) (slot : Z) : io_result (list Z) :=
  if bool_decide (Z.to_nat slot < length ks)%nat then Ok (<[Z.to_nat slot := EMPTY_KEY]> ks) else Panic.
Definition table_clear t : io_result (SparseTable V) :=
  ks ← try_fold clear_slot (keys t) (touched_slots t);
  Ok (Table ks (values t) []).

End SparseTable.

(** ** Probing *)

Lemma mix_u32_nonneg key : 0 <= key → 0 <= mix_u32 key.
Proof.
  intros Hk. unfold mix_u32. assert (∀ x, 0 <= x → 0 <= Z.lxor x (Z.shiftr x 15)) as H15
    by (intros x Hx; apply Z.lxor_nonneg; rewrite Z.shiftr_nonneg; tauto).
  assert (∀ x, 0 <= x → 0 <= Z.lxor x (Z.shiftr x 16)) as H16 by (intros x Hx; apply Z.lxor_nonneg; rewrite Z.shiftr_nonneg; tauto).
  apply H16. unfold wrap. by apply Z.mod_pos_bound.
Qed.

Definition power_of_two (n : Z) : Prop := ∃ k, 0 <= k ∧ n = 2 ^ k.

Lemma land_mask n x : power_of_two n → 0 <= x → Z.land x (n - 1) = x mod n.
Proof. intros (k & Hk & ->) _. by apply land_ones_mod. Qed.

Definition stops (ks : list Z) (key slot : Z) : Prop :=
  ks !! Z.to_nat slot = Some EMPTY_KEY ∨ ks !! Z.to_nat slot = Some key.

(** The first stop of the probe sequence from [slot]. *)
Definition first_stop (ks : list Z) (key slot : Z) (rounds : nat) (found : Z) : Prop :=
  ∃ i, (i < rounds)%nat ∧ found = (slot + Z.of_nat i) mod zlen ks ∧ stops ks key found ∧
    ∀ j, (j < i)%nat → ¬ stops ks key ((slot + Z.of_nat j) mod zlen ks).

Lemma find_slot_loop_spec rounds ks key slot found :
  power_of_two (zlen ks) → 0 <= slot < zlen ks →
  find_slot_loop rounds ks key (zlen ks - 1) slot = Some found ↔ first_stop ks key slot rounds found.
Proof.
  intros Hp. revert slot. induction rounds as [|rounds IH]; intros slot Hs; cbn [find_slot_loop].
  { split; [done|]. intros (i & Hi & _). lia. }
  destruct (lookup_lt_is_Some_2 ks (Z.to_nat slot)) as [stored Hst]; [unfold zlen in Hs; lia|]. rewrite Hst.
  destruct ((stored =? EMPTY_KEY) || (stored =? key)) eqn:E.
  - assert (stops ks key slot) as Hstop by (unfold stops; rewrite Hst; apply orb_true_iff in E as [E|E]; apply Z.eqb_eq in E; subst; auto).
    split.
    + intros [= <-]. exists 0%nat. rewrite Z.add_0_r, Z.mod_small by done. split_and!; [lia|done|done|lia].
    + intros ([|i] & _ & -> & _ & Hno); [by rewrite Z.add_0_r, Z.mod_small|].
      exfalso. apply (Hno 0%nat); [lia|]. by rewrite Z.add_0_r, Z.mod_small.
  - apply orb_false_iff in E as [E1%Z.eqb_neq E2%Z.eqb_neq].
    assert (¬ stops ks key slot) as Hstop by (unfold stops; rewrite Hst; intros [[= ->]|[= ->]]; done).
    rewrite land_mask by (done || lia). rewrite IH by (apply Z.mod_pos_bound; lia).
    assert (∀ i, (slot + Z.of_nat (S i)) mod zlen ks = ((slot + 1) mod zlen ks + Z.of_nat i) mod zlen ks) as Hnext.
    { intros i. rewrite Z.add_mod_idemp_l by lia. f_equal. lia. }
    split.
    + intros (i & Hi & Ef & Hst' & Hno). exists (S i). rewrite Hnext. split_and!; [lia|done|done|].
      intros [|j] Hj; [by rewrite Z.add_0_r, Z.mod_small|]. rewrite Hnext. apply Hno. lia.
    + intros ([|i] & Hi & Ef & Hst' & Hno).
      { rewrite Z.add_0_r, Z.mod_small in Ef by done. by subst. }
      exists i. rewrite <- Hnext. split_and!; [lia|done|done|]. intros j Hj. rewrite <- Hnext. apply Hno. lia.
Qed.

Definition home (ks : list Z) (key : Z) : Z := mix_u32 key mod zlen ks.

Lemma find_slot_spec ks key found :
  power_of_two (zlen ks) → 0 <= key → find_slot ks key = Some found ↔ first_stop ks key (home ks key) (length ks) found.
Proof.
  intros Hp Hk. pose proof (mix_u32_nonneg key Hk). assert (0 < zlen ks) by (destruct Hp as (k & Hk' & ->); by apply pow2_pos).
  unfold find_slot. rewrite land_mask by done. apply find_slot_loop_spec; [done|]. by apply Z.mod_pos_bound.
Qed.

Lemma first_stop_bound ks key start rounds found :
  0 < zlen ks → first_stop ks key start rounds found → 0 <= found < zlen ks.
Proof. intros Hl (i & _ & -> & _). by apply Z.mod_pos_bound. Qed.

(** Storing [key] at its first stop, an empty slot, leaves every other probe
    that found a stored key where it was. *)
Lemma first_stop_other ks key slot key' start found :
  ks !! Z.to_nat slot = Some EMPTY_KEY → key' ≠ key → ks !! Z.to_nat found = Some key' → key' ≠ EMPTY_KEY → 0 <= slot →
  first_stop ks key' start (length ks) found → first_stop (<[Z.to_nat slot := key]> ks) key' start (length ks) found.
Proof.
  intros Hslot Hne Hfound Hk' Hs (i & Hi & Ef & _ & Hno). exists i. unfold zlen in *. rewrite length_insert.
  assert (Z.to_nat slot ≠ Z.to_nat found) by (intros E; rewrite E in Hslot; congruence).
  split_and!; [done|done|right; by rewrite list_lookup_insert_ne|].
  intros j Hj Hst. apply (Hno j Hj). unfold stops in *.
  destruct (decide (Z.to_nat slot = Z.to_nat ((start + Z.of_nat j) mod Z.of_nat (length ks)))) as [E|E]; [left; by rewrite <- E|].
  by rewrite list_lookup_insert_ne in Hst.
Qed.

Lemma first_stop_self ks key start found :
  0 <= found < zlen ks → key ≠ EMPTY_KEY → ks !! Z.to_nat found = Some EMPTY_KEY →
  first_stop ks key start (length ks) found → first_stop (<[Z.to_nat found := key]> ks) key start (length ks) found.
Proof.
  intros Hf Hk Hfound (i & Hi & Ef & _ & Hno). exists i. unfold zlen in *. rewrite length_insert.
  split_and!; [done|done|right; rewrite list_lookup_insert_eq; [done|lia]|].
  intros j Hj Hst. apply (Hno j Hj). unfold stops in *.
  destruct (decide (Z.to_nat found = Z.to_nat ((start + Z.of_nat j) mod Z.of_nat (length ks)))) as [E|E]; [left; by rewrite <- E|].
  by rewrite list_lookup_insert_ne in Hst.
Qed.

(** ** The invariant *)

Section Invariant.
Context {V : Type} (default_value : V).
Implicit Types t : SparseTable V.

Record table_core t : Prop := {
  tc_pow : ∃ k, 3 <= k ∧ zlen (keys t) = 2 ^ k;
  tc_size : zlen (keys t) <= 2 ^ 32;
  tc_values : length (values t) = length (keys t);
  tc_nodup : NoDup (touched_slots t);
  tc_touched : ∀ s, s ∈ touched_slots t ↔ 0 <= s ∧ ∃ k, keys t !! Z.to_nat s = Some k ∧ k ≠ EMPTY_KEY;
  tc_keys : Forall u32 (keys t);
  tc_probe : ∀ s k, keys t !! s = Some k → k ≠ EMPTY_KEY → find_slot (keys t) k = Some (Z.of_nat s);
}.

(** The map a table stands for. *)
Definition holds t (m : gmap Z V) : Prop :=
  ∀ key v, m !! key = Some v ↔ key ≠ EMPTY_KEY ∧ ∃ s, keys t !! s = Some key ∧ values t !! s = Some v.

Lemma core_pow t : table_core t → power_of_two (zlen (keys t)) ∧ 8 <= zlen (keys t).
Proof.
  intros Hc. destruct (tc_pow t Hc) as (k & Hk & E). split; [exists k; split; [lia|done]|]. rewrite E.
  change 8 with (2 ^ 3). apply Z.pow_le_mono_r; lia.
Qed.

Lemma core_slot t s k : table_core t → keys t !! s = Some k → Z.of_nat s < zlen (keys t).
Proof. intros _ Hs. apply lookup_lt_Some in Hs. unfold zlen. lia. Qed.

(** A table that is not full always has a slot for a key. *)
Lemma find_slot_total t key :
  table_core t → 0 <= key → (length (touched_slots t) < length (keys t))%nat → ∃ slot, find_slot (keys t) key = Some slot.
Proof.
  intros Hc Hk Hl. destruct (core_pow t Hc) as [Hp H8].
  assert (∃ e, (e < length (keys t))%nat ∧ keys t !! e = Some EMPTY_KEY) as (e & He & Hempty).
  { destruct (decide (Exists (λ k, k = EMPTY_KEY) (keys t))) as [Hx|Hx].
    - apply Exists_exists in Hx as (k & Hin & ->). apply list_elem_of_lookup_1 in Hin as [e He]. exists e. split; [by eapply lookup_lt_Some|done].
    - exfalso. rewrite <- Forall_Exists_neg in Hx.
      assert (Z.of_nat <$> seq 0 (length (keys t)) ⊆+ touched_slots t) as Hsub.
      { apply NoDup_submseteq; [apply NoDup_fmap_2; [intros ?? E; lia|apply NoDup_seq]|].
        intros s (n & -> & Hn%elem_of_seq)%list_elem_of_fmap. apply (tc_touched t Hc). split; [lia|]. rewrite Nat2Z.id.
        destruct (lookup_lt_is_Some_2 (keys t) n) as [k Hk']; [lia|]. exists k. split; [done|]. exact (Forall_lookup_1 _ _ _ _ Hx Hk'). }
      apply submseteq_length in Hsub. rewrite length_fmap, length_seq in Hsub. lia. }
  destruct (find_slot (keys t) key) as [slot|] eqn:E; [by exists slot|]. exfalso.
  assert (∀ i, (i < length (keys t))%nat → ¬ stops (keys t) key ((home (keys t) key + Z.of_nat i) mod zlen (keys t))) as Hnone.
  { intros i. induction (lt_wf i) as [i _ IH]. intros Hi Hst.
    assert (find_slot (keys t) key = Some ((home (keys t) key + Z.of_nat i) mod zlen (keys t))) as E'; [|congruence].
    apply find_slot_spec; [done|done|]. exists i. split_and!; [done|done|done|]. intros j Hj. apply IH; lia. }
  pose proof (Z.mod_pos_bound (mix_u32 key) (zlen (keys t)) ltac:(lia)) as Hh. fold (home (keys t) key) in Hh.
  set (off := (Z.of_nat e - home (keys t) key) mod zlen (keys t)).
  pose proof (Z.mod_pos_bound (Z.of_nat e - home (keys t) key) (zlen (keys t)) ltac:(lia)) as Hoff. fold off in Hoff.
  apply (Hnone (Z.to_nat off)); [unfold zlen in Hoff; lia|]. left.
  replace ((home (keys t) key + Z.of_nat (Z.to_nat off)) mod zlen (keys t)) with (Z.of_nat e); [by rewrite Nat2Z.id|].
  rewrite Z2Nat.id by lia. unfold off. rewrite Z.add_mod_idemp_r by lia.
  replace (home (keys t) key + (Z.of_nat e - home (keys t) key)) with (Z.of_nat e) by lia. symmetry. apply Z.mod_small. unfold zlen. lia.
Qed.

(** What the slot of a key says about the map. *)
Lemma find_slot_holds t m key slot :
  table_core t → holds t m → u32 key → key ≠ EMPTY_KEY → find_slot (keys t) key = Some slot →
  0 <= slot < zlen (keys t) ∧
  ((keys t !! Z.to_nat slot = Some key ∧ ∃ v, values t !! Z.to_nat slot = Some v ∧ m !! key = Some v) ∨
   (keys t !! Z.to_nat slot = Some EMPTY_KEY ∧ m !! key = None)).
Proof.
  intros Hc Hm Hk Hne E. destruct (core_pow t Hc) as [Hp H8]. destruct Hk as [Hk _]. pose proof E as E'.
  apply find_slot_spec in E' as Hf; [|done|done]. pose proof (first_stop_bound (keys t) _ _ _ _ ltac:(lia) Hf) as Hb. split; [done|].
  destruct Hf as (_ & _ & _ & [Hst|Hst] & _).
  - right. split; [done|]. destruct (m !! key) as [v|] eqn:Em; [|done]. apply Hm in Em as (_ & s & Hs & _).
    pose proof (tc_probe t Hc s key Hs Hne) as Ep. rewrite E in Ep. injection Ep as ->. rewrite Nat2Z.id in Hst. congruence.
  - left. split; [done|]. destruct (lookup_lt_is_Some_2 (values t) (Z.to_nat slot)) as [v Hv].
    { rewrite (tc_values t Hc). unfold zlen in Hb. lia. }
    exists v. split; [done|]. apply Hm. split; [done|]. by exists (Z.to_nat slot).
Qed.

(** ** Storing, growing, clearing *)

Lemma store_new_spec t m key slot v :
  table_core t → holds t m → u32 key → key ≠ EMPTY_KEY → find_slot (keys t) key = Some slot →
  keys t !! Z.to_nat slot = Some EMPTY_KEY →
  table_core (store_new t slot key v) ∧ holds (store_new t slot key v) (<[key := v]> m).
Proof.
  intros Hc Hm Hk Hne E Hempty. destruct (core_pow t Hc) as [Hp H8]. pose proof (tc_size t Hc) as Hsz.
  pose proof E as Hf. apply find_slot_spec in Hf; [|done|apply Hk].
  pose proof (first_stop_bound (keys t) _ _ _ _ ltac:(lia) Hf) as Hb.
  assert (wrap 32 slot = slot) as Ew by (apply wrap_small; unfold u_ok; lia).
  assert (Z.to_nat slot < length (keys t))%nat as Hlt by (unfold zlen in Hb; lia).
  assert (∀ s k, keys t !! s = Some k → k ≠ EMPTY_KEY → k ≠ key) as Hfresh.
  { intros s k Hs Hk' ->. pose proof (tc_probe t Hc s key Hs Hne) as Ep. rewrite E in Ep. injection Ep as ->.
    rewrite Nat2Z.id in Hempty. congruence. }
  split; [split|]; unfold store_new; cbn [keys values touched_slots]; rewrite ?Ew.
  - unfold zlen. rewrite length_insert. apply (tc_pow t Hc).
  - unfold zlen. rewrite length_insert. apply (tc_size t Hc).
  - rewrite !length_insert. apply (tc_values t Hc).
  - apply NoDup_app. split_and!; [apply (tc_nodup t Hc)| |apply NoDup_singleton].
    intros s Hs ->%list_elem_of_singleton. apply (tc_touched t Hc) in Hs as (_ & k & Hk' & ?). congruence.
  - intros s. rewrite elem_of_app, list_elem_of_singleton, (tc_touched t Hc). split.
    + intros [(Hs & k & Hk' & Hke)| ->].
      * split; [done|]. exists k. rewrite list_lookup_insert_ne; [done|]. intros Eq. rewrite Eq in Hempty. congruence.
      * split; [lia|]. exists key. by rewrite list_lookup_insert_eq.
    + intros (Hs & k & Hk' & Hke). destruct (decide (Z.to_nat slot = Z.to_nat s)) as [Eq|Eq]; [right; lia|].
      left. rewrite list_lookup_insert_ne in Hk' by done. eauto.
  - apply Forall_insert; [apply (tc_keys t Hc)|done].
  - intros s k Hs Hke. apply find_slot_spec.
    { unfold zlen. by rewrite length_insert. }
    { destruct (decide (Z.to_nat slot = s)) as [<-|Hd].
      - rewrite list_lookup_insert_eq in Hs by done. injection Hs as <-. apply Hk.
      - rewrite list_lookup_insert_ne in Hs by done. apply (Forall_lookup_1 _ _ _ _ (tc_keys t Hc) Hs). }
    unfold home, zlen. rewrite !length_insert. fold (zlen (keys t)). destruct (decide (Z.to_nat slot = s)) as [<-|Hd].
    + rewrite list_lookup_insert_eq in Hs by done. injection Hs as <-. rewrite Z2Nat.id by lia. by apply first_stop_self.
    + rewrite list_lookup_insert_ne in Hs by done.
      apply first_stop_other; [done|by eapply Hfresh|by rewrite Nat2Z.id|done|lia|].
      apply find_slot_spec; [done|apply (Forall_lookup_1 _ _ _ _ (tc_keys t Hc) Hs)|]. by apply (tc_probe t Hc).
  - intros k w. cbn [keys values]. destruct (decide (k = key)) as [->|Hd].
    + rewrite lookup_insert_eq. split.
      * intros [= <-]. split; [done|]. exists (Z.to_nat slot). rewrite !list_lookup_insert_eq; [done|rewrite (tc_values t Hc); done|done].
      * intros (_ & s & Hs & Hv). destruct (decide (Z.to_nat slot = s)) as [<-|Hds].
        -- rewrite list_lookup_insert_eq in Hv by (rewrite (tc_values t Hc); done). done.
        -- rewrite list_lookup_insert_ne in Hs by done. by destruct (Hfresh s key Hs Hne).
    + rewrite lookup_insert_ne by done. split.
      * intros (Hke & s & Hs & Hv)%Hm. split; [done|]. exists s.
        assert (Z.to_nat slot ≠ s) by (intros <-; congruence). by rewrite !list_lookup_insert_ne.
      * intros (Hke & s & Hs & Hv). apply Hm. split; [done|]. exists s.
        destruct (decide (Z.to_nat slot = s)) as [<-|Hds].
        -- rewrite list_lookup_insert_eq in Hs by done. congruence.
        -- rewrite list_lookup_insert_ne in Hs by done. rewrite list_lookup_insert_ne in Hv by done. done.
Qed.

Lemma empty_table n k :
  3 <= k → n = 2 ^ k → n <= 2 ^ 32 →
  let t := Table (replicate (Z.to_nat n) EMPTY_KEY) (replicate (Z.to_nat n) default_value) [] in
  table_core t ∧ holds t ∅.
Proof.
  intros Hk -> Hn t. assert (0 < 2 ^ k) by (apply pow2_pos; lia).
  assert (zlen (keys t) = 2 ^ k) as El by (unfold t, zlen; cbn [keys]; rewrite length_replicate; lia).
  assert (∀ s x, keys t !! s = Some x → x = EMPTY_KEY) as Hall by (intros s x (-> & _)%lookup_replicate; done).
  split; [split|].
  - exists k. done.
  - lia.
  - unfold t. cbn [keys values]. by rewrite !length_replicate.
  - constructor.
  - intros s. split; [by intros ?%not_elem_of_nil|]. intros (_ & x & Hx & Hne). by apply Hall in Hx.
  - apply Forall_replicate. unfold EMPTY_KEY. unfold_widths. lia.
  - intros s x Hx Hne. by apply Hall in Hx.
  - intros key v. rewrite lookup_empty. split; [done|]. intros (Hne & s & Hs & _). by apply Hall in Hs.
Qed.

(** Re-inserting a prefix of the old slots: the entries of that prefix. *)
Lemma grow_prefix old t0 done_ rest :
  table_core old → table_core t0 → holds t0 ∅ → touched_slots t0 = [] →
  zlen (keys t0) = 2 * zlen (keys old) → touched_slots old = done_ ++ rest →
  ∃ t m, try_fold (grow_step old) t0 done_ = Ok t ∧ table_core t ∧ holds t m ∧
    length (keys t) = length (keys t0) ∧ length (touched_slots t) = length done_ ∧
    ∀ key v, m !! key = Some v ↔
      ∃ s, s ∈ done_ ∧ keys old !! Z.to_nat s = Some key ∧ values old !! Z.to_nat s = Some v.
Proof.
  intros Hold H0 Hm0 Ht0 Hlen. revert rest. induction done_ as [|s done_ IH] using rev_ind; intros rest Hsplit.
  { exists t0, ∅. split_and!; try done; [by rewrite Ht0|]. intros key v. rewrite lookup_empty. split; [done|]. intros (s & Hs & _). set_solver. }
  rewrite <- app_assoc in Hsplit. destruct (IH _ Hsplit) as (t & m & E & Hc & Hm & El & Etl & Hspec).
  assert (s ∈ touched_slots old) as Hs by (rewrite Hsplit; set_solver).
  assert (s ∉ done_) as Hnew.
  { pose proof (tc_nodup old Hold) as Hnd. rewrite Hsplit in Hnd. apply NoDup_app in Hnd as (_ & Hnd & _). intros Hin. apply (Hnd s Hin). set_solver. }
  pose proof Hs as (Hs0 & key & Hkey & Hne)%(tc_touched old Hold).
  assert (u32 key) as Hu by apply (Forall_lookup_1 _ _ _ _ (tc_keys old Hold) Hkey).
  destruct (lookup_lt_is_Some_2 (values old) (Z.to_nat s)) as [v Hv]; [rewrite (tc_values old Hold); by eapply lookup_lt_Some|].
  destruct (find_slot_total t key Hc) as [slot Eslot]; [apply Hu| |].
  { assert (length (touched_slots old) ≤ length (keys old))%nat as Hcap.
    { rewrite <- (length_seq (length (keys old)) 0), <- (length_fmap Z.of_nat). apply submseteq_length.
      apply NoDup_submseteq; [apply (tc_nodup old Hold)|]. intros x (Hx & k & Hk & _)%(tc_touched old Hold).
      apply list_elem_of_fmap. exists (Z.to_nat x). split; [lia|]. apply elem_of_seq. apply lookup_lt_Some in Hk. lia. }
    rewrite Hsplit, length_app in Hcap. cbn in Hcap. unfold zlen in Hlen. lia. }
  destruct (find_slot_holds t m key slot Hc Hm Hu Hne Eslot) as (Hb & [(_ & w & _ & Hmw)|(Hempty & Hnone)]).
  { exfalso. apply Hspec in Hmw as (s' & Hs' & Hk' & _).
    assert (s' ∈ touched_slots old) as (Hs'0 & _)%(tc_touched old Hold) by (rewrite Hsplit; set_solver).
    pose proof (tc_probe old Hold _ _ Hkey Hne) as P1. pose proof (tc_probe old Hold _ _ Hk' Hne) as P2. rewrite P1 in P2.
    injection P2 as P2. assert (s = s') as -> by lia. done. }
  destruct (store_new_spec t m key slot v Hc Hm Hu Hne Eslot Hempty) as [Hc' Hm'].
  exists (store_new t slot key v), (<[key := v]> m). split_and!; [|done|done| | |].
  - rewrite try_fold_app, E. cbn [mbind io_result_bind try_fold]. unfold grow_step. rewrite Hkey. cbn [expect mbind io_result_bind].
    rewrite Eslot. cbn [expect mbind io_result_bind]. rewrite Hv. done.
  - cbn. by rewrite length_insert.
  - cbn. rewrite !length_app. cbn. lia.
  - intros k w. destruct (decide (k = key)) as [->|Hd].
    + rewrite lookup_insert_eq. split.
      * intros [= <-]. exists s. set_solver.
      * intros (s' & Hs' & Hk' & Hw). apply elem_of_app in Hs' as [Hs'| ->%list_elem_of_singleton].
        -- exfalso. assert (m !! key = Some w) by (apply Hspec; eauto). congruence.
        -- congruence.
    + rewrite lookup_insert_ne, Hspec by done. split.
      * intros (s' & ? & ?). exists s'. set_solver.
      * intros (s' & [Hs'| ->%list_elem_of_singleton]%elem_of_app & Hk' & Hw); [eauto|congruence].
Qed.

Lemma grow_spec t m :
  table_core t → holds t m → 2 * zlen (keys t) <= 2 ^ 32 →
  ∃ t', grow default_value t = Ok t' ∧ table_core t' ∧ holds t' m ∧
    zlen (keys t') = 2 * zlen (keys t) ∧ length (touched_slots t') = length (touched_slots t).
Proof.
  intros Hc Hm Hsz. destruct (tc_pow t Hc) as (k & Hk & Ek).
  assert (zlen (keys t) * 2 = 2 ^ (k + 1)) as Epow by (rewrite Z.pow_add_r by lia; lia).
  destruct (empty_table (zlen (keys t) * 2) (k + 1)) as [H0 Hm0]; [lia|done|lia|]. cbn zeta in H0, Hm0.
  unfold grow. rewrite (proj2 (checked_mul_Some 64 _ _ _)) by (split; [reflexivity|unfold_widths; lia]).
  cbn [expect mbind io_result_bind].
  destruct (grow_prefix t _ (touched_slots t) [] Hc H0 Hm0) as (t' & m' & E & Hc' & Hm' & El & Etl & Hspec).
  { done. } { unfold zlen. cbn [keys]. rewrite length_replicate. lia. } { by rewrite app_nil_r. }
  exists t'. split_and!; [exact E|done| |unfold zlen; rewrite El; cbn [keys]; rewrite length_replicate; unfold zlen; lia|done].
  replace m with m'; [done|]. apply map_eq. intros key. apply option_eq. intros v. rewrite Hspec, (Hm key v). split.
  - intros (s & Hs & Hk' & Hv). apply (tc_touched t Hc) in Hs as (_ & k' & Hk'' & Hne).
    split; [congruence|]. eauto.
  - intros (Hne & s & Hk' & Hv). exists (Z.of_nat s). rewrite !Nat2Z.id. split_and!; [|done|done].
    apply (tc_touched t Hc). split; [lia|]. rewrite Nat2Z.id. eauto.
Qed.

(** Overwriting the value of a stored key. *)
Lemma overwrite_spec t m key slot v :
  table_core t → holds t m → u32 key → key ≠ EMPTY_KEY → find_slot (keys t) key = Some slot → keys t !! Z.to_nat slot = Some key →
  table_core (Table (keys t) (<[Z.to_nat slot := v]> (values t)) (touched_slots t)) ∧
  holds (Table (keys t) (<[Z.to_nat slot := v]> (values t)) (touched_slots t)) (<[key := v]> m).
Proof.
  intros Hc Hm Hu Hne E Hst. assert (Z.to_nat slot < length (values t))%nat as Hlt.
  { rewrite (tc_values t Hc). by eapply lookup_lt_Some. }
  assert (∀ s, keys t !! s = Some key → s = Z.to_nat slot) as Huniq.
  { intros s Hs. pose proof (tc_probe t Hc s key Hs Hne) as Ep. rewrite E in Ep. injection Ep as ->. lia. }
  split.
  - destruct Hc. split; cbn [keys values touched_slots]; rewrite ?length_insert; done.
  - intros k w. cbn [keys values]. destruct (decide (k = key)) as [->|Hd].
    + rewrite lookup_insert_eq. split.
      * intros [= <-]. split; [done|]. exists (Z.to_nat slot). by rewrite list_lookup_insert_eq.
      * intros (_ & s & Hs & Hw). rewrite (Huniq s Hs), list_lookup_insert_eq in Hw by done. done.
    + rewrite lookup_insert_ne, (Hm k w) by done. split; intros (Hke & s & Hs & Hw); (split; [done|]); exists s;
        (assert (Z.to_nat slot ≠ s) by congruence).
      * by rewrite list_lookup_insert_ne.
      * by rewrite list_lookup_insert_ne in Hw.
Qed.

Lemma clear_loop ks l :
  (∀ s, s ∈ l → (Z.to_nat s < length ks)%nat) →
  ∃ ks', try_fold clear_slot ks l = Ok ks' ∧ length ks' = length ks ∧
    ∀ i k, ks' !! i = Some k → (k = EMPTY_KEY ∧ i ∈ Z.to_nat <$> l) ∨ (ks !! i = Some k ∧ i ∉ Z.to_nat <$> l).
Proof.
  revert ks. induction l as [|s l IH]; intros ks Hl; cbn [try_fold].
  { exists ks. split_and!; [done..|]. intros i k Hk. right. split; [done|]. set_solver. }
  assert (clear_slot ks s = Ok (<[Z.to_nat s := EMPTY_KEY]> ks)) as ->
    by (unfold clear_slot; by rewrite bool_decide_true by (apply Hl; set_solver)). cbn [mbind io_result_bind].
  destruct (IH (<[Z.to_nat s := EMPTY_KEY]> ks)) as (ks' & E & El & Hspec).
  { intros s' Hs'. rewrite length_insert. apply Hl. set_solver. }
  exists ks'. rewrite length_insert in El. split_and!; [done|done|]. intros i k Hk. rewrite fmap_cons.
  destruct (Hspec i k Hk) as [[-> Hin]|[Hk' Hnin]]; [left; set_solver|].
  apply list_lookup_insert_Some in Hk' as [(<- & -> & _)|(Hd & Hk')]; [left; set_solver|right]. split; [done|]. set_solver.
Qed.

(** The table without an overfull or panicking state: at most seven tenths of
    the slots are taken. *)
Definition table_ok t (m : gmap Z V) : Prop :=
  table_core t ∧ holds t m ∧ zlen (touched_slots t) <= entry_capacity t.

(** There are no more entries than keys the map can have. *)
Lemma touched_bound t m n :
  table_core t → holds t m → (∀ key, is_Some (m !! key) → 0 <= key < n) → zlen (touched_slots t) <= Z.max n 0.
Proof.
  intros Hc Hm Hdom. set (key_of := λ s, default 0 (keys t !! Z.to_nat s)).
  assert (∀ s, s ∈ touched_slots t → ∃ k, keys t !! Z.to_nat s = Some k ∧ k ≠ EMPTY_KEY ∧ 0 <= s ∧ 0 <= k < n) as Hs.
  { intros s (Hs0 & k & Hk & Hne)%(tc_touched t Hc). exists k. split_and!; [done|done|done|..];
      (destruct (lookup_lt_is_Some_2 (values t) (Z.to_nat s)) as [v Hv]; [rewrite (tc_values t Hc); by eapply lookup_lt_Some|]);
      (assert (m !! k = Some v) as Hmk by (apply Hm; split; [done|]; by exists (Z.to_nat s))); apply (Hdom k); by eexists. }
  assert (key_of <$> touched_slots t ⊆+ seqZ 0 n) as Hsub.
  { apply NoDup_submseteq.
    - apply NoDup_fmap_2_strong; [|apply (tc_nodup t Hc)]. intros s s' H1 H2.
      destruct (Hs s H1) as (k & Hk & Hne & H0 & _), (Hs s' H2) as (k' & Hk' & Hne' & H0' & _). unfold key_of. rewrite Hk, Hk'. cbn. intros ->.
      pose proof (tc_probe t Hc _ _ Hk Hne) as E1. pose proof (tc_probe t Hc _ _ Hk' Hne') as E2. rewrite E1 in E2. injection E2 as E2. lia.
    - intros k (s & -> & H1)%list_elem_of_fmap. destruct (Hs s H1) as (k & Hk & _ & _ & Hb). unfold key_of. rewrite Hk. cbn. apply elem_of_seqZ. lia. }
  apply submseteq_length in Hsub. rewrite length_fmap, length_seqZ in Hsub. unfold zlen. lia.
Qed.

Lemma table_room t m key : table_ok t m → u32 key → ∃ slot, find_slot (keys t) key = Some slot.
Proof.
  intros (Hc & _ & Hcap) [Hk _]. destruct (core_pow t Hc) as [_ H8]. apply find_slot_total; [done|done|].
  unfold entry_capacity in Hcap. assert (zlen (keys t) * 7 / 10 < zlen (keys t)) by (apply Z.div_lt_upper_bound; lia).
  unfold zlen in *. lia.
Qed.

Lemma table_get_spec t m key : table_ok t m → u32 key → key ≠ EMPTY_KEY → table_get t key = Ok (m !! key).
Proof.
  intros Hok Hu Hne. destruct (table_room t m key Hok Hu) as [slot E]. destruct Hok as (Hc & Hm & _).
  unfold table_get. rewrite (proj2 (Z.eqb_neq _ _) Hne), E.
  destruct (find_slot_holds t m key slot Hc Hm Hu Hne E) as (_ & [(-> & v & -> & ->)|(-> & ->)]); cbn [expect mbind io_result_bind].
  - by rewrite Z.eqb_refl.
  - by rewrite (proj2 (Z.eqb_neq EMPTY_KEY key)) by congruence.
Qed.

Lemma table_get_mut_spec t m key f :
  table_ok t m → u32 key → key ≠ EMPTY_KEY →
  ∃ t', table_get_mut t key f = Ok (m !! key, t') ∧ table_ok t' (alter f key m) ∧ length (touched_slots t') = length (touched_slots t).
Proof.
  intros Hok Hu Hne. destruct (table_room t m key Hok Hu) as [slot E]. pose proof Hok as (Hc & Hm & Hcap).
  unfold table_get_mut. rewrite (proj2 (Z.eqb_neq _ _) Hne), E.
  destruct (find_slot_holds t m key slot Hc Hm Hu Hne E) as (_ & [(Hst & v & Hv & Em)|(Hst & Em)]); rewrite Hst; cbn [expect mbind io_result_bind].
  - rewrite Z.eqb_refl, Hv. cbn [expect mbind io_result_bind]. rewrite Em. eexists. split_and!; [done| |done].
    replace (alter f key m) with (<[key := f v]> m).
    + destruct (overwrite_spec t m key slot (f v) Hc Hm Hu Hne E Hst). by split_and!.
    + apply map_eq. intros k. destruct (decide (k = key)) as [->|]; [by rewrite lookup_insert_eq, lookup_alter_eq, Em|by rewrite lookup_insert_ne, lookup_alter_ne by done].
  - rewrite (proj2 (Z.eqb_neq EMPTY_KEY key)) by congruence. rewrite Em. exists t. split_and!; [done| |done].
    replace (alter f key m) with m; [done|]. apply map_eq. intros k. destruct (decide (k = key)) as [->|]; [by rewrite lookup_alter_eq, Em|by rewrite lookup_alter_ne].
Qed.

(** Room after growing, or no need to grow. *)
Lemma make_room t m key :
  table_ok t m → u32 key → key ≠ EMPTY_KEY → m !! key = None → zlen (touched_slots t) < 2 ^ 30 →
  ∃ t', (if entry_capacity t <? zlen (touched_slots t) + 1 then grow default_value t else Ok t) = Ok t' ∧
    table_core t' ∧ holds t' m ∧ zlen (touched_slots t') + 1 <= entry_capacity t' ∧ length (touched_slots t') = length (touched_slots t).
Proof.
  intros (Hc & Hm & Hcap) Hu Hne Hnone Hn. unfold entry_capacity in *. destruct (core_pow t Hc) as [_ H8].
  pose proof (Z.div_mod (zlen (keys t) * 7) 10 ltac:(lia)). pose proof (Z.mod_pos_bound (zlen (keys t) * 7) 10 ltac:(lia)).
  destruct (zlen (keys t) * 7 / 10 <? zlen (touched_slots t) + 1) eqn:El.
  - apply Z.ltb_lt in El. destruct (grow_spec t m Hc Hm) as (t' & E & Hc' & Hm' & Elen & Et).
    { change (2 ^ 30) with 1073741824 in *. change (2 ^ 32) with 4294967296. lia. }
    exists t'. split_and!; try done. unfold zlen in *. rewrite Elen, Et. apply Z.div_le_lower_bound; lia.
  - apply Z.ltb_ge in El. by exists t.
Qed.

Lemma table_insert_spec t m key v :
  table_ok t m → u32 key → key ≠ EMPTY_KEY → zlen (touched_slots t) < 2 ^ 30 →
  ∃ t', table_insert default_value t key v = Ok (m !! key, t') ∧ table_ok t' (<[key := v]> m) ∧
    (length (touched_slots t') ≤ S (length (touched_slots t)))%nat.
Proof.
  intros Hok Hu Hne Hn. destruct (table_room t m key Hok Hu) as [slot E]. pose proof Hok as (Hc & Hm & Hcap).
  unfold table_insert. rewrite (proj2 (Z.eqb_neq _ _) Hne), E. cbn [expect mbind io_result_bind].
  destruct (find_slot_holds t m key slot Hc Hm Hu Hne E) as (_ & [(Hst & w & Hv & Em)|(Hst & Em)]); rewrite Hst; cbn [expect mbind io_result_bind].
  - rewrite Z.eqb_refl, Hv, Em. cbn [expect mbind io_result_bind]. eexists. split_and!; [done| |cbn; lia].
    destruct (overwrite_spec t m key slot v Hc Hm Hu Hne E Hst). by split_and!.
  - rewrite (proj2 (Z.eqb_neq EMPTY_KEY key)), Em by congruence.
    destruct (make_room t m key Hok Hu Hne Em Hn) as (t' & -> & Hc' & Hm' & Hcap' & Et). cbn [mbind io_result_bind].
    destruct (table_room t' m key) as [slot' E']; [split_and!; [done|done|lia]|done|].
    rewrite E'. cbn [expect mbind io_result_bind]. eexists. split_and!; [done| |cbn; rewrite length_app; cbn; lia].
    destruct (find_slot_holds t' m key slot' Hc' Hm' Hu Hne E') as (_ & [(_ & w & _ & Em')|(Hst' & _)]); [congruence|].
    destruct (store_new_spec t' m key slot' v Hc' Hm' Hu Hne E' Hst'). split_and!; [done|done|].
    unfold entry_capacity, zlen in *. cbn [keys touched_slots store_new]. rewrite length_app, length_insert. cbn [length]. lia.
Qed.

Lemma table_clear_spec t m : table_ok t m → ∃ t', table_clear t = Ok t' ∧ table_ok t' ∅ ∧ touched_slots t' = [].
Proof.
  intros (Hc & Hm & _). destruct (clear_loop (keys t) (touched_slots t)) as (ks & E & El & Hspec).
  { intros s (_ & k & Hk & _)%(tc_touched t Hc). by eapply lookup_lt_Some. }
  unfold table_clear. rewrite E. cbn [mbind io_result_bind]. eexists. split_and!; [done| |done].
  assert (∀ i k, ks !! i = Some k → k = EMPTY_KEY) as Hall.
  { intros i k Hk. destruct (Hspec i k Hk) as [[-> _]|[Hk' Hnin]]; [done|].
    destruct (decide (k = EMPTY_KEY)) as [|Hne]; [done|]. exfalso. apply Hnin, list_elem_of_fmap. exists (Z.of_nat i).
    split; [lia|]. apply (tc_touched t Hc). split; [lia|]. rewrite Nat2Z.id. eauto. }
  assert (0 <= zlen ks * 7 / 10) by (apply Z.div_pos; unfold zlen; lia).
  split_and!; [split; cbn [keys values touched_slots]; unfold zlen; rewrite ?El| |done].
  - apply (tc_pow t Hc).
  - apply (tc_size t Hc).
  - apply (tc_values t Hc).
  - constructor.
  - intros s. split; [by intros ?%not_elem_of_nil|]. intros (_ & k & Hk & Hne). by apply Hall in Hk.
  - apply Forall_lookup. intros i k ->%Hall. unfold EMPTY_KEY. unfold_widths. lia.
  - intros s k Hk Hne. by apply Hall in Hk.
  - intros key v. rewrite lookup_empty. split; [done|]. intros (Hne & s & Hs & _). by apply Hall in Hs.
Qed.

Lemma with_capacity_spec expected :
  0 <= expected <= 2 ^ 31 → ∃ t, with_capacity default_value expected = Ok t ∧ table_ok t ∅ ∧ touched_slots t = [] ∧ 2 * expected <= zlen (keys t).
Proof.
  intros He. unfold with_capacity, capacity_for.
  rewrite (proj2 (checked_mul_Some 64 _ _ _)) by (split; [reflexivity|unfold_widths; change (2 ^ 31) with 2147483648 in *; lia]).
  cbn [mbind option_bind]. unfold checked_next_power_of_two, MIN_CAPACITY. set (x := Z.max (expected * 2) 8).
  assert (8 <= x <= 2 ^ 32) as Hx by (unfold x; change (2 ^ 31) with 2147483648 in *; change (2 ^ 32) with 4294967296; lia).
  assert (3 <= Z.log2_up x <= 32) as Hlog.
  { split; [change 3 with (Z.log2_up 8)|change 32 with (Z.log2_up (2 ^ 32))]; apply Z.log2_up_le_mono; lia. }
  assert (2 ^ Z.log2_up x <= 2 ^ 32) as Hp by (apply Z.pow_le_mono_r; lia).
  assert (x <= 2 ^ Z.log2_up x) as Hge by (apply Z.log2_up_spec; lia).
  rewrite (proj2 (Z.ltb_lt _ _)) by (unfold_widths; lia). cbn [expect mbind io_result_bind].
  eexists. split_and!; [done| |done|unfold zlen; cbn [keys]; rewrite length_replicate; lia].
  destruct (empty_table (2 ^ Z.log2_up x) (Z.log2_up x)) as [Hc Hm]; [lia|done|done|]. split_and!; [done|done|].
  unfold entry_capacity. cbn [touched_slots]. apply Z.div_pos; [unfold zlen; lia|lia].
Qed.

End Invariant.

(** ** Refinement of a finite map *)

Inductive table_op (V : Type) :=
  | TGet (key : Z)
  | TInsert (key : Z) (value : V)
  | TUpdate (key : Z) (f : V → V)
  | TClear.
Arguments TGet {_} _.
Arguments TInsert {_} _ _.
Arguments TUpdate {_} _ _.
Arguments TClear {_}.

Definition table_step {V} (default_value : V) (t : SparseTable V) (op : table_op V) : io_result (option V * SparseTable V) :=
  match op with
  | TGet key => r ← table_get t key; Ok (r, t)
  | TInsert key value => table_insert default_value t key value
  | TUpdate key f => table_get_mut t key f
  | TClear => t ← table_clear t; Ok (None, t)
  end.
Definition map_step {V} (m : gmap Z V) (op : table_op V) : option V * gmap Z V :=
  match op with
  | TGet key => (m !! key, m)
  | TInsert key value => (m !! key, <[key := value]> m)
  | TUpdate key f => (m !! key, alter f key m)
  | TClear => (None, ∅)
  end.
Fixpoint table_run {V} (d : V) (t : SparseTable V) (ops : list (table_op V)) : io_result (list (option V)) :=
  match ops with
  | [] => Ok []
  | op :: ops => '(r, t) ← table_step d t op; rs ← table_run d t ops; Ok (r :: rs)
  end.
Fixpoint map_run {V} (m : gmap Z V) (ops : list (table_op V)) : list (option V) :=
  match ops with
  | [] => []
  | op :: ops => let '(r, m) := map_step m op in r :: map_run m ops
  end.
(** Keys are [u32] and [u32::MAX] is reserved. *)
Definition table_op_ok {V} (op : table_op V) : Prop :=
  match op with TGet key | TInsert key _ | TUpdate key _ => u32 key ∧ key ≠ EMPTY_KEY | TClear => True end.

Lemma table_run_refines {V} (d : V) t m ops :
  table_ok t m → Forall table_op_ok ops → zlen (touched_slots t) + zlen ops <= 2 ^ 30 → table_run d t ops = Ok (map_run m ops).
Proof.
  intros Hok Hops. revert t m Hok. induction Hops as [|op ops Hop Hops IH]; intros t m Hok Hn; [done|].
  assert (∃ t', table_step d t op = Ok ((map_step m op).1, t') ∧ table_ok t' (map_step m op).2 ∧
                (length (touched_slots t') ≤ S (length (touched_slots t)))%nat) as (t' & E & Hok' & Ht').
  { destruct op as [key|key v|key f|]; cbn [table_step map_step fst snd table_op_ok] in *.
    - rewrite (table_get_spec t m) by (done || apply Hop). cbn. exists t. split_and!; [done|done|lia].
    - apply table_insert_spec; [done|apply Hop..|]. unfold zlen in *. cbn [length] in Hn. lia.
    - destruct (table_get_mut_spec t m key f) as (t' & E & Hok' & Et); [done|apply Hop..|]. exists t'. split_and!; [done|done|lia].
    - destruct (table_clear_spec t m Hok) as (t' & -> & Hok' & Et). exists t'. split_and!; [done|done|rewrite Et; cbn; lia]. }
  cbn [table_run map_run]. rewrite E. cbn [mbind io_result_bind]. destruct (map_step m op) as [r m'].
  cbn [fst snd] in *. rewrite (IH t' m' Hok'); [done|]. unfold zlen in *. cbn [length] in Hn. lia.
Qed.

(** C39: a table built for any expected number of entries up to [2^31] answers
    every sequence of lookups, insertions, in-place updates and clears, of up to
    [2^30] operations with keys other than the reserved one, exactly as a finite
    map does; no operation panics, whatever the growth along the way. *)
Theorem sparse_table_refines_map {V} (d : V) expected (ops : list (table_op V)) :
  0 <= expected <= 2 ^ 31 → Forall table_op_ok ops → zlen ops <= 2 ^ 30 →
  (t ← with_capacity d expected; table_run d t ops) = Ok (map_run ∅ ops).
Proof.
  intros He Hops Hn. destruct (with_capacity_spec d expected He) as (t & -> & Hok & Et & _). cbn [mbind io_result_bind].
  apply table_run_refines; [done|done|]. rewrite Et. exact Hn.
Qed.

Definition demo_ops : list (table_op Z) :=
  (λ i, TInsert (i * 7919) i) <$> seqZ 0 12.
Lemma sparse_table_refines_map_witness :
  (t ← with_capacity 0 0; table_run 0 t (demo_ops ++ [TUpdate 7919 (Z.add 5); TGet 7919; TInsert 7919 3; TClear; TGet 7919])) =
  Ok (replicate 12 None ++ [Some 1; Some 6; Some 6; None; None]).
Proof.
  rewrite (sparse_table_refines_map 0 0 _ ltac:(vm_compute; split; discriminate)); [vm_compute; reflexivity| |vm_compute; discriminate].
  repeat (apply Forall_cons_2; [by vm_compute|]). constructor.
Defined.
