(* ===== verification/CompactAdjacency.v ===== *)
(** The in-memory adjacency of a Vamana graph: [AdjacencyShard] and
    [CompactAdjacency] of [core/src/vamana.rs].

    Every node owns [max_degree] consecutive slots of its shard and a degree
    that says how many are in use.  The file shows that this is a list of
    neighbour lists under every operation, and that the cycle-following
    in-place permutation moves each list to its new place and renames its
    members.  A node is a [nat], a stored neighbour a [Z] inside [u32]; an index
    out of range, a failed assertion and an [expect] are [Panic]. *)

From stdpp Require Import sorting.
From S2P Require Import Prelude.

Definition PARALLEL_ADJACENCY_NODES_PER_SHARD : nat := 256.

Record AdjacencyShard := Shard {
  start_node : nat; shard_node_count : nat; slots : list Z; degrees : list Z }.

(** [node - self.start_node] *)
Definition local_of (sh : AdjacencyShard) (node : nat) : io_result nat :=
  if (start_node sh <=? node)%nat then Ok (node - start_node sh)%nat else Panic.

(** [self.slots[start..start + n].copy_from_slice(src)] with the bounds check. *)
Definition copy_into (start : nat) (src l : list Z) : io_result (list Z) :=
  _ ← expect (get_slice start (length src) l); Ok (splice start src l).
(** [self.v[i] = x] with the bounds check. *)
Definition store_at (i : nat) (x : Z) (l : list Z) : io_result (list Z) :=
  if (i <? length l)%nat then Ok (<[i := x]> l) else Panic.

Definition shard_neighbors (sh : AdjacencyShard) (node max_degree : nat) : io_result (list Z) :=
  local_node ← local_of sh node;
  let start := (local_node * max_degree)%nat in
  degree ← expect (degrees sh !! local_node);
  expect (get_slice start (Z.to_nat degree) (slots sh)).

Definition shard_replace (sh : AdjacencyShard) (node max_degree : nat) (neighbors : list Z) : io_result AdjacencyShard :=
  local_node ← local_of sh node;
  slots' ← copy_into (local_node * max_degree) neighbors (slots sh);
  degrees' ← store_at local_node (wrap 16 (zlen neighbors)) (degrees sh);
  Ok (Shard (start_node sh) (shard_node_count sh) slots' degrees').

Definition shard_push (sh : AdjacencyShard) (node max_degree : nat) (neighbor : Z) : io_result AdjacencyShard :=
  local_node ← local_of sh node;
  degree ← expect (degrees sh !! local_node);
  if (Z.to_nat degree <? max_degree)%nat then
    slots' ← store_at (local_node * max_degree + Z.to_nat degree) neighbor (slots sh);
    degrees' ← store_at local_node (wrap 16 (degree + 1)) (degrees sh);
    Ok (Shard (start_node sh) (shard_node_count sh) slots' degrees')
  else Panic.

Definition shard_swap_remove (sh : AdjacencyShard) (node max_degree slot : nat) : io_result AdjacencyShard :=
  local_node ← local_of sh node;
  degree ← expect (degrees sh !! local_node);
  if (slot <? Z.to_nat degree)%nat then
    let start := (local_node * max_degree)%nat in
    last ← expect (slots sh !! (start + Z.to_nat degree - 1)%nat);
    slots' ← store_at (start + slot) last (slots sh);
    degrees' ← store_at local_node (degree - 1) (degrees sh);
    Ok (Shard (start_node sh) (shard_node_count sh) slots' degrees')
  else Panic.

(** The [zip] swaps as many slots as the shorter side has. *)
Definition shard_swap_node_with_buffer (sh : AdjacencyShard) (node max_degree : nat) (buffer : list Z) (degree : Z) :
    io_result (AdjacencyShard * list Z * Z) :=
  local_node ← local_of sh node;
  let start := (local_node * max_degree)%nat in
  stored ← expect (get_slice start max_degree (slots sh));
  let n := (max_degree `min` length buffer)%nat in
  degree' ← expect (degrees sh !! local_node);
  Ok (Shard (start_node sh) (shard_node_count sh) (splice start (take n buffer) (slots sh)) (<[local_node := degree]> (degrees sh)),
      take n stored ++ drop n buffer, degree').

Record CompactAdjacency := Compact_ { shards : list AdjacencyShard; node_count : nat; max_degree : nat }.

Definition shard_index (node : nat) : nat := (node / PARALLEL_ADJACENCY_NODES_PER_SHARD)%nat.

(** [(0..node_count).step_by(PARALLEL_ADJACENCY_NODES_PER_SHARD)] *)
Definition shard_starts (node_count : nat) : list nat :=
  (λ s, s * PARALLEL_ADJACENCY_NODES_PER_SHARD)%nat <$>
    seq 0 (Z.to_nat (div_ceil (Z.of_nat node_count) (Z.of_nat PARALLEL_ADJACENCY_NODES_PER_SHARD))).
Definition shard_size (node_count start_node : nat) : nat :=
  (PARALLEL_ADJACENCY_NODES_PER_SHARD `min` (node_count - start_node))%nat.

Definition empty_shard (max_degree node_count start_node : nat) : AdjacencyShard :=
  let n := shard_size node_count start_node in
  Shard start_node n (replicate (n * max_degree) 0) (replicate n 0).
Definition adj_empty (node_count max_degree : nat) : CompactAdjacency :=
  Compact_ (empty_shard max_degree node_count <$> shard_starts node_count) node_count max_degree.

Definition fill_node (adjacency : list (list Z)) (max_degree start_node : nat) (acc : list Z * list Z) (local_node : nat) :
    io_result (list Z * list Z) :=
  neighbors ← expect (adjacency !! (start_node + local_node)%nat);
  if (length neighbors <=? max_degree)%nat then
    slots' ← copy_into (local_node * max_degree) neighbors acc.1;
    degree ← expect (try_from 16 (zlen neighbors));
    degrees' ← store_at local_node degree acc.2;
    Ok (slots', degrees')
  else Panic.
Definition nested_shard (adjacency : list (list Z)) (max_degree start_node : nat) : io_result AdjacencyShard :=
  let n := shard_size (length adjacency) start_node in
  '(slots, degrees) ← try_fold (fill_node adjacency max_degree start_node) (replicate (n * max_degree) 0, replicate n 0) (seq 0 n);
  Ok (Shard start_node n slots degrees).
Definition from_nested (adjacency : list (list Z)) (max_degree : nat) : io_result CompactAdjacency :=
  shards ← try_map (nested_shard adjacency max_degree) (shard_starts (length adjacency));
  Ok (Compact_ shards (length adjacency) max_degree).

Definition with_shard {A} (adj : CompactAdjacency) (node : nat) (f : AdjacencyShard → io_result A) : io_result A :=
  sh ← expect (shards adj !! shard_index node); f sh.
Definition set_shard (adj : CompactAdjacency) (node : nat) (sh : AdjacencyShard) : CompactAdjacency :=
  Compact_ (<[shard_index node := sh]> (shards adj)) (node_count adj) (max_degree adj).

Definition adj_len (adj : CompactAdjacency) : nat := node_count adj.
Definition adj_neighbors (adj : CompactAdjacency) (node : nat) : io_result (list Z) :=
  with_shard adj node (λ sh, shard_neighbors sh node (max_degree adj)).
Definition adj_iter (adj : CompactAdjacency) : io_result (list (list Z)) :=
  try_map (adj_neighbors adj) (seq 0 (node_count adj)).
Definition adj_replace (adj : CompactAdjacency) (node : nat) (neighbors : list Z) : io_result CompactAdjacency :=
  set_shard adj node <$> with_shard adj node (λ sh, shard_replace sh node (max_degree adj) neighbors).
Definition adj_push (adj : CompactAdjacency) (node : nat) (neighbor : Z) : io_result CompactAdjacency :=
  set_shard adj node <$> with_shard adj node (λ sh, shard_push sh node (max_degree adj) neighbor).
Definition adj_swap_remove (adj : CompactAdjacency) (node slot : nat) : io_result CompactAdjacency :=
  set_shard adj node <$> with_shard adj node (λ sh, shard_swap_remove sh node (max_degree adj) slot).

Definition node_slots (adj : CompactAdjacency) (node : nat) : io_result (list Z) :=
  with_shard adj node (λ sh,
    local_node ← local_of sh node; expect (get_slice (local_node * max_degree adj) (max_degree adj) (slots sh))).
Definition node_degree (adj : CompactAdjacency) (node : nat) : io_result Z :=
  with_shard adj node (λ sh, local_node ← local_of sh node; expect (degrees sh !! local_node)).
Definition swap_node_with_buffer (adj : CompactAdjacency) (node : nat) (buffer : list Z) (degree : Z) :
    io_result (CompactAdjacency * list Z * Z) :=
  with_shard adj node (λ sh,
    '(sh, buffer, degree) ← shard_swap_node_with_buffer sh node (max_degree adj) buffer degree;
    Ok (set_shard adj node sh, buffer, degree)).

(** The [loop] that follows one cycle; it returns within [node_count] rounds. *)
Fixpoint cycle_loop (fuel : nat) (old_to_new : list Z) (start current : nat) (adj : CompactAdjacency) (visited : list bool)
    (buffer : list Z) (degree : Z) : io_result (CompactAdjacency * list bool * list Z) :=
  match fuel with
  | O => Panic
  | S fuel =>
      let visited := <[current := true]> visited in
      destination ← Z.to_nat <$> expect (old_to_new !! current);
      if (destination <? node_count adj)%nat then
        '(adj, buffer, degree) ← swap_node_with_buffer adj destination buffer degree;
        if (destination =? start)%nat then Ok (adj, visited, buffer)
        else
          seen ← expect (visited !! destination);
          if negb seen then cycle_loop fuel old_to_new start destination adj visited buffer degree else Panic
      else Panic
  end.
Definition permute_from (old_to_new : list Z) (st : CompactAdjacency * list bool * list Z) (start : nat) :
    io_result (CompactAdjacency * list bool * list Z) :=
  let '(adj, visited, buffer) := st in
  seen ← expect (visited !! start);
  if (seen : bool) then Ok st
  else
    buffer ← node_slots adj start;
    degree ← node_degree adj start;
    cycle_loop (node_count adj) old_to_new start start adj visited buffer degree.

(** Renaming and sorting the neighbours of one node in place. *)
Definition shard_map_neighbors (sh : AdjacencyShard) (node max_degree : nat) (old_to_new : list Z) : io_result AdjacencyShard :=
  neighbors ← shard_neighbors sh node max_degree;
  renamed ← try_map (λ neighbor, expect (old_to_new !! Z.to_nat neighbor)) neighbors;
  local_node ← local_of sh node;
  slots' ← copy_into (local_node * max_degree) (merge_sort Z.le renamed) (slots sh);
  Ok (Shard (start_node sh) (shard_node_count sh) slots' (degrees sh)).
Definition map_neighbors (old_to_new : list Z) (adj : CompactAdjacency) (node : nat) : io_result CompactAdjacency :=
  set_shard adj node <$> with_shard adj node (λ sh, shard_map_neighbors sh node (max_degree adj) old_to_new).

Definition permute_and_map_neighbors (adj : CompactAdjacency) (old_to_new : list Z) : io_result CompactAdjacency :=
  if (length old_to_new =? node_count adj)%nat then
    '(adj, _, _) ← try_fold (permute_from old_to_new) (adj, replicate (node_count adj) false, replicate (max_degree adj) 0)
                     (seq 0 (node_count adj));
    try_fold (map_neighbors old_to_new) adj (seq 0 (node_count adj))
  else Panic.

(** ** The list of neighbour lists a shard holds *)

Local Notation N := PARALLEL_ADJACENCY_NODES_PER_SHARD.

(** The [k]-th node of a shard has the neighbours [x]. *)
Definition shard_node (sh : AdjacencyShard) (d k : nat) (x : list Z) : Prop :=
  degrees sh !! k = Some (zlen x) ∧ (length x ≤ d)%nat ∧ (S k * d ≤ length (slots sh))%nat ∧
  ∀ j, (j < length x)%nat → slots sh !! (k * d + j)%nat = x !! j.

Definition node_at (adj : CompactAdjacency) (i : nat) (x : list Z) : Prop :=
  ∃ sh, shards adj !! shard_index i = Some sh ∧ start_node sh = (shard_index i * N)%nat ∧
    shard_node sh (max_degree adj) (i - shard_index i * N) x.

(** [adj] stands for the neighbour lists [l]. *)
Record rep (adj : CompactAdjacency) (l : list (list Z)) : Prop := {
  rep_count : node_count adj = length l;
  rep_degree : Z.of_nat (max_degree adj) < 2 ^ 16;
  rep_nodes : ∀ i x, l !! i = Some x → node_at adj i x;
}.

Lemma to_nat_zlen {A} (l : list A) : Z.to_nat (zlen l) = length l.
Proof. unfold zlen. lia. Qed.

Lemma shard_index_le i : (shard_index i * N ≤ i)%nat.
Proof. unfold shard_index. rewrite Nat.mul_comm. apply Nat.Div0.mul_div_le. Qed.

Lemma shard_index_inj i j : shard_index i = shard_index j → (i - shard_index i * N = j - shard_index j * N)%nat → i = j.
Proof. intros E. rewrite E. pose proof (shard_index_le i). pose proof (shard_index_le j). rewrite E in *. lia. Qed.

Lemma slice_lookup {A} off n (l : list A) i : (i < n)%nat → slice off n l !! i = l !! (off + i)%nat.
Proof. intros Hi. unfold slice. rewrite lookup_take_lt by done. apply lookup_drop. Qed.

Lemma splice_lookup {A} off (src l : list A) i :
  (off + length src ≤ length l)%nat →
  splice off src l !! i = if decide (off ≤ i < off + length src)%nat then src !! (i - off)%nat else l !! i.
Proof.
  intros Hl. unfold splice. destruct (decide (i < off)%nat) as [Hi|Hi].
  { rewrite decide_False by lia. rewrite lookup_app_l, lookup_take_lt by (rewrite ?length_take; lia). done. }
  rewrite lookup_app_r by (rewrite length_take; lia). rewrite length_take, Nat.min_l by lia.
  destruct (decide (off ≤ i < off + length src)%nat) as [Hd|Hd].
  - rewrite lookup_app_l by lia. done.
  - rewrite lookup_app_r, lookup_drop by lia. f_equal. lia.
Qed.

Lemma shard_neighbors_at sh d k x : shard_node sh d k x → get_slice (k * d) (length x) (slots sh) = Some x.
Proof.
  intros (_ & Hx & Hl & Hs). apply get_slice_Some. split; [lia|]. symmetry. apply list_eq. intros j.
  destruct (decide (j < length x)%nat).
  - rewrite slice_lookup by done. auto.
  - rewrite !lookup_ge_None_2; [done|lia|]. rewrite length_slice; lia.
Qed.

(** Only the block of node [k] may differ between [sh] and [sh']. *)
Definition only_node (d k : nat) (sh sh' : AdjacencyShard) : Prop :=
  start_node sh' = start_node sh ∧ length (slots sh') = length (slots sh) ∧
  (∀ k', k' ≠ k → degrees sh' !! k' = degrees sh !! k') ∧
  ∀ p, (p < k * d ∨ S k * d ≤ p)%nat → slots sh' !! p = slots sh !! p.

Lemma only_node_other d k k' sh sh' x : only_node d k sh sh' → k' ≠ k → shard_node sh d k' x → shard_node sh' d k' x.
Proof.
  intros (_ & Hlen & Hdeg & Hslots) Hne (Hd & Hx & Hl & Hs). unfold shard_node. rewrite Hlen, Hdeg by done. split_and!; try done.
  intros j Hj. rewrite Hslots; [auto|]. destruct (decide (k' < k)%nat); [left|right]; nia.
Qed.

(** The node's neighbours, and updating its block. *)
Lemma rep_node adj l i x :
  rep adj l → l !! i = Some x →
  ∃ sh, shards adj !! shard_index i = Some sh ∧ local_of sh i = Ok (i - shard_index i * N)%nat ∧
    shard_node sh (max_degree adj) (i - shard_index i * N) x ∧
    ∀ sh' x', only_node (max_degree adj) (i - shard_index i * N) sh sh' →
      shard_node sh' (max_degree adj) (i - shard_index i * N) x' → rep (set_shard adj i sh') (<[i := x']> l).
Proof.
  intros Hr Hx. destruct (rep_nodes adj l Hr i x Hx) as (sh & Hsh & Est & Hnode). exists sh. split_and!; [done| |done|].
  - unfold local_of. rewrite Est, (proj2 (Nat.leb_le _ _) (shard_index_le i)). done.
  - intros sh' x' Ho Hnode'. split; cbn [set_shard node_count max_degree shards].
    + rewrite length_insert. apply Hr.
    + apply Hr.
    + intros j y Hy. unfold node_at. cbn [set_shard shards max_degree].
      assert (shard_index i < length (shards adj))%nat as Hlt by (by eapply lookup_lt_Some).
      destruct (decide (i = j)) as [<-|Hne].
      * rewrite list_lookup_insert_eq in Hy by (by eapply lookup_lt_Some). injection Hy as <-.
        exists sh'. rewrite list_lookup_insert_eq by done. split_and!; [done|destruct Ho as [-> _]; done|done].
      * rewrite list_lookup_insert_ne in Hy by done. destruct (rep_nodes adj l Hr j y Hy) as (shj & Hshj & Estj & Hj).
        destruct (decide (shard_index i = shard_index j)) as [E|E].
        -- exists sh'. rewrite <- E in *. rewrite list_lookup_insert_eq by done. rewrite Hsh in Hshj. injection Hshj as <-.
           split_and!; [done|destruct Ho as [-> _]; done|]. eapply only_node_other; [done| |done].
           intros Ek. apply Hne, shard_index_inj; [done|]. by rewrite <- E.
        -- exists shj. rewrite list_lookup_insert_ne by done. done.
Qed.

Lemma node_at_neighbors adj i x : node_at adj i x → adj_neighbors adj i = Ok x.
Proof.
  intros (sh & Hsh & Est & Hnode). unfold adj_neighbors, with_shard. rewrite Hsh. cbn [expect mbind io_result_bind].
  unfold shard_neighbors, local_of. rewrite Est, (proj2 (Nat.leb_le _ _) (shard_index_le i)).
  cbn [mbind io_result_bind]. rewrite (proj1 Hnode). cbn [expect mbind io_result_bind]. rewrite to_nat_zlen.
  by rewrite (shard_neighbors_at _ _ _ _ Hnode).
Qed.

Lemma adj_neighbors_ok adj l i x : rep adj l → l !! i = Some x → adj_neighbors adj i = Ok x.
Proof. intros Hr Hx. by apply node_at_neighbors, (rep_nodes adj l Hr). Qed.

(** An adjacency whose nodes can all be read stands for what is read. *)
Lemma rep_of_nodes adj :
  Z.of_nat (max_degree adj) < 2 ^ 16 → (∀ i, (i < node_count adj)%nat → ∃ x, node_at adj i x) →
  ∃ l, rep adj l ∧ length l = node_count adj ∧ ∀ i x, l !! i = Some x → node_at adj i x.
Proof.
  intros Hd Hall. exists ((λ i, match adj_neighbors adj i with Ok x => x | _ => [] end) <$> seq 0 (node_count adj)).
  assert (∀ i x, ((λ i, match adj_neighbors adj i with Ok x => x | _ => [] end) <$> seq 0 (node_count adj)) !! i = Some x → node_at adj i x) as Hn.
  { intros i x (j & -> & (-> & Hi)%lookup_seq)%list_lookup_fmap_Some. cbn. destruct (Hall i Hi) as [y Hy].
    by rewrite (node_at_neighbors adj i y Hy). }
  split_and!; [|by rewrite length_fmap, length_seq|done]. split; [by rewrite length_fmap, length_seq|done|done].
Qed.

Lemma store_at_ok i x l : (i < length l)%nat → store_at i x l = Ok (<[i := x]> l).
Proof. intros. unfold store_at. by rewrite (proj2 (Nat.ltb_lt _ _)). Qed.

Lemma copy_into_ok start src l : (start + length src ≤ length l)%nat → copy_into start src l = Ok (splice start src l).
Proof. intros. unfold copy_into. rewrite (proj2 (get_slice_Some _ _ _ _)) by done. done. Qed.

Lemma degree_bound adj l i x : rep adj l → l !! i = Some x → Z.of_nat (length x) < 2 ^ 16.
Proof.
  intros Hr Hx. destruct (rep_nodes adj l Hr i x Hx) as (sh & _ & _ & _ & Hd & _). pose proof (rep_degree adj l Hr). lia.
Qed.

Lemma rep_length adj l i x : rep adj l → l !! i = Some x → (length x ≤ max_degree adj)%nat.
Proof. intros Hr Hx. by destruct (rep_nodes adj l Hr i x Hx) as (sh & _ & _ & _ & Hd & _). Qed.

(** Overwriting the slots from the start of the block of node [k]. *)
Lemma write_block d k sh src degs x :
  (length src ≤ d)%nat → (S k * d ≤ length (slots sh))%nat → (∀ k', k' ≠ k → degs !! k' = degrees sh !! k') →
  degs !! k = Some (zlen x) → (length x ≤ d)%nat →
  (∀ j, (j < length x)%nat → (if decide (j < length src)%nat then src !! j else slots sh !! (k * d + j)%nat) = x !! j) →
  let sh' := Shard (start_node sh) (shard_node_count sh) (splice (k * d) src (slots sh)) degs in
  only_node d k sh sh' ∧ shard_node sh' d k x.
Proof.
  intros Hsrc Hl Hdegs Hk Hx Hs sh'. assert (k * d + length src ≤ length (slots sh))%nat by lia.
  split; [split_and!|split_and!]; cbn [slots degrees start_node sh']; try done.
  - by apply length_splice.
  - intros p Hp. rewrite splice_lookup by done. rewrite decide_False; [done|]. lia.
  - by rewrite length_splice.
  - intros j Hj. rewrite <- Hs by done. rewrite splice_lookup by done.
    destruct (decide (j < length src)%nat); [rewrite decide_True by lia; f_equal; lia|by rewrite decide_False by lia].
Qed.

Lemma adj_replace_ok adj l i x y :
  rep adj l → l !! i = Some x → (length y ≤ max_degree adj)%nat → ∃ adj', adj_replace adj i y = Ok adj' ∧ rep adj' (<[i := y]> l) ∧ max_degree adj' = max_degree adj.
Proof.
  intros Hr Hx Hy. destruct (rep_node adj l i x Hr Hx) as (sh & Hsh & Eloc & Hnode & Hup).
  pose proof Hnode as (Hd & Hxd & Hl & Hs). set (k := (i - shard_index i * N)%nat) in *.
  assert (k < length (degrees sh))%nat as Hkl by (by eapply lookup_lt_Some).
  assert (wrap 16 (zlen y) = zlen y) as Ew by (apply wrap_small; pose proof (rep_degree adj l Hr); unfold u_ok, zlen; lia).
  destruct (write_block (max_degree adj) k sh y (<[k := zlen y]> (degrees sh)) y) as [Ho Hn]; [done|done| | |done| |].
  { intros. by rewrite list_lookup_insert_ne. } { by rewrite list_lookup_insert_eq. } { intros j Hj. by rewrite decide_True. }
  unfold adj_replace, with_shard. rewrite Hsh. cbn [expect mbind io_result_bind]. unfold shard_replace. rewrite Eloc.
  cbn [mbind io_result_bind]. rewrite copy_into_ok by lia. cbn [mbind io_result_bind]. rewrite store_at_ok, Ew by done.
  cbn [mbind io_result_bind]. eexists. split_and!; [reflexivity| |done]. by apply Hup.
Qed.

Lemma insert_lookup_case {A} i j (v : A) l :
  (i < length l)%nat → <[i := v]> l !! j = if decide (i = j) then Some v else l !! j.
Proof. intros. case_decide; subst; [by rewrite list_lookup_insert_eq|by rewrite list_lookup_insert_ne]. Qed.

Lemma adj_push_ok adj l i x v :
  rep adj l → l !! i = Some x → (length x < max_degree adj)%nat → ∃ adj', adj_push adj i v = Ok adj' ∧ rep adj' (<[i := x ++ [v]]> l) ∧ max_degree adj' = max_degree adj.
Proof.
  intros Hr Hx Hlt. destruct (rep_node adj l i x Hr Hx) as (sh & Hsh & Eloc & Hnode & Hup).
  pose proof Hnode as (Hd & Hxd & Hl & Hs). set (k := (i - shard_index i * N)%nat) in *. set (d := max_degree adj) in *.
  assert (k < length (degrees sh))%nat as Hkl by (by eapply lookup_lt_Some).
  assert (wrap 16 (zlen x + 1) = zlen x + 1) as Ew by (apply wrap_small; pose proof (rep_degree adj l Hr) as Hdg; fold d in Hdg; unfold u_ok, zlen; lia).
  unfold adj_push, with_shard. rewrite Hsh. cbn [expect mbind io_result_bind]. unfold shard_push. rewrite Eloc.
  cbn [mbind io_result_bind]. rewrite Hd. cbn [expect mbind io_result_bind]. rewrite ?to_nat_zlen.
  fold d. rewrite (proj2 (Nat.ltb_lt _ _) Hlt). rewrite ?to_nat_zlen.
  rewrite !store_at_ok, Ew by (done || (cbn in Hl; lia)). cbn [mbind io_result_bind].
  eexists. split_and!; [reflexivity| |done]. apply Hup.
  - split_and!; cbn [slots degrees start_node]; [done|by rewrite length_insert| |].
    + intros. by rewrite list_lookup_insert_ne.
    + intros p Hp. rewrite list_lookup_insert_ne; [done|]. cbn in Hp. lia.
  - split_and!; cbn [slots degrees]; rewrite ?length_insert.
    + rewrite list_lookup_insert_eq by done. rewrite zlen_app. done.
    + rewrite length_app. cbn. lia.
    + done.
    + intros j Hj. rewrite length_app in Hj. cbn in Hj, Hl. rewrite insert_lookup_case by lia. case_decide as E.
      * assert (j = length x) as -> by lia. by rewrite lookup_app_r, Nat.sub_diag.
      * rewrite lookup_app_l by lia. apply Hs. lia.
Qed.

(** [Vec::swap_remove]. *)
Definition swap_removed (slot : nat) (x : list Z) : list Z :=
  match last x with
  | Some v => take (length x - 1) (<[slot := v]> x)
  | None => x
  end.

Lemma adj_swap_remove_ok adj l i x slot :
  rep adj l → l !! i = Some x → (slot < length x)%nat →
  ∃ adj', adj_swap_remove adj i slot = Ok adj' ∧ rep adj' (<[i := swap_removed slot x]> l) ∧ max_degree adj' = max_degree adj.
Proof.
  intros Hr Hx Hlt. destruct (rep_node adj l i x Hr Hx) as (sh & Hsh & Eloc & Hnode & Hup).
  pose proof Hnode as (Hd & Hxd & Hl & Hs). set (k := (i - shard_index i * N)%nat) in *. set (d := max_degree adj) in *.
  assert (k < length (degrees sh))%nat as Hkl by (by eapply lookup_lt_Some).
  destruct (lookup_lt_is_Some_2 x (length x - 1)) as [v Hv]; [lia|].
  assert (last x = Some v) as Elast by (rewrite last_lookup; rewrite <- Hv; f_equal; lia).
  unfold adj_swap_remove, with_shard. rewrite Hsh. cbn [expect mbind io_result_bind]. unfold shard_swap_remove. rewrite Eloc.
  cbn [mbind io_result_bind]. rewrite Hd. cbn [expect mbind io_result_bind]. rewrite ?to_nat_zlen.
  rewrite (proj2 (Nat.ltb_lt _ _) Hlt). rewrite ?to_nat_zlen. fold d.
  replace (k * d + length x - 1)%nat with (k * d + (length x - 1))%nat by lia. rewrite Hs, Hv by lia. cbn [expect mbind io_result_bind].
  rewrite !store_at_ok by (done || (cbn in Hl; lia)). cbn [mbind io_result_bind].
  eexists. split_and!; [reflexivity| |done]. unfold swap_removed. rewrite Elast. apply Hup.
  - split_and!; cbn [slots degrees start_node]; [done|by rewrite length_insert| |].
    + intros. by rewrite list_lookup_insert_ne.
    + intros p Hp. rewrite list_lookup_insert_ne; [done|]. cbn in Hp. lia.
  - split_and!; cbn [slots degrees]; rewrite ?length_insert.
    + rewrite list_lookup_insert_eq by done. unfold zlen. rewrite length_take, length_insert. f_equal. lia.
    + rewrite length_take, length_insert. lia.
    + done.
    + intros j Hj. rewrite length_take, length_insert in Hj. cbn in Hl. rewrite insert_lookup_case by lia.
      rewrite lookup_take_lt by lia. rewrite insert_lookup_case by done.
      destruct (decide (slot = j)) as [->|]; [by rewrite decide_True|]. rewrite decide_False by lia. apply Hs. lia.
Qed.

(** ** Building *)

Lemma shard_index_bound i n : (i < n)%nat → (shard_index i < Z.to_nat (div_ceil (Z.of_nat n) (Z.of_nat N)))%nat.
Proof.
  intros Hi. pose proof (shard_index_le i). pose proof (div_ceil_spec (Z.of_nat n) (Z.of_nat N) ltac:(done)) as [Hc _].
  assert (Z.of_nat (shard_index i) * Z.of_nat N < Z.of_nat N * div_ceil (Z.of_nat n) (Z.of_nat N)) by lia.
  assert (Z.of_nat (shard_index i) < div_ceil (Z.of_nat n) (Z.of_nat N)) by nia. lia.
Qed.

Lemma shard_starts_lookup n i : (i < n)%nat → shard_starts n !! shard_index i = Some (shard_index i * N)%nat.
Proof. intros Hi. unfold shard_starts. rewrite list_lookup_fmap, lookup_seq_lt by (by apply shard_index_bound). done. Qed.

Lemma local_size i n : (i < n)%nat → (i - shard_index i * N < shard_size n (shard_index i * N))%nat.
Proof.
  intros Hi. unfold shard_size. pose proof (shard_index_le i).
  pose proof (Nat.div_mod i N ltac:(done)) as E. pose proof (Nat.mod_upper_bound i N ltac:(done)).
  unfold shard_index. rewrite (Nat.mul_comm (i / N) N). lia.
Qed.

(** Filling the first [k] nodes of a shard. *)
Lemma fill_nodes adjacency d start n k :
  (k ≤ n)%nat → Z.of_nat d < 2 ^ 16 → (start + n ≤ length adjacency)%nat → Forall (λ x, length x ≤ d)%nat adjacency →
  ∃ slots degrees, try_fold (fill_node adjacency d start) (replicate (n * d) 0, replicate n 0) (seq 0 k) = Ok (slots, degrees) ∧
    length slots = (n * d)%nat ∧ length degrees = n ∧
    ∀ j x, (j < k)%nat → adjacency !! (start + j)%nat = Some x → shard_node (Shard start n slots degrees) d j x.
Proof.
  intros Hk Hd Hn Hall. induction k as [|k IH].
  { exists (replicate (n * d) 0), (replicate n 0). split_and!; [done|apply length_replicate..|lia]. }
  destruct IH as (sl & dg & E & Hsl & Hdg & Hspec); [lia|]. rewrite seq_S, try_fold_app, E. cbn [mbind io_result_bind try_fold Nat.add].
  destruct (lookup_lt_is_Some_2 adjacency (start + k)) as [x Hx]; [lia|].
  pose proof (Forall_lookup_1 _ _ _ _ Hall Hx) as Hxd. cbn beta in Hxd.
  destruct (write_block d k (Shard start n sl dg) x (<[k := zlen x]> dg) x) as [Ho Hnode];
    cbn [slots degrees start_node shard_node_count]; [done|nia| | |done| |].
  { intros. by rewrite list_lookup_insert_ne. } { rewrite list_lookup_insert_eq by lia. done. } { intros. by rewrite decide_True. }
  cbn [slots degrees start_node shard_node_count] in Ho, Hnode.
  exists (splice (k * d) x sl), (<[k := zlen x]> dg). split_and!.
  - unfold fill_node. rewrite Hx. cbn [expect mbind io_result_bind fst snd]. rewrite (proj2 (Nat.leb_le _ _) Hxd).
    rewrite copy_into_ok by nia. cbn [mbind io_result_bind]. rewrite (proj2 (try_from_Some 16 _ (zlen x))) by (split; [done|unfold zlen; lia]).
    cbn [expect mbind io_result_bind]. by rewrite store_at_ok by lia.
  - rewrite length_splice; [done|nia].
  - by rewrite length_insert.
  - intros j y Hj Hy. destruct (decide (j = k)) as [->|Hne]; [rewrite Hx in Hy; by injection Hy as <-|].
    eapply only_node_other; [exact Ho|done|]. apply Hspec; [lia|done].
Qed.

Lemma from_nested_ok adjacency d :
  Z.of_nat d < 2 ^ 16 → Forall (λ x, length x ≤ d)%nat adjacency →
  ∃ adj, from_nested adjacency d = Ok adj ∧ rep adj adjacency ∧ max_degree adj = d.
Proof.
  intros Hd Hall.
  assert (∀ start, (start ≤ length adjacency)%nat → ∃ sh, nested_shard adjacency d start = Ok sh ∧ start_node sh = start ∧
    ∀ j x, (j < shard_size (length adjacency) start)%nat → adjacency !! (start + j)%nat = Some x → shard_node sh d j x) as Hshard.
  { intros start Hs. destruct (fill_nodes adjacency d start (shard_size (length adjacency) start) (shard_size (length adjacency) start))
      as (sl & dg & E & _ & _ & Hspec); [done|done|unfold shard_size; lia|done|].
    unfold nested_shard. rewrite E. cbn [mbind io_result_bind]. by eexists. }
  assert (∃ shs, try_map (nested_shard adjacency d) (shard_starts (length adjacency)) = Ok shs) as [shs Hshs].
  { assert (∀ s, s ∈ shard_starts (length adjacency) → (s ≤ length adjacency)%nat) as Hin.
    { intros s (k & -> & Hk%elem_of_seq)%list_elem_of_fmap.
      pose proof (div_ceil_spec (Z.of_nat (length adjacency)) (Z.of_nat N) ltac:(done)). nia. }
    induction (shard_starts (length adjacency)) as [|s l IH]; [by eexists|]. cbn [try_map].
    destruct (Hshard s) as (sh & -> & _); [apply Hin; set_solver|]. destruct IH as [shs ->]; [intros; apply Hin; set_solver|]. by eexists. }
  unfold from_nested. rewrite Hshs. cbn [mbind io_result_bind]. eexists. split_and!; [done| |done].
  split; cbn [node_count max_degree]; [done|done|]. intros i x Hx.
  pose proof (lookup_lt_Some _ _ _ Hx) as Hi. apply try_map_Ok in Hshs.
  destruct (Forall2_lookup_l _ _ _ _ _ Hshs (shard_starts_lookup _ _ Hi)) as (sh & Hsh & E).
  pose proof (shard_index_le i). destruct (Hshard (shard_index i * N)%nat) as (sh' & E' & Est & Hspec); [lia|]. rewrite E in E'. injection E' as <-.
  exists sh. split_and!; [done|done|]. apply Hspec; [by apply local_size|]. rewrite <- Hx. f_equal. lia.
Qed.

Lemma adj_empty_ok n d : Z.of_nat d < 2 ^ 16 → rep (adj_empty n d) (replicate n []).
Proof.
  intros Hd. split; cbn [node_count max_degree adj_empty]; [by rewrite length_replicate|done|]. intros i x [-> Hi]%lookup_replicate.
  exists (empty_shard d n (shard_index i * N)). pose proof (local_size i n Hi) as Hloc. set (sz := shard_size n (shard_index i * N)) in *.
  split_and!; [unfold adj_empty; cbn [shards]; by rewrite list_lookup_fmap, (shard_starts_lookup n i Hi)|done|].
  change (max_degree (adj_empty n d)) with d. unfold shard_node, empty_shard. cbn [slots degrees]. fold sz. cbn [length].
  rewrite lookup_replicate_2 by done. split_and!; [done|lia|rewrite length_replicate; nia|lia].
Qed.

Lemma adj_iter_ok adj l : rep adj l → adj_iter adj = Ok l.
Proof.
  intros Hr. unfold adj_iter. apply try_map_Ok, Forall2_same_length_lookup. rewrite length_seq, (rep_count adj l Hr). split; [done|].
  intros i n x (-> & _)%lookup_seq Hx. cbn. by apply adj_neighbors_ok with l.
Qed.

(** ** The in-place permutation *)

(** A buffer of [d] slots whose first entries are [y]. *)
Definition buffers (d : nat) (b y : list Z) : Prop := length b = d ∧ (length y ≤ d)%nat ∧ take (length y) b = y.

Lemma swap_node_ok adj l i x b y :
  rep adj l → l !! i = Some x → buffers (max_degree adj) b y →
  ∃ adj' b', swap_node_with_buffer adj i b (zlen y) = Ok (adj', b', zlen x) ∧ rep adj' (<[i := y]> l) ∧
    buffers (max_degree adj') b' x ∧ max_degree adj' = max_degree adj ∧ node_count adj' = node_count adj.
Proof.
  intros Hr Hx (Hb & Hyd & Hby). destruct (rep_node adj l i x Hr Hx) as (sh & Hsh & Eloc & Hnode & Hup).
  pose proof Hnode as (Hd & Hxd & Hl & Hs). set (k := (i - shard_index i * N)%nat) in *.
  assert (k < length (degrees sh))%nat as Hkl by (by eapply lookup_lt_Some).
  destruct (write_block (max_degree adj) k sh b (<[k := zlen y]> (degrees sh)) y) as [Ho Hn]; [lia|done| | |done| |].
  { intros. by rewrite list_lookup_insert_ne. } { by rewrite list_lookup_insert_eq. }
  { intros j Hj. rewrite decide_True by lia. rewrite <- Hby. by rewrite lookup_take_lt. }
  unfold swap_node_with_buffer, with_shard. rewrite Hsh. cbn [expect mbind io_result_bind]. unfold shard_swap_node_with_buffer.
  rewrite Eloc. cbn [mbind io_result_bind]. rewrite (proj2 (get_slice_Some _ _ _ _)) by (split; [lia|reflexivity]).
  cbn [expect mbind io_result_bind]. rewrite Hd. cbn [expect mbind io_result_bind]. rewrite Hb, Nat.min_id, take_ge by lia.
  eexists _, _. split_and!; [reflexivity|by apply Hup| |done|done]. cbn [set_shard max_degree].
  assert (length (slice (k * max_degree adj) (max_degree adj) (slots sh)) = max_degree adj) as Hlen by (apply length_slice; lia).
  rewrite (take_ge (slice _ _ _)) by lia. rewrite drop_ge by lia. rewrite app_nil_r. split_and!; [done|done|].
  apply list_eq. intros j. destruct (decide (j < length x)%nat) as [Hj|Hj].
  - rewrite lookup_take_lt, slice_lookup by lia. auto.
  - rewrite !lookup_ge_None_2; [done|lia|rewrite length_take; lia].
Qed.

Lemma node_slots_ok adj l i x : rep adj l → l !! i = Some x → ∃ b, node_slots adj i = Ok b ∧ buffers (max_degree adj) b x.
Proof.
  intros Hr Hx. destruct (rep_node adj l i x Hr Hx) as (sh & Hsh & Eloc & (Hd & Hxd & Hl & Hs) & _).
  unfold node_slots, with_shard. rewrite Hsh. cbn [expect mbind io_result_bind]. rewrite Eloc. cbn [mbind io_result_bind].
  rewrite (proj2 (get_slice_Some _ _ _ _)) by (split; [lia|reflexivity]). cbn [expect]. eexists. split; [done|].
  split_and!; [apply length_slice; lia|done|]. apply list_eq. intros j. destruct (decide (j < length x)%nat) as [Hj|Hj].
  - rewrite lookup_take_lt, slice_lookup by lia. auto.
  - rewrite !lookup_ge_None_2; [done|lia|rewrite length_take; lia].
Qed.

Lemma node_degree_ok adj l i x : rep adj l → l !! i = Some x → node_degree adj i = Ok (zlen x).
Proof.
  intros Hr Hx. destruct (rep_node adj l i x Hr Hx) as (sh & Hsh & Eloc & (Hd & _) & _).
  unfold node_degree, with_shard. rewrite Hsh. cbn [expect mbind io_result_bind]. rewrite Eloc. cbn [mbind io_result_bind]. by rewrite Hd.
Qed.

Definition is_permutation (o : list Z) : Prop := o ≡ₚ (Z.of_nat <$> seq 0 (length o)).

Section Permute.
Context (o : list Z) (l0 : list (list Z)) (Hperm : is_permutation o) (Hlen : length o = length l0).

(** Node [i] moves to place [j]. *)
Definition moves (i j : nat) : Prop := o !! i = Some (Z.of_nat j).

Lemma moves_total i : (i < length l0)%nat → ∃ j, moves i j ∧ (j < length l0)%nat.
Proof.
  intros Hi. destruct (lookup_lt_is_Some_2 o i) as [v Hv]; [lia|].
  assert (v ∈ Z.of_nat <$> seq 0 (length o)) as (j & -> & Hj%elem_of_seq)%list_elem_of_fmap.
  { unfold is_permutation in Hperm. rewrite <- Hperm. by apply list_elem_of_lookup_2 with i. }
  exists j. split; [done|lia].
Qed.

Lemma moves_inj i i' j : moves i j → moves i' j → i = i'.
Proof.
  assert (NoDup o) as Hnd.
  { unfold is_permutation in Hperm. rewrite Hperm. apply NoDup_fmap_2; [intros ?? E; lia|apply NoDup_seq]. }
  intros H1 H2. by eapply NoDup_lookup.
Qed.

Lemma moves_onto j : (j < length l0)%nat → ∃ i, moves i j.
Proof.
  intros Hj. assert (Z.of_nat j ∈ o) as Hin.
  { unfold is_permutation in Hperm. rewrite Hperm. apply list_elem_of_fmap. exists j. split; [done|]. apply elem_of_seq. lia. }
  by apply list_elem_of_lookup_1 in Hin.
Qed.

Notation vis v i := (v !! i = Some true).

(** Visited nodes are at their places, the others where they were. *)
Record placed (v : list bool) (l : list (list Z)) : Prop := {
  pl_marks : length v = length l0;
  pl_len : length l = length l0;
  pl_moved : ∀ i j, vis v i → moves i j → l !! j = l0 !! i;
  pl_kept : ∀ j, (∀ i, moves i j → ¬ vis v i) → l !! j = l0 !! j;
}.

Definition closed (v : list bool) : Prop := ∀ i j, moves i j → vis v i ↔ vis v j.

Lemma place_next v l c dest x :
  placed v l → (c < length l0)%nat → moves c dest → v !! c = Some false → l0 !! c = Some x →
  placed (<[c := true]> v) (<[dest := x]> l) ∧ l !! dest = l0 !! dest.
Proof.
  intros [Hm Hl Hmv Hk] Hc Hdest Hv Hx.
  assert (dest < length l0)%nat as Hd by (destruct (moves_total c Hc) as (j & Hj & ?); unfold moves in *; simplify_eq; lia).
  split; [split|].
  - by rewrite length_insert.
  - by rewrite length_insert.
  - intros i j Hi Hij. apply mark_lookup in Hi as [->|Hi]; [| |lia].
    + assert (j = dest) as -> by (unfold moves in *; simplify_eq; lia). by rewrite list_lookup_insert_eq by lia.
    + rewrite list_lookup_insert_ne; [by apply Hmv|]. intros <-. rewrite (moves_inj i c dest Hij Hdest) in Hi. congruence.
  - intros j Hj. rewrite list_lookup_insert_ne.
    + apply Hk. intros i Hij Hi. apply (Hj i Hij). apply mark_lookup; [lia|]. by right.
    + intros <-. apply (Hj c Hdest). apply mark_lookup; [lia|]. by left.
  - apply Hk. intros i Hij Hi. rewrite (moves_inj i c dest Hij Hdest) in Hi. congruence.
Qed.

(** On the way round a cycle from [s], at [c]. *)
Record on_cycle (v : list bool) (s c : nat) : Prop := {
  oc_start : ∀ i, moves i s → ¬ vis v i;
  oc_fwd : ∀ i j, vis v i → moves i j → vis v j ∨ j = c;
  oc_back : ∀ i j, vis v j → moves i j → j ≠ s → vis v i;
  oc_entered : c ≠ s → vis v s ∧ ∃ i, moves i c ∧ vis v i;
}.

Lemma on_cycle_next v s c dest :
  length v = length l0 → (c < length l0)%nat → on_cycle v s c → v !! c = Some false → moves c dest → dest ≠ s →
  v !! dest ≠ Some true ∧ dest ≠ c ∧ on_cycle (<[c := true]> v) s dest.
Proof.
  intros Hm Hc [Hs Hf Hb He] Hv Hd Hne.
  assert (dest ≠ c) as Hdc.
  { intros ->. destruct (He Hne) as (_ & i & Hi & Hvi). rewrite (moves_inj i c c Hi Hd) in Hvi. congruence. }
  split_and!; [|done|split].
  - intros Hvd. pose proof (Hb c dest Hvd Hd Hne). congruence.
  - intros i Hi Hvi. apply mark_lookup in Hvi as [->|Hvi]; [| |lia]; [unfold moves in *; simplify_eq; lia|by eapply Hs].
  - intros i j Hvi Hij. apply mark_lookup in Hvi as [->|Hvi]; [| |lia].
    + right. unfold moves in *. simplify_eq. lia.
    + left. apply mark_lookup; [lia|]. destruct (Hf i j Hvi Hij) as [?| ->]; [by right|by left].
  - intros i j Hvj Hij Hjs. apply mark_lookup; [lia|]. right. apply mark_lookup in Hvj as [->|Hvj]; [| |lia].
    + destruct (He Hjs) as (_ & i' & Hi' & Hvi'). by rewrite (moves_inj i i' c Hij Hi').
    + by apply Hb with j.
  - intros _. split.
    + apply mark_lookup; [lia|]. destruct (decide (c = s)) as [->|Hcs]; [by left|right; by apply He].
    + exists c. split; [done|]. apply mark_lookup; [lia|]. by left.
Qed.

Lemma cycle_closed v s c :
  length v = length l0 → (c < length l0)%nat → on_cycle v s c → v !! c = Some false → moves c s → closed (<[c := true]> v).
Proof.
  intros Hm Hc [Hs Hf Hb He] Hv Hd i j Hij. split.
  - intros Hvi. apply mark_lookup; [lia|]. apply mark_lookup in Hvi as [->|Hvi]; [| |lia].
    + assert (j = s) as -> by (unfold moves in *; simplify_eq; lia).
      destruct (decide (c = s)) as [->|Hcs]; [by left|right; by apply He].
    + destruct (Hf i j Hvi Hij) as [?| ->]; [by right|by left].
  - intros Hvj. apply mark_lookup; [lia|]. destruct (decide (j = s)) as [->|Hjs].
    + left. by eapply moves_inj.
    + right. apply mark_lookup in Hvj as [->|Hvj]; [| |lia].
      * destruct (He Hjs) as (_ & i' & Hi' & Hvi'). by rewrite (moves_inj i i' c Hij Hi').
      * by apply Hb with j.
Qed.

Lemma cycle_loop_ok fuel : ∀ adj l v s c b x,
  (unmarked v ≤ fuel)%nat → rep adj l → placed v l → on_cycle v s c → (c < length l0)%nat → v !! c = Some false →
  l0 !! c = Some x → buffers (max_degree adj) b x →
  ∃ adj' l' v' b', cycle_loop fuel o s c adj v b (zlen x) = Ok (adj', v', b') ∧ rep adj' l' ∧ placed v' l' ∧ closed v' ∧
    (∀ i, vis v i → vis v' i) ∧ vis v' c ∧ max_degree adj' = max_degree adj.
Proof.
  induction fuel as [|fuel IH]; intros adj l v s c b x Hf Hr Hp Hoc Hc Hv Hx Hb.
  { rewrite (unmarked_insert v c Hv) in Hf. lia. }
  destruct (moves_total c Hc) as (dest & Hd & Hdl). destruct (place_next v l c dest x Hp Hc Hd Hv Hx) as [Hp' Edest].
  destruct (lookup_lt_is_Some_2 l0 dest Hdl) as [y Hy].
  pose proof (pl_marks v l Hp) as Hm. cbn [cycle_loop].
  rewrite Hd. cbn [expect fmap io_result_fmap mbind io_result_bind]. rewrite Nat2Z.id.
  rewrite (rep_count adj l Hr), (pl_len v l Hp), (proj2 (Nat.ltb_lt _ _) Hdl).
  destruct (swap_node_ok adj l dest y b x) as (adj' & b' & -> & Hr' & Hb' & Ed & _); [done|by rewrite Edest|done|].
  cbn [mbind io_result_bind].
  assert (∀ i, vis v i → vis (<[c := true]> v) i) as Hmono by (intros i Hi; apply mark_lookup; [lia|by right]).
  assert (vis (<[c := true]> v) c) as Hvc by (apply mark_lookup; [lia|by left]).
  destruct (dest =? s)%nat eqn:Es.
  - apply Nat.eqb_eq in Es as ->. exists adj', (<[s := x]> l), (<[c := true]> v), b'. split_and!; [done..| |done|done|done].
    by apply (cycle_closed v s c).
  - apply Nat.eqb_neq in Es. destruct (on_cycle_next v s c dest Hm Hc Hoc Hv Hd Es) as (Hnv & Hdc & Hoc').
    destruct (lookup_lt_is_Some_2 v dest) as [[] Hvd]; [lia|done|].
    rewrite list_lookup_insert_ne, Hvd by done. cbn [expect mbind io_result_bind negb].
    rewrite (unmarked_insert v c Hv) in Hf.
    destruct (IH adj' (<[dest := x]> l) (<[c := true]> v) s dest b' y) as (adj2 & l2 & v2 & b2 & -> & Hr2 & Hp2 & Hcl & Hmono2 & _ & Ed2);
      [lia|done|done|done|done|by rewrite list_lookup_insert_ne|done|by rewrite Ed in *|].
    exists adj2, l2, v2, b2. split_and!; [done..| | |congruence]; auto.
Qed.

Lemma permute_loop_ok starts : ∀ adj l v b,
  (∀ s, s ∈ starts → s < length l0)%nat → rep adj l → placed v l → closed v →
  ∃ adj' l' v' b', try_fold (permute_from o) (adj, v, b) starts = Ok (adj', v', b') ∧ rep adj' l' ∧ placed v' l' ∧ closed v' ∧
    (∀ i, vis v i ∨ i ∈ starts → vis v' i) ∧ max_degree adj' = max_degree adj.
Proof.
  induction starts as [|s starts IH]; intros adj l v b Hs Hr Hp Hcl; cbn [try_fold].
  { exists adj, l, v, b. split_and!; try done. intros i [?|?]; [done|set_solver]. }
  assert (s < length l0)%nat as Hsl by (apply Hs; set_solver). pose proof (pl_marks v l Hp) as Hm.
  assert (∃ adj' l' v' b', permute_from o (adj, v, b) s = Ok (adj', v', b') ∧ rep adj' l' ∧ placed v' l' ∧ closed v' ∧
    (∀ i, vis v i → vis v' i) ∧ vis v' s ∧ max_degree adj' = max_degree adj) as (adj1 & l1 & v1 & b1 & -> & Hr1 & Hp1 & Hcl1 & Hmono & Hvs & Ed1).
  { unfold permute_from. destruct (lookup_lt_is_Some_2 v s) as [[] Hvs]; [lia| |]; rewrite Hvs; cbn [expect mbind io_result_bind].
    { exists adj, l, v, b. by split_and!. }
    assert (∀ i, moves i s → ¬ vis v i) as Hno by (intros i Hi Hvi; apply (Hcl i s Hi) in Hvi; congruence).
    destruct (lookup_lt_is_Some_2 l0 s Hsl) as [x Hx].
    assert (l !! s = Some x) as Hxl by (rewrite (pl_kept v l Hp s Hno); done).
    destruct (node_slots_ok adj l s x Hr Hxl) as (b' & -> & Hb). cbn [mbind io_result_bind].
    rewrite (node_degree_ok adj l s x Hr Hxl). cbn [mbind io_result_bind]. eapply cycle_loop_ok; try done.
    - rewrite (rep_count adj l Hr), (pl_len v l Hp), <- Hm. apply unmarked_le.
    - split; [done| | |done].
      + intros i j Hi Hij. left. by apply (Hcl i j).
      + intros i j Hj Hij _. by apply (Hcl i j). }
  cbn [mbind io_result_bind]. destruct (IH adj1 l1 v1 b1) as (adj2 & l2 & v2 & b2 & -> & Hr2 & Hp2 & Hcl2 & Hall & Ed2); [|done..|].
  { intros s' Hs'. apply Hs. set_solver. }
  exists adj2, l2, v2, b2. split_and!; try done; [|congruence]. intros i [Hi|Hi]; [auto|]. apply elem_of_cons in Hi as [->|Hi]; auto.
Qed.

Lemma map_neighbors_ok adj l i x :
  rep adj l → l !! i = Some x → (∀ v, v ∈ x → 0 <= v < zlen o) →
  ∃ adj' y, map_neighbors o adj i = Ok adj' ∧ rep adj' (<[i := merge_sort Z.le y]> l) ∧ max_degree adj' = max_degree adj ∧
    Forall2 (λ v w, o !! Z.to_nat v = Some w) x y.
Proof.
  intros Hr Hx Hin. destruct (rep_node adj l i x Hr Hx) as (sh & Hsh & Eloc & Hnode & Hup).
  pose proof Hnode as (Hd & Hxd & Hl & Hs). set (k := (i - shard_index i * N)%nat) in *.
  assert (∃ y, try_map (λ neighbor, expect (o !! Z.to_nat neighbor)) x = Ok y) as [y Ey].
  { clear -Hin. induction x as [|v x IH]; [by eexists|]. cbn [try_map].
    destruct (lookup_lt_is_Some_2 o (Z.to_nat v)) as [w ->]; [specialize (Hin v ltac:(set_solver)); unfold zlen in Hin; lia|].
    cbn [expect mbind io_result_bind]. destruct IH as [y ->]; [intros; apply Hin; set_solver|]. by eexists. }
  pose proof Ey as Hy. apply try_map_Ok in Hy. assert (length (merge_sort Z.le y) = length x) as Elen.
  { rewrite (merge_sort_Permutation _ y). symmetry. by eapply Forall2_length. }
  destruct (write_block (max_degree adj) k sh (merge_sort Z.le y) (degrees sh) (merge_sort Z.le y)) as [Ho Hn]; [lia|done|done| |lia| |].
  { unfold zlen. by rewrite Elen. } { intros j Hj. by rewrite decide_True. }
  unfold map_neighbors, with_shard. rewrite Hsh. cbn [expect mbind io_result_bind]. unfold shard_map_neighbors, shard_neighbors.
  rewrite Eloc. cbn [mbind io_result_bind]. rewrite Hd. cbn [expect mbind io_result_bind]. rewrite to_nat_zlen, (shard_neighbors_at _ _ _ _ Hnode).
  cbn [expect mbind io_result_bind]. rewrite Ey. cbn [mbind io_result_bind]. rewrite copy_into_ok by lia. cbn [mbind io_result_bind].
  eexists _, y. split_and!; [reflexivity|by apply Hup|done|].
  eapply Forall2_impl; [exact Hy|]. cbn. by intros v w ->%expect_Ok.
Qed.

Lemma map_loop_ok nodes : ∀ adj l,
  rep adj l → (∀ s, s ∈ nodes → s < length l)%nat → NoDup nodes → Forall (Forall (λ v, 0 <= v < zlen o)) l →
  ∃ adj' l', try_fold (map_neighbors o) adj nodes = Ok adj' ∧ rep adj' l' ∧ max_degree adj' = max_degree adj ∧ length l' = length l ∧
    (∀ i, i ∉ nodes → l' !! i = l !! i) ∧
    ∀ i x, i ∈ nodes → l !! i = Some x → ∃ y, Forall2 (λ v w, o !! Z.to_nat v = Some w) x y ∧ l' !! i = Some (merge_sort Z.le y).
Proof.
  induction nodes as [|n nodes IH]; intros adj l Hr Hn Hnd Hall; cbn [try_fold].
  { exists adj, l. split_and!; try done. set_solver. }
  apply NoDup_cons in Hnd as [Hnew Hnd]. destruct (lookup_lt_is_Some_2 l n) as [x Hx]; [apply Hn; set_solver|].
  pose proof (Forall_lookup_1 _ _ _ _ Hall Hx) as Hxr. rewrite Forall_forall in Hxr.
  destruct (map_neighbors_ok adj l n x Hr Hx Hxr) as (adj1 & y & -> & Hr1 & Ed1 & Hy). cbn [mbind io_result_bind].
  assert (Forall (λ v, 0 <= v < zlen o) (merge_sort Z.le y)) as Hyr.
  { rewrite (merge_sort_Permutation _ y). apply Forall_forall. intros w Hw. apply list_elem_of_lookup_1 in Hw as [j Hj].
    destruct (Forall2_lookup_r _ _ _ _ _ Hy Hj) as (v & _ & Hv). cbn in Hv.
    assert (w ∈ Z.of_nat <$> seq 0 (length o)) as (m & -> & Hm%elem_of_seq)%list_elem_of_fmap.
    { unfold is_permutation in Hperm. rewrite <- Hperm. by apply list_elem_of_lookup_2 with (Z.to_nat v). } unfold zlen. lia. }
  destruct (IH adj1 (<[n := merge_sort Z.le y]> l)) as (adj2 & l2 & -> & Hr2 & Ed2 & El2 & Hkeep & Hmap);
    [done|intros; rewrite length_insert; apply Hn; set_solver|done|by apply Forall_insert|].
  rewrite length_insert in El2. exists adj2, l2. split_and!; [done|done|congruence|done| |].
  - intros i Hi. rewrite Hkeep by set_solver. by rewrite list_lookup_insert_ne by set_solver.
  - intros i z [->|Hi]%elem_of_cons Hz.
    + rewrite Hx in Hz. injection Hz as <-. exists y. split; [done|]. rewrite Hkeep by done. rewrite list_lookup_insert_eq; [done|by eapply lookup_lt_Some].
    + apply Hmap; [done|]. rewrite list_lookup_insert_ne; [done|]. set_solver.
Qed.

(** The whole operation: list [i] goes to place [o[i]], renamed and sorted. *)
Lemma permute_and_map_ok adj :
  rep adj l0 → Forall (Forall (λ v, 0 <= v < zlen l0)) l0 →
  ∃ adj' l', permute_and_map_neighbors adj o = Ok adj' ∧ rep adj' l' ∧ max_degree adj' = max_degree adj ∧ length l' = length l0 ∧
    ∀ i j x, moves i j → l0 !! i = Some x →
      ∃ y, Forall2 (λ v w, o !! Z.to_nat v = Some w) x y ∧ l' !! j = Some (merge_sort Z.le y).
Proof.
  intros Hr Hall. unfold permute_and_map_neighbors. rewrite (rep_count adj l0 Hr), Hlen, Nat.eqb_refl.
  destruct (permute_loop_ok (seq 0 (length l0)) adj l0 (replicate (length l0) false) (replicate (max_degree adj) 0))
    as (adj1 & l1 & v1 & b1 & -> & Hr1 & Hp1 & _ & Hvis & Ed1).
  { intros s Hs%elem_of_seq. lia. } { done. }
  { split; [apply length_replicate|done| |done]. intros i j (? & _)%lookup_replicate. done. }
  { intros i j _. split; intros (? & _)%lookup_replicate; done. }
  cbn [mbind io_result_bind]. pose proof (pl_len _ _ Hp1) as El1.
  assert (∀ i j, moves i j → (i < length l0)%nat → l1 !! j = l0 !! i) as Hmoved.
  { intros i j Hij Hi. apply (pl_moved _ _ Hp1); [|done]. apply Hvis. right. apply elem_of_seq. lia. }
  destruct (map_loop_ok (seq 0 (node_count adj1)) adj1 l1) as (adj2 & l2 & E2 & Hr2 & Ed2 & El2 & _ & Hmap).
  { done. } { rewrite (rep_count _ _ Hr1). intros s Hs%elem_of_seq. lia. } { apply NoDup_seq. }
  { apply Forall_lookup. intros j x Hx. destruct (moves_onto j) as [i Hij]; [rewrite <- El1; by eapply lookup_lt_Some|].
    assert (i < length l0)%nat as Hi by (rewrite <- Hlen; by eapply lookup_lt_Some).
    rewrite (Hmoved i j Hij Hi) in Hx. unfold zlen. rewrite Hlen. exact (Forall_lookup_1 _ _ _ _ Hall Hx). }
  exists adj2, l2. split_and!; [exact E2|done|congruence|congruence|].
  intros i j x Hij Hx. apply Hmap.
  - apply elem_of_seq. rewrite (rep_count _ _ Hr1), El1. split; [lia|]. destruct (moves_total i) as (j' & Hj' & ?); [by eapply lookup_lt_Some|].
    unfold moves in *. simplify_eq. lia.
  - rewrite <- Hx. apply Hmoved; [done|by eapply lookup_lt_Some].
Qed.

End Permute.
