(* ===== verification/VamanaGraph.v ===== *)
(** Traversals of a Vamana graph: [is_fully_reachable], [reachability_tree] and
    [validate] of [core/src/vamana.rs], [bfs_locality_permutation] and
    [remap_graph_in_place] of [core/src/diskann.rs].

    The three breadth-first loops of the code differ in what they keep (the
    marks, the parents, the order of the visits) and in whether a neighbour
    outside the graph is skipped or an index out of range; one loop with all
    of that is shared here and each function keeps its part. *)

From stdpp Require Import sorting.
From S2P Require Import Prelude DiskannUtil CompactAdjacency.

Record VamanaGraph := Graph { entry_node : Z; adjacency : CompactAdjacency }.

Record Bfs := BfsState {
  visited : list bool; parent : list (option nat); popped : list nat; pushed : list nat; queue : list nat }.

Definition bfs_visit (node neighbor : nat) (st : Bfs) : Bfs :=
  BfsState (<[neighbor := true]> (visited st)) (<[neighbor := Some node]> (parent st))
    (popped st) (pushed st ++ [neighbor]) (queue st ++ [neighbor]).

(** One neighbour; [checked] is the guard [neighbor < count]. *)
Definition bfs_scan (checked : bool) (node : nat) (st : Bfs) (neighbor : Z) : io_result Bfs :=
  match visited st !! Z.to_nat neighbor with
  | Some true => Ok st
  | Some false => Ok (bfs_visit node (Z.to_nat neighbor) st)
  | None => if checked then Ok st else Panic
  end.

(** [while let Some(node) = queue.pop_front()] *)
Fixpoint bfs_loop (fuel : nat) (checked : bool) (adj : CompactAdjacency) (st : Bfs) : io_result Bfs :=
  match fuel with
  | O => Panic
  | S fuel =>
      match queue st with
      | [] => Ok st
      | node :: rest =>
          neighbors ← adj_neighbors adj node;
          st ← try_fold (bfs_scan checked node)
                 (BfsState (visited st) (parent st) (popped st ++ [node]) (pushed st) rest) neighbors;
          bfs_loop fuel checked adj st
      end
  end.
(** From one node, with the marks and parents found so far. *)
Definition bfs_from (checked : bool) (adj : CompactAdjacency) (visited : list bool) (parent : list (option nat)) (root : nat) :
    io_result Bfs :=
  if (root <? length visited)%nat then
    bfs_loop (S (length visited)) checked adj (BfsState (<[root := true]> visited) parent [] [root] [root])
  else Panic.

Definition is_fully_reachable (g : VamanaGraph) : io_result bool :=
  let n := adj_len (adjacency g) in
  if (n =? 0)%nat || (n <=? Z.to_nat (entry_node g))%nat then Ok false
  else
    st ← bfs_from true (adjacency g) (replicate n false) (replicate n None) (Z.to_nat (entry_node g));
    Ok (forallb id (visited st)).

Definition reachability_tree (g : VamanaGraph) : io_result (list bool * list (option nat)) :=
  let n := adj_len (adjacency g) in
  st ← bfs_from false (adjacency g) (replicate n false) (replicate n None) (Z.to_nat (entry_node g));
  Ok (visited st, parent st).

(** ** Checking a graph *)

Definition has_duplicate (sorted : list Z) : bool :=
  existsb (λ '(a, b), a =? b) (zip sorted (tail sorted)).

Definition validate_neighbors (count node max_degree : nat) (neighbors : list Z) : io_result unit :=
  _ ← ensure_input (negb (max_degree <? length neighbors)%nat) "Vamana node degree exceeds maximum";
  let sorted := merge_sort Z.le neighbors in
  _ ← ensure_input (negb (has_duplicate sorted)) "Vamana node contains duplicate neighbors";
  ensure_input (negb (existsb (λ neighbor, (count <=? Z.to_nat neighbor)%nat || (Z.to_nat neighbor =? node)%nat) sorted))
    "Vamana node contains invalid neighbor".
Definition validate (g : VamanaGraph) (max_degree : nat) : io_result unit :=
  lists ← adj_iter (adjacency g);
  try_fold (λ _ '(node, neighbors), validate_neighbors (adj_len (adjacency g)) node max_degree neighbors) () (imap pair lists).

(** ** Locality order *)

(** The nodes whose mark is still clear, in order. *)
Definition unvisited_nodes (visited : list bool) : list nat :=
  omap (λ '(node, seen), if (seen : bool) then None else Some node) (imap pair visited).

Definition bfs_locality_permutation (g : VamanaGraph) : io_result LocalityPermutation :=
  let count := adj_len (adjacency g) in
  let entry := Z.to_nat (entry_node g) in
  '(visited, order) ←
    (if (entry <? count)%nat then
       st ← bfs_from true (adjacency g) (replicate count false) (replicate count None) entry;
       Ok (visited st, popped st)
     else Ok (replicate count false, []));
  let new_to_old := Z.of_nat <$> (order ++ unvisited_nodes visited) in
  old_to_new ← try_fold (λ table '(new_id, old_id), store_at (Z.to_nat old_id) (Z.of_nat new_id) table)
                 (replicate count 0) (imap pair new_to_old);
  Ok (Locality new_to_old old_to_new).

Definition remap_graph_in_place (g : VamanaGraph) (permutation : LocalityPermutation) : io_result VamanaGraph :=
  adj ← permute_and_map_neighbors (adjacency g) (old_to_new permutation);
  entry ← expect (old_to_new permutation !! Z.to_nat (entry_node g));
  Ok (Graph entry adj).

(** ** Breadth-first search *)

(** [v] is a stored neighbour of [u]. *)
Definition edge (l : list (list Z)) (u v : nat) : Prop := ∃ x, l !! u = Some x ∧ Z.of_nat v ∈ x.

Notation vis v i := (v !! i = Some true).

(** Up the parents to [r]. *)
Inductive tree_path (p : list (option nat)) (r : nat) : nat → Prop :=
  | tree_root : tree_path p r r
  | tree_step i u : p !! i = Some (Some u) → tree_path p r u → tree_path p r i.

Section Traversal.
Context (adj : CompactAdjacency) (l : list (list Z)) (Hrep : rep adj l) (checked : bool).
Context (Hnonneg : Forall (Forall (λ v, 0 <= v)) l).
Context (Hrange : checked = true ∨ Forall (Forall (λ v, v < zlen l)) l).
Context (v0 : list bool) (p0 : list (option nat)) (root : nat).
Context (Hv0 : length v0 = length l) (Hp0 : length p0 = length l) (Hroot : v0 !! root = Some false).

Record bfs_inv (st : Bfs) : Prop := {
  bi_marks : length (visited st) = length l;
  bi_parents : length (parent st) = length l;
  bi_split : pushed st = popped st ++ queue st;
  bi_nodup : NoDup (pushed st);
  bi_root : head (pushed st) = Some root;
  bi_vis : ∀ i, vis (visited st) i ↔ vis v0 i ∨ i ∈ pushed st;
  bi_fresh : ∀ i, i ∈ pushed st → v0 !! i = Some false;
  bi_parent : ∀ i, i ∈ pushed st → i ≠ root → ∃ u, parent st !! i = Some (Some u) ∧ u ∈ popped st ∧ edge l u i;
  bi_kept : ∀ i, i ∉ pushed st ∨ i = root → parent st !! i = p0 !! i;
  bi_tree : ∀ i, i ∈ pushed st → tree_path (parent st) root i;
}.

Lemma tree_path_mono p p' r i :
  (∀ j u, p !! j = Some (Some u) → p' !! j = Some (Some u)) → tree_path p r i → tree_path p' r i.
Proof. intros Hm Hp. induction Hp as [|i u Hi _ IH]; [constructor|]. by econstructor; [apply Hm|]. Qed.

Lemma bfs_visit_inv st node neighbor :
  bfs_inv st → (∀ i, i ≠ root → p0 !! i = Some None ∨ v0 !! i ≠ Some false) → node ∈ popped st → edge l node neighbor → visited st !! neighbor = Some false →
  bfs_inv (bfs_visit node neighbor st).
Proof.
  intros Hi Hclear Hpop He Hv. pose proof Hi as [Hm Hp Hs Hnd Hr Hvis Hfr Hpar Hk Ht].
  assert (neighbor < length l)%nat as Hlt by (rewrite <- Hm; by eapply lookup_lt_Some).
  assert (root ∈ pushed st) as Hrin by (by apply head_Some_elem_of).
  assert (neighbor ∉ pushed st) as Hnew.
  { intros Hin. assert (vis (visited st) neighbor) by (apply Hvis; by right). congruence. }
  assert (v0 !! neighbor = Some false) as Hv0n.
  { destruct (lookup_lt_is_Some_2 v0 neighbor) as [[] Hb]; [lia| |done].
    assert (vis (visited st) neighbor) by (apply Hvis; by left). congruence. }
  assert (∀ i, i ≠ neighbor → <[neighbor := Some node]> (parent st) !! i = parent st !! i) as Hother by (intros; by rewrite list_lookup_insert_ne).
  assert (∀ j u, parent st !! j = Some (Some u) → <[neighbor := Some node]> (parent st) !! j = Some (Some u)) as Hmono.
  { intros j u Hj. destruct (decide (j = neighbor)) as [->|]; [|by rewrite Hother].
    rewrite (Hk neighbor) in Hj by auto. destruct (Hclear neighbor) as [?|?]; [intros ->; done|congruence|congruence]. }
  assert (<[neighbor := Some node]> (parent st) !! neighbor = Some (Some node)) as Hself by (rewrite list_lookup_insert_eq; [done|lia]).
  split; cbn [bfs_visit visited parent popped pushed queue].
  - by rewrite length_insert.
  - by rewrite length_insert.
  - by rewrite Hs, app_assoc.
  - apply NoDup_app. split_and!; [done| |apply NoDup_singleton]. intros i Hin ->%list_elem_of_singleton. done.
  - by destruct (pushed st).
  - intros i. rewrite mark_lookup, Hvis by lia. set_solver.
  - intros i [Hin| ->%list_elem_of_singleton]%elem_of_app; auto.
  - intros i [Hin| ->%list_elem_of_singleton]%elem_of_app Hne; [|by exists node].
    rewrite Hother by (intros ->; done). auto.
  - intros i Hi'. assert (i ≠ neighbor) by (destruct Hi' as [Hi'| ->]; [set_solver|congruence]).
    rewrite Hother by done. apply Hk. destruct Hi'; [left; set_solver|by right].
  - intros i [Hin| ->%list_elem_of_singleton]%elem_of_app.
    + eapply tree_path_mono; [exact Hmono|auto].
    + econstructor; [exact Hself|]. eapply tree_path_mono; [exact Hmono|]. apply Ht. rewrite Hs. set_solver.
Qed.

Context (Hclear : ∀ i, i ≠ root → p0 !! i = Some None ∨ v0 !! i ≠ Some false).

Definition measure (st : Bfs) : nat := (length (queue st) + unmarked (visited st))%nat.

Lemma bfs_scans node x nbrs : ∀ st,
  l !! node = Some x → (∀ v, v ∈ nbrs → v ∈ x) → bfs_inv st → node ∈ popped st →
  ∃ st', try_fold (bfs_scan checked node) st nbrs = Ok st' ∧ bfs_inv st' ∧ popped st' = popped st ∧ measure st' = measure st ∧
    (∀ i, vis (visited st) i → vis (visited st') i) ∧
    ∀ v, v ∈ nbrs → (Z.to_nat v < length l)%nat → vis (visited st') (Z.to_nat v).
Proof.
  induction nbrs as [|v nbrs IH]; intros st Hx Hsub Hi Hpop; cbn [try_fold].
  { exists st. split_and!; try done. set_solver. }
  pose proof (Forall_lookup_1 _ _ _ _ Hnonneg Hx) as Hxn. rewrite Forall_forall in Hxn.
  assert (v ∈ x) as Hvx by (apply Hsub; set_solver). specialize (Hxn v Hvx).
  assert (edge l node (Z.to_nat v)) as He by (exists x; rewrite Z2Nat.id by done; done).
  assert (∃ st1, bfs_scan checked node st v = Ok st1 ∧ bfs_inv st1 ∧ popped st1 = popped st ∧ measure st1 = measure st ∧
    (∀ i, vis (visited st) i → vis (visited st1) i) ∧ ((Z.to_nat v < length l)%nat → vis (visited st1) (Z.to_nat v)))
    as (st1 & -> & Hi1 & Ep1 & Em1 & Hmono1 & Hv1).
  { unfold bfs_scan. destruct (visited st !! Z.to_nat v) as [[]|] eqn:Ev.
    - exists st. by split_and!.
    - exists (bfs_visit node (Z.to_nat v) st). pose proof (lookup_lt_Some _ _ _ Ev). split_and!; [done|by apply bfs_visit_inv|done| | |].
      + unfold measure. cbn [bfs_visit queue visited]. rewrite length_app, (unmarked_insert _ _ Ev). cbn [length]. lia.
      + intros i Hvi. cbn. apply mark_lookup; auto.
      + intros _. cbn. apply mark_lookup; auto.
    - apply lookup_ge_None in Ev. rewrite (bi_marks st Hi) in Ev. destruct Hrange as [->|Hr].
      + exists st. split_and!; try done. lia.
      + exfalso. pose proof (Forall_lookup_1 _ _ _ _ Hr Hx) as Hxr. rewrite Forall_forall in Hxr. specialize (Hxr v Hvx). unfold zlen in Hxr. lia. }
  cbn [mbind io_result_bind]. destruct (IH st1) as (st2 & -> & Hi2 & Ep2 & Em2 & Hmono2 & Hv2); [done|set_solver|done|by rewrite Ep1|].
  exists st2. split_and!; [done|done|congruence|congruence|auto|].
  intros w [->|Hw]%elem_of_cons Hlt; auto.
Qed.

Lemma bfs_loop_ok fuel : ∀ st,
  (measure st < fuel)%nat → bfs_inv st → (∀ u v, u ∈ popped st → edge l u v → (v < length l)%nat → vis (visited st) v) →
  ∃ st', bfs_loop fuel checked adj st = Ok st' ∧ bfs_inv st' ∧ popped st' = pushed st' ∧
    ∀ u v, u ∈ pushed st' → edge l u v → (v < length l)%nat → vis (visited st') v.
Proof.
  induction fuel as [|fuel IH]; intros st Hf Hi Hcl; [lia|]. cbn [bfs_loop]. destruct (queue st) as [|node rest] eqn:Eq.
  { exists st. assert (pushed st = popped st) as E by (rewrite (bi_split st Hi), Eq; apply app_nil_r).
    split_and!; [done|done|done|]. rewrite E. done. }
  assert (node ∈ pushed st) as Hin by (rewrite (bi_split st Hi), Eq; set_solver).
  assert (node < length l)%nat as Hlt by (rewrite <- Hv0; eapply lookup_lt_Some; by apply (bi_fresh st Hi)).
  destruct (lookup_lt_is_Some_2 l node Hlt) as [x Hx]. rewrite (adj_neighbors_ok adj l node x Hrep Hx). cbn [mbind io_result_bind].
  set (st0 := BfsState _ _ _ _ _). assert (bfs_inv st0) as Hi0.
  { destruct Hi as [Hm Hp Hs Hnd Hr Hvis Hfr Hpar Hk Ht]. split; cbn [st0 visited parent popped pushed queue]; try done.
    - rewrite Hs, Eq. by rewrite <- app_assoc.
    - intros i Hi Hne. destruct (Hpar i Hi Hne) as (u & ? & ? & ?). exists u. set_solver. }
  destruct (bfs_scans node x x st0) as (st1 & -> & Hi1 & Ep1 & Em1 & Hmono1 & Hv1); [done|done|done|cbn; set_solver|].
  cbn [mbind io_result_bind]. destruct (IH st1) as (st2 & E2 & Hi2 & Epp & Hcl2).
  - rewrite Em1. unfold measure in *. cbn [st0 queue visited]. rewrite Eq in Hf. cbn [length] in Hf. lia.
  - done.
  - intros u v Hu He Hvl. rewrite Ep1 in Hu. cbn in Hu. apply elem_of_app in Hu as [Hu| ->%list_elem_of_singleton].
    + apply Hmono1. cbn. by apply (Hcl u).
    + destruct He as (x' & Hx' & Hv). rewrite Hx in Hx'. injection Hx' as <-. rewrite <- (Nat2Z.id v). apply Hv1; [done|lia].
  - exists st2. by split_and!.
Qed.

Lemma bfs_from_ok :
  ∃ st, bfs_from checked adj v0 p0 root = Ok st ∧ bfs_inv st ∧ popped st = pushed st ∧
    ∀ u v, u ∈ pushed st → edge l u v → (v < length l)%nat → vis (visited st) v.
Proof.
  pose proof (lookup_lt_Some _ _ _ Hroot) as Hlt. unfold bfs_from. rewrite (proj2 (Nat.ltb_lt _ _) Hlt). apply bfs_loop_ok.
  - unfold measure. cbn [queue visited length]. pose proof (unmarked_insert _ _ Hroot). pose proof (unmarked_le v0). lia.
  - split; cbn [visited parent popped pushed queue]; try done.
    + by rewrite length_insert.
    + apply NoDup_singleton.
    + intros i. rewrite mark_lookup by done. set_solver.
    + by intros i ->%list_elem_of_singleton.
    + by intros i ->%list_elem_of_singleton.
    + intros i ->%list_elem_of_singleton. constructor.
  - cbn. set_solver.
Qed.

End Traversal.

(** ** From a cleared table of marks *)

Section Fresh.
Context (adj : CompactAdjacency) (l : list (list Z)) (Hrep : rep adj l) (checked : bool).
Context (Hnonneg : Forall (Forall (λ v, 0 <= v)) l).
Context (Hrange : checked = true ∨ Forall (Forall (λ v, v < zlen l)) l).

Lemma bfs_fresh root :
  (root < length l)%nat →
  ∃ st, bfs_from checked adj (replicate (length l) false) (replicate (length l) None) root = Ok st ∧
    bfs_inv l (replicate (length l) false) (replicate (length l) None) root st ∧ popped st = pushed st ∧
    (∀ v, vis (visited st) v ↔ v ∈ pushed st) ∧
    ∀ v, v ∈ pushed st ↔ (v < length l)%nat ∧ rtc (λ u w, edge l u w ∧ (w < length l)%nat) root v.
Proof.
  intros Hr. destruct (bfs_from_ok adj l Hrep checked Hnonneg Hrange (replicate (length l) false) (replicate (length l) None) root)
    as (st & E & Hi & Epp & Hcl); [apply length_replicate..|by apply lookup_replicate_2| |].
  { intros i _. destruct (decide (i < length l)%nat); [left; by apply lookup_replicate_2|].
    right. rewrite lookup_ge_None_2; [done|rewrite length_replicate; lia]. }
  assert (∀ v, vis (visited st) v ↔ v ∈ pushed st) as Hvis.
  { intros v. rewrite (bi_vis _ _ _ _ _ Hi v). split; [|by right]. intros [(? & _)%lookup_replicate|]; [done|done]. }
  exists st. split_and!; try done. intros v. split.
  - intros Hv. pose proof (lookup_lt_Some _ _ _ (bi_fresh _ _ _ _ _ Hi v Hv)) as Hlt. rewrite length_replicate in Hlt. split; [done|].
    pose proof (bi_tree _ _ _ _ _ Hi v Hv) as Ht. clear Hlt. revert Hv. induction Ht as [|i u Hiu _ IH]; intros Hv; [done|].
    pose proof (lookup_lt_Some _ _ _ (bi_fresh _ _ _ _ _ Hi i Hv)) as Hlt. rewrite length_replicate in Hlt.
    destruct (decide (i = root)) as [->|Hne]; [done|].
    destruct (bi_parent _ _ _ _ _ Hi i Hv Hne) as (u' & Hu' & Hpop & He). rewrite Hiu in Hu'. injection Hu' as <-.
    eapply rtc_r; [apply IH|done]. by rewrite <- Epp.
  - intros [_ Hrt]. assert (root ∈ pushed st) as Hroot by apply head_Some_elem_of, (bi_root _ _ _ _ _ Hi).
    assert (∀ u w, u ∈ pushed st → edge l u w ∧ (w < length l)%nat → w ∈ pushed st) as Hstep
      by (intros u w Hu [He Hw]; apply Hvis; by apply (Hcl u)).
    clear -Hrt Hroot Hstep. induction Hrt; eauto.
Qed.

End Fresh.

(** Every node can be reached from the entry. *)
Definition all_reachable (l : list (list Z)) (entry : nat) : Prop :=
  ∀ v, (v < length l)%nat → rtc (λ u w, edge l u w ∧ (w < length l)%nat) entry v.

Lemma is_fully_reachable_ok g l :
  rep (adjacency g) l → Forall (Forall (λ v, 0 <= v)) l →
  ∃ b, is_fully_reachable g = Ok b ∧ (b = true ↔ (Z.to_nat (entry_node g) < length l)%nat ∧ all_reachable l (Z.to_nat (entry_node g))).
Proof.
  intros Hr Hn. unfold is_fully_reachable, adj_len. rewrite (rep_count _ _ Hr).
  destruct ((length l =? 0)%nat || (length l <=? Z.to_nat (entry_node g))%nat) eqn:Eg.
  { exists false. split; [done|]. split; [done|]. intros [Hlt _]. apply orb_true_iff in Eg as [E%Nat.eqb_eq|E%Nat.leb_le]; lia. }
  apply orb_false_iff in Eg as [_ Hlt%Nat.leb_gt].
  destruct (bfs_fresh (adjacency g) l Hr true Hn (or_introl eq_refl) (Z.to_nat (entry_node g)) Hlt) as (st & -> & Hi & _ & Hvis & Hreach).
  cbn [mbind io_result_bind]. eexists. split; [done|]. rewrite forallb_forall. split.
  - intros Hall. split; [done|]. intros v Hv. apply Hreach, Hvis.
    destruct (lookup_lt_is_Some_2 (visited st) v) as [b Hb]; [by rewrite (bi_marks _ _ _ _ _ Hi)|].
    assert (In b (visited st)) as Hin by (apply list_elem_of_In; by eapply list_elem_of_lookup_2).
    specialize (Hall b Hin). cbn in Hall. by subst.
  - intros [_ Hall] b Hb%list_elem_of_In. apply list_elem_of_lookup_1 in Hb as [v Hv].
    pose proof (lookup_lt_Some _ _ _ Hv) as Hvl. rewrite (bi_marks _ _ _ _ _ Hi) in Hvl.
    assert (vis (visited st) v) as Hv' by (apply Hvis, Hreach; auto). rewrite Hv in Hv'. by injection Hv' as ->.
Qed.

(** ** Valid graphs *)

(** Bounded degrees, distinct neighbours inside the graph, no self loops. *)
Definition valid_neighbors (count node d : nat) (x : list Z) : Prop :=
  (length x ≤ d)%nat ∧ NoDup x ∧ Forall (λ v, 0 <= v < Z.of_nat count ∧ v ≠ Z.of_nat node) x.
Definition valid_graph (l : list (list Z)) (d : nat) : Prop :=
  ∀ i x, l !! i = Some x → valid_neighbors (length l) i d x.

(** No node that had a neighbour loses its last one. *)
Definition keeps_neighbors (l l' : list (list Z)) : Prop :=
  ∀ i x, l !! i = Some x → x ≠ [] → ∃ x', l' !! i = Some x' ∧ x' ≠ [].

#[export] Instance keeps_neighbors_preorder : PreOrder keeps_neighbors.
Proof.
  split; [intros l i x; eauto|]. intros l1 l2 l3 H12 H23 i x Hx Hne. destruct (H12 i x Hx Hne) as (y & Hy & Hyne). eauto.
Qed.

Lemma keeps_neighbors_insert l i y : y ≠ [] → keeps_neighbors l (<[i := y]> l).
Proof.
  intros Hy j x Hx Hne. destruct (decide (i = j)) as [<-|Hij].
  - exists y. split; [|done]. apply list_lookup_insert_eq. by eapply lookup_lt_Some.
  - exists x. by rewrite list_lookup_insert_ne.
Qed.

Lemma has_duplicate_sorted s : StronglySorted Z.le s → has_duplicate s = false ↔ NoDup s.
Proof.
  unfold has_duplicate. induction s as [|a [|b s] IH]; intros Hs; [split; [constructor|done]|split; [constructor; [set_solver|constructor]|done]|].
  cbn [tail zip zip_with existsb]. apply StronglySorted_inv in Hs as [Hs Ha]. rewrite orb_false_iff, Z.eqb_neq.
  specialize (IH Hs). cbn [tail] in IH. rewrite IH, (NoDup_cons a). split.
  - intros [Hne Hnd]. split; [|done]. intros [->|Hin]%elem_of_cons; [done|].
    apply Forall_cons in Ha as [Hab _]. apply StronglySorted_inv in Hs as [_ Hb]. rewrite Forall_forall in Hb. specialize (Hb a Hin). lia.
  - intros [Hnin Hnd]. split; [|done]. intros ->. set_solver.
Qed.

Lemma validate_neighbors_ok count node d x :
  Forall (λ v, 0 <= v) x → validate_neighbors count node d x = Ok () ↔ valid_neighbors count node d x.
Proof.
  intros Hn. unfold validate_neighbors, valid_neighbors. pose proof (merge_sort_Permutation Z.le x) as Hperm.
  assert (has_duplicate (merge_sort Z.le x) = false ↔ NoDup x) as Hdup.
  { rewrite has_duplicate_sorted by (apply (StronglySorted_merge_sort Z.le)). by rewrite Hperm. }
  assert (existsb (λ neighbor, (count <=? Z.to_nat neighbor)%nat || (Z.to_nat neighbor =? node)%nat) (merge_sort Z.le x) = false ↔
          Forall (λ v, 0 <= v < Z.of_nat count ∧ v ≠ Z.of_nat node) x) as Hrange.
  { rewrite <- not_true_iff_false, existsb_exists, Forall_forall. rewrite Forall_forall in Hn. split.
    - intros Hno v Hv. specialize (Hn v Hv). destruct (decide (0 <= v < Z.of_nat count ∧ v ≠ Z.of_nat node)) as [|Hd]; [done|].
      exfalso. apply Hno. exists v. split; [apply list_elem_of_In; by rewrite Hperm|]. apply orb_true_iff. rewrite Nat.leb_le, Nat.eqb_eq. lia.
    - intros Hall (v & Hv%list_elem_of_In & Hb). rewrite Hperm in Hv. specialize (Hall v Hv).
      apply orb_true_iff in Hb as [E%Nat.leb_le|E%Nat.eqb_eq]; lia. }
  rewrite <- Hdup, <- Hrange, <- Nat.ltb_ge. unfold ensure_input, guard_ok.
  destruct (d <? length x)%nat, (has_duplicate _), (existsb _ _); cbn; naive_solver.
Qed.

Lemma try_fold_unit {A} (f : A → io_result unit) xs : try_fold (λ _ x, f x) () xs = Ok () ↔ Forall (λ x, f x = Ok ()) xs.
Proof.
  induction xs as [|x xs IH]; cbn [try_fold]; [split; [constructor|done]|]. rewrite Forall_cons, <- IH.
  destruct (f x) as [[]|e|]; cbn; naive_solver.
Qed.

Lemma validate_ok g l d :
  rep (adjacency g) l → Forall (Forall (λ v, 0 <= v)) l → validate g d = Ok () ↔ valid_graph l d.
Proof.
  intros Hr Hn. unfold validate. rewrite (adj_iter_ok _ l Hr). cbn [mbind io_result_bind].
  rewrite (try_fold_ext_in _ (λ _ p, validate_neighbors (adj_len (adjacency g)) p.1 d p.2)) by (by intros ? [] ?).
  rewrite (try_fold_unit (λ p, validate_neighbors (adj_len (adjacency g)) p.1 d p.2)), Forall_lookup. unfold adj_len, valid_graph. rewrite (rep_count _ _ Hr). split.
  - intros Hall i x Hx. apply validate_neighbors_ok; [exact (Forall_lookup_1 _ _ _ _ Hn Hx)|].
    apply (Hall i (i, x)). by rewrite list_lookup_imap, Hx.
  - intros Hall i [j x] Hx. rewrite list_lookup_imap in Hx. destruct (l !! i) as [y|] eqn:Hy; [|done]. injection Hx as <- <-. cbn [fst snd].
    apply validate_neighbors_ok; [exact (Forall_lookup_1 _ _ _ _ Hn Hy)|]. auto.
Qed.

(** ** The locality order *)

Lemma unvisited_elem v i : i ∈ unvisited_nodes v ↔ v !! i = Some false.
Proof.
  unfold unvisited_nodes. rewrite list_elem_of_omap. split.
  - intros ([j b] & (k & Hk)%list_elem_of_lookup_1 & Hb). rewrite list_lookup_imap in Hk. destruct (v !! k) as [c|] eqn:Ek; [|done].
    cbn in Hk. injection Hk as <- <-. destruct c; [done|]. by injection Hb as <-.
  - intros Hi. exists (i, false). split; [|done]. apply list_elem_of_lookup_2 with i. by rewrite list_lookup_imap, Hi.
Qed.

Lemma unvisited_NoDup v : NoDup (unvisited_nodes v).
Proof.
  unfold unvisited_nodes. assert (NoDup (imap pair v).*1) as Hnd.
  { replace (imap pair v).*1 with (seq 0 (length v)); [apply NoDup_seq|]. apply list_eq. intros i.
    rewrite list_lookup_fmap, list_lookup_imap. destruct (v !! i) as [b|] eqn:Hi; cbn.
    - apply lookup_seq_lt. by eapply lookup_lt_Some.
    - apply lookup_seq_ge. by apply lookup_ge_None. }
  induction (imap pair v) as [|[i b] l IH]; [constructor|]. cbn in Hnd. apply NoDup_cons in Hnd as [Hni Hnd]. cbn. destruct b; [auto|].
  constructor; [|auto]. intros ([j c] & Hj & Hc)%list_elem_of_omap. destruct c; [done|]. injection Hc as ->. apply Hni, list_elem_of_fmap. by exists (i, false).
Qed.

(** Filling the inverse of a list of distinct places. *)
Lemma inverse_loop n (a : list nat) : 
  NoDup a → (∀ i, i ∈ a → i < n)%nat →
  ∃ t, try_fold (λ table '(new_id, old_id), store_at (Z.to_nat old_id) (Z.of_nat new_id) table)
         (replicate n 0) (imap pair (Z.of_nat <$> a)) = Ok t ∧ length t = n ∧
    ∀ i j, a !! i = Some j → t !! j = Some (Z.of_nat i).
Proof.
  induction a as [|x a IH] using rev_ind; intros Hnd Hlt.
  { exists (replicate n 0). split_and!; [done|apply length_replicate|done]. }
  apply NoDup_app in Hnd as (Hnd & Hdis & _). destruct IH as (t & E & Hl & Ht); [done|intros; apply Hlt; set_solver|].
  assert (x < n)%nat as Hx by (apply Hlt; set_solver).
  rewrite fmap_app, imap_app, try_fold_app, E. cbn [mbind io_result_bind fmap list_fmap imap try_fold compose].
  rewrite Nat2Z.id, store_at_ok by lia. cbn [mbind io_result_bind]. rewrite length_fmap, Nat.add_0_r.
  eexists. split_and!; [done|by rewrite length_insert|]. intros i j Hij. apply lookup_app_Some in Hij as [Hij|(Hge & Hij)].
  - rewrite list_lookup_insert_ne; [auto|]. intros <-. apply (Hdis x); [by eapply list_elem_of_lookup_2|set_solver].
  - apply list_lookup_singleton_Some in Hij as [Hz ->]. rewrite list_lookup_insert_eq by lia. f_equal. lia.
Qed.

Lemma full_permutation n (a : list nat) : NoDup a → (∀ i, i ∈ a ↔ i < n)%nat → a ≡ₚ seq 0 n.
Proof. intros Hnd Hin. apply NoDup_Permutation; [done|apply NoDup_seq|]. intros i. rewrite Hin, elem_of_seq. lia. Qed.

(** What the locality order promises: two mutually inverse permutations, the
    entry first. *)
Record locality_ok (n entry : nat) (p : LocalityPermutation) : Prop := {
  lo_new : length (new_to_old p) = n;
  lo_old : length (old_to_new p) = n;
  lo_perm_new : is_permutation (new_to_old p);
  lo_perm_old : is_permutation (old_to_new p);
  lo_inverse : ∀ i j, new_to_old p !! i = Some (Z.of_nat j) ↔ old_to_new p !! j = Some (Z.of_nat i);
  lo_entry : (entry < n)%nat → new_to_old p !! 0%nat = Some (Z.of_nat entry);
}.

Lemma locality_of n entry (a : list nat) t :
  a ≡ₚ seq 0 n → length t = n → (∀ i j, a !! i = Some j → t !! j = Some (Z.of_nat i)) →
  ((entry < n)%nat → head a = Some entry) → locality_ok n entry (Locality (Z.of_nat <$> a) t).
Proof.
  intros Hp Hl Ht He. assert (length a = n) as Hla by (by rewrite Hp, length_seq).
  assert (NoDup a) as Hnd by (rewrite Hp; apply NoDup_seq).
  assert (∀ j, (j < n)%nat → ∃ i, a !! i = Some j) as Honto.
  { intros j Hj. apply list_elem_of_lookup_1. rewrite Hp. apply elem_of_seq. lia. }
  split; cbn [new_to_old old_to_new]; [by rewrite length_fmap|done| | | |].
  - unfold is_permutation. by rewrite length_fmap, Hla, Hp.
  - unfold is_permutation. rewrite Hl. apply NoDup_Permutation.
    + apply NoDup_alt. intros j j' z Hj Hj'. destruct (Honto j) as [i Hi]; [rewrite <- Hl; by eapply lookup_lt_Some|].
      destruct (Honto j') as [i' Hi']; [rewrite <- Hl; by eapply lookup_lt_Some|]. pose proof (Ht i j Hi). pose proof (Ht i' j' Hi').
      assert (i = i') as -> by (simplify_eq; lia). congruence.
    + apply NoDup_fmap_2; [intros ?? E; lia|apply NoDup_seq].
    + intros z. rewrite list_elem_of_fmap. split.
      * intros [j Hj]%list_elem_of_lookup_1. destruct (Honto j) as [i Hi]; [rewrite <- Hl; by eapply lookup_lt_Some|].
        rewrite (Ht i j Hi) in Hj. injection Hj as <-. exists i. split; [done|]. apply elem_of_seq. apply lookup_lt_Some in Hi. lia.
      * intros (i & -> & Hi%elem_of_seq). destruct (lookup_lt_is_Some_2 a i) as [j Hj]; [lia|]. apply list_elem_of_lookup_2 with j. by apply Ht.
  - intros i j. rewrite list_lookup_fmap_Some. split.
    + intros (j' & E & Hi). assert (j = j') as -> by lia. by apply Ht.
    + intros Hj. destruct (Honto j) as [i' Hi']; [rewrite <- Hl; by eapply lookup_lt_Some|]. pose proof (Ht i' j Hi') as Hj'. exists j. split; [done|].
      rewrite Hj in Hj'. assert (i = i') as -> by (simplify_eq; lia). done.
  - intros Hen. specialize (He Hen). destruct a; [done|]. cbn in *. congruence.
Qed.

Lemma bfs_locality_ok g l :
  rep (adjacency g) l → Forall (Forall (λ v, 0 <= v)) l →
  ∃ p, bfs_locality_permutation g = Ok p ∧ locality_ok (length l) (Z.to_nat (entry_node g)) p.
Proof.
  intros Hr Hn. unfold bfs_locality_permutation, adj_len. rewrite (rep_count _ _ Hr). set (entry := Z.to_nat (entry_node g)).
  assert (∃ v o, (if (entry <? length l)%nat then
       st ← bfs_from true (adjacency g) (replicate (length l) false) (replicate (length l) None) entry; Ok (visited st, popped st)
     else Ok (replicate (length l) false, [])) = Ok (v, o) ∧ length v = length l ∧ NoDup o ∧ (∀ i, vis v i ↔ i ∈ o) ∧
     (∀ i, i ∈ o → i < length l)%nat ∧ ((entry < length l)%nat → head o = Some entry)) as (v & o & -> & Hv & Hnd & Hvis & Hlt & He).
  { destruct (entry <? length l)%nat eqn:E; [apply Nat.ltb_lt in E|apply Nat.ltb_ge in E].
    - destruct (bfs_fresh (adjacency g) l Hr true Hn (or_introl eq_refl) entry E) as (st & -> & Hi & Epp & Hvis & Hreach). cbn [mbind io_result_bind].
      eexists _, _. rewrite Epp. split_and!; [done|apply Hi|apply (bi_nodup _ _ _ _ _ Hi)|done| |intros _; apply (bi_root _ _ _ _ _ Hi)].
      intros i Hi'. by apply Hreach.
    - eexists _, _. split_and!; [done|apply length_replicate|constructor| |set_solver|lia].
      intros i. split; [intros (? & _)%lookup_replicate; done|set_solver]. }
  cbn [mbind io_result_bind].
  assert (o ++ unvisited_nodes v ≡ₚ seq 0 (length l)) as Hp.
  { apply full_permutation.
    - apply NoDup_app. split_and!; [done| |apply unvisited_NoDup]. intros i Hi%Hvis Hu%unvisited_elem. congruence.
    - intros i. rewrite elem_of_app, unvisited_elem, <- Hvis. split.
      + intros [?|?]; rewrite <- Hv; by eapply lookup_lt_Some.
      + intros Hi. destruct (lookup_lt_is_Some_2 v i) as [[] ->]; [lia|by left|by right]. }
  destruct (inverse_loop (length l) (o ++ unvisited_nodes v)) as (t & -> & Htl & Ht).
  { rewrite Hp. apply NoDup_seq. } { intros i Hi. rewrite Hp in Hi. apply elem_of_seq in Hi. lia. }
  cbn [mbind io_result_bind]. eexists. split; [done|]. apply locality_of; [done|done|done|].
  intros Hen. specialize (He Hen). by destruct o.
Qed.

(** The relabelled graph: an isomorphic copy whose lists are sorted and whose
    entry is node 0. *)
Record relabelled (l l' : list (list Z)) (p : LocalityPermutation) : Prop := {
  rl_len : length l' = length l;
  rl_lists : ∀ i j x, old_to_new p !! i = Some (Z.of_nat j) → l !! i = Some x →
    ∃ y, l' !! j = Some y ∧ StronglySorted Z.le y ∧
      y ≡ₚ ((λ v, default 0 (old_to_new p !! Z.to_nat v)) <$> x);
}.

Lemma remap_graph_ok g l p d :
  rep (adjacency g) l → valid_graph l d → locality_ok (length l) (Z.to_nat (entry_node g)) p →
  (Z.to_nat (entry_node g) < length l)%nat →
  ∃ g' l', remap_graph_in_place g p = Ok g' ∧ entry_node g' = 0 ∧ rep (adjacency g') l' ∧ relabelled l l' p.
Proof.
  intros Hr Hval Hp He. assert (length (old_to_new p) = length l) as Hlen by apply (lo_old _ _ _ Hp).
  destruct (permute_and_map_ok (old_to_new p) l (lo_perm_old _ _ _ Hp) Hlen (adjacency g) Hr) as (adj' & l' & E & Hr' & _ & Hl' & Hmap).
  { apply Forall_lookup. intros i x Hx. destruct (Hval i x Hx) as (_ & _ & Hx'). eapply Forall_impl; [exact Hx'|]. intros v [Hv _]. exact Hv. }
  unfold remap_graph_in_place. rewrite E. cbn [mbind io_result_bind].
  assert (old_to_new p !! Z.to_nat (entry_node g) = Some 0) as ->.
  { change 0 with (Z.of_nat 0). apply (lo_inverse _ _ _ Hp). by apply (lo_entry _ _ _ Hp). }
  cbn [expect mbind io_result_bind]. eexists (Graph 0 adj'), l'. split_and!; [done|done|done|]. split; [done|].
  intros i j x Hij Hx. destruct (Hmap i j x Hij Hx) as (y & Hy & Hl). eexists. split_and!; [exact Hl|apply (StronglySorted_merge_sort Z.le)|].
  rewrite (merge_sort_Permutation _ y). replace y with ((λ v, default 0 (old_to_new p !! Z.to_nat v)) <$> x); [done|].
  clear -Hy. induction Hy as [|v w x y Hv _ IH]; [done|]. cbn [fmap list_fmap]. by rewrite Hv, IH.
Qed.

Section Relabelled.
Context (l l' : list (list Z)) (p : LocalityPermutation) (entry d : nat).
Context (Hp : locality_ok (length l) entry p) (Hval : valid_graph l d) (Hrel : relabelled l l' p).

Notation new_of := (λ v, default 0 (old_to_new p !! Z.to_nat v)).

Lemma new_place u : (u < length l)%nat → ∃ u', old_to_new p !! u = Some (Z.of_nat u') ∧ (u' < length l)%nat.
Proof.
  intros Hu. destruct (moves_total (old_to_new p) l (lo_perm_old _ _ _ Hp) (lo_old _ _ _ Hp) u Hu) as (j & Hj & ?). by exists j.
Qed.

Lemma old_place u' : (u' < length l)%nat → ∃ u, old_to_new p !! u = Some (Z.of_nat u') ∧ (u < length l)%nat.
Proof.
  intros Hu. destruct (moves_onto (old_to_new p) l (lo_perm_old _ _ _ Hp) (lo_old _ _ _ Hp) u' Hu) as [u Hj]. exists u. split; [done|].
  rewrite <- (lo_old _ _ _ Hp). by eapply lookup_lt_Some.
Qed.

Lemma new_of_inj v w : 0 <= v < zlen l → 0 <= w < zlen l → new_of v = new_of w → v = w.
Proof.
  intros Hv Hw. destruct (new_place (Z.to_nat v)) as (a & Ea & _); [unfold zlen in *; lia|].
  destruct (new_place (Z.to_nat w)) as (b & Eb & _); [unfold zlen in *; lia|]. cbn beta. rewrite Ea, Eb. cbn. intros E.
  assert (a = b) as -> by lia. pose proof (moves_inj (old_to_new p) l (lo_perm_old _ _ _ Hp) (lo_old _ _ _ Hp) _ _ _ Ea Eb). lia.
Qed.

Lemma relabelled_edge u v u' v' :
  old_to_new p !! u = Some (Z.of_nat u') → old_to_new p !! v = Some (Z.of_nat v') → edge l u v ↔ edge l' u' v'.
Proof.
  intros Hu Hv. assert (u < length l)%nat as Hul by (rewrite <- (lo_old _ _ _ Hp); by eapply lookup_lt_Some).
  assert (v < length l)%nat as Hvl by (rewrite <- (lo_old _ _ _ Hp); by eapply lookup_lt_Some).
  destruct (lookup_lt_is_Some_2 l u Hul) as [x Hx]. destruct (rl_lists _ _ _ Hrel u u' x Hu Hx) as (y & Hy & _ & Hyp).
  destruct (Hval u x Hx) as (_ & _ & Hrange). rewrite Forall_forall in Hrange.
  assert (new_of (Z.of_nat v) = Z.of_nat v') as Ev by (cbn beta; by rewrite Nat2Z.id, Hv). split.
  - intros (x' & Hx' & Hin). rewrite Hx in Hx'. injection Hx' as <-. exists y. split; [done|]. rewrite Hyp. apply list_elem_of_fmap.
    exists (Z.of_nat v). done.
  - intros (y' & Hy' & Hin). rewrite Hy in Hy'. injection Hy' as <-. exists x. split; [done|]. rewrite Hyp in Hin.
    apply list_elem_of_fmap in Hin as (w & Ew & Hw). replace (Z.of_nat v) with w; [done|]. destruct (Hrange w Hw) as [Hwr _].
    apply new_of_inj; [unfold zlen; lia|unfold zlen; lia|]. by rewrite Ev, Ew.
Qed.

Lemma relabelled_valid : valid_graph l' d ∧ Forall (StronglySorted Z.lt) l'.
Proof.
  assert (∀ j y, l' !! j = Some y → valid_neighbors (length l') j d y ∧ StronglySorted Z.lt y) as Hall.
  { intros j y Hy. pose proof (lookup_lt_Some _ _ _ Hy) as Hj. rewrite (rl_len _ _ _ Hrel) in *.
    destruct (old_place j Hj) as (i & Hi & Hil). destruct (lookup_lt_is_Some_2 l i Hil) as [x Hx].
    destruct (rl_lists _ _ _ Hrel i j x Hi Hx) as (y' & Hy' & Hs & Hyp). rewrite Hy in Hy'. injection Hy' as <-.
    destruct (Hval i x Hx) as (Hd & Hnd & Hr). rewrite Forall_forall in Hr.
    assert (NoDup y) as Hndy.
    { rewrite Hyp. apply NoDup_fmap_2_strong; [|done]. intros v w Hv Hw. destruct (Hr v Hv) as [? _], (Hr w Hw) as [? _]. apply new_of_inj; done. }
    split; [split_and!; [by rewrite Hyp, length_fmap|done|]|].
    - rewrite Hyp. apply Forall_fmap, Forall_forall. intros v Hv. destruct (Hr v Hv) as [Hvr Hne].
      destruct (new_place (Z.to_nat v)) as (w & Ew & Hw); [lia|]. cbn. rewrite Ew. cbn. split; [lia|]. intros E.
      assert (w = j) as -> by lia. pose proof (moves_inj (old_to_new p) l (lo_perm_old _ _ _ Hp) (lo_old _ _ _ Hp) _ _ _ Ew Hi). lia.
    - clear -Hs Hndy. induction Hs as [|a y Hs IH Ha]; [constructor|]. apply NoDup_cons in Hndy as [Hna Hnd]. constructor; [auto|].
      rewrite Forall_forall in *. intros b Hb. specialize (Ha b Hb). assert (a ≠ b) by (intros ->; done). lia. }
  split; [intros j y Hy; by apply Hall|]. apply Forall_lookup. intros j y Hy. by apply (Hall j).
Qed.

End Relabelled.

(** C29: relabelling a valid graph in breadth-first order always succeeds.  The
    order is a permutation of the nodes with its inverse beside it and the
    entry first; the relabelled graph has exactly the renamed edges, is valid
    again, starts at node 0 and has strictly increasing neighbour lists, the
    form the list codec of the file format requires. *)
Theorem locality_relabels_graph g l d :
  rep (adjacency g) l → valid_graph l d → (Z.to_nat (entry_node g) < length l)%nat →
  ∃ p g' l',
    bfs_locality_permutation g = Ok p ∧ remap_graph_in_place g p = Ok g' ∧ adj_iter (adjacency g') = Ok l' ∧
    locality_ok (length l) (Z.to_nat (entry_node g)) p ∧
    entry_node g' = 0 ∧ valid_graph l' d ∧ Forall (StronglySorted Z.lt) l' ∧
    ∀ u v u' v', old_to_new p !! u = Some (Z.of_nat u') → old_to_new p !! v = Some (Z.of_nat v') →
      edge l u v ↔ edge l' u' v'.
Proof.
  intros Hr Hval He. assert (Forall (Forall (λ v, 0 <= v)) l) as Hn.
  { apply Forall_lookup. intros i x Hx. destruct (Hval i x Hx) as (_ & _ & Hx'). eapply Forall_impl; [exact Hx'|]. cbn. lia. }
  destruct (bfs_locality_ok g l Hr Hn) as (p & Ep & Hp). destruct (remap_graph_ok g l p d Hr Hval Hp He) as (g' & l' & Eg & E0 & Hr' & Hrel).
  destruct (relabelled_valid l l' p _ d Hp Hval Hrel) as [Hval' Hs]. exists p, g', l'. split_and!; try done.
  - by apply adj_iter_ok.
  - intros u v u' v'. by eapply relabelled_edge.
Qed.

Definition demo_lists : list (list Z) := [[3; 1]; [0]; [1; 4]; [2; 0]; [0]].
Definition demo_adjacency : CompactAdjacency :=
  match from_nested demo_lists 2 with Ok adj => adj | _ => adj_empty 0 0 end.

Lemma demo_adjacency_rep : rep demo_adjacency demo_lists.
Proof.
  destruct (from_nested_ok demo_lists 2) as (adj & E & Hr & _); [done| |unfold demo_adjacency; by rewrite E].
  repeat (apply Forall_cons_2; [vm_compute; lia|]). constructor.
Qed.

Lemma valid_graph_check l d :
  Forall (λ '(i, x), validate_neighbors (length l) i d x = Ok ()) (imap pair l) → Forall (Forall (λ v, 0 <= v)) l → valid_graph l d.
Proof.
  intros Hall Hn i x Hx. apply validate_neighbors_ok; [exact (Forall_lookup_1 _ _ _ _ Hn Hx)|].
  rewrite Forall_lookup in Hall. apply (Hall i (i, x)). by rewrite list_lookup_imap, Hx.
Qed.

Lemma demo_valid : valid_graph demo_lists 2.
Proof.
  apply valid_graph_check; repeat (apply Forall_cons_2; [first [by vm_compute|repeat (apply Forall_cons_2; [lia|]); constructor]|]); constructor.
Qed.

Lemma locality_relabels_graph_witness :
  ∃ p g' l',
    bfs_locality_permutation (Graph 3 demo_adjacency) = Ok p ∧ remap_graph_in_place (Graph 3 demo_adjacency) p = Ok g' ∧
    adj_iter (adjacency g') = Ok l' ∧
    new_to_old p = [3; 2; 0; 1; 4] ∧ l' = [[1; 2]; [3; 4]; [0; 3]; [2]; [2]] ∧ valid_graph l' 2.
Proof.
  destruct (locality_relabels_graph (Graph 3 demo_adjacency) demo_lists 2 demo_adjacency_rep demo_valid) as (p & g' & l' & E1 & E2 & E3 & Hp & _ & Hv & _).
  { vm_compute. lia. }
  exists p, g', l'. split_and!; try done.
  - assert (bfs_locality_permutation (Graph 3 demo_adjacency) = Ok (Locality [3; 2; 0; 1; 4] [2; 3; 1; 0; 4])) as E by (vm_compute; reflexivity).
    rewrite E in E1. by injection E1 as <-.
  - assert ((p ← bfs_locality_permutation (Graph 3 demo_adjacency); g ← remap_graph_in_place (Graph 3 demo_adjacency) p; adj_iter (adjacency g))
      = Ok [[1; 2]; [3; 4]; [0; 3]; [2]; [2]]) as E by (vm_compute; reflexivity).
    rewrite E1 in E. cbn [mbind io_result_bind] in E. rewrite E2 in E. cbn [mbind io_result_bind] in E. rewrite E3 in E. by injection E.
Defined.
