(* ===== verification/VamanaRepair.v ===== *)
(** Connecting a Vamana graph: [repair_connectivity_with_stats],
    [select_repair_source], [is_repair_source] and [derived_seed] of
    [core/src/vamana.rs].

    The repair keeps the breadth-first tree of what is reachable, attaches each
    unreachable node below a source with a free or a replaceable slot, and
    extends the tree.  The distances decide only which source and which edge;
    they are an argument.  The theorem shows that a source always exists, that
    no step panics, and that the result is valid and fully reachable. *)

From S2P Require Import Prelude F32 CompactAdjacency VamanaGraph.

Definition CONNECTIVITY_SOURCE_SAMPLE_SIZE : nat := 64.

Record ConnectivityRepairStats := RepairStats {
  full_reachability_traversals : Z; source_distance_evaluations : Z; edges_added : Z }.

(** SplitMix64 finalizer at 64 bits. *)
Definition derived_seed (seed stream : Z) : Z :=
  let value := Z.lxor seed (wrap 64 (stream * 0x9E3779B97F4A7C15)) in
  let value := wrap 64 (Z.lxor value (Z.shiftr value 30) * 0xBF58476D1CE4E5B9) in
  let value := wrap 64 (Z.lxor value (Z.shiftr value 27) * 0x94D049BB133111EB) in
  Z.lxor value (Z.shiftr value 31).

(** [neighbors.iter().any(|n| parent[n] != Some(source))] *)
Fixpoint any_non_tree (source : nat) (parent : list (option nat)) (neighbors : list Z) : io_result bool :=
  match neighbors with
  | [] => Ok false
  | neighbor :: neighbors =>
      p ← expect (parent !! Z.to_nat neighbor);
      if bool_decide (p = Some source) then any_non_tree source parent neighbors else Ok true
  end.
Definition is_repair_source (adj : CompactAdjacency) (source max_degree : nat) (parent : list (option nat)) : io_result bool :=
  neighbors ← adj_neighbors adj source;
  if (length neighbors <? max_degree)%nat then Ok true else any_non_tree source parent neighbors.

(** [filter_map] over the reachable nodes that can be a source. *)
Definition collect_sources (adj : CompactAdjacency) (max_degree : nat) (parent : list (option nat)) (acc : list nat) (nodes : list nat) :
    io_result (list nat) :=
  try_fold (λ acc node,
    ok ← is_repair_source adj node max_degree parent; Ok (if (ok : bool) then acc ++ [node] else acc)) acc nodes.

(** [Vec::swap_remove] on the list of sources. *)
Definition vec_swap_remove (index : nat) (l : list nat) : io_result (list nat) :=
  match last l with
  | Some v => if (index <? length l)%nat then Ok (take (length l - 1) (<[index := v]> l)) else Panic
  | None => Panic
  end.

Section Repair.
(** [node_distance] between two stored vectors, as [f32] bits. *)
Context (node_distance : nat → nat → Z).

Definition better_source (best : option (nat * nat * Z)) (source : nat) (distance : Z) : bool :=
  match best with
  | None => true
  | Some (_, best_source, best_distance) =>
      (f32_total_key distance <? f32_total_key best_distance)
      || ((f32_total_key distance =? f32_total_key best_distance) && (source <? best_source)%nat)
  end.

Definition sample_step (adj : CompactAdjacency) (target max_degree : nat) (parent : list (option nat)) (eligible : list nat)
    (start : nat) (acc : option (nat * nat * Z) * Z) (offset : nat) : io_result (option (nat * nat * Z) * Z) :=
  let '(best, evaluations) := acc in
  let index := ((start + offset) mod length eligible)%nat in
  source ← expect (eligible !! index);
  ok ← is_repair_source adj source max_degree parent;
  if (ok : bool) then
    let distance := node_distance source target in
    Ok (if better_source best source distance then Some (index, source, distance) else best, evaluations + 1)
  else Ok acc.

(** [find_map] over the remaining sources. *)
Fixpoint first_source (adj : CompactAdjacency) (max_degree : nat) (parent : list (option nat)) (eligible : list nat) (index : nat) :
    io_result (option (nat * nat)) :=
  match eligible with
  | [] => Ok None
  | source :: eligible =>
      ok ← is_repair_source adj source max_degree parent;
      if (ok : bool) then Ok (Some (index, source)) else first_source adj max_degree parent eligible (S index)
  end.

Definition select_repair_source (adj : CompactAdjacency) (target max_degree : nat) (parent : list (option nat)) (eligible : list nat)
    (stats : ConnectivityRepairStats) : io_result (nat * nat * ConnectivityRepairStats) :=
  _ ← ensure_data (negb (length eligible =? 0)%nat) "Vamana connectivity repair found no replaceable edge";
  let sample_size := (CONNECTIVITY_SOURCE_SAMPLE_SIZE `min` length eligible)%nat in
  let start := Z.to_nat (derived_seed (Z.of_nat target) (edges_added stats) mod zlen eligible) in
  '(best, evaluations) ← try_fold (sample_step adj target max_degree parent eligible start)
                            (None, source_distance_evaluations stats) (seq 0 sample_size);
  let stats := RepairStats (full_reachability_traversals stats) evaluations (edges_added stats) in
  match best with
  | Some (index, source, _) => Ok (index, source, stats)
  | None =>
      found ← first_source adj max_degree parent eligible 0;
      match found with
      | Some (index, source) => Ok (index, source, stats)
      | None => invalid_data "Vamana connectivity repair found no replaceable edge"
      end
  end.

(** The farthest neighbour that is not a tree child, by distance then slot. *)
Definition farther (a b : nat * Z) : bool :=
  (f32_total_key a.2 <? f32_total_key b.2) || ((f32_total_key a.2 =? f32_total_key b.2) && (a.1 <=? b.1)%nat).
Definition removable_step (source : nat) (parent : list (option nat)) (best : option (nat * Z)) (slot_neighbor : nat * Z) :
    io_result (option (nat * Z)) :=
  let '(slot, neighbor) := slot_neighbor in
  p ← expect (parent !! Z.to_nat neighbor);
  if bool_decide (p = Some source) then Ok best
  else
    let candidate := (slot, node_distance (Z.to_nat neighbor) source) in
    Ok (match best with
        | Some b => if farther b candidate then Some candidate else Some b
        | None => Some candidate
        end).
Definition removable_slot (source : nat) (parent : list (option nat)) (neighbors : list Z) : io_result nat :=
  best ← try_fold (removable_step source parent) None (imap pair neighbors);
  fst <$> expect best.

(** Attaching [target] below [source], making room first. *)
Definition attach (adj : CompactAdjacency) (source target max_degree : nat) (parent : list (option nat)) : io_result CompactAdjacency :=
  neighbors ← adj_neighbors adj source;
  adj ← (if (length neighbors =? max_degree)%nat then
           removable ← removable_slot source parent neighbors; adj_swap_remove adj source removable
         else Ok adj);
  adj_push adj source (Z.of_nat target).

Record RepairState := Repairing {
  rs_adj : CompactAdjacency; rs_visited : list bool; rs_parent : list (option nat); rs_eligible : list nat;
  rs_cursor : nat; rs_stats : ConnectivityRepairStats }.

(** [while target_cursor < visited.len() && visited[target_cursor]] *)
Fixpoint advance_cursor (fuel : nat) (visited : list bool) (cursor : nat) : nat :=
  match fuel with
  | O => cursor
  | S fuel =>
      match visited !! cursor with
      | Some true => advance_cursor fuel visited (S cursor)
      | _ => cursor
      end
  end.

(** One round for the unreachable node [target]. *)
Definition repair_round (st : RepairState) (target max_degree : nat) : io_result RepairState :=
  '(source_index, source, stats) ← select_repair_source (rs_adj st) target max_degree (rs_parent st) (rs_eligible st) (rs_stats st);
  eligible ← vec_swap_remove source_index (rs_eligible st);
  adj ← attach (rs_adj st) source target max_degree (rs_parent st);
  let stats := RepairStats (full_reachability_traversals stats) (source_distance_evaluations stats) (edges_added stats + 1) in
  found ← bfs_from false adj (rs_visited st) (<[target := Some source]> (rs_parent st)) target;
  eligible ← collect_sources adj max_degree (parent found) eligible (source :: pushed found);
  Ok (Repairing adj (visited found) (parent found) eligible target stats).

Fixpoint repair_loop (fuel : nat) (st : RepairState) (max_degree : nat) : io_result RepairState :=
  match fuel with
  | O => Panic
  | S fuel =>
      let cursor := advance_cursor (length (rs_visited st)) (rs_visited st) (rs_cursor st) in
      if (cursor =? length (rs_visited st))%nat then Ok st
      else st ← repair_round st cursor max_degree; repair_loop fuel st max_degree
  end.

Definition repair_connectivity_with_stats (g : VamanaGraph) (max_degree : nat) : io_result (VamanaGraph * ConnectivityRepairStats) :=
  '(visited, parent) ← reachability_tree g;
  eligible ← collect_sources (adjacency g) max_degree parent []
               (omap (λ '(node, reachable), if (reachable : bool) then Some node else None) (imap pair visited));
  st ← repair_loop (S (length visited))
         (Repairing (adjacency g) visited parent eligible 0 (RepairStats 1 0 0)) max_degree;
  Ok (Graph (entry_node g) (rs_adj st), rs_stats st).

End Repair.

(** ** Removing and adding an edge *)

Lemma swap_removed_perm slot x v : x !! slot = Some v → v :: swap_removed slot x ≡ₚ x.
Proof.
  intros Hs. unfold swap_removed. destruct x as [|w a _] using rev_ind; [done|]. rewrite last_snoc, length_app. cbn [length].
  replace (length a + 1 - 1)%nat with (length a) by lia. apply lookup_app_Some in Hs as [Hs|(Hge & Hs)].
  - rewrite insert_app_l by (by eapply lookup_lt_Some). rewrite take_app_length' by (by rewrite length_insert).
    apply list_elem_of_split_length in Hs as (a1 & a2 & -> & ->).
    rewrite insert_app_r_alt by done. rewrite Nat.sub_diag. cbn.
    rewrite <- !Permutation_middle, app_nil_r. apply perm_swap.
  - apply list_lookup_singleton_Some in Hs as [Hz ->]. rewrite insert_app_r_alt, take_app_length by done. by rewrite Permutation_app_comm.
Qed.

Definition source_ok (l : list (list Z)) (d : nat) (parent : list (option nat)) (u : nat) : Prop :=
  ∃ x, l !! u = Some x ∧ ((length x < d)%nat ∨ ∃ v, v ∈ x ∧ parent !! Z.to_nat v ≠ Some (Some u)).

Lemma any_non_tree_ok source parent x :
  (∀ v, v ∈ x → Z.to_nat v < length parent)%nat →
  ∃ b, any_non_tree source parent x = Ok b ∧ (b = true ↔ ∃ v, v ∈ x ∧ parent !! Z.to_nat v ≠ Some (Some source)).
Proof.
  induction x as [|v x IH]; intros Hr; cbn [any_non_tree].
  { exists false. split; [done|]. set_solver. }
  destruct (lookup_lt_is_Some_2 parent (Z.to_nat v)) as [p Hp]; [apply Hr; set_solver|]. rewrite Hp. cbn [expect mbind io_result_bind].
  case_bool_decide as Ep.
  - subst. destruct IH as (b & -> & Hb); [intros; apply Hr; set_solver|]. exists b. split; [done|]. rewrite Hb. split.
    + intros (w & Hw & Hn). exists w. set_solver.
    + intros (w & [->|Hw]%elem_of_cons & Hn); [congruence|eauto].
  - exists true. split; [done|]. split; [|done]. intros _. exists v. split; [set_solver|congruence].
Qed.

Section Invariant.
Context (node_distance : nat → nat → Z).
Context (n d entry : nat) (Hd : (1 ≤ d)%nat).

Record repair_inv (adj : CompactAdjacency) (l : list (list Z)) (visited : list bool) (parent : list (option nat)) (eligible : list nat) : Prop := {
  ri_rep : rep adj l;
  ri_stride : (d ≤ max_degree adj ∨ n ≤ S (max_degree adj))%nat;
  ri_len : length l = n;
  ri_marks : length visited = n;
  ri_parents : length parent = n;
  ri_valid : valid_graph l d;
  ri_entry : vis visited entry;
  ri_tree : ∀ i, vis visited i → tree_path parent entry i;
  ri_parent : ∀ i u, parent !! i = Some (Some u) → i ≠ entry ∧ vis visited i ∧ vis visited u ∧ edge l u i;
  ri_closed : ∀ u v, vis visited u → edge l u v → vis visited v;
  ri_eligible : ∀ u, vis visited u → source_ok l d parent u → u ∈ eligible;
  ri_visible : ∀ u, u ∈ eligible → vis visited u;
}.

Section State.
Context (adj : CompactAdjacency) (l : list (list Z)) (visited : list bool) (parent : list (option nat)) (eligible : list nat).
Context (Hinv : repair_inv adj l visited parent eligible).

Lemma visible_bound u : vis visited u → (u < n)%nat.
Proof. intros Hu. rewrite <- (ri_marks _ _ _ _ _ Hinv). by eapply lookup_lt_Some. Qed.

Lemma neighbor_bound u x v : l !! u = Some x → v ∈ x → 0 <= v ∧ (Z.to_nat v < n)%nat.
Proof.
  intros Hx Hv. destruct (ri_valid _ _ _ _ _ Hinv u x Hx) as (_ & _ & Hr). rewrite Forall_forall in Hr. destruct (Hr v Hv) as [Hb _].
  rewrite (ri_len _ _ _ _ _ Hinv) in Hb. lia.
Qed.

Lemma is_repair_source_ok u :
  (u < n)%nat → ∃ b, is_repair_source adj u d parent = Ok b ∧ (b = true ↔ source_ok l d parent u).
Proof.
  intros Hu. destruct (lookup_lt_is_Some_2 l u) as [x Hx]; [by rewrite (ri_len _ _ _ _ _ Hinv)|].
  unfold is_repair_source. rewrite (adj_neighbors_ok adj l u x (ri_rep _ _ _ _ _ Hinv) Hx). cbn [mbind io_result_bind].
  destruct (length x <? d)%nat eqn:E; [apply Nat.ltb_lt in E|apply Nat.ltb_ge in E].
  { exists true. split; [done|]. split; [|done]. intros _. exists x. auto. }
  destruct (any_non_tree_ok u parent x) as (b & -> & Hb).
  { intros v Hv. rewrite (ri_parents _ _ _ _ _ Hinv). by eapply neighbor_bound. }
  exists b. split; [done|]. rewrite Hb. split; [intros Hw; exists x; auto|].
  intros (y & Hy & Hs). rewrite Hx in Hy. injection Hy as <-. destruct Hs; [lia|done].
Qed.

(** Somewhere below the entry there is room: the tree has fewer edges than
    nodes, the full graph at least as many. *)
Lemma source_exists : ∃ u, vis visited u ∧ source_ok l d parent u.
Proof.
  destruct (decide (Exists (λ u, vis visited u ∧ match is_repair_source adj u d parent with Ok b => b | _ => false end = true) (seq 0 n))) as [Hx|Hx];
    [|exfalso].
  { apply Exists_exists in Hx as (u & _ & Hu & Eb). exists u. split; [done|].
    destruct (is_repair_source_ok u (visible_bound u Hu)) as (b & E & Hb). rewrite E in Eb. by apply Hb. }
  assert (∀ u, vis visited u → ∃ v, edge l u v ∧ parent !! v = Some (Some u)) as Hchild.
  { intros u Hu. pose proof (visible_bound u Hu) as Hun. destruct (is_repair_source_ok u Hun) as (b & E & Hb).
    assert (¬ source_ok l d parent u) as Hno.
    { intros Hs. apply Hx, Exists_exists. exists u. split; [apply elem_of_seq; lia|]. split; [done|]. rewrite E. by apply Hb. }
    destruct (lookup_lt_is_Some_2 l u) as [x Hxu]; [by rewrite (ri_len _ _ _ _ _ Hinv)|]. destruct x as [|v x].
    { exfalso. apply Hno. exists []. split; [done|]. left. cbn. lia. }
    destruct (neighbor_bound u (v :: x) v Hxu ltac:(set_solver)) as [Hv0 Hv].
    exists (Z.to_nat v). split; [exists (v :: x); rewrite Z2Nat.id by done; split; [done|set_solver]|].
    destruct (decide (parent !! Z.to_nat v = Some (Some u))) as [|Hp]; [done|]. exfalso. apply Hno. exists (v :: x). split; [done|]. right. exists v. split; [set_solver|done]. }
  set (V := filter (λ u, vis visited u) (seq 0 n)).
  assert (∃ f, ∀ u, u ∈ V → parent !! f u = Some (Some u)) as [f Hf].
  { exists (λ u, default 0%nat (snd <$> list_find (λ v, parent !! v = Some (Some u)) (seq 0 n))).
    intros u (Hu & _)%list_elem_of_filter. destruct (Hchild u Hu) as (v & _ & Hv).
    assert (v ∈ seq 0 n) as Hvn by (apply elem_of_seq; apply lookup_lt_Some in Hv; rewrite (ri_parents _ _ _ _ _ Hinv) in Hv; lia).
    destruct (list_find_elem_of (λ v, parent !! v = Some (Some u)) (seq 0 n) v Hvn Hv) as [[i w] Hw].
    rewrite Hw. cbn. by apply list_find_Some in Hw as (_ & ? & _). }
  assert (NoDup V) as HndV by (apply NoDup_filter, NoDup_seq).
  assert (entry :: (f <$> V) ⊆+ V) as Hsub.
  { apply NoDup_submseteq.
    - apply NoDup_cons. split.
      + intros (u & E & Hu)%list_elem_of_fmap. destruct (ri_parent _ _ _ _ _ Hinv _ _ (Hf u Hu)) as [Hne _]. congruence.
      + apply NoDup_fmap_2_strong; [|done]. intros u w Hu Hw E. pose proof (Hf u Hu) as E1. pose proof (Hf w Hw) as E2. rewrite E in E1. congruence.
    - assert (∀ i, vis visited i → i ∈ V) as HV.
      { intros i Hi. apply list_elem_of_filter. split; [done|]. apply elem_of_seq. pose proof (visible_bound i Hi). lia. }
      intros i [->|(u & -> & Hu)%list_elem_of_fmap]%elem_of_cons; apply HV; [apply Hinv|]. by apply (ri_parent _ _ _ _ _ Hinv _ _ (Hf u Hu)). }
  apply submseteq_length in Hsub. cbn in Hsub. rewrite length_fmap in Hsub. lia.
Qed.

Definition chosen (best : option (nat * nat * Z)) : Prop :=
  match best with Some (index, source, _) => eligible !! index = Some source ∧ source_ok l d parent source | None => True end.

Lemma sample_loop target start offsets : ∀ best ev,
  chosen best → eligible ≠ [] →
  ∃ best' ev', try_fold (sample_step node_distance adj target d parent eligible start) (best, ev) offsets = Ok (best', ev') ∧ chosen best'.
Proof.
  induction offsets as [|o offsets IH]; intros best ev Hb Hne; cbn [try_fold]; [by exists best, ev|].
  unfold sample_step at 1. cbn beta iota. set (index := ((start + o) mod length eligible)%nat).
  assert (length eligible ≠ 0%nat) as Hl by (by destruct eligible).
  destruct (lookup_lt_is_Some_2 eligible index) as [s Hs]; [by apply Nat.mod_upper_bound|].
  assert (∃ best1 ev1, sample_step node_distance adj target d parent eligible start (best, ev) o = Ok (best1, ev1) ∧ chosen best1) as (best1 & ev1 & E1 & H1).
  { unfold sample_step. fold index. rewrite Hs. cbn [expect mbind io_result_bind].
    destruct (is_repair_source_ok s) as (b & -> & Hok); [apply visible_bound, (ri_visible _ _ _ _ _ Hinv); by eapply list_elem_of_lookup_2|].
    cbn [mbind io_result_bind]. destruct b; [|by exists best, ev]. eexists _, _. split; [done|].
    destruct (better_source _ _ _); [|done]. split; [done|]. by apply Hok. }
  rewrite E1. cbn [mbind io_result_bind]. apply IH; done.
Qed.

Lemma first_source_ok es index0 :
  (∀ u, u ∈ es → (u < n)%nat) → (∃ u, u ∈ es ∧ source_ok l d parent u) →
  ∃ index source, first_source adj d parent es index0 = Ok (Some (index, source)) ∧ (index0 ≤ index)%nat ∧
    es !! (index - index0)%nat = Some source ∧ source_ok l d parent source.
Proof.
  revert index0. induction es as [|s es IH]; intros index0 Hr (u & Hu & Hok); [set_solver|]. cbn [first_source].
  destruct (is_repair_source_ok s) as (b & -> & Hb); [apply Hr; set_solver|]. cbn [mbind io_result_bind]. destruct b.
  - exists index0, s. rewrite Nat.sub_diag. split_and!; [done|lia|done|]. by apply Hb.
  - destruct (IH (S index0)) as (index & source & -> & Hle & Hl & Hs); [intros; apply Hr; set_solver| |].
    { exists u. split; [|done]. apply elem_of_cons in Hu as [->|Hu]; [|done]. apply Hb in Hok. done. }
    exists index, source. split_and!; [done|lia| |done]. replace (index - index0)%nat with (S (index - S index0)) by lia. done.
Qed.

Lemma select_ok target stats :
  ∃ index source stats', select_repair_source node_distance adj target d parent eligible stats = Ok (index, source, stats') ∧
    eligible !! index = Some source ∧ source_ok l d parent source ∧ vis visited source.
Proof.
  destruct source_exists as (u & Hu & Hok). pose proof (ri_eligible _ _ _ _ _ Hinv u Hu Hok) as Hel.
  assert (eligible ≠ []) as Hne by (intros E; rewrite E in Hel; set_solver).
  unfold select_repair_source. rewrite (proj2 (Nat.eqb_neq _ 0)) by (by destruct eligible).
  change (ensure_data (negb false) ?m) with (Ok ()). cbn [mbind io_result_bind].
  destruct (sample_loop target (Z.to_nat (derived_seed (Z.of_nat target) (edges_added stats) mod zlen eligible))
    (seq 0 (CONNECTIVITY_SOURCE_SAMPLE_SIZE `min` length eligible)) None (source_distance_evaluations stats)) as (best & ev & -> & Hb); [done|done|].
  cbn [mbind io_result_bind]. destruct best as [[[index source] dist]|].
  - destruct Hb as [Hi Hs]. eexists _, _, _. split_and!; [done|done|done|]. apply (ri_visible _ _ _ _ _ Hinv). by eapply list_elem_of_lookup_2.
  - destruct (first_source_ok eligible 0) as (index & source & -> & _ & Hi & Hs).
    { intros w Hw. by apply visible_bound, (ri_visible _ _ _ _ _ Hinv). } { eauto. }
    cbn [mbind io_result_bind]. rewrite Nat.sub_0_r in Hi. eexists _, _, _. split_and!; [done|done|done|].
    apply (ri_visible _ _ _ _ _ Hinv). by eapply list_elem_of_lookup_2.
Qed.

(** The slot to free: a neighbour that is not a child in the tree. *)
Lemma removable_slot_ok source x :
  l !! source = Some x → (∃ v, v ∈ x ∧ parent !! Z.to_nat v ≠ Some (Some source)) →
  ∃ slot v, removable_slot node_distance source parent x = Ok slot ∧ x !! slot = Some v ∧ parent !! Z.to_nat v ≠ Some (Some source).
Proof.
  intros Hx Hv. unfold removable_slot.
  assert (∀ pre suf, x = pre ++ suf → ∃ best, try_fold (removable_step node_distance source parent) None (imap pair pre) = Ok best ∧
    ((∃ v, v ∈ pre ∧ parent !! Z.to_nat v ≠ Some (Some source)) → is_Some best) ∧
    ∀ slot dist, best = Some (slot, dist) → ∃ v, x !! slot = Some v ∧ parent !! Z.to_nat v ≠ Some (Some source)) as Hloop.
  { induction pre as [|v pre IH] using rev_ind; intros suf E; [exists None; split_and!; [done|set_solver|done]|].
    rewrite <- app_assoc in E. destruct (IH _ E) as (best & Eb & Hsome & Hbest). rewrite imap_app, try_fold_app, Eb. cbn [mbind io_result_bind imap try_fold compose].
    assert (x !! length pre = Some v) as Hxv by (rewrite E; by apply list_lookup_middle).
    destruct (lookup_lt_is_Some_2 parent (Z.to_nat v)) as [p Hp].
    { rewrite (ri_parents _ _ _ _ _ Hinv). eapply neighbor_bound; [done|]. by eapply list_elem_of_lookup_2. }
    unfold removable_step. rewrite Hp. cbn [expect mbind io_result_bind]. rewrite Nat.add_0_r. case_bool_decide as Hps.
    - subst p. exists best. split_and!; [done| |done]. intros (w & [Hw| ->%list_elem_of_singleton]%elem_of_app & Hn); [eauto|congruence].
    - eexists. split_and!; [done|intros _; destruct best as [b|]; [destruct (farther _ _)|]; by eexists|].
      intros slot dist. destruct best as [[b1 b2]|]; [destruct (farther _ _)|]; intros [= E1 E2]; subst.
      + exists v. split; [done|congruence].
      + by apply (Hbest slot dist).
      + exists v. split; [done|congruence]. }
  destruct (Hloop x []) as (best & -> & Hsome & Hbest); [by rewrite app_nil_r|]. destruct (Hsome Hv) as [[slot dist] ->].
  cbn. destruct (Hbest slot dist eq_refl) as (v & ? & ?). by exists slot, v.
Qed.

(** What attaching [target] below [source] does to its neighbours. *)
Record attached (source target : nat) (x x' : list Z) : Prop := {
  at_len : (length x' ≤ d)%nat;
  at_nodup : NoDup x';
  at_target : Z.of_nat target ∈ x';
  at_sub : ∀ v, v ∈ x' → v = Z.of_nat target ∨ v ∈ x;
  at_tree : ∀ v, v ∈ x → parent !! Z.to_nat v = Some (Some source) → v ∈ x';
}.

Lemma room_below source target x :
  vis visited source → (target < n)%nat → ¬ vis visited target → l !! source = Some x → (length x < d)%nat → (length x < max_degree adj)%nat.
Proof.
  intros Hs Ht Hnt Hx Hlt. destruct (ri_stride _ _ _ _ _ Hinv) as [?|Hst]; [lia|].
  destruct (ri_valid _ _ _ _ _ Hinv source x Hx) as (_ & Hnd & Hr). rewrite Forall_forall in Hr. rewrite (ri_len _ _ _ _ _ Hinv) in Hr.
  assert (Z.of_nat target ∉ x) as Htx by (intros Hin; apply Hnt; apply (ri_closed _ _ _ _ _ Hinv source); [done|by exists x]).
  assert (Z.of_nat source ∉ x) as Hsx by (intros Hin; destruct (Hr _ Hin); done).
  assert (Z.of_nat target :: Z.of_nat source :: x ⊆+ Z.of_nat <$> seq 0 n) as Hsub.
  { apply NoDup_submseteq.
    - rewrite !NoDup_cons. split_and!; [|done|done]. intros [E|?]%elem_of_cons; [|done]. assert (target = source) as -> by lia. done.
    - pose proof (visible_bound source Hs). intros v [->|[->|Hv]%elem_of_cons]%elem_of_cons; apply list_elem_of_fmap.
      + exists target. split; [done|]. apply elem_of_seq. lia.
      + exists source. split; [done|]. apply elem_of_seq. lia.
      + destruct (Hr v Hv) as [? _]. exists (Z.to_nat v). split; [lia|]. apply elem_of_seq. lia. }
  apply submseteq_length in Hsub. rewrite length_fmap, length_seq in Hsub. cbn in Hsub. lia.
Qed.

Lemma attach_ok source target :
  vis visited source → source_ok l d parent source → (target < n)%nat → ¬ vis visited target →
  ∃ adj' x x', attach node_distance adj source target d parent = Ok adj' ∧ l !! source = Some x ∧ rep adj' (<[source := x']> l) ∧
    max_degree adj' = max_degree adj ∧ attached source target x x'.
Proof.
  intros Hs (x & Hx & Hok) Ht Hnt. pose proof (ri_rep _ _ _ _ _ Hinv) as Hr. pose proof (rep_length adj l source x Hr Hx) as Hxl.
  destruct (ri_valid _ _ _ _ _ Hinv source x Hx) as (Hxd & Hnd & _).
  assert (Z.of_nat target ∉ x) as Htx by (intros Hin; apply Hnt; apply (ri_closed _ _ _ _ _ Hinv source); [done|by exists x]).
  unfold attach. rewrite (adj_neighbors_ok adj l source x Hr Hx). cbn [mbind io_result_bind].
  destruct (length x =? d)%nat eqn:E; [apply Nat.eqb_eq in E|apply Nat.eqb_neq in E].
  - destruct Hok as [?|Hok]; [lia|]. destruct (removable_slot_ok source x Hx Hok) as (slot & v & -> & Hsl & Hv). cbn [mbind io_result_bind].
    pose proof (lookup_lt_Some _ _ _ Hsl) as Hslt. pose proof (swap_removed_perm slot x v Hsl) as Hperm.
    pose proof (Permutation_length Hperm) as Hlen. cbn in Hlen.
    assert (NoDup (v :: swap_removed slot x)) as Hnd' by (by rewrite Hperm). apply NoDup_cons in Hnd' as [Hvn Hnd'].
    destruct (adj_swap_remove_ok adj l source x slot Hr Hx Hslt) as (adj1 & -> & Hr1 & Ed1). cbn [mbind io_result_bind].
    destruct (adj_push_ok adj1 _ source (swap_removed slot x) (Z.of_nat target) Hr1) as (adj2 & E2 & Hr2 & Ed2);
      [apply list_lookup_insert_eq; by eapply lookup_lt_Some|lia|].
    rewrite list_insert_insert_eq in Hr2. eexists adj2, x, _. split_and!; [exact E2|done|done|congruence|]. split.
    + rewrite length_app. cbn. lia.
    + apply NoDup_app. split_and!; [done| |apply NoDup_singleton]. intros w Hw ->%list_elem_of_singleton. apply Htx. rewrite <- Hperm. set_solver.
    + set_solver.
    + intros w [Hw| ->%list_elem_of_singleton]%elem_of_app; [|by left]. right. rewrite <- Hperm. set_solver.
    + intros w Hw Hp. rewrite <- Hperm in Hw. apply elem_of_cons in Hw as [->|Hw]; [done|set_solver].
  - assert (length x < d)%nat as Hlt by lia. cbn [mbind io_result_bind].
    destruct (adj_push_ok adj l source x (Z.of_nat target) Hr Hx) as (adj2 & E2 & Hr2 & Ed2); [by eapply room_below|].
    eexists adj2, x, _. split_and!; [exact E2|done|done|done|]. split.
    + rewrite length_app. cbn. lia.
    + apply NoDup_app. split_and!; [done| |apply NoDup_singleton]. intros w Hw ->%list_elem_of_singleton. done.
    + set_solver.
    + set_solver.
    + set_solver.
Qed.

End State.

(** ** One round *)

(** Collecting needs only what [is_repair_source] looks at. *)
Lemma collect_sources_gen adj l parent nodes : ∀ acc,
  rep adj l → valid_graph l d → length parent = length l → (∀ u, u ∈ nodes → u < length l)%nat →
  ∃ acc', collect_sources adj d parent acc nodes = Ok acc' ∧
    ∀ u, u ∈ acc' ↔ u ∈ acc ∨ (u ∈ nodes ∧ source_ok l d parent u).
Proof.
  intros acc Hr Hv Hp. revert acc. unfold collect_sources. induction nodes as [|w nodes IH]; intros acc Hn; cbn [try_fold].
  { exists acc. split; [done|]. set_solver. }
  destruct (lookup_lt_is_Some_2 l w) as [x Hx]; [apply Hn; set_solver|].
  assert (∃ b, is_repair_source adj w d parent = Ok b ∧ (b = true ↔ source_ok l d parent w)) as (b & -> & Hb).
  { unfold is_repair_source. rewrite (adj_neighbors_ok adj l w x Hr Hx). cbn [mbind io_result_bind].
    destruct (length x <? d)%nat eqn:E; [apply Nat.ltb_lt in E|apply Nat.ltb_ge in E].
    { exists true. split; [done|]. split; [|done]. intros _. exists x. auto. }
    destruct (any_non_tree_ok w parent x) as (b & -> & Hb).
    { intros v Hvx. destruct (Hv w x Hx) as (_ & _ & Hr'). rewrite Forall_forall in Hr'. destruct (Hr' v Hvx). lia. }
    exists b. split; [done|]. rewrite Hb. split; [intros Hw; exists x; auto|].
    intros (y & Hy & Hs). rewrite Hx in Hy. injection Hy as <-. destruct Hs; [lia|done]. }
  cbn [mbind io_result_bind]. destruct (IH (if b then acc ++ [w] else acc)) as (acc' & -> & Hspec); [set_solver|].
  exists acc'. split; [done|]. intros u. rewrite Hspec, elem_of_cons. destruct b.
  - rewrite elem_of_app, list_elem_of_singleton. split; [|naive_solver]. intros [[?| ->]|[? ?]]; [by left|right; split; [by left|by apply Hb]|naive_solver].
  - split; [naive_solver|]. intros [?|[[->|?] Hs]]; [by left|apply Hb in Hs; done|naive_solver].
Qed.

Lemma vec_swap_remove_ok index (es : list nat) s :
  es !! index = Some s → ∃ es', vec_swap_remove index es = Ok es' ∧ s :: es' ≡ₚ es.
Proof.
  intros Hs. pose proof (lookup_lt_Some _ _ _ Hs) as Hlt. unfold vec_swap_remove. destruct es as [|w a _] using rev_ind; [done|].
  rewrite last_snoc, (proj2 (Nat.ltb_lt _ _) Hlt), length_app. cbn [length]. replace (length a + 1 - 1)%nat with (length a) by lia.
  eexists. split; [done|]. apply lookup_app_Some in Hs as [Hs|(Hge & Hs)].
  - rewrite insert_app_l by (by eapply lookup_lt_Some). rewrite take_app_length' by (by rewrite length_insert).
    apply list_elem_of_split_length in Hs as (a1 & a2 & -> & ->). rewrite insert_app_r_alt by done. rewrite Nat.sub_diag. cbn.
    rewrite <- !Permutation_middle, app_nil_r. apply perm_swap.
  - apply list_lookup_singleton_Some in Hs as [Hz ->]. rewrite insert_app_r_alt, take_app_length by done. by rewrite Permutation_app_comm.
Qed.

Lemma tree_path_trans p r m i : tree_path p r m → tree_path p m i → tree_path p r i.
Proof. intros Hm Hi. induction Hi as [|i u Hi _ IH]; [done|]. by econstructor. Qed.

(** The graph after attaching [target] below [source]. *)
Section Attached.
Context (adj : CompactAdjacency) (l : list (list Z)) (visited0 : list bool) (parent0 : list (option nat)) (eligible : list nat).
Context (Hinv : repair_inv adj l visited0 parent0 eligible).
Context (source target : nat) (x x' : list Z) (adj' : CompactAdjacency).
Context (Hsource : vis visited0 source) (Htarget : visited0 !! target = Some false).
Context (Hx : l !! source = Some x) (Hat : attached parent0 source target x x').
Context (Hrep' : rep adj' (<[source := x']> l)) (Hdeg' : max_degree adj' = max_degree adj).

Let l1 := <[source := x']> l.

Lemma source_lt : (source < length l)%nat.
Proof. by eapply lookup_lt_Some. Qed.

Lemma edge_source v : edge l1 source v ↔ Z.of_nat v ∈ x'.
Proof.
  unfold edge, l1. rewrite list_lookup_insert_eq by apply source_lt. split; [intros (? & [= <-] & ?); done|eauto].
Qed.
Lemma edge_other u v : u ≠ source → edge l1 u v ↔ edge l u v.
Proof. intros Hne. unfold edge, l1. by rewrite list_lookup_insert_ne. Qed.

Lemma target_lt : (target < n)%nat.
Proof. rewrite <- (ri_marks _ _ _ _ _ Hinv). by eapply lookup_lt_Some. Qed.

Lemma attached_valid : valid_graph l1 d.
Proof.
  intros i y Hy. unfold l1 in *. rewrite length_insert. destruct (decide (source = i)) as [<-|Hne].
  - rewrite list_lookup_insert_eq in Hy by apply source_lt. injection Hy as <-.
    destruct (ri_valid _ _ _ _ _ Hinv source x Hx) as (_ & _ & Hr). rewrite Forall_forall in Hr.
    split_and!; [apply (at_len _ _ _ _ _ Hat)|apply (at_nodup _ _ _ _ _ Hat)|]. apply Forall_forall. intros v Hv.
    destruct (at_sub _ _ _ _ _ Hat v Hv) as [->|?]; [|auto]. rewrite (ri_len _ _ _ _ _ Hinv). pose proof target_lt. split; [lia|].
    intros E. assert (target = source) as -> by lia. congruence.
  - rewrite list_lookup_insert_ne in Hy by done. by apply (ri_valid _ _ _ _ _ Hinv).
Qed.

(** A tree edge of before is still there. *)
Lemma tree_edge_kept i u : parent0 !! i = Some (Some u) → edge l1 u i.
Proof.
  intros Hp. destruct (ri_parent _ _ _ _ _ Hinv i u Hp) as (_ & _ & _ & He). destruct (decide (u = source)) as [->|Hne].
  - apply edge_source. destruct He as (y & Hy & Hiy). rewrite Hx in Hy. injection Hy as <-.
    apply (at_tree _ _ _ _ _ Hat); [done|]. by rewrite Nat2Z.id.
  - by apply edge_other.
Qed.

Context (found : Bfs).
Context (Hbfs : bfs_inv l1 visited0 (<[target := Some source]> parent0) target found) (Hpop : popped found = pushed found).
Context (Hcl : ∀ u v, u ∈ pushed found → edge l1 u v → (v < length l1)%nat → vis (visited found) v).

Lemma found_vis i : vis (visited found) i ↔ vis visited0 i ∨ i ∈ pushed found.
Proof. apply (bi_vis _ _ _ _ _ Hbfs). Qed.

Lemma found_old_parent i : vis visited0 i → parent found !! i = parent0 !! i.
Proof.
  intros Hi. assert (i ≠ target) by (intros ->; congruence).
  rewrite (bi_kept _ _ _ _ _ Hbfs i); [by rewrite list_lookup_insert_ne|]. left. intros Hin. pose proof (bi_fresh _ _ _ _ _ Hbfs i Hin). congruence.
Qed.

Lemma found_root_parent : parent found !! target = Some (Some source).
Proof.
  rewrite (bi_kept _ _ _ _ _ Hbfs target) by auto. apply list_lookup_insert_eq. rewrite (ri_parents _ _ _ _ _ Hinv). apply target_lt.
Qed.

Lemma tree_mono j u : parent0 !! j = Some (Some u) → parent found !! j = Some (Some u).
Proof. intros Hj. rewrite found_old_parent; [done|]. by apply (ri_parent _ _ _ _ _ Hinv j u). Qed.

Lemma found_tree i : vis (visited found) i → tree_path (parent found) entry i.
Proof.
  intros [Hi|Hi]%found_vis.
  - eapply tree_path_mono; [exact tree_mono|]. by apply (ri_tree _ _ _ _ _ Hinv).
  - eapply tree_path_trans; [|by apply (bi_tree _ _ _ _ _ Hbfs)]. econstructor; [apply found_root_parent|].
    eapply tree_path_mono; [exact tree_mono|]. by apply (ri_tree _ _ _ _ _ Hinv).
Qed.

Lemma found_parent i u : parent found !! i = Some (Some u) → i ≠ entry ∧ vis (visited found) i ∧ vis (visited found) u ∧ edge l1 u i.
Proof.
  intros Hp. pose proof (ri_entry _ _ _ _ _ Hinv) as Hent.
  destruct (decide (i ∈ pushed found)) as [Hi|Hi].
  - assert (i ≠ entry) by (intros ->; pose proof (bi_fresh _ _ _ _ _ Hbfs entry Hi); congruence).
    destruct (decide (i = target)) as [->|Hne].
    + rewrite found_root_parent in Hp. injection Hp as <-. split_and!; [done|apply found_vis; by right|apply found_vis; by left|].
      apply edge_source, (at_target _ _ _ _ _ Hat).
    + destruct (bi_parent _ _ _ _ _ Hbfs i Hi Hne) as (u' & Hu' & Hpu & He). rewrite Hp in Hu'. injection Hu' as <-.
      split_and!; [done|apply found_vis; by right|apply found_vis; right; by rewrite <- Hpop|done].
  - assert (i ≠ target) as Hne.
    { intros ->. apply Hi. apply head_Some_elem_of, (bi_root _ _ _ _ _ Hbfs). }
    rewrite (bi_kept _ _ _ _ _ Hbfs i), list_lookup_insert_ne in Hp by auto.
    destruct (ri_parent _ _ _ _ _ Hinv i u Hp) as (? & ? & ? & _). split_and!; [done|apply found_vis; by left|apply found_vis; by left|by apply tree_edge_kept].
Qed.

Lemma found_closed u v : vis (visited found) u → edge l1 u v → vis (visited found) v.
Proof.
  intros [Hu|Hu]%found_vis He.
  - apply found_vis. destruct (decide (u = source)) as [->|Hne].
    + apply edge_source in He. destruct (at_sub _ _ _ _ _ Hat _ He) as [E|Hin].
      * right. assert (v = target) as -> by lia. apply head_Some_elem_of, (bi_root _ _ _ _ _ Hbfs).
      * left. apply (ri_closed _ _ _ _ _ Hinv source); [done|]. by exists x.
    + left. apply (ri_closed _ _ _ _ _ Hinv u); [done|]. by apply edge_other.
  - apply (Hcl u); [done|done|]. destruct He as (y & Hy & Hv). destruct (attached_valid u y Hy) as (_ & _ & Hr).
    rewrite Forall_forall in Hr. destruct (Hr _ Hv). lia.
Qed.

(** A node that was reachable and is not the source gains no room. *)
Lemma source_ok_kept u : vis visited0 u → u ≠ source → source_ok l1 d (parent found) u → source_ok l d parent0 u.
Proof.
  intros Hu Hne (y & Hy & Hs). unfold l1 in Hy. rewrite list_lookup_insert_ne in Hy by done. exists y. split; [done|].
  destruct Hs as [?|(v & Hv & Hn)]; [by left|right]. exists v. split; [done|]. intros Hp. apply Hn. by apply tree_mono.
Qed.

Lemma attached_inv es es' :
  source :: es ≡ₚ eligible →
  (∀ u, u ∈ es' ↔ u ∈ es ∨ (u ∈ source :: pushed found ∧ source_ok l1 d (parent found) u)) →
  repair_inv adj' l1 (visited found) (parent found) es'.
Proof.
  intros Hes Hes'. split.
  - exact Hrep'.
  - rewrite Hdeg'. apply Hinv.
  - unfold l1. rewrite length_insert. apply Hinv.
  - rewrite (bi_marks _ _ _ _ _ Hbfs). unfold l1. rewrite length_insert. apply Hinv.
  - rewrite (bi_parents _ _ _ _ _ Hbfs). unfold l1. rewrite length_insert. apply Hinv.
  - apply attached_valid.
  - apply found_vis. left. apply Hinv.
  - exact found_tree.
  - exact found_parent.
  - exact found_closed.
  - intros u Hu Hs. apply Hes'. destruct (decide (u ∈ source :: pushed found)) as [Hin|Hin]; [by right|left].
    apply not_elem_of_cons in Hin as [Hne Hnp]. apply found_vis in Hu as [Hu|?]; [|done].
    pose proof (ri_eligible _ _ _ _ _ Hinv u Hu (source_ok_kept u Hu Hne Hs)) as Hin. rewrite <- Hes in Hin. by apply elem_of_cons in Hin as [?|?].
  - intros u [Hu|[[->|Hu]%elem_of_cons _]]%Hes'; apply found_vis.
    + left. apply (ri_visible _ _ _ _ _ Hinv). rewrite <- Hes. by right.
    + by left.
    + by right.
Qed.

End Attached.

Lemma repair_round_ok st l target :
  repair_inv (rs_adj st) l (rs_visited st) (rs_parent st) (rs_eligible st) → rs_visited st !! target = Some false →
  ∃ st' l', repair_round node_distance st target d = Ok st' ∧
    repair_inv (rs_adj st') l' (rs_visited st') (rs_parent st') (rs_eligible st') ∧
    (unmarked (rs_visited st') < unmarked (rs_visited st))%nat ∧ rs_cursor st' = target ∧ vis (rs_visited st') target ∧
    (∀ i, vis (rs_visited st) i → vis (rs_visited st') i) ∧ max_degree (rs_adj st') = max_degree (rs_adj st) ∧ keeps_neighbors l l'.
Proof.
  destruct st as [adj v p es cur stats]. cbn [rs_adj rs_visited rs_parent rs_eligible rs_cursor rs_stats]. intros Hi Ht.
  assert (target < n)%nat as Htn by (rewrite <- (ri_marks _ _ _ _ _ Hi); by eapply lookup_lt_Some).
  unfold repair_round. cbn [rs_adj rs_visited rs_parent rs_eligible rs_stats].
  destruct (select_ok adj l v p es Hi target stats) as (index & source & stats' & -> & Hidx & Hs & Hvs). cbn [mbind io_result_bind].
  destruct (vec_swap_remove_ok index es source Hidx) as (es1 & -> & Hes1). cbn [mbind io_result_bind].
  destruct (attach_ok adj l v p es Hi source target Hvs Hs Htn) as (adj' & x & x' & -> & Hx & Hr' & Ed & Hat); [congruence|].
  cbn [mbind io_result_bind]. pose proof (attached_valid adj l v p es Hi source target x x' adj' Hvs Ht Hx Hat Ed) as Hval.
  destruct (bfs_from_ok adj' (<[source := x']> l) Hr' false) with (v0 := v) (p0 := <[target := Some source]> p) (root := target)
    as (found & -> & Hbfs & Hpop & Hcl).
  { apply Forall_lookup. intros i y Hy. destruct (Hval i y Hy) as (_ & _ & Hy'). eapply Forall_impl; [exact Hy'|]. cbn. lia. }
  { right. apply Forall_lookup. intros i y Hy. destruct (Hval i y Hy) as (_ & _ & Hy'). eapply Forall_impl; [exact Hy'|]. cbn. unfold zlen. lia. }
  { rewrite length_insert, (ri_marks _ _ _ _ _ Hi), (ri_len _ _ _ _ _ Hi). done. }
  { rewrite !length_insert, (ri_parents _ _ _ _ _ Hi), (ri_len _ _ _ _ _ Hi). done. }
  { done. }
  { intros i Hne. rewrite list_lookup_insert_ne by done. destruct (p !! i) as [[u|]|] eqn:Ep; [right|by left|right].
    - destruct (ri_parent _ _ _ _ _ Hi i u Ep) as (_ & Hv & _). congruence.
    - apply lookup_ge_None in Ep. rewrite (ri_parents _ _ _ _ _ Hi) in Ep. rewrite lookup_ge_None_2; [done|rewrite (ri_marks _ _ _ _ _ Hi); lia]. }
  cbn [mbind io_result_bind].
  assert (∀ u, u ∈ source :: pushed found → (u < n)%nat) as Hlt.
  { intros u [->|Hu]%elem_of_cons; rewrite <- (ri_marks _ _ _ _ _ Hi); [by eapply lookup_lt_Some|]. eapply lookup_lt_Some. by apply (bi_fresh _ _ _ _ _ Hbfs). }
  destruct (collect_sources_gen adj' (<[source := x']> l) (parent found) (source :: pushed found) es1 Hr' Hval) as (es2 & -> & Hes2).
  { apply (bi_parents _ _ _ _ _ Hbfs). } { rewrite length_insert, (ri_len _ _ _ _ _ Hi). done. }
  cbn [mbind io_result_bind]. eexists _, (<[source := x']> l). assert (∀ i, vis v i → vis (visited found) i) as Hmono by (intros i Hvi; apply (bi_vis _ _ _ _ _ Hbfs); by left).
  assert (vis (visited found) target) as Hvt by (apply (bi_vis _ _ _ _ _ Hbfs); right; apply head_Some_elem_of, (bi_root _ _ _ _ _ Hbfs)).
  split_and!; [done| | |done|done|done|done|]; cbn [rs_adj rs_visited rs_parent rs_eligible].
  - by apply (attached_inv adj l v p es Hi source target x x' adj' Hvs Ht Hx Hat Hr' Ed found Hbfs Hpop Hcl es1).
  - apply (unmarked_lt _ _ target).
    + rewrite (bi_marks _ _ _ _ _ Hbfs), length_insert, (ri_marks _ _ _ _ _ Hi), (ri_len _ _ _ _ _ Hi). done.
    + done.
    + done.
    + done.
  - apply keeps_neighbors_insert. pose proof (at_target _ _ _ _ _ Hat) as Hin. intros ->. by apply not_elem_of_nil in Hin.
Qed.

(** ** The loop *)

Lemma advance_cursor_ok fuel v cursor :
  (∀ i, (i < cursor)%nat → vis v i) → (cursor ≤ length v)%nat → (length v ≤ cursor + fuel)%nat →
  let c := advance_cursor fuel v cursor in
  (c ≤ length v)%nat ∧ (∀ i, (i < c)%nat → vis v i) ∧ (c < length v → v !! c = Some false)%nat.
Proof.
  revert cursor. induction fuel as [|fuel IH]; intros cursor Hv Hc Hf; cbn [advance_cursor].
  { split_and!; [done|done|lia]. }
  destruct (v !! cursor) as [[]|] eqn:E.
  - apply IH; [|apply lookup_lt_Some in E; lia|lia]. intros i Hi. destruct (decide (i = cursor)) as [->|]; [done|]. apply Hv. lia.
  - split_and!; [done|done|done].
  - apply lookup_ge_None in E. split_and!; [done|done|lia].
Qed.

Lemma repair_loop_ok fuel : ∀ st l,
  (unmarked (rs_visited st) < fuel)%nat →
  repair_inv (rs_adj st) l (rs_visited st) (rs_parent st) (rs_eligible st) → (∀ i, (i < rs_cursor st)%nat → vis (rs_visited st) i) →
  (rs_cursor st ≤ length (rs_visited st))%nat →
  ∃ st' l', repair_loop node_distance fuel st d = Ok st' ∧ rep (rs_adj st') l' ∧ valid_graph l' d ∧ length l' = n ∧ max_degree (rs_adj st') = max_degree (rs_adj st) ∧ all_reachable l' entry ∧ keeps_neighbors l l'.
Proof.
  induction fuel as [|fuel IH]; intros st l Hf Hi Hcur Hle; [lia|]. cbn [repair_loop].
  destruct (advance_cursor_ok (length (rs_visited st)) (rs_visited st) (rs_cursor st) Hcur Hle ltac:(lia)) as (Hc & Hall & Hnext).
  set (c := advance_cursor _ _ _) in *. destruct (c =? length (rs_visited st))%nat eqn:E; [apply Nat.eqb_eq in E|apply Nat.eqb_neq in E].
  - exists st, l. split_and!; [done|apply Hi|apply Hi|apply Hi|done| |done]. intros v Hv. rewrite (ri_len _ _ _ _ _ Hi) in Hv.
    assert (vis (rs_visited st) v) as Hvv by (apply Hall; rewrite E, (ri_marks _ _ _ _ _ Hi); done).
    pose proof (ri_tree _ _ _ _ _ Hi v Hvv) as Ht. clear Hvv. induction Ht as [|i u Hiu _ IHt]; [done|].
    destruct (ri_parent _ _ _ _ _ Hi i u Hiu) as (_ & Hvi & Hvu & He). pose proof (visible_bound _ _ _ _ _ Hi u Hvu).
    eapply rtc_r; [by apply IHt|]. split; [done|]. by rewrite (ri_len _ _ _ _ _ Hi).
  - assert (c < length (rs_visited st))%nat as Hlt by lia. specialize (Hnext Hlt).
    destruct (repair_round_ok st l c Hi Hnext) as (st1 & l1 & E1 & Hi1 & Hdec & Ec1 & Hvc & Hmono & Ed1 & Hk1). rewrite E1. cbn [mbind io_result_bind].
    destruct (IH st1 l1) as (st2 & l2 & E2 & Hr2 & Hv2 & Hl2 & Ed2 & Ha2 & Hk2); [lia|done| | |].
    + intros i Hi'. rewrite Ec1 in Hi'. auto.
    + rewrite Ec1, (ri_marks _ _ _ _ _ Hi1), <- (ri_marks _ _ _ _ _ Hi). lia.
    + exists st2, l2. split_and!; [exact E2|done|done|done|congruence|done|by etrans].
Qed.

End Invariant.

Lemma reachable_nodes_elem v i :
  i ∈ omap (λ '(node, reachable), if (reachable : bool) then Some node else None) (imap pair v) ↔ vis v i.
Proof.
  rewrite list_elem_of_omap. split.
  - intros ([j b] & (k & Hk)%list_elem_of_lookup_1 & Hb). rewrite list_lookup_imap in Hk. destruct (v !! k) as [c|] eqn:Ek; [|done].
    cbn in Hk. injection Hk as <- <-. destruct c; [|done]. by injection Hb as <-.
  - intros Hi. exists (i, true). split; [|done]. apply list_elem_of_lookup_2 with i. by rewrite list_lookup_imap, Hi.
Qed.

Lemma valid_nonneg l d : valid_graph l d → Forall (Forall (λ v, 0 <= v)) l.
Proof.
  intros Hv. apply Forall_lookup. intros i x Hx. destruct (Hv i x Hx) as (_ & _ & Hx'). eapply Forall_impl; [exact Hx'|]. cbn. lia.
Qed.
Lemma valid_range l d : valid_graph l d → Forall (Forall (λ v, v < zlen l)) l.
Proof.
  intros Hv. apply Forall_lookup. intros i x Hx. destruct (Hv i x Hx) as (_ & _ & Hx'). eapply Forall_impl; [exact Hx'|]. cbn. unfold zlen. lia.
Qed.

Lemma repair_ok node_distance g l d :
  rep (adjacency g) l → valid_graph l d → (1 ≤ d)%nat → (Z.to_nat (entry_node g) < length l)%nat →
  (d ≤ max_degree (adjacency g) ∨ length l ≤ S (max_degree (adjacency g)))%nat →
  ∃ g' stats l', repair_connectivity_with_stats node_distance g d = Ok (g', stats) ∧ rep (adjacency g') l' ∧ entry_node g' = entry_node g ∧
    valid_graph l' d ∧ length l' = length l ∧ all_reachable l' (Z.to_nat (entry_node g)) ∧ keeps_neighbors l l' ∧
    max_degree (adjacency g') = max_degree (adjacency g).
Proof.
  intros Hr Hv Hd He Hst. set (entry := Z.to_nat (entry_node g)) in *.
  destruct (bfs_fresh (adjacency g) l Hr false (valid_nonneg l d Hv) (or_intror (valid_range l d Hv)) entry He) as (st & E & Hi & Hpop & Hvis & Hreach).
  unfold repair_connectivity_with_stats, reachability_tree, adj_len. rewrite (rep_count _ _ Hr). fold entry. rewrite E. cbn [mbind io_result_bind].
  destruct (collect_sources_gen node_distance d Hd (adjacency g) l (parent st)
    (omap (λ '(node, reachable), if (reachable : bool) then Some node else None) (imap pair (visited st))) [] Hr Hv) as (es & -> & Hes).
  { apply (bi_parents _ _ _ _ _ Hi). }
  { intros u Hu%reachable_nodes_elem. rewrite <- (bi_marks _ _ _ _ _ Hi). by eapply lookup_lt_Some. }
  cbn [mbind io_result_bind].
  assert (∀ i u, parent st !! i = Some (Some u) → i ∈ pushed st ∧ i ≠ entry ∧ u ∈ pushed st ∧ edge l u i) as Hpar.
  { intros i u Hp. destruct (decide (i ∈ pushed st ∧ i ≠ entry)) as [[Hin Hne]|Hno].
    - destruct (bi_parent _ _ _ _ _ Hi i Hin Hne) as (u' & Hu' & Hpu & Hedge). rewrite Hp in Hu'. injection Hu' as <-.
      split_and!; [done|done|by rewrite <- Hpop|done].
    - rewrite (bi_kept _ _ _ _ _ Hi i) in Hp; [by apply lookup_replicate in Hp as [? _]|].
      destruct (decide (i = entry)); [by right|left; tauto]. }
  destruct (repair_loop_ok node_distance (length l) d entry Hd (S (length (visited st)))
    (Repairing (adjacency g) (visited st) (parent st) es 0 (RepairStats 1 0 0)) l) as (st' & l' & -> & Hr' & Hv' & Hl' & Ed' & Ha' & Hk');
    cbn [rs_adj rs_visited rs_parent rs_eligible rs_cursor].
  { pose proof (unmarked_le (visited st)). lia. }
  { split; try done.
    - apply (bi_marks _ _ _ _ _ Hi).
    - apply (bi_parents _ _ _ _ _ Hi).
    - apply Hvis, head_Some_elem_of, (bi_root _ _ _ _ _ Hi).
    - intros i Hi'%Hvis. by apply (bi_tree _ _ _ _ _ Hi).
    - intros i u Hp. destruct (Hpar i u Hp) as (? & ? & ? & ?). rewrite !Hvis. done.
    - intros u v Hu He'. apply Hvis, Hreach. apply Hvis, Hreach in Hu as [_ Hu].
      assert (v < length l)%nat as Hvl.
      { destruct He' as (x & Hx & Hvx). destruct (Hv u x Hx) as (_ & _ & Hx'). rewrite Forall_forall in Hx'. destruct (Hx' _ Hvx). lia. }
      split; [done|]. eapply rtc_r; [exact Hu|done].
    - intros u Hu Hs. apply Hes. right. split; [|done]. by apply reachable_nodes_elem.
    - intros u [?|[Hu _]]%Hes; [set_solver|]. by apply reachable_nodes_elem. }
  { lia. } { lia. }
  cbn [mbind io_result_bind]. eexists _, _, l'. split_and!; [done|done|done|done|done|done|done|done].
Qed.

(** C20: connectivity repair always succeeds on a valid graph with a positive
    degree bound, whatever the distances and however full the nodes are: a
    source with a free or replaceable slot always exists, no step panics (not
    even when the stored stride is smaller than the degree bound), and the
    result keeps the nodes and the entry, is valid for the same bound and
    reaches every node from the entry, which the checks that follow confirm.  No
    node loses its last neighbour. *)
Theorem repair_connects_graph node_distance g l d :
  rep (adjacency g) l → valid_graph l d → (1 ≤ d)%nat → (Z.to_nat (entry_node g) < length l)%nat →
  (d ≤ max_degree (adjacency g) ∨ length l ≤ S (max_degree (adjacency g)))%nat →
  ∃ g' stats l', repair_connectivity_with_stats node_distance g d = Ok (g', stats) ∧ adj_iter (adjacency g') = Ok l' ∧
    entry_node g' = entry_node g ∧ length l' = length l ∧ valid_graph l' d ∧ all_reachable l' (Z.to_nat (entry_node g)) ∧
    validate g' d = Ok () ∧ is_fully_reachable g' = Ok true ∧ keeps_neighbors l l'.
Proof.
  intros Hr Hv Hd He Hst. destruct (repair_ok node_distance g l d Hr Hv Hd He Hst) as (g' & stats & l' & E & Hr' & Een & Hv' & Hl' & Ha' & Hk' & _).
  exists g', stats, l'. split_and!; try done; [by apply adj_iter_ok|by apply (validate_ok g' l' d Hr' (valid_nonneg l' d Hv'))|].
  destruct (is_fully_reachable_ok g' l' Hr' (valid_nonneg l' d Hv')) as (b & -> & Hb). f_equal. apply Hb. rewrite Een, Hl'. done.
Qed.

(** A full ring of three and two nodes nothing points to. *)
Definition broken_lists : list (list Z) := [[1]; [2]; [0]; [4]; [0]].
Definition broken_adjacency : CompactAdjacency :=
  match from_nested broken_lists 1 with Ok adj => adj | _ => adj_empty 0 0 end.

Lemma repair_connects_graph_witness :
  ∃ g' stats l', repair_connectivity_with_stats (λ _ _, 0) (Graph 0 broken_adjacency) 1 = Ok (g', stats) ∧
    adj_iter (adjacency g') = Ok l' ∧ l' = [[1]; [2]; [3]; [4]; [0]] ∧ is_fully_reachable g' = Ok true.
Proof.
  destruct (repair_connects_graph (λ _ _, 0) (Graph 0 broken_adjacency) broken_lists 1) as (g' & stats & l' & E & El & _ & _ & _ & _ & _ & Hf & _).
  - destruct (from_nested_ok broken_lists 1) as (adj & E & Hr & _); [done| |cbn; unfold broken_adjacency; by rewrite E].
    repeat (apply Forall_cons_2; [vm_compute; lia|]). constructor.
  - apply valid_graph_check; repeat (apply Forall_cons_2; [first [by vm_compute|repeat (apply Forall_cons_2; [lia|]); constructor]|]); constructor.
  - lia.
  - vm_compute. lia.
  - left. vm_compute. lia.
  - exists g', stats, l'. split_and!; try done.
    assert ((p ← repair_connectivity_with_stats (λ _ _, 0) (Graph 0 broken_adjacency) 1; adj_iter (adjacency p.1))
      = Ok [[1]; [2]; [3]; [4]; [0]]) as E' by (vm_compute; reflexivity).
    rewrite E in E'. cbn [mbind io_result_bind fst] in E'. rewrite El in E'. by injection E'.
Defined.
