(* ===== verification/RobustPrune.v ===== *)
(** Robust pruning of Vamana candidates: [robust_prune_candidates_into],
    [retain_after_prune], [scored_node_order] and [group_reverse_edges] of
    [core/src/vamana.rs].

    The distance kernels and the product [alpha * x] are arguments: a distance
    between two nodes, the four-lane kernel, and the early-exit comparison.  The
    theorem is about what the in-place compaction selects, for whatever the
    kernels answer; the four lanes need not agree with the single kernel. *)

From stdpp Require Import sorting.
From S2P Require Import Prelude F32 Adjacency DiskannUtil RowIds DiskannHeader CompactAdjacency VamanaGraph.

Record ScoredNode := Scored { id : Z; distance : Z }.
#[export] Instance ScoredNode_eq_dec : EqDecision ScoredNode.
Proof. solve_decision. Defined.

(** [scored_node_order]: [total_cmp] on the distance, then the identifier. *)
Definition scored_le (a b : ScoredNode) : Prop :=
  f32_total_key (distance a) < f32_total_key (distance b) ∨
  (f32_total_key (distance a) = f32_total_key (distance b) ∧ id a <= id b).
#[export] Instance scored_le_dec a b : Decision (scored_le a b).
Proof. unfold scored_le. apply _. Defined.
#[export] Instance scored_le_total : Total scored_le.
Proof. intros a b. unfold scored_le. lia. Qed.
#[export] Instance scored_le_trans : Transitive scored_le.
Proof. intros a b c. unfold scored_le. lia. Qed.

(** [Vec::dedup] *)
Fixpoint dedup {A} `{EqDecision A} (l : list A) : list A :=
  match l with
  | a :: (b :: _) as rest => if decide (a = b) then dedup rest else a :: dedup rest
  | l => l
  end.

Lemma dedup_elem {A} `{EqDecision A} (l : list A) a : a ∈ dedup l ↔ a ∈ l.
Proof.
  induction l as [|x [|y l] IH]; [done|done|]. change (dedup (x :: y :: l)) with (if decide (x = y) then dedup (y :: l) else x :: dedup (y :: l)).
  case_decide as E; [subst; rewrite IH; set_solver|]. rewrite !elem_of_cons, IH, elem_of_cons. done.
Qed.

Lemma dedup_sorted l : StronglySorted Z.le l → StronglySorted Z.lt (dedup l).
Proof.
  induction l as [|x [|y l] IH]; intros Hs; [constructor|repeat constructor|].
  apply StronglySorted_inv in Hs as [Hs Hx]. specialize (IH Hs).
  change (dedup (x :: y :: l)) with (if decide (x = y) then dedup (y :: l) else x :: dedup (y :: l)).
  case_decide as E; [done|]. constructor; [done|]. apply Forall_forall. intros z Hz. rewrite dedup_elem in Hz.
  apply Forall_cons in Hx as [Hxy Hx]. apply StronglySorted_inv in Hs as [_ Hy]. rewrite Forall_forall in Hy.
  apply elem_of_cons in Hz as [->|Hz]; [lia|]. specialize (Hy z Hz). lia.
Qed.

Lemma strictly_sorted_NoDup (l : list Z) : StronglySorted Z.lt l → NoDup l.
Proof. induction 1 as [|x l _ IH Hx]; constructor; [|done]. intros Hin. rewrite Forall_forall in Hx. specialize (Hx x Hin). lia. Qed.

(** The elements whose flag is set. *)
Fixpoint mask {A} (bs : list bool) (l : list A) : list A :=
  match bs, l with
  | b :: bs, a :: l => if b then a :: mask bs l else mask bs l
  | _, _ => []
  end.

Lemma mask_app {A} bs1 bs2 (l1 l2 : list A) : length bs1 = length l1 → mask (bs1 ++ bs2) (l1 ++ l2) = mask bs1 l1 ++ mask bs2 l2.
Proof.
  revert l1. induction bs1 as [|b bs1 IH]; intros [|a l1] Hl; try done. injection Hl as Hl. cbn. rewrite IH by done. by destruct b.
Qed.
Lemma mask_length {A} bs (l : list A) : (length (mask bs l) ≤ length l)%nat.
Proof. revert l. induction bs as [|b bs IH]; intros [|a l]; cbn; try lia. specialize (IH l). destruct b; cbn; lia. Qed.
Lemma mask_sublist {A} bs (l : list A) : mask bs l `sublist_of` l.
Proof.
  revert l. induction bs as [|b bs IH]; intros [|a l]; cbn; [constructor|apply sublist_nil_l|constructor|].
  destruct b; [by apply sublist_skip|by apply sublist_cons].
Qed.
Lemma mask_elem {A} (P : A → bool → Prop) bs (l : list A) a :
  Forall2 P l bs → a ∈ l → (a ∈ mask bs l ∧ P a true) ∨ P a false.
Proof.
  induction 1 as [|x b l bs Hp _ IH]; [set_solver|]. intros [->|Ha]%elem_of_cons; cbn.
  - destruct b; [left; set_solver|by right].
  - destruct (IH Ha) as [[? ?]|?]; [|by right]. left. destruct b; set_solver.
Qed.
Lemma mask_kept {A} (P : A → bool → Prop) bs (l : list A) a : Forall2 P l bs → a ∈ mask bs l → P a true.
Proof.
  induction 1 as [|x b l bs Hp _ IH]; [set_solver|]. cbn. destruct b; [|done]. intros [->|?]%elem_of_cons; auto.
Qed.

Lemma sorted_lookup (pool : list ScoredNode) i j p c :
  StronglySorted scored_le pool → (i < j)%nat → pool !! i = Some p → pool !! j = Some c → scored_le p c.
Proof.
  intros Hs. revert i j. induction Hs as [|a pool Hs IH Ha]; intros [|i] [|j] Hij Hi Hj; cbn in *; try done; try lia.
  - injection Hi as ->. rewrite Forall_forall in Ha. apply Ha. by eapply list_elem_of_lookup_2.
  - apply (IH i j); [lia|done|done].
Qed.

Lemma sublist_sorted (l k : list ScoredNode) : l `sublist_of` k → StronglySorted scored_le k → StronglySorted scored_le l.
Proof.
  induction 1 as [|x l k Hs IH|x l k Hs IH]; intros Hk; [constructor| |].
  - apply StronglySorted_inv in Hk as [Hk Hx]. constructor; [auto|]. rewrite Forall_forall in *. intros y Hy. apply Hx. by eapply elem_of_sublist.
  - apply StronglySorted_inv in Hk as [Hk _]. auto.
Qed.

Lemma slice_snoc {A} off n (l : list A) a : l !! (off + n)%nat = Some a → slice off (S n) l = slice off n l ++ [a].
Proof. intros Ha. unfold slice. apply take_S_r. by rewrite lookup_drop. Qed.

(** [[T; 4]] *)
Record quad (A : Type) := Quad { lane0 : A; lane1 : A; lane2 : A; lane3 : A }.
Arguments Quad {_} _ _ _ _.
Arguments lane0 {_} _.
Arguments lane1 {_} _.
Arguments lane2 {_} _.
Arguments lane3 {_} _.
Definition lanes {A} (q : quad A) : list A := [lane0 q; lane1 q; lane2 q; lane3 q].
Definition quad_map {A B} (f : A → B) (q : quad A) : quad B := Quad (f (lane0 q)) (f (lane1 q)) (f (lane2 q)) (f (lane3 q)).
Definition quad_of {A} (l : list A) : option (quad A) := match l with [a; b; c; d] => Some (Quad a b c d) | _ => None end.

Section Prune.
Context (f32_mul : Z → Z → Z).
(** [distance_between], [distance_between_four] and [distance_between_exceeds]
    (which has [alpha] as its scale) on the stored vectors. *)
Context (distance_between : nat → nat → Z) (distance_between_four : nat → quad nat → quad Z)
        (distance_between_exceeds : nat → nat → Z → Z → bool).
Context (dimension : Z) (metric : MetricType) (alpha : Z).

Definition retain_after_prune (selected_to_candidate source_to_candidate : Z) : bool :=
  match metric with
  | InnerProduct => f32_ge selected_to_candidate (f32_mul alpha source_to_candidate)
  | L2 | Cosine => f32_gt (f32_mul alpha selected_to_candidate) source_to_candidate
  end.

(** [pool[retained] = candidate; retained += 1] when the test passes. *)
Definition keep_if (test : bool) (candidate : ScoredNode) (st : list ScoredNode * nat) : io_result (list ScoredNode * nat) :=
  let '(pool, retained) := st in
  if test then
    if (retained <? length pool)%nat then Ok (<[retained := candidate]> pool, S retained) else Panic
  else Ok st.

(** [for candidate_index in from..pool.len()] with the test on each. *)
Definition compact_from (test : ScoredNode → bool) (from : nat) (st : list ScoredNode * nat) : io_result (list ScoredNode * nat) :=
  try_fold (λ st candidate_index,
    candidate ← expect (st.1 !! candidate_index); keep_if (test candidate) candidate st) st (seq from (length st.1 - from)).

(** [while candidate_index + 4 <= pool.len()] *)
Fixpoint compact_four (fuel : nat) (pivot : ScoredNode) (candidate_index : nat) (st : list ScoredNode * nat) :
    io_result (nat * (list ScoredNode * nat)) :=
  match fuel with
  | O => Ok (candidate_index, st)
  | S fuel =>
      if (candidate_index + 4 <=? length st.1)%nat then
        candidates ← expect (get_slice candidate_index 4 st.1 ≫= quad_of);
        let distances := distance_between_four (Z.to_nat (id pivot)) (quad_map (λ c, Z.to_nat (id c)) candidates) in
        st ← try_fold (λ st '(candidate, selected_to_candidate),
               keep_if (retain_after_prune selected_to_candidate (distance candidate)) candidate st) st (zip (lanes candidates) (lanes distances));
        compact_four fuel pivot (candidate_index + 4) st
      else Ok (candidate_index, st)
  end.

Definition single_test (pivot candidate : ScoredNode) : bool :=
  retain_after_prune (distance_between (Z.to_nat (id pivot)) (Z.to_nat (id candidate))) (distance candidate).
Definition exceeds_test (pivot candidate : ScoredNode) : bool :=
  distance_between_exceeds (Z.to_nat (id pivot)) (Z.to_nat (id candidate)) alpha (distance candidate).

(** What remains of the pool after its element at [next - 1] was selected. *)
Definition occlude (pivot : ScoredNode) (pool : list ScoredNode) (next : nat) : io_result (list ScoredNode) :=
  '(pool, retained) ←
    match metric with
    | L2 =>
        if dimension <? 256 then
          '(candidate_index, st) ← compact_four (length pool) pivot next (pool, next);
          compact_from (single_test pivot) candidate_index st
        else compact_from (exceeds_test pivot) next (pool, next)
    | _ => compact_from (single_test pivot) next (pool, next)
    end;
  Ok (take retained pool).

(** [while next < pool.len() && selected.len() < max_degree] *)
Fixpoint prune_loop (fuel : nat) (max_degree : nat) (pool : list ScoredNode) (next : nat) (selected : list Z) : io_result (list Z) :=
  match fuel with
  | O => Ok selected
  | S fuel =>
      if (next <? length pool)%nat && (length selected <? max_degree)%nat then
        pivot ← expect (pool !! next);
        pool ← occlude pivot pool (S next);
        prune_loop fuel max_degree pool (S next) (selected ++ [id pivot])
      else Ok selected
  end.

Definition unique_candidates (node node_count : nat) (candidates current_neighbors : list Z) : list Z :=
  dedup (merge_sort Z.le
    (filter (λ candidate, Z.to_nat candidate ≠ node ∧ (Z.to_nat candidate < node_count)%nat) (candidates ++ current_neighbors))).
Definition score (node : nat) (candidate : Z) : ScoredNode := Scored candidate (distance_between node (Z.to_nat candidate)).

Definition robust_prune_candidates (node : nat) (candidates current_neighbors : list Z) (node_count max_degree : nat) :
    io_result (list Z) :=
  let unique := unique_candidates node node_count candidates current_neighbors in
  let pool := merge_sort scored_le (score node <$> unique) in
  prune_loop (length pool) max_degree pool 0 [].

(** ** The in-place compaction is a selection *)

(** The test of [candidate] against [pivot] can answer [b]. *)
Definition tested (pivot candidate : ScoredNode) (b : bool) : Prop :=
  match metric with
  | L2 =>
      if dimension <? 256 then
        b = single_test pivot candidate ∨
        ∃ block i δ, lanes block !! i = Some (Z.to_nat (id candidate)) ∧
          lanes (distance_between_four (Z.to_nat (id pivot)) block) !! i = Some δ ∧ b = retain_after_prune δ (distance candidate)
      else b = exceeds_test pivot candidate
  | _ => b = single_test pivot candidate
  end.

Section Occlude.
Context (pivot : ScoredNode) (pool0 : list ScoredNode) (next : nat) (Hnext : (next ≤ length pool0)%nat).

(** After [i] elements: the kept ones are packed behind [next], the rest of the
    pool is untouched. *)
Definition packed (test : ScoredNode → bool → Prop) (i : nat) (st : list ScoredNode * nat) : Prop :=
  ∃ bs, Forall2 test (slice next (i - next) pool0) bs ∧ (next ≤ i)%nat ∧ length st.1 = length pool0 ∧
    drop i st.1 = drop i pool0 ∧
    st.2 = (next + length (mask bs (slice next (i - next) pool0)))%nat ∧
    take st.2 st.1 = take next pool0 ++ mask bs (slice next (i - next) pool0).

Lemma packed_start test : packed test next (pool0, next).
Proof.
  exists []. unfold slice. rewrite Nat.sub_diag, take_0. cbn [fst snd mask length]. rewrite app_nil_r. split_and!; [constructor|lia|done|done|lia|done].
Qed.

Lemma packed_keep (test : ScoredNode → bool → Prop) i st c b :
  packed test i st → (i < length pool0)%nat → st.1 !! i = Some c → test c b →
  ∃ st', keep_if b c st = Ok st' ∧ packed test (S i) st'.
Proof.
  destruct st as [pool r]. cbn [fst snd]. intros (bs & Hbs & Hi & Hl & Hd & Hr & Ht) Hlt Hc Hb. cbn [fst snd] in *.
  assert (pool0 !! i = Some c) as Hc0 by (rewrite <- (Nat.add_0_r i), <- lookup_drop, <- Hd, lookup_drop, Nat.add_0_r; done).
  set (seg := slice next (i - next) pool0) in *.
  assert (length seg = (i - next)%nat) as Hseg by (apply length_slice; lia).
  assert (slice next (S i - next) pool0 = seg ++ [c]) as Eseg.
  { replace (S i - next)%nat with (S (i - next)) by lia. apply slice_snoc. by replace (next + (i - next))%nat with i by lia. }
  pose proof (mask_length bs seg) as Hml. pose proof (Forall2_length _ _ _ Hbs) as Hbl.
  assert (Forall2 test (seg ++ [c]) (bs ++ [b])) as Hbs' by (by apply Forall2_app; [|repeat constructor]).
  assert (mask (bs ++ [b]) (seg ++ [c]) = mask bs seg ++ if b then [c] else []) as Emask by (rewrite mask_app by lia; by destruct b).
  unfold keep_if. destruct b.
  - rewrite (proj2 (Nat.ltb_lt _ _)) by lia. eexists. split; [done|]. exists (bs ++ [true]). rewrite Eseg, Emask. cbn [fst snd].
    rewrite length_insert, length_app. cbn [length]. split_and!; [done|lia|done| |lia|].
    + rewrite drop_insert_lt by lia. rewrite <- !(Nat.add_1_r i), <- !drop_drop, Hd. done.
    + erewrite take_S_r by (apply list_lookup_insert_eq; lia). rewrite take_insert_ge by lia. rewrite Ht. by rewrite <- app_assoc.
  - eexists. split; [done|]. exists (bs ++ [false]). rewrite Eseg, Emask, app_nil_r. cbn [fst snd].
    split_and!; [done|lia|done| |lia|done]. rewrite <- !(Nat.add_1_r i), <- !drop_drop, Hd. done.
Qed.

Lemma compact_from_ok (test : ScoredNode → bool → Prop) f i st :
  packed test i st → (i ≤ length pool0)%nat → (∀ c, test c (f c)) →
  ∃ st', compact_from f i st = Ok st' ∧ packed test (length pool0) st'.
Proof.
  intros Hp Hi Hf. unfold compact_from.
  assert (∀ k, (i + k ≤ length pool0)%nat → ∃ st', try_fold (λ st candidate_index,
    candidate ← expect (st.1 !! candidate_index); keep_if (f candidate) candidate st) st (seq i k) = Ok st' ∧ packed test (i + k) st') as Hloop.
  { induction k as [|k IH]; intros Hk; [exists st; split; [done|by rewrite Nat.add_0_r]|].
    destruct IH as (st1 & E & Hp1); [lia|]. rewrite seq_S, try_fold_app, E. cbn [mbind io_result_bind try_fold].
    destruct (lookup_lt_is_Some_2 st1.1 (i + k)) as [c Hc]; [destruct Hp1 as (bs & _ & _ & -> & _); lia|].
    rewrite Hc. cbn [expect mbind io_result_bind]. destruct (packed_keep test (i + k) st1 c (f c) Hp1 ltac:(lia) Hc (Hf c)) as (st2 & -> & Hp2).
    cbn [mbind io_result_bind]. exists st2. split; [done|]. by rewrite Nat.add_succ_r. }
  destruct (Hloop (length st.1 - i)%nat) as (st' & E & Hp'); [destruct Hp as (bs & _ & _ & -> & _); lia|].
  exists st'. split; [done|]. destruct Hp as (bs & _ & _ & El & _). rewrite El in Hp'. by replace (i + (length pool0 - i))%nat with (length pool0) in Hp' by lia.
Qed.

Lemma compact_four_ok fuel : ∀ i st,
  metric = L2 → dimension < 256 → packed (tested pivot) i st → (i ≤ length pool0 ≤ i + fuel)%nat →
  ∃ i' st', compact_four fuel pivot i st = Ok (i', st') ∧ packed (tested pivot) i' st' ∧ (i' ≤ length pool0 < i' + 4)%nat.
Proof.
  induction fuel as [|fuel IH]; intros i st Hm Hdim Hp Hi; cbn [compact_four]; [exists i, st; split_and!; done || lia|].
  assert (length st.1 = length pool0) as Hl by (by destruct Hp as (bs & _ & _ & ? & _)). rewrite Hl.
  destruct (i + 4 <=? length pool0)%nat eqn:E; [apply Nat.leb_le in E|apply Nat.leb_gt in E; exists i, st; split_and!; done || lia].
  assert (∃ a b c d, slice i 4 st.1 = [a; b; c; d]) as (a & b & c & d & Eq).
  { pose proof (length_slice i 4 st.1 ltac:(lia)) as H4. destruct (slice i 4 st.1) as [|a [|b [|c [|d [|]]]]]; try done. by exists a, b, c, d. }
  rewrite (proj2 (get_slice_Some i 4 st.1 _)) by (split; [lia|symmetry; exact Eq]). cbn [mbind option_bind quad_of expect io_result_bind].
  set (q := Quad a b c d). set (ds := distance_between_four _ _).
  assert (∀ k e, lanes q !! k = Some e → st.1 !! (i + k)%nat = Some e) as Hlk.
  { intros k e Hk. assert (k < 4)%nat by (apply lookup_lt_Some in Hk; done). rewrite <- Hk. unfold q, lanes. cbn [lane0 lane1 lane2 lane3].
    rewrite <- Eq. by rewrite slice_lookup. }
  assert (drop i st.1 = drop i pool0) as Hdrop by (by destruct Hp as (bs & _ & _ & _ & ? & _)).
  assert (∀ n, (n ≤ 4)%nat → ∃ st', try_fold (λ st '(candidate, selected_to_candidate),
    keep_if (retain_after_prune selected_to_candidate (distance candidate)) candidate st) st (take n (zip (lanes q) (lanes ds))) = Ok st' ∧
    packed (tested pivot) (i + n) st') as Hloop.
  { induction n as [|n IHn]; intros Hn; [exists st; split; [done|by rewrite Nat.add_0_r]|].
    destruct IHn as (st1 & E1 & Hp1); [lia|].
    destruct (lookup_lt_is_Some_2 (zip (lanes q) (lanes ds)) n) as [[e δ] He]; [cbn; lia|].
    rewrite (take_S_r _ _ _ He), try_fold_app, E1. cbn [mbind io_result_bind try_fold].
    apply lookup_zip_Some in He as [Hen Hdn].
    assert (st1.1 !! (i + n)%nat = Some e) as Hst1.
    { destruct Hp1 as (bs & _ & _ & _ & Hd1 & _). rewrite <- (Nat.add_0_r (i + n)), <- lookup_drop, Hd1, lookup_drop, Nat.add_0_r.
      rewrite <- (Hlk n e Hen), <- !lookup_drop. by rewrite Hdrop. }
    destruct (packed_keep (tested pivot) (i + n) st1 e (retain_after_prune δ (distance e)) Hp1 ltac:(lia) Hst1) as (st2 & -> & Hp2).
    { unfold tested. rewrite Hm, (proj2 (Z.ltb_lt _ _) Hdim). right. exists (quad_map (λ c, Z.to_nat (id c)) q), n, δ. split_and!; [|done|done].
      change (lanes (quad_map (λ c0, Z.to_nat (id c0)) q)) with ((λ c, Z.to_nat (id c)) <$> lanes q). by rewrite list_lookup_fmap, Hen. }
    cbn [mbind io_result_bind]. exists st2. split; [done|]. by rewrite Nat.add_succ_r. }
  destruct (Hloop 4%nat) as (st' & E4 & Hp4); [lia|]. rewrite take_ge in E4 by (cbn; lia). rewrite E4. cbn [mbind io_result_bind].
  apply IH; [done|done|done|lia].
Qed.

(** Keeping what the kernels keep. *)
Lemma occlude_ok :
  ∃ bs, Forall2 (tested pivot) (drop next pool0) bs ∧
    occlude pivot pool0 next = Ok (take next pool0 ++ mask bs (drop next pool0)).
Proof.
  assert (∀ st, packed (tested pivot) (length pool0) st → ∃ bs, Forall2 (tested pivot) (drop next pool0) bs ∧
    (let '(pool, retained) := st in Ok (take retained pool)) = Ok (take next pool0 ++ mask bs (drop next pool0))) as Hdone.
  { intros [pool r] (bs & Hbs & _ & _ & _ & Hr & Ht). cbn [fst snd] in *.
    assert (slice next (length pool0 - next) pool0 = drop next pool0) as Es by (unfold slice; apply take_ge; rewrite length_drop; lia).
    rewrite Es in *. exists bs. by rewrite Ht. }
  unfold occlude. destruct metric eqn:Em.
  - destruct (dimension <? 256) eqn:Edim; [apply Z.ltb_lt in Edim|].
    + destruct (compact_four_ok (length pool0) next (pool0, next)) as (i & st & -> & Hp & Hi & _); [done|done|apply packed_start|lia|].
      cbn [mbind io_result_bind]. destruct (compact_from_ok (tested pivot) (single_test pivot) i st Hp Hi) as (st' & -> & Hp').
      { intros c. unfold tested. rewrite Em, (proj2 (Z.ltb_lt _ _) Edim). by left. }
      cbn [mbind io_result_bind]. by apply Hdone.
    + destruct (compact_from_ok (tested pivot) (exceeds_test pivot) next (pool0, next) (packed_start _) Hnext) as (st' & -> & Hp').
      { intros c. unfold tested. by rewrite Em, Edim. }
      cbn [mbind io_result_bind]. by apply Hdone.
  - destruct (compact_from_ok (tested pivot) (single_test pivot) next (pool0, next) (packed_start _) Hnext) as (st' & -> & Hp').
    { intros c. unfold tested. by rewrite Em. } cbn [mbind io_result_bind]. by apply Hdone.
  - destruct (compact_from_ok (tested pivot) (single_test pivot) next (pool0, next) (packed_start _) Hnext) as (st' & -> & Hp').
    { intros c. unfold tested. by rewrite Em. } cbn [mbind io_result_bind]. by apply Hdone.
Qed.

End Occlude.

(** ** The selection *)

(** What pruning selects from the sorted pool [pool0], in order: each selected
    candidate survived the tests against those selected before it; with room
    left, each candidate not selected failed the test against a nearer one. *)
Record pruned (max_degree : nat) (pool0 chosen : list ScoredNode) : Prop := {
  pr_sub : chosen `sublist_of` pool0;
  pr_degree : (length chosen ≤ max_degree)%nat;
  pr_nearest : (0 < max_degree)%nat → head chosen = head pool0;
  pr_kept : ∀ i j p c, (i < j)%nat → chosen !! i = Some p → chosen !! j = Some c → tested p c true;
  pr_complete : (length chosen < max_degree)%nat → ∀ c, c ∈ pool0 → c ∈ chosen ∨ ∃ p, p ∈ chosen ∧ scored_le p c ∧ tested p c false;
}.

Record pruning (pool0 pool : list ScoredNode) (next : nat) : Prop := {
  pg_sub : pool `sublist_of` pool0;
  pg_next : (next ≤ length pool)%nat;
  pg_head : head pool = head pool0;
  pg_kept : ∀ i j p c, (i < j)%nat → (i < next)%nat → pool !! i = Some p → pool !! j = Some c → tested p c true;
  pg_dropped : ∀ c, c ∈ pool0 → c ∈ pool ∨ ∃ p, p ∈ take next pool ∧ scored_le p c ∧ tested p c false;
}.

Lemma pruning_next pool0 pool next pivot bs :
  StronglySorted scored_le pool0 → pruning pool0 pool next → pool !! next = Some pivot →
  Forall2 (tested pivot) (drop (S next) pool) bs →
  pruning pool0 (take (S next) pool ++ mask bs (drop (S next) pool)) (S next).
Proof.
  intros Hsort [Hsub Hn Hh Hk Hd] Hp Hbs. pose proof (lookup_lt_Some _ _ _ Hp) as Hlt.
  assert (length (take (S next) pool) = S next) as Htl by (rewrite length_take; lia).
  assert (take (S next) (take (S next) pool ++ mask bs (drop (S next) pool)) = take (S next) pool) as Et by (by rewrite take_app_length').
  assert (mask bs (drop (S next) pool) `sublist_of` drop (S next) pool) as Hms by apply mask_sublist.
  assert (∀ j c, (S next ≤ j)%nat → (take (S next) pool ++ mask bs (drop (S next) pool)) !! j = Some c →
            c ∈ mask bs (drop (S next) pool)) as Hlate.
  { intros j c Hj Hc. rewrite lookup_app_r in Hc by lia. by eapply list_elem_of_lookup_2. }
  assert (∀ i p, (i < S next)%nat → (take (S next) pool ++ mask bs (drop (S next) pool)) !! i = Some p → pool !! i = Some p) as Hearly.
  { intros i p Hi Hpi. rewrite lookup_app_l, lookup_take_lt in Hpi by lia. done. }
  split.
  - etrans; [|exact Hsub]. rewrite <- (take_drop (S next) pool) at 3. by apply sublist_app.
  - rewrite length_app. lia.
  - rewrite <- Hh. destruct pool; done.
  - intros i j p c Hij Hi Hpi Hcj. apply Hearly in Hpi; [|done]. destruct (decide (j < S next)%nat) as [Hj|Hj].
    + apply Hearly in Hcj; [|done]. apply (Hk i j); [done|lia|done|done].
    + apply Hlate in Hcj; [|lia]. destruct (decide (i = next)) as [->|].
      * rewrite Hp in Hpi. injection Hpi as <-. by eapply mask_kept.
      * pose proof (elem_of_sublist _ _ _ Hcj Hms) as Hcd. apply list_elem_of_lookup_1 in Hcd as [m Hm]. rewrite lookup_drop in Hm.
        apply (Hk i (S next + m)%nat); [lia|lia|done|done].
  - rewrite Et. intros c Hc. destruct (Hd c Hc) as [Hin|(p & Hin & Hle & Ht)].
    + rewrite <- (take_drop (S next) pool) in Hin. apply elem_of_app in Hin as [Hin|Hin]; [left; set_solver|].
      destruct (mask_elem _ _ _ c Hbs Hin) as [[? _]|Hf]; [left; set_solver|]. right. exists pivot. split_and!; [| |done].
      * rewrite (take_S_r _ _ _ Hp). set_solver.
      * apply list_elem_of_lookup_1 in Hin as [m Hm]. rewrite lookup_drop in Hm.
        apply (sorted_lookup pool next (S next + m)%nat); [by eapply sublist_sorted|lia|done|done].
    + right. exists p. split_and!; [|done|done]. rewrite (take_S_r _ _ _ Hp). set_solver.
Qed.

Lemma prune_loop_ok fuel : ∀ max_degree pool0 pool next,
  StronglySorted scored_le pool0 → pruning pool0 pool next → (next ≤ max_degree)%nat → (length pool0 ≤ next + fuel)%nat →
  ∃ chosen, prune_loop fuel max_degree pool next (id <$> take next pool) = Ok (id <$> chosen) ∧ pruned max_degree pool0 chosen.
Proof.
  induction fuel as [|fuel IH]; intros max_degree pool0 pool next Hsort Hp Hmd Hf.
  - cbn [prune_loop]. exists (take next pool). split; [done|]. pose proof (sublist_length _ _ (pg_sub _ _ _ Hp)).
    assert (take next pool = pool) as Et by (apply take_ge; lia). rewrite Et. destruct Hp as [Hsub Hn Hh Hk Hd].
    split; [done|lia|done| |].
    + intros i j p c Hij Hi Hj. apply (Hk i j); try done. apply lookup_lt_Some in Hi. lia.
    + intros _ c Hc. rewrite Et in Hd. auto.
  - cbn [prune_loop]. assert (length (id <$> take next pool) = next) as El.
    { rewrite length_fmap, length_take. pose proof (pg_next _ _ _ Hp). lia. } rewrite El.
    destruct (next <? length pool)%nat eqn:E1; [apply Nat.ltb_lt in E1|apply Nat.ltb_ge in E1]; cbn [andb].
    2: { exists (take next pool). split; [done|]. assert (take next pool = pool) as Et by (apply take_ge; lia). rewrite Et.
         destruct Hp as [Hsub Hn Hh Hk Hd]. split; [done|lia|done| |].
         - intros i j p c Hij Hi Hj. apply (Hk i j); try done. apply lookup_lt_Some in Hi. lia.
         - intros _ c Hc. rewrite Et in Hd. auto. }
    destruct (next <? max_degree)%nat eqn:E2; [apply Nat.ltb_lt in E2|apply Nat.ltb_ge in E2].
    2: { exists (take next pool). split; [done|]. destruct Hp as [Hsub Hn Hh Hk Hd]. split.
         - etrans; [apply sublist_take|done].
         - rewrite length_take. lia.
         - intros Hpos. rewrite <- Hh. destruct pool, next; try done. lia.
         - intros i j p c Hij Hi Hj. apply lookup_take_Some in Hi as [Hi ?]. apply lookup_take_Some in Hj as [Hj ?]. by apply (Hk i j).
         - rewrite length_take. lia. }
    destruct (lookup_lt_is_Some_2 pool next E1) as [pivot Hpv]. rewrite Hpv. cbn [expect mbind io_result_bind].
    destruct (occlude_ok pivot pool (S next) ltac:(lia)) as (bs & Hbs & ->). cbn [mbind io_result_bind].
    pose proof (pruning_next pool0 pool next pivot bs Hsort Hp Hpv Hbs) as Hp'.
    set (pool' := take (S next) pool ++ mask bs (drop (S next) pool)) in *.
    replace ((id <$> take next pool) ++ [id pivot]) with (id <$> take (S next) pool').
    + apply (IH max_degree pool0 pool' (S next) Hsort Hp'); lia.
    + unfold pool'. rewrite take_app_length' by (rewrite length_take; lia). by rewrite (take_S_r _ _ _ Hpv), fmap_app.
Qed.

(** ** Candidates *)

Lemma unique_candidates_ok node count cands cur :
  NoDup (unique_candidates node count cands cur) ∧
  ∀ v, v ∈ unique_candidates node count cands cur ↔ (v ∈ cands ∨ v ∈ cur) ∧ Z.to_nat v ≠ node ∧ (Z.to_nat v < count)%nat.
Proof.
  unfold unique_candidates. set (l := filter _ _). split.
  - apply strictly_sorted_NoDup, dedup_sorted, (StronglySorted_merge_sort Z.le).
  - intros v. rewrite dedup_elem, (merge_sort_Permutation Z.le l). unfold l. rewrite list_elem_of_filter, elem_of_app. tauto.
Qed.

Lemma robust_prune_ok node cands cur count max_degree :
  let pool := merge_sort scored_le (score node <$> unique_candidates node count cands cur) in
  ∃ chosen, robust_prune_candidates node cands cur count max_degree = Ok (id <$> chosen) ∧ pruned max_degree pool chosen.
Proof.
  intros pool. unfold robust_prune_candidates. fold pool.
  apply (prune_loop_ok (length pool) max_degree pool pool 0); [apply (StronglySorted_merge_sort scored_le)| |lia|lia].
  split; [done|lia|done|intros; lia|]. intros c Hc. by left.
Qed.

(** The shape every caller relies on. *)
Lemma robust_prune_valid node cands cur count max_degree :
  ∃ selected, robust_prune_candidates node cands cur count max_degree = Ok selected ∧
    NoDup selected ∧ (length selected ≤ max_degree)%nat ∧
    (∀ v, v ∈ selected → (v ∈ cands ∨ v ∈ cur) ∧ Z.to_nat v ≠ node ∧ (Z.to_nat v < count)%nat) ∧
    ∀ v, (0 < max_degree)%nat → v ∈ cands ∨ v ∈ cur → Z.to_nat v ≠ node → (Z.to_nat v < count)%nat → selected ≠ [].
Proof.
  destruct (robust_prune_ok node cands cur count max_degree) as (chosen & E & Hp).
  destruct (unique_candidates_ok node count cands cur) as [Hnd Hin]. set (u := unique_candidates node count cands cur) in *.
  assert (id <$> merge_sort scored_le (score node <$> u) ≡ₚ u) as Hperm.
  { rewrite (merge_sort_Permutation scored_le), <- list_fmap_compose. replace (id ∘ score node <$> u) with u; [done|]. symmetry. apply list_fmap_id. }
  assert (id <$> chosen `sublist_of` id <$> merge_sort scored_le (score node <$> u)) as Hsub by (apply fmap_sublist, (pr_sub _ _ _ Hp)).
  exists (id <$> chosen). split_and!; [done| |rewrite length_fmap; apply Hp| |].
  - eapply sublist_NoDup; [|exact Hsub]. by rewrite Hperm.
  - intros v Hv. apply Hin. rewrite <- Hperm. by eapply elem_of_sublist.
  - intros v Hmd Hv Hne Hlt. pose proof (proj2 (Hin v) (conj Hv (conj Hne Hlt))) as Hvu. rewrite <- Hperm in Hvu.
    pose proof (pr_nearest _ _ _ Hp Hmd) as Hh. destruct chosen as [|c chosen]; [|done].
    destruct (merge_sort scored_le (score node <$> u)); [set_solver|done].
Qed.

End Prune.

(** C30: robust pruning always returns, for any kernels, any metric and any
    candidates: it selects at most [max_degree] distinct nodes of the graph
    other than the node itself, all of them candidates or current neighbours,
    in increasing distance order starting with the nearest.  Each selected
    candidate passed the occlusion test against every one selected before it,
    and when the list is not full, each candidate left out failed the test
    against a selected one that is nearer. *)
Theorem robust_prune_selects f32_mul between four exceeds dimension metric alpha node cands cur count max_degree :
  let pool := merge_sort scored_le (score between node <$> unique_candidates node count cands cur) in
  ∃ chosen,
    robust_prune_candidates f32_mul between four exceeds dimension metric alpha node cands cur count max_degree = Ok (id <$> chosen) ∧
    pruned f32_mul between four exceeds dimension metric alpha max_degree pool chosen ∧
    NoDup (id <$> chosen) ∧
    ∀ v, v ∈ id <$> chosen → (v ∈ cands ∨ v ∈ cur) ∧ Z.to_nat v ≠ node ∧ (Z.to_nat v < count)%nat.
Proof.
  intros pool. destruct (robust_prune_ok f32_mul between four exceeds dimension metric alpha node cands cur count max_degree) as (chosen & E & Hp).
  exists chosen. split_and!; [done|done|..];
    destruct (robust_prune_valid f32_mul between four exceeds dimension metric alpha node cands cur count max_degree) as (sel & E' & Hnd & _ & Hin & _);
    rewrite E in E'; injection E' as <-; done.
Qed.

(** ** Grouping reverse edges by their target *)

Definition edge_le (a b : Z * Z) : Prop := a.1 < b.1 ∨ (a.1 = b.1 ∧ a.2 <= b.2).
#[export] Instance edge_le_dec a b : Decision (edge_le a b).
Proof. unfold edge_le. apply _. Defined.
#[export] Instance edge_le_total : Total edge_le.
Proof. intros a b. unfold edge_le. lia. Qed.
#[export] Instance edge_le_trans : Transitive edge_le.
Proof. intros a b c. unfold edge_le. lia. Qed.

(** The run of edges with the target of the first one, and the rest. *)
Fixpoint take_group (target : Z) (edges : list (Z * Z)) : list (Z * Z) * list (Z * Z) :=
  match edges with
  | e :: edges => if e.1 =? target then let '(g, r) := take_group target edges in (e :: g, r) else ([], e :: edges)
  | [] => ([], [])
  end.
Fixpoint group_loop (fuel : nat) (edges : list (Z * Z)) : list (list (Z * Z)) :=
  match fuel, edges with
  | S fuel, e :: edges => let '(g, r) := take_group e.1 edges in (e :: g) :: group_loop fuel r
  | _, _ => []
  end.
(** The groups as the slices their ranges select. *)
Definition group_reverse_edges (reverse_edges : list (Z * Z)) : list (list (Z * Z)) :=
  let edges := dedup (merge_sort edge_le reverse_edges) in
  group_loop (length edges) edges.

Lemma take_group_ok target edges :
  let '(g, r) := take_group target edges in
  edges = g ++ r ∧ Forall (λ e, e.1 = target) g ∧ match r with e :: _ => e.1 ≠ target | [] => True end.
Proof.
  induction edges as [|e edges IH]; cbn [take_group]; [done|]. destruct (e.1 =? target) eqn:E; [apply Z.eqb_eq in E|apply Z.eqb_neq in E; done].
  destruct (take_group target edges) as [g r]. destruct IH as (-> & Hg & Hr). split_and!; [done|by constructor|done].
Qed.

Lemma edges_sorted_dedup l : StronglySorted edge_le l → StronglySorted (λ a b, edge_le a b ∧ a ≠ b) (dedup l).
Proof.
  induction l as [|x [|y l] IH]; intros Hs; [constructor|repeat constructor|].
  apply StronglySorted_inv in Hs as [Hs Hx]. specialize (IH Hs).
  change (dedup (x :: y :: l)) with (if decide (x = y) then dedup (y :: l) else x :: dedup (y :: l)).
  case_decide as E; [done|]. constructor; [done|]. apply Forall_forall. intros z Hz. rewrite dedup_elem in Hz.
  rewrite Forall_forall in Hx. split; [by apply Hx|]. intros ->. apply elem_of_cons in Hz as [->|Hz]; [done|].
  pose proof (Hx y ltac:(set_solver)) as H1. apply StronglySorted_inv in Hs as [_ Hy]. rewrite Forall_forall in Hy. specialize (Hy z Hz).
  unfold edge_le in H1, Hy. destruct y, z. cbn in *. apply E. f_equal; lia.
Qed.

Lemma group_loop_ok fuel : ∀ edges,
  (length edges ≤ fuel)%nat → StronglySorted (λ a b, edge_le a b ∧ a ≠ b) edges →
  concat (group_loop fuel edges) = edges ∧
  Forall (λ g, ∃ e rest, g = e :: rest ∧ Forall (λ x, x.1 = e.1) g) (group_loop fuel edges) ∧
  StronglySorted (λ g h, ∀ x y, x ∈ g → y ∈ h → x.1 < y.1) (group_loop fuel edges).
Proof.
  induction fuel as [|fuel IH]; intros edges Hl Hs.
  { destruct edges; [|cbn in Hl; lia]. cbn. split_and!; [done|constructor|constructor]. }
  destruct edges as [|e edges]; [cbn; split_and!; [done|constructor|constructor]|]. cbn [group_loop].
  pose proof (take_group_ok e.1 edges) as Hg. destruct (take_group e.1 edges) as [g r]. destruct Hg as (-> & Hg & Hr).
  apply StronglySorted_inv in Hs as [Hs He]. assert (StronglySorted (λ a b, edge_le a b ∧ a ≠ b) r) as Hsr.
  { clear -Hs. induction g as [|a g IH]; [done|]. cbn in Hs. apply StronglySorted_inv in Hs as [Hs _]. auto. }
  destruct (IH r) as (Ec & Hf & Hss); [cbn in Hl; rewrite length_app in Hl; lia|done|]. split_and!.
  - cbn. by rewrite Ec.
  - constructor; [|done]. exists e, g. split; [done|]. by constructor.
  - constructor; [done|]. apply Forall_forall. intros h Hh x y Hx Hy.
    assert (y ∈ r) as Hyr by (rewrite <- Ec; apply list_elem_of_In, in_concat; exists h; split; by apply list_elem_of_In).
    assert (x.1 = e.1) as -> by (apply elem_of_cons in Hx as [->|Hx]; [done|]; rewrite Forall_forall in Hg; by apply Hg).
    destruct r as [|z r]; [set_solver|]. rewrite Forall_forall in He. pose proof (He z ltac:(set_solver)) as [Hez _].
    assert (edge_le z y) as Hzy.
    { apply elem_of_cons in Hyr as [->|Hyr]; [unfold edge_le; lia|]. apply StronglySorted_inv in Hsr as [_ Hz]. rewrite Forall_forall in Hz. by apply Hz. }
    unfold edge_le in Hez, Hzy. lia.
Qed.

(** The groups of the distinct reverse edges, one per target. *)
Lemma group_reverse_edges_ok edges :
  let groups := group_reverse_edges edges in
  (∀ e, e ∈ concat groups ↔ e ∈ edges) ∧ NoDup (concat groups) ∧
  Forall (λ g, ∃ e rest, g = e :: rest ∧ Forall (λ x, x.1 = e.1) g) groups ∧
  StronglySorted (λ g h, ∀ x y, x ∈ g → y ∈ h → x.1 < y.1) groups.
Proof.
  cbn zeta. unfold group_reverse_edges. pose proof (edges_sorted_dedup _ (StronglySorted_merge_sort edge_le edges)) as Hs.
  destruct (group_loop_ok _ _ (le_n _) Hs) as (-> & Hf & Hss). split_and!; [|clear -Hs|done|done].
  - intros e. by rewrite dedup_elem, merge_sort_Permutation.
  - induction Hs as [|x l _ IH Hx]; constructor; [|done]. intros Hin. rewrite Forall_forall in Hx. by destruct (Hx x Hin).
Qed.
