(* ===== verification/GreedySearch.v ===== *)
(** Greedy search on a Vamana graph: [GreedySearchScratch],
    [greedy_search_with_scratch] and the builder's [greedy_search] of
    [core/src/vamana.rs].

    [std::collections::BinaryHeap] is its sorted content, ascending in
    [scored_node_order]: the maximum is the last element, the minimum (for the
    [Reverse] frontier) the first.  The distance of a node to the query is an
    argument.  Buffers that every use clears first are left out. *)

From S2P Require Import Prelude F32 SparseTable CompactAdjacency VamanaGraph RobustPrune.

Definition SPARSE_BUILD_VISITED_MIN_MEMORY_SAVINGS : Z := 16.

(** 0: not visited, 1: visited, 2: retained, 3: expanded. *)
Inductive BuildVisitStates :=
  | Dense (states : list Z) (touched_nodes : list Z)
  | Sparse (states : SparseTable Z).

Record GreedySearchScratch := Scratch {
  visit_states : BuildVisitStates; results : list ScoredNode; frontier : list ScoredNode }.

Definition scratch_new (node_count max_degree search_list_size : Z) : io_result GreedySearchScratch :=
  let expected_visited := Z.min (saturating_add 64 (saturating_mul 64 search_list_size max_degree) 1) node_count in
  let dense_bytes := saturating_add 64 (saturating_mul 64 node_count 1) (saturating_mul 64 expected_visited 4) in
  let sparse_bytes := default USIZE_MAX (estimated_memory_bytes expected_visited 1) in
  let use_sparse :=
    match checked_mul 64 sparse_bytes SPARSE_BUILD_VISITED_MIN_MEMORY_SAVINGS with
    | Some threshold => threshold <? dense_bytes
    | None => false
    end in
  if use_sparse then table ← with_capacity 0 expected_visited; Ok (Scratch (Sparse table) [] [])
  else Ok (Scratch (Dense (replicate (Z.to_nat node_count) 0) []) [] []).

Definition clear_states (vs : BuildVisitStates) : io_result BuildVisitStates :=
  match vs with
  | Dense states touched_nodes =>
      states ← try_fold (λ states node, store_at (Z.to_nat node) 0 states) states touched_nodes;
      Ok (Dense states [])
  | Sparse table => table ← table_clear table; Ok (Sparse table)
  end.
Definition begin_search (s : GreedySearchScratch) : io_result GreedySearchScratch :=
  vs ← clear_states (visit_states s); Ok (Scratch vs [] []).

Definition is_visited (vs : BuildVisitStates) (node : nat) : io_result bool :=
  match vs with
  | Dense states _ => state ← expect (states !! node); Ok (negb (state =? 0))
  | Sparse table => state ← table_get table (wrap 32 (Z.of_nat node)); Ok (match state with Some _ => true | None => false end)
  end.
Definition is_retained_unexpanded (vs : BuildVisitStates) (node : nat) : io_result bool :=
  match vs with
  | Dense states _ => state ← expect (states !! node); Ok (state =? 2)
  | Sparse table => state ← table_get table (wrap 32 (Z.of_nat node)); Ok (bool_decide (state = Some 2))
  end.

Definition mark_visited (vs : BuildVisitStates) (node : nat) : io_result BuildVisitStates :=
  match vs with
  | Dense states touched_nodes =>
      state ← expect (states !! node);
      let touched_nodes := if state =? 0 then touched_nodes ++ [wrap 32 (Z.of_nat node)] else touched_nodes in
      states ← store_at node 1 states;
      Ok (Dense states touched_nodes)
  | Sparse table => '(_, table) ← table_insert 0 table (wrap 32 (Z.of_nat node)) 1; Ok (Sparse table)
  end.
(** [mark_retained] and [mark_expanded]. *)
Definition mark_state (state : Z) (vs : BuildVisitStates) (node : nat) : io_result BuildVisitStates :=
  match vs with
  | Dense states touched_nodes => states ← store_at node state states; Ok (Dense states touched_nodes)
  | Sparse table => '(_, table) ← table_insert 0 table (wrap 32 (Z.of_nat node)) state; Ok (Sparse table)
  end.
Definition mark_retained := mark_state 2.
Definition mark_expanded := mark_state 3.

(** [BinaryHeap::push] *)
Fixpoint heap_push (x : ScoredNode) (l : list ScoredNode) : list ScoredNode :=
  match l with
  | [] => [x]
  | y :: l => if decide (scored_le x y) then x :: y :: l else y :: heap_push x l
  end.
(** [Vec::retain] with a fallible test. *)
Fixpoint retain_m (f : ScoredNode → io_result bool) (l : list ScoredNode) : io_result (list ScoredNode) :=
  match l with
  | [] => Ok []
  | x :: l => b ← f x; l ← retain_m f l; Ok (if (b : bool) then x :: l else l)
  end.

Definition insert_candidate (s : GreedySearchScratch) (candidate : ScoredNode) (search_list_size : nat) : io_result GreedySearchScratch :=
  vs ← mark_visited (visit_states s) (Z.to_nat (id candidate));
  if (search_list_size =? 0)%nat then Ok (Scratch vs (results s) (frontier s)) else
  let full := (length (results s) =? search_list_size)%nat in
  if full && match last (results s) with Some worst => bool_decide (scored_le worst candidate) | None => false end
  then Ok (Scratch vs (results s) (frontier s))
  else
    '(vs, kept) ←
      (if full then
         evicted ← expect (last (results s));
         vs ← mark_visited vs (Z.to_nat (id evicted));
         Ok (vs, take (length (results s) - 1) (results s))
       else Ok (vs, results s));
    vs ← mark_retained vs (Z.to_nat (id candidate));
    let frontier := heap_push candidate (frontier s) in
    frontier ← (if saturating_mul 64 (Z.of_nat search_list_size) 2 <? zlen frontier
                then retain_m (λ c, is_retained_unexpanded vs (Z.to_nat (id c))) frontier
                else Ok frontier);
    Ok (Scratch vs (heap_push candidate kept) frontier).

(** [while let Some(Reverse(candidate)) = self.frontier.pop()] *)
Fixpoint pop_loop (vs : BuildVisitStates) (frontier : list ScoredNode) : io_result (option ScoredNode * list ScoredNode) :=
  match frontier with
  | [] => Ok (None, [])
  | candidate :: frontier =>
      retained ← is_retained_unexpanded vs (Z.to_nat (id candidate));
      if (retained : bool) then Ok (Some candidate, frontier) else pop_loop vs frontier
  end.
Definition pop_nearest_unexpanded (s : GreedySearchScratch) : io_result (option ScoredNode * GreedySearchScratch) :=
  '(found, frontier) ← pop_loop (visit_states s) (frontier s);
  Ok (found, Scratch (visit_states s) (results s) frontier).

Section Search.
(** The distance of a node to the query, as [f32] bits. *)
Context (node_distance : nat → Z) (adj : CompactAdjacency) (search_list_size : nat).

Definition visit_neighbor (s : GreedySearchScratch) (neighbor : Z) : io_result GreedySearchScratch :=
  if (adj_len adj <=? Z.to_nat neighbor)%nat then Ok s
  else
    seen ← is_visited (visit_states s) (Z.to_nat neighbor);
    if (seen : bool) then Ok s
    else insert_candidate s (Scored neighbor (node_distance (Z.to_nat neighbor))) search_list_size.

Fixpoint greedy_loop (fuel : nat) (s : GreedySearchScratch) : io_result GreedySearchScratch :=
  match fuel with
  | O => Panic
  | S fuel =>
      '(current, s) ← pop_nearest_unexpanded s;
      match current with
      | None => Ok s
      | Some current =>
          vs ← mark_expanded (visit_states s) (Z.to_nat (id current));
          neighbors ← adj_neighbors adj (Z.to_nat (id current));
          s ← try_fold visit_neighbor (Scratch vs (results s) (frontier s)) neighbors;
          greedy_loop fuel s
      end
  end.

(** The search of the parallel builder; at most two rounds per node. *)
Definition greedy_search (entry_node : Z) (s : GreedySearchScratch) : io_result GreedySearchScratch :=
  s ← begin_search s;
  s ← insert_candidate s (Scored entry_node (node_distance (Z.to_nat entry_node))) search_list_size;
  greedy_loop (S (2 * adj_len adj)) s.

(** The search on a finished graph. *)
Definition greedy_search_with_scratch (entry_node : Z) (s : GreedySearchScratch) : io_result GreedySearchScratch :=
  s ← begin_search s;
  if (search_list_size =? 0)%nat || (adj_len adj =? 0)%nat then Ok s
  else
    s ← insert_candidate s (Scored entry_node (node_distance (Z.to_nat entry_node))) search_list_size;
    greedy_loop (S (2 * adj_len adj)) s.

End Search.

(** ** The visit states as a function *)

Definition upd (f : nat → Z) (i : nat) (s : Z) : nat → Z := λ j, if decide (j = i) then s else f j.

Section States.
Context (n : nat) (Hn : Z.of_nat n < 2 ^ 30).

(** [vs] holds the state [f i] of each of the [n] nodes. *)
Definition vs_rep (vs : BuildVisitStates) (f : nat → Z) : Prop :=
  match vs with
  | Dense states touched =>
      length states = n ∧ (∀ i, (i < n)%nat → states !! i = Some (f i)) ∧
      (∀ i, (i < n)%nat → f i ≠ 0 → Z.of_nat i ∈ touched) ∧ Forall (λ t, 0 <= t < Z.of_nat n) touched
  | Sparse table =>
      ∃ m, table_ok table m ∧ (∀ i, (i < n)%nat → f i = default 0 (m !! Z.of_nat i)) ∧
        (∀ k v, m !! k = Some v → v ≠ 0 ∧ 0 <= k < Z.of_nat n)
  end.

Lemma node_key i : (i < n)%nat → wrap 32 (Z.of_nat i) = Z.of_nat i ∧ u32 (Z.of_nat i) ∧ Z.of_nat i ≠ EMPTY_KEY.
Proof.
  intros Hi. assert (u32 (Z.of_nat i)) as Hu by (unfold u32, u_ok; change (2 ^ 30) with 1073741824 in Hn; change (2 ^ 32) with 4294967296; lia).
  split_and!; [by apply wrap_small|done|]. unfold EMPTY_KEY, U32_MAX. change (2 ^ 30) with 1073741824 in Hn. change (2 ^ 32) with 4294967296. lia.
Qed.

Lemma is_visited_ok vs f i : vs_rep vs f → (i < n)%nat → is_visited vs i = Ok (negb (f i =? 0)).
Proof.
  intros Hr Hi. destruct vs as [states touched|table]; cbn [is_visited vs_rep] in *.
  - destruct Hr as (_ & Hs & _). by rewrite (Hs i Hi).
  - destruct Hr as (m & Hok & Hf & Hm). destruct (node_key i Hi) as (-> & Hu & Hne).
    rewrite (table_get_spec table m) by done. cbn [mbind io_result_bind]. rewrite (Hf i Hi). destruct (m !! Z.of_nat i) as [v|] eqn:E; [|done].
    destruct (Hm _ _ E) as [Hv _]. cbn. by rewrite (proj2 (Z.eqb_neq _ _) Hv).
Qed.

Lemma is_retained_ok vs f i : vs_rep vs f → (i < n)%nat → is_retained_unexpanded vs i = Ok (f i =? 2).
Proof.
  intros Hr Hi. destruct vs as [states touched|table]; cbn [is_retained_unexpanded vs_rep] in *.
  - destruct Hr as (_ & Hs & _). by rewrite (Hs i Hi).
  - destruct Hr as (m & Hok & Hf & Hm). destruct (node_key i Hi) as (-> & Hu & Hne).
    rewrite (table_get_spec table m) by done. cbn [mbind io_result_bind]. rewrite (Hf i Hi). f_equal.
    destruct (m !! Z.of_nat i) as [v|]; cbn; [|by rewrite bool_decide_false].
    destruct (v =? 2) eqn:E; [apply Z.eqb_eq in E; subst; by rewrite bool_decide_true|apply Z.eqb_neq in E; rewrite bool_decide_false; congruence].
Qed.

Lemma sparse_store table m f i s :
  table_ok table m → (∀ i, (i < n)%nat → f i = default 0 (m !! Z.of_nat i)) → (∀ k v, m !! k = Some v → v ≠ 0 ∧ 0 <= k < Z.of_nat n) →
  (i < n)%nat → s ≠ 0 →
  ∃ table', ('(_, table) ← table_insert 0 table (wrap 32 (Z.of_nat i)) s; Ok (Sparse table)) = Ok (Sparse table') ∧ vs_rep (Sparse table') (upd f i s).
Proof.
  intros Hok Hf Hm Hi Hs. destruct (node_key i Hi) as (-> & Hu & Hne). pose proof Hok as (Hc & Hh & _).
  destruct (table_insert_spec 0 table m (Z.of_nat i) s Hok Hu Hne) as (table' & -> & Hok' & _).
  { pose proof (touched_bound table m (Z.of_nat n) Hc Hh) as Hb. rewrite Z.max_l in Hb by lia.
    assert (zlen (touched_slots table) <= Z.of_nat n); [|lia]. apply Hb. intros k [v Hv]. by apply (Hm k v). }
  cbn [mbind io_result_bind]. exists table'. split; [done|]. exists (<[Z.of_nat i := s]> m). split_and!; [done| |].
  - intros j Hj. unfold upd. case_decide as E; [subst; by rewrite lookup_insert_eq|]. rewrite lookup_insert_ne by lia. auto.
  - intros k v [[<- <-]|[_ Hk]]%lookup_insert_Some; [split; [done|lia]|eauto].
Qed.

Lemma mark_state_ok vs f i s : vs_rep vs f → (i < n)%nat → s ≠ 0 → f i ≠ 0 → ∃ vs', mark_state s vs i = Ok vs' ∧ vs_rep vs' (upd f i s).
Proof.
  intros Hr Hi Hs Hf. destruct vs as [states touched|table]; cbn [mark_state vs_rep] in *.
  - destruct Hr as (Hl & Hst & Ht & Hb). rewrite store_at_ok by lia. cbn [mbind io_result_bind]. eexists. split; [done|]. cbn [vs_rep].
    rewrite length_insert. split_and!; [done| | |done].
    + intros j Hj. unfold upd. case_decide as E; [subst; rewrite list_lookup_insert_eq by lia; done|]. rewrite list_lookup_insert_ne by done. auto.
    + intros j Hj Hne. unfold upd in Hne. case_decide as E; [subst; auto|auto].
  - destruct Hr as (m & Hok & Hfm & Hm). destruct (sparse_store table m f i s Hok Hfm Hm Hi Hs) as (t' & E & Hr'). eauto.
Qed.

Lemma mark_visited_ok vs f i : vs_rep vs f → (i < n)%nat → ∃ vs', mark_visited vs i = Ok vs' ∧ vs_rep vs' (upd f i 1).
Proof.
  intros Hr Hi. destruct vs as [states touched|table]; cbn [mark_visited vs_rep] in *.
  - destruct Hr as (Hl & Hst & Ht & Hb). rewrite (Hst i Hi). cbn [expect mbind io_result_bind]. rewrite store_at_ok by lia. cbn [mbind io_result_bind].
    destruct (node_key i Hi) as (-> & _). eexists. split; [done|]. cbn [vs_rep]. rewrite length_insert. split_and!; [done| | |].
    + intros j Hj. unfold upd. case_decide as E; [subst; rewrite list_lookup_insert_eq by lia; done|]. rewrite list_lookup_insert_ne by done. auto.
    + intros j Hj Hne. unfold upd in Hne. destruct (f i =? 0) eqn:E0; [apply Z.eqb_eq in E0|apply Z.eqb_neq in E0]; case_decide as E; subst; try set_solver.
    + destruct (f i =? 0); [|done]. apply Forall_app. split; [done|]. constructor; [lia|constructor].
  - destruct Hr as (m & Hok & Hfm & Hm). destruct (sparse_store table m f i 1 Hok Hfm Hm Hi ltac:(lia)) as (t' & E & Hr'). eauto.
Qed.

Lemma clear_dense touched : ∀ states,
  length states = n → Forall (λ t, 0 <= t < Z.of_nat n) touched →
  ∃ states', try_fold (λ states node, store_at (Z.to_nat node) 0 states) states touched = Ok states' ∧ length states' = n ∧
    ∀ i, (i < n)%nat → (Z.of_nat i ∈ touched → states' !! i = Some 0) ∧ (Z.of_nat i ∉ touched → states' !! i = states !! i).
Proof.
  induction touched as [|t touched IH]; intros states Hl Hb; cbn [try_fold].
  { exists states. split_and!; [done|done|]. intros i Hi. split; [set_solver|done]. }
  apply Forall_cons in Hb as [Ht Hb]. rewrite store_at_ok by lia. cbn [mbind io_result_bind].
  destruct (IH (<[Z.to_nat t := 0]> states)) as (st' & -> & Hl' & Hspec); [by rewrite length_insert|done|]. exists st'. split_and!; [done|done|].
  intros i Hi. destruct (Hspec i Hi) as [H1 H2]. split.
  - intros [E|Hin]%elem_of_cons; [|auto]. destruct (decide (Z.of_nat i ∈ touched)) as [|Hnin]; [auto|]. rewrite (H2 Hnin), <- E, Nat2Z.id.
    apply list_lookup_insert_eq. lia.
  - intros Hnin. rewrite H2 by set_solver. rewrite list_lookup_insert_ne; [done|]. intros E. apply Hnin. rewrite <- E. rewrite Z2Nat.id by lia. set_solver.
Qed.

Lemma begin_search_ok s f :
  vs_rep (visit_states s) f → ∃ vs, begin_search s = Ok (Scratch vs [] []) ∧ vs_rep vs (λ _, 0).
Proof.
  intros Hr. unfold begin_search. destruct (visit_states s) as [states touched|table]; cbn [clear_states vs_rep] in *.
  - destruct Hr as (Hl & Hst & Ht & Hb). destruct (clear_dense touched states Hl Hb) as (st' & -> & Hl' & Hspec). cbn [mbind io_result_bind].
    eexists. split; [done|]. cbn [vs_rep]. split_and!; [done| |done|constructor]. intros i Hi. destruct (Hspec i Hi) as [H1 H2].
    destruct (decide (Z.of_nat i ∈ touched)) as [Hin|Hnin]; [auto|]. rewrite (H2 Hnin), (Hst i Hi). f_equal.
    destruct (decide (f i = 0)); [done|]. exfalso. auto.
  - destruct Hr as (m & Hok & _). destruct (table_clear_spec table m Hok) as (t' & -> & Hok' & _). cbn [mbind io_result_bind].
    eexists. split; [done|]. exists ∅. split_and!; [done|intros; by rewrite lookup_empty|]. intros k v Hk. by rewrite lookup_empty in Hk.
Qed.

End States.

Lemma scratch_new_ok node_count max_degree L :
  0 <= node_count < 2 ^ 30 → 0 <= max_degree → 0 <= L →
  ∃ s, scratch_new node_count max_degree L = Ok s ∧ vs_rep (Z.to_nat node_count) (visit_states s) (λ _, 0).
Proof.
  intros Hc Hd HL. unfold scratch_new. set (expected := Z.min _ node_count).
  assert (0 <= expected <= node_count) as He.
  { unfold expected, saturating_add, saturating_mul. assert (0 <= L * max_degree) by (apply Z.mul_nonneg_nonneg; lia).
    change (2 ^ 64 - 1) with 18446744073709551615. lia. }
  destruct (match checked_mul 64 _ _ with Some _ => _ | None => _ end).
  - destruct (with_capacity_spec 0 expected) as (t & -> & Hok & _); [change (2 ^ 30) with 1073741824 in *; change (2 ^ 31) with 2147483648; lia|].
    cbn [mbind io_result_bind]. eexists. split; [done|]. cbn [visit_states vs_rep]. exists ∅. split_and!; [done|intros; by rewrite lookup_empty|].
    intros k v Hk. by rewrite lookup_empty in Hk.
  - eexists. split; [done|]. cbn [visit_states vs_rep]. rewrite length_replicate. split_and!; [done| |done|constructor].
    intros i Hi. by apply lookup_replicate_2.
Qed.

(** ** Heaps as sorted lists *)

Lemma heap_push_perm x l : heap_push x l ≡ₚ x :: l.
Proof. induction l as [|y l IH]; cbn; [done|]. case_decide; [done|]. rewrite IH. apply perm_swap. Qed.

Lemma heap_push_sorted x l : StronglySorted scored_le l → StronglySorted scored_le (heap_push x l).
Proof.
  induction 1 as [|y l Hs IH Hy]; cbn; [repeat constructor|]. case_decide as E.
  - constructor; [by constructor|]. constructor; [done|]. rewrite Forall_forall in *. intros z Hz. etrans; [exact E|]. auto.
  - constructor; [done|]. rewrite heap_push_perm. constructor; [|done]. destruct (total scored_le x y); done.
Qed.

Lemma sorted_last l w c : StronglySorted scored_le (l ++ [w]) → c ∈ l → scored_le c w.
Proof.
  induction l as [|x l IH]; intros Hs Hc; [set_solver|]. cbn in Hs. apply StronglySorted_inv in Hs as [Hs Hx].
  apply elem_of_cons in Hc as [->|Hc]; [|auto]. rewrite Forall_forall in Hx. apply Hx. set_solver.
Qed.

Lemma sorted_init l w : StronglySorted scored_le (l ++ [w]) → StronglySorted scored_le l.
Proof. intros Hs. eapply sublist_sorted; [|exact Hs]. by apply sublist_inserts_r. Qed.

(** ** The invariant of the search *)

Section Invariant.
Context (dq : nat → Z) (n L : nat) (Hn : Z.of_nat n < 2 ^ 30).

Definition scored (i : nat) : ScoredNode := Scored (Z.of_nat i) (dq i).

Record search_inv (s : GreedySearchScratch) (f : nat → Z) : Prop := {
  si_states : vs_rep n (visit_states s) f;
  si_range : ∀ i, (i < n)%nat → f i = 0 ∨ f i = 1 ∨ f i = 2 ∨ f i = 3;
  si_sorted : StronglySorted scored_le (results s);
  si_len : (length (results s) ≤ L)%nat;
  si_nodup : NoDup (id <$> results s);
  si_results : ∀ c, c ∈ results s → ∃ i, (i < n)%nat ∧ c = scored i ∧ (f i = 2 ∨ f i = 3);
  si_member : ∀ i, (i < n)%nat → f i = 2 ∨ f i = 3 → scored i ∈ results s;
  si_frontier : ∀ c, c ∈ frontier s → ∃ i, (i < n)%nat ∧ c = scored i;
  si_open : ∀ i, (i < n)%nat → f i = 2 → scored i ∈ frontier s;
  si_rejected : ∀ i, (i < n)%nat → f i = 1 → length (results s) = L ∧ ∀ c, c ∈ results s → scored_le c (scored i);
}.

(** Two for a node not seen, one for a node to expand. *)
Definition weight (s : Z) : nat := if s =? 0 then 2 else if s =? 2 then 1 else 0.
Definition potential (f : nat → Z) : nat := sum_list_with (λ i, weight (f i)) (seq 0 n).

Lemma potential_upd f i s : (i < n)%nat → (potential (upd f i s) + weight (f i) = potential f + weight s)%nat.
Proof.
  intros Hi. unfold potential. assert (i ∈ seq 0 n) as Hin by (apply elem_of_seq; lia). pose proof (NoDup_seq 0 n) as Hnd.
  induction (seq 0 n) as [|j l IH]; [set_solver|]. apply NoDup_cons in Hnd as [Hj Hnd]. cbn [sum_list_with].
  apply elem_of_cons in Hin as [->|Hin].
  - assert (sum_list_with (λ i, weight (upd f j s i)) l = sum_list_with (λ i, weight (f i)) l) as ->.
    { clear IH Hnd. induction l as [|k l IH]; [done|]. cbn. rewrite IH by set_solver. unfold upd at 1. rewrite decide_False by set_solver. done. }
    unfold upd. rewrite decide_True by done. lia.
  - specialize (IH Hin Hnd). assert (upd f i s j = f j) as -> by (unfold upd; rewrite decide_False; [done|set_solver]). lia.
Qed.

Lemma retain_ok vs f l :
  vs_rep n vs f → (∀ c, c ∈ l → ∃ i, (i < n)%nat ∧ c = scored i) →
  retain_m (λ c, is_retained_unexpanded vs (Z.to_nat (id c))) l = Ok (filter (λ c, f (Z.to_nat (id c)) = 2) l).
Proof.
  intros Hr. induction l as [|c l IH]; intros Hl; [done|]. cbn [retain_m]. destruct (Hl c ltac:(set_solver)) as (i & Hi & ->).
  assert (Z.to_nat (id (scored i)) = i) as Ei by apply Nat2Z.id. rewrite Ei, (is_retained_ok n Hn vs f i Hr Hi). cbn [mbind io_result_bind].
  rewrite IH by set_solver. cbn [mbind io_result_bind]. destruct (f i =? 2) eqn:E; [apply Z.eqb_eq in E|apply Z.eqb_neq in E].
  - rewrite filter_cons_True by (by rewrite Ei). done.
  - rewrite filter_cons_False by (by rewrite Ei). done.
Qed.

(** A node that is not retained: visited and out of the results. *)
Lemma reject_inv s f i vs :
  search_inv s f → (i < n)%nat → f i = 0 → vs_rep n vs (upd f i 1) →
  (length (results s) = L ∧ ∀ c, c ∈ results s → scored_le c (scored i)) →
  search_inv (Scratch vs (results s) (frontier s)) (upd f i 1).
Proof.
  intros [Hst Hrg Hso Hl Hnd Hre Hme Hfr Hop Hrj] Hi H0 Hvs Hbad.
  assert (∀ j, j ≠ i → upd f i 1 j = f j) as Hother by (intros; unfold upd; by rewrite decide_False).
  assert (upd f i 1 i = 1) as Hself by (unfold upd; by rewrite decide_True).
  split; cbn [visit_states results frontier]; try done.
  - intros j Hj. destruct (decide (j = i)) as [->|]; [rewrite Hself; auto|]. rewrite Hother by done. auto.
  - intros c Hc. destruct (Hre c Hc) as (j & Hj & -> & Hs). exists j. rewrite Hother; [done|]. intros ->. lia.
  - intros j Hj Hs. destruct (decide (j = i)) as [->|]; [rewrite Hself in Hs; lia|]. rewrite Hother in Hs by done. auto.
  - intros j Hj Hs. destruct (decide (j = i)) as [->|]; [rewrite Hself in Hs; lia|]. rewrite Hother in Hs by done. auto.
  - intros j Hj Hs. destruct (decide (j = i)) as [->|]; [done|]. rewrite Hother in Hs by done. auto.
Qed.

(** A node that is retained, the results [kept] being those that stay. *)
Lemma retain_inv s f f' i vs kept fr :
  search_inv s f → (i < n)%nat → f i = 0 → vs_rep n vs f' → f' i = 2 → (length kept < L)%nat →
  StronglySorted scored_le kept → NoDup (id <$> kept) →
  (∀ j, (j < n)%nat → j ≠ i → f' j = f j ∨ f' j = 1) →
  (∀ c, c ∈ kept ↔ ∃ j, (j < n)%nat ∧ j ≠ i ∧ c = scored j ∧ (f' j = 2 ∨ f' j = 3)) →
  (∀ j, (j < n)%nat → f' j = 1 → S (length kept) = L ∧ scored_le (scored i) (scored j) ∧ ∀ c, c ∈ kept → scored_le c (scored j)) →
  (∀ c, c ∈ fr → c = scored i ∨ c ∈ frontier s) → (∀ j, (j < n)%nat → f' j = 2 → scored j ∈ fr) →
  search_inv (Scratch vs (heap_push (scored i) kept) fr) f'.
Proof.
  intros Hinv Hi H0 Hvs Hf'i Hlt Hso Hnd Hst Hkept Hrj Hfr Hop.
  assert (∀ c, c ∈ heap_push (scored i) kept ↔ c = scored i ∨ c ∈ kept) as Hin by (intros c; rewrite heap_push_perm; set_solver).
  split; cbn [visit_states results frontier]; try done.
  - intros j Hj. destruct (decide (j = i)) as [->|Hne]; [rewrite Hf'i; auto|].
    destruct (Hst j Hj Hne) as [->| ->]; [by apply (si_range _ _ Hinv)|auto].
  - by apply heap_push_sorted.
  - rewrite (Permutation_length (heap_push_perm _ _)). cbn. lia.
  - rewrite heap_push_perm. cbn [fmap list_fmap]. apply NoDup_cons. split; [|done].
    intros (c & Hc & Hck)%list_elem_of_fmap. apply Hkept in Hck as (j & Hj & Hne & -> & _). cbn in Hc. lia.
  - intros c [->|Hc]%Hin; [exists i; auto|]. apply Hkept in Hc as (j & Hj & _ & -> & Hs). eauto.
  - intros j Hj Hs. apply Hin. destruct (decide (j = i)) as [->|Hne]; [by left|right]. apply Hkept. by exists j.
  - intros c Hc. destruct (Hfr c Hc) as [->|Hc']; [by exists i|]. by apply (si_frontier _ _ Hinv).
  - intros j Hj Hs. destruct (Hrj j Hj Hs) as (Hl & Hij & Hk). rewrite (Permutation_length (heap_push_perm _ _)). cbn. split; [done|].
    intros c [->|Hc]%Hin; auto.
Qed.

Lemma insert_candidate_ok s f i :
  search_inv s f → (i < n)%nat → f i = 0 →
  ∃ s' f', insert_candidate s (scored i) L = Ok s' ∧ search_inv s' f' ∧ (potential f' < potential f)%nat ∧
    ∀ j, (f j ≠ 0 ∨ j = i → f' j ≠ 0) ∧ (f' j = 3 → f j = 3).
Proof.
  intros Hinv Hi H0. pose proof Hinv as [Hst Hrg Hso Hl Hnd Hre Hme Hfr Hop Hrj]. unfold insert_candidate. cbn [scored id]. rewrite Nat2Z.id.
  destruct (mark_visited_ok n Hn (visit_states s) f i Hst Hi) as (vs1 & -> & Hvs1). cbn [mbind io_result_bind].
  assert (potential (upd f i 1) + 2 = potential f)%nat as Hpot1 by (pose proof (potential_upd f i 1 Hi) as E; rewrite H0 in E; cbn in E; lia).
  assert (∀ j, (f j ≠ 0 ∨ j = i → upd f i 1 j ≠ 0) ∧ (upd f i 1 j = 3 → f j = 3)) as Hmono1.
  { intros j. unfold upd. case_decide; subst; split; intros; first [lia|tauto]. }
  assert ((length (results s) = L ∧ ∀ c, c ∈ results s → scored_le c (scored i)) →
    ∃ s' f', Ok (Scratch vs1 (results s) (frontier s)) = Ok s' ∧ search_inv s' f' ∧ (potential f' < potential f)%nat ∧
      ∀ j, (f j ≠ 0 ∨ j = i → f' j ≠ 0) ∧ (f' j = 3 → f j = 3)) as Hreject.
  { intros Hbad. eexists _, (upd f i 1). split_and!; [done|by apply reject_inv|lia|exact Hmono1]. }
  destruct (L =? 0)%nat eqn:E0; [apply Nat.eqb_eq in E0|apply Nat.eqb_neq in E0].
  { apply Hreject. destruct (results s); [split; [cbn; lia|set_solver]|cbn in Hl; lia]. }
  assert (∀ vs f' kept, vs_rep n vs f' → f' i ≠ 0 → (length kept < L)%nat → StronglySorted scored_le kept → NoDup (id <$> kept) →
    (∀ j, (j < n)%nat → j ≠ i → f' j = f j ∨ (f' j = 1 ∧ f j ≠ 0)) →
    (∀ c, c ∈ kept ↔ ∃ j, (j < n)%nat ∧ j ≠ i ∧ c = scored j ∧ (f' j = 2 ∨ f' j = 3)) →
    (∀ j, (j < n)%nat → j ≠ i → f' j = 1 → S (length kept) = L ∧ scored_le (scored i) (scored j) ∧ ∀ c, c ∈ kept → scored_le c (scored j)) →
    (∀ j, j ≠ i → (n ≤ j)%nat → f' j = f j) → (potential f' + weight (f' i) ≤ potential f - 2 + weight (f' i))%nat →
    ∃ s' f2, (vs ← mark_retained vs i;
      frontier ← (if saturating_mul 64 (Z.of_nat L) 2 <? zlen (heap_push (scored i) (frontier s))
                  then retain_m (λ c, is_retained_unexpanded vs (Z.to_nat (id c))) (heap_push (scored i) (frontier s))
                  else Ok (heap_push (scored i) (frontier s)));
      Ok (Scratch vs (heap_push (scored i) kept) frontier)) = Ok s' ∧ search_inv s' f2 ∧ (potential f2 < potential f)%nat ∧
      ∀ j, (f j ≠ 0 ∨ j = i → f2 j ≠ 0) ∧ (f2 j = 3 → f j = 3)) as Hretain.
  { intros vs f' kept Hvs Hfi Hlt Hks Hknd Hst' Hkept Hrj' Hout Hpot.
    destruct (mark_state_ok n Hn vs f' i 2 Hvs Hi ltac:(lia) Hfi) as (vs2 & E2 & Hvs2). unfold mark_retained. rewrite E2. cbn [mbind io_result_bind].
    assert (∀ j, j ≠ i → upd f' i 2 j = f' j) as Hother by (intros; unfold upd; by rewrite decide_False).
    assert (upd f' i 2 i = 2) as Hself by (unfold upd; by rewrite decide_True).
    set (hp := heap_push (scored i) (frontier s)).
    assert (∀ c, c ∈ hp ↔ c = scored i ∨ c ∈ frontier s) as Hhp by (intros c; unfold hp; rewrite heap_push_perm; set_solver).
    assert (∀ c, c ∈ hp → ∃ j, (j < n)%nat ∧ c = scored j) as Hhpr by (intros c [->|Hc]%Hhp; eauto).
    assert (∀ j, (j < n)%nat → upd f' i 2 j = 2 → scored j ∈ hp) as Hhpo.
    { intros j Hj Hs. apply Hhp. destruct (decide (j = i)) as [->|Hne]; [by left|right]. rewrite Hother in Hs by done.
      destruct (Hst' j Hj Hne) as [E|[E _]]; [|lia]. apply Hop; [done|]. congruence. }
    assert (∃ fr, (if saturating_mul 64 (Z.of_nat L) 2 <? zlen hp
                  then retain_m (λ c, is_retained_unexpanded vs2 (Z.to_nat (id c))) hp else Ok hp) = Ok fr ∧
                  (∀ c, c ∈ fr → c = scored i ∨ c ∈ frontier s) ∧ ∀ j, (j < n)%nat → upd f' i 2 j = 2 → scored j ∈ fr) as (fr & -> & Hfr1 & Hfr2).
    { destruct (_ <? _).
      - rewrite (retain_ok vs2 (upd f' i 2) hp Hvs2 Hhpr). eexists. split; [done|]. split.
        + intros c [_ Hc]%list_elem_of_filter. by apply Hhp.
        + intros j Hj Hs. apply list_elem_of_filter. split; [cbn [scored id]; by rewrite Nat2Z.id|auto].
      - exists hp. split_and!; [done| |done]. intros c Hc. by apply Hhp. }
    cbn [mbind io_result_bind]. eexists _, (upd f' i 2). split_and!; [done| | |].
    - apply (retain_inv s f (upd f' i 2) i vs2 kept fr); try done.
      + intros j Hj Hne. rewrite Hother by done. destruct (Hst' j Hj Hne) as [?|[? _]]; auto.
      + intros c. rewrite Hkept. split; intros (j & Hj & Hne & Hc & Hs); exists j; rewrite Hother in * by done; done.
      + intros j Hj Hs. destruct (decide (j = i)) as [->|Hne]; [lia|]. rewrite Hother in Hs by done. auto.
    - pose proof (potential_upd f' i 2 Hi) as E. cbn in E. lia.
    - intros j. destruct (decide (j = i)) as [->|Hne]; [rewrite Hself; split; intros; lia|]. rewrite Hother by done.
      destruct (decide (j < n)%nat) as [Hj|Hj].
      + destruct (Hst' j Hj Hne) as [->|[-> Hfj]]; split; intros; [tauto|done|lia|lia].
      + rewrite Hout by (done || lia). split; [tauto|done]. }
  destruct (length (results s) =? L)%nat eqn:Ef; [apply Nat.eqb_eq in Ef|apply Nat.eqb_neq in Ef]; cbn [andb].
  - destruct (results s) as [|w r _] eqn:Er using rev_ind; [cbn in Ef; lia|]. rewrite last_snoc.
    destruct (Hre w ltac:(set_solver)) as (wi & Hwi & -> & Hfw).
    case_bool_decide as Hcmp.
    + apply Hreject. split; [done|]. intros c Hc. apply elem_of_app in Hc as [Hc| ->%list_elem_of_singleton]; [|done].
      etrans; [by eapply sorted_last|done].
    + cbn [expect mbind io_result_bind scored id]. rewrite Nat2Z.id. assert (wi ≠ i) as Hwne by (intros ->; lia).
      destruct (mark_visited_ok n Hn vs1 (upd f i 1) wi Hvs1 Hwi) as (vs2 & -> & Hvs2). cbn [mbind io_result_bind].
      rewrite length_app. cbn [length]. replace (length r + 1 - 1)%nat with (length r) by lia. rewrite take_app_length.
      assert (scored_le (scored i) (scored wi)) as Hiw by (destruct (total scored_le (scored i) (scored wi)); done).
      rewrite length_app in Ef. cbn in Ef. rewrite fmap_app in Hnd. apply NoDup_app in Hnd as (Hndr & Hndw & _).
      assert (∀ j, j ≠ i → j ≠ wi → upd (upd f i 1) wi 1 j = f j) as Hother by (intros; unfold upd; by rewrite !decide_False).
      assert (upd (upd f i 1) wi 1 wi = 1) as Hw1 by (unfold upd; by rewrite decide_True).
      assert (upd (upd f i 1) wi 1 i = 1) as Hi1 by (unfold upd; rewrite decide_False, decide_True by done; done).
      apply (Hretain vs2 (upd (upd f i 1) wi 1) r); try done.
      * lia.
      * lia.
      * by eapply sorted_init.
      * intros j Hj Hne. destruct (decide (j = wi)) as [->|]; [right; split; [done|lia]|left; auto].
      * intros c. split.
        -- intros Hc. destruct (Hre c ltac:(set_solver)) as (j & Hj & -> & Hs). exists j. assert (j ≠ i) by (intros ->; lia).
           assert (j ≠ wi). { intros ->. apply (Hndw (id (scored wi))); [apply list_elem_of_fmap; eauto|set_solver]. }
           rewrite Hother by done. done.
        -- intros (j & Hj & Hne & -> & Hs). assert (j ≠ wi) as Hjw by (intros ->; lia). rewrite Hother in Hs by done.
           pose proof (Hme j Hj Hs) as Hin. apply elem_of_app in Hin as [Hin|Hin%list_elem_of_singleton]; [done|].
           injection Hin as Hin _. lia.
      * intros j Hj Hne Hs. split; [lia|]. destruct (decide (j = wi)) as [->|Hjw].
        -- split; [done|]. intros c Hc. by eapply sorted_last.
        -- rewrite Hother in Hs by done. destruct (Hrj j Hj Hs) as [_ Hall]. split; [etrans; [exact Hiw|]; apply Hall; set_solver|].
           intros c Hc. apply Hall. set_solver.
      * intros j Hne Hj. apply Hother; [done|lia].
      * pose proof (potential_upd (upd f i 1) wi 1 Hwi) as E. cbn in E. lia.
  - cbn [mbind io_result_bind]. assert (∀ j, j ≠ i → upd f i 1 j = f j) as Hother by (intros; unfold upd; by rewrite decide_False).
    apply (Hretain vs1 (upd f i 1) (results s)); try done.
    + unfold upd. rewrite decide_True by done. lia.
    + lia.
    + intros j Hj Hne. left. auto.
    + intros c. split.
      * intros Hc. destruct (Hre c Hc) as (j & Hj & -> & Hs). exists j. assert (j ≠ i) by (intros ->; lia). rewrite Hother by done. done.
      * intros (j & Hj & Hne & -> & Hs). rewrite Hother in Hs by done. auto.
    + intros j Hj Hne Hs. rewrite Hother in Hs by done. destruct (Hrj j Hj Hs). lia.
    + intros j Hne _. auto.
    + lia.
Qed.

(** ** The loop *)

Lemma pop_loop_ok vs f fr :
  vs_rep n vs f → (∀ c, c ∈ fr → ∃ i, (i < n)%nat ∧ c = scored i) →
  ∃ found fr', pop_loop vs fr = Ok (found, fr') ∧ (∀ c, c ∈ fr' → c ∈ fr) ∧
    match found with
    | Some c => ∃ i, (i < n)%nat ∧ c = scored i ∧ f i = 2 ∧ ∀ j, j ≠ i → f j = 2 → scored j ∈ fr → scored j ∈ fr'
    | None => ∀ j, (j < n)%nat → f j = 2 → scored j ∉ fr
    end.
Proof.
  intros Hr. induction fr as [|c fr IH]; intros Hfr; cbn [pop_loop].
  { exists None, []. split_and!; [done|set_solver|]. intros j _ _. set_solver. }
  destruct (Hfr c ltac:(set_solver)) as (i & Hi & ->). assert (Z.to_nat (id (scored i)) = i) as -> by apply Nat2Z.id.
  rewrite (is_retained_ok n Hn vs f i Hr Hi). cbn [mbind io_result_bind].
  destruct (f i =? 2) eqn:E; [apply Z.eqb_eq in E|apply Z.eqb_neq in E].
  - exists (Some (scored i)), fr. split_and!; [done|set_solver|]. exists i. split_and!; [done|done|done|].
    intros j Hne Hj [Ej|Hin]%elem_of_cons; [|done]. injection Ej as Ej _. lia.
  - destruct IH as (found & fr' & -> & Hsub & Hf); [set_solver|]. exists found, fr'. split_and!; [done|set_solver|]. destruct found as [c|].
    + destruct Hf as (k & Hk & -> & Hfk & Hrest). exists k. split_and!; [done|done|done|]. intros j Hne Hj [Ej|Hin]%elem_of_cons; [|auto].
      injection Ej as Ej _. assert (j = i) as -> by lia. done.
    + intros j Hj Hfj [Ej|Hin]%elem_of_cons; [injection Ej as Ej _; assert (j = i) as -> by lia; done|]. by apply (Hf j).
Qed.

Context (adj : CompactAdjacency) (l : list (list Z)) (Hrep : rep adj l) (Hlen : length l = n).
Context (Hnonneg : Forall (Forall (λ v, 0 <= v)) l).

(** Every neighbour of an expanded node has been seen. *)
Definition expanded_closed (f : nat → Z) : Prop := ∀ u v, (u < n)%nat → f u = 3 → edge l u v → (v < n)%nat → f v ≠ 0.

Lemma visit_neighbor_ok s f v :
  search_inv s f → 0 <= v →
  ∃ s' f', visit_neighbor dq adj L s v = Ok s' ∧ search_inv s' f' ∧ (potential f' ≤ potential f)%nat ∧
    (∀ j, (f j ≠ 0 → f' j ≠ 0) ∧ (f' j = 3 → f j = 3)) ∧ ((Z.to_nat v < n)%nat → f' (Z.to_nat v) ≠ 0).
Proof.
  intros Hinv Hv. unfold visit_neighbor, adj_len. rewrite (rep_count adj l Hrep), Hlen.
  destruct (n <=? Z.to_nat v)%nat eqn:E; [apply Nat.leb_le in E|apply Nat.leb_gt in E].
  { exists s, f. split_and!; [done|done|lia|done|lia]. }
  rewrite (is_visited_ok n Hn _ f _ (si_states _ _ Hinv) E). cbn [mbind io_result_bind].
  destruct (f (Z.to_nat v) =? 0) eqn:E0; [apply Z.eqb_eq in E0|apply Z.eqb_neq in E0]; cbn [negb].
  - assert (Scored v (dq (Z.to_nat v)) = scored (Z.to_nat v)) as -> by (unfold scored; by rewrite Z2Nat.id).
    destruct (insert_candidate_ok s f (Z.to_nat v) Hinv E E0) as (s' & f' & -> & Hinv' & Hpot & Hmono). exists s', f'.
    split_and!; [done|done|lia| |]; [intros j; destruct (Hmono j); split; auto|intros _; apply Hmono; by right].
  - exists s, f. split_and!; [done|done|lia|done|done].
Qed.

Lemma visit_neighbors_ok nbrs : ∀ s f,
  search_inv s f → Forall (λ v, 0 <= v) nbrs →
  ∃ s' f', try_fold (visit_neighbor dq adj L) s nbrs = Ok s' ∧ search_inv s' f' ∧ (potential f' ≤ potential f)%nat ∧
    (∀ j, (f j ≠ 0 → f' j ≠ 0) ∧ (f' j = 3 → f j = 3)) ∧ ∀ v, v ∈ nbrs → (Z.to_nat v < n)%nat → f' (Z.to_nat v) ≠ 0.
Proof.
  induction nbrs as [|v nbrs IH]; intros s f Hinv Hb; cbn [try_fold].
  { exists s, f. split_and!; [done|done|lia|done|set_solver]. }
  apply Forall_cons in Hb as [Hv Hb]. destruct (visit_neighbor_ok s f v Hinv Hv) as (s1 & f1 & -> & Hinv1 & Hp1 & Hm1 & Hv1).
  cbn [mbind io_result_bind]. destruct (IH s1 f1 Hinv1 Hb) as (s2 & f2 & -> & Hinv2 & Hp2 & Hm2 & Hv2). exists s2, f2. split_and!; [done|done|lia| |].
  - intros j. destruct (Hm1 j), (Hm2 j). split; auto.
  - intros w [->|Hw]%elem_of_cons Hlt; [|auto]. apply Hm2. auto.
Qed.

Lemma expand_inv s f i vs fr :
  search_inv s f → (i < n)%nat → f i = 2 → vs_rep n vs (upd f i 3) →
  (∀ c, c ∈ fr → c ∈ frontier s) → (∀ j, (j < n)%nat → j ≠ i → f j = 2 → scored j ∈ fr) →
  search_inv (Scratch vs (results s) fr) (upd f i 3).
Proof.
  intros [Hst Hrg Hso Hl Hnd Hre Hme Hfr Hop Hrj] Hi H2 Hvs Hsub Hopen.
  assert (∀ j, j ≠ i → upd f i 3 j = f j) as Hother by (intros; unfold upd; by rewrite decide_False).
  assert (upd f i 3 i = 3) as Hself by (unfold upd; by rewrite decide_True).
  split; cbn [visit_states results frontier]; try done.
  - intros j Hj. destruct (decide (j = i)) as [->|]; [rewrite Hself; auto|]. rewrite Hother by done. auto.
  - intros c Hc. destruct (Hre c Hc) as (j & Hj & -> & Hs). exists j. split_and!; [done|done|].
    destruct (decide (j = i)) as [->|]; [by right|]. rewrite Hother by done. done.
  - intros j Hj Hs. destruct (decide (j = i)) as [->|]; [apply Hme; auto|]. rewrite Hother in Hs by done. auto.
  - intros c Hc. auto.
  - intros j Hj Hs. destruct (decide (j = i)) as [->|]; [lia|]. rewrite Hother in Hs by done. auto.
  - intros j Hj Hs. destruct (decide (j = i)) as [->|]; [lia|]. rewrite Hother in Hs by done. auto.
Qed.

Lemma greedy_loop_ok fuel : ∀ s f,
  (potential f < fuel)%nat → search_inv s f → expanded_closed f →
  ∃ s' f', greedy_loop dq adj L fuel s = Ok s' ∧ search_inv s' f' ∧ expanded_closed f' ∧ (∀ j, f j ≠ 0 → f' j ≠ 0) ∧
    ∀ j, (j < n)%nat → f' j ≠ 2.
Proof.
  induction fuel as [|fuel IH]; intros s f Hf Hinv Hcl; [lia|]. cbn [greedy_loop]. unfold pop_nearest_unexpanded.
  destruct (pop_loop_ok (visit_states s) f (frontier s) (si_states _ _ Hinv) (si_frontier _ _ Hinv)) as (found & fr & -> & Hsub & Hfound).
  cbn [mbind io_result_bind]. destruct found as [c|].
  - destruct Hfound as (i & Hi & -> & H2 & Hrest). cbn [visit_states results frontier]. assert (Z.to_nat (id (scored i)) = i) as -> by apply Nat2Z.id.
    destruct (mark_state_ok n Hn (visit_states s) f i 3 (si_states _ _ Hinv) Hi ltac:(lia) ltac:(lia)) as (vs & E & Hvs).
    unfold mark_expanded. rewrite E. cbn [mbind io_result_bind].
    destruct (lookup_lt_is_Some_2 l i) as [x Hx]; [lia|]. rewrite (adj_neighbors_ok adj l i x Hrep Hx). cbn [mbind io_result_bind].
    destruct (visit_neighbors_ok x (Scratch vs (results s) fr) (upd f i 3)) as (s1 & f1 & -> & Hinv1 & Hp1 & Hm1 & Hv1).
    { apply expand_inv; try done. intros j Hj Hne Hfj. apply Hrest; [done|done|]. by apply (si_open _ _ Hinv). }
    { exact (Forall_lookup_1 _ _ _ _ Hnonneg Hx). }
    cbn [mbind io_result_bind].
    assert (∀ j, f j ≠ 0 → f1 j ≠ 0) as Hmono by (intros j Hj; apply Hm1; unfold upd; case_decide; lia).
    destruct (IH s1 f1) as (s2 & f2 & -> & Hinv2 & Hcl2 & Hm2 & Hd2).
    + pose proof (potential_upd f i 3 Hi) as Ep. rewrite H2 in Ep. cbn in Ep. lia.
    + done.
    + intros u v Hu Hfu He Hv. destruct (Hm1 u) as [_ Hu3]. specialize (Hu3 Hfu). unfold upd in Hu3. case_decide as Eu.
      * subst u. destruct He as (x' & Hx' & Hvx). rewrite Hx in Hx'. injection Hx' as <-. rewrite <- (Nat2Z.id v). apply Hv1; [done|lia].
      * apply Hmono. by apply (Hcl u).
    + exists s2, f2. split_and!; [done|done|done|auto|done].
  - eexists (Scratch (visit_states s) (results s) fr), f. split_and!; [done| |done|done|].
    + destruct Hinv as [Hst Hrg Hso Hl Hnd Hre Hme Hfr Hop Hrj]. split; cbn [visit_states results frontier]; auto.
      intros j Hj Hs. exfalso. by apply (Hfound j Hj Hs), Hop.
    + intros j Hj Hs. by apply (Hfound j Hj Hs), (si_open _ _ Hinv).
Qed.

Lemma potential_zero : potential (λ _, 0) = (2 * n)%nat.
Proof.
  unfold potential. rewrite <- (length_seq n 0) at 2. induction (seq 0 n) as [|i k IH]; [done|]. cbn [sum_list_with length]. rewrite IH. cbn. lia.
Qed.

Lemma fresh_inv vs : vs_rep n vs (λ _, 0) → search_inv (Scratch vs [] []) (λ _, 0).
Proof. intros Hvs. split; cbn [visit_states results frontier length]; first [done|by constructor|lia|intros; lia|intros; set_solver|by auto]. Qed.

(** What a finished search has found. *)
Record search_result (entry : nat) (found : list ScoredNode) : Prop := {
  sr_sorted : StronglySorted scored_le found;
  sr_len : (length found ≤ L)%nat;
  sr_nodup : NoDup (id <$> found);
  sr_nodes : ∀ c, c ∈ found → ∃ i, (i < n)%nat ∧ c = scored i;
  sr_entry : scored entry ∈ found ∨ (length found = L ∧ ∀ c, c ∈ found → scored_le c (scored entry));
  sr_local : ∀ u v, (u < n)%nat → scored u ∈ found → edge l u v → (v < n)%nat →
    scored v ∈ found ∨ (length found = L ∧ ∀ c, c ∈ found → scored_le c (scored v));
}.

Lemma greedy_run_ok vs entry :
  vs_rep n vs (λ _, 0) → (entry < n)%nat →
  ∃ s' f', (s ← insert_candidate (Scratch vs [] []) (scored entry) L; greedy_loop dq adj L (S (2 * adj_len adj)) s) = Ok s' ∧
    vs_rep n (visit_states s') f' ∧ search_result entry (results s').
Proof.
  intros Hvs He. destruct (insert_candidate_ok (Scratch vs [] []) (λ _, 0) entry (fresh_inv vs Hvs) He eq_refl) as (s1 & f1 & -> & Hinv1 & Hp1 & Hm1).
  cbn [mbind io_result_bind]. unfold adj_len. rewrite (rep_count adj l Hrep), Hlen. rewrite potential_zero in Hp1.
  destruct (greedy_loop_ok (S (2 * n)) s1 f1) as (s2 & f2 & -> & Hinv2 & Hcl2 & Hm2 & Hd2); [lia|done| |].
  { intros u v Hu Hfu. destruct (Hm1 u) as [_ H3]. specialize (H3 Hfu). lia. }
  exists s2, f2. split_and!; [done|apply Hinv2|]. pose proof Hinv2 as [Hst Hrg Hso Hl Hnd Hre Hme Hfr Hop Hrj].
  assert (∀ v, (v < n)%nat → f2 v ≠ 0 → scored v ∈ results s2 ∨ (length (results s2) = L ∧ ∀ c, c ∈ results s2 → scored_le c (scored v))) as Hseen.
  { intros v Hv Hne. destruct (Hrg v Hv) as [?|[?|[?|?]]]; [done|right; by apply Hrj|left; apply Hme; auto..]. }
  split; try done.
  - intros c Hc. destruct (Hre c Hc) as (i & Hi & -> & _). eauto.
  - apply Hseen; [done|]. apply Hm2. apply Hm1. by right.
  - intros u v Hu Hin Hedge Hv. apply Hseen; [done|]. apply (Hcl2 u v Hu); [|done|done].
    destruct (Hre _ Hin) as (i & Hi & E & [?|H3]); injection E as E _; assert (u = i) as -> by lia; [by destruct (Hd2 i Hu)|done].
Qed.

End Invariant.

(** C21: greedy search on any stored graph of fewer than 2^30 nodes returns, for
    any distances, search list size and earlier use of the scratch memory,
    dense or sparse: the result is a list of at most [search_list_size]
    distinct nodes with their distances in increasing order, and it is a local
    optimum: a neighbour of a result is itself a result, or the list is full
    and every result is at least as near; the same holds for the entry. *)
Theorem greedy_search_local_optimum dq adj l L entry s f :
  rep adj l → Z.of_nat (length l) < 2 ^ 30 → Forall (Forall (λ v, 0 <= v)) l → (entry < length l)%nat → (0 < L)%nat →
  vs_rep (length l) (visit_states s) f →
  ∃ s', greedy_search_with_scratch dq adj L (Z.of_nat entry) s = Ok s' ∧ search_result dq (length l) L l entry (results s').
Proof.
  intros Hr Hn Hnn He HL Hvs. unfold greedy_search_with_scratch. destruct (begin_search_ok (length l) Hn s f Hvs) as (vs & -> & Hvs'). cbn [mbind io_result_bind].
  unfold adj_len at 1. rewrite (rep_count adj l Hr), !(proj2 (Nat.eqb_neq _ 0)) by lia. cbn [orb]. rewrite Nat2Z.id.
  destruct (greedy_run_ok dq (length l) L Hn adj l Hr eq_refl Hnn vs entry Hvs' He) as (s' & f' & E & _ & Hres). exists s'. split; [exact E|done].
Qed.

Definition demo_distance (i : nat) : Z := default 0 ([5; 9; 3; 4; 1] !! i).
Lemma greedy_search_local_optimum_witness :
  ∃ s', greedy_search_with_scratch demo_distance demo_adjacency 2 (Z.of_nat 1) (Scratch (Dense [0; 0; 0; 0; 0] []) [] []) = Ok s' ∧
    results s' = [Scored 4 1; Scored 2 3] ∧ search_result demo_distance 5 2 demo_lists 1 (results s').
Proof.
  destruct (greedy_search_local_optimum demo_distance demo_adjacency demo_lists 2 1 (Scratch (Dense [0; 0; 0; 0; 0] []) [] []) (λ _, 0)) as (s' & E & Hs).
  - apply demo_adjacency_rep.
  - vm_compute. reflexivity.
  - repeat (apply Forall_cons_2; [repeat (apply Forall_cons_2; [lia|]); constructor|]). constructor.
  - vm_compute. lia.
  - lia.
  - cbn. split_and!; [done| |intros i _ Hi; done|constructor]. intros i Hi. do 5 (destruct i as [|i]; [done|]). lia.
  - exists s'. split_and!; [done| |done].
    assert ((s ← greedy_search_with_scratch demo_distance demo_adjacency 2 (Z.of_nat 1) (Scratch (Dense [0; 0; 0; 0; 0] []) [] []); Ok (results s))
      = Ok [Scored 4 1; Scored 2 3]) as E' by (vm_compute; reflexivity).
    rewrite E in E'. cbn [mbind io_result_bind] in E'. by injection E'.
Defined.
