(* ===== verification/VamanaBuild.v ===== *)
(** Building a Vamana graph: random initialisation, the two passes of
    [ParallelVamanaBuilder], [build_with_search_distance] and the checks before
    it, of [core/src/vamana.rs].

    The [rand] crate is the class [Rng]; its documented behaviour (a value of
    the range, a permutation) is [RngLaws].  Distances and the product by
    [alpha] are arguments.  The parallel loops run in order with one scratch
    memory: the searches of a batch only read the graph, and the reverse-edge
    groups have distinct targets, so their order is immaterial
    ([reverse_groups_any_order]). *)

From stdpp Require Import sorting.
From S2P Require Import Prelude F32 Adjacency DiskannUtil RowIds DiskannHeader SparseTable CompactAdjacency VamanaGraph VamanaRepair RobustPrune GreedySearch.

Definition PARALLEL_BUILD_BATCH_NODES : nat := 128.

(** [StdRng] with [gen_range(lo..hi)] and [SliceRandom::shuffle]. *)
Class Rng (R : Type) := {
  seed_from_u64 : Z → R;
  gen_range : nat → nat → R → nat * R;
  shuffle : list nat → R → list nat * R;
}.
Class RngLaws (R : Type) `{Rng R} := {
  gen_range_bounds lo hi r : (lo < hi)%nat → (lo ≤ (gen_range lo hi r).1 < hi)%nat;
  shuffle_permutes l r : (shuffle l r).1 ≡ₚ l;
}.

(** ** Random initial neighbours *)

Section Random.
Context `{Rng R}.

(** [swaps.get(key).copied().unwrap_or(key)] *)
Definition swapped (swaps : SparseTable Z) (key : nat) : io_result Z :=
  v ← table_get swaps (wrap 32 (Z.of_nat key)); Ok (default (wrap 32 (Z.of_nat key)) v).

Definition draw_neighbor (count node : nat) (st : R * SparseTable Z * list Z) (index : nat) : io_result (R * SparseTable Z * list Z) :=
  let '(rng, swaps, neighbors) := st in
  let population := (count - 1)%nat in
  if (index <? population)%nat then
    let '(selected_index, rng) := gen_range index population rng in
    selected ← swapped swaps selected_index;
    replacement ← swapped swaps index;
    swaps ← (if (selected_index =? index)%nat then Ok swaps
             else '(_, swaps) ← table_insert 0 swaps (wrap 32 (Z.of_nat selected_index)) replacement; Ok swaps);
    Ok (rng, swaps, neighbors ++ [if Z.of_nat node <=? selected then selected + 1 else selected])
  else Panic.
Definition sample_random_neighbors_into (rng : R) (count node : nat) (swaps : SparseTable Z) (len : nat) :
    io_result (R * SparseTable Z * list Z) :=
  swaps ← table_clear swaps;
  try_fold (draw_neighbor count node) (rng, swaps, []) (seq 0 len).

Definition random_node (count max_degree start_node : nat) (st : R * SparseTable Z * list Z) (local_node : nat) :
    io_result (R * SparseTable Z * list Z) :=
  let '(rng, swaps, slots) := st in
  '(rng, swaps, neighbors) ← sample_random_neighbors_into rng count (start_node + local_node) swaps max_degree;
  slots ← copy_into (local_node * max_degree) neighbors slots;
  Ok (rng, swaps, slots).
Definition random_shard (node_count max_degree : nat) (seed : Z) (shard_index : nat) : io_result AdjacencyShard :=
  let start_node := (shard_index * PARALLEL_ADJACENCY_NODES_PER_SHARD)%nat in
  let n := shard_size node_count start_node in
  swaps ← with_capacity 0 (Z.of_nat max_degree);
  '(_, _, slots) ← try_fold (random_node node_count max_degree start_node)
                     (seed_from_u64 (derived_seed seed (Z.of_nat shard_index)), swaps, replicate (n * max_degree) 0) (seq 0 n);
  Ok (Shard start_node n slots (replicate n (wrap 16 (Z.of_nat max_degree)))).
Definition new_random (node_count max_degree : nat) (seed : Z) : io_result CompactAdjacency :=
  if (max_degree <=? node_count - 1)%nat then
    shards ← try_map (random_shard node_count max_degree seed)
               (seq 0 (Z.to_nat (div_ceil (Z.of_nat node_count) (Z.of_nat PARALLEL_ADJACENCY_NODES_PER_SHARD))));
    Ok (Compact_ shards node_count max_degree)
  else Panic.

End Random.

(** ** Passes *)

(** [slice::chunks(n)] *)
Fixpoint chunks_fuel {A} (fuel n : nat) (l : list A) : list (list A) :=
  match fuel, l with
  | S fuel, _ :: _ => take n l :: chunks_fuel fuel n (drop n l)
  | _, _ => []
  end.
Definition chunks {A} (n : nat) (l : list A) : list (list A) := chunks_fuel (length l) n l.

(** The kernels a build is given. *)
Record BuildKernels := Kernels {
  k_to_query : nat → nat → Z;
  k_node_distance : nat → nat → Z;
  k_between : nat → nat → Z;
  k_between_four : nat → quad nat → quad Z;
  k_exceeds : nat → nat → Z → Z → bool;
  k_mul : Z → Z → Z;
  k_centroid_distance : nat → Z;
}.

Section Pass.
Context (K : BuildKernels) (dimension : Z) (metric : MetricType).
Context (entry_node : Z) (max_degree search_list_size : nat) (alpha : Z).

Definition prune (node : nat) (candidates current_neighbors : list Z) (node_count : nat) : io_result (list Z) :=
  robust_prune_candidates (k_mul K) (k_between K) (k_between_four K) (k_exceeds K) dimension metric alpha
    node candidates current_neighbors node_count max_degree.

(** The work of one node of a batch, on the graph of before the batch. *)
Definition search_and_prune (adj : CompactAdjacency) (scratch : GreedySearchScratch) (node : nat) :
    io_result (list Z * GreedySearchScratch) :=
  scratch ← greedy_search (λ other, k_to_query K other node) adj search_list_size entry_node scratch;
  neighbors ← adj_neighbors adj node;
  selected ← prune node (id <$> results scratch) neighbors (adj_len adj);
  Ok (selected, scratch).

(** The closure of [insert_reverse_edges]. *)
Definition reverse_selection (node_count node : nat) (incoming neighbors : list Z) : io_result (list Z) :=
  let fresh := filter (λ neighbor, neighbor ∉ neighbors) incoming in
  if (length fresh =? 0)%nat then Ok neighbors
  else if saturating_add 64 (zlen neighbors) (zlen fresh) <=? Z.of_nat max_degree then Ok (neighbors ++ fresh)
  else prune node incoming neighbors node_count.
Definition insert_reverse_edges (adj : CompactAdjacency) (group : list (Z * Z)) : io_result CompactAdjacency :=
  node ← Z.to_nat ∘ fst <$> expect (head group);
  neighbors ← adj_neighbors adj node;
  selected ← reverse_selection (adj_len adj) node (snd <$> group) neighbors;
  adj_replace adj node selected.

Definition commit_node (st : CompactAdjacency * list (Z * Z)) (node_selected : nat * list Z) :
    io_result (CompactAdjacency * list (Z * Z)) :=
  let '(adj, reverse_edges) := st in
  let '(node, selected) := node_selected in
  adj ← adj_replace adj node selected;
  Ok (adj, reverse_edges ++ ((λ neighbor, (neighbor, Z.of_nat node)) <$> selected)).

Definition run_batch (st : CompactAdjacency * GreedySearchScratch) (batch : list nat) : io_result (CompactAdjacency * GreedySearchScratch) :=
  let '(adj, scratch) := st in
  '(selected_by_node, scratch) ←
    try_fold (λ '(acc, scratch) node, '(selected, scratch) ← search_and_prune adj scratch node; Ok (acc ++ [selected], scratch))
      ([], scratch) batch;
  '(adj, reverse_edges) ← try_fold commit_node (adj, []) (zip batch selected_by_node);
  adj ← try_fold insert_reverse_edges adj (group_reverse_edges reverse_edges);
  Ok (adj, scratch).

Definition run_pass `{Rng R} (rng : R) (adj : CompactAdjacency) : io_result (CompactAdjacency * R) :=
  let '(order, rng) := shuffle (seq 0 (adj_len adj)) rng in
  scratch ← scratch_new (Z.of_nat (adj_len adj)) (Z.of_nat max_degree) (Z.of_nat search_list_size);
  '(adj, _) ← try_fold run_batch (adj, scratch) (chunks PARALLEL_BUILD_BATCH_NODES order);
  Ok (adj, rng).

End Pass.

(** ** Checks and the build *)

Record VamanaMemoryEstimate := Estimate { build_peak_bytes : Z; remap_peak_bytes : Z }.

(** The sizes the compiler gives [RwLock<AdjacencyShard>] and [AdjacencyShard];
    a [ScoredNode] is 8 bytes. *)
Record ShardSizes := Sizes { lock_size : Z; shard_bytes : Z }.

Definition estimate_vamana_memory_bytes (sz : ShardSizes) (node_count max_degree search_list_size workers : Z) : option VamanaMemoryEstimate :=
  edge_bytes ← checked_mul 64 max_degree 4;
  builder_edges ← checked_mul 64 node_count edge_bytes;
  builder_degrees ← checked_mul 64 node_count 2;
  let shard_count := div_ceil node_count (Z.of_nat PARALLEL_ADJACENCY_NODES_PER_SHARD) in
  builder_shards ← checked_mul 64 shard_count (lock_size sz);
  builder_graph ← checked_add 64 builder_edges builder_degrees;
  builder_graph ← checked_add 64 builder_graph builder_shards;
  build_order ← checked_mul 64 node_count 8;
  expected_visited ← checked_mul 64 search_list_size max_degree;
  expected_visited ← checked_add 64 expected_visited 1;
  let expected_visited := Z.min expected_visited node_count in
  dense_marks ← checked_mul 64 node_count 1;
  dense_touched ← checked_mul 64 expected_visited 4;
  dense_worker_states ← checked_add 64 dense_marks dense_touched;
  sparse_worker_states ← estimated_memory_bytes expected_visited 1;
  let worker_states :=
    match checked_mul 64 sparse_worker_states SPARSE_BUILD_VISITED_MIN_MEMORY_SAVINGS with
    | Some threshold => if threshold <? dense_worker_states then sparse_worker_states else dense_worker_states
    | None => dense_worker_states
    end in
  worker_candidates ← checked_mul 64 search_list_size 3;
  worker_candidates ← checked_mul 64 worker_candidates 8;
  prune_candidates ← checked_add 64 search_list_size max_degree;
  worker_prune ← checked_mul 64 prune_candidates 12;
  worker_candidate_ids ← checked_mul 64 search_list_size 4;
  worker_neighbors ← checked_mul 64 max_degree 8;
  per_worker ← checked_add 64 worker_states worker_candidates;
  per_worker ← checked_add 64 per_worker worker_prune;
  per_worker ← checked_add 64 per_worker worker_candidate_ids;
  per_worker ← checked_add 64 per_worker worker_neighbors;
  worker_scratch ← checked_mul 64 (Z.max workers 1) per_worker;
  reverse_edge_batch ← checked_mul 64 (Z.of_nat PARALLEL_BUILD_BATCH_NODES) max_degree;
  reverse_edge_batch ← checked_mul 64 reverse_edge_batch 12;
  peak ← checked_add 64 builder_graph build_order;
  peak ← checked_add 64 peak worker_scratch;
  build_peak_bytes ← checked_add 64 peak reverse_edge_batch;
  final_shards ← checked_mul 64 shard_count (shard_bytes sz);
  compact_graph ← checked_add 64 builder_edges builder_degrees;
  compact_graph ← checked_add 64 compact_graph final_shards;
  permutations ← checked_mul 64 node_count 8;
  permutation_visited ← checked_mul 64 node_count 1;
  permutation_scratch ← checked_add 64 edge_bytes 2;
  remap ← checked_add 64 compact_graph permutations;
  remap ← checked_add 64 remap permutation_visited;
  remap_peak_bytes ← checked_add 64 remap permutation_scratch;
  Some (Estimate build_peak_bytes remap_peak_bytes).

Definition validate_build_inputs (vectors_len count dimension max_degree : Z) : io_result unit :=
  _ ← ensure_input (negb ((count =? 0) || (dimension =? 0) || (max_degree =? 0)))
        "Vamana count, dimension, and maximum degree must be greater than zero";
  _ ← ensure_input (negb (U32_MAX <? count)) "Vamana vector count exceeds u32 node ID limit";
  _ ← ensure_input (negb (65535 <? max_degree)) "Vamana maximum degree exceeds u16 adjacency degree limit";
  expected ← or_input (checked_mul 64 count dimension) "Vamana vector shape overflows usize";
  ensure_input (vectors_len =? expected) "Vamana vector length does not match".

Definition validate_build_memory_budget (estimated_peak : option Z) (budget : Z) : io_result unit :=
  match estimated_peak with
  | Some peak => if peak <=? budget then Ok () else Err (IoError OutOfMemory "Vamana build exceeds the memory budget")
  | None => Err (IoError OutOfMemory "Vamana build exceeds the memory budget")
  end.

(** [(0..count).min_by(..)]: the first of the nodes nearest to the centroid. *)
Definition nearer_to_centroid (distance : nat → Z) (best : option nat) (node : nat) : option nat :=
  match best with
  | Some b => if f32_total_key (distance node) <? f32_total_key (distance b) then Some node else Some b
  | None => Some node
  end.
Definition centroid_entry (distance : nat → Z) (count : nat) : io_result nat :=
  expect (foldl (nearer_to_centroid distance) None (seq 0 count)).

Record VamanaParams := Params {
  vp_max_degree : nat; vp_build_search_list_size : nat; vp_alpha : Z; vp_seed : Z; vp_memory_budget_bytes : Z; vp_workers : Z }.

(** The end of every build: repair, then the two checks of the result. *)
Definition repair_and_check (K : BuildKernels) (graph : VamanaGraph) (max_degree : nat) (message : string) : io_result VamanaGraph :=
  '(graph, _) ← repair_connectivity_with_stats (k_node_distance K) graph max_degree;
  _ ← validate graph max_degree;
  reachable ← is_fully_reachable graph;
  _ ← ensure_data reachable message;
  Ok graph.

Definition build_with_search_distance `{Rng R} (K : BuildKernels) (sz : ShardSizes) (vectors_len dimension : Z) (count : nat)
    (metric : MetricType) (params : VamanaParams) : io_result VamanaGraph :=
  _ ← validate_build_inputs vectors_len (Z.of_nat count) dimension (Z.of_nat (vp_max_degree params));
  _ ← validate_build_memory_budget
        ((λ e, Z.max (build_peak_bytes e) (remap_peak_bytes e)) <$>
           estimate_vamana_memory_bytes sz (Z.of_nat count) (Z.of_nat (vp_max_degree params))
             (Z.of_nat (vp_build_search_list_size params)) (vp_workers params))
        (vp_memory_budget_bytes params);
  entry ← centroid_entry (k_centroid_distance K) count;
  let degree := (vp_max_degree params `min` (count - 1))%nat in
  adj ← new_random (R := R) count degree (vp_seed params);
  let rng : R := seed_from_u64 (derived_seed (vp_seed params) (2 ^ 64 - 1)) in
  '(adj, rng) ← run_pass K dimension metric (Z.of_nat entry) (vp_max_degree params) (vp_build_search_list_size params) F32_ONE rng adj;
  '(adj, _) ← run_pass K dimension metric (Z.of_nat entry) (vp_max_degree params) (vp_build_search_list_size params) (vp_alpha params) rng adj;
  repair_and_check K (Graph (Z.of_nat entry) adj) (vp_max_degree params)
    "parallel Vamana graph is not fully reachable from its entry node".

(** ** Random neighbours are distinct *)

Definition skip_node (node : nat) (v : Z) : Z := if Z.of_nat node <=? v then v + 1 else v.

Section Sampling.
Context `{RngLaws R} (count node : nat) (Hcount : Z.of_nat count < 2 ^ 30) (Hnode : (node < count)%nat).

Local Notation pop := (count - 1)%nat.
Definition current (m : gmap Z Z) (p : nat) : Z := default (Z.of_nat p) (m !! Z.of_nat p).

(** The places not drawn yet hold distinct values, none of them drawn. *)
Record drawing (index : nat) (m : gmap Z Z) (chosen : list Z) : Prop := {
  dr_range : ∀ p, (index ≤ p < pop)%nat → 0 <= current m p < Z.of_nat pop ∧ current m p ∉ chosen;
  dr_inj : ∀ p q, (index ≤ p < pop)%nat → (index ≤ q < pop)%nat → current m p = current m q → p = q;
  dr_nodup : NoDup chosen;
  dr_chosen : Forall (λ v, 0 <= v < Z.of_nat pop) chosen;
  dr_len : length chosen = index;
}.

Lemma place_key p : (p < pop)%nat → wrap 32 (Z.of_nat p) = Z.of_nat p ∧ u32 (Z.of_nat p) ∧ Z.of_nat p ≠ EMPTY_KEY.
Proof.
  intros Hp. change (2 ^ 30) with 1073741824 in Hcount.
  assert (u32 (Z.of_nat p)) as Hu by (unfold_widths; lia). split_and!; [by apply wrap_small|done|]. unfold EMPTY_KEY. unfold_widths. lia.
Qed.

Lemma swapped_ok t m p : table_ok t m → (p < pop)%nat → swapped t p = Ok (current m p).
Proof. intros Hok Hp. unfold swapped. destruct (place_key p Hp) as (-> & Hu & Hne). by rewrite (table_get_spec t m). Qed.

Lemma draw_ok rng t m chosen index :
  table_ok t m → drawing index m chosen → (index < pop)%nat → zlen (touched_slots t) <= Z.of_nat index →
  ∃ rng' t' m' v, draw_neighbor count node (rng, t, skip_node node <$> chosen) index = Ok (rng', t', skip_node node <$> (chosen ++ [v])) ∧
    table_ok t' m' ∧ drawing (S index) m' (chosen ++ [v]) ∧ zlen (touched_slots t') <= Z.of_nat (S index).
Proof.
  intros Hok Hdr Hi Ht. unfold draw_neighbor. rewrite (proj2 (Nat.ltb_lt _ _) Hi).
  pose proof (gen_range_bounds index pop rng Hi) as Hsel. destruct (gen_range index pop rng) as [sel rng']. cbn [fst] in Hsel.
  rewrite (swapped_ok t m sel Hok) by lia. cbn [mbind io_result_bind]. rewrite (swapped_ok t m index Hok Hi). cbn [mbind io_result_bind].
  assert (∃ t' m', (if (sel =? index)%nat then Ok t
      else '(_, t) ← table_insert 0 t (wrap 32 (Z.of_nat sel)) (current m index); Ok t) = Ok t' ∧ table_ok t' m' ∧
      zlen (touched_slots t') <= Z.of_nat (S index) ∧
      ∀ p, (index < p < pop)%nat → current m' p = if decide (p = sel) then current m index else current m p) as (t' & m' & -> & Hok' & Ht' & Hcur).
  { destruct (sel =? index)%nat eqn:E; [apply Nat.eqb_eq in E; subst|apply Nat.eqb_neq in E].
    - exists t, m. split_and!; [done|done|lia|]. intros p Hp. rewrite decide_False by lia. done.
    - destruct (place_key sel ltac:(lia)) as (-> & Hu & Hne). destruct (table_insert_spec 0 t m (Z.of_nat sel) (current m index) Hok Hu Hne) as (t' & -> & Hok' & Hl).
      { change (2 ^ 30) with 1073741824 in *. lia. }
      exists t', (<[Z.of_nat sel := current m index]> m). split_and!; [done|done|unfold zlen in *; lia|]. intros p Hp. unfold current at 1.
      destruct (decide (p = sel)) as [->|Hps]; [by rewrite lookup_insert_eq|by rewrite lookup_insert_ne by lia]. }
  cbn [mbind io_result_bind]. exists rng', t', m', (current m sel). destruct Hdr as [Hr Hinj Hnd Hch Hlen]. split_and!; [by rewrite fmap_app|done| |done].
  destruct (Hr sel ltac:(lia)) as [Hsr Hsn]. destruct (Hr index ltac:(lia)) as [Hir Hin].
  split.
  - intros p Hp. rewrite Hcur by lia. case_decide as E.
    + subst p. split; [done|]. intros [?|Eq%list_elem_of_singleton]%elem_of_app; [done|]. apply Hinj in Eq; lia.
    + destruct (Hr p ltac:(lia)) as [Hpr Hpn]. split; [done|]. intros [?|Eq%list_elem_of_singleton]%elem_of_app; [done|]. apply Hinj in Eq; lia.
  - intros p q Hp Hq. rewrite !Hcur by lia. repeat case_decide; intros Eq; subst; [done| | |].
    + apply Hinj in Eq; lia.
    + apply Hinj in Eq; lia.
    + apply Hinj in Eq; lia.
  - apply NoDup_app. split_and!; [done| |apply NoDup_singleton]. intros v Hv ->%list_elem_of_singleton. done.
  - apply Forall_app. split; [done|]. by constructor; [|constructor].
  - rewrite length_app. cbn. lia.
Qed.

Lemma sample_ok rng t m len :
  table_ok t m → (len ≤ pop)%nat →
  ∃ rng' t' m' neighbors, sample_random_neighbors_into rng count node t len = Ok (rng', t', neighbors) ∧ table_ok t' m' ∧
    length neighbors = len ∧ valid_neighbors count node len neighbors.
Proof.
  intros Hok Hlen. unfold sample_random_neighbors_into. destruct (table_clear_spec t m Hok) as (t0 & -> & Hok0 & Et0). cbn [mbind io_result_bind].
  assert (∀ k, (k ≤ len)%nat → ∃ rng' t' m' chosen, try_fold (draw_neighbor count node) (rng, t0, []) (seq 0 k) = Ok (rng', t', skip_node node <$> chosen) ∧
    table_ok t' m' ∧ drawing k m' chosen ∧ zlen (touched_slots t') <= Z.of_nat k) as Hloop.
  { induction k as [|k IH]; intros Hk.
    - exists rng, t0, ∅, []. split_and!; [done|done| |rewrite Et0; done]. split; [|  |constructor|constructor|done].
      + intros p Hp. unfold current. rewrite lookup_empty. cbn. split; [lia|set_solver].
      + intros p q _ _. unfold current. rewrite !lookup_empty. cbn. lia.
    - destruct IH as (rng1 & t1 & m1 & ch1 & E & Hok1 & Hdr1 & Ht1); [lia|]. rewrite seq_S, try_fold_app, E. cbn [mbind io_result_bind try_fold Nat.add].
      destruct (draw_ok rng1 t1 m1 ch1 k Hok1 Hdr1 ltac:(lia) Ht1) as (rng2 & t2 & m2 & v & -> & Hok2 & Hdr2 & Ht2). cbn [mbind io_result_bind].
      by exists rng2, t2, m2, (ch1 ++ [v]). }
  destruct (Hloop len) as (rng' & t' & m' & ch & -> & Hok' & Hdr & _); [done|]. exists rng', t', m', (skip_node node <$> ch).
  destruct Hdr as [_ _ Hnd Hch Hl]. split_and!; [done|done|by rewrite length_fmap|]. split_and!; [by rewrite length_fmap, Hl| |].
  - apply NoDup_fmap_2; [|done]. intros a b. unfold skip_node. destruct (Z.leb_spec (Z.of_nat node) a), (Z.leb_spec (Z.of_nat node) b); lia.
  - apply Forall_fmap. eapply Forall_impl; [exact Hch|]. intros v Hv. cbn beta in Hv. unfold compose, skip_node. destruct (Z.leb_spec (Z.of_nat node) v); lia.
Qed.

End Sampling.

(** ** The initial graph *)

Section Initial.
Context `{RngLaws R} (count d : nat) (Hcount : Z.of_nat count < 2 ^ 30) (Hd : Z.of_nat d < 2 ^ 16) (Hdc : (d ≤ count - 1)%nat).

Definition sampled (i : nat) (x : list Z) : Prop := length x = d ∧ valid_neighbors count i d x.

Lemma random_shard_ok seed shard :
  (shard * PARALLEL_ADJACENCY_NODES_PER_SHARD < count)%nat →
  ∃ sh, random_shard (R := R) count d seed shard = Ok sh ∧ start_node sh = (shard * PARALLEL_ADJACENCY_NODES_PER_SHARD)%nat ∧
    ∀ j, (j < shard_size count (shard * PARALLEL_ADJACENCY_NODES_PER_SHARD))%nat → ∃ x, shard_node sh d j x ∧
      sampled (shard * PARALLEL_ADJACENCY_NODES_PER_SHARD + j) x.
Proof.
  intros Hs. unfold random_shard. set (start := (shard * PARALLEL_ADJACENCY_NODES_PER_SHARD)%nat) in *. set (n := shard_size count start).
  assert (start + n ≤ count)%nat as Hn by (unfold n, shard_size; lia).
  assert (wrap 16 (Z.of_nat d) = Z.of_nat d) as Ew by (apply wrap_small; unfold u_ok; lia). rewrite Ew.
  destruct (with_capacity_spec 0 (Z.of_nat d)) as (t0 & -> & Hok0 & _); [change (2 ^ 31) with 2147483648; change (2 ^ 16) with 65536 in Hd; lia|].
  cbn [mbind io_result_bind]. set (rng0 := seed_from_u64 _).
  assert (∀ k, (k ≤ n)%nat → ∃ rng t m slots, try_fold (random_node count d start) (rng0, t0, replicate (n * d) 0) (seq 0 k) = Ok (rng, t, slots) ∧
    table_ok t m ∧ length slots = (n * d)%nat ∧
    ∀ j, (j < k)%nat → ∃ x, shard_node (Shard start n slots (replicate n (Z.of_nat d))) d j x ∧ sampled (start + j) x) as Hloop.
  { induction k as [|k IH]; intros Hk.
    - exists rng0, t0, ∅, (replicate (n * d) 0). split_and!; [done|done|apply length_replicate|lia].
    - destruct IH as (rng & t & m & sl & E & Hok & Hsl & Hspec); [lia|]. rewrite seq_S, try_fold_app, E. cbn [mbind io_result_bind try_fold Nat.add].
      unfold random_node. destruct (sample_ok count (start + k) Hcount ltac:(lia) rng t m d Hok Hdc) as (rng' & t' & m' & x & -> & Hok' & Hlx & Hval).
      cbn [mbind io_result_bind]. rewrite copy_into_ok by nia. cbn [mbind io_result_bind].
      destruct (write_block d k (Shard start n sl (replicate n (Z.of_nat d))) x (replicate n (Z.of_nat d)) x) as [Ho Hnode];
        cbn [slots degrees start_node shard_node_count]; [lia|nia|done| |lia|intros; by rewrite decide_True|].
      { rewrite lookup_replicate_2 by lia. unfold zlen. by rewrite Hlx. }
      cbn [slots degrees start_node shard_node_count] in Ho, Hnode.
      exists rng', t', m', (splice (k * d) x sl). split_and!; [done|done|rewrite length_splice; [done|nia]|].
      intros j Hj. destruct (decide (j = k)) as [->|Hne]; [by exists x|]. destruct (Hspec j ltac:(lia)) as (y & Hy & Hvy). exists y. split; [|done].
      by eapply only_node_other. }
  destruct (Hloop n) as (rng & t & m & sl & -> & _ & _ & Hspec); [done|]. cbn [mbind io_result_bind]. eexists. split_and!; [done|done|done].
Qed.

Lemma new_random_ok seed :
  (0 < count)%nat →
  ∃ adj l, new_random (R := R) count d seed = Ok adj ∧ rep adj l ∧ length l = count ∧ max_degree adj = d ∧
    ∀ i x, l !! i = Some x → sampled i x.
Proof.
  intros Hpos. unfold new_random. rewrite (proj2 (Nat.leb_le _ _) Hdc).
  set (shard_count := Z.to_nat (div_ceil _ _)).
  assert (∀ s, s ∈ seq 0 shard_count → (s * PARALLEL_ADJACENCY_NODES_PER_SHARD < count)%nat) as Hin.
  { intros s Hs%elem_of_seq. unfold shard_count in Hs.
    pose proof (div_ceil_spec (Z.of_nat count) (Z.of_nat PARALLEL_ADJACENCY_NODES_PER_SHARD) ltac:(done)). nia. }
  assert (∃ shs, try_map (random_shard (R := R) count d seed) (seq 0 shard_count) = Ok shs) as [shs Hshs].
  { clear -Hin Hcount Hd Hdc H0. induction (seq 0 shard_count) as [|s k IH]; [by eexists|]. cbn [try_map].
    destruct (random_shard_ok seed s) as (sh & -> & _); [apply Hin; set_solver|]. cbn [mbind io_result_bind].
    destruct IH as [shs ->]; [intros; apply Hin; set_solver|]. by eexists. }
  rewrite Hshs. cbn [mbind io_result_bind]. set (adj := Compact_ shs count d). apply try_map_Ok in Hshs.
  assert (∀ i, (i < count)%nat → ∃ x, node_at adj i x ∧ sampled i x) as Hnodes.
  { intros i Hi. pose proof (shard_index_bound i count Hi) as Hsb. fold shard_count in Hsb.
    assert (seq 0 shard_count !! shard_index i = Some (shard_index i)) as Hlk by (by rewrite lookup_seq_lt).
    destruct (Forall2_lookup_l _ _ _ _ _ Hshs Hlk) as (sh & Hsh & E). pose proof (shard_index_le i) as Hle.
    destruct (random_shard_ok seed (shard_index i)) as (sh' & E' & Est & Hspec); [apply Hin; apply elem_of_seq; lia|].
    rewrite E in E'. injection E' as <-. destruct (Hspec (i - shard_index i * PARALLEL_ADJACENCY_NODES_PER_SHARD)%nat) as (x & Hx & Hv); [by apply local_size|].
    exists x. split; [exists sh; by split_and!|]. by replace (shard_index i * PARALLEL_ADJACENCY_NODES_PER_SHARD + (i - shard_index i * PARALLEL_ADJACENCY_NODES_PER_SHARD))%nat with i in Hv by lia. }
  destruct (rep_of_nodes adj Hd) as (l & Hr & Hl & Hln).
  { intros i Hi. destruct (Hnodes i Hi) as (x & Hx & _). by exists x. }
  exists adj, l. split_and!; [done|done|done|done|]. intros i x Hx. pose proof (lookup_lt_Some _ _ _ Hx) as Hi. rewrite Hl in *.
  destruct (Hnodes i Hi) as (y & Hy & Hvy). pose proof (node_at_neighbors adj i x (Hln i x Hx)) as E1. pose proof (node_at_neighbors adj i y Hy) as E2.
  rewrite E1 in E2. injection E2 as <-. done.
Qed.

End Initial.

(** ** Passes keep a graph valid *)

Lemma valid_neighbors_len n i d x : (i < n)%nat → valid_neighbors n i d x → (length x ≤ n - 1)%nat.
Proof.
  intros Hi (_ & Hnd & Hr). rewrite Forall_forall in Hr.
  assert (Z.of_nat i :: x ⊆+ seqZ 0 (Z.of_nat n)) as Hsub.
  { apply NoDup_submseteq; [apply NoDup_cons; split; [|done]; intros Hin; by destruct (Hr _ Hin)|].
    intros v [->|Hv]%elem_of_cons; apply elem_of_seqZ; [lia|]. destruct (Hr v Hv). lia. }
  apply submseteq_length in Hsub. rewrite length_seqZ in Hsub. cbn in Hsub. lia.
Qed.

Section PassInvariant.
Context (K : BuildKernels) (dimension : Z) (metric : MetricType).
Context (n d : nat) (alpha : Z) (Hn : Z.of_nat n < 2 ^ 30) (Hd : (1 ≤ d)%nat).

(** What a pass keeps true of a neighbour list; it never empties one. *)
Definition list_ok (i : nat) (x : list Z) : Prop := valid_neighbors n i d x ∧ ((2 ≤ n)%nat → x ≠ []).

Record graph_ok (adj : CompactAdjacency) (l : list (list Z)) : Prop := {
  go_rep : rep adj l;
  go_len : length l = n;
  go_lists : ∀ i x, l !! i = Some x → list_ok i x;
  go_stride : (d ≤ max_degree adj ∨ n ≤ S (max_degree adj))%nat;
}.

Lemma go_valid adj l : graph_ok adj l → valid_graph l d.
Proof. intros [_ Hl Hv _] i x Hx. rewrite Hl. by apply Hv. Qed.

Lemma replace_ok adj l i y :
  graph_ok adj l → (i < n)%nat → list_ok i y →
  ∃ adj', adj_replace adj i y = Ok adj' ∧ graph_ok adj' (<[i := y]> l).
Proof.
  intros [Hr Hl Hv Hs] Hi Hy. destruct (lookup_lt_is_Some_2 l i) as [x Hx]; [lia|].
  pose proof Hy as [Hyv _]. pose proof (valid_neighbors_len n i d y Hi Hyv) as Hyl. pose proof Hyv as (Hyd & _).
  destruct (adj_replace_ok adj l i x y Hr Hx) as (adj' & -> & Hr' & Ed); [lia|]. exists adj'. split; [done|].
  split; [done|by rewrite length_insert| |by rewrite Ed]. intros j z Hz. destruct (decide (i = j)) as [<-|Hne].
  - rewrite list_lookup_insert_eq in Hz by lia. by injection Hz as <-.
  - rewrite list_lookup_insert_ne in Hz by done. by apply Hv.
Qed.

Lemma prune_valid node cands cur :
  (node < n)%nat → (∀ v, v ∈ cands → 0 <= v) → list_ok node cur →
  ∃ selected, prune K dimension metric d alpha node cands cur n = Ok selected ∧ list_ok node selected.
Proof.
  intros Hi Hnc [(_ & _ & Hcur) Hne0]. rewrite Forall_forall in Hcur.
  assert (∀ v, v ∈ cands ∨ v ∈ cur → 0 <= v) as Hnn by (intros v [?|Hv]; [auto|destruct (Hcur v Hv); lia]). unfold prune.
  destruct (robust_prune_valid (k_mul K) (k_between K) (k_between_four K) (k_exceeds K) dimension metric alpha node cands cur n d)
    as (sel & -> & Hnd & Hl & Hin & Hex). exists sel. split; [done|]. split; [split_and!; [done|done|]|].
  - apply Forall_forall. intros v Hv. destruct (Hin v Hv) as (Hc & Hne & Hlt). specialize (Hnn v Hc). lia.
  - intros H2. destruct cur as [|v cur]; [by destruct Hne0|]. destruct (Hcur v ltac:(set_solver)). apply (Hex v); [lia|set_solver|lia|lia].
Qed.

Section Searches.
Context (entry L : nat) (Hentry : (entry < n)%nat).

Lemma search_and_prune_ok adj l scratch f node :
  graph_ok adj l → vs_rep n (visit_states scratch) f → (node < n)%nat →
  ∃ selected scratch' f', search_and_prune K dimension metric (Z.of_nat entry) d L alpha adj scratch node = Ok (selected, scratch') ∧
    vs_rep n (visit_states scratch') f' ∧ list_ok node selected.
Proof.
  intros Hg Hvs Hi. pose proof (go_valid _ _ Hg) as Hv. pose proof Hg as [Hr Hl Hlo Hs]. unfold search_and_prune, greedy_search.
  destruct (begin_search_ok n Hn scratch f Hvs) as (vs & -> & Hvs'). cbn [mbind io_result_bind]. rewrite Nat2Z.id.
  change (Scored (Z.of_nat entry) (k_to_query K entry node)) with (scored (λ other, k_to_query K other node) entry).
  destruct (greedy_run_ok (λ other, k_to_query K other node) n L Hn adj l Hr Hl (valid_nonneg l d Hv) vs entry Hvs' Hentry)
    as (s' & f' & -> & Hvs2 & Hres). cbn [mbind io_result_bind].
  destruct (lookup_lt_is_Some_2 l node) as [x Hx]; [lia|]. rewrite (adj_neighbors_ok adj l node x Hr Hx). cbn [mbind io_result_bind].
  unfold adj_len. rewrite (rep_count adj l Hr), Hl.
  destruct (prune_valid node (id <$> results s') x Hi) as (sel & -> & Hsel).
  { intros v (c & -> & Hc)%list_elem_of_fmap. destruct (sr_nodes _ _ _ _ _ _ Hres c Hc) as (i & _ & ->). cbn. lia. }
  { by apply Hlo. }
  cbn [mbind io_result_bind]. by exists sel, s', f'.
Qed.

Lemma batch_searches adj l batch : ∀ acc scratch f,
  graph_ok adj l → vs_rep n (visit_states scratch) f → (∀ i, i ∈ batch → i < n)%nat →
  ∃ sels scratch' f',
    try_fold (λ '(acc, scratch) node,
      '(selected, scratch) ← search_and_prune K dimension metric (Z.of_nat entry) d L alpha adj scratch node; Ok (acc ++ [selected], scratch))
      (acc, scratch) batch = Ok (acc ++ sels, scratch') ∧
    vs_rep n (visit_states scratch') f' ∧ Forall2 list_ok batch sels.
Proof.
  induction batch as [|node batch IH]; intros acc scratch f Hg Hvs Hb; cbn [try_fold].
  { exists [], scratch, f. rewrite app_nil_r. split_and!; [done|done|constructor]. }
  destruct (search_and_prune_ok adj l scratch f node Hg Hvs) as (sel & s1 & f1 & -> & Hvs1 & Hsel); [apply Hb; set_solver|]. cbn [mbind io_result_bind].
  destruct (IH (acc ++ [sel]) s1 f1 Hg Hvs1) as (sels & s2 & f2 & -> & Hvs2 & Hsels); [set_solver|].
  exists (sel :: sels), s2, f2. rewrite <- app_assoc. split_and!; [done|done|by constructor].
Qed.

End Searches.

(** An edge back to a node that was selected. *)
Definition edge_ok (e : Z * Z) : Prop := 0 <= e.1 < Z.of_nat n ∧ 0 <= e.2 < Z.of_nat n ∧ e.2 ≠ e.1.

Lemma commits_ok batch sels : ∀ adj l edges,
  graph_ok adj l → Forall2 list_ok batch sels → (∀ i, i ∈ batch → i < n)%nat → Forall edge_ok edges →
  ∃ adj' l' edges', try_fold commit_node (adj, edges) (zip batch sels) = Ok (adj', edges') ∧ graph_ok adj' l' ∧ Forall edge_ok edges'.
Proof.
  intros adj l edges Hg Hf. revert adj l edges Hg. induction Hf as [|node sel batch sels Hsel _ IH]; intros adj l edges Hg Hb He; cbn [zip zip_with try_fold].
  { by exists adj, l, edges. }
  assert (node < n)%nat as Hi by (apply Hb; set_solver). unfold commit_node at 2.
  destruct (replace_ok adj l node sel Hg Hi Hsel) as (adj1 & -> & Hg1). cbn [mbind io_result_bind].
  apply (IH adj1 (<[node := sel]> l)); [done|set_solver|]. apply Forall_app. split; [done|]. apply Forall_fmap.
  destruct Hsel as [(_ & _ & Hr) _]. eapply Forall_impl; [exact Hr|]. intros v [Hv Hne]. unfold compose, edge_ok. cbn [fst snd]. lia.
Qed.

(** ** Reverse edges *)

(** A group of distinct edges to one target. *)
Definition group_ok (g : list (Z * Z)) : Prop :=
  ∃ t, (t < n)%nat ∧ g ≠ [] ∧ Forall (λ e, e.1 = Z.of_nat t ∧ edge_ok e) g ∧ NoDup g.
Definition target_of (g : list (Z * Z)) : nat := Z.to_nat (default 0 (fst <$> head g)).

Lemma group_target g t : g ≠ [] → Forall (λ e : Z * Z, e.1 = Z.of_nat t ∧ edge_ok e) g → target_of g = t ∧ head g ≠ None.
Proof.
  intros Hne Hg. destruct g as [|e g]; [done|]. apply Forall_cons in Hg as [[E _] _]. unfold target_of. cbn. rewrite E. split; [lia|done].
Qed.

Lemma reverse_selection_ok t incoming x :
  (t < n)%nat → NoDup incoming → (∀ v, v ∈ incoming → 0 <= v < Z.of_nat n ∧ v ≠ Z.of_nat t) → list_ok t x →
  ∃ y, reverse_selection K dimension metric d alpha n t incoming x = Ok y ∧ list_ok t y.
Proof.
  intros Ht Hnd Hin Hxo. pose proof Hxo as [Hx Hxne]. unfold reverse_selection. set (fresh := filter _ incoming).
  destruct (length fresh =? 0)%nat eqn:E; [by exists x|]. pose proof Hx as (Hxd & Hxn & Hxr).
  destruct (saturating_add 64 (zlen x) (zlen fresh) <=? Z.of_nat d) eqn:Es.
  - apply Z.leb_le in Es. exists (x ++ fresh). split; [done|]. split; [split_and!|intros H2 [? _]%app_nil; by apply Hxne].
    + rewrite length_app. pose proof (valid_neighbors_len n t d x Ht Hx) as Hxl.
      assert (fresh `sublist_of` incoming) as Hsub by apply sublist_filter.
      assert (length incoming ≤ n)%nat as Hil.
      { assert (incoming ⊆+ seqZ 0 (Z.of_nat n)) as Hs; [|apply submseteq_length in Hs; rewrite length_seqZ in Hs; lia].
        apply NoDup_submseteq; [done|]. intros v Hv. apply elem_of_seqZ. destruct (Hin v Hv). lia. }
      pose proof (sublist_length _ _ Hsub). unfold saturating_add, zlen in Es. change (2 ^ 64 - 1) with 18446744073709551615 in Es.
      change (2 ^ 30) with 1073741824 in Hn. lia.
    + apply NoDup_app. split_and!; [done| |by apply NoDup_filter]. intros v Hv [Hnv _]%list_elem_of_filter. done.
    + apply Forall_app. split; [done|]. apply Forall_forall. intros v [_ Hv]%list_elem_of_filter. auto.
  - apply prune_valid; [done| |done]. intros v Hv. destruct (Hin v Hv). lia.
Qed.

(** The list a group leaves at its target. *)
Definition after_group (l : list (list Z)) (g : list (Z * Z)) (y : list Z) : Prop :=
  ∃ x, l !! target_of g = Some x ∧ reverse_selection K dimension metric d alpha n (target_of g) (snd <$> g) x = Ok y.

Lemma insert_reverse_ok adj l g :
  graph_ok adj l → group_ok g →
  ∃ adj' y, insert_reverse_edges K dimension metric d alpha adj g = Ok adj' ∧ after_group l g y ∧ graph_ok adj' (<[target_of g := y]> l).
Proof.
  intros Hg (t & Ht & Hne & Hall & Hnd). destruct (group_target g t Hne Hall) as [Et _]. pose proof Hg as [Hr Hl Hv Hs].
  destruct (lookup_lt_is_Some_2 l t) as [x Hx]; [lia|]. rewrite Forall_forall in Hall.
  destruct (reverse_selection_ok t (snd <$> g) x Ht) as (y & Ey & Hy).
  { apply NoDup_fmap_2_strong; [|done]. intros [a1 a2] [b1 b2] Ha Hb. cbn. intros ->. destruct (Hall _ Ha) as [E1 _], (Hall _ Hb) as [E2 _]. cbn in *. congruence. }
  { intros v (e & -> & He)%list_elem_of_fmap. destruct (Hall e He) as [E1 (Hr1 & Hr2 & Hne')]. rewrite E1 in Hne'. done. }
  { by apply Hv. }
  unfold insert_reverse_edges. destruct (head g) as [e|] eqn:Eh; [|by destruct g].
  assert (Z.to_nat e.1 = t) as Ee by (unfold target_of in Et; rewrite Eh in Et; done).
  cbn [expect fmap io_result_fmap mbind io_result_bind]. unfold compose. rewrite Ee, (adj_neighbors_ok adj l t x Hr Hx). cbn [mbind io_result_bind].
  unfold adj_len. rewrite (rep_count adj l Hr), Hl, Ey. cbn [mbind io_result_bind].
  destruct (replace_ok adj l t y Hg Ht Hy) as (adj' & -> & Hg'). exists adj', y. rewrite Et. split_and!; [done| |done]. exists x. by rewrite Et.
Qed.

(** What a sequence of groups does, stated without their order. *)
Definition after_groups (l l' : list (list Z)) (gs : list (list (Z * Z))) : Prop :=
  length l' = length l ∧
  (∀ g, g ∈ gs → ∃ y, after_group l g y ∧ l' !! target_of g = Some y) ∧
  ∀ i, (∀ g, g ∈ gs → target_of g ≠ i) → l' !! i = l !! i.

Lemma reverse_groups_ok gs : ∀ adj l,
  graph_ok adj l → Forall group_ok gs → NoDup (target_of <$> gs) →
  ∃ adj' l', try_fold (insert_reverse_edges K dimension metric d alpha) adj gs = Ok adj' ∧ graph_ok adj' l' ∧ after_groups l l' gs.
Proof.
  induction gs as [|g gs IH]; intros adj l Hg Hgs Hnd; cbn [try_fold].
  { exists adj, l. split_and!; [done|done|]. split_and!; [done|set_solver|done]. }
  apply Forall_cons in Hgs as [Hgo Hgs]. cbn in Hnd. apply NoDup_cons in Hnd as [Hnt Hnd].
  destruct (insert_reverse_ok adj l g Hg Hgo) as (adj1 & y & -> & Hy & Hg1). cbn [mbind io_result_bind].
  destruct (IH adj1 (<[target_of g := y]> l) Hg1 Hgs Hnd) as (adj2 & l2 & -> & Hg2 & Hl2 & Hin2 & Hout2).
  exists adj2, l2. split_and!; [done|done|]. rewrite length_insert in Hl2. split_and!; [done| |].
  - intros h [->|Hh]%elem_of_cons.
    + exists y. split; [done|]. rewrite Hout2; [apply list_lookup_insert_eq; destruct Hy as (x & Hx & _); by eapply lookup_lt_Some|].
      intros h Hh E. apply Hnt. rewrite <- E. apply list_elem_of_fmap. eauto.
    + destruct (Hin2 h Hh) as (z & (x & Hx & Hz) & Hlz). exists z. split; [|done]. exists x. split; [|done].
      rewrite list_lookup_insert_ne in Hx; [done|]. intros E. apply Hnt. rewrite E. apply list_elem_of_fmap. eauto.
  - intros i Hi. rewrite Hout2 by (intros; apply Hi; set_solver). rewrite list_lookup_insert_ne; [done|]. apply Hi. set_solver.
Qed.

Lemma after_groups_unique l l1 l2 gs gs' : gs ≡ₚ gs' → after_groups l l1 gs → after_groups l l2 gs' → l1 = l2.
Proof.
  intros Hp (E1 & Hin1 & Hout1) (E2 & Hin2 & Hout2). apply list_eq. intros i.
  destruct (decide (Exists (λ g, target_of g = i) gs)) as [Hx|Hx].
  - apply Exists_exists in Hx as (g & Hg & <-). destruct (Hin1 g Hg) as (y1 & (x1 & Hx1 & Ey1) & ->).
    destruct (Hin2 g ltac:(by rewrite <- Hp)) as (y2 & (x2 & Hx2 & Ey2) & ->). rewrite Hx1 in Hx2. injection Hx2 as <-. congruence.
  - rewrite <- Forall_Exists_neg, Forall_forall in Hx. rewrite Hout1, Hout2; [done| |]; intros g Hg; apply Hx; [by rewrite Hp|done].
Qed.

Lemma grouped_ok edges : Forall edge_ok edges → Forall group_ok (group_reverse_edges edges) ∧ NoDup (target_of <$> group_reverse_edges edges).
Proof.
  intros He. destruct (group_reverse_edges_ok edges) as (Hin & Hnd & Hf & Hs). rewrite Forall_forall in He.
  assert (∀ g, g ∈ group_reverse_edges edges → group_ok g) as Hgs.
  { intros g Hg. rewrite Forall_forall in Hf. destruct (Hf g Hg) as (e & rest & -> & Hsame).
    assert (∀ x, x ∈ e :: rest → edge_ok x) as Hok by (intros x Hx; apply He, Hin, list_elem_of_In, in_concat; exists (e :: rest); split; by apply list_elem_of_In).
    destruct (Hok e ltac:(set_solver)) as (Hr & _). exists (Z.to_nat e.1). split_and!; [lia|done| |].
    - rewrite Forall_forall in *. intros x Hx. split; [|auto]. rewrite (Hsame x Hx). lia.
    - clear -Hnd Hg. induction (group_reverse_edges edges) as [|h gs IH]; [set_solver|]. cbn in Hnd. apply NoDup_app in Hnd as (Hh & _ & Hr).
      apply elem_of_cons in Hg as [<-|Hg]; auto. }
  split; [by apply Forall_forall|]. clear He Hin Hnd Hf. induction Hs as [|g gs _ IH Hg]; [constructor|]. cbn. constructor; [|apply IH; set_solver].
  intros (h & E & Hh)%list_elem_of_fmap. rewrite Forall_forall in Hg. destruct (Hgs g ltac:(set_solver)) as (t & Ht & Hne & Hall & _).
  destruct (Hgs h ltac:(set_solver)) as (t' & Ht' & Hne' & Hall' & _). destruct (group_target g t Hne Hall) as [Et _], (group_target h t' Hne' Hall') as [Et' _].
  destruct g as [|e g]; [done|]. destruct h as [|e' h]; [done|]. specialize (Hg (e' :: h) Hh e e' ltac:(set_solver) ltac:(set_solver)).
  apply Forall_cons in Hall as [[E1 _] _], Hall' as [[E2 _] _]. rewrite Et, Et' in E. lia.
Qed.

(** ** A batch, a pass *)

Section Batches.
Context (entry L : nat) (Hentry : (entry < n)%nat).

Lemma run_batch_ok adj l scratch f batch :
  graph_ok adj l → vs_rep n (visit_states scratch) f → (∀ i, i ∈ batch → i < n)%nat →
  ∃ adj' l' scratch' f', run_batch K dimension metric (Z.of_nat entry) d L alpha (adj, scratch) batch = Ok (adj', scratch') ∧
    graph_ok adj' l' ∧ vs_rep n (visit_states scratch') f'.
Proof.
  intros Hg Hvs Hb. unfold run_batch. destruct (batch_searches entry L Hentry adj l batch [] scratch f Hg Hvs Hb) as (sels & s1 & f1 & E & Hvs1 & Hsels).
  rewrite E. cbn [mbind io_result_bind app]. destruct (commits_ok batch sels adj l [] Hg Hsels Hb) as (adj1 & l1 & edges & -> & Hg1 & He); [constructor|].
  cbn [mbind io_result_bind]. destruct (grouped_ok edges He) as [Hgo Hnd].
  destruct (reverse_groups_ok (group_reverse_edges edges) adj1 l1 Hg1 Hgo Hnd) as (adj2 & l2 & -> & Hg2 & _). cbn [mbind io_result_bind].
  by exists adj2, l2, s1, f1.
Qed.

Lemma chunks_elem {A} fuel k (l : list A) c a : c ∈ chunks_fuel fuel k l → a ∈ c → a ∈ l.
Proof.
  revert l. induction fuel as [|fuel IH]; intros [|x l]; cbn [chunks_fuel]; [set_solver..|]. intros [->|Hc]%elem_of_cons Ha.
  - rewrite <- (take_drop k (x :: l)). set_solver.
  - rewrite <- (take_drop k (x :: l)). apply elem_of_app. right. by apply (IH (drop k (x :: l))).
Qed.

Lemma run_batches_ok batches : ∀ adj l scratch f,
  graph_ok adj l → vs_rep n (visit_states scratch) f → (∀ b i, b ∈ batches → i ∈ b → i < n)%nat →
  ∃ adj' l' scratch', try_fold (run_batch K dimension metric (Z.of_nat entry) d L alpha) (adj, scratch) batches = Ok (adj', scratch') ∧ graph_ok adj' l'.
Proof.
  induction batches as [|b batches IH]; intros adj l scratch f Hg Hvs Hb; cbn [try_fold]; [by exists adj, l, scratch|].
  destruct (run_batch_ok adj l scratch f b Hg Hvs) as (adj1 & l1 & s1 & f1 & -> & Hg1 & Hvs1); [intros; by apply (Hb b); [set_solver|]|].
  cbn [mbind io_result_bind]. apply (IH adj1 l1 s1 f1 Hg1 Hvs1). intros b' i Hb' Hi. apply (Hb b'); [set_solver|done].
Qed.

Lemma run_pass_ok `{RngLaws R} (rng : R) adj l :
  graph_ok adj l →
  ∃ adj' l' rng', run_pass K dimension metric (Z.of_nat entry) d L alpha rng adj = Ok (adj', rng') ∧ graph_ok adj' l'.
Proof.
  intros Hg. unfold run_pass, adj_len. rewrite (rep_count adj l (go_rep _ _ Hg)), (go_len _ _ Hg).
  pose proof (shuffle_permutes (seq 0 n) rng) as Hp. destruct (shuffle (seq 0 n) rng) as [order rng'].  cbn [fst] in Hp.
  destruct (scratch_new_ok (Z.of_nat n) (Z.of_nat d) (Z.of_nat L)) as (s & -> & Hvs); [lia|lia|lia|]. rewrite Nat2Z.id in Hvs. cbn [mbind io_result_bind].
  destruct (run_batches_ok (chunks PARALLEL_BUILD_BATCH_NODES order) adj l s (λ _, 0) Hg Hvs) as (adj1 & l1 & s1 & -> & Hg1).
  { intros b i Hb Hi. pose proof (chunks_elem _ _ _ _ _ Hb Hi) as Hin. rewrite Hp in Hin. apply elem_of_seq in Hin. lia. }
  cbn [mbind io_result_bind]. by exists adj1, l1, rng'.
Qed.

End Batches.
End PassInvariant.

(** ** The whole build *)

Lemma centroid_entry_ok distance count : (0 < count)%nat → ∃ e, centroid_entry distance count = Ok e ∧ (e < count)%nat.
Proof.
  intros Hc. unfold centroid_entry.
  assert (∀ l best, (∀ i, i ∈ l → i < count)%nat → (∀ b, best = Some b → b < count)%nat → (l ≠ [] ∨ best ≠ None) →
    ∃ e, foldl (nearer_to_centroid distance) best l = Some e ∧ (e < count)%nat) as Hf.
  { induction l as [|i l IH]; intros best Hl Hb Hne; cbn [foldl].
    - destruct best as [b|]; [|naive_solver]. exists b. auto.
    - apply IH; [set_solver| |].
      + intros b Hb'. unfold nearer_to_centroid in Hb'. destruct best as [b0|]; [destruct (_ <? _)|]; injection Hb' as <-; auto; apply Hl; set_solver.
      + right. unfold nearer_to_centroid. destruct best; [destruct (_ <? _)|]; done. }
  destruct (Hf (seq 0 count) None) as (e & -> & He); [intros i Hi%elem_of_seq; lia|done|left; destruct count; [lia|done]|]. by exists e.
Qed.

(** The inputs a build accepts. *)
Definition build_accepts (sz : ShardSizes) (vectors_len dimension : Z) (count : nat) (params : VamanaParams) : Prop :=
  validate_build_inputs vectors_len (Z.of_nat count) dimension (Z.of_nat (vp_max_degree params)) = Ok () ∧
  validate_build_memory_budget
    ((λ e, Z.max (build_peak_bytes e) (remap_peak_bytes e)) <$>
       estimate_vamana_memory_bytes sz (Z.of_nat count) (Z.of_nat (vp_max_degree params))
         (Z.of_nat (vp_build_search_list_size params)) (vp_workers params))
    (vp_memory_budget_bytes params) = Ok ().

Lemma validate_build_inputs_ok vectors_len count dimension d :
  validate_build_inputs vectors_len count dimension d = Ok () → count ≠ 0 ∧ d ≠ 0 ∧ d < 2 ^ 16.
Proof.
  unfold validate_build_inputs. intros Hv. guard_ok Hv as H1. guard_ok Hv as H2. guard_ok Hv as H3.
  apply negb_true_iff, orb_false_iff in H1 as [[H1 _]%orb_false_iff H1']. apply Z.eqb_neq in H1, H1'.
  apply negb_true_iff, Z.ltb_ge in H3. change (2 ^ 16) with 65536. lia.
Qed.

(** What a build promises of its result. *)
Record built (n d : nat) (g : VamanaGraph) (l : list (list Z)) : Prop := {
  bt_rep : rep (adjacency g) l;
  bt_len : length l = n;
  bt_entry : 0 <= entry_node g < Z.of_nat n;
  bt_valid : valid_graph l d;
  bt_reachable : all_reachable l (Z.to_nat (entry_node g));
}.

Lemma repair_and_check_ok K adj l n d entry message :
  rep adj l → valid_graph l d → length l = n → (d ≤ max_degree adj ∨ n ≤ S (max_degree adj))%nat → (1 ≤ d)%nat → (entry < n)%nat →
  ∃ g l', repair_and_check K (Graph (Z.of_nat entry) adj) d message = Ok g ∧ built n d g l' ∧ keeps_neighbors l l'.
Proof.
  intros Hr0 Hv0 Hl0 Hst Hd He. unfold repair_and_check.
  destruct (repair_ok (k_node_distance K) (Graph (Z.of_nat entry) adj) l d) as (g & stats & l' & -> & Hr & Een & Hv & Hl & Ha & Hk & _);
    cbn [entry_node adjacency]; [done|done|done|rewrite Nat2Z.id; lia|by rewrite Hl0|].
  cbn [mbind io_result_bind]. cbn [entry_node] in Een, Ha.
  rewrite (proj2 (validate_ok g l' d Hr (valid_nonneg l' d Hv)) Hv). cbn [mbind io_result_bind].
  destruct (is_fully_reachable_ok g l' Hr (valid_nonneg l' d Hv)) as (b & -> & Hb). cbn [mbind io_result_bind].
  assert (b = true) as -> by (apply Hb; rewrite Een, Nat2Z.id, Hl, Hl0 in *; done).
  change (ensure_data true ?m) with (Ok ()). cbn [mbind io_result_bind]. exists g, l'. split_and!; [done| |done].
  split; [done|lia|rewrite Een; lia|done|by rewrite Een].
Qed.

Lemma go_linked n d adj l l' : graph_ok n d adj l → keeps_neighbors l l' → length l' = n → (2 ≤ n)%nat → Forall (λ x, x ≠ []) l'.
Proof.
  intros Hg Hk Hl Htwo. apply Forall_lookup. intros i x Hx. destruct (lookup_lt_is_Some_2 l i) as [y Hy].
  { rewrite (go_len _ _ _ _ Hg), <- Hl. by eapply lookup_lt_Some. }
  destruct (Hk i y Hy) as (x' & Hx' & Hne); [by apply (go_lists _ _ _ _ Hg i)|]. rewrite Hx in Hx'. by injection Hx' as <-.
Qed.

Section Build.
Context `{RngLaws R} (K : BuildKernels) (sz : ShardSizes) (vectors_len dimension : Z) (count : nat) (metric : MetricType) (params : VamanaParams).

Lemma build_ok :
  build_accepts sz vectors_len dimension count params → Z.of_nat count < 2 ^ 30 →
  ∃ g l, build_with_search_distance (R := R) K sz vectors_len dimension count metric params = Ok g ∧
    built count (vp_max_degree params) g l ∧ ((2 ≤ count)%nat → Forall (λ x, x ≠ []) l).
Proof.
  intros [Hin Hmem] Hc. destruct (validate_build_inputs_ok _ _ _ _ Hin) as (Hc0 & Hd0 & Hd). set (d := vp_max_degree params) in *.
  assert (1 ≤ d)%nat as Hd1 by lia.
  unfold build_with_search_distance. fold d. rewrite Hin. cbn [mbind io_result_bind]. rewrite Hmem. cbn [mbind io_result_bind].
  destruct (centroid_entry_ok (k_centroid_distance K) count ltac:(lia)) as (entry & -> & He). cbn [mbind io_result_bind].
  destruct (new_random_ok (R := R) count (d `min` (count - 1)) Hc ltac:(lia) ltac:(lia) (vp_seed params) ltac:(lia)) as (adj0 & l0 & -> & Hr0 & Hl0 & Ed0 & Hv0).
  cbn [mbind io_result_bind].
  assert (graph_ok count d adj0 l0) as Hg0.
  { split; [done|done| |lia]. intros i x Hx. destruct (Hv0 i x Hx) as (Hfull & _ & ? & ?).
    split; [split_and!; [lia|done|done]|]. intros Htwo ->. cbn in Hfull. lia. }
  destruct (run_pass_ok K dimension metric count d F32_ONE Hc Hd1 entry (vp_build_search_list_size params) He
    (seed_from_u64 (derived_seed (vp_seed params) (2 ^ 64 - 1)) : R) adj0 l0 Hg0) as (adj1 & l1 & rng1 & -> & Hg1). cbn [mbind io_result_bind].
  destruct (run_pass_ok K dimension metric count d (vp_alpha params) Hc Hd1 entry (vp_build_search_list_size params) He rng1 adj1 l1 Hg1)
    as (adj2 & l2 & rng2 & -> & Hg2). cbn [mbind io_result_bind].
  destruct (repair_and_check_ok K adj2 l2 count d entry "parallel Vamana graph is not fully reachable from its entry node") as (g & l & -> & Hb & Hk);
    [apply Hg2|by eapply go_valid|apply Hg2|apply Hg2|done|done|].
  exists g, l. split_and!; [done|done|]. apply (go_linked _ _ _ _ _ Hg2 Hk), Hb.
Qed.

(** C19: building a Vamana graph of fewer than 2^30 vectors succeeds whenever its
    inputs and memory budget are accepted: for every distance, metric and
    random source no step panics and neither final check can fail.  The graph
    has one list per vector, valid for the requested degree, and every node is
    reachable from the entry.  With two vectors or more every node has a
    neighbour. *)
Theorem vamana_build_succeeds :
  build_accepts sz vectors_len dimension count params → Z.of_nat count < 2 ^ 30 →
  ∃ g l, build_with_search_distance (R := R) K sz vectors_len dimension count metric params = Ok g ∧
    built count (vp_max_degree params) g l ∧ ((2 ≤ count)%nat → Forall (λ x, x ≠ []) l).
Proof. exact build_ok. Qed.

End Build.

(** The reverse-edge groups of a batch can be applied in any order: they
    have distinct targets, so whatever order the parallel loop takes, every
    update returns and the resulting neighbour lists are the same. *)
Theorem reverse_groups_any_order K dimension metric n d alpha adj l edges groups :
  Z.of_nat n < 2 ^ 30 → (1 ≤ d)%nat → graph_ok n d adj l → Forall (edge_ok n) edges → groups ≡ₚ group_reverse_edges edges →
  ∃ adj1 adj2 l', try_fold (insert_reverse_edges K dimension metric d alpha) adj (group_reverse_edges edges) = Ok adj1 ∧
    try_fold (insert_reverse_edges K dimension metric d alpha) adj groups = Ok adj2 ∧
    adj_iter adj1 = Ok l' ∧ adj_iter adj2 = Ok l' ∧ valid_graph l' d.
Proof.
  intros Hn Hd Hg Hed Hp. destruct (grouped_ok n d Hn Hd edges Hed) as [Hgo Hnd].
  destruct (reverse_groups_ok K dimension metric n d alpha Hn Hd (group_reverse_edges edges) adj l Hg Hgo Hnd) as (adj1 & l1 & E1 & Hg1 & Ha1).
  destruct (reverse_groups_ok K dimension metric n d alpha Hn Hd groups adj l Hg) as (adj2 & l2 & E2 & Hg2 & Ha2); [by rewrite Hp..|].
  rewrite (after_groups_unique K dimension metric n d alpha l l2 l1 groups (group_reverse_edges edges) Hp Ha2 Ha1) in Hg2.
  exists adj1, adj2, l1. split_and!; [done|done|apply adj_iter_ok, Hg1|apply adj_iter_ok, Hg2|by eapply go_valid].
Qed.

(** ** A concrete random source *)

#[export] Instance mixing_rng : Rng Z := {
  seed_from_u64 seed := seed;
  gen_range lo hi r := ((lo + Z.to_nat (r mod Z.of_nat (hi - lo)))%nat, derived_seed r 1);
  shuffle l r := (rev l, derived_seed r 2);
}.
#[export] Instance mixing_rng_laws : RngLaws Z.
Proof.
  split.
  - intros lo hi r Hlt. cbn [gen_range mixing_rng fst]. pose proof (Z.mod_pos_bound r (Z.of_nat (hi - lo)) ltac:(lia)). lia.
  - intros l r. cbn [shuffle mixing_rng fst]. symmetry. apply Permutation_rev.
Qed.

Definition demo_kernels : BuildKernels :=
  let dist := λ a b : nat, Z.abs (Z.of_nat a - Z.of_nat b) * 0x100000 in
  Kernels dist dist dist (λ a q, quad_map (dist a) q) (λ _ _ _ _, true) (λ _ x, x) (λ a, Z.of_nat a).
Definition demo_params : VamanaParams := Params 2 3 0x3f99999a 7 1000000 1.
Definition demo_sizes : ShardSizes := Sizes 80 64.

Lemma demo_build_accepts : build_accepts demo_sizes 5 1 5 demo_params.
Proof. split; vm_compute; reflexivity. Qed.

Lemma vamana_build_succeeds_witness :
  ∃ g l, build_with_search_distance (R := Z) demo_kernels demo_sizes 5 1 5 L2 demo_params = Ok g ∧ built 5 2 g l ∧ Forall (λ x, x ≠ []) l.
Proof.
  destruct (vamana_build_succeeds (R := Z) demo_kernels demo_sizes 5 1 5 L2 demo_params demo_build_accepts ltac:(vm_compute; reflexivity))
    as (g & l & E & Hb & Hne).
  exists g, l. split_and!; [exact E|exact Hb|apply Hne; lia].
Defined.

Lemma reverse_groups_any_order_witness :
  ∃ adj1 adj2 l',
    try_fold (insert_reverse_edges demo_kernels 1 L2 2 F32_ONE) demo_adjacency (group_reverse_edges [(1, 2); (4, 3); (1, 4)]) = Ok adj1 ∧
    try_fold (insert_reverse_edges demo_kernels 1 L2 2 F32_ONE) demo_adjacency [[(4, 3)]; [(1, 2); (1, 4)]] = Ok adj2 ∧
    adj_iter adj1 = Ok l' ∧ adj_iter adj2 = Ok l' ∧ valid_graph l' 2.
Proof.
  apply (reverse_groups_any_order demo_kernels 1 L2 5 2 F32_ONE demo_adjacency demo_lists [(1, 2); (4, 3); (1, 4)]).
  - vm_compute. reflexivity.
  - lia.
  - split; [apply demo_adjacency_rep|reflexivity| |left; vm_compute; lia]. intros i x Hx. split; [by apply (demo_valid i x)|]. intros _ ->.
    by do 5 (destruct i as [|i]; [done|]).
  - repeat (apply Forall_cons_2; [unfold edge_ok; cbn [fst snd]; lia|]). constructor.
  - replace (group_reverse_edges [(1, 2); (4, 3); (1, 4)]) with [[(1, 2); (1, 4)]; [(4, 3)]] by (vm_compute; reflexivity). apply perm_swap.
Defined.
