(* ===== verification/KmeansTrain.v ===== *)
(** Training centroids: the clustering half of [core/src/kmeans.rs].

    The sub-sample, the k-means++ seeding, the assignment of the points in row
    blocks, the balanced assignment, the update with the splitting of donors for
    empty clusters, the training loop and the hierarchical training above 256
    centroids.  The random generator is the class [Rng] with [gen_f32] for
    [gen::<f32>()], the matrix product is the argument [sgemm], the natural
    logarithm of the platform the argument [ln], and [threads] the size of the
    thread pool.  An index out of range, a failed assertion and an arithmetic
    overflow of [usize] are [Panic]. *)

From stdpp Require Import sorting.
From S2P Require Import Prelude F32 F64 F32Arith DiskannHeader Distance KmeansSearch Range CompactAdjacency VamanaBuild.

Definition MIN_BLOCK_ROWS : Z := 32.
Definition MIN_BLOCK_FLOPS : Z := 4000000.
Definition TARGET_BLOCKS : Z := 64.
Definition EPS : Z := 0x3a800000.
Definition HIERARCHICAL_THRESHOLD : nat := 256.
(** [1e-10] and [1e-6] *)
Definition TINY : Z := 0x2edbe6ff.
Definition REL_TOLERANCE : Z := 0x358637bd.
(** The identity of [Iterator::sum] over [f32]. *)
Definition SUM_ZERO : Z := 0x80000000.
Definition f32_sum (l : list Z) : Z := foldl f32_add SUM_ZERO l.
Definition f32_abs (x : Z) : Z := f32_mag x.

Definition checked_matrix_len (rows cols : nat) : io_result Z := expect (checked_mul 64 (Z.of_nat rows) (Z.of_nat cols)).
Definition assert_data_shape (data : list Z) (n d : nat) : io_result unit :=
  expected ← checked_matrix_len n d;
  if zlen data =? expected then Ok () else Panic.

(** Rows of a block, and whether the blocks may run in parallel. *)
Definition max_block_rows (k : Z) : Z := Z.max (MAX_MATRIX_ELEMS / Z.max k 1) 1.
Definition assignment_block_plan (n d k threads : Z) : Z * bool :=
  let max_rows := max_block_rows k in
  if threads <=? 1 then (max_rows, false)
  else
    let row_flops := Z.max (saturating_mul 64 (saturating_mul 64 k d) 2) 1 in
    let min_rows := Z.min (Z.max MIN_BLOCK_ROWS (div_ceil MIN_BLOCK_FLOPS row_flops)) max_rows in
    let budget_rows := Z.min (Z.max (MAX_MATRIX_ELEMS / threads / Z.max k 1) 1) max_rows in
    if budget_rows <? min_rows then (budget_rows, false)
    else (Z.min (Z.min (Z.max (div_ceil n TARGET_BLOCKS) min_rows) max_rows) budget_rows, true).

Record KMeansConfig := KMeans {
  niter : nat; nredo : nat; max_points_per_centroid : Z; km_seed : Z; balance_factor : Z }.
Definition kmeans_default : KMeansConfig := KMeans 25 1 256 1234 0.

(** The largest count, the last of equals, by [max_by_key]. *)
Definition later_max (best x : nat * nat) : nat * nat := if (best.2 <=? x.2)%nat then x else best.
Definition max_by_count (counts : list nat) : nat :=
  match imap pair counts with [] => 0%nat | x :: l => (foldl later_max x l).1 end.

(** [v.swap(i, j)] *)
Definition vec_swap (i j : nat) (l : list nat) : io_result (list nat) :=
  a ← expect (l !! i); b ← expect (l !! j); Ok (<[j := a]> (<[i := b]> l)).
Definition store_count (i x : nat) (l : list nat) : io_result (list nat) :=
  if (i <? length l)%nat then Ok (<[i := x]> l) else Panic.

Record Cluster := MkCluster { c_centroid : list Z; c_indices : list nat }.

Section Train.
Context `{Rng R} (gen_f32 : R → Z * R).
Context (arch : Arch) (sgemm : nat → nat → nat → Z → list Z → list Z → Z → list Z → list Z) (ln : Z → Z) (threads : Z).

(** ** The sample and the seeds *)

Definition subsample_step (n : nat) (st : list nat * R) (i : nat) : io_result (list nat * R) :=
  let '(indices, rng) := st in
  if (i <? n)%nat then
    let '(j, rng) := gen_range i n rng in
    indices ← vec_swap i j indices; Ok (indices, rng)
  else Panic.
Definition subsample (data : list Z) (n d target_n : nat) (rng : R) : io_result (list Z * R) :=
  '(indices, rng) ← try_fold (subsample_step n) (seq 0 n, rng) (seq 0 target_n);
  rows ← try_map (λ src_i, expect (get_slice (src_i * d) d data)) (take target_n indices);
  Ok (concat rows, rng).

(** The point where the running sum of the distances reaches [target]. *)
Fixpoint reach (cumulative target : Z) (i : nat) (min_dists : list Z) : option nat :=
  match min_dists with
  | [] => None
  | m :: rest =>
      let cumulative := f32_add cumulative m in
      if f32_ge cumulative target then Some i else reach cumulative target (S i) rest
  end.
Definition plusplus_step (data : list Z) (n d : nat) (st : list Z * list Z * R) (c : nat) : io_result (list Z * list Z * R) :=
  let '(centroids, min_dists, rng) := st in
  prev ← expect (get_slice ((c - 1) * d) d centroids);
  min_dists ← try_map (λ '(i, m), row ← expect (get_slice (i * d) d data); dist ← fvec_l2sqr arch row prev;
                                  Ok (if f32_lt dist m then dist else m)) (imap pair min_dists);
  let total := foldl f32_add 0 min_dists in
  let '(u, rng) := gen_f32 rng in
  let target := f32_mul u total in
  let selected := default (n - 1)%nat (reach 0 target 0 min_dists) in
  row ← expect (get_slice (selected * d) d data);
  centroids ← copy_into (c * d) row centroids;
  Ok (centroids, min_dists, rng).
Definition kmeans_plusplus_init (data : list Z) (n d k : nat) (rng : R) : io_result (list Z * R) :=
  if (0 <? n)%nat then
    let '(first, rng) := gen_range 0 n rng in
    row ← expect (get_slice (first * d) d data);
    centroids ← copy_into 0 row (replicate (k * d) 0);
    '(centroids, _, rng) ← try_fold (plusplus_step data n d) (centroids, replicate n F32_MAX, rng) (seq 1 (k - 1));
    Ok (centroids, rng)
  else Panic.

(** ** Assignment *)

(** The nearest centroid of a row with its distance, from the inner products. *)
Definition row_best (x_norm : Z) (c_norms products : list Z) : scored :=
  foldl nearer (F32_MAX, 0%nat) (imap (λ c '(c_norm, product), (approximate_distance x_norm c_norm product, c)) (zip c_norms products)).
(** One block: for each row its best distance and centroid.  The caller either
    sums the distances from zero or stores them as the objectives of the rows. *)
Definition assign_block (data : list Z) (n d : nat) (centroids : list Z) (k : nat) (c_norms : list Z) : io_result (list scored) :=
  _ ← checked_matrix_len n k;
  ip_matrix ← sgemm_a_bt sgemm n k d F32_ONE data centroids 0 (replicate (n * k) 0);
  try_map (λ i, row ← expect (get_slice (i * d) d data);
                products ← expect (get_slice (i * k) k ip_matrix);
                norms ← expect (get_slice 0 k c_norms);
                Ok (row_best (fvec_norm_l2sqr arch row) norms products)) (seq 0 n).
Definition block_objective (block : list scored) : Z := foldl f32_add 0 (fst <$> block).
(** The blocks zipped with the slices of [assignments] they fill. *)
Definition assign_blocks (data : list Z) (d : nat) (centroids : list Z) (k : nat) (c_norms : list Z) (assignments : list nat) (block_rows : Z) :
    io_result (list (list scored)) :=
  let rows := Z.to_nat block_rows in
  try_map (λ '(block_data, block_assign), assign_block block_data (length block_assign) d centroids k c_norms)
    (zip (chunks (rows * d) data) (chunks rows assignments)).
(** [assignments[..]] after the first entries were overwritten. *)
Definition overwritten (results : list scored) (assignments : list nat) : list nat :=
  (snd <$> results) ++ drop (length results) assignments.

(** *** The serial path with a penalty on large clusters *)

Definition balanced_row_best (x_norm : Z) (c_norms products : list Z) (cluster_sizes : list nat) (balance : Z) : scored :=
  foldl nearer (F32_MAX, 0%nat)
    (imap (λ c '(c_norm, product, size),
             let dist := approximate_distance x_norm c_norm product in
             ((if (0 <? size)%nat then f32_add dist (f32_mul balance (ln (f32_from_usize size))) else dist), c))
          (zip (zip c_norms products) cluster_sizes)).
Definition count_cluster (k : nat) (sizes : list nat) (a : nat) : list nat :=
  if (a <? k)%nat then alter S a sizes else sizes.
Definition balanced_block (data : list Z) (n d : nat) (centroids : list Z) (k : nat) (assignments : list nat) (balance : Z) : io_result (Z * list nat) :=
  x_norms ← try_map (λ i, row ← expect (get_slice (i * d) d data); Ok (fvec_norm_l2sqr arch row)) (seq 0 n);
  c_norms ← try_map (λ c, row ← centroid_at centroids d c; Ok (fvec_norm_l2sqr arch row)) (seq 0 k);
  ip_matrix ← sgemm_a_bt sgemm n k d F32_ONE data centroids 0 (replicate (n * k) 0);
  let cluster_sizes := foldl (count_cluster k) (replicate k 0%nat) assignments in
  results ← try_map (λ '(i, x_norm), products ← expect (get_slice (i * k) k ip_matrix);
                                     Ok (balanced_row_best x_norm c_norms products cluster_sizes balance)) (imap pair x_norms);
  _ ← (if (length results <=? length assignments)%nat then Ok () else Panic);
  Ok (block_objective results, overwritten results assignments).
(** One round of the loop over the chunks.  A chunk has at most
    [MAX_MATRIX_ELEMS] products, so the recursive call does not split again. *)
Definition balanced_step (data : list Z) (n d : nat) (centroids : list Z) (k : nat) (balance : Z) (chunk_n : nat) (st : Z * list nat * nat) :
    io_result (Z * list nat * nat) :=
  let '(total_obj, assignments, offset) := st in
  let cn := ((n - offset) `min` chunk_n)%nat in
  chunk ← expect (get_slice (offset * d) (cn * d) data);
  part ← expect (get_slice offset cn assignments);
  '(obj, part) ← balanced_block chunk cn d centroids k part balance;
  Ok (f32_add total_obj obj, splice offset part assignments, offset + cn)%nat.
Fixpoint balanced_loop (fuel : nat) (data : list Z) (n d : nat) (centroids : list Z) (k : nat) (balance : Z) (chunk_n : nat) (st : Z * list nat * nat) :
    io_result (Z * list nat) :=
  if (st.2 <? n)%nat then
    match fuel with
    | O => Panic
    | S fuel => st ← balanced_step data n d centroids k balance chunk_n st; balanced_loop fuel data n d centroids k balance chunk_n st
    end
  else Ok st.1.
Definition assign_clusters_balanced_serial (data : list Z) (n d : nat) (centroids : list Z) (k : nat) (assignments : list nat) (balance : Z) :
    io_result (Z * list nat) :=
  products ← checked_matrix_len n k;
  if MAX_MATRIX_ELEMS <? products then
    balanced_loop n data n d centroids k balance (Z.to_nat (MAX_MATRIX_ELEMS / Z.of_nat k)) (0, assignments, 0%nat)
  else balanced_block data n d centroids k assignments balance.

(** *** The blocked path *)

Definition assign_clusters_fast (data : list Z) (n d : nat) (centroids : list Z) (k : nat) (assignments : list nat) (balance : Z) : io_result (Z * list nat) :=
  if f32_gt balance 0 then assign_clusters_balanced_serial data n d centroids k assignments balance
  else if (n =? 0)%nat then Ok (0, assignments)
  else if (d =? 0)%nat then Ok (0, replicate (length assignments) 0%nat)
  else
    c_norms ← try_map (λ c, row ← centroid_at centroids d c; Ok (fvec_norm_l2sqr arch row)) (seq 0 k);
    let max_rows := max_block_rows (Z.of_nat k) in
    let '(block_rows, parallel) := assignment_block_plan (Z.of_nat n) (Z.of_nat d) (Z.of_nat k) threads in
    if Z.of_nat n <=? block_rows then
      block ← assign_block data n d centroids k c_norms;
      _ ← (if (n <=? length assignments)%nat then Ok () else Panic);
      Ok (block_objective block, overwritten block assignments)
    else if negb parallel && (block_rows =? max_rows) then
      blocks ← assign_blocks data d centroids k c_norms assignments block_rows;
      Ok (f32_sum (block_objective <$> blocks), overwritten (concat blocks) assignments)
    else
      blocks ← assign_blocks data d centroids k c_norms assignments block_rows;
      let row_objs := fst <$> concat blocks in
      Ok (f32_sum (f32_sum <$> chunks (Z.to_nat max_rows) row_objs), overwritten (concat blocks) assignments).

(** [find_nearest_batch] *)
Definition find_nearest_batch (data : list Z) (n : nat) (centroids : list Z) (k d : nat) : io_result (list nat) :=
  if (n =? 0)%nat then Ok []
  else if (n =? 1)%nat then point ← expect (get_slice 0 d data); best ← find_nearest arch point centroids k d; Ok [best]
  else '(_, assignments) ← assign_clusters_fast data n d centroids k (replicate n 0%nat) 0; Ok assignments.

(** ** Update *)

Definition sum_step (data : list Z) (d : nat) (assignments : list nat) (st : list nat * list Z) (i : nat) : io_result (list nat * list Z) :=
  let '(counts, sums) := st in
  c ← expect (assignments !! i);
  count ← expect (counts !! c);
  row ← expect (get_slice (i * d) d data);
  old ← expect (get_slice (c * d) d sums);
  sums ← copy_into (c * d) (zip_with f32_add old row) sums;
  Ok (<[c := S count]> counts, sums).
Definition mean_step (d : nat) (counts : list nat) (sums centroids : list Z) (c : nat) : io_result (list Z) :=
  count ← expect (counts !! c);
  if (0 <? count)%nat then
    let inv := f32_div F32_ONE (f32_from_usize count) in
    sum ← expect (get_slice (c * d) d sums);
    copy_into (c * d) ((λ s, f32_mul s inv) <$> sum) centroids
  else Ok centroids.
(** The two halves of a split donor. *)
Definition perturb (up : bool) (row : list Z) : list Z :=
  imap (λ j x, f32_mul x (if eqb (Nat.even j) up then f32_add F32_ONE EPS else f32_sub F32_ONE EPS)) row.
Definition refill_step (data : list Z) (n d : nat) (st : list Z * list nat * R) (c : nat) : io_result (list Z * list nat * R) :=
  let '(centroids, counts, rng) := st in
  count ← expect (counts !! c);
  if (0 <? count)%nat then Ok (centroids, counts, rng)
  else
    let donor := max_by_count counts in
    donor_count ← expect (counts !! donor);
    if (donor_count <=? 1)%nat then
      if (0 <? n)%nat then
        let '(idx, rng) := gen_range 0 n rng in
        row ← expect (get_slice (idx * d) d data);
        centroids ← copy_into (c * d) row centroids;
        Ok (centroids, counts, rng)
      else Panic
    else
      donor_copy ← expect (get_slice (donor * d) d centroids);
      centroids ← copy_into (c * d) (perturb true donor_copy) centroids;
      centroids ← copy_into (donor * d) (perturb false donor_copy) centroids;
      let half := (donor_count / 2)%nat in
      Ok (centroids, <[donor := (donor_count - half)%nat]> (<[c := half]> counts), rng).
Definition update_centroids (data : list Z) (n d : nat) (centroids : list Z) (k : nat) (assignments : list nat) (rng : R) : io_result (list Z * R) :=
  '(counts, sums) ← try_fold (sum_step data d assignments) (replicate k 0%nat, replicate (k * d) 0) (seq 0 n);
  centroids ← try_fold (mean_step d counts sums) centroids (seq 0 k);
  '(centroids, _, rng) ← try_fold (refill_step data n d) (centroids, counts, rng) (seq 0 k);
  Ok (centroids, rng).

(** ** Training *)

Definition converged (prev_obj obj : Z) : bool :=
  f32_lt prev_obj F32_MAX && f32_lt (f32_div (f32_abs (f32_sub prev_obj obj)) (f32_max prev_obj TINY)) REL_TOLERANCE.
(** [for _iter in 0..config.niter] with its early exit. *)
Fixpoint lloyd (iters : nat) (data : list Z) (n d k : nat) (balance : Z) (centroids : list Z) (assignments : list nat) (prev_obj : Z) (rng : R) :
    io_result (list Z * Z * R) :=
  match iters with
  | O => Ok (centroids, prev_obj, rng)
  | S iters =>
      '(obj, assignments) ← assign_clusters_fast data n d centroids k assignments balance;
      '(centroids, rng) ← update_centroids data n d centroids k assignments rng;
      if converged prev_obj obj then Ok (centroids, prev_obj, rng)
      else lloyd iters data n d k balance centroids assignments obj rng
  end.
Definition redo_step (config : KMeansConfig) (data : list Z) (n d k : nat) (init : option (list Z)) (st : list Z * Z * R) (redo : nat) :
    io_result (list Z * Z * R) :=
  let '(best_centroids, best_obj, rng) := st in
  '(centroids, rng) ← match redo, init with
                      | O, Some init => Ok (init, rng)
                      | _, _ => kmeans_plusplus_init data n d k rng
                      end;
  '(centroids, prev_obj, rng) ← lloyd (niter config) data n d k (balance_factor config) centroids (replicate n 0%nat) F32_MAX rng;
  Ok (if f32_lt prev_obj best_obj then (centroids, prev_obj, rng) else (best_centroids, best_obj, rng)).

(** The data, cut to [k * max_points_per_centroid] rows. *)
Definition training_sample (config : KMeansConfig) (data : list Z) (n d k : nat) (rng : R) : io_result (list Z * nat * R) :=
  max_n ← expect (checked_mul 64 (Z.of_nat k) (max_points_per_centroid config));
  if max_n <? Z.of_nat n then '(sub, rng) ← subsample data n d (Z.to_nat max_n) rng; Ok (sub, Z.to_nat max_n, rng)
  else Ok (data, n, rng).
Definition kmeans_train_with_init (config : KMeansConfig) (data : list Z) (n d k : nat) (initial_centroids : option (list Z)) : io_result (list Z) :=
  _ ← assert_data_shape data n d;
  centroid_len ← checked_matrix_len k d;
  _ ← match initial_centroids with Some init => if zlen init =? centroid_len then Ok () else Panic | None => Ok () end;
  if (n =? 0)%nat || (k =? 0)%nat then Ok (replicate (k * d) 0)
  else
    '(train_data, train_n, rng) ← training_sample config data n d k (seed_from_u64 (km_seed config));
    if (train_n <=? k)%nat then
      if (train_n =? 0)%nat then Panic
      else rows ← try_map (λ i, expect (get_slice (i mod train_n * d) d train_data)) (seq 0 k); Ok (concat rows)
    else
      let redos := match initial_centroids with Some _ => 1%nat | None => nredo config end in
      '(best, _, _) ← try_fold (redo_step config train_data train_n d k initial_centroids) (replicate (k * d) 0, F32_MAX, rng) (seq 0 redos);
      Ok best.

(** *** Above 256 centroids: splitting the largest cluster *)

(** [BinaryHeap::pop]: a cluster with the most members, and the others.  The heap
    is the list of its clusters; which of several largest is taken is not
    specified. *)
Context (pop : list Cluster → option (Cluster * list Cluster)).

Definition members (assignments : list nat) (c : nat) : list nat := filter (λ i, assignments !! i = Some c) (seq 0 (length assignments)).
Definition initial_cluster (centroids : list Z) (d : nat) (assignments : list nat) (c : nat) : io_result Cluster :=
  centroid ← centroid_at centroids d c; Ok (MkCluster centroid (members assignments c)).
(** The non-empty halves of a cluster. *)
Definition child (indices : list nat) (sub_centroids : list Z) (d : nat) (sub_assignments : list nat) (sc : nat) : io_result (option Cluster) :=
  sub_indices ← try_map (λ i, expect (indices !! i)) (members sub_assignments sc);
  match sub_indices with
  | [] => Ok None
  | _ => centroid ← centroid_at sub_centroids d sc; Ok (Some (MkCluster centroid sub_indices))
  end.
Definition split_cluster (config : KMeansConfig) (train_data : list Z) (d finalized : nat) (largest : Cluster) : io_result (list Cluster) :=
  let sub_n := length (c_indices largest) in
  rows ← try_map (λ orig_idx, expect (get_slice (orig_idx * d) d train_data)) (c_indices largest);
  let sub_data := concat rows in
  seed ← expect (checked_add 64 (km_seed config) (Z.of_nat finalized));
  sub_centroids ← kmeans_train_with_init (KMeans 10 (nredo kmeans_default) (max_points_per_centroid config) seed (balance_factor kmeans_default)) sub_data sub_n d 2 None;
  '(_, sub_assignments) ← assign_clusters_fast sub_data sub_n d sub_centroids 2 (replicate sub_n 0%nat) 0;
  children ← try_map (child (c_indices largest) sub_centroids d sub_assignments) (seq 0 2);
  Ok (omap (M:=list) (λ c, c) children).
(** [while finalized.len() + heap.len() < target_k] *)
Fixpoint split_loop (fuel : nat) (config : KMeansConfig) (train_data : list Z) (d target_k : nat) (finalized : list (list Z)) (heap : list Cluster) :
    io_result (list (list Z) * list Cluster) :=
  if (length finalized + length heap <? target_k)%nat then
    match fuel with
    | O => Panic
    | S fuel =>
        match pop heap with
        | None => Ok (finalized, heap)
        | Some (largest, heap) =>
            if (length (c_indices largest) <? 4)%nat then split_loop fuel config train_data d target_k (finalized ++ [c_centroid largest]) heap
            else
              children ← split_cluster config train_data d (length finalized) largest;
              if (length children <? 2)%nat then split_loop fuel config train_data d target_k (finalized ++ [c_centroid largest]) heap
              else split_loop fuel config train_data d target_k finalized (heap ++ children)
        end
    end
  else Ok (finalized, heap).
(** [while let Some(cluster) = heap.pop()] until [len] values are there. *)
Fixpoint drain (fuel : nat) (len : nat) (result : list Z) (heap : list Cluster) : list Z :=
  match fuel, pop heap with
  | S fuel, Some (cluster, heap) =>
      let result := result ++ c_centroid cluster in
      if (len <=? length result)%nat then result else drain fuel len result heap
  | _, _ => result
  end.
(** [result.extend_from_within(src..src + d)] *)
Definition pad_step (d produced : nat) (result : list Z) (i : nat) : io_result (list Z) :=
  row ← expect (get_slice (i mod produced * d) d result); Ok (result ++ row).
Definition pad_result (d target_k : nat) (result : list Z) : io_result (list Z) :=
  if (length result <? target_k * d)%nat && (0 <? length result)%nat then
    let produced := (length result / d)%nat in
    if (produced =? 0)%nat then Panic else try_fold (pad_step d produced) result (seq produced (target_k - produced))
  else Ok result.
Definition kmeans_train_hierarchical (config : KMeansConfig) (data : list Z) (n d target_k : nat) : io_result (list Z) :=
  '(train_data, train_n, _) ← training_sample config data n d target_k (seed_from_u64 (km_seed config));
  let initial_k := (16 `min` target_k)%nat in
  let initial_config := KMeans (niter config) (nredo kmeans_default) (max_points_per_centroid config) (km_seed config) (balance_factor kmeans_default) in
  initial_centroids ← kmeans_train_with_init initial_config train_data train_n d initial_k None;
  '(_, assignments) ← assign_clusters_fast train_data train_n d initial_centroids initial_k (replicate train_n 0%nat) 0;
  heap ← try_map (initial_cluster initial_centroids d assignments) (seq 0 initial_k);
  '(finalized, heap) ← split_loop (2 * target_k) config train_data d target_k [] heap;
  result ← pad_result d target_k (drain (length heap) (target_k * d) (concat finalized) heap);
  Ok (resize (target_k * d) 0 result).
Definition kmeans_train (config : KMeansConfig) (data : list Z) (n d k : nat) : io_result (list Z) :=
  _ ← assert_data_shape data n d;
  _ ← checked_matrix_len k d;
  if (HIERARCHICAL_THRESHOLD <? k)%nat && (k <? n)%nat then kmeans_train_hierarchical config data n d k
  else kmeans_train_with_init config data n d k None.

End Train.
