(* ===== verification/KmeansTotal.v ===== *)
(** Training returns: [kmeans_train] of [KmeansTrain] succeeds on every input of
    the right shape and returns [k] rows of [d] values.

    Rows of a matrix are slices of its values.  The sub-sample is one without
    replacement, every assignment names a centroid, the splitting loop of the
    hierarchical training ends within twice the target count, and no index is out
    of range. *)

From stdpp Require Import sorting.
From S2P Require Import Prelude F32 F64 F32Arith DiskannHeader Distance KmeansSearch Range CompactAdjacency VamanaBuild KmeansTrain.

(** ** Matrices *)

Definition matrix (n d : nat) (l : list Z) : Prop := length l = (n * d)%nat ∧ Forall u32 l.
Definition row_ok (d : nat) (r : list Z) : Prop := length r = d ∧ Forall u32 r.

Lemma try_fold_keeps {A S} (f : S → A → io_result S) (P : S → Prop) l s :
  P s → (∀ s x, x ∈ l → P s → ∃ s', f s x = Ok s' ∧ P s') → ∃ s', try_fold f s l = Ok s' ∧ P s'.
Proof.
  revert s. induction l as [|x l IH]; intros s Hs Hf; [by exists s|]. destruct (Hf s x) as (s' & E & Hs'); [by left|done|]. cbn [try_fold]. rewrite E.
  apply IH; [done|]. intros t y Hy. apply Hf. by right.
Qed.
Lemma try_map_pure {A B} (f : A → io_result B) (g : A → B) l : (∀ a, a ∈ l → f a = Ok (g a)) → try_map f l = Ok (g <$> l).
Proof. intros Hf. apply try_map_Ok, Forall2_fmap_r, Forall_Forall2_diag, Forall_forall, Hf. Qed.

Lemma matrix_row n d l i : matrix n d l → (i < n)%nat → get_slice (i * d) d l = Some (slice (i * d) d l) ∧ row_ok d (slice (i * d) d l).
Proof.
  intros [Hl Hu] Hi. assert (i * d + d ≤ length l)%nat by nia. split; [by apply get_slice_Some|]. split; [by apply length_slice|by apply Forall_slice].
Qed.
Lemma matrix_zero k d : matrix k d (replicate (k * d) 0).
Proof. split; [by rewrite length_replicate|by apply Forall_replicate]. Qed.
Lemma matrix_copy k d l c r : matrix k d l → (c < k)%nat → row_ok d r → ∃ l', copy_into (c * d) r l = Ok l' ∧ matrix k d l'.
Proof.
  intros [Hl Hu] Hc [Lr Ur]. assert (c * d + length r ≤ length l)%nat by nia. exists (splice (c * d) r l). split; [by apply copy_into_ok|].
  split; [by rewrite length_splice|]. unfold splice. apply Forall_app. split; [by apply Forall_take|]. apply Forall_app. split; [done|by apply Forall_drop].
Qed.
Lemma matrix_concat d rows : Forall (row_ok d) rows → matrix (length rows) d (concat rows).
Proof.
  intros F. split; [|apply Forall_concat; eapply Forall_impl; [exact F|by intros r [_ ?]]]. induction F as [|r rows [Lr _] _ IH]; [done|].
  cbn [concat length]. rewrite length_app, IH, Lr. lia.
Qed.
(** Gathering rows by their indices. *)
Lemma gather_rows n d l indices : matrix n d l → Forall (λ i, i < n)%nat indices →
  ∃ rows, try_map (λ i, expect (get_slice (i * d) d l)) indices = Ok rows ∧ matrix (length indices) d (concat rows) ∧
    rows = (λ i, slice (i * d) d l) <$> indices.
Proof.
  intros Hm F. rewrite Forall_forall in F. exists ((λ i, slice (i * d) d l) <$> indices). split_and!; [|rewrite <- (length_fmap (λ i, slice (i * d) d l)); apply matrix_concat|done].
  - apply try_map_pure. intros i Hi. by rewrite (proj1 (matrix_row n d l i Hm (F i Hi))).
  - apply Forall_fmap, Forall_forall. intros i Hi. by apply (matrix_row n d l i Hm), F.
Qed.

Lemma length_le_concat {A} (x : list A) ls : x ∈ ls → (length x ≤ length (concat ls))%nat.
Proof. induction 1 as [|y ls x _ IH]; cbn [concat]; rewrite length_app; lia. Qed.
Lemma length_concat_fmap {A B} (f : A → list B) (g : A → nat) l : (∀ a, a ∈ l → length (f a) = g a) → length (concat (f <$> l)) = sum_list (g <$> l).
Proof.
  induction l as [|a l IH]; intros Hf; [done|]. rewrite !fmap_cons. cbn [concat sum_list]. rewrite length_app, (Hf a), IH; [done|set_solver|set_solver].
Qed.

(** Blocks of rows next to blocks of entries. *)
Lemma zip_chunks_fuel {A B} rows d : (0 < rows)%nat → (0 < d)%nat → ∀ fuel1 fuel2 n (data : list A) (l : list B),
  length data = (n * d)%nat → length l = n → (length data ≤ fuel1)%nat → (length l ≤ fuel2)%nat →
  Forall (λ p : list A * list B, length p.1 = (length p.2 * d)%nat ∧ (0 < length p.2 ≤ rows)%nat) (zip (chunks_fuel fuel1 (rows * d) data) (chunks_fuel fuel2 rows l)) ∧
  concat (zip (chunks_fuel fuel1 (rows * d) data) (chunks_fuel fuel2 rows l)).*1 = data ∧
  concat (zip (chunks_fuel fuel1 (rows * d) data) (chunks_fuel fuel2 rows l)).*2 = l.
Proof.
  intros Hr Hd. induction fuel1 as [|fuel1 IH]; intros fuel2 n data l Hl1 Hl2 Hf1 Hf2.
  { destruct data; [|cbn in Hf1; lia]. destruct l; [|cbn in *; nia]. by destruct fuel2. }
  destruct n as [|n]. { destruct data; [|cbn in Hl1; lia]. destruct l; [|done]. by destruct fuel2. }
  destruct data as [|x data]; [cbn in Hl1; lia|]. destruct l as [|y l]; [done|]. destruct fuel2 as [|fuel2]; [cbn in Hf2; lia|].
  set (D := x :: data) in *. set (L := y :: l) in *.
  destruct (IH fuel2 (S n - rows)%nat (drop (rows * d) D) (drop rows L)) as (F & E1 & E2); [rewrite length_drop; nia|rewrite length_drop; lia|rewrite length_drop; nia|rewrite length_drop; lia|].
  change (chunks_fuel (S fuel1) (rows * d) D) with (take (rows * d) D :: chunks_fuel fuel1 (rows * d) (drop (rows * d) D)).
  change (chunks_fuel (S fuel2) rows L) with (take rows L :: chunks_fuel fuel2 rows (drop rows L)). cbn [zip_with]. rewrite !fmap_cons. cbn [concat fst snd]. rewrite E1, E2, !take_drop.
  split_and!; [|done|done]. constructor; [|done]. cbn [fst snd]. rewrite !length_take. nia.
Qed.
Lemma zip_chunks {A B} rows d n (data : list A) (l : list B) : (0 < rows)%nat → (0 < d)%nat → length data = (n * d)%nat → length l = n →
  Forall (λ p : list A * list B, length p.1 = (length p.2 * d)%nat ∧ (0 < length p.2 ≤ rows)%nat) (zip (chunks (rows * d) data) (chunks rows l)) ∧
  concat (zip (chunks (rows * d) data) (chunks rows l)).*1 = data ∧ concat (zip (chunks (rows * d) data) (chunks rows l)).*2 = l.
Proof. intros Hr Hd Hl1 Hl2. by apply (zip_chunks_fuel rows d Hr Hd _ _ n). Qed.

(** ** The sample *)

Lemma vec_swap_ok i j l : (i < length l)%nat → (j < length l)%nat → ∃ l', vec_swap i j l = Ok l' ∧ l' ≡ₚ l.
Proof.
  intros Hi Hj. destruct (lookup_lt_is_Some_2 l i Hi) as [a Ha], (lookup_lt_is_Some_2 l j Hj) as [b Hb]. unfold vec_swap. rewrite Ha, Hb. cbn.
  eexists. split; [done|]. destruct (decide (i = j)) as [->|Hne].
  - rewrite list_insert_insert_eq. rewrite list_insert_id; [done|congruence].
  - by apply (Permutation_insert_swap l i j a b).
Qed.

(** [BinaryHeap]: [pop] removes a cluster that no other exceeds. *)
Record heap_pop (pop : list Cluster → option (Cluster * list Cluster)) : Prop := {
  hp_empty : pop [] = None;
  hp_largest heap : heap ≠ [] → ∃ c rest, pop heap = Some (c, rest) ∧ heap ≡ₚ c :: rest ∧ ∀ x, x ∈ heap → (length (c_indices x) ≤ length (c_indices c))%nat }.

Section Total.
Context `{RngLaws R} (gen_f32 : R → Z * R).
Context (arch : Arch) (sgemm : nat → nat → nat → Z → list Z → list Z → Z → list Z → list Z) (ln : Z → Z) (threads : Z).
Context (Hsgemm : ∀ m n k alpha a b beta c, length (sgemm m n k alpha a b beta c) = length c ∧ Forall u32 (sgemm m n k alpha a b beta c)).

(** Rows of distinct indices. *)
Lemma subsample_ok data n d target (rng : R) : matrix n d data → (target ≤ n)%nat →
  ∃ indices rng', subsample data n d target rng = Ok (concat ((λ i, slice (i * d) d data) <$> indices), rng') ∧
    length indices = target ∧ NoDup indices ∧ Forall (λ i, i < n)%nat indices.
Proof.
  intros Hm Ht. unfold subsample. destruct (try_fold_keeps (subsample_step n) (λ st, st.1 ≡ₚ seq 0 n) (seq 0 target) (seq 0 n, rng)) as ([indices rng'] & -> & Hp); [done| |].
  - intros [l r] i Hi Hp. cbn [fst] in *. apply elem_of_seq in Hi. assert (length l = n) as Hl by by rewrite Hp, length_seq.
    unfold subsample_step. rewrite (proj2 (Nat.ltb_lt _ _)) by lia. pose proof (gen_range_bounds i n r ltac:(lia)) as Hj.
    destruct (gen_range i n r) as [j r']. cbn [fst] in Hj. destruct (vec_swap_ok i j l) as (l' & -> & Hp'); [lia..|]. exists (l', r'). split; [done|]. cbn [fst]. by rewrite Hp'.
  - cbn [fst mbind io_result_bind] in *. assert (NoDup indices) as Hnd by (rewrite Hp; apply NoDup_seq).
    assert (Forall (λ i, i < n)%nat indices) as Hb by (rewrite Hp; apply Forall_forall; intros i Hi; apply elem_of_seq in Hi; lia).
    destruct (gather_rows n d data (take target indices) Hm (Forall_take _ _ _ Hb)) as (rows & -> & Hr & ->).
    exists (take target indices), rng'. split_and!; [done| | |by apply Forall_take].
    + rewrite length_take. assert (length indices = n) by by rewrite Hp, length_seq. lia.
    + eapply sublist_NoDup; [exact Hnd|apply sublist_take].
Qed.

(** The data, or a sample of it. *)
Lemma training_sample_ok config data n d k (rng : R) : matrix n d data → (0 < n)%nat → (0 < k)%nat → 1 <= max_points_per_centroid config →
  Z.of_nat k * max_points_per_centroid config < 2 ^ 64 →
  ∃ data' n' rng', training_sample config data n d k rng = Ok (data', n', rng') ∧ matrix n' d data' ∧ (0 < n' ≤ n)%nat ∧ (n ≤ k → n' = n)%nat ∧ (k < n → k ≤ n')%nat.
Proof.
  intros Hm Hn Hk Hmp Hf. unfold training_sample. rewrite (proj2 (checked_mul_Some _ _ _ _) (conj eq_refl Hf)). cbn [expect mbind io_result_bind].
  destruct (Z.ltb_spec (Z.of_nat k * max_points_per_centroid config) (Z.of_nat n)) as [Hlt|]; [|exists data, n, rng; split_and!; [done|done|lia..]].
  destruct (subsample_ok data n d (Z.to_nat (Z.of_nat k * max_points_per_centroid config)) rng Hm ltac:(lia)) as (idx & rng' & -> & Hl & _ & Hb).
  cbn [mbind io_result_bind]. destruct (gather_rows n d data idx Hm Hb) as (rows & _ & Hr & ->). rewrite Hl in Hr.
  eexists _, _, rng'. split_and!; [done|done|nia..].
Qed.

(** ** The seeds *)

Lemma reach_bound target l : ∀ cumulative i s, reach cumulative target i l = Some s → (i ≤ s < i + length l)%nat.
Proof.
  induction l as [|m l IH]; intros cumulative i s; cbn [reach length]; [done|]. destruct (f32_ge _ _); [intros [= <-]; lia|]. intros Hs%IH. lia.
Qed.
Lemma plusplus_ok data n d k (rng : R) : matrix n d data → (0 < n)%nat → (0 < k)%nat →
  ∃ centroids rng', kmeans_plusplus_init gen_f32 arch data n d k rng = Ok (centroids, rng') ∧ matrix k d centroids.
Proof.
  intros Hm Hn Hk. unfold kmeans_plusplus_init. rewrite (proj2 (Nat.ltb_lt _ _)) by lia. pose proof (gen_range_bounds 0 n rng ltac:(lia)) as Hfirst.
  destruct (gen_range 0 n rng) as [first rng1]. cbn [fst] in Hfirst. destruct (matrix_row n d data first Hm) as [-> Hr]; [lia|]. cbn [expect mbind io_result_bind].
  destruct (matrix_copy k d _ 0 _ (matrix_zero k d) Hk Hr) as (cs & E & Hcs). cbn [Nat.mul] in E. rewrite E. cbn [mbind io_result_bind].
  destruct (try_fold_keeps (plusplus_step gen_f32 arch data n d) (λ st, matrix k d st.1.1 ∧ length st.1.2 = n) (seq 1 (k - 1)) (cs, replicate n F32_MAX, rng1))
    as ([[cs' md] rng2] & -> & Hcs' & _); [split; [done|apply length_replicate]| |by exists cs', rng2].
  intros [[c mins] r] i Hi [Hc Hl]. cbn [fst snd] in *. apply elem_of_seq in Hi. unfold plusplus_step. destruct (matrix_row k d c (i - 1) Hc) as [-> Hp]; [lia|]. cbn [expect mbind io_result_bind].
  match goal with |- context [try_map ?f (imap pair mins)] => destruct (try_map_total f (λ _ _, True) (imap pair mins)) as (mins' & -> & Fm) end.
  { intros [j m] Hj. apply elem_of_lookup_imap_1 in Hj as (j' & m' & [= -> ->] & Hj). apply lookup_lt_Some in Hj.
    destruct (matrix_row n d data j' Hm) as [-> [Lr _]]; [lia|]. cbn [expect mbind io_result_bind]. unfold fvec_l2sqr, same_length. destruct Hp as [-> _]. rewrite Lr, Nat.eqb_refl.
    cbn [mbind io_result_bind]. eexists. split; done. }
  cbn [mbind io_result_bind]. apply Forall2_length in Fm. rewrite length_imap, Hl in Fm. destruct (gen_f32 r) as [u r'].
  set (s := default (n - 1)%nat _). assert (s < n)%nat as Hs.
  { unfold s. destruct (reach _ _ _ _) as [x|] eqn:Ex; cbn [from_option]; [|lia]. apply reach_bound in Ex. unfold id. lia. }
  clearbody s. destruct (matrix_row n d data s Hm Hs) as [-> Hr']. cbn [expect mbind io_result_bind]. destruct (matrix_copy k d c i _ Hc ltac:(lia) Hr') as (c' & -> & Hc').
  eexists. split; [done|]. cbn [fst snd]. split; [done|lia].
Qed.

(** ** Assignment *)

Lemma nearer_in init l : foldl nearer init l ∈ init :: l.
Proof.
  revert init. induction l as [|x l IH]; intros init; cbn [foldl]; [by left|]. rewrite !elem_of_cons.
  destruct (proj1 (elem_of_cons _ _ _) (IH (nearer init x))) as [->|Hin]; [|by right; right]. unfold nearer. destruct (f32_lt _ _); auto.
Qed.
Lemma best_centroid_bound {A} (f : nat → A → Z) k (l : list A) : (0 < k)%nat → length l = k →
  ((foldl nearer (F32_MAX, 0%nat) (imap (λ c x, (f c x, c)) l)).2 < k)%nat.
Proof.
  intros Hk Hl. pose proof (nearer_in (F32_MAX, 0%nat) (imap (λ c x, (f c x, c)) l)) as Hin. apply elem_of_cons in Hin as [->|Hin]; [done|].
  apply elem_of_lookup_imap_1 in Hin as (c & x & -> & Hc). apply lookup_lt_Some in Hc. cbn. lia.
Qed.
Lemma row_best_bound k x_norm c_norms products : (0 < k)%nat → length c_norms = k → length products = k → ((row_best x_norm c_norms products).2 < k)%nat.
Proof.
  intros Hk Hl Hp. unfold row_best. rewrite (imap_ext _ (λ c x, (approximate_distance x_norm x.1 x.2, c))) by (by intros ? []).
  apply (best_centroid_bound (λ _ x, approximate_distance x_norm x.1 x.2)); [done|]. rewrite length_zip. lia.
Qed.

(** Shapes whose sizes the machine can represent. *)
Definition sizes_fit (n d k : nat) : Prop :=
  Z.of_nat n * Z.of_nat d < 2 ^ 63 ∧ Z.of_nat k * Z.of_nat d < 2 ^ 63 ∧ Z.of_nat k < 2 ^ 63 ∧ Z.of_nat d < 2 ^ 63.

Lemma sgemm_a_bt_ok n d k data centroids : length data = (n * d)%nat → length centroids = (k * d)%nat → sizes_fit n d k → Z.of_nat n * Z.of_nat k < 2 ^ 64 →
  sgemm_a_bt sgemm n k d F32_ONE data centroids 0 (replicate (n * k) 0) = Ok (sgemm n k d F32_ONE data centroids 0 (replicate (n * k) 0)).
Proof.
  intros Ha Hb (H1 & H2 & H3 & H4) Hnk. unfold sgemm_a_bt. rewrite !(proj2 (Z.ltb_lt _ _)) by lia. cbn [andb mbind io_result_bind].
  rewrite (proj2 (checked_mul_Some 64 (Z.of_nat n) (Z.of_nat d) (Z.of_nat n * Z.of_nat d))) by lia.
  rewrite (proj2 (checked_mul_Some 64 (Z.of_nat k) (Z.of_nat d) (Z.of_nat k * Z.of_nat d))) by lia.
  rewrite (proj2 (checked_mul_Some 64 (Z.of_nat n) (Z.of_nat k) (Z.of_nat n * Z.of_nat k))) by lia. cbn [expect mbind io_result_bind].
  unfold zlen. rewrite length_replicate, Ha, Hb, !Nat2Z.inj_mul, !Z.leb_refl. done.
Qed.

(** The products of row [i]. *)
Definition products_of (data centroids : list Z) (n d k i : nat) : list Z :=
  slice (i * k) k (sgemm n k d F32_ONE data centroids 0 (replicate (n * k) 0)).
Lemma products_row data centroids n d k i : (i < n)%nat →
  get_slice (i * k) k (sgemm n k d F32_ONE data centroids 0 (replicate (n * k) 0)) = Some (products_of data centroids n d k i) ∧
  length (products_of data centroids n d k i) = k.
Proof.
  intros Hi. destruct (Hsgemm n k d F32_ONE data centroids 0 (replicate (n * k) 0)) as [Hl Hu]. rewrite length_replicate in Hl.
  destruct (matrix_row n k _ i (conj Hl Hu) Hi) as [E [L _]]. by split.
Qed.
Lemma norms_ok centroids k d : matrix k d centroids →
  try_map (λ c, row ← centroid_at centroids d c; Ok (fvec_norm_l2sqr arch row)) (seq 0 k) = Ok ((λ c, fvec_norm_l2sqr arch (slice (c * d) d centroids)) <$> seq 0 k).
Proof.
  intros Hm. apply try_map_pure. intros c Hc. apply elem_of_seq in Hc. unfold centroid_at. by rewrite (proj1 (matrix_row k d centroids c Hm ltac:(lia))).
Qed.

Definition block_of (data centroids c_norms : list Z) (n d k : nat) : list scored :=
  (λ i, row_best (fvec_norm_l2sqr arch (slice (i * d) d data)) c_norms (products_of data centroids n d k i)) <$> seq 0 n.
Lemma assign_block_eq data n d centroids k c_norms : length data = (n * d)%nat → length centroids = (k * d)%nat → length c_norms = k → sizes_fit n d k →
  Z.of_nat n * Z.of_nat k < 2 ^ 64 → assign_block arch sgemm data n d centroids k c_norms = Ok (block_of data centroids c_norms n d k).
Proof.
  intros Ha Hb Hn Hf Hnk. unfold assign_block, checked_matrix_len. rewrite (proj2 (checked_mul_Some 64 (Z.of_nat n) (Z.of_nat k) (Z.of_nat n * Z.of_nat k))) by lia.
  cbn [expect mbind io_result_bind]. rewrite sgemm_a_bt_ok by done. cbn [mbind io_result_bind]. apply try_map_pure. intros i Hi. apply elem_of_seq in Hi.
  rewrite (proj2 (get_slice_Some (i * d) d data _)) by (split; [nia|done]). rewrite (proj1 (products_row data centroids n d k i ltac:(lia))).
  rewrite (proj2 (get_slice_Some 0 k c_norms c_norms)); [done|]. split; [lia|]. unfold slice. rewrite drop_0, take_ge; [done|lia].
Qed.
Lemma block_of_bound data centroids c_norms n d k : (0 < k)%nat → length c_norms = k → Forall (λ s, s.2 < k)%nat (block_of data centroids c_norms n d k).
Proof.
  intros Hk Hn. apply Forall_fmap, Forall_forall. intros i Hi. apply elem_of_seq in Hi. apply row_best_bound; [done|done|]. apply (products_row data centroids n d k i). lia.
Qed.
Lemma block_of_length data centroids c_norms n d k : length (block_of data centroids c_norms n d k) = n.
Proof. unfold block_of. by rewrite length_fmap, length_seq. Qed.

Lemma max_block_rows_bound k : 0 < k → 1 <= max_block_rows k ∧ max_block_rows k * k <= Z.max MAX_MATRIX_ELEMS k ∧ max_block_rows k <= MAX_MATRIX_ELEMS.
Proof.
  intros Hk. unfold max_block_rows, MAX_MATRIX_ELEMS. rewrite (Z.max_l k 1) by lia. pose proof (Z.mul_div_le (4 * 1024 * 1024) k Hk).
  pose proof (Z.div_pos (4 * 1024 * 1024) k ltac:(lia) Hk). nia.
Qed.
Lemma block_plan_bound n d k : 0 < k → 1 <= (assignment_block_plan n d k threads).1 <= max_block_rows k.
Proof.
  intros Hk. destruct (max_block_rows_bound k Hk) as (H1 & _ & _). unfold assignment_block_plan, MIN_BLOCK_ROWS. set (m := max_block_rows k) in *. clearbody m.
  repeat match goal with |- context [if ?b then _ else _] => destruct b end; cbn [fst]; lia.
Qed.

Lemma row_products n d k m rows : (0 < k)%nat → sizes_fit n d k → (m ≤ rows)%nat → Z.of_nat rows <= max_block_rows (Z.of_nat k) → Z.of_nat m * Z.of_nat k < 2 ^ 64.
Proof.
  intros Hk Hfit Hm Hr. destruct (max_block_rows_bound (Z.of_nat k) ltac:(lia)) as (_ & H1 & _). destruct Hfit as (_ & _ & H2 & _). unfold MAX_MATRIX_ELEMS in *. nia.
Qed.

Section Shape.
Context (n d k : nat) (data centroids c_norms : list Z) (Hdata : length data = (n * d)%nat) (Hcent : length centroids = (k * d)%nat).
Context (Hnorms : length c_norms = k) (Hk : (0 < k)%nat) (Hfit : sizes_fit n d k).

Lemma blocks_eq (l : list nat) block_rows : (0 < d)%nat → length l = n → 1 <= block_rows <= max_block_rows (Z.of_nat k) →
  assign_blocks arch sgemm data d centroids k c_norms l block_rows =
  Ok ((λ p, block_of p.1 centroids c_norms (length p.2) d k) <$> zip (chunks (Z.to_nat block_rows * d) data) (chunks (Z.to_nat block_rows) l)).
Proof.
  intros Hd Hl Hb. unfold assign_blocks. apply try_map_pure. intros [b a] Hin. cbn [fst snd].
  destruct (zip_chunks (Z.to_nat block_rows) d n data l ltac:(lia) Hd Hdata Hl) as (F & _ & E2). rewrite Forall_forall in F. destruct (F _ Hin) as [Lb La]. cbn [fst snd] in *.
  assert (length a ≤ n)%nat as Han by (rewrite <- Hl, <- E2; apply length_le_concat; by apply (list_elem_of_fmap_2 snd) in Hin).
  apply assign_block_eq; [done|done|done| |eapply (row_products n d k); [done|done|apply La|lia]]. destruct Hfit as (H1 & H2 & H3 & H4). repeat split; [nia|done|done|done].
Qed.
Lemma blocks_shape (l : list nat) block_rows : (0 < d)%nat → length l = n → 1 <= block_rows →
  let blocks := (λ p, block_of p.1 centroids c_norms (length p.2) d k) <$> zip (chunks (Z.to_nat block_rows * d) data) (chunks (Z.to_nat block_rows) l) in
  length (concat blocks) = n ∧ Forall (λ s, s.2 < k)%nat (concat blocks).
Proof.
  intros Hd Hl Hb blocks. destruct (zip_chunks (Z.to_nat block_rows) d n data l ltac:(lia) Hd Hdata Hl) as (F & _ & E2). split.
  - unfold blocks. rewrite (length_concat_fmap _ (λ p, length p.2)) by (intros; apply block_of_length).
    set (z := zip _ _) in *. clearbody z. rewrite <- Hl, <- E2. symmetry. by apply (length_concat_fmap snd (λ p, length p.2)).
  - apply Forall_concat, Forall_fmap, Forall_true. intros p. exact (block_of_bound p.1 centroids c_norms (length p.2) d k Hk Hnorms).
Qed.
End Shape.

Lemma overwritten_ok n k results (l : list nat) : length results = n → length l = n → Forall (λ s : scored, s.2 < k)%nat results →
  length (overwritten results l) = n ∧ Forall (λ a, a < k)%nat (overwritten results l).
Proof.
  intros Hr Hl F. unfold overwritten. rewrite drop_ge, app_nil_r by lia. split; [by rewrite length_fmap|by apply Forall_fmap].
Qed.

(** Without a balance factor. *)
Lemma assign_fast_ok n d k data centroids l balance : matrix n d data → matrix k d centroids → (0 < k)%nat → sizes_fit n d k → length l = n → f32_gt balance 0 = false →
  ∃ obj l', assign_clusters_fast arch sgemm ln threads data n d centroids k l balance = Ok (obj, l') ∧ length l' = n ∧ Forall (λ a, a < k)%nat l'.
Proof.
  intros Hm Hc Hk Hf Hl Hb. unfold assign_clusters_fast. rewrite Hb. destruct (Nat.eqb_spec n 0) as [->|Hn]; [exists 0, l; split_and!; [done|done|by destruct l]|].
  destruct (Nat.eqb_spec d 0) as [->|Hd]; [exists 0, (replicate (length l) 0%nat); split_and!; [done|by rewrite length_replicate|by apply Forall_replicate]|].
  rewrite norms_ok by done. cbn [mbind io_result_bind]. set (norms := _ <$> seq 0 k). assert (length norms = k) as Hnl by (unfold norms; by rewrite length_fmap, length_seq).
  clearbody norms. pose proof (block_plan_bound (Z.of_nat n) (Z.of_nat d) (Z.of_nat k) ltac:(lia)) as Hp. destruct (assignment_block_plan _ _ _ _) as [rows parallel]. cbn [fst] in Hp.
  destruct Hm as [Hm _], Hc as [Hc _]. destruct (Z.leb_spec (Z.of_nat n) rows) as [Hle|Hgt].
  - rewrite (assign_block_eq data n d centroids k norms) by (done || apply (row_products n d k n (Z.to_nat rows)); done || lia). cbn [mbind io_result_bind].
    rewrite (proj2 (Nat.leb_le _ _)) by lia. eexists _, _. split; [done|]. apply overwritten_ok; [apply block_of_length|done|by apply block_of_bound].
  - destruct (blocks_shape n d k data centroids norms Hm Hc Hnl Hk l rows ltac:(lia) Hl ltac:(lia)) as [Lb Fb].
    case_match; rewrite (blocks_eq n d k data centroids norms Hm Hc Hnl Hk Hf) by (done || lia); cbn [mbind io_result_bind]; eexists _, _; (split; [done|]); by apply overwritten_ok.
Qed.

(** With a balance factor: the chunks advance while a row of products fits. *)
Lemma cluster_sizes_length k l sizes : length (foldl (count_cluster k) sizes l) = length sizes.
Proof. revert sizes. induction l as [|a l IH]; intros sizes; [done|]. cbn [foldl]. rewrite IH. unfold count_cluster. case_match; [apply length_alter|done]. Qed.
Lemma balanced_row_best_bound k x_norm c_norms products sizes balance : (0 < k)%nat → length c_norms = k → length products = k → length sizes = k →
  ((balanced_row_best ln x_norm c_norms products sizes balance).2 < k)%nat.
Proof.
  intros Hk Hl Hp Hs. unfold balanced_row_best.
  rewrite (imap_ext _ (λ c x, ((if (0 <? x.2)%nat then f32_add (approximate_distance x_norm x.1.1 x.1.2) (f32_mul balance (ln (f32_from_usize x.2)))
    else approximate_distance x_norm x.1.1 x.1.2), c))) by (by intros ? [[]]).
  apply (best_centroid_bound (λ _ (x : Z * Z * nat), if (0 <? x.2)%nat then f32_add (approximate_distance x_norm x.1.1 x.1.2) (f32_mul balance (ln (f32_from_usize x.2)))
    else approximate_distance x_norm x.1.1 x.1.2)); [done|]. rewrite !length_zip. lia.
Qed.
Lemma balanced_block_ok n d k data centroids l balance : matrix n d data → matrix k d centroids → (0 < k)%nat → sizes_fit n d k → Z.of_nat n * Z.of_nat k < 2 ^ 64 → length l = n →
  ∃ obj l', balanced_block arch sgemm ln data n d centroids k l balance = Ok (obj, l') ∧ length l' = n ∧ Forall (λ a, a < k)%nat l'.
Proof.
  intros Hm Hc Hk Hf Hnk Hl. unfold balanced_block.
  rewrite (try_map_pure _ (λ i, fvec_norm_l2sqr arch (slice (i * d) d data)) (seq 0 n)).
  2: { intros i Hi. apply elem_of_seq in Hi. by rewrite (proj1 (matrix_row n d data i Hm ltac:(lia))). }
  cbn [mbind io_result_bind]. rewrite norms_ok by done. cbn [mbind io_result_bind]. rewrite sgemm_a_bt_ok by (apply Hm || apply Hc || done). cbn [mbind io_result_bind].
  set (sizes := foldl _ _ _). assert (length sizes = k) as Hsz by (unfold sizes; by rewrite cluster_sizes_length, length_replicate). clearbody sizes.
  set (x_norms := _ <$> seq 0 n). assert (length x_norms = n) as Hx by (unfold x_norms; by rewrite length_fmap, length_seq). clearbody x_norms.
  set (norms := _ <$> seq 0 k). assert (length norms = k) as Hn by (unfold norms; by rewrite length_fmap, length_seq). clearbody norms.
  match goal with |- context [try_map ?f (imap pair x_norms)] => destruct (try_map_total f (λ _ s, s.2 < k)%nat (imap pair x_norms)) as (rs & -> & Fr) end.
  { intros [j x] Hj. apply elem_of_lookup_imap_1 in Hj as (j' & x' & [= -> ->] & Hj). apply lookup_lt_Some in Hj.
    destruct (products_row data centroids n d k j' ltac:(lia)) as [-> Lp]. eexists. split; [done|]. by apply balanced_row_best_bound. }
  pose proof (Forall2_length _ _ _ Fr) as Lr. rewrite length_imap, Hx in Lr. cbn [mbind io_result_bind]. rewrite (proj2 (Nat.leb_le _ _)) by lia. eexists _, _. split; [done|].
  apply overwritten_ok; [done|done|]. by eapply Forall2_Forall_r, Forall_true; [exact Fr|].
Qed.

Lemma take_splice {A} off (src l : list A) : (off + length src ≤ length l)%nat → take (off + length src) (splice off src l) = take off l ++ src.
Proof.
  intros Hl. unfold splice. rewrite app_assoc. apply take_app_length'. rewrite length_app, length_take. lia.
Qed.
Section Balanced.
Context (n d k : nat) (data centroids : list Z) (balance : Z) (chunk_n : nat).
Context (Hm : matrix n d data) (Hc : matrix k d centroids) (Hk : (0 < k)%nat) (Hf : sizes_fit n d k) (Hck : Z.of_nat chunk_n * Z.of_nat k < 2 ^ 64).

Definition assigned_to (l : list nat) (offset : nat) : Prop := length l = n ∧ (offset ≤ n)%nat ∧ Forall (λ a, a < k)%nat (take offset l).
Lemma balanced_step_ok obj l offset : assigned_to l offset → (offset < n)%nat →
  ∃ obj' l', balanced_step arch sgemm ln data n d centroids k balance chunk_n (obj, l, offset) = Ok (obj', l', offset + (n - offset) `min` chunk_n)%nat ∧
    assigned_to l' (offset + (n - offset) `min` chunk_n).
Proof.
  intros (Hl & Ho & Fl) Hlt. unfold balanced_step. set (cn := ((n - offset) `min` chunk_n)%nat). assert (cn ≤ n - offset ∧ cn ≤ chunk_n)%nat as [H1 H2] by lia. clearbody cn.
  destruct Hm as [Ld Ud]. rewrite (proj2 (get_slice_Some (offset * d) (cn * d) data _)) by (split; [nia|done]).
  rewrite (proj2 (get_slice_Some offset cn l _)) by (split; [lia|done]). cbn [expect mbind io_result_bind].
  destruct (balanced_block_ok cn d k (slice (offset * d) (cn * d) data) centroids (slice offset cn l) balance) as (o & part & -> & Lp & Fp).
  { split; [apply length_slice; nia|by apply Forall_slice]. } { done. } { done. }
  { destruct Hf as (F1 & F2 & F3 & F4). repeat split; [nia|done..]. } { nia. } { apply length_slice. lia. }
  cbn [mbind io_result_bind]. eexists _, _. split; [done|]. split_and!; [rewrite length_splice; lia|lia|]. rewrite <- Lp, take_splice by lia. by apply Forall_app.
Qed.
Lemma balanced_loop_ok fuel obj l offset : (0 < chunk_n)%nat → assigned_to l offset → (n - offset ≤ fuel)%nat →
  ∃ obj' l', balanced_loop arch sgemm ln fuel data n d centroids k balance chunk_n (obj, l, offset) = Ok (obj', l') ∧ length l' = n ∧ Forall (λ a, a < k)%nat l'.
Proof.
  intros Hcn. revert obj l offset. induction fuel as [|fuel IH]; intros obj l offset Ha Hfu; cbn [balanced_loop snd]; destruct (Nat.ltb_spec offset n) as [Hlt|Hge].
  1: lia. 1, 3: exists obj, l; destruct Ha as (Hl & _ & Fl); split_and!; [done|done|]; by rewrite take_ge in Fl by lia.
  destruct (balanced_step_ok obj l offset Ha Hlt) as (o & l' & -> & Ha'). cbn [mbind io_result_bind]. apply IH; [done|lia].
Qed.
End Balanced.
Lemma balanced_serial_ok n d k data centroids l balance : matrix n d data → matrix k d centroids → (0 < k)%nat → sizes_fit n d k → Z.of_nat n * Z.of_nat k < 2 ^ 64 →
  Z.of_nat k <= MAX_MATRIX_ELEMS → length l = n →
  ∃ obj l', assign_clusters_balanced_serial arch sgemm ln data n d centroids k l balance = Ok (obj, l') ∧ length l' = n ∧ Forall (λ a, a < k)%nat l'.
Proof.
  intros Hm Hc Hk Hf Hnk HK Hl. unfold assign_clusters_balanced_serial, checked_matrix_len.
  rewrite (proj2 (checked_mul_Some 64 (Z.of_nat n) (Z.of_nat k) (Z.of_nat n * Z.of_nat k))) by lia. cbn [expect mbind io_result_bind].
  destruct (_ <? _); [|by apply balanced_block_ok]. pose proof (Z.div_le_lower_bound MAX_MATRIX_ELEMS (Z.of_nat k) 1 ltac:(lia) ltac:(lia)).
  pose proof (Z.mul_div_le MAX_MATRIX_ELEMS (Z.of_nat k) ltac:(lia)). apply balanced_loop_ok; try done; [| |by split_and!; [|lia|]|lia].
  - unfold MAX_MATRIX_ELEMS in *. lia.
  - lia.
Qed.

(** Every assignment fills its slice with centroids that exist. *)
Definition balance_fits (n k : nat) (balance : Z) : Prop :=
  f32_gt balance 0 = true → Z.of_nat k <= MAX_MATRIX_ELEMS ∧ Z.of_nat n * Z.of_nat k < 2 ^ 64.
Lemma assign_ok n d k data centroids l balance : matrix n d data → matrix k d centroids → (0 < k)%nat → sizes_fit n d k → balance_fits n k balance → length l = n →
  ∃ obj l', assign_clusters_fast arch sgemm ln threads data n d centroids k l balance = Ok (obj, l') ∧ length l' = n ∧ Forall (λ a, a < k)%nat l'.
Proof.
  intros Hm Hc Hk Hf Hb Hl. destruct (f32_gt balance 0) eqn:E; [|by apply assign_fast_ok]. destruct (Hb E) as [H1 H2].
  unfold assign_clusters_fast. rewrite E. by apply balanced_serial_ok.
Qed.

(** ** Update *)

Lemma max_by_count_bound counts : counts ≠ [] → (max_by_count counts < length counts)%nat.
Proof.
  assert (∀ x l, foldl later_max x l ∈ x :: l) as Hin.
  { intros x l. revert x. induction l as [|y l IH]; intros x; cbn [foldl]; [by left|]. rewrite !elem_of_cons.
    destruct (proj1 (elem_of_cons _ _ _) (IH (later_max x y))) as [->|?]; [|by right; right]. unfold later_max. destruct (_ <=? _)%nat; auto. }
  intros Hne. unfold max_by_count. destruct (imap pair counts) as [|x l] eqn:E; [by destruct counts|]. pose proof (Hin x l) as Hx. rewrite <- E in Hx.
  destruct (foldl later_max x l) as [i c]. apply elem_of_lookup_imap_1 in Hx as (j & y & [= -> ->] & Hy). by apply lookup_lt_Some in Hy.
Qed.
Lemma perturb_ok d up r : row_ok d r → row_ok d (perturb up r).
Proof.
  intros [Hl Hu]. unfold perturb. split; [by rewrite length_imap|]. apply Forall_forall. intros x Hx. apply elem_of_lookup_imap_1 in Hx as (j & y & -> & _). apply f32_mul_u32.
Qed.

Section Update.
Context (n d k : nat) (data : list Z) (Hm : matrix n d data) (Hn : (0 < n)%nat).

Lemma sums_ok l : length l = n → Forall (λ a, a < k)%nat l →
  ∃ counts sums, try_fold (sum_step data d l) (replicate k 0%nat, replicate (k * d) 0) (seq 0 n) = Ok (counts, sums) ∧ length counts = k ∧ matrix k d sums.
Proof.
  intros Hl Fl. destruct (try_fold_keeps (sum_step data d l) (λ st, length st.1 = k ∧ matrix k d st.2) (seq 0 n) (replicate k 0%nat, replicate (k * d) 0)) as ([counts sums] & E & Hc & Hs).
  - split; [apply length_replicate|apply matrix_zero].
  - intros [counts sums] i Hi [Hc Hs]. cbn [fst snd] in *. apply elem_of_seq in Hi. destruct (lookup_lt_is_Some_2 l i ltac:(lia)) as [c Ec].
    pose proof (Forall_lookup_1 _ _ _ _ Fl Ec) as Hck. cbn beta in Hck. destruct (lookup_lt_is_Some_2 counts c ltac:(lia)) as [m Em].
    unfold sum_step. rewrite Ec. cbn [expect mbind io_result_bind]. rewrite Em. cbn [expect mbind io_result_bind]. destruct (matrix_row n d data i Hm) as [-> [Lr Ur]]; [lia|].
    destruct (matrix_row k d sums c Hs Hck) as [-> [Lo Uo]]. cbn [expect mbind io_result_bind].
    destruct (matrix_copy k d sums c (zip_with f32_add (slice (c * d) d sums) (slice (i * d) d data)) Hs Hck) as (sums' & -> & Hs').
    { split; [rewrite length_zip_with; lia|]. by apply add_lanes_u32. }
    eexists. split; [done|]. cbn [fst snd]. by rewrite length_insert.
  - by exists counts, sums.
Qed.
Lemma means_ok counts sums centroids : length counts = k → matrix k d sums → matrix k d centroids →
  ∃ c', try_fold (mean_step d counts sums) centroids (seq 0 k) = Ok c' ∧ matrix k d c'.
Proof.
  intros Hc Hs Hcs. apply try_fold_keeps; [done|]. intros cs c Hi Hk. apply elem_of_seq in Hi. unfold mean_step.
  destruct (lookup_lt_is_Some_2 counts c ltac:(lia)) as [m Em]. rewrite Em. cbn [expect mbind io_result_bind]. destruct (0 <? m)%nat; [|by exists cs].
  destruct (matrix_row k d sums c Hs) as [-> [Lr _]]; [lia|]. cbn [expect mbind io_result_bind]. apply matrix_copy; [done|lia|].
  split; [by rewrite length_fmap|]. apply Forall_fmap, Forall_true. intros x. apply f32_mul_u32.
Qed.
Lemma refill_ok centroids counts (rng : R) : length counts = k → matrix k d centroids →
  ∃ c' counts' rng', try_fold (refill_step data n d) (centroids, counts, rng) (seq 0 k) = Ok (c', counts', rng') ∧ matrix k d c'.
Proof.
  intros Hc Hcs. destruct (try_fold_keeps (refill_step data n d) (λ st, matrix k d st.1.1 ∧ length st.1.2 = k) (seq 0 k) (centroids, counts, rng)) as ([[c' k'] r'] & E & H' & _);
    [done| |by exists c', k', r'].
  clear dependent counts centroids. intros [[cs counts] r] c Hi [Hcs Hc]. cbn [fst snd] in *. apply elem_of_seq in Hi. unfold refill_step.
  destruct (lookup_lt_is_Some_2 counts c ltac:(lia)) as [m Em]. rewrite Em. cbn [expect mbind io_result_bind]. destruct (0 <? m)%nat; [by eexists|].
  pose proof (max_by_count_bound counts) as Hd. assert (counts ≠ []) as Hne by (intros ->; done). specialize (Hd Hne). destruct (lookup_lt_is_Some_2 counts _ Hd) as [dm Edm]. rewrite Edm.
  cbn [expect mbind io_result_bind]. rewrite Hc in Hd. destruct (dm <=? 1)%nat.
  - rewrite (proj2 (Nat.ltb_lt _ _)) by done. pose proof (gen_range_bounds 0 n r Hn) as Hg. destruct (gen_range 0 n r) as [i r']. cbn [fst] in Hg.
    destruct (matrix_row n d data i Hm) as [-> Hr]; [lia|]. cbn [expect mbind io_result_bind]. destruct (matrix_copy k d cs c _ Hcs ltac:(lia) Hr) as (cs' & -> & Hcs'). by eexists.
  - destruct (matrix_row k d cs _ Hcs Hd) as [-> Hr]. cbn [expect mbind io_result_bind].
    destruct (matrix_copy k d cs c _ Hcs ltac:(lia) (perturb_ok d true _ Hr)) as (cs' & -> & Hcs'). cbn [expect mbind io_result_bind].
    destruct (matrix_copy k d cs' _ _ Hcs' Hd (perturb_ok d false _ Hr)) as (cs2 & -> & Hcs2). eexists. split; [done|]. cbn [fst snd]. by rewrite !length_insert.
Qed.
Lemma update_ok centroids l (rng : R) : matrix k d centroids → length l = n → Forall (λ a, a < k)%nat l →
  ∃ c' rng', update_centroids data n d centroids k l rng = Ok (c', rng') ∧ matrix k d c'.
Proof.
  intros Hcs Hl Fl. unfold update_centroids. destruct (sums_ok l Hl Fl) as (counts & sums & -> & Hc & Hs). cbn [mbind io_result_bind].
  destruct (means_ok counts sums centroids Hc Hs Hcs) as (c1 & -> & H1). cbn [mbind io_result_bind]. destruct (refill_ok c1 counts rng Hc H1) as (c2 & k2 & r2 & -> & H2).
  by exists c2, r2.
Qed.
End Update.

(** ** Training *)

Lemma lloyd_ok n d k data balance : matrix n d data → (0 < n)%nat → (0 < k)%nat → sizes_fit n d k → balance_fits n k balance →
  ∀ iters centroids l prev (rng : R), matrix k d centroids → length l = n →
  ∃ c' obj rng', lloyd arch sgemm ln threads iters data n d k balance centroids l prev rng = Ok (c', obj, rng') ∧ matrix k d c'.
Proof.
  intros Hm Hn Hk Hf Hb. induction iters as [|iters IH]; intros centroids l prev rng Hc Hl; cbn [lloyd]; [by exists centroids, prev, rng|].
  destruct (assign_ok n d k data centroids l balance Hm Hc Hk Hf Hb Hl) as (obj & l' & -> & Hl' & Fl). cbn [mbind io_result_bind].
  destruct (update_ok n d k data Hm Hn centroids l' rng Hc Hl' Fl) as (c' & rng' & -> & Hc'). cbn [mbind io_result_bind].
  destruct (converged _ _); [by exists c', prev, rng'|by apply IH].
Qed.

Record config_ok (config : KMeansConfig) (k : nat) : Prop := {
  co_points : 1 <= max_points_per_centroid config;
  co_sample : Z.of_nat k * max_points_per_centroid config < 2 ^ 64 }.
Lemma sizes_fit_le n n' d k : sizes_fit n d k → (n' ≤ n)%nat → sizes_fit n' d k.
Proof. intros (H1 & H2 & H3 & H4) Hle. repeat split; [nia|done..]. Qed.
Lemma balance_fits_le n n' k balance : balance_fits n k balance → (n' ≤ n)%nat → balance_fits n' k balance.
Proof. intros Hb Hle E. destruct (Hb E). split; [done|nia]. Qed.

Lemma data_shape_ok n d k data : matrix n d data → sizes_fit n d k → assert_data_shape data n d = Ok () ∧ checked_matrix_len k d = Ok (Z.of_nat k * Z.of_nat d).
Proof.
  intros [Hl _] (H1 & H2 & _). unfold assert_data_shape, checked_matrix_len.
  rewrite (proj2 (checked_mul_Some 64 (Z.of_nat n) (Z.of_nat d) (Z.of_nat n * Z.of_nat d))) by lia.
  rewrite (proj2 (checked_mul_Some 64 (Z.of_nat k) (Z.of_nat d) (Z.of_nat k * Z.of_nat d))) by lia. cbn [expect mbind io_result_bind].
  unfold zlen. rewrite Hl, Nat2Z.inj_mul, Z.eqb_refl. done.
Qed.
Lemma train_with_init_ok config data n d k init : matrix n d data → config_ok config k → sizes_fit n d k → balance_fits n k (balance_factor config) →
  match init with Some cs => matrix k d cs | None => True end →
  ∃ cs, kmeans_train_with_init gen_f32 arch sgemm ln threads config data n d k init = Ok cs ∧ matrix k d cs.
Proof.
  intros Hm [C1 C2] Hf Hb Hi. unfold kmeans_train_with_init. destruct (data_shape_ok n d k data Hm Hf) as [-> ->]. cbn [mbind io_result_bind].
  assert (match init with Some i => if zlen i =? Z.of_nat k * Z.of_nat d then Ok () else Panic | None => Ok () end = Ok ()) as ->.
  { destruct init as [cs|]; [|done]. unfold zlen. destruct Hi as [-> _]. by rewrite Nat2Z.inj_mul, Z.eqb_refl. }
  cbn [mbind io_result_bind]. destruct (_ || _) eqn:E0; [eexists; split; [done|apply matrix_zero]|]. apply orb_false_elim in E0 as [En Ek].
  apply Nat.eqb_neq in En, Ek. destruct (training_sample_ok config data n d k (seed_from_u64 (km_seed config)) Hm ltac:(lia) ltac:(lia) C1 C2) as (td & tn & rng & -> & Ht & Hn & _ & _).
  cbn [mbind io_result_bind]. destruct (Nat.leb_spec tn k) as [Hle|Hgt].
  - rewrite (proj2 (Nat.eqb_neq tn 0)) by lia. rewrite (try_map_pure _ (λ i, slice (i mod tn * d) d td) (seq 0 k)).
    2: { intros i _. by rewrite (proj1 (matrix_row tn d td (i mod tn) Ht ltac:(apply Nat.mod_upper_bound; lia))). }
    eexists. split; [done|]. pose proof (matrix_concat d ((λ i, slice (i mod tn * d) d td) <$> seq 0 k)) as Hx. rewrite length_fmap, length_seq in Hx.
    apply Hx, Forall_fmap, Forall_true.
    intros i. apply (matrix_row tn d td); [done|]. apply Nat.mod_upper_bound. lia.
  - match goal with |- context [try_fold ?f ?s ?l] => destruct (try_fold_keeps f (λ st, matrix k d st.1.1) l s) as ([[best o] r] & -> & Hbest) end; [apply matrix_zero| |by exists best].
    intros [[best bo] r] redo _ Hbest. cbn [fst] in Hbest. unfold redo_step.
    assert (∃ cs r', match redo, init with O, Some i => Ok (i, r) | _, _ => kmeans_plusplus_init gen_f32 arch td tn d k r end = Ok (cs, r') ∧ matrix k d cs) as (cs & r' & -> & Hcs).
    { destruct (plusplus_ok td tn d k r Ht ltac:(lia) ltac:(lia)) as (cs & r' & Ep & Hcs). destruct redo, init; [by eexists _, _|by eexists _, _..]. }
    cbn [mbind io_result_bind]. destruct (lloyd_ok tn d k td (balance_factor config) Ht ltac:(lia) ltac:(lia)) with (iters := niter config) (centroids := cs) (l := replicate tn 0%nat)
      (prev := F32_MAX) (rng := r') as (c2 & o2 & r2 & -> & H2); [eapply sizes_fit_le; [done|lia]|eapply balance_fits_le; [done|lia]|done|apply length_replicate|].
    eexists. split; [done|]. by destruct (f32_lt o2 bo).
Qed.

(** *** Splitting clusters *)

Lemma members_ok l c : (∀ i, i ∈ members l c → (i < length l)%nat) ∧ (length (members l c) ≤ length l)%nat.
Proof.
  unfold members. split; [intros i Hi; apply list_elem_of_filter in Hi as [_ Hi]; apply elem_of_seq in Hi; lia|].
  etransitivity; [apply length_filter|]. by rewrite length_seq.
Qed.

Section Hierarchy.
Context (pop : list Cluster → option (Cluster * list Cluster)) (Hpop : heap_pop pop).
Context (config : KMeansConfig) (n d k : nat) (data : list Z) (Hm : matrix n d data) (Hco : config_ok config k) (Hf : sizes_fit n d k) (Hk2 : (2 ≤ k)%nat).
Context (Hseed : km_seed config + Z.of_nat k < 2 ^ 64).

Definition cluster_ok (c : Cluster) : Prop := row_ok d (c_centroid c) ∧ Forall (λ i, i < n)%nat (c_indices c) ∧ (length (c_indices c) ≤ n)%nat.

Lemma child_ok c sub_centroids l sc : cluster_ok c → matrix 2 d sub_centroids → length l = length (c_indices c) → (sc < 2)%nat →
  ∃ o, child (c_indices c) sub_centroids d l sc = Ok o ∧ match o with Some c' => cluster_ok c' | None => True end.
Proof.
  intros (Hr & Fi & Li) Hs Hl Hsc. unfold child. destruct (members_ok l sc) as [Hin Hlen]. rewrite Forall_forall in Fi.
  destruct (try_map_total (λ i, expect (c_indices c !! i)) (λ _ x, x < n)%nat (members l sc)) as (sub & -> & F2).
  { intros i Hi. destruct (lookup_lt_is_Some_2 (c_indices c) i) as [x Ex]; [rewrite <- Hl; by apply Hin|]. exists x. rewrite Ex. split; [done|]. apply Fi. by eapply list_elem_of_lookup_2. }
  cbn [mbind io_result_bind]. destruct sub as [|x sub]; [by exists None|]. unfold centroid_at. destruct (matrix_row 2 d sub_centroids sc Hs Hsc) as [-> Hr'].
  eexists. split; [done|]. pose proof (Forall2_length _ _ _ F2) as Lf. split; [done|]. split; [by eapply Forall2_Forall_r, Forall_true; [exact F2|]|cbn [c_indices]; lia].
Qed.
Lemma split_cluster_ok c finalized : cluster_ok c → (finalized < k)%nat →
  ∃ children, split_cluster gen_f32 arch sgemm ln threads config data d finalized c = Ok children ∧ Forall cluster_ok children ∧ (length children ≤ 2)%nat.
Proof.
  intros Hc Hfin. pose proof Hc as (Hr & Fi & Li). unfold split_cluster. destruct (gather_rows n d data (c_indices c) Hm Fi) as (rows & -> & Hsub & _). cbn [mbind io_result_bind].
  rewrite (proj2 (checked_add_Some 64 (km_seed config) (Z.of_nat finalized) (km_seed config + Z.of_nat finalized))) by lia. cbn [expect mbind io_result_bind].
  assert (sizes_fit (length (c_indices c)) d 2) as Hf2 by (destruct Hf as (H1 & H2 & H3 & H4); split; [nia|split; [nia|split; [done|done]]]).
  assert (∀ m, balance_fits m 2 0) as Hb by (intros m Hb; by vm_compute in Hb).
  destruct (train_with_init_ok (KMeans 10 (nredo kmeans_default) (max_points_per_centroid config) (km_seed config + Z.of_nat finalized) (balance_factor kmeans_default))
    (concat rows) (length (c_indices c)) d 2 None Hsub) as (sc & -> & Hsc); [|done|apply Hb|done|].
  { destruct Hco as [C1 C2]. split; cbn [max_points_per_centroid]; [done|nia]. }
  cbn [mbind io_result_bind]. destruct (assign_ok (length (c_indices c)) d 2 (concat rows) sc (replicate (length (c_indices c)) 0%nat) 0 Hsub Hsc ltac:(lia) Hf2 (Hb _))
    as (obj & l & -> & Hl & _); [apply length_replicate|]. cbn [mbind io_result_bind seq try_map].
  destruct (child_ok c sc l 0) as (o1 & -> & H1); [done|done|done|lia|]. destruct (child_ok c sc l 1) as (o2 & -> & H2); [done|done|done|lia|]. cbn [mbind io_result_bind].
  eexists. split; [done|]. destruct o1, o2; cbn; (split; [rewrite ?Forall_cons, Forall_nil; by auto|lia]).
Qed.

Lemma split_loop_ok fuel : ∀ finalized heap, Forall (row_ok d) finalized → Forall cluster_ok heap → (0 < length finalized + length heap ≤ k)%nat →
  (2 * (k - (length finalized + length heap)) + length heap ≤ fuel)%nat →
  ∃ finalized' heap', split_loop gen_f32 arch sgemm ln threads pop fuel config data d k finalized heap = Ok (finalized', heap') ∧
    Forall (row_ok d) finalized' ∧ Forall cluster_ok heap' ∧ (0 < length finalized' + length heap' ≤ k)%nat ∧ (heap' = [] ∨ length finalized' + length heap' = k)%nat.
Proof.
  induction fuel as [|fuel IH]; intros fin heap Ff Fh Hle Hfu; cbn [split_loop]; destruct (Nat.ltb_spec (length fin + length heap) k) as [Hlt|Hge].
  1: lia. 1, 3: exists fin, heap; split_and!; [done|done|done|lia|lia|right; lia].
  destruct (decide (heap = [])) as [->|Hne]; [rewrite (hp_empty pop Hpop); exists fin, []; split_and!; [done|done|done|lia|lia|by left]|].
  destruct (hp_largest pop Hpop heap Hne) as (c & rest & -> & Ep & _). rewrite Ep in Fh. inversion Fh as [|? ? Hc Fr]; subst. pose proof (Permutation_length Ep) as Lp. cbn [length] in Lp.
  assert (∃ finalized' heap', split_loop gen_f32 arch sgemm ln threads pop fuel config data d k (fin ++ [c_centroid c]) rest = Ok (finalized', heap') ∧
    Forall (row_ok d) finalized' ∧ Forall cluster_ok heap' ∧ (0 < length finalized' + length heap' ≤ k)%nat ∧ (heap' = [] ∨ length finalized' + length heap' = k)%nat) as Hfin.
  { apply IH; [apply Forall_app; split; [done|]; constructor; [apply Hc|done]|done|rewrite length_app; cbn [length]; lia..]. }
  destruct (length (c_indices c) <? 4)%nat; [done|]. destruct (split_cluster_ok c (length fin) Hc) as (children & -> & Fc & Lc); [lia|]. cbn [mbind io_result_bind].
  destruct (Nat.ltb_spec (length children) 2) as [_|H2]; [done|]. apply IH; [done|by apply Forall_app|rewrite length_app; lia..].
Qed.

Lemma drain_ok fuel : ∀ len rows heap, Forall (row_ok d) rows → Forall cluster_ok heap → (length heap ≤ fuel)%nat →
  ∃ rows', drain pop fuel len (concat rows) heap = concat rows' ∧ Forall (row_ok d) rows' ∧ (0 < length rows + length heap → 0 < length rows')%nat.
Proof.
  induction fuel as [|fuel IH]; intros len rows heap Fr Fh Hfu; cbn [drain].
  { destruct heap; [|cbn in Hfu; lia]. exists rows. split_and!; [done|done|cbn; lia]. }
  destruct (decide (heap = [])) as [->|Hne]; [rewrite (hp_empty pop Hpop); exists rows; split_and!; [done|done|cbn; lia]|].
  destruct (hp_largest pop Hpop heap Hne) as (c & rest & -> & Ep & _). rewrite Ep in Fh. inversion Fh as [|? ? Hc Fr']; subst. pose proof (Permutation_length Ep) as Lp. cbn [length] in Lp.
  assert (concat rows ++ c_centroid c = concat (rows ++ [c_centroid c])) as -> by (rewrite concat_app; cbn [concat]; by rewrite app_nil_r).
  assert (Forall (row_ok d) (rows ++ [c_centroid c])) as F' by (apply Forall_app; split; [done|]; constructor; [apply Hc|done]).
  destruct (_ <=? _)%nat; [exists (rows ++ [c_centroid c]); split_and!; [done|done|rewrite length_app; cbn; lia]|].
  destruct (IH len (rows ++ [c_centroid c]) rest F' Fr' ltac:(lia)) as (rows' & E & Fx & Hx). exists rows'. split_and!; [done|done|]. intros _. apply Hx. rewrite length_app. cbn. lia.
Qed.

(** Padding repeats rows, so nothing is left for [resize] to fill. *)
Lemma pad_ok rows : Forall (row_ok d) rows → (0 < length rows)%nat → ∃ result, pad_result d k (concat rows) = Ok result ∧ Forall u32 result ∧ (k * d ≤ length result)%nat.
Proof.
  intros Fr Hne. destruct (matrix_concat d rows Fr) as [Lr Ur]. unfold pad_result. destruct (Nat.ltb_spec (length (concat rows)) (k * d)) as [Hlt|Hge]; cbn [andb].
  2: by exists (concat rows). rewrite Lr in *. rewrite (proj2 (Nat.ltb_lt _ _)) by nia. rewrite Nat.div_mul by nia. rewrite (proj2 (Nat.eqb_neq _ _)) by lia.
  assert (∀ todo start, ∀ result, (length rows * d ≤ length result)%nat → Forall u32 result →
    ∃ r', try_fold (pad_step d (length rows)) result (seq start todo) = Ok r' ∧ Forall u32 r' ∧ length r' = (length result + todo * d)%nat) as Hpad.
  { induction todo as [|todo IH]; intros start result Hl Hu; [exists result; split_and!; [done|done|lia]|]. cbn [seq try_fold]. unfold pad_step at 2.
    pose proof (Nat.mod_upper_bound start (length rows) ltac:(lia)). rewrite (proj2 (get_slice_Some _ d result _)) by (split; [nia|done]). cbn [expect mbind io_result_bind].
    destruct (IH (S start) (result ++ slice (start mod length rows * d) d result)) as (r' & E & Fu & El); [rewrite length_app; lia|by apply Forall_app; split; [|apply Forall_slice]|].
    exists r'. split_and!; [done|done|]. rewrite El, length_app, length_slice by nia. lia. }
  destruct (Hpad (k - length rows)%nat (length rows) (concat rows)) as (r' & E & Fu & El); [lia|done|]. exists r'. split_and!; [done|done|]. rewrite El, Lr. nia.
Qed.
End Hierarchy.

Lemma hierarchical_ok pop config data n d k : heap_pop pop → matrix n d data → config_ok config k → sizes_fit n d k → (16 ≤ k < n)%nat → km_seed config + Z.of_nat k < 2 ^ 64 →
  ∃ cs, kmeans_train_hierarchical gen_f32 arch sgemm ln threads pop config data n d k = Ok cs ∧ matrix k d cs.
Proof.
  intros Hpop Hm Hco Hf Hk Hseed. destruct Hco as [C1 C2]. unfold kmeans_train_hierarchical.
  destruct (training_sample_ok config data n d k (seed_from_u64 (km_seed config)) Hm ltac:(lia) ltac:(lia) C1 C2) as (td & tn & rng & -> & Ht & Hn & _ & Htk).
  cbn [mbind io_result_bind]. assert (16 `min` k = 16)%nat as -> by lia. pose proof (sizes_fit_le n tn d k Hf ltac:(lia)) as Hft.
  assert (sizes_fit tn d 16) as Hf16 by (destruct Hft as (H1 & H2 & H3 & H4); split; [nia|split; [nia|split; [done|done]]]).
  assert (balance_fits tn 16 0) as Hb by (intros E; by vm_compute in E).
  match goal with |- context [kmeans_train_with_init _ _ _ _ _ ?c td tn d 16 None] => destruct (train_with_init_ok c td tn d 16 None Ht) as (cs & -> & Hcs) end;
    [split; cbn [max_points_per_centroid]; [done|nia]|done|done|done|]. cbn [mbind io_result_bind].
  destruct (assign_ok tn d 16 td cs (replicate tn 0%nat) 0 Ht Hcs ltac:(lia) Hf16 Hb) as (obj & l & -> & Hl & _); [apply length_replicate|]. cbn [mbind io_result_bind].
  destruct (try_map_total (initial_cluster cs d l) (λ _ c, cluster_ok tn d c) (seq 0 16)) as (heap & -> & Fh).
  { intros c Hc. apply elem_of_seq in Hc. unfold initial_cluster, centroid_at. destruct (matrix_row 16 d cs c Hcs) as [-> Hr]; [lia|]. eexists. split; [done|].
    destruct (members_ok l c) as [M1 M2]. split; [done|]. cbn [c_indices]. split; [|lia]. apply Forall_forall. intros i Hi%M1. lia. }
  cbn [mbind io_result_bind]. pose proof (Forall2_length _ _ _ Fh) as Lh. rewrite length_seq in Lh.
  assert (Forall (cluster_ok tn d) heap) as Fh' by (by eapply Forall2_Forall_r, Forall_true; [exact Fh|]).
  destruct (split_loop_ok pop Hpop config tn d k td Ht (Build_config_ok _ _ C1 C2) Hft ltac:(lia) Hseed (2 * k) [] heap) as (fin & heap' & -> & Ff & Fh2 & Hpos & _);
    [constructor|done|cbn [length]; lia|cbn [length]; lia|]. cbn [mbind io_result_bind].
  destruct (drain_ok pop Hpop tn d k ltac:(lia) (length heap') (k * d)%nat fin heap' Ff Fh2 ltac:(lia)) as (rows & -> & Fr & Hr).
  destruct (pad_ok d k ltac:(lia) rows Fr (Hr ltac:(lia))) as (result & -> & Fu & El). cbn [mbind io_result_bind]. eexists. split; [done|].
  split; [by rewrite length_resize|]. rewrite resize_le by done. by apply Forall_take.
Qed.
Lemma kmeans_train_ok pop config data n d k : heap_pop pop → matrix n d data → config_ok config k → sizes_fit n d k → balance_fits n k (balance_factor config) → km_seed config + Z.of_nat k < 2 ^ 64 →
  ∃ cs, kmeans_train gen_f32 arch sgemm ln threads pop config data n d k = Ok cs ∧ matrix k d cs.
Proof.
  intros Hpop Hm Hco Hf Hb Hseed. unfold kmeans_train, HIERARCHICAL_THRESHOLD. destruct (data_shape_ok n d k data Hm Hf) as [-> ->]. cbn [mbind io_result_bind].
  destruct (_ && _) eqn:E; [|by apply train_with_init_ok]. apply andb_true_iff in E as [E1%Nat.ltb_lt E2%Nat.ltb_lt]. apply hierarchical_ok; try done; lia.
Qed.
End Total.


(** A heap that offers the first of the largest clusters. *)
Fixpoint take_largest (heap : list Cluster) : option (Cluster * list Cluster) :=
  match heap with
  | [] => None
  | c :: rest =>
      match take_largest rest with
      | None => Some (c, [])
      | Some (m, others) => if (length (c_indices m) <=? length (c_indices c))%nat then Some (c, rest) else Some (m, c :: others)
      end
  end.
Lemma take_largest_pops : heap_pop take_largest.
Proof.
  split; [done|]. intros heap. induction heap as [|c rest IH]; [done|]. intros _. cbn [take_largest]. destruct rest as [|c' rest].
  { exists c, []. split_and!; [done|done|]. intros x Hx%list_elem_of_singleton. by subst. }
  destruct IH as (m & others & -> & Ep & Hmax); [done|]. destruct (Nat.leb_spec (length (c_indices m)) (length (c_indices c))) as [Hle|Hgt].
  - eexists _, _. split_and!; [done|done|]. intros x [->|Hx]%elem_of_cons; [done|]. etransitivity; [by apply Hmax|done].
  - eexists _, _. split_and!; [done|rewrite Ep; constructor|]. intros x [->|Hx]%elem_of_cons; [lia|by apply Hmax].
Qed.
Definition demo_gen_f32 (r : Z) : Z * Z := (0x3f000000, r + 1).
Definition demo_train_config : KMeansConfig := KMeans 3 1 256 7 0.
