(* ===== verification/KmeansBlocks.v ===== *)
(** The assignment does not depend on the thread pool: [assign_clusters_fast]
    returns the same assignments and the same objective, bit for bit, for every
    number of threads and hence for every choice of row blocks.

    The rows of a block are scored independently as long as the matrix product
    computes its rows independently ([sgemm_rowwise]); the objective is summed in
    runs of [max_block_rows] whichever way it was collected. *)

From S2P Require Import Prelude F32 F64 F32Arith DiskannHeader Distance KmeansSearch Range CompactAdjacency VamanaBuild KmeansTrain KmeansTotal.

(** ** Rows *)

Definition rows_of (d n : nat) (l : list Z) : list (list Z) := (λ i, slice (i * d) d l) <$> seq 0 n.

Lemma rows_of_S d n l : rows_of d (S n) l = take d l :: rows_of d n (drop d l).
Proof.
  unfold rows_of. cbn [seq fmap list_fmap]. f_equal. rewrite <- fmap_S_seq, <- list_fmap_compose. apply list_fmap_ext. intros i x _. unfold slice, compose. by rewrite drop_drop.
Qed.
Lemma rows_of_split d m n l : rows_of d (m + n) l = rows_of d m l ++ rows_of d n (drop (m * d) l).
Proof.
  revert l. induction m as [|m IH]; intros l; [done|]. cbn [Nat.add]. rewrite !rows_of_S, IH. cbn [app]. by rewrite drop_drop.
Qed.
Lemma rows_of_take d n l : rows_of d n (take (n * d) l) = rows_of d n l.
Proof.
  revert l. induction n as [|n IH]; intros l; [done|]. rewrite !rows_of_S. rewrite <- (IH (drop d l)). f_equal.
  - rewrite take_take. f_equal. lia.
  - f_equal. cbn [Nat.mul]. by rewrite <- take_drop_commute.
Qed.

(** The blocks of the data, scored, are the blocks of the scores. *)
Lemma scored_chunks {A} (f : list Z → A) rows d : (0 < rows)%nat → (0 < d)%nat → ∀ fuel1 fuel2 n (data : list Z) (l : list nat),
  length data = (n * d)%nat → length l = n → (length data ≤ fuel1)%nat → (length l ≤ fuel2)%nat →
  (λ p, f <$> rows_of d (length p.2) p.1) <$> zip (chunks_fuel fuel1 (rows * d) data) (chunks_fuel fuel2 rows l) = chunks_fuel fuel2 rows (f <$> rows_of d n data).
Proof.
  intros Hr Hd. induction fuel1 as [|fuel1 IH]; intros fuel2 n data l Hl1 Hl2 Hf1 Hf2.
  { destruct data; [|cbn in Hf1; lia]. destruct n; [|cbn in Hl1; nia]. destruct l; [|done]. by destruct fuel2. }
  destruct n as [|n]. { destruct data; [|cbn in Hl1; lia]. destruct l; [|done]. by destruct fuel2. }
  destruct data as [|x data]; [cbn in Hl1; lia|]. destruct l as [|y l]; [done|]. destruct fuel2 as [|fuel2]; [cbn in Hf2; lia|]. set (D := x :: data) in *. set (L := y :: l) in *.
  change (chunks_fuel (S fuel1) (rows * d) D) with (take (rows * d) D :: chunks_fuel fuel1 (rows * d) (drop (rows * d) D)).
  change (chunks_fuel (S fuel2) rows L) with (take rows L :: chunks_fuel fuel2 rows (drop rows L)). cbn [zip_with]. rewrite fmap_cons. cbn [fst snd].
  rewrite (IH fuel2 (S n - rows)%nat (drop (rows * d) D) (drop rows L)) by (rewrite ?length_drop; nia).
  set (T := f <$> rows_of d (S n) D). assert (T = (f <$> rows_of d (length (take rows L)) (take (rows * d) D)) ++ (f <$> rows_of d (S n - rows) (drop (rows * d) D))) as ES.
  { unfold T. rewrite <- fmap_app. f_equal. rewrite length_take, Hl2. destruct (le_lt_dec rows (S n)) as [Hle|Hgt].
    - replace (S n) with (rows + (S n - rows))%nat at 1 by lia. rewrite rows_of_split. rewrite Nat.min_l by lia. by rewrite rows_of_take.
    - rewrite Nat.min_r by lia. replace (S n - rows)%nat with 0%nat by lia. rewrite app_nil_r, take_ge by nia. done. }
  assert (length (f <$> rows_of d (length (take rows L)) (take (rows * d) D)) = length (take rows L)) as EL by (unfold rows_of; by rewrite !length_fmap, length_seq).
  assert (length T = length L) as LS by (unfold T, rows_of; rewrite !length_fmap, length_seq; done).
  clearbody T. destruct T as [|s T'] eqn:E; [done|]. cbn [chunks_fuel]. rewrite ES. f_equal.
  - destruct (le_lt_dec rows (length L)) as [Hle|Hgt].
    + rewrite take_app_length'; [done|]. rewrite EL, length_take. lia.
    + assert (f <$> rows_of d (S n - rows) (drop (rows * d) D) = []) as -> by (by replace (S n - rows)%nat with 0%nat by lia). rewrite app_nil_r. symmetry. apply take_ge. rewrite EL, length_take. lia.
  - f_equal. destruct (le_lt_dec rows (length L)) as [Hle|Hgt].
    + rewrite drop_app_length'; [done|]. rewrite EL, length_take. lia.
    + assert (f <$> rows_of d (S n - rows) (drop (rows * d) D) = []) as -> by (by replace (S n - rows)%nat with 0%nat by lia). rewrite app_nil_r. symmetry. apply drop_ge. rewrite EL, length_take. lia.
Qed.
Lemma chunks_fuel_concat {A} fuel w (l : list A) : (0 < w)%nat → (length l ≤ fuel)%nat → concat (chunks_fuel fuel w l) = l.
Proof.
  intros Hw. revert l. induction fuel as [|fuel IH]; intros l Hl; [by destruct l; [|cbn in Hl; lia]|]. destruct l as [|x l]; [done|]. set (L := x :: l) in *.
  change (chunks_fuel (S fuel) w L) with (take w L :: chunks_fuel fuel w (drop w L)). cbn [concat]. rewrite IH by (rewrite length_drop; cbn in *; lia). apply take_drop.
Qed.
Lemma chunks_fuel_fmap {A B} (f : A → B) fuel w l : chunks_fuel fuel w (f <$> l) = fmap (M:=list) f <$> chunks_fuel fuel w l.
Proof.
  revert l. induction fuel as [|fuel IH]; intros l; [done|]. destruct l as [|x l]; [done|]. rewrite fmap_cons. cbn [chunks_fuel]. rewrite <- fmap_cons, <- fmap_take, <- fmap_drop, IH. done.
Qed.

(** ** Sums *)

(** A result of a sum or difference: a bit pattern, and the canonical NaN. *)
Definition canonical (x : Z) : Prop := u32 x ∧ (f32_is_nan x = true → x = F32_NAN_BITS).

Lemma f32_add_canonical a b : u32 a → u32 b → canonical (f32_add a b).
Proof.
  intros Ha Hb. split; [by apply f32_add_u32|]. unfold f32_add. destruct (f32_is_nan a || f32_is_nan b) eqn:En; [done|]. apply orb_false_elim in En as [Na Nb].
  repeat case_match; try done; try congruence; try (by rewrite (proj1 (with_sign_not_nan _ 0 ltac:(done)))).
  pose proof (round_mag_bounds (Z.abs (f32_int a + f32_int b)) 1 ltac:(lia) ltac:(lia)) as Hr. by rewrite (proj1 (with_sign_not_nan _ _ Hr)).
Qed.
Lemma with_sign_fields x : u32 x → with_sign (f32_neg x) (f32_mag x) = x.
Proof.
  intros Hx. unfold with_sign, f32_neg, f32_mag, F32_SIGN. unfold u32, u_ok in Hx. destruct (Z.leb_spec (2 ^ 31) x) as [Hge|Hlt].
  - rewrite <- (Z_mod_plus_full x (-1)), Z.mod_small; lia.
  - apply Z.mod_small. lia.
Qed.
(** [-0.0] is neutral. *)
Lemma f32_add_neg_zero x : canonical x → f32_add SUM_ZERO x = x.
Proof.
  intros [Hu Hn]. unfold f32_add. assert (f32_is_nan SUM_ZERO = false) as -> by by vm_compute. cbn [orb]. destruct (f32_is_nan x) eqn:En; [by rewrite Hn|].
  assert (f32_is_infinite SUM_ZERO = false) as -> by by vm_compute. destruct (f32_is_infinite x) eqn:Ei; [done|].
  assert (f32_int SUM_ZERO = 0) as -> by by vm_compute. assert (f32_neg SUM_ZERO = true) as -> by by vm_compute. rewrite Z.add_0_l. cbn [andb].
  pose proof (f32_mag_bounds x) as Hm. assert (f32_mag x <= F32_INF_BITS) as Hmi by (unfold f32_is_nan in En; lia).
  pose proof (f32_units_pos (f32_mag x) ltac:(lia)) as Hp. pose proof (f32_units_zero (f32_mag x) ltac:(lia)) as Hz. transitivity (with_sign (f32_neg x) (f32_mag x)); [|by apply with_sign_fields]. unfold f32_int.
  destruct (Z.eqb_spec (f32_units (f32_mag x)) 0) as [E0|E0].
  - rewrite (proj1 Hz E0). by destruct (f32_neg x).
  - assert (round_mag (f32_units (f32_mag x)) 1 = f32_mag x) as Er by (apply round_mag_units; lia).
    destruct (f32_neg x).
    + rewrite (proj2 (Z.eqb_neq _ _)), (proj2 (Z.ltb_lt _ _)) by lia. by rewrite Z.abs_opp, Z.abs_eq, Er.
    + rewrite (proj2 (Z.eqb_neq _ _)), (proj2 (Z.ltb_ge _ _)) by lia. by rewrite Z.abs_eq, Er.
Qed.
(** Both zeros act alike on what is not [-0.0]. *)
Definition not_neg_zero (x : Z) : Prop := f32_int x = 0 → f32_neg x = false.
Lemma f32_add_zeros x : not_neg_zero x → f32_add 0 x = f32_add SUM_ZERO x.
Proof.
  intros Hx. unfold f32_add. assert (f32_is_nan SUM_ZERO = false ∧ f32_is_nan 0 = false ∧ f32_is_infinite SUM_ZERO = false ∧ f32_is_infinite 0 = false) as (-> & -> & -> & ->) by (by vm_compute).
  cbn [orb]. destruct (f32_is_nan x); [done|]. destruct (f32_is_infinite x); [done|].
  assert (f32_int SUM_ZERO = 0 ∧ f32_int 0 = 0) as [-> ->] by (by vm_compute). rewrite Z.add_0_l. destruct (Z.eqb_spec (f32_int x) 0) as [E|]; [|done].
  rewrite (Hx E), !andb_false_r. done.
Qed.
Lemma sum_from_zero x l : not_neg_zero x → foldl f32_add 0 (x :: l) = f32_sum (x :: l).
Proof. intros Hx. unfold f32_sum. cbn [foldl]. by rewrite f32_add_zeros. Qed.
Lemma sum_canonical x l : u32 x → Forall u32 l → canonical (f32_sum (x :: l)).
Proof.
  intros Hx Hl. unfold f32_sum. cbn [foldl]. assert (canonical (f32_add SUM_ZERO x)) as Hc by (by apply f32_add_canonical). revert Hc. generalize (f32_add SUM_ZERO x).
  induction Hl as [|y l Hy _ IH]; intros a Ha; [done|]. cbn [foldl]. apply IH, f32_add_canonical; [apply Ha|done].
Qed.

(** A difference from a non-negative number is not [-0.0]. *)
Lemma sub_not_neg_zero a b : nonneg a → not_neg_zero (f32_add a b).
Proof.
  intros Ha. destruct (nonneg_fields a Ha) as (Sa & Ma & Na & _). unfold f32_add. rewrite Na, Sa. cbn [orb andb]. destruct (f32_is_nan b); [done|].
  destruct (f32_is_infinite a); [destruct (_ && _); [done|by intros _]|]. destruct (f32_is_infinite b) eqn:Eb.
  { intros E. exfalso. unfold f32_is_infinite in Eb. apply Z.eqb_eq in Eb. unfold f32_int in E. rewrite Eb in E. by destruct (f32_neg b). }
  destruct (Z.eqb_spec (f32_int a + f32_int b) 0) as [|Hne]; [done|]. set (s := f32_int a + f32_int b) in *. clearbody s.
  pose proof (round_mag_mono 1 1 (Z.abs s) 1 ltac:(lia) ltac:(lia) ltac:(lia) ltac:(lia)) as Hm. change (round_mag 1 1) with 1 in Hm.
  pose proof (round_mag_bounds (Z.abs s) 1 ltac:(lia) ltac:(lia)) as Hb. set (m := round_mag _ _) in *. clearbody m.
  intros E. exfalso. assert (f32_mag (with_sign (s <? 0) m) = m) as Em.
  { unfold with_sign, f32_mag. destruct (s <? 0); [apply mod_set_sign|apply Z.mod_small]; unfold F32_INF_BITS, F32_SIGN in *; lia. }
  unfold f32_int in E. rewrite Em in E. pose proof (f32_units_zero m ltac:(lia)). destruct (f32_neg (with_sign (s <? 0) m)); lia.
Qed.
Lemma approximate_not_neg_zero x_norm c_norm product : semi x_norm → semi c_norm → not_neg_zero (approximate_distance x_norm c_norm product).
Proof.
  intros Hx Hc. unfold approximate_distance, f32_sub. destruct (semi_add _ _ Hx Hc) as [Ha| ->]; [by apply sub_not_neg_zero|]. by rewrite f32_add_nan_l.
Qed.
Lemma chunks_one {A} w (l : list A) : (0 < length l ≤ w)%nat → chunks w l = [l].
Proof.
  intros Hl. unfold chunks. destruct l as [|x l]; [cbn in Hl; lia|]. set (L := x :: l) in *. change (chunks_fuel (length L) w L) with (take w L :: chunks_fuel (length l) w (drop w L)).
  rewrite take_ge, drop_ge by lia. by destruct (length l).
Qed.

Lemma block_objective_sum (block : list scored) : block ≠ [] → Forall (λ s, not_neg_zero s.1) block → block_objective block = f32_sum block.*1.
Proof. intros Hne Fb. destruct block as [|s block]; [done|]. apply Forall_cons in Fb as [Hs _]. unfold block_objective. rewrite fmap_cons. by apply sum_from_zero. Qed.
Lemma chunks_fuel_nonempty {A} fuel w (l x : list A) : (0 < w)%nat → x ∈ chunks_fuel fuel w l → x ≠ [].
Proof.
  intros Hw. revert l. induction fuel as [|fuel IH]; intros l; [by intros Hx%elem_of_nil|]. destruct l as [|y l]; [by intros Hx%elem_of_nil|]. cbn [chunks_fuel].
  intros [->|Hx]%elem_of_cons; [|by eapply IH]. by destruct w; [lia|].
Qed.

(** ** One result for every pool *)

(** The matrix product computes each row of its result from the row of its left
    argument. *)
Definition sgemm_rowwise (sgemm : nat → nat → nat → Z → list Z → list Z → Z → list Z → list Z) : Prop :=
  ∀ m n k alpha a b beta c i, length a = (m * k)%nat → length c = (m * n)%nat → (i < m)%nat →
    slice (i * n) n (sgemm m n k alpha a b beta c) = sgemm 1%nat n k alpha (slice (i * k) k a) b beta (slice (i * n) n c).

Section Pool.
Context (arch : Arch) (sgemm : nat → nat → nat → Z → list Z → list Z → Z → list Z → list Z) (ln : Z → Z).
Context (Hsgemm : ∀ m n k alpha a b beta c, length (sgemm m n k alpha a b beta c) = length c ∧ Forall u32 (sgemm m n k alpha a b beta c)).
Context (Hrow : sgemm_rowwise sgemm).
Context (n d k : nat) (data centroids : list Z) (l : list nat) (Hm : matrix n d data) (Hc : matrix k d centroids) (Hk : (0 < k)%nat) (Hf : sizes_fit n d k) (Hl : length l = n).

Definition norms_of : list Z := (λ c, fvec_norm_l2sqr arch (slice (c * d) d centroids)) <$> seq 0 k.
Definition score_row (row : list Z) : scored := row_best (fvec_norm_l2sqr arch row) norms_of (sgemm 1%nat k d F32_ONE row centroids 0 (replicate k 0)).
Definition scores : list scored := score_row <$> rows_of d n data.
(** Every row by itself, and the objective in runs of the largest block. *)
Definition assigned_by_rows : Z * list nat :=
  (f32_sum (f32_sum <$> chunks (Z.to_nat (max_block_rows (Z.of_nat k))) scores.*1), overwritten scores l).

Lemma block_of_rows m block : length block = (m * d)%nat → block_of arch sgemm block centroids norms_of m d k = score_row <$> rows_of d m block.
Proof.
  intros Hb. unfold block_of, rows_of. rewrite <- list_fmap_compose. apply list_fmap_ext. intros i x Hx. apply lookup_seq in Hx as [-> Hi]. cbn [Nat.add]. unfold score_row, compose, products_of.
  f_equal. rewrite Hrow by (done || by rewrite length_replicate). f_equal. unfold slice. rewrite drop_replicate, take_replicate. f_equal. nia.
Qed.
Lemma score_row_dist row : u32 (score_row row).1 ∧ not_neg_zero (score_row row).1.
Proof.
  unfold score_row, row_best. set (cands := imap _ _). pose proof (nearer_in (F32_MAX, 0%nat) cands) as Hin. apply elem_of_cons in Hin as [->|Hin]; [by vm_compute|].
  unfold cands in *. apply elem_of_lookup_imap_1 in Hin as (c & [cn pr] & -> & Hx). cbn [fst]. apply lookup_zip_with_Some in Hx as (cn' & pr' & [= <- <-] & Hcn & Hpr).
  unfold norms_of in Hcn. apply list_lookup_fmap_Some in Hcn as (j & -> & _). pose proof (norm_semi arch row). pose proof (norm_semi arch (slice (j * d) d centroids)).
  split; [|by apply approximate_not_neg_zero]. unfold approximate_distance, f32_sub. apply f32_add_u32; [|apply f32_negate_spec, f32_mul_u32].
  destruct (semi_add (fvec_norm_l2sqr arch row) (fvec_norm_l2sqr arch (slice (j * d) d centroids)) ltac:(done) ltac:(done)) as [Hn| ->]; [apply (nonneg_fields _ Hn)|done].
Qed.
Lemma scores_length : length scores = n.
Proof. unfold scores, rows_of. by rewrite !length_fmap, length_seq. Qed.
Lemma assign_by_rows threads balance : f32_gt balance 0 = false → (0 < n)%nat → (0 < d)%nat →
  assign_clusters_fast arch sgemm ln threads data n d centroids k l balance = Ok assigned_by_rows.
Proof.
  intros Hb Hn Hd. unfold assign_clusters_fast. rewrite Hb, !(proj2 (Nat.eqb_neq _ _)) by lia. rewrite norms_ok by done. cbn [mbind io_result_bind]. fold norms_of.
  assert (length norms_of = k) as Hnl by (unfold norms_of; by rewrite length_fmap, length_seq).
  pose proof (block_plan_bound threads (Z.of_nat n) (Z.of_nat d) (Z.of_nat k) ltac:(lia)) as Hp. destruct (assignment_block_plan _ _ _ _) as [rows parallel]. cbn [fst] in Hp.
  assert (Forall (λ s : scored, u32 s.1 ∧ not_neg_zero s.1) scores) as Fs by (apply Forall_fmap, Forall_true; intros row; apply score_row_dist).
  pose proof scores_length as Ls. destruct Hm as [Lm _]. pose proof Hc as [Lc _]. destruct (Z.leb_spec (Z.of_nat n) rows) as [Hle|Hgt].
  - rewrite (assign_block_eq arch sgemm Hsgemm data n d centroids k norms_of) by (done || apply (row_products n d k n (Z.to_nat rows)); done || lia). cbn [mbind io_result_bind].
    rewrite (proj2 (Nat.leb_le _ _)) by lia. cbn [mbind io_result_bind]. rewrite block_of_rows by done. fold scores. unfold assigned_by_rows. rewrite chunks_one by (rewrite length_fmap; lia).
    do 2 f_equal. destruct scores as [|s ss]; [cbn in Ls; lia|]. apply Forall_cons in Fs as [[Us Ns] Fs']. cbn [fmap list_fmap]. unfold f32_sum at 1. cbn [foldl].
    rewrite f32_add_neg_zero by (apply sum_canonical; [done|]; apply Forall_fmap; eapply Forall_impl; [exact Fs'|]; by intros ? []).
    apply block_objective_sum; [done|]. constructor; [done|]. eapply Forall_impl; [exact Fs'|]. by intros ? [].
  - assert ((λ p, block_of arch sgemm p.1 centroids norms_of (length p.2) d k) <$> zip (chunks (Z.to_nat rows * d) data) (chunks (Z.to_nat rows) l) = chunks (Z.to_nat rows) scores) as Eb.
    { unfold chunks. assert (length scores = length l) as -> by lia. unfold scores. rewrite <- (scored_chunks score_row (Z.to_nat rows) d ltac:(lia) Hd (length data) (length l) n data l) by done.
      apply list_fmap_ext. intros i p Hx. apply list_elem_of_lookup_2 in Hx. destruct (zip_chunks (Z.to_nat rows) d n data l ltac:(lia) Hd Lm Hl) as (F & _). rewrite Forall_forall in F.
      apply block_of_rows. by apply (F p). }
    assert (concat (chunks (Z.to_nat rows) scores) = scores) as Ec by (apply chunks_fuel_concat; lia). unfold assigned_by_rows.
    case_match eqn:Ep; rewrite (blocks_eq arch sgemm Hsgemm n d k data centroids norms_of Lm Lc Hnl Hk Hf) by (done || lia); cbn [mbind io_result_bind]; rewrite Eb, Ec; do 2 f_equal.
    apply andb_true_iff in Ep as [_ Ep%Z.eqb_eq]. rewrite <- Ep. f_equal. unfold chunks. rewrite length_fmap, chunks_fuel_fmap, <- list_fmap_compose.
    apply list_fmap_ext. intros i b Hx%list_elem_of_lookup_2. apply block_objective_sum; [by eapply chunks_fuel_nonempty; [|exact Hx]; lia|].
    rewrite Forall_forall in Fs. apply Forall_forall. intros s Hs. apply Fs. rewrite <- Ec. apply list_elem_of_In, in_concat. exists b. by split; apply list_elem_of_In.
Qed.
End Pool.


(** A matrix product by rows: [alpha * a * transpose b + beta * c]. *)
Definition naive_row (n k : nat) (alpha : Z) (row b : list Z) (beta : Z) (c : list Z) : list Z :=
  (λ j, f32_add (f32_mul alpha (accumulate dot_term 0 (zip row (slice (j * k) k b)))) (f32_mul beta (nth j c 0))) <$> seq 0 n.
Definition naive_sgemm (m n k : nat) (alpha : Z) (a b : list Z) (beta : Z) (c : list Z) : list Z :=
  take (length c) (concat ((λ i, naive_row n k alpha (slice (i * k) k a) b beta (slice (i * n) n c)) <$> seq 0 m) ++ replicate (length c) 0).
Lemma naive_row_length n k alpha row b beta c : length (naive_row n k alpha row b beta c) = n.
Proof. unfold naive_row. by rewrite length_fmap, length_seq. Qed.
Lemma naive_sgemm_ok m n k alpha a b beta c : length (naive_sgemm m n k alpha a b beta c) = length c ∧ Forall u32 (naive_sgemm m n k alpha a b beta c).
Proof.
  unfold naive_sgemm. split; [rewrite length_take, length_app, length_replicate; lia|]. apply Forall_take, Forall_app. split; [|by apply Forall_replicate].
  apply Forall_concat, Forall_fmap, Forall_true. intros i. unfold compose, naive_row. apply Forall_fmap, Forall_true. intros j. unfold compose. apply f32_add_u32; apply f32_mul_u32.
Qed.
Lemma rows_of_concat n rows : Forall (λ r, length r = n) rows → rows_of n (length rows) (concat rows) = rows.
Proof.
  induction 1 as [|r rows Hr _ IH]; [done|]. cbn [length concat]. rewrite rows_of_S, take_app_length', drop_app_length' by done. by rewrite IH.
Qed.
Lemma naive_sgemm_rowwise : sgemm_rowwise naive_sgemm.
Proof.
  intros m n k alpha a b beta c i Ha Hc Hi. set (f := λ i, naive_row n k alpha (slice (i * k) k a) b beta (slice (i * n) n c)).
  assert (Forall (λ r, length r = n) (f <$> seq 0 m)) as Ff by (apply Forall_fmap, Forall_true; intros; apply naive_row_length).
  assert (length (concat (f <$> seq 0 m)) = (m * n)%nat) as Lf.
  { rewrite (length_concat_fmap f (λ _, n)) by (intros; apply naive_row_length). clear. generalize 0%nat. induction m as [|m IH]; intros s; [done|]. cbn. rewrite IH. lia. }
  assert (naive_sgemm m n k alpha a b beta c = concat (f <$> seq 0 m)) as -> by (unfold naive_sgemm; fold f; rewrite take_app_length'; [done|lia]).
  assert (slice (i * n) n (concat (f <$> seq 0 m)) = f i) as ->.
  { pose proof (rows_of_concat n (f <$> seq 0 m) Ff) as E. rewrite length_fmap, length_seq in E. unfold rows_of in E. apply (f_equal (λ x, x !! i)) in E.
    rewrite !list_lookup_fmap, !lookup_seq_lt in E by done. by injection E. }
  assert (length (slice (i * n) n c) = n) as Lc by (apply length_slice; nia). unfold naive_sgemm. cbn [seq fmap list_fmap concat]. rewrite app_nil_r, Lc.
  assert (∀ w (x : list Z), length x = w → slice (0 * w) w x = x) as Hs0 by (intros w x <-; unfold slice; cbn [Nat.mul]; by rewrite drop_0, firstn_all).
  rewrite (Hs0 k) by (apply length_slice; nia). rewrite (Hs0 n) by done. rewrite take_app_length'; [done|]. by rewrite naive_row_length.
Qed.

(** Three points and two centroids with no thread pool and with eight threads. *)
Definition demo_points : list Z := [0; 0; 0x40000000; 0x40000000; 0x3f800000; 0x3f000000].
Definition demo_pair : list Z := [0; 0; 0x40400000; 0x40400000].
Example assignment_demo : assign_clusters_fast Aarch64 naive_sgemm (λ x, x) 8 demo_points 3 2 demo_pair 2 [0; 0; 0]%nat 0 = Ok (0x40500000, [0; 1; 0]%nat).
Proof. by vm_compute. Qed.
