(* ===== verification/KmeansStream.v ===== *)
(** Streaming k-means over a weighted coreset: [StreamingKMeans] and
    [weighted_kmeans_train] of [core/src/kmeans.rs], and what the training loops
    do at the edges of their parameters. *)

From S2P Require Import Prelude F32 F64 F32Arith DiskannHeader Distance KmeansSearch Range CompactAdjacency VamanaBuild KmeansTrain KmeansTotal.

Record StreamingKMeans := Streaming {
  sk_d : nat; sk_k : nat; sk_chunk_size : nat; sk_config : KMeansConfig; coreset_centroids : list Z; coreset_weights : list Z }.
Definition streaming_new (d k chunk_size : nat) (config : KMeansConfig) : StreamingKMeans := Streaming d k chunk_size config [] [].

Section Stream.
Context `{Rng R} (gen_f32 : R → Z * R).
Context (arch : Arch) (sgemm : nat → nat → nat → Z → list Z → list Z → Z → list Z → list Z) (ln : Z → Z) (threads : Z).

Definition add_weight (weights : list Z) (a : nat) : io_result (list Z) :=
  w ← expect (weights !! a); store_at a (f32_add w F32_ONE) weights.
Definition add_chunk (s : StreamingKMeans) (data : list Z) (n : nat) : io_result StreamingKMeans :=
  let d := sk_d s in
  let chunk_k := (sk_k s `min` n)%nat in
  if (chunk_k =? 0)%nat || (n =? 0)%nat then Ok s
  else
    seed ← expect (checked_add 64 (km_seed (sk_config s)) (zlen (coreset_weights s)));
    let chunk_config := KMeans 15 (nredo kmeans_default) (max_points_per_centroid kmeans_default) seed (balance_factor kmeans_default) in
    centroids ← kmeans_train_with_init gen_f32 arch sgemm ln threads chunk_config data n d chunk_k None;
    '(_, assignments) ← assign_clusters_fast arch sgemm ln threads data n d centroids chunk_k (replicate n 0%nat) 0;
    weights ← try_fold add_weight (replicate chunk_k 0) assignments;
    Ok (Streaming d (sk_k s) (sk_chunk_size s) (sk_config s) (coreset_centroids s ++ centroids) (coreset_weights s ++ weights)).

(** One row of the weighted sums. *)
Definition weighted_step (data weights : list Z) (d : nat) (assignments : list nat) (st : list Z * list Z) (i : nat) : io_result (list Z * list Z) :=
  let '(total_weights, sums) := st in
  c ← expect (assignments !! i);
  w ← expect (weights !! i);
  total ← expect (total_weights !! c);
  row ← expect (get_slice (i * d) d data);
  old ← expect (get_slice (c * d) d sums);
  sums ← copy_into (c * d) (zip_with f32_add old ((λ x, f32_mul w x) <$> row)) sums;
  Ok (<[c := f32_add total w]> total_weights, sums).
Definition weighted_mean_step (data : list Z) (n d : nat) (total_weights sums : list Z) (st : list Z * R) (c : nat) : io_result (list Z * R) :=
  let '(centroids, rng) := st in
  total ← expect (total_weights !! c);
  if f32_gt total 0 then
    let inv := f32_div F32_ONE total in
    sum ← expect (get_slice (c * d) d sums);
    centroids ← copy_into (c * d) ((λ s, f32_mul s inv) <$> sum) centroids;
    Ok (centroids, rng)
  else if (0 <? n)%nat then
    let '(idx, rng) := gen_range 0 n rng in
    row ← expect (get_slice (idx * d) d data);
    centroids ← copy_into (c * d) row centroids;
    Ok (centroids, rng)
  else Panic.
Definition weighted_iter (data weights : list Z) (n d k : nat) (st : list Z * list nat * R) (_iter : nat) : io_result (list Z * list nat * R) :=
  let '(centroids, assignments, rng) := st in
  '(_, assignments) ← assign_clusters_fast arch sgemm ln threads data n d centroids k assignments 0;
  '(total_weights, sums) ← try_fold (weighted_step data weights d assignments) (replicate k 0, replicate (k * d) 0) (seq 0 n);
  '(centroids, rng) ← try_fold (weighted_mean_step data n d total_weights sums) (centroids, rng) (seq 0 k);
  Ok (centroids, assignments, rng).
Definition weighted_kmeans_train (config : KMeansConfig) (data weights : list Z) (n d k : nat) : io_result (list Z) :=
  let rng := seed_from_u64 (km_seed config) in
  if (n <=? k)%nat then
    if (n =? 0)%nat && (0 <? k)%nat then Panic
    else rows ← try_map (λ i, expect (get_slice (i mod n * d) d data)) (seq 0 k); Ok (concat rows)
  else
    '(centroids, rng) ← kmeans_plusplus_init gen_f32 arch data n d k rng;
    '(centroids, _, _) ← try_fold (weighted_iter data weights n d k) (centroids, replicate n 0%nat, rng) (seq 0 (niter config));
    Ok centroids.

Definition finalize (s : StreamingKMeans) : io_result (list Z) :=
  let coreset_n := length (coreset_weights s) in
  if (coreset_n =? 0)%nat then Ok (replicate (sk_k s * sk_d s) 0)
  else if (coreset_n <=? sk_k s)%nat then Ok (resize (sk_k s * sk_d s) 0 (coreset_centroids s))
  else weighted_kmeans_train (sk_config s) (coreset_centroids s) (coreset_weights s) coreset_n (sk_d s) (sk_k s).
Definition total_weight (s : StreamingKMeans) : Z := f32_sum (coreset_weights s).
(** A trainer fed with chunks of rows. *)
Definition feed (s : StreamingKMeans) (chunks : list (list Z * nat)) : io_result StreamingKMeans :=
  try_fold (λ s '(data, n), add_chunk s data n) s chunks.
End Stream.

(** ** The coreset *)

Record stream_ok (s : StreamingKMeans) : Prop := {
  so_rows : matrix (length (coreset_weights s)) (sk_d s) (coreset_centroids s);
  so_weights : Forall u32 (coreset_weights s) }.

Section StreamLaws.
Context `{RngLaws R} (gen_f32 : R → Z * R).
Context (arch : Arch) (sgemm : nat → nat → nat → Z → list Z → list Z → Z → list Z → list Z) (ln : Z → Z) (threads : Z).
Context (Hsgemm : ∀ m n k alpha a b beta c, length (sgemm m n k alpha a b beta c) = length c ∧ Forall u32 (sgemm m n k alpha a b beta c)).

Lemma weights_ok k l : Forall (λ a, a < k)%nat l → ∃ ws, try_fold add_weight (replicate k 0) l = Ok ws ∧ length ws = k ∧ Forall u32 ws.
Proof.
  intros Fl. rewrite Forall_forall in Fl. apply (try_fold_keeps add_weight (λ ws, length ws = k ∧ Forall u32 ws)); [split; [apply length_replicate|by apply Forall_replicate]|].
  intros ws a Ha [Lw Uw]. specialize (Fl a Ha). destruct (lookup_lt_is_Some_2 ws a ltac:(lia)) as [w Ew]. unfold add_weight. rewrite Ew. cbn [expect mbind io_result_bind].
  rewrite store_at_ok by lia. eexists. split; [done|]. rewrite length_insert. split; [done|]. apply Forall_insert; [done|]. apply f32_add_u32; [by apply (Forall_lookup_1 _ _ _ _ Uw Ew)|done].
Qed.

Definition chunk_fits (s : StreamingKMeans) (data : list Z) (n : nat) : Prop :=
  matrix n (sk_d s) data ∧ sizes_fit n (sk_d s) (sk_k s) ∧ Z.of_nat (sk_k s) * 256 < 2 ^ 64 ∧ km_seed (sk_config s) + zlen (coreset_weights s) < 2 ^ 64.
Lemma add_chunk_ok s data n : stream_ok s → chunk_fits s data n →
  ∃ s', add_chunk gen_f32 arch sgemm ln threads s data n = Ok s' ∧ stream_ok s' ∧ sk_d s' = sk_d s ∧ sk_k s' = sk_k s ∧ sk_config s' = sk_config s ∧
    length (coreset_weights s') = (length (coreset_weights s) + sk_k s `min` n)%nat.
Proof.
  intros [Hr Hw] (Hm & Hf & Hk & Hs). unfold add_chunk. destruct (_ || _) eqn:E0.
  { exists s. split_and!; try done. apply orb_true_iff in E0 as [E0%Nat.eqb_eq|E0%Nat.eqb_eq]; lia. }
  apply orb_false_elim in E0 as [E1%Nat.eqb_neq E2%Nat.eqb_neq].
  rewrite (proj2 (checked_add_Some 64 (km_seed (sk_config s)) (zlen (coreset_weights s)) (km_seed (sk_config s) + zlen (coreset_weights s)))) by (split; [done|lia]). cbn [expect mbind io_result_bind].
  assert (sizes_fit n (sk_d s) (sk_k s `min` n)) as Hf' by (destruct Hf as (F1 & F2 & F3 & F4); split; [done|split; [nia|split; [lia|done]]]).
  assert (balance_fits n (sk_k s `min` n) 0) as Hb by (intros E; by vm_compute in E).
  match goal with |- context [kmeans_train_with_init _ _ _ _ _ ?c _ _ _ _ _] => destruct (train_with_init_ok gen_f32 arch sgemm ln threads Hsgemm c data n (sk_d s) (sk_k s `min` n)%nat None Hm)
    as (cs & -> & Hcs) end; [split; cbn [max_points_per_centroid kmeans_default]; [done|nia]|done|done|done|]. cbn [mbind io_result_bind].
  destruct (assign_ok arch sgemm ln threads Hsgemm n (sk_d s) (sk_k s `min` n)%nat data cs (replicate n 0%nat) 0 Hm Hcs ltac:(lia) Hf' Hb) as (obj & l & -> & Hl & Fl); [apply length_replicate|].
  cbn [mbind io_result_bind]. destruct (weights_ok (sk_k s `min` n) l Fl) as (ws & -> & Lw & Uw). cbn [mbind io_result_bind]. eexists. split; [done|]. cbn [sk_d sk_k sk_config coreset_weights].
  rewrite length_app, Lw. split_and!; try done. destruct Hr as [Lr Ur], Hcs as [Lc Uc]. split; cbn [coreset_weights coreset_centroids sk_d]; [|by apply Forall_app].
  split; [rewrite !length_app, Lr, Lc, Lw; lia|by apply Forall_app].
Qed.

Lemma weighted_iter_ok n d k data weights : matrix n d data → length weights = n → Forall u32 weights → (0 < n)%nat → (0 < k)%nat → sizes_fit n d k → ∀ centroids l (rng : R) i,
  matrix k d centroids → length l = n → ∃ c' l' rng', weighted_iter arch sgemm ln threads data weights n d k (centroids, l, rng) i = Ok (c', l', rng') ∧ matrix k d c' ∧ length l' = n.
Proof.
  intros Hm Hw Uw Hn Hk Hf centroids l rng i Hc Hl. unfold weighted_iter.
  destruct (assign_ok arch sgemm ln threads Hsgemm n d k data centroids l 0 Hm Hc Hk Hf) as (obj & l' & -> & Hl' & Fl); [by intros E; vm_compute in E|done|]. cbn [mbind io_result_bind].
  destruct (try_fold_keeps (weighted_step data weights d l') (λ st, length st.1 = k ∧ matrix k d st.2) (seq 0 n) (replicate k 0, replicate (k * d) 0)) as ([tw sums] & -> & Ht & Hs).
  { split; [apply length_replicate|apply matrix_zero]. }
  { intros [tw sums] j Hj [Ht Hs]. cbn [fst snd] in *. apply elem_of_seq in Hj. destruct (lookup_lt_is_Some_2 l' j ltac:(lia)) as [c Ec], (lookup_lt_is_Some_2 weights j ltac:(lia)) as [w Ew].
    pose proof (Forall_lookup_1 _ _ _ _ Fl Ec) as Hck. cbn beta in Hck. destruct (lookup_lt_is_Some_2 tw c ltac:(lia)) as [t Et]. unfold weighted_step. rewrite Ec, Ew. cbn [expect mbind io_result_bind].
    rewrite Et. cbn [expect mbind io_result_bind]. destruct (matrix_row n d data j Hm) as [-> [Lr Ur]]; [lia|]. destruct (matrix_row k d sums c Hs Hck) as [-> [Lo Uo]]. cbn [expect mbind io_result_bind].
    destruct (matrix_copy k d sums c (zip_with f32_add (slice (c * d) d sums) ((λ x, f32_mul w x) <$> slice (j * d) d data)) Hs Hck) as (s' & -> & Hs').
    { split; [rewrite length_zip_with, length_fmap; lia|]. apply add_lanes_u32; [done|]. apply Forall_fmap, Forall_true. intros x. apply f32_mul_u32. }
    eexists. split; [done|]. cbn [fst snd]. by rewrite length_insert. }
  cbn [fst snd] in Ht, Hs. cbn [mbind io_result_bind].
  destruct (try_fold_keeps (weighted_mean_step data n d tw sums) (λ st, matrix k d st.1) (seq 0 k) (centroids, rng)) as ([c' r'] & -> & Hc'); [done| |by exists c', l', r'].
  intros [cs r] c Hj Hcs. cbn [fst] in *. apply elem_of_seq in Hj. destruct (lookup_lt_is_Some_2 tw c ltac:(lia)) as [t Et]. unfold weighted_mean_step. rewrite Et. cbn [expect mbind io_result_bind].
  destruct (f32_gt t 0).
  - destruct (matrix_row k d sums c Hs) as [-> [Lr _]]; [lia|]. cbn [expect mbind io_result_bind].
    destruct (matrix_copy k d cs c ((λ s, f32_mul s (f32_div F32_ONE t)) <$> slice (c * d) d sums) Hcs ltac:(lia)) as (cs' & -> & Hcs'); [|by eexists].
    split; [by rewrite length_fmap|]. apply Forall_fmap, Forall_true. intros x. apply f32_mul_u32.
  - rewrite (proj2 (Nat.ltb_lt _ _)) by done. pose proof (gen_range_bounds 0 n r Hn) as Hg. destruct (gen_range 0 n r) as [j r']. cbn [fst] in Hg.
    destruct (matrix_row n d data j Hm) as [-> Hr]; [lia|]. cbn [expect mbind io_result_bind]. destruct (matrix_copy k d cs c _ Hcs ltac:(lia) Hr) as (cs' & -> & Hcs'). by eexists.
Qed.
Lemma finalize_ok s : stream_ok s → sizes_fit (length (coreset_weights s)) (sk_d s) (sk_k s) →
  ((sk_k s = 0)%nat → length (coreset_weights s) = 0%nat) →
  ∃ cs, finalize gen_f32 arch sgemm ln threads s = Ok cs ∧ matrix (sk_k s) (sk_d s) cs.
Proof.
  intros [Hr Hw] Hf Hk0. unfold finalize. destruct (Nat.eqb_spec (length (coreset_weights s)) 0) as [|Hn]; [eexists; split; [done|apply matrix_zero]|].
  destruct (Nat.leb_spec (length (coreset_weights s)) (sk_k s)) as [Hle|Hgt].
  - eexists. split; [done|]. split; [by rewrite length_resize|]. rewrite resize_spec. apply Forall_app. split; [apply Forall_take, Hr|by apply Forall_replicate].
  - unfold weighted_kmeans_train. rewrite (proj2 (Nat.leb_gt _ _)) by done. destruct (plusplus_ok gen_f32 arch (coreset_centroids s) (length (coreset_weights s)) (sk_d s) (sk_k s)
      (seed_from_u64 (km_seed (sk_config s))) Hr) as (cs & rng & -> & Hcs); [lia|lia|]. cbn [mbind io_result_bind].
    match goal with |- context [try_fold ?f ?st ?l] => destruct (try_fold_keeps f (λ x, matrix (sk_k s) (sk_d s) x.1.1 ∧ length x.1.2 = length (coreset_weights s)) l st) as ([[c' l'] r'] & -> & Hc' & _) end;
      [split; [done|apply length_replicate]| |by exists c'].
    intros [[c l] r] i _ [Hc Hl]. cbn [fst snd] in *. destruct (weighted_iter_ok (length (coreset_weights s)) (sk_d s) (sk_k s) (coreset_centroids s) (coreset_weights s) Hr eq_refl Hw
      ltac:(lia) ltac:(lia) Hf c l r i Hc Hl) as (c2 & l2 & r2 & -> & H1 & H2). by eexists.
Qed.

(** The size of the coreset after the chunks. *)
Definition coreset_size (k : nat) (chunks : list (list Z * nat)) : nat := sum_list ((λ c, k `min` c.2)%nat <$> chunks).
Lemma feed_ok chunks : ∀ s, stream_ok s → Forall (λ c, matrix c.2 (sk_d s) c.1 ∧ sizes_fit c.2 (sk_d s) (sk_k s)) chunks → Z.of_nat (sk_k s) * 256 < 2 ^ 64 →
  km_seed (sk_config s) + Z.of_nat (length (coreset_weights s) + coreset_size (sk_k s) chunks) < 2 ^ 64 →
  ∃ s', feed gen_f32 arch sgemm ln threads s chunks = Ok s' ∧ stream_ok s' ∧ sk_d s' = sk_d s ∧ sk_k s' = sk_k s ∧
    length (coreset_weights s') = (length (coreset_weights s) + coreset_size (sk_k s) chunks)%nat.
Proof.
  unfold feed. induction chunks as [|[data n] chunks IH]; intros s Hs Fc Hk Hseed.
  { exists s. split; [done|]. split; [done|]. split_and!; [done|done|]. unfold coreset_size. cbn. lia. }
  apply Forall_cons in Fc as [[Hm Hf] Fc]. cbn [fst snd] in Hm, Hf.
  assert (coreset_size (sk_k s) ((data, n) :: chunks) = (sk_k s `min` n + coreset_size (sk_k s) chunks)%nat) as Ec by done. rewrite Ec in *. cbn [try_fold].
  destruct (add_chunk_ok s data n Hs) as (s' & -> & Hs' & Ed & Ek & Eg & Ew). { split; [done|]. split; [done|]. split; [done|]. unfold zlen. lia. }
  destruct (IH s' Hs') as (s2 & E2 & H2 & Ed2 & Ek2 & Ew2); [by rewrite Ed, Ek|by rewrite Ek|rewrite Eg, Ek, Ew; lia|].
  exists s2. split; [exact E2|]. split; [done|]. rewrite Ed2, Ek2, Ew2, Ed, Ek, Ew. split_and!; [done|done|lia].
Qed.
Lemma coreset_size_zero chunks : coreset_size 0 chunks = 0%nat.
Proof. induction chunks as [|c chunks IH]; [done|]. exact IH. Qed.
End StreamLaws.

(** Streaming training returns: chunks of fitting shapes are compressed into
    [k `min` n] weighted rows each, and the final centroids are [k] rows of [d]
    values. *)
Theorem streaming_kmeans_total `{RngLaws R} (gen_f32 : R → Z * R) (arch : Arch) (sgemm : nat → nat → nat → Z → list Z → list Z → Z → list Z → list Z) (ln : Z → Z) (threads : Z)
    (d k chunk_size : nat) (config : KMeansConfig) (chunks : list (list Z * nat)) :
  (∀ m n k alpha a b beta c, length (sgemm m n k alpha a b beta c) = length c ∧ Forall u32 (sgemm m n k alpha a b beta c)) →
  Forall (λ c, matrix c.2 d c.1 ∧ sizes_fit c.2 d k) chunks → Z.of_nat k * 256 < 2 ^ 64 → km_seed config + Z.of_nat (coreset_size k chunks) < 2 ^ 64 → sizes_fit (coreset_size k chunks) d k →
  ∃ s centroids, feed gen_f32 arch sgemm ln threads (streaming_new d k chunk_size config) chunks = Ok s ∧ length (coreset_weights s) = coreset_size k chunks ∧
    finalize gen_f32 arch sgemm ln threads s = Ok centroids ∧ matrix k d centroids.
Proof.
  intros Hsg Fc Hk Hseed Hf. destruct (feed_ok gen_f32 arch sgemm ln threads Hsg chunks (streaming_new d k chunk_size config)) as (s & E & Hs & Ed & Ek & Ew); [by split|done|done|done|].
  cbn [streaming_new sk_d sk_k coreset_weights length Nat.add] in *. destruct (finalize_ok gen_f32 arch sgemm ln threads Hsg s Hs) as (cs & E2 & Hm).
  - by rewrite Ew, Ed, Ek.
  - intros E0. rewrite Ew, <- Ek, E0. apply coreset_size_zero.
  - exists s, cs. rewrite Ed, Ek in Hm. done.
Qed.

(** ** At the edges of the parameters *)

(** Above 256 centroids the balance factor and the number of restarts change
    nothing. *)
Theorem hierarchical_ignores_balance `{Rng R} (gen_f32 : R → Z * R) (arch : Arch) (sgemm : nat → nat → nat → Z → list Z → list Z → Z → list Z → list Z) (ln : Z → Z) (threads : Z)
    (pop : list Cluster → option (Cluster * list Cluster)) (config : KMeansConfig) (data : list Z) (n d k redos : nat) (balance : Z) : (256 < k)%nat → (k < n)%nat →
  kmeans_train gen_f32 arch sgemm ln threads pop config data n d k =
  kmeans_train gen_f32 arch sgemm ln threads pop (KMeans (niter config) redos (max_points_per_centroid config) (km_seed config) balance) data n d k.
Proof.
  intros H1 H2. unfold kmeans_train, HIERARCHICAL_THRESHOLD. rewrite !(proj2 (Nat.ltb_lt _ _)) by done. cbn [andb].
  assert (∀ fuel td fin heap, split_loop gen_f32 arch sgemm ln threads pop fuel config td d k fin heap =
    split_loop gen_f32 arch sgemm ln threads pop fuel (KMeans (niter config) redos (max_points_per_centroid config) (km_seed config) balance) td d k fin heap) as E.
  { intros fuel td. induction fuel as [|fuel IH]; intros fin heap; cbn [split_loop]; [done|]. destruct (_ <? _)%nat; [|done]. destruct (pop heap) as [[c rest]|]; [|done].
    rewrite !IH. destruct (_ <? _)%nat; [done|]. unfold split_cluster. cbn [max_points_per_centroid km_seed]. destruct (try_map _ (c_indices c)); [|done..]. cbn [mbind io_result_bind].
    destruct (expect _); [|done..]. cbn [mbind io_result_bind]. destruct (kmeans_train_with_init _ _ _ _ _ _ _ _ _ _ _); [|done..]. cbn [mbind io_result_bind].
    destruct (assign_clusters_fast _ _ _ _ _ _ _ _ _ _ _) as [[? ?]| |]; [|done..]. cbn [mbind io_result_bind]. destruct (try_map _ (seq 0 2)); [|done..]. cbn [mbind io_result_bind].
    destruct (_ <? 2)%nat; [done|by rewrite IH]. }
  unfold kmeans_train_hierarchical, training_sample. cbn [max_points_per_centroid km_seed niter].
  destruct (assert_data_shape _ _ _); [|done..]. destruct (checked_matrix_len _ _); [|done..]. cbn [mbind io_result_bind]. destruct (expect _) as [m| |]; [|done..]. cbn [mbind io_result_bind].
  destruct (if m <? Z.of_nat n then _ else _) as [[[td tn] r]| |]; [|done..]. cbn [mbind io_result_bind]. destruct (kmeans_train_with_init _ _ _ _ _ _ _ _ _ _ _); [|done..]. cbn [mbind io_result_bind].
  destruct (assign_clusters_fast _ _ _ _ _ _ _ _ _ _ _) as [[? ?]| |]; [|done..]. cbn [mbind io_result_bind]. destruct (try_map _ _); [|done..]. cbn [mbind io_result_bind]. by rewrite E.
Qed.

(** With more centroids than products of a chunk, a chunk is empty: a round of
    the balanced loop succeeds and leaves the offset where it was. *)
Theorem balanced_loop_stalls (arch : Arch) (sgemm : nat → nat → nat → Z → list Z → list Z → Z → list Z → list Z) (ln : Z → Z) (n d k : nat) (data centroids : list Z) (balance : Z)
    (obj : Z) (assignments : list nat) (offset : nat) :
  (∀ m n k alpha a b beta c, length (sgemm m n k alpha a b beta c) = length c ∧ Forall u32 (sgemm m n k alpha a b beta c)) →
  matrix n d data → matrix k d centroids → sizes_fit n d k → MAX_MATRIX_ELEMS < Z.of_nat k → length assignments = n → (offset < n)%nat → Forall (λ a, a < k)%nat (take offset assignments) →
  ∃ obj' assignments', balanced_step arch sgemm ln data n d centroids k balance (Z.to_nat (MAX_MATRIX_ELEMS / Z.of_nat k)) (obj, assignments, offset) = Ok (obj', assignments', offset).
Proof.
  intros Hsg Hm Hc Hf Hk Hl Ho Fo. rewrite (Z.div_small MAX_MATRIX_ELEMS) by (unfold MAX_MATRIX_ELEMS in *; lia). cbn [Z.to_nat].
  destruct (balanced_step_ok arch sgemm ln Hsg n d k data centroids balance 0 Hm Hc) with (obj := obj) (l := assignments) (offset := offset) as (obj' & l' & E & _);
    [unfold MAX_MATRIX_ELEMS in *; lia|done|done|by split_and!; [|lia|]|done|]. rewrite Nat.min_0_r, Nat.add_0_r in E. by exists obj', l'.
Qed.

(** A coreset with fewer rows than centroids is filled up with the origin. *)
Theorem streaming_fills_with_origin `{Rng R} (gen_f32 : R → Z * R) (arch : Arch) (sgemm : nat → nat → nat → Z → list Z → list Z → Z → list Z → list Z) (ln : Z → Z) (threads : Z) (s : StreamingKMeans) :
  stream_ok s → (length (coreset_weights s) ≤ sk_k s)%nat →
  finalize gen_f32 arch sgemm ln threads s = Ok (coreset_centroids s ++ replicate ((sk_k s - length (coreset_weights s)) * sk_d s) 0).
Proof.
  intros [[Hr _] _] Hle. unfold finalize. destruct (Nat.eqb_spec (length (coreset_weights s)) 0) as [E|].
  - rewrite E in *. destruct (coreset_centroids s); [|done]. by rewrite Nat.sub_0_r.
  - rewrite (proj2 (Nat.leb_le _ _)) by done. rewrite resize_ge by nia. do 3 f_equal. nia.
Qed.
