(* ===== verification/PqTrain.v ===== *)
(** Training a product quantizer and encoding a batch with it
    ([train_hot_start_with_parallelism] and [encode_batch] of [core/src/pq.rs]).

    The clustering of one subquantizer's rows is an argument; what it must
    return is the hypothesis [kmeans_len], the length of its result.  The number
    of threads changes no result and is left out. *)

From S2P Require Import Prelude F32 DiskannUtil RowIds DiskannHeader Pq SparseTable CompactAdjacency VamanaGraph VamanaRepair.
From S2P Require Import RobustPrune GreedySearch VamanaBuild.

Section Train.
Context (kmeans : list Z → nat → nat → nat → option (list Z) → list Z) (fvec_norm_l2sqr : list Z → Z).

(** The rows of one chunk, copied next to each other. *)
Definition sub_rows (data : list Z) (n d start chunk_dim : nat) : io_result (list Z) :=
  try_fold (λ sub_data i, row ← expect (get_slice (i * d + start) chunk_dim data); Ok (sub_data ++ row)) [] (seq 0 n).

Definition train_sub (q : ProductQuantizer) (data : list Z) (n : nat) (prev_centroids : option (list Z)) (sub : nat) : io_result (list Z) :=
  '(start, stop) ← chunk_range q sub;
  let chunk_dim := Z.to_nat (stop - start) in
  let ksub := Z.to_nat (q_ksub q) in
  sub_data ← sub_rows data n (Z.to_nat (q_d q)) (Z.to_nat start) chunk_dim;
  init ← match prev_centroids with
         | Some pc => Some <$> expect (get_slice (Z.to_nat start * ksub) (ksub * chunk_dim) pc)
         | None => Ok None
         end;
  Ok (kmeans sub_data n chunk_dim ksub init).

(** [centroids[dst..].copy_from_slice(&sub_centroids)] *)
Definition place_sub (q : ProductQuantizer) (centroids : list Z) (sub_result : nat * list Z) : io_result (list Z) :=
  let '(sub, sub_centroids) := sub_result in
  '(start, stop) ← chunk_range q sub;
  let dst_offset := Z.to_nat (centroid_chunk_base q start) in
  let len := Z.to_nat (q_ksub q * (stop - start)) in
  if (length sub_centroids =? len)%nat && (dst_offset + len <=? length centroids)%nat
  then Ok (splice dst_offset sub_centroids centroids) else Panic.

Definition train_hot_start (q : ProductQuantizer) (data : list Z) (n : nat) (hot_start : bool) : io_result ProductQuantizer :=
  let prev_centroids := if hot_start && negb (bool_decide (q_centroids q = [])) then Some (q_centroids q) else None in
  sub_results ← try_map (train_sub q data n prev_centroids) (seq 0 (Z.to_nat (q_m q)));
  centroids ← try_fold (place_sub q) (replicate (Z.to_nat (q_d q * q_ksub q)) 0) (imap pair sub_results);
  try_set_centroids fvec_norm_l2sqr q centroids.

End Train.

(** Every vector is encoded into its own chunk of the code buffer. *)
Definition encode_batch (compute_sub_l2_distances : list Z → nat → list Z) (q : ProductQuantizer) (data : list Z) (n : nat) (codes : list Z) :
    io_result (list Z) :=
  let d := Z.to_nat (q_d q) in
  let cs := Z.to_nat (code_size q) in
  if (cs =? 0)%nat then Panic
  else
    encoded ← try_map (λ '(i, code_chunk),
      if (i <? n)%nat then
        x ← expect (get_slice (i * d) d data);
        pq_encode (compute_sub_l2_distances x) q code_chunk
      else Ok code_chunk) (imap pair (chunks cs codes));
    Ok (concat encoded).

(** ** Training *)

(** A quantizer whose chunk plan is valid, trained or not. *)
Record plan_ok (q : ProductQuantizer) : Prop := {
  pl_d : 0 < q_d q;
  pl_nbits : q_nbits q = 4 ∨ q_nbits q = 8;
  pl_offsets : offsets_ok (q_d q) (q_chunk_offsets q);
  pl_m : q_m q = zlen (q_chunk_offsets q) - 1;
  pl_dsub : max_of (widths (q_chunk_offsets q)) = Some (q_dsub q);
  pl_ksub : q_ksub q = 2 ^ q_nbits q;
}.

(** The same quantizer with another codebook. *)
Definition with_centroids (q : ProductQuantizer) (centroids : list Z) : ProductQuantizer :=
  Quantizer (q_d q) (q_m q) (q_nbits q) (q_dsub q) (q_ksub q) (q_chunk_offsets q) centroids
    (q_centroids_are_finite q) (q_centroid_norms_cache q).

Lemma plan_with_centroids q centroids : plan_ok q → zlen centroids = q_d q * q_ksub q → pq_ok (with_centroids q centroids).
Proof. intros [] Hl. by split. Qed.

Lemma pq_ok_plan q : pq_ok q → plan_ok q.
Proof. intros []. by split. Qed.

Lemma plan_ksub q : plan_ok q → 16 <= q_ksub q <= 256.
Proof. intros Hok. rewrite (pl_ksub q Hok). destruct (pl_nbits q Hok) as [-> | ->]; lia. Qed.

Lemma plan_chunks q sub :
  plan_ok q → (sub < Z.to_nat (q_m q))%nat →
  ∃ start stop, chunk_range q sub = Ok (start, stop) ∧ q_chunk_offsets q !! sub = Some start ∧
    q_chunk_offsets q !! S sub = Some stop ∧ 0 <= start < stop ∧ stop <= q_d q.
Proof.
  intros Hok Hs. pose proof (plan_ksub q Hok). pose proof (pl_d q Hok).
  assert (pq_ok (with_centroids q (replicate (Z.to_nat (q_d q * q_ksub q)) 0))) as Hq.
  { apply plan_with_centroids; [done|]. unfold zlen. rewrite length_replicate. nia. }
  exact (chunk_bounds _ sub Hq Hs).
Qed.

Section TrainLaws.
Context (kmeans : list Z → nat → nat → nat → option (list Z) → list Z) (norm : list Z → Z).
Context (kmeans_len : ∀ rows n chunk_dim k init, length rows = (n * chunk_dim)%nat →
  length (kmeans rows n chunk_dim k init) = (k * chunk_dim)%nat).
Context (q : ProductQuantizer) (Hq : plan_ok q) (data : list Z) (n : nat) (Hdata : (Z.of_nat n * q_d q <= zlen data)).

(** Rows [start, start + w) of every vector. *)
Lemma sub_rows_ok start w k :
  (Z.of_nat start + Z.of_nat w <= q_d q) → (k ≤ n)%nat →
  sub_rows data k (Z.to_nat (q_d q)) start w = Ok (concat ((λ i, slice (i * Z.to_nat (q_d q) + start) w data) <$> seq 0 k)) ∧
  length (concat ((λ i, slice (i * Z.to_nat (q_d q) + start) w data) <$> seq 0 k)) = (k * w)%nat.
Proof.
  intros Hw. pose proof (pl_d q Hq). unfold sub_rows. induction k as [|k IH]; intros Hk; [done|]. destruct IH as [E Hl]; [lia|].
  assert ((k * Z.to_nat (q_d q) + start + w ≤ length data)%nat) as Hin.
  { unfold zlen in Hdata. assert (Z.of_nat (S k) * q_d q <= Z.of_nat n * q_d q) by (apply Z.mul_le_mono_nonneg_r; lia). nia. }
  rewrite seq_S, try_fold_app, E, fmap_app, concat_app. cbn [Nat.add mbind io_result_bind try_fold].
  assert (get_slice (k * Z.to_nat (q_d q) + start) w data = Some (slice (k * Z.to_nat (q_d q) + start) w data)) as -> by (by apply get_slice_Some).
  cbn [expect mbind io_result_bind fmap list_fmap concat]. rewrite app_nil_r. split; [done|].
  rewrite length_app, Hl. unfold slice. rewrite length_take, length_drop. lia.
Qed.

(** The clustering of chunk [sub], from scratch or from the previous codebook. *)
Definition trained_sub (prev : option (list Z)) (sub : nat) : list Z :=
  let start := Z.to_nat (default 0 (q_chunk_offsets q !! sub)) in
  let stop := Z.to_nat (default 0 (q_chunk_offsets q !! S sub)) in
  let w := (stop - start)%nat in
  let ksub := Z.to_nat (q_ksub q) in
  kmeans (concat ((λ i, slice (i * Z.to_nat (q_d q) + start) w data) <$> seq 0 n)) n w ksub
    (slice (start * ksub) (ksub * w) <$> prev).

Lemma train_sub_ok prev sub :
  (∀ pc, prev = Some pc → zlen pc = q_d q * q_ksub q) → (sub < Z.to_nat (q_m q))%nat →
  train_sub kmeans q data n prev sub = Ok (trained_sub prev sub).
Proof.
  intros Hprev Hs. destruct (plan_chunks q sub Hq Hs) as (start & stop & Hr & Ha & Hb & Hst & Hd). pose proof (plan_ksub q Hq).
  unfold train_sub, trained_sub. rewrite Hr, Ha, Hb. cbn [mbind io_result_bind default from_option Datatypes.id].
  destruct (sub_rows_ok (Z.to_nat start) (Z.to_nat (stop - start)) n ltac:(lia) ltac:(lia)) as [-> _]. cbn [mbind io_result_bind].
  replace (Z.to_nat stop - Z.to_nat start)%nat with (Z.to_nat (stop - start)) by lia.
  destruct prev as [pc|]; [|done]. specialize (Hprev pc eq_refl).
  assert (get_slice (Z.to_nat start * Z.to_nat (q_ksub q)) (Z.to_nat (q_ksub q) * Z.to_nat (stop - start)) pc =
    Some (slice (Z.to_nat start * Z.to_nat (q_ksub q)) (Z.to_nat (q_ksub q) * Z.to_nat (stop - start)) pc)) as ->; [|done].
  apply get_slice_Some. split; [|done]. unfold zlen in Hprev.
  assert (stop * q_ksub q <= q_d q * q_ksub q) by (apply Z.mul_le_mono_nonneg_r; lia). nia.
Qed.

Lemma length_trained_sub prev sub start stop :
  (sub < Z.to_nat (q_m q))%nat → q_chunk_offsets q !! sub = Some start → q_chunk_offsets q !! S sub = Some stop →
  0 <= start < stop → stop <= q_d q → zlen (trained_sub prev sub) = q_ksub q * (stop - start).
Proof.
  intros Hs Ha Hb Hst Hd. unfold trained_sub. rewrite Ha, Hb. cbn [from_option Datatypes.id]. pose proof (plan_ksub q Hq).
  destruct (sub_rows_ok (Z.to_nat start) (Z.to_nat stop - Z.to_nat start) n ltac:(lia) ltac:(lia)) as [_ Hl].
  unfold zlen. rewrite kmeans_len by done. nia.
Qed.

(** After [k] subquantizers the codebook starts with their clusters in order. *)
Lemma place_loop prev k :
  (k ≤ Z.to_nat (q_m q))%nat →
  let done_ := concat (trained_sub prev <$> seq 0 k) in
  ∃ start, q_chunk_offsets q !! k = Some start ∧ 0 <= start <= q_d q ∧ zlen done_ = start * q_ksub q ∧
    try_fold (place_sub q) (replicate (Z.to_nat (q_d q * q_ksub q)) 0) (imap pair (trained_sub prev <$> seq 0 k)) =
      Ok (done_ ++ replicate (Z.to_nat ((q_d q - start) * q_ksub q)) 0).
Proof.
  pose proof (plan_ksub q Hq). pose proof (pl_d q Hq). induction k as [|k IH]; intros Hk.
  { destruct (pl_offsets q Hq) as (_ & Hzero & _). exists 0. split_and!; [done|lia|lia|done|]. cbn. by rewrite Z.sub_0_r. }
  destruct IH as (start & Hstart & Hb & Hlen & E); [lia|]. cbn zeta in *.
  destruct (plan_chunks q k Hq ltac:(lia)) as (start' & stop & Hr & Ha & Hb' & Hst & Hd). rewrite Hstart in Ha. injection Ha as <-.
  pose proof (length_trained_sub prev k start stop ltac:(lia) Hstart Hb' Hst Hd) as Hl.
  exists stop. rewrite seq_S, fmap_app, concat_app. cbn [Nat.add fmap list_fmap concat]. rewrite app_nil_r, zlen_app, Hlen, Hl.
  split_and!; [done|lia|lia|nia|]. rewrite imap_pair_snoc, try_fold_app, E, length_fmap, length_seq. cbn [mbind io_result_bind try_fold place_sub].
  rewrite Hr. cbn [mbind io_result_bind]. unfold centroid_chunk_base, zlen in *. set (pre := concat _) in *.
  replace (Z.to_nat (start * q_ksub q)) with (length pre) by lia.
  assert ((q_d q - start) * q_ksub q = q_ksub q * (stop - start) + (q_d q - stop) * q_ksub q) as Esplit by ring.
  assert (0 <= (q_d q - stop) * q_ksub q) by nia. assert (0 <= q_ksub q * (stop - start)) by nia.
  rewrite (proj2 (Nat.eqb_eq _ _)), (proj2 (Nat.leb_le _ _)) by (rewrite ?length_app, ?length_replicate; lia). cbn [andb].
  cbn [mbind io_result_bind]. rewrite splice_prefix, <- app_assoc. do 3 f_equal. rewrite drop_replicate. f_equal. lia.
Qed.

(** Training succeeds, and the codebook is the clusters of the chunks in order. *)
Lemma train_ok hot_start :
  (hot_start = true → q_centroids q ≠ [] → zlen (q_centroids q) = q_d q * q_ksub q) →
  ∃ q' prev, train_hot_start kmeans norm q data n hot_start = Ok q' ∧ pq_ok q' ∧
    q_centroids q' = concat (trained_sub prev <$> seq 0 (Z.to_nat (q_m q))) ∧
    q_d q' = q_d q ∧ q_m q' = q_m q ∧ q_nbits q' = q_nbits q ∧ q_chunk_offsets q' = q_chunk_offsets q ∧
    (hot_start = false → prev = None) ∧ try_set_centroids norm q' (q_centroids q') = Ok q'.
Proof.
  intros Hhot. unfold train_hot_start.
  set (prev := if hot_start && negb (bool_decide (q_centroids q = [])) then Some (q_centroids q) else None).
  assert (∀ pc, prev = Some pc → zlen pc = q_d q * q_ksub q) as Hprev.
  { intros pc E. unfold prev in E. destruct hot_start; [|done]. case_bool_decide; [done|]. injection E as <-. by apply Hhot. }
  assert (try_map (train_sub kmeans q data n prev) (seq 0 (Z.to_nat (q_m q))) = Ok (trained_sub prev <$> seq 0 (Z.to_nat (q_m q)))) as ->.
  { apply try_map_Ok, Forall2_fmap_r, Forall_Forall2_diag, Forall_forall. intros sub Hs%elem_of_seq. apply train_sub_ok; [done|lia]. }
  cbn [mbind io_result_bind]. destruct (place_loop prev (Z.to_nat (q_m q)) ltac:(lia)) as (start & Hstart & Hb & Hlen & ->). cbn [mbind io_result_bind].
  assert (start = q_d q) as ->.
  { destruct (pl_offsets q Hq) as (Hl & _ & Hlast & _). rewrite last_lookup in Hlast. pose proof (pl_m q Hq) as Hm. unfold zlen in Hm.
    replace (Z.to_nat (q_m q)) with (pred (length (q_chunk_offsets q))) in Hstart by lia. congruence. }
  rewrite Z.sub_diag. cbn [Z.mul Z.to_nat replicate]. rewrite app_nil_r. set (centroids := concat _) in *.
  destruct (try_set_centroids_ok norm (with_centroids q centroids)) as (q' & E & Hq' & Hidem).
  { by apply plan_with_centroids. }
  change (q_centroids (with_centroids q centroids)) with centroids in E.
  change (try_set_centroids norm (with_centroids q centroids) centroids) with (try_set_centroids norm q centroids) in E.
  exists q', prev. rewrite E. split_and!; try done; try (by intros ->);
    (unfold try_set_centroids in E; destruct (negb (zlen centroids =? _)); [done|]; bind_ok E as norms Hn; by injection E as <-).
Qed.

End TrainLaws.

(** ** Encoding a batch *)

Lemma chunks_all {A} w k (l : list A) : (0 < w)%nat → length l = (k * w)%nat → chunks w l = (λ i, slice (i * w) w l) <$> seq 0 k.
Proof.
  intros Hw. unfold chunks. assert (∀ fuel k (l : list A), length l = (k * w)%nat → (length l ≤ fuel)%nat →
    chunks_fuel fuel w l = (λ i, slice (i * w) w l) <$> seq 0 k) as H.
  { clear k l. intros fuel. induction fuel as [|fuel IH]; intros k l Hl Hf.
    - destruct k; [|nia]. destruct l; [done|]. cbn in Hf. lia.
    - destruct k as [|k]. { destruct l; [done|]. cbn in Hl. lia. }
      destruct l as [|a l]; [cbn in Hl; lia|]. cbn [chunks_fuel]. set (L := a :: l) in *.
      rewrite (IH k); [|rewrite length_drop; lia|rewrite length_drop; lia].
      cbn [seq]. rewrite fmap_cons. unfold slice at 2. cbn [Nat.mul]. rewrite drop_0. f_equal.
      rewrite <- (fmap_S_seq 0 k), <- list_fmap_compose. apply list_fmap_ext. intros i j _. cbn. unfold slice. by rewrite drop_drop. }
  intros Hl. by apply H.
Qed.

Section Batch.
Context (distances : list Z → nat → list Z) (q : ProductQuantizer) (Hq : pq_ok q).
Context (Hdist : ∀ x sub, (sub < Z.to_nat (q_m q))%nat → zlen (distances x sub) = q_ksub q).

Lemma code_size_pos : 0 < code_size q.
Proof. pose proof (m_pos q Hq). unfold code_size. destruct (q_nbits q =? 4); [|done]. pose proof (div_ceil_spec (q_m q) 2). lia. Qed.

(** The code of vector [i] of [data]. *)
Definition code_of (data : list Z) (i : nat) : list Z :=
  code_bytes q (distances (slice (i * Z.to_nat (q_d q)) (Z.to_nat (q_d q)) data)).

Lemma length_code_of data i : length (code_of data i) = Z.to_nat (code_size q).
Proof. pose proof (length_code_bytes q Hq (distances (slice (i * Z.to_nat (q_d q)) (Z.to_nat (q_d q)) data))) as Hl. unfold zlen in Hl. unfold code_of. lia. Qed.

Lemma code_of_u8 data i : Forall u8 (code_of data i).
Proof.
  unfold code_of, code_bytes. set (x := slice _ _ data). pose proof (ksub_pos q Hq). destruct (q_nbits q =? 4) eqn:E.
  - apply Z.eqb_eq in E. assert (q_ksub q = 16) as Hk by (by rewrite (ok_ksub q Hq), E).
    apply Forall_fmap, Forall_forall. intros pair Hp%elem_of_seq. cbn. pose proof (hi_bound q Hq (distances x) (Hdist x) pair Hk).
    pose proof (best_bound q Hq (distances x) (Hdist x) (pair * 2) (pair_bound q Hq pair ltac:(lia))). unfold_widths. lia.
  - apply Forall_fmap, Forall_forall. intros sub Hs%elem_of_seq. cbn. pose proof (best_bound q Hq (distances x) (Hdist x) sub ltac:(lia)). unfold_widths. lia.
Qed.

Lemma encode_batch_ok data n :
  zlen data = Z.of_nat n * q_d q →
  encode_batch distances q data n (replicate (n * Z.to_nat (code_size q)) 0) = Ok (concat (code_of data <$> seq 0 n)).
Proof.
  intros Hdata. pose proof code_size_pos as Hcs. pose proof (ok_d q Hq) as Hd. unfold encode_batch.
  rewrite (proj2 (Nat.eqb_neq _ _)) by lia.
  rewrite (chunks_all _ n) by (rewrite ?length_replicate; lia).
  assert (try_map (λ '(i, code_chunk), if (i <? n)%nat then x ← expect (get_slice (i * Z.to_nat (q_d q)) (Z.to_nat (q_d q)) data);
     pq_encode (distances x) q code_chunk else Ok code_chunk)
     (imap pair ((λ i, slice (i * Z.to_nat (code_size q)) (Z.to_nat (code_size q)) (replicate (n * Z.to_nat (code_size q)) 0)) <$> seq 0 n)) =
     Ok (code_of data <$> seq 0 n)) as ->; [|done].
  apply try_map_Ok, Forall2_same_length_lookup. split; [by rewrite length_imap, !length_fmap|].
  intros i x y Hx Hy. rewrite list_lookup_imap, list_lookup_fmap in Hx. rewrite list_lookup_fmap in Hy.
  destruct (seq 0 n !! i) as [j|] eqn:Ej; [|done]. apply lookup_seq in Ej as [-> Hi]. cbn in Hx, Hy. injection Hx as <-. injection Hy as <-.
  rewrite (proj2 (Nat.ltb_lt _ _)) by done.
  assert (get_slice (i * Z.to_nat (q_d q)) (Z.to_nat (q_d q)) data = Some (slice (i * Z.to_nat (q_d q)) (Z.to_nat (q_d q)) data)) as ->.
  { apply get_slice_Some. split; [|done]. unfold zlen in Hdata. nia. }
  cbn [expect mbind io_result_bind]. apply pq_encode_bytes; [done|intros; by apply Hdist|].
  unfold zlen, slice. rewrite length_take, length_drop, length_replicate.
  assert ((i * Z.to_nat (code_size q) + Z.to_nat (code_size q) ≤ n * Z.to_nat (code_size q))%nat) by nia. lia.
Qed.

End Batch.

(** C27: training fills the codebook of any quantizer with a valid chunk plan:
    from scratch or starting at the previous codebook, it succeeds, keeps the
    plan, makes the quantizer valid, and stores the clusters of chunk after
    chunk; the caches agree with the codebook.  Encoding a batch with it then
    gives every vector the code it would get alone, side by side. *)
Theorem pq_train_then_encode (kmeans : list Z → nat → nat → nat → option (list Z) → list Z) (norm : list Z → Z)
    (distances : list Z → nat → list Z) (q : ProductQuantizer) (data batch : list Z) (n k : nat) (hot_start : bool) :
  (∀ rows n chunk_dim k init, length rows = (n * chunk_dim)%nat → length (kmeans rows n chunk_dim k init) = (k * chunk_dim)%nat) →
  plan_ok q → Z.of_nat n * q_d q <= zlen data →
  (hot_start = true → q_centroids q ≠ [] → zlen (q_centroids q) = q_d q * q_ksub q) →
  (∀ x sub, (sub < Z.to_nat (q_m q))%nat → zlen (distances x sub) = q_ksub q) → zlen batch = Z.of_nat k * q_d q →
  ∃ q' prev, train_hot_start kmeans norm q data n hot_start = Ok q' ∧ has_valid_layout q' = Ok true ∧
    q_centroids q' = concat (trained_sub kmeans q data n prev <$> seq 0 (Z.to_nat (q_m q))) ∧
    q_chunk_offsets q' = q_chunk_offsets q ∧ (hot_start = false → prev = None) ∧
    try_set_centroids norm q' (q_centroids q') = Ok q' ∧
    ∃ codes, encode_batch distances q' batch k (replicate (k * Z.to_nat (code_size q')) 0) = Ok (concat codes) ∧ length codes = k ∧
      ∀ i c, codes !! i = Some c → zlen c = code_size q' ∧
        ∃ x, get_slice (i * Z.to_nat (q_d q)) (Z.to_nat (q_d q)) batch = Some x ∧
          ∀ buffer, zlen buffer = code_size q' → pq_encode (distances x) q' buffer = Ok c.
Proof.
  intros Hk Hq Hdata Hhot Hdist Hbatch. destruct (train_ok kmeans norm Hk q Hq data n Hdata hot_start Hhot) as (q' & prev & E & Hq' & Hc & Ed & Em & En & Eo & Hp & Hi).
  assert (q_ksub q' = q_ksub q) as Ek by (by rewrite (ok_ksub q' Hq'), (pl_ksub q Hq), En).
  assert (∀ x sub, (sub < Z.to_nat (q_m q'))%nat → zlen (distances x sub) = q_ksub q') as Hdist' by (intros; rewrite Ek; apply Hdist; lia).
  exists q', prev. pose proof (pl_d q Hq). split_and!; try done; [apply has_valid_layout_true; [lia|done]|].
  exists (code_of distances q' batch <$> seq 0 k). split_and!; [apply encode_batch_ok; try done; by rewrite Ed|by rewrite length_fmap, length_seq|].
  intros i c Hi'. rewrite list_lookup_fmap in Hi'. destruct (seq 0 k !! i) as [j|] eqn:Ej; [|done]. apply lookup_seq in Ej as [-> Hlt]. cbn in Hi'. injection Hi' as <-.
  split; [by apply length_code_bytes|]. exists (slice (i * Z.to_nat (q_d q)) (Z.to_nat (q_d q)) batch). split.
  { apply get_slice_Some. split; [|done]. unfold zlen in Hbatch. nia. }
  intros buffer Hb. unfold code_of. rewrite Ed. apply pq_encode_bytes; [done|intros; by apply Hdist'|done].
Qed.

(** ** A concrete training: clusters are the first rows *)

Definition demo_kmeans (rows : list Z) (n chunk_dim k : nat) (init : option (list Z)) : list Z := 
  take (k * chunk_dim) (rows ++ replicate (k * chunk_dim) 0).
Definition demo_plan : ProductQuantizer := match with_nbits_balanced 4 3 4 with Ok q => q | _ => demo_pq end.

Lemma demo_plan_ok : plan_ok demo_plan.
Proof. split; try (by vm_compute); [by left|]. split_and!; [vm_compute; repeat constructor|done|done|]. intros i a b. do 3 (destruct i as [|i]; [vm_compute; by intros [= <-] [= <-]|]). by destruct i. Qed.

Lemma pq_train_then_encode_witness :
  ∃ q' prev, train_hot_start demo_kmeans demo_norm demo_plan (seqZ 0 40) 10 false = Ok q' ∧ has_valid_layout q' = Ok true ∧
    q_centroids q' = concat (trained_sub demo_kmeans demo_plan (seqZ 0 40) 10 prev <$> seq 0 (Z.to_nat (q_m demo_plan))) ∧
    q_chunk_offsets q' = q_chunk_offsets demo_plan ∧ (false = false → prev = None) ∧
    try_set_centroids demo_norm q' (q_centroids q') = Ok q' ∧
    ∃ codes, encode_batch (λ _, demo_distances) q' (seqZ 0 8) 2 (replicate (2 * Z.to_nat (code_size q')) 0) = Ok (concat codes) ∧ length codes = 2%nat ∧
      ∀ i c, codes !! i = Some c → zlen c = code_size q' ∧
        ∃ x, get_slice (i * Z.to_nat (q_d demo_plan)) (Z.to_nat (q_d demo_plan)) (seqZ 0 8) = Some x ∧
          ∀ buffer, zlen buffer = code_size q' → pq_encode demo_distances q' buffer = Ok c.
Proof.
  apply (pq_train_then_encode demo_kmeans demo_norm (λ _, demo_distances) demo_plan (seqZ 0 40) (seqZ 0 8) 10 2 false).
  - intros rows n w k init _. unfold demo_kmeans. rewrite length_take, length_app, length_replicate. lia.
  - exact demo_plan_ok.
  - by vm_compute.
  - discriminate.
  - intros _ sub Hs. do 3 (destruct sub as [|sub]; [by vm_compute|]). vm_compute in Hs. lia.
  - by vm_compute.
Defined.
