(* ===== verification/TrainingPlan.v ===== *)
(** The sample a DiskANN index trains its quantizer on ([core/src/diskann.rs]):
    how many vectors fit the memory budget, with how many workers, and which
    vectors they are. *)

From Stdlib Require Import Morphisms.
From S2P Require Import Prelude Adjacency DiskannUtil RowIds DiskannHeader CompactAdjacency VamanaGraph VamanaRepair.
From S2P Require Import RobustPrune GreedySearch VamanaBuild.

Definition DISKANN_MAX_PQ_TRAINING_VECTORS : Z := 50000.

Record PqTrainingPlan := TrainingPlan { sample_count : Z; parallelism : Z }.

(** [[a, b, c, d].into_iter().try_fold(0usize, |total, bytes| total.checked_add(bytes))] *)
Definition checked_sum (l : list Z) : option Z := foldl (λ total bytes, total ← total; checked_add 64 total bytes) (Some 0) l.

Section Plan.
Context (dimension pq_m ksub memory_budget_bytes sample_buffer_count : Z) (threads : Z).

Definition max_chunk_dimension : Z := div_ceil dimension (Z.max pq_m 1).

(** The closure [peak_for]. *)
Definition peak_for (samples workers : Z) : option Z :=
  sample_bytes ← checked_mul 64 samples dimension;
  sample_bytes ← checked_mul 64 sample_bytes 4;
  sample_bytes ← checked_mul 64 sample_bytes sample_buffer_count;
  codebook_bytes ← checked_mul 64 dimension ksub;
  codebook_bytes ← checked_mul 64 codebook_bytes 4;
  subvector_copy_bytes ← checked_mul 64 samples max_chunk_dimension;
  subvector_copy_bytes ← checked_mul 64 subvector_copy_bytes 8;
  assignment_bytes ← checked_mul 64 samples 12;
  score_matrix ← checked_mul 64 samples ksub;
  score_matrix_bytes ← checked_mul 64 (Z.min score_matrix (4 * 1024 * 1024)) 4;
  centroid_scratch_bytes ← checked_mul 64 max_chunk_dimension ksub;
  centroid_scratch_bytes ← checked_mul 64 centroid_scratch_bytes 12;
  per_task ← checked_sum [subvector_copy_bytes; assignment_bytes; score_matrix_bytes; centroid_scratch_bytes];
  fixed ← checked_add 64 sample_bytes codebook_bytes;
  tasks ← checked_mul 64 per_task workers;
  checked_add 64 fixed tasks.

Definition fits (samples workers : Z) : bool :=
  match peak_for samples workers with Some peak => peak <=? memory_budget_bytes | None => false end.

(** [while low < high] *)
Fixpoint bisect (fuel : nat) (low high : Z) : Z :=
  match fuel with
  | O => low
  | S fuel =>
      if low <? high then
        let middle := low + div_ceil (high - low) 2 in
        if fits middle 1 then bisect fuel middle high else bisect fuel low (middle - 1)
      else low
  end.

(** [(1..=current).rev().find(..).unwrap_or(1)] *)
Fixpoint widest (samples : Z) (workers : nat) : Z :=
  match workers with
  | O => 1
  | S w => if fits samples (Z.of_nat (S w)) then Z.of_nat (S w) else widest samples w
  end.

Definition pq_training_plan_with_sample_buffers (vector_count : Z) : io_result PqTrainingPlan :=
  if vector_count =? 0 then Ok (TrainingPlan 0 1)
  else
    let max_sample := Z.min vector_count DISKANN_MAX_PQ_TRAINING_VECTORS in
    let min_sample := Z.min vector_count (Z.max ksub 1) in
    let current_parallelism := Z.min (Z.max threads 1) (Z.max pq_m 1) in
    _ ← ensure_input (fits min_sample 1) "below the estimated one-worker PQ training peak";
    let low := bisect (Z.to_nat (max_sample - min_sample)) min_sample max_sample in
    Ok (TrainingPlan low (widest low (Z.to_nat current_parallelism))).

End Plan.

(** [usize::from(metric == MetricType::Cosine) + 1] *)
Definition sample_buffers (m : MetricType) : Z := match m with Cosine => 2 | _ => 1 end.

Definition validate_diskann_training_budget (threads dimension : Z) (m : MetricType) (pq_m pq_bits memory_budget_bytes : Z) : io_result unit :=
  let minimum_training_vectors := Z.shiftl 1 pq_bits in
  match pq_training_plan_with_sample_buffers dimension pq_m minimum_training_vectors memory_budget_bytes (sample_buffers m) threads
          minimum_training_vectors with
  | Ok _ => Ok ()
  | Err _ => invalid_input "DiskANN memory budget cannot fit minimum PQ training"
  | Panic => Panic
  end.
Definition diskann_training_sample_limit (threads dimension : Z) (m : MetricType) (pq_m pq_bits memory_budget_bytes : Z) : io_result Z :=
  sample_count <$> pq_training_plan_with_sample_buffers dimension pq_m (Z.shiftl 1 pq_bits) memory_budget_bytes (sample_buffers m) threads
                     DISKANN_MAX_PQ_TRAINING_VECTORS.

(** ** The sample: a reservoir over the vectors *)

Section Sample.
Context `{Rng R}.

Definition replace_row (sample : list Z) (row dimension : nat) (vector : list Z) : io_result (list Z) :=
  if (row * dimension + dimension <=? length sample)%nat && (length vector =? dimension)%nat
  then Ok (splice (row * dimension) vector sample) else Panic.

Definition reservoir_step (sample_limit dimension : nat) (st : list Z * R) (indexed : nat * list Z) : io_result (list Z * R) :=
  let '(sample, rng) := st in
  let '(stream_index, vector) := indexed in
  let '(replacement, rng) := gen_range 0 (S stream_index) rng in
  if (replacement <? sample_limit)%nat then sample ← replace_row sample replacement dimension vector; Ok (sample, rng)
  else Ok (sample, rng).

Definition bounded_pq_training_sample (data : list Z) (count dimension sample_limit : nat) (seed : Z) : io_result (option (list Z)) :=
  if (count <=? sample_limit)%nat then Ok None
  else
    first ← expect (get_slice 0 (sample_limit * dimension) data);
    '(sample, _) ← try_fold (reservoir_step sample_limit dimension) (first, seed_from_u64 seed : R)
                     (take (count - sample_limit) (drop sample_limit (imap pair (chunks_exact dimension data))));
    Ok (Some sample).

End Sample.

(** ** Checked arithmetic is monotone

    [ale a b]: when [b] is a value, [a] is a value that is not above it. *)

Definition ale (a b : option Z) : Prop := match b with Some y => ∃ x, a = Some x ∧ 0 <= x <= y | None => True end.

Lemma ale_mul w a b c d : 0 <= a <= b → 0 <= c <= d → ale (checked_mul w a c) (checked_mul w b d).
Proof.
  intros Ha Hc. unfold checked_mul, ale. destruct (Z.ltb_spec (b * d) (2 ^ w)); [|done]. assert (0 <= a * c <= b * d) by nia.
  rewrite (proj2 (Z.ltb_lt _ _)) by lia. eauto.
Qed.

Lemma ale_add w a b c d : 0 <= a <= b → 0 <= c <= d → ale (checked_add w a c) (checked_add w b d).
Proof.
  intros Ha Hc. unfold checked_add, ale. destruct (Z.ltb_spec (b + d) (2 ^ w)); [|done]. rewrite (proj2 (Z.ltb_lt (a + c) (2 ^ w))) by lia.
  eexists. split; [done|]. lia.
Qed.

Lemma ale_bind a b (f g : Z → option Z) :
  ale a b → (∀ x y, 0 <= x <= y → ale (f x) (g y)) → ale (x ← a; f x) (y ← b; g y).
Proof. unfold ale at 1. destruct b as [y|]; [|done]. intros (x & -> & Hx) Hf. by apply Hf. Qed.

Lemma checked_sum_ale l k : Forall2 (λ x y, 0 <= x <= y) l k → ale (checked_sum l) (checked_sum k).
Proof.
  intros Hf. unfold checked_sum.
  assert (∀ a b, ale a b → ale (foldl (λ total bytes, total ← total; checked_add 64 total bytes) a l)
                               (foldl (λ total bytes, total ← total; checked_add 64 total bytes) b k)) as Hgen; [|apply Hgen; exists 0; split; [done|lia]].
  induction Hf as [|x y l k Hxy _ IH]; intros a b Hab; [done|]. cbn [foldl]. apply IH. apply ale_bind; [done|]. intros u v Huv. by apply ale_add.
Qed.

Ltac ale_step :=
  lazymatch goal with
  | |- ale (checked_mul _ _ _) _ => apply ale_mul; lia
  | |- ale (checked_add _ _ _) _ => apply ale_add; lia
  | |- ale (checked_sum _) _ => apply checked_sum_ale; repeat (constructor; [lia|]); constructor
  | |- ale _ _ => apply ale_bind; [|intros ?? ?]
  end.

Section Optimal.
Context (dimension pq_m ksub budget buffers threads : Z).
Context (Hd : 0 <= dimension) (Hk : 0 <= ksub) (Hb : 0 <= buffers).

Lemma max_chunk_nonneg : 0 <= max_chunk_dimension dimension pq_m.
Proof. unfold max_chunk_dimension, div_ceil. apply Z.div_pos; lia. Qed.

(** More samples or workers never need less memory. *)
Lemma peak_for_mono s s' w w' :
  0 <= s <= s' → 0 <= w <= w' → ale (peak_for dimension pq_m ksub buffers s w) (peak_for dimension pq_m ksub buffers s' w').
Proof.
  intros Hs Hw. pose proof max_chunk_nonneg. unfold peak_for. repeat ale_step.
Qed.

Lemma fits_mono s s' w w' :
  0 <= s <= s' → 0 <= w <= w' → fits dimension pq_m ksub budget buffers s' w' = true → fits dimension pq_m ksub budget buffers s w = true.
Proof.
  intros Hs Hw. unfold fits. pose proof (peak_for_mono s s' w w' Hs Hw) as Hale. destruct (peak_for _ _ _ _ s' w') as [p|]; [|done].
  destruct Hale as (x & -> & Hx). rewrite !Z.leb_le. lia.
Qed.

Lemma bisect_spec fuel : ∀ low high,
  0 <= low <= high → high - low <= Z.of_nat fuel → fits dimension pq_m ksub budget buffers low 1 = true →
  let r := bisect dimension pq_m ksub budget buffers fuel low high in
  low <= r <= high ∧ fits dimension pq_m ksub budget buffers r 1 = true ∧
  ∀ s, r < s <= high → fits dimension pq_m ksub budget buffers s 1 = false.
Proof.
  induction fuel as [|fuel IH]; intros low high Hlh Hf Hfit; cbn [bisect]; [split_and!; [lia|lia|done|lia]|].
  destruct (Z.ltb_spec low high) as [Hlt|Hge]; [|split_and!; [lia|lia|done|lia]].
  pose proof (div_ceil_spec (high - low) 2 ltac:(lia)) as Hdc. set (middle := low + div_ceil (high - low) 2).
  destruct (fits _ _ _ _ _ middle 1) eqn:Em.
  - destruct (IH middle high) as (H1 & H2 & H3); [lia|lia|done|]. split_and!; [lia|lia|done|done].
  - destruct (IH low (middle - 1)) as (H1 & H2 & H3); [lia|lia|done|]. split_and!; [lia|lia|done|].
    intros s Hs. destruct (Z.ltb_spec s middle); [apply H3; lia|]. destruct (fits _ _ _ _ _ s 1) eqn:Es; [|done].
    rewrite (fits_mono middle s 1 1) in Em by (done || lia). done.
Qed.

Lemma widest_spec s (w : nat) :
  let r := widest dimension pq_m ksub budget buffers s w in
  1 <= r <= Z.max 1 (Z.of_nat w) ∧ (r = 1 ∨ fits dimension pq_m ksub budget buffers s r = true) ∧
  ∀ v, r < v <= Z.of_nat w → fits dimension pq_m ksub budget buffers s v = false.
Proof.
  induction w as [|w IH]; cbn [widest]; [split_and!; [lia|lia|by left|lia]|]. destruct (fits _ _ _ _ _ s (Z.of_nat (S w))) eqn:E.
  - split_and!; [lia|lia|by right|lia].
  - destruct IH as (H1 & H2 & H3). split_and!; [lia|lia|done|]. intros v Hv. destruct (decide (v = Z.of_nat (S w))) as [->|]; [done|]. apply H3. lia.
Qed.

End Optimal.

Lemma training_plan_spec (dimension pq_m ksub budget buffers threads n : Z) :
  0 <= dimension → 0 <= ksub <= DISKANN_MAX_PQ_TRAINING_VECTORS → 0 <= buffers → 0 < n →
  let fits := fits dimension pq_m ksub budget buffers in
  let min_sample := Z.min n (Z.max ksub 1) in
  let max_sample := Z.min n DISKANN_MAX_PQ_TRAINING_VECTORS in
  let workers := Z.min (Z.max threads 1) (Z.max pq_m 1) in
  match pq_training_plan_with_sample_buffers dimension pq_m ksub budget buffers threads n with
  | Ok plan =>
      min_sample <= sample_count plan <= max_sample ∧ 1 <= parallelism plan <= workers ∧
      fits (sample_count plan) (parallelism plan) = true ∧
      (∀ s, sample_count plan < s <= max_sample → fits s 1 = false) ∧
      (∀ w, parallelism plan < w <= workers → fits (sample_count plan) w = false)
  | Err e => kind e = InvalidInput ∧ fits min_sample 1 = false
  | Panic => False
  end.
Proof.
  intros Hd Hk Hb Hn F mn mx ws. unfold pq_training_plan_with_sample_buffers. rewrite (proj2 (Z.eqb_neq n 0)) by lia. fold mn mx ws F.
  destruct (F mn 1) eqn:Emin; cbn [ensure_input guard_ok mbind io_result_bind]; [|done].
  assert (0 <= mn <= mx) as Hmm by (unfold mn, mx, DISKANN_MAX_PQ_TRAINING_VECTORS in *; lia).
  destruct (bisect_spec dimension pq_m ksub budget buffers Hd (proj1 Hk) Hb (Z.to_nat (mx - mn)) mn mx) as (H1 & H2 & H3); [lia|lia|done|].
  set (s := bisect _ _ _ _ _ _ _ _) in *. destruct (widest_spec dimension pq_m ksub budget buffers s (Z.to_nat ws)) as (H4 & H5 & H6).
  cbn [sample_count parallelism]. assert (1 <= ws) by (unfold ws; lia). split_and!; try lia; try done.
  - destruct H5 as [->|?]; [done|done].
  - intros w Hw. apply H6. lia.
Qed.

(** C26: the training plan is the best one within the budget: it is refused
    exactly when the smallest useful sample does not fit with one worker;
    otherwise the sample size is the largest up to the limits whose estimated
    peak fits with one worker, and the number of workers the largest, up to the
    threads and subquantizers, that fits with that sample. *)
Theorem training_plan_optimal (dimension pq_m ksub budget buffers threads n : Z) :
  0 <= dimension → 0 <= ksub <= DISKANN_MAX_PQ_TRAINING_VECTORS → 0 <= buffers → 0 < n →
  let fits := fits dimension pq_m ksub budget buffers in
  let min_sample := Z.min n (Z.max ksub 1) in
  let max_sample := Z.min n DISKANN_MAX_PQ_TRAINING_VECTORS in
  let workers := Z.min (Z.max threads 1) (Z.max pq_m 1) in
  match pq_training_plan_with_sample_buffers dimension pq_m ksub budget buffers threads n with
  | Ok plan =>
      min_sample <= sample_count plan <= max_sample ∧ 1 <= parallelism plan <= workers ∧
      fits (sample_count plan) (parallelism plan) = true ∧
      (∀ s, sample_count plan < s <= max_sample → fits s 1 = false) ∧
      (∀ w, parallelism plan < w <= workers → fits (sample_count plan) w = false)
  | Err e => kind e = InvalidInput ∧ fits min_sample 1 = false
  | Panic => False
  end.
Proof. exact (training_plan_spec dimension pq_m ksub budget buffers threads n). Qed.

Lemma training_plan_optimal_witness :
  ∃ plan, pq_training_plan_with_sample_buffers 8 4 16 100000 1 8 5000 = Ok plan ∧ sample_count plan = 799 ∧
    fits 8 4 16 100000 1 800 1 = false.
Proof.
  pose proof (training_plan_optimal 8 4 16 100000 1 8 5000 ltac:(lia) ltac:(unfold DISKANN_MAX_PQ_TRAINING_VECTORS; lia) ltac:(lia) ltac:(lia)) as H.
  cbn zeta in H. destruct (pq_training_plan_with_sample_buffers 8 4 16 100000 1 8 5000) as [plan| |] eqn:E; vm_compute in E; [|discriminate E..].
  injection E as <-. eexists. split; [reflexivity|]. split; [reflexivity|]. destruct H as (_ & _ & _ & H & _). apply H. vm_compute. split; [reflexivity|discriminate].
Defined.

(** ** Rows *)

Lemma concat_rows_length {A} d (rows : list (list A)) : Forall (λ r, length r = d) rows → length (concat rows) = (length rows * d)%nat.
Proof. induction 1 as [|r rows Hr _ IH]; [done|]. cbn [concat length]. rewrite length_app, IH. lia. Qed.

Lemma splice_row {A} d (rows : list (list A)) i v :
  Forall (λ r, length r = d) rows → length v = d → (i < length rows)%nat → splice (i * d) v (concat rows) = concat (<[i := v]> rows).
Proof.
  intros Hr Hv. revert i. induction Hr as [|r rows Hr _ IH]; intros i Hi; [cbn in Hi; lia|]. destruct i as [|i]; cbn [concat insert list_insert Nat.mul].
  - unfold splice. rewrite take_0, Hv, <- Hr. cbn [app Nat.add]. by rewrite drop_app_length.
  - cbn in Hi. change (<[i := v]> rows) with (<[i := v]> rows) in *. rewrite <- IH by lia. unfold splice.
    rewrite take_app_ge, <- app_assoc by lia. replace (d + i * d - length r)%nat with (i * d)%nat by lia. do 2 f_equal.
    rewrite drop_app_ge by lia. f_equal. f_equal. lia.
Qed.

Section Reservoir.
Context `{RngLaws R} (rows : list (list Z)) (d limit : nat) (Hrows : Forall (λ r, length r = d) rows) (Hd : (0 < d)%nat).

Lemma reservoir_ok (items : list (nat * list Z)) : ∀ picked (rng : R),
  Forall (λ r, length r = d) picked → length picked = limit → (∀ r, r ∈ picked → r ∈ rows) → (∀ i r, (i, r) ∈ items → r ∈ rows) →
  ∃ picked' rng', try_fold (reservoir_step limit d) (concat picked, rng) items = Ok (concat picked', rng') ∧
    Forall (λ r, length r = d) picked' ∧ length picked' = limit ∧ ∀ r, r ∈ picked' → r ∈ rows.
Proof.
  rewrite Forall_forall in Hrows. induction items as [|[i r] items IH]; intros picked rng Hl Hn Hp Hit; cbn [try_fold]; [by exists picked, rng|].
  unfold reservoir_step at 2. destruct (gen_range 0 (S i) rng) as [replacement rng1]. assert (r ∈ rows) as Hr by (apply (Hit i); set_solver).
  destruct (Nat.ltb_spec replacement limit) as [Hlt|_]; [|apply IH; [done|done|done|intros j r' Hj; apply (Hit j); set_solver]].
  unfold replace_row. rewrite (concat_rows_length d picked Hl), (Hrows r Hr), Nat.eqb_refl, (proj2 (Nat.leb_le _ _)) by nia. cbn [andb mbind io_result_bind].
  rewrite (splice_row d picked replacement r Hl (Hrows r Hr)) by lia.
  apply IH; [by apply Forall_insert; [|apply Hrows]|by rewrite length_insert| |intros j r' Hj; apply (Hit j); set_solver].
  intros r' Hr'. apply list_elem_of_lookup_1 in Hr' as [j Hj]. apply list_lookup_insert_Some in Hj as [(_ & -> & _)|[_ Hj]]; [done|]. apply Hp. by eapply list_elem_of_lookup_2.
Qed.

Lemma training_sample_spec (seed : Z) :
  ((length rows ≤ limit)%nat → bounded_pq_training_sample (R := R) (concat rows) (length rows) d limit seed = Ok None) ∧
  ((limit < length rows)%nat → ∃ picked, bounded_pq_training_sample (R := R) (concat rows) (length rows) d limit seed = Ok (Some (concat picked)) ∧
    length picked = limit ∧ Forall (λ r, length r = d ∧ r ∈ rows) picked).
Proof.
  unfold bounded_pq_training_sample. destruct (Nat.leb_spec (length rows) limit) as [Hle|Hlt]; [split; [done|lia]|]. split; [lia|]. intros _.
  assert (get_slice 0 (limit * d) (concat rows) = Some (concat (take limit rows))) as ->.
  { apply get_slice_Some. rewrite (concat_rows_length d rows Hrows). split; [nia|]. unfold slice. rewrite drop_0.
    rewrite <- (take_drop limit rows) at 2. rewrite concat_app, take_app_length'; [done|].
    rewrite (concat_rows_length d) by (by apply Forall_take). rewrite length_take. f_equal. lia. }
  cbn [expect mbind io_result_bind]. rewrite chunks_exact_concat by done.
  destruct (reservoir_ok (take (length rows - limit) (drop limit (imap pair rows))) (take limit rows) (seed_from_u64 seed)) as (picked & rng' & -> & Hl & Hn & Hp).
  - by apply Forall_take.
  - rewrite length_take. lia.
  - intros r Hr. apply (elem_of_sublist _ _ _ Hr), sublist_take.
  - intros i r Hir. assert ((i, r) ∈ imap pair rows) as Hin.
    { eapply elem_of_sublist; [exact Hir|]. etrans; [apply sublist_take|apply sublist_drop]. }
    apply list_elem_of_lookup_1 in Hin as [j Hj]. rewrite list_lookup_imap in Hj. destruct (rows !! j) eqn:E; [|done]. cbn in Hj. injection Hj as <- <-.
    by eapply list_elem_of_lookup_2.
  - cbn [mbind io_result_bind]. exists picked. split_and!; [done|done|]. rewrite Forall_forall in *. auto.
Qed.

(** Sampling keeps whole vectors: for any random source, a training set larger
    than the limit is reduced to exactly [limit] rows, each of them a row of the
    training data; a set within the limit is used as it is. *)
Theorem training_sample_rows (seed : Z) :
  ((length rows ≤ limit)%nat → bounded_pq_training_sample (R := R) (concat rows) (length rows) d limit seed = Ok None) ∧
  ((limit < length rows)%nat → ∃ picked, bounded_pq_training_sample (R := R) (concat rows) (length rows) d limit seed = Ok (Some (concat picked)) ∧
    length picked = limit ∧ Forall (λ r, length r = d ∧ r ∈ rows) picked).
Proof. exact (training_sample_spec seed). Qed.

End Reservoir.

Lemma training_sample_rows_witness :
  ∃ picked, bounded_pq_training_sample (R := Z) [1; 2; 3; 4; 5; 6; 7; 8] 4 2 3 9 = Ok (Some (concat picked)) ∧
    length picked = 3%nat ∧ Forall (λ r, length r = 2%nat ∧ r ∈ [[1; 2]; [3; 4]; [5; 6]; [7; 8]]) picked.
Proof.
  apply (training_sample_rows (R := Z) [[1; 2]; [3; 4]; [5; 6]; [7; 8]] 2 3).
  - repeat (apply Forall_cons_2; [reflexivity|]). constructor.
  - lia.
  - cbn. lia.
Defined.
