(* ===== verification/PqBuildDistance.v ===== *)
(** The product-quantized distance that guides graph construction:
    [PqBuildDistance] of [core/src/vamana.rs].  The distance of two centroids and
    the addition of [f32] values are arguments. *)

From S2P Require Import Prelude Adjacency DiskannUtil RowIds DiskannHeader Pq CompactAdjacency.

Record PqBuildDistance := PqTable {
  pb_codes : list Z; pb_code_size : nat; pb_m : nat; pb_ksub : nat; pb_nbits : Z; pb_centroid_distances : list Z }.

Section Distance.
Context (fvec_distance : list Z → list Z → MetricType → Z) (f32_add : Z → Z → Z).

(** The iterations of the three nested loops, in order. *)
Definition table_iterations (m ksub : nat) : list (nat * nat * nat) :=
  sub ← seq 0 m; lhs ← seq 0 ksub; rhs ← seq lhs (ksub - lhs); [(sub, lhs, rhs)].

(** The body: one distance, stored in both halves of the subspace table. *)
Definition fill_pair (pq : ProductQuantizer) (metric : MetricType) (table : list Z) (it : nat * nat * nat) : io_result (list Z) :=
  let '(sub, lhs, rhs) := it in
  let ksub := Z.to_nat (q_ksub pq) in
  '(start, stop) ← chunk_range pq sub;
  let chunk_dim := stop - start in
  let sub_base := centroid_chunk_base pq start in
  let table_base := (sub * ksub * ksub)%nat in
  l ← expect (get_slice (Z.to_nat (sub_base + Z.of_nat lhs * chunk_dim)) (Z.to_nat chunk_dim) (q_centroids pq));
  r ← expect (get_slice (Z.to_nat (sub_base + Z.of_nat rhs * chunk_dim)) (Z.to_nat chunk_dim) (q_centroids pq));
  let distance := fvec_distance l r metric in
  table ← store_at (table_base + lhs * ksub + rhs) distance table;
  store_at (table_base + rhs * ksub + lhs) distance table.

Definition pq_build_distance_new (pq : ProductQuantizer) (codes : list Z) (count : Z) (metric : MetricType) : io_result PqBuildDistance :=
  table_len ← or_input (rows ← checked_mul 64 (q_m pq) (q_ksub pq); checked_mul 64 rows (q_ksub pq))
                "Vamana PQ build-distance table size overflows usize";
  table ← try_fold (fill_pair pq metric) (replicate (Z.to_nat table_len) 0)
            (table_iterations (Z.to_nat (q_m pq)) (Z.to_nat (q_ksub pq)));
  _ ← ensure_input (zlen codes =? saturating_mul 64 count (code_size pq)) "Vamana PQ code buffer does not match vector count";
  Ok (PqTable codes (Z.to_nat (code_size pq)) (Z.to_nat (q_m pq)) (Z.to_nat (q_ksub pq)) (q_nbits pq) table).

Definition pb_code (d : PqBuildDistance) (node sub : nat) : io_result nat :=
  codes ← expect (get_slice (node * pb_code_size d) (pb_code_size d) (pb_codes d));
  if pb_nbits d =? 4 then
    byte ← expect (codes !! (sub / 2)%nat);
    Ok (Z.to_nat (if (sub mod 2 =? 0)%nat then Z.land byte 0x0f else Z.shiftr byte 4))
  else Z.to_nat <$> expect (codes !! sub).

Definition prepare_query (d : PqBuildDistance) (query_node : nat) : io_result (list Z) :=
  try_fold (λ table sub,
    code ← pb_code d query_node sub;
    row ← expect (get_slice ((sub * pb_ksub d + code) * pb_ksub d) (pb_ksub d) (pb_centroid_distances d));
    Ok (table ++ row)) [] (seq 0 (pb_m d)).

Definition to_query (d : PqBuildDistance) (node : nat) (table : list Z) : io_result Z :=
  try_fold (λ distance sub,
    code ← pb_code d node sub;
    entry ← expect (table !! (sub * pb_ksub d + code)%nat);
    Ok (f32_add distance entry)) 0 (seq 0 (pb_m d)).

(** ** The table is the symmetric distance of centroids *)

Section Table.
Context (pq : ProductQuantizer) (metric : MetricType) (Hok : pq_ok pq).
Notation k := (Z.to_nat (q_ksub pq)).
Notation m := (Z.to_nat (q_m pq)).

(** Computed once for each unordered pair. *)
Definition pair_distance (sub a b : nat) : Z :=
  fvec_distance (centroid pq sub (Z.of_nat (a `min` b))) (centroid pq sub (Z.of_nat (a `max` b))) metric.

Lemma pair_distance_sym sub a b : pair_distance sub a b = pair_distance sub b a.
Proof. unfold pair_distance. by rewrite Nat.min_comm, Nat.max_comm. Qed.

Definition slot (sub a b : nat) : nat := (sub * k * k + a * k + b)%nat.

Lemma digits_inj (x y b c : nat) : (b < k)%nat → (c < k)%nat → (x * k + b = y * k + c)%nat → x = y ∧ b = c.
Proof. intros Hb Hc E. assert (x = y) as -> by nia. split; [done|lia]. Qed.

Lemma slot_inj s a b s' a' b' :
  (a < k)%nat → (b < k)%nat → (a' < k)%nat → (b' < k)%nat → slot s a b = slot s' a' b' → s = s' ∧ a = a' ∧ b = b'.
Proof.
  intros Ha Hb Ha' Hb' E. unfold slot in E. destruct (digits_inj (s * k + a) (s' * k + a') b b') as [E1 ->]; [done|done|lia|].
  destruct (digits_inj s s' a a') as [-> ->]; [done|done|lia|done].
Qed.

Lemma slot_bound s a b : (s < m)%nat → (a < k)%nat → (b < k)%nat → (slot s a b < m * k * k)%nat.
Proof. unfold slot. intros. assert (s * k + a < m * k)%nat by nia. nia. Qed.

Lemma iterations_elem s a b : (s, a, b) ∈ table_iterations m k ↔ (s < m)%nat ∧ (a ≤ b)%nat ∧ (b < k)%nat.
Proof.
  unfold table_iterations. rewrite list_elem_of_bind. setoid_rewrite list_elem_of_bind. setoid_rewrite list_elem_of_bind.
  setoid_rewrite list_elem_of_singleton. setoid_rewrite elem_of_seq. split.
  - intros (s' & (a' & (b' & [= -> -> ->] & Hb) & Ha) & Hs). lia.
  - intros (Hs & Hab & Hb). exists s. split; [|lia]. exists a. split; [|lia]. exists b. split; [done|lia].
Qed.

Lemma fill_pair_ok t s a b :
  length t = (m * k * k)%nat → (s < m)%nat → (a ≤ b)%nat → (b < k)%nat →
  fill_pair pq metric t (s, a, b) = Ok (<[slot s b a := pair_distance s a b]> (<[slot s a b := pair_distance s a b]> t)).
Proof.
  intros Hl Hs Hab Hb. unfold fill_pair. destruct (chunk_bounds pq s Hok Hs) as (start & stop & Hr & H1 & H2 & Hss & Hsd). rewrite Hr. cbn [mbind io_result_bind].
  rewrite !(centroid_slice pq s _ start stop (q_centroids pq) (ok_centroids pq Hok) Hr Hss Hsd) by lia. cbn [expect mbind io_result_bind].
  rewrite store_at_ok by (rewrite Hl; apply slot_bound; lia). cbn [mbind io_result_bind].
  rewrite store_at_ok by (rewrite length_insert, Hl; apply slot_bound; lia). unfold pair_distance, centroid, slot. rewrite H1, H2. cbn [default from_option id].
  rewrite Nat.min_l, Nat.max_r by lia. done.
Qed.

Lemma fill_table_ok its : ∀ t,
  length t = (m * k * k)%nat → (∀ it, it ∈ its → it ∈ table_iterations m k) →
  ∃ t', try_fold (fill_pair pq metric) t its = Ok t' ∧ length t' = (m * k * k)%nat ∧
    ∀ s a b, (s < m)%nat → (a < k)%nat → (b < k)%nat →
      t !! slot s a b = Some (pair_distance s a b) ∨ (s, a `min` b, a `max` b)%nat ∈ its → t' !! slot s a b = Some (pair_distance s a b).
Proof.
  induction its as [|[[s0 a0] b0] its IH]; intros t Hl Hin; cbn [try_fold]; [exists t; split_and!; [done|done|]; intros s a b _ _ _ [?|?]; [done|set_solver]|].
  destruct (proj1 (iterations_elem s0 a0 b0)) as (Hs0 & Hab0 & Hb0); [apply Hin; set_solver|].
  rewrite fill_pair_ok by done. cbn [mbind io_result_bind]. set (t1 := <[_ := _]> _). assert (length t1 = (m * k * k)%nat) as Hl1 by (unfold t1; by rewrite !length_insert).
  destruct (IH t1 Hl1 ltac:(set_solver)) as (t' & -> & Hl' & Hspec). exists t'. split_and!; [done|done|]. intros s a b Hs Ha Hb Hor. apply (Hspec s a b Hs Ha Hb).
  assert (slot s a b < length t)%nat as Hslot by (rewrite Hl; by apply slot_bound).
  destruct (decide (slot s0 b0 a0 = slot s a b)) as [E|Hne1].
  { left. unfold t1. rewrite E, list_lookup_insert_eq by (by rewrite length_insert). apply slot_inj in E as (-> & -> & ->); [|lia..]. by rewrite pair_distance_sym. }
  destruct (decide (slot s0 a0 b0 = slot s a b)) as [E|Hne2].
  { left. unfold t1. rewrite list_lookup_insert_ne, E, list_lookup_insert_eq by done. by apply slot_inj in E as (-> & -> & ->); [|lia..]. }
  destruct Hor as [Hold|[E|?]%elem_of_cons]; [left; unfold t1; by rewrite !list_lookup_insert_ne| |by right].
  injection E as -> Ea Eb. exfalso. destruct (decide (a ≤ b)%nat).
  - apply Hne2. rewrite Nat.min_l in Ea by lia. rewrite Nat.max_r in Eb by lia. by subst.
  - apply Hne1. rewrite Nat.min_r in Ea by lia. rewrite Nat.max_l in Eb by lia. by subst.
Qed.

(** ** The lookups of a search *)

Context (codes : list Z) (count : nat) (Hbytes : Forall u8 codes) (Hcodes : zlen codes = Z.of_nat count * code_size pq).
Context (Hm : q_m pq < 2 ^ 32) (Hcount : Z.of_nat count < 2 ^ 32).

Lemma code_size_bounds : 0 < code_size pq <= q_m pq ∧ q_m pq <= 2 * code_size pq ∧ (q_nbits pq ≠ 4 → code_size pq = q_m pq).
Proof.
  pose proof (ok_m pq Hok) as Em. destruct (ok_offsets pq Hok) as (Hl & _). unfold zlen in *.
  unfold code_size. destruct (Z.eqb_spec (q_nbits pq) 4); [|lia]. pose proof (div_ceil_spec (q_m pq) 2 ltac:(lia)). lia.
Qed.

(** The code the decoder would read, as a centroid number. *)
Definition stored_code (node sub : nat) : nat :=
  match code_at pq (slice (node * Z.to_nat (code_size pq)) (Z.to_nat (code_size pq)) codes) sub with Ok c => Z.to_nat c | _ => 0%nat end.

Lemma node_codes node : (node < count)%nat →
  get_slice (node * Z.to_nat (code_size pq)) (Z.to_nat (code_size pq)) codes = Some (slice (node * Z.to_nat (code_size pq)) (Z.to_nat (code_size pq)) codes).
Proof. intros Hn. apply get_slice_Some. split; [|done]. pose proof code_size_bounds. unfold zlen in Hcodes. nia. Qed.

Lemma pb_code_ok d node sub :
  pb_codes d = codes → pb_code_size d = Z.to_nat (code_size pq) → pb_nbits d = q_nbits pq → (node < count)%nat → (sub < m)%nat →
  pb_code d node sub = Ok (stored_code node sub) ∧ (stored_code node sub < k)%nat.
Proof.
  intros E1 E2 E3 Hn Hs. unfold pb_code, stored_code, code_at. rewrite E1, E2, E3, node_codes by done. cbn [expect mbind io_result_bind].
  pose proof code_size_bounds as (Hc1 & Hc2 & Hc3). pose proof (ok_ksub pq Hok) as Hk.
  assert (length (slice (node * Z.to_nat (code_size pq)) (Z.to_nat (code_size pq)) codes) = Z.to_nat (code_size pq)) as Hsl.
  { unfold slice. rewrite length_take, length_drop. unfold zlen in Hcodes. nia. }
  assert (Forall u8 (slice (node * Z.to_nat (code_size pq)) (Z.to_nat (code_size pq)) codes)) as Hu by (by apply Forall_take, Forall_drop).
  set (cs := slice _ _ _) in *. destruct (Z.eqb_spec (q_nbits pq) 4) as [E4|Hn4].
  - destruct (lookup_lt_is_Some_2 cs (sub / 2)) as [byte Hb]; [apply Nat.Div0.div_lt_upper_bound; lia|]. rewrite Hb. cbn [expect mbind io_result_bind].
    pose proof (Forall_lookup_1 _ _ _ _ Hu Hb) as Hbyte. split; [done|]. rewrite Hk, E4. change (Z.to_nat (2 ^ 4)) with 16%nat.
    destruct (sub mod 2 =? 0)%nat; [change 0x0f with (2 ^ 4 - 1); rewrite land_ones_mod by done; pose proof (Z.mod_pos_bound byte (2 ^ 4)); lia|].
    rewrite Z.shiftr_div_pow2 by done. unfold u8, u_ok in Hbyte. assert (byte / 2 ^ 4 < 16) by (apply Z.div_lt_upper_bound; lia). lia.
  - destruct (lookup_lt_is_Some_2 cs sub) as [c Hc]; [lia|]. rewrite Hc. cbn. split; [done|].
    pose proof (Forall_lookup_1 _ _ _ _ Hu Hc) as Hcu. destruct (ok_nbits pq Hok) as [?|E8]; [done|]. rewrite Hk, E8. unfold u8, u_ok in Hcu. lia.
Qed.

(** The distance of two nodes: the sum over the subspaces, in their order. *)
Definition coded_distance (node query : nat) : Z :=
  foldl (λ acc sub, f32_add acc (pair_distance sub (stored_code query sub) (stored_code node sub))) 0 (seq 0 m).

Section Lookup.
Context (d : PqBuildDistance) (Ec : pb_codes d = codes) (Es : pb_code_size d = Z.to_nat (code_size pq)) (En : pb_nbits d = q_nbits pq).
Context (Em : pb_m d = m) (Ek : pb_ksub d = k) (Hl : length (pb_centroid_distances d) = (m * k * k)%nat).
Context (Htable : ∀ s a b, (s < m)%nat → (a < k)%nat → (b < k)%nat → pb_centroid_distances d !! slot s a b = Some (pair_distance s a b)).

Lemma prepare_query_ok query : (query < count)%nat →
  ∃ table, prepare_query d query = Ok table ∧
    ∀ s c, (s < m)%nat → (c < k)%nat → table !! (s * k + c)%nat = Some (pair_distance s (stored_code query s) c).
Proof.
  intros Hq. unfold prepare_query. rewrite Em, Ek.
  assert (∀ j, (j ≤ m)%nat → ∃ table, try_fold (λ table sub, code ← pb_code d query sub;
      row ← expect (get_slice ((sub * k + code) * k) k (pb_centroid_distances d)); Ok (table ++ row)) [] (seq 0 j) = Ok table ∧
    length table = (j * k)%nat ∧ ∀ s c, (s < j)%nat → (c < k)%nat → table !! (s * k + c)%nat = Some (pair_distance s (stored_code query s) c)) as Hloop.
  { induction j as [|j IH]; intros Hj; [exists []; split_and!; [done|done|lia]|].
    destruct IH as (t & E & Htl & Ht); [lia|]. rewrite seq_S, try_fold_app, E. cbn [mbind io_result_bind try_fold Nat.add].
    destruct (pb_code_ok d query j Ec Es En Hq ltac:(lia)) as [-> Hcode]. cbn [mbind io_result_bind].
    assert (get_slice ((j * k + stored_code query j) * k) k (pb_centroid_distances d) =
            Some (slice ((j * k + stored_code query j) * k) k (pb_centroid_distances d))) as ->.
    { apply get_slice_Some. split; [|done]. rewrite Hl. assert (j * k + stored_code query j < m * k)%nat by nia. nia. }
    cbn [expect mbind io_result_bind]. set (row := slice _ _ _). assert (length row = k) as Hrow.
    { unfold row, slice. rewrite length_take, length_drop, Hl. assert (j * k + stored_code query j < m * k)%nat by nia. nia. }
    exists (t ++ row). split_and!; [done|rewrite length_app; lia|]. intros s c Hs Hc. destruct (decide (s < j)%nat) as [Hsj|].
    - rewrite lookup_app_l by (rewrite Htl; nia). by apply Ht.
    - assert (s = j) as -> by lia. rewrite lookup_app_r, Htl by lia. replace (j * k + c - j * k)%nat with c by lia.
      unfold row, slice. rewrite lookup_take_lt, lookup_drop by lia. rewrite <- (Htable j (stored_code query j) c) by lia. f_equal. unfold slot. lia. }
  destruct (Hloop m) as (t & E & _ & Ht); [done|]. by exists t.
Qed.

Lemma to_query_ok node query table :
  (node < count)%nat → (∀ s c, (s < m)%nat → (c < k)%nat → table !! (s * k + c)%nat = Some (pair_distance s (stored_code query s) c)) →
  to_query d node table = Ok (coded_distance node query).
Proof.
  intros Hn Ht. unfold to_query, coded_distance. rewrite Em, Ek.
  assert (∀ j, (j ≤ m)%nat → try_fold (λ distance sub, code ← pb_code d node sub; entry ← expect (table !! (sub * k + code)%nat); Ok (f32_add distance entry))
    0 (seq 0 j) = Ok (foldl (λ acc sub, f32_add acc (pair_distance sub (stored_code query sub) (stored_code node sub))) 0 (seq 0 j))) as Hloop; [|by apply Hloop].
  induction j as [|j IH]; intros Hj; [done|]. rewrite seq_S, try_fold_app, foldl_app, IH by lia. cbn [mbind io_result_bind try_fold foldl Nat.add].
  destruct (pb_code_ok d node j Ec Es En Hn ltac:(lia)) as [-> Hcode]. cbn [mbind io_result_bind]. rewrite Ht by lia. done.
Qed.

End Lookup.

(** The parts of a table that was just built. *)
Lemma pq_build_distance_ok :
  ∃ d, pq_build_distance_new pq codes (Z.of_nat count) metric = Ok d ∧
    ∀ node query, (node < count)%nat → (query < count)%nat →
      (t ← prepare_query d query; to_query d node t) = Ok (coded_distance node query).
Proof.
  unfold pq_build_distance_new. pose proof (ksub_pos pq Hok) as Hk. pose proof code_size_bounds as (Hc1 & Hc2 & _).
  unfold checked_mul. assert (q_m pq * q_ksub pq <= q_m pq * 256) by nia. change (2 ^ 32) with 4294967296 in *. change (2 ^ 64) with 18446744073709551616.
  rewrite (proj2 (Z.ltb_lt _ _)) by lia. cbn [mbind option_bind]. rewrite (proj2 (Z.ltb_lt _ _)) by nia. cbn [or_input ok_or mbind io_result_bind].
  destruct (fill_table_ok (table_iterations m k) (replicate (Z.to_nat (q_m pq * q_ksub pq * q_ksub pq)) 0)) as (t & -> & Hl & Ht).
  { rewrite length_replicate. rewrite !Z2Nat.inj_mul by nia. done. } { done. }
  cbn [mbind io_result_bind]. assert (saturating_mul 64 (Z.of_nat count) (code_size pq) = Z.of_nat count * code_size pq) as ->.
  { unfold saturating_mul. change (2 ^ 64) with 18446744073709551616. nia. }
  rewrite <- Hcodes, Z.eqb_refl. change (ensure_input true ?x) with (Ok ()). cbn [mbind io_result_bind]. eexists. split; [done|]. intros node query Hn Hq.
  set (d := PqTable _ _ _ _ _ _).
  assert (∀ s a b, (s < m)%nat → (a < k)%nat → (b < k)%nat → pb_centroid_distances d !! slot s a b = Some (pair_distance s a b)) as Htable.
  { intros s a b Hs Ha Hb. apply Ht; [done|done|done|]. right. apply iterations_elem. lia. }
  destruct (prepare_query_ok d eq_refl eq_refl eq_refl eq_refl eq_refl Hl Htable query Hq) as (tab & -> & Htab). cbn [mbind io_result_bind].
  by apply to_query_ok.
Qed.

End Table.
End Distance.

(** C28: the table the PQ-guided build looks distances up in is exact: for every
    valid quantizer and code buffer it is built without error, and the row a
    search copies for its query gives, for every node, the sum over the
    subspaces in order of the distance between the centroids the two nodes are
    coded by; the distance does not depend on which of the two is the query. *)
Theorem pq_build_distance_exact fvec_distance f32_add pq metric codes count :
  pq_ok pq → Forall u8 codes → zlen codes = Z.of_nat count * code_size pq → q_m pq < 2 ^ 32 → Z.of_nat count < 2 ^ 32 →
  ∃ d, pq_build_distance_new fvec_distance pq codes (Z.of_nat count) metric = Ok d ∧
    ∀ node query, (node < count)%nat → (query < count)%nat →
      (t ← prepare_query d query; to_query f32_add d node t) = Ok (coded_distance fvec_distance f32_add pq metric codes node query) ∧
      coded_distance fvec_distance f32_add pq metric codes node query = coded_distance fvec_distance f32_add pq metric codes query node.
Proof.
  intros Hok Hb Hc Hm Hn. destruct (pq_build_distance_ok fvec_distance f32_add pq metric Hok codes count Hb Hc Hm Hn) as (d & E & Hd).
  exists d. split; [done|]. intros node query H1 H2. split; [by apply Hd|]. unfold coded_distance.
  set (zero := 0). clearbody zero. revert zero.
  induction (seq 0 (Z.to_nat (q_m pq))) as [|s l IH]; intros acc; [done|]. cbn [foldl]. by rewrite pair_distance_sym, IH.
Qed.

Lemma pq_build_distance_exact_witness :
  ∃ d, pq_build_distance_new (λ a b _, default 0 (head a) + 10 * default 0 (head b)) demo_pq [0x21; 3; 0x54; 6] 2 L2 = Ok d ∧
    (t ← prepare_query d 1; to_query Z.add d 0 t) = (t ← prepare_query d 0; to_query Z.add d 1 t).
Proof.
  destruct (pq_build_distance_exact (λ a b _, default 0 (head a) + 10 * default 0 (head b)) Z.add demo_pq L2 [0x21; 3; 0x54; 6] 2) as (d & E & Hd).
  - apply demo_pq_ok.
  - repeat (apply Forall_cons_2; [by vm_compute|]). constructor.
  - vm_compute. reflexivity.
  - vm_compute. reflexivity.
  - vm_compute. reflexivity.
  - exists d. split; [exact E|]. destruct (Hd 0%nat 1%nat) as [H1 Hs]; [lia|lia|]. destruct (Hd 1%nat 0%nat) as [H2 _]; [lia|lia|].
    exact (eq_trans H1 (eq_trans (f_equal Ok Hs) (eq_sym H2))).
Defined.
