(* ===== verification/VamanaSequential.v ===== *)
(** The sequential Vamana build of [core/src/vamana.rs], which the
    overlapping shards of a memory-bounded build use.

    [random_neighbors] draws until it has enough distinct nodes.  It takes fuel
    for its rounds; that it ends is a property of the random source, which the
    class [RngFair] states: no value of a range is left out forever. *)

From stdpp Require Import sorting.
From S2P Require Import Prelude F32 Adjacency DiskannUtil RowIds DiskannHeader SparseTable CompactAdjacency VamanaGraph VamanaRepair.
From S2P Require Import RobustPrune GreedySearch VamanaBuild.

(** The state of the source after [k] draws from a range. *)
Definition after_draws `{Rng R} (lo hi k : nat) (r : R) : R := Nat.iter k (λ r, (gen_range lo hi r).2) r.
Class RngFair (R : Type) `{Rng R} :=
  gen_range_reaches lo hi v r : (lo ≤ v < hi)%nat → ∃ k, (gen_range lo hi (after_draws lo hi k r)).1 = v.

Section RandomNeighbors.
Context `{Rng R}.

(** [while neighbors.len() < degree] *)
Fixpoint draw_distinct (fuel : nat) (rng : R) (count node degree : nat) (neighbors : list Z) : io_result (list Z * R) :=
  match fuel with
  | O => Panic
  | S fuel =>
      if (length neighbors <? degree)%nat then
        if (0 <? count)%nat then
          let '(candidate, rng) := gen_range 0 count rng in
          if negb (candidate =? node)%nat && bool_decide (Z.of_nat candidate ∉ neighbors)
          then draw_distinct fuel rng count node degree (neighbors ++ [Z.of_nat candidate])
          else draw_distinct fuel rng count node degree neighbors
        else Panic
      else Ok (neighbors, rng)
  end.

Definition random_neighbors (fuel : nat) (rng : R) (count node degree : nat) : io_result (list Z * R) :=
  if (degree =? count - 1)%nat then
    let '(neighbors, rng) := shuffle (filter (λ candidate, candidate ≠ node) (seq 0 count)) rng in
    Ok (Z.of_nat <$> neighbors, rng)
  else draw_distinct fuel rng count node degree [].

Definition random_lists (fuel : nat) (rng : R) (count degree : nat) : io_result (list (list Z) * R) :=
  try_fold (λ '(lists, rng) node, '(neighbors, rng) ← random_neighbors fuel rng count node degree; Ok (lists ++ [neighbors], rng))
    ([], rng) (seq 0 count).

End RandomNeighbors.

(** ** One pass *)

Section Pass.
Context (K : BuildKernels) (dimension : Z) (metric : MetricType) (entry_node : Z) (max_degree_ search_list_size : nat) (alpha : Z).

Definition robust_prune_with_metric (adj : CompactAdjacency) (node : nat) (candidates : list Z) : io_result (list Z) :=
  neighbors ← adj_neighbors adj node;
  prune K dimension metric max_degree_ alpha node candidates neighbors (adj_len adj).

Definition insert_reverse_edge (adj : CompactAdjacency) (node : nat) (neighbor : Z) : io_result CompactAdjacency :=
  neighbors ← adj_neighbors adj node;
  if bool_decide (neighbor ∈ neighbors) then Ok adj
  else if (length neighbors <? max_degree_)%nat then adj_push adj node neighbor
  else
    selected ← robust_prune_with_metric adj node (neighbors ++ [neighbor]);
    adj_replace adj node selected.

Definition sequential_node (adj : CompactAdjacency) (node : nat) : io_result CompactAdjacency :=
  scratch ← scratch_new (Z.of_nat (adj_len adj)) (Z.of_nat (max_degree adj)) (Z.of_nat (search_list_size `min` adj_len adj));
  scratch ← greedy_search_with_scratch (λ other, k_node_distance K other node) adj search_list_size entry_node scratch;
  selected ← robust_prune_with_metric adj node (id <$> results scratch);
  adj ← adj_replace adj node selected;
  try_fold (λ adj neighbor, insert_reverse_edge adj (Z.to_nat neighbor) (Z.of_nat node)) adj selected.

Definition run_sequential_pass `{Rng R} (rng : R) (adj : CompactAdjacency) : io_result (CompactAdjacency * R) :=
  let '(order, rng) := shuffle (seq 0 (adj_len adj)) rng in
  adj ← try_fold sequential_node adj order;
  Ok (adj, rng).

End Pass.

(** ** The build *)

(** [Vec<u32>] is 24 bytes, [Option<usize>] 16 and [ScoredNode] 8. *)
Definition estimate_sequential_vamana_memory_bytes (sz : ShardSizes) (node_count max_degree search_list_size : Z) : option Z :=
  let degree := Z.min max_degree (saturating_sub node_count 1) in
  let search_list_size := Z.min search_list_size node_count in
  edge_bytes ← checked_mul 64 degree 4;
  nested_list ← checked_add 64 edge_bytes 24;
  nested_graph ← checked_mul 64 node_count nested_list;
  compact_list ← checked_add 64 edge_bytes 2;
  compact_lists ← checked_mul 64 node_count compact_list;
  compact_shards ← checked_mul 64 (div_ceil node_count (Z.of_nat PARALLEL_ADJACENCY_NODES_PER_SHARD)) (shard_bytes sz);
  compact_graph ← checked_add 64 compact_lists compact_shards;
  conversion_peak ← checked_add 64 nested_graph compact_graph;
  expected_visited ← checked_mul 64 search_list_size degree;
  expected_visited ← checked_add 64 expected_visited 1;
  let expected_visited := Z.min expected_visited node_count in
  dense_marks ← checked_mul 64 node_count 1;
  dense_touched ← checked_mul 64 expected_visited 4;
  dense_states ← checked_add 64 dense_marks dense_touched;
  sparse_states ← estimated_memory_bytes expected_visited 1;
  let visit_states :=
    match checked_mul 64 sparse_states SPARSE_BUILD_VISITED_MIN_MEMORY_SAVINGS with
    | Some threshold => if threshold <? dense_states then sparse_states else dense_states
    | None => dense_states
    end in
  scored ← checked_mul 64 search_list_size 3;
  scored ← checked_mul 64 scored 8;
  scratch ← checked_add 64 visit_states scored;
  pruned ← checked_add 64 search_list_size degree;
  pruned ← checked_mul 64 pruned 12;
  scratch ← checked_add 64 scratch pruned;
  ids ← checked_mul 64 search_list_size 4;
  scratch ← checked_add 64 scratch ids;
  lists ← checked_mul 64 degree 8;
  search_scratch ← checked_add 64 scratch lists;
  order ← checked_mul 64 node_count 8;
  pass_peak ← checked_add 64 compact_graph order;
  pass_peak ← checked_add 64 pass_peak search_scratch;
  connectivity ← checked_mul 64 node_count (1 + 16 + 3 * 8);
  connectivity_peak ← checked_add 64 compact_graph connectivity;
  Some (Z.max (Z.max conversion_peak pass_peak) connectivity_peak).

Definition build_sequential_with_metric `{Rng R} (fuel : nat) (K : BuildKernels) (sz : ShardSizes) (vectors_len dimension : Z) (count : nat)
    (metric : MetricType) (params : VamanaParams) : io_result VamanaGraph :=
  let d := vp_max_degree params in
  let search_list_size := vp_build_search_list_size params in
  _ ← validate_build_inputs vectors_len (Z.of_nat count) dimension (Z.of_nat d);
  _ ← validate_build_memory_budget
        (estimate_sequential_vamana_memory_bytes sz (Z.of_nat count) (Z.of_nat d) (Z.of_nat search_list_size))
        (vp_memory_budget_bytes params);
  entry ← centroid_entry (k_centroid_distance K) count;
  let rng : R := seed_from_u64 (vp_seed params) in
  let degree := (d `min` (count - 1))%nat in
  '(lists, rng) ← random_lists fuel rng count degree;
  adj ← from_nested lists degree;
  '(adj, rng) ← run_sequential_pass K dimension metric (Z.of_nat entry) d search_list_size F32_ONE rng adj;
  '(adj, _) ← run_sequential_pass K dimension metric (Z.of_nat entry) d search_list_size (vp_alpha params) rng adj;
  repair_and_check K (Graph (Z.of_nat entry) adj) d "Vamana graph is not fully reachable from its entry node".

(** ** Drawing distinct neighbours ends *)

Section Drawing.
Context `{RngLaws R, !RngFair R} (count node degree : nat) (Hdeg : (degree < count - 1)%nat) (Hnode : (node < count)%nat).

Definition drawn (ns : list Z) : Prop :=
  NoDup ns ∧ Forall (λ v, 0 <= v < Z.of_nat count ∧ v ≠ Z.of_nat node) ns ∧ (length ns ≤ degree)%nat.

Lemma drawn_next ns v :
  drawn ns → (length ns < degree)%nat → (v < count)%nat → v ≠ node → Z.of_nat v ∉ ns → drawn (ns ++ [Z.of_nat v]).
Proof.
  intros (Hnd & Hr & _) Hl Hv Hne Hin. split_and!; [apply NoDup_app; split_and!; [done| |apply NoDup_singleton]| |rewrite length_app; cbn; lia].
  - intros x Hx Hxv. apply list_elem_of_singleton in Hxv as ->. done.
  - apply Forall_app. split; [done|]. apply Forall_singleton. lia.
Qed.

Lemma fresh_exists ns : drawn ns → (length ns < degree)%nat → ∃ v, (v < count)%nat ∧ v ≠ node ∧ Z.of_nat v ∉ ns.
Proof.
  intros (Hnd & Hr & _) Hl. destruct (decide (Exists (λ v, v ≠ node ∧ Z.of_nat v ∉ ns) (seq 0 count))) as [Hex|Hno].
  { apply Exists_exists in Hex as (v & Hv%elem_of_seq & ? & ?). exists v. split_and!; [lia|done|done]. }
  exfalso. rewrite <- Forall_Exists_neg, Forall_forall in Hno.
  assert (Z.of_nat <$> seq 0 count ⊆+ Z.of_nat node :: ns) as Hsub.
  { apply NoDup_submseteq; [apply NoDup_fmap_2; [intros ???; lia|apply NoDup_seq]|]. intros x (v & -> & Hv)%list_elem_of_fmap.
    destruct (decide (v = node)) as [->|]; [set_solver|]. destruct (decide (Z.of_nat v ∈ ns)); [set_solver|]. by destruct (Hno v Hv). }
  apply submseteq_length in Hsub. rewrite length_fmap, length_seq in Hsub. cbn in Hsub. lia.
Qed.

Lemma draw_distinct_ok missing : ∀ ns rng,
  drawn ns → (length ns + missing = degree)%nat →
  ∃ fuel0 ns' rng', (∀ fuel, (fuel0 ≤ fuel)%nat → draw_distinct fuel rng count node degree ns = Ok (ns', rng')) ∧ drawn ns' ∧ length ns' = degree.
Proof.
  induction missing as [|missing IH]; intros ns rng Hd Hl.
  { exists 1%nat, ns, rng. split_and!; [|done|lia]. intros [|fuel] Hf; [lia|]. cbn [draw_distinct]. by rewrite (proj2 (Nat.ltb_ge _ _)) by lia. }
  destruct (fresh_exists ns Hd ltac:(lia)) as (v & Hv & Hvn & Hvf). destruct (gen_range_reaches 0 count v rng ltac:(lia)) as [k Hk].
  revert rng Hk. induction k as [|k IHk]; intros rng Hk;
    pose proof (gen_range_bounds 0 count rng ltac:(lia)) as Hb; destruct (gen_range 0 count rng) as [c rng1] eqn:Ec; cbn [fst] in Hb.
  - cbn [after_draws Nat.iter nat_rect] in Hk. unfold after_draws in Hk. cbn in Hk. rewrite Ec in Hk. cbn in Hk. subst c.
    destruct (IH (ns ++ [Z.of_nat v]) rng1) as (f0 & ns' & rng' & Hrun & Hd' & Hl'); [apply drawn_next; [done|lia..|done]|rewrite length_app; cbn; lia|].
    exists (S f0), ns', rng'. split_and!; [|done|done]. intros [|fuel] Hf; [lia|]. cbn [draw_distinct].
    rewrite (proj2 (Nat.ltb_lt _ _)), (proj2 (Nat.ltb_lt 0 count)), Ec by lia. rewrite (proj2 (Nat.eqb_neq _ _) Hvn), bool_decide_eq_true_2 by done.
    apply Hrun. lia.
  - assert (after_draws 0 count (S k) rng = after_draws 0 count k rng1) as Es.
    { unfold after_draws. rewrite Nat.iter_succ_r, Ec. done. } rewrite Es in Hk.
    destruct (negb (c =? node)%nat && bool_decide (Z.of_nat c ∉ ns)) eqn:Et.
    + apply andb_true_iff in Et as [Hcn%negb_true_iff%Nat.eqb_neq Hcf%bool_decide_eq_true].
      destruct (IH (ns ++ [Z.of_nat c]) rng1) as (f0 & ns' & rng' & Hrun & Hd' & Hl'); [apply drawn_next; [done|lia..|done]|rewrite length_app; cbn; lia|].
      exists (S f0), ns', rng'. split_and!; [|done|done]. intros [|fuel] Hf; [lia|]. cbn [draw_distinct].
      rewrite (proj2 (Nat.ltb_lt _ _)), (proj2 (Nat.ltb_lt 0 count)), Ec by lia. rewrite (proj2 (Nat.eqb_neq _ _) Hcn), bool_decide_eq_true_2 by done.
      apply Hrun. lia.
    + destruct (IHk rng1 Hk) as (f0 & ns' & rng' & Hrun & Hd' & Hl'). exists (S f0), ns', rng'. split_and!; [|done|done]. intros [|fuel] Hf; [lia|].
      cbn [draw_distinct]. rewrite (proj2 (Nat.ltb_lt _ _)), (proj2 (Nat.ltb_lt 0 count)), Ec by lia. rewrite Et. apply Hrun. lia.
Qed.

End Drawing.

Section RandomGraph.
Context `{RngLaws R, !RngFair R} (count degree : nat) (Hdeg : (degree ≤ count - 1)%nat).

Lemma random_neighbors_ok node rng :
  (node < count)%nat →
  ∃ fuel0 ns (rng' : R), (∀ fuel, (fuel0 ≤ fuel)%nat → random_neighbors fuel rng count node degree = Ok (ns, rng')) ∧ sampled count degree node ns.
Proof.
  intros Hn. unfold random_neighbors. destruct (Nat.eqb_spec degree (count - 1)) as [Ed|Hne].
  - pose proof (shuffle_permutes (filter (λ candidate, candidate ≠ node) (seq 0 count)) rng) as Hp. destruct (shuffle _ rng) as [ns rng']. cbn [fst] in Hp.
    exists 0%nat, (Z.of_nat <$> ns), rng'. split; [done|].
    assert (node :: ns ≡ₚ seq 0 count) as Hall.
    { rewrite Hp. apply NoDup_Permutation; [apply NoDup_cons; split; [by intros [? _]%list_elem_of_filter|apply NoDup_filter, NoDup_seq]|apply NoDup_seq|].
      intros x. rewrite elem_of_cons, list_elem_of_filter, !elem_of_seq. destruct (decide (x = node)); [subst; split; [lia|auto]|naive_solver]. }
    assert (NoDup (node :: ns)) as Hnd by (rewrite Hall; apply NoDup_seq). apply NoDup_cons in Hnd as [Hnn Hnd].
    pose proof (Permutation_length Hall) as Hl. rewrite length_seq in Hl. cbn in Hl.
    split; [rewrite length_fmap; lia|]. split_and!; [rewrite length_fmap; lia|apply NoDup_fmap_2; [intros ???; lia|done]|].
    apply Forall_fmap, Forall_forall. intros x Hx. unfold compose.
    assert (x ∈ seq 0 count) as Hs%elem_of_seq by (rewrite <- Hall; set_solver). assert (x ≠ node) by (intros ->; done). lia.
  - destruct (draw_distinct_ok count node degree ltac:(lia) Hn degree [] rng) as (f0 & ns & rng' & Hrun & (Hnd & Hr & _) & Hl).
    { split_and!; [constructor|constructor|cbn; lia]. } { done. }
    exists f0, ns, rng'. split; [done|]. split; [done|]. split_and!; [lia|done|done].
Qed.

Lemma random_lists_ok rng :
  ∃ fuel0 ls (rng' : R), (∀ fuel, (fuel0 ≤ fuel)%nat → random_lists fuel rng count degree = Ok (ls, rng')) ∧ length ls = count ∧
    ∀ i x, ls !! i = Some x → sampled count degree i x.
Proof.
  unfold random_lists.
  assert (∀ k, (k ≤ count)%nat → ∃ fuel0 ls (rng' : R), (∀ fuel, (fuel0 ≤ fuel)%nat →
    try_fold (λ '(lists, rng) node, '(neighbors, rng) ← random_neighbors fuel rng count node degree; Ok (lists ++ [neighbors], rng))
      ([], rng) (seq 0 k) = Ok (ls, rng')) ∧ length ls = k ∧ ∀ i x, ls !! i = Some x → sampled count degree i x) as Hloop; [|by apply Hloop].
  induction k as [|k IH]; intros Hk; [exists 0%nat, [], rng; split_and!; done|].
  destruct IH as (f1 & ls & rng1 & Hrun & Hl & Hls); [lia|]. destruct (random_neighbors_ok k rng1 ltac:(lia)) as (f2 & ns & rng2 & Hrun2 & Hns).
  exists (f1 `max` f2)%nat, (ls ++ [ns]), rng2. split_and!; [|rewrite length_app; cbn; lia|].
  - intros fuel Hf. rewrite seq_S, try_fold_app, Hrun by lia. cbn [mbind io_result_bind try_fold Nat.add]. by rewrite Hrun2 by lia.
  - intros i x [Hi|[Hi Hx]]%lookup_app_Some; [by apply Hls|]. apply list_lookup_singleton_Some in Hx as [Hz ->]. by replace i with k by lia.
Qed.

End RandomGraph.

(** ** A pass keeps the graph valid *)

Section PassInvariant.
Context (K : BuildKernels) (dimension : Z) (metric : MetricType) (n d : nat) (alpha : Z) (Hn : Z.of_nat n < 2 ^ 30) (Hd : (1 ≤ d)%nat).

Lemma prune_with_metric_ok adj l node cands :
  graph_ok n d adj l → (node < n)%nat → (∀ v, v ∈ cands → 0 <= v) →
  ∃ selected, robust_prune_with_metric K dimension metric d alpha adj node cands = Ok selected ∧ list_ok n d node selected.
Proof.
  intros Hg Hi Hc. destruct Hg as [Hr Hl Hlo _]. destruct (lookup_lt_is_Some_2 l node) as [x Hx]; [lia|].
  unfold robust_prune_with_metric, adj_len. rewrite (adj_neighbors_ok adj l node x Hr Hx), (rep_count adj l Hr), Hl. cbn [mbind io_result_bind].
  by apply prune_valid; [..|by apply Hlo].
Qed.

Lemma insert_reverse_edge_ok adj l node v :
  graph_ok n d adj l → (node < n)%nat → 0 <= v < Z.of_nat n → v ≠ Z.of_nat node →
  ∃ adj' l', insert_reverse_edge K dimension metric d alpha adj node v = Ok adj' ∧ graph_ok n d adj' l'.
Proof.
  intros Hg Hi Hv Hne. pose proof Hg as [Hr Hl Hlo Hst]. destruct (lookup_lt_is_Some_2 l node) as [x Hx]; [lia|].
  destruct (Hlo node x Hx) as [(Hxd & Hxn & Hxr) Hxe]. unfold insert_reverse_edge. rewrite (adj_neighbors_ok adj l node x Hr Hx). cbn [mbind io_result_bind].
  case_bool_decide as Hin; [by exists adj, l|]. destruct (Nat.ltb_spec (length x) d) as [Hlt|Hge].
  - assert (list_ok n d node (x ++ [v])) as Hy.
    { split; [split_and!|intros _ [_ ?]%app_nil; done]; [rewrite length_app; cbn; lia| |by apply Forall_app; split; [done|by apply Forall_singleton]].
      apply NoDup_app. split_and!; [done| |apply NoDup_singleton]. intros y Hy Hyv. apply list_elem_of_singleton in Hyv as ->. done. }
    pose proof (valid_neighbors_len n node d _ Hi (proj1 Hy)) as Hyl. rewrite length_app in Hyl. cbn in Hyl.
    destruct (adj_push_ok adj l node x v Hr Hx) as (adj' & -> & Hr' & Ed); [lia|]. exists adj', (<[node := x ++ [v]]> l). split; [done|].
    split; [done|by rewrite length_insert| |by rewrite Ed]. intros j z Hz. destruct (decide (node = j)) as [<-|].
    + rewrite list_lookup_insert_eq in Hz by lia. by injection Hz as <-.
    + rewrite list_lookup_insert_ne in Hz by done. by apply Hlo.
  - destruct (prune_with_metric_ok adj l node (x ++ [v]) Hg Hi) as (sel & -> & Hsel).
    { intros y [Hy|Hy]%elem_of_app; [|apply list_elem_of_singleton in Hy as ->; lia]. rewrite Forall_forall in Hxr. destruct (Hxr y Hy). lia. }
    cbn [mbind io_result_bind]. destruct (replace_ok n d Hd adj l node sel Hg Hi Hsel) as (adj' & -> & Hg'). by eexists _, _.
Qed.

Context (entry L : nat) (Hentry : (entry < n)%nat).

Lemma sequential_search_ok adj l node :
  graph_ok n d adj l →
  ∃ scratch s', scratch_new (Z.of_nat n) (Z.of_nat (max_degree adj)) (Z.of_nat (L `min` n)) = Ok scratch ∧
    greedy_search_with_scratch (λ other, k_node_distance K other node) adj L (Z.of_nat entry) scratch = Ok s' ∧
    ∀ v, v ∈ id <$> results s' → 0 <= v.
Proof.
  intros Hg. pose proof (go_valid n d adj l Hg) as Hv. destruct Hg as [Hr Hl Hlo _].
  destruct (scratch_new_ok (Z.of_nat n) (Z.of_nat (max_degree adj)) (Z.of_nat (L `min` n))) as (s & -> & Hvs); [lia|lia|lia|]. rewrite Nat2Z.id in Hvs.
  exists s. unfold greedy_search_with_scratch. destruct (begin_search_ok n Hn s (λ _, 0) Hvs) as (vs & -> & Hvs'). cbn [mbind io_result_bind].
  unfold adj_len at 1. rewrite (rep_count adj l Hr), Hl. destruct ((L =? 0)%nat || (n =? 0)%nat); [eexists; split_and!; [done|done|]; cbn; set_solver|].
  rewrite Nat2Z.id. change (Scored (Z.of_nat entry) (k_node_distance K entry node)) with (scored (λ other, k_node_distance K other node) entry).
  destruct (greedy_run_ok (λ other, k_node_distance K other node) n L Hn adj l Hr Hl (valid_nonneg l d Hv) vs entry Hvs' Hentry) as (s' & f' & E & _ & Hres).
  exists s'. split_and!; [done|exact E|]. intros v (c & -> & Hc)%list_elem_of_fmap. destruct (sr_nodes _ _ _ _ _ _ Hres c Hc) as (i & _ & ->). cbn. lia.
Qed.

Lemma sequential_node_ok adj l node :
  graph_ok n d adj l → (node < n)%nat →
  ∃ adj' l', sequential_node K dimension metric (Z.of_nat entry) d L alpha adj node = Ok adj' ∧ graph_ok n d adj' l'.
Proof.
  intros Hg Hi. unfold sequential_node, adj_len. rewrite (rep_count adj l (go_rep _ _ _ _ Hg)), (go_len _ _ _ _ Hg).
  destruct (sequential_search_ok adj l node Hg) as (s & s' & -> & E & Hc). cbn [mbind io_result_bind]. rewrite E. cbn [mbind io_result_bind].
  destruct (prune_with_metric_ok adj l node (id <$> results s') Hg Hi Hc) as (sel & -> & Hsel). cbn [mbind io_result_bind].
  destruct (replace_ok n d Hd adj l node sel Hg Hi Hsel) as (adj1 & -> & Hg1). cbn [mbind io_result_bind].
  destruct Hsel as [(_ & _ & Hr) _]. clear -Hr Hg1 Hi Hn Hd. set (l1 := <[node := sel]> l) in *. clearbody l1. revert adj1 l1 Hg1.
  induction Hr as [|v sel [Hv Hne] _ IH]; intros adj1 l1 Hg1; cbn [try_fold]; [by exists adj1, l1|].
  destruct (insert_reverse_edge_ok adj1 l1 (Z.to_nat v) (Z.of_nat node) Hg1) as (adj2 & l2 & -> & Hg2); [lia|lia|lia|]. cbn [mbind io_result_bind]. by apply (IH adj2 l2).
Qed.

Lemma run_sequential_pass_ok `{RngLaws R} (rng : R) adj l :
  graph_ok n d adj l →
  ∃ adj' l' rng', run_sequential_pass K dimension metric (Z.of_nat entry) d L alpha rng adj = Ok (adj', rng') ∧ graph_ok n d adj' l'.
Proof.
  intros Hg. unfold run_sequential_pass, adj_len. rewrite (rep_count adj l (go_rep _ _ _ _ Hg)), (go_len _ _ _ _ Hg).
  pose proof (shuffle_permutes (seq 0 n) rng) as Hp. destruct (shuffle (seq 0 n) rng) as [order rng']. cbn [fst] in Hp.
  assert (∀ i, i ∈ order → (i < n)%nat) as Ho by (intros i Hi; rewrite Hp in Hi; apply elem_of_seq in Hi; lia). clear Hp.
  assert (∃ adj' l', try_fold (sequential_node K dimension metric (Z.of_nat entry) d L alpha) adj order = Ok adj' ∧ graph_ok n d adj' l') as (adj' & l' & -> & Hg').
  { revert adj l Hg. induction order as [|i order IH]; intros adj l Hg; cbn [try_fold]; [by exists adj, l|].
    destruct (sequential_node_ok adj l i Hg) as (adj1 & l1 & -> & Hg1); [apply Ho; set_solver|]. cbn [mbind io_result_bind]. apply (IH ltac:(set_solver) adj1 l1 Hg1). }
  cbn [mbind io_result_bind]. by exists adj', l', rng'.
Qed.

End PassInvariant.

(** ** The whole build *)

Definition sequential_accepts (sz : ShardSizes) (vectors_len dimension : Z) (count : nat) (params : VamanaParams) : Prop :=
  validate_build_inputs vectors_len (Z.of_nat count) dimension (Z.of_nat (vp_max_degree params)) = Ok () ∧
  validate_build_memory_budget
    (estimate_sequential_vamana_memory_bytes sz (Z.of_nat count) (Z.of_nat (vp_max_degree params)) (Z.of_nat (vp_build_search_list_size params)))
    (vp_memory_budget_bytes params) = Ok ().

Section Build.
Context `{RngLaws R, !RngFair R} (K : BuildKernels) (sz : ShardSizes) (vectors_len dimension : Z) (count : nat) (metric : MetricType).
Context (params : VamanaParams).

Lemma sequential_build_ok :
  sequential_accepts sz vectors_len dimension count params → Z.of_nat count < 2 ^ 30 →
  ∃ fuel0, ∀ fuel, (fuel0 ≤ fuel)%nat →
    ∃ g l, build_sequential_with_metric (R := R) fuel K sz vectors_len dimension count metric params = Ok g ∧
      built count (vp_max_degree params) g l ∧ ((2 ≤ count)%nat → Forall (λ x, x ≠ []) l).
Proof.
  intros [Hin Hmem] Hc. destruct (validate_build_inputs_ok _ _ _ _ Hin) as (Hc0 & Hd0 & Hd). set (d := vp_max_degree params) in *.
  assert (1 ≤ d)%nat as Hd1 by lia. set (degree := (d `min` (count - 1))%nat).
  destruct (random_lists_ok count degree ltac:(lia) (seed_from_u64 (vp_seed params) : R)) as (fuel0 & ls & rng0 & Hrun & Hll & Hls).
  exists fuel0. intros fuel Hf. unfold build_sequential_with_metric. fold d. rewrite Hin. cbn [mbind io_result_bind]. rewrite Hmem. cbn [mbind io_result_bind].
  destruct (centroid_entry_ok (k_centroid_distance K) count ltac:(lia)) as (entry & -> & He). cbn [mbind io_result_bind].
  fold degree. rewrite Hrun by done. cbn [mbind io_result_bind].
  destruct (from_nested_ok ls degree) as (adj0 & -> & Hr0 & Ed0); [lia| |].
  { apply Forall_lookup. intros i x Hx. destruct (Hls i x Hx) as [? _]. lia. }
  cbn [mbind io_result_bind].
  assert (graph_ok count d adj0 ls) as Hg0.
  { split; [done|done| |lia]. intros i x Hx. destruct (Hls i x Hx) as (Hfull & _ & ? & ?).
    split; [split_and!; [lia|done|done]|]. intros Htwo ->. cbn in Hfull. lia. }
  destruct (run_sequential_pass_ok K dimension metric count d F32_ONE Hc Hd1 entry (vp_build_search_list_size params) He rng0 adj0 ls Hg0)
    as (adj1 & l1 & rng1 & -> & Hg1). cbn [mbind io_result_bind].
  destruct (run_sequential_pass_ok K dimension metric count d (vp_alpha params) Hc Hd1 entry (vp_build_search_list_size params) He rng1 adj1 l1 Hg1)
    as (adj2 & l2 & rng2 & -> & Hg2). cbn [mbind io_result_bind].
  destruct (repair_and_check_ok K adj2 l2 count d entry "Vamana graph is not fully reachable from its entry node") as (g & l & -> & Hb & Hk);
    [apply Hg2|by eapply go_valid|apply Hg2|apply Hg2|done|done|].
  exists g, l. split_and!; [done|done|]. apply (go_linked _ _ _ _ _ Hg2 Hk), Hb.
Qed.

(** C23: the sequential build ends and succeeds on every input its checks
    accept, for a random source that leaves no value of a range out forever: the
    rejection sampling of the initial neighbours returns, no step panics, and
    the graph is valid for the degree bound, fully reachable from its entry and,
    with two vectors or more, without a node that has no neighbour. *)
Theorem sequential_build_succeeds :
  sequential_accepts sz vectors_len dimension count params → Z.of_nat count < 2 ^ 30 →
  ∃ fuel0, ∀ fuel, (fuel0 ≤ fuel)%nat →
    ∃ g l, build_sequential_with_metric (R := R) fuel K sz vectors_len dimension count metric params = Ok g ∧
      built count (vp_max_degree params) g l ∧ ((2 ≤ count)%nat → Forall (λ x, x ≠ []) l).
Proof. exact sequential_build_ok. Qed.

End Build.

(** ** A concrete fair source: a counter *)

Definition counter_range (lo hi : nat) (r : nat) : nat * nat := ((lo + r mod (hi - lo))%nat, S r).
#[export] Instance counter_rng : Rng nat := { seed_from_u64 seed := Z.to_nat (seed mod 1000); gen_range := counter_range; shuffle l r := (rev l, S r) }.
#[export] Instance counter_rng_laws : RngLaws nat.
Proof.
  split.
  - intros lo hi r Hlt. cbn. pose proof (Nat.mod_upper_bound r (hi - lo) ltac:(lia)). lia.
  - intros l r. cbn. symmetry. apply Permutation_rev.
Qed.
#[export] Instance counter_rng_fair : RngFair nat.
Proof.
  intros lo hi v r Hv. set (w := (hi - lo)%nat). exists (v - lo + r * w - r)%nat.
  assert (∀ k, after_draws lo hi k r = (k + r)%nat) as Hk by (intros k; unfold after_draws; induction k as [|k IH]; [done|rewrite Nat.iter_succ, IH; done]).
  rewrite Hk. cbn. fold w. replace (v - lo + r * w - r + r)%nat with (v - lo + r * w)%nat by nia.
  rewrite Nat.Div0.mod_add, Nat.mod_small by lia. lia.
Qed.

Lemma sequential_build_succeeds_witness :
  ∃ fuel g l, build_sequential_with_metric (R := nat) fuel demo_kernels demo_sizes 5 1 5 L2 demo_params = Ok g ∧ built 5 2 g l ∧ Forall (λ x, x ≠ []) l.
Proof.
  destruct (sequential_build_succeeds (R := nat) demo_kernels demo_sizes 5 1 5 L2 demo_params) as (fuel0 & Hrun).
  - split; vm_compute; reflexivity.
  - vm_compute. reflexivity.
  - destruct (Hrun fuel0 ltac:(lia)) as (g & l & E & Hb & Hne). exists fuel0, g, l. split_and!; [exact E|exact Hb|apply Hne; lia].
Defined.
