(* ===== verification/VamanaShards.v ===== *)
(** The overlapping shards of the memory-bounded build of [core/src/vamana.rs]:
    their capacity, the two nearest clusters of a node, and the rebalancing that
    moves nodes out of overfull shards.

    The distance of a node to a cluster centroid is an argument; a shard is
    known by its index and its members are node numbers. *)

From stdpp Require Import sorting.
From S2P Require Import Prelude F32 Pq.

Definition overlapping_shard_capacity (node_count shard_count : Z) : option Z :=
  if shard_count <? 2 then None
  else if shard_count =? 2 then Some node_count
  else
    doubled ← checked_mul 64 node_count 2;
    value ← checked_add 64 doubled (shard_count - 2);
    Some (value / (shard_count - 1)).

(** ** Assigning nodes to clusters *)

(** [a.total_cmp(&b).then_with(|| i.cmp(&j)).is_lt()] *)
Definition nearer (i : nat) (a : Z) (j : nat) (b : Z) : bool :=
  f32_total_lt a b || ((f32_total_key a =? f32_total_key b) && (i <? j)%nat).

Definition nearest_two_step (distance : nat → Z) (st : (nat * Z) * (nat * Z)) (centroid : nat) : (nat * Z) * (nat * Z) :=
  let '(first, second) := st in
  let candidate := (centroid, distance centroid) in
  if nearer centroid candidate.2 first.1 first.2 then (candidate, first)
  else if nearer centroid candidate.2 second.1 second.2 then (first, candidate)
  else (first, second).
Definition nearest_two_centroids (distance : nat → Z) (centroid_count : nat) : nat * nat :=
  let '(first, second) := foldl (nearest_two_step distance) ((0%nat, F32_MAX), (0%nat, F32_MAX)) (seq 0 centroid_count) in
  (first.1, if (centroid_count =? 1)%nat then first.1 else second.1).

(** [memberships[shard].push(node)] *)
Definition join (memberships : list (list Z)) (shard : nat) (node : Z) : io_result (list (list Z)) :=
  members ← expect (memberships !! shard);
  Ok (<[shard := members ++ [node]]> memberships).

Definition join_both (memberships : list (list Z)) (node_shards : nat * (nat * nat)) : io_result (list (list Z)) :=
  let '(node, (first, second)) := node_shards in
  memberships ← join memberships first (Z.of_nat node);
  if (second =? first)%nat then Ok memberships else join memberships second (Z.of_nat node).
Definition initial_memberships (assignments : list (nat * nat)) (shard_count : nat) : io_result (list (list Z)) :=
  try_fold join_both (replicate shard_count []) (imap pair assignments).

(** ** Rebalancing *)

Record Shards := Sharded { assignments : list (nat * nat); memberships : list (list Z) }.

Section Rebalance.
(** [fvec_l2sqr] of a node's vector and a cluster centroid. *)
Context (distance : nat → nat → Z).

Definition replacement_step (node other : nat) (capacity : Z) (members_of : list (list Z)) (best : option nat * Z) (candidate : nat) :
    io_result (option nat * Z) :=
  members ← expect (members_of !! candidate);
  if (candidate =? other)%nat || (capacity <=? zlen members) then Ok best
  else
    let d := distance node candidate in
    if f32_lt d best.2 || (f32_eq d best.2 && match best.1 with Some current => (candidate <? current)%nat | None => true end)
    then Ok (Some candidate, d) else Ok best.

(** The body of the [while] loop: the last member of [shard] moves. *)
Definition move_last (st : Shards) (shard : nat) (capacity : Z) : io_result Shards :=
  members ← expect (memberships st !! shard);
  node ← Z.to_nat <$> expect (last members);
  let popped := <[shard := take (length members - 1) members]> (memberships st) in
  '(first, second) ← expect (assignments st !! node);
  let other := if (first =? shard)%nat then second else first in
  best ← try_fold (replacement_step node other capacity popped) (None, f32_infinity) (seq 0 (length popped));
  replacement ← or_input best.1 "Vamana overlapping shards cannot be capacity-balanced";
  moved ← join popped replacement (Z.of_nat node);
  Ok (Sharded (<[node := if (first =? shard)%nat then (replacement, second) else (first, replacement)]> (assignments st)) moved).

(** [while memberships[shard].len() > capacity]; every round shortens the shard. *)
Fixpoint drain_shard (fuel : nat) (st : Shards) (shard : nat) (capacity : Z) : io_result Shards :=
  match fuel with
  | O => Ok st
  | S fuel =>
      members ← expect (memberships st !! shard);
      if capacity <? zlen members then st ← move_last st shard capacity; drain_shard fuel st shard capacity
      else Ok st
  end.

Definition rebalance_overlapping_shards (st : Shards) : io_result Shards :=
  capacity ← or_input (overlapping_shard_capacity (zlen (assignments st)) (zlen (memberships st)))
               "Vamana overlapping-shard capacity overflows";
  try_fold (λ st shard, drain_shard (length (default [] (memberships st !! shard))) st shard capacity)
    st (seq 0 (length (memberships st))).

End Rebalance.

(** ** Moving elements between the lists of a list *)

Lemma concat_pop (ms : list (list Z)) i m v : ms !! i = Some (m ++ [v]) → v :: concat (<[i := m]> ms) ≡ₚ concat ms.
Proof.
  intros Hi. rewrite <- (take_drop_middle ms i (m ++ [v]) Hi) at 2. rewrite insert_take_drop by (by eapply lookup_lt_Some).
  rewrite !concat_app. cbn [concat]. rewrite <- !app_assoc. cbn [app]. by rewrite !app_assoc, <- Permutation_middle.
Qed.

Lemma concat_push (ms : list (list Z)) i m v : ms !! i = Some m → concat (<[i := m ++ [v]]> ms) ≡ₚ v :: concat ms.
Proof.
  intros Hi. symmetry. replace ms with (<[i := m]> (<[i := m ++ [v]]> ms)) at 1.
  - apply concat_pop. apply list_lookup_insert_eq. by eapply lookup_lt_Some.
  - by rewrite list_insert_insert_eq, list_insert_id.
Qed.

Lemma pushed_member (ms : list (list Z)) s m v s' m' x :
  ms !! s = Some m → <[s := m ++ [v]]> ms !! s' = Some m' → x ∈ m' → (x = v ∧ s' = s) ∨ ∃ m1, ms !! s' = Some m1 ∧ x ∈ m1.
Proof.
  intros Hs Hs' Hx. destruct (decide (s' = s)) as [->|]; [|rewrite list_lookup_insert_ne in Hs' by done; eauto].
  rewrite list_lookup_insert_eq in Hs' by (by eapply lookup_lt_Some). injection Hs' as <-.
  apply elem_of_app in Hx as [?|Hx]; [eauto|]. apply list_elem_of_singleton in Hx as ->. auto.
Qed.

Lemma pushed_NoDup (ms : list (list Z)) s m v :
  Forall NoDup ms → ms !! s = Some m → v ∉ m → Forall NoDup (<[s := m ++ [v]]> ms).
Proof.
  intros Hnd Hs Hv. apply Forall_insert; [done|]. apply NoDup_app. split_and!; [by apply (Forall_lookup_1 _ _ _ _ Hnd Hs)| |apply NoDup_singleton].
  intros x Hx Hxv. apply list_elem_of_singleton in Hxv as ->. done.
Qed.

(** All lists but one are long, so the total is. *)
Lemma concat_length_bound (ms : list (list Z)) other (capacity : nat) :
  (∀ i m, ms !! i = Some m → i ≠ other → capacity ≤ length m)%nat → (capacity * (length ms - 1) ≤ length (concat ms))%nat.
Proof.
  revert other. induction ms as [|m ms IH]; intros other Hall; [cbn; lia|]. cbn [concat]. rewrite length_app. cbn [length].
  destruct other as [|other].
  - assert (capacity * length ms ≤ length (concat ms))%nat; [|lia].
    assert (∀ i m', ms !! i = Some m' → capacity ≤ length m')%nat as H by (intros i m' Hi; by apply (Hall (S i))). clear -H.
    induction ms as [|m' ms IH]; [cbn; lia|]. cbn [concat]. rewrite length_app. cbn [length]. pose proof (H 0%nat m' eq_refl).
    assert (capacity * length ms ≤ length (concat ms))%nat by (apply IH; intros i x Hi; by apply (H (S i))). lia.
  - pose proof (Hall 0%nat m eq_refl ltac:(lia)). specialize (IH other ltac:(intros i m' Hi Hne; apply (Hall (S i)); [done|lia])).
    destruct ms; cbn [length] in *; [cbn; lia|]. lia.
Qed.

(** ** The invariant of rebalancing *)

(** Members are nodes, no shard repeats one, and a node is only in the shards
    it is assigned to. *)
Record shards_ok (n : nat) (st : Shards) : Prop := {
  so_assignments : length (assignments st) = n;
  so_total : (length (concat (memberships st)) ≤ 2 * n)%nat;
  so_nodup : Forall NoDup (memberships st);
  so_member : ∀ s m v, memberships st !! s = Some m → v ∈ m →
    0 <= v ∧ ∃ a b, assignments st !! Z.to_nat v = Some (a, b) ∧ (s = a ∨ s = b);
}.

Lemma member_bound n st s m : shards_ok n st → memberships st !! s = Some m → (length m ≤ n)%nat.
Proof.
  intros [Ha _ Hnd Hm] Hs. assert (m ⊆+ Z.of_nat <$> seq 0 n) as Hsub; [|apply submseteq_length in Hsub; by rewrite length_fmap, length_seq in Hsub].
  apply NoDup_submseteq; [by apply (Forall_lookup_1 _ _ _ _ Hnd Hs)|]. intros v Hv. destruct (Hm s m v Hs Hv) as (H0 & a & b & Hab & _).
  apply list_elem_of_fmap. exists (Z.to_nat v). split; [lia|]. apply elem_of_seq. apply lookup_lt_Some in Hab. lia.
Qed.

Lemma capacity_spec n k cap :
  overlapping_shard_capacity (Z.of_nat n) (Z.of_nat k) = Some cap → (2 ≤ k)%nat ∧ 0 <= cap ∧ (k = 2%nat ∧ cap = Z.of_nat n ∨ 2 * Z.of_nat n <= cap * (Z.of_nat k - 1)).
Proof.
  unfold overlapping_shard_capacity. destruct (Z.ltb_spec (Z.of_nat k) 2); [done|]. destruct (Z.eqb_spec (Z.of_nat k) 2).
  { intros [= <-]. split_and!; [lia|lia|left; lia]. }
  unfold checked_mul, checked_add. case_match; cbn [mbind option_bind]; [|done]. case_match; cbn [mbind option_bind]; [|done].
  intros [= <-]. set (a := Z.of_nat n * 2 + (Z.of_nat k - 2)). set (b := Z.of_nat k - 1). assert (0 < b) by (unfold b; lia).
  pose proof (Z.div_mod a b). pose proof (Z.mod_pos_bound a b). split_and!; [lia|apply Z.div_pos; unfold a; lia|right].
  rewrite Z.mul_comm. unfold a, b in *. lia.
Qed.

Section Balance.
Context (distance : nat → nat → Z) (Hnum : ∀ node c, u32 (distance node c) ∧ f32_is_nan (distance node c) = false).

(** A shard other than [other] with room, if there is one, is found. *)
Lemma replacement_ok node other cap ms k :
  (k ≤ length ms)%nat →
  ∃ best, try_fold (replacement_step distance node other cap ms) (None, f32_infinity) (seq 0 k) = Ok best ∧
    match best.1 with
    | Some r => (r < k)%nat ∧ r ≠ other ∧ ∃ m, ms !! r = Some m ∧ zlen m < cap
    | None => best.2 = f32_infinity ∧ ∀ c m, (c < k)%nat → ms !! c = Some m → c ≠ other → cap <= zlen m
    end.
Proof.
  induction k as [|k IH]; intros Hk; [eexists; split; [done|]; cbn; split; [done|intros; lia]|].
  destruct IH as (best & E & Hb); [lia|]. rewrite seq_S, try_fold_app, E. cbn [mbind io_result_bind try_fold Nat.add].
  destruct (lookup_lt_is_Some_2 ms k) as [m Hm]; [lia|]. unfold replacement_step. rewrite Hm. cbn [expect mbind io_result_bind].
  destruct ((k =? other)%nat || (cap <=? zlen m)) eqn:Es; cbn [mbind io_result_bind].
  { eexists. split; [done|]. apply orb_true_iff in Es. destruct (best.1) as [r|]; [naive_solver lia|]. destruct Hb as [Hi Hb]. split; [done|].
    intros c m' Hc Hm' Hne. destruct (decide (c = k)) as [->|]; [|apply (Hb c); [lia|done|done]].
    destruct Es as [?%Nat.eqb_eq|?%Z.leb_le]; [done|]. rewrite Hm in Hm'. by injection Hm' as <-. }
  apply orb_false_iff in Es as [Ho%Nat.eqb_neq Hc%Z.leb_gt]. destruct (Hnum node k) as [Hu Hnan].
  destruct (f32_lt _ _ || _) eqn:Et; cbn [mbind io_result_bind].
  { eexists. split; [done|]. cbn [fst]. split_and!; [lia|done|by exists m]. }
  eexists. split; [done|]. destruct best as [[r|] d0]; cbn [fst snd] in *; [naive_solver lia|]. destruct Hb as [-> _]. exfalso.
  apply orb_false_iff in Et as [E1 E2]. rewrite andb_true_r in E2. destruct (f32_le_infinity _ Hu Hnan); congruence.
Qed.

Lemma room_exists n st shard m0 v other cap :
  shards_ok n st → memberships st !! shard = Some (m0 ++ [v]) → cap < zlen (m0 ++ [v]) →
  overlapping_shard_capacity (Z.of_nat n) (zlen (memberships st)) = Some cap →
  ¬ (∀ c m, (c < length (memberships st))%nat → <[shard := m0]> (memberships st) !! c = Some m → c ≠ other → cap <= zlen m).
Proof.
  intros Hok Hs Hover Hcap Hfull. destruct (capacity_spec n (length (memberships st)) cap Hcap) as (Hk & Hc0 & [[_ ->]|Hsum]).
  { pose proof (member_bound n st shard _ Hok Hs). unfold zlen in Hover. lia. }
  pose proof (concat_length_bound (<[shard := m0]> (memberships st)) other (Z.to_nat cap)) as Hb. rewrite length_insert in Hb.
  pose proof (Permutation_length (concat_pop (memberships st) shard m0 v Hs)) as Hl. cbn in Hl. pose proof (so_total _ _ Hok).
  assert (Z.to_nat cap * (length (memberships st) - 1) ≤ length (concat (<[shard := m0]> (memberships st))))%nat; [apply Hb|nia].
  intros i m Hi Hne. assert (i < length (memberships st))%nat by (apply lookup_lt_Some in Hi; by rewrite length_insert in Hi).
  pose proof (Hfull i m ltac:(done) Hi Hne). unfold zlen in *. lia.
Qed.

Record moved (st st' : Shards) (shard : nat) (cap : Z) (m0 : list Z) : Prop := {
  mv_concat : concat (memberships st') ≡ₚ concat (memberships st);
  mv_shard : memberships st' !! shard = Some m0;
  mv_length : length (memberships st') = length (memberships st);
  mv_bounded : ∀ s m m', s ≠ shard → memberships st !! s = Some m → memberships st' !! s = Some m' → zlen m <= cap → zlen m' <= cap;
}.

Lemma move_last_ok n st shard m0 v cap :
  shards_ok n st → memberships st !! shard = Some (m0 ++ [v]) → cap < zlen (m0 ++ [v]) →
  overlapping_shard_capacity (Z.of_nat n) (zlen (memberships st)) = Some cap →
  ∃ st', move_last distance st shard cap = Ok st' ∧ shards_ok n st' ∧ moved st st' shard cap m0.
Proof.
  intros Hok Hs Hover Hcap. pose proof Hok as [Ha Htot Hnd Hmem]. set (ms := memberships st) in *.
  assert (v ∈ m0 ++ [v]) as Hv by set_solver. destruct (Hmem shard _ v Hs Hv) as (Hv0 & a & b & Hab & Hsab).
  pose proof (Forall_lookup_1 _ _ _ _ Hnd Hs) as Hnds. apply NoDup_app in Hnds as (Hnd0 & Hv0n & _).
  assert (v ∉ m0) as Hvm0 by (intros Hin; by apply (Hv0n v Hin), list_elem_of_singleton).
  unfold move_last. fold ms. rewrite Hs. cbn [expect mbind io_result_bind]. rewrite last_snoc. cbn [expect fmap io_result_fmap mbind io_result_bind].
  rewrite length_app. cbn [length]. replace (length m0 + 1 - 1)%nat with (length m0) by lia. rewrite take_app_length, Hab. cbn [expect mbind io_result_bind].
  set (other := if (a =? shard)%nat then b else a). set (popped := <[shard := m0]> ms).
  assert (length popped = length ms) as Hpl by apply length_insert.
  destruct (replacement_ok (Z.to_nat v) other cap popped (length popped)) as ([best d0] & -> & Hbest); [done|]. cbn [mbind io_result_bind fst snd] in *.
  destruct best as [r|]; [|destruct Hbest as [_ Hfull]; rewrite Hpl in Hfull; destruct (room_exists n st shard m0 v other cap Hok Hs Hover Hcap); done].
  destruct Hbest as (Hr & Hro & mr & Hmr & Hroom). cbn [or_input ok_or mbind io_result_bind]. unfold join. rewrite Hmr. cbn [expect mbind io_result_bind].
  assert (shard < length ms)%nat as Hsl by (by eapply lookup_lt_Some).
  assert (r ≠ shard) as Hrs.
  { intros ->. unfold popped in Hmr. rewrite list_lookup_insert_eq in Hmr by done. injection Hmr as <-. unfold zlen in *. rewrite length_app in Hover. cbn in Hover. lia. }
  assert (ms !! r = Some mr) as Hmr' by (unfold popped in Hmr; by rewrite list_lookup_insert_ne in Hmr).
  rewrite Z2Nat.id by done. eexists. split; [done|].
  assert (∀ s m x, popped !! s = Some m → x ∈ m → ∃ m', ms !! s = Some m' ∧ x ∈ m') as Hpop.
  { intros s m x Hsm Hx. unfold popped in Hsm. destruct (decide (s = shard)) as [->|].
    - rewrite list_lookup_insert_eq in Hsm by done. injection Hsm as <-. exists (m0 ++ [v]). split; [done|set_solver].
    - rewrite list_lookup_insert_ne in Hsm by done. eauto. }
  assert (∀ s m, popped !! s = Some m → v ∈ m → s = other) as Hvp.
  { intros s m Hsm Hx. unfold popped in Hsm. destruct (decide (s = shard)) as [->|Hne].
    - rewrite list_lookup_insert_eq in Hsm by done. injection Hsm as <-. done.
    - rewrite list_lookup_insert_ne in Hsm by done. destruct (Hmem s m v Hsm Hx) as (_ & a' & b' & Hab' & Hsab'). rewrite Hab in Hab'. injection Hab' as <- <-.
      unfold other. destruct (Nat.eqb_spec a shard); destruct Hsab', Hsab; congruence. }
  split; [|split].
  - split; cbn [assignments memberships].
    + by rewrite length_insert.
    + rewrite (concat_push popped r mr v Hmr). unfold popped. rewrite (concat_pop ms shard m0 v Hs). done.
    + apply pushed_NoDup; [by apply Forall_insert|done|]. intros Hx. apply Hro. by apply (Hvp r mr).
    + intros s m x Hsm Hx.
      destruct (pushed_member popped r mr v s m x Hmr Hsm Hx) as [[-> ->]|(m1 & Hm1 & Hx1)].
      * split; [done|]. rewrite list_lookup_insert_eq by (by eapply lookup_lt_Some). destruct (Nat.eqb_spec a shard); eexists _, _; (split; [done|]); [by left|by right].
      * destruct (Hpop s m1 x Hm1 Hx1) as (m2 & Hm2 & Hx2). destruct (Hmem s m2 x Hm2 Hx2) as (Hx0 & a' & b' & Hab' & Hs'). split; [done|].
        destruct (decide (x = v)) as [->|Hxv].
        -- pose proof (Hvp s m1 Hm1 Hx1) as ->. rewrite list_lookup_insert_eq by (by eapply lookup_lt_Some).
           unfold other. destruct (Nat.eqb_spec a shard); eexists _, _; (split; [done|]); [by right|by left].
        -- exists a', b'. rewrite list_lookup_insert_ne by lia. done.
  - cbn [memberships]. rewrite (concat_push popped r mr v Hmr). unfold popped. by rewrite (concat_pop ms shard m0 v Hs).
  - cbn [memberships]. rewrite list_lookup_insert_ne by done. unfold popped. by rewrite list_lookup_insert_eq.
  - cbn [memberships]. unfold popped. by rewrite !length_insert.
  - cbn [memberships]. intros s m m' Hsne Hm Hm' Hle. destruct (decide (s = r)) as [->|].
    + rewrite list_lookup_insert_eq in Hm' by (by eapply lookup_lt_Some). injection Hm' as <-. unfold zlen in *. rewrite length_app. cbn. lia.
    + rewrite list_lookup_insert_ne in Hm' by done. unfold popped in Hm'. rewrite list_lookup_insert_ne in Hm' by done. unfold ms in Hm'. rewrite Hm in Hm'. by injection Hm' as <-.
Qed.

Lemma drain_shard_ok n st shard cap fuel : ∀ m,
  shards_ok n st → memberships st !! shard = Some m → (length m ≤ fuel)%nat → 0 <= cap →
  overlapping_shard_capacity (Z.of_nat n) (zlen (memberships st)) = Some cap →
  ∃ st', drain_shard distance fuel st shard cap = Ok st' ∧ shards_ok n st' ∧
    concat (memberships st') ≡ₚ concat (memberships st) ∧ length (memberships st') = length (memberships st) ∧
    (∀ m', memberships st' !! shard = Some m' → zlen m' <= cap) ∧
    ∀ s m m', s ≠ shard → memberships st !! s = Some m → memberships st' !! s = Some m' → zlen m <= cap → zlen m' <= cap.
Proof.
  revert st. induction fuel as [|fuel IH]; intros st m Hok Hs Hf H0 Hcap; cbn [drain_shard].
  { exists st. split_and!; try done; [|intros s m1 m2 _ H1 H2; rewrite H1 in H2; by injection H2 as <-].
    intros m' Hm'. rewrite Hs in Hm'. injection Hm' as <-. unfold zlen. lia. }
  rewrite Hs. cbn [expect mbind io_result_bind]. destruct (Z.ltb_spec cap (zlen m)) as [Hlt|Hge].
  2: { exists st. split_and!; try done; [|intros s m1 m2 _ H1 H2; rewrite H1 in H2; by injection H2 as <-].
       intros m' Hm'. rewrite Hs in Hm'. by injection Hm' as <-. }
  destruct m as [|v m0 _] using rev_ind; [unfold zlen in Hlt; cbn in Hlt; lia|].
  destruct (move_last_ok n st shard m0 v cap Hok Hs Hlt Hcap) as (st1 & -> & Hok1 & [Hc1 Hs1 Hl1 Hb1]). cbn [mbind io_result_bind].
  rewrite length_app in Hf. cbn in Hf.
  destruct (IH st1 m0 Hok1 Hs1) as (st2 & E2 & Hok2 & Hc2 & Hl2 & Hd2 & Hb2); [lia|done|unfold zlen in *; by rewrite Hl1|].
  exists st2. split_and!; [done|done|by rewrite Hc2|lia|done|]. intros s ms1 ms2 Hne H1 H2 Hle.
  destruct (lookup_lt_is_Some_2 (memberships st1) s) as [mm Hmm]; [rewrite Hl1; by eapply lookup_lt_Some|].
  apply (Hb2 s mm ms2 Hne Hmm H2), (Hb1 s ms1 mm Hne H1 Hmm Hle).
Qed.

Lemma rebalance_ok n st :
  shards_ok n st → ∀ cap, overlapping_shard_capacity (Z.of_nat n) (zlen (memberships st)) = Some cap →
  ∃ st', rebalance_overlapping_shards distance st = Ok st' ∧ shards_ok n st' ∧
    concat (memberships st') ≡ₚ concat (memberships st) ∧ length (memberships st') = length (memberships st) ∧
    Forall (λ m, zlen m <= cap) (memberships st').
Proof.
  intros Hok cap Hcap. destruct (capacity_spec n (length (memberships st)) cap Hcap) as (_ & H0 & _).
  unfold rebalance_overlapping_shards. unfold zlen at 1. rewrite (so_assignments _ _ Hok), Hcap. cbn [or_input ok_or mbind io_result_bind].
  assert (∀ k, (k ≤ length (memberships st))%nat → ∃ st',
    try_fold (λ st shard, drain_shard distance (length (default [] (memberships st !! shard))) st shard cap) st (seq 0 k) = Ok st' ∧
    shards_ok n st' ∧ concat (memberships st') ≡ₚ concat (memberships st) ∧ length (memberships st') = length (memberships st) ∧
    ∀ s m, (s < k)%nat → memberships st' !! s = Some m → zlen m <= cap) as Hloop.
  { induction k as [|k IH]; intros Hk; [exists st; split_and!; [done|done|done|done|intros; lia]|].
    destruct IH as (st1 & E & Hok1 & Hc1 & Hl1 & Hb1); [lia|]. rewrite seq_S, try_fold_app, E. cbn [mbind io_result_bind try_fold Nat.add].
    destruct (lookup_lt_is_Some_2 (memberships st1) k) as [m Hm]; [lia|]. rewrite Hm. change (default [] (Some m)) with m.
    destruct (drain_shard_ok n st1 k cap (length m) m Hok1 Hm) as (st2 & -> & Hok2 & Hc2 & Hl2 & Hd2 & Hb2); [done|done|unfold zlen in *; by rewrite Hl1|].
    cbn [mbind io_result_bind]. exists st2. split_and!; [done|done|by rewrite Hc2|lia|]. intros s m' Hs Hm'. destruct (decide (s = k)) as [->|]; [by apply Hd2|].
    destruct (lookup_lt_is_Some_2 (memberships st1) s) as [mm Hmm]; [lia|]. apply (Hb2 s mm m'); [done|done|done|]. apply (Hb1 s mm); [lia|done]. }
  destruct (Hloop (length (memberships st))) as (st' & E & Hok' & Hc' & Hl' & Hb'); [done|]. exists st'. split_and!; try done.
  apply Forall_lookup. intros s m Hs. apply (Hb' s m); [apply lookup_lt_Some in Hs; lia|done].
Qed.

End Balance.

(** ** The initial membership *)

(** The nodes of an assignment, once per distinct shard. *)
Definition entries (assigned : list (nat * nat)) : list Z :=
  concat (imap (λ node '(first, second), if (second =? first)%nat then [Z.of_nat node] else [Z.of_nat node; Z.of_nat node]) assigned).

Lemma entries_snoc assigned first second :
  entries (assigned ++ [(first, second)]) =
  entries assigned ++ (if (second =? first)%nat then [zlen assigned] else [zlen assigned; zlen assigned]).
Proof. unfold entries. rewrite imap_app, concat_app. cbn. by rewrite Nat.add_0_r, app_nil_r. Qed.

Lemma entries_length assigned : (length (entries assigned) ≤ 2 * length assigned)%nat.
Proof.
  induction assigned as [|[a b] l IH] using rev_ind; [done|]. rewrite entries_snoc, !length_app. case_match; cbn; lia.
Qed.

Lemma initial_ok assigned k :
  Forall (λ '(first, second), first < k ∧ second < k)%nat assigned →
  ∃ ms, initial_memberships assigned k = Ok ms ∧ length ms = k ∧ shards_ok (length assigned) (Sharded assigned ms) ∧ concat ms ≡ₚ entries assigned.
Proof.
  unfold initial_memberships. induction assigned as [|[a b] l IH] using rev_ind; intros Hall.
  { assert (concat (replicate k []) = @nil Z) as Hnil by (clear; induction k as [|k IH]; [done|apply IH]).
    exists (replicate k []). split_and!; [done|apply length_replicate| |by rewrite Hnil]. split; cbn [assignments memberships]; [done| | |].
    - by rewrite Hnil.
    - apply Forall_replicate. constructor.
    - intros s m v Hs. apply lookup_replicate in Hs as [-> _]. set_solver. }
  apply Forall_app in Hall as [Hall Hab]. apply Forall_singleton in Hab as [Ha Hb]. destruct (IH Hall) as (ms & E & Hl & [_ Ht Hnd Hm] & Hc).
  cbn [assignments memberships] in *. rewrite imap_pair_snoc, try_fold_app, E. cbn [mbind io_result_bind try_fold join_both]. unfold join.
  destruct (lookup_lt_is_Some_2 ms a) as [ma Hma]; [lia|]. rewrite Hma. cbn [expect mbind io_result_bind].
  set (v := Z.of_nat (length l)). set (ms1 := <[a := ma ++ [v]]> ms).
  assert (∀ s m, ms !! s = Some m → v ∉ m) as Hfresh.
  { intros s m Hs Hv. destruct (Hm s m v Hs Hv) as (_ & x & y & Hx & _). apply lookup_lt_Some in Hx. unfold v in Hx. lia. }
  assert (Forall NoDup ms1) as Hnd1 by (apply pushed_NoDup; [done|done|by eapply Hfresh]).
  assert (concat ms1 ≡ₚ v :: entries l) as Hc1 by (unfold ms1; by rewrite (concat_push ms a ma v Hma), Hc).
  assert (∀ s m x, ms !! s = Some m → x ∈ m → 0 <= x ∧ ∃ a' b', (l ++ [(a, b)]) !! Z.to_nat x = Some (a', b') ∧ (s = a' ∨ s = b')) as Hold.
  { intros s m x Hs Hx. destruct (Hm s m x Hs Hx) as (H0 & a' & b' & Hab & Hs'). split; [done|]. exists a', b'. split; [|done].
    rewrite lookup_app_l; [done|]. by eapply lookup_lt_Some. }
  assert (∀ s, s = a ∨ s = b → ∃ a' b', (l ++ [(a, b)]) !! Z.to_nat v = Some (a', b') ∧ (s = a' ∨ s = b')) as Hnew.
  { intros s Hs. exists a, b. split; [|done]. unfold v. rewrite Nat2Z.id. by rewrite list_lookup_middle. }
  rewrite entries_snoc. unfold zlen. fold v. destruct (Nat.eqb_spec b a) as [_|Hne].
  - exists ms1. split_and!; [done|unfold ms1; by rewrite length_insert| |by rewrite Hc1, Permutation_app_comm]. split; cbn [assignments memberships]; [done| |done|].
    + rewrite Hc1. cbn [length]. rewrite length_app. cbn. pose proof (entries_length l). lia.
    + intros s m x Hs Hx. destruct (pushed_member ms a ma v s m x Hma Hs Hx) as [[-> ->]|(m1 & Hm1 & Hx1)]; [|by eapply Hold].
      split; [unfold v; lia|]. apply Hnew. by left.
  - destruct (lookup_lt_is_Some_2 ms1 b) as [mb Hmb]; [unfold ms1; rewrite length_insert; lia|]. rewrite Hmb. cbn [expect mbind io_result_bind].
    exists (<[b := mb ++ [v]]> ms1). split_and!; [done|unfold ms1; by rewrite !length_insert| |].
    2: { rewrite (concat_push ms1 b mb v Hmb), Hc1. by rewrite Permutation_app_comm. }
    split; cbn [assignments memberships]; [done| | |].
    + rewrite (concat_push ms1 b mb v Hmb), Hc1. cbn [length]. rewrite length_app. cbn. pose proof (entries_length l). lia.
    + apply pushed_NoDup; [done|done|]. intros Hv. destruct (pushed_member ms a ma v b mb v Hma Hmb Hv) as [[_ Eb]|(m1 & Hm1 & Hx1)]; [|by eapply Hfresh].
      done.
    + intros s m x Hs Hx. destruct (pushed_member ms1 b mb v s m x Hmb Hs Hx) as [[-> ->]|(m1 & Hm1 & Hx1)]; [split; [unfold v; lia|]; apply Hnew; by right|].
      destruct (pushed_member ms a ma v s m1 x Hma Hm1 Hx1) as [[-> ->]|(m2 & Hm2 & Hx2)]; [|by eapply Hold]. split; [unfold v; lia|]. apply Hnew. by left.
Qed.

Lemma shards_counted v (ms : list (list Z)) :
  Forall NoDup ms → length (filter (λ m, v ∈ m) ms) = length (filter (λ x, x = v) (concat ms)).
Proof.
  assert (∀ m : list Z, NoDup m → length (filter (λ x, x = v) m) = if decide (v ∈ m) then 1%nat else 0%nat) as Hone.
  { intros m. induction 1 as [|x m Hx Hnd IH]; [done|]. rewrite filter_cons. destruct (decide (x = v)) as [->|Hne]; cbn [length]; rewrite IH.
    - rewrite decide_False by done. by rewrite decide_True by set_solver.
    - apply decide_ext. rewrite elem_of_cons. naive_solver. }
  induction 1 as [|m ms Hm _ IH]; [done|]. cbn [concat]. rewrite filter_app, length_app, filter_cons, (Hone m Hm).
  destruct (decide (v ∈ m)); cbn [length]; lia.
Qed.

Lemma entries_counted assigned i :
  Forall (λ '(first, second), first ≠ second) assigned → (i < length assigned)%nat → length (filter (λ x, x = Z.of_nat i) (entries assigned)) = 2%nat.
Proof.
  intros Hall Hi.
  assert (∀ l, Forall (λ '(first, second), first ≠ second) l →
    length (filter (λ x, x = Z.of_nat i) (entries l)) = if decide (i < length l)%nat then 2%nat else 0%nat) as Hc; [|rewrite Hc by done; by rewrite decide_True].
  clear. induction l as [|[a b] l IH] using rev_ind; intros Hall; [done|]. apply Forall_app in Hall as [Hall Hne]. rewrite Forall_singleton in Hne.
  rewrite entries_snoc, filter_app, !length_app, IH by done. cbn in Hne. destruct (Nat.eqb_spec b a) as [->|_]; [done|]. unfold zlen. rewrite !filter_cons, filter_nil. cbn [length].
  repeat case_decide; cbn [length]; lia.
Qed.

(** ** The two nearest clusters *)

Lemma nearer_cases i a j b : i ≠ j → nearer i a j b = false → nearer j b i a = true.
Proof.
  intros Hne. unfold nearer, f32_total_lt. rewrite orb_false_iff, orb_true_iff, andb_false_iff, andb_true_iff, Z.ltb_ge, Z.ltb_lt, Z.eqb_neq, Z.eqb_eq, Nat.ltb_ge, Nat.ltb_lt. lia.
Qed.

(** What the scan knows after the first [j] clusters. *)
Definition scanned (distance : nat → Z) (j : nat) (st : (nat * Z) * (nat * Z)) : Prop :=
  match j with
  | O => st = ((0%nat, F32_MAX), (0%nat, F32_MAX))
  | S O => st = ((0%nat, distance 0%nat), (0%nat, F32_MAX))
  | _ => ∃ a b, st = ((a, distance a), (b, distance b)) ∧ (a < j)%nat ∧ (b < j)%nat ∧ a ≠ b ∧ nearer a (distance a) b (distance b) = true ∧
      ∀ c, (c < j)%nat → c ≠ a → c ≠ b → nearer b (distance b) c (distance c) = true
  end.

Lemma nearer_trans i a j b k c : nearer i a j b = true → nearer j b k c = true → nearer i a k c = true.
Proof.
  unfold nearer, f32_total_lt. rewrite !orb_true_iff, !andb_true_iff, !Z.ltb_lt, !Z.eqb_eq, !Nat.ltb_lt. lia.
Qed.

Lemma nearest_two_scan distance k :
  (∀ c, (c < k)%nat → f32_total_lt (distance c) F32_MAX = true) →
  scanned distance k (foldl (nearest_two_step distance) ((0%nat, F32_MAX), (0%nat, F32_MAX)) (seq 0 k)).
Proof.
  induction k as [|k IH]; intros Hmax; [done|]. rewrite seq_S, foldl_app. cbn [foldl Nat.add]. specialize (IH ltac:(intros; apply Hmax; lia)).
  set (st := foldl _ _ (seq 0 k)) in *. pose proof (Hmax k ltac:(lia)) as Hk.
  assert (∀ j, nearer k (distance k) j F32_MAX = true) as Hkm by (intros j; unfold nearer; by rewrite Hk).
  destruct k as [|[|k]]; cbn [scanned] in *.
  - rewrite IH. unfold nearest_two_step. cbn [fst snd]. by rewrite Hkm.
  - rewrite IH. unfold nearest_two_step. cbn [fst snd]. rewrite Hkm. destruct (nearer 1 _ 0 _) eqn:E.
    + exists 1%nat, 0%nat. split_and!; [done|lia|lia|lia|done|lia].
    + exists 0%nat, 1%nat. split_and!; [done|lia|lia|lia|by apply nearer_cases|lia].
  - destruct IH as (a & b & -> & Ha & Hb & Hne & Hab & Hrest). set (j := S (S k)) in *. unfold nearest_two_step. cbn [fst snd].
    destruct (nearer j _ a _) eqn:E1; [|destruct (nearer j _ b _) eqn:E2].
    + exists j, a. split_and!; [done|lia|lia|lia|done|]. intros c Hc Hcj Hca. destruct (decide (c = b)) as [->|]; [done|].
      eapply nearer_trans; [exact Hab|]. apply Hrest; lia.
    + exists a, j. split_and!; [done|lia|lia|lia|apply nearer_cases; [lia|done]|]. intros c Hc Hca Hcj. destruct (decide (c = b)) as [->|]; [done|].
      eapply nearer_trans; [exact E2|]. apply Hrest; lia.
    + exists a, b. split_and!; [done|lia|lia|done|done|]. intros c Hc Hca Hcb. destruct (decide (c = j)) as [->|]; [apply nearer_cases; [lia|done]|].
      apply Hrest; lia.
Qed.

Lemma nearest_two_bound distance k : (0 < k)%nat → ((nearest_two_centroids distance k).1 < k ∧ (nearest_two_centroids distance k).2 < k)%nat.
Proof.
  intros Hk. unfold nearest_two_centroids.
  assert (∀ l st, (∀ c, c ∈ l → c < k)%nat → (st.1.1 < k ∧ st.2.1 < k)%nat →
    (foldl (nearest_two_step distance) st l).1.1 < k ∧ (foldl (nearest_two_step distance) st l).2.1 < k)%nat as Hf.
  { induction l as [|c l IH]; intros [f s] Hl Hst; [done|]. cbn [foldl]. apply IH; [set_solver|]. pose proof (Hl c ltac:(set_solver)).
    unfold nearest_two_step. repeat case_match; cbn [fst snd] in *; lia. }
  specialize (Hf (seq 0 k) ((0%nat, F32_MAX), (0%nat, F32_MAX)) ltac:(intros c Hc%elem_of_seq; lia) ltac:(cbn; lia)).
  destruct (foldl _ _ _) as [f s]. cbn [fst snd] in *. split; [lia|case_match; lia].
Qed.

(** The clusters of all nodes. *)
Definition assign_all (distance : nat → nat → Z) (node_count shard_count : nat) : list (nat * nat) :=
  (λ node, nearest_two_centroids (distance node) shard_count) <$> seq 0 node_count.


(** Ten nodes that all prefer the same two of four clusters. *)
Definition demo_cluster_distance (_ c : nat) : Z := Z.of_nat c mod 1000.

Lemma demo_cluster_distance_ok node c :
  u32 (demo_cluster_distance node c) ∧ f32_is_nan (demo_cluster_distance node c) = false.
Proof.
  unfold demo_cluster_distance. pose proof (Z.mod_pos_bound (Z.of_nat c) 1000). split; [unfold_widths; lia|].
  unfold f32_is_nan, f32_mag, F32_SIGN, F32_INF_BITS. rewrite Z.mod_small by (change (2 ^ 31) with 2147483648; lia). lia.
Qed.

