(* ===== verification/VamanaShardedBuild.v ===== *)
(** The PQ-guided build and the memory-bounded build over overlapping shards of
    [core/src/vamana.rs]: each shard is built on its own and its lists are
    merged into the whole graph by pruning.

    A local build works on copies of its members' vectors and codes, so its
    kernels are those of the whole build read through the member list; only the
    distance to the centroid of the local vectors is new. *)

From stdpp Require Import sorting.
From S2P Require Import Prelude F32 Adjacency DiskannUtil RowIds DiskannHeader Pq SparseTable CompactAdjacency VamanaGraph VamanaRepair.
From S2P Require Import RobustPrune GreedySearch VamanaBuild PqBuildDistance VamanaSequential VamanaShards.

Section PqBuild.
Context (fvec_distance : list Z → list Z → MetricType → Z) (f32_add : Z → Z → Z).

(** The condition of [build_with_pq_stats] on its quantizer and codes. *)
Definition pq_matches (pq : ProductQuantizer) (pq_codes : list Z) (count dimension : Z) : io_result bool :=
  layout ← (if (q_d pq =? dimension) && ((q_nbits pq =? 4) || (q_nbits pq =? 8)) then has_valid_layout pq else Ok false);
  Ok (layout && (zlen pq_codes =? saturating_mul 64 count (code_size pq))).

(** [BuildSearchDistance::ProductQuantized] as a kernel; a failed lookup would be
    a panic of the search. *)
Definition pq_kernel (d : PqBuildDistance) (node query : nat) : Z :=
  match t ← prepare_query d query; to_query f32_add d node t with Ok v => v | _ => 0 end.
Definition with_search_distance (K : BuildKernels) (f : nat → nat → Z) : BuildKernels :=
  Kernels f (k_node_distance K) (k_between K) (k_between_four K) (k_exceeds K) (k_mul K) (k_centroid_distance K).

Definition build_with_pq_stats `{Rng R} (K : BuildKernels) (sz : ShardSizes) (vectors_len dimension : Z) (pq : ProductQuantizer)
    (pq_codes : list Z) (count : nat) (metric : MetricType) (params : VamanaParams) : io_result VamanaGraph :=
  _ ← validate_build_inputs vectors_len (Z.of_nat count) dimension (Z.of_nat (vp_max_degree params));
  matches ← pq_matches pq pq_codes (Z.of_nat count) dimension;
  _ ← ensure_input matches "Vamana PQ-guided build received an invalid codebook or code buffer";
  distance ← pq_build_distance_new fvec_distance pq pq_codes (Z.of_nat count) metric;
  build_with_search_distance (R := R) (with_search_distance K (pq_kernel distance)) sz vectors_len dimension count metric params.

(** ** Shards *)

Definition member (members : list Z) (i : nat) : nat := Z.to_nat (default 0 (members !! i)).
Definition restrict_kernels (K : BuildKernels) (members : list Z) (centroid_distance : nat → Z) : BuildKernels :=
  let at_ := member members in
  Kernels (λ a b, k_to_query K (at_ a) (at_ b)) (λ a b, k_node_distance K (at_ a) (at_ b)) (λ a b, k_between K (at_ a) (at_ b))
    (λ a q, k_between_four K (at_ a) (quad_map at_ q)) (λ a b, k_exceeds K (at_ a) (at_ b)) (k_mul K) centroid_distance.

Section Sharded.
Context `{Rng R} (fuel : nat) (K : BuildKernels) (centroid_distance : list Z → nat → Z) (sz : ShardSizes).
Context (pq_build : option (ProductQuantizer * list Z)) (dimension : Z) (count : nat) (metric : MetricType) (params : VamanaParams).

Definition local_params (shard member_count : nat) : VamanaParams :=
  let local_degree := (vp_max_degree params `min` (member_count - 1))%nat in
  Params local_degree ((vp_build_search_list_size params `min` member_count) `max` local_degree)%nat (vp_alpha params)
    (derived_seed (vp_seed params) (Z.of_nat shard)) (vp_memory_budget_bytes params) (vp_workers params).

Definition local_codes (pq : ProductQuantizer) (pq_codes : list Z) (members : list Z) : io_result (list Z) :=
  try_fold (λ codes node,
    code ← expect (get_slice (Z.to_nat node * Z.to_nat (code_size pq)) (Z.to_nat (code_size pq)) pq_codes); Ok (codes ++ code)) [] members.

Definition build_local (shard : nat) (members : list Z) : io_result VamanaGraph :=
  let n := length members in
  let K' := restrict_kernels K members (centroid_distance members) in
  match pq_build with
  | Some (pq, pq_codes) =>
      codes ← local_codes pq pq_codes members;
      build_with_pq_stats (R := R) K' sz (zlen members * dimension) dimension pq codes n metric (local_params shard n)
  | None => build_sequential_with_metric (R := R) fuel K' sz (zlen members * dimension) dimension n metric (local_params shard n)
  end.

Definition merge_node (local_graph : VamanaGraph) (members : list Z) (degree : nat) (adj : CompactAdjacency) (local_global : nat * Z) :
    io_result CompactAdjacency :=
  let '(local_node, global_node) := local_global in
  neighbors ← adj_neighbors (adjacency local_graph) local_node;
  mapped ← try_map (λ neighbor, expect (members !! Z.to_nat neighbor)) neighbors;
  current ← adj_neighbors adj (Z.to_nat global_node);
  selected ← prune K dimension metric degree (vp_alpha params) (Z.to_nat global_node) mapped current count;
  adj_replace adj (Z.to_nat global_node) selected.

Definition build_shard (degree : nat) (adj : CompactAdjacency) (shard_members : nat * list Z) : io_result CompactAdjacency :=
  let '(shard, members) := shard_members in
  if (length members <? 2)%nat then Ok adj
  else
    local_graph ← build_local shard members;
    try_fold (merge_node local_graph members degree) adj (imap pair members).

Definition build_sharded_with_optional_pq (vectors_len : Z) (cluster_distance : nat → nat → Z) (shard_count : nat) : io_result VamanaGraph :=
  _ ← validate_build_inputs vectors_len (Z.of_nat count) dimension (Z.of_nat (vp_max_degree params));
  _ ← ensure_input (negb ((shard_count <? 2)%nat || (count <? shard_count)%nat)) "Vamana shard count must be between 2 and the vector count";
  matches ← match pq_build with Some (pq, pq_codes) => pq_matches pq pq_codes (Z.of_nat count) dimension | None => Ok true end;
  _ ← ensure_input matches "sharded Vamana PQ-guided build received an invalid codebook or code buffer";
  let assigned := assign_all cluster_distance count shard_count in
  _ ← or_input (overlapping_shard_capacity (Z.of_nat count) (Z.of_nat shard_count)) "Vamana overlapping-shard capacity overflows";
  joined ← initial_memberships assigned shard_count;
  sharded ← rebalance_overlapping_shards cluster_distance (Sharded assigned joined);
  entry ← centroid_entry (k_centroid_distance K) count;
  let degree := (vp_max_degree params `min` (count - 1))%nat in
  adj ← try_fold (build_shard degree) (adj_empty count degree) (imap pair (memberships sharded));
  repair_and_check K (Graph (Z.of_nat entry) adj) degree "sharded Vamana graph is not fully reachable from its entry node".

End Sharded.
End PqBuild.

(** ** Kernels only matter through their values *)

Definition pq_accepts (sz : ShardSizes) (vectors_len dimension : Z) (pq : ProductQuantizer) (pq_codes : list Z) (count : nat) (params : VamanaParams) : Prop :=
  build_accepts sz vectors_len dimension count params ∧ pq_ok pq ∧ q_d pq = dimension ∧ q_m pq < 2 ^ 32 ∧
  Forall u8 pq_codes ∧ zlen pq_codes = Z.of_nat count * code_size pq.

Lemma pq_matches_ok pq codes count dimension :
  pq_ok pq → q_d pq = dimension → zlen codes = Z.of_nat count * code_size pq → q_m pq < 2 ^ 32 → Z.of_nat count < 2 ^ 32 →
  pq_matches pq codes (Z.of_nat count) dimension = Ok true.
Proof.
  intros Hok Ed Hl Hm Hc. unfold pq_matches. rewrite Ed, Z.eqb_refl.
  assert ((q_nbits pq =? 4) || (q_nbits pq =? 8) = true) as -> by (destruct (ok_nbits pq Hok) as [-> | ->]; done). cbn [andb].
  pose proof (ok_d pq Hok). rewrite (proj2 (has_valid_layout_true pq ltac:(lia)) Hok). cbn [mbind io_result_bind andb].
  pose proof (code_size_bounds pq Hok codes count). rewrite Hl. unfold saturating_mul. rewrite Z.min_l; [by rewrite Z.eqb_refl|].
  change (2 ^ 32) with 4294967296 in *. change (2 ^ 64) with 18446744073709551616. assert (Z.of_nat count * code_size pq <= 4294967295 * 4294967295) by (apply Z.mul_le_mono_nonneg; lia). lia.
Qed.

Section PqBuilds.
Context (fvec_distance : list Z → list Z → MetricType → Z) (f32_add : Z → Z → Z) `{RngLaws R}.

Lemma pq_build_ok K sz vectors_len dimension pq codes count metric params :
  pq_accepts sz vectors_len dimension pq codes count params → Z.of_nat count < 2 ^ 30 →
  ∃ g l, build_with_pq_stats fvec_distance f32_add (R := R) K sz vectors_len dimension pq codes count metric params = Ok g ∧
    built count (vp_max_degree params) g l ∧ ((2 ≤ count)%nat → Forall (λ x, x ≠ []) l).
Proof.
  intros (Hacc & Hok & Ed & Hm & Hb & Hl) Hc. change (2 ^ 30) with 1073741824 in Hc.
  assert (Z.of_nat count < 2 ^ 32) as Hc32 by (change (2 ^ 32) with 4294967296; lia).
  unfold build_with_pq_stats. rewrite (proj1 Hacc). cbn [mbind io_result_bind].
  rewrite pq_matches_ok by done. cbn [mbind io_result_bind]. change (ensure_input true ?x) with (Ok ()). cbn [mbind io_result_bind].
  destruct (pq_build_distance_ok fvec_distance f32_add pq metric Hok codes count Hb Hl Hm Hc32) as (d & -> & _). cbn [mbind io_result_bind].
  by apply build_ok.
Qed.

End PqBuilds.

(** ** Local builds *)

Lemma validate_build_inputs_iff vectors_len count dimension d :
  validate_build_inputs vectors_len count dimension d = Ok () ↔
  count ≠ 0 ∧ dimension ≠ 0 ∧ d ≠ 0 ∧ count <= U32_MAX ∧ d <= 65535 ∧ count * dimension < 2 ^ 64 ∧ vectors_len = count * dimension.
Proof.
  unfold validate_build_inputs, ensure_input, guard_ok, checked_mul, or_input, ok_or.
  destruct (Z.eqb_spec count 0), (Z.eqb_spec dimension 0), (Z.eqb_spec d 0); cbn [orb negb mbind io_result_bind]; try (split; [done|naive_solver]).
  destruct (Z.ltb_spec U32_MAX count); cbn [negb mbind io_result_bind]; [split; [done|lia]|].
  destruct (Z.ltb_spec 65535 d); cbn [negb mbind io_result_bind]; [split; [done|lia]|].
  destruct (Z.ltb_spec (count * dimension) (2 ^ 64)); cbn [mbind io_result_bind]; [|split; [done|lia]].
  destruct (Z.eqb_spec vectors_len (count * dimension)); split; naive_solver.
Qed.

(** The only error a local build can report. *)
Definition over_budget : io_error := IoError OutOfMemory "Vamana build exceeds the memory budget".

Lemma budget_cases peak budget : validate_build_memory_budget peak budget = Ok () ∨ validate_build_memory_budget peak budget = Err over_budget.
Proof. unfold validate_build_memory_budget. destruct peak as [p|]; [destruct (p <=? budget)|]; auto. Qed.

Section Local.
Context (fvec_distance : list Z → list Z → MetricType → Z) (f32_add : Z → Z → Z) `{RngLaws R, !RngFair R}.
Context (K : BuildKernels) (centroid_distance : list Z → nat → Z) (sz : ShardSizes) (pq_build : option (ProductQuantizer * list Z)).
Context (dimension : Z) (count : nat) (metric : MetricType) (params : VamanaParams) (vectors_len : Z).
Context (Hin : validate_build_inputs vectors_len (Z.of_nat count) dimension (Z.of_nat (vp_max_degree params)) = Ok ()) (Hdim : 0 <= dimension).
Context (Hcount : Z.of_nat count < 2 ^ 30).
Context (Hpq : ∀ pq codes, pq_build = Some (pq, codes) →
  pq_ok pq ∧ q_d pq = dimension ∧ q_m pq < 2 ^ 32 ∧ Forall u8 codes ∧ zlen codes = Z.of_nat count * code_size pq).

(** A shard of distinct nodes. *)
Definition members_ok (members : list Z) : Prop := NoDup members ∧ Forall (λ v, 0 <= v < Z.of_nat count) members.

Lemma members_bound members : members_ok members → (length members ≤ count)%nat.
Proof.
  intros [Hnd Hr]. rewrite Forall_forall in Hr. assert (members ⊆+ Z.of_nat <$> seq 0 count) as Hsub.
  { apply NoDup_submseteq; [done|]. intros v Hv. apply list_elem_of_fmap. exists (Z.to_nat v). specialize (Hr v Hv). split; [lia|]. apply elem_of_seq. lia. }
  apply submseteq_length in Hsub. by rewrite length_fmap, length_seq in Hsub.
Qed.

Lemma local_inputs members shard :
  members_ok members → (2 ≤ length members)%nat →
  validate_build_inputs (zlen members * dimension) (Z.of_nat (length members)) dimension
    (Z.of_nat (vp_max_degree (local_params params shard (length members)))) = Ok ().
Proof.
  intros Hm H2. pose proof (members_bound members Hm). apply validate_build_inputs_iff in Hin as (H_1 & H_2 & H_3 & H_4 & H_5 & H_6 & _).
  apply validate_build_inputs_iff. cbn [local_params vp_max_degree]. unfold zlen. split_and!; try lia. nia.
Qed.

Lemma local_codes_ok pq codes members :
  pq_ok pq → Forall u8 codes → zlen codes = Z.of_nat count * code_size pq → members_ok members →
  ∃ lc, local_codes pq codes members = Ok lc ∧ Forall u8 lc ∧ zlen lc = Z.of_nat (length members) * code_size pq.
Proof.
  intros Hok Hb Hl [_ Hr]. pose proof (code_size_bounds pq Hok codes count) as Hcs. unfold local_codes.
  assert (∀ acc, Forall u8 acc → ∃ lc, try_fold (λ codes0 node,
      code ← expect (get_slice (Z.to_nat node * Z.to_nat (code_size pq)) (Z.to_nat (code_size pq)) codes); Ok (codes0 ++ code)) acc members = Ok lc ∧
    Forall u8 lc ∧ zlen lc = zlen acc + Z.of_nat (length members) * code_size pq) as Hgen.
  { clear -Hb Hl Hr Hcs. induction Hr as [|v members Hv _ IH]; intros acc Ha; cbn [try_fold]; [exists acc; split_and!; [done|done|cbn; lia]|].
    assert (get_slice (Z.to_nat v * Z.to_nat (code_size pq)) (Z.to_nat (code_size pq)) codes =
      Some (slice (Z.to_nat v * Z.to_nat (code_size pq)) (Z.to_nat (code_size pq)) codes)) as ->.
    { apply get_slice_Some. split; [|done]. unfold zlen in Hl. nia. }
    cbn [expect mbind io_result_bind]. destruct (IH (acc ++ slice (Z.to_nat v * Z.to_nat (code_size pq)) (Z.to_nat (code_size pq)) codes)) as (lc & -> & Hu & Hlc).
    { apply Forall_app. split; [done|]. by apply Forall_take, Forall_drop. }
    exists lc. split_and!; [done|done|]. rewrite Hlc. unfold zlen in *. rewrite length_app, length_slice by nia. cbn [length]. lia. }
  destruct (Hgen [] ltac:(constructor)) as (lc & -> & Hu & Hlc). exists lc. split_and!; [done|done|]. rewrite Hlc. unfold zlen. cbn. lia.
Qed.

Lemma build_local_ok members shard :
  members_ok members → (2 ≤ length members)%nat →
  ∃ fuel0, ∀ fuel, (fuel0 ≤ fuel)%nat →
    (∃ g l, build_local fvec_distance f32_add (R := R) fuel K centroid_distance sz pq_build dimension metric params shard members = Ok g ∧
      built (length members) (vp_max_degree (local_params params shard (length members))) g l) ∨
    build_local fvec_distance f32_add (R := R) fuel K centroid_distance sz pq_build dimension metric params shard members = Err over_budget.
Proof.
  intros Hm H2. pose proof (members_bound members Hm) as Hle. pose proof (local_inputs members shard Hm H2) as Hloc. change (2 ^ 30) with 1073741824 in Hcount.
  unfold build_local. set (p := local_params params shard (length members)) in *. destruct pq_build as [[pq codes]|] eqn:Epq.
  - exists 0%nat. intros fuel _. destruct (Hpq pq codes eq_refl) as (Hok & Ed & Hqm & Hb & Hl).
    destruct (local_codes_ok pq codes members Hok Hb Hl Hm) as (lc & -> & Hlb & Hll). cbn [mbind io_result_bind].
    destruct (budget_cases ((λ e, Z.max (build_peak_bytes e) (remap_peak_bytes e)) <$>
       estimate_vamana_memory_bytes sz (Z.of_nat (length members)) (Z.of_nat (vp_max_degree p)) (Z.of_nat (vp_build_search_list_size p)) (vp_workers p))
      (vp_memory_budget_bytes p)) as [Hbud|Hbud].
    + left. destruct (pq_build_ok fvec_distance f32_add (R := R) (restrict_kernels K members (centroid_distance members)) sz (zlen members * dimension)
        dimension pq lc (length members) metric p) as (g & l & -> & Hbt & _); [|change (2 ^ 30) with 1073741824; lia|by exists g, l]. split_and!; [by split|done|done|done|done|done].
    + right. unfold build_with_pq_stats. rewrite Hloc. cbn [mbind io_result_bind].
      assert (Z.of_nat (length members) < 2 ^ 32) as Hc32 by (change (2 ^ 32) with 4294967296; lia).
      rewrite pq_matches_ok by done. cbn [mbind io_result_bind]. change (ensure_input true ?x) with (Ok ()). cbn [mbind io_result_bind].
      destruct (pq_build_distance_ok fvec_distance f32_add pq metric Hok lc (length members) Hlb Hll Hqm Hc32) as (d & -> & _). cbn [mbind io_result_bind].
      unfold build_with_search_distance. rewrite Hloc. cbn [mbind io_result_bind]. by rewrite Hbud.
  - destruct (budget_cases (estimate_sequential_vamana_memory_bytes sz (Z.of_nat (length members)) (Z.of_nat (vp_max_degree p)) (Z.of_nat (vp_build_search_list_size p)))
      (vp_memory_budget_bytes p)) as [Hbud|Hbud].
    + destruct (sequential_build_ok (R := R) (restrict_kernels K members (centroid_distance members)) sz (zlen members * dimension) dimension (length members)
        metric p) as (fuel0 & Hrun); [by split|change (2 ^ 30) with 1073741824; lia|]. exists fuel0. intros fuel Hf. left.
      destruct (Hrun fuel Hf) as (g & l & -> & Hbt & _). by exists g, l.
    + exists 0%nat. intros fuel _. right. unfold build_sequential_with_metric. rewrite Hloc. cbn [mbind io_result_bind]. by rewrite Hbud.
Qed.

(** ** Merging *)

Record merging (d : nat) (adj : CompactAdjacency) (l : list (list Z)) : Prop := {
  mg_rep : rep adj l;
  mg_len : length l = count;
  mg_valid : valid_graph l d;
  mg_stride : max_degree adj = d;
}.

Lemma merge_node_ok d adj l g ll dl members i v :
  merging d adj l → built (length members) dl g ll → members_ok members → members !! i = Some v →
  ∃ adj' l', merge_node K dimension count metric params g members d adj (i, v) = Ok adj' ∧ merging d adj' l'.
Proof.
  intros [Hr Hl Hv Hs] Hb [_ Hm] Hi. pose proof (Forall_lookup_1 _ _ _ _ Hm Hi) as Hvr. cbn beta in Hvr. rewrite Forall_forall in Hm. unfold merge_node.
  destruct (lookup_lt_is_Some_2 ll i) as [x Hx]; [rewrite (bt_len _ _ _ _ Hb); by eapply lookup_lt_Some|].
  rewrite (adj_neighbors_ok _ _ i x (bt_rep _ _ _ _ Hb) Hx). cbn [mbind io_result_bind].
  destruct (bt_valid _ _ _ _ Hb i x Hx) as (_ & _ & Hxr). rewrite (bt_len _ _ _ _ Hb) in Hxr.
  assert (∃ mapped, try_map (λ neighbor, expect (members !! Z.to_nat neighbor)) x = Ok mapped ∧ ∀ w, w ∈ mapped → w ∈ members) as (mapped & -> & Hmap).
  { clear -Hxr. induction Hxr as [|w x Hw _ IH]; [exists []; split; [done|set_solver]|]. cbn [try_map].
    destruct (lookup_lt_is_Some_2 members (Z.to_nat w)) as [y Hy]; [lia|]. rewrite Hy. cbn [expect mbind io_result_bind].
    destruct IH as (mapped & -> & Hmap). cbn [mbind io_result_bind]. eexists. split; [done|]. intros z [->|?]%elem_of_cons; [by eapply list_elem_of_lookup_2|auto]. }
  cbn [mbind io_result_bind]. destruct (lookup_lt_is_Some_2 l (Z.to_nat v)) as [y Hy]; [lia|].
  rewrite (adj_neighbors_ok adj l _ y Hr Hy). cbn [mbind io_result_bind]. unfold prune.
  destruct (robust_prune_valid (k_mul K) (k_between K) (k_between_four K) (k_exceeds K) dimension metric (vp_alpha params) (Z.to_nat v) mapped y count d)
    as (sel & -> & Hnd & Hsl & Hsel & _). cbn [mbind io_result_bind].
  destruct (adj_replace_ok adj l (Z.to_nat v) y sel Hr Hy) as (adj' & -> & Hr' & Ed); [lia|]. exists adj', (<[Z.to_nat v := sel]> l). split; [done|].
  split; [done|by rewrite length_insert| |by rewrite Ed]. intros j z Hz. rewrite length_insert, Hl. destruct (decide (Z.to_nat v = j)) as [<-|Hne].
  - rewrite list_lookup_insert_eq in Hz by lia. injection Hz as <-. split_and!; [done|done|]. apply Forall_forall. intros w Hw.
    destruct (Hsel w Hw) as ([Hc|Hc] & Hne & Hlt).
    + specialize (Hm w (Hmap w Hc)). cbn beta in Hm. lia.
    + destruct (Hv _ _ Hy) as (_ & _ & Hyr). rewrite Forall_forall in Hyr. destruct (Hyr w Hc). lia.
  - rewrite list_lookup_insert_ne in Hz by done. rewrite <- Hl. by apply Hv.
Qed.

Lemma merge_nodes_ok d g ll dl members ps : ∀ adj l,
  merging d adj l → built (length members) dl g ll → members_ok members → (∀ i v, (i, v) ∈ ps → members !! i = Some v) →
  ∃ adj' l', try_fold (merge_node K dimension count metric params g members d) adj ps = Ok adj' ∧ merging d adj' l'.
Proof.
  induction ps as [|[i v] ps IH]; intros adj l Hmg Hb Hm Hps; cbn [try_fold]; [by exists adj, l|].
  destruct (merge_node_ok d adj l g ll dl members i v Hmg Hb Hm) as (adj1 & l1 & -> & Hmg1); [apply Hps; set_solver|]. cbn [mbind io_result_bind].
  apply (IH adj1 l1); [done|done|done|]. intros j w Hj. apply Hps. set_solver.
Qed.

Lemma build_shards_ok d (shards : list (nat * list Z)) :
  (∀ s m, (s, m) ∈ shards → members_ok m) →
  ∃ fuel0, ∀ fuel, (fuel0 ≤ fuel)%nat → ∀ adj l, merging d adj l →
    (∃ adj' l', try_fold (build_shard fvec_distance f32_add (R := R) fuel K centroid_distance sz pq_build dimension count metric params d) adj shards = Ok adj' ∧
       merging d adj' l') ∨
    try_fold (build_shard fvec_distance f32_add (R := R) fuel K centroid_distance sz pq_build dimension count metric params d) adj shards = Err over_budget.
Proof.
  induction shards as [|[s m] shards IH]; intros Hall; [exists 0%nat; intros fuel _ adj l Hmg; left; by exists adj, l|].
  destruct IH as (f1 & Hrest); [intros s' m' Hin'; apply (Hall s'); set_solver|]. specialize (Hall s m ltac:(set_solver)).
  destruct (Nat.ltb_spec (length m) 2) as [Hlt|Hge].
  { exists f1. intros fuel Hf adj l Hmg. cbn [try_fold build_shard]. rewrite (proj2 (Nat.ltb_lt _ _) Hlt). cbn [mbind io_result_bind]. by apply (Hrest fuel Hf adj l). }
  destruct (build_local_ok m s Hall Hge) as (f2 & Hlocal). exists (f1 `max` f2)%nat. intros fuel Hf adj l Hmg. cbn [try_fold build_shard].
  rewrite (proj2 (Nat.ltb_ge _ _) Hge). destruct (Hlocal fuel ltac:(lia)) as [(g & ll & -> & Hb)| ->]; cbn [mbind io_result_bind]; [|by right].
  destruct (merge_nodes_ok d g ll _ m (imap pair m) adj l Hmg Hb Hall) as (adj1 & l1 & -> & Hmg1).
  { intros i v (j & Hj)%list_elem_of_lookup_1. rewrite list_lookup_imap in Hj. destruct (m !! j) eqn:E; [|done]. cbn in Hj. by injection Hj as <- <-. }
  cbn [mbind io_result_bind]. apply (Hrest fuel ltac:(lia) adj1 l1 Hmg1).
Qed.

End Local.

Lemma capacity_exists n k : (2 ≤ k)%nat → (k ≤ n)%nat → Z.of_nat n < 2 ^ 30 → ∃ cap, overlapping_shard_capacity (Z.of_nat n) (Z.of_nat k) = Some cap.
Proof.
  intros Hk Hkn Hn. unfold overlapping_shard_capacity, checked_mul, checked_add. change (2 ^ 30) with 1073741824 in Hn. change (2 ^ 64) with 18446744073709551616.
  rewrite (proj2 (Z.ltb_ge _ _)) by lia. destruct (Z.of_nat k =? 2); [by eexists|].
  rewrite (proj2 (Z.ltb_lt _ _)) by lia. cbn [mbind option_bind]. rewrite (proj2 (Z.ltb_lt _ _)) by lia. by eexists.
Qed.

(** C22: the memory-bounded build over overlapping shards, PQ-guided or not: on
    valid inputs, and as long as the distances to the cluster centroids are
    numbers, it returns for every random source that is fair.  Either a shard
    alone exceeds the memory budget, and that is the error, or the merged and
    repaired graph has one list per vector, valid for the clamped degree, with
    every node reachable from the entry; no other error and no panic occurs. *)
Theorem sharded_build_sound `{RngLaws R, !RngFair R} (fvec_distance : list Z → list Z → MetricType → Z) (f32_add : Z → Z → Z)
    (K : BuildKernels) (centroid_distance : list Z → nat → Z) (sz : ShardSizes) (pq_build : option (ProductQuantizer * list Z))
    (dimension vectors_len : Z) (count : nat) (metric : MetricType) (params : VamanaParams) (cluster_distance : nat → nat → Z) (shard_count : nat) :
  validate_build_inputs vectors_len (Z.of_nat count) dimension (Z.of_nat (vp_max_degree params)) = Ok () → 0 <= dimension →
  Z.of_nat count < 2 ^ 30 → (2 ≤ shard_count ≤ count)%nat →
  (∀ pq codes, pq_build = Some (pq, codes) →
     pq_ok pq ∧ q_d pq = dimension ∧ q_m pq < 2 ^ 32 ∧ Forall u8 codes ∧ zlen codes = Z.of_nat count * code_size pq) →
  (∀ node c, u32 (cluster_distance node c) ∧ f32_is_nan (cluster_distance node c) = false) →
  ∃ fuel0, ∀ fuel, (fuel0 ≤ fuel)%nat →
    let result := build_sharded_with_optional_pq fvec_distance f32_add (R := R) fuel K centroid_distance sz pq_build dimension count metric params
                    vectors_len cluster_distance shard_count in
    (∃ g l, result = Ok g ∧ built count (vp_max_degree params `min` (count - 1)) g l) ∨ result = Err over_budget.
Proof.
  intros Hin Hdim Hc Hk Hpq Hnum. set (d := (vp_max_degree params `min` (count - 1))%nat).
  assert (1 ≤ d)%nat as Hd1 by (apply validate_build_inputs_iff in Hin; lia). assert (Z.of_nat d < 2 ^ 16) as Hd16.
  { apply validate_build_inputs_iff in Hin as (_ & _ & _ & _ & ? & _). change (2 ^ 16) with 65536. lia. }
  destruct (capacity_exists count shard_count) as [cap Hcap]; [lia|lia|done|].
  set (assigned := assign_all cluster_distance count shard_count).
  assert (length assigned = count) as Hal by (unfold assigned, assign_all; by rewrite length_fmap, length_seq).
  destruct (initial_ok assigned shard_count) as (ms & Ems & Hml & Hsok & _).
  { apply Forall_fmap, Forall_forall. intros node _. unfold compose. pose proof (nearest_two_bound (cluster_distance node) shard_count ltac:(lia)).
    by destruct (nearest_two_centroids _ _). }
  rewrite Hal in Hsok. destruct (rebalance_ok cluster_distance Hnum count (Sharded assigned ms) Hsok cap) as (st & Est & Hst & _); [unfold zlen; cbn [memberships]; by rewrite Hml|].
  destruct (build_shards_ok fvec_distance f32_add (R := R) K centroid_distance sz pq_build dimension count metric params vectors_len Hin Hdim Hc Hpq d
    (imap pair (memberships st))) as (fuel0 & Hrun).
  { intros s m (j & Hj)%list_elem_of_lookup_1. rewrite list_lookup_imap in Hj. destruct (memberships st !! j) as [m'|] eqn:E; [|done]. cbn in Hj. injection Hj as <- <-.
    split; [by apply (Forall_lookup_1 _ _ _ _ (so_nodup _ _ Hst) E)|]. apply Forall_forall. intros v Hv.
    destruct (so_member _ _ Hst j m' v E Hv) as (H_0 & a & b & Hab & _). apply lookup_lt_Some in Hab. rewrite (so_assignments _ _ Hst) in Hab. lia. }
  exists fuel0. intros fuel Hf result. unfold result, build_sharded_with_optional_pq. rewrite Hin. cbn [mbind io_result_bind].
  rewrite (proj2 (Nat.ltb_ge _ _)), (proj2 (Nat.ltb_ge count _)) by lia. cbn [orb negb]. change (ensure_input true ?x) with (Ok ()). cbn [mbind io_result_bind].
  assert (match pq_build with Some (pq, codes) => pq_matches pq codes (Z.of_nat count) dimension | None => Ok true end = Ok true) as ->.
  { destruct pq_build as [[pq codes]|]; [|done]. destruct (Hpq pq codes eq_refl) as (? & ? & ? & ? & ?). apply pq_matches_ok; try done.
    change (2 ^ 32) with 4294967296. change (2 ^ 30) with 1073741824 in Hc. lia. }
  cbn [mbind io_result_bind]. change (ensure_input true ?x) with (Ok ()). cbn [mbind io_result_bind]. rewrite Hcap. cbn [or_input ok_or mbind io_result_bind].
  fold assigned. rewrite Ems. cbn [mbind io_result_bind]. rewrite Est. cbn [mbind io_result_bind].
  destruct (centroid_entry_ok (k_centroid_distance K) count ltac:(lia)) as (entry & -> & He). cbn [mbind io_result_bind]. fold d.
  destruct (Hrun fuel Hf (adj_empty count d) (replicate count [])) as [(adj & l & -> & Hmg)| ->]; cbn [mbind io_result_bind].
  { split; [by apply adj_empty_ok|apply length_replicate| |done]. intros i x [-> _]%lookup_replicate. split_and!; [cbn; lia|constructor|constructor]. }
  2: by right.
  left. destruct (repair_and_check_ok K adj l count d entry "sharded Vamana graph is not fully reachable from its entry node") as (g & l' & -> & Hb & _);
    [apply Hmg|apply Hmg|apply Hmg|rewrite (mg_stride _ _ _ _ Hmg); lia|done|done|]. by exists g, l'.
Qed.

Lemma sharded_build_sound_witness :
  ∃ fuel0, ∀ fuel, (fuel0 ≤ fuel)%nat →
    let result := build_sharded_with_optional_pq (λ _ _ _, 0) Z.add (R := nat) fuel demo_kernels (λ _ i, Z.of_nat i) demo_sizes None 1 6 L2 demo_params
                    6 demo_cluster_distance 2 in
    (∃ g l, result = Ok g ∧ built 6 2 g l) ∨ result = Err over_budget.
Proof.
  apply (sharded_build_sound (R := nat) (λ _ _ _, 0) Z.add demo_kernels (λ _ i, Z.of_nat i) demo_sizes None 1 6 6 L2 demo_params demo_cluster_distance 2).
  - vm_compute. reflexivity.
  - lia.
  - vm_compute. reflexivity.
  - lia.
  - discriminate.
  - apply demo_cluster_distance_ok.
Defined.

(** The concrete build of the witness returns a graph. *)
Example sharded_build_demo :
  is_ok (build_sharded_with_optional_pq (λ _ _ _, 0) Z.add (R := nat) 100 demo_kernels (λ _ i, Z.of_nat i) demo_sizes None 1 6 L2 demo_params
           6 demo_cluster_distance 2) = true.
Proof. vm_compute. reflexivity. Qed.
