(* ===== verification/DiskannIndex.v ===== *)
(** Building a DiskANN index: [DiskAnnIndex] of [core/src/diskann.rs] from its
    construction over training, ingestion and the memory checks to
    [prepare_build], with [estimate_sharded_vamana_memory_bytes] of
    [core/src/vamana.rs] and the entry of the writer of [core/src/diskann_io.rs].

    The floating-point kernels are gathered in [IndexKernels]: normalisation,
    norms, the distances of the graph build and of the encoder, and clustering. *)

From S2P Require Import Prelude SeekIo F32 Adjacency DiskannUtil RowIds DiskannHeader SectionWriter AdjacencyLayout Pq DiskannFile.
From S2P Require Import SparseTable CompactAdjacency VamanaGraph VamanaRepair RobustPrune GreedySearch VamanaBuild PqTrain TrainingPlan.
From S2P Require Import PqBuildDistance VamanaSequential VamanaShards VamanaShardedBuild.

(** What the index computes with.  The kernels of the graph see the vectors, the
    dimension and the metric; those of a shard also its members. *)
Record IndexKernels := IxKernels {
  x_normalize : list Z → list Z;
  x_norm : list Z → Z;
  x_kmeans : list Z → nat → nat → nat → option (list Z) → list Z;
  x_sub_distances : ProductQuantizer → list Z → nat → list Z;
  x_graph : list Z → Z → MetricType → BuildKernels;
  x_shard_centroid : list Z → Z → MetricType → list Z → nat → Z;
  x_cluster : list Z → Z → nat → nat → nat → Z;
  x_fvec_distance : list Z → list Z → MetricType → Z;
  x_add : Z → Z → Z;
  x_f16_from_f32 : Z → Z;
  x_f16_is_finite : Z → bool;
}.

(** ** Construction, training, ingestion *)

Definition with_pq_bits (d : Z) (metric : MetricType) (pq_m pq_bits : Z) (build_params : DiskAnnBuildParams) : io_result DiskAnnIndex :=
  pq ← with_nbits_balanced d pq_m pq_bits;
  Ok (DiskAnn d metric pq build_params [] []).
Definition diskann_new (d : Z) (metric : MetricType) (pq_m : Z) (build_params : DiskAnnBuildParams) : io_result DiskAnnIndex :=
  with_pq_bits d metric pq_m 8 build_params.

Section Index.
Context (X : IndexKernels) (threads : Z).

(** [distance::preprocess_vectors] normalises row by row; the other metrics
    borrow the rows unchanged. *)
Definition preprocess_vectors (index : DiskAnnIndex) (data : list Z) (count : nat) : io_result (list Z) :=
  rows ← expect (get_slice 0 (count * Z.to_nat (ix_d index)) data);
  match ix_metric index with
  | Cosine => Ok (if 0 <? ix_d index then concat (x_normalize X <$> chunks (Z.to_nat (ix_d index)) rows) else rows)
  | _ => Ok rows
  end.

Definition training_plan (index : DiskAnnIndex) (n : Z) : io_result PqTrainingPlan :=
  pq_training_plan_with_sample_buffers (ix_d index) (q_m (ix_pq index)) (q_ksub (ix_pq index))
    (bp_memory_budget_bytes (ix_build_params index)) (sample_buffers (ix_metric index)) threads n.

Definition set_pq (index : DiskAnnIndex) (pq : ProductQuantizer) : DiskAnnIndex :=
  DiskAnn (ix_d index) (ix_metric index) pq (ix_build_params index) (ix_ids index) (ix_vectors index).

Definition train_with_config `{Rng R} (index : DiskAnnIndex) (data : list Z) (n : nat) : io_result DiskAnnIndex :=
  _ ← ensure_input (negb (n =? 0)%nat) "DiskANN training vector count must be greater than zero";
  expected_len ← or_input (checked_mul 64 (Z.of_nat n) (ix_d index)) "DiskANN training data length overflows usize";
  _ ← ensure_input (zlen data =? expected_len) "DiskANN training data length does not match n * dimension";
  plan ← training_plan index (Z.of_nat n);
  sample ← bounded_pq_training_sample (R := R) data n (Z.to_nat (ix_d index)) (Z.to_nat (sample_count plan)) (bp_seed (ix_build_params index));
  sample ← match sample with
           | Some sample => Ok sample
           | None => expect (get_slice 0 (Z.to_nat (saturating_mul 64 (sample_count plan) (ix_d index))) data)
           end;
  processed ← preprocess_vectors index sample (Z.to_nat (sample_count plan));
  pq ← train_hot_start (x_kmeans X) (x_norm X) (ix_pq index) processed (Z.to_nat (sample_count plan)) false;
  Ok (set_pq index pq).

Definition diskann_add (index : DiskAnnIndex) (data ids : list Z) : io_result DiskAnnIndex :=
  processed ← preprocess_vectors index data (length ids);
  Ok (DiskAnn (ix_d index) (ix_metric index) (ix_pq index) (ix_build_params index) (ix_ids index ++ ids) (ix_vectors index ++ processed)).

(** ** Memory estimates *)

Definition checked_bytes (count item_size : Z) : io_result Z :=
  or_input (checked_mul 64 count item_size) "DiskANN byte size overflows usize".
Definition row_id_encoding_scratch_bytes (count : Z) : io_result Z := checked_bytes count 8.

(** [Vec<u32>] is 24 bytes and [usize] 8. *)
Definition estimate_sharded_vamana_memory_bytes (sz : ShardSizes) (node_count dimension max_degree shard_count pq_code_size : Z) : option Z :=
  if (node_count =? 0) || (shard_count <? 2) then None
  else
    edge_bytes ← checked_mul 64 max_degree 4;
    list_bytes ← checked_add 64 edge_bytes 2;
    compact_graph ← checked_mul 64 node_count list_bytes;
    assignments ← checked_mul 64 node_count 16;
    local_count ← overlapping_shard_capacity node_count shard_count;
    all_members ← checked_mul 64 shard_count local_count;
    all_members ← checked_mul 64 all_members 4;
    member_lists ← checked_mul 64 shard_count 24;
    memberships ← checked_add 64 all_members member_lists;
    centroids ← checked_mul 64 shard_count dimension;
    centroids ← checked_mul 64 centroids 4;
    kmeans_limit ← checked_mul 64 shard_count 256;
    let kmeans_train_count := Z.min node_count kmeans_limit in
    kmeans_training_copy ← checked_mul 64 kmeans_train_count dimension;
    kmeans_training_copy ← checked_mul 64 kmeans_training_copy 4;
    kmeans_assignments ← checked_mul 64 kmeans_train_count 8;
    kmeans_initialization ← checked_mul 64 kmeans_train_count 4;
    kmeans_scores ← checked_mul 64 kmeans_train_count shard_count;
    kmeans_score_matrix ← checked_mul 64 (Z.min kmeans_scores (4 * 1024 * 1024)) 4;
    kmeans_centroid_scratch ← checked_mul 64 centroids 3;
    kmeans_peak ← checked_sum [kmeans_training_copy; kmeans_assignments; kmeans_initialization; kmeans_score_matrix; kmeans_centroid_scratch];
    local_vectors ← checked_mul 64 local_count dimension;
    local_vectors ← checked_mul 64 local_vectors 4;
    local_ids ← checked_mul 64 local_count 4;
    local_pq_codes ← checked_mul 64 local_count pq_code_size;
    node_bytes ← checked_mul 64 edge_bytes 2;
    node_bytes ← checked_add 64 node_bytes 24;
    node_bytes ← checked_add 64 node_bytes 8;
    node_bytes ← checked_add 64 node_bytes 2;
    local_graph ← checked_mul 64 local_count node_bytes;
    build_peak ← checked_sum [compact_graph; assignments; memberships; centroids; kmeans_peak; local_vectors; local_ids; local_pq_codes; local_graph];
    whole ← estimate_vamana_memory_bytes sz node_count max_degree (Z.max max_degree 1) 1;
    Some (Z.max build_peak (remap_peak_bytes whole)).

Context (sz : ShardSizes).
Definition workers : Z := Z.max threads 1.
Definition graph_stage_peak (index : DiskAnnIndex) : io_result Z :=
  vamana ← or_input (estimate_vamana_memory_bytes sz (zlen (ix_ids index)) (bp_max_degree (ix_build_params index))
                       (bp_build_search_list_size (ix_build_params index)) workers) "DiskANN Vamana memory estimate overflows usize";
  Ok (Z.max (build_peak_bytes vamana) (remap_peak_bytes vamana)).

Definition estimate_build_memory_bytes (index : DiskAnnIndex) : io_result Z :=
  let n := zlen (ix_ids index) in
  let pq := ix_pq index in
  raw_vectors ← checked_bytes (zlen (ix_vectors index)) 4;
  row_ids ← checked_bytes n 8;
  row_id_encoding_scratch ← row_id_encoding_scratch_bytes n;
  pq_codes ← checked_bytes n (code_size pq);
  pq_codebook ← checked_bytes (zlen (q_centroids pq)) 4;
  pq_build_distances ←
    match bp_build_distance (ix_build_params index) with
    | ProductQuantized =>
        or_input (value ← checked_mul 64 (q_m pq) (q_ksub pq); columns ← checked_add 64 (q_ksub pq) workers;
                  value ← checked_mul 64 value columns; checked_mul 64 value 4)
          "DiskANN PQ build-distance table size overflows"
    | FullPrecision => Ok 0
    end;
  row_id_order ← checked_bytes n 4;
  locators ← checked_bytes n 4;
  block_offsets ← checked_bytes (div_ceil n 16) 8;
  adjacency_index ← or_input (checked_add 64 locators block_offsets) "DiskANN adjacency index size overflows usize";
  graph_stage_peak ← graph_stage_peak index;
  or_input (checked_sum [raw_vectors; row_ids; row_id_encoding_scratch; pq_codes; pq_codebook; pq_build_distances; row_id_order;
                         adjacency_index; graph_stage_peak]) "DiskANN memory estimate overflows usize".

(** [for shard_count in 2..=max_shards] *)
Fixpoint first_fitting_shards (index : DiskAnnIndex) (fixed_bytes : Z) (shard_counts : list nat) : option nat :=
  match shard_counts with
  | [] => None
  | shard_count :: rest =>
      let n := zlen (ix_ids index) in
      let code_bytes := match bp_build_distance (ix_build_params index) with ProductQuantized => code_size (ix_pq index) | FullPrecision => 0 end in
      match estimate_sharded_vamana_memory_bytes sz n (ix_d index)
              (Z.min (bp_max_degree (ix_build_params index)) (saturating_sub n 1)) (Z.of_nat shard_count) code_bytes with
      | None => first_fitting_shards index fixed_bytes rest
      | Some sharded_graph =>
          match checked_add 64 fixed_bytes sharded_graph with
          | Some peak => if peak <=? bp_memory_budget_bytes (ix_build_params index) then Some shard_count
                         else first_fitting_shards index fixed_bytes rest
          | None => first_fitting_shards index fixed_bytes rest
          end
      end
  end.

Definition graph_build_shard_count (index : DiskAnnIndex) : io_result nat :=
  estimated ← estimate_build_memory_bytes index;
  if estimated <=? bp_memory_budget_bytes (ix_build_params index) then Ok 1%nat
  else
    graph_peak ← graph_stage_peak index;
    fixed_bytes ← or_input (checked_sub estimated graph_peak) "DiskANN fixed memory estimate underflows";
    let max_shards := (64 `min` (length (ix_ids index) / 2))%nat in
    or_input (first_fitting_shards index fixed_bytes (seq 2 (max_shards - 1)))
      "DiskANN estimated build memory exceeds memory budget; overlapping sharded build also cannot fit".

(** ** Checks before writing *)

Definition validate_for_write (index : DiskAnnIndex) : io_result unit :=
  let pq := ix_pq index in
  let build := ix_build_params index in
  _ ← validate_diskann_format_configuration (ix_d index) (q_m pq) (q_nbits pq) build;
  _ ← validate_diskann_training_budget threads (ix_d index) (ix_metric index) (q_m pq) (q_nbits pq) (bp_memory_budget_bytes build);
  _ ← ensure_input (negb (bp_memory_budget_bytes build =? 0)) "DiskANN memory budget must be greater than zero";
  _ ← ensure_input (negb (bool_decide (ix_ids index = []) || bool_decide (try_from 32 (zlen (ix_ids index)) = None)))
        "DiskANN vector count must be between 1 and u32::MAX";
  expected_vectors ← or_input (checked_mul 64 (zlen (ix_ids index)) (ix_d index)) "DiskANN vector shape overflows usize";
  _ ← ensure_input (zlen (ix_vectors index) =? expected_vectors) "DiskANN vector length does not match";
  _ ← ensure_input (forallb f32_is_finite (ix_vectors index)) "DiskANN vector data contains a non-finite value";
  _ ← ensure_input (match bp_raw_vector_encoding build with
                    | EncF16 => forallb (λ value, x_f16_is_finite X (x_f16_from_f32 X value)) (ix_vectors index)
                    | EncF32 => true
                    end) "DiskANN vector data is outside the finite f16 range";
  expected_ksub ← or_input (if q_nbits pq <? 64 then Some (Z.shiftl 1 (q_nbits pq)) else None) "DiskANN PQ centroid count overflows usize";
  expected_centroids ← or_input (checked_mul 64 (ix_d index) expected_ksub) "DiskANN PQ codebook shape overflows usize";
  valid ← (if (q_d pq =? ix_d index) && (q_ksub pq =? expected_ksub) && (zlen (q_centroids pq) =? expected_centroids)
           then has_valid_layout pq else Ok false);
  _ ← ensure_input valid "DiskANN PQ codebook shape is invalid";
  ensure_input (forallb f32_is_finite (q_centroids pq)) "DiskANN PQ codebook contains a non-finite value".

(** ** The prepared index *)

(** Cosine vectors are normalised on the way in. *)
Definition graph_metric (index : DiskAnnIndex) : MetricType :=
  match ix_metric index with Cosine => L2 | metric => metric end.

Definition vamana_params (index : DiskAnnIndex) : VamanaParams :=
  let build := ix_build_params index in
  Params (Z.to_nat (bp_max_degree build)) (Z.to_nat (bp_build_search_list_size build)) (bp_alpha build) (bp_seed build)
    (bp_memory_budget_bytes build) threads.

(** The four builds, by the distance and the number of shards. *)
Definition build_graph `{Rng R} (fuel : nat) (index : DiskAnnIndex) (pq_codes : list Z) (graph_shards : nat) : io_result VamanaGraph :=
  let metric := graph_metric index in
  let K := x_graph X (ix_vectors index) (ix_d index) metric in
  let n := length (ix_ids index) in
  let sharded pq_build :=
    build_sharded_with_optional_pq (x_fvec_distance X) (x_add X) (R := R) fuel K (x_shard_centroid X (ix_vectors index) (ix_d index) metric)
      sz pq_build (ix_d index) n metric (vamana_params index) (zlen (ix_vectors index))
      (x_cluster X (ix_vectors index) (ix_d index) graph_shards) graph_shards in
  if (1 <? graph_shards)%nat then
    match bp_build_distance (ix_build_params index) with
    | FullPrecision => sharded None
    | ProductQuantized => sharded (Some (ix_pq index, pq_codes))
    end
  else
    match bp_build_distance (ix_build_params index) with
    | FullPrecision => build_with_search_distance (R := R) K sz (zlen (ix_vectors index)) (ix_d index) n metric (vamana_params index)
    | ProductQuantized =>
        build_with_pq_stats (x_fvec_distance X) (x_add X) (R := R) K sz (zlen (ix_vectors index)) (ix_d index) (ix_pq index) pq_codes n metric
          (vamana_params index)
    end.

Definition prepare_build `{Rng R} (fuel : nat) (index : DiskAnnIndex) : io_result PreparedDiskAnn :=
  _ ← validate_for_write index;
  graph_shards ← graph_build_shard_count index;
  pq_codes ← encode_batch (x_sub_distances X (ix_pq index)) (ix_pq index) (ix_vectors index) (length (ix_ids index))
               (replicate (length (ix_ids index) * Z.to_nat (code_size (ix_pq index))) 0);
  graph ← build_graph (R := R) fuel index pq_codes graph_shards;
  permutation ← bfs_locality_permutation graph;
  graph ← remap_graph_in_place graph permutation;
  lists ← adj_iter (adjacency graph);
  Ok (Prepared (ListsOf (entry_node graph) lists) permutation pq_codes).

(** The whole save: the position is checked before anything is built. *)
Definition write_diskann_index_with_stats `{Rng R, SeekWrite W} (fuel : nat) (index : DiskAnnIndex) (out : W) : io_result W :=
  _ ← ensure_input (pos out =? 0) "DiskANN output must start at offset zero";
  prepared ← prepare_build (R := R) fuel index;
  write_diskann_index (x_f16_from_f32 X) (x_f16_is_finite X) index prepared out.

End Index.

(** ** From construction to a trained, filled index *)

(** The shapes every operation keeps. *)
Record index_shape (index : DiskAnnIndex) : Prop := {
  is_d : 0 < ix_d index;
  is_plan : plan_ok (ix_pq index);
  is_pq_d : q_d (ix_pq index) = ix_d index;
  is_vectors : zlen (ix_vectors index) = zlen (ix_ids index) * ix_d index;
}.
(** A codebook is in place and its caches agree with it. *)
Definition trained (X : IndexKernels) (index : DiskAnnIndex) : Prop :=
  pq_ok (ix_pq index) ∧ try_set_centroids (x_norm X) (ix_pq index) (q_centroids (ix_pq index)) = Ok (ix_pq index).

Lemma with_pq_bits_shape d metric m bits build index : with_pq_bits d metric m bits build = Ok index → index_shape index.
Proof.
  intros Hn. unfold with_pq_bits in Hn. bind_ok Hn as q Hq. injection Hn as <-. pose proof Hq as Hplan. unfold with_nbits_balanced in Hplan.
  destruct (negb (0 <? d)) eqn:Ed; [done|]. destruct (negb ((0 <? m) && (m <=? d))) eqn:Em; [done|].
  apply negb_false_iff in Ed, Em. apply andb_true_iff in Em as [Em1 Em2].
  assert (bits = 4 ∨ bits = 8) as Hbits by (unfold with_validated_chunk_offsets in Hplan; destruct ((bits =? 4) || (bits =? 8)) eqn:Eb; [lia|done]).
  destruct (pq_balanced_layout d m bits ltac:(lia) Hbits) as (q' & Eq & Etry & _). rewrite Hq in Eq. injection Eq as <-.
  apply try_with_chunk_offsets_inr in Etry as (_ & _ & Ho & dsub & Hmax & Eq). split; cbn; [lia| |by rewrite Eq|done].
  rewrite Eq in *. split; cbn in *; try done; lia.
Qed.

Lemma split_rows {A} d : ∀ n (data : list A), length data = (n * d)%nat →
  ∃ rows, data = concat rows ∧ length rows = n ∧ Forall (λ r, length r = d) rows.
Proof.
  induction n as [|n IH]; intros data Hl; [by exists []; destruct data|]. destruct (IH (drop d data)) as (rows & E & Hr & Hf); [rewrite length_drop; lia|].
  exists (take d data :: rows). cbn [concat length]. rewrite <- E, take_drop. split_and!; [done|lia|]. constructor; [rewrite length_take; lia|done].
Qed.

Section Ingestion.
Context (X : IndexKernels) (threads : Z).
Context (normalize_len : ∀ v, length (x_normalize X v) = length v).
Context (kmeans_len : ∀ rows n chunk_dim k init, length rows = (n * chunk_dim)%nat →
  length (x_kmeans X rows n chunk_dim k init) = (k * chunk_dim)%nat).

Lemma chunks_concat_length {A} w (l : list A) (f : list A → list A) :
  (∀ v, length (f v) = length v) → (0 < w)%nat → length (concat (f <$> chunks w l)) = length l.
Proof.
  intros Hf Hw. unfold chunks. assert (∀ fuel (l : list A), (length l ≤ fuel)%nat → length (concat (f <$> chunks_fuel fuel w l)) = length l) as H; [|by apply H].
  clear l. intros fuel. induction fuel as [|fuel IH]; intros [|a l] Hl; try done; [cbn in Hl; lia|].
  cbn [chunks_fuel fmap list_fmap concat]. rewrite length_app, Hf, IH, length_take, length_drop by (rewrite length_drop; cbn in *; lia). lia.
Qed.

Lemma preprocess_ok index data count :
  (0 < ix_d index) → (count * Z.to_nat (ix_d index) ≤ length data)%nat →
  ∃ v, preprocess_vectors X index data count = Ok v ∧ length v = (count * Z.to_nat (ix_d index))%nat.
Proof.
  intros Hd Hl. unfold preprocess_vectors. assert (get_slice 0 (count * Z.to_nat (ix_d index)) data = Some (take (count * Z.to_nat (ix_d index)) data)) as ->.
  { apply get_slice_Some. split; [lia|]. unfold slice. by rewrite drop_0. }
  cbn [expect mbind io_result_bind]. destruct (ix_metric index); [eexists; split; [done|rewrite length_take; lia]..|].
  rewrite (proj2 (Z.ltb_lt _ _)) by done. eexists. split; [done|]. rewrite chunks_concat_length by (done || lia). rewrite length_take. lia.
Qed.

Lemma preprocess_length index data count v :
  0 < ix_d index → preprocess_vectors X index data count = Ok v → length v = (count * Z.to_nat (ix_d index))%nat.
Proof.
  intros Hd Hv. destruct (decide (count * Z.to_nat (ix_d index) ≤ length data)%nat) as [Hl|Hl].
  - destruct (preprocess_ok index data count Hd Hl) as (v' & E & Hlen). rewrite Hv in E. by injection E as <-.
  - unfold preprocess_vectors in Hv. bind_ok Hv as rows Hr. apply expect_Ok, get_slice_Some in Hr. lia.
Qed.

(** Ingestion keeps the shapes and the codebook. *)
Lemma diskann_add_shape index data ids index' :
  index_shape index → diskann_add X index data ids = Ok index' → index_shape index' ∧ ix_pq index' = ix_pq index.
Proof.
  intros Hs Ha. unfold diskann_add in Ha. bind_ok Ha as v Hv. injection Ha as <-. split; [|done]. pose proof (is_d _ Hs).
  apply preprocess_length in Hv; [|done]. split; cbn; try apply Hs. rewrite !zlen_app, (is_vectors _ Hs). unfold zlen. rewrite Hv. nia.
Qed.

Section Training.
Context `{RngLaws R}.

(** Training succeeds whenever its plan does. *)
Lemma train_with_config_ok index (data : list Z) (n : nat) plan :
  index_shape index → (0 < n)%nat → zlen data = Z.of_nat n * ix_d index → Z.of_nat n * ix_d index < 2 ^ 64 →
  training_plan threads index (Z.of_nat n) = Ok plan →
  ∃ index', train_with_config X threads (R := R) index data n = Ok index' ∧ index_shape index' ∧ trained X index'.
Proof.
  intros Hs Hn Hdata Hfit Hplan. pose proof (is_d _ Hs) as Hd. unfold train_with_config.
  rewrite (proj2 (Nat.eqb_neq n 0)) by lia. cbn [negb]. change (ensure_input true ?m) with (Ok ()). cbn [mbind io_result_bind].
  rewrite (proj2 (checked_mul_Some 64 (Z.of_nat n) (ix_d index) _)) by (split; [reflexivity|done]). cbn [or_input ok_or mbind io_result_bind].
  rewrite Hdata, Z.eqb_refl. change (ensure_input true ?m) with (Ok ()). cbn [mbind io_result_bind]. rewrite Hplan. cbn [mbind io_result_bind].
  pose proof (plan_ksub _ (is_plan _ Hs)) as Hk. unfold training_plan in Hplan.
  pose proof (training_plan_spec (ix_d index) (q_m (ix_pq index)) (q_ksub (ix_pq index)) (bp_memory_budget_bytes (ix_build_params index))
    (sample_buffers (ix_metric index)) threads (Z.of_nat n) ltac:(lia) ltac:(unfold DISKANN_MAX_PQ_TRAINING_VECTORS; lia)
    ltac:(destruct (ix_metric index); cbn; lia) ltac:(lia)) as Hspec. cbn zeta in Hspec. rewrite Hplan in Hspec. destruct Hspec as (Hsc & _).
  set (sc := Z.to_nat (sample_count plan)) in *. set (d := Z.to_nat (ix_d index)) in *.
  assert (∃ rows, data = concat rows ∧ length rows = n ∧ Forall (λ r, length r = d) rows) as (rows & -> & Hrl & Hrd).
  { apply split_rows. unfold zlen in Hdata. lia. }
  assert (0 < sc ≤ n)%nat as Hscn by (unfold sc; lia).
  assert (∃ sample, (sample ← bounded_pq_training_sample (R := R) (concat rows) n d sc (bp_seed (ix_build_params index));
      match sample with Some sample => Ok sample
      | None => expect (get_slice 0 (Z.to_nat (saturating_mul 64 (sample_count plan) (ix_d index))) (concat rows)) end) = Ok sample ∧
      (sc * d ≤ length sample)%nat) as (sample & Es & Hsl).
  { destruct (training_sample_spec (R := R) rows d sc Hrd ltac:(lia) (bp_seed (ix_build_params index))) as [Hsm Hlg]. rewrite Hrl in Hsm, Hlg.
    destruct (decide (n ≤ sc)%nat) as [Hle|Hgt].
    - rewrite Hsm by done. cbn [mbind io_result_bind]. exists (concat rows). pose proof (concat_rows_length d rows Hrd) as Hcl. split; [|nia].
      assert (get_slice 0 (Z.to_nat (saturating_mul 64 (sample_count plan) (ix_d index))) (concat rows) = Some (concat rows)) as ->; [|done].
      apply get_slice_Some. unfold saturating_mul. rewrite Z.min_l by nia. assert (Z.to_nat (sample_count plan * ix_d index) = length (concat rows)) as -> by nia.
      split; [lia|]. unfold slice. by rewrite drop_0, firstn_all.
    - destruct Hlg as (picked & -> & Hpl & Hp); [lia|]. cbn [mbind io_result_bind]. eexists. split; [done|].
      rewrite (concat_rows_length d); [lia|]. eapply Forall_impl; [exact Hp|]. naive_solver. }
  bind_ok Es as s0 Hs0. rewrite Hs0. cbn [mbind io_result_bind]. rewrite Es. cbn [mbind io_result_bind].
  destruct (preprocess_ok index sample sc Hd Hsl) as (v & -> & Hvl). cbn [mbind io_result_bind].
  destruct (train_ok (x_kmeans X) (x_norm X) kmeans_len (ix_pq index) (is_plan _ Hs) v sc) with (hot_start := false) as (q & prev & -> & Hq & _ & Ed & _ & _ & _ & _ & Hset);
    [rewrite (is_pq_d _ Hs); unfold zlen; lia|done|]. cbn [mbind io_result_bind].
  eexists. split; [reflexivity|]. split; [|by split]. split; cbn; [apply Hs|by apply pq_ok_plan|rewrite Ed; apply Hs|apply Hs].
Qed.

(** Training again replaces the codebook and nothing else. *)
Lemma train_with_config_shape index (data : list Z) (n : nat) index' :
  index_shape index → train_with_config X threads (R := R) index data n = Ok index' → index_shape index' ∧ trained X index'.
Proof.
  intros Hs Ht. pose proof Ht as Hrun. unfold train_with_config in Ht. guard_ok Ht as Hn. bind_ok Ht as len Hlen. guard_ok Ht as Hdata. bind_ok Ht as plan Hplan.
  apply ok_or_Ok, checked_mul_Some in Hlen as [-> Hfit]. apply Z.eqb_eq in Hdata. apply negb_true_iff, Nat.eqb_neq in Hn.
  destruct (train_with_config_ok index data n plan) as (index2 & E & Hs2 & Ht2); [done|lia|done|done|done|]. rewrite Hrun in E. by injection E as <-.
Qed.

End Training.
End Ingestion.

(** What can be done with an index before it is written. *)
Inductive lifecycle `{Rng R} (X : IndexKernels) (threads : Z) : DiskAnnIndex → bool → Prop :=
  | lc_new d metric m bits build index : with_pq_bits d metric m bits build = Ok index → lifecycle X threads index false
  | lc_train index was data n index' :
      lifecycle X threads index was → train_with_config X threads (R := R) index data n = Ok index' → lifecycle X threads index' true
  | lc_add index was data ids index' :
      lifecycle X threads index was → diskann_add X index data ids = Ok index' → lifecycle X threads index' was.

(** C25: however an index is constructed, trained and filled, in any order and any
    number of times, its shapes hold: the chunk plan is valid for the dimension
    and there is one row of components per row ID.  After a training the codebook is
    complete and its caches are those of the codebook, so it passes the
    quantizer checks of [validate_for_write]; and training never fails on data of
    the right length when its memory plan exists. *)
Theorem index_lifecycle_shape `{RngLaws R} (X : IndexKernels) (threads : Z) (index : DiskAnnIndex) (was : bool) :
  (∀ v, length (x_normalize X v) = length v) →
  (∀ rows n chunk_dim k init, length rows = (n * chunk_dim)%nat → length (x_kmeans X rows n chunk_dim k init) = (k * chunk_dim)%nat) →
  lifecycle (R := R) X threads index was →
  index_shape index ∧
  (was = true → has_valid_layout (ix_pq index) = Ok true ∧
     try_set_centroids (x_norm X) (ix_pq index) (q_centroids (ix_pq index)) = Ok (ix_pq index)) ∧
  (∀ data n plan, (0 < n)%nat → zlen data = Z.of_nat n * ix_d index → Z.of_nat n * ix_d index < 2 ^ 64 →
     training_plan threads index (Z.of_nat n) = Ok plan → ∃ index', train_with_config X threads (R := R) index data n = Ok index').
Proof.
  intros Hnorm Hkm Hl. assert (index_shape index ∧ (was = true → trained X index)) as [Hs Ht].
  { induction Hl as [d metric m bits build index Hn|index was data n index' _ [IH _] Ht|index was data ids index' _ [IH IHt] Ha].
    - split; [by eapply with_pq_bits_shape|done].
    - destruct (train_with_config_shape X threads Hnorm Hkm index data n index' IH Ht) as [? ?]. by split.
    - destruct (diskann_add_shape X Hnorm index data ids index' IH Ha) as [? E]. split; [done|]. intros Hw. unfold trained. rewrite E. by apply IHt. }
  split_and!; [done| |].
  - intros Hw. destruct (Ht Hw) as [Hq Hset]. split; [|done]. apply has_valid_layout_true; [|done]. pose proof (ok_d _ Hq). lia.
  - intros data n plan Hn Hd Hf Hp. destruct (train_with_config_ok X threads Hnorm Hkm index data n plan Hs Hn Hd Hf Hp) as (index' & E & _). by exists index'.
Qed.

(** ** A concrete index: constructed, trained on sixteen vectors, filled with three *)

Definition demo_ix_kernels : IndexKernels :=
  IxKernels (λ v, v) demo_norm demo_kmeans (λ _ _, demo_distances) (λ _ _ _, demo_kernels) (λ _ _ _ _ i, Z.of_nat i)
    (λ _ _ _, demo_cluster_distance) (λ _ _ _, 0) Z.add demo_f16 (λ _, true).
Definition demo_ix_new : DiskAnnIndex := match with_pq_bits 4 L2 3 4 interleaved_params with Ok ix => ix | _ => demo_index end.
Definition demo_ix_trained : DiskAnnIndex :=
  match train_with_config demo_ix_kernels 2 (R := nat) demo_ix_new (seqZ 0 64) 16 with Ok ix => ix | _ => demo_index end.
Definition demo_ix : DiskAnnIndex :=
  match diskann_add demo_ix_kernels demo_ix_trained (seqZ 0 12) [30; 10; 20] with Ok ix => ix | _ => demo_index end.

Lemma demo_lifecycle : lifecycle (R := nat) demo_ix_kernels 2 demo_ix true.
Proof.
  apply (lc_add _ _ demo_ix_trained true (seqZ 0 12) [30; 10; 20]); [|vm_compute; reflexivity].
  apply (lc_train _ _ demo_ix_new false (seqZ 0 64) 16); [|vm_compute; reflexivity].
  apply (lc_new _ _ 4 L2 3 4 interleaved_params). vm_compute. reflexivity.
Qed.

Lemma demo_kmeans_len rows n chunk_dim k init :
  length rows = (n * chunk_dim)%nat → length (demo_kmeans rows n chunk_dim k init) = (k * chunk_dim)%nat.
Proof. intros _. unfold demo_kmeans. rewrite length_take, length_app, length_replicate. lia. Qed.

Lemma index_lifecycle_shape_witness :
  index_shape demo_ix ∧
  (true = true → has_valid_layout (ix_pq demo_ix) = Ok true ∧
     try_set_centroids demo_norm (ix_pq demo_ix) (q_centroids (ix_pq demo_ix)) = Ok (ix_pq demo_ix)) ∧
  (∀ data n plan, (0 < n)%nat → zlen data = Z.of_nat n * ix_d demo_ix → Z.of_nat n * ix_d demo_ix < 2 ^ 64 →
     training_plan 2 demo_ix (Z.of_nat n) = Ok plan → ∃ index', train_with_config demo_ix_kernels 2 (R := nat) demo_ix data n = Ok index').
Proof.
  apply (index_lifecycle_shape (R := nat) demo_ix_kernels 2 demo_ix true).
  - reflexivity.
  - exact demo_kmeans_len.
  - exact demo_lifecycle.
Defined.
