(* ===== verification/DiskannSave.v ===== *)
(** Saving a DiskANN index end to end: what [validate_for_write] and the memory
    estimate accept is built, planned, written and read back.  The file brings
    together the build ([DiskannIndex]), the planner ([AdjacencyLayout]), the
    layout ([DiskannHeader]) and the writer and reader ([DiskannFile]). *)

From S2P Require Import Prelude SeekIo F32 Adjacency DiskannUtil RowIds DiskannHeader SectionWriter AdjacencyLayout Pq DiskannFile.
From S2P Require Import SparseTable CompactAdjacency VamanaGraph VamanaRepair RobustPrune GreedySearch VamanaBuild PqTrain TrainingPlan.
From S2P Require Import PqBuildDistance VamanaSequential VamanaShards VamanaShardedBuild DiskannIndex.

(** ** The planner and the layout never refuse a valid graph *)

Lemma locator_new_total p o d e :
  0 <= d <= 1023 → locator_new p o d e = Ok (Locator p o (Z.lor d (match e with DeltaVarint => 0 | RawU32 => ADJACENCY_RAW_U32_FLAG end))).
Proof. intros Hd. unfold locator_new. pass. pass by (apply Z.leb_le; change ADJACENCY_DEGREE_MASK with 32767; lia). done. Qed.

Lemma plan_loop_total adj ivb D : ∀ page off,
  lists_ok adj → Forall (λ ns, zlen ns <= D) adj → 0 <= ivb → D <= 1023 → ivb + 4 * D <= DISKANN_PAGE_SIZE →
  0 <= page → page + zlen adj < 2 ^ 32 → 0 <= off <= DISKANN_PAGE_SIZE →
  ∃ locs last, plan_loop adj ivb page off = Ok (locs, last) ∧ page <= last <= page + zlen adj.
Proof.
  unfold DISKANN_PAGE_SIZE. induction adj as [|ns adj IH]; intros page off Hl Hd Hivb HD Hfit Hpage Hpages Hoff.
  { eexists _, _. split; [done|]. unfold zlen. cbn. lia. }
  apply list.Forall_cons in Hl as [[Hns Hnl] Hl]. apply list.Forall_cons in Hd as [Hnd Hd]. rewrite zlen_cons in Hpages. pose proof (zlen_nonneg adj).
  destruct (encode_adjacency_list_spec ns Hns ltac:(lia)) as (enc & bytes & _ & Hplan & Hlen & _). pose proof (zlen_nonneg bytes). pose proof (zlen_nonneg ns).
  assert (∃ page' off', (if 4096 <? off + (ivb + zlen bytes) then page_index ← or_input (checked_add 32 page 1) "DiskANN adjacency page count exceeds u32"; Ok (page_index, 0)
      else Ok (page, off)) = Ok (page', off') ∧ page <= page' <= page + 1 ∧ 0 <= off' ∧ off' + (ivb + zlen bytes) <= 4096) as (page' & off' & Hplace & Hp' & Ho' & Hfit').
  { destruct (Z.ltb_spec 4096 (off + (ivb + zlen bytes))).
    - exists (page + 1), 0. split; [by pass|]. lia.
    - eexists _, _. split; [done|]. lia. }
  destruct (IH page' (off' + (ivb + zlen bytes)) Hl Hd Hivb HD Hfit ltac:(lia) ltac:(lia) ltac:(lia)) as (locs & last & E & Hlast).
  eexists _, last. split; [|rewrite zlen_cons; lia]. cbn [plan_loop]. rewrite Hplan. cbn [mbind io_result_bind].
  pass. unfold DISKANN_PAGE_SIZE. pass. rewrite Hplace. cbn [mbind io_result_bind].
  pass. rewrite (locator_new_total page' (off' + ivb) (zlen ns) enc) by lia. cbn [mbind io_result_bind]. rewrite E. reflexivity.
Qed.

(** An interleaved record of the largest degree fits a page. *)
Lemma format_configuration_page dim m bits build :
  validate_diskann_format_configuration dim m bits build = Ok () → 0 <= dim → 0 <= bp_max_degree build →
  dim * element_size (bp_raw_vector_encoding build) < 2 ^ 32 → bp_storage_layout build = Interleaved →
  dim * element_size (bp_raw_vector_encoding build) + bp_max_degree build * 4 <= 4096.
Proof.
  intros Hcfg Hdim Hdeg0 Hrec El. pose proof (format_configuration_Ok _ _ _ _ Hcfg) as (_ & _ & _ & _ & _ & Hdeg' & _).
  unfold validate_diskann_format_configuration in Hcfg. do 9 (let Hg := fresh in guard_ok Hcfg as Hg). apply guard_ok_Ok in Hcfg.
  rewrite El, bool_decide_true in Hcfg by done. cbn [andb] in Hcfg. apply negb_true_iff in Hcfg.
  rewrite (proj2 (checked_mul_Some 64 dim _ _)) in Hcfg by (split; [reflexivity|unfold_widths; lia]).
  rewrite (proj2 (checked_mul_Some 64 _ 4 _)) in Hcfg by (split; [reflexivity|unfold_widths; lia]). cbn [mbind option_bind] in Hcfg.
  rewrite (proj2 (checked_add_Some 64 _ _ _)) in Hcfg by (split; [reflexivity|unfold_widths; lia]). lia.
Qed.

Lemma align_up_total v : 0 <= v → v + 4095 < 2 ^ 64 → ∃ a, align_up v 4096 = Ok a ∧ v <= a < v + 4096.
Proof.
  intros Hv Hfit. assert (∃ a, align_up v 4096 = Ok a) as (a & E).
  { unfold align_up. eexists. by pass. }
  exists a. split; [done|]. change 4096 with (2 ^ 12) in E. apply align_up_spec in E; lia.
Qed.

(** The lengths of all sections, for any configuration that is accepted. *)
Lemma for_layout_total dim count entry m bits mt build r pages :
  validate_diskann_format_configuration dim m bits build = Ok () →
  0 <= dim → 0 <= m → 0 <= bp_max_degree build → dim * element_size (bp_raw_vector_encoding build) < 2 ^ 32 →
  0 < count < 2 ^ 30 → 0 <= entry < count → 0 < pages < 2 ^ 32 → 32 <= r <= 32 + 8 * count →
  ∃ h, for_layout_with_adjacency_pages_and_pq_bits dim count entry m bits mt build r pages = Ok h.
Proof.
  intros Hcfg Hdim Hm0 Hdeg0 Hrec Hcount Hentry Hpages Hr. change (2 ^ 30) with 1073741824 in Hcount.
  pose proof (format_configuration_Ok _ _ _ _ Hcfg) as (Hd & Hm & Hmd & Hbits & Hdeg & Hdeg' & Hs & _ & _).
  pose proof (format_configuration_page _ _ _ _ Hcfg Hdim Hdeg0 Hrec) as Hpage.
  set (es := element_size (bp_raw_vector_encoding build)) in *. assert (2 <= es <= 4) as Hes by (unfold es; destruct (bp_raw_vector_encoding build); cbn; lia).
  unfold_widths. assert (dim <= 2147483648) as Hdim31 by nia. assert (0 <= count * m <= 1073741824 * 2147483648) as Hcm by nia.
  assert (0 <= count * (dim * es) <= 1073741824 * 4294967296) as Hcv by nia.
  assert (∃ k, diskann_pq_ksub bits = Ok k ∧ 16 <= k <= 256) as (k & Hk & Hkb) by (destruct Hbits as [-> | ->]; eexists; split; [reflexivity|lia|reflexivity|lia]).
  assert (∃ cs, diskann_pq_code_size m bits = Ok cs ∧ 0 <= cs <= m) as (cs & Hcs & Hcsb).
  { destruct Hbits as [-> | ->]; eexists; (split; [reflexivity|]); [|lia]. pose proof (div_ceil_spec m 2). lia. }
  assert (0 <= count * cs <= 1073741824 * 2147483648) as Hcc by nia.
  assert (0 <= dim * k <= 2147483648 * 256) as Hdk by nia. pose proof (div_ceil_spec count 16) as Hdc.
  unfold for_layout_with_adjacency_pages_and_pq_bits. fold es. rewrite Hcfg. cbn [mbind io_result_bind]. unfold raw_row_id_section_len, checked_mul_u64, section_end, ROW_ID_SECTION_HEADER_SIZE, DISKANN_PAGE_SIZE.
  assert (∀ x, 0 < x < 4294967296 → negb ((x =? 0) || bool_decide (try_from 32 x = None)) = true) as Hu32.
  { intros x Hx. rewrite (proj2 (try_from_Some 32 x x)) by (split; [done|unfold_widths; lia]). rewrite bool_decide_false by done. lia. }
  assert (match bp_storage_layout build with
      | Interleaved =>
          maximum_adjacency_bytes ← or_input (checked_mul 32 (bp_max_degree build) 4) "DiskANN adjacency record size overflows u32";
          ensure_input (negb (match checked_add 32 (dim * es) maximum_adjacency_bytes with
                              | None => true | Some record_size => 4096 <? record_size end))
            "DiskANN interleaved raw vector and maximum adjacency list do not fit in one page"
      | Compact => Ok ()
      end = Ok ()) as Hfit.
  { destruct (bp_storage_layout build) eqn:El; [done|specialize (Hpage eq_refl)]. pass.
    rewrite (proj2 (checked_add_Some 32 (dim * es) _ _)) by (split; [reflexivity|unfold_widths; lia]). by pass. }
  assert (∃ vl, match bp_storage_layout build with
      | Compact => or_input (checked_mul 64 count (dim * es)) "DiskANN length overflows u64" | Interleaved => Ok 0 end = Ok vl ∧
      0 <= vl <= 1073741824 * 4294967296) as (vl & Hvl & Hvlb).
  { destruct (bp_storage_layout build); [|exists 0; split; [done|lia]]. exists (count * (dim * es)).
    by rewrite (proj2 (checked_mul_Some 64 _ _ _)) by (split; [reflexivity|unfold_widths; lia]). }
  destruct (align_up_total (4096 + (32 + (m + 1) * 4 + dim * k * 4) + r + count * cs + count * 4 + (div_ceil count 16 * 8 + count * 4)))
    as (a & Ha & Hab); [unfold_widths; lia..|].
  eexists. pass by (apply Hu32; lia). pass. pass by (apply Hu32; lia).
  rewrite (proj2 (checked_mul_Some 64 count 8 _)) by (split; [reflexivity|unfold_widths; lia]). cbn [mbind option_bind].
  do 5 pass. rewrite Hk. cbn [mbind io_result_bind]. rewrite Hcs. cbn [mbind io_result_bind]. do 4 pass. rewrite Hfit. cbn [mbind io_result_bind].
  rewrite pq_codebook_serialized_len_total by (unfold_widths; lia). cbn [mbind io_result_bind]. do 2 pass.
  rewrite adjacency_index_serialized_len_total by (unfold_widths; lia). cbn [mbind io_result_bind]. pass. rewrite Hvl. cbn [mbind io_result_bind offset sec_length].
  do 5 pass.
  rewrite Ha. cbn [mbind io_result_bind].
  do 2 pass. reflexivity.
Qed.

(** ** What the checks before writing establish *)

(** Values inside their Rust types. *)
Record index_typed (index : DiskAnnIndex) : Prop := {
  it_d : 0 <= ix_d index;
  it_record : ix_d index * element_size (bp_raw_vector_encoding (ix_build_params index)) < 2 ^ 32;
  it_ids : Forall i64 (ix_ids index);
  it_centroids : Forall u32 (q_centroids (ix_pq index));
  it_degree : 0 <= bp_max_degree (ix_build_params index);
  it_alpha : u32 (bp_alpha (ix_build_params index));
  it_seed : u64 (bp_seed (ix_build_params index));
}.

Record write_checked (X : IndexKernels) (index : DiskAnnIndex) : Prop := {
  wc_config : validate_diskann_format_configuration (ix_d index) (q_m (ix_pq index)) (q_nbits (ix_pq index)) (ix_build_params index) = Ok ();
  wc_count : 0 < zlen (ix_ids index) < 2 ^ 32;
  wc_vectors : zlen (ix_vectors index) = zlen (ix_ids index) * ix_d index;
  wc_shape : zlen (ix_ids index) * ix_d index < 2 ^ 64;
  wc_f16 : bp_raw_vector_encoding (ix_build_params index) = EncF16 →
    Forall (λ v, x_f16_is_finite X (x_f16_from_f32 X v) = true) (ix_vectors index);
  wc_pq_d : q_d (ix_pq index) = ix_d index;
  wc_pq : pq_ok (ix_pq index);
  wc_finite : Forall f32_is_finite (q_centroids (ix_pq index));
}.

Lemma validate_for_write_checked X threads index :
  0 <= ix_d index → validate_for_write X threads index = Ok () → write_checked X index.
Proof.
  intros Hd Hv. unfold validate_for_write in Hv. bind_ok Hv as u Hcfg. destruct u. bind_ok Hv as u Hbudget. guard_ok Hv as Hmem. guard_ok Hv as Hn.
  bind_ok Hv as ev Hev. apply ok_or_Ok, checked_mul_Some in Hev as [-> Hshape]. guard_ok Hv as Hvl. guard_ok Hv as Hfin. guard_ok Hv as Hf16.
  bind_ok Hv as ks Hks. bind_ok Hv as ec Hec. bind_ok Hv as valid Hvalid. guard_ok Hv as Hval. apply guard_ok_Ok in Hv. subst valid.
  destruct ((q_d (ix_pq index) =? ix_d index) && (q_ksub (ix_pq index) =? ks) && (zlen (q_centroids (ix_pq index)) =? ec)) eqn:E; [|discriminate].
  apply andb_true_iff in E as [E _]. apply andb_true_iff in E as [E _]. apply Z.eqb_eq in E.
  split; try done; try lia.
  - rewrite negb_true_iff, orb_false_iff, !bool_decide_eq_false in Hn. destruct Hn as [Hne Ht]. unfold try_from in Ht.
    destruct (Z.ltb_spec (zlen (ix_ids index)) (2 ^ 32)); [|done]. split; [|done]. destruct (ix_ids index); [done|]. unfold zlen. cbn. lia.
  - intros Ee. rewrite Ee in Hf16. apply Forall_forall. intros v Hin%list_elem_of_In.
    exact (proj1 (forallb_forall _ _) Hf16 v Hin).
  - apply has_valid_layout_true; [lia|done].
  - by apply forallb_True, Is_true_true.
Qed.

(** ** The memory estimate covers the graph build *)

Lemma checked_sum_nonneg l t : Forall (λ v, 0 <= v) l → checked_sum l = Some t → 0 <= t.
Proof.
  revert t. induction l as [|x l IH] using rev_ind; intros t Hl Ht; [injection Ht as <-; lia|].
  unfold checked_sum in Ht. rewrite foldl_app in Ht. cbn [foldl] in Ht. apply bind_Some in Ht as (u & Hu & Ht).
  apply Forall_app in Hl as [Hl Hx]. rewrite list.Forall_singleton in Hx. apply checked_add_Some in Ht as [-> _]. specialize (IH u Hl Hu). lia.
Qed.

Lemma checked_sum_last l x t : Forall (λ v, 0 <= v) l → checked_sum (l ++ [x]) = Some t → x <= t.
Proof.
  intros Hl Ht. unfold checked_sum in Ht. rewrite foldl_app in Ht. cbn [foldl] in Ht. apply bind_Some in Ht as (u & Hu & Ht).
  apply checked_add_Some in Ht as [-> _]. pose proof (checked_sum_nonneg l u Hl Hu). lia.
Qed.

Lemma checked_bytes_Ok count size b : checked_bytes count size = Ok b → b = count * size.
Proof. unfold checked_bytes. intros Hb. by inv_ok. Qed.

(** The estimate of the whole build is at least its graph stage. *)
Lemma estimate_covers_graph threads sz index t :
  pq_ok (ix_pq index) → estimate_build_memory_bytes threads sz index = Ok t →
  ∃ peak, graph_stage_peak threads sz index = Ok peak ∧ peak <= t.
Proof.
  intros Hq He. unfold estimate_build_memory_bytes, row_id_encoding_scratch_bytes in He.
  bind_ok He as b1 H1. bind_ok He as b2 H2. bind_ok He as b3 H3. bind_ok He as b4 H4. bind_ok He as b5 H5. bind_ok He as b6 H6.
  bind_ok He as b7 H7. bind_ok He as b8 H8. bind_ok He as b9 H9. bind_ok He as b10 H10. bind_ok He as peak Hpeak.
  apply checked_bytes_Ok in H1, H2, H3, H4, H5, H7, H8, H9. apply ok_or_Ok, checked_add_Some in H10 as [-> _].
  exists peak. split; [done|]. apply ok_or_Ok in He. apply (checked_sum_last [b1; b2; b3; b4; b5; b6; b7; b8 + b9]) in He; [done|].
  pose proof (zlen_nonneg (ix_ids index)). pose proof (zlen_nonneg (ix_vectors index)). pose proof (zlen_nonneg (q_centroids (ix_pq index))).
  pose proof (code_size_pos (ix_pq index) Hq). pose proof (m_pos _ Hq). pose proof (ksub_pos _ Hq). pose proof (div_ceil_nonneg (zlen (ix_ids index)) 16 ltac:(lia) ltac:(lia)).
  subst. repeat apply list.Forall_cons_2; try lia; [|constructor].
  destruct (bp_build_distance (ix_build_params index)); [by injection H6 as <-|]. apply ok_or_Ok in H6. 
  apply bind_Some in H6 as (v1 & Hv1 & H6). apply bind_Some in H6 as (v2 & Hv2 & H6). apply bind_Some in H6 as (v3 & Hv3 & H6).
  apply checked_mul_Some in Hv1 as [-> _]. apply checked_add_Some in Hv2 as [-> _]. apply checked_mul_Some in Hv3 as [-> _]. apply checked_mul_Some in H6 as [-> _].
  unfold workers. nia.
Qed.

(** The shard counts the search can return. *)
Lemma first_fitting_in sz index fixed l k : first_fitting_shards sz index fixed l = Some k → k ∈ l.
Proof.
  induction l as [|c l IH]; intros Hk; cbn [first_fitting_shards] in Hk; [done|].
  destruct (estimate_sharded_vamana_memory_bytes _ _ _ _ _ _) as [g|]; [|right; auto].
  destruct (checked_add 64 fixed g) as [p|]; [|right; auto]. destruct (p <=? _); [injection Hk as <-; left|right; auto].
Qed.

Lemma one_shard_fits threads sz index :
  pq_ok (ix_pq index) → graph_build_shard_count threads sz index = Ok 1%nat →
  ∃ peak, graph_stage_peak threads sz index = Ok peak ∧ peak <= bp_memory_budget_bytes (ix_build_params index).
Proof.
  intros Hq Hs. unfold graph_build_shard_count in Hs. bind_ok Hs as t Ht. destruct (estimate_covers_graph threads sz index t Hq Ht) as (peak & Hp & Hle).
  exists peak. split; [done|]. destruct (Z.leb_spec t (bp_memory_budget_bytes (ix_build_params index))); [lia|].
  bind_ok Hs as p Hp'. bind_ok Hs as f Hf. apply ok_or_Ok, first_fitting_in, elem_of_seq in Hs. lia.
Qed.

Lemma estimate_workers sz n d l threads :
  estimate_vamana_memory_bytes sz n d l (Z.max threads 1) = estimate_vamana_memory_bytes sz n d l threads.
Proof. unfold estimate_vamana_memory_bytes. by replace (Z.max (Z.max threads 1) 1) with (Z.max threads 1) by lia. Qed.

Lemma one_shard_accepted X threads sz index :
  index_typed index → write_checked X index → graph_build_shard_count threads sz index = Ok 1%nat →
  build_accepts sz (zlen (ix_vectors index)) (ix_d index) (length (ix_ids index)) (vamana_params threads index).
Proof.
  intros Ht Hw Hs. destruct (one_shard_fits threads sz index (wc_pq _ _ Hw) Hs) as (peak & Hp & Hle).
  pose proof (format_configuration_Ok _ _ _ _ (wc_config _ _ Hw)) as (Hd & _ & _ & _ & Hdeg & Hdeg' & Hs' & _). pose proof (it_degree _ Ht).
  pose proof (wc_count _ _ Hw) as Hc. unfold build_accepts, vamana_params. cbn [vp_max_degree vp_build_search_list_size vp_workers vp_memory_budget_bytes].
  rewrite !Z2Nat.id by lia. change (Z.of_nat (length (ix_ids index))) with (zlen (ix_ids index)). split.
  - apply validate_build_inputs_iff. split_and!; try lia; [unfold_widths; lia|apply Hw|apply Hw].
  - unfold graph_stage_peak, workers in Hp. rewrite estimate_workers in Hp. bind_ok Hp as e He. apply ok_or_Ok in He. injection Hp as <-.
    rewrite He. cbn [fmap option_fmap option_map validate_build_memory_budget]. by rewrite (proj2 (Z.leb_le _ _)) by done.
Qed.

(** ** The prepared index *)

(** A graph as the writer needs it: relabelled, sorted, every list non-empty when
    there is more than one node. *)
Record prepared_ok (index : DiskAnnIndex) (prepared : PreparedDiskAnn) : Prop := {
  po_codes : zlen (prepared_pq_codes prepared) = zlen (ix_ids index) * code_size (ix_pq index);
  po_permutation : ∃ entry, locality_ok (length (ix_ids index)) entry (permutation prepared);
  po_entry : graph_entry_node (graph prepared) = 0;
  po_length : length (graph_adjacency (graph prepared)) = length (ix_ids index);
  po_valid : valid_graph (graph_adjacency (graph prepared)) (Z.to_nat (bp_max_degree (ix_build_params index)));
  po_sorted : Forall (StronglySorted Z.lt) (graph_adjacency (graph prepared));
  po_reachable : all_reachable (graph_adjacency (graph prepared)) 0;
  po_linked : (2 ≤ length (ix_ids index))%nat → Forall (λ ns, ns ≠ []) (graph_adjacency (graph prepared));
}.

Lemma relabelled_nonempty l l' p entry :
  locality_ok (length l) entry p → relabelled l l' p → Forall (λ x, x ≠ []) l → Forall (λ x, x ≠ []) l'.
Proof.
  intros Hp Hrel Hne. apply Forall_lookup. intros j y Hy. pose proof (lookup_lt_Some _ _ _ Hy) as Hj. rewrite (rl_len _ _ _ Hrel) in Hj.
  destruct (old_place l p entry Hp j Hj) as (i & Hi & Hil). destruct (lookup_lt_is_Some_2 l i Hil) as [x Hx].
  destruct (rl_lists _ _ _ Hrel i j x Hi Hx) as (y' & Hy' & _ & Hyp). rewrite Hy in Hy'. injection Hy' as <-. intros ->.
  apply Permutation_nil_l in Hyp. symmetry in Hyp. apply fmap_nil_inv in Hyp. by apply (Forall_lookup_1 _ _ _ _ Hne Hx).
Qed.

(** Paths move along with the labels. *)
Lemma relabelled_reachable l l' p entry d :
  locality_ok (length l) entry p → valid_graph l d → relabelled l l' p → (entry < length l)%nat →
  all_reachable l entry → all_reachable l' 0.
Proof.
  intros Hp Hval Hrel He Hall j Hj. rewrite (rl_len _ _ _ Hrel) in Hj.
  assert (∀ v, rtc (λ u w, edge l u w ∧ (w < length l)%nat) entry v → ∀ v', old_to_new p !! v = Some (Z.of_nat v') →
    rtc (λ u w, edge l' u w ∧ (w < length l')%nat) 0%nat v') as Hmove.
  { refine (rtc_ind_r (λ v, ∀ v', old_to_new p !! v = Some (Z.of_nat v') → rtc (λ u w, edge l' u w ∧ (w < length l')%nat) 0%nat v') entry _ _).
    - intros v' Hv'. pose proof (proj1 (lo_inverse _ _ _ Hp 0 entry) (lo_entry _ _ _ Hp He)) as E. rewrite Hv' in E. injection E as E. replace v' with 0%nat by lia. reflexivity.
    - intros v w _ [Hedge Hw] IH v' Hv'. assert (v < length l)%nat as Hvl by (destruct Hedge as (x & Hx & _); by eapply lookup_lt_Some).
      destruct (new_place l p entry Hp v Hvl) as (u' & Hu' & _). eapply rtc_r; [exact (IH u' Hu')|]. split.
      + by apply (relabelled_edge l l' p entry d Hp Hval Hrel v w u' v').
      + destruct (new_place l p entry Hp w Hw) as (w' & Hw' & Hlt). rewrite Hv' in Hw'. injection Hw' as Hw'. rewrite (rl_len _ _ _ Hrel). lia. }
  destruct (old_place l p entry Hp j Hj) as (v & Hv & Hvl). exact (Hmove v (Hall v Hvl) j Hv).
Qed.

(** Relabelling what a build returned. *)
Lemma relabel_built n d g l :
  built n d g l → (0 < n)%nat →
  ∃ p g' l', bfs_locality_permutation g = Ok p ∧ remap_graph_in_place g p = Ok g' ∧ adj_iter (adjacency g') = Ok l' ∧
    locality_ok n (Z.to_nat (entry_node g)) p ∧ entry_node g' = 0 ∧ length l' = n ∧ valid_graph l' d ∧ Forall (StronglySorted Z.lt) l' ∧
    all_reachable l' 0 ∧ (Forall (λ x, x ≠ []) l → Forall (λ x, x ≠ []) l').
Proof.
  intros [Hr Hl He Hval Hreach] Hn. pose proof (valid_nonneg l d Hval) as Hnn.
  assert (Z.to_nat (entry_node g) < length l)%nat as Hent by lia.
  destruct (bfs_locality_ok g l Hr Hnn) as (p & Ep & Hp). destruct (remap_graph_ok g l p d Hr Hval Hp Hent) as (g' & l' & Eg & E0 & Hr' & Hrel).
  destruct (relabelled_valid l l' p _ d Hp Hval Hrel) as [Hval' Hs]. exists p, g', l'. split_and!; try done.
  - by apply adj_iter_ok.
  - by rewrite <- Hl.
  - by rewrite (rl_len _ _ _ Hrel).
  - by eapply relabelled_reachable.
  - by apply (relabelled_nonempty l l' p (Z.to_nat (entry_node g))).
Qed.

Section Prepare.
Context `{RngLaws R} (X : IndexKernels) (threads : Z) (sz : ShardSizes) (index : DiskAnnIndex).
Context (Ht : index_typed index) (Hw : write_checked X index) (Hsmall : zlen (ix_ids index) < 2 ^ 30).
Context (Hdist : ∀ x sub, (sub < Z.to_nat (q_m (ix_pq index)))%nat → zlen (x_sub_distances X (ix_pq index) x sub) = q_ksub (ix_pq index)).

Let codes := concat (code_of (x_sub_distances X (ix_pq index)) (ix_pq index) (ix_vectors index) <$> seq 0 (length (ix_ids index))).

Lemma codes_encoded :
  encode_batch (x_sub_distances X (ix_pq index)) (ix_pq index) (ix_vectors index) (length (ix_ids index))
    (replicate (length (ix_ids index) * Z.to_nat (code_size (ix_pq index))) 0) = Ok codes.
Proof. apply encode_batch_ok; [apply Hw|done|]. rewrite (wc_pq_d _ _ Hw), (wc_vectors _ _ Hw). done. Qed.

Lemma codes_length : zlen codes = zlen (ix_ids index) * code_size (ix_pq index).
Proof.
  unfold codes, zlen. pose proof (code_size_pos _ (wc_pq _ _ Hw)).
  rewrite (concat_rows_length (Z.to_nat (code_size (ix_pq index)))), length_fmap, length_seq; [lia|].
  apply Forall_fmap, Forall_forall. intros i _. cbn. apply length_code_of, Hw.
Qed.

Lemma codes_u8 : Forall u8 codes.
Proof. apply Forall_concat, Forall_fmap, Forall_forall. intros i _. cbn. apply code_of_u8; [apply Hw|done]. Qed.

(** One shard: the graph of either distance. *)
Lemma one_shard_built fuel :
  graph_build_shard_count threads sz index = Ok 1%nat →
  ∃ g l, build_graph X threads sz (R := R) fuel index codes 1 = Ok g ∧
    built (length (ix_ids index)) (Z.to_nat (bp_max_degree (ix_build_params index))) g l ∧
    ((2 ≤ length (ix_ids index))%nat → Forall (λ x, x ≠ []) l).
Proof.
  intros Hs. pose proof (one_shard_accepted X threads sz index Ht Hw Hs) as Hacc. unfold build_graph. cbn [Nat.ltb Nat.leb].
  destruct (bp_build_distance (ix_build_params index)); [by apply build_ok|].
  apply pq_build_ok; [exact _| |exact Hsmall]. pose proof (format_configuration_Ok _ _ _ _ (wc_config _ _ Hw)) as (Hd & _ & Hm & _).
  split; [done|]. split_and!; [apply Hw|apply Hw| |apply codes_u8|apply codes_length].
  pose proof (it_record _ Ht). pose proof (it_d _ Ht). destruct (bp_raw_vector_encoding (ix_build_params index)); cbn in *; lia.
Qed.

(** What follows the graph build. *)
Lemma prepare_after_graph fuel shards g l d :
  validate_for_write X threads index = Ok () → graph_build_shard_count threads sz index = Ok shards →
  build_graph X threads sz (R := R) fuel index codes shards = Ok g → built (length (ix_ids index)) d g l →
  (d ≤ Z.to_nat (bp_max_degree (ix_build_params index)))%nat → ((2 ≤ length (ix_ids index))%nat → Forall (λ x, x ≠ []) l) →
  ∃ prepared, prepare_build X threads sz (R := R) fuel index = Ok prepared ∧ prepared_ok index prepared.
Proof.
  intros Hv Hs Hg Hb Hd Hne. pose proof (wc_count _ _ Hw) as Hc. unfold zlen in Hc.
  destruct (relabel_built _ _ _ _ Hb ltac:(lia)) as (p & g' & l' & Ep & Eg & El & Hp & E0 & Hl & Hval & Hsort & Hreach & Hlink).
  unfold prepare_build. rewrite Hv. cbn [mbind io_result_bind]. rewrite Hs. cbn [mbind io_result_bind]. rewrite codes_encoded. cbn [mbind io_result_bind].
  rewrite Hg. cbn [mbind io_result_bind]. rewrite Ep. cbn [mbind io_result_bind]. rewrite Eg. cbn [mbind io_result_bind]. rewrite El. cbn [mbind io_result_bind].
  eexists. split; [reflexivity|]. split; cbn; [apply codes_length|by eexists|done|done| |done|done|auto].
  intros i x Hx. destruct (Hval i x Hx) as (? & ? & ?). split_and!; [lia|done|done].
Qed.

End Prepare.

(** ** A prepared index is writable *)

Lemma encode_raw_vector_total f16 fin v enc :
  zlen v * 4 < 2 ^ 64 → (enc = EncF16 → Forall (λ x, fin (f16 x) = true) v) → ∃ bytes, encode_raw_vector f16 fin v enc = Ok bytes.
Proof.
  intros Hl Hf. pose proof (zlen_nonneg v). unfold encode_raw_vector.
  rewrite (proj2 (checked_mul_Some 64 (zlen v) (element_size enc) _)) by (split; [reflexivity|destruct enc; cbn; lia]). cbn [or_input ok_or mbind io_result_bind].
  destruct enc; [by eexists|]. specialize (Hf eq_refl). apply try_fold_total. intros acc x Hx. rewrite Forall_forall in Hf.
  rewrite (Hf x Hx). by eexists.
Qed.

Section Writable.
Context (X : IndexKernels) (index : DiskAnnIndex) (prepared : PreparedDiskAnn).
Context (Ht : index_typed index) (Hw : write_checked X index) (Hsmall : zlen (ix_ids index) < 2 ^ 30) (Hp : prepared_ok index prepared).

Lemma po_old i : (i < length (ix_ids index))%nat →
  ∃ old, new_to_old (permutation prepared) !! i = Some old ∧ 0 <= old < zlen (ix_ids index).
Proof.
  intros Hi. destruct (po_permutation _ _ Hp) as (entry & Hl). destruct (lookup_lt_is_Some_2 (new_to_old (permutation prepared)) i) as [old Ho]; [by rewrite (lo_new _ _ _ Hl)|].
  exists old. split; [done|]. apply list_elem_of_lookup_2 in Ho. pose proof (lo_perm_new _ _ _ Hl) as Hperm. unfold is_permutation in Hperm. rewrite Hperm in Ho.
  apply list_elem_of_fmap in Ho as (j & -> & Hj%elem_of_seq). rewrite (lo_new _ _ _ Hl) in Hj. unfold zlen. lia.
Qed.

Lemma po_encodable i v : prepared_vector prepared index i = Ok v →
  ∃ bytes, encode_raw_vector (x_f16_from_f32 X) (x_f16_is_finite X) v (bp_raw_vector_encoding (ix_build_params index)) = Ok bytes.
Proof.
  intros Hv. unfold prepared_vector in Hv. bind_ok Hv as old Ho. apply expect_Ok, get_slice_Some in Hv as [Hin ->].
  apply encode_raw_vector_total.
  - unfold zlen, slice. rewrite length_take, length_drop. pose proof (it_record _ Ht). pose proof (it_d _ Ht).
    assert (ix_d index <= 2 ^ 32) by (destruct (bp_raw_vector_encoding (ix_build_params index)); cbn in *; lia). unfold_widths. lia.
  - intros Ee. unfold slice. apply Forall_take, Forall_drop, (wc_f16 _ _ Hw Ee).
Qed.

Lemma po_lists : lists_ok (graph_adjacency (graph prepared)) ∧
  Forall (λ ns, zlen ns <= bp_max_degree (ix_build_params index)) (graph_adjacency (graph prepared)).
Proof.
  pose proof (it_degree _ Ht). split; apply Forall_lookup; intros i x Hx; destruct (po_valid _ _ Hp i x Hx) as (Hl & _ & Hr); [|unfold zlen; lia].
  pose proof (format_configuration_Ok _ _ _ _ (wc_config _ _ Hw)) as (_ & _ & _ & _ & _ & Hdeg & _).
  split; [|unfold zlen; lia]. split.
  - eapply Forall_impl; [exact Hr|]. intros v [Hv _]. rewrite (po_length _ _ Hp) in Hv. unfold zlen in Hsmall. unfold_widths. lia.
  - apply StronglySorted_Sorted, (Forall_lookup_1 _ _ _ _ (po_sorted _ _ Hp) Hx).
Qed.

Lemma prefix_fits :
  0 <= vector_prefix index ∧ vector_prefix index + 4 * bp_max_degree (ix_build_params index) <= 4096.
Proof.
  pose proof (format_configuration_Ok _ _ _ _ (wc_config _ _ Hw)) as (_ & _ & _ & _ & _ & Hdeg & _).
  pose proof (format_configuration_page _ _ _ _ (wc_config _ _ Hw) (it_d _ Ht) (it_degree _ Ht) (it_record _ Ht)) as Hpage. pose proof (it_d _ Ht).
  unfold vector_prefix. destruct (bp_storage_layout (ix_build_params index)); [lia|]. specialize (Hpage eq_refl).
  destruct (bp_raw_vector_encoding (ix_build_params index)); cbn in *; lia.
Qed.

Lemma po_planned : ∃ layout, plan_adjacency_layout (graph_adjacency (graph prepared)) (vector_prefix index) = Ok layout ∧
  inside_pages (locators layout) ∧ 0 < page_count layout < 2 ^ 32.
Proof.
  destruct po_lists as [Hlists Hdegrees]. destruct prefix_fits as [Hprefix Hfit].
  pose proof (format_configuration_Ok _ _ _ _ (wc_config _ _ Hw)) as (_ & _ & _ & _ & Hdeg0 & Hdeg & _).
  assert (zlen (graph_adjacency (graph prepared)) = zlen (ix_ids index)) as Hlen by (unfold zlen; by rewrite (po_length _ _ Hp)).
  destruct (plan_loop_total (graph_adjacency (graph prepared)) (vector_prefix index) (bp_max_degree (ix_build_params index)) 0 0) as (locs & last & E & Hlast);
    [done|done|lia|lia|done|lia|rewrite Hlen; unfold_widths; lia|unfold DISKANN_PAGE_SIZE; lia|].
  exists (Layout locs (last + 1)). unfold plan_adjacency_layout. rewrite E. split; [done|]. cbn [locators page_count]. split; [|rewrite Hlen in Hlast; unfold_widths; lia].
  apply plan_loop_planned in E; [|lia]. destruct (decide (2 <= zlen (ix_ids index))) as [Htwo|Htwo].
  { eapply planned_nonempty_inside; try done; try lia. apply (po_linked _ _ Hp). unfold zlen in Htwo. lia. }
  pose proof (it_degree _ Ht). pose proof (planned_length _ _ _ _ _ _ E) as Hll. rewrite (po_length _ _ Hp) in Hll. apply Forall_lookup. intros i loc Hi.
  assert (i = 0)%nat as -> by (apply lookup_lt_Some in Hi; unfold zlen in Htwo; lia).
  destruct locs as [|loc' locs]; [done|]. injection Hi as <-. inversion E; subst.
  match goal with Hn : next_place 0 0 _ = _, Hb : byte_offset loc' = _ |- _ => unfold next_place in Hn; rewrite Hb;
    destruct (_ <? _); injection Hn as _ <- end; unfold DISKANN_PAGE_SIZE; lia.
Qed.

Lemma prepared_writable : ∃ layout new_ids rids h,
  writable (x_f16_from_f32 X) (x_f16_is_finite X) index prepared layout new_ids rids h.
Proof.
  destruct po_lists as [Hlists Hdegrees]. destruct po_planned as (layout & Hplan & Hinside & Hpages).
  destruct (prepared_row_ids_listed index prepared (it_ids _ Ht) po_old) as (ids & Hids & Hidl & Hid64 & _).
  pose proof (wc_count _ _ Hw) as Hc. assert (count_ok (length (ix_ids index))) as Hcount by (split; unfold zlen in Hc; lia).
  destruct (encode_from_fn_spec (length (ix_ids index)) (λ i, default 0 (ids !! i)) Hcount) as (rids & Hrids & Hst).
  { intros i Hi. destruct (lookup_lt_is_Some_2 ids i) as [x Hx]; [lia|]. rewrite Hx. exact (Forall_lookup_1 _ _ _ _ Hid64 Hx). }
  destruct (serialized_len_stored _ _ _ Hst (proj2 Hcount)) as [_ Hlen]. pose proof (length_section rids) as Hsec. pose proof (zlen_nonneg (row_id_payload rids)).
  pose proof (format_configuration_Ok _ _ _ _ (wc_config _ _ Hw)) as (Hd & Hm & Hmd & Hbits & Hdeg0 & Hdeg & Hs & _).
  pose proof (it_record _ Ht) as Hrec. pose proof (it_d _ Ht) as Hd0. pose proof (it_degree _ Ht). pose proof (m_pos _ (wc_pq _ _ Hw)).
  assert (ix_d index <= 2 ^ 31) as Hd31 by (destruct (bp_raw_vector_encoding (ix_build_params index)); cbn in *; lia). change (2 ^ 31) with 2147483648 in Hd31.
  destruct (for_layout_total (ix_d index) (zlen (ix_ids index)) (graph_entry_node (graph prepared)) (q_m (ix_pq index)) (q_nbits (ix_pq index))
    (ix_metric index) (ix_build_params index) (zlen (concat (row_id_section_chunks rids))) (page_count layout)) as (h & Hh);
    [apply Hw|done|lia|done|done|lia|rewrite (po_entry _ _ Hp); lia|done|unfold zlen in *; lia|].
  exists layout, ids, rids, h. split; try done; try apply Hw; try apply Hp; try apply po_old; try apply po_encodable; try apply Ht.
  - split_and!; [rewrite (wc_pq_d _ _ Hw); unfold_widths; lia|unfold_widths; lia|apply Ht].
  - rewrite (po_entry _ _ Hp). unfold_widths. assert (0 <= q_nbits (ix_pq index) <= 8) by lia.
    split; try (apply Ht); unfold_widths; unfold zlen in *; lia.
Qed.

End Writable.


Lemma demo_ix_typed : index_typed demo_ix.
Proof.
  split; [by vm_compute|by vm_compute| | |by vm_compute|by vm_compute|by vm_compute].
  - replace (ix_ids demo_ix) with [30; 10; 20] by (vm_compute; reflexivity). repeat (apply Forall_cons_2; [by vm_compute|]). constructor.
  - assert (forallb (λ x, (0 <=? x) && (x <? 4294967296)) (q_centroids (ix_pq demo_ix)) = true) as Hall by (vm_compute; reflexivity).
    apply Forall_forall. intros x Hx%list_elem_of_In. apply (proj1 (forallb_forall _ _) Hall) in Hx. unfold_widths. lia.
Qed.

